(* ===== verification/_CoqProject ===== *)
-Q . S2P
Prelude.v
MmrIndex.v
Pmmr.v
MerkleProof.v
PmmrTheorems.v
Bytes.v
Compact.v
Consensus.v
Ser.v
Bitmap.v
PruneList.v
DataFile.v
FileBackend.v
StoreTheorems.v
PowTypes.v
Transaction.v
TxBody.v
Committed.v
Verifier.v
Aggregate.v
Block.v
CompactBlock.v
Pow.v
Pool.v
TransactionPool.v
ChainTypes.v
BitmapAccumulator.v
ChainStore.v
TxHashSet.v
TxHashSetState.v
TreeLaws.v
FileTrees.v
TreeElements.v
TxHashSetTheorems.v
ViewTheorems.v
RewindTheorems.v
UnitTheorems.v
OpenSet.v
SetExamples.v
Pipe.v
HeaderTheorems.v
ConnectTheorems.v
ForkTheorems.v
ForkExamples.v
PipeTheorems.v
OrphanPool.v
Chain.v
ChainState.v
ChainTheorems.v
ChainExamples.v
Words.v
Base58.v
Mnemonic.v
ExtKey.v
Hex.v
Keychain.v
RangeProofs.v
TxBuild.v
BuildTheorems.v
KeyExamples.v
PeerTypes.v
P2pMsg.v
Handshake.v
PeerStore.v
P2pExamples.v
Adapter.v
Peer.v
StreamCounts.v
Messages.v
Protocol.v
ProtocolTheorems.v
Conn.v
ConnTheorems.v
ConnExamples.v
Peers.v
PeersTheorems.v
Serv.v
PeersExamples.v
