(* ===== verification/Prelude.v ===== *)
(** * Verification of the vcash node

    vcash is a Mimblewimble node written in Rust (a fork of grin with token
    support, Bitcoin-style compact difficulty and merge mining).  This library models the
    parts of the node that decide what is a valid chain state and keep it: the crates [core] (transactions, blocks,
    consensus, Merkle mountain ranges, proofs of work, binary forms), [store] (the files of the ranges), [pool] (the
    transaction pool) and [chain] (the database, the transaction hash set, the block pipeline and the chain itself), with
    what they use of [keychain].  It proves the properties the rest of the node relies on.

    ** How the parts interact

    A block arrives at [Chain.chain_process_block] ([chain/src/chain.rs]).  It opens a batch of the store ([ChainStore]),
    runs [Pipe.process_block] ([chain/src/pipe.rs]) and commits the batch when the block is accepted.  The pipeline checks
    the header against its previous one ([Block], [Consensus], [Pow]), validates the body ([TxBody], [Committed],
    [Verifier]), and applies the block in a unit of work ([TxHashSet.extending]) to the seven trees of outputs, range
    proofs, kernels and their token counterparts, rewinding and following a fork first when needed.  An operation on trees
    that fails returns the trees it leaves with its error ([TxHashSet.outcome]), and the unit discards them.  Each tree is a
    [Pmmr.PMMR] over [FileBackend]: a hash file and a data file ([DataFile]), a leaf set and a prune list ([PruneList],
    [Bitmap]).  The bitmap of unspent outputs is committed to by [BitmapAccumulator].  Transactions wait in
    [TransactionPool], two [Pool]s on top of the chain, and are aggregated into blocks ([Aggregate]); blocks are announced
    as [CompactBlock]s.

    ** The files, the code they model, and what they hold

    Foundations
    - [Prelude]: outcomes of fallible code ([res]: [Ok], [Err], [Panic]), 64-bit machine arithmetic with its notations in
      [u64_scope], tactics, the hint databases [u64], lemmas on powers of two and bits, [binary_search].
    - [Bytes]: bytes, integers in both byte orders, [Hash::from_vec] ([core/src/core/hash.rs]).
    - [Ser]: [core/src/ser.rs]: the traits [Writer] and [Reader], both readers as instances, [read_multi], the order of
      hashes.  [ReaderLaws] is the interface between readers and formats: round trips are proved once for every reader.

    Merkle mountain ranges ([core/src/core/pmmr/], [core/src/core/merkle_proof.rs])
    - [MmrIndex]: the postorder position arithmetic of [pmmr.rs] ([peaks], [family], [peak_map_height], ...).  A position is
      related to its coordinates, the index of the last leaf below the node and its height.
    - [Pmmr]: the struct [PMMR]; the trait [Backend] as a type class with the laws [BackendLaws]; [VecBackend] as an
      instance; the views of [rewindable_pmmr.rs] and [readonly_pmmr.rs].
    - [MerkleProof], [PmmrTheorems]: proofs, and what the range promises against the abstract range (the list of the
      elements pushed so far).

    Storage ([store/src/])
    - [Bitmap]: the interface [CRoaring] to the roaring bitmaps, and finite sets as its instance.
    - [PruneList]: [prune_list.rs] and [leaf_set.rs], against the set of pruned leaves.
    - [DataFile]: [types.rs], append-only files with their buffers and size files.
    - [FileBackend]: [pmmr.rs], the persistent backend with its compaction.
    - [StoreTheorems]: a range on files under any operations is the range of the list they build.

    Consensus and proofs of work ([core/src/])
    - [Compact]: the compact targets of [pow/common.rs] over the interface [BigUint].
    - [Consensus]: [global.rs] and [consensus.rs]: chain parameters, rewards, header versions, retargeting.
    - [PowTypes], [Pow]: [pow/types.rs], and the verifiers of [pow/cuckatoo.rs], [cuckaroo.rs], [cuckarood.rs],
      [cuckaroom.rs] with [siphash.rs], and the readers of untrusted headers and blocks that call them.

    Transactions and blocks ([core/src/core/])
    - [Transaction], [TxBody]: inputs, outputs, kernels and their token variants, bodies and transactions of
      [transaction.rs]: builders, weights, fees, checks, binary forms per protocol version.
    - [Committed]: the trait [Committed] as a type class with its implementors, [block_sums.rs] and [BlindingFactor].  The
      curve library is the class [Secp]; [SecpLaws] is what the code relies on.
    - [Verifier]: [verifier_cache.rs], the checks of signatures and range proofs, [TransactionBody::validate].
    - [Aggregate]: [cut_through], [aggregate] and [deaggregate].
    - [Block], [CompactBlock]: [block.rs], [compact_block.rs], [id.rs]; headers, merge-mining data, blocks, their forms,
      building, validation and hydration; the block sums along a chain.

    The pool ([pool/src/])
    - [Pool]: [types.rs] and [pool.rs], over the record [BlockChain] of what the pool asks of the chain.
    - [TransactionPool]: [transaction_pool.rs], in a state and error monad, over the record [PoolAdapter].

    The chain ([chain/src/])
    - [ChainTypes]: [types.rs] and [error.rs], and the elements of the trees with their forms.
    - [BitmapAccumulator]: [txhashset/bitmap_accumulator.rs].
    - [ChainStore]: [store.rs] and the batches of [store/src/lmdb.rs].
    - [TxHashSet], [TxHashSetState], [OpenSet]: [txhashset/txhashset.rs], [utxo_view.rs], [rewindable_kernel_view.rs]:
      trees, extensions, units of work, views; the validation of a whole state, index rebuilding and compaction; opening.
    - [TreeLaws]: what the hash set relies on in its trees: the classes [TreeStore], [PrunableTree], [AppendTree].
      [FileTrees] and [TreeElements] discharge them for the trees on files and the elements they hold.
    - [TxHashSetTheorems], [ViewTheorems], [RewindTheorems], [UnitTheorems]: the hash set as an abstract ledger.
      [SetExamples]: two blocks on a set opened without files.
    - [Pipe]: [pipe.rs].  [HeaderTheorems], [ConnectTheorems], [ForkTheorems]: the header tree, connecting a block, and
      reorganisations.  [ForkExamples]: a reorganisation computed from empty files on.
    - [PipeTheorems]: what the pipeline does to the store.
    - [OrphanPool], [Chain], [ChainState]: [chain.rs]: orphans; processing and queries; validation, roots of a new block,
      compaction, fast sync, start.  [ChainTheorems], [ChainExamples]: the chain under any sequence of operations.

    Wallet keys and building ([keychain/src/], [core/src/libtx/])
    - [Words], [Base58], [Hex]: 32-bit words, numbers in base 256, the text forms of [base58.rs] and [util/src/hex.rs].
    - [Mnemonic]: [mnemonic.rs]; [ExtKey]: [extkey_bip32.rs]: private and public child keys, paths, their text forms.
    - [Keychain]: [keychain.rs] and [types.rs]: identifiers, blinding sums, the interface [Keychain].
    - [RangeProofs], [TxBuild]: [libtx/proof.rs], [aggsig.rs], [build.rs], [reward.rs]: range proofs and their rewinding,
      kernels, the combinators that build transactions, coinbase outputs.  [BuildTheorems], [KeyExamples].

    The network ([p2p/src/], [util/src/rate_counter.rs])
    - [PeerTypes]: [types.rs], [rate_counter.rs]: addresses, capabilities, difficulties, the state of a peer.
    - [P2pMsg]: [msg.rs]: headers of messages and every message with its two readers.
    - [Handshake]: [handshake.rs], both sides over one exchange; [PeerStore]: [store.rs].
    - [Adapter]: the traits [ChainAdapter] and [NetAdapter] as records of operations over the state of the node, and the
      LRU maps they use.  [Peer]: [peer.rs], a peer as the handles of its connection and the tracking adapter, in a cell.
    - [StreamCounts]: streaming readers count what they read.  [Messages]: every type of message arrives as it was sent.
    - [Protocol]: [protocol.rs], the whole dispatch of a message and its attachments.
      [ProtocolTheorems]: what a handler leaves on the stream.
    - [Conn]: [conn.rs]: the turns of the reader and of the writer of a connection.  [ConnTheorems], [ConnExamples].
    - [Peers]: [peers.rs], the map of the connected peers, shared by reference with their connections, hence a heap.
      [PeersTheorems], [PeersExamples].
    - [Serv]: [serv.rs]: accepting, connecting and the checks before.  [P2pExamples]: concrete messages.

    ** What the theorems show

    - Merkle mountain ranges: pushes over any lawful backend build exactly the abstract range and its root; rewinding
      undoes pushes; [validate] accepts exactly the hash files that are ranges; the proofs a range gives verify; pruning
      hides one leaf and keeps the root.
    - Storage: the range on files refines the list, whatever is pushed, removed, synced, discarded, rewound or compacted, and
      compaction keeps every read; the prune list tracks exactly the pruned leaves.
    - The hash set: applying a block succeeds exactly when the ledger accepts it and makes the ledger's step; rewinding
      brings trees, index and ledger back; a unit of work is atomic, also when its work fails half way; the view
      accepts what the ledger accepts; updating the accumulator equals rebuilding it; a new set is the empty ledger.
    - The pipeline and the chain: a reorganisation ends with the fork on top of the ledger at the fork point, each block
      accepted and committed to by its header; the header tree ends at the header; a processed block has the outcome
      [block_outcomes] says; under any sequence of operations the store stays typed and the head does not fall; the loop
      over the orphans stops and their pool is bounded; the search by kernel index ends at the right block.
    - Conservation of value: [verify_kernel_sums] accepts exactly what balances in the group behind the commitments;
      cut-through removes exactly the matching pairs; aggregation keeps the balance; a validated block creates its reward;
      along a chain the sums are the outputs minus the inputs minus the rewards.
    - Transactions, blocks and pools: transactions, headers, blocks and compact blocks survive writing and reading; what a
      reader accepts is sorted, unique and within the weight; validation verifies every uncached signature and range
      proof; the pools keep their invariant, apply to the chain after reconciliation and give mineable transactions.
    - Proofs of work and consensus: the verifiers accept exactly the simple cycles of the graph, and untrusted headers carry
      one; retargeting stays within its bounds; compact targets decode, compare and round-trip.
    - Keys and building: what the builder makes balances and its kernel verifies; a built reward is accepted by the block
      that carries it; the outputs of a seed are recovered by rewinding their proofs; deriving public keys follows deriving
      private ones; mnemonics and text forms round-trip.
    - The network: each type of message is read back as it was sent, but for the error, which has no room, and
      addresses, which arrive in their plain form; both sides of a handshake agree on
      the version and know each other; the peer store is a map; a well-formed message is consumed whole and exactly; the
      headers a peer asks for arrive; messages leave in the order they were queued, each once; a banned peer is neither
      connected nor accepted; cleaning and accepting keep the configured numbers of peers.
    - Deviations found while modelling are theorems or lemmas too, such as [rejected_header_stops_the_chain],
      [token_kernel_of_another_block], [search_above], [index_grows_with_repeats], [total_reward_after_64_halvings],
      [weight_as_block_wraps], [streaming_prefix_counted_twice], [running_token_sums_ignore_the_block],
      [cached_rangeproof_fits_any_commitment], [eviction_can_orphan_and_block], [buckets_misplace_grandchildren],
      [trailing_chunks_depend_on_history], [header_eq_ignores_pow].

    ** Interfaces to code outside the repository

    The curve library ([Secp], [SecpLaws], [SecpVerify]), hash functions ([Digest], [SipHasher]), the order of a std [HashSet] ([HashSets]), big integers ([BigUint]), roaring bitmaps ([CRoaring]), the LRU map
    ([LruCache]) and the clock ([Clock]) are classes; laws are stated for what their documentation says, and concrete
    instances in the example files show that they can hold.  LMDB is typed maps with batches as copies that are committed.
    The file operations of the standard library succeed.

    ** Integers, bounds and fuel

    An unsigned integer is a [Z] with its wrap-around written out: the release profile has no overflow checks.  Leaf counts
    and sizes of a range are assumed below [2^61] ([small_leaves]) where sums must not wrap; in the store, positions are
    32-bit and theorems ask for fewer than [2^30] leaves.  Every loop that is not structural runs on fuel that is proved
    enough or follows from a measure written beside it: 64 for loops that halve a 64-bit value or climb a tree;
    the sum of the lengths for merges; [2 * proof_size + 1] for following a cycle; the number of indices and the last chunk for the updates of
    the accumulator; the height of the header for walks back along previous headers ([walk_back], [fork_from],
    [rewind_blocks], [pos_to_rewind], [kernel_history], [find_head]); the number of orphans and one for [check_orphans];
    the width of the range and one for [search_header].  Where a loop of the code can fail to end, as [search_header] for an
    index above the last size, running out of fuel is [Panic], and the lemma that it does is stated.

    ** What is not modelled

    - Locks and threads: operations of the chain and the pool follow each other in a sequence.
    - Logging, progress callbacks and statistics, which no decision depends on.
    - The environment of LMDB (resizing, byte keys), [migrate_block], the zip archives and the
      kernel stream of the fast sync, temporary directories: input and output on files of external formats.
    - The miners and solvers of the proof of work, whose results the verifiers check.
    - Threads, sockets and timeouts: a connection is a sequence of turns, a socket the bytes still to arrive or sent so far.
    - The seeding of peers, the synchronisation state machines, the miner, the stratum server, the HTTP and RPC API, the
      user interface, the configuration files, the genesis constants and the JSON forms: input, output and presentation.
    - Loops of the network follow their data: [decimal] has the ten digits of a 32-bit number, [push_carry] runs on the
      carry, [send_chunks] on the length of the file, [copy_loop] and [download_loop] on the number of chunks and one,
      [headers_loop] on the number of headers.
*)

From Stdlib Require Import ZArith Lia List Bool.
From stdpp Require Import base numbers list option.

#[global] Open Scope Z_scope.

(** ** Outcomes of fallible code

    [Ok] and [Err] are Rust's [Result]; [Panic] is an aborted computation
    (a failed [assert!], [expect] or [unwrap], an index out of range). *)
Inductive res (E A : Type) : Type :=
| Ok (a : A)
| Err (e : E)
| Panic.
Arguments Ok {E A} a.
Arguments Err {E A} e.
Arguments Panic {E A}.

Definition res_bind {E A B} (c : res E A) (k : A -> res E B) : res E B :=
  match c with Ok a => k a | Err e => Err e | Panic => Panic end.

(** [map_err]: the error conversion behind [?] and [.map_err(..)]. *)
Definition map_err {E F A} (f : E -> F) (c : res E A) : res F A :=
  match c with Ok a => Ok a | Err e => Err (f e) | Panic => Panic end.

(** [.ok_or(e)] *)
Definition ok_or {E A} (o : option A) (e : E) : res E A :=
  match o with Some a => Ok a | None => Err e end.

Definition is_ok {E A} (c : res E A) : bool :=
  match c with Ok _ => true | _ => false end.

(** The steps of a computation that succeeded *)
Lemma bind_ok {E A B} (c : res E A) (k : A -> res E B) b : res_bind c k = Ok b -> exists a, c = Ok a /\ k a = Ok b.
Proof. destruct c; [eauto|discriminate..]. Qed.
Lemma map_err_ok_inv {E F A} (f : E -> F) (c : res E A) a : map_err f c = Ok a -> c = Ok a.
Proof. destruct c; [intros [= ->]; reflexivity|discriminate..]. Qed.
Lemma ok_or_ok {E A} (o : option A) (e : E) a : ok_or o e = Ok a -> o = Some a.
Proof. destruct o; [intros [= ->]; reflexivity|discriminate]. Qed.

Declare Scope res_scope.
Delimit Scope res_scope with res.
Notation "'let?' x := c 'in' k" := (res_bind c (fun x => k))
  (at level 10, x name, c at level 100, k at level 200) : res_scope.
Notation "'let?' ' p := c 'in' k" := (res_bind c (fun p => k))
  (at level 10, p pattern, c at level 100, k at level 200) : res_scope.
#[global] Open Scope res_scope.

(** ** Computations that pass a state along, and leave it behind also when they fail *)

Section Effects.
  Context {V E : Type}.

Definition vm (A : Type) : Type := V -> res E A * V.
Definition vret {A} (a : A) : vm A := fun v => (Ok a, v).
Definition vlift {A} (c : res E A) : vm A := fun v => (c, v).
Definition vbind {A B} (c : vm A) (k : A -> vm B) : vm B := fun v =>
  match c v with
  | (Ok a, v) => k a v
  | (Err e, v) => (Err e, v)
  | (Panic, v) => (Panic, v)
  end.
(** [c.ok()]: an error is forgotten, a panic is not *)
Definition vtry {A} (c : vm A) : vm (option A) := fun v =>
  match c v with
  | (Ok a, v) => (Ok (Some a), v)
  | (Err e, v) => (Ok None, v)
  | (Panic, v) => (Panic, v)
  end.
End Effects.
Arguments vm V E A : clear implicits.

Lemma vbind_ok {V E A C} (m : vm V E A) (k : A -> vm V E C) v c v' :
  vbind m k v = (Ok c, v') -> exists a v1, m v = (Ok a, v1) /\ k a v1 = (Ok c, v').
Proof. unfold vbind. destruct (m v) as [[a|e|] v1]; [eauto|discriminate..]. Qed.

Notation "'let@' x := c 'in' k" := (vbind c (fun x => k))
  (at level 10, x name, c at level 100, k at level 200) : res_scope.

(** ** Machine integers

    An unsigned integer of [w] bits is a [Z] in [0 .. 2^w - 1].  The crates are
    built without [overflow-checks], so [+], [-], [*] and [<<] wrap around and a
    shift amount is taken modulo the width. *)
Abbreviation U64 := 18446744073709551616%Z.
Abbreviation U32 := 4294967296%Z.

Definition is_u64 (x : Z) : Prop := 0 <= x < U64.
Definition is_u32 (x : Z) : Prop := 0 <= x < U32.

Definition u64_max : Z := U64 - 1.

Definition wrap64 (x : Z) : Z := x mod U64.
Definition wrap32 (x : Z) : Z := x mod U32.

Definition add64 (x y : Z) : Z := wrap64 (x + y).
Definition sub64 (x y : Z) : Z := wrap64 (x - y).
Definition mul64 (x y : Z) : Z := wrap64 (x * y).
Definition shl64 (x n : Z) : Z := wrap64 (Z.shiftl x (n mod 64)).
Definition shr64 (x n : Z) : Z := Z.shiftr x (n mod 64).

Definition saturating_add64 (x y : Z) : Z := Z.min (x + y) u64_max.
Definition saturating_sub (x y : Z) : Z := Z.max 0 (x - y).
Definition saturating_mul64 (x y : Z) : Z := Z.min (x * y) u64_max.

Declare Scope u64_scope.
Delimit Scope u64_scope with u64.
#[global] Arguments wrap64 : simpl never.
#[global] Arguments wrap32 : simpl never.
#[global] Arguments add64 (x y)%_u64_scope : simpl never.
#[global] Arguments sub64 (x y)%_u64_scope : simpl never.
#[global] Arguments mul64 (x y)%_u64_scope : simpl never.
#[global] Arguments shl64 (x n)%_u64_scope : simpl never.
#[global] Arguments shr64 (x n)%_u64_scope : simpl never.
#[global] Arguments Z.mul : simpl never.
#[global] Arguments Z.pow : simpl never.
Infix "+" := add64 : u64_scope.
Infix "-" := sub64 : u64_scope.
Infix "*" := mul64 : u64_scope.
Infix "<<" := shl64 (at level 35, right associativity) : u64_scope.
Infix ">>" := shr64 (at level 35, right associativity) : u64_scope.
Infix "&" := Z.land (at level 40, left associativity) : u64_scope.

(** Number of significant bits. *)
Definition bit_length (x : Z) : Z := if x <=? 0 then 0 else Z.log2 x + 1.

(** [u64::leading_zeros] *)
Definition leading_zeros64 (x : Z) : Z := 64 - bit_length x.

Fixpoint pos_count_ones (p : positive) : Z :=
  match p with
  | xH => 1
  | xO p => pos_count_ones p
  | xI p => 1 + pos_count_ones p
  end.

(** [u64::count_ones] *)
Definition count_ones (x : Z) : Z :=
  match x with Zpos p => pos_count_ones p | _ => 0 end.

(** ** Tactics *)

(** Unfold the wrapping operations and discharge the range side conditions. *)
Ltac unwrap64 :=
  unfold add64, sub64, mul64, wrap64, wrap32, saturating_add64, saturating_sub,
    saturating_mul64, u64_max, is_u64, is_u32 in *.

Ltac ulia := unwrap64; Z.div_mod_to_equations; lia.

(** Case analysis on a boolean comparison of the goal. *)
Ltac zcases :=
  repeat match goal with
  | |- context [ ?x =? ?y ] => destruct (Z.eqb_spec x y)
  | |- context [ ?x <? ?y ] => destruct (Z.ltb_spec x y)
  | |- context [ ?x <=? ?y ] => destruct (Z.leb_spec x y)
  end.

(** ** Generic facts on powers of two and bits *)

Lemma pow2_pos (k : Z) : 0 <= k -> 0 < 2 ^ k.
Proof. intros; apply Z.pow_pos_nonneg; lia. Qed.

Lemma pow2_succ (k : nat) : 2 ^ Z.of_nat (S k) = 2 * 2 ^ Z.of_nat k.
Proof. rewrite Nat2Z.inj_succ, Z.pow_succ_r by lia; lia. Qed.

Lemma pow2_le_u64 (k : Z) : 0 <= k <= 64 -> 2 ^ k <= U64.
Proof. intros; change U64 with (2 ^ 64); apply Z.pow_le_mono_r; lia. Qed.

Lemma bit_length_spec x : 0 < x -> 2 ^ (bit_length x - 1) <= x < 2 ^ bit_length x.
Proof.
  intros H. unfold bit_length. destruct (Z.leb_spec x 0); [lia|].
  pose proof (Z.log2_spec x H). replace (Z.log2 x + 1 - 1) with (Z.log2 x) by lia.
  rewrite Z.add_1_r. lia.
Qed.

Lemma bit_length_pos x : 0 < x -> 0 < bit_length x.
Proof.
  intros H. unfold bit_length. destruct (Z.leb_spec x 0); [lia|].
  pose proof (Z.log2_nonneg x). lia.
Qed.

Lemma bit_length_le x k : 0 <= k -> x < 2 ^ k -> bit_length x <= k.
Proof.
  intros Hk H. unfold bit_length. destruct (Z.leb_spec x 0); [lia|].
  apply Z.log2_lt_pow2 in H; lia.
Qed.

Lemma bit_length_lt_pow2 x : x < 2 ^ bit_length x.
Proof.
  destruct (Z.ltb_spec 0 x) as [H|H]; [apply bit_length_spec; lia|].
  unfold bit_length. destruct (Z.leb_spec x 0); simpl; lia.
Qed.

Lemma bit_length_mono x y : x <= y -> bit_length x <= bit_length y.
Proof.
  intros H. apply bit_length_le.
  - unfold bit_length. pose proof (Z.log2_nonneg y). destruct (y <=? 0); lia.
  - pose proof (bit_length_lt_pow2 y). lia.
Qed.

Lemma wrap64_small x : is_u64 x -> wrap64 x = x.
Proof. unfold wrap64, is_u64. intros; apply Z.mod_small; lia. Qed.

Lemma shr64_ones_leading_zeros x :
  0 < x < U64 -> (u64_max >> leading_zeros64 x)%u64 = 2 ^ bit_length x - 1.
Proof.
  intros H. pose proof (bit_length_pos x ltac:(lia)).
  assert (Hl : bit_length x <= 64) by (apply bit_length_le; [lia|exact (proj2 H)]).
  unfold shr64, leading_zeros64. rewrite Z.mod_small by lia.
  rewrite Z.shiftr_div_pow2 by lia.
  change u64_max with (2 ^ 64 - 1).
  replace (2 ^ 64) with (2 ^ (64 - bit_length x) * 2 ^ bit_length x).
  2: { rewrite <- Z.pow_add_r by lia. f_equal. lia. }
  pose proof (pow2_pos (64 - bit_length x) ltac:(lia)).
  symmetry. apply Z.div_unique with (2 ^ (64 - bit_length x) - 1); lia.
Qed.

Lemma shr64_ones_step (k : nat) :
  ((2 ^ Z.of_nat (S k) - 1)%Z >> 1)%u64 = 2 ^ Z.of_nat k - 1.
Proof.
  unfold shr64. change (1 mod 64) with 1. rewrite Z.shiftr_div_pow2 by lia.
  rewrite pow2_succ. change (2 ^ 1) with 2. symmetry.
  apply Z.div_unique with 1; lia.
Qed.

Lemma land_pow2_testbit n h :
  0 <= n -> 0 <= h -> (Z.land n (2 ^ h) =? 0) = negb (Z.testbit n h).
Proof.
  intros Hn Hh. destruct (Z.testbit n h) eqn:E; simpl.
  - apply Z.eqb_neq. intros H0.
    assert (Z.testbit (Z.land n (2 ^ h)) h = false) by (rewrite H0; apply Z.bits_0).
    rewrite Z.land_spec, E, Z.pow2_bits_true in H by lia. discriminate.
  - apply Z.eqb_eq. apply Z.bits_inj'. intros i Hi.
    rewrite Z.land_spec, Z.bits_0, Z.pow2_bits_eqb by lia.
    destruct (Z.eqb_spec h i); subst; rewrite ?E; simpl; auto using andb_false_r.
Qed.

Lemma shl64_1 h : 0 <= h < 64 -> (1 << h)%u64 = 2 ^ h.
Proof.
  intros H. unfold shl64. rewrite Z.mod_small, Z.shiftl_1_l by lia.
  apply wrap64_small. split; [apply Z.pow_nonneg; lia|].
  change U64 with (2 ^ 64). apply Z.pow_lt_mono_r; lia.
Qed.

Lemma shl64_double b : 0 <= b -> 2 * b < U64 -> (b << 1)%u64 = 2 * b.
Proof.
  intros. unfold shl64. change (1 mod 64) with 1. rewrite Z.shiftl_mul_pow2 by lia.
  rewrite wrap64_small by (unfold is_u64; lia). lia.
Qed.

Lemma lor_double_1 b : 0 <= b -> Z.lor (2 * b) 1 = 2 * b + 1.
Proof. destruct b; [reflexivity|reflexivity|lia]. Qed.

Lemma add64_small x y : 0 <= x + y < U64 -> (x + y)%u64 = x + y.
Proof. intros. unfold add64. apply wrap64_small. exact H. Qed.

Lemma sub64_small x y : 0 <= x - y < U64 -> (x - y)%u64 = x - y.
Proof. intros. unfold sub64. apply wrap64_small. exact H. Qed.

Lemma mul64_small x y : 0 <= x * y < U64 -> (x * y)%u64 = x * y.
Proof. intros. unfold mul64. apply wrap64_small. exact H. Qed.

(** Wrapping operations that do not wrap, and the positivity of powers. *)
Create Rewrite HintDb u64.
Create HintDb u64.
#[export] Hint Rewrite add64_small sub64_small mul64_small using lia : u64.
#[export] Hint Resolve pow2_pos wrap64_small : u64.

Lemma add_pow2_setbit m h :
  0 <= h -> Z.testbit m h = false -> m + 2 ^ h = Z.setbit m h.
Proof.
  intros Hh Hb. rewrite Z.setbit_spec'. rewrite Z.add_nocarry_lxor.
  - rewrite Z.lxor_lor; [done|]. apply Z.bits_inj'. intros i Hi.
    rewrite Z.land_spec, Z.bits_0, Z.pow2_bits_eqb by lia.
    destruct (Z.eqb_spec h i) as [<-|]; rewrite ?Hb; auto using andb_false_r.
  - apply Z.bits_inj'. intros i Hi.
    rewrite Z.land_spec, Z.bits_0, Z.pow2_bits_eqb by lia.
    destruct (Z.eqb_spec h i) as [<-|]; rewrite ?Hb; auto using andb_false_r.
Qed.

Lemma sub_pow2_clearbit n h :
  0 <= h -> Z.testbit n h = true -> n - 2 ^ h = Z.clearbit n h.
Proof.
  intros Hh Hb. enough (Z.clearbit n h + 2 ^ h = n) by lia.
  rewrite add_pow2_setbit; [|done|apply Z.clearbit_eq].
  apply Z.bits_inj'. intros i Hi.
  rewrite Z.setbit_eqb, Z.clearbit_eqb by lia.
  destruct (Z.eqb_spec h i) as [<-|]; rewrite ?Hb; simpl; auto using andb_true_r.
Qed.

Lemma testbit_nonneg_sub n h : 0 <= n -> 0 <= h -> Z.testbit n h = true -> 2 ^ h <= n.
Proof.
  intros Hn Hh Hb. destruct (Z.leb_spec (2 ^ h) n) as [|Hlt]; [done|].
  rewrite Z.testbit_eqb, Z.div_small in Hb by lia. discriminate.
Qed.

(** Masks and disjoint unions of bit ranges. *)
Lemma land_low_disjoint x y k : 0 <= k -> 0 <= x < 2 ^ k -> Z.land x (y * 2 ^ k) = 0.
Proof.
  intros Hk Hx. apply Z.bits_inj'. intros i Hi. rewrite Z.land_spec, Z.bits_0.
  destruct (Z.ltb_spec i k).
  - rewrite Z.mul_pow2_bits_low by lia. apply andb_false_r.
  - assert (2 ^ k <= 2 ^ i) by (apply Z.pow_le_mono_r; lia).
    rewrite Z.testbit_eqb, Z.div_small by lia. done.
Qed.

Lemma lor_low_add x y k : 0 <= k -> 0 <= x < 2 ^ k -> Z.lor x (y * 2 ^ k) = x + y * 2 ^ k.
Proof. intros Hk Hx. pose proof (Z.add_lor_land x (y * 2 ^ k)). rewrite land_low_disjoint in H by done. lia. Qed.

Lemma testbit_top x k : 0 <= k -> 0 <= x < 2 ^ (k + 1) -> Z.testbit x k = (2 ^ k <=? x).
Proof.
  intros Hk Hx. rewrite Z.pow_add_r, Z.pow_1_r in Hx by lia. pose proof (pow2_pos k Hk).
  rewrite Z.testbit_eqb by lia. destruct (Z.leb_spec (2 ^ k) x).
  - replace (x / 2 ^ k) with 1 by (apply Z.div_unique with (x - 2 ^ k); lia). done.
  - rewrite Z.div_small by lia. done.
Qed.

(** ** Searching a sorted slice

    [slice::binary_search_by] on a sorted slice without duplicates: the index of
    the element that compares equal, or the index where it would be inserted. *)
Inductive search_result := Found (i : nat) | NotFound (i : nat).

Fixpoint binary_search_by {A} (cmp : A -> comparison) (l : list A) : search_result :=
  match l with
  | [] => NotFound 0
  | a :: l =>
    match cmp a with
    | Lt =>
      match binary_search_by cmp l with
      | Found i => Found (S i)
      | NotFound i => NotFound (S i)
      end
    | Eq => Found 0
    | Gt => NotFound 0
    end
  end.

Definition binary_search (l : list Z) (x : Z) : search_result :=
  binary_search_by (fun a => Z.compare a x) l.

Lemma binary_search_notin l x : ~ In x l -> exists i, binary_search l x = NotFound i.
Proof.
  unfold binary_search. induction l as [|a l IH]; intros Hn; simpl; [eauto|].
  destruct (Z.compare_spec a x) as [->|Hlt|Hgt].
  - destruct Hn. left. done.
  - destruct IH as [i ->]; [intros Hin; apply Hn; right; done|]. eauto.
  - eauto.
Qed.

Lemma binary_search_at pre x post :
  Forall (fun a => a < x) pre -> binary_search (pre ++ x :: post) x = Found (length pre).
Proof.
  unfold binary_search. induction pre as [|a pre IH]; intros Hall; simpl.
  - rewrite Z.compare_refl. done.
  - inversion Hall as [|? ? Ha Hpre]; subst. rewrite (proj2 (Z.compare_lt_iff a x)) by done.
    rewrite IH by done. done.
Qed.
