(* ===== verification/MmrIndex.v ===== *)
(** * Position arithmetic of the Merkle Mountain Range

    Models the free functions of [core/src/core/pmmr/pmmr.rs] (lines 395-591):
    the postorder index computations on which the whole PMMR is built.  The
    definitions keep the 64-bit arithmetic and the greedy loops of the source;
    the theorems relate them to the coordinates of a node: the index [n] of the
    last leaf below it and its height [h]. *)

From Stdlib Require Import ZArith Lia List Bool Sorted.
From stdpp Require Import base numbers list option.
From S2P Require Import Prelude.

(** ** Definitions *)

(** [ALL_ONES] *)
Definition ALL_ONES : Z := u64_max.

(** The [while peak_size != 0] loop of [peaks].  A loop over [peak_size] halves
    it at every turn, so 64 turns exhaust a [u64]. *)
Fixpoint peaks_loop (fuel : nat) (peak_size num_left sum_prev_peaks : Z)
    (peaks : list Z) : Z * list Z :=
  match fuel with
  | O => (num_left, peaks)
  | S fuel =>
    if peak_size =? 0 then (num_left, peaks)
    else if peak_size <=? num_left then
      peaks_loop fuel (peak_size >> 1)%u64 (num_left - peak_size)%u64
        (sum_prev_peaks + peak_size)%u64
        (peaks ++ [(sum_prev_peaks + peak_size)%u64])
    else peaks_loop fuel (peak_size >> 1)%u64 num_left sum_prev_peaks peaks
  end.

(** [pmmr::peaks] *)
Definition peaks (num : Z) : list Z :=
  if num =? 0 then []
  else
    let peak_size := (ALL_ONES >> leading_zeros64 num)%u64 in
    let '(num_left, peaks) := peaks_loop 64 peak_size num 0 [] in
    if 0 <? num_left then [] else peaks.

(** The loop of [peak_sizes_height]. *)
Fixpoint peak_sizes_loop (fuel : nat) (peak_size size_left : Z) (sizes : list Z)
    : list Z * Z :=
  match fuel with
  | O => (sizes, size_left)
  | S fuel =>
    if peak_size =? 0 then (sizes, size_left)
    else if peak_size <=? size_left then
      peak_sizes_loop fuel (peak_size >> 1)%u64 (size_left - peak_size)%u64
        (sizes ++ [peak_size])
    else peak_sizes_loop fuel (peak_size >> 1)%u64 size_left sizes
  end.

(** [pmmr::peak_sizes_height] *)
Definition peak_sizes_height (size : Z) : list Z * Z :=
  if size =? 0 then ([], 0)
  else
    peak_sizes_loop 64 (ALL_ONES >> leading_zeros64 size)%u64 size [].

(** [pmmr::n_leaves] *)
Definition n_leaves (size : Z) : Z :=
  let '(sizes, height) := peak_sizes_height size in
  let nleaves := fold_left add64 (map (fun n => (n + 1)%u64 / 2) sizes) 0 in
  if height =? 0 then nleaves else (nleaves + 1)%u64.

(** [pmmr::insertion_to_pmmr_index] *)
Definition insertion_to_pmmr_index (sz : Z) : Z :=
  if sz =? 0 then 0
  else
    let sz := (sz - 1)%u64 in
    (2 * sz - count_ones sz + 1)%u64.

(** The loop of [peak_map_height]. *)
Fixpoint peak_map_loop (fuel : nat) (peak_size pos bitmap : Z) : Z * Z :=
  match fuel with
  | O => (bitmap, pos)
  | S fuel =>
    if peak_size =? 0 then (bitmap, pos)
    else
      let bitmap := (bitmap << 1)%u64 in
      if peak_size <=? pos then
        peak_map_loop fuel (peak_size >> 1)%u64 (pos - peak_size)%u64
          (Z.lor bitmap 1)
      else peak_map_loop fuel (peak_size >> 1)%u64 pos bitmap
  end.

(** [pmmr::peak_map_height] *)
Definition peak_map_height (pos : Z) : Z * Z :=
  if pos =? 0 then (0, 0)
  else peak_map_loop 64 (ALL_ONES >> leading_zeros64 pos)%u64 pos 0.

(** [pmmr::bintree_postorder_height] *)
Definition bintree_postorder_height (num : Z) : Z :=
  if num =? 0 then 0 else snd (peak_map_height (num - 1)%u64).

(** [pmmr::is_leaf] *)
Definition is_leaf (pos : Z) : bool := bintree_postorder_height pos =? 0.

(** [pmmr::family] *)
Definition family (pos : Z) : Z * Z :=
  let '(peak_map, height) := peak_map_height (pos - 1)%u64 in
  let peak := (1 << height)%u64 in
  if negb ((peak_map & peak)%u64 =? 0) then
    ((pos + 1)%u64, (pos + 1 - 2 * peak)%u64)
  else ((pos + 2 * peak)%u64, (pos + 2 * peak - 1)%u64).

(** [pmmr::is_left_sibling] *)
Definition is_left_sibling (pos : Z) : bool :=
  let '(peak_map, height) := peak_map_height (pos - 1)%u64 in
  let peak := (1 << height)%u64 in
  (peak_map & peak)%u64 =? 0.

(** The loop of [path].  [peak] doubles at every turn. *)
Fixpoint path_loop (fuel : nat) (peak_map peak current last_pos : Z)
    (path : list Z) : list Z :=
  match fuel with
  | O => path
  | S fuel =>
    if current <=? last_pos then
      path_loop fuel peak_map (peak << 1)%u64
        (current + (if negb ((peak_map & peak)%u64 =? 0) then 1 else (2 * peak)%u64))%u64
        last_pos (path ++ [current])
    else path
  end.

(** [pmmr::path] *)
Definition path (pos last_pos : Z) : list Z :=
  let '(peak_map, height) := peak_map_height (pos - 1)%u64 in
  path_loop 64 peak_map (1 << height)%u64 pos last_pos [].

(** The loop of [family_branch]. *)
Fixpoint family_branch_loop (fuel : nat) (peak_map peak current last_pos : Z)
    (branch : list (Z * Z)) : list (Z * Z) :=
  match fuel with
  | O => branch
  | S fuel =>
    if current <? last_pos then
      let '(current, sibling) :=
        if negb ((peak_map & peak)%u64 =? 0) then
          let current := (current + 1)%u64 in (current, (current - 2 * peak)%u64)
        else
          let current := (current + 2 * peak)%u64 in (current, (current - 1)%u64) in
      if last_pos <? current then branch
      else
        family_branch_loop fuel peak_map (peak << 1)%u64 current last_pos
          (branch ++ [(current, sibling)])
    else branch
  end.

(** [pmmr::family_branch] *)
Definition family_branch (pos last_pos : Z) : list (Z * Z) :=
  let '(peak_map, height) := peak_map_height (pos - 1)%u64 in
  family_branch_loop 64 peak_map (1 << height)%u64 pos last_pos [].

(** [pmmr::bintree_rightmost] *)
Definition bintree_rightmost (num : Z) : Z := (num - bintree_postorder_height num)%u64.

(** [pmmr::bintree_leftmost] *)
Definition bintree_leftmost (num : Z) : Z :=
  let height := bintree_postorder_height num in
  (num + 2 - (2 << height))%u64.

(** ** Coordinates of a node

    The [n]-th leaf (from 0) is followed in postorder by the parents whose right
    spine ends in it, one per trailing one bit of [n].  A node is thus a pair
    [(n, h)] with [0 <= h <= trailing_ones n]; its 0-based position is
    [mmr_size n + h]. *)

Fixpoint pos_trailing_ones (p : positive) : Z :=
  match p with
  | xH => 1
  | xO _ => 0
  | xI p => 1 + pos_trailing_ones p
  end.

Definition trailing_ones (n : Z) : Z :=
  match n with Zpos p => pos_trailing_ones p | _ => 0 end.

(** Number of nodes of the range once [n] leaves are in. *)
Definition mmr_size (n : Z) : Z := 2 * n - count_ones n.

(** 1-based position of the node [(n, h)]. *)
Definition node_pos (n h : Z) : Z := mmr_size n + h + 1.

Definition is_node (n h : Z) : Prop := 0 <= n /\ 0 <= h <= trailing_ones n.

(** Leaf counts for which no 64-bit computation on positions wraps. *)
Definition small_leaves (n : Z) : Prop := 0 <= n < 2 ^ 61.

Lemma count_ones_double n : 0 <= n -> count_ones (2 * n) = count_ones n.
Proof. intros Hn. destruct n; [reflexivity|reflexivity|lia]. Qed.

Lemma count_ones_succ_double n : 0 <= n -> count_ones (2 * n + 1) = 1 + count_ones n.
Proof. intros Hn. destruct n; [reflexivity|reflexivity|lia]. Qed.

Lemma trailing_ones_double n : 0 <= n -> trailing_ones (2 * n) = 0.
Proof. intros Hn. destruct n; [reflexivity|reflexivity|lia]. Qed.

Lemma trailing_ones_succ_double n :
  0 <= n -> trailing_ones (2 * n + 1) = 1 + trailing_ones n.
Proof. intros Hn. destruct n; [reflexivity|reflexivity|lia]. Qed.

(** Induction on the binary digits, least significant first. *)
Lemma binary_ind (P : Z -> Prop) :
  P 0 -> (forall n, 0 <= n -> P n -> P (2 * n)) ->
  (forall n, 0 <= n -> P n -> P (2 * n + 1)) -> forall n, 0 <= n -> P n.
Proof.
  intros H0 HO HI n Hn. destruct n as [|p|p]; [exact H0| |lia].
  induction p as [p IH|p IH|].
  - apply (HI (Z.pos p)); [lia|]. apply IH; lia.
  - apply (HO (Z.pos p)); [lia|]. apply IH; lia.
  - apply (HI 0); [lia|exact H0].
Qed.

Lemma count_ones_bounds n : 0 <= n -> 0 <= count_ones n <= n.
Proof.
  revert n. apply binary_ind; intros; rewrite ?count_ones_double,
    ?count_ones_succ_double by lia; simpl; lia.
Qed.

Lemma trailing_ones_nonneg n : 0 <= trailing_ones n.
Proof.
  destruct n as [|p|p]; simpl; try lia. induction p; simpl; lia.
Qed.

Lemma count_ones_succ n :
  0 <= n -> count_ones (n + 1) = count_ones n + 1 - trailing_ones n.
Proof.
  revert n. apply binary_ind; [reflexivity|intros n Hn _|intros n Hn IH].
  - rewrite count_ones_succ_double, count_ones_double, trailing_ones_double by lia. lia.
  - replace (2 * n + 1 + 1) with (2 * (n + 1)) by lia.
    rewrite count_ones_double, IH, count_ones_succ_double, trailing_ones_succ_double
      by lia. lia.
Qed.

Lemma mmr_size_succ n :
  0 <= n -> mmr_size (n + 1) = mmr_size n + trailing_ones n + 1.
Proof. intros. unfold mmr_size. rewrite count_ones_succ by lia. lia. Qed.

Lemma mmr_size_bounds n : 0 <= n -> n <= mmr_size n <= 2 * n.
Proof. intros. unfold mmr_size. pose proof (count_ones_bounds n). lia. Qed.

Lemma mmr_size_mono n m : 0 <= n <= m -> mmr_size n <= mmr_size m.
Proof.
  intros [Hn Hm]. replace m with (n + Z.of_nat (Z.to_nat (m - n))) by lia.
  induction (Z.to_nat (m - n)) as [|k IH]; [rewrite Z.add_0_r; lia|].
  rewrite Nat2Z.inj_succ, <- Z.add_1_r, Z.add_assoc, mmr_size_succ by lia.
  pose proof (trailing_ones_nonneg (n + Z.of_nat k)). lia.
Qed.

Lemma mmr_size_strict n m : 0 <= n < m -> mmr_size n + trailing_ones n < mmr_size m.
Proof.
  intros H. pose proof (mmr_size_mono (n + 1) m ltac:(lia)).
  rewrite mmr_size_succ in H0 by lia. lia.
Qed.

(** Every 0-based position is a node, in exactly one way. *)
Lemma node_exists p : 0 <= p -> exists n h, is_node n h /\ p = mmr_size n + h.
Proof.
  intros Hp. pattern p. apply natlike_ind; [|intros x Hx (n & h & [Hn Hh] & ->)|exact Hp].
  { exists 0, 0. split; [split; simpl; lia|reflexivity]. }
  destruct (Z.eq_dec h (trailing_ones n)) as [->|Hne].
  - exists (n + 1), 0. pose proof (trailing_ones_nonneg (n + 1)).
    split; [split; lia|]. rewrite mmr_size_succ by lia. lia.
  - exists n, (h + 1). split; [split; lia|lia].
Qed.

Lemma node_unique n h n' h' :
  is_node n h -> is_node n' h' -> mmr_size n + h = mmr_size n' + h' -> n = n' /\ h = h'.
Proof.
  intros [Hn Hh] [Hn' Hh'] E.
  destruct (Z.lt_trichotomy n n') as [L|[->|L]]; [|split; lia|].
  - pose proof (mmr_size_strict n n' ltac:(lia)). lia.
  - pose proof (mmr_size_strict n' n ltac:(lia)). lia.
Qed.

Lemma count_ones_pow2_add (k : nat) n :
  0 <= n < 2 ^ Z.of_nat k -> count_ones (2 ^ Z.of_nat k + n) = 1 + count_ones n.
Proof.
  revert n; induction k as [|k IH]; intros n Hn.
  { simpl in Hn. replace n with 0 by lia. reflexivity. }
  rewrite pow2_succ in *.
  assert (E : n = 2 * (n / 2) \/ n = 2 * (n / 2) + 1) by (Z.div_mod_to_equations; lia).
  assert (0 <= n / 2 < 2 ^ Z.of_nat k) by (Z.div_mod_to_equations; lia).
  destruct E as [E|E]; rewrite E.
  - replace (2 * 2 ^ Z.of_nat k + 2 * (n / 2)) with (2 * (2 ^ Z.of_nat k + n / 2)) by lia.
    rewrite !count_ones_double, IH by lia. lia.
  - replace (2 * 2 ^ Z.of_nat k + (2 * (n / 2) + 1))
      with (2 * (2 ^ Z.of_nat k + n / 2) + 1) by lia.
    rewrite !count_ones_succ_double, IH by lia. lia.
Qed.

Lemma trailing_ones_pow2_add (k : nat) n :
  0 <= n < 2 ^ Z.of_nat k - 1 -> trailing_ones (2 ^ Z.of_nat k + n) = trailing_ones n.
Proof.
  revert n; induction k as [|k IH]; intros n Hn; [simpl in Hn; lia|].
  rewrite pow2_succ in *.
  assert (E : n = 2 * (n / 2) \/ n = 2 * (n / 2) + 1) by (Z.div_mod_to_equations; lia).
  destruct E as [E|E]; rewrite E.
  - replace (2 * 2 ^ Z.of_nat k + 2 * (n / 2)) with (2 * (2 ^ Z.of_nat k + n / 2)) by lia.
    rewrite !trailing_ones_double by lia. reflexivity.
  - replace (2 * 2 ^ Z.of_nat k + (2 * (n / 2) + 1))
      with (2 * (2 ^ Z.of_nat k + n / 2) + 1) by lia.
    rewrite !trailing_ones_succ_double, IH by lia. reflexivity.
Qed.

Lemma trailing_ones_bound (k : nat) n :
  0 <= n < 2 ^ Z.of_nat k -> trailing_ones n <= Z.of_nat k.
Proof.
  revert n; induction k as [|k IH]; intros n Hn.
  { simpl in Hn. replace n with 0 by lia. simpl; lia. }
  rewrite pow2_succ in Hn.
  assert (E : n = 2 * (n / 2) \/ n = 2 * (n / 2) + 1) by (Z.div_mod_to_equations; lia).
  destruct E as [E|E]; rewrite E.
  - rewrite trailing_ones_double by lia. lia.
  - rewrite trailing_ones_succ_double by lia. specialize (IH (n / 2) ltac:(lia)). lia.
Qed.

Lemma mmr_size_pow2_add (k : nat) n :
  0 <= n < 2 ^ Z.of_nat k ->
  mmr_size (2 ^ Z.of_nat k + n) = 2 ^ Z.of_nat (S k) - 1 + mmr_size n.
Proof. intros. unfold mmr_size. rewrite count_ones_pow2_add, pow2_succ by lia. lia. Qed.

(** ** The greedy decomposition of a size

    All three loops subtract the perfect-tree sizes [2^k - 1] from the largest
    down; [greedy k n h] is the invariant that the size left is that of [n < 2^k]
    leaves and a remainder [h]. *)
Definition greedy (k : nat) (n h : Z) : Prop :=
  0 <= n < 2 ^ Z.of_nat k /\ 0 <= h /\ (h <= trailing_ones n \/ n = 2 ^ Z.of_nat k - 1).

Lemma greedy_hi k n h :
  greedy (S k) n h -> 2 ^ Z.of_nat k <= n ->
  greedy k (n - 2 ^ Z.of_nat k) h /\
  mmr_size n = 2 ^ Z.of_nat (S k) - 1 + mmr_size (n - 2 ^ Z.of_nat k).
Proof.
  intros (Hn & Hh & Hor) Hle. rewrite pow2_succ in Hn, Hor.
  pose proof (mmr_size_pow2_add k (n - 2 ^ Z.of_nat k) ltac:(lia)) as E.
  replace (2 ^ Z.of_nat k + (n - 2 ^ Z.of_nat k)) with n in E by lia.
  split; [|exact E]. split; [lia|split; [lia|]].
  destruct (Z.eq_dec n (2 * 2 ^ Z.of_nat k - 1)) as [->|Hne]; [right; lia|].
  destruct Hor as [Hor|]; [|lia]. left.
  pose proof (trailing_ones_pow2_add k (n - 2 ^ Z.of_nat k) ltac:(lia)) as Ht.
  replace (2 ^ Z.of_nat k + (n - 2 ^ Z.of_nat k)) with n in Ht by lia. lia.
Qed.

Lemma greedy_lo k n h :
  greedy (S k) n h -> n < 2 ^ Z.of_nat k ->
  greedy k n h /\ 0 <= mmr_size n + h < 2 ^ Z.of_nat (S k) - 1.
Proof.
  intros (Hn & Hh & Hor) Hlt. rewrite pow2_succ in *.
  destruct Hor as [Hor|]; [|lia]. split; [split; [lia|split; [lia|left; lia]]|].
  pose proof (mmr_size_bounds n ltac:(lia)).
  pose proof (mmr_size_strict n (2 ^ Z.of_nat k) ltac:(lia)).
  pose proof (mmr_size_pow2_add k 0 ltac:(lia)) as E.
  rewrite Z.add_0_r, pow2_succ in E. change (mmr_size 0) with 0 in E. lia.
Qed.

Lemma greedy_start n h :
  is_node n h -> 0 < mmr_size n + h ->
  greedy (Z.to_nat (bit_length (mmr_size n + h))) n h.
Proof.
  intros [Hn Hh] Hp. pose proof (bit_length_pos _ Hp).
  pose proof (bit_length_spec _ Hp). pose proof (mmr_size_bounds n Hn).
  split; rewrite Z2Nat.id by lia; [lia|split; [lia|left; lia]].
Qed.

Lemma ones_nonzero (k : nat) : (2 ^ Z.of_nat (S k) - 1 =? 0) = false.
Proof. apply Z.eqb_neq. rewrite pow2_succ. pose proof (pow2_pos (Z.of_nat k)). lia. Qed.

(** The three loops share one case analysis. *)
Ltac greedy_cases k n h Hg :=
  destruct (Z.ltb_spec n (2 ^ Z.of_nat k)) as [Hlt|Hge];
  [ pose proof (greedy_lo k n h Hg Hlt) as [Hg' Hb];
    rewrite (proj2 (Z.leb_gt _ _)) by lia
  | pose proof (greedy_hi k n h Hg Hge) as [Hg' HE];
    assert (0 <= mmr_size (n - 2 ^ Z.of_nat k)) by
      (destruct Hg'; pose proof (mmr_size_bounds (n - 2 ^ Z.of_nat k)); lia);
    assert (0 <= h) by (destruct Hg' as (_ & ? & _); assumption);
    rewrite (proj2 (Z.leb_le _ _)) by lia ].

Lemma peak_map_loop_spec (k fuel : nat) n h b :
  greedy k n h -> (k <= fuel)%nat -> 0 <= b -> b * 2 ^ Z.of_nat k + n < U64 ->
  mmr_size n + h < U64 ->
  peak_map_loop fuel (2 ^ Z.of_nat k - 1) (mmr_size n + h) b
  = (b * 2 ^ Z.of_nat k + n, h).
Proof.
  revert fuel n b; induction k as [|k IH]; intros fuel n b Hg Hf Hb0 Hn Hs.
  { destruct Hg as (Hg & _). simpl in Hg, Hn. replace n with 0 by lia.
    destruct fuel; simpl; f_equal; lia. }
  destruct fuel as [|fuel]; [lia|]. simpl peak_map_loop.
  rewrite ones_nonzero, shr64_ones_step.
  pose proof Hg as ((Hn0 & Hn1) & _). rewrite pow2_succ in Hn, Hn1.
  pose proof (pow2_pos (Z.of_nat k) ltac:(lia)).
  rewrite shl64_double by nia.
  greedy_cases k n h Hg.
  - rewrite IH by (assumption || lia || nia). f_equal. rewrite pow2_succ. lia.
  - rewrite lor_double_1, HE, sub64_small by lia.
    replace (2 ^ Z.of_nat (S k) - 1 + mmr_size (n - 2 ^ Z.of_nat k) + h
             - (2 ^ Z.of_nat (S k) - 1)) with (mmr_size (n - 2 ^ Z.of_nat k) + h) by lia.
    rewrite IH by (assumption || lia || nia). f_equal. rewrite pow2_succ. lia.
Qed.

Lemma node_start_bits n h :
  is_node n h -> 0 < mmr_size n + h < U64 ->
  (Z.to_nat (bit_length (mmr_size n + h)) <= 64)%nat /\
  (ALL_ONES >> leading_zeros64 (mmr_size n + h))%u64
  = 2 ^ Z.of_nat (Z.to_nat (bit_length (mmr_size n + h))) - 1.
Proof.
  intros Hn Hp. pose proof (bit_length_pos (mmr_size n + h) ltac:(lia)).
  assert (bit_length (mmr_size n + h) <= 64) by (apply bit_length_le; [lia|exact (proj2 Hp)]).
  rewrite Z2Nat.id by lia. split; [lia|]. apply shr64_ones_leading_zeros. lia.
Qed.

(** The height and the peak bitmap of the node at a position: its coordinates. *)
Lemma peak_map_height_node n h :
  is_node n h -> mmr_size n + h < U64 -> peak_map_height (mmr_size n + h) = (n, h).
Proof.
  intros Hnode Hs. pose proof Hnode as [Hn Hh]. pose proof (mmr_size_bounds n Hn).
  unfold peak_map_height. destruct (Z.eqb_spec (mmr_size n + h) 0) as [E|E].
  { f_equal; lia. }
  destruct (node_start_bits n h Hnode ltac:(lia)) as [Hb ->].
  rewrite peak_map_loop_spec; [f_equal; lia|apply greedy_start; [done|lia]|lia|lia|lia|lia].
Qed.

Lemma peaks_sizes_loop_spec (k fuel : nat) n h acc :
  greedy k n h -> (k <= fuel)%nat -> mmr_size n + h < U64 - 1 ->
  exists sizes,
    peak_sizes_loop fuel (2 ^ Z.of_nat k - 1) (mmr_size n + h) acc = (acc ++ sizes, h) /\
    Forall (fun s => 0 <= s < U64 - 1) sizes /\
    fold_right Z.add 0 (map (fun s => (s + 1) / 2) sizes) = n.
Proof.
  revert fuel n acc; induction k as [|k IH]; intros fuel n acc Hg Hf Hs.
  { destruct Hg as (Hg & _). simpl in Hg. replace n with 0 by lia.
    exists []. destruct fuel; simpl; rewrite app_nil_r; repeat split; auto. }
  destruct fuel as [|fuel]; [lia|]. simpl peak_sizes_loop.
  rewrite ones_nonzero, shr64_ones_step.
  greedy_cases k n h Hg.
  - apply IH; [assumption|lia|lia].
  - rewrite HE, sub64_small by lia.
    replace (2 ^ Z.of_nat (S k) - 1 + mmr_size (n - 2 ^ Z.of_nat k) + h
             - (2 ^ Z.of_nat (S k) - 1)) with (mmr_size (n - 2 ^ Z.of_nat k) + h) by lia.
    destruct (IH fuel (n - 2 ^ Z.of_nat k) (acc ++ [2 ^ Z.of_nat (S k) - 1]))
      as (sizes & -> & Hall & Hsum); [assumption|lia|lia|].
    exists ((2 ^ Z.of_nat (S k) - 1) :: sizes). rewrite <- app_assoc. split; [done|].
    pose proof (pow2_pos (Z.of_nat k) ltac:(lia)). split.
    + constructor; [|exact Hall]. split; [rewrite pow2_succ; lia|lia].
    + simpl. rewrite Hsum, pow2_succ.
      replace ((2 * 2 ^ Z.of_nat k - 1 + 1) / 2) with (2 ^ Z.of_nat k); [lia|].
      apply Z.div_unique with 0; lia.
Qed.

(** Peaks of a range of [n < 2^k] leaves whose nodes follow position [base],
    from the highest to the lowest. *)
Fixpoint peak_positions (k : nat) (base n : Z) : list Z :=
  match k with
  | O => []
  | S k =>
    let size := 2 ^ Z.of_nat (S k) - 1 in
    if 2 ^ Z.of_nat k <=? n then
      (base + size) :: peak_positions k (base + size) (n - 2 ^ Z.of_nat k)
    else peak_positions k base n
  end.

Lemma peaks_loop_spec (k fuel : nat) n h base acc :
  greedy k n h -> (k <= fuel)%nat -> 0 <= base -> base + mmr_size n + h < U64 ->
  peaks_loop fuel (2 ^ Z.of_nat k - 1) (mmr_size n + h) base acc
  = (h, acc ++ peak_positions k base n).
Proof.
  revert fuel n base acc; induction k as [|k IH]; intros fuel n base acc Hg Hf Hbase Hs.
  { destruct Hg as (Hg & _). simpl in Hg. replace n with 0 by lia.
    destruct fuel; simpl; rewrite app_nil_r; done. }
  destruct fuel as [|fuel]; [lia|]. simpl peaks_loop; simpl peak_positions.
  rewrite ones_nonzero, shr64_ones_step.
  greedy_cases k n h Hg.
  - rewrite (proj2 (Z.leb_gt _ _)) by lia. apply IH; (assumption || lia).
  - rewrite (proj2 (Z.leb_le _ _)) by lia.
    pose proof (pow2_pos (Z.of_nat (S k)) ltac:(lia)).
    rewrite HE, sub64_small, add64_small by lia.
    replace (2 ^ Z.of_nat (S k) - 1 + mmr_size (n - 2 ^ Z.of_nat k) + h
             - (2 ^ Z.of_nat (S k) - 1)) with (mmr_size (n - 2 ^ Z.of_nat k) + h) by lia.
    rewrite IH, <- app_assoc by (assumption || lia). done.
Qed.

Lemma peak_positions_widen (k : nat) (d : nat) base n :
  n < 2 ^ Z.of_nat k -> peak_positions (d + k) base n = peak_positions k base n.
Proof.
  intros Hn. induction d as [|d IH]; [done|]. simpl.
  assert (2 ^ Z.of_nat k <= 2 ^ Z.of_nat (d + k)) by (apply Z.pow_le_mono_r; lia).
  rewrite (proj2 (Z.leb_gt _ _)) by lia. exact IH.
Qed.

Lemma peaks_node n h :
  is_node n h -> mmr_size n + h < U64 ->
  peaks (mmr_size n + h) = if h =? 0 then peak_positions 64 0 n else [].
Proof.
  intros Hnode Hs. pose proof Hnode as [Hn Hh]. pose proof (mmr_size_bounds n Hn).
  unfold peaks. destruct (Z.eqb_spec (mmr_size n + h) 0) as [E|E].
  { replace n with 0 by lia. replace h with 0 by lia. reflexivity. }
  pose proof (bit_length_spec (mmr_size n + h) ltac:(lia)).
  pose proof (bit_length_pos (mmr_size n + h) ltac:(lia)).
  destruct (node_start_bits n h Hnode ltac:(lia)) as [Hb ->].
  rewrite peaks_loop_spec by (lia || (apply greedy_start; [done|lia])).
  destruct (Z.eqb_spec h 0) as [->|]; [|rewrite (proj2 (Z.ltb_lt _ _)) by lia; done].
  change (0 <? 0) with false. cbv iota. rewrite app_nil_l.
  set (k := Z.to_nat (bit_length (mmr_size n + 0))) in *.
  replace 64%nat with ((64 - k) + k)%nat by lia. rewrite peak_positions_widen; [done|].
  subst k. rewrite Z2Nat.id by lia. lia.
Qed.


(** ** Bits of the leaf index *)

Lemma testbit_below_trailing_ones n i :
  0 <= n -> 0 <= i < trailing_ones n -> Z.testbit n i = true.
Proof.
  intros Hn. revert n Hn i.
  apply (binary_ind (fun n => forall i, 0 <= i < trailing_ones n -> Z.testbit n i = true)).
  - simpl; lia.
  - intros n Hn _ i Hi. rewrite trailing_ones_double in Hi by lia. lia.
  - intros n Hn IH i Hi. rewrite trailing_ones_succ_double in Hi by lia.
    destruct (Z.eq_dec i 0) as [->|]; [apply Z.testbit_odd_0|].
    replace i with (Z.succ (i - 1)) by lia. rewrite Z.testbit_odd_succ by lia.
    apply IH. lia.
Qed.

Lemma testbit_trailing_ones n : 0 <= n -> Z.testbit n (trailing_ones n) = false.
Proof.
  revert n. apply binary_ind.
  - reflexivity.
  - intros n Hn _. rewrite trailing_ones_double by lia. apply Z.testbit_even_0.
  - intros n Hn IH. rewrite trailing_ones_succ_double by lia.
    pose proof (trailing_ones_nonneg n).
    replace (1 + trailing_ones n) with (Z.succ (trailing_ones n)) by lia.
    rewrite Z.testbit_odd_succ by lia. exact IH.
Qed.

Lemma trailing_ones_ge n j :
  0 <= n -> (forall i, 0 <= i < j -> Z.testbit n i = true) -> j <= trailing_ones n.
Proof.
  intros Hn H. destruct (Z.leb_spec j (trailing_ones n)) as [|Hlt]; [done|].
  pose proof (trailing_ones_nonneg n).
  specialize (H (trailing_ones n) ltac:(lia)).
  rewrite testbit_trailing_ones in H by lia. discriminate.
Qed.

Lemma trailing_ones_char n j :
  0 <= n -> 0 <= j -> (forall i, 0 <= i < j -> Z.testbit n i = true) ->
  Z.testbit n j = false -> trailing_ones n = j.
Proof.
  intros Hn Hj Hlow Hb. pose proof (trailing_ones_ge n j Hn Hlow).
  destruct (Z.eq_dec j (trailing_ones n)) as [|Hne]; [done|].
  rewrite testbit_below_trailing_ones in Hb by lia. discriminate.
Qed.

Lemma testbit_node n h :
  is_node n h -> Z.testbit n h = (h <? trailing_ones n).
Proof.
  intros [Hn Hh]. destruct (Z.ltb_spec h (trailing_ones n)).
  - apply testbit_below_trailing_ones; lia.
  - replace h with (trailing_ones n) by lia. apply testbit_trailing_ones; lia.
Qed.

Lemma count_ones_add_pow2 m h :
  0 <= m -> 0 <= h -> Z.testbit m h = false ->
  count_ones (m + 2 ^ h) = count_ones m + 1.
Proof.
  intros Hm Hh. revert m Hm. pattern h. apply natlike_ind; [| |exact Hh].
  - intros m Hm Hb. change (2 ^ 0) with 1.
    rewrite Z.bit0_odd in Hb.
    assert (E : m = 2 * (m / 2)).
    { pose proof (Zmod_odd m). rewrite Hb in H. Z.div_mod_to_equations; lia. }
    rewrite E, count_ones_succ_double, count_ones_double by lia. lia.
  - intros k Hk IH m Hm Hb. rewrite Z.pow_succ_r by lia.
    rewrite <- Z.div2_bits in Hb by lia.
    pose proof (IH (m / 2) ltac:(Z.div_mod_to_equations; lia) Hb) as IH'.
    assert (0 <= m / 2) by (Z.div_mod_to_equations; lia).
    pose proof (pow2_pos k Hk).
    assert (E : m = 2 * (m / 2) \/ m = 2 * (m / 2) + 1) by (Z.div_mod_to_equations; lia).
    destruct E as [E|E]; rewrite E at 1 2.
    + rewrite <- Z.mul_add_distr_l, !count_ones_double by lia. exact IH'.
    + replace (2 * (m / 2) + 1 + 2 * 2 ^ k) with (2 * (m / 2 + 2 ^ k) + 1) by lia.
      rewrite !count_ones_succ_double by lia. lia.
Qed.

(** Parent and sibling in coordinates. *)
Lemma right_child_sibling n h :
  is_node n h -> h < trailing_ones n ->
  is_node (n - 2 ^ h) h /\ trailing_ones (n - 2 ^ h) = h /\
  mmr_size (n - 2 ^ h) = mmr_size n - 2 * 2 ^ h + 1.
Proof.
  intros [Hn Hh] Hlt.
  assert (Hb : Z.testbit n h = true) by (apply testbit_below_trailing_ones; lia).
  pose proof (testbit_nonneg_sub n h Hn ltac:(lia) Hb).
  pose proof (sub_pow2_clearbit n h ltac:(lia) Hb) as Hc.
  assert (Hb' : Z.testbit (n - 2 ^ h) h = false) by (rewrite Hc; apply Z.clearbit_eq).
  assert (Ht : trailing_ones (n - 2 ^ h) = h).
  { apply trailing_ones_char; [lia|lia| |done]. intros i Hi.
    rewrite Hc, Z.clearbit_neq by lia. apply testbit_below_trailing_ones; lia. }
  pose proof (count_ones_add_pow2 (n - 2 ^ h) h ltac:(lia) ltac:(lia) Hb') as E.
  replace (n - 2 ^ h + 2 ^ h) with n in E by lia.
  split; [split; lia|]. split; [done|]. unfold mmr_size. lia.
Qed.

Lemma left_child_sibling n h :
  is_node n h -> h = trailing_ones n ->
  is_node (n + 2 ^ h) (h + 1) /\ mmr_size (n + 2 ^ h) = mmr_size n + 2 * 2 ^ h - 1.
Proof.
  intros [Hn Hh] Heq.
  assert (Hb : Z.testbit n h = false) by (rewrite Heq; apply testbit_trailing_ones; lia).
  pose proof (pow2_pos h ltac:(lia)).
  pose proof (count_ones_add_pow2 n h Hn ltac:(lia) Hb) as E.
  split; [|unfold mmr_size; lia]. split; [lia|]. split; [lia|].
  apply trailing_ones_ge; [lia|]. intros i Hi. rewrite add_pow2_setbit by (lia || done).
  rewrite Z.setbit_eqb by lia. destruct (Z.eqb_spec h i); [done|]. simpl.
  apply testbit_below_trailing_ones; lia.
Qed.

Lemma pow2_trailing_ones n : 0 <= n -> 2 ^ trailing_ones n <= n + 1.
Proof.
  revert n. apply binary_ind; [simpl; lia| |].
  - intros n Hn _. rewrite trailing_ones_double by lia. simpl. lia.
  - intros n Hn IH. pose proof (trailing_ones_nonneg n).
    rewrite trailing_ones_succ_double, Z.add_1_l, Z.pow_succ_r by lia. lia.
Qed.

Lemma pow2_node n h : is_node n h -> 2 ^ h <= n + 1.
Proof.
  intros [Hn Hh]. pose proof (pow2_trailing_ones n Hn).
  assert (2 ^ h <= 2 ^ trailing_ones n) by (apply Z.pow_le_mono_r; lia). lia.
Qed.

Lemma node_height_small n h : is_node n h -> small_leaves n -> 0 <= h <= 61.
Proof.
  intros Hn [_ Hs]. pose proof Hn as [Hn0 Hh]. split; [lia|].
  apply (Z.pow_le_mono_r_iff 2); [lia|lia|]. pose proof (pow2_node n h Hn). lia.
Qed.

Lemma node_pos_bounds n h :
  is_node n h -> small_leaves n -> 1 <= node_pos n h /\ node_pos n h + 2 * 2 ^ h < U64.
Proof.
  intros Hn Hs. pose proof (pow2_node n h Hn). pose proof (node_height_small n h Hn Hs).
  destruct Hn as [Hn Hh]. pose proof (mmr_size_bounds n Hn). unfold node_pos.
  destruct Hs as [_ Hs]. change (2 ^ 61) with 2305843009213693952 in Hs. lia.
Qed.

Lemma peak_map_height_pos n h :
  is_node n h -> small_leaves n -> peak_map_height (node_pos n h - 1)%u64 = (n, h).
Proof.
  intros Hn Hs. pose proof (node_pos_bounds n h Hn Hs).
  pose proof (pow2_pos h ltac:(destruct Hn; lia)).
  rewrite sub64_small by lia. unfold node_pos in *.
  replace (mmr_size n + h + 1 - 1) with (mmr_size n + h) by lia.
  apply peak_map_height_node; [done|lia].
Qed.

Lemma height_node n h :
  is_node n h -> small_leaves n -> bintree_postorder_height (node_pos n h) = h.
Proof.
  intros Hn Hs. pose proof (node_pos_bounds n h Hn Hs). unfold bintree_postorder_height.
  rewrite (proj2 (Z.eqb_neq _ _)) by lia. rewrite peak_map_height_pos by done. done.
Qed.

(** Coordinates of the parent and of the sibling of [(n, h)]. *)
Definition parent_node (n h : Z) : Z * Z :=
  if Z.testbit n h then (n, h + 1) else (n + 2 ^ h, h + 1).
Definition sibling_node (n h : Z) : Z * Z :=
  if Z.testbit n h then (n - 2 ^ h, h) else (n + 2 ^ h, h).

Lemma parent_is_node n h : is_node n h -> is_node (parent_node n h).1 (parent_node n h).2.
Proof.
  intros Hn. unfold parent_node. rewrite testbit_node by done.
  destruct (Z.ltb_spec h (trailing_ones n)); simpl.
  - destruct Hn; split; lia.
  - apply left_child_sibling; [done|destruct Hn; lia].
Qed.

Lemma sibling_is_node n h : is_node n h -> is_node (sibling_node n h).1 (sibling_node n h).2.
Proof.
  intros Hn. unfold sibling_node. rewrite testbit_node by done.
  destruct (Z.ltb_spec h (trailing_ones n)); simpl.
  - apply right_child_sibling; done.
  - destruct (left_child_sibling n h Hn ltac:(destruct Hn; lia)) as [[? ?] _].
    destruct Hn; split; lia.
Qed.

Lemma family_node n h :
  is_node n h -> small_leaves n ->
  family (node_pos n h) =
  (node_pos (parent_node n h).1 (parent_node n h).2,
   node_pos (sibling_node n h).1 (sibling_node n h).2).
Proof.
  intros Hn Hs. pose proof (node_pos_bounds n h Hn Hs). pose proof (node_height_small n h Hn Hs).
  unfold family. rewrite peak_map_height_pos by done. rewrite shl64_1 by lia.
  rewrite land_pow2_testbit, negb_involutive by (destruct Hn; lia).
  pose proof (pow2_pos h ltac:(lia)). change (2 ^ 61) with 2305843009213693952 in *.
  unfold parent_node, sibling_node. rewrite testbit_node by done.
  destruct (Z.ltb_spec h (trailing_ones n)) as [Hlt|Hge]; simpl.
  - destruct (right_child_sibling n h Hn Hlt) as ([? ?] & _ & E).
    pose proof (mmr_size_bounds (n - 2 ^ h) ltac:(lia)).
    rewrite !add64_small, mul64_small, sub64_small by (unfold node_pos in *; lia).
    unfold node_pos. f_equal; lia.
  - destruct (left_child_sibling n h Hn ltac:(destruct Hn; lia)) as [_ E].
    rewrite mul64_small, !add64_small, sub64_small by (unfold node_pos in *; lia).
    unfold node_pos. f_equal; lia.
Qed.

Lemma is_left_sibling_node n h :
  is_node n h -> small_leaves n ->
  is_left_sibling (node_pos n h) = negb (Z.testbit n h).
Proof.
  intros Hn Hs. pose proof (node_height_small n h Hn Hs).
  unfold is_left_sibling. rewrite peak_map_height_pos by done. rewrite shl64_1 by lia.
  apply land_pow2_testbit; destruct Hn; lia.
Qed.

Lemma is_leaf_node n h :
  is_node n h -> small_leaves n -> is_leaf (node_pos n h) = (h =? 0).
Proof. intros. unfold is_leaf. rewrite height_node by done. done. Qed.

Lemma leaf_is_node n : 0 <= n -> is_node n 0.
Proof. intros; split; [lia|]. pose proof (trailing_ones_nonneg n); lia. Qed.

(** ** Leaves *)

Lemma fold_left_add64 l a :
  Forall (fun s => 0 <= s) l -> 0 <= a -> a + fold_right Z.add 0 l < U64 ->
  fold_left add64 l a = a + fold_right Z.add 0 l.
Proof.
  revert a; induction l as [|x l IH]; intros a Hall Ha Hs; simpl in *; [lia|].
  inversion Hall; subst.
  assert (0 <= fold_right Z.add 0 l).
  { clear -H2. induction H2; simpl; lia. }
  rewrite add64_small, IH by (assumption || lia). lia.
Qed.

Lemma n_leaves_node n h :
  is_node n h -> mmr_size n + h < U64 - 1 ->
  n_leaves (mmr_size n + h) = n + (if h =? 0 then 0 else 1).
Proof.
  intros Hnode Hs. pose proof Hnode as [Hn Hh]. pose proof (mmr_size_bounds n Hn).
  unfold n_leaves, peak_sizes_height. destruct (Z.eqb_spec (mmr_size n + h) 0) as [E|E].
  { replace n with 0 by lia. replace h with 0 by lia. reflexivity. }
  destruct (node_start_bits n h Hnode ltac:(lia)) as [Hb ->].
  destruct (peaks_sizes_loop_spec (Z.to_nat (bit_length (mmr_size n + h))) 64 n h [])
    as (sizes & -> & Hall & Hsum); [apply greedy_start; [done|lia]|lia|lia|].
  rewrite app_nil_l.
  assert (Em : map (fun s => (s + 1)%u64 / 2) sizes = map (fun s => (s + 1) / 2) sizes).
  { apply map_ext_in. intros s Hin. f_equal. apply add64_small.
    pose proof (proj1 (List.Forall_forall _ _) Hall s Hin). simpl in *. lia. }
  assert (Hpos : Forall (fun s => 0 <= s) (map (fun s => (s + 1) / 2) sizes)).
  { apply List.Forall_map. eapply List.Forall_impl; [|exact Hall]. intros s Hs'.
    simpl in Hs'. Z.div_mod_to_equations; lia. }
  rewrite Em, fold_left_add64, Hsum by (assumption || lia).
  destruct (h =? 0); [lia|]. rewrite add64_small; lia.
Qed.

Lemma insertion_index_node n :
  small_leaves n -> insertion_to_pmmr_index (n + 1) = node_pos n 0.
Proof.
  intros Hs. pose proof (node_pos_bounds n 0 (leaf_is_node n (proj1 Hs)) Hs) as Hb.
  pose proof (mmr_size_bounds n (proj1 Hs)).
  destruct Hs as [Hn Hs]. change (2 ^ 61) with 2305843009213693952 in Hs.
  unfold insertion_to_pmmr_index. rewrite (proj2 (Z.eqb_neq _ _)) by lia.
  unfold node_pos, mmr_size in *. rewrite (sub64_small (n + 1) 1) by lia.
  replace (n + 1 - 1) with n by lia.
  autorewrite with u64. lia.
Qed.

(** ** Climbing to the peak *)

(** Positions met from [(n, h)] upwards as long as they stay in the range. *)
Fixpoint climb (fuel : nat) (n h last : Z) : list Z :=
  match fuel with
  | O => []
  | S fuel =>
    if node_pos n h <=? last then
      node_pos n h :: climb fuel (parent_node n h).1 (parent_node n h).2 last
    else []
  end.

Lemma climb_S (fuel : nat) n h last :
  climb (S fuel) n h last =
  if node_pos n h <=? last then
    node_pos n h :: climb fuel (parent_node n h).1 (parent_node n h).2 last
  else [].
Proof. done. Qed.

Definition agree_above (h n n0 : Z) : Prop :=
  forall i, h <= i -> Z.testbit n i = Z.testbit n0 i.

Lemma parent_height n h : (parent_node n h).2 = h + 1.
Proof. unfold parent_node. destruct (Z.testbit n h); reflexivity. Qed.

Lemma parent_agree n h n0 :
  is_node n h -> agree_above h n n0 -> agree_above (h + 1) (parent_node n h).1 n0.
Proof.
  intros [Hn Hh] Ha i Hi. unfold parent_node. destruct (Z.testbit n h) eqn:E; simpl.
  - apply Ha; lia.
  - rewrite add_pow2_setbit, Z.setbit_neq by (done || lia). apply Ha; lia.
Qed.

Lemma node_pos_ge_pow2 n h : is_node n h -> 2 * 2 ^ h - 1 <= node_pos n h.
Proof.
  intros Hn. pose proof (pow2_node n h Hn) as Hp. destruct Hn as [Hn Hh].
  assert (E : mmr_size (2 ^ h - 1) = 2 * 2 ^ h - 2 - h).
  { pose proof (mmr_size_pow2_add (Z.to_nat h) 0) as E.
    rewrite Z2Nat.id, Z.add_0_r in E by lia.
    specialize (E ltac:(pose proof (pow2_pos h); lia)).
    assert (Ht : trailing_ones (2 ^ h - 1) = h).
    { apply trailing_ones_char; [pose proof (pow2_pos h); lia|lia| |];
        replace (2 ^ h - 1) with (Z.ones h) by (rewrite Z.ones_equiv; lia).
      - intros i Hi. apply Z.ones_spec_low; lia.
      - apply Z.ones_spec_high; lia. }
    pose proof (mmr_size_succ (2 ^ h - 1) ltac:(pose proof (pow2_pos h); lia)) as Es.
    replace (2 ^ h - 1 + 1) with (2 ^ h) in Es by lia. rewrite Ht in Es.
    change (mmr_size 0) with 0 in E.
    rewrite pow2_succ, Z2Nat.id in E by lia. lia. }
  pose proof (mmr_size_mono (2 ^ h - 1) n ltac:(pose proof (pow2_pos h); lia)).
  unfold node_pos. lia.
Qed.

Lemma node_pos_small_leaves n h last :
  is_node n h -> node_pos n h <= last -> last < 2 ^ 61 -> small_leaves n.
Proof.
  intros [Hn Hh] Hp Hl. pose proof (mmr_size_bounds n Hn). unfold node_pos in Hp.
  split; lia.
Qed.

Lemma climb_fuel (fuel d : nat) n h last :
  is_node n h -> last < 2 ^ 61 -> 61 <= Z.of_nat fuel + h ->
  climb (fuel + d) n h last = climb fuel n h last.
Proof.
  revert n h. induction fuel as [|fuel IH]; intros n h Hn Hl Hf.
  - pose proof (node_pos_ge_pow2 n h Hn).
    assert (2 ^ 61 <= 2 ^ h) by (apply Z.pow_le_mono_r; lia).
    destruct d; simpl; [done|]. rewrite (proj2 (Z.leb_gt _ _)) by lia. done.
  - simpl. destruct (node_pos n h <=? last); [|done]. f_equal.
    apply IH; [apply parent_is_node; done|done|rewrite parent_height; lia].
Qed.

(** One upward step of both loops, as the parent coordinates give it. *)
Lemma step_parent n h n0 :
  is_node n h -> small_leaves n -> agree_above h n n0 -> 0 <= n0 ->
  (if negb ((n0 & 2 ^ h)%u64 =? 0) then (node_pos n h + 1)%u64
   else (node_pos n h + 2 * (2 ^ h)%Z)%u64)
  = node_pos (parent_node n h).1 (parent_node n h).2.
Proof.
  intros Hn Hs Ha H0. pose proof (family_node n h Hn Hs) as F.
  unfold family in F. rewrite peak_map_height_pos in F by done.
  pose proof (node_height_small n h Hn Hs). rewrite shl64_1 in F by lia.
  rewrite land_pow2_testbit in * by (destruct Hn; lia).
  rewrite <- (Ha h) by lia.
  destruct (Z.testbit n h); simpl in *; congruence.
Qed.

Lemma path_loop_climb (fuel : nat) n h n0 last acc :
  is_node n h -> last < 2 ^ 61 -> agree_above h n n0 -> 0 <= n0 ->
  path_loop fuel n0 (2 ^ h) (node_pos n h) last acc = acc ++ climb fuel n h last.
Proof.
  revert n h acc. induction fuel as [|fuel IH]; intros n h acc Hn Hl Ha H0.
  { simpl. rewrite app_nil_r. done. }
  simpl. destruct (Z.leb_spec (node_pos n h) last) as [Hle|]; [|rewrite app_nil_r; done].
  pose proof (node_pos_small_leaves n h last Hn Hle Hl) as Hs.
  pose proof (node_height_small n h Hn Hs).
  pose proof (step_parent n h n0 Hn Hs Ha H0) as E.
  pose proof (pow2_pos h ltac:(lia)).
  assert (2 ^ h <= 2 ^ 61) by (apply Z.pow_le_mono_r; lia).
  change (2 ^ 61) with 2305843009213693952 in *.
  rewrite shl64_double by lia. rewrite <- Z.pow_succ_r, <- Z.add_1_r by lia.
  rewrite <- (parent_height n h).
  replace (node_pos n h + _)%u64 with (node_pos (parent_node n h).1 (parent_node n h).2)
    by (rewrite <- E; destruct (negb _); reflexivity).
  rewrite IH; [|apply parent_is_node; done|lia|rewrite parent_height; apply parent_agree; done|done].
  rewrite <- app_assoc. done.
Qed.

Lemma parent_pos_gt n h :
  is_node n h -> node_pos n h < node_pos (parent_node n h).1 (parent_node n h).2.
Proof.
  intros Hn. unfold parent_node. rewrite testbit_node by done.
  destruct (Z.ltb_spec h (trailing_ones n)); simpl; unfold node_pos; [lia|].
  destruct (left_child_sibling n h Hn ltac:(destruct Hn; lia)) as [_ E].
  pose proof (pow2_pos h ltac:(destruct Hn; lia)). lia.
Qed.

(** Parent and sibling positions met on the way up. *)
Fixpoint climb_family (fuel : nat) (n h last : Z) : list (Z * Z) :=
  match fuel with
  | O => []
  | S fuel =>
    let p := parent_node n h in
    let s := sibling_node n h in
    if node_pos p.1 p.2 <=? last then
      (node_pos p.1 p.2, node_pos s.1 s.2) :: climb_family fuel p.1 p.2 last
    else []
  end.

Lemma climb_family_S (fuel : nat) n h last :
  climb_family (S fuel) n h last =
  let p := parent_node n h in
  let s := sibling_node n h in
  if node_pos p.1 p.2 <=? last then
    (node_pos p.1 p.2, node_pos s.1 s.2) :: climb_family fuel p.1 p.2 last
  else [].
Proof. done. Qed.

Lemma path_loop_beyond (fuel : nat) peak_map peak pos last acc :
  last < pos -> path_loop fuel peak_map peak pos last acc = acc.
Proof.
  intros H. destruct fuel; [done|]. cbn [path_loop].
  rewrite (proj2 (Z.leb_gt _ _)) by lia. done.
Qed.

Lemma path_beyond pos last : last < pos -> path pos last = [].
Proof.
  intros H. unfold path. destruct (peak_map_height _). apply path_loop_beyond. done.
Qed.

Lemma climb_family_fuel (fuel d : nat) n h last :
  is_node n h -> last < 2 ^ 61 -> 60 <= Z.of_nat fuel + h ->
  climb_family (fuel + d) n h last = climb_family fuel n h last.
Proof.
  revert n h. induction fuel as [|fuel IH]; intros n h Hn Hl Hf.
  - pose proof (node_pos_ge_pow2 _ _ (parent_is_node n h Hn)) as Hp.
    rewrite parent_height in Hp.
    assert (2 ^ 61 <= 2 ^ (h + 1)) by (apply Z.pow_le_mono_r; lia).
    destruct d; simpl; [done|]. rewrite parent_height, (proj2 (Z.leb_gt _ _)) by lia. done.
  - simpl. destruct (_ <=? last); [|done]. f_equal.
    apply IH; [apply parent_is_node; done|done|rewrite parent_height; lia].
Qed.

Lemma step_family n h n0 :
  is_node n h -> small_leaves n -> agree_above h n n0 -> 0 <= n0 ->
  (if negb ((n0 & 2 ^ h)%u64 =? 0) then
     let current := (node_pos n h + 1)%u64 in
     (current, (current - 2 * (2 ^ h)%Z)%u64)
   else
     let current := (node_pos n h + 2 * (2 ^ h)%Z)%u64 in
     (current, (current - 1)%u64))
  = family (node_pos n h).
Proof.
  intros Hn Hs Ha H0. unfold family. rewrite peak_map_height_pos by done.
  pose proof (node_height_small n h Hn Hs). rewrite shl64_1 by lia.
  rewrite !land_pow2_testbit by (destruct Hn; lia). rewrite <- (Ha h) by lia.
  destruct (Z.testbit n h); reflexivity.
Qed.

Lemma family_branch_loop_climb (fuel : nat) n h n0 last acc :
  is_node n h -> last < 2 ^ 61 -> agree_above h n n0 -> 0 <= n0 ->
  family_branch_loop fuel n0 (2 ^ h) (node_pos n h) last acc
  = acc ++ climb_family fuel n h last.
Proof.
  revert n h acc. induction fuel as [|fuel IH]; intros n h acc Hn Hl Ha H0.
  { simpl. rewrite app_nil_r. done. }
  cbn [family_branch_loop climb_family]. pose proof (parent_pos_gt n h Hn).
  destruct (Z.ltb_spec (node_pos n h) last) as [Hlt|].
  2: { rewrite (proj2 (Z.leb_gt _ _)) by lia. rewrite app_nil_r. done. }
  pose proof (node_pos_small_leaves n h last Hn ltac:(lia) Hl) as Hs.
  pose proof (node_height_small n h Hn Hs).
  rewrite step_family, family_node by done. cbv zeta beta iota.
  destruct (Z.leb_spec (node_pos (parent_node n h).1 (parent_node n h).2) last) as [Hle|Hgt].
  2: { rewrite (proj2 (Z.ltb_lt _ _)) by lia. rewrite app_nil_r. done. }
  rewrite (proj2 (Z.ltb_ge _ _)) by lia.
  pose proof (pow2_pos h ltac:(lia)).
  assert (2 ^ h <= 2 ^ 61) by (apply Z.pow_le_mono_r; lia).
  change (2 ^ 61) with 2305843009213693952 in *.
  rewrite shl64_double by lia. rewrite <- Z.pow_succ_r, <- Z.add_1_r by lia.
  rewrite <- (parent_height n h) at 1.
  rewrite IH; [|apply parent_is_node; done|lia|rewrite parent_height; apply parent_agree; done|done].
  rewrite <- app_assoc. done.
Qed.

Lemma path_climb n h last :
  is_node n h -> small_leaves n -> last < 2 ^ 61 ->
  path (node_pos n h) last = climb 64 n h last.
Proof.
  intros Hn Hs Hl. unfold path. rewrite peak_map_height_pos by done.
  rewrite shl64_1 by (pose proof (node_height_small n h Hn Hs); lia).
  rewrite path_loop_climb by (done || (destruct Hn; done)). done.
Qed.

Lemma family_branch_climb n h last :
  is_node n h -> small_leaves n -> last < 2 ^ 61 ->
  family_branch (node_pos n h) last = climb_family 64 n h last.
Proof.
  intros Hn Hs Hl. unfold family_branch. rewrite peak_map_height_pos by done.
  rewrite shl64_1 by (pose proof (node_height_small n h Hn Hs); lia).
  rewrite family_branch_loop_climb by (done || (destruct Hn; done)). done.
Qed.

Lemma path_unfold_node n h last :
  is_node n h -> small_leaves n -> last < 2 ^ 61 ->
  path (node_pos n h) last =
  if node_pos n h <=? last then node_pos n h :: path (family (node_pos n h)).1 last else [].
Proof.
  intros Hn Hs Hl. rewrite path_climb by done.
  change 64%nat with (S 63) at 1. rewrite climb_S.
  destruct (Z.leb_spec (node_pos n h) last) as [Hle|]; [|done].
  rewrite family_node by done. cbn [fst snd]. f_equal.
  destruct (Z.leb_spec (node_pos (parent_node n h).1 (parent_node n h).2) last) as [Hp|Hp].
  - rewrite path_climb; [|apply parent_is_node; done|eapply node_pos_small_leaves;
      [apply parent_is_node; done|exact Hp|done]|done].
    change 64%nat with (63 + 1)%nat. symmetry. apply climb_fuel; [apply parent_is_node; done|done|].
    rewrite parent_height. destruct Hn; lia.
  - rewrite path_beyond by done. change 63%nat with (S 62). rewrite climb_S.
    rewrite (proj2 (Z.leb_gt _ _)) by lia. done.
Qed.

Lemma family_branch_unfold_node n h last :
  is_node n h -> small_leaves n -> last < 2 ^ 61 ->
  family_branch (node_pos n h) last =
  let p := family (node_pos n h) in
  if p.1 <=? last then p :: family_branch p.1 last else [].
Proof.
  intros Hn Hs Hl. rewrite family_branch_climb, family_node by done.
  change 64%nat with (S 63) at 1. rewrite climb_family_S. cbv zeta. cbn [fst snd].
  destruct (Z.leb_spec (node_pos (parent_node n h).1 (parent_node n h).2) last) as [Hp|Hp]; [|done].
  f_equal.
  rewrite family_branch_climb; [|apply parent_is_node; done|eapply node_pos_small_leaves;
      [apply parent_is_node; done|exact Hp|done]|done].
  change 64%nat with (63 + 1)%nat. symmetry.
  apply climb_family_fuel; [apply parent_is_node; done|done|].
  rewrite parent_height. destruct Hn; lia.
Qed.

(** ** Peaks *)

(** The leaves of [n] kept when the bits below [j] are dropped. *)
Definition leaves_above (n j : Z) : Z := n / 2 ^ j * 2 ^ j.

Lemma leaves_above_sub n j k :
  0 <= j < k -> leaves_above n j = 2 ^ k + leaves_above (n - 2 ^ k) j.
Proof.
  intros Hj. unfold leaves_above.
  assert (E : 2 ^ k = 2 ^ (k - j) * 2 ^ j) by (rewrite <- Z.pow_add_r by lia; f_equal; lia).
  pose proof (pow2_pos j ltac:(lia)).
  rewrite E at 2. rewrite <- (Z.add_opp_r n), <- Z.mul_opp_l, Z.div_add by lia. nia.
Qed.

Lemma leaves_above_bounds n j : 
  0 <= n -> 0 <= j -> 0 <= leaves_above n j <= n /\ n < leaves_above n j + 2 ^ j.
Proof.
  intros Hn Hj. unfold leaves_above. pose proof (pow2_pos j Hj).
  assert (0 <= n / 2 ^ j) by (apply Z.div_pos; lia).
  pose proof (Z.div_mod n (2 ^ j) ltac:(lia)). pose proof (Z.mod_pos_bound n (2 ^ j) ltac:(lia)).
  nia.
Qed.

Lemma elem_of_peak_positions (k : nat) base n x :
  0 <= n < 2 ^ Z.of_nat k ->
  (x ∈ peak_positions k base n <->
   exists j, 0 <= j < Z.of_nat k /\ Z.testbit n j = true /\
     x = base + mmr_size (leaves_above n j)).
Proof.
  revert base n; induction k as [|k IH]; intros base n Hn.
  { split; [intros H; inversion H|]. intros (j & ? & _); lia. }
  cbn [peak_positions]. rewrite pow2_succ in *.
  pose proof (pow2_pos (Z.of_nat k) ltac:(lia)).
  destruct (Z.leb_spec (2 ^ Z.of_nat k) n) as [Hle|Hlt].
  - assert (Hb : Z.testbit n (Z.of_nat k) = true).
    { rewrite Z.testbit_eqb by lia. replace (n / 2 ^ Z.of_nat k) with 1; [done|].
      apply Z.div_unique with (n - 2 ^ Z.of_nat k); lia. }
    assert (Hk : leaves_above n (Z.of_nat k) = 2 ^ Z.of_nat k).
    { unfold leaves_above. replace (n / 2 ^ Z.of_nat k) with 1; [lia|].
      apply Z.div_unique with (n - 2 ^ Z.of_nat k); lia. }
    pose proof (mmr_size_pow2_add k 0 ltac:(lia)) as Ek.
    rewrite Z.add_0_r, pow2_succ in Ek. change (mmr_size 0) with 0 in Ek.
    assert (Hsub : forall j, 0 <= j < Z.of_nat k ->
      mmr_size (leaves_above n j)
      = 2 * 2 ^ Z.of_nat k - 1 + mmr_size (leaves_above (n - 2 ^ Z.of_nat k) j)).
    { intros j Hj. rewrite (leaves_above_sub n j (Z.of_nat k)) by lia.
      pose proof (leaves_above_bounds (n - 2 ^ Z.of_nat k) j ltac:(lia) ltac:(lia)).
      rewrite mmr_size_pow2_add, pow2_succ by lia. lia. }
    assert (Hbit : forall j, 0 <= j < Z.of_nat k ->
      Z.testbit (n - 2 ^ Z.of_nat k) j = Z.testbit n j).
    { intros j Hj. rewrite sub_pow2_clearbit, Z.clearbit_neq by (done || lia). done. }
    rewrite elem_of_cons, IH by lia. split.
    + intros [->|(j & Hj & Hbj & ->)].
      * exists (Z.of_nat k). rewrite Hk, Ek. repeat split; (done || lia).
      * exists j. rewrite Hsub, <- Hbit by lia. repeat split; (done || lia).
    + intros (j & Hj & Hbj & ->). destruct (Z.eq_dec j (Z.of_nat k)) as [->|].
      * left. rewrite Hk, Ek. lia.
      * right. exists j. rewrite Hsub, Hbit by lia. repeat split; (done || lia).
  - rewrite IH by lia. split.
    + intros (j & Hj & Hbj & ->). exists j. repeat split; (done || lia).
    + intros (j & Hj & Hbj & ->). exists j.
      enough (j <> Z.of_nat k) by (repeat split; (done || lia)).
      intros ->. pose proof (testbit_nonneg_sub n (Z.of_nat k) ltac:(lia) ltac:(lia) Hbj). lia.
Qed.

Lemma peak_positions_sorted (k : nat) base n :
  StronglySorted Z.lt (peak_positions k base n) /\ Forall (fun x => base < x) (peak_positions k base n).
Proof.
  revert base n; induction k as [|k IH]; intros base n; [split; constructor|].
  cbn [peak_positions]. destruct (_ <=? n); [|apply IH].
  destruct (IH (base + (2 ^ Z.of_nat (S k) - 1)) (n - 2 ^ Z.of_nat k)) as [Hs Hf].
  assert (1 < 2 ^ Z.of_nat (S k)) by (rewrite pow2_succ; pose proof (pow2_pos (Z.of_nat k)); lia).
  split; constructor; auto; [lia|].
  eapply List.Forall_impl; [|exact Hf]. simpl; intros; lia.
Qed.

(** A prefix of [n] leaves that ends with a set bit [j] is a left child of height
    [j] whose parent needs a leaf that is not there yet. *)
Lemma peak_node n j :
  0 <= n -> 0 <= j -> Z.testbit n j = true ->
  let m := leaves_above n j - 1 in
  is_node m j /\ trailing_ones m = j /\ node_pos m j = mmr_size (leaves_above n j) /\ 0 <= m < n.
Proof.
  intros Hn Hj Hb m. pose proof (leaves_above_bounds n j Hn Hj) as Hl.
  pose proof (pow2_pos j Hj).
  rewrite Z.testbit_odd, Z.shiftr_div_pow2, Zodd_bool_iff in Hb by lia.
  destruct (Zodd_ex _ Hb) as [q Hq].
  assert (Hm : m = q * 2 ^ (j + 1) + (2 ^ j - 1)).
  { subst m. unfold leaves_above. rewrite Hq, Z.pow_add_r by lia. change (2 ^ 1) with 2. lia. }
  assert (Hq0 : 0 <= q). { assert (0 <= n / 2 ^ j) by (apply Z.div_pos; lia). lia. }
  assert (0 <= m < n).
  { rewrite Z.pow_add_r in Hm by lia. change (2 ^ 1) with 2 in Hm. nia. }
  assert (Hbits : forall i, 0 <= i <= j -> Z.testbit m i = Z.testbit (2 ^ j - 1) i).
  { intros i Hi. rewrite Hm. rewrite <- (Z.mod_pow2_bits_low _ (j + 1)) by lia.
    rewrite Z.add_comm, Z.mod_add by (apply Z.pow_nonzero; lia).
    rewrite Z.mod_pow2_bits_low by lia. done. }
  assert (Ht : trailing_ones m = j).
  { apply trailing_ones_char; [lia|lia|intros i Hi|]; rewrite Hbits by lia;
      replace (2 ^ j - 1) with (Z.ones j) by (rewrite Z.ones_equiv; lia);
      [apply Z.ones_spec_low|apply Z.ones_spec_high]; lia. }
  pose proof (mmr_size_succ m ltac:(lia)) as Es.
  replace (m + 1) with (leaves_above n j) in Es by (subst m; lia). rewrite Ht in Es.
  unfold is_node, node_pos. repeat split; lia.
Qed.

Lemma peak_node_inv n m j :
  is_node m j -> m < n -> trailing_ones m = j -> n <= m + 2 ^ j ->
  Z.testbit n j = true /\ leaves_above n j = m + 1.
Proof.
  intros [Hm Hj] Hlt Ht Hle. pose proof (pow2_pos j ltac:(lia)).
  assert (Hb : Z.testbit m j = false) by (subst j; apply testbit_trailing_ones; lia).
  assert (Hlow : m mod 2 ^ j = 2 ^ j - 1).
  { apply Z.bits_inj'. intros i Hi.
    replace (2 ^ j - 1) with (Z.ones j) by (rewrite Z.ones_equiv; lia).
    destruct (Z.ltb_spec i j).
    - rewrite Z.mod_pow2_bits_low, Z.ones_spec_low by lia. apply testbit_below_trailing_ones; lia.
    - rewrite Z.mod_pow2_bits_high, Z.ones_spec_high by lia. done. }
  pose proof (Z.div_mod m (2 ^ j) ltac:(lia)) as E. rewrite Hlow in E.
  assert (En : n / 2 ^ j = m / 2 ^ j + 1).
  { symmetry. apply Z.div_unique with (n - (m + 1)); lia. }
  rewrite Z.testbit_odd, Z.shiftr_div_pow2 in Hb by lia.
  split; [|unfold leaves_above; rewrite En; lia].
  rewrite Z.testbit_odd, Z.shiftr_div_pow2, En, Z.odd_add, Hb by lia. done.
Qed.

(** Coordinates of the peaks of the leaves [lo .. lo + n - 1], for [n < 2^k] and
    [lo] a multiple of [2^k], from the highest to the lowest. *)
Fixpoint peak_nodes (k : nat) (lo n : Z) : list (Z * Z) :=
  match k with
  | O => []
  | S k =>
    if 2 ^ Z.of_nat k <=? n then
      (lo + 2 ^ Z.of_nat k - 1, Z.of_nat k)
      :: peak_nodes k (lo + 2 ^ Z.of_nat k) (n - 2 ^ Z.of_nat k)
    else peak_nodes k lo n
  end.

Lemma block_node q (k : nat) :
  0 <= q -> Z.even q = true ->
  let lo := q * 2 ^ Z.of_nat k in
  is_node (lo + 2 ^ Z.of_nat k - 1) (Z.of_nat k) /\
  trailing_ones (lo + 2 ^ Z.of_nat k - 1) = Z.of_nat k /\
  node_pos (lo + 2 ^ Z.of_nat k - 1) (Z.of_nat k) = mmr_size (lo + 2 ^ Z.of_nat k) /\
  mmr_size (lo + 2 ^ Z.of_nat k) = mmr_size lo + 2 ^ Z.of_nat (S k) - 1.
Proof.
  intros Hq He lo. pose proof (pow2_pos (Z.of_nat k) ltac:(lia)).
  assert (Hlo : 0 <= lo) by (subst lo; nia).
  assert (Hdiv : lo / 2 ^ Z.of_nat k = q) by (subst lo; apply Z.div_mul; lia).
  assert (Hb : Z.testbit lo (Z.of_nat k) = false).
  { rewrite Z.testbit_odd, Z.shiftr_div_pow2, Hdiv by lia. rewrite <- Z.negb_even, He. done. }
  assert (Hb' : Z.testbit (lo + 2 ^ Z.of_nat k) (Z.of_nat k) = true).
  { rewrite add_pow2_setbit by (done || lia). apply Z.setbit_eq. lia. }
  destruct (peak_node (lo + 2 ^ Z.of_nat k) (Z.of_nat k) ltac:(lia) ltac:(lia) Hb')
    as (Hn & Ht & Hp & _).
  assert (El : leaves_above (lo + 2 ^ Z.of_nat k) (Z.of_nat k) = lo + 2 ^ Z.of_nat k).
  { unfold leaves_above, lo. replace (q * 2 ^ Z.of_nat k + 2 ^ Z.of_nat k)
      with ((q + 1) * 2 ^ Z.of_nat k) by lia. rewrite Z.div_mul by lia. done. }
  rewrite El in *. split; [done|]. split; [done|]. split; [done|].
  unfold mmr_size. rewrite count_ones_add_pow2, pow2_succ by (done || lia). lia.
Qed.

Lemma peak_positions_nodes (k : nat) q n :
  0 <= q -> 0 <= n < 2 ^ Z.of_nat k ->
  peak_positions k (mmr_size (q * 2 ^ Z.of_nat k)) n
  = map (fun '(m, j) => node_pos m j) (peak_nodes k (q * 2 ^ Z.of_nat k) n).
Proof.
  revert q n; induction k as [|k IH]; intros q n Hq Hn; [done|].
  cbn [peak_positions peak_nodes]. pose proof (pow2_pos (Z.of_nat k) ltac:(lia)).
  destruct (block_node (2 * q) k ltac:(lia) ltac:(rewrite Z.even_mul; done)) as (_ & _ & Hp & Hm).
  rewrite pow2_succ in Hn.
  replace (q * 2 ^ Z.of_nat (S k)) with (2 * q * 2 ^ Z.of_nat k) by (rewrite pow2_succ; lia).
  destruct (Z.leb_spec (2 ^ Z.of_nat k) n).
  - cbn [map]. rewrite Hp, Hm. f_equal; [lia|].
    replace (mmr_size (2 * q * 2 ^ Z.of_nat k) + (2 ^ Z.of_nat (S k) - 1))
      with (mmr_size ((2 * q + 1) * 2 ^ Z.of_nat k)).
    2: { replace ((2 * q + 1) * 2 ^ Z.of_nat k)
           with (2 * q * 2 ^ Z.of_nat k + 2 ^ Z.of_nat k) by lia. lia. }
    replace (2 * q * 2 ^ Z.of_nat k + 2 ^ Z.of_nat k) with ((2 * q + 1) * 2 ^ Z.of_nat k) by lia.
    apply IH; lia.
  - apply IH; lia.
Qed.

(** The peaks are nodes, end inside the leaves, and get lower to the right. *)
Lemma peak_nodes_are_nodes (k : nat) q n :
  0 <= q -> 0 <= n < 2 ^ Z.of_nat k ->
  Forall (fun '(m, j) => is_node m j /\ trailing_ones m = j /\
      m < q * 2 ^ Z.of_nat k + n <= m + 2 ^ j /\ j < Z.of_nat k)
    (peak_nodes k (q * 2 ^ Z.of_nat k) n).
Proof.
  revert q n; induction k as [|k IH]; intros q n Hq Hn; [constructor|].
  cbn [peak_nodes]. pose proof (pow2_pos (Z.of_nat k) ltac:(lia)).
  destruct (block_node (2 * q) k ltac:(lia) ltac:(rewrite Z.even_mul; done)) as (Hnode & Ht & _ & _).
  rewrite pow2_succ in Hn.
  replace (q * 2 ^ Z.of_nat (S k)) with (2 * q * 2 ^ Z.of_nat k) by (rewrite pow2_succ; lia).
  destruct (Z.leb_spec (2 ^ Z.of_nat k) n).
  - constructor; [split; [done|split; [done|lia]]|].
    replace (2 * q * 2 ^ Z.of_nat k + 2 ^ Z.of_nat k) with ((2 * q + 1) * 2 ^ Z.of_nat k) by lia.
    eapply List.Forall_impl; [|apply IH; lia]. intros [m j] (? & ? & ? & ?).
    repeat split; (done || lia || apply H1).
  - eapply List.Forall_impl; [|apply IH; lia]. intros [m j] (? & ? & ? & ?).
    repeat split; (done || lia || apply H1).
Qed.

Lemma peak_nodes_prefix (k : nat) lo n pre m j post :
  peak_nodes k lo n = pre ++ (m, j) :: post -> Z.of_nat (length pre) + j < Z.of_nat k.
Proof.
  revert lo n pre; induction k as [|k IH]; intros lo n pre E; [destruct pre; discriminate|].
  cbn [peak_nodes] in E. destruct (_ <=? n).
  - destruct pre as [|a pre]; [injection E as _ <- _; simpl; lia|].
    injection E as _ E. apply IH in E. simpl. lia.
  - apply IH in E. lia.
Qed.

Lemma peak_nodes_nonempty (k : nat) lo n :
  0 < n < 2 ^ Z.of_nat k -> peak_nodes k lo n <> [].
Proof.
  revert lo n; induction k as [|k IH]; intros lo n Hn.
  { change (2 ^ Z.of_nat 0) with 1 in Hn. lia. }
  rewrite pow2_succ in Hn. cbn [peak_nodes].
  destruct (Z.leb_spec (2 ^ Z.of_nat k) n); [done|apply IH; lia].
Qed.

Lemma peak_nodes_widen (k d : nat) lo n :
  n < 2 ^ Z.of_nat k -> peak_nodes (d + k) lo n = peak_nodes k lo n.
Proof.
  intros Hn. induction d as [|d IH]; [done|]. simpl.
  assert (2 ^ Z.of_nat k <= 2 ^ Z.of_nat (d + k)) by (apply Z.pow_le_mono_r; lia).
  rewrite (proj2 (Z.leb_gt _ _)) by lia. exact IH.
Qed.

Lemma peaks_of_size n :
  0 <= n -> mmr_size n < U64 ->
  peaks (mmr_size n) = map (fun '(m, j) => node_pos m j) (peak_nodes 64 0 n).
Proof.
  intros Hn Hs. pose proof (mmr_size_bounds n Hn).
  pose proof (peaks_node n 0 (leaf_is_node n Hn) ltac:(lia)) as E.
  rewrite Z.add_0_r in E. rewrite E. change (0 =? 0) with true. cbv iota.
  apply (peak_positions_nodes 64 0 n); [lia|]. change (2 ^ Z.of_nat 64) with U64. lia.
Qed.

(** ** Properties *)

(** [peak_map_height] is total on [u64] and inverts the postorder numbering:
    the bitmap it returns is the index of the last leaf below the node, the
    height is the height of the node, and the pair determines the position. *)
Theorem peak_map_height_coordinates pos :
  is_u64 pos ->
  is_node (peak_map_height pos).1 (peak_map_height pos).2 /\
  pos = mmr_size (peak_map_height pos).1 + (peak_map_height pos).2.
Proof.
  intros Hp. destruct (node_exists pos (proj1 Hp)) as (n & h & Hn & ->).
  rewrite peak_map_height_node by (done || apply Hp). done.
Qed.

Lemma peak_map_height_coordinates_witness :
  is_u64 38 /\ 38 = mmr_size (peak_map_height 38).1 + (peak_map_height 38).2.
Proof.
  assert (H : is_u64 38) by (unfold is_u64; lia).
  split; [exact H|exact (proj2 (peak_map_height_coordinates 38 H))].
Defined.

Lemma pos_node pos :
  1 <= pos < 2 ^ 61 -> exists n h, is_node n h /\ small_leaves n /\ pos = node_pos n h.
Proof.
  intros Hp. destruct (node_exists (pos - 1) ltac:(lia)) as (n & h & Hn & E).
  exists n, h. unfold node_pos. split; [done|]. split; [|lia].
  eapply (node_pos_small_leaves n h (pos)); [done|unfold node_pos; lia|lia].
Qed.

Lemma family_sibling_node n h :
  is_node n h ->
  parent_node (sibling_node n h).1 (sibling_node n h).2 = parent_node n h /\
  sibling_node (sibling_node n h).1 (sibling_node n h).2 = (n, h) /\
  Z.testbit (sibling_node n h).1 h = negb (Z.testbit n h).
Proof.
  intros [Hn Hh]. unfold parent_node, sibling_node.
  destruct (Z.testbit n h) eqn:E; cbn [fst snd].
  - assert (E' : Z.testbit (n - 2 ^ h) h = false)
      by (rewrite sub_pow2_clearbit by (done || lia); apply Z.clearbit_eq).
    rewrite E'. replace (n - 2 ^ h + 2 ^ h) with n by lia. done.
  - assert (E' : Z.testbit (n + 2 ^ h) h = true)
      by (rewrite add_pow2_setbit by (done || lia); apply Z.setbit_eq; lia).
    rewrite E'. replace (n + 2 ^ h - 2 ^ h) with n by lia. done.
Qed.

Lemma sibling_small n h last :
  is_node n h -> node_pos (parent_node n h).1 (parent_node n h).2 <= last -> last < 2 ^ 61 ->
  small_leaves (sibling_node n h).1.
Proof.
  intros Hn Hp Hl. pose proof (parent_pos_gt _ _ (sibling_is_node n h Hn)) as Hgt.
  rewrite (proj1 (family_sibling_node n h Hn)) in Hgt.
  eapply (node_pos_small_leaves _ (sibling_node n h).2 last); [by apply sibling_is_node|lia|done].
Qed.

(** [family] pairs the nodes of the tree: the sibling of the sibling is the
    node itself and both have the same parent, one is a left child and the other
    a right child of the same height, and the parent is one higher and follows
    the right child. *)
Theorem family_involutive pos parent sibling :
  1 <= pos -> family pos = (parent, sibling) -> parent < 2 ^ 61 ->
  pos < 2 ^ 61 ->
  family sibling = (parent, pos) /\
  is_left_sibling sibling = negb (is_left_sibling pos) /\
  bintree_postorder_height sibling = bintree_postorder_height pos /\
  bintree_postorder_height parent = bintree_postorder_height pos + 1 /\
  parent = Z.max pos sibling + 1.
Proof.
  intros H1 Hf Hp Hpos. destruct (pos_node pos ltac:(lia)) as (n & h & Hn & Hs & ->).
  rewrite family_node in Hf by done. injection Hf as <- <-.
  pose proof (family_sibling_node n h Hn) as (Ep & Es & Eb).
  pose proof (sibling_is_node n h Hn) as Hsn.
  pose proof (sibling_small n h _ Hn (Z.le_refl _) Hp) as Hss.
  pose proof (node_pos_small_leaves _ _ _ (parent_is_node n h Hn) (Z.le_refl _) Hp) as Hps.
  pose proof (parent_is_node n h Hn) as Hpn.
  assert (Eh : (sibling_node n h).2 = h) by (unfold sibling_node; destruct (Z.testbit n h); done).
  rewrite family_node, Ep, Es by done.
  rewrite !is_left_sibling_node, !height_node, parent_height by done.
  rewrite Eh, Eb. repeat split; auto.
  pose proof (family_node n h Hn Hs) as F. unfold parent_node, sibling_node, node_pos in *.
  rewrite testbit_node in * by done.
  destruct (Z.ltb_spec h (trailing_ones n)) as [Hlt|Hge]; cbn [fst snd] in *.
  - destruct (right_child_sibling n h Hn Hlt) as (_ & _ & E).
    pose proof (pow2_pos h ltac:(destruct Hn; lia)). lia.
  - destruct (left_child_sibling n h Hn ltac:(destruct Hn; lia)) as [_ E].
    pose proof (pow2_pos h ltac:(destruct Hn; lia)). lia.
Qed.

Lemma family_involutive_witness : family 4 = (6, 5) /\ family 5 = (6, 4).
Proof.
  split; [vm_compute; reflexivity|].
  apply (family_involutive 4 6 5); [lia|vm_compute; reflexivity|lia|lia].
Defined.

Lemma n_leaves_leaf n : small_leaves n -> n_leaves (node_pos n 0) = n + 1.
Proof.
  intros Hs. pose proof (leaf_is_node n (proj1 Hs)) as Hn.
  pose proof (node_pos_bounds n 0 Hn Hs) as Hb. unfold node_pos in *.
  pose proof (trailing_ones_nonneg n). pose proof (mmr_size_succ n (proj1 Hs)) as E.
  destruct (Z.eq_dec (trailing_ones n) 0) as [E0|E0].
  - replace (mmr_size n + 0 + 1) with (mmr_size (n + 1) + 0) by lia.
    rewrite n_leaves_node; [simpl; lia|apply leaf_is_node; destruct Hs; lia|lia].
  - replace (mmr_size n + 0 + 1) with (mmr_size n + 1) by lia.
    rewrite n_leaves_node; [simpl; lia|split; [destruct Hs; lia|lia]|lia].
Qed.

(** Insertion order and positions are inverse to each other: the [k]-th
    inserted element sits on a leaf and [n_leaves] of its position is [k]; the
    other way, every leaf position is the insertion index of its [n_leaves]. *)
Theorem insertion_n_leaves_roundtrip k :
  1 <= k < 2 ^ 61 ->
  is_leaf (insertion_to_pmmr_index k) = true /\
  n_leaves (insertion_to_pmmr_index k) = k /\
  (forall pos, 1 <= pos < 2 ^ 61 -> is_leaf pos = true ->
     insertion_to_pmmr_index (n_leaves pos) = pos).
Proof.
  intros Hk.
  assert (Hs : small_leaves (k - 1)) by (split; lia).
  pose proof (insertion_index_node (k - 1) Hs) as E.
  replace (k - 1 + 1) with k in E by lia. rewrite E.
  rewrite is_leaf_node, n_leaves_leaf by (done || (apply leaf_is_node; lia)).
  split; [done|]. split; [lia|].
  intros pos Hp Hl. destruct (pos_node pos Hp) as (n & h & Hn & Hs' & ->).
  rewrite is_leaf_node in Hl by done. apply Z.eqb_eq in Hl as ->.
  rewrite n_leaves_leaf, insertion_index_node by done. done.
Qed.

Lemma insertion_n_leaves_roundtrip_witness :
  n_leaves (insertion_to_pmmr_index 6) = 6 /\ insertion_to_pmmr_index 6 = 9.
Proof.
  split; [|vm_compute; reflexivity].
  exact (proj1 (proj2 (insertion_n_leaves_roundtrip 6 ltac:(lia)))).
Defined.

Lemma peak_parent_outside n j :
  0 <= n -> 0 <= j -> Z.testbit n j = true -> mmr_size n < 2 ^ 61 ->
  mmr_size (leaves_above n j) <= mmr_size n /\
  mmr_size n < (family (mmr_size (leaves_above n j))).1.
Proof.
  intros Hn Hj Hbj Hsz. destruct (peak_node n j Hn Hj Hbj) as (Hm & Ht & Ep & Hlt).
  set (m := leaves_above n j - 1) in *.
  pose proof (leaves_above_bounds n j Hn Hj) as [Hlo Hup].
  assert (Hle : mmr_size (leaves_above n j) <= mmr_size n) by (apply mmr_size_mono; lia).
  split; [done|]. rewrite <- Ep in *.
  rewrite family_node by (done || (eapply node_pos_small_leaves; [done|reflexivity|lia])).
  unfold parent_node. rewrite testbit_node, Ht, Z.ltb_irrefl by done. cbn [fst snd].
  unfold node_pos. pose proof (mmr_size_mono n (m + 2 ^ j) ltac:(subst m; lia)). lia.
Qed.

Lemma parentless_is_peak n m j :
  0 <= n -> is_node m j -> small_leaves m -> node_pos m j <= mmr_size n ->
  mmr_size n < (family (node_pos m j)).1 ->
  Z.testbit n j = true /\ node_pos m j = mmr_size (leaves_above n j).
Proof.
  intros Hn Hm Hs Hle Hgt. rewrite family_node in Hgt by done.
  assert (Hmn : m < n).
  { destruct (Z.ltb_spec m n) as [|Hge]; [done|].
    pose proof (mmr_size_mono n m ltac:(lia)). unfold node_pos in Hle. destruct Hm; lia. }
  unfold parent_node in Hgt. rewrite testbit_node in Hgt by done.
  pose proof (mmr_size_strict m n ltac:(destruct Hm; lia)) as Hst.
  destruct (Z.ltb_spec j (trailing_ones m)) as [|Hge]; cbn [fst snd] in Hgt.
  { unfold node_pos in Hgt. lia. }
  assert (Ht : trailing_ones m = j) by (destruct Hm; lia).
  destruct (left_child_sibling m j Hm ltac:(lia)) as [[? [_ ?]] Eq].
  assert (Hle' : n <= m + 2 ^ j).
  { destruct (Z.leb_spec n (m + 2 ^ j)) as [|Hlt']; [done|].
    pose proof (mmr_size_strict (m + 2 ^ j) n ltac:(lia)). unfold node_pos in Hgt. lia. }
  destruct (peak_node_inv n m j Hm Hmn Ht Hle') as [Hbj Ela].
  split; [done|]. rewrite Ela, mmr_size_succ, Ht by (destruct Hm; lia). unfold node_pos. lia.
Qed.

(** [peaks] lists, in increasing order, exactly the nodes of the range that
    have no parent in it; it is empty when the size is not that of a whole
    number of leaves. *)
Theorem peaks_are_the_parentless_nodes size :
  0 <= size < 2 ^ 61 ->
  StronglySorted Z.lt (peaks size) /\
  (snd (peak_map_height size) <> 0 -> peaks size = []) /\
  (snd (peak_map_height size) = 0 ->
   forall pos, 1 <= pos < 2 ^ 61 ->
   (pos ∈ peaks size <-> pos <= size /\ size < (family pos).1)).
Proof.
  intros Hsz. destruct (node_exists size (proj1 Hsz)) as (n & h & Hn & E).
  assert (Hb : mmr_size n + h < U64) by lia. subst size.
  rewrite peaks_node, peak_map_height_node by done. cbn [snd].
  destruct (Z.eqb_spec h 0) as [->|Hne].
  2: { split; [constructor|]. split; [done|]. intros ->; done. }
  split; [apply peak_positions_sorted|]. split; [done|]. intros _ pos Hpos.
  pose proof (mmr_size_bounds n (proj1 Hn)). rewrite Z.add_0_r in *.
  rewrite elem_of_peak_positions by (change (2 ^ Z.of_nat 64) with U64; destruct Hn; lia).
  split.
  - intros (j & Hj & Hbj & ->). rewrite Z.add_0_l.
    apply peak_parent_outside; [apply Hn|lia|done|lia].
  - intros [Hle Hgt]. destruct (pos_node pos Hpos) as (m & j & Hm & Hs & ->).
    destruct (parentless_is_peak n m j (proj1 Hn) Hm Hs Hle Hgt) as [Hbj Ep].
    exists j. pose proof (node_height_small m j Hm Hs). repeat split; (done || lia).
Qed.

Lemma peaks_are_the_parentless_nodes_witness :
  StronglySorted Z.lt (peaks 11) /\ peaks 11 = [7; 10; 11].
Proof.
  split; [|vm_compute; reflexivity].
  exact (proj1 (peaks_are_the_parentless_nodes 11 ltac:(lia))).
Defined.

(** [path] and [family_branch] climb from a node to the peak of its tree:
    each is the node (or its parent with the sibling) followed by the climb from
    the parent, as long as the position stays in the range.  The 64 turns given
    to the loops of the model are always enough. *)
Theorem climbs_follow_family pos last :
  1 <= pos < 2 ^ 61 -> last < 2 ^ 61 ->
  path pos last = (if pos <=? last then pos :: path (family pos).1 last else []) /\
  family_branch pos last =
    (if (family pos).1 <=? last then family pos :: family_branch (family pos).1 last else []).
Proof.
  intros Hp Hl. destruct (pos_node pos Hp) as (n & h & Hn & Hs & ->).
  split; [apply path_unfold_node|apply family_branch_unfold_node]; done.
Qed.

Lemma climbs_follow_family_witness :
  path 2 15 = 2 :: path 3 15 /\ path 3 15 = [3; 7; 15].
Proof.
  split; [|vm_compute; reflexivity].
  exact (proj1 (climbs_follow_family 2 15 ltac:(lia) ltac:(lia))).
Defined.


Lemma leftmost_leaf n h :
  is_node n h -> mmr_size (n - 2 ^ h + 1) = mmr_size n + h + 2 - 2 * 2 ^ h.
Proof.
  intros Hn. pose proof (proj1 (proj2 Hn)) as Hh. revert n Hn. pattern h.
  apply natlike_ind; [| |exact Hh].
  - intros n Hn. change (2 ^ 0) with 1. replace (n - 1 + 1) with n by lia. lia.
  - intros k Hk IH n [Hn Hk']. rewrite <- Z.add_1_r in *.
    assert (Hnk : is_node n k) by (split; lia).
    destruct (right_child_sibling n k Hnk ltac:(lia)) as (Hl & _ & E).
    specialize (IH _ Hl). rewrite Z.pow_add_r by lia. change (2 ^ 1) with 2.
    replace (n - 2 ^ k * 2 + 1) with (n - 2 ^ k - 2 ^ k + 1) by lia. lia.
Qed.

(** The subtree of a node of height [h] occupies the positions from the
    leftmost leaf up to the node, [2^(h+1) - 1] of them; both ends that
    [bintree_leftmost] and [bintree_rightmost] return are leaves, and there are
    [2^h] leaves from the one to the other. *)
Theorem subtree_extent pos :
  1 <= pos < 2 ^ 61 ->
  is_leaf (bintree_leftmost pos) = true /\
  is_leaf (bintree_rightmost pos) = true /\
  pos - bintree_leftmost pos + 1 = 2 ^ (bintree_postorder_height pos + 1) - 1 /\
  n_leaves (bintree_rightmost pos) - n_leaves (bintree_leftmost pos) + 1
  = 2 ^ bintree_postorder_height pos.
Proof.
  intros Hp. destruct (pos_node pos Hp) as (n & h & Hn & Hs & ->).
  pose proof (node_height_small n h Hn Hs). pose proof (pow2_node n h Hn).
  pose proof (pow2_pos h ltac:(lia)). pose proof (node_pos_bounds n h Hn Hs).
  pose proof (leftmost_leaf n h Hn) as El. pose proof (mmr_size_bounds n (proj1 Hs)).
  pose proof (mmr_size_bounds (n - 2 ^ h + 1) ltac:(lia)).
  assert (ER : bintree_rightmost (node_pos n h) = node_pos n 0).
  { unfold bintree_rightmost. rewrite height_node by done. unfold node_pos in *.
    rewrite sub64_small; lia. }
  assert (EL : bintree_leftmost (node_pos n h) = node_pos (n - 2 ^ h + 1) 0).
  { unfold bintree_leftmost. rewrite height_node by done. unfold node_pos in *.
    unfold shl64. rewrite Z.mod_small, Z.shiftl_mul_pow2, wrap64_small by (unfold is_u64; lia).
    autorewrite with u64. lia. }
  assert (Hs' : small_leaves (n - 2 ^ h + 1)) by (destruct Hs; split; lia).
  rewrite ER, EL, height_node, !is_leaf_node, !n_leaves_leaf by
    (done || (apply leaf_is_node; destruct Hs, Hs'; done)).
  split; [done|]. split; [done|]. rewrite Z.pow_add_r by lia. change (2 ^ 1) with 2.
  unfold node_pos. lia.
Qed.

Lemma subtree_extent_witness :
  is_leaf (bintree_leftmost 14) = true /\ bintree_leftmost 14 = 8 /\ bintree_rightmost 14 = 12.
Proof.
  split; [exact (proj1 (subtree_extent 14 ltac:(lia)))|vm_compute; auto].
Defined.
