(* ===== verification/Pmmr.v ===== *)
(** * The prunable Merkle Mountain Range

    Models [core/src/core/pmmr/pmmr.rs] (the [PMMR] struct), the [Backend] trait
    of [pmmr/backend.rs] as a type class, its in-memory implementation
    [VecBackend] of [pmmr/vec_backend.rs], and the views of
    [pmmr/rewindable_pmmr.rs] and [pmmr/readonly_pmmr.rs].

    The hash function is a parameter: [PMMRable] carries the hash of an element
    and of a pair of hashes with an index.  The theorems are proved against
    [BackendLaws], what a backend promises about its hash file; [VecBackend]
    discharges it. *)

From Stdlib Require Import ZArith Lia List Bool.
From stdpp Require Import base numbers list option gmap.
From S2P Require Import Prelude MmrIndex.

(** ** Interfaces *)

(** What the tree needs from hashes and elements ([ser.rs], [PMMRable] and
    [PMMRIndexHashable]). *)
Class PMMRable (Hash T E : Type) := {
  ZERO_HASH : Hash;
  hash_elmt : T -> Z -> Hash;
  hash_pair : Hash * Hash -> Z -> Hash;
  as_elmt : T -> E;
  hash_eq_dec :: EqDecision Hash
}.

(** Errors of the PMMR (strings in the source). *)
Inductive PmmrError :=
| BadMmrSize (size : Z)
| MissingLeftSibling
| NoRoot
| NotALeaf (pos : Z)
| NoElement (pos : Z)
| InvalidParent (pos : Z)
| BackendFailure.

(** The [Backend] trait.  [Bitmap] is the roaring bitmap passed through to
    [rewind]. *)
Class Backend (Bitmap Hash T E B : Type) := {
  append : B -> T -> list Hash -> res PmmrError B;
  backend_rewind : B -> Z -> Bitmap -> res PmmrError B;
  backend_get_hash : B -> Z -> option Hash;
  backend_get_data : B -> Z -> option E;
  get_from_file : B -> Z -> option Hash;
  get_data_from_file : B -> Z -> option E;
  remove : B -> Z -> res PmmrError B
}.

(** ** The PMMR *)

Record PMMR (B : Type) := mkPMMR { last_pos : Z; backend : B }.
Arguments mkPMMR {B}.
Arguments last_pos {B}.
Arguments backend {B}.

(** A Merkle proof ([core/merkle_proof.rs]). *)
Record MerkleProof (Hash : Type) := mkProof { mmr_size_of : Z; proof_path : list Hash }.
Arguments mkProof {Hash}.
Arguments mmr_size_of {Hash}.
Arguments proof_path {Hash}.

Section Operations.
  Context {Bitmap Hash T E B : Type} `{!PMMRable Hash T E} `{!Backend Bitmap Hash T E B}.
  Implicit Types (p : PMMR B) (pos : Z).

(** [PMMR::new] *)
Definition new (b : B) : PMMR B := mkPMMR 0 b.

(** [PMMR::at] *)
Definition at_ (b : B) (last_pos : Z) : PMMR B := mkPMMR last_pos b.

(** [PMMR::is_empty] *)
Definition is_empty p : bool := last_pos p =? 0.

(** [PMMR::unpruned_size] *)
Definition unpruned_size p : Z := last_pos p.

(** [PMMR::get_hash] *)
Definition get_hash p pos : option Hash :=
  if last_pos p <? pos then None
  else if is_leaf pos then backend_get_hash (backend p) pos
  else get_from_file (backend p) pos.

(** [PMMR::get_data] *)
Definition get_data p pos : option E :=
  if last_pos p <? pos then None
  else if is_leaf pos then backend_get_data (backend p) pos
  else None.

(** [PMMR::get_from_file] *)
Definition pmmr_get_from_file p pos : option Hash :=
  if last_pos p <? pos then None else get_from_file (backend p) pos.

(** [PMMR::peaks] *)
Definition pmmr_peaks p : list Hash :=
  omap (get_from_file (backend p)) (peaks (last_pos p)).

(** The loop [for peak in .. .rev()] that bags peaks from the right. *)
Definition bag_step (size : Z) (peak : Hash) (res : option Hash) : option Hash :=
  match res with
  | None => Some peak
  | Some rhash => Some (hash_pair (peak, rhash) size)
  end.

Definition bag (size : Z) (peaks : list Hash) : option Hash :=
  foldr (bag_step size) None peaks.

(** [PMMR::bag_the_rhs] *)
Definition bag_the_rhs p (peak_pos : Z) : option Hash :=
  let rhs := omap (get_from_file (backend p))
               (List.filter (fun x => peak_pos <? x) (peaks (last_pos p))) in
  bag (unpruned_size p) rhs.

(** [PMMR::peak_path] *)
Definition peak_path p (peak_pos : Z) : list Hash :=
  let rhs := bag_the_rhs p peak_pos in
  let res := omap (get_from_file (backend p))
               (List.filter (fun x => x <? peak_pos) (peaks (last_pos p))) in
  let res := match rhs with Some rhs => res ++ [rhs] | None => res end in
  rev res.

(** [PMMR::root] *)
Definition root p : res PmmrError Hash :=
  if is_empty p then Ok ZERO_HASH
  else ok_or (bag (unpruned_size p) (pmmr_peaks p)) NoRoot.

(** [PMMR::merkle_proof] *)
Definition merkle_proof p pos : res PmmrError (MerkleProof Hash) :=
  if negb (is_leaf pos) then Err (NotALeaf pos)
  else
    let? _ := ok_or (get_hash p pos) (NoElement pos) in
    let mmr_size := unpruned_size p in
    let family_branch := family_branch pos (last_pos p) in
    let path := omap (fun x => pmmr_get_from_file p (snd x)) family_branch in
    let peak_pos := match last family_branch with Some (x, _) => x | None => pos end in
    Ok (mkProof mmr_size (path ++ peak_path p peak_pos)).

(** The loop of [PMMR::push]: hash with all immediately preceding peaks.  [peak]
    is zero after 64 turns, so the loop ends by then. *)
Fixpoint push_loop (fuel : nat) (b : B) (peak_map peak pos : Z) (current_hash : Hash)
    (hashes : list Hash) : res PmmrError (Z * list Hash) :=
  match fuel with
  | O => Ok (pos, hashes)
  | S fuel =>
    if negb ((peak_map & peak)%u64 =? 0) then
      let left_sibling := (pos + 1 - 2 * peak)%u64 in
      let? left_hash := ok_or (get_from_file b left_sibling) MissingLeftSibling in
      let peak := (peak * 2)%u64 in
      let pos := (pos + 1)%u64 in
      let current_hash := hash_pair (left_hash, current_hash) (pos - 1)%u64 in
      push_loop fuel b peak_map peak pos current_hash (hashes ++ [current_hash])
    else Ok (pos, hashes)
  end.

(** [PMMR::push] *)
Definition push p (elmt : T) : res PmmrError (Z * PMMR B) :=
  let elmt_pos := (last_pos p + 1)%u64 in
  let current_hash := hash_elmt elmt (elmt_pos - 1)%u64 in
  let '(peak_map, height) := peak_map_height (elmt_pos - 1)%u64 in
  if negb (height =? 0) then Err (BadMmrSize (elmt_pos - 1)%u64)
  else
    let? '(pos, hashes) :=
      push_loop 64 (backend p) peak_map 1 elmt_pos current_hash [current_hash] in
    let? b := append (backend p) elmt hashes in
    Ok (elmt_pos, mkPMMR pos b).

(** The loop of [rewind]: include the parents that follow a leaf. *)
Fixpoint rewind_loop (fuel : nat) (pos : Z) : Z :=
  match fuel with
  | O => pos
  | S fuel =>
    if 0 <? bintree_postorder_height (pos + 1)%u64 then rewind_loop fuel (pos + 1)%u64
    else pos
  end.

(** [PMMR::rewind] *)
Definition rewind p (position : Z) (rewind_rm_pos : Bitmap) : res PmmrError (PMMR B) :=
  let pos := rewind_loop 64 position in
  let? b := backend_rewind (backend p) pos rewind_rm_pos in
  Ok (mkPMMR pos b).

(** [PMMR::prune] *)
Definition prune p (position : Z) : res PmmrError (bool * PMMR B) :=
  if negb (is_leaf position) then Err (NotALeaf position)
  else
    match backend_get_hash (backend p) position with
    | None => Ok (false, p)
    | Some _ =>
      let? b := remove (backend p) position in
      Ok (true, mkPMMR (last_pos p) b)
    end.

(** One turn of the loop of [PMMR::validate]. *)
Definition validate_node p (n : Z) : res PmmrError unit :=
  let height := bintree_postorder_height n in
  if 0 <? height then
    match get_hash p n with
    | Some hash =>
      let left_pos := (n - (1 << height))%u64 in
      let right_pos := (n - 1)%u64 in
      match pmmr_get_from_file p left_pos with
      | Some left_child_hs =>
        match pmmr_get_from_file p right_pos with
        | Some right_child_hs =>
          if bool_decide (hash_pair (left_child_hs, right_child_hs) (n - 1)%u64 = hash)
          then Ok tt else Err (InvalidParent n)
        | None => Ok tt
        end
      | None => Ok tt
      end
    | None => Ok tt
    end
  else Ok tt.

Fixpoint validate_loop p (ns : list Z) : res PmmrError unit :=
  match ns with
  | [] => Ok tt
  | n :: ns => let? _ := validate_node p n in validate_loop p ns
  end.

(** [PMMR::validate] *)
Definition validate p : res PmmrError unit :=
  validate_loop p (seqZ 1 (last_pos p)).

(** [RewindablePMMR::rewind]: only the position moves. *)
Definition rewindable_rewind p (position : Z) : res PmmrError (PMMR B) :=
  Ok (mkPMMR (rewind_loop 64 position) (backend p)).

(** [ReadonlyPMMR::root]: as [PMMR::root], with [expect] for the missing root. *)
Definition readonly_root p : res PmmrError Hash :=
  if is_empty p then Ok ZERO_HASH
  else match bag (unpruned_size p) (pmmr_peaks p) with Some r => Ok r | None => Panic end.

(** The loop of [ReadonlyPMMR::elements_from_pmmr_index].  [fuel] bounds the
    positions left to visit. *)
Fixpoint elements_loop (fuel : nat) p (pmmr_index max_count last_pos : Z)
    (return_vec : list E) : Z * list E :=
  match fuel with
  | O => (pmmr_index, return_vec)
  | S fuel =>
    if (Z.of_nat (length return_vec) <? max_count) && (pmmr_index <=? last_pos) then
      let return_vec := match get_data p pmmr_index with
        | Some t => return_vec ++ [t] | None => return_vec end in
      elements_loop fuel p (pmmr_index + 1)%u64 max_count last_pos return_vec
    else (pmmr_index, return_vec)
  end.

(** [ReadonlyPMMR::elements_from_pmmr_index] *)
Definition elements_from_pmmr_index p (pmmr_index max_count : Z) (max_pmmr_pos : option Z)
    : Z * list E :=
  let last := match max_pmmr_pos with Some q => q | None => last_pos p end in
  let pmmr_index := if pmmr_index =? 0 then 1 else pmmr_index in
  let '(pmmr_index, return_vec) :=
    elements_loop (Z.to_nat (last - pmmr_index + 1)) p pmmr_index max_count last [] in
  (saturating_sub pmmr_index 1, return_vec).

(** The loop of [ReadonlyPMMR::get_last_n_insertions]. *)
Fixpoint last_n_loop (n : nat) p (last_leaf : Z) (return_vec : list (Hash * E))
    : list (Hash * E) :=
  match n with
  | O => return_vec
  | S n =>
    if last_leaf =? 0 then return_vec
    else
      let last_leaf := bintree_rightmost last_leaf in
      let return_vec :=
        match backend_get_hash (backend p) last_leaf with
        | Some hash =>
          match backend_get_data (backend p) last_leaf with
          | Some data => return_vec ++ [(hash, data)]
          | None => return_vec
          end
        | None => return_vec
        end in
      last_n_loop n p (last_leaf - 1)%u64 return_vec
  end.

(** [ReadonlyPMMR::get_last_n_insertions] *)
Definition get_last_n_insertions p (n : Z) : list (Hash * E) :=
  last_n_loop (Z.to_nat n) p (last_pos p) [].

End Operations.

(** ** [VecBackend] *)

Record VecBackend (Hash T : Type) := mkVec {
  data : option (list T);
  hashes : list Hash;
  removed : gset Z
}.
Arguments mkVec {Hash T}.
Arguments data {Hash T}.
Arguments hashes {Hash T}.
Arguments removed {Hash T}.

Section Vec.
  Context {Bitmap Hash T E : Type} `{!PMMRable Hash T E}.
  Implicit Types (v : VecBackend Hash T).

(** [VecBackend::new] *)
Definition vec_new : VecBackend Hash T := mkVec (Some []) [] ∅.

(** [VecBackend::new_hash_only] *)
Definition vec_new_hash_only : VecBackend Hash T := mkVec None [] ∅.

(** [VecBackend::size] *)
Definition vec_size v : Z := Z.of_nat (length (hashes v)).

(** [VecBackend::append] *)
Definition vec_append v (elmt : T) (hs : list Hash) : res PmmrError (VecBackend Hash T) :=
  Ok (mkVec (option_map (fun d => d ++ [elmt]) (data v)) (hashes v ++ hs) (removed v)).

(** [VecBackend::get_from_file] *)
Definition vec_get_from_file v (position : Z) : option Hash :=
  hashes v !! Z.to_nat (saturating_sub position 1).

(** [VecBackend::get_data_from_file] *)
Definition vec_get_data_from_file v (position : Z) : option E :=
  match data v with
  | Some data => as_elmt <$> data !! Z.to_nat (saturating_sub (n_leaves position) 1)
  | None => None
  end.

(** [VecBackend::get_hash] *)
Definition vec_get_hash v (position : Z) : option Hash :=
  if bool_decide (position ∈ removed v) then None else vec_get_from_file v position.

(** [VecBackend::get_data] *)
Definition vec_get_data v (position : Z) : option E :=
  if bool_decide (position ∈ removed v) then None else vec_get_data_from_file v position.

(** [VecBackend::leaf_pos_iter] *)
Definition vec_leaf_pos_iter v : list Z :=
  List.filter (fun x => is_leaf x && negb (bool_decide (x ∈ removed v)))
    (seqZ 1 (Z.of_nat (length (hashes v)))).

Fixpoint skip_while {A} (f : A -> bool) (l : list A) : list A :=
  match l with
  | [] => []
  | x :: l' => if f x then skip_while f l' else l
  end.

(** [VecBackend::leaf_idx_iter] *)
Definition vec_leaf_idx_iter v (from_idx : Z) : list Z :=
  let from_pos := insertion_to_pmmr_index (from_idx + 1)%u64 in
  map (fun x => saturating_sub (n_leaves x) 1)
    (skip_while (fun x => x <? from_pos) (vec_leaf_pos_iter v)).

(** [VecBackend::remove] *)
Definition vec_remove v (position : Z) : res PmmrError (VecBackend Hash T) :=
  Ok (mkVec (data v) (hashes v) ({[position]} ∪ removed v)).

(** [VecBackend::rewind] *)
Definition vec_rewind v (position : Z) (_ : Bitmap) : res PmmrError (VecBackend Hash T) :=
  Ok (mkVec (option_map (take (Z.to_nat (n_leaves position))) (data v))
        (take (Z.to_nat position) (hashes v)) (removed v)).

#[export] Instance vec_backend : Backend Bitmap Hash T E (VecBackend Hash T) := {
  append := vec_append;
  backend_rewind := vec_rewind;
  backend_get_hash := vec_get_hash;
  backend_get_data := vec_get_data;
  get_from_file := vec_get_from_file;
  get_data_from_file := vec_get_data_from_file;
  remove := vec_remove
}.
End Vec.

(** ** What a backend promises about its hash file *)

Class BackendLaws (Bitmap Hash T E B : Type) `{!PMMRable Hash T E}
    `{!Backend Bitmap Hash T E B} := {
  hash_file : B -> list Hash;
  file_lookup b pos : 1 <= pos ->
    get_from_file b pos = hash_file b !! Z.to_nat (pos - 1);
  append_file b x hs :
    exists b', append b x hs = Ok b' /\ hash_file b' = hash_file b ++ hs;
  rewind_file b pos bm : 0 <= pos ->
    exists b', backend_rewind b pos bm = Ok b' /\
      hash_file b' = take (Z.to_nat pos) (hash_file b);
  remove_file b pos :
    exists b', remove b pos = Ok b' /\ hash_file b' = hash_file b;
  hash_from_file b pos h :
    backend_get_hash b pos = Some h -> get_from_file b pos = Some h
}.

#[export] Instance vec_backend_laws {Bitmap Hash T E} `{!PMMRable Hash T E} :
  BackendLaws Bitmap Hash T E (VecBackend Hash T).
Proof.
  refine {| hash_file := hashes |}.
  - intros b pos Hp. simpl. unfold vec_get_from_file, saturating_sub.
    rewrite Z.max_r by lia. done.
  - intros b x hs. eexists. split; reflexivity.
  - intros b pos bm Hp. eexists. split; reflexivity.
  - intros b pos. eexists. split; reflexivity.
  - intros b pos h. simpl. unfold vec_get_hash. case_bool_decide; done.
Defined.

(** ** The abstract range: a list of elements *)

Section Spec.
  Context {Hash T E : Type} `{!PMMRable Hash T E}.
  Implicit Types (xs : list T).

(** Hash of the node [(m, h)] over the elements [xs]. *)
Fixpoint node_hash xs (m : Z) (h : nat) : option Hash :=
  match h with
  | O => (fun x => hash_elmt x (mmr_size m)) <$> xs !! Z.to_nat m
  | S h' =>
    match node_hash xs (m - 2 ^ Z.of_nat h') h', node_hash xs m h' with
    | Some l, Some r => Some (hash_pair (l, r) (mmr_size m + Z.of_nat h))
    | _, _ => None
    end
  end.

(** The hash file of the range that holds exactly [xs]. *)
Definition range_of xs (hs : list Hash) : Prop :=
  Z.of_nat (length hs) = mmr_size (Z.of_nat (length xs)) /\
  forall m h, is_node m h -> m < Z.of_nat (length xs) ->
    hs !! Z.to_nat (mmr_size m + h) = node_hash xs m (Z.to_nat h).

(** Hashes of the peaks, and the root: the peaks bagged from the right. *)
Definition peak_hashes xs : list Hash :=
  omap (fun '(m, j) => node_hash xs m (Z.to_nat j))
    (peak_nodes 64 0 (Z.of_nat (length xs))).

Definition range_root xs : option Hash :=
  match xs with
  | [] => Some ZERO_HASH
  | _ => bag (mmr_size (Z.of_nat (length xs))) (peak_hashes xs)
  end.

Lemma node_hash_app xs ys m (h : nat) :
  is_node m (Z.of_nat h) -> m < Z.of_nat (length xs) ->
  node_hash (xs ++ ys) m h = node_hash xs m h.
Proof.
  revert m; induction h as [|h IH]; intros m [Hm Hh] Hl.
  - simpl. rewrite lookup_app_l by lia. done.
  - cbn [node_hash]. assert (Hn : is_node m (Z.of_nat h)) by (split; lia).
    destruct (right_child_sibling m (Z.of_nat h) Hn ltac:(lia)) as (Hl' & _ & _).
    pose proof (pow2_pos (Z.of_nat h) ltac:(lia)).
    rewrite !IH by (done || lia). done.
Qed.

Lemma node_hash_some xs m (h : nat) :
  is_node m (Z.of_nat h) -> m < Z.of_nat (length xs) -> is_Some (node_hash xs m h).
Proof.
  revert m; induction h as [|h IH]; intros m [Hm Hh] Hl.
  - simpl. destruct (lookup_lt_is_Some_2 xs (Z.to_nat m) ltac:(lia)) as [x ->]. simpl. eauto.
  - cbn [node_hash]. assert (Hn : is_node m (Z.of_nat h)) by (split; lia).
    destruct (right_child_sibling m (Z.of_nat h) Hn ltac:(lia)) as (Hl' & _ & _).
    pose proof (pow2_pos (Z.of_nat h) ltac:(lia)).
    destruct (IH _ Hl' ltac:(lia)) as [l ->], (IH _ Hn ltac:(lia)) as [r ->]. eauto.
Qed.

(** The hash file is determined by the elements. *)
Lemma range_of_unique xs hs hs' : range_of xs hs -> range_of xs hs' -> hs = hs'.
Proof.
  intros [Hl Hn] [Hl' Hn']. apply list_eq. intros i.
  destruct (decide (i < length hs)%nat) as [Hi|Hi].
  2: { rewrite !lookup_ge_None_2 by lia. done. }
  destruct (node_exists (Z.of_nat i) ltac:(lia)) as (m & h & Hnode & Ei).
  assert (m < Z.of_nat (length xs)).
  { destruct (Z.ltb_spec m (Z.of_nat (length xs))) as [|Hge]; [done|].
    pose proof (mmr_size_mono (Z.of_nat (length xs)) m ltac:(lia)). destruct Hnode; lia. }
  replace i with (Z.to_nat (mmr_size m + h)) by lia.
  rewrite Hn, Hn' by done. done.
Qed.
End Spec.

(** The PMMR over any lawful backend holds the elements [xs]. *)
Lemma length_snoc {A} (l : list A) x : length (l ++ [x]) = S (length l).
Proof. rewrite length_app. simpl. lia. Qed.

Section Refinement.
  Context {Bitmap Hash T E B : Type} `{!PMMRable Hash T E} `{!Backend Bitmap Hash T E B}
    `{!BackendLaws Bitmap Hash T E B}.
  Implicit Types (xs : list T) (p : PMMR B) (b : B).

Definition represents p xs : Prop :=
  range_of xs (hash_file (backend p)) /\
  last_pos p = mmr_size (Z.of_nat (length xs)) /\
  small_leaves (Z.of_nat (length xs)).

(** Reading a node of the range from the backend. *)
Lemma range_get_from_file b xs m h :
  range_of xs (hash_file b) -> is_node m h -> m < Z.of_nat (length xs) ->
  get_from_file b (node_pos m h) = node_hash xs m (Z.to_nat h).
Proof.
  intros [_ Hn] Hnode Hm. pose proof (mmr_size_bounds m (proj1 Hnode)).
  rewrite file_lookup by (unfold node_pos; destruct Hnode; lia).
  rewrite <- Hn by done. unfold node_pos. f_equal. f_equal. lia.
Qed.

Lemma left_sibling_pos n h :
  is_node n h -> small_leaves n -> h < trailing_ones n ->
  (node_pos n h + 1 - 2 * (2 ^ h)%Z)%u64 = node_pos (n - 2 ^ h) h.
Proof.
  intros Hn Hs Hlt. pose proof (node_pos_bounds n h Hn Hs).
  destruct (right_child_sibling n h Hn Hlt) as ([? ?] & _ & El).
  pose proof (pow2_pos h ltac:(lia)). pose proof (mmr_size_bounds (n - 2 ^ h) ltac:(lia)).
  rewrite mul64_small, add64_small, sub64_small by (unfold node_pos in *; lia).
  unfold node_pos. lia.
Qed.

(** The hash of the parent completed by the last leaf [n]. *)
Lemma node_hash_parent xs x n h lh cur :
  n = Z.of_nat (length xs) -> is_node n h -> h < trailing_ones n ->
  node_hash xs (n - 2 ^ h) (Z.to_nat h) = Some lh ->
  node_hash (xs ++ [x]) n (Z.to_nat h) = Some cur ->
  node_hash (xs ++ [x]) n (Z.to_nat (h + 1))
  = Some (hash_pair (lh, cur) (node_pos n (h + 1) - 1)).
Proof.
  intros En Hn Hlt Hlh Hcur. destruct (right_child_sibling n h Hn Hlt) as (Hl & _ & _).
  pose proof (pow2_pos h ltac:(destruct Hn; lia)).
  replace (Z.to_nat (h + 1)) with (S (Z.to_nat h)) by (destruct Hn; lia). cbn [node_hash].
  rewrite Z2Nat.id, Hcur by (destruct Hn; lia).
  rewrite node_hash_app, Hlh by (rewrite ?Z2Nat.id by (destruct Hn; lia); done || lia).
  unfold node_pos. do 2 f_equal. destruct Hn; lia.
Qed.

(** The hashes a push appends after the one of the leaf: those of the parents
    from height [h + 1] up. *)
Definition parents_from xs x n h (hs : list Hash) : Prop :=
  Z.of_nat (length hs) = trailing_ones n - h /\
  forall i, (i < length hs)%nat -> hs !! i = node_hash (xs ++ [x]) n (Z.to_nat h + 1 + i).

Lemma parents_from_top xs x n h :
  is_node n h -> trailing_ones n <= h -> parents_from xs x n h [] /\ h = trailing_ones n.
Proof. intros [Hn Hh] Hge. split; [split; simpl; intros; lia|lia]. Qed.

Lemma push_loop_spec (fuel : nat) b xs x n h cur acc :
  range_of xs (hash_file b) -> n = Z.of_nat (length xs) -> small_leaves n ->
  is_node n h -> trailing_ones n - h <= Z.of_nat fuel ->
  node_hash (xs ++ [x]) n (Z.to_nat h) = Some cur ->
  exists hs',
    push_loop fuel b n (2 ^ h) (node_pos n h) cur acc
    = Ok (node_pos n (trailing_ones n), acc ++ hs') /\ parents_from xs x n h hs'.
Proof.
  intros Hr En Hs. revert h cur acc.
  induction fuel as [|fuel IH]; intros h cur acc Hn Hf Hcur.
  { destruct (parents_from_top xs x n h Hn ltac:(lia)) as [Hp <-].
    exists []. rewrite app_nil_r. done. }
  cbn [push_loop]. pose proof (node_height_small n h Hn Hs). pose proof (node_pos_bounds n h Hn Hs).
  pose proof (pow2_pos h ltac:(lia)).
  rewrite land_pow2_testbit, testbit_node by (done || (destruct Hn; lia)).
  destruct (Z.ltb_spec h (trailing_ones n)) as [Hlt|Hge]; cbn [negb].
  2: { destruct (parents_from_top xs x n h Hn ltac:(lia)) as [Hp <-].
    exists []. rewrite app_nil_r. done. }
  destruct (right_child_sibling n h Hn Hlt) as (Hl & _ & El).
  rewrite left_sibling_pos, (range_get_from_file b xs) by (done || lia).
  destruct (node_hash_some xs (n - 2 ^ h) (Z.to_nat h)) as [lh Hlh];
    [rewrite Z2Nat.id by lia; done|lia|].
  rewrite Hlh. cbn [ok_or res_bind].
  pose proof (node_hash_parent xs x n h lh cur En Hn Hlt Hlh Hcur) as Hcur'.
  rewrite mul64_small, add64_small by (unfold node_pos in *; lia).
  replace (2 ^ h * 2) with (2 ^ (h + 1)) by (rewrite Z.pow_add_r by lia; lia).
  replace (node_pos n h + 1) with (node_pos n (h + 1)) by (unfold node_pos; lia).
  rewrite sub64_small by (unfold node_pos in *; lia).
  destruct (IH (h + 1) _ (acc ++ [hash_pair (lh, cur) (node_pos n (h + 1) - 1)])
    ltac:(destruct Hn; split; lia) ltac:(lia) Hcur') as (hs' & -> & Hlen & Hlook).
  eexists (_ :: hs'). rewrite <- app_assoc. split; [done|]. split; [simpl; lia|].
  intros [|i] Hi; cbn [lookup list_lookup]; simpl in Hi.
  - rewrite <- Hcur'. f_equal. lia.
  - rewrite Hlook by lia. f_equal. lia.
Qed.

Lemma range_of_snoc xs x hs cur hs' :
  let n := Z.of_nat (length xs) in
  range_of xs hs -> node_hash (xs ++ [x]) n 0 = Some cur -> parents_from xs x n 0 hs' ->
  range_of (xs ++ [x]) (hs ++ cur :: hs').
Proof.
  intros n [Hl Hn] Hcur [Hlen Hlook]. assert (En : n = Z.of_nat (length xs)) by done.
  rewrite <- En in Hl, Hn. clearbody n.
  pose proof (mmr_size_bounds n ltac:(lia)). pose proof (trailing_ones_nonneg n).
  split.
  - rewrite length_snoc. replace (Z.of_nat (S (length xs))) with (n + 1) by lia.
    rewrite mmr_size_succ, length_app by lia. cbn [length]. lia.
  - intros m h Hnode Hm. rewrite length_app in Hm. cbn [length] in Hm.
    destruct (Z.eq_dec m n) as [->|Hne].
    + pose proof Hnode as [_ Hh].
      rewrite lookup_app_r by lia.
      replace (Z.to_nat (mmr_size n + h) - length hs)%nat with (Z.to_nat h) by lia.
      destruct (Z.to_nat h) as [|i] eqn:Ei; cbn [lookup list_lookup].
      * symmetry. done.
      * rewrite Hlook by lia. f_equal.
    + pose proof (mmr_size_strict m n ltac:(destruct Hnode; lia)).
      rewrite lookup_app_l by (destruct Hnode; lia). rewrite Hn by (done || lia).
      symmetry. apply node_hash_app; [rewrite Z2Nat.id by (destruct Hnode; lia); done|lia].
Qed.

Lemma push_represents p xs x :
  represents p xs -> small_leaves (Z.of_nat (length xs) + 1) ->
  exists p', push p x = Ok (node_pos (Z.of_nat (length xs)) 0, p') /\
    represents p' (xs ++ [x]).
Proof.
  set (n := Z.of_nat (length xs)). intros (Hr & Hlast & Hs) Hs1. fold n in Hlast, Hs.
  pose proof (leaf_is_node n (proj1 Hs)) as Hleaf.
  pose proof (node_pos_bounds n 0 Hleaf Hs) as Hb. pose proof (mmr_size_bounds n (proj1 Hs)).
  unfold push. rewrite Hlast.
  assert (Ep : (mmr_size n + 1)%u64 = node_pos n 0).
  { rewrite add64_small; unfold node_pos in *; lia. }
  rewrite Ep, peak_map_height_pos by done. cbn [negb Z.eqb].
  rewrite sub64_small by lia. replace (node_pos n 0 - 1) with (mmr_size n) by (unfold node_pos; lia).
  assert (Hcur : node_hash (xs ++ [x]) n (Z.to_nat 0) = Some (hash_elmt x (mmr_size n))).
  { simpl. subst n. rewrite Nat2Z.id, lookup_app_r, Nat.sub_diag by lia. done. }
  destruct (push_loop_spec 64 (backend p) xs x n 0 (hash_elmt x (mmr_size n))
    [hash_elmt x (mmr_size n)] Hr eq_refl Hs Hleaf) as (hs' & Hloop & Hpar);
    [|done|].
  { pose proof (trailing_ones_bound 61 n Hs). lia. }
  change (2 ^ 0) with 1 in Hloop. rewrite Hloop. cbn [res_bind].
  destruct (append_file (backend p) x ([hash_elmt x (mmr_size n)] ++ hs')) as (b' & -> & Hf).
  cbn [res_bind]. eexists. split; [done|]. split; [|split].
  - cbn [backend]. rewrite Hf. apply range_of_snoc; done.
  - cbn [last_pos]. rewrite length_snoc. replace (Z.of_nat (S (length xs))) with (n + 1) by lia.
    rewrite mmr_size_succ by lia. unfold node_pos. lia.
  - rewrite length_snoc. replace (Z.of_nat (S (length xs))) with (n + 1) by lia. done.
Qed.

Lemma peak_nodes_length xs m j :
  small_leaves (Z.of_nat (length xs)) ->
  In (m, j) (peak_nodes 64 0 (Z.of_nat (length xs))) ->
  is_node m j /\ m < Z.of_nat (length xs).
Proof.
  intros [_ Hs] Hin.
  pose proof (peak_nodes_are_nodes 64 0 (Z.of_nat (length xs)) ltac:(lia)) as Hall.
  change (2 ^ Z.of_nat 64) with U64 in Hall. rewrite Z.mul_0_l in Hall.
  specialize (Hall ltac:(lia)).
  apply (proj1 (List.Forall_forall _ _) Hall) in Hin as (? & _ & ? & _). split; [done|lia].
Qed.

(** Reading peaks from the file gives their hashes. *)
Lemma omap_peaks_hashes b xs (l : list (Z * Z)) :
  range_of xs (hash_file b) ->
  (forall m j, In (m, j) l -> is_node m j /\ m < Z.of_nat (length xs)) ->
  omap (get_from_file b) (map (fun '(m, j) => node_pos m j) l)
  = omap (fun '(m, j) => node_hash xs m (Z.to_nat j)) l.
Proof.
  intros Hr. induction l as [|[m j] l IH]; intros Hl; [done|].
  destruct (Hl m j ltac:(left; done)) as [Hn Hm].
  cbn [map omap list_omap]. rewrite (range_get_from_file b xs) by done.
  rewrite IH by (intros; apply Hl; right; done). done.
Qed.

Lemma pmmr_peaks_spec p xs : represents p xs -> pmmr_peaks p = peak_hashes xs.
Proof.
  intros (Hr & Hl & Hs). pose proof (mmr_size_bounds _ (proj1 Hs)). unfold pmmr_peaks.
  rewrite Hl, peaks_of_size by (destruct Hs; lia).
  apply omap_peaks_hashes; [done|]. intros; apply peak_nodes_length; done.
Qed.

Lemma bag_some size (l : list Hash) : l <> [] -> is_Some (bag size l).
Proof.
  destruct l as [|a l]; [done|]. intros _. cbn. unfold bag_step at 1.
  destruct (foldr _ None l); eauto.
Qed.

Lemma peak_hashes_nonempty xs :
  small_leaves (Z.of_nat (length xs)) -> xs <> [] -> peak_hashes xs <> [].
Proof.
  intros Hs Hne. unfold peak_hashes.
  pose proof (peak_nodes_length xs) as Hin.
  assert (Hpn : peak_nodes 64 0 (Z.of_nat (length xs)) <> []).
  { apply peak_nodes_nonempty. change (2 ^ Z.of_nat 64) with U64.
    destruct xs; [done|]. destruct Hs as [_ Hs]. simpl length in *. lia. }
  destruct (peak_nodes 64 0 (Z.of_nat (length xs))) as [|[m j] l] eqn:El; [done|].
  destruct (Hin m j Hs ltac:(left; done)) as [Hn Hm].
  cbn [omap list_omap].
  destruct (node_hash_some xs m (Z.to_nat j)) as [r ->];
    [rewrite Z2Nat.id by (destruct Hn; lia); done|lia|done].
Qed.

Lemma root_spec p xs :
  represents p xs -> exists r, root p = Ok r /\ range_root xs = Some r.
Proof.
  intros Hrep. pose proof Hrep as (Hr & Hl & Hs).
  pose proof (mmr_size_bounds _ (proj1 Hs)) as Hb.
  unfold root, is_empty, unpruned_size. rewrite (pmmr_peaks_spec p xs Hrep), Hl.
  destruct xs as [|x xs]; [exists ZERO_HASH; done|].
  rewrite (proj2 (Z.eqb_neq _ _)) by (simpl length in *; lia).
  destruct (bag_some (mmr_size (Z.of_nat (length (x :: xs)))) (peak_hashes (x :: xs)))
    as [r Hbag]; [apply peak_hashes_nonempty; done|].
  exists r. unfold range_root. rewrite Hbag. done.
Qed.

(** ** Rewinding *)

Lemma rewind_loop_node (fuel : nat) n h :
  is_node n h -> small_leaves (n + 1) -> trailing_ones n - h <= Z.of_nat fuel ->
  rewind_loop fuel (node_pos n h) = mmr_size (n + 1).
Proof.
  revert h; induction fuel as [|fuel IH]; intros h Hn Hs Hf.
  { destruct Hn as [Hn Hh]. rewrite mmr_size_succ by lia. simpl. unfold node_pos. lia. }
  assert (Hs0 : small_leaves n) by (destruct Hn, Hs; split; lia).
  pose proof (node_pos_bounds n h Hn Hs0). pose proof (pow2_pos h ltac:(destruct Hn; lia)).
  cbn [rewind_loop]. rewrite add64_small by lia.
  destruct (Z.ltb_spec h (trailing_ones n)) as [Hlt|Hge].
  - replace (node_pos n h + 1) with (node_pos n (h + 1)) by (unfold node_pos; lia).
    assert (Hn' : is_node n (h + 1)) by (destruct Hn; split; lia).
    rewrite height_node by done. rewrite (proj2 (Z.ltb_lt _ _)) by (destruct Hn; lia).
    apply IH; [done|done|lia].
  - assert (E' : node_pos n h = mmr_size (n + 1))
      by (destruct Hn; rewrite mmr_size_succ by lia; unfold node_pos; lia).
    replace (node_pos n h + 1) with (node_pos (n + 1) 0) by (unfold node_pos in *; lia).
    rewrite height_node by (done || (apply leaf_is_node; destruct Hs; lia)). done.
Qed.

Lemma rewind_loop_size n : small_leaves n -> rewind_loop 64 (mmr_size n) = mmr_size n.
Proof.
  intros Hs. pose proof (mmr_size_bounds n (proj1 Hs)).
  destruct (Z.eq_dec n 0) as [->|]; [reflexivity|].
  pose proof (mmr_size_succ (n - 1) ltac:(destruct Hs; lia)) as E'.
  replace (n - 1 + 1) with n in E' by lia.
  pose proof (trailing_ones_nonneg (n - 1)).
  replace (mmr_size n) with (node_pos (n - 1) (trailing_ones (n - 1))) at 1
    by (unfold node_pos; lia).
  rewrite rewind_loop_node; [f_equal; lia|split; destruct Hs; lia|replace (n - 1 + 1) with n by lia; done|lia].
Qed.

Lemma rewind_loop_leaf n :
  small_leaves n -> rewind_loop 64 (insertion_to_pmmr_index n) = mmr_size n.
Proof.
  intros Hs. destruct (Z.eq_dec n 0) as [->|]; [reflexivity|].
  assert (Hs' : small_leaves (n - 1)) by (destruct Hs; split; lia).
  replace n with (n - 1 + 1) at 1 by lia. rewrite insertion_index_node by done.
  rewrite rewind_loop_node; [f_equal; lia|apply leaf_is_node; apply Hs'| |].
  - replace (n - 1 + 1) with n by lia. done.
  - pose proof (trailing_ones_bound 61 (n - 1) Hs'). lia.
Qed.

Lemma range_of_take xs ys hs :
  range_of (xs ++ ys) hs -> range_of xs (take (Z.to_nat (mmr_size (Z.of_nat (length xs)))) hs).
Proof.
  intros [Hl Hn]. rewrite length_app in Hl.
  pose proof (mmr_size_bounds (Z.of_nat (length xs)) ltac:(lia)).
  pose proof (mmr_size_mono (Z.of_nat (length xs)) (Z.of_nat (length xs + length ys)) ltac:(lia)).
  split; [rewrite length_take; lia|]. intros m h Hnode Hm.
  pose proof (mmr_size_strict m (Z.of_nat (length xs)) ltac:(destruct Hnode; lia)).
  pose proof (mmr_size_bounds m (proj1 Hnode)).
  rewrite lookup_take_lt by (destruct Hnode; lia).
  rewrite Hn by (done || (rewrite length_app; lia)).
  apply node_hash_app; [rewrite Z2Nat.id by (destruct Hnode; lia); done|done].
Qed.

Lemma rewind_represents p xs ys position bm :
  represents p (xs ++ ys) ->
  position = insertion_to_pmmr_index (Z.of_nat (length xs)) \/
  position = mmr_size (Z.of_nat (length xs)) ->
  exists p', rewind p position bm = Ok p' /\ represents p' xs.
Proof.
  intros (Hr & Hl & Hs) Hpos.
  assert (Hsx : small_leaves (Z.of_nat (length xs)))
    by (rewrite length_app in Hs; destruct Hs; split; lia).
  unfold rewind.
  assert (El : rewind_loop 64 position = mmr_size (Z.of_nat (length xs)))
    by (destruct Hpos as [->| ->]; [apply rewind_loop_leaf|apply rewind_loop_size]; done).
  rewrite El. pose proof (mmr_size_bounds _ (proj1 Hsx)).
  destruct (rewind_file (backend p) (mmr_size (Z.of_nat (length xs))) bm ltac:(lia)) as (b' & -> & Hf).
  eexists. split; [done|]. split; [|split; done].
  cbn [backend]. rewrite Hf. eapply range_of_take; done.
Qed.

(** ** Validation *)

(** Children of the parent [(m, h + 1)]. *)
Lemma children_pos m h :
  is_node m (h + 1) -> 0 <= h -> small_leaves m ->
  (node_pos m (h + 1) - (1 << (h + 1)%Z))%u64 = node_pos (m - 2 ^ h) h /\
  (node_pos m (h + 1) - 1)%u64 = node_pos m h /\
  is_node m h /\ is_node (m - 2 ^ h) h.
Proof.
  intros Hn Hh Hs. assert (Hn' : is_node m h) by (destruct Hn; split; lia).
  destruct (right_child_sibling m h Hn' ltac:(destruct Hn; lia)) as (Hl & _ & El).
  pose proof (node_pos_bounds m (h + 1) Hn Hs). pose proof (node_height_small m (h + 1) Hn Hs).
  pose proof (pow2_pos h Hh). pose proof (mmr_size_bounds (m - 2 ^ h) (proj1 Hl)).
  rewrite shl64_1 by lia. rewrite Z.pow_add_r in * by lia. change (2 ^ 1) with 2 in *.
  rewrite !sub64_small by (unfold node_pos in *; lia). unfold node_pos. repeat split; try apply Hl; try apply Hn'; lia.
Qed.

Lemma validate_loop_ok p ns :
  validate_loop p ns = Ok tt <-> Forall (fun n => validate_node p n = Ok tt) ns.
Proof.
  induction ns as [|n ns IH]; cbn [validate_loop]; [split; auto|].
  destruct (validate_node p n) as [[]| |] eqn:Ev; cbn [res_bind].
  - rewrite IH. split; [intros H; constructor; done|intros H; inversion H; done].
  - split; [done|intros H; inversion H; congruence].
  - split; [done|intros H; inversion H; congruence].
Qed.

(** A file of the right size, whatever its hashes. *)
Definition sized p xs : Prop :=
  Z.of_nat (length (hash_file (backend p))) = mmr_size (Z.of_nat (length xs)) /\
  last_pos p = mmr_size (Z.of_nat (length xs)) /\
  small_leaves (Z.of_nat (length xs)).

Definition leaves_hashed p xs : Prop :=
  forall m, 0 <= m < Z.of_nat (length xs) ->
    get_from_file (backend p) (node_pos m 0) = node_hash xs m 0.

Lemma node_in_file p xs m h :
  sized p xs -> is_node m h -> m < Z.of_nat (length xs) ->
  1 <= node_pos m h <= last_pos p /\ small_leaves m /\
  is_Some (get_from_file (backend p) (node_pos m h)).
Proof.
  intros (Hlen & Hl & Hs) Hn Hm. pose proof (mmr_size_bounds m (proj1 Hn)).
  pose proof (mmr_size_strict m _ ltac:(split; [apply Hn|exact Hm])).
  assert (1 <= node_pos m h <= last_pos p) by (unfold node_pos; destruct Hn; lia).
  split; [done|]. split; [destruct Hn, Hs; split; lia|].
  rewrite file_lookup by lia. apply lookup_lt_is_Some_2. lia.
Qed.

Lemma pmmr_file_in p pos :
  pos <= last_pos p -> pmmr_get_from_file p pos = get_from_file (backend p) pos.
Proof. intros H. unfold pmmr_get_from_file. rewrite (proj2 (Z.ltb_ge _ _)) by lia. done. Qed.

Lemma validate_node_iff p xs m h :
  sized p xs -> is_node m (h + 1) -> 0 <= h -> m < Z.of_nat (length xs) ->
  validate_node p (node_pos m (h + 1)) = Ok tt <->
  exists l r, get_from_file (backend p) (node_pos (m - 2 ^ h) h) = Some l /\
    get_from_file (backend p) (node_pos m h) = Some r /\
    get_from_file (backend p) (node_pos m (h + 1))
    = Some (hash_pair (l, r) (node_pos m (h + 1) - 1)).
Proof.
  intros Hsz Hn Hh Hm. destruct (node_in_file p xs m (h + 1) Hsz Hn Hm) as (Hb & Hs & [v Hv]).
  destruct (children_pos m h Hn Hh Hs) as (EL & ER & Hnr & Hnl).
  pose proof (pow2_pos h Hh).
  destruct (node_in_file p xs m h Hsz Hnr Hm) as (Hbr & _ & [r Hr]).
  destruct (node_in_file p xs (m - 2 ^ h) h Hsz Hnl ltac:(lia)) as (Hbl & _ & [l Hlv]).
  pose proof (node_pos_bounds m (h + 1) Hn Hs) as Hbb.
  pose proof (pow2_pos (h + 1) ltac:(lia)).
  unfold validate_node. rewrite height_node by done.
  rewrite (proj2 (Z.ltb_lt _ _)) by lia.
  unfold get_hash. rewrite (proj2 (Z.ltb_ge _ _)) by lia. rewrite is_leaf_node by done.
  rewrite (proj2 (Z.eqb_neq _ _)) by lia. rewrite Hv, EL, ER.
  rewrite !pmmr_file_in, Hlv, Hr by lia.
  assert (Ei : node_pos m (h + 1) - 1 = node_pos m h) by (unfold node_pos; lia).
  case_bool_decide as Heq; split.
  - intros _. exists l, r. rewrite Ei, Heq. done.
  - done.
  - done.
  - intros (l' & r' & E1 & E2 & E3). rewrite Ei in E3. congruence.
Qed.

Lemma validate_iff_parents p xs :
  sized p xs ->
  validate p = Ok tt <->
  forall m h, is_node m (h + 1) -> 0 <= h -> m < Z.of_nat (length xs) ->
    validate_node p (node_pos m (h + 1)) = Ok tt.
Proof.
  intros Hsz. unfold validate. rewrite validate_loop_ok, List.Forall_forall. split.
  - intros H m h Hn Hh Hm. apply H. destruct (node_in_file p xs m (h + 1) Hsz Hn Hm) as (Hb & _).
    apply list_elem_of_In, elem_of_seqZ. lia.
  - intros H pos Hin. apply list_elem_of_In, elem_of_seqZ in Hin.
    pose proof Hsz as (_ & Hl & Hs). pose proof (mmr_size_bounds _ (proj1 Hs)).
    destruct (node_exists (pos - 1) ltac:(lia)) as (m & h & Hn & Ep).
    assert (Hm : m < Z.of_nat (length xs)).
    { destruct (Z.ltb_spec m (Z.of_nat (length xs))) as [|Hge]; [done|].
      pose proof (mmr_size_mono _ m ltac:(split; [apply Hs|exact Hge])). destruct Hn; lia. }
    replace pos with (node_pos m h) by (unfold node_pos; lia).
    destruct (node_in_file p xs m h Hsz Hn Hm) as (_ & Hsm & _).
    destruct (Z.eq_dec h 0) as [->|Hne].
    + unfold validate_node. rewrite height_node by done. done.
    + replace h with (h - 1 + 1) by lia. apply H; [|destruct Hn; lia|done].
      replace (h - 1 + 1) with h by lia. done.
Qed.

Lemma validate_range p xs :
  sized p xs -> leaves_hashed p xs ->
  validate p = Ok tt <-> range_of xs (hash_file (backend p)).
Proof.
  intros Hsz Hlv. rewrite (validate_iff_parents p xs Hsz). split.
  - intros Hv. split; [apply Hsz|].
    assert (Hnode : forall h m, is_node m (Z.of_nat h) -> m < Z.of_nat (length xs) ->
      get_from_file (backend p) (node_pos m (Z.of_nat h)) = node_hash xs m h).
    { induction h as [|h IH]; intros m Hn Hm; [apply Hlv; destruct Hn; lia|].
      rewrite Nat2Z.inj_succ, <- Z.add_1_r in *. specialize (Hv m (Z.of_nat h) Hn ltac:(lia) Hm).
      apply (validate_node_iff p xs) in Hv as (l & r & El & Er & ->); [|done|done|lia|done].
      assert (Hnr : is_node m (Z.of_nat h)) by (destruct Hn; split; lia).
      destruct (right_child_sibling m (Z.of_nat h) Hnr ltac:(destruct Hn; lia)) as (Hnl & _ & _).
      pose proof (pow2_pos (Z.of_nat h) ltac:(lia)).
      rewrite IH in El, Er by (done || lia). cbn [node_hash]. rewrite El, Er.
      unfold node_pos. do 2 f_equal. lia. }
    intros m h Hn Hm. pose proof (mmr_size_bounds m (proj1 Hn)).
    rewrite <- Hnode by (rewrite ?Z2Nat.id by (destruct Hn; lia); done).
    rewrite Z2Nat.id, file_lookup by (unfold node_pos; destruct Hn; lia).
    unfold node_pos. f_equal. f_equal. lia.
  - intros Hr m h Hn Hh Hm. apply (validate_node_iff p xs); [done..|].
    assert (Hnr : is_node m h) by (destruct Hn; split; lia).
    destruct (right_child_sibling m h Hnr ltac:(destruct Hn; lia)) as (Hnl & _ & _).
    pose proof (pow2_pos h ltac:(lia)).
    destruct (node_hash_some xs (m - 2 ^ h) (Z.to_nat h)) as [l El]; [rewrite Z2Nat.id by lia; done|lia|].
    destruct (node_hash_some xs m (Z.to_nat h)) as [r Er]; [rewrite Z2Nat.id by lia; done|lia|].
    exists l, r. rewrite !(range_get_from_file (backend p) xs) by (done || lia).
    split; [done|]. split; [done|].
    replace (Z.to_nat (h + 1)) with (S (Z.to_nat h)) by lia. cbn [node_hash].
    rewrite Z2Nat.id, El, Er by lia. unfold node_pos. do 2 f_equal. lia.
Qed.
End Refinement.
