(* ===== verification/MerkleProof.v ===== *)
(** * Merkle proofs

    Models [core/src/core/merkle_proof.rs]: verification of a proof against a
    root, and that the proofs [PMMR::merkle_proof] builds are accepted. *)

From Stdlib Require Import ZArith Lia List Bool Sorted.
From stdpp Require Import base numbers list option gmap.
From S2P Require Import Prelude MmrIndex Pmmr.

Inductive MerkleProofError := RootMismatch.

Section Verify.
Context {Hash T E : Type} `{!PMMRable Hash T E}.

(** [MerkleProof::empty] *)
Definition empty_proof : MerkleProof Hash := mkProof 0 [].

(** [MerkleProof::verify] and [verify_consume].  [element] is the
    [hash_with_index] of the element that is verified: the leaf first, then the
    pair of hashes built from it and the sibling consumed from the path.  The
    peaks are computed again at every step, as [verify] does. *)
Fixpoint verify_consume (path : list Hash) (mmr_size : Z) (root : Hash)
    (element : Z -> Hash) (node_pos : Z) : res MerkleProofError unit :=
  let peaks_pos := peaks mmr_size in
  let node_hash :=
    if mmr_size <? node_pos then element mmr_size else element (node_pos - 1)%u64 in
  match path with
  | [] => if bool_decide (root = node_hash) then Ok tt else Err RootMismatch
  | sibling :: path =>
    let '(parent_pos, sibling_pos) := family node_pos in
    match binary_search peaks_pos node_pos with
    | Found x =>
      let parent :=
        if (x =? length peaks_pos - 1)%nat then (sibling, node_hash)
        else (node_hash, sibling) in
      verify_consume path mmr_size root (hash_pair parent) parent_pos
    | NotFound _ =>
      if mmr_size <? parent_pos then
        verify_consume path mmr_size root (hash_pair (sibling, node_hash)) parent_pos
      else
        let parent :=
          if is_left_sibling sibling_pos then (sibling, node_hash)
          else (node_hash, sibling) in
        verify_consume path mmr_size root (hash_pair parent) parent_pos
    end
  end.

(** [MerkleProof::verify] *)
Definition verify (proof : MerkleProof Hash) (root : Hash) (element : Z -> Hash)
    (node_pos : Z) : res MerkleProofError unit :=
  verify_consume (proof_path proof) (mmr_size_of proof) root element node_pos.

(** The hash a step uses for the element at [pos]. *)
Definition value_at (size : Z) (element : Z -> Hash) (pos : Z) : Hash :=
  if size <? pos then element size else element (pos - 1)%u64.

End Verify.

(** ** Proofs built by the PMMR are accepted *)

Section Completeness.
Context {Bitmap Hash T E B : Type} `{!PMMRable Hash T E} `{!Backend Bitmap Hash T E B}
  `{!BackendLaws Bitmap Hash T E B}.
Implicit Types (xs : list T) (p : PMMR B).

(** The node where the climb from [(m, h)] ends. *)
Fixpoint climb_top (fuel : nat) (m h last : Z) : Z * Z :=
  match fuel with
  | O => (m, h)
  | S fuel =>
    let q := parent_node m h in
    if node_pos q.1 q.2 <=? last then climb_top fuel q.1 q.2 last else (m, h)
  end.

Lemma climb_top_last (fuel : nat) m h last_ :
  match last (climb_family fuel m h last_) with Some (x, _) => x | None => node_pos m h end
  = node_pos (climb_top fuel m h last_).1 (climb_top fuel m h last_).2.
Proof.
  revert m h; induction fuel as [|fuel IH]; intros m h; [done|].
  cbn [climb_family climb_top]. destruct (_ <=? last_); [|done].
  rewrite <- IH. rewrite last_cons.
  destruct (last (climb_family fuel _ _ last_)) as [[x y]|]; done.
Qed.

Lemma climb_top_spec (fuel : nat) m h last_ :
  is_node m h -> node_pos m h <= last_ -> last_ < 2 ^ 61 -> 60 <= Z.of_nat fuel + h ->
  let t := climb_top fuel m h last_ in
  is_node t.1 t.2 /\ node_pos t.1 t.2 <= last_ /\
  last_ < node_pos (parent_node t.1 t.2).1 (parent_node t.1 t.2).2.
Proof.
  revert m h; induction fuel as [|fuel IH]; intros m h Hn Hp Hl Hf; cbn [climb_top].
  - cbn [fst snd]. split; [done|]. split; [done|].
    pose proof (node_pos_ge_pow2 _ _ (parent_is_node m h Hn)) as Hge. rewrite parent_height in *.
    assert (2 ^ 61 <= 2 ^ (h + 1)) by (apply Z.pow_le_mono_r; lia). lia.
  - destruct (Z.leb_spec (node_pos (parent_node m h).1 (parent_node m h).2) last_); [|done].
    apply IH; [apply parent_is_node; done|done|done|rewrite parent_height; lia].
Qed.

(** Hash of the parent of a node of the range, from the node and its sibling. *)
Lemma parent_hash xs m h v s :
  is_node m h ->
  node_hash xs m (Z.to_nat h) = Some v ->
  node_hash xs (sibling_node m h).1 (Z.to_nat h) = Some s ->
  let q := parent_node m h in
  node_hash xs q.1 (Z.to_nat q.2)
  = Some (hash_pair (if Z.testbit m h then (s, v) else (v, s)) (node_pos q.1 q.2 - 1)).
Proof.
  intros Hn Hv Hs q. subst q. rewrite parent_height.
  replace (Z.to_nat (h + 1)) with (S (Z.to_nat h)) by (destruct Hn; lia). cbn [node_hash].
  rewrite Z2Nat.id by (destruct Hn; lia). unfold parent_node, sibling_node, node_pos in *.
  destruct (Z.testbit m h); cbn [fst snd] in *.
  - rewrite Hv, Hs. do 2 f_equal. destruct Hn; lia.
  - replace (m + 2 ^ h - 2 ^ h) with m by lia. rewrite Hv, Hs. do 2 f_equal. destruct Hn; lia.
Qed.

(** A node whose parent is in the range is not a peak. *)
Lemma inner_not_peak n m h :
  0 <= n -> mmr_size n < 2 ^ 61 -> is_node m h ->
  node_pos (parent_node m h).1 (parent_node m h).2 <= mmr_size n ->
  ~ In (node_pos m h) (peaks (mmr_size n)).
Proof.
  intros Hn Hsz Hnode Hp Hin. pose proof (mmr_size_bounds n Hn).
  rewrite peaks_of_size in Hin by (done || lia).
  apply in_map_iff in Hin as ([m' j] & Eq & Hin).
  pose proof (peak_nodes_are_nodes 64 0 n ltac:(lia)) as Hall.
  change (2 ^ Z.of_nat 64) with U64 in Hall. specialize (Hall ltac:(lia)).
  apply (proj1 (List.Forall_forall _ _) Hall) in Hin as (Hn' & Ht & Hle & _).
  destruct (node_unique m' j m h Hn' Hnode) as [-> ->]; [unfold node_pos in Eq; lia|].
  unfold parent_node in Hp. rewrite testbit_node, Ht, Z.ltb_irrefl in Hp by done.
  cbn [fst snd] in Hp. unfold node_pos in Hp.
  pose proof (mmr_size_mono n (m + 2 ^ h) ltac:(lia)). destruct Hnode. lia.
Qed.

(** Verification of the branch inside the tree of a peak. *)
Lemma verify_branch (fuel : nat) p xs root rest m h element v :
  represents p xs -> mmr_size (Z.of_nat (length xs)) < 2 ^ 61 ->
  is_node m h -> m < Z.of_nat (length xs) ->
  node_hash xs m (Z.to_nat h) = Some v -> value_at (last_pos p) element (node_pos m h) = v ->
  let t := climb_top fuel m h (last_pos p) in
  exists element' v',
    verify_consume (omap (fun x => pmmr_get_from_file p x.2) (climb_family fuel m h (last_pos p))
      ++ rest) (last_pos p) root element (node_pos m h)
    = verify_consume rest (last_pos p) root element' (node_pos t.1 t.2) /\
    node_hash xs t.1 (Z.to_nat t.2) = Some v' /\
    value_at (last_pos p) element' (node_pos t.1 t.2) = v' /\ t.1 < Z.of_nat (length xs).
Proof.
  intros Hrep Hsz. revert m h element v.
  induction fuel as [|fuel IH]; intros m h element v Hn Hm Hv He; [exists element, v; done|].
  cbn [climb_family climb_top].
  destruct (Z.leb_spec (node_pos (parent_node m h).1 (parent_node m h).2) (last_pos p)) as [Hp|Hp];
    [|exists element, v; done].
  pose proof Hrep as (Hr & Hl & Hs). rewrite Hl in Hp.
  pose proof (sibling_is_node m h Hn) as Hsn. pose proof (parent_is_node m h Hn) as Hpn.
  pose proof (parent_pos_gt m h Hn) as Hgt.
  destruct (family_sibling_node m h Hn) as (Eps & _ & Ebit).
  pose proof (parent_pos_gt _ _ Hsn) as Hsgt. rewrite Eps in Hsgt.
  assert (Eh : (sibling_node m h).2 = h) by (unfold sibling_node; destruct (Z.testbit m h); done).
  assert (Hin : forall a c, is_node a c -> node_pos a c <= mmr_size (Z.of_nat (length xs)) ->
    a < Z.of_nat (length xs)).
  { intros a c [Ha Hc] Hle. destruct (Z.ltb_spec a (Z.of_nat (length xs))) as [|Hge]; [done|].
    pose proof (mmr_size_mono (Z.of_nat (length xs)) a ltac:(lia)). unfold node_pos in Hle. lia. }
  pose proof (Hin _ _ Hpn Hp) as Hpm. pose proof (Hin _ _ Hsn ltac:(lia)) as Hsm.
  assert (Hsl : forall a, 0 <= a < Z.of_nat (length xs) -> small_leaves a)
    by (intros a Ha; destruct Hs; split; lia).
  assert (Hms : small_leaves m) by (apply Hsl; destruct Hn; lia).
  destruct (node_hash_some xs (sibling_node m h).1 (Z.to_nat h)) as [s Es];
    [rewrite Z2Nat.id by (destruct Hn; lia); rewrite Eh in Hsn; done|done|].
  cbn [omap list_omap snd].
  rewrite pmmr_file_in by lia. rewrite (range_get_from_file (backend p) xs) by done.
  rewrite Eh, Es. cbn [app verify_consume].
  rewrite family_node, Eh by done.
  destruct (binary_search_notin (peaks (last_pos p)) (node_pos m h)) as [i ->];
    [rewrite Hl; apply inner_not_peak; (done || lia)|].
  rewrite (proj2 (Z.ltb_ge (last_pos p) _)) by lia.
  rewrite Eh in Hsn. rewrite is_left_sibling_node by (done || (apply Hsl; destruct Hsn; lia)).
  rewrite Ebit, negb_involutive. unfold value_at in He. rewrite He.
  pose proof (parent_hash xs m h v s Hn Hv Es) as Hph. cbv zeta in Hph.
  eapply IH; [done|done|exact Hph|].
  pose proof (node_pos_bounds _ _ Hpn (Hsl (parent_node m h).1 ltac:(destruct Hpn; lia))) as Hpb.
  pose proof (pow2_pos (parent_node m h).2 ltac:(destruct Hpn; lia)).
  unfold value_at. rewrite (proj2 (Z.ltb_ge _ _)), sub64_small by lia. done.
Qed.

Lemma peaks_le n x : 0 <= n -> mmr_size n < 2 ^ 61 -> In x (peaks (mmr_size n)) -> x <= mmr_size n.
Proof.
  intros Hn Hsz Hin. pose proof (mmr_size_bounds n Hn).
  rewrite peaks_of_size in Hin by (done || lia).
  apply in_map_iff in Hin as ([m j] & <- & Hin).
  pose proof (peak_nodes_are_nodes 64 0 n ltac:(lia)) as Hall.
  change (2 ^ Z.of_nat 64) with U64 in Hall. specialize (Hall ltac:(lia)).
  apply (proj1 (List.Forall_forall _ _) Hall) in Hin as (Hn' & _ & Hle & _).
  pose proof (mmr_size_strict m n ltac:(destruct Hn'; lia)). unfold node_pos. destruct Hn'; lia.
Qed.

Lemma bag_cons size (a : Hash) l v : bag size l = Some v -> bag size (a :: l) = Some (hash_pair (a, v) size).
Proof. unfold bag. cbn [foldr]. intros ->. done. Qed.

(** Beyond the size only the peaks to the left remain to be bagged. *)
Lemma verify_beyond (l : list Hash) n m h element suffix r :
  0 <= n -> mmr_size n < 2 ^ 61 -> is_node m h -> mmr_size n < node_pos m h ->
  m + 2 ^ (h + Z.of_nat (length l)) - 2 ^ h < 2 ^ 61 ->
  bag (mmr_size n) suffix = Some (element (mmr_size n)) ->
  bag (mmr_size n) (rev l ++ suffix) = Some r ->
  verify_consume l (mmr_size n) r element (node_pos m h) = Ok tt.
Proof.
  intros Hn Hsz. revert m h element suffix.
  induction l as [|a l IH]; intros m h element suffix Hnode Hgt Hb Hbag Hr;
    cbn [verify_consume]; rewrite (proj2 (Z.ltb_lt _ (node_pos m h))) by done.
  - simpl in Hr. rewrite Hbag in Hr. injection Hr as ->. rewrite bool_decide_true; done.
  - pose proof (pow2_pos h ltac:(destruct Hnode; lia)).
    cbn [length] in Hb. rewrite Nat2Z.inj_succ in Hb.
    replace (h + Z.succ (Z.of_nat (length l))) with (h + 1 + Z.of_nat (length l)) in Hb by lia.
    assert (E1 : 2 ^ (h + 1) = 2 * 2 ^ h) by (rewrite Z.pow_add_r by (destruct Hnode; lia); lia).
    assert (2 ^ (h + 1) <= 2 ^ (h + 1 + Z.of_nat (length l)))
      by (apply Z.pow_le_mono_r; destruct Hnode; lia).
    assert (Hs : small_leaves m) by (destruct Hnode; split; lia).
    rewrite family_node by done.
    destruct (binary_search_notin (peaks (mmr_size n)) (node_pos m h)) as [i ->].
    { intros Hin. apply peaks_le in Hin; lia. }
    pose proof (parent_pos_gt m h Hnode). rewrite (proj2 (Z.ltb_lt _ _)) by lia.
    cbn [rev] in Hr. rewrite <- app_assoc in Hr. cbn [app] in Hr.
    eapply IH; [apply parent_is_node; done|lia| |apply bag_cons; exact Hbag|exact Hr].
    rewrite parent_height. unfold parent_node. destruct (Z.testbit m h); cbn [fst]; lia.
Qed.

(** Splitting the strictly increasing peaks at one of them. *)
Lemma filter_peaks_split (pre post : list Z) x :
  Forall (fun a => a < x) pre -> Forall (fun a => x < a) post ->
  List.filter (fun y => y <? x) (pre ++ x :: post) = pre /\
  List.filter (fun y => x <? y) (pre ++ x :: post) = post.
Proof.
  intros Hpre Hpost.
  assert (Hf : forall (f : Z -> bool) l, Forall (fun a => f a = true) l -> List.filter f l = l).
  { intros f l Hl. induction Hl as [|? ? Hx ? IHl]; simpl; [done|]. rewrite Hx, IHl. done. }
  assert (Hg : forall (f : Z -> bool) l, Forall (fun a => f a = false) l -> List.filter f l = []).
  { intros f l Hl. induction Hl as [|? ? Hx ? IHl]; simpl; [done|]. rewrite Hx. done. }
  rewrite !List.filter_app. cbn [List.filter]. rewrite Z.ltb_irrefl. split.
  - rewrite Hf, (Hg _ post), app_nil_r; [done| |];
      (eapply List.Forall_impl; [|eassumption]); simpl; intros; [apply Z.ltb_ge; lia|apply Z.ltb_lt; lia].
  - rewrite (Hg _ pre), Hf; [done| |];
      (eapply List.Forall_impl; [|eassumption]); simpl; intros; [apply Z.ltb_lt; lia|apply Z.ltb_ge; lia].
Qed.

Lemma StronglySorted_split (pre post : list Z) x :
  StronglySorted Z.lt (pre ++ x :: post) ->
  Forall (fun a => a < x) pre /\ Forall (fun a => x < a) post.
Proof.
  induction pre as [|a pre IH]; simpl; intros H; inversion H as [|? ? Hs Hf]; subst.
  - split; [constructor|done].
  - destruct (IH Hs) as [Hp Hq]. split; [|done]. constructor; [|done].
    apply (proj1 (List.Forall_forall _ _) Hf). apply in_elt.
Qed.

(** The parentless end of a climb is one of the peaks. *)
Lemma top_is_peak n m j :
  0 <= n -> mmr_size n < 2 ^ 61 -> is_node m j -> node_pos m j <= mmr_size n ->
  mmr_size n < node_pos (parent_node m j).1 (parent_node m j).2 ->
  exists pre post, peak_nodes 64 0 n = pre ++ (m, j) :: post.
Proof.
  intros Hn Hsz Hnode Hle Hgt. pose proof (mmr_size_bounds n Hn).
  assert (Hs : small_leaves m) by (eapply node_pos_small_leaves; done).
  destruct (parentless_is_peak n m j Hn Hnode Hs Hle) as [Hb Ep]; [rewrite family_node by done; done|].
  assert (Hin : node_pos m j ∈ peak_positions 64 0 n).
  { apply elem_of_peak_positions; [change (2 ^ Z.of_nat 64) with U64; lia|].
    exists j. pose proof (node_height_small m j Hnode Hs). split; [lia|]. split; [done|lia]. }
  assert (HU : n < 2 ^ Z.of_nat 64) by (change (2 ^ Z.of_nat 64) with U64; lia).
  pose proof (peak_positions_nodes 64 0 n ltac:(lia) (conj Hn HU)) as Epp.
  pose proof (peak_nodes_are_nodes 64 0 n ltac:(lia) (conj Hn HU)) as Hall.
  rewrite Z.mul_0_l in Epp, Hall. change (mmr_size 0) with 0 in Epp. rewrite Epp in Hin.
  apply list_elem_of_In, in_map_iff in Hin as ([m' j'] & Eq & Hin).
  pose proof (proj1 (List.Forall_forall _ _) Hall _ Hin) as (Hn' & _).
  destruct (node_unique m' j' m j Hn' Hnode) as [-> ->]; [unfold node_pos in Eq; lia|].
  apply in_split in Hin as (pre & post & E'). exists pre, post. exact E'.
Qed.

Lemma length_omap_le {A C} (f : A -> option C) (l : list A) : (length (omap f l) <= length l)%nat.
Proof. induction l as [|a l IH]; [done|]. cbn [omap list_omap]. destruct (f a); simpl; lia. Qed.

(** Hashes of some peaks of the range. *)
Definition hashes_of xs (l : list (Z * Z)) : list Hash :=
  omap (fun '(m, j) => node_hash xs m (Z.to_nat j)) l.

(** The path from a peak: the bagged peaks on its right, if any, then the peaks
    on its left, nearest first. *)
Lemma peak_path_split p xs m j pre post :
  represents p xs -> mmr_size (Z.of_nat (length xs)) < 2 ^ 61 ->
  peak_nodes 64 0 (Z.of_nat (length xs)) = pre ++ (m, j) :: post ->
  peaks (last_pos p) = map (fun '(m, j) => node_pos m j) pre ++ node_pos m j
    :: map (fun '(m, j) => node_pos m j) post /\
  Forall (fun a => a < node_pos m j) (map (fun '(m, j) => node_pos m j) pre) /\
  peak_path p (node_pos m j) =
    match bag (last_pos p) (hashes_of xs post) with
    | Some rhs => rhs :: rev (hashes_of xs pre)
    | None => rev (hashes_of xs pre)
    end.
Proof.
  intros (Hr & Hl & Hs) Hsz Epn.
  assert (Hpk : peaks (last_pos p) = map (fun '(m, j) => node_pos m j) pre ++ node_pos m j
    :: map (fun '(m, j) => node_pos m j) post).
  { rewrite Hl, peaks_of_size, Epn by lia. rewrite map_app. done. }
  assert (Hsort : StronglySorted Z.lt (peaks (last_pos p))).
  { pose proof (mmr_size_bounds (Z.of_nat (length xs)) ltac:(lia)).
    pose proof (peaks_node _ 0 (leaf_is_node _ (proj1 Hs)) ltac:(lia)) as E0.
    rewrite Z.add_0_r in E0. rewrite Hl, E0. apply peak_positions_sorted. }
  rewrite Hpk in Hsort. apply StronglySorted_split in Hsort as [Hpre Hpost].
  split; [done|]. split; [done|].
  assert (Hin : forall a c, In (a, c) (pre ++ (m, j) :: post) ->
    is_node a c /\ a < Z.of_nat (length xs)).
  { intros a c Hac. rewrite <- Epn in Hac. apply peak_nodes_length; done. }
  unfold peak_path, bag_the_rhs. rewrite Hpk.
  destruct (filter_peaks_split _ _ _ Hpre Hpost) as [-> ->].
  rewrite !(omap_peaks_hashes (backend p) xs)
    by (try done; intros a c Hac; apply Hin, in_app_iff; (left; done) || (right; right; done)).
  unfold unpruned_size, hashes_of. destruct (bag _ _); [rewrite rev_unit|]; done.
Qed.

Lemma hashes_of_nil xs pre m j post :
  small_leaves (Z.of_nat (length xs)) ->
  peak_nodes 64 0 (Z.of_nat (length xs)) = pre ++ (m, j) :: post ->
  hashes_of xs post = [] -> post = [].
Proof.
  intros Hs Epn Hnil. destruct post as [|[a c] post]; [done|].
  destruct (peak_nodes_length xs a c Hs) as [Hn Ha].
  { rewrite Epn. apply in_app_iff. right. right. left. done. }
  destruct (node_hash_some xs a (Z.to_nat c)) as [w Hw];
    [rewrite Z2Nat.id by (destruct Hn; lia); done|done|].
  unfold hashes_of in Hnil. cbn [omap list_omap] in Hnil. rewrite Hw in Hnil. done.
Qed.

Lemma hashes_of_app_cons xs pre m j post v :
  node_hash xs m (Z.to_nat j) = Some v ->
  hashes_of xs (pre ++ (m, j) :: post) = hashes_of xs pre ++ v :: hashes_of xs post.
Proof.
  intros Hv. unfold hashes_of. rewrite omap_app. f_equal. cbn [omap list_omap].
  rewrite Hv. done.
Qed.

Lemma range_root_nonempty xs :
  xs <> [] -> range_root xs = bag (mmr_size (Z.of_nat (length xs))) (peak_hashes xs).
Proof. destruct xs; done. Qed.

Lemma peak_hashes_nodes xs :
  peak_hashes xs = hashes_of xs (peak_nodes 64 0 (Z.of_nat (length xs))).
Proof. unfold peak_hashes, hashes_of. reflexivity. Qed.

Lemma peak_nodes_zero : peak_nodes 64 0 0 = [].
Proof. reflexivity. Qed.

Lemma root_at_peak xs pre m j post v r :
  peak_nodes 64 0 (Z.of_nat (length xs)) = pre ++ (m, j) :: post ->
  node_hash xs m (Z.to_nat j) = Some v -> range_root xs = Some r ->
  bag (mmr_size (Z.of_nat (length xs))) (hashes_of xs pre ++ v :: hashes_of xs post) = Some r.
Proof.
  intros Epn Hv Hr. rewrite range_root_nonempty in Hr.
  - rewrite peak_hashes_nodes, Epn in Hr.
    rewrite <- (hashes_of_app_cons xs pre m j post v Hv). exact Hr.
  - intros ->. change (Z.of_nat (length (@nil T))) with 0 in Epn.
    rewrite peak_nodes_zero in Epn. destruct pre; discriminate.
Qed.

(** The step out of a peak leaves enough room for all the peaks on its left. *)
Lemma peak_parent_room xs m j pre post (l : list Hash) :
  Z.of_nat (length xs) < 2 ^ 58 -> is_node m j -> m < Z.of_nat (length xs) ->
  peak_nodes 64 0 (Z.of_nat (length xs)) = pre ++ (m, j) :: post ->
  (length l <= length pre)%nat ->
  (parent_node m j).1 + 2 ^ ((parent_node m j).2 + Z.of_nat (length l)) - 2 ^ (parent_node m j).2
  < 2 ^ 61.
Proof.
  intros Hn Hnode Hm Epn Hl.
  change 64%nat with (6 + 58)%nat in Epn. rewrite peak_nodes_widen in Epn by exact Hn.
  apply peak_nodes_prefix in Epn. rewrite parent_height.
  assert (2 ^ (j + 1 + Z.of_nat (length l)) <= 2 ^ 58) by (apply Z.pow_le_mono_r; lia).
  assert (2 ^ j <= 2 ^ 58) by (apply Z.pow_le_mono_r; lia).
  pose proof (pow2_pos (j + 1) ltac:(destruct Hnode; lia)).
  change (2 ^ 61) with (8 * 2 ^ 58).
  unfold parent_node. destruct (Z.testbit m j); cbn [fst]; lia.
Qed.

(** Verification from a peak: bag the right-hand side, then the left peaks. *)
Lemma verify_peak p xs m j pre post element v r :
  represents p xs -> Z.of_nat (length xs) < 2 ^ 58 ->
  is_node m j -> m < Z.of_nat (length xs) -> small_leaves m ->
  mmr_size (Z.of_nat (length xs)) < node_pos (parent_node m j).1 (parent_node m j).2 ->
  peak_nodes 64 0 (Z.of_nat (length xs)) = pre ++ (m, j) :: post ->
  node_hash xs m (Z.to_nat j) = Some v ->
  value_at (last_pos p) element (node_pos m j) = v -> range_root xs = Some r ->
  verify_consume (peak_path p (node_pos m j)) (last_pos p) r element (node_pos m j) = Ok tt.
Proof.
  intros Hrep Hn Hnode Hm Hsm Hout Epn Hv Hval Hroot.
  pose proof (mmr_size_bounds (Z.of_nat (length xs)) ltac:(lia)).
  assert (Hsz : mmr_size (Z.of_nat (length xs)) < 2 ^ 61) by (change (2 ^ 61) with (8 * 2 ^ 58); lia).
  destruct (peak_path_split p xs m j pre post Hrep Hsz Epn) as (Hpk & Hpre & ->).
  pose proof Hrep as (_ & Hl & Hs). pose proof (parent_is_node m j Hnode) as Hpn.
  pose proof (root_at_peak xs pre m j post v r Epn Hv Hroot) as Hbag.
  pose proof (length_omap_le (fun '(m, j) => node_hash xs m (Z.to_nat j)) pre) as Hlen.
  fold (hashes_of xs pre) in Hlen. unfold value_at in Hval.
  pose proof (peak_parent_room xs m j pre post) as Hroom. rewrite Hl in *.
  destruct (bag (mmr_size (Z.of_nat (length xs))) (hashes_of xs post)) as [rhs|] eqn:Erhs.
  - cbn [verify_consume]. rewrite Hval, family_node by done.
    rewrite Hpk, binary_search_at by done. rewrite length_app, length_map. cbn [length].
    rewrite length_map. destruct post as [|q post]; [discriminate|].
    rewrite (proj2 (Nat.eqb_neq _ _)) by (simpl; lia).
    eapply (verify_beyond _ _ _ _ _ (v :: hashes_of xs (q :: post)));
      [lia|done|done|done| |apply bag_cons; done|rewrite rev_involutive; done].
    apply Hroom; try done. rewrite length_rev. lia.
  - assert (Hp0 : hashes_of xs post = []).
    { destruct (hashes_of xs post) eqn:Eh; [done|].
      destruct (bag_some (mmr_size (Z.of_nat (length xs))) (hashes_of xs post)) as [w Hw];
        [rewrite Eh; done|]. rewrite Eh in Hw. congruence. }
    assert (post = []) as -> by (eapply hashes_of_nil; done).
    rewrite Hp0 in Hbag. destruct (rev (hashes_of xs pre)) as [|a l] eqn:Er.
    + apply (f_equal (@rev _)) in Er. rewrite rev_involutive in Er. rewrite Er in Hbag.
      cbn [verify_consume]. rewrite Hval. injection Hbag as ->. rewrite bool_decide_true; done.
    + assert (Ep : hashes_of xs pre = rev l ++ [a])
        by (rewrite <- (rev_involutive (hashes_of xs pre)), Er; done).
      cbn [verify_consume]. rewrite Hval, family_node by done.
      rewrite Hpk, binary_search_at by done. rewrite length_app, length_map. cbn [length map].
      rewrite (proj2 (Nat.eqb_eq _ _)) by lia.
      rewrite Ep in Hbag, Hlen. rewrite <- app_assoc in Hbag. cbn [app] in Hbag.
      rewrite length_app, length_rev in Hlen. cbn [length] in Hlen.
      eapply (verify_beyond _ _ _ _ _ [a; v]); [lia|done|done|done| |done|done].
      apply Hroom; try done. lia.
Qed.

(** A leaf of the range and the proof [merkle_proof] builds for it. *)
Lemma merkle_proof_accepted p xs i x r :
  represents p xs -> Z.of_nat (length xs) < 2 ^ 58 ->
  xs !! Z.to_nat i = Some x -> 0 <= i -> is_Some (get_hash p (node_pos i 0)) ->
  root p = Ok r ->
  exists pf, merkle_proof p (node_pos i 0) = Ok pf /\
    verify pf r (hash_elmt x) (node_pos i 0) = Ok tt.
Proof.
  intros Hrep Hn Hx Hi [w Hw] Hroot.
  assert (Hil : i < Z.of_nat (length xs)) by (apply lookup_lt_Some in Hx; lia).
  destruct (root_spec p xs Hrep) as (r' & Hr' & Hroot'). rewrite Hroot in Hr'. injection Hr' as <-.
  pose proof Hrep as (Hr & Hl & Hs). pose proof (leaf_is_node i Hi) as Hleaf.
  assert (Hsi : small_leaves i) by (destruct Hs; split; lia).
  pose proof (mmr_size_bounds (Z.of_nat (length xs)) ltac:(lia)).
  assert (Hsz : mmr_size (Z.of_nat (length xs)) < 2 ^ 61) by (change (2 ^ 61) with (8 * 2 ^ 58); lia).
  pose proof (mmr_size_strict i (Z.of_nat (length xs)) ltac:(lia)).
  pose proof (trailing_ones_nonneg i). pose proof (mmr_size_bounds i Hi).
  assert (Hle : node_pos i 0 <= mmr_size (Z.of_nat (length xs))) by (unfold node_pos; lia).
  unfold merkle_proof. rewrite is_leaf_node by done. cbn [negb Z.eqb]. rewrite Hw.
  cbn [ok_or res_bind]. eexists. split; [done|]. unfold verify. cbn [proof_path mmr_size_of].
  rewrite family_branch_climb by (done || lia). rewrite climb_top_last.
  destruct (climb_top_spec 64 i 0 (last_pos p) Hleaf ltac:(lia) ltac:(lia) ltac:(lia))
    as (Htn & Htle & Htout).
  unfold unpruned_size.
  destruct (verify_branch 64 p xs r
    (peak_path p (node_pos (climb_top 64 i 0 (last_pos p)).1 (climb_top 64 i 0 (last_pos p)).2))
    i 0 (hash_elmt x) (hash_elmt x (mmr_size i)) Hrep Hsz Hleaf Hil) as (el & v' & -> & Hv' & Hval' & Ht).
  { simpl. rewrite Hx. done. }
  { unfold value_at. rewrite (proj2 (Z.ltb_ge _ _)) by lia.
    rewrite sub64_small by (unfold node_pos in *; lia). unfold node_pos. f_equal. lia. }
  generalize dependent (climb_top 64 i 0 (last_pos p)). intros [m j]. cbn [fst snd]. intros.
  rewrite Hl in Htle, Htout.
  destruct (top_is_peak (Z.of_nat (length xs)) m j ltac:(lia) Hsz Htn Htle Htout) as (pre & post & Epn).
  eapply verify_peak; try eassumption. destruct Htn, Hs; split; lia.
Qed.
End Completeness.
