(* ===== verification/PmmrTheorems.v ===== *)
(** * Properties of the prunable Merkle Mountain Range

    The promises of [PMMR] ([core/src/core/pmmr/pmmr.rs]) and of Merkle proofs
    ([core/src/core/merkle_proof.rs]), stated against the abstract range, the
    list of the elements pushed so far.  The theorems that read hashes only are
    proved for every backend that satisfies [BackendLaws]; those about data and
    removal are about [VecBackend]. *)

From Stdlib Require Import ZArith Lia List Bool.
From stdpp Require Import base numbers list option gmap.
From S2P Require Import Prelude MmrIndex Pmmr MerkleProof.

(** ** Sequences of pushes *)

Section Sequences.
  Context {Bitmap Hash T E B : Type} `{!PMMRable Hash T E} `{!Backend Bitmap Hash T E B}
    `{!BackendLaws Bitmap Hash T E B}.
  Implicit Types (xs : list T) (p : PMMR B) (b : B).

(** Push the elements of a list, in order. *)
Fixpoint push_all p xs : res PmmrError (PMMR B) :=
  match xs with
  | [] => Ok p
  | x :: xs => let? '(_, p) := push p x in push_all p xs
  end.

Lemma new_represents b : hash_file b = [] -> represents (new b) [].
Proof.
  intros Hb. split; [|split; [done|split; simpl; lia]].
  cbn [new backend]. rewrite Hb. split; [done|]. intros m h [Hm _] Hlt. simpl in Hlt. lia.
Qed.

Lemma push_all_represents p xs ys :
  represents p xs -> small_leaves (Z.of_nat (length (xs ++ ys))) ->
  exists p', push_all p ys = Ok p' /\ represents p' (xs ++ ys).
Proof.
  revert p xs; induction ys as [|y ys IH]; intros p xs Hp Hs.
  { exists p. rewrite app_nil_r. done. }
  rewrite length_app in Hs. cbn [length] in Hs.
  destruct (push_represents p xs y Hp) as (p1 & E1 & Hp1); [destruct Hs; split; lia|].
  destruct (IH p1 (xs ++ [y]) Hp1) as (p2 & E2 & Hp2).
  { rewrite <- app_assoc, length_app. exact Hs. }
  exists p2. cbn [push_all]. rewrite E1. cbn [res_bind]. rewrite E2, <- app_assoc in *. done.
Qed.

Lemma represents_root p p' xs :
  represents p xs -> represents p' xs -> root p = root p' /\ last_pos p = last_pos p' /\
  hash_file (backend p) = hash_file (backend p').
Proof.
  intros H H'. destruct (root_spec p xs H) as (r & E1 & E2), (root_spec p' xs H') as (r' & E1' & E2').
  split; [congruence|]. split; [destruct H as (_ & -> & _), H' as (_ & -> & _); done|].
  eapply range_of_unique; [apply H|apply H'].
Qed.

(** Peaks read through a view of a prefix of the range. *)
Lemma prefix_peaks b xs ys n :
  range_of (xs ++ ys) (hash_file b) -> small_leaves (Z.of_nat (length xs)) ->
  n = mmr_size (Z.of_nat (length xs)) ->
  pmmr_peaks (mkPMMR n b) = peak_hashes xs.
Proof.
  intros Hr Hs ->. unfold pmmr_peaks. cbn [last_pos backend].
  pose proof (mmr_size_bounds _ (proj1 Hs)).
  rewrite peaks_of_size by (destruct Hs; lia). unfold peak_hashes.
  pose proof (peak_nodes_length xs) as Hin.
  generalize dependent (peak_nodes 64 0 (Z.of_nat (length xs))). intros l Hin.
  rewrite (omap_peaks_hashes b (xs ++ ys));
    [|done|intros m j Hmj; destruct (Hin m j Hs Hmj); rewrite length_app; split; [done|lia]].
  induction l as [|[m j] l IH]; [done|]. cbn [omap list_omap].
  destruct (Hin m j Hs ltac:(left; done)) as [[Hm Hj] Hlt].
  rewrite node_hash_app by (done || (split; rewrite ?Z2Nat.id; lia)).
  rewrite IH by (intros; apply Hin; [done|right; done]). done.
Qed.
End Sequences.

(** ** A symbolic hash, to evaluate the operations *)

Inductive SymHash :=
| SymZero
| SymElmt (x pos : Z)
| SymPair (l r : SymHash) (pos : Z).

#[export] Instance sym_hash_eq_dec : EqDecision SymHash.
Proof. solve_decision. Defined.

#[export] Instance sym_pmmrable : PMMRable SymHash Z Z := {
  ZERO_HASH := SymZero;
  hash_elmt := SymElmt;
  hash_pair := fun '(l, r) pos => SymPair l r pos;
  as_elmt := fun x => x;
  hash_eq_dec := sym_hash_eq_dec
}.

(** A range over [VecBackend] filled by pushing [xs]. *)
Definition sym_range (xs : list Z) : PMMR (VecBackend SymHash Z) :=
  match push_all (Bitmap := unit) (E := Z) (new vec_new) xs with Ok p => p | _ => new vec_new end.

Lemma sym_represents (xs : list Z) :
  small_leaves (Z.of_nat (length xs)) -> represents (Bitmap := unit) (E := Z) (sym_range xs) xs.
Proof.
  intros Hs. destruct (push_all_represents (Bitmap := unit) (E := Z) (new vec_new) [] xs)
    as (p & E1 & E2); [apply new_represents; done|done|].
  unfold sym_range. rewrite E1. done.
Qed.

(** ** Refinement *)

Section Claims.
  Context {Bitmap Hash T E B : Type} `{!PMMRable Hash T E} `{!Backend Bitmap Hash T E B}
    `{!BackendLaws Bitmap Hash T E B}.
  Implicit Types (xs ys : list T) (p : PMMR B) (b : B).

(** C1: pushing the elements [xs] into a fresh PMMR succeeds, for every backend that keeps its
    promises: the size is that of a range of [length xs] leaves, the hash file holds every node of
    the abstract range at its position, and [root] is the bagged root of the abstract range. *)
Theorem pushes_build_the_range b xs :
  hash_file b = [] -> small_leaves (Z.of_nat (length xs)) ->
  exists p r, push_all (new b) xs = Ok p /\
    unpruned_size p = mmr_size (Z.of_nat (length xs)) /\
    range_of xs (hash_file (backend p)) /\
    root p = Ok r /\ range_root xs = Some r.
Proof.
  intros Hb Hs. destruct (push_all_represents (new b) [] xs (new_represents b Hb) Hs) as (p & E1 & Hp).
  destruct (root_spec p xs Hp) as (r & E2 & E3). exists p, r.
  split; [done|]. split; [apply Hp|]. split; [apply Hp|]. done.
Qed.

(** C3: rewinding undoes pushes: after pushing [ys] on a range of [xs], a [rewind] to the old size,
    or to the position of the last old leaf, gives back the old size, the old hash file and the old
    root. *)
Theorem rewind_undoes_pushes p xs ys position bm :
  represents p xs -> small_leaves (Z.of_nat (length (xs ++ ys))) ->
  position = insertion_to_pmmr_index (Z.of_nat (length xs)) \/ position = unpruned_size p ->
  exists p' p'', push_all p ys = Ok p' /\ rewind p' position bm = Ok p'' /\
    root p'' = root p /\ unpruned_size p'' = unpruned_size p /\
    hash_file (backend p'') = hash_file (backend p).
Proof.
  intros Hp Hs Hpos. destruct (push_all_represents p xs ys Hp Hs) as (p' & E1 & Hp').
  destruct (rewind_represents p' xs ys position bm Hp') as (p'' & E2 & Hp'').
  { destruct Hpos as [Hq|Hq]; rewrite Hq; [left|right]; [done|apply Hp]. }
  exists p', p''. split; [done|]. split; [done|]. apply (represents_root p'' p xs); done.
Qed.

(** C4: [validate] detects every corruption of an inner node: over a hash file of the right size
    whose leaves are the hashes of [xs], it succeeds exactly when every inner node holds the hash of
    its children, that is when the file is the one of the abstract range. *)
Theorem validate_accepts_exactly_the_range p xs :
  sized p xs -> leaves_hashed p xs ->
  validate p = Ok tt <-> range_of xs (hash_file (backend p)).
Proof. apply validate_range. Qed.

(** C2: a Merkle proof built by [PMMR::merkle_proof] for a leaf that is still present verifies
    against the root of the range, for the hash of the element at that leaf; it never fails and
    never panics. *)
Theorem merkle_proofs_verify p xs i x r :
  represents p xs -> Z.of_nat (length xs) < 2 ^ 58 -> 0 <= i ->
  xs !! Z.to_nat i = Some x -> is_Some (get_hash p (insertion_to_pmmr_index (i + 1))) ->
  root p = Ok r ->
  exists pf, merkle_proof p (insertion_to_pmmr_index (i + 1)) = Ok pf /\
    verify pf r (hash_elmt x) (insertion_to_pmmr_index (i + 1)) = Ok tt.
Proof.
  intros Hp Hn Hi Hx Hh Hr. pose proof (lookup_lt_Some _ _ _ Hx) as Hlt.
  rewrite insertion_index_node in * by (split; lia).
  eapply merkle_proof_accepted; done.
Qed.

(** A [RewindablePMMR] rewound to an earlier leaf or size computes the root of the range as it
    was then, although the backend keeps all later nodes; the read-only view has the same root and
    does not panic. *)
Theorem rewindable_view_root p xs ys position :
  represents p (xs ++ ys) ->
  position = insertion_to_pmmr_index (Z.of_nat (length xs)) \/
  position = mmr_size (Z.of_nat (length xs)) ->
  exists p' r, rewindable_rewind p position = Ok p' /\ backend p' = backend p /\
    root p' = Ok r /\ readonly_root p' = Ok r /\ range_root xs = Some r.
Proof.
  intros (Hr & Hl & Hs) Hpos.
  assert (Hsx : small_leaves (Z.of_nat (length xs)))
    by (rewrite length_app in Hs; destruct Hs; split; lia).
  assert (Hq : rewind_loop 64 position = mmr_size (Z.of_nat (length xs)))
    by (destruct Hpos as [Hq|Hq]; rewrite Hq; [apply rewind_loop_leaf|apply rewind_loop_size]; done).
  unfold rewindable_rewind. rewrite Hq.
  pose proof (prefix_peaks (backend p) xs ys _ Hr Hsx eq_refl) as Hpk.
  destruct xs as [|x xs]; [exists (mkPMMR 0 (backend p)), ZERO_HASH; done|].
  destruct (bag_some (mmr_size (Z.of_nat (length (x :: xs)))) (peak_hashes (x :: xs))) as [r Hbag];
    [apply peak_hashes_nonempty; done|].
  exists (mkPMMR (mmr_size (Z.of_nat (length (x :: xs)))) (backend p)), r.
  split; [done|]. split; [done|]. unfold root, readonly_root, is_empty, unpruned_size. rewrite Hpk.
  cbn [last_pos]. pose proof (mmr_size_bounds _ (proj1 Hsx)).
  rewrite (proj2 (Z.eqb_neq _ _)) by (simpl length in *; lia). rewrite Hbag. done.
Qed.
End Claims.

(** ** Data, removal and lookups over [VecBackend] *)

Section VecClaims.
  Context {Bitmap Hash T E : Type} `{!PMMRable Hash T E}.
  Abbreviation vpmmr := (PMMR (VecBackend Hash T)).
  Implicit Types (xs : list T) (p : vpmmr).

(** The data vector holds the elements, nothing is removed. *)
Definition holds p xs : Prop :=
  represents (Bitmap := Bitmap) (E := E) p xs /\ data (backend p) = Some xs.

Lemma push_holds p xs x :
  holds p xs -> small_leaves (Z.of_nat (length xs) + 1) ->
  exists p', push (Bitmap := Bitmap) (E := E) p x = Ok (node_pos (Z.of_nat (length xs)) 0, p') /\
    holds p' (xs ++ [x]) /\ removed (backend p') = removed (backend p).
Proof.
  intros [Hp Hd] Hs. destruct (push_represents p xs x Hp Hs) as (p' & E1 & Hp').
  exists p'. split; [done|]. unfold push in E1.
  destruct (peak_map_height _) as [pm ht]. destruct (negb _); [done|].
  destruct (push_loop _ _ _ _ _ _ _) as [[pos hs]| |] eqn:E2; try done.
  cbn [res_bind append vec_backend vec_append] in E1. injection E1 as E3 <-.
  split; [split; [done|]|done]. cbn [backend data]. rewrite Hd. done.
Qed.

Lemma push_all_holds p xs ys :
  holds p xs -> small_leaves (Z.of_nat (length (xs ++ ys))) ->
  exists p', push_all (Bitmap := Bitmap) (E := E) p ys = Ok p' /\ holds p' (xs ++ ys) /\
    removed (backend p') = removed (backend p).
Proof.
  revert p xs; induction ys as [|y ys IH]; intros p xs Hp Hs.
  { exists p. rewrite app_nil_r. done. }
  rewrite length_app in Hs. cbn [length] in Hs.
  destruct (push_holds p xs y Hp) as (p1 & E1 & Hp1 & R1); [destruct Hs; split; lia|].
  destruct (IH p1 (xs ++ [y]) Hp1) as (p2 & E2 & Hp2 & R2).
  { rewrite <- app_assoc, length_app. exact Hs. }
  exists p2. cbn [push_all]. rewrite E1. cbn [res_bind]. rewrite E2, <- app_assoc in *.
  rewrite R2, R1. done.
Qed.

(** Reading the leaf [i] of a range that holds [xs]. *)
Lemma holds_leaf p xs i x :
  holds p xs -> 0 <= i -> xs !! Z.to_nat i = Some x ->
  let pos := node_pos i 0 in
  get_data (Bitmap := Bitmap) p pos
  = (if bool_decide (pos ∈ removed (backend p)) then None else Some (as_elmt x)) /\
  get_hash (Bitmap := Bitmap) (E := E) p pos
  = (if bool_decide (pos ∈ removed (backend p)) then None
     else Some (hash_elmt x (mmr_size i))).
Proof.
  intros [Hp Hd] Hi Hx pos. pose proof Hp as (Hr & Hl & Hs).
  pose proof (lookup_lt_Some _ _ _ Hx) as Hlt. pose proof (leaf_is_node i Hi) as Hn.
  assert (Hsi : small_leaves i) by (destruct Hs; split; lia).
  pose proof (mmr_size_strict i (Z.of_nat (length xs)) ltac:(lia)) as Hst.
  pose proof (trailing_ones_nonneg i).
  assert (Hle : (last_pos p <? pos) = false)
    by (apply Z.ltb_ge; rewrite Hl; subst pos; unfold node_pos; lia).
  unfold get_data, get_hash. rewrite Hle. subst pos. rewrite is_leaf_node by done. cbn [Z.eqb].
  cbn [backend_get_data backend_get_hash vec_backend]. unfold vec_get_data, vec_get_hash.
  case_bool_decide; [done|]. split.
  - unfold vec_get_data_from_file. rewrite Hd, <- insertion_index_node by done.
    rewrite (insertion_index_node i) by done.
    rewrite n_leaves_leaf by done. unfold saturating_sub. rewrite Z.max_r by lia.
    replace (i + 1 - 1) with i by lia. rewrite Hx. done.
  - pose proof (range_get_from_file (backend p) xs i 0 Hr Hn ltac:(lia)) as E1.
    cbn [get_from_file vec_backend] in E1. rewrite E1. change (Z.to_nat 0) with O.
    cbn [node_hash]. rewrite Hx. done.
Qed.

Lemma new_holds : holds (new vec_new) [].
Proof. split; [apply new_represents|]; done. Qed.

(** The elements pushed into an empty [VecBackend] are read back: the leaf of the [i]-th
    insertion returns the element's data and its hash with the leaf's zero-based position, and a
    position beyond the size returns nothing. *)
Theorem pushed_elements_are_found xs :
  small_leaves (Z.of_nat (length xs)) ->
  exists p, push_all (Bitmap := Bitmap) (E := E) (new vec_new) xs = Ok p /\
    (forall i x, 0 <= i -> xs !! Z.to_nat i = Some x ->
      let pos := insertion_to_pmmr_index (i + 1) in
      get_data (Bitmap := Bitmap) p pos = Some (as_elmt x) /\
      get_hash (Bitmap := Bitmap) (E := E) p pos = Some (hash_elmt x (pos - 1))) /\
    (forall pos, unpruned_size p < pos ->
      get_data (Bitmap := Bitmap) (E := E) p pos = None /\
      get_hash (Bitmap := Bitmap) (E := E) p pos = None).
Proof.
  intros Hs. destruct (push_all_holds (new vec_new) [] xs new_holds Hs) as (p & E1 & Hp & Hrm).
  exists p. split; [done|]. split.
  - intros i x Hi Hx pos. pose proof (lookup_lt_Some _ _ _ Hx) as Hlt.
    assert (Hsi : small_leaves i) by (destruct Hs; split; lia).
    subst pos. rewrite insertion_index_node by done.
    destruct (holds_leaf p xs i x Hp Hi Hx) as [-> ->].
    rewrite Hrm, bool_decide_false by set_solver. unfold node_pos.
    replace (mmr_size i + 0 + 1 - 1) with (mmr_size i) by lia. done.
  - intros pos Hpos. unfold get_data, get_hash. unfold unpruned_size in Hpos.
    rewrite (proj2 (Z.ltb_lt _ _)) by done. done.
Qed.

(** [prune] removes one leaf and nothing else: on a leaf that is present it answers [true], the
    leaf's hash and data are gone, every other position reads as before, size and root are
    unchanged, and pruning the leaf again answers [false] and changes nothing. *)
Theorem prune_hides_one_leaf p xs i x :
  holds p xs -> 0 <= i -> xs !! Z.to_nat i = Some x ->
  let pos := insertion_to_pmmr_index (i + 1) in
  pos ∉ removed (backend p) ->
  exists p', prune (Bitmap := Bitmap) (E := E) p pos = Ok (true, p') /\
    get_hash (Bitmap := Bitmap) (E := E) p' pos = None /\
    get_data (Bitmap := Bitmap) (E := E) p' pos = None /\
    (forall q, q <> pos ->
      get_hash (Bitmap := Bitmap) (E := E) p' q = get_hash (Bitmap := Bitmap) (E := E) p q /\
      get_data (Bitmap := Bitmap) (E := E) p' q = get_data (Bitmap := Bitmap) (E := E) p q) /\
    root (Bitmap := Bitmap) (E := E) p' = root (Bitmap := Bitmap) (E := E) p /\
    unpruned_size p' = unpruned_size p /\
    prune (Bitmap := Bitmap) (E := E) p' pos = Ok (false, p').
Proof.
  intros Hp Hi Hx pos Hnr. pose proof (lookup_lt_Some _ _ _ Hx) as Hlt.
  assert (Hsi : small_leaves i) by (destruct Hp as ((_ & _ & Hs) & _), Hs; split; lia).
  assert (Epos : pos = node_pos i 0) by (apply insertion_index_node; done). clearbody pos. subst pos.
  pose proof (is_leaf_node i 0 (leaf_is_node i Hi) Hsi) as Hleaf. cbn [Z.eqb] in Hleaf.
  destruct (holds_leaf p xs i x Hp Hi Hx) as [_ Hgh]. rewrite bool_decide_false in Hgh by done.
  unfold get_hash in Hgh. rewrite Hleaf in Hgh.
  destruct (last_pos p <? node_pos i 0) eqn:El; [done|].
  unfold prune. rewrite Hleaf. cbn [negb]. rewrite Hgh.
  cbn [remove vec_backend vec_remove res_bind]. eexists. split; [done|].
  unfold get_hash, get_data. cbn [last_pos backend]. rewrite El, Hleaf.
  cbn [backend_get_hash backend_get_data vec_backend]. unfold vec_get_hash, vec_get_data.
  cbn [removed]. rewrite bool_decide_true by set_solver. split; [done|]. split; [done|].
  split; [|done]. intros q Hq.
  rewrite (bool_decide_ext (q ∈ {[node_pos i 0]} ∪ _) (q ∈ removed (backend p))) by set_solver. done.
Qed.
End VecClaims.

(** ** Witnesses *)

Lemma pushes_build_the_range_witness :
  exists p r, push_all (Bitmap := unit) (E := Z) (new vec_new) [10; 20; 30; 40; 50] = Ok p /\
    unpruned_size p = mmr_size 5 /\
    range_of [10; 20; 30; 40; 50] (hashes (backend p)) /\
    root (Bitmap := unit) (E := Z) p = Ok r /\ range_root [10; 20; 30; 40; 50] = Some r.
Proof.
  pose proof (pushes_build_the_range (Bitmap := unit) (Hash := SymHash) (E := Z)
    (B := VecBackend SymHash Z) vec_new [10; 20; 30; 40; 50]) as H.
  apply H; [done|split; simpl; lia].
Defined.

Lemma rewind_undoes_pushes_witness :
  exists p' p'', push_all (Bitmap := unit) (E := Z) (sym_range [10; 20; 30]) [40; 50] = Ok p' /\
    rewind (Bitmap := unit) (E := Z) p' 4 tt = Ok p'' /\
    root (Bitmap := unit) (E := Z) p'' = root (Bitmap := unit) (E := Z) (sym_range [10; 20; 30]) /\
    unpruned_size p'' = unpruned_size (sym_range [10; 20; 30]) /\
    hashes (backend p'') = hashes (backend (sym_range [10; 20; 30])).
Proof.
  pose proof (rewind_undoes_pushes (Bitmap := unit) (E := Z) (sym_range [10; 20; 30])
    [10; 20; 30] [40; 50] 4 tt) as H. apply H.
  - apply sym_represents. split; simpl; lia.
  - split; simpl; lia.
  - left. reflexivity.
Defined.

Lemma validate_accepts_exactly_the_range_witness :
  validate (Bitmap := unit) (E := Z) (sym_range [10; 20; 30]) = Ok tt <->
  range_of [10; 20; 30] (hashes (backend (sym_range [10; 20; 30]))).
Proof.
  pose proof (validate_accepts_exactly_the_range (Bitmap := unit) (E := Z)
    (sym_range [10; 20; 30]) [10; 20; 30]) as H. apply H.
  - split; [reflexivity|]. split; [reflexivity|]. split; simpl; lia.
  - intros m Hm. simpl in Hm. assert (m = 0 \/ m = 1 \/ m = 2) as [Em|[Em|Em]] by lia;
      rewrite Em; reflexivity.
Defined.

Lemma merkle_proofs_verify_witness :
  exists pf, merkle_proof (Bitmap := unit) (E := Z) (sym_range [10; 20; 30]) 2 = Ok pf /\
    verify (T := Z) (E := Z) pf (SymPair (SymPair (SymElmt 10 0) (SymElmt 20 1) 2) (SymElmt 30 3) 4) (SymElmt 20) 2
    = Ok tt.
Proof.
  pose proof (merkle_proofs_verify (Bitmap := unit) (E := Z) (sym_range [10; 20; 30])
    [10; 20; 30] 1 20) as H.
  apply H;
    [apply sym_represents; split; simpl; lia|simpl; lia|lia|reflexivity|eexists; reflexivity|reflexivity].
Defined.

Lemma pushed_elements_are_found_witness :
  exists p, push_all (Bitmap := unit) (E := Z) (new vec_new) [10; 20; 30] = Ok p /\
    get_data (Bitmap := unit) (E := Z) p 4 = Some 30.
Proof.
  destruct (pushed_elements_are_found (Bitmap := unit) (Hash := SymHash) (E := Z) [10; 20; 30]) as (p & E1 & E2 & _);
    [split; simpl; lia|].
  exists p. split; [done|]. apply (E2 2 30); [lia|reflexivity].
Defined.

Lemma prune_hides_one_leaf_witness :
  exists p', prune (Bitmap := unit) (E := Z) (sym_range [10; 20; 30]) 2 = Ok (true, p') /\
    get_data (Bitmap := unit) (E := Z) p' 2 = None /\
    root (Bitmap := unit) (E := Z) p' = root (Bitmap := unit) (E := Z) (sym_range [10; 20; 30]).
Proof.
  destruct (prune_hides_one_leaf (Bitmap := unit) (sym_range [10; 20; 30]) [10; 20; 30] 1 20)
    as (p' & E1 & _ & E2 & _ & E3 & _).
  - split; [apply sym_represents; split; simpl; lia|reflexivity].
  - lia.
  - reflexivity.
  - vm_compute. set_solver.
  - exists p'. done.
Defined.

Lemma rewindable_view_root_witness :
  exists p' r, rewindable_rewind (sym_range [10; 20; 30; 40]) 4 = Ok p' /\
    backend p' = backend (sym_range [10; 20; 30; 40]) /\
    root (Bitmap := unit) (E := Z) p' = Ok r /\
    readonly_root (Bitmap := unit) (E := Z) p' = Ok r /\ range_root [10; 20; 30] = Some r.
Proof.
  pose proof (rewindable_view_root (Bitmap := unit) (E := Z) (sym_range [10; 20; 30; 40])
    [10; 20; 30] [40] 4) as H.
  apply H; [apply sym_represents; split; simpl; lia|left; reflexivity].
Defined.
