(* ===== verification/Bytes.v ===== *)
(** * Byte strings and fixed-width encodings

    A byte is a [Z] in [0 .. 255].  The little- and big-endian encodings of a
    [k]-byte integer are those of the [byteorder] methods the crates use; the
    32-byte [Hash] of [core/src/core/hash.rs] is a byte string here. *)

From Stdlib Require Import ZArith Lia List Bool.
From stdpp Require Import base numbers list option.
From S2P Require Import Prelude.

Definition is_byte (b : Z) : Prop := 0 <= b < 256.
Abbreviation bytes := (list Z).
Definition are_bytes (l : bytes) : Prop := Forall is_byte l.

(** The [k] low bytes of [x], least significant first. *)
Fixpoint le_bytes (k : nat) (x : Z) : bytes :=
  match k with
  | O => []
  | S k => (x mod 256) :: le_bytes k (x / 256)
  end.

(** The integer a byte string denotes, least significant byte first. *)
Fixpoint le_val (l : bytes) : Z :=
  match l with
  | [] => 0
  | b :: l => b + 256 * le_val l
  end.

Definition be_bytes (k : nat) (x : Z) : bytes := rev (le_bytes k x).
Definition be_val (l : bytes) : Z := le_val (rev l).

Lemma length_le_bytes k x : length (le_bytes k x) = k.
Proof. revert x; induction k as [|k IH]; intros x; simpl; auto. Qed.

Lemma length_be_bytes k x : length (be_bytes k x) = k.
Proof. unfold be_bytes. rewrite length_rev. apply length_le_bytes. Qed.

Lemma le_bytes_are_bytes k x : are_bytes (le_bytes k x).
Proof.
  revert x; induction k as [|k IH]; intros x; simpl; constructor; [|apply IH].
  unfold is_byte. Z.div_mod_to_equations; lia.
Qed.

Lemma are_bytes_rev l : are_bytes l -> are_bytes (rev l).
Proof. unfold are_bytes. rewrite !List.Forall_forall. intros H x Hx. apply H, in_rev, Hx. Qed.

Lemma be_bytes_are_bytes k x : are_bytes (be_bytes k x).
Proof. apply are_bytes_rev, le_bytes_are_bytes. Qed.

Lemma are_bytes_app l l' : are_bytes (l ++ l') <-> are_bytes l /\ are_bytes l'.
Proof. apply Forall_app. Qed.

Lemma le_val_bounds l : are_bytes l -> 0 <= le_val l < 256 ^ Z.of_nat (length l).
Proof.
  induction 1 as [|b l Hb Hl IH]; simpl length; [simpl; lia|].
  rewrite Nat2Z.inj_succ, Z.pow_succ_r by lia. cbn [le_val]. unfold is_byte in Hb. lia.
Qed.

Lemma le_val_le_bytes k x : 0 <= x < 256 ^ Z.of_nat k -> le_val (le_bytes k x) = x.
Proof.
  revert x; induction k as [|k IH]; intros x Hx; [simpl in *; lia|].
  rewrite Nat2Z.inj_succ, Z.pow_succ_r in Hx by lia. cbn [le_bytes le_val].
  rewrite IH by (Z.div_mod_to_equations; nia). Z.div_mod_to_equations; lia.
Qed.

Lemma le_bytes_le_val l : are_bytes l -> le_bytes (length l) (le_val l) = l.
Proof.
  induction 1 as [|b l Hb Hl IH]; [done|]. cbn [length le_val le_bytes]. unfold is_byte in Hb.
  replace ((b + 256 * le_val l) / 256) with (le_val l) by (Z.div_mod_to_equations; lia).
  rewrite IH. f_equal. Z.div_mod_to_equations; lia.
Qed.

Lemma be_val_be_bytes k x : 0 <= x < 256 ^ Z.of_nat k -> be_val (be_bytes k x) = x.
Proof. intros H. unfold be_val, be_bytes. rewrite rev_involutive. apply le_val_le_bytes, H. Qed.

Lemma be_bytes_be_val l : are_bytes l -> be_bytes (length l) (be_val l) = l.
Proof.
  intros H. unfold be_val, be_bytes. rewrite <- length_rev.
  rewrite le_bytes_le_val by (apply are_bytes_rev, H). apply rev_involutive.
Qed.

Lemma be_val_bounds l : are_bytes l -> 0 <= be_val l < 256 ^ Z.of_nat (length l).
Proof. intros H. unfold be_val. rewrite <- length_rev. apply le_val_bounds, are_bytes_rev, H. Qed.

(** Trailing zero bytes do not change the integer. *)
Lemma le_val_zeros l n : le_val (l ++ replicate n 0) = le_val l.
Proof.
  induction l as [|b l IH]; cbn [app le_val].
  - induction n as [|n IH]; cbn [replicate le_val]; [done|]. rewrite IH. done.
  - rewrite IH. done.
Qed.

Lemma le_val_inj l l' :
  are_bytes l -> are_bytes l' -> length l = length l' -> le_val l = le_val l' -> l = l'.
Proof.
  intros Hl Hl' Hlen E. rewrite <- (le_bytes_le_val l Hl), <- (le_bytes_le_val l' Hl'). congruence.
Qed.

(** ** [Hash] *)

Definition HASH_LEN : nat := 32.

(** [Hash::from_vec]: short vectors are completed by zeroes, long ones cut. *)
Definition from_vec (v : bytes) : bytes :=
  let copy_size := Nat.min (length v) HASH_LEN in
  take copy_size v ++ replicate (HASH_LEN - copy_size) 0.

Definition is_hash (h : bytes) : Prop := length h = HASH_LEN /\ are_bytes h.

Lemma from_vec_hash h : length h = HASH_LEN -> from_vec h = h.
Proof.
  intros H. unfold from_vec. rewrite H, Nat.min_id, Nat.sub_diag, app_nil_r.
  rewrite <- H. apply firstn_all.
Qed.

Lemma from_vec_is_hash v : are_bytes v -> is_hash (from_vec v).
Proof.
  intros H. unfold from_vec, is_hash. rewrite length_app, length_take, length_replicate. split; [lia|].
  apply are_bytes_app. split; [apply Forall_take, H|]. apply Forall_replicate. unfold is_byte. lia.
Qed.

Lemma from_vec_short v : (length v <= HASH_LEN)%nat -> from_vec v = v ++ replicate (HASH_LEN - length v) 0.
Proof. intros H. unfold from_vec. rewrite Nat.min_l by done. rewrite firstn_all. done. Qed.

#[global] Arguments be_bytes : simpl never.
#[global] Arguments le_bytes : simpl never.
