(* ===== verification/Compact.v ===== *)
(** * Compact difficulty targets

    Models the target conversions of [core/src/pow/common.rs]: the 32-bit
    "compact" form of a target, its expansion to a big integer and back, and the
    conversions between hashes and integers.

    The big integers come from the [num_bigint] crate: [BigUint] is the
    interface the code uses, [BigUintLaws] its documented arithmetic; [Z] is an
    instance. *)

From Stdlib Require Import ZArith Lia List Bool.
From stdpp Require Import base numbers list option.
From S2P Require Import Prelude Bytes.

(** ** Interface of [num_bigint::BigUint] *)

Class BigUint (N : Type) := {
  big_from_u32 : Z -> option N;
  big_shl : N -> Z -> N;
  big_shr : N -> Z -> N;
  big_mul : N -> Z -> N;
  big_div : N -> Z -> N;
  big_bits : N -> Z;
  big_to_bytes_le : N -> bytes;
  big_from_bytes_le : bytes -> N;
  big_to_u64 : N -> option Z
}.

Class BigUintLaws (N : Type) `{!BigUint N} := {
  big_val : N -> Z;
  big_val_nonneg a : 0 <= big_val a;
  big_from_u32_val x : is_u32 x -> exists a, big_from_u32 x = Some a /\ big_val a = x;
  big_shl_val a k : 0 <= k -> big_val (big_shl a k) = big_val a * 2 ^ k;
  big_shr_val a k : 0 <= k -> big_val (big_shr a k) = big_val a / 2 ^ k;
  big_mul_val a x : is_u64 x -> big_val (big_mul a x) = big_val a * x;
  big_div_val a x : is_u64 x -> 0 < x -> big_val (big_div a x) = big_val a / x;
  big_bits_val a : big_bits a = bit_length (big_val a);
  big_to_bytes_val a : le_val (big_to_bytes_le a) = big_val a;
  big_to_bytes_bytes a : are_bytes (big_to_bytes_le a);
  big_to_bytes_len a k : big_val a < 256 ^ Z.of_nat k -> (0 < k)%nat ->
    (length (big_to_bytes_le a) <= k)%nat;
  big_from_bytes_val l : are_bytes l -> big_val (big_from_bytes_le l) = le_val l;
  big_to_u64_val a : big_to_u64 a = if big_val a <? U64 then Some (big_val a) else None
}.

(** Number of bytes [to_bytes_le] emits: at least one. *)
Definition z_byte_len (a : Z) : nat := Nat.max 1 (Z.to_nat ((bit_length a + 7) / 8)).

#[export] Instance z_biguint : BigUint Z := {
  big_from_u32 x := Some (Z.max 0 x);
  big_shl a k := Z.max 0 a * 2 ^ k;
  big_shr a k := Z.max 0 a / 2 ^ k;
  big_mul a x := Z.max 0 a * x;
  big_div a x := Z.max 0 a / x;
  big_bits a := bit_length (Z.max 0 a);
  big_to_bytes_le a := le_bytes (z_byte_len (Z.max 0 a)) (Z.max 0 a);
  big_from_bytes_le l := le_val l;
  big_to_u64 a := if Z.max 0 a <? U64 then Some (Z.max 0 a) else None
}.

Lemma pow256 k : 256 ^ Z.of_nat k = 2 ^ (8 * Z.of_nat k).
Proof. rewrite Z.pow_mul_r by lia. done. Qed.

Lemma z_byte_len_fits a : 0 <= a -> a < 256 ^ Z.of_nat (z_byte_len a).
Proof.
  intros Ha. rewrite pow256. pose proof (bit_length_lt_pow2 a) as Hb. eapply Z.lt_le_trans; [exact Hb|].
  apply Z.pow_le_mono_r; [lia|]. unfold z_byte_len. Z.div_mod_to_equations; lia.
Qed.

#[export] Instance z_biguint_laws : BigUintLaws Z.
Proof.
  refine {| big_val a := Z.max 0 a |}; simpl.
  - lia.
  - intros x Hx. exists (Z.max 0 x). split; [done|]. unfold is_u32 in Hx. lia.
  - intros a k Hk. pose proof (Z.pow_nonneg 2 k ltac:(lia)). nia.
  - intros a k Hk. pose proof (Z.div_pos (Z.max 0 a) (2 ^ k) ltac:(lia) (pow2_pos k Hk)). lia.
  - unfold is_u64. intros a x Hx. nia.
  - intros a x Hx Hp. pose proof (Z.div_pos (Z.max 0 a) x ltac:(lia) Hp). lia.
  - done.
  - intros a. apply le_val_le_bytes. split; [lia|]. apply z_byte_len_fits. lia.
  - intros a. apply le_bytes_are_bytes.
  - intros a k Ha Hk. rewrite length_le_bytes. rewrite pow256 in Ha.
    apply bit_length_le in Ha; [|lia]. unfold z_byte_len. Z.div_mod_to_equations; lia.
  - intros l Hl. pose proof (le_val_bounds l Hl). lia.
  - done.
Defined.

(** ** The conversions *)

(** [as i32] *)
Definition to_i32 (x : Z) : Z := (x + 2147483648) mod U32 - 2147483648.

Section Operations.
  Context {N : Type} `{!BigUint N}.

(** [compact_to_biguint] *)
Definition compact_to_biguint (nbits : Z) : res unit (option N) :=
  let size := Z.shiftr nbits 24 in
  let word := Z.land nbits 0x007fffff in
  let? '(word, bignum) :=
    if size <=? 3 then
      let word := Z.shiftr word (8 * (3 - size)) in
      Ok (word, big_from_u32 word)
    else
      match big_from_u32 word with
      | None => Panic
      | Some temp => Ok (word, Some (big_shl temp (8 * (size - 3))))
      end in
  if negb (word =? 0) && negb (Z.land nbits 0x00800000 =? 0) then Ok None
  else if negb (word =? 0) &&
    ((34 <? size) || ((0xff <? word) && (33 <? size)) || ((0xffff <? word) && (32 <? size)))
  then Ok None
  else Ok bignum.

(** [get_biguint_low64] *)
Definition get_biguint_low64 (bignum : N) : res unit Z :=
  let data := take 64 (big_to_bytes_le bignum) in
  match big_to_u64 (big_from_bytes_le data) with Some x => Ok x | None => Panic end.

(** [biguint_to_compact] *)
Definition biguint_to_compact (bignum : N) (negative : bool) : res unit Z :=
  let size := Z.quot (to_i32 (to_i32 (big_bits bignum) + 7)) 8 in
  let? compact :=
    if size <=? 3 then
      let? bignum_low64 := get_biguint_low64 bignum in
      Ok (wrap32 (bignum_low64 << (8 * (3 - size))%Z)%u64)
    else
      let? low := get_biguint_low64 (big_shr bignum (8 * (size - 3))) in
      Ok (wrap32 low) in
  let '(compact, size) :=
    if negb (Z.land compact 0x00800000 =? 0) then (Z.shiftr compact 8, size + 1)
    else (compact, size) in
  if negb (Z.land compact (Z.lxor 0x007fffff 0xffffffff) =? 0) then Panic
  else if negb (size <? 256) then Panic
  else
    let compact := Z.lor compact (wrap32 (Z.shiftl size 24)) in
    let sign := if negative && negb (Z.land compact 0x007fffff =? 0) then 0x00800000 else 0 in
    Ok (Z.lor compact sign).

(** [hash_to_biguint] *)
Definition hash_to_biguint (hash : bytes) : N := big_from_bytes_le hash.

(** [biguint_to_hash] *)
Definition biguint_to_hash (bignum : N) : bytes := from_vec (big_to_bytes_le bignum).
End Operations.

(** ** Reference encoding

    [target_size b] is the exponent: the least number of bytes that hold [b]
    with its top bit clear.  The mantissa is the top three of these bytes. *)
Definition target_size (b : Z) : Z := bit_length b / 8 + 1.

Definition mantissa (b s : Z) : Z :=
  if s <=? 3 then b * 2 ^ (8 * (3 - s)) else b / 2 ^ (8 * (s - 3)).

Definition compact_of (b : Z) : Z :=
  if b =? 0 then 0 else target_size b * 2 ^ 24 + mantissa b (target_size b).

(** The target a mantissa and an exponent denote. *)
Definition expand (m s : Z) : Z :=
  if s <=? 3 then m / 2 ^ (8 * (3 - s)) else m * 2 ^ (8 * (s - 3)).

Lemma expand_mantissa_exact b s : 1 <= s -> s <= 3 -> expand (mantissa b s) s = b.
Proof.
  intros H1 H3. unfold expand, mantissa. rewrite (proj2 (Z.leb_le s 3)) by done.
  apply Z.div_mul. pose proof (pow2_pos (8 * (3 - s)) ltac:(lia)). lia.
Qed.

Lemma expand_mantissa_cut b s :
  3 < s -> expand (mantissa b s) s = b / 2 ^ (8 * (s - 3)) * 2 ^ (8 * (s - 3)).
Proof. intros H. unfold expand, mantissa. rewrite (proj2 (Z.leb_gt s 3)) by done. done. Qed.

Lemma target_size_bounds b :
  0 < b -> let s := target_size b in 1 <= s /\ 2 ^ (8 * (s - 1)) <= 2 * b /\ b < 2 ^ (8 * s - 1).
Proof.
  intros Hb s. pose proof (bit_length_spec b Hb) as [Hlo Hhi]. pose proof (bit_length_pos b Hb).
  assert (Hs : 8 * (s - 1) <= bit_length b <= 8 * s - 1)
    by (subst s; unfold target_size; Z.div_mod_to_equations; lia).
  split; [subst s; unfold target_size; Z.div_mod_to_equations; lia|]. split.
  - assert (2 ^ (8 * (s - 1)) <= 2 ^ bit_length b) by (apply Z.pow_le_mono_r; lia).
    replace (bit_length b) with (bit_length b - 1 + 1) in H0 by lia.
    rewrite Z.pow_add_r in H0 by lia. lia.
  - eapply Z.lt_le_trans; [exact Hhi|]. apply Z.pow_le_mono_r; lia.
Qed.

(** Scaling a power-of-two bound to the mantissa. *)
Lemma mantissa_upper b s k :
  0 <= b -> 0 <= s -> 8 * s <= k + 24 -> b < 2 ^ k -> mantissa b s < 2 ^ (k + 24 - 8 * s).
Proof.
  intros Hb Hs Hk H. unfold mantissa. destruct (Z.leb_spec s 3).
  - replace (k + 24 - 8 * s) with (k + 8 * (3 - s)) by lia.
    destruct (Z.ltb_spec k 0); [rewrite Z.pow_neg_r in H by lia; lia|].
    rewrite Z.pow_add_r by lia. pose proof (pow2_pos (8 * (3 - s)) ltac:(lia)). nia.
  - apply Z.div_lt_upper_bound; [apply pow2_pos; lia|]. rewrite <- Z.pow_add_r by lia.
    replace (8 * (s - 3) + (k + 24 - 8 * s)) with k by lia. done.
Qed.

Lemma mantissa_lower b s k :
  0 <= b -> 0 <= s -> 0 <= k -> 8 * s <= k + 24 -> 2 ^ k <= b -> 2 ^ (k + 24 - 8 * s) <= mantissa b s.
Proof.
  intros Hb Hs Hk Hk' H. unfold mantissa. destruct (Z.leb_spec s 3).
  - replace (k + 24 - 8 * s) with (k + 8 * (3 - s)) by lia.
    rewrite Z.pow_add_r by lia. pose proof (pow2_pos (8 * (3 - s)) ltac:(lia)). nia.
  - apply Z.div_le_lower_bound; [apply pow2_pos; lia|]. rewrite <- Z.pow_add_r by lia.
    replace (8 * (s - 3) + (k + 24 - 8 * s)) with k by lia. done.
Qed.

Lemma mantissa_bounds b : 0 < b -> 2 ^ 15 <= mantissa b (target_size b) < 2 ^ 23.
Proof.
  intros Hb. destruct (target_size_bounds b Hb) as (H1 & Hlo & Hhi).
  set (s := target_size b) in *. split.
  - assert (E : mantissa (2 * b) s <= 2 * mantissa b s + 1).
    { unfold mantissa. destruct (Z.leb_spec s 3); [lia|].
      pose proof (pow2_pos (8 * (s - 3)) ltac:(lia)). Z.div_mod_to_equations; nia. }
    pose proof (mantissa_lower (2 * b) s (8 * (s - 1)) ltac:(lia) ltac:(lia) ltac:(lia) ltac:(lia) Hlo) as E2.
    replace (8 * (s - 1) + 24 - 8 * s) with 16 in E2 by lia. change (2 ^ 16) with 65536 in E2.
    change (2 ^ 15) with 32768. lia.
  - pose proof (mantissa_upper b s (8 * s - 1) ltac:(lia) ltac:(lia) ltac:(lia) Hhi) as E2.
    replace (8 * s - 1 + 24 - 8 * s) with 23 in E2 by lia. done.
Qed.

Lemma mantissa_next b s : 0 <= s -> 0 <= b -> mantissa b (s + 1) = mantissa b s / 256 \/ s < 3.
Proof.
  intros Hs Hb. destruct (Z.ltb_spec s 3); [right; done|left]. unfold mantissa.
  rewrite (proj2 (Z.leb_gt (s + 1) 3)) by lia. destruct (Z.leb_spec s 3).
  - replace s with 3 by lia. change (2 ^ (8 * (3 - 3))) with 1. rewrite (Z.mul_1_r b). reflexivity.
  - rewrite Z.div_div by (try apply Z.pow_nonzero; lia). f_equal.
    change 256 with (2 ^ 8). rewrite <- Z.pow_add_r by lia. f_equal. lia.
Qed.

Lemma mantissa_bump b s : 0 <= s -> 0 <= b -> mantissa b s / 256 = mantissa b (s + 1).
Proof.
  intros Hs Hb. destruct (mantissa_next b s Hs Hb) as [|Hlt]; [done|]. unfold mantissa.
  rewrite (proj2 (Z.leb_le s 3)), (proj2 (Z.leb_le (s + 1) 3)) by lia.
  replace (8 * (3 - s)) with (8 * (3 - (s + 1)) + 8) by lia.
  rewrite Z.pow_add_r, Z.mul_assoc by lia. apply Z.div_mul. done.
Qed.

(** ** Correctness of the encoding *)

Section Encoding.
  Context {N : Type} `{!BigUint N} `{!BigUintLaws N}.
  Implicit Types (a : N).

Lemma low64_small a : big_val a < U64 -> get_biguint_low64 a = Ok (big_val a).
Proof.
  intros H. unfold get_biguint_low64.
  pose proof (big_to_bytes_len a 8 H ltac:(lia)) as Hlen.
  rewrite take_ge by lia.
  rewrite big_to_u64_val, big_from_bytes_val, big_to_bytes_val by apply big_to_bytes_bytes.
  rewrite (proj2 (Z.ltb_lt _ _)) by done. done.
Qed.

Lemma to_i32_small x : 0 <= x < 2147483648 -> to_i32 x = x.
Proof. intros H. unfold to_i32. rewrite Z.mod_small by lia. lia. Qed.

(** The size computed first, before the sign bit is made room for. *)
Lemma first_size b :
  0 <= b -> b < 2 ^ 2000 ->
  Z.quot (to_i32 (to_i32 (bit_length b) + 7)) 8 = (bit_length b + 7) / 8 /\
  0 <= bit_length b <= 2000.
Proof.
  intros H0 H. apply bit_length_le in H; [|lia].
  assert (0 <= bit_length b).
  { unfold bit_length. pose proof (Z.log2_nonneg b). destruct (b <=? 0); lia. }
  rewrite !to_i32_small by (rewrite ?to_i32_small by lia; lia).
  rewrite Z.quot_div_nonneg by lia. done.
Qed.

(** The three top bytes. *)
Lemma first_mantissa a :
  big_val a < 2 ^ 2000 ->
  let size := (bit_length (big_val a) + 7) / 8 in
  mantissa (big_val a) size < 2 ^ 24 /\
  (if size <=? 3 then
    let? low := get_biguint_low64 a in Ok (wrap32 (low << (8 * (3 - size))%Z)%u64)
  else
    let? low := get_biguint_low64 (big_shr a (8 * (size - 3))) in Ok (wrap32 low))
  = Ok (mantissa (big_val a) size).
Proof.
  intros Hb size. pose proof (big_val_nonneg a) as H0.
  destruct (first_size (big_val a) H0 Hb) as [_ Hn].
  assert (Hsz : bit_length (big_val a) <= 8 * size /\ 0 <= size)
    by (subst size; Z.div_mod_to_equations; lia).
  assert (Hlt : big_val a < 2 ^ (8 * size)).
  { eapply Z.lt_le_trans; [apply bit_length_lt_pow2|]. apply Z.pow_le_mono_r; lia. }
  pose proof (mantissa_upper (big_val a) size (8 * size) H0 ltac:(lia) ltac:(lia) Hlt) as Hm.
  replace (8 * size + 24 - 8 * size) with 24 in Hm by lia. split; [done|].
  change (2 ^ 24) with 16777216 in Hm. unfold mantissa in *. destruct (Z.leb_spec size 3).
  - pose proof (pow2_pos (8 * (3 - size)) ltac:(lia)).
    assert (0 <= big_val a <= big_val a * 2 ^ (8 * (3 - size))) by nia.
    rewrite low64_small by lia. cbn [res_bind]. unfold shl64.
    rewrite (Z.mod_small (8 * (3 - size))), Z.shiftl_mul_pow2 by lia.
    rewrite wrap64_small by (unfold is_u64; lia). unfold wrap32. rewrite Z.mod_small by lia. done.
  - pose proof (Z.div_pos (big_val a) (2 ^ (8 * (size - 3))) H0 (pow2_pos (8 * (size - 3)) ltac:(lia))).
    rewrite low64_small by (rewrite big_shr_val by lia; lia).
    rewrite big_shr_val by lia. cbn [res_bind]. unfold wrap32. rewrite Z.mod_small by lia. done.
Qed.

(** The sign bit is set exactly when the bit length fills the size. *)
Lemma sign_bit b :
  0 <= b -> let size := (bit_length b + 7) / 8 in mantissa b size < 2 ^ 24 -> 0 <= bit_length b ->
  (if negb (Z.land (mantissa b size) 0x00800000 =? 0)
   then (Z.shiftr (mantissa b size) 8, size + 1) else (mantissa b size, size))
  = if b =? 0 then (0, 0) else (mantissa b (target_size b), target_size b).
Proof.
  intros Hb size Hm Hn.
  assert (Hsz : bit_length b <= 8 * size /\ 0 <= size) by (subst size; Z.div_mod_to_equations; lia).
  destruct (Z.eqb_spec b 0) as [E|Hnz]; [subst b; reflexivity|].
  assert (Hm0 : 0 <= mantissa b size).
  { unfold mantissa. destruct (Z.leb_spec size 3).
    - pose proof (pow2_pos (8 * (3 - size)) ltac:(lia)). nia.
    - apply Z.div_pos; [lia|]. apply pow2_pos. lia. }
  change 0x00800000 with (2 ^ 23). rewrite land_pow2_testbit by lia. rewrite negb_involutive.
  rewrite testbit_top by lia. destruct (bit_length_spec b ltac:(lia)) as [Hlo Hhi].
  pose proof (bit_length_pos b ltac:(lia)).
  destruct (Z.eqb_spec (bit_length b) (8 * size)) as [E|Hne].
  - pose proof (mantissa_lower b size (8 * size - 1) ltac:(lia) ltac:(lia) ltac:(lia) ltac:(lia)) as Hge.
    replace (8 * size - 1 + 24 - 8 * size) with 23 in Hge by lia.
    rewrite E in Hlo. rewrite (proj2 (Z.leb_le _ _)) by (apply Hge, Hlo).
    rewrite Z.shiftr_div_pow2 by lia. change (2 ^ 8) with 256. rewrite mantissa_bump by lia.
    replace (target_size b) with (size + 1) by (unfold target_size; rewrite E; Z.div_mod_to_equations; lia).
    done.
  - pose proof (mantissa_upper b size (8 * size - 1) ltac:(lia) ltac:(lia)) as Hlt.
    replace (8 * size - 1 + 24 - 8 * size) with 23 in Hlt by lia.
    rewrite (proj2 (Z.leb_gt _ _)).
    + replace (target_size b) with size; [done|]. subst size. unfold target_size in *.
      Z.div_mod_to_equations; lia.
    + apply Hlt; [lia|]. eapply Z.lt_le_trans; [exact Hhi|]. apply Z.pow_le_mono_r; lia.
Qed.

Lemma biguint_to_compact_spec a :
  big_val a < 2 ^ 2000 -> biguint_to_compact a false = Ok (compact_of (big_val a)).
Proof.
  intros Hb. pose proof (big_val_nonneg a) as H0. unfold biguint_to_compact.
  rewrite big_bits_val. destruct (first_size (big_val a) H0 Hb) as [-> Hn].
  destruct (first_mantissa a Hb) as [Hm Hmant]. cbv zeta. rewrite Hmant. cbn [res_bind].
  rewrite (sign_bit (big_val a) H0 Hm (proj1 Hn)). unfold compact_of.
  destruct (Z.eqb_spec (big_val a) 0) as [E|Hnz]; [reflexivity|].
  assert (Hpos : 0 < big_val a) by (clear - H0 Hnz; lia). clear Hb Hmant Hm.
  destruct (mantissa_bounds (big_val a) Hpos) as [Hlo Hhi].
  assert (Hs : 0 <= target_size (big_val a) < 256)
    by (unfold target_size; Z.div_mod_to_equations; lia).
  change (Z.lxor 0x007fffff 0xffffffff) with (511 * 2 ^ 23).
  rewrite land_low_disjoint by lia. cbn [Z.eqb negb].
  rewrite (proj2 (Z.ltb_lt _ _)) by lia. cbn [negb andb].
  rewrite Z.shiftl_mul_pow2 by lia. unfold wrap32.
  change U32 with (256 * 2 ^ 24). rewrite Z.mod_small by lia.
  rewrite lor_low_add by lia. rewrite Z.lor_0_r. f_equal. lia.
Qed.
End Encoding.

(** ** Correctness of the decoding *)

Definition compact_exponent (c : Z) : Z := c / 2 ^ 24.
Definition compact_sign (c : Z) : bool := Z.testbit c 23.
Definition compact_mantissa (c : Z) : Z := c mod 2 ^ 23.

(** The target [c] denotes, before the checks. *)
Definition compact_target (c : Z) : Z := expand (compact_mantissa c) (compact_exponent c).

Lemma compact_parts_bounds c :
  is_u32 c -> 0 <= compact_exponent c < 256 /\ 0 <= compact_mantissa c < 2 ^ 23.
Proof.
  unfold is_u32, compact_exponent, compact_mantissa. intros H.
  split; [|apply Z.mod_pos_bound; lia]. split; [apply Z.div_pos; lia|].
  apply Z.div_lt_upper_bound; lia.
Qed.

(** The overflow test of the code is a bound of 256 bits on the target. *)
Lemma overflow_test m s w :
  0 <= m < 2 ^ 23 -> 0 <= s -> w = (if s <=? 3 then m / 2 ^ (8 * (3 - s)) else m) ->
  negb (w =? 0) && ((34 <? s) || ((0xff <? w) && (33 <? s)) || ((0xffff <? w) && (32 <? s)))
  = (2 ^ 256 <=? expand m s).
Proof.
  intros Hm Hs Hw. unfold expand. destruct (Z.leb_spec s 3) as [H3|H3].
  - assert (Hle : 0 <= m / 2 ^ (8 * (3 - s)) <= m)
      by (apply conj; [apply Z.div_pos|apply Z.div_le_upper_bound]; pose proof (pow2_pos (8 * (3 - s)) ltac:(lia)); nia).
    rewrite (proj2 (Z.leb_gt _ _)) by lia.
    rewrite !(proj2 (Z.ltb_ge _ s)) by lia. rewrite !andb_false_r. done.
  - rewrite Hw. clear Hw w. change (2 ^ 256) with (2 ^ 16 * 2 ^ 240).
    destruct (Z.ltb_spec 34 s); [|destruct (Z.ltb_spec 33 s); [|destruct (Z.ltb_spec 32 s)]].
    + cbn [orb]. rewrite andb_true_r. destruct (Z.eqb_spec m 0) as [E|]; [subst m; done|]. cbn [negb].
      symmetry. apply Z.leb_le. rewrite <- Z.pow_add_r by lia.
      assert (2 ^ (16 + 240) <= 2 ^ (8 * (s - 3))) by (apply Z.pow_le_mono_r; lia). nia.
    + replace s with 34 by lia. change (2 ^ (8 * (34 - 3))) with (2 ^ 8 * 2 ^ 240).
      pose proof (pow2_pos 240 ltac:(lia)). generalize dependent (2 ^ 240). intros P HP.
      change (32 <? 34) with true. zcases; cbn [negb andb orb]; nia.
    + replace s with 33 by lia. change (2 ^ (8 * (33 - 3))) with (2 ^ 240).
      pose proof (pow2_pos 240 ltac:(lia)). generalize dependent (2 ^ 240). intros P HP.
      zcases; cbn [negb andb orb]; nia.
    + rewrite !andb_false_r. symmetry. apply Z.leb_gt. rewrite <- Z.pow_add_r by lia.
      assert (2 ^ (8 * (s - 3)) <= 2 ^ 232) by (apply Z.pow_le_mono_r; lia).
      change (2 ^ (16 + 240)) with (2 ^ 24 * 2 ^ 232).
      pose proof (pow2_pos 232 ltac:(lia)). generalize dependent (2 ^ 232). intros; nia.
Qed.

Lemma word_zero m s :
  0 <= m -> ((if s <=? 3 then m / 2 ^ (8 * (3 - s)) else m) =? 0) = (expand m s =? 0).
Proof.
  intros Hm. unfold expand. destruct (Z.leb_spec s 3); [done|].
  pose proof (pow2_pos (8 * (s - 3)) ltac:(lia)). zcases; nia.
Qed.

Section Decoding.
  Context {N : Type} `{!BigUint N} `{!BigUintLaws N}.
  Implicit Types (a : N).

(** The target is negative: sign bit on a non-zero value. *)
Definition compact_negative (c : Z) : bool := negb (compact_target c =? 0) && compact_sign c.

Lemma compact_to_biguint_spec c :
  is_u32 c ->
  if compact_negative c || (2 ^ 256 <=? compact_target c)
  then compact_to_biguint (N := N) c = Ok None
  else exists a, compact_to_biguint c = Ok (Some a) /\ big_val a = compact_target c.
Proof.
  intros Hc. destruct (compact_parts_bounds c Hc) as [Hs Hm].
  assert (Eword : Z.land c 0x007fffff = compact_mantissa c)
    by (change 0x007fffff with (Z.ones 23); apply Z.land_ones; lia).
  assert (Esize : Z.shiftr c 24 = compact_exponent c) by (apply Z.shiftr_div_pow2; lia).
  assert (Esign : negb (Z.land c 0x00800000 =? 0) = compact_sign c).
  { change 0x00800000 with (2 ^ 23). rewrite land_pow2_testbit by (unfold is_u32 in Hc; lia).
    apply negb_involutive. }
  unfold compact_to_biguint. rewrite Eword, Esize. cbv zeta.
  unfold compact_negative, compact_target. rewrite <- word_zero by lia.
  pose proof (overflow_test _ _ _ Hm (proj1 Hs) eq_refl) as Hov. rewrite <- Hov.
  set (m := compact_mantissa c) in *. set (s := compact_exponent c) in *.
  destruct (Z.leb_spec s 3) as [H3|H3].
  - rewrite Z.shiftr_div_pow2 by lia. pose proof (pow2_pos (8 * (3 - s)) ltac:(lia)).
    assert (Hu : is_u32 (m / 2 ^ (8 * (3 - s)))).
    { split; [apply Z.div_pos; lia|]. apply Z.div_lt_upper_bound; nia. }
    destruct (big_from_u32_val _ Hu) as (a & Ea & Va). rewrite Ea. cbn [res_bind]. rewrite Esign.
    destruct (negb _ && compact_sign c); [done|]. cbn [orb].
    destruct (negb _ && _); [done|]. exists a. split; [done|]. rewrite Va.
    unfold expand. rewrite (proj2 (Z.leb_le s 3)) by done. done.
  - destruct (big_from_u32_val m ltac:(split; lia)) as (a & Ea & Va). rewrite Ea. cbn [res_bind].
    rewrite Esign. destruct (negb _ && compact_sign c); [done|]. cbn [orb].
    destruct (negb _ && _); [done|]. eexists. split; [done|]. rewrite big_shl_val, Va by lia.
    unfold expand. rewrite (proj2 (Z.leb_gt s 3)) by done. done.
Qed.
End Decoding.

(** ** The encoding on integers *)

Lemma target_size_unique b s :
  0 < b -> 2 ^ (8 * (s - 1)) <= 2 * b -> b < 2 ^ (8 * s - 1) -> 1 <= s -> target_size b = s.
Proof.
  intros Hb Hlo Hhi Hs. unfold target_size.
  assert (bit_length b <= 8 * s - 1) by (apply bit_length_le; lia).
  assert (8 * (s - 1) <= bit_length b).
  { pose proof (bit_length_lt_pow2 b). pose proof (bit_length_pos b Hb).
    destruct (Z.leb_spec (8 * (s - 1)) (bit_length b)); [done|].
    assert (2 * 2 ^ bit_length b <= 2 ^ (8 * (s - 1))); [|lia].
    rewrite <- Z.pow_succ_r by lia. apply Z.pow_le_mono_r; lia. }
  Z.div_mod_to_equations; lia.
Qed.

(** The parts of an encoded target. *)
Lemma compact_of_parts b :
  0 < b < 2 ^ 256 -> let c := compact_of b in
  is_u32 c /\ compact_exponent c = target_size b /\
  compact_mantissa c = mantissa b (target_size b) /\ compact_sign c = false.
Proof.
  intros Hb c. destruct (mantissa_bounds b ltac:(lia)) as [Hlo Hhi].
  assert (Hs : 1 <= target_size b <= 33).
  { assert (bit_length b <= 256) by (apply bit_length_le; lia).
    pose proof (bit_length_pos b ltac:(lia)). unfold target_size. Z.div_mod_to_equations; lia. }
  assert (Ec : c = target_size b * 2 ^ 24 + mantissa b (target_size b)).
  { subst c. unfold compact_of. rewrite (proj2 (Z.eqb_neq b 0)) by lia. done. }
  clearbody c. subst c. generalize dependent (mantissa b (target_size b)). intros m Hlo Hhi.
  generalize dependent (target_size b). intros s Hs. clear Hb b.
  change (2 ^ 24) with 16777216 in *. change (2 ^ 23) with 8388608 in *. change (2 ^ 15) with 32768 in *.
  unfold is_u32, compact_exponent, compact_mantissa, compact_sign.
  change (2 ^ 24) with 16777216. change (2 ^ 23) with 8388608.
  split; [lia|]. split; [Z.div_mod_to_equations; lia|]. split; [Z.div_mod_to_equations; lia|].
  rewrite Z.testbit_eqb by lia. change (2 ^ 23) with 8388608. apply Z.eqb_neq.
  Z.div_mod_to_equations; lia.
Qed.

(** Encoding loses the bytes below the mantissa. *)
Lemma compact_target_of b :
  0 < b < 2 ^ 256 -> let t := compact_target (compact_of b) in
  0 < t <= b /\ (b - t) * 2 ^ 15 <= t /\ (b < 2 ^ 23 -> t = b).
Proof.
  intros Hb t. destruct (compact_of_parts b Hb) as (_ & Es & Em & _).
  destruct (mantissa_bounds b ltac:(lia)) as [Hlo Hhi].
  destruct (target_size_bounds b ltac:(lia)) as (Hs1 & Hs2 & Hs3).
  subst t. unfold compact_target. rewrite Es, Em. clear Es Em.
  destruct (Z.leb_spec (target_size b) 3) as [H3|H3].
  - rewrite expand_mantissa_exact by lia. lia.
  - rewrite expand_mantissa_cut by lia. unfold mantissa in *.
    rewrite (proj2 (Z.leb_gt _ _)) in Hlo, Hhi by lia.
    pose proof (pow2_pos (8 * (target_size b - 3)) ltac:(lia)) as Hp.
    assert (Hbig : 2 ^ 23 <= b).
    { assert (2 ^ 24 <= 2 ^ (8 * (target_size b - 1))) by (apply Z.pow_le_mono_r; lia).
      change (2 ^ 24) with (2 * 2 ^ 23) in *. lia. }
    generalize dependent (2 ^ (8 * (target_size b - 3))). intros P HP.
    clear - Hb HP Hbig. intros. change (2 ^ 15) with 32768 in *.
    Z.div_mod_to_equations. split; [nia|]. split; [nia|]. lia.
Qed.

(** Encoding a decoded target gives it back. *)
Lemma compact_of_idempotent b :
  0 < b < 2 ^ 256 -> compact_of (compact_target (compact_of b)) = compact_of b.
Proof.
  intros Hb. destruct (compact_of_parts b Hb) as (_ & Es & Em & _).
  destruct (compact_target_of b Hb) as (Ht & _ & Hsmall).
  destruct (mantissa_bounds b ltac:(lia)) as [Hlo Hhi].
  destruct (target_size_bounds b ltac:(lia)) as (Hs1 & Hs2 & Hs3).
  assert (Et : compact_target (compact_of b) = expand (mantissa b (target_size b)) (target_size b))
    by (unfold compact_target; rewrite Es, Em; done).
  rewrite Et in *. clear Et Es Em Hsmall. set (s := target_size b) in *.
  destruct (Z.leb_spec s 3) as [H3|H3]; [rewrite expand_mantissa_exact by lia; done|].
  rewrite expand_mantissa_cut in * by lia.
  unfold mantissa in Hlo. rewrite (proj2 (Z.leb_gt s 3)) in Hlo by done.
  pose proof (pow2_pos (8 * (s - 3)) ltac:(lia)) as Hp.
  assert (Ets : target_size (b / 2 ^ (8 * (s - 3)) * 2 ^ (8 * (s - 3))) = s).
  { apply target_size_unique; [lia| |lia|lia].
    replace (8 * (s - 1)) with (16 + 8 * (s - 3)) by lia. rewrite Z.pow_add_r by lia.
    change (2 ^ 16) with (2 * 2 ^ 15). nia. }
  unfold compact_of. rewrite !(proj2 (Z.eqb_neq _ 0)) by lia. fold s. rewrite Ets. f_equal.
  unfold mantissa. rewrite (proj2 (Z.leb_gt s 3)) by done. apply Z.div_mul. lia.
Qed.

(** The order of compact forms is the order of targets. *)
Lemma compact_of_mono a b : 0 <= a <= b -> compact_of a <= compact_of b.
Proof.
  intros H. unfold compact_of. destruct (Z.eqb_spec a 0) as [Ea|Ha], (Z.eqb_spec b 0) as [Eb|Hb]; try lia.
  - destruct (mantissa_bounds b ltac:(lia)). destruct (target_size_bounds b ltac:(lia)) as (? & _). lia.
  - destruct (mantissa_bounds a ltac:(lia)), (mantissa_bounds b ltac:(lia)).
    assert (Hle : target_size a <= target_size b).
    { unfold target_size. pose proof (bit_length_mono a b ltac:(lia)). Z.div_mod_to_equations; lia. }
    destruct (Z.eqb_spec (target_size a) (target_size b)) as [E|Hne].
    + rewrite E. enough (mantissa a (target_size b) <= mantissa b (target_size b)) by lia.
      unfold mantissa. destruct (Z.leb_spec (target_size b) 3).
      * apply Z.mul_le_mono_nonneg_r; [apply Z.pow_nonneg; lia|lia].
      * apply Z.div_le_mono; [apply pow2_pos; lia|lia].
    + change (2 ^ 24) with (2 * 2 ^ 23). nia.
Qed.

(** ** Properties *)

Section Claims.
  Context {N : Type} `{!BigUint N} `{!BigUintLaws N}.
  Implicit Types (a b : N).

(** [compact_to_biguint] decodes every 32-bit word without panicking: it answers [None] exactly
    when the sign bit is set on a non-zero target or the target needs more than 256 bits, and
    otherwise the integer [mantissa * 256 ^ (exponent - 3)] (rounded down for small exponents). *)
Theorem compact_decoding (c : Z) :
  is_u32 c ->
  (compact_negative c || (2 ^ 256 <=? compact_target c) = true ->
    compact_to_biguint (N := N) c = Ok None) /\
  (compact_negative c || (2 ^ 256 <=? compact_target c) = false ->
    exists a, compact_to_biguint c = Ok (Some a) /\ big_val a = compact_target c).
Proof.
  intros Hc. pose proof (compact_to_biguint_spec (N := N) c Hc) as H.
  destruct (_ || _); split; intros; try discriminate; exact H.
Qed.

(** A target of at most 256 bits survives the round trip through its compact form up to the
    precision of the mantissa: no panic, never more than the target, a loss of at most one part in
    2^15, none at all below 2^23; and encoding the decoded target gives the same compact form. *)
Theorem compact_roundtrip a :
  big_val a < 2 ^ 256 ->
  exists c b, biguint_to_compact a false = Ok c /\ is_u32 c /\
    compact_to_biguint c = Ok (Some b) /\
    big_val b <= big_val a /\ (big_val a - big_val b) * 2 ^ 15 <= big_val b /\
    (big_val a < 2 ^ 23 -> big_val b = big_val a) /\
    biguint_to_compact b false = Ok c.
Proof.
  intros Ha. pose proof (big_val_nonneg a) as H0.
  assert (Hlift : forall x : N, big_val x < 2 ^ 256 -> biguint_to_compact x false = Ok (compact_of (big_val x))).
  { intros x Hx. apply biguint_to_compact_spec. eapply Z.lt_trans; [exact Hx|]. apply Z.pow_lt_mono_r; lia. }
  exists (compact_of (big_val a)).
  destruct (Z.eqb_spec (big_val a) 0) as [E|Hnz].
  - destruct (compact_to_biguint_spec (N := N) 0 ltac:(split; lia)) as (b & Eb & Vb).
    change (compact_target 0) with 0 in Vb. exists b. rewrite (Hlift a Ha), (Hlift b) by lia.
    rewrite E, Vb. split; [done|]. split; [change (compact_of 0) with 0; split; lia|]. split; [done|]. split; [lia|].
    split; [lia|]. done.
  - assert (Hp : 0 < big_val a < 2 ^ 256) by lia.
    destruct (compact_of_parts (big_val a) Hp) as (Hu & _ & _ & Hsg).
    destruct (compact_target_of (big_val a) Hp) as (Ht & Hloss & Hex).
    pose proof (compact_to_biguint_spec (N := N) _ Hu) as Hdec.
    unfold compact_negative in Hdec. rewrite Hsg, andb_false_r in Hdec. cbn [orb] in Hdec.
    rewrite (proj2 (Z.leb_gt _ _)) in Hdec by lia. destruct Hdec as (b & Eb & Vb).
    exists b. rewrite (Hlift a Ha), (Hlift b) by lia. rewrite Vb.
    rewrite compact_of_idempotent by lia. repeat (split; [done || lia|]). done.
Qed.

(** Compact forms compare as the targets they encode, so comparing compact forms (as the minimum
    difficulty rule does) compares targets. *)
Theorem compact_order a b :
  big_val a <= big_val b -> big_val b < 2 ^ 256 ->
  exists ca cb, biguint_to_compact a false = Ok ca /\ biguint_to_compact b false = Ok cb /\ ca <= cb.
Proof.
  intros Hab Hb. assert (Hb' : big_val b < 2 ^ 2000).
  { eapply Z.lt_trans; [exact Hb|]. apply Z.pow_lt_mono_r; lia. }
  exists (compact_of (big_val a)), (compact_of (big_val b)).
  rewrite !biguint_to_compact_spec by (done || (eapply Z.le_lt_trans; [exact Hab|done])).
  split; [done|]. split; [done|]. apply compact_of_mono. pose proof (big_val_nonneg a). lia.
Qed.

(** A hash read as a little-endian integer and written back is unchanged. *)
Theorem hash_biguint_roundtrip (h : bytes) :
  is_hash h -> biguint_to_hash (N := N) (hash_to_biguint h) = h.
Proof.
  intros [Hl Hb]. unfold biguint_to_hash, hash_to_biguint.
  set (a := big_from_bytes_le h). assert (Va : big_val a = le_val h) by (apply big_from_bytes_val, Hb).
  pose proof (le_val_bounds h Hb) as Hv. rewrite Hl in Hv.
  assert (Hfit : big_val a < 256 ^ Z.of_nat HASH_LEN) by lia.
  pose proof (big_to_bytes_len a HASH_LEN Hfit ltac:(unfold HASH_LEN; lia)) as Hlen.
  rewrite from_vec_short by done. apply le_val_inj.
  - apply are_bytes_app. split; [apply big_to_bytes_bytes|]. apply Forall_replicate. split; lia.
  - done.
  - rewrite length_app, length_replicate. lia.
  - rewrite le_val_zeros, big_to_bytes_val. done.
Qed.
End Claims.

(** ** Witnesses *)

Lemma compact_decoding_witness :
  exists a : Z, compact_to_biguint 0x1d00ffff = Ok (Some a) /\ big_val a = 0xffff * 2 ^ 208.
Proof.
  destruct (proj2 (compact_decoding (N := Z) 0x1d00ffff ltac:(split; lia)) eq_refl) as (a & E1 & E2).
  exists a. split; [exact E1|]. rewrite E2. reflexivity.
Defined.

Lemma compact_roundtrip_witness :
  exists c b : Z, biguint_to_compact (N := Z) 0x123456789 false = Ok c /\
    compact_to_biguint c = Ok (Some b) /\ big_val b <= 0x123456789.
Proof.
  pose proof (compact_roundtrip (N := Z) 0x123456789) as H.
  destruct (H ltac:(reflexivity)) as (c & b & E1 & _ & E2 & E3 & _).
  exists c, b. split; [exact E1|]. split; [exact E2|exact E3].
Defined.

Lemma compact_order_witness :
  exists ca cb, biguint_to_compact (N := Z) 1000 false = Ok ca /\
    biguint_to_compact (N := Z) 70000 false = Ok cb /\ ca <= cb.
Proof. apply (compact_order (N := Z) 1000 70000); [simpl; lia|reflexivity]. Defined.

Lemma hash_biguint_roundtrip_witness :
  biguint_to_hash (N := Z) (hash_to_biguint (replicate 31 7 ++ [0])) = replicate 31 7 ++ [0].
Proof.
  apply (hash_biguint_roundtrip (N := Z)). split; [reflexivity|].
  repeat constructor; unfold is_byte; lia.
Defined.
