(* ===== verification/Consensus.v ===== *)
(** * Consensus parameters and rules

    Models [core/src/global.rs] (the chain type and the parameters that depend
    on it) and [core/src/consensus.rs]: block rewards, header versions, the
    retargeting of the bit difficulty and the scaling of the secondary proof of
    work.  [CHAIN_TYPE], a process-wide lock set once at start-up, is the
    argument [ct] of the functions that read it. *)

From Stdlib Require Import ZArith Lia List Bool.
From stdpp Require Import base numbers list option gmap.
From S2P Require Import Prelude Bytes Compact.

(** ** [global.rs] *)

Inductive ChainTypes := AutomatedTesting | UserTesting | Floonet | Mainnet.

#[export] Instance chain_types_eq_dec : EqDecision ChainTypes.
Proof. solve_decision. Defined.

Definition ChainTypes_default : ChainTypes := Mainnet.

Definition BLOCK_TIME_SEC : Z := 600.
Definition HOUR_HEIGHT : Z := 3600 / BLOCK_TIME_SEC.
Definition DAY_HEIGHT : Z := 24 * HOUR_HEIGHT.
Definition WEEK_HEIGHT : Z := 7 * DAY_HEIGHT.
Definition YEAR_HEIGHT : Z := 52 * WEEK_HEIGHT.
Definition COINBASE_MATURITY : Z := DAY_HEIGHT.
Definition CUT_THROUGH_HORIZON : Z := WEEK_HEIGHT.
Definition STATE_SYNC_THRESHOLD : Z := 2 * DAY_HEIGHT.
Definition MAX_BLOCK_WEIGHT : Z := 100000.
Definition TESTING_MAX_BLOCK_WEIGHT : Z := 150.

Definition halving_interval (ct : ChainTypes) : Z :=
  match ct with Mainnet => 210000 | _ => DAY_HEIGHT end.

Definition support_token_height (ct : ChainTypes) : Z :=
  match ct with Floonet => 160 | Mainnet => 45120 | _ => 0 end.

Definition refactor_header_height (ct : ChainTypes) : Z :=
  match ct with Floonet => 170 | Mainnet => 45120 + 720 | _ => 0 end.

Definition min_edge_bits : Z := 9.
Definition base_edge_bits : Z := 9.
Definition proofsize : nat := 4.

Definition min_bit_diff (ct : ChainTypes) : Z :=
  match ct with Floonet => 0x1b01cc26 | Mainnet => 0x18120f14 | _ => 0x2100ffff end.

Definition coinbase_maturity (ct : ChainTypes) : Z :=
  match ct with AutomatedTesting => 3 | UserTesting => 3 | _ => COINBASE_MATURITY end.

Definition TESTING_INITIAL_DIFFICULTY : Z := 1.
Definition initial_block_difficulty : Z := TESTING_INITIAL_DIFFICULTY.
Definition initial_graph_weight : Z := 1.

Definition max_block_weight (ct : ChainTypes) : Z :=
  match ct with
  | AutomatedTesting => TESTING_MAX_BLOCK_WEIGHT
  | UserTesting => TESTING_MAX_BLOCK_WEIGHT
  | Floonet => MAX_BLOCK_WEIGHT
  | Mainnet => MAX_BLOCK_WEIGHT
  end.

Definition cut_through_horizon (ct : ChainTypes) : Z :=
  match ct with
  | AutomatedTesting => 20
  | UserTesting => 70
  | Floonet => 70
  | Mainnet => CUT_THROUGH_HORIZON
  end.

Definition state_sync_threshold (ct : ChainTypes) : Z :=
  match ct with Mainnet => STATE_SYNC_THRESHOLD | _ => 20 end.

Definition txhashset_archive_interval (ct : ChainTypes) : Z :=
  match ct with Mainnet => 12 * 60 | _ => 10 end.

Definition is_production_mode (ct : ChainTypes) : bool :=
  bool_decide (ct = Floonet) || bool_decide (ct = Mainnet).

Definition is_floonet (ct : ChainTypes) : bool := bool_decide (ct = Floonet).

(** ** [consensus.rs] *)

Definition GRIN_BASE : Z := 1000000000.
Definition MILLI_GRIN : Z := GRIN_BASE / 1000.
Definition REWARD : Z := 50 * GRIN_BASE.

(** [reward] *)
Definition reward (ct : ChainTypes) (height fee : Z) : Z :=
  let halvings := height / halving_interval ct in
  let cur_reward := if 64 <=? halvings then 0 else (REWARD >> halvings)%u64 in
  saturating_add64 cur_reward fee.

(** The [while i < halvings] loop of [total_reward]; [n] turns are left. *)
Fixpoint total_reward_loop (n : nat) (interval i total : Z) : Z :=
  match n with
  | O => total
  | S n => total_reward_loop n interval (i + 1)%u64 (total + interval * (REWARD >> i))%u64
  end.

(** [total_reward] *)
Definition total_reward (ct : ChainTypes) (height : Z) (genesis_had_reward : bool) : Z :=
  let halvings := height / halving_interval ct in
  let total := total_reward_loop (Z.to_nat halvings) (halving_interval ct) 0 0 in
  let remainder := height mod halving_interval ct in
  let total := (total + (REWARD >> halvings) * (remainder + 1))%u64 in
  if negb genesis_had_reward then (total - REWARD)%u64 else total.

(** [secondary_pow_ratio] *)
Definition secondary_pow_ratio (height : Z) : Z :=
  saturating_sub 90 (height / (2 * YEAR_HEIGHT / 90)).

Definition AR_SCALE_DAMP_FACTOR : Z := 13.
Definition ar_scale_damp_factor (_height : Z) : Z := AR_SCALE_DAMP_FACTOR.
Definition MIN_AR_SCALE : Z := AR_SCALE_DAMP_FACTOR.
Definition SECOND_POW_EDGE_BITS : Z := 29.
Definition MIN_DIFFICULTY : Z := 1.

Definition BLOCK_INPUT_WEIGHT : Z := 1.
Definition BLOCK_OUTPUT_WEIGHT : Z := 21.
Definition BLOCK_KERNEL_WEIGHT : Z := 3.

(** [header_version], [valid_header_version] *)
Definition header_version (ct : ChainTypes) (height : Z) : Z :=
  if height <? support_token_height ct then 1 else 2.

Definition valid_header_version (ct : ChainTypes) (height version : Z) : bool :=
  version =? header_version ct height.

Definition DIFFICULTY_ADJUST_WINDOW : Z := WEEK_HEIGHT * 2.
Definition BLOCK_TIME_WINDOW : Z := DIFFICULTY_ADJUST_WINDOW * BLOCK_TIME_SEC.
Definition CLAMP_FACTOR : Z := 2.

(** [graph_weight] *)
Definition graph_weight (_height _edge_bits : Z) : Z := 1.

(** [HeaderInfo]; a [Difficulty] is its number. *)
Record HeaderInfo := mkHeaderInfo {
  block_hash : bytes;
  timestamp : Z;
  difficulty : Z;
  secondary_scaling : Z;
  is_secondary : bool
}.

Definition ZERO_HASH_BYTES : bytes := replicate HASH_LEN 0.

(** [HeaderInfo::from_ts_diff] *)
Definition from_ts_diff (timestamp difficulty : Z) : HeaderInfo :=
  mkHeaderInfo ZERO_HASH_BYTES timestamp difficulty initial_graph_weight true.

(** [HeaderInfo::from_diff_scaling] *)
Definition from_diff_scaling (difficulty secondary_scaling : Z) : HeaderInfo :=
  mkHeaderInfo ZERO_HASH_BYTES 1 difficulty secondary_scaling true.

(** [damp], [clamp] *)
Definition damp (actual goal damp_factor : Z) : Z :=
  (actual + (damp_factor - 1) * goal)%u64 / damp_factor.

Definition clamp (actual goal clamp_factor : Z) : Z :=
  Z.max (goal / clamp_factor) (Z.min actual (goal * clamp_factor)%u64).

(** [next_difficulty]: the retargeting is disabled, the difficulty is constant. *)
Definition next_difficulty (_height : Z) (_cursor : list HeaderInfo) : HeaderInfo :=
  from_diff_scaling (Z.max TESTING_INITIAL_DIFFICULTY 1) 1.

(** The time span of a window, limited to a factor of four each way. *)
Definition adjusted_time (ts_delta : Z) : Z :=
  if BLOCK_TIME_WINDOW * 4 <? ts_delta then BLOCK_TIME_WINDOW * 4
  else if ts_delta <? BLOCK_TIME_WINDOW / 4 then BLOCK_TIME_WINDOW / 4
  else ts_delta.

(** [next_bit_difficulty].  The times are [i64]; their difference is cast to
    [u64]. *)
Definition next_bit_difficulty {N} `{!BigUint N} (ct : ChainTypes)
    (cur_height cur_bits cur_block_time first_block_time : Z) : res unit Z :=
  let target_height := (cur_height + 1)%u64 in
  if negb (target_height mod DIFFICULTY_ADJUST_WINDOW =? 0) then Ok cur_bits
  else
    let ts_delta := wrap64 (cur_block_time - first_block_time) in
    let adj_ts := adjusted_time ts_delta in
    let? o := compact_to_biguint (N := N) cur_bits in
    match o with
    | None => Panic
    | Some next_bits =>
      let next_bits := big_mul next_bits adj_ts in
      let next_bits := big_div next_bits BLOCK_TIME_WINDOW in
      let? compact := biguint_to_compact next_bits false in
      Ok (Z.min (min_bit_diff ct) compact)
    end.

(** [ar_count] *)
Definition ar_count (_height : Z) (diff_data : list HeaderInfo) : Z :=
  (100 * Z.of_nat (length (List.filter is_secondary diff_data)))%u64.

(** [secondary_pow_scaling] *)
Definition secondary_pow_scaling (height : Z) (diff_data : list HeaderInfo) : Z :=
  let scale_sum := foldl add64 0 (map secondary_scaling diff_data) in
  let target_pct := secondary_pow_ratio height in
  let target_count := (DIFFICULTY_ADJUST_WINDOW * target_pct)%u64 in
  let adj_count :=
    clamp (damp (ar_count height diff_data) target_count (ar_scale_damp_factor height))
      target_count CLAMP_FACTOR in
  let scale := (scale_sum * target_pct)%u64 / Z.max 1 adj_count in
  wrap32 (Z.max MIN_AR_SCALE scale).

(** ** [global::difficulty_data_to_vector] *)

(** The padding loop: [k] simulated blocks, each [last_ts_delta] earlier. *)
Fixpoint simulated_blocks (k : nat) (last_ts last_ts_delta last_diff : Z) : list HeaderInfo :=
  match k with
  | O => []
  | S k =>
    let last_ts := saturating_sub last_ts last_ts_delta in
    from_ts_diff last_ts last_diff :: simulated_blocks k last_ts last_ts_delta last_diff
  end.

(** The vector is indexed without a guard: an empty cursor panics. *)
Definition difficulty_data_to_vector (cursor : list HeaderInfo) : res unit (list HeaderInfo) :=
  let needed_block_count := Z.to_nat (DIFFICULTY_ADJUST_WINDOW + 1) in
  let last_n := take needed_block_count cursor in
  let n := length last_n in
  if (n <? needed_block_count)%nat then
    let last_ts_delta :=
      match last_n with
      | a :: b :: _ => (timestamp a - timestamp b)%u64
      | _ => BLOCK_TIME_SEC
      end in
    match last_n, last last_n with
    | a :: _, Some z =>
      let padding :=
        simulated_blocks (needed_block_count - n) (timestamp z) last_ts_delta (difficulty a) in
      Ok (rev (last_n ++ padding))
    | _, _ => Panic
    end
  else Ok (rev last_n).

(** ** Rewards *)

(** Sum of [REWARD / 2 ^ i] for [i < n]. *)
Fixpoint halved_sum (n : nat) : Z :=
  match n with O => 0 | S n => halved_sum n + REWARD / 2 ^ Z.of_nat n end.

Lemma reward_halves (n : nat) :
  0 <= REWARD / 2 ^ Z.of_nat n <= REWARD /\
  2 * (REWARD / 2 ^ Z.of_nat (S n)) <= REWARD / 2 ^ Z.of_nat n.
Proof.
  pose proof (pow2_pos (Z.of_nat n) ltac:(lia)). split.
  - split; [apply Z.div_pos; [done|lia]|]. apply Z.div_le_upper_bound; [lia|].
    assert (0 <= REWARD) by done. nia.
  - rewrite pow2_succ, (Z.mul_comm 2 (2 ^ Z.of_nat n)), <- Z.div_div by lia.
    apply Z.mul_div_le. lia.
Qed.

Lemma halved_sum_bound (n : nat) :
  0 <= halved_sum n /\ halved_sum n + 2 * (REWARD / 2 ^ Z.of_nat n) <= 2 * REWARD.
Proof.
  induction n as [|n IH]; [split; done|]. cbn [halved_sum].
  destruct (reward_halves n). lia.
Qed.

Lemma halved_sum_ge (n : nat) : REWARD <= halved_sum (S n).
Proof.
  induction n as [|n IH]; [done|]. change (halved_sum (S (S n))) with
    (halved_sum (S n) + REWARD / 2 ^ Z.of_nat (S n)).
  destruct (reward_halves (S n)) as [[? _] _]. lia.
Qed.

Lemma halving_interval_bounds ct : 0 < halving_interval ct <= 210000.
Proof. destruct ct; vm_compute; split; congruence. Qed.

Lemma shr_reward i : 0 <= i < 64 -> (REWARD >> i)%u64 = REWARD / 2 ^ i.
Proof. intros H. unfold shr64. rewrite Z.mod_small by lia. apply Z.shiftr_div_pow2. lia. Qed.

Lemma interval_product_small ct (n : nat) r :
  0 <= r <= halving_interval ct ->
  0 <= halving_interval ct * halved_sum n /\
  0 <= r * (REWARD / 2 ^ Z.of_nat n) /\
  halving_interval ct * halved_sum n + r * (REWARD / 2 ^ Z.of_nat n) < 2 ^ 60.
Proof.
  intros Hr. pose proof (halving_interval_bounds ct). destruct (halved_sum_bound n) as [H0 H1].
  destruct (reward_halves n) as [H2 _]. change REWARD with 50000000000 in H1 at 2.
  change (2 ^ 60) with 1152921504606846976. nia.
Qed.

Lemma total_reward_loop_sum ct (n k : nat) total :
  (k + n <= 64)%nat -> total = halving_interval ct * halved_sum k ->
  total_reward_loop n (halving_interval ct) (Z.of_nat k) total
  = halving_interval ct * halved_sum (k + n).
Proof.
  revert k total; induction n as [|n IH]; intros k total Hk ->; [rewrite Nat.add_0_r; done|].
  cbn [total_reward_loop]. rewrite shr_reward by lia.
  pose proof (interval_product_small ct k (halving_interval ct)) as Hs.
  pose proof (halving_interval_bounds ct). specialize (Hs ltac:(lia)).
  change (2 ^ 60) with 1152921504606846976 in Hs.
  rewrite (mul64_small (halving_interval ct)) by lia.
  rewrite !add64_small by lia.
  replace (Z.of_nat k + 1) with (Z.of_nat (S k)) by lia. rewrite IH; [f_equal; f_equal; lia|lia|].
  cbn [halved_sum]. lia.
Qed.

(** Closed form while fewer than 64 halvings have passed. *)
Lemma total_reward_closed ct h :
  0 <= h < 64 * halving_interval ct ->
  total_reward ct h true
  = halving_interval ct * halved_sum (Z.to_nat (h / halving_interval ct))
    + (h mod halving_interval ct + 1) * (REWARD / 2 ^ (h / halving_interval ct)).
Proof.
  intros Hh. pose proof (halving_interval_bounds ct) as Hi.
  assert (Hq : 0 <= h / halving_interval ct < 64)
    by (split; [apply Z.div_pos|apply Z.div_lt_upper_bound]; lia).
  pose proof (Z.mod_pos_bound h (halving_interval ct) ltac:(lia)) as Hr.
  unfold total_reward. rewrite (total_reward_loop_sum ct _ 0) by (simpl; lia).
  rewrite Nat.add_0_l, shr_reward by lia.
  pose proof (interval_product_small ct (Z.to_nat (h / halving_interval ct))
    (h mod halving_interval ct + 1) ltac:(lia)) as Hs.
  rewrite Z2Nat.id in Hs by lia. change (2 ^ 60) with 1152921504606846976 in Hs.
  rewrite (add64_small (h mod halving_interval ct)) by lia.
  autorewrite with u64. cbn [negb]. lia.
Qed.

Lemma reward_closed ct h :
  0 <= h < 64 * halving_interval ct -> reward ct h 0 = REWARD / 2 ^ (h / halving_interval ct).
Proof.
  intros Hh. pose proof (halving_interval_bounds ct) as Hi.
  assert (Hq : 0 <= h / halving_interval ct < 64)
    by (split; [apply Z.div_pos|apply Z.div_lt_upper_bound]; lia).
  unfold reward. rewrite (proj2 (Z.leb_gt _ _)), shr_reward by lia.
  destruct (reward_halves (Z.to_nat (h / halving_interval ct))) as [Hb _].
  rewrite Z2Nat.id in Hb by lia. change REWARD with 50000000000 in Hb at 3.
  unfold saturating_add64, u64_max. rewrite Z.min_l by lia. lia.
Qed.

Lemma total_reward_step ct h :
  0 <= h -> h + 1 < 64 * halving_interval ct ->
  total_reward ct (h + 1) true = total_reward ct h true + reward ct (h + 1) 0.
Proof.
  intros H0 Hh. pose proof (halving_interval_bounds ct) as Hi.
  rewrite !total_reward_closed, reward_closed by lia.
  generalize dependent (halving_interval ct). intros I Hh Hi.
  pose proof (Z.mod_pos_bound h I ltac:(lia)) as Hr. pose proof (Z.div_mod h I ltac:(lia)) as Hd.
  destruct (Z.eqb_spec (h mod I) (I - 1)) as [E|Hne].
  - assert (Eq : (h + 1) / I = h / I + 1) by (symmetry; apply Z.div_unique with 0; lia).
    assert (Em : (h + 1) mod I = 0) by (symmetry; apply Z.mod_unique with (h / I + 1); lia).
    pose proof (Z.div_pos h I H0 ltac:(lia)).
    rewrite Eq, Em, E. replace (Z.to_nat (h / I + 1)) with (S (Z.to_nat (h / I))) by lia.
    cbn [halved_sum]. rewrite Z2Nat.id by lia. lia.
  - assert (Eq : (h + 1) / I = h / I) by (symmetry; apply Z.div_unique with (h mod I + 1); lia).
    assert (Em : (h + 1) mod I = h mod I + 1) by (symmetry; apply Z.mod_unique with (h / I); lia).
    rewrite Eq, Em. lia.
Qed.

(** The subsidies of the blocks [0 .. n - 1]. *)
Definition subsidies (ct : ChainTypes) (n : nat) : Z :=
  foldr Z.add 0 (map (fun k => reward ct (Z.of_nat k) 0) (List.seq 0 n)).

Lemma subsidies_S ct n : subsidies ct (S n) = subsidies ct n + reward ct (Z.of_nat n) 0.
Proof.
  unfold subsidies. rewrite List.seq_S, map_app. simpl. generalize (reward ct (Z.of_nat n) 0). intros r.
  induction (map _ (List.seq 0 n)) as [|a l IH]; simpl; lia.
Qed.

(** [total_reward] is the sum of the block subsidies from genesis up to the height, for every
    height below 64 halving intervals, and without the genesis subsidy when genesis had none. *)
Theorem total_reward_is_the_sum ct h :
  0 <= h < 64 * halving_interval ct ->
  total_reward ct h true = subsidies ct (S (Z.to_nat h)) /\
  total_reward ct h false = subsidies ct (S (Z.to_nat h)) - reward ct 0 0.
Proof.
  intros [H0 Hh]. assert (Htrue : total_reward ct h true = subsidies ct (S (Z.to_nat h))).
  { revert Hh. pattern h. apply natlike_ind; [|clear h H0; intros h H0 IH Hh|done].
    - intros _. destruct ct; reflexivity.
    - rewrite <- Z.add_1_r in *. rewrite total_reward_step, IH by lia.
      replace (Z.to_nat (h + 1)) with (S (Z.to_nat h)) by lia.
      rewrite (subsidies_S ct (S (Z.to_nat h))). do 2 f_equal. lia. }
  split; [done|]. rewrite <- Htrue. unfold total_reward at 1. cbn [negb].
  change (sub64 _ _) with (total_reward ct h true - REWARD)%u64.
  replace (reward ct 0 0) with REWARD by (destruct ct; reflexivity).
  rewrite total_reward_closed by done. pose proof (halving_interval_bounds ct) as Hi.
  pose proof (Z.mod_pos_bound h (halving_interval ct) ltac:(lia)) as Hr.
  assert (Hq : 0 <= h / halving_interval ct) by (apply Z.div_pos; lia).
  pose proof (interval_product_small ct (Z.to_nat (h / halving_interval ct))
    (h mod halving_interval ct + 1) ltac:(lia)) as Hs.
  rewrite Z2Nat.id in Hs by lia. change (2 ^ 60) with 1152921504606846976 in Hs.
  assert (HR : 0 <= REWARD) by done. rewrite sub64_small; [done|]. split; [|lia].
  destruct (Z.to_nat (h / halving_interval ct)) as [|q] eqn:Eq.
  - replace (h / halving_interval ct) with 0 by lia. change (REWARD / 2 ^ 0) with REWARD.
    nia.
  - pose proof (halved_sum_ge q). destruct Hs as (_ & Hs & _). nia.
Qed.

Lemma total_reward_is_the_sum_witness :
  total_reward Mainnet 3 true = subsidies Mainnet 4 /\
  total_reward Mainnet 3 false = subsidies Mainnet 4 - reward Mainnet 0 0.
Proof. apply (total_reward_is_the_sum Mainnet 3). vm_compute. split; congruence. Defined.

(** The guard [halvings >= 64] of [reward] is missing from [total_reward], where the shift amount
    is taken modulo 64: the first block of the 65th interval has no subsidy, yet the total grows by
    a full initial reward there. *)
Theorem total_reward_after_64_halvings ct :
  let h := 64 * halving_interval ct in
  reward ct h 0 = 0 /\ total_reward ct h true = total_reward ct (h - 1) true + REWARD.
Proof. destruct ct; vm_compute; split; reflexivity. Qed.

(** ** Retargeting *)

Lemma adjusted_time_bounds ts :
  BLOCK_TIME_WINDOW / 4 <= adjusted_time ts <= 4 * BLOCK_TIME_WINDOW.
Proof.
  unfold adjusted_time. change BLOCK_TIME_WINDOW with 1209600. change (1209600 / 4) with 302400.
  zcases; lia.
Qed.

(** The exact new target, before the floor and the rounding to compact form. *)
Definition retarget (target span : Z) : Z := target * adjusted_time span / BLOCK_TIME_WINDOW.

Lemma retarget_bounds t span :
  0 <= t -> t / 4 <= retarget t span <= 4 * t.
Proof.
  intros Ht. pose proof (adjusted_time_bounds span) as Ha. unfold retarget.
  change BLOCK_TIME_WINDOW with 1209600 in *. change (1209600 / 4) with 302400 in Ha.
  Z.div_mod_to_equations; nia.
Qed.

Lemma min_bit_diff_canonical ct :
  0 < compact_target (min_bit_diff ct) < 2 ^ 256 /\
  compact_of (compact_target (min_bit_diff ct)) = min_bit_diff ct.
Proof. destruct ct; vm_compute; repeat split; congruence. Qed.

Section Retarget.
  Context {N : Type} `{!BigUint N} `{!BigUintLaws N}.

Lemma next_bit_difficulty_spec ct height bits t1 t0 :
  is_u32 bits -> compact_negative bits = false -> compact_target bits < 2 ^ 256 ->
  (height + 1)%u64 mod DIFFICULTY_ADJUST_WINDOW = 0 ->
  next_bit_difficulty (N := N) ct height bits t1 t0
  = Ok (Z.min (min_bit_diff ct) (compact_of (retarget (compact_target bits) (wrap64 (t1 - t0))))).
Proof.
  intros Hu Hneg Hlt Hw. unfold next_bit_difficulty. rewrite Hw. cbn [Z.eqb negb].
  pose proof (compact_to_biguint_spec (N := N) bits Hu) as Hdec.
  rewrite Hneg, (proj2 (Z.leb_gt _ _)) in Hdec by done. cbn [orb] in Hdec.
  destruct Hdec as (a & -> & Va). cbn [res_bind].
  pose proof (adjusted_time_bounds (wrap64 (t1 - t0))) as Hadj. pose proof (big_val_nonneg a) as H0.
  set (adj := adjusted_time (wrap64 (t1 - t0))) in *.
  change BLOCK_TIME_WINDOW with 1209600 in Hadj at 2.
  change (BLOCK_TIME_WINDOW / 4) with 302400 in Hadj.
  assert (Hv : big_val (big_div (big_mul a adj) BLOCK_TIME_WINDOW)
    = retarget (compact_target bits) (wrap64 (t1 - t0))).
  { rewrite big_div_val by (vm_compute; split; congruence || reflexivity).
    rewrite big_mul_val by (split; lia). rewrite Va. done. }
  pose proof (retarget_bounds (compact_target bits) (wrap64 (t1 - t0)) ltac:(lia)) as Hr.
  rewrite biguint_to_compact_spec, Hv; [done|]. rewrite Hv.
  apply Z.le_lt_trans with (4 * 2 ^ 256); [lia|]. change (4 * 2 ^ 256) with (2 ^ 258).
  apply Z.pow_lt_mono_r; lia.
Qed.

(** Outside the last block of a window [next_bit_difficulty] keeps the bits; at the end of a window
    it never panics on valid bits, and the target of the new bits is the old target scaled by the
    time the window took over the time it should have taken (limited to a factor of four each way; a
    window that ends before it starts counts as the longest), never above the minimum-difficulty
    target, and below the exact value by at most the rounding of the compact form. *)
Theorem retargeting_is_bounded ct height bits t1 t0 :
  is_u32 bits -> compact_negative bits = false -> compact_target bits < 2 ^ 256 ->
  - 2 ^ 63 <= t1 - t0 < 2 ^ 63 ->
  let old := compact_target bits in
  let exact := Z.min (compact_target (min_bit_diff ct))
    (retarget old (if t1 <? t0 then 4 * BLOCK_TIME_WINDOW else t1 - t0)) in
  ((height + 1)%u64 mod DIFFICULTY_ADJUST_WINDOW <> 0 ->
    next_bit_difficulty (N := N) ct height bits t1 t0 = Ok bits) /\
  ((height + 1)%u64 mod DIFFICULTY_ADJUST_WINDOW = 0 ->
    exists c, next_bit_difficulty (N := N) ct height bits t1 t0 = Ok c /\
      c <= min_bit_diff ct /\ compact_target c <= exact <= 4 * old /\
      (exact - compact_target c) * 2 ^ 15 <= compact_target c).
Proof.
  intros Hu Hneg Hlt Hdt old exact. split; intros Hw.
  { unfold next_bit_difficulty. rewrite (proj2 (Z.eqb_neq _ _)) by done. done. }
  rewrite next_bit_difficulty_spec by done. eexists. split; [done|]. split; [lia|].
  assert (Espan : retarget old (wrap64 (t1 - t0))
    = retarget old (if t1 <? t0 then 4 * BLOCK_TIME_WINDOW else t1 - t0)).
  { unfold wrap64. change (2 ^ 63) with 9223372036854775808 in Hdt.
    destruct (Z.ltb_spec t1 t0); [|rewrite Z.mod_small by lia; done].
    replace ((t1 - t0) mod U64) with (t1 - t0 + U64) by (apply Z.mod_unique with (-1); lia).
    unfold retarget. do 2 f_equal. unfold adjusted_time.
    change BLOCK_TIME_WINDOW with 1209600. rewrite (proj2 (Z.ltb_lt _ _)) by lia. done. }
  fold old. rewrite Espan. destruct (min_bit_diff_canonical ct) as [Hm Em].
  assert (Hold : 0 <= old).
  { unfold old, compact_target, expand. destruct (compact_parts_bounds bits Hu) as [Hs Hmm].
    destruct (Z.leb_spec (compact_exponent bits) 3); [apply Z.div_pos|apply Z.mul_nonneg_nonneg]; lia. }
  pose proof (retarget_bounds old (if t1 <? t0 then 4 * BLOCK_TIME_WINDOW else t1 - t0) Hold) as Hr.
  fold old in exact. set (x := retarget old _) in *.
  assert (Ec : Z.min (min_bit_diff ct) (compact_of x) = compact_of exact).
  { rewrite <- Em at 1. unfold exact.
    assert (0 <= x) by (pose proof (Z.div_pos old 4 Hold ltac:(lia)); lia).
    destruct (Z.le_ge_cases (compact_target (min_bit_diff ct)) x) as [Hle|Hge];
      [rewrite !Z.min_l | rewrite !Z.min_r]; try done; apply compact_of_mono; lia. }
  rewrite Ec. destruct (Z.eqb_spec exact 0) as [E0|Hnz].
  - rewrite E0. change (compact_target (compact_of 0)) with 0. lia.
  - assert (Hp : 0 < exact < 2 ^ 256).
    { unfold exact in *. pose proof (Z.div_pos old 4 Hold ltac:(lia)). lia. }
    destruct (compact_target_of exact Hp) as (Ht & Hloss & _). split; [|done]. unfold exact in *. lia.
Qed.
End Retarget.

Lemma retargeting_is_bounded_witness :
  exists c, next_bit_difficulty (N := Z) Mainnet 2015 0x1800ffff 1300000 0 = Ok c /\
    c <= min_bit_diff Mainnet.
Proof.
  pose proof (retargeting_is_bounded (N := Z) Mainnet 2015 0x1800ffff 1300000 0) as H.
  destruct H as [_ H]; [split; lia|reflexivity|reflexivity|vm_compute; split; congruence|].
  destruct H as (c & E1 & E2 & _); [reflexivity|]. exists c. split; [exact E1|exact E2].
Defined.

(** ** Difficulty data *)

Lemma length_simulated k ts d diff : length (simulated_blocks k ts d diff) = k.
Proof. revert ts; induction k as [|k IH]; intros ts; simpl; auto. Qed.

(** On a non-empty cursor [difficulty_data_to_vector] succeeds with exactly one entry more than the
    window, oldest first: the most recent headers in reverse order, preceded by simulated blocks that
    all carry the difficulty of the latest header; it panics exactly on an empty cursor. *)
Theorem difficulty_data_vector_shape (cursor : list HeaderInfo) :
  let needed := Z.to_nat (DIFFICULTY_ADJUST_WINDOW + 1) in
  match cursor with
  | [] => difficulty_data_to_vector cursor = Panic
  | latest :: _ =>
    exists pad v, difficulty_data_to_vector cursor = Ok v /\ length v = needed /\
      v = pad ++ rev (take needed cursor) /\
      Forall (fun h => difficulty h = difficulty latest /\ is_secondary h = true) pad
  end.
Proof.
  intros needed. destruct cursor as [|latest cursor]; [reflexivity|].
  unfold difficulty_data_to_vector. fold needed.
  destruct (Nat.ltb_spec (length (take needed (latest :: cursor))) needed) as [Hlt|Hge].
  - assert (Hne : exists z tl, take needed (latest :: cursor) = latest :: tl /\ last (latest :: tl) = Some z).
    { subst needed. destruct (Z.to_nat (DIFFICULTY_ADJUST_WINDOW + 1)) eqn:E; [discriminate|].
      rewrite firstn_cons. destruct (last (latest :: take n cursor)) as [z|] eqn:El; [eauto|].
      apply last_None in El. discriminate. }
    destruct Hne as (z & tl & Etl & El). rewrite Etl in *. rewrite El.
    set (k := (needed - length (latest :: tl))%nat). generalize (match tl with [] => BLOCK_TIME_SEC | b :: _ => (timestamp latest - timestamp b)%u64 end). intros d.
    exists (rev (simulated_blocks k (timestamp z) d (difficulty latest))). eexists. split; [done|].
    rewrite rev_app_distr, length_app, !length_rev, length_simulated. split; [lia|]. split; [done|].
    apply List.Forall_forall. intros h Hin. apply in_rev in Hin. revert Hin. generalize (timestamp z).
    clear. induction k as [|k IH]; intros ts Hin; [done|]. destruct Hin as [<-|Hin]; [done|]. eapply IH, Hin.
  - exists [], (rev (take needed (latest :: cursor))). split; [done|].
    rewrite length_rev. split; [|split; [done|constructor]].
    rewrite length_take in *. lia.
Qed.
