(* ===== verification/Ser.v ===== *)
(** * Binary serialization

    Models [core/src/ser.rs] and the writers of [core/src/core/hash.rs].

    A writer to memory never fails, so writing a value in a given context (mode
    and protocol version) is the byte string it appends.  A reader is a state:
    [Reader] is the trait, with the two implementations [BinReader] (which
    refuses single reads over 100,000 bytes) and [StreamingReader] (which counts
    bytes), and [ReaderLaws] is what both promise.  Of the errors of the
    underlying source only the unexpected end of input is modelled; the text of
    an error is dropped. *)

From Stdlib Require Import ZArith Lia List Bool Sorted.
From stdpp Require Import base numbers list option.
From S2P Require Import Prelude Bytes.

(** ** Errors, modes, versions *)

Inductive ErrorKind := UnexpectedEof | OtherKind.

Inductive Error :=
| IOErr (kind : ErrorKind)
| UnexpectedData (expected received : bytes)
| CorruptedData
| CountError
| TooLargeReadErr
| HexError
| SortError
| DuplicateError
| InvalidBlockVersion.

Inductive SerializationMode := Full | HashMode.

#[export] Instance mode_eq_dec : EqDecision SerializationMode.
Proof. solve_decision. Defined.

(** [global::PROTOCOL_VERSION], [ProtocolVersion::local], [local_db] *)
Definition PROTOCOL_VERSION : Z := 2.
Definition local_version : Z := PROTOCOL_VERSION.
Definition local_db_version : Z := 1.

(** ** Writers *)

Record Writer := mkWriter { serialization_mode : SerializationMode; writer_version : Z }.

(** [BinWriter::new], and the context of [HashWriter] and [DHashWriter]. *)
Definition bin_writer (version : Z) : Writer := mkWriter Full version.
Definition hash_writer : Writer := mkWriter HashMode local_version.

Definition write_u8 (n : Z) : bytes := be_bytes 1 n.
Definition write_u16 (n : Z) : bytes := be_bytes 2 n.
Definition write_u16_le (n : Z) : bytes := le_bytes 2 n.
Definition write_u32 (n : Z) : bytes := be_bytes 4 n.
Definition write_u32_le (n : Z) : bytes := le_bytes 4 n.
Definition write_i32 (n : Z) : bytes := be_bytes 4 (n mod 2 ^ 32).
Definition write_i32_le (n : Z) : bytes := le_bytes 4 (n mod 2 ^ 32).
Definition write_u64 (n : Z) : bytes := be_bytes 8 n.
Definition write_u64_le (n : Z) : bytes := le_bytes 8 n.
Definition write_i64 (n : Z) : bytes := be_bytes 8 (n mod 2 ^ 64).
Definition write_i64_le (n : Z) : bytes := le_bytes 8 (n mod 2 ^ 64).
Definition write_fixed_bytes (b : bytes) : bytes := b.
Definition write_bytes (b : bytes) : bytes :=
  write_u64 (Z.of_nat (length b)) ++ write_fixed_bytes b.

(** [Writeable] *)
Class Writeable (A : Type) := write : Writer -> A -> bytes.

(** [Vec<T>], pairs and triples. *)
#[export] Instance write_vec {A} `{!Writeable A} : Writeable (list A) :=
  fun w l => concat (map (write w) l).
#[export] Instance write_pair {A B} `{!Writeable A} `{!Writeable B} : Writeable (A * B) :=
  fun w p => write w p.1 ++ write w p.2.

(** [ser_vec] *)
Definition ser_vec {A} `{!Writeable A} (thing : A) (version : Z) : bytes :=
  write (bin_writer version) thing.

(** ** Readers *)

Class Reader (R : Type) := {
  read_int : nat -> R -> res Error (bytes * R);
  read_fixed_bytes : Z -> R -> res Error (bytes * R);
  read_bytes_len_prefix : R -> res Error (bytes * R);
  protocol_version : R -> Z
}.

(** The reader as a monad. *)
Definition read_ret {R A} (a : A) : R -> res Error (A * R) := fun r => Ok (a, r).
Definition read_bind {R A B} (m : R -> res Error (A * R)) (k : A -> R -> res Error (B * R))
  : R -> res Error (B * R) := fun r => let? '(a, r) := m r in k a r.
Definition read_fail {R A} (e : Error) : R -> res Error (A * R) := fun _ => Err e.
Definition read_panic {R A} : R -> res Error (A * R) := fun _ => Panic.

Declare Scope read_scope.
Delimit Scope read_scope with read.
Notation "'let!' x := c 'in' k" := (read_bind c (fun x => k))
  (at level 10, x name, c at level 100, k at level 200) : read_scope.
Notation "'let!' ' p := c 'in' k" := (read_bind c (fun p => k))
  (at level 10, p pattern, c at level 100, k at level 200) : read_scope.
#[global] Open Scope read_scope.

(** Two's complement. *)
Definition to_signed (w x : Z) : Z := if x <? 2 ^ (w - 1) then x else x - 2 ^ w.

Section Reading.
  Context {R : Type} `{!Reader R}.

Definition read_u8 : R -> res Error (Z * R) := let! b := read_int 1 in read_ret (be_val b).
Definition read_u16 : R -> res Error (Z * R) := let! b := read_int 2 in read_ret (be_val b).
Definition read_u16_le : R -> res Error (Z * R) := let! b := read_int 2 in read_ret (le_val b).
Definition read_u32 : R -> res Error (Z * R) := let! b := read_int 4 in read_ret (be_val b).
Definition read_u32_le : R -> res Error (Z * R) := let! b := read_int 4 in read_ret (le_val b).
Definition read_i32 : R -> res Error (Z * R) :=
  let! b := read_int 4 in read_ret (to_signed 32 (be_val b)).
Definition read_i32_le : R -> res Error (Z * R) :=
  let! b := read_int 4 in read_ret (to_signed 32 (le_val b)).
Definition read_u64 : R -> res Error (Z * R) := let! b := read_int 8 in read_ret (be_val b).
Definition read_u64_le : R -> res Error (Z * R) := let! b := read_int 8 in read_ret (le_val b).
Definition read_i64 : R -> res Error (Z * R) :=
  let! b := read_int 8 in read_ret (to_signed 64 (be_val b)).
Definition read_i64_le : R -> res Error (Z * R) :=
  let! b := read_int 8 in read_ret (to_signed 64 (le_val b)).

Definition expect_u8 (val : Z) : R -> res Error (Z * R) :=
  let! b := read_u8 in
  if b =? val then read_ret b else read_fail (UnexpectedData [val] [b]).

(** [IteratingReader::collect]: at most [n] items, stopping at the first error. *)
Fixpoint iterating_collect {A} (rd : R -> res Error (A * R)) (n : nat) (r : R)
    : res Error (list A * R) :=
  match n with
  | O => Ok ([], r)
  | S n =>
    match rd r with
    | Ok (a, r) => let? '(l, r) := iterating_collect rd n r in Ok (a :: l, r)
    | Err _ => Ok ([], r)
    | Panic => Panic
    end
  end.

(** [read_multi] *)
Definition read_multi {A} (rd : R -> res Error (A * R)) (count : Z) : R -> res Error (list A * R) :=
  if 1000000 <? count then read_fail TooLargeReadErr
  else
    let! res := iterating_collect rd (Z.to_nat count) in
    if negb (Z.of_nat (length res) =? count) then read_fail CountError else read_ret res.
End Reading.

(** [Readable] *)
Class Readable (A : Type) := read : forall {R} `{!Reader R}, R -> res Error (A * R).

#[export] Instance read_pair {A B} `{!Readable A} `{!Readable B} : Readable (A * B) :=
  fun R _ => (let! a := read in let! b := read in read_ret (a, b)).

(** ** The two readers *)

(** [Read::read_exact] on the bytes left in the source. *)
Definition read_exact (n : nat) (source : bytes) : res Error (bytes * bytes) :=
  if (n <=? length source)%nat then Ok (take n source, drop n source)
  else Err (IOErr UnexpectedEof).

Record BinReader := mkBinReader { source : bytes; version : Z }.

Definition bin_read_int (k : nat) (r : BinReader) : res Error (bytes * BinReader) :=
  let? '(b, s) := read_exact k (source r) in Ok (b, mkBinReader s (version r)).

(** [BinReader::read_fixed_bytes] *)
Definition bin_read_fixed_bytes (len : Z) (r : BinReader) : res Error (bytes * BinReader) :=
  if 100000 <? len then Err TooLargeReadErr
  else
    let? '(b, s) := read_exact (Z.to_nat len) (source r) in
    Ok (b, mkBinReader s (version r)).

(** [BinReader::read_bytes_len_prefix] *)
Definition bin_read_bytes_len_prefix (r : BinReader) : res Error (bytes * BinReader) :=
  let? '(len, r) := bin_read_int 8 r in bin_read_fixed_bytes (be_val len) r.

#[export] Instance bin_reader : Reader BinReader := {
  read_int := bin_read_int;
  read_fixed_bytes := bin_read_fixed_bytes;
  read_bytes_len_prefix := bin_read_bytes_len_prefix;
  protocol_version := version
}.

(** [deserialize] *)
Definition deserialize {A} `{!Readable A} (src : bytes) (version : Z) : res Error (A * BinReader) :=
  read (mkBinReader src version).

Record StreamingReader := mkStreaming { total_bytes_read : Z; sversion : Z; stream : bytes }.

(** [StreamingReader::read_fixed_bytes] *)
Definition streaming_read_fixed_bytes (len : Z) (r : StreamingReader)
    : res Error (bytes * StreamingReader) :=
  let? '(b, s) := read_exact (Z.to_nat len) (stream r) in
  Ok (b, mkStreaming (total_bytes_read r + len)%u64 (sversion r) s).

(** The integer reads go through [read_fixed_bytes]. *)
Definition streaming_read_int (k : nat) (r : StreamingReader) : res Error (bytes * StreamingReader) :=
  streaming_read_fixed_bytes (Z.of_nat k) r.

(** [StreamingReader::read_bytes_len_prefix] *)
Definition streaming_read_bytes_len_prefix (r : StreamingReader) : res Error (bytes * StreamingReader) :=
  let? '(len, r) := streaming_read_int 8 r in
  let r := mkStreaming (total_bytes_read r + 8)%u64 (sversion r) (stream r) in
  streaming_read_fixed_bytes (be_val len) r.

#[export] Instance streaming_reader : Reader StreamingReader := {
  read_int := streaming_read_int;
  read_fixed_bytes := streaming_read_fixed_bytes;
  read_bytes_len_prefix := streaming_read_bytes_len_prefix;
  protocol_version := sversion
}.

(** ** Hashing *)

(** BLAKE2b with a 32-byte digest and SHA-256 come from external crates. *)
Class Digest := {
  blake2b : bytes -> bytes;
  sha256 : bytes -> bytes
}.

Section Hashing.
  Context {DG : Digest} {A : Type} `{!Writeable A}.

(** [Hashed::hash], [Hashed::dhash] and [PMMRIndexHashable::hash_with_index] *)
Definition hash (a : A) : bytes := blake2b (write hash_writer a).
Definition dhash (a : A) : bytes := sha256 (sha256 (write hash_writer a)).
Definition hash_with_index (a : A) (index : Z) : bytes :=
  blake2b (write_u64 index ++ write hash_writer a).
End Hashing.

(** [VerifySortedAndUnique]: the order of hashes is lexicographic. *)
Fixpoint bytes_compare (a b : bytes) : comparison :=
  match a, b with
  | [], [] => Eq
  | [], _ :: _ => Lt
  | _ :: _, [] => Gt
  | x :: a, y :: b => match x ?= y with Eq => bytes_compare a b | c => c end
  end.

Fixpoint verify_sorted_hashes (hashes : list bytes) : res Error unit :=
  match hashes with
  | a :: (b :: _) as tl =>
    match bytes_compare a b with
    | Gt => Err SortError
    | Eq => Err DuplicateError
    | Lt => verify_sorted_hashes tl
    end
  | _ => Ok tt
  end.

(** ** What a reader promises *)

Class ReaderLaws (R : Type) `{!Reader R} := {
  remaining : R -> bytes;
  read_int_ok k pre rest r :
    remaining r = pre ++ rest -> length pre = k ->
    exists r', read_int k r = Ok (pre, r') /\ remaining r' = rest /\
      protocol_version r' = protocol_version r;
  read_fixed_ok n pre rest r :
    remaining r = pre ++ rest -> Z.of_nat (length pre) = n -> n <= 100000 ->
    exists r', read_fixed_bytes n r = Ok (pre, r') /\ remaining r' = rest /\
      protocol_version r' = protocol_version r;
  read_prefixed_ok pre rest r :
    remaining r = write_bytes pre ++ rest -> Z.of_nat (length pre) <= 100000 ->
    exists r', read_bytes_len_prefix r = Ok (pre, r') /\ remaining r' = rest /\
      protocol_version r' = protocol_version r;
  read_int_short k r :
    (length (remaining r) < k)%nat -> read_int k r = Err (IOErr UnexpectedEof);
  read_int_inv k r b r' :
    read_int k r = Ok (b, r') ->
    remaining r = b ++ remaining r' /\ length b = k /\ protocol_version r' = protocol_version r;
  read_fixed_inv n r b r' :
    read_fixed_bytes n r = Ok (b, r') ->
    remaining r = b ++ remaining r' /\ length b = Z.to_nat n /\ protocol_version r' = protocol_version r
}.

#[global] Arguments write_bytes : simpl never.

Lemma read_exact_ok pre rest : read_exact (length pre) (pre ++ rest) = Ok (pre, rest).
Proof.
  unfold read_exact. rewrite length_app, (proj2 (Nat.leb_le _ _)) by lia.
  rewrite take_app_length, drop_app_length. done.
Qed.

Lemma read_exact_short n s : (length s < n)%nat -> read_exact n s = Err (IOErr UnexpectedEof).
Proof. intros H. unfold read_exact. rewrite (proj2 (Nat.leb_gt _ _)) by done. done. Qed.

Lemma read_exact_inv n s b s' : read_exact n s = Ok (b, s') -> s = b ++ s' /\ length b = n.
Proof.
  unfold read_exact. destruct (Nat.leb_spec n (length s)); [|done]. intros [= <- <-].
  rewrite take_drop, length_take. split; [done|lia].
Qed.

Lemma length_prefix (b : bytes) :
  Z.of_nat (length b) <= 100000 -> be_val (write_u64 (Z.of_nat (length b))) = Z.of_nat (length b).
Proof. intros H. apply be_val_be_bytes. change (256 ^ Z.of_nat 8) with U64. lia. Qed.

#[export] Instance bin_reader_laws : ReaderLaws BinReader.
Proof.
  refine {| remaining := source |};
    cbn [read_int read_fixed_bytes read_bytes_len_prefix protocol_version bin_reader].
  - intros k pre rest r H <-. unfold bin_read_int. rewrite H, read_exact_ok. eexists. done.
  - intros n pre rest r H <- Hn. unfold bin_read_fixed_bytes.
    rewrite (proj2 (Z.ltb_ge _ _)), Nat2Z.id, H, read_exact_ok by lia. eexists. done.
  - intros pre rest r H Hl. unfold bin_read_bytes_len_prefix, bin_read_int, bin_read_fixed_bytes.
    unfold write_bytes in H. rewrite <- app_assoc in H.
    replace (read_exact 8 (source r)) with (Ok (E := Error) (write_u64 (Z.of_nat (length pre)), pre ++ rest))
      by (rewrite H; symmetry; apply (read_exact_ok (write_u64 (Z.of_nat (length pre))))).
    cbn [res_bind source version]. rewrite length_prefix by done.
    rewrite (proj2 (Z.ltb_ge _ _)), Nat2Z.id, read_exact_ok by lia. eexists. done.
  - intros k r H. unfold bin_read_int. rewrite read_exact_short by done. done.
  - intros k r b r' H. unfold bin_read_int in H.
    destruct (read_exact k (source r)) as [[b1 s1]| |] eqn:E1; try done.
    apply read_exact_inv in E1 as [E1 E2]. injection H as <- <-. done.
  - intros n r b r' H. unfold bin_read_fixed_bytes in H. destruct (100000 <? n); [done|].
    destruct (read_exact _ (source r)) as [[b1 s1]| |] eqn:E1; try done.
    apply read_exact_inv in E1 as [E1 E2]. injection H as <- <-. done.
Defined.

#[export] Instance streaming_reader_laws : ReaderLaws StreamingReader.
Proof.
  refine {| remaining := stream |};
    cbn [read_int read_fixed_bytes read_bytes_len_prefix protocol_version streaming_reader].
  - intros k pre rest r H <-. unfold streaming_read_int, streaming_read_fixed_bytes.
    rewrite Nat2Z.id, H, read_exact_ok. eexists. done.
  - intros n pre rest r H <- Hn. unfold streaming_read_fixed_bytes.
    rewrite Nat2Z.id, H, read_exact_ok. eexists. done.
  - intros pre rest r H Hl.
    unfold streaming_read_bytes_len_prefix, streaming_read_int, streaming_read_fixed_bytes.
    unfold write_bytes in H. rewrite <- app_assoc in H. rewrite Nat2Z.id.
    replace (read_exact 8 (stream r)) with (Ok (E := Error) (write_u64 (Z.of_nat (length pre)), pre ++ rest))
      by (rewrite H; symmetry; apply (read_exact_ok (write_u64 (Z.of_nat (length pre))))).
    cbn [res_bind stream sversion total_bytes_read]. rewrite length_prefix by done.
    rewrite Nat2Z.id, read_exact_ok. eexists. done.
  - intros k r H. unfold streaming_read_int, streaming_read_fixed_bytes.
    rewrite Nat2Z.id, read_exact_short by done. done.
  - intros k r b r' H. unfold streaming_read_int, streaming_read_fixed_bytes in H.
    rewrite Nat2Z.id in H. destruct (read_exact k (stream r)) as [[b1 s1]| |] eqn:E1; try done.
    apply read_exact_inv in E1 as [E1 E2]. injection H as <- <-. done.
  - intros n r b r' H. unfold streaming_read_fixed_bytes in H.
    destruct (read_exact _ (stream r)) as [[b1 s1]| |] eqn:E1; try done.
    apply read_exact_inv in E1 as [E1 E2]. injection H as <- <-. done.
Defined.

(** ** Reading back what was written *)

Section Reads.
  Context {R : Type} `{!Reader R} `{!ReaderLaws R}.

(** [rd] reads exactly the bytes [bs] as [a], at protocol version [v]. *)
Definition reads {A} (v : Z) (rd : R -> res Error (A * R)) (bs : bytes) (a : A) : Prop :=
  forall r rest, protocol_version r = v -> remaining r = bs ++ rest ->
  exists r', rd r = Ok (a, r') /\ remaining r' = rest /\ protocol_version r' = v.

(** The version the reader speaks. *)
Definition read_version : R -> res Error (Z * R) := fun r => Ok (protocol_version r, r).

Lemma reads_ret {A} v (a : A) : reads v (read_ret a) [] a.
Proof. intros r rest Hv H. exists r. done. Qed.

Lemma reads_version v : reads v read_version [] v.
Proof. intros r rest Hv H. exists r. unfold read_version. rewrite Hv. done. Qed.

Lemma reads_bind {A B} v (m : R -> res Error (A * R)) (k : A -> R -> res Error (B * R)) b1 b2 a b :
  reads v m b1 a -> reads v (k a) b2 b -> reads v (read_bind m k) (b1 ++ b2) b.
Proof.
  intros H1 H2 r rest Hv Hr. rewrite <- app_assoc in Hr.
  destruct (H1 r _ Hv Hr) as (r1 & E1 & Hr1 & Hv1).
  destruct (H2 r1 _ Hv1 Hr1) as (r2 & E2 & Hr2 & Hv2).
  exists r2. unfold read_bind. rewrite E1. cbn [res_bind]. done.
Qed.

Lemma reads_bind_last {A B} v (m : R -> res Error (A * R)) (k : A -> R -> res Error (B * R)) bs a b :
  reads v m bs a -> reads v (k a) [] b -> reads v (read_bind m k) bs b.
Proof. intros H1 H2. rewrite <- (app_nil_r bs). eapply reads_bind; done. Qed.

Lemma reads_bind_silent {A B} v (m : R -> res Error (A * R)) (k : A -> R -> res Error (B * R)) bs a b :
  reads v m [] a -> reads v (k a) bs b -> reads v (read_bind m k) bs b.
Proof. intros H1 H2. change bs with ([] ++ bs). eapply reads_bind; done. Qed.

Lemma reads_int v k bs : length bs = k -> reads v (read_int k) bs bs.
Proof.
  intros Hk r rest Hv Hr. destruct (read_int_ok k bs rest r Hr Hk) as (r' & E' & H' & Hv').
  exists r'. split; [done|]. split; [done|congruence].
Qed.

Lemma reads_fixed v n bs :
  Z.of_nat (length bs) = n -> n <= 100000 -> reads v (read_fixed_bytes n) bs bs.
Proof.
  intros Hk Hn r rest Hv Hr. destruct (read_fixed_ok n bs rest r Hr Hk Hn) as (r' & E' & H' & Hv').
  exists r'. split; [done|]. split; [done|congruence].
Qed.

Lemma reads_decoded {A} v k bs (f : bytes -> A) a :
  length bs = k -> f bs = a -> reads v (let! b := read_int k in read_ret (f b)) bs a.
Proof. intros Hk <-. eapply reads_bind_last; [apply reads_int, Hk|apply reads_ret]. Qed.

Lemma reads_u8 v n : 0 <= n < 2 ^ 8 -> reads v read_u8 (write_u8 n) n.
Proof. intros H. apply reads_decoded; [apply length_be_bytes|apply be_val_be_bytes, H]. Qed.
Lemma reads_u16 v n : 0 <= n < 2 ^ 16 -> reads v read_u16 (write_u16 n) n.
Proof. intros H. apply reads_decoded; [apply length_be_bytes|apply be_val_be_bytes, H]. Qed.
Lemma reads_u32 v n : 0 <= n < 2 ^ 32 -> reads v read_u32 (write_u32 n) n.
Proof. intros H. apply reads_decoded; [apply length_be_bytes|apply be_val_be_bytes, H]. Qed.
Lemma reads_u64 v n : 0 <= n < 2 ^ 64 -> reads v read_u64 (write_u64 n) n.
Proof. intros H. apply reads_decoded; [apply length_be_bytes|apply be_val_be_bytes, H]. Qed.

Lemma reads_items {A} v (rd : R -> res Error (A * R)) (enc : A -> bytes) (l : list A) :
  Forall (fun a => reads v rd (enc a) a) l ->
  reads v (iterating_collect rd (length l)) (concat (map enc l)) l.
Proof.
  induction 1 as [|a l Ha Hl IH]; intros r rest Hv Hr; [exists r; done|].
  cbn [map concat] in Hr. rewrite <- app_assoc in Hr.
  destruct (Ha r _ Hv Hr) as (r1 & E1 & Hr1 & Hv1).
  destruct (IH r1 _ Hv1 Hr1) as (r2 & E2 & Hr2 & Hv2).
  exists r2. cbn [length iterating_collect]. rewrite E1, E2. done.
Qed.

Lemma reads_multi {A} v (rd : R -> res Error (A * R)) (enc : A -> bytes) (l : list A) n :
  n = Z.of_nat (length l) -> n <= 1000000 -> Forall (fun a => reads v rd (enc a) a) l ->
  reads v (read_multi rd n) (concat (map enc l)) l.
Proof.
  intros -> Hn Hl. unfold read_multi. rewrite (proj2 (Z.ltb_ge _ _)), Nat2Z.id by lia.
  eapply reads_bind_last; [apply reads_items, Hl|]. rewrite Z.eqb_refl. apply reads_ret.
Qed.

(** Every value [rd] accepts was encoded by [enc]: no two encodings of one value. *)
Definition canonical {A} (v : Z) (rd : R -> res Error (A * R)) (enc : A -> bytes) : Prop :=
  forall r a r', protocol_version r = v -> are_bytes (remaining r) -> rd r = Ok (a, r') ->
  remaining r = enc a ++ remaining r' /\ protocol_version r' = v.

Lemma read_bind_inv {A B} (m : R -> res Error (A * R)) (k : A -> R -> res Error (B * R)) r b r' :
  read_bind m k r = Ok (b, r') -> exists a r1, m r = Ok (a, r1) /\ k a r1 = Ok (b, r').
Proof.
  unfold read_bind. destruct (m r) as [[a r1]| |] eqn:E1; try done. intros E2. exists a, r1. done.
Qed.

Lemma canonical_int v (k : nat) :
  canonical v (let! b := read_int k in read_ret (be_val b)) (be_bytes k).
Proof.
  intros r a r' Hv Hb H. apply read_bind_inv in H as (b & r1 & E1 & [= <- <-]).
  apply read_int_inv in E1 as (E1 & E2 & E3). rewrite E1 in Hb. apply are_bytes_app in Hb as [Hb _].
  rewrite <- E2, be_bytes_be_val by done. split; [done|congruence].
Qed.

Lemma canonical_u8 v : canonical v read_u8 write_u8.
Proof. apply canonical_int. Qed.
Lemma canonical_u64 v : canonical v read_u64 write_u64.
Proof. apply canonical_int. Qed.
End Reads.

Create HintDb ser.
#[export] Hint Resolve reads_ret reads_version reads_u8 reads_u16 reads_u32 reads_u64 : ser.

(** ** Order of hashes *)

Lemma bytes_compare_refl a : bytes_compare a a = Eq.
Proof. induction a as [|x a IH]; simpl; [done|]. rewrite Z.compare_refl. done. Qed.

Lemma bytes_compare_eq a b : bytes_compare a b = Eq -> a = b.
Proof.
  revert b; induction a as [|x a IH]; intros [|y b]; simpl; try done.
  destruct (Z.compare_spec x y) as [->| |]; try done. intros H. rewrite (IH b H). done.
Qed.

Lemma bytes_compare_trans a b c :
  bytes_compare a b = Lt -> bytes_compare b c = Lt -> bytes_compare a c = Lt.
Proof.
  revert b c; induction a as [|x a IH]; intros [|y b] [|z c]; simpl; try done.
  destruct (Z.compare_spec x y), (Z.compare_spec y z), (Z.compare_spec x z);
    subst; try done; try lia. apply IH.
Qed.

Lemma bytes_compare_antisym a b : bytes_compare b a = CompOpp (bytes_compare a b).
Proof.
  revert b; induction a as [|x a IH]; intros [|y b]; simpl; try done.
  rewrite (Z.compare_antisym x y). destruct (x ?= y); simpl; [apply IH|done|done].
Qed.

Definition bytes_lt (a b : bytes) : Prop := bytes_compare a b = Lt.

#[export] Instance bytes_lt_trans : Transitive bytes_lt.
Proof. intros a b c. apply bytes_compare_trans. Qed.

Lemma verify_sorted_hashes_iff l : verify_sorted_hashes l = Ok tt <-> StronglySorted bytes_lt l.
Proof.
  assert (Hs : verify_sorted_hashes l = Ok tt <-> Sorted bytes_lt l).
  { induction l as [|a [|b l] IH]; [split; auto|split; auto|].
    change (verify_sorted_hashes (a :: b :: l)) with
      (match bytes_compare a b with Gt => Err SortError | Eq => Err DuplicateError
       | Lt => verify_sorted_hashes (b :: l) end).
    split.
    - destruct (bytes_compare a b) eqn:E1; try done. intros H. apply IH in H.
      constructor; [done|]. constructor. exact E1.
    - intros H. inversion H as [|? ? Ht Hh]; subst. inversion Hh as [|? ? Hlt]; subst.
      unfold bytes_lt in Hlt. rewrite Hlt. apply IH, Ht. }
  rewrite Hs. split; [apply Sorted_StronglySorted; intros a b c; apply bytes_compare_trans|apply StronglySorted_Sorted].
Qed.

(** ** Properties *)

Lemma to_signed_mod w n :
  0 < w -> - 2 ^ (w - 1) <= n < 2 ^ (w - 1) -> to_signed w (n mod 2 ^ w) = n.
Proof.
  intros Hw Hn. assert (E2 : 2 ^ w = 2 * 2 ^ (w - 1)).
  { rewrite <- Z.pow_succ_r by lia. f_equal. lia. }
  unfold to_signed. destruct (Z.ltb_spec n 0).
  - replace (n mod 2 ^ w) with (n + 2 ^ w) by (apply Z.mod_unique with (-1); lia).
    rewrite (proj2 (Z.ltb_ge _ _)) by lia. lia.
  - rewrite Z.mod_small, (proj2 (Z.ltb_lt _ _)) by lia. done.
Qed.

Section Claims.
  Context {R : Type} `{!Reader R} `{!ReaderLaws R}.

(** Every integer that a writer encodes, in either byte order, is read back by every reader, which
    consumes exactly the bytes written. *)
Theorem integers_roundtrip v (n : Z) :
  (0 <= n < 2 ^ 8 -> reads (R := R) v read_u8 (write_u8 n) n) /\
  (0 <= n < 2 ^ 16 -> reads (R := R) v read_u16 (write_u16 n) n /\
    reads (R := R) v read_u16_le (write_u16_le n) n) /\
  (0 <= n < 2 ^ 32 -> reads (R := R) v read_u32 (write_u32 n) n /\
    reads (R := R) v read_u32_le (write_u32_le n) n) /\
  (- 2 ^ 31 <= n < 2 ^ 31 -> reads (R := R) v read_i32 (write_i32 n) n /\
    reads (R := R) v read_i32_le (write_i32_le n) n) /\
  (0 <= n < 2 ^ 64 -> reads (R := R) v read_u64 (write_u64 n) n /\
    reads (R := R) v read_u64_le (write_u64_le n) n) /\
  (- 2 ^ 63 <= n < 2 ^ 63 -> reads (R := R) v read_i64 (write_i64 n) n /\
    reads (R := R) v read_i64_le (write_i64_le n) n).
Proof.
  assert (Hmod : forall w, 0 <= w -> 0 <= n mod 2 ^ w < 2 ^ w)
    by (intros w Hw; apply Z.mod_pos_bound, pow2_pos, Hw).
  unfold write_i32, write_i32_le, write_i64, write_i64_le.
  split; [eauto with ser|]. repeat split; eauto with ser.
  all: try (apply reads_decoded; [apply length_le_bytes|apply le_val_le_bytes; done]).
  - apply reads_decoded; [apply length_be_bytes|]. rewrite be_val_be_bytes by (apply Hmod; lia).
    apply to_signed_mod; lia.
  - apply reads_decoded; [apply length_le_bytes|]. rewrite le_val_le_bytes by (apply Hmod; lia).
    apply to_signed_mod; lia.
  - apply reads_decoded; [apply length_be_bytes|]. rewrite be_val_be_bytes by (apply Hmod; lia).
    apply to_signed_mod; lia.
  - apply reads_decoded; [apply length_le_bytes|]. rewrite le_val_le_bytes by (apply Hmod; lia).
    apply to_signed_mod; lia.
Qed.

(** [read_multi] refuses counts over a million, fails with [CountError] when an item of the
    announced count does not parse, and otherwise returns exactly the announced number of items. *)
Theorem read_multi_outcomes {A} (rd : R -> res Error (A * R)) (count : Z) (r : R) :
  0 <= count -> (forall r, rd r <> Panic) ->
  (1000000 < count -> read_multi rd count r = Err TooLargeReadErr) /\
  (count <= 1000000 ->
    (exists l r', read_multi rd count r = Ok (l, r') /\ Z.of_nat (length l) = count) \/
    read_multi rd count r = Err CountError).
Proof.
  intros H0 Hp. unfold read_multi. split; intros Hc.
  { rewrite (proj2 (Z.ltb_lt _ _)) by done. done. }
  rewrite (proj2 (Z.ltb_ge _ _)) by done. unfold read_bind.
  assert (Hok : exists l r', iterating_collect rd (Z.to_nat count) r = Ok (l, r')).
  { generalize (Z.to_nat count) r. clear - Hp. induction n as [|n IH]; intros r; [eauto|].
    cbn [iterating_collect]. destruct (rd r) as [[a r1]| |] eqn:E1; [|eauto|destruct (Hp r E1)].
    destruct (IH r1) as (l & r2 & ->). cbn [res_bind]. eauto. }
  destruct Hok as (l & r' & ->). cbn [res_bind].
  destruct (Z.eqb_spec (Z.of_nat (length l)) count); cbn [negb]; [left; exists l, r'; done|right; done].
Qed.
End Claims.

(** [verify_sorted_and_unique] accepts exactly the collections whose hashes are strictly increasing
    in lexicographic order; in particular all hashes are different. *)
Theorem sorted_and_unique_hashes (hashes : list bytes) :
  (verify_sorted_hashes hashes = Ok tt <-> StronglySorted bytes_lt hashes) /\
  (verify_sorted_hashes hashes = Ok tt -> NoDup hashes).
Proof.
  split; [apply verify_sorted_hashes_iff|]. rewrite verify_sorted_hashes_iff.
  induction 1 as [|a l Hs IH Hl]; constructor; [|done]. intros Hin. apply list_elem_of_In in Hin.
  pose proof (proj1 (List.Forall_forall _ _) Hl a Hin) as Hlt. unfold bytes_lt in Hlt.
  rewrite bytes_compare_refl in Hlt. done.
Qed.

(** The byte counter of [StreamingReader] counts the eight bytes of a length prefix twice: after
    [read_bytes_len_prefix] it exceeds the number of bytes taken off the stream by eight. *)
Theorem streaming_prefix_counted_twice (b rest : bytes) v total :
  Z.of_nat (length b) <= 100000 -> 0 <= total < 2 ^ 63 ->
  exists r', streaming_read_bytes_len_prefix (mkStreaming total v (write_bytes b ++ rest)) = Ok (b, r') /\
    stream r' = rest /\
    total_bytes_read r' = total + Z.of_nat (length (write_bytes b)) + 8.
Proof.
  intros Hl Ht. change (2 ^ 63) with 9223372036854775808 in Ht.
  unfold streaming_read_bytes_len_prefix, streaming_read_int, streaming_read_fixed_bytes.
  unfold write_bytes, write_fixed_bytes. rewrite <- app_assoc. cbn [stream]. rewrite Nat2Z.id.
  replace (read_exact 8 (write_u64 (Z.of_nat (length b)) ++ b ++ rest))
    with (Ok (E := Error) (write_u64 (Z.of_nat (length b)), b ++ rest))
    by (symmetry; apply (read_exact_ok (write_u64 (Z.of_nat (length b))))).
  cbn [res_bind stream sversion total_bytes_read]. rewrite length_prefix by done.
  rewrite Nat2Z.id, read_exact_ok. eexists. split; [done|]. split; [done|]. cbn [total_bytes_read].
  unfold write_u64. rewrite length_app, length_be_bytes.
  rewrite (add64_small total) by lia. rewrite (add64_small (total + _)) by lia.
  rewrite add64_small by lia. lia.
Qed.

(** ** Witnesses *)

Lemma read_multi_outcomes_witness :
  (exists l r', read_multi read_u8 2 (mkBinReader [7; 8; 9] 2) = Ok (l, r') /\ Z.of_nat (length l) = 2) \/
  read_multi read_u8 2 (mkBinReader [7; 8; 9] 2) = Err CountError.
Proof.
  apply (read_multi_outcomes read_u8 2 (mkBinReader [7; 8; 9] 2)); [lia| |lia].
  intros r. unfold read_u8, read_bind, read_int, bin_reader, bin_read_int, read_exact.
  destruct (1 <=? _)%nat; done.
Defined.

Lemma streaming_prefix_counted_twice_witness :
  exists r', streaming_read_bytes_len_prefix (mkStreaming 0 2 (write_bytes [1; 2; 3])) = Ok ([1; 2; 3], r') /\
    total_bytes_read r' = 19.
Proof.
  destruct (streaming_prefix_counted_twice [1; 2; 3] [] 2 0) as (r' & E1 & _ & E3);
    [simpl; lia|lia|]. rewrite app_nil_r in E1. exists r'. split; [exact E1|exact E3].
Defined.
