(* ===== verification/Bitmap.v ===== *)
(** * Roaring bitmaps

    The store keeps sets of 32-bit positions in the [Bitmap] of the external
    [croaring] crate.  [CRoaring] lists the operations the store calls,
    [CRoaringLaws] what its documentation says of them; everything is stated
    through [bm_iter], the values in increasing order.  A finite set of integers
    discharges the laws and makes the development executable. *)

From Stdlib Require Import ZArith Lia List Bool Sorted.
From stdpp Require Import base numbers list option gmap sorting.
From S2P Require Import Prelude Bytes.

Class CRoaring (Bitmap : Type) := {
  bm_create : Bitmap;
  bm_iter : Bitmap -> list Z;
  bm_contains : Bitmap -> Z -> bool;
  bm_add : Bitmap -> Z -> Bitmap;
  bm_remove : Bitmap -> Z -> Bitmap;
  bm_remove_range_closed : Bitmap -> Z -> Z -> Bitmap;
  bm_or_inplace : Bitmap -> Bitmap -> Bitmap;
  bm_and : Bitmap -> Bitmap -> Bitmap;
  bm_flip : Bitmap -> Z -> Z -> Bitmap;
  bm_maximum : Bitmap -> option Z;
  bm_cardinality : Bitmap -> Z;
  bm_rank : Bitmap -> Z -> Z;
  bm_serialize : Bitmap -> bytes;
  bm_deserialize : bytes -> Bitmap
}.

(** [Bitmap::is_empty] and collecting an iterator into a bitmap. *)
Definition bm_is_empty {Bitmap} `{!CRoaring Bitmap} (b : Bitmap) : bool := bm_cardinality b =? 0.
Definition bm_of_list {Bitmap} `{!CRoaring Bitmap} (l : list Z) : Bitmap :=
  fold_left bm_add l bm_create.

Class CRoaringLaws (Bitmap : Type) `{!CRoaring Bitmap} := {
  bm_iter_sorted b : StronglySorted Z.lt (bm_iter b);
  bm_iter_u32 b x : x ∈ bm_iter b -> is_u32 x;
  bm_contains_iter b x : bm_contains b x = true <-> x ∈ bm_iter b;
  bm_create_iter : bm_iter bm_create = [];
  bm_add_iter b x y : is_u32 x -> y ∈ bm_iter (bm_add b x) <-> y = x \/ y ∈ bm_iter b;
  bm_remove_iter b x y : y ∈ bm_iter (bm_remove b x) <-> y <> x /\ y ∈ bm_iter b;
  bm_remove_range_iter b lo hi y :
    y ∈ bm_iter (bm_remove_range_closed b lo hi) <-> ~ (lo <= y <= hi) /\ y ∈ bm_iter b;
  bm_or_iter b c y : y ∈ bm_iter (bm_or_inplace b c) <-> y ∈ bm_iter b \/ y ∈ bm_iter c;
  bm_and_iter b c y : y ∈ bm_iter (bm_and b c) <-> y ∈ bm_iter b /\ y ∈ bm_iter c;
  bm_flip_iter b lo hi y : is_u32 y ->
    y ∈ bm_iter (bm_flip b lo hi) <->
    (lo <= y < hi /\ y ∉ bm_iter b) \/ (~ (lo <= y < hi) /\ y ∈ bm_iter b);
  bm_maximum_iter b : bm_maximum b = last (bm_iter b);
  bm_cardinality_iter b : bm_cardinality b = Z.of_nat (length (bm_iter b));
  bm_rank_iter b x :
    bm_rank b x = Z.of_nat (length (List.filter (fun y => y <=? x) (bm_iter b)));
  bm_deserialize_iter b : bm_iter (bm_deserialize (bm_serialize b)) = bm_iter b
}.

(** ** Consequences of the laws *)

Section Laws.
  Context {Bitmap : Type} `{!CRoaring Bitmap} `{!CRoaringLaws Bitmap}.
  Implicit Types (b c : Bitmap).

Lemma bm_contains_false b x : bm_contains b x = false <-> x ∉ bm_iter b.
Proof.
  rewrite <- bm_contains_iter. destruct (bm_contains b x); split; congruence || naive_solver.
Qed.

Lemma bm_contains_add b x y :
  is_u32 x -> bm_contains (bm_add b x) y = (y =? x) || bm_contains b y.
Proof.
  intros Hx. apply eq_true_iff_eq. rewrite orb_true_iff, Z.eqb_eq, !bm_contains_iter.
  apply bm_add_iter, Hx.
Qed.

Lemma bm_contains_remove b x y :
  bm_contains (bm_remove b x) y = negb (y =? x) && bm_contains b y.
Proof.
  apply eq_true_iff_eq. rewrite andb_true_iff, negb_true_iff, Z.eqb_neq, !bm_contains_iter.
  apply bm_remove_iter.
Qed.

Lemma bm_contains_create x : bm_contains bm_create x = false.
Proof. apply bm_contains_false. rewrite bm_create_iter. set_solver. Qed.

Lemma bm_of_list_fold (l : list Z) b y :
  Forall is_u32 l -> y ∈ bm_iter (fold_left bm_add l b) <-> y ∈ l \/ y ∈ bm_iter b.
Proof.
  intros Hl. revert b. induction Hl as [|x l Hx Hl IH]; intros b; simpl; [set_solver|].
  rewrite IH, bm_add_iter by done. set_solver.
Qed.

Lemma bm_of_list_iter (l : list Z) y :
  Forall is_u32 l -> y ∈ bm_iter (bm_of_list l : Bitmap) <-> y ∈ l.
Proof. intros Hl. unfold bm_of_list. rewrite bm_of_list_fold, bm_create_iter by done. set_solver. Qed.

Lemma bm_is_empty_iter b : bm_is_empty b = true <-> bm_iter b = [].
Proof.
  unfold bm_is_empty. rewrite Z.eqb_eq, bm_cardinality_iter.
  destruct (bm_iter b); simpl; split; (done || lia).
Qed.

Lemma bm_iter_nodup b : NoDup (bm_iter b).
Proof.
  pose proof (bm_iter_sorted b) as Hs. induction Hs as [|x l Hs IH Hx]; constructor; [|done].
  intros Hin. rewrite Forall_forall in Hx. specialize (Hx x Hin). lia.
Qed.
End Laws.

(** The last value of an increasing list is its largest. *)
Lemma sorted_last_max (l : list Z) x :
  StronglySorted Z.lt l -> x ∈ l -> exists y, last l = Some y /\ x <= y.
Proof.
  induction 1 as [|a l Hs IH Ha]; intros Hx; [set_solver|].
  destruct l as [|b l]; [exists a; split; [done|set_solver by lia]|].
  apply elem_of_cons in Hx as [->|Hx].
  - destruct (last_is_Some (b :: l)) as [_ [y Hy]]; [done|]. exists y. split; [exact Hy|].
    rewrite Forall_forall in Ha. assert (y ∈ b :: l) by (apply last_Some in Hy as [l' ->]; set_solver).
    specialize (Ha y H). lia.
  - destruct (IH Hx) as (y & Hy & Hle). exists y. split; [exact Hy|done].
Qed.

(** Strictly increasing lists are determined by their elements. *)
Lemma sorted_lt_unique (l l' : list Z) :
  StronglySorted Z.lt l -> StronglySorted Z.lt l' -> (forall x, x ∈ l <-> x ∈ l') -> l = l'.
Proof.
  intros H. revert l'. induction H as [|x l Hs IH Hx]; intros l' H' Hin.
  { destruct l' as [|y l']; [done|]. exfalso. apply (not_elem_of_nil y), Hin. left. }
  destruct H' as [|y l' Hs' Hy]; [exfalso; apply (not_elem_of_nil x), Hin; left|].
  rewrite Forall_forall in Hx, Hy.
  assert (x = y) as ->.
  { destruct (proj1 (elem_of_cons _ _ _) (proj1 (Hin x) ltac:(left))) as [->|Hxl]; [done|].
    destruct (proj1 (elem_of_cons _ _ _) (proj2 (Hin y) ltac:(left))) as [->|Hyl]; [done|].
    specialize (Hx y Hyl). specialize (Hy x Hxl). lia. }
  f_equal. apply IH; [done|]. intros z. specialize (Hin z). rewrite !elem_of_cons in Hin.
  split; intros Hz.
  - destruct (proj1 Hin (or_intror Hz)) as [->|]; [specialize (Hx y Hz); lia|done].
  - destruct (proj2 Hin (or_intror Hz)) as [->|]; [specialize (Hy y Hz); lia|done].
Qed.

(** Below a bound, an increasing list is a prefix of itself. *)
Lemma filter_sorted_prefix (l l' : list Z) x :
  Forall (fun y => y <= x) l -> Forall (fun y => x < y) l' ->
  List.filter (fun y => y <=? x) (l ++ l') = l.
Proof.
  intros Hl Hl'. rewrite List.filter_app.
  replace (List.filter _ l') with ([] : list Z).
  - rewrite app_nil_r. induction Hl as [|y l Hy Hl IH]; simpl; [done|].
    rewrite (proj2 (Z.leb_le _ _)), IH by done. done.
  - symmetry. induction Hl' as [|y l' Hy Hl' IH]; simpl; [done|].
    rewrite (proj2 (Z.leb_gt _ _)) by done. done.
Qed.

Lemma sorted_split (l : list Z) x :
  StronglySorted Z.lt l -> exists l1 l2, l = l1 ++ l2 /\
    Forall (fun y => y <= x) l1 /\ Forall (fun y => x < y) l2.
Proof.
  induction 1 as [|y l Hs IH Hy]; [exists [], []; done|].
  destruct (Z.leb_spec y x).
  - destruct IH as (l1 & l2 & -> & H1 & H2). exists (y :: l1), l2. split; [done|].
    split; [by constructor|done].
  - exists [], (y :: l). split; [done|]. split; [constructor|]. constructor; [done|].
    eapply Forall_impl; [exact Hy|]. simpl. lia.
Qed.

Lemma sorted_app_inv (l1 l2 : list Z) y :
  StronglySorted Z.lt (l1 ++ y :: l2) ->
  Forall (fun z => z < y) l1 /\ Forall (fun z => y < z) l2.
Proof.
  induction l1 as [|a l1 IH]; simpl; intros H; apply StronglySorted_inv in H as [Hs Ha].
  - split; [constructor|done].
  - destruct (IH Hs) as [H1 H2]. split; [|done]. constructor; [|done].
    rewrite Forall_forall in Ha. apply Ha. set_solver.
Qed.

(** ** Counting *)

Definition zsum (l : list Z) : Z := fold_right Z.add 0 l.

Lemma zsum_app l l' : zsum (l ++ l') = zsum l + zsum l'.
Proof. induction l as [|x l IH]; simpl; [done|]. rewrite IH. lia. Qed.

Lemma zsum_bound (l : list Z) k :
  0 <= k -> Forall (fun x => 0 <= x <= k) l -> 0 <= zsum l <= Z.of_nat (length l) * k.
Proof. intros Hk. induction 1 as [|x l Hx Hl IH]; simpl length; simpl zsum; lia. Qed.

Lemma sorted_length (l : list Z) n :
  0 <= n -> StronglySorted Z.lt l -> Forall (fun x => 0 <= x < n) l -> Z.of_nat (length l) <= n.
Proof.
  intros Hn Hs Hl.
  enough (Hb : forall s, Forall (fun x => s <= x < n) l -> s <= n -> Z.of_nat (length l) <= n - s)
    by (specialize (Hb 0 Hl Hn); lia).
  clear Hl. induction Hs as [|x l Hs IH Hx]; intros s Hl Hsn; simpl; [lia|].
  inversion Hl as [|? ? H1 H2]; subst. specialize (IH (x + 1)).
  enough (Z.of_nat (length l) <= n - (x + 1)) by lia. apply IH; [|lia].
  rewrite Forall_forall in *. intros y Hy. specialize (Hx y Hy). specialize (H2 y Hy). lia.
Qed.

Lemma length_filter_or {A} (p q : A -> bool) (l : list A) :
  (forall x, p x = true -> q x = true -> False) ->
  length (List.filter (fun x => p x || q x) l)
  = (length (List.filter p l) + length (List.filter q l))%nat.
Proof.
  intros Hd. induction l as [|x l IH]; simpl; [done|].
  destruct (p x) eqn:Ep, (q x) eqn:Eq; simpl; try lia. destruct (Hd x Ep Eq).
Qed.

Lemma filter_false {A} (p : A -> bool) (l : list A) :
  (forall x, x ∈ l -> p x = false) -> List.filter p l = [].
Proof.
  induction l as [|x l IH]; intros H; simpl; [done|]. rewrite H by left. apply IH. intros; apply H; by right.
Qed.

Lemma filter_true {A} (p : A -> bool) (l : list A) :
  (forall x, x ∈ l -> p x = true) -> List.filter p l = l.
Proof.
  induction l as [|x l IH]; intros H; simpl; [done|]. rewrite H by left. f_equal.
  apply IH. intros; apply H; by right.
Qed.

Lemma count_interval s n a b :
  s <= a -> a <= b -> b <= s + n ->
  Z.of_nat (length (List.filter (fun x => (a <=? x) && (x <? b)) (seqZ s n))) = b - a.
Proof.
  intros H1 H2 H3. replace (seqZ s n) with (seqZ s (a - s) ++ seqZ a (b - a) ++ seqZ b (s + n - b)).
  - rewrite !List.filter_app, filter_false, filter_true, filter_false, app_nil_r; simpl.
    + rewrite length_seqZ. lia.
    + intros x Hx%elem_of_seqZ. rewrite andb_false_iff, Z.leb_gt, Z.ltb_ge. lia.
    + intros x Hx%elem_of_seqZ. rewrite andb_true_iff, Z.leb_le, Z.ltb_lt. lia.
    + intros x Hx%elem_of_seqZ. rewrite andb_false_iff, Z.leb_gt, Z.ltb_ge. lia.
  - replace b with (a + (b - a)) at 2 by lia. rewrite <- seqZ_app by lia.
    replace a with (s + (a - s)) at 2 by lia. rewrite <- seqZ_app by lia. f_equal. lia.
Qed.

(** The sizes of disjoint intervals add up. *)
Lemma count_disjoint (a b : Z -> Z) (rs : list Z) s n :
  NoDup rs -> (forall r, r ∈ rs -> s <= a r /\ a r <= b r /\ b r <= s + n) ->
  (forall r r' x, r ∈ rs -> r' ∈ rs -> a r <= x < b r -> a r' <= x < b r' -> r = r') ->
  Z.of_nat (length (List.filter (fun x => existsb (fun r => (a r <=? x) && (x <? b r)) rs) (seqZ s n)))
  = zsum (map (fun r => b r - a r) rs).
Proof.
  induction 1 as [|r rs Hr Hn IH]; intros Hb Hd; simpl.
  { rewrite filter_false by done. done. }
  rewrite (length_filter_or (fun x => (a r <=? x) && (x <? b r))).
  - rewrite Nat2Z.inj_add, IH; [|intros; apply Hb; by right|intros; eapply Hd; [by right|by right|done|done]].
    destruct (Hb r ltac:(left)) as (? & ? & ?). rewrite count_interval by done. done.
  - intros x Hp Hq. apply existsb_exists in Hq as (r' & Hin & Hq). apply list_elem_of_In in Hin.
    rewrite andb_true_iff, Z.leb_le, Z.ltb_lt in Hp, Hq.
    assert (r = r') as <- by (eapply Hd; [left|by right|done|done]). done.
Qed.

(** ** A finite set as a bitmap *)

Definition u32b (x : Z) : bool := (0 <=? x) && (x <? U32).

Lemma u32b_spec x : u32b x = true <-> is_u32 x.
Proof. unfold u32b, is_u32. rewrite andb_true_iff, Z.leb_le, Z.ltb_lt. done. Qed.

Definition set_iter (s : gset Z) : list Z :=
  merge_sort Z.le (List.filter u32b (elements s)).

(** Four bytes per value, in the order of iteration. *)
Fixpoint set_deserialize (bs : bytes) : gset Z :=
  match bs with
  | b0 :: b1 :: b2 :: b3 :: bs => {[ le_val [b0; b1; b2; b3] ]} ∪ set_deserialize bs
  | _ => ∅
  end.

#[export] Instance set_bitmap : CRoaring (gset Z) := {
  bm_create := ∅;
  bm_iter := set_iter;
  bm_contains s x := u32b x && bool_decide (x ∈ s);
  bm_add s x := {[ x ]} ∪ s;
  bm_remove s x := s ∖ {[ x ]};
  bm_remove_range_closed s lo hi := filter (fun y => ~ (lo <= y <= hi)) s;
  bm_or_inplace s t := s ∪ t;
  bm_and s t := s ∩ t;
  bm_flip s lo hi := (list_to_set (seqZ lo (hi - lo)) ∖ s) ∪ filter (fun y => ~ (lo <= y < hi)) s;
  bm_maximum s := last (set_iter s);
  bm_cardinality s := Z.of_nat (length (set_iter s));
  bm_rank s x := Z.of_nat (length (List.filter (fun y => y <=? x) (set_iter s)));
  bm_serialize s := concat (map (le_bytes 4) (set_iter s));
  bm_deserialize := set_deserialize
}.

Lemma elem_of_set_iter s x : x ∈ set_iter s <-> is_u32 x /\ x ∈ s.
Proof.
  unfold set_iter. rewrite (merge_sort_Permutation Z.le), list_elem_of_In, filter_In, <- list_elem_of_In.
  rewrite elem_of_elements, u32b_spec. tauto.
Qed.

Lemma set_iter_sorted s : StronglySorted Z.lt (set_iter s).
Proof.
  assert (Hn : NoDup (set_iter s)).
  { unfold set_iter. rewrite (merge_sort_Permutation Z.le).
    apply NoDup_ListNoDup, List.NoDup_filter, NoDup_ListNoDup, NoDup_elements. }
  assert (Hs : StronglySorted Z.le (set_iter s)) by (apply (StronglySorted_merge_sort Z.le); apply _).
  induction Hs as [|x l Hs IH Hx]; constructor.
  - apply IH. inversion Hn; done.
  - apply NoDup_cons in Hn as [Hn _]. rewrite Forall_forall in Hx |- *. intros y Hy.
    specialize (Hx y Hy). assert (x <> y) by (intros ->; done). lia.
Qed.

Lemma set_deserialize_spec (l : list Z) x :
  Forall is_u32 l -> x ∈ set_deserialize (concat (map (le_bytes 4) l)) <-> x ∈ l.
Proof.
  induction 1 as [|y l Hy Hl IH]; [simpl; set_solver|].
  change (set_deserialize (concat (map (le_bytes 4) (y :: l)))) with
    ({[ le_val (le_bytes 4 y) ]} ∪ set_deserialize (concat (map (le_bytes 4) l))).
  rewrite le_val_le_bytes by exact Hy. rewrite elem_of_union, IH. set_solver.
Qed.

#[export] Instance set_bitmap_laws : CRoaringLaws (gset Z).
Proof.
  constructor; cbn [bm_create bm_iter bm_contains bm_add bm_remove bm_remove_range_closed
    bm_or_inplace bm_and bm_flip bm_maximum bm_cardinality bm_rank
    bm_serialize bm_deserialize set_bitmap]; intros;
    rewrite ?elem_of_set_iter in *; rewrite ?elem_of_union, ?elem_of_difference,
    ?elem_of_intersection, ?elem_of_filter, ?elem_of_singleton; try tauto.
  - apply set_iter_sorted.
  - rewrite andb_true_iff, u32b_spec, bool_decide_eq_true. done.
  - split; [tauto|intros [->|?]; tauto].
  - rewrite elem_of_list_to_set, elem_of_seqZ, Zplus_minus. tauto.
  - apply sorted_lt_unique; [apply set_iter_sorted..|]. intros x.
    rewrite elem_of_set_iter, set_deserialize_spec, elem_of_set_iter; [tauto|].
    apply Forall_forall. intros y Hy. apply elem_of_set_iter in Hy. tauto.
Qed.
