(* ===== verification/PruneList.v ===== *)
(** * The prune list and the leaf set of the file backend

    Models [store/src/prune_list.rs] ([PruneList]) and [store/src/leaf_set.rs]
    ([LeafSet]).  A prune list is specified by the set of leaves it has pruned:
    a node is pruned when all leaves below it are, the bitmap holds the roots of
    the maximal pruned subtrees, and the shift caches count the nodes and leaves
    that compaction takes out of the files. *)

From Stdlib Require Import ZArith Lia List Bool Sorted.
From stdpp Require Import base numbers list option gmap.
From S2P Require Import Prelude MmrIndex Bytes Bitmap.

(** ** Definitions *)

(** Indexing a vector: out of range panics. *)
Definition index_or_panic {E A} (l : list A) (i : nat) : res E A :=
  match l !! i with Some a => Ok a | None => Panic end.

(** [Iterator::filter] with a predicate that may panic. *)
Fixpoint filter_res {E A} (f : A -> res E bool) (l : list A) : res E (list A) :=
  match l with
  | [] => Ok []
  | a :: l =>
    let? keep := f a in
    let? rest := filter_res f l in
    Ok (if keep : bool then a :: rest else rest)
  end.

(** A file on disk: [None] when it does not exist. *)
Definition file := option bytes.

Record PruneList (Bitmap : Type) := mkPruneList {
  pl_path : option file;
  pl_bitmap : Bitmap;
  pruned_cache : Bitmap;
  shift_cache : list Z;
  leaf_shift_cache : list Z
}.
Arguments mkPruneList {Bitmap}.
Arguments pl_path {Bitmap}.
Arguments pl_bitmap {Bitmap}.
Arguments pruned_cache {Bitmap}.
Arguments shift_cache {Bitmap}.
Arguments leaf_shift_cache {Bitmap}.

Record LeafSet (Bitmap : Type) := mkLeafSet {
  ls_path : file;
  ls_bitmap : Bitmap;
  ls_bitmap_bak : Bitmap
}.
Arguments mkLeafSet {Bitmap}.
Arguments ls_path {Bitmap}.
Arguments ls_bitmap {Bitmap}.
Arguments ls_bitmap_bak {Bitmap}.

Section Defs.
  Context {Bitmap : Type} `{!CRoaring Bitmap} {E : Type}.
  Implicit Types (pl : PruneList Bitmap) (ls : LeafSet Bitmap).

(** [PruneList::new] *)
Definition pl_new (path : option file) (bitmap : Bitmap) : PruneList Bitmap :=
  mkPruneList path (bm_remove bitmap 0) bm_create [] [].

(** [PruneList::empty] *)
Definition pl_empty : PruneList Bitmap := pl_new None bm_create.

(** [PruneList::is_pruned_root] *)
Definition pl_is_pruned_root pl (pos : Z) : res E bool :=
  if negb (0 <? pos) then Panic else Ok (bm_contains (pl_bitmap pl) (wrap32 pos)).

(** [PruneList::is_pruned] *)
Definition pl_is_pruned pl (pos : Z) : res E bool :=
  if negb (0 <? pos) then Panic else Ok (bm_contains (pruned_cache pl) (wrap32 pos)).

(** [PruneList::get_shift] *)
Definition get_shift pl (pos : Z) : res E Z :=
  if bm_is_empty (pl_bitmap pl) then Ok 0
  else
    let idx := bm_rank (pl_bitmap pl) (wrap32 pos) in
    if idx =? 0 then Ok 0
    else
      let len := Z.of_nat (length (shift_cache pl)) in
      if len <? idx then index_or_panic (shift_cache pl) (Z.to_nat (saturating_sub len 1))
      else index_or_panic (shift_cache pl) (Z.to_nat (saturating_sub idx 1)).

(** [PruneList::get_leaf_shift] *)
Definition get_leaf_shift pl (pos : Z) : res E Z :=
  if bm_is_empty (pl_bitmap pl) then Ok 0
  else
    let idx := bm_rank (pl_bitmap pl) (wrap32 pos) in
    if idx =? 0 then Ok 0
    else
      let len := Z.of_nat (length (leaf_shift_cache pl)) in
      if len <? idx then index_or_panic (leaf_shift_cache pl) (Z.to_nat (saturating_sub len 1))
      else index_or_panic (leaf_shift_cache pl) (Z.to_nat (saturating_sub idx 1)).

(** [PruneList::get_total_shift], [PruneList::get_total_leaf_shift] *)
Definition get_total_shift pl : res E Z :=
  get_shift pl (default 0 (bm_maximum (pl_bitmap pl))).
Definition get_total_leaf_shift pl : res E Z :=
  get_leaf_shift pl (default 0 (bm_maximum (pl_bitmap pl))).

Definition set_shift_cache pl (c : list Z) : PruneList Bitmap :=
  mkPruneList (pl_path pl) (pl_bitmap pl) (pruned_cache pl) c (leaf_shift_cache pl).
Definition set_leaf_shift_cache pl (c : list Z) : PruneList Bitmap :=
  mkPruneList (pl_path pl) (pl_bitmap pl) (pruned_cache pl) (shift_cache pl) c.
Definition set_pruned_cache pl (c : Bitmap) : PruneList Bitmap :=
  mkPruneList (pl_path pl) (pl_bitmap pl) c (shift_cache pl) (leaf_shift_cache pl).
Definition set_bitmap_of pl (b : Bitmap) : PruneList Bitmap :=
  mkPruneList (pl_path pl) b (pruned_cache pl) (shift_cache pl) (leaf_shift_cache pl).

(** The loop of [PruneList::build_shift_cache]. *)
Fixpoint shift_loop (poss : list Z) pl : res E (PruneList Bitmap) :=
  match poss with
  | [] => Ok pl
  | pos :: poss =>
    let? prev_shift := get_shift pl (saturating_sub pos 1) in
    let? root := pl_is_pruned_root pl pos in
    let curr_shift :=
      if root : bool then
        let height := bintree_postorder_height pos in
        (2 * ((1 << height) - 1))%u64
      else 0 in
    shift_loop poss (set_shift_cache pl (shift_cache pl ++ [(prev_shift + curr_shift)%u64]))
  end.

(** [PruneList::build_shift_cache] *)
Definition build_shift_cache pl : res E (PruneList Bitmap) :=
  if bm_is_empty (pl_bitmap pl) then Ok pl
  else shift_loop (List.filter (fun x => 0 <? x) (bm_iter (pl_bitmap pl))) (set_shift_cache pl []).

(** The loop of [PruneList::build_leaf_shift_cache]. *)
Fixpoint leaf_shift_loop (poss : list Z) pl : res E (PruneList Bitmap) :=
  match poss with
  | [] => Ok pl
  | pos :: poss =>
    let? prev_shift := get_leaf_shift pl (saturating_sub pos 1) in
    let? root := pl_is_pruned_root pl pos in
    let curr_shift :=
      if root : bool then
        let height := bintree_postorder_height pos in
        if height =? 0 then 0 else (1 << height)%u64
      else 0 in
    leaf_shift_loop poss
      (set_leaf_shift_cache pl (leaf_shift_cache pl ++ [(prev_shift + curr_shift)%u64]))
  end.

(** [PruneList::build_leaf_shift_cache] *)
Definition build_leaf_shift_cache pl : res E (PruneList Bitmap) :=
  if bm_is_empty (pl_bitmap pl) then Ok pl
  else leaf_shift_loop (List.filter (fun x => 0 <? x) (bm_iter (pl_bitmap pl)))
         (set_leaf_shift_cache pl []).

(** [PruneList::build_pruned_cache] *)
Definition build_pruned_cache pl : PruneList Bitmap :=
  if bm_is_empty (pl_bitmap pl) then pl
  else
    let maximum := default 0 (bm_maximum (pl_bitmap pl)) in
    set_pruned_cache pl
      (fold_left (fun cache pos =>
         let pruned := existsb (fun x => bm_contains (pl_bitmap pl) (wrap32 x)) (path pos maximum) in
         if pruned then bm_add cache (wrap32 pos) else cache)
       (seqZ 1 (wrap32 (maximum + 1) - 1)) bm_create).

(** [PruneList::init_caches] *)
Definition init_caches pl : res E (PruneList Bitmap) :=
  let? pl := build_shift_cache pl in
  let? pl := build_leaf_shift_cache pl in
  Ok (build_pruned_cache pl).

(** [PruneList::open], on the content of the file at the path *)
Definition pl_open (f : file) : res E (PruneList Bitmap) :=
  let bitmap := match f with Some b => bm_deserialize b | None => bm_create end in
  init_caches (pl_new (Some f) bitmap).

(** [PruneList::flush]; [run_optimize] changes the representation only *)
Definition pl_flush pl : res E (PruneList Bitmap) :=
  let path := match pl_path pl with
              | Some _ => Some (Some (bm_serialize (pl_bitmap pl)))
              | None => None
              end in
  init_caches (mkPruneList path (pl_bitmap pl) (pruned_cache pl) (shift_cache pl) (leaf_shift_cache pl)).

(** The loop of [PruneList::add]. *)
Fixpoint pl_add_loop (fuel : nat) pl (current : Z) : res E (PruneList Bitmap) :=
  match fuel with
  | O => Panic
  | S fuel =>
    let '(parent, sibling) := family current in
    if bm_contains (pl_bitmap pl) (wrap32 sibling) || bm_contains (pruned_cache pl) (wrap32 sibling)
    then
      let pl := set_pruned_cache pl (bm_add (pruned_cache pl) (wrap32 current)) in
      let pl := set_bitmap_of pl (bm_remove (pl_bitmap pl) (wrap32 sibling)) in
      pl_add_loop fuel pl parent
    else
      let pl := set_pruned_cache pl (bm_add (pruned_cache pl) (wrap32 current)) in
      Ok (set_bitmap_of pl (bm_add (pl_bitmap pl) (wrap32 current)))
  end.

(** [PruneList::add] *)
Definition pl_add pl (pos : Z) : res E (PruneList Bitmap) :=
  if negb (0 <? pos) then Panic else pl_add_loop 64 pl pos.

(** [PruneList::len], [is_empty], [to_vec] *)
Definition pl_len pl : Z := bm_cardinality (pl_bitmap pl).
Definition pl_is_empty pl : bool := bm_is_empty (pl_bitmap pl).
Definition pl_to_vec pl : list Z := bm_iter (pl_bitmap pl).

(** ** The leaf set *)

(** [LeafSet::open] *)
Definition ls_open (f : file) : LeafSet Bitmap :=
  let bitmap := match f with Some b => bm_deserialize b | None => bm_create end in
  mkLeafSet f bitmap bitmap.

(** [LeafSet::flush] *)
Definition ls_flush ls : LeafSet Bitmap :=
  mkLeafSet (Some (bm_serialize (ls_bitmap ls))) (ls_bitmap ls) (ls_bitmap ls).

(** [LeafSet::copy_snapshot]: the file at [path] after the call *)
Definition copy_snapshot (path cp_path : file) : file :=
  match cp_path with
  | None => path
  | Some b => ls_path (ls_flush (mkLeafSet path (bm_deserialize b) (bm_deserialize b)))
  end.

(** [LeafSet::snapshot]: the content of the snapshot file *)
Definition ls_snapshot ls : file := Some (bm_serialize (ls_bitmap ls)).

(** [LeafSet::unpruned_pre_cutoff] *)
Definition unpruned_pre_cutoff (cutoff_pos : Z) pl : res E Bitmap :=
  let? poss := filter_res (fun x =>
      if is_leaf x then let? p := pl_is_pruned pl x in Ok (negb p) else Ok false)
    (seqZ 1 cutoff_pos) in
  Ok (bm_of_list (map wrap32 poss)).

(** Drop the positions after the cutoff, then add back the removed ones: the first two steps of
    [LeafSet::rewind] and [removed_pre_cutoff]. *)
Definition rewound (bitmap : Bitmap) (cutoff_pos : Z) (rewind_rm_pos : Bitmap) : Bitmap :=
  let bitmap :=
    bm_remove_range_closed bitmap (wrap32 (cutoff_pos + 1)%u64) (default 0 (bm_maximum bitmap)) in
  bm_or_inplace bitmap rewind_rm_pos.

(** [LeafSet::removed_pre_cutoff] *)
Definition removed_pre_cutoff ls (cutoff_pos : Z) (rewind_rm_pos : Bitmap) pl : res E Bitmap :=
  let? unpruned := unpruned_pre_cutoff cutoff_pos pl in
  Ok (bm_and (bm_flip (rewound (ls_bitmap ls) cutoff_pos rewind_rm_pos) 1 (cutoff_pos + 1)%u64)
        unpruned).

(** [LeafSet::rewind] *)
Definition ls_rewind ls (cutoff_pos : Z) (rewind_rm_pos : Bitmap) : LeafSet Bitmap :=
  mkLeafSet (ls_path ls) (rewound (ls_bitmap ls) cutoff_pos rewind_rm_pos) (ls_bitmap_bak ls).

(** [LeafSet::add], [remove], [discard], [includes], [len], [is_empty], [iter] *)
Definition ls_add ls (pos : Z) : LeafSet Bitmap :=
  mkLeafSet (ls_path ls) (bm_add (ls_bitmap ls) (wrap32 pos)) (ls_bitmap_bak ls).
Definition ls_remove ls (pos : Z) : LeafSet Bitmap :=
  mkLeafSet (ls_path ls) (bm_remove (ls_bitmap ls) (wrap32 pos)) (ls_bitmap_bak ls).
Definition ls_discard ls : LeafSet Bitmap :=
  mkLeafSet (ls_path ls) (ls_bitmap_bak ls) (ls_bitmap_bak ls).
Definition ls_includes ls (pos : Z) : bool := bm_contains (ls_bitmap ls) (wrap32 pos).
Definition ls_len ls : Z := bm_cardinality (ls_bitmap ls).
Definition ls_is_empty ls : bool := ls_len ls =? 0.
Definition ls_iter ls : list Z := bm_iter (ls_bitmap ls).
End Defs.

(** ** Subtrees as intervals of leaves *)

(** The leaves below the node [(n, h)] are those with an index in [(n - 2^h, n]]. *)
Definition under (i n h : Z) : Prop := n - 2 ^ h < i <= n.
Definition sub_node (m k n h : Z) : Prop := n - 2 ^ h <= m - 2 ^ k /\ m <= n.

(** All leaves below the node are in [L]. *)
Definition full (L : gset Z) (n h : Z) : Prop := forall i, under i n h -> i ∈ L.

(** The node is the root of a maximal full subtree. *)
Definition full_root (L : gset Z) (n h : Z) : Prop :=
  full L n h /\ ~ full L (parent_node n h).1 (parent_node n h).2.

#[export] Instance full_dec L n h : Decision (full L n h).
Proof.
  destruct (decide (Forall (fun i => i ∈ L) (seqZ (n - 2 ^ h + 1) (2 ^ h)))) as [Hd|Hd]; [left|right].
  - intros i Hi. pose proof Hd as Hf. rewrite Forall_forall in Hf. apply Hf, elem_of_seqZ.
    unfold under in Hi. lia.
  - intros Hf. apply Hd. apply Forall_forall. intros i Hi%elem_of_seqZ. apply Hf. unfold under. lia.
Defined.

Lemma under_self n h : is_node n h -> under n n h.
Proof. intros [_ Hh]. pose proof (pow2_pos h ltac:(lia)). unfold under. lia. Qed.

(** The number of leaves up to the last leaf of a node of height [h] is a multiple of [2^h]. *)
Lemma node_mod n h : is_node n h -> (n + 1) mod 2 ^ h = 0.
Proof.
  intros [Hn Hh]. pose proof (pow2_pos h ltac:(lia)).
  assert (E : n mod 2 ^ h = 2 ^ h - 1).
  { rewrite <- Z.land_ones by lia. replace (2 ^ h - 1) with (Z.ones h) by (rewrite Z.ones_equiv; lia).
    apply Z.bits_inj'. intros i Hi. rewrite Z.land_spec. destruct (Z.ltb_spec i h).
    - rewrite Z.ones_spec_low, testbit_below_trailing_ones by lia. done.
    - rewrite Z.ones_spec_high by lia. apply andb_false_r. }
  replace (n + 1) with (n - (2 ^ h - 1) + 1 * 2 ^ h) by lia.
  rewrite Z.mod_add by lia. rewrite <- E. rewrite Zminus_mod_idemp_r, Z.sub_diag. apply Z.mod_0_l. lia.
Qed.

(** Two subtrees that share a leaf are nested. *)
Lemma nodes_nest i m k n h :
  is_node m k -> is_node n h -> k <= h -> under i m k -> under i n h -> sub_node m k n h.
Proof.
  intros Hm Hn Hkh Hum Hun. pose proof (node_mod m k Hm) as Em. pose proof (node_mod n h Hn) as En.
  destruct Hm as [_ Hk], Hn as [_ Hh]. pose proof (pow2_pos k ltac:(lia)).
  assert (E : 2 ^ h = 2 ^ (h - k) * 2 ^ k) by (rewrite <- Z.pow_add_r by lia; f_equal; lia).
  pose proof (pow2_pos (h - k) ltac:(lia)).
  apply Z.mod_divide in Em as [a Ea]; [|lia]. apply Z.mod_divide in En as [b Eb]; [|lia].
  rewrite E in *. set (w := 2 ^ k) in *. set (d := 2 ^ (h - k)) in *. set (c := b * d).
  assert (Ec : n + 1 = c * w) by (unfold c; lia). unfold under in *. unfold sub_node.
  assert (a - 1 < c) by (apply (Z.mul_lt_mono_pos_r w); lia).
  assert (c - d < a) by (apply (Z.mul_lt_mono_pos_r w); lia).
  assert (a * w <= c * w) by (apply Z.mul_le_mono_nonneg_r; lia).
  assert ((c - d) * w <= (a - 1) * w) by (apply Z.mul_le_mono_nonneg_r; lia). lia.
Qed.

Lemma same_height_same_node i m n h :
  is_node m h -> is_node n h -> under i m h -> under i n h -> m = n.
Proof.
  intros Hm Hn H1 H2. pose proof (nodes_nest i m h n h Hm Hn ltac:(lia) H1 H2) as [_ ?].
  pose proof (nodes_nest i n h m h Hn Hm ltac:(lia) H2 H1) as [_ ?]. lia.
Qed.

Lemma sub_under i m k n h : sub_node m k n h -> under i m k -> under i n h.
Proof. unfold sub_node, under. lia. Qed.

Lemma full_sub L m k n h : sub_node m k n h -> full L n h -> full L m k.
Proof. intros Hs Hf i Hi. eapply Hf, sub_under; done. Qed.

Lemma full_mono L L' n h : L ⊆ L' -> full L n h -> full L' n h.
Proof. intros Hs Hf i Hi. apply Hs, Hf, Hi. Qed.

(** The leaves of a parent are those of its two children. *)
Lemma under_parent i n h :
  is_node n h ->
  under i (parent_node n h).1 (parent_node n h).2 <->
  under i n h \/ under i (sibling_node n h).1 (sibling_node n h).2.
Proof.
  intros [Hn Hh]. pose proof (pow2_pos h ltac:(lia)). unfold under, parent_node, sibling_node.
  destruct (Z.testbit n h); cbn [fst snd]; rewrite Z.pow_add_r by lia; change (2 ^ 1) with 2; lia.
Qed.

Lemma sibling_disjoint i n h :
  is_node n h -> under i n h -> ~ under i (sibling_node n h).1 (sibling_node n h).2.
Proof.
  intros [Hn Hh]. pose proof (pow2_pos h ltac:(lia)). unfold under, sibling_node.
  destruct (Z.testbit n h); cbn [fst snd]; lia.
Qed.

Lemma full_parent L n h :
  is_node n h ->
  full L (parent_node n h).1 (parent_node n h).2 <->
  full L n h /\ full L (sibling_node n h).1 (sibling_node n h).2.
Proof.
  intros Hn. unfold full. split.
  - intros Hf. split; intros i Hi; apply Hf, under_parent; auto.
  - intros [H1 H2] i Hi. apply under_parent in Hi as [Hi|Hi]; auto.
Qed.

Lemma sub_refl n h : sub_node n h n h.
Proof. unfold sub_node. lia. Qed.

Lemma sub_parent n h : is_node n h -> sub_node n h (parent_node n h).1 (parent_node n h).2.
Proof.
  intros [Hn Hh]. pose proof (pow2_pos h ltac:(lia)). unfold sub_node, parent_node.
  destruct (Z.testbit n h); cbn [fst snd]; rewrite Z.pow_add_r by lia; change (2 ^ 1) with 2; lia.
Qed.

Lemma sub_sibling_parent n h :
  is_node n h ->
  sub_node (sibling_node n h).1 (sibling_node n h).2 (parent_node n h).1 (parent_node n h).2.
Proof.
  intros Hn. pose proof (sub_parent _ _ (sibling_is_node n h Hn)) as H.
  rewrite (proj1 (family_sibling_node n h Hn)) in H. exact H.
Qed.

Lemma sub_trans m k n h p q : sub_node m k n h -> sub_node n h p q -> sub_node m k p q.
Proof. unfold sub_node. lia. Qed.

Lemma sub_height m k n h : is_node m k -> is_node n h -> sub_node m k n h -> k <= h.
Proof.
  intros [_ Hk] [_ Hh] [H1 H2]. destruct (Z.leb_spec k h) as [|Hlt]; [done|].
  assert (2 ^ h < 2 ^ k) by (apply Z.pow_lt_mono_r; lia). lia.
Qed.

(** A strictly larger subtree contains the parent. *)
Lemma sub_strict m k n h :
  is_node m k -> is_node n h -> sub_node m k n h -> k < h ->
  sub_node (parent_node m k).1 (parent_node m k).2 n h.
Proof.
  intros Hm Hn Hs Hk. apply (nodes_nest m); [by apply parent_is_node|done|rewrite parent_height; lia| |].
  - apply under_parent; [done|]. left. by apply under_self.
  - eapply sub_under; [done|by apply under_self].
Qed.

Lemma sub_same_height m n h : is_node m h -> is_node n h -> sub_node m h n h -> m = n.
Proof. intros. unfold sub_node in *. lia. Qed.

(** ** Sets of leaves whose positions fit 32 bits *)

Definition small_set (L : gset Z) : Prop := forall i, i ∈ L -> 0 <= i < 2 ^ 30.

Lemma mmr_size_2_31 : mmr_size (2 ^ 31) = 2 ^ 32 - 1.
Proof. vm_compute. reflexivity. Qed.

Lemma fits_u32 n h : is_node n h -> n < 2 ^ 31 ->
  1 <= node_pos n h < U32 /\ small_leaves n /\ wrap32 (node_pos n h) = node_pos n h.
Proof.
  intros Hn Hlt. assert (Hs : small_leaves n) by (destruct Hn; split; [lia|]; change (2 ^ 61) with 2305843009213693952; change (2 ^ 31) with 2147483648 in Hlt; lia).
  pose proof (node_pos_bounds n h Hn Hs). destruct Hn as [Hn Hh].
  pose proof (mmr_size_strict n (2 ^ 31) ltac:(lia)) as Hm. rewrite mmr_size_2_31 in Hm.
  change (2 ^ 32) with U32 in Hm.
  assert (Hb : 1 <= node_pos n h < U32) by (unfold node_pos in *; lia).
  split; [done|]. split; [done|]. unfold wrap32. apply Z.mod_small. lia.
Qed.

Lemma u32_fits x : 1 <= x < U32 -> exists n h, is_node n h /\ n < 2 ^ 31 /\ x = node_pos n h.
Proof.
  intros Hx. destruct (pos_node x) as (n & h & Hn & _ & ->);
    [change (2 ^ 61) with 2305843009213693952; lia|].
  exists n, h. split; [done|]. split; [|done].
  destruct (Z.ltb_spec n (2 ^ 31)) as [|Hge]; [done|].
  pose proof (mmr_size_mono (2 ^ 31) n ltac:(lia)) as Hm. rewrite mmr_size_2_31 in Hm.
  destruct Hn. unfold node_pos in Hx. change (2 ^ 32) with U32 in Hm. lia.
Qed.

Lemma full_bound L n h : small_set L -> is_node n h -> full L n h -> 0 <= n < 2 ^ 30.
Proof. intros Hs Hn Hf. apply Hs, Hf, under_self, Hn. Qed.

Lemma full_height L n h : small_set L -> is_node n h -> full L n h -> 0 <= h <= 30.
Proof.
  intros Hs Hn Hf. pose proof (full_bound L n h Hs Hn Hf). pose proof (pow2_node n h Hn).
  split; [destruct Hn; lia|]. apply (Z.pow_le_mono_r_iff 2); lia.
Qed.

Lemma sibling_bound n h : is_node n h -> 0 <= n < 2 ^ 30 -> 0 <= (sibling_node n h).1 < 2 ^ 31.
Proof.
  intros Hn Hb. pose proof (pow2_node n h Hn). pose proof (sibling_is_node n h Hn) as [? _].
  split; [done|]. change (2 ^ 31) with (2 * 2 ^ 30). pose proof (pow2_pos h ltac:(destruct Hn; lia)).
  unfold sibling_node in *. destruct (Z.testbit n h); cbn [fst] in *; lia.
Qed.

Lemma node_pos_inj n h m k : is_node n h -> is_node m k -> node_pos n h = node_pos m k -> n = m /\ h = k.
Proof. intros Hn Hm E. apply node_unique; [done..|]. unfold node_pos in E. lia. Qed.

Lemma node_pos_eqb n h m k :
  is_node n h -> is_node m k -> (node_pos n h =? node_pos m k) = true <-> n = m /\ h = k.
Proof.
  intros Hn Hm. rewrite Z.eqb_eq. split; [by apply node_pos_inj|]. intros [-> ->]. done.
Qed.

(** ** A prune list represents a set of pruned leaves *)

Section Spec.
  Context {Bitmap : Type} `{!CRoaring Bitmap} `{!CRoaringLaws Bitmap} {E : Type}.
  Implicit Types (pl : PruneList Bitmap) (b : Bitmap) (L : gset Z).

(** The bitmap holds the roots of the maximal subtrees all of whose leaves are in [L]. *)
Definition holds_roots b L : Prop :=
  bm_contains b 0 = false /\
  forall n h, is_node n h -> n < 2 ^ 31 -> bm_contains b (node_pos n h) = true <-> full_root L n h.

(** The bitmap holds every node all of whose leaves are in [L]. *)
Definition holds_full b L : Prop :=
  bm_contains b 0 = false /\
  forall n h, is_node n h -> n < 2 ^ 31 -> bm_contains b (node_pos n h) = true <-> full L n h.

Definition pl_rep pl L : Prop :=
  small_set L /\ holds_roots (pl_bitmap pl) L /\ holds_full (pruned_cache pl) L.

(** State of the loop of [add] for the leaf [i] when it has climbed to [(n, h)]. *)
Definition add_state pl L (i n h : Z) : Prop :=
  bm_contains (pl_bitmap pl) 0 = false /\ bm_contains (pruned_cache pl) 0 = false /\
  (forall m k, is_node m k -> m < 2 ^ 31 ->
    bm_contains (pl_bitmap pl) (node_pos m k) = true <->
    full_root L m k /\ ~ (sub_node m k n h /\ k < h)) /\
  (forall m k, is_node m k -> m < 2 ^ 31 ->
    bm_contains (pruned_cache pl) (node_pos m k) = true <->
    full L m k \/ (under i m k /\ k < h)).

Lemma full_insert_split L i n h : full ({[i]} ∪ L) n h -> ~ full L n h -> under i n h.
Proof.
  intros Hf Hn. destruct (decide (n - 2 ^ h < i <= n)) as [|Hu]; [done|]. destruct Hn.
  intros j Hj. specialize (Hf j Hj). apply elem_of_union in Hf as [->%elem_of_singleton|]; done.
Qed.

Lemma full_insert_out L i n h : ~ under i n h -> full ({[i]} ∪ L) n h <-> full L n h.
Proof.
  intros Hu. split; [|apply full_mono; set_solver].
  intros Hf. destruct (decide (full L n h)) as [|Hn]; [done|].
  destruct Hu. by apply (full_insert_split L).
Qed.

(** Above the point where [add] stops, no node over [i] is full. *)
Lemma stop_above L i n h m k :
  is_node n h -> is_node m k -> under i n h -> under i m k -> h < k ->
  ~ full L (sibling_node n h).1 (sibling_node n h).2 -> ~ full ({[i]} ∪ L) m k.
Proof.
  intros Hn Hm Hi Hi' Hlt Hs Hf. apply Hs.
  apply (full_insert_out L i); [by apply sibling_disjoint|].
  eapply full_sub; [|exact Hf]. eapply sub_trans; [by apply sub_sibling_parent|].
  apply sub_strict; [done..| |done]. apply (nodes_nest i); [done..|lia|done|done].
Qed.

Lemma add_stop_roots L i n h m k :
  is_node n h -> is_node m k -> under i n h -> full ({[i]} ∪ L) n h ->
  ~ full L (sibling_node n h).1 (sibling_node n h).2 ->
  full_root ({[i]} ∪ L) m k <->
  (m = n /\ k = h) \/ (full_root L m k /\ ~ (sub_node m k n h /\ k < h)).
Proof.
  intros Hn Hm Hi Hf Hs. pose proof (parent_is_node m k Hm) as Hp. split.
  - intros [Hfm Hpm]. destruct (decide (m = n /\ k = h)) as [|Hne]; [by left|]. right.
    assert (Hsb : ~ (sub_node m k n h /\ k < h)).
    { intros [Hsub Hk]. apply Hpm. eapply full_sub; [|exact Hf]. by apply sub_strict. }
    split; [|done]. split.
    2: { intros Hc. apply Hpm. eapply full_mono; [|exact Hc]. set_solver. }
    destruct (decide (full L m k)) as [|Hnf]; [done|].
    pose proof (full_insert_split L i m k Hfm Hnf) as Hu. destruct Hne.
    destruct (Z.lt_trichotomy k h) as [Hk|[->|Hk]].
    + destruct Hsb. split; [|done]. apply (nodes_nest i); (done || lia).
    + split; [|done]. by apply (same_height_same_node i m n h).
    + destruct (stop_above L i n h m k Hn Hm Hi Hu Hk Hs). done.
  - intros [[-> ->]|[[Hfm Hpm] Hsb]].
    + split; [done|]. rewrite full_parent by done. intros [_ Hc]. apply Hs.
      apply (full_insert_out L i); [by apply sibling_disjoint|done].
    + split; [eapply full_mono; [|exact Hfm]; set_solver|]. intros Hc.
      pose proof (full_insert_split L i _ _ Hc Hpm) as Hu. rewrite parent_height in *.
      destruct (Z.leb_spec (k + 1) h) as [Hk|Hk].
      * apply Hsb. split; [|lia]. eapply sub_trans; [by apply sub_parent|]. rewrite parent_height.
        apply (nodes_nest i); done.
      * destruct (stop_above L i n h _ _ Hn Hp Hi Hu ltac:(lia) Hs). done.
Qed.

Lemma add_stop_full L i n h m k :
  is_node n h -> is_node m k -> under i n h -> full ({[i]} ∪ L) n h ->
  ~ full L (sibling_node n h).1 (sibling_node n h).2 ->
  full ({[i]} ∪ L) m k <-> full L m k \/ (under i m k /\ k <= h).
Proof.
  intros Hn Hm Hi Hf Hs. split.
  - intros Hfm. destruct (decide (full L m k)) as [|Hnf]; [by left|]. right.
    pose proof (full_insert_split L i m k Hfm Hnf) as Hu. split; [done|].
    destruct (Z.leb_spec k h) as [|Hk]; [done|].
    destruct (stop_above L i n h m k Hn Hm Hi Hu Hk Hs). done.
  - intros [Hfm|[Hu Hk]]; [eapply full_mono; [|exact Hfm]; set_solver|].
    eapply full_sub; [|exact Hf]. by apply (nodes_nest i).
Qed.

Lemma add_climb_roots L i n h m k :
  is_node n h -> is_node m k -> under i n h ->
  full L (sibling_node n h).1 (sibling_node n h).2 ->
  (full_root L m k /\ ~ (sub_node m k n h /\ k < h)) /\
    ~ (m = (sibling_node n h).1 /\ k = (sibling_node n h).2) <->
  full_root L m k /\
    ~ (sub_node m k (parent_node n h).1 (parent_node n h).2 /\ k < (parent_node n h).2).
Proof.
  intros Hn Hm Hi Hs. pose proof (sibling_is_node n h Hn) as Hsn.
  assert (Hsh : (sibling_node n h).2 = h) by (unfold sibling_node; destruct (Z.testbit n h); done).
  rewrite parent_height. split.
  - intros [[[Hf Hp] Hsb] Hne]. split; [done|]. intros [Hsub Hk].
    assert (Hu : under m (parent_node n h).1 (parent_node n h).2)
      by (rewrite parent_height; eapply sub_under; [done|by apply under_self]).
    apply under_parent in Hu as [Hu|Hu]; [| |done].
    + assert (Hs' : sub_node m k n h) by (apply (nodes_nest m); (done || lia || by apply under_self)).
      destruct (Z.eq_dec k h) as [->|]; [|apply Hsb; split; [done|lia]].
      apply sub_same_height in Hs' as ->; [|done..]. apply Hp, full_parent; done.
    + rewrite Hsh in *.
      assert (Hs' : sub_node m k (sibling_node n h).1 h)
        by (apply (nodes_nest m); (done || lia || by apply under_self)).
      destruct (Z.eq_dec k h) as [->|].
      * apply Hne. split; [|done]. by apply (sub_same_height _ _ h).
      * apply Hp. eapply full_sub; [|exact Hs]. apply sub_strict; (done || lia).
  - intros [Hr Hsb]. split; [split; [done|]|].
    + intros [Hsub Hk]. apply Hsb. split; [|lia]. eapply sub_trans; [exact Hsub|].
      rewrite <- (parent_height n h). by apply sub_parent.
    + intros [-> ->]. apply Hsb. split; [|rewrite Hsh; lia].
      rewrite <- (parent_height n h). by apply sub_sibling_parent.
Qed.

Lemma add_state_climb pl L i n h :
  small_set L -> is_node n h -> 0 <= n < 2 ^ 30 -> under i n h -> add_state pl L i n h ->
  full L (sibling_node n h).1 (sibling_node n h).2 ->
  add_state
    (set_bitmap_of (set_pruned_cache pl (bm_add (pruned_cache pl) (node_pos n h)))
       (bm_remove (pl_bitmap pl) (node_pos (sibling_node n h).1 (sibling_node n h).2)))
    L i (parent_node n h).1 (parent_node n h).2.
Proof.
  intros Hsm Hn Hb Hi (H0 & H0' & Hr & Hf) Hs.
  destruct (fits_u32 n h Hn ltac:(lia)) as (Hu & _ & _).
  split; [|split; [|split]]; cbn [pl_bitmap pruned_cache set_bitmap_of set_pruned_cache].
  - rewrite bm_contains_remove, H0. apply andb_false_r.
  - rewrite bm_contains_add by (unfold is_u32; lia). rewrite H0', orb_false_r. apply Z.eqb_neq. lia.
  - intros m k Hm Hmb. rewrite bm_contains_remove, andb_true_iff, negb_true_iff, <- not_true_iff_false.
    rewrite node_pos_eqb by (done || by apply sibling_is_node).
    rewrite Hr by done. rewrite <- (add_climb_roots L i n h m k) by done. tauto.
  - intros m k Hm Hmb. rewrite bm_contains_add by (unfold is_u32; lia).
    rewrite orb_true_iff, node_pos_eqb, Hf, parent_height by done. split.
    + intros [[-> ->]|[?|[? ?]]]; [right; split; [done|lia]|by left|right; split; [done|lia]].
    + intros [?|[Hu' Hk]]; [tauto|]. destruct (Z.eq_dec k h) as [->|]; [|right; right; split; [done|lia]].
      left. split; [|done]. by apply (same_height_same_node i m n h).
Qed.

Lemma add_state_stop pl L i n h :
  small_set L -> is_node n h -> 0 <= n < 2 ^ 30 -> under i n h -> 0 <= i < 2 ^ 30 ->
  add_state pl L i n h -> full ({[i]} ∪ L) n h ->
  ~ full L (sibling_node n h).1 (sibling_node n h).2 ->
  pl_rep (set_bitmap_of (set_pruned_cache pl (bm_add (pruned_cache pl) (node_pos n h)))
            (bm_add (pl_bitmap pl) (node_pos n h))) ({[i]} ∪ L).
Proof.
  intros Hsm Hn Hb Hi Hi0 (H0 & H0' & Hr & Hf) Hfull Hs.
  destruct (fits_u32 n h Hn ltac:(lia)) as (Hu & _ & _).
  assert (Hu' : is_u32 (node_pos n h)) by (unfold is_u32; lia).
  assert (Hz : (0 =? node_pos n h) = false) by (apply Z.eqb_neq; lia).
  split; [|split; split]; cbn [pl_bitmap pruned_cache set_bitmap_of set_pruned_cache].
  - intros j [->%elem_of_singleton|?]%elem_of_union; [done|by apply Hsm].
  - rewrite bm_contains_add, Hz, H0 by done. done.
  - intros m k Hm Hmb. rewrite bm_contains_add, orb_true_iff, node_pos_eqb, Hr by done.
    rewrite <- add_stop_roots by done. done.
  - rewrite bm_contains_add, Hz, H0' by done. done.
  - intros m k Hm Hmb. rewrite bm_contains_add, orb_true_iff, node_pos_eqb, Hf by done.
    rewrite (add_stop_full L i n h) by done. split.
    + intros [[-> ->]|[?|[? ?]]]; [right; split; [done|lia]|by left|right; split; [done|lia]].
    + intros [?|[Hum Hk]]; [tauto|]. destruct (Z.eq_dec k h) as [->|]; [|right; right; split; [done|lia]].
      left. split; [|done]. by apply (same_height_same_node i m n h).
Qed.

(** The files and shift caches are left alone by [add]. *)
Definition same_caches pl pl' : Prop :=
  pl_path pl' = pl_path pl /\ shift_cache pl' = shift_cache pl /\
  leaf_shift_cache pl' = leaf_shift_cache pl.

Lemma add_loop_spec (fuel : nat) pl L i n h :
  small_set L -> is_node n h -> under i n h -> 0 <= i < 2 ^ 30 -> 31 <= Z.of_nat fuel + h ->
  add_state pl L i n h -> full ({[i]} ∪ L) n h ->
  exists pl', pl_add_loop (E := E) fuel pl (node_pos n h) = Ok pl' /\ pl_rep pl' ({[i]} ∪ L) /\
    same_caches pl pl'.
Proof.
  intros Hsm Hn Hi Hi0 Hfu Ha Hf. revert pl n h Hn Hi Hfu Ha Hf.
  assert (Hsm' : small_set ({[i]} ∪ L))
    by (intros j [->%elem_of_singleton|?]%elem_of_union; [done|by apply Hsm]).
  induction fuel as [|fuel IH]; intros pl n h Hn Hi Hfu Ha Hf.
  { pose proof (full_height _ n h Hsm' Hn Hf). lia. }
  pose proof (full_bound _ n h Hsm' Hn Hf) as Hb. pose proof (sibling_bound n h Hn Hb) as Hsb.
  destruct (fits_u32 n h Hn ltac:(lia)) as (Hu & Hsl & Ew).
  destruct (fits_u32 _ _ (sibling_is_node n h Hn) ltac:(lia)) as (_ & _ & Ews).
  cbn [pl_add_loop]. rewrite family_node by done. rewrite Ew, Ews.
  assert (Ht : bm_contains (pl_bitmap pl) (node_pos (sibling_node n h).1 (sibling_node n h).2)
      || bm_contains (pruned_cache pl) (node_pos (sibling_node n h).1 (sibling_node n h).2) = true
      <-> full L (sibling_node n h).1 (sibling_node n h).2).
  { destruct Ha as (_ & _ & Hr & Hc). pose proof (sibling_is_node n h Hn).
    rewrite orb_true_iff, Hr, Hc by (done || lia). split; [|by right; left].
    intros [[[? ?] ?]|[?|[Hc' ?]]]; [done|done|]. destruct (sibling_disjoint i n h Hn Hi Hc'). }
  destruct (_ || _).
  - pose proof (proj1 Ht eq_refl) as Hs.
    assert (Hi' : under i (parent_node n h).1 (parent_node n h).2)
      by (apply under_parent; [done|by left]).
    destruct (IH _ _ _ (parent_is_node n h Hn) Hi' ltac:(rewrite parent_height; lia)
      (add_state_climb pl L i n h Hsm Hn Hb Hi Ha Hs)) as (pl' & E' & Hrep & Hc).
    { apply full_parent; [done|]. split; [done|]. eapply full_mono; [|exact Hs]. set_solver. }
    exists pl'. split; [exact E'|]. done.
  - eexists. split; [done|]. split; [|done].
    apply (add_state_stop pl L i n h); try done. intros Hc%Ht. done.
Qed.

Lemma add_leaf pl L i :
  pl_rep pl L -> 0 <= i < 2 ^ 30 ->
  exists pl', pl_add (E := E) pl (node_pos i 0) = Ok pl' /\ pl_rep pl' ({[i]} ∪ L) /\ same_caches pl pl'.
Proof.
  intros (Hsm & [H0 Hr] & [H0' Hf]) Hi. pose proof (leaf_is_node i ltac:(lia)) as Hn.
  destruct (fits_u32 i 0 Hn ltac:(lia)) as (Hu & _).
  unfold pl_add. rewrite (proj2 (Z.ltb_lt _ _)) by lia. cbn [negb].
  apply (add_loop_spec 64 pl L i i 0); try (done || lia); [by apply under_self| |].
  - split; [done|]. split; [done|]. split; intros m k Hm Hmb; rewrite ?Hr, ?Hf by done.
    + destruct Hm as [? ?]. intuition lia.
    + destruct Hm as [? ?]. intuition lia.
  - intros j Hj. unfold under in Hj. change (2 ^ 0) with 1 in Hj. set_solver by lia.
Qed.

(** ** Rebuilding the pruned cache *)

Lemma full_has_root L (fuel : nat) n h :
  small_set L -> is_node n h -> full L n h -> 31 <= Z.of_nat fuel + h ->
  exists m k, is_node m k /\ full_root L m k /\ sub_node n h m k /\ node_pos n h <= node_pos m k.
Proof.
  intros Hsm. revert n h. induction fuel as [|fuel IH]; intros n h Hn Hf Hfu.
  { pose proof (full_height L n h Hsm Hn Hf). lia. }
  destruct (decide (full L (parent_node n h).1 (parent_node n h).2)) as [Hp|Hp].
  - destruct (IH _ _ (parent_is_node n h Hn) Hp ltac:(rewrite parent_height; lia))
      as (m & k & Hm & Hr & Hs & Hle).
    exists m, k. split; [done|]. split; [done|]. pose proof (parent_pos_gt n h Hn). split; [|lia].
    eapply sub_trans; [by apply sub_parent|done].
  - exists n, h. split; [done|]. split; [done|]. split; [apply sub_refl|lia].
Qed.

Lemma bm_maximum_ge b x : bm_contains b x = true -> x <= default 0 (bm_maximum b).
Proof.
  rewrite bm_contains_iter, bm_maximum_iter. intros Hx.
  destruct (sorted_last_max _ x (bm_iter_sorted b) Hx) as (y & -> & Hle). done.
Qed.

Lemma bm_maximum_u32 b : 0 <= default 0 (bm_maximum b) < U32.
Proof.
  rewrite bm_maximum_iter. destruct (last (bm_iter b)) as [y|] eqn:Ey; simpl; [|lia].
  assert (Hy : y ∈ bm_iter b) by (apply last_Some in Ey as [l' ->]; set_solver).
  apply bm_iter_u32 in Hy. exact Hy.
Qed.

Lemma existsb_climb b L (fuel : nat) n h :
  small_set L -> holds_roots b L -> is_node n h -> n < 2 ^ 31 -> 64 <= Z.of_nat fuel + h ->
  existsb (fun x => bm_contains b (wrap32 x)) (climb fuel n h (default 0 (bm_maximum b))) = true
  <-> full L n h.
Proof.
  intros Hsm [H0 Hr]. set (last := default 0 (bm_maximum b)).
  pose proof (bm_maximum_u32 b) as Hlast. fold last in Hlast.
  revert n h. induction fuel as [|fuel IH]; intros n h Hn Hlt Hfu.
  { simpl. split; [done|]. intros Hf. pose proof (full_height L n h Hsm Hn Hf). lia. }
  rewrite climb_S. destruct (Z.leb_spec (node_pos n h) last) as [Hle|Hgt].
  - cbn [existsb]. destruct (fits_u32 n h Hn Hlt) as (Hu & _ & ->).
    rewrite orb_true_iff, Hr by done.
    destruct (decide (full L (parent_node n h).1 (parent_node n h).2)) as [Hp|Hp].
    + split; [intros _; by apply full_parent in Hp as [? _]|]. intros _. right.
      apply IH; [by apply parent_is_node|pose proof (full_bound L _ _ Hsm (parent_is_node n h Hn) Hp); lia
        |rewrite parent_height; lia|done].
    + split; [|by left]. intros [[? _]|Hex]; [done|]. destruct Hp.
      destruct (Z.ltb_spec (parent_node n h).1 (2 ^ 31)) as [Hpb|Hpb].
      * apply IH; [by apply parent_is_node|done|rewrite parent_height; lia|done].
      * exfalso. destruct fuel as [|fuel]; [done|]. rewrite climb_S in Hex.
        pose proof (parent_is_node n h Hn) as Hpn.
        rewrite (proj2 (Z.leb_gt _ _)) in Hex; [done|].
        pose proof (mmr_size_mono (2 ^ 31) (parent_node n h).1 ltac:(lia)) as Hm.
        rewrite mmr_size_2_31 in Hm. change (2 ^ 32) with U32 in Hm.
        unfold node_pos. rewrite parent_height. destruct Hn. lia.
  - simpl. split; [done|]. intros Hf.
    destruct (full_has_root L fuel n h Hsm Hn Hf ltac:(lia)) as (m & k & Hm & Hroot & _ & Hle).
    assert (Hc : bm_contains b (node_pos m k) = true)
      by (apply Hr; [done|pose proof (full_bound L m k Hsm Hm (proj1 Hroot)); lia|done]).
    apply bm_maximum_ge in Hc. fold last in Hc. lia.
Qed.

Lemma fold_add_if (p : Z -> bool) (l : list Z) b x :
  Forall is_u32 l ->
  bm_contains (fold_left (fun c y => if p y then bm_add c (wrap32 y) else c) l b) x = true <->
  (x ∈ l /\ p x = true) \/ bm_contains b x = true.
Proof.
  intros Hl. revert b. induction Hl as [|y l Hy Hl IH]; intros b; simpl.
  { rewrite elem_of_nil. tauto. }
  rewrite IH, elem_of_cons. unfold wrap32. rewrite Z.mod_small by exact Hy.
  destruct (p y) eqn:Ep; [rewrite bm_contains_add, orb_true_iff, Z.eqb_eq by done|].
  - split; [intros [[? ?]|[->|?]]; auto|intros [[[->|?] ?]|?]; auto].
  - split; [intros [[? ?]|?]; auto|intros [[[->|?] ?]|?]; auto; congruence].
Qed.

Lemma build_pruned_cache_spec pl L :
  small_set L -> holds_roots (pl_bitmap pl) L ->
  (bm_is_empty (pl_bitmap pl) = true -> holds_full (pruned_cache pl) L) ->
  pl_rep (build_pruned_cache pl) L.
Proof.
  intros Hsm Hr He. unfold build_pruned_cache.
  destruct (bm_is_empty (pl_bitmap pl)) eqn:Ee; [split; [done|split; [done|auto]]|].
  split; [done|]. split; [done|]. cbn [pruned_cache set_pruned_cache].
  set (b := pl_bitmap pl) in *. pose proof (bm_maximum_u32 b) as Hmax.
  set (maximum := default 0 (bm_maximum b)) in *.
  assert (Hl : Forall is_u32 (seqZ 1 (wrap32 (maximum + 1) - 1))).
  { apply Forall_forall. intros x Hx%elem_of_seqZ. unfold wrap32 in Hx. unfold is_u32.
    pose proof (Z.mod_pos_bound (maximum + 1) U32 ltac:(lia)). lia. }
  set (p := fun pos => existsb (fun x => bm_contains b (wrap32 x)) (path pos maximum)).
  assert (Hmax' : maximum < U32 - 1 -> wrap32 (maximum + 1) = maximum + 1)
    by (intros; apply Z.mod_small; lia).
  assert (Hcap : maximum < U32 - 1).
  { destruct (Z.ltb_spec maximum (U32 - 1)) as [|Hge]; [done|].
    assert (Hc : bm_contains b maximum = true).
    { apply bm_contains_iter. unfold maximum. rewrite bm_maximum_iter.
      destruct (last (bm_iter b)) as [y|] eqn:Ey; [apply last_Some in Ey as [l' ->]; set_solver|].
      apply last_None in Ey. apply bm_is_empty_iter in Ey. congruence. }
    destruct (u32_fits maximum ltac:(lia)) as (n & h & Hn & Hlt & E1).
    rewrite E1 in Hc. apply (proj2 Hr) in Hc as [Hf _]; [|done..].
    pose proof (full_bound L n h Hsm Hn Hf). pose proof (full_height L n h Hsm Hn Hf).
    pose proof (mmr_size_bounds n ltac:(lia)). unfold node_pos in E1.
    change (2 ^ 30) with 1073741824 in *. lia. }
  rewrite Hmax' by done. rewrite Hmax' in Hl by done. replace (maximum + 1 - 1) with maximum in * by lia.
  pose proof (fun x => fold_add_if p (seqZ 1 maximum) bm_create x Hl) as HF.
  split.
  - apply not_true_iff_false. intros Hx. apply HF in Hx as [[Hx%elem_of_seqZ _]|Hx]; [lia|].
    rewrite bm_contains_create in Hx. done.
  - intros n h Hn Hlt. etransitivity; [apply HF|]. rewrite bm_contains_create.
    destruct (fits_u32 n h Hn Hlt) as (Hu & Hs & _).
    unfold p. rewrite path_climb by (done || (change (2 ^ 61) with 2305843009213693952; lia)).
    pose proof (existsb_climb b L 64 n h Hsm Hr Hn Hlt ltac:(destruct Hn; lia)) as HC.
    fold maximum in HC. rewrite HC.
    rewrite elem_of_seqZ. split; [intros [[_ ?]|?]; done|]. intros Hf. left. split; [|done].
    destruct (full_has_root L 64 n h Hsm Hn Hf ltac:(destruct Hn; lia)) as (m & k & Hm & Hroot & _ & Hle).
    assert (Hc : bm_contains b (node_pos m k) = true)
      by (apply Hr; [done|pose proof (full_bound L m k Hsm Hm (proj1 Hroot)); lia|done]).
    apply bm_maximum_ge in Hc. fold maximum in Hc. lia.
Qed.

(** ** The shift caches *)

(** Nodes, and leaves, below a root that compaction takes out of the files. *)
Definition shift_of (pos : Z) : Z := 2 * (2 ^ bintree_postorder_height pos - 1).
Definition leaf_shift_of (pos : Z) : Z :=
  if bintree_postorder_height pos =? 0 then 0 else 2 ^ bintree_postorder_height pos.

Definition prefix_sums (f : Z -> Z) (l : list Z) : list Z :=
  map (fun j => zsum (map f (take (S j) l))) (seq 0 (length l)).

Lemma prefix_sums_snoc f l x : prefix_sums f (l ++ [x]) = prefix_sums f l ++ [zsum (map f l) + f x].
Proof.
  unfold prefix_sums. rewrite length_app, seq_app, map_app. simpl. f_equal.
  - apply map_ext_in. intros j Hj%in_seq. rewrite take_app_le by lia. done.
  - rewrite take_ge by (rewrite length_app; simpl; lia). rewrite map_app, zsum_app. simpl. f_equal; lia.
Qed.

Lemma prefix_sums_lookup f l j :
  (j < length l)%nat -> prefix_sums f l !! j = Some (zsum (map f (take (S j) l))).
Proof.
  intros Hj. unfold prefix_sums. rewrite list_lookup_fmap, lookup_seq_lt by done. done.
Qed.

(** The body the two shift lookups share. *)
Definition cached b (cache : list Z) (pos : Z) : res E Z :=
  if bm_is_empty b then Ok 0
  else
    let idx := bm_rank b (wrap32 pos) in
    if idx =? 0 then Ok 0
    else
      let len := Z.of_nat (length cache) in
      if len <? idx then index_or_panic cache (Z.to_nat (saturating_sub len 1))
      else index_or_panic cache (Z.to_nat (saturating_sub idx 1)).

Lemma cached_spec b f l1 l2 l3 x :
  bm_iter b = l1 ++ l2 ++ l3 -> is_u32 x ->
  Forall (fun y => y <= x) l1 -> Forall (fun y => x < y) (l2 ++ l3) ->
  cached b (prefix_sums f (l1 ++ l2)) x = Ok (zsum (map f l1)).
Proof.
  intros Hi Hx H1 H2. unfold cached. unfold wrap32. rewrite Z.mod_small by exact Hx.
  rewrite bm_rank_iter, Hi, filter_sorted_prefix by done.
  assert (Hlen : length (prefix_sums f (l1 ++ l2)) = length (l1 ++ l2))
    by (unfold prefix_sums; rewrite length_map, length_seq; done).
  destruct (bm_is_empty b) eqn:Ee.
  { apply bm_is_empty_iter in Ee. rewrite Hi in Ee. destruct l1; [done|discriminate]. }
  destruct l1 as [|y l1]; [done|]. rewrite (proj2 (Z.eqb_neq _ _)) by (simpl; lia).
  rewrite Hlen, length_app, (proj2 (Z.ltb_ge _ _)) by lia.
  unfold index_or_panic, saturating_sub.
  replace (Z.to_nat _) with (length l1) by (simpl length; lia).
  rewrite prefix_sums_lookup by (simpl; rewrite length_app; lia).
  rewrite take_app_le by (simpl; lia). rewrite take_ge by (simpl; lia). done.
Qed.

(** The roots in the bitmap have bounded heights, so no sum of shifts wraps. *)
Lemma root_height b L r :
  small_set L -> holds_roots b L -> r ∈ bm_iter b ->
  exists n h, is_node n h /\ 0 <= n < 2 ^ 30 /\ r = node_pos n h /\ full_root L n h /\
    bintree_postorder_height r = h /\ 0 <= h <= 30 /\ 1 <= r < U32 /\ 0 < 2 ^ h <= 2 ^ 30.
Proof.
  intros Hsm [H0 Hr] Hin. pose proof (bm_iter_u32 b r Hin) as Hu.
  pose proof (proj2 (bm_contains_iter b r) Hin) as Hc.
  assert (r <> 0) by congruence. unfold is_u32 in Hu.
  destruct (u32_fits r ltac:(lia)) as (n & h & Hn & Hlt & ->).
  pose proof (proj1 (Hr n h Hn Hlt) Hc) as Hroot.
  pose proof (full_bound L n h Hsm Hn (proj1 Hroot)).
  pose proof (full_height L n h Hsm Hn (proj1 Hroot)).
  destruct (fits_u32 n h Hn Hlt) as (? & Hs & _).
  exists n, h. rewrite height_node by done. pose proof (pow2_pos h ltac:(lia)).
  assert (2 ^ h <= 2 ^ 30) by (apply Z.pow_le_mono_r; lia). naive_solver.
Qed.

Lemma shifts_bounded b L (f : Z -> Z) l l' :
  small_set L -> holds_roots b L -> bm_iter b = l ++ l' ->
  (forall r, r ∈ bm_iter b -> 0 <= f r <= 2 ^ 31) -> 0 <= zsum (map f l) <= 2 ^ 63.
Proof.
  intros Hsm Hr Hi Hf.
  assert (Hlen : Z.of_nat (length (bm_iter b)) <= U32).
  { apply sorted_length; [lia|apply bm_iter_sorted|]. apply Forall_forall. intros x Hx.
    apply bm_iter_u32 in Hx. exact Hx. }
  pose proof (zsum_bound (map f l) (2 ^ 31) ltac:(lia)) as Hb. rewrite length_map in Hb.
  rewrite Hi, length_app in Hlen. change (2 ^ 63) with (U32 * 2 ^ 31).
  enough (0 <= zsum (map f l) <= Z.of_nat (length l) * 2 ^ 31).
  { assert (Z.of_nat (length l) * 2 ^ 31 <= U32 * 2 ^ 31) by (apply Z.mul_le_mono_nonneg_r; lia). lia. }
  apply Hb. apply Forall_forall. intros y Hy. apply list_elem_of_fmap in Hy as (r & -> & Hin).
  apply Hf. rewrite Hi. set_solver.
Qed.

Lemma shift_of_bound b L r :
  small_set L -> holds_roots b L -> r ∈ bm_iter b ->
  0 <= shift_of r <= 2 ^ 31 /\ 0 <= leaf_shift_of r <= 2 ^ 31.
Proof.
  intros Hsm Hr Hin. destruct (root_height b L r Hsm Hr Hin) as (n & h & _ & _ & _ & _ & E1 & Hh & _ & Hp).
  unfold shift_of, leaf_shift_of. rewrite E1. change (2 ^ 31) with (2 * 2 ^ 30).
  destruct (h =? 0); lia.
Qed.

(** What one round of either loop reads: the sum so far, and that the position is a root. *)
Lemma shift_step pl L (f : Z -> Z) l1 r l2 :
  small_set L -> holds_roots (pl_bitmap pl) L -> bm_iter (pl_bitmap pl) = l1 ++ r :: l2 ->
  (forall x, x ∈ bm_iter (pl_bitmap pl) -> 0 <= f x <= 2 ^ 31) ->
  cached (pl_bitmap pl) (prefix_sums f l1) (saturating_sub r 1) = Ok (zsum (map f l1)) /\
  pl_is_pruned_root (E := E) pl r = Ok true /\
  0 <= bintree_postorder_height r <= 30 /\ 0 < 2 ^ bintree_postorder_height r <= 1073741824 /\
  0 <= zsum (map f l1) <= 9223372036854775808.
Proof.
  intros Hsm Hr Hi Hf.
  destruct (root_height _ L r Hsm Hr ltac:(rewrite Hi; set_solver))
    as (n & h & _ & _ & _ & _ & -> & Hh & Hu & Hp).
  pose proof (bm_iter_sorted (pl_bitmap pl)) as Hs. rewrite Hi in Hs.
  destruct (sorted_app_inv _ _ _ Hs) as [Hlt Hgt].
  split; [|split; [|split; [done|split; [done|]]]].
  - unfold saturating_sub. rewrite Z.max_r by lia. rewrite <- (app_nil_r l1) at 1.
    apply (cached_spec _ f l1 [] (r :: l2)); [done|unfold is_u32; lia| |].
    + eapply Forall_impl; [exact Hlt|]. simpl. lia.
    + constructor; [lia|]. eapply Forall_impl; [exact Hgt|]. simpl. lia.
  - unfold pl_is_pruned_root. rewrite (proj2 (Z.ltb_lt _ _)) by lia. cbn [negb].
    unfold wrap32. rewrite Z.mod_small by lia. f_equal. apply bm_contains_iter. rewrite Hi. set_solver.
  - apply (shifts_bounded _ L f l1 (r :: l2) Hsm Hr Hi Hf).
Qed.

Lemma shift_loop_spec pl L l1 l2 :
  small_set L -> holds_roots (pl_bitmap pl) L -> bm_iter (pl_bitmap pl) = l1 ++ l2 ->
  shift_cache pl = prefix_sums shift_of l1 ->
  shift_loop l2 pl = Ok (E := E) (set_shift_cache pl (prefix_sums shift_of (l1 ++ l2))).
Proof.
  intros Hsm. revert pl l1. induction l2 as [|r l2 IH]; intros pl l1 Hr Hi Hc.
  { rewrite app_nil_r, <- Hc. destruct pl; done. }
  destruct (shift_step pl L shift_of l1 r l2 Hsm Hr Hi) as (Hprev & Hroot & Hh & Hp & Hb);
    [intros x Hx; by apply (shift_of_bound (pl_bitmap pl) L x)|].
  cbn [shift_loop]. change (get_shift pl) with (cached (pl_bitmap pl) (shift_cache pl)).
  rewrite Hc, Hprev, Hroot. cbn [res_bind]. rewrite shl64_1 by lia.
  rewrite (sub64_small (2 ^ _)), mul64_small, add64_small by lia.
  fold (shift_of r). rewrite <- prefix_sums_snoc, (IH _ (l1 ++ [r])), <- app_assoc; [done|done| |done].
  cbn [pl_bitmap set_shift_cache]. rewrite Hi, <- app_assoc. done.
Qed.

Lemma leaf_shift_loop_spec pl L l1 l2 :
  small_set L -> holds_roots (pl_bitmap pl) L -> bm_iter (pl_bitmap pl) = l1 ++ l2 ->
  leaf_shift_cache pl = prefix_sums leaf_shift_of l1 ->
  leaf_shift_loop l2 pl = Ok (E := E) (set_leaf_shift_cache pl (prefix_sums leaf_shift_of (l1 ++ l2))).
Proof.
  intros Hsm. revert pl l1. induction l2 as [|r l2 IH]; intros pl l1 Hr Hi Hc.
  { rewrite app_nil_r, <- Hc. destruct pl; done. }
  destruct (shift_step pl L leaf_shift_of l1 r l2 Hsm Hr Hi) as (Hprev & Hroot & Hh & Hp & Hb);
    [intros x Hx; by apply (shift_of_bound (pl_bitmap pl) L x)|].
  cbn [leaf_shift_loop]. change (get_leaf_shift pl) with (cached (pl_bitmap pl) (leaf_shift_cache pl)).
  rewrite Hc, Hprev, Hroot. cbn [res_bind]. rewrite shl64_1 by lia.
  pose proof (proj2 (shift_of_bound (pl_bitmap pl) L r Hsm Hr ltac:(rewrite Hi; set_solver))) as Hs.
  fold (leaf_shift_of r). change (2 ^ 31) with 2147483648 in Hs. rewrite add64_small by lia.
  rewrite <- prefix_sums_snoc, (IH _ (l1 ++ [r])), <- app_assoc; [done|done| |done].
  cbn [pl_bitmap set_leaf_shift_cache]. rewrite Hi, <- app_assoc. done.
Qed.

(** A prune list whose caches are up to date. *)
Definition pl_ready pl L : Prop :=
  pl_rep pl L /\
  (bm_iter (pl_bitmap pl) <> [] ->
     shift_cache pl = prefix_sums shift_of (bm_iter (pl_bitmap pl)) /\
     leaf_shift_cache pl = prefix_sums leaf_shift_of (bm_iter (pl_bitmap pl))).

Lemma roots_positive b L : holds_roots b L -> List.filter (fun x => 0 <? x) (bm_iter b) = bm_iter b.
Proof.
  intros [H0 _]. apply filter_true. intros x Hx. apply Z.ltb_lt.
  pose proof (bm_iter_u32 b x Hx) as Hu. apply bm_contains_iter in Hx.
  assert (x <> 0) by congruence. unfold is_u32 in Hu. lia.
Qed.

Lemma init_caches_spec pl L :
  small_set L -> holds_roots (pl_bitmap pl) L ->
  (bm_is_empty (pl_bitmap pl) = true -> holds_full (pruned_cache pl) L) ->
  exists pl', init_caches (E := E) pl = Ok pl' /\ pl_ready pl' L /\
    pl_bitmap pl' = pl_bitmap pl /\ pl_path pl' = pl_path pl.
Proof.
  intros Hsm Hr He. unfold init_caches, build_shift_cache, build_leaf_shift_cache.
  destruct (bm_is_empty (pl_bitmap pl)) eqn:Ee; cbn [res_bind]; rewrite ?Ee; cbn [res_bind].
  - eexists. split; [done|]. unfold build_pruned_cache. rewrite Ee.
    split; [|done]. split; [split; [done|split; [done|auto]]|]. intros Hne.
    apply bm_is_empty_iter in Ee. done.
  - rewrite (roots_positive _ L) by done.
    rewrite (shift_loop_spec _ L [] (bm_iter (pl_bitmap pl))) by done. cbn [res_bind pl_bitmap set_shift_cache].
    rewrite Ee, (roots_positive _ L) by done.
    rewrite (leaf_shift_loop_spec _ L [] (bm_iter (pl_bitmap pl))) by done. cbn [res_bind].
    eexists. split; [done|]. unfold build_pruned_cache at 2 3. cbn [pl_bitmap set_leaf_shift_cache set_shift_cache].
    rewrite Ee. split; [|done]. split.
    + apply build_pruned_cache_spec; [done|done|]. cbn. congruence.
    + intros _. unfold build_pruned_cache. cbn [pl_bitmap set_leaf_shift_cache set_shift_cache set_pruned_cache].
      rewrite Ee. done.
Qed.

(** The shift of a position sums the shifts of the roots up to it. *)
Lemma get_shift_sum pl L pos :
  pl_ready pl L -> is_u32 pos ->
  get_shift (E := E) pl pos
  = Ok (zsum (map shift_of (List.filter (fun r => r <=? pos) (bm_iter (pl_bitmap pl))))) /\
  get_leaf_shift (E := E) pl pos
  = Ok (zsum (map leaf_shift_of (List.filter (fun r => r <=? pos) (bm_iter (pl_bitmap pl))))).
Proof.
  intros [_ Hc] Hp. destruct (bm_iter (pl_bitmap pl)) as [|r0 l0] eqn:Ei.
  { unfold get_shift, get_leaf_shift.
    rewrite (proj2 (bm_is_empty_iter (pl_bitmap pl)) Ei). done. }
  destruct (Hc ltac:(done)) as [H1 H2]. rewrite <- Ei in *.
  destruct (sorted_split _ pos (bm_iter_sorted (pl_bitmap pl))) as (l1 & l2 & Es & Hl1 & Hl2).
  rewrite Es at 1 2. rewrite filter_sorted_prefix by done.
  change (get_shift pl pos) with (cached (pl_bitmap pl) (shift_cache pl) pos).
  change (get_leaf_shift pl pos) with (cached (pl_bitmap pl) (leaf_shift_cache pl) pos).
  rewrite H1, H2, Es. split; (apply (cached_spec _ _ l1 l2 []); rewrite ?app_nil_r; done).
Qed.

(** ** What compaction takes out *)

(** Pruned, and not the root of a pruned subtree. *)
Definition compacted pl (pos : Z) : bool :=
  bm_contains (pruned_cache pl) pos && negb (bm_contains (pl_bitmap pl) pos).

Lemma compacted_node pl L n h :
  pl_rep pl L -> is_node n h -> n < 2 ^ 31 ->
  compacted pl (node_pos n h) = true <-> full L (parent_node n h).1 (parent_node n h).2.
Proof.
  intros (_ & [_ Hr] & [_ Hf]) Hn Hlt. unfold compacted.
  rewrite andb_true_iff, negb_true_iff, <- not_true_iff_false, Hr, Hf by done.
  unfold full_root. rewrite full_parent by done.
  destruct (decide (full L (sibling_node n h).1 (sibling_node n h).2)); tauto.
Qed.

(** The positions strictly below a node are an interval that ends right before it. *)
Lemma strict_sub_pos m k n h :
  is_node m k -> is_node n h ->
  (sub_node m k n h /\ k < h) <->
  node_pos n h - 2 * (2 ^ h - 1) <= node_pos m k < node_pos n h.
Proof.
  intros Hm Hn. pose proof (leftmost_leaf n h Hn) as El. pose proof (pow2_node n h Hn) as Hp0.
  pose proof Hm as [Hm0 Hk]. pose proof Hn as [Hn0 Hh]. pose proof (pow2_pos h ltac:(lia)) as Hp1.
  pose proof (pow2_pos k ltac:(lia)) as Hp2. split.
  - intros [[H1 H2] Hkh]. unfold node_pos. split.
    + pose proof (mmr_size_mono (n - 2 ^ h + 1) m ltac:(lia)). lia.
    + destruct (Z.eq_dec m n) as [->|]; [lia|]. pose proof (mmr_size_strict m n ltac:(lia)). lia.
  - unfold node_pos. intros [H1 H2].
    assert (Hlo : n - 2 ^ h + 1 <= m).
    { destruct (Z.leb_spec (n - 2 ^ h + 1) m) as [|Hlt]; [done|].
      pose proof (mmr_size_strict m (n - 2 ^ h + 1) ltac:(lia)). lia. }
    assert (Hhi : m <= n).
    { destruct (Z.leb_spec m n) as [|Hlt]; [done|]. pose proof (mmr_size_strict n m ltac:(lia)). lia. }
    assert (Hkh : k < h).
    { destruct (Z.ltb_spec k h) as [|Hge]; [done|]. destruct (Z.eq_dec m n) as [->|Hne]; [lia|].
      pose proof (nodes_nest m n h m k Hn Hm Hge ltac:(unfold under; lia) (under_self m k Hm)) as [_ ?]. lia. }
    split; [|done]. apply (nodes_nest m); [done..|lia|by apply under_self|unfold under; lia].
Qed.

Lemma compacted_below_root pl L m k :
  pl_rep pl L -> is_node m k -> m < 2 ^ 31 ->
  compacted pl (node_pos m k) = true <->
  exists n h, is_node n h /\ full_root L n h /\ sub_node m k n h /\ k < h.
Proof.
  intros Hrep Hm Hlt. rewrite (compacted_node pl L) by done. split.
  - intros Hf. pose proof (parent_is_node m k Hm) as Hp.
    destruct (full_has_root L 64 _ _ (proj1 Hrep) Hp Hf ltac:(destruct Hp; lia))
      as (n & h & Hn & Hr & Hs & _).
    exists n, h. split; [done|]. split; [done|].
    pose proof (sub_height _ _ _ _ Hp Hn Hs). rewrite parent_height in *. split; [|lia].
    eapply sub_trans; [by apply sub_parent|]. rewrite parent_height. done.
  - intros (n & h & Hn & [Hf _] & Hs & Hk). eapply full_sub; [|exact Hf]. by apply sub_strict.
Qed.

(** Distinct roots have no node in common. *)
Lemma roots_disjoint L i n h n' h' :
  is_node n h -> is_node n' h' -> full_root L n h -> full_root L n' h' ->
  under i n h -> under i n' h' -> n = n' /\ h = h'.
Proof.
  intros Hn Hn' [Hf Hp] [Hf' Hp'] Hi Hi'. destruct (Z.lt_trichotomy h h') as [Hlt|[->|Hlt]].
  - destruct Hp. eapply full_sub; [|exact Hf']. apply sub_strict; [done..| |done].
    apply (nodes_nest i); (done || lia).
  - split; [|done]. by apply (same_height_same_node i n n' h').
  - destruct Hp'. eapply full_sub; [|exact Hf]. apply sub_strict; [done..| |done].
    apply (nodes_nest i); (done || lia).
Qed.

Lemma compacted_in_roots pl L x :
  pl_rep pl L -> 1 <= x < U32 ->
  compacted pl x
  = existsb (fun r => (r - shift_of r <=? x) && (x <? r)) (bm_iter (pl_bitmap pl)).
Proof.
  intros Hrep Hx. pose proof Hrep as (Hsm & Hr & _).
  destruct (u32_fits x Hx) as (m & k & Hm & Hlt & ->). apply eq_true_iff_eq.
  rewrite (compacted_below_root pl L), existsb_exists by done. split.
  - intros (n & h & Hn & Hroot & Hs). exists (node_pos n h).
    pose proof (full_bound L n h Hsm Hn (proj1 Hroot)).
    destruct (fits_u32 n h Hn ltac:(lia)) as (_ & Hsl & _). split.
    + apply list_elem_of_In, bm_contains_iter, Hr; [done|lia|done].
    + unfold shift_of. rewrite height_node by done. rewrite andb_true_iff, Z.leb_le, Z.ltb_lt.
      apply strict_sub_pos; done.
  - intros (r & Hin & Hb). apply list_elem_of_In in Hin.
    destruct (root_height _ L r Hsm Hr Hin) as (n & h & Hn & _ & -> & Hroot & Eh & _).
    unfold shift_of in Hb. rewrite Eh, andb_true_iff, Z.leb_le, Z.ltb_lt in Hb.
    exists n, h. split; [done|]. split; [done|]. apply strict_sub_pos; done.
Qed.

(** An interval below a root that reaches a kept position ends before it. *)
Lemma root_before_kept pl L r x pos :
  pl_rep pl L -> r ∈ bm_iter (pl_bitmap pl) -> 0 <= pos < U32 -> compacted pl pos = false ->
  r - shift_of r <= x < r -> x <= pos -> r <= pos.
Proof.
  intros Hrep Hin Hpos Hk Hx Hle. pose proof Hrep as (Hsm & Hr & _).
  destruct (Z.leb_spec r pos) as [|Hlt]; [done|].
  destruct (root_height _ L r Hsm Hr Hin) as (n & h & Hn & _ & Er & _ & Eh & _ & Hu & _).
  pose proof (node_pos_ge_pow2 n h Hn). unfold shift_of in Hx. rewrite Eh in Hx.
  rewrite (compacted_in_roots pl L) in Hk by (done || lia).
  assert (existsb (fun r => (r - shift_of r <=? pos) && (pos <? r)) (bm_iter (pl_bitmap pl)) = true).
  { apply existsb_exists. exists r. split; [by apply list_elem_of_In|].
    unfold shift_of. rewrite Eh, andb_true_iff, Z.leb_le, Z.ltb_lt. lia. }
  congruence.
Qed.

Lemma shift_counts pl L pos :
  pl_ready pl L -> 0 <= pos < U32 -> compacted pl pos = false ->
  get_shift (E := E) pl pos = Ok (Z.of_nat (length (List.filter (compacted pl) (seqZ 1 pos)))).
Proof.
  intros Hready Hpos Hk. pose proof (proj1 Hready) as Hrep. pose proof Hrep as (Hsm & Hr & _).
  rewrite (proj1 (get_shift_sum pl L pos Hready Hpos)). f_equal.
  set (b := pl_bitmap pl) in *. set (rs := List.filter (fun r => r <=? pos) (bm_iter b)).
  assert (Hrs : forall r, r ∈ rs -> r ∈ bm_iter b /\ r <= pos).
  { intros r Hin. apply list_elem_of_In, filter_In in Hin as [Hin Hle].
    split; [by apply list_elem_of_In|by apply Z.leb_le]. }
  transitivity (Z.of_nat (length (List.filter
    (fun x => existsb (fun r => (r - shift_of r <=? x) && (x <? r)) rs) (seqZ 1 pos)))).
  - rewrite (count_disjoint (fun r => r - shift_of r) (fun r => r)).
    + f_equal. apply map_ext. intros r. lia.
    + apply NoDup_ListNoDup, List.NoDup_filter, NoDup_ListNoDup, bm_iter_nodup.
    + intros r Hin. destruct (Hrs r Hin) as [Hin' Hle].
      destruct (root_height b L r Hsm Hr Hin') as (n & h & Hn & _ & Er & _ & Eh & _ & _ & Hp).
      pose proof (node_pos_ge_pow2 n h Hn). unfold shift_of. rewrite Eh. lia.
    + intros r r' x Hin Hin' Hx Hx'. destruct (Hrs r Hin) as [Hi _], (Hrs r' Hin') as [Hi' _].
      destruct (root_height b L r Hsm Hr Hi) as (n & h & Hn & _ & -> & Hroot & Eh & _).
      destruct (root_height b L r' Hsm Hr Hi') as (n' & h' & Hn' & _ & -> & Hroot' & Eh' & _ & Hu' & _).
      unfold shift_of in Hx, Hx'. rewrite Eh in Hx. rewrite Eh' in Hx'.
      pose proof (node_pos_ge_pow2 n' h' Hn').
      destruct (u32_fits x ltac:(lia)) as (m & k & Hm & _ & ->).
      apply strict_sub_pos in Hx as [Hs _]; [|done..]. apply strict_sub_pos in Hx' as [Hs' _]; [|done..].
      pose proof (under_self m k Hm) as Hu.
      destruct (roots_disjoint L m n h n' h') as [-> ->]; try done; eapply sub_under; done.
  - f_equal. f_equal. apply filter_ext_in. intros x Hx%list_elem_of_In%elem_of_seqZ.
    rewrite (compacted_in_roots pl L) by (done || lia). fold b.
    apply eq_true_iff_eq. rewrite !existsb_exists.
    split; intros (r & Hin & Hb); exists r; apply list_elem_of_In in Hin; (split; [|done]);
      apply list_elem_of_In.
    + by apply Hrs.
    + apply list_elem_of_In, filter_In. split; [by apply list_elem_of_In|]. apply Z.leb_le.
      rewrite andb_true_iff, Z.leb_le, Z.ltb_lt in Hb.
      apply (root_before_kept pl L r x pos); (done || lia).
Qed.

Lemma n_leaves_pos n h : is_node n h -> small_leaves n -> n_leaves (node_pos n h) = n + 1.
Proof.
  intros Hn Hs. pose proof (node_pos_bounds n h Hn Hs) as Hb. destruct Hn as [Hn Hh].
  pose proof (pow2_pos h ltac:(lia)). unfold node_pos in *.
  destruct (Z.eq_dec h (trailing_ones n)) as [->|Hne].
  - rewrite <- mmr_size_succ, <- (Z.add_0_r (mmr_size (n + 1))) by lia.
    rewrite n_leaves_node; [simpl; lia|apply leaf_is_node; lia|]. rewrite mmr_size_succ by lia. lia.
  - rewrite <- Z.add_assoc, n_leaves_node; [|split; lia|lia]. rewrite (proj2 (Z.eqb_neq _ _)) by lia. lia.
Qed.

Lemma node_pos_lt_leaves n h m k : is_node n h -> is_node m k -> node_pos n h <= node_pos m k -> n <= m.
Proof.
  intros [Hn Hh] [Hm Hk] Hle. destruct (Z.leb_spec n m) as [|Hlt]; [done|].
  pose proof (mmr_size_strict m n ltac:(lia)). unfold node_pos in Hle. lia.
Qed.

(** The leaves below a root, when it is not a leaf itself. *)
Lemma leaf_interval L i n h :
  is_node n h -> 0 <= i -> full_root L n h ->
  n + 1 - (if h =? 0 then 0 else 2 ^ h) <= i < n + 1 <-> sub_node i 0 n h /\ 0 < h.
Proof.
  intros [Hn Hh] Hi _. pose proof (pow2_pos h ltac:(lia)). unfold sub_node. change (2 ^ 0) with 1.
  destruct (Z.eqb_spec h 0); split; lia.
Qed.

Lemma compacted_leaf_in_roots pl L i :
  pl_rep pl L -> 0 <= i < 2 ^ 31 ->
  compacted pl (node_pos i 0)
  = existsb (fun r => (n_leaves r - leaf_shift_of r <=? i) && (i <? n_leaves r)) (bm_iter (pl_bitmap pl)).
Proof.
  intros Hrep Hi. pose proof Hrep as (Hsm & Hr & _). pose proof (leaf_is_node i ltac:(lia)) as Hleaf.
  apply eq_true_iff_eq. rewrite (compacted_below_root pl L), existsb_exists by (done || lia). split.
  - intros (n & h & Hn & Hroot & Hs). exists (node_pos n h).
    pose proof (full_bound L n h Hsm Hn (proj1 Hroot)).
    destruct (fits_u32 n h Hn ltac:(lia)) as (_ & Hsl & _). split.
    + apply list_elem_of_In, bm_contains_iter, Hr; [done|lia|done].
    + unfold leaf_shift_of. rewrite height_node, n_leaves_pos by done.
      rewrite andb_true_iff, Z.leb_le, Z.ltb_lt. apply (leaf_interval L i n h); (done || lia).
  - intros (r & Hin & Hb). apply list_elem_of_In in Hin.
    destruct (root_height _ L r Hsm Hr Hin) as (n & h & Hn & Hnb & -> & Hroot & Eh & _).
    destruct (fits_u32 n h Hn ltac:(lia)) as (_ & Hsl & _).
    unfold leaf_shift_of in Hb. rewrite Eh, n_leaves_pos, andb_true_iff, Z.leb_le, Z.ltb_lt in Hb by done.
    exists n, h. split; [done|]. split; [done|]. apply (leaf_interval L i n h); (done || lia).
Qed.

Lemma leaf_shift_counts pl L n h :
  pl_ready pl L -> is_node n h -> n < 2 ^ 31 -> compacted pl (node_pos n h) = false ->
  get_leaf_shift (E := E) pl (node_pos n h)
  = Ok (Z.of_nat (length (List.filter (fun i => compacted pl (node_pos i 0)) (seqZ 0 (n + 1))))).
Proof.
  intros Hready Hn Hlt Hk. pose proof (proj1 Hready) as Hrep. pose proof Hrep as (Hsm & Hr & _).
  destruct (fits_u32 n h Hn Hlt) as (Hu & Hsl & _).
  rewrite (proj2 (get_shift_sum pl L (node_pos n h) Hready ltac:(unfold is_u32; lia))). f_equal.
  set (b := pl_bitmap pl) in *. set (rs := List.filter (fun r => r <=? node_pos n h) (bm_iter b)).
  assert (Hrs : forall r, r ∈ rs -> exists m k, is_node m k /\ r = node_pos m k /\ full_root L m k /\
      m <= n /\ bintree_postorder_height r = k /\ n_leaves r = m + 1 /\ 0 <= m).
  { intros r Hin. apply list_elem_of_In, filter_In in Hin as [Hin Hle].
    apply list_elem_of_In in Hin. apply Z.leb_le in Hle.
    destruct (root_height b L r Hsm Hr Hin) as (m & k & Hm & Hmb & -> & Hroot & Eh & _).
    destruct (fits_u32 m k Hm ltac:(lia)) as (_ & Hsm' & _).
    exists m, k. rewrite n_leaves_pos by done.
    pose proof (node_pos_lt_leaves m k n h Hm Hn Hle). naive_solver lia. }
  transitivity (Z.of_nat (length (List.filter
    (fun i => existsb (fun r => (n_leaves r - leaf_shift_of r <=? i) && (i <? n_leaves r)) rs)
    (seqZ 0 (n + 1))))).
  - rewrite (count_disjoint (fun r => n_leaves r - leaf_shift_of r) n_leaves).
    + f_equal. apply map_ext. intros r. lia.
    + apply NoDup_ListNoDup, List.NoDup_filter, NoDup_ListNoDup, bm_iter_nodup.
    + intros r Hin. destruct (Hrs r Hin) as (m & k & Hm & -> & _ & Hle & Eh & -> & Hm0).
      unfold leaf_shift_of. rewrite Eh. pose proof (pow2_node m k Hm).
      pose proof (pow2_pos k ltac:(destruct Hm; lia)). destruct (k =? 0); lia.
    + intros r r' i Hin Hin' Hx Hx'.
      destruct (Hrs r Hin) as (m & k & Hm & -> & Hroot & _ & Eh & El & _).
      destruct (Hrs r' Hin') as (m' & k' & Hm' & -> & Hroot' & _ & Eh' & El' & _).
      unfold leaf_shift_of in Hx, Hx'. rewrite Eh, El in Hx. rewrite Eh', El' in Hx'.
      pose proof (pow2_node m k Hm).
      assert (Hi0 : 0 <= i) by (destruct (k =? 0); lia).
      apply (leaf_interval L) in Hx as [Hs _]; [|done..]. apply (leaf_interval L) in Hx' as [Hs' _]; [|done..].
      pose proof (under_self i 0 (leaf_is_node i Hi0)) as Hui.
      destruct (roots_disjoint L i m k m' k') as [-> ->]; try done; eapply sub_under; done.
  - f_equal. f_equal. apply filter_ext_in. intros i Hi%list_elem_of_In%elem_of_seqZ.
    rewrite (compacted_leaf_in_roots pl L) by (done || lia). fold b.
    apply eq_true_iff_eq. rewrite !existsb_exists.
    split; intros (r & Hin & Hb); exists r; (split; [|done]).
    + apply filter_In in Hin as [Hin _]. done.
    + apply filter_In. split; [done|]. apply Z.leb_le. apply list_elem_of_In in Hin.
      destruct (root_height b L r Hsm Hr Hin) as (m & k & Hm & Hmb & -> & Hroot & Eh & _).
      destruct (fits_u32 m k Hm ltac:(lia)) as (_ & Hsm' & _).
      unfold leaf_shift_of in Hb. rewrite Eh, n_leaves_pos, andb_true_iff, Z.leb_le, Z.ltb_lt in Hb by done.
      apply (leaf_interval L i m k) in Hb; [|done|lia|done].
      pose proof (leaf_is_node i ltac:(lia)) as Hleaf.
      apply (strict_sub_pos i 0 m k Hleaf Hm) in Hb.
      apply (root_before_kept pl L (node_pos m k) (node_pos i 0)); [done|done|lia|done| |].
      * unfold shift_of. rewrite Eh. done.
      * destruct (Z.eq_dec i n) as [->|]; [unfold node_pos; destruct Hn; lia|].
        pose proof (mmr_size_strict i n ltac:(lia)). pose proof (trailing_ones_nonneg i).
        unfold node_pos. destruct Hn. lia.
Qed.

(** ** Opening, flushing, and the empty list *)

Lemma full_empty n h : is_node n h -> ~ full ∅ n h.
Proof. intros Hn Hf. specialize (Hf n (under_self n h Hn)). set_solver. Qed.

Lemma empty_rep : pl_rep (pl_empty : PruneList Bitmap) ∅.
Proof.
  assert (Hc : forall x, bm_contains (bm_remove bm_create 0 : Bitmap) x = false)
    by (intros x; rewrite bm_contains_remove, bm_contains_create; apply andb_false_r).
  split; [intros i Hi; set_solver|]. split; split.
  - apply Hc.
  - intros n h Hn _. cbn. rewrite Hc. split; [done|]. intros [Hf _]. destruct (full_empty n h Hn Hf).
  - apply bm_contains_create.
  - intros n h Hn _. cbn. rewrite bm_contains_create. split; [done|]. intros Hf. destruct (full_empty n h Hn Hf).
Qed.

Lemma holds_roots_ext b c L :
  (forall x, bm_contains b x = bm_contains c x) -> holds_roots b L -> holds_roots c L.
Proof. intros H [H0 Hr]. split; [rewrite <- H; done|]. intros n h Hn Hlt. rewrite <- H. by apply Hr. Qed.

(** No roots, no pruned leaves. *)
Lemma no_roots b L : small_set L -> holds_roots b L -> bm_is_empty b = true -> L = ∅.
Proof.
  intros Hsm [_ Hr] He. apply bm_is_empty_iter in He. apply set_eq. intros i. split; [|set_solver].
  intros Hi. exfalso. pose proof (Hsm i Hi). pose proof (leaf_is_node i ltac:(lia)) as Hn.
  assert (Hf : full L i 0).
  { intros j Hj. unfold under in Hj. change (2 ^ 0) with 1 in Hj. replace j with i by lia. done. }
  destruct (full_has_root L 64 i 0 Hsm Hn Hf ltac:(lia)) as (m & k & Hm & Hroot & _).
  pose proof (full_bound L m k Hsm Hm (proj1 Hroot)).
  assert (Hc : bm_contains b (node_pos m k) = true) by (apply Hr; [done|lia|done]).
  apply bm_contains_iter in Hc. rewrite He in Hc. set_solver.
Qed.

Lemma flush_ready pl L :
  pl_rep pl L -> exists pl', pl_flush (E := E) pl = Ok pl' /\ pl_ready pl' L /\
    pl_bitmap pl' = pl_bitmap pl /\
    pl_path pl' = match pl_path pl with Some _ => Some (Some (bm_serialize (pl_bitmap pl))) | None => None end.
Proof.
  intros (Hsm & Hr & Hf). unfold pl_flush.
  destruct (init_caches_spec (mkPruneList
    (match pl_path pl with Some _ => Some (Some (bm_serialize (pl_bitmap pl))) | None => None end)
    (pl_bitmap pl) (pruned_cache pl) (shift_cache pl) (leaf_shift_cache pl)) L Hsm Hr (fun _ => Hf))
    as (pl' & E' & Hready & Hb & Hp).
  exists pl'. done.
Qed.

Lemma open_ready b L :
  small_set L -> holds_roots b L ->
  exists pl, pl_open (E := E) (Some (bm_serialize b)) = Ok pl /\ pl_ready pl L /\
    pl_path pl = Some (Some (bm_serialize b)).
Proof.
  intros Hsm Hr. unfold pl_open.
  assert (Hc : forall x, bm_contains b x = bm_contains (bm_remove (bm_deserialize (bm_serialize b)) 0) x).
  { intros x. rewrite bm_contains_remove. destruct (Z.eqb_spec x 0) as [->|Hx]; [apply Hr|]. cbn.
    apply eq_true_iff_eq. rewrite !bm_contains_iter, bm_deserialize_iter. done. }
  pose proof (holds_roots_ext _ _ L Hc Hr) as Hr'.
  destruct (init_caches_spec (pl_new (Some (Some (bm_serialize b))) (bm_deserialize (bm_serialize b))) L Hsm Hr')
    as (pl' & E' & Hready & _ & Hp); [|exists pl'; done].
  intros He. cbn [pruned_cache pl_new]. rewrite (no_roots _ L Hsm Hr' He). apply empty_rep.
Qed.

(** ** Properties *)

(** The prune list stands for a set of pruned leaves.  Adding a leaf ends after climbing at most
    to the top of the tree, and the list then stands for the set with that leaf: a position counts
    as pruned exactly when all leaves below it are in the set, and the bitmap holds exactly the
    roots of the maximal pruned subtrees, so no entry is below another and no two are siblings. *)
Theorem prune_list_tracks_pruned_leaves pl L i :
  pl_rep pl L -> 0 <= i < 2 ^ 30 ->
  exists pl', pl_add (E := E) pl (node_pos i 0) = Ok pl' /\ pl_rep pl' ({[i]} ∪ L) /\
    forall n h, is_node n h -> n < 2 ^ 31 ->
      pl_is_pruned (E := E) pl' (node_pos n h) = Ok (bool_decide (full ({[i]} ∪ L) n h)) /\
      (pl_is_pruned_root (E := E) pl' (node_pos n h) = Ok true <->
       full ({[i]} ∪ L) n h /\ ~ full ({[i]} ∪ L) (parent_node n h).1 (parent_node n h).2).
Proof.
  intros Hrep Hi. destruct (add_leaf pl L i Hrep Hi) as (pl' & E' & Hrep' & _).
  exists pl'. split; [done|]. split; [done|]. intros n h Hn Hlt.
  destruct (fits_u32 n h Hn Hlt) as (Hu & _ & Hw). destruct Hrep' as (_ & [_ Hr] & [_ Hf]).
  unfold pl_is_pruned, pl_is_pruned_root. rewrite (proj2 (Z.ltb_lt _ _)) by lia. cbn [negb]. rewrite Hw. split.
  - f_equal. apply eq_true_iff_eq. rewrite bool_decide_eq_true. by apply Hf.
  - rewrite <- (Hr n h Hn Hlt). split; [intros [= ->]|intros ->]; done.
Qed.

(** After a flush, the shift of a kept position is the number of positions up to it that
    compaction has taken out of the hash file, and the leaf shift the number of leaves taken out of
    the data file, so position minus shift is the index in the compacted file.  Opening the saved
    file gives the same set of pruned leaves and the same shifts. *)
Theorem shifts_count_compacted_positions pl L f :
  pl_rep pl L -> pl_path pl = Some f ->
  exists pl' saved pl'', pl_flush (E := E) pl = Ok pl' /\ pl_path pl' = Some (Some saved) /\
    pl_open (E := E) (Some saved) = Ok pl'' /\ pl_rep pl' L /\ pl_rep pl'' L /\
    forall n h p, (p = pl' \/ p = pl'') -> is_node n h -> n < 2 ^ 31 ->
      compacted p (node_pos n h) = false ->
      get_shift (E := E) p (node_pos n h)
      = Ok (Z.of_nat (length (List.filter (compacted p) (seqZ 1 (node_pos n h))))) /\
      get_leaf_shift (E := E) p (node_pos n h)
      = Ok (Z.of_nat (length (List.filter (fun i => compacted p (node_pos i 0)) (seqZ 0 (n + 1))))).
Proof.
  intros Hrep Hpath. destruct (flush_ready pl L Hrep) as (pl' & E' & Hready & Hb & Hp).
  rewrite Hpath in Hp. pose proof Hrep as (Hsm & Hr & _).
  destruct (open_ready (pl_bitmap pl) L Hsm Hr) as (pl'' & E'' & Hready'' & _).
  exists pl', (bm_serialize (pl_bitmap pl)), pl''. do 3 (split; [done|]).
  split; [apply Hready|]. split; [apply Hready''|]. intros n h p Hp' Hn Hlt Hk.
  destruct (fits_u32 n h Hn Hlt) as (Hu & _ & _).
  assert (Hrp : pl_ready p L) by (destruct Hp' as [->| ->]; done).
  split; [apply (shift_counts p L); (done || lia)|by apply (leaf_shift_counts p L)].
Qed.

(** A leaf set after a rewind: the positions up to the cutoff that were in it, and those given back. *)
Lemma rewound_iter b cutoff rm y :
  0 <= cutoff -> cutoff + 1 < U32 ->
  y ∈ bm_iter (rewound b cutoff rm) <-> (y ∈ bm_iter b /\ y <= cutoff) \/ y ∈ bm_iter rm.
Proof.
  intros H0 Hc. unfold rewound. rewrite bm_or_iter, bm_remove_range_iter.
  rewrite add64_small by lia. unfold wrap32. rewrite Z.mod_small by lia.
  pose proof (fun Hy => bm_maximum_ge b y (proj2 (bm_contains_iter b y) Hy)) as Hm.
  split; intros [[H1 H2]|?]; auto; left; split; try done.
  - specialize (Hm H2). lia.
  - lia.
Qed.

(** Rewinding the leaf set keeps the positions up to the cutoff, drops those after it and adds
    back the given ones; discarding afterwards restores the set as it was last flushed, and flushing
    makes the rewound set the one a reopened leaf set has. *)
Theorem leaf_set_rewind (ls : LeafSet Bitmap) cutoff rm pos :
  0 <= cutoff -> cutoff + 1 < U32 -> is_u32 pos ->
  let ls' := ls_rewind ls cutoff rm in
  ls_includes ls' pos = (ls_includes ls pos && (pos <=? cutoff)) || bm_contains rm pos /\
  ls_includes (ls_discard ls') pos = bm_contains (ls_bitmap_bak ls) pos /\
  ls_includes (ls_open (ls_path (ls_flush ls'))) pos = ls_includes ls' pos.
Proof.
  intros H0 Hc Hp. unfold ls_includes, ls_rewind, ls_discard, ls_open, ls_flush. cbn [ls_bitmap ls_path ls_bitmap_bak].
  unfold wrap32. rewrite Z.mod_small by exact Hp. split; [|split; [done|]].
  - apply eq_true_iff_eq. rewrite orb_true_iff, andb_true_iff, Z.leb_le, !bm_contains_iter.
    rewrite rewound_iter by done. tauto.
  - apply eq_true_iff_eq. rewrite !bm_contains_iter, bm_deserialize_iter. done.
Qed.
End Spec.

(** ** Witnesses *)

Lemma prune_list_tracks_pruned_leaves_witness :
  exists pl', pl_add (Bitmap := gset Z) (E := unit) pl_empty (node_pos 3 0) = Ok pl' /\
    pl_is_pruned (E := unit) pl' (node_pos 3 0) = Ok true.
Proof.
  destruct (prune_list_tracks_pruned_leaves (Bitmap := gset Z) (E := unit) pl_empty ∅ 3 empty_rep ltac:(lia))
    as (pl' & E' & _ & Hp).
  exists pl'. split; [exact E'|]. rewrite (proj1 (Hp 3 0 (leaf_is_node 3 ltac:(lia)) ltac:(lia))).
  vm_compute. reflexivity.
Defined.

Lemma shifts_count_compacted_positions_witness :
  exists pl2 pl', pl_flush (Bitmap := gset Z) (E := unit) pl2 = Ok pl' /\
    pl_to_vec pl2 = [3] /\ get_shift (E := unit) pl' (node_pos 2 0) = Ok 2.
Proof.
  destruct (add_leaf (Bitmap := gset Z) (E := unit) (pl_new (Some None) bm_create) ∅ 0 empty_rep ltac:(lia))
    as (pl1 & E1 & H1 & P1 & _).
  destruct (add_leaf (E := unit) pl1 _ 1 H1 ltac:(lia)) as (pl2 & E2 & H2 & P2 & _).
  rewrite P1 in P2.
  destruct (shifts_count_compacted_positions (E := unit) pl2 _ None H2 P2)
    as (pl' & saved & pl'' & E3 & _ & _ & Hrep & _ & Hp).
  exists pl2, pl'. split; [exact E3|].
  vm_compute in E1. injection E1 as <-. vm_compute in E2. injection E2 as <-.
  split; [vm_compute; reflexivity|].
  pose proof (leaf_is_node 2 ltac:(lia)) as Hn.
  vm_compute in E3. injection E3 as <-.
  rewrite (proj1 (Hp 2 0 _ (or_introl eq_refl) Hn ltac:(lia) ltac:(vm_compute; reflexivity))).
  vm_compute. reflexivity.
Defined.

Lemma leaf_set_rewind_witness :
  let ls := mkLeafSet None ({[ 1; 4; 5 ]} : gset Z) ∅ in
  ls_includes (ls_rewind ls 4 {[ 2 ]}) 4 = true /\ ls_includes (ls_rewind ls 4 {[ 2 ]}) 5 = false.
Proof.
  split.
  - rewrite (proj1 (leaf_set_rewind (mkLeafSet None ({[ 1; 4; 5 ]} : gset Z) ∅) 4 {[ 2 ]} 4
      ltac:(lia) ltac:(lia) ltac:(unfold is_u32; lia))). vm_compute. reflexivity.
  - rewrite (proj1 (leaf_set_rewind (mkLeafSet None ({[ 1; 4; 5 ]} : gset Z) ∅) 4 {[ 2 ]} 5
      ltac:(lia) ltac:(lia) ltac:(unfold is_u32; lia))). vm_compute. reflexivity.
Defined.
