(* ===== verification/DataFile.v ===== *)
(** * Append-only data files

    Models [store/src/types.rs]: [SizeEntry], [SizeInfo], [AppendOnlyFile] and
    [DataFile].  A file is its bytes on disk, the snapshot that is memory-mapped,
    and a buffer of unsynced bytes; a file of variable-size elements keeps the
    offset and size of each element in a second file of fixed-size entries.  The
    file system operations succeed; errors are those of (de)serialization.

    The files refine a list: [FileState] is the flushed list, the length it has
    been rewound to and the appended elements, and every sequence of operations
    on the bytes simulates the same operations on the lists. *)

From Stdlib Require Import ZArith Lia List Bool Sorted.
From stdpp Require Import base numbers list option sets.
From S2P Require Import Prelude Bytes Ser.

(** ** Definitions *)

Record SizeEntry := mkSizeEntry { entry_offset : Z; entry_size : Z }.

(** [SizeEntry::LEN] *)
Definition SIZE_ENTRY_LEN : Z := 8 + 2.

#[export] Instance read_size_entry : Readable SizeEntry :=
  fun R _ =>
    (let! offset := read_u64 in
     let! size := read_u16 in
     read_ret (mkSizeEntry offset size)).

#[export] Instance write_size_entry : Writeable SizeEntry :=
  fun w e => write_u64 (entry_offset e) ++ write_u16 (entry_size e).

(** The content on disk, the mapped snapshot, the unsynced bytes, the element they start at, its
    backup during a rewind, and how elements are delimited. *)
Inductive SizeInfo (F : Type) :=
| FixedSize (elmt_size : Z)
| VariableSize (size_file : F).
Arguments FixedSize {F}.
Arguments VariableSize {F}.

Inductive AppendOnlyFile :=
| mkAof (disk : bytes) (size_info : SizeInfo AppendOnlyFile) (version : Z) (mmap : option bytes)
    (buffer : bytes) (buffer_start_pos buffer_start_pos_bak : Z).

Definition disk f := let '(mkAof d _ _ _ _ _ _) := f in d.
Definition size_info f := let '(mkAof _ s _ _ _ _ _) := f in s.
Definition aof_version f := let '(mkAof _ _ v _ _ _ _) := f in v.
Definition mmap f := let '(mkAof _ _ _ m _ _ _) := f in m.
Definition buffer f := let '(mkAof _ _ _ _ b _ _) := f in b.
Definition buffer_start_pos f := let '(mkAof _ _ _ _ _ s _) := f in s.
Definition buffer_start_pos_bak f := let '(mkAof _ _ _ _ _ _ k) := f in k.

(** [AppendOnlyFile::size] *)
Definition aof_size (f : AppendOnlyFile) : Z := Z.of_nat (length (disk f)).

(** [AppendOnlyFile::size_in_elmts]; dividing by an element size of zero panics *)
Fixpoint size_in_elmts (f : AppendOnlyFile) : res Error Z :=
  match f with
  | mkAof d (FixedSize elmt_size) _ _ _ _ _ =>
    if elmt_size =? 0 then Panic else Ok (Z.of_nat (length d) / elmt_size)
  | mkAof _ (VariableSize size_file) _ _ _ _ _ => size_in_elmts size_file
  end.

(** [AppendOnlyFile::size_unsync_in_elmts] *)
Fixpoint size_unsync_in_elmts (f : AppendOnlyFile) : res Error Z :=
  match f with
  | mkAof _ (FixedSize elmt_size) _ _ buffer start _ =>
    if elmt_size =? 0 then Panic else Ok (start + Z.of_nat (length buffer) / elmt_size)%u64
  | mkAof _ (VariableSize size_file) _ _ _ _ _ => size_unsync_in_elmts size_file
  end.

(** [read_from_buffer] and [read_from_mmap] *)
Definition slice (l : bytes) (offset len : Z) : bytes :=
  if Z.of_nat (length l) <? (offset + len)%u64 then []
  else take (Z.to_nat len) (drop (Z.to_nat offset) l).

Definition read_from_buffer (f : AppendOnlyFile) (offset len : Z) : bytes := slice (buffer f) offset len.
Definition read_from_mmap (f : AppendOnlyFile) (offset len : Z) : bytes :=
  match mmap f with Some m => slice m offset len | None => [] end.

(** [AppendOnlyFile::read], given the offsets of the elements *)
Definition aof_read_with (offset_and_size : Z -> res Error (Z * Z)) (f : AppendOnlyFile) (pos : Z)
    : res Error bytes :=
  let? size := size_unsync_in_elmts f in
  if size <=? pos then Ok []
  else
    let? '(offset, len) := offset_and_size pos in
    if pos <? buffer_start_pos f then Ok (read_from_mmap f offset len)
    else
      let? '(buffer_offset, _) := offset_and_size (buffer_start_pos f) in
      Ok (read_from_buffer f (saturating_sub offset buffer_offset) len).

(** [AppendOnlyFile::offset_and_size] *)
Fixpoint offset_and_size (f : AppendOnlyFile) (pos : Z) : res Error (Z * Z) :=
  match f with
  | mkAof _ (FixedSize elmt_size) _ _ _ _ _ => Ok ((pos * elmt_size)%u64, elmt_size)
  | mkAof _ (VariableSize size_file) _ _ _ _ _ =>
    let? data := aof_read_with (offset_and_size size_file) size_file pos in
    let? '(entry, _) := deserialize (A := SizeEntry) data (aof_version size_file) in
    Ok (entry_offset entry, entry_size entry)
  end.

(** [AppendOnlyFile::read] *)
Definition aof_read (f : AppendOnlyFile) (pos : Z) : res Error bytes :=
  aof_read_with (offset_and_size f) f pos.

(** [AppendOnlyFile::read_as_elmt] *)
Definition read_as_elmt {T} `{!Readable T} (f : AppendOnlyFile) (pos : Z) : res Error T :=
  let? data := aof_read f pos in
  let? '(a, _) := deserialize data (aof_version f) in
  Ok a.

(** [AppendOnlyFile::append] *)
Fixpoint aof_append (f : AppendOnlyFile) (bs : bytes) : res Error AppendOnlyFile :=
  match f with
  | mkAof d (FixedSize n) v m buffer start bak =>
    Ok (mkAof d (FixedSize n) v m (buffer ++ bs) start bak)
  | mkAof d (VariableSize size_file) v m buffer start bak =>
    let? next_pos := size_unsync_in_elmts size_file in
    let? offset :=
      if next_pos =? 0 then Ok 0
      else
        let? prev_entry := read_as_elmt size_file (saturating_sub next_pos 1) in
        Ok (entry_offset prev_entry + entry_size prev_entry)%u64 in
    let? size_file := aof_append size_file
      (ser_vec (mkSizeEntry offset (Z.of_nat (length bs) mod 2 ^ 16)) (aof_version size_file)) in
    Ok (mkAof d (VariableSize size_file) v m (buffer ++ bs) start bak)
  end.

(** [AppendOnlyFile::append_elmt] *)
Definition append_elmt {T} `{!Writeable T} (f : AppendOnlyFile) (data : T) : res Error AppendOnlyFile :=
  aof_append f (ser_vec data (aof_version f)).

(** [AppendOnlyFile::rewind] *)
Fixpoint aof_rewind (f : AppendOnlyFile) (pos : Z) : AppendOnlyFile :=
  match f with
  | mkAof d s v m buffer start bak =>
    let s := match s with VariableSize size_file => VariableSize (aof_rewind size_file pos) | _ => s end in
    mkAof d s v m buffer pos (if bak =? 0 then start else bak)
  end.

(** [File::set_len] *)
Definition set_len (n : Z) (d : bytes) : bytes :=
  take (Z.to_nat n) d ++ replicate (Z.to_nat n - length d) 0.

(** [AppendOnlyFile::flush] *)
Fixpoint aof_flush (f : AppendOnlyFile) : res Error AppendOnlyFile :=
  match f with
  | mkAof d s v m buffer start bak =>
    let? s := match s with
              | VariableSize size_file =>
                let? size_file := aof_flush size_file in Ok (VariableSize size_file)
              | _ => Ok s
              end in
    let? d :=
      if 0 <? bak then
        if start =? 0 then Ok (set_len 0 d)
        else
          let? '(offset, size) :=
            offset_and_size (mkAof d s v None buffer start bak) (saturating_sub start 1) in
          Ok (set_len (offset + size)%u64 d)
      else Ok d in
    let d := d ++ buffer in
    let? start := size_in_elmts (mkAof d s v None [] start 0) in
    Ok (mkAof d s v (if Z.of_nat (length d) =? 0 then None else Some d) [] start 0)
  end.

(** [AppendOnlyFile::discard] *)
Fixpoint aof_discard (f : AppendOnlyFile) : AppendOnlyFile :=
  match f with
  | mkAof d s v m buffer start bak =>
    let s := match s with VariableSize size_file => VariableSize (aof_discard size_file) | _ => s end in
    if 0 <? bak then mkAof d s v m [] bak 0 else mkAof d s v m [] start bak
  end.

(** [AppendOnlyFile::release] *)
Fixpoint aof_release (f : AppendOnlyFile) : AppendOnlyFile :=
  match f with
  | mkAof d s v m buffer start bak =>
    mkAof d (match s with VariableSize size_file => VariableSize (aof_release size_file) | _ => s end)
      v None buffer start bak
  end.

(** [AppendOnlyFile::replace] *)
Definition aof_replace (f : AppendOnlyFile) (content : bytes) : AppendOnlyFile :=
  let '(mkAof _ s v m buffer start bak) := aof_release f in mkAof content s v m buffer start bak.

(** [AppendOnlyFile::init] *)
Fixpoint aof_init (f : AppendOnlyFile) : res Error AppendOnlyFile :=
  match f with
  | mkAof d s v m buffer start bak =>
    let? s := match s with
              | VariableSize size_file => let? size_file := aof_init size_file in Ok (VariableSize size_file)
              | _ => Ok s
              end in
    if Z.of_nat (length d) =? 0 then Ok (mkAof d s v m buffer 0 bak)
    else
      let? start := size_in_elmts (mkAof d s v (Some d) buffer start bak) in
      Ok (mkAof d s v (Some d) buffer start bak)
  end.

Section Elements.
  Context {T : Type} `{!Readable T} `{!Writeable T}.

(** The loop of [save_prune]: what is written to the temporary file. *)
Fixpoint save_prune_loop (fuel : nat) (version : Z) (reader : StreamingReader) (current_pos : Z)
    (prune_pos : list Z) (out : bytes) : res Error bytes :=
  match fuel with
  | O => Panic
  | S fuel =>
    match read reader with
    | Ok (elmt, reader) =>
      if existsb (Z.eqb current_pos) prune_pos then
        save_prune_loop fuel version reader (current_pos + 1)%u64 (drop 1 prune_pos) out
      else
        save_prune_loop fuel version reader (current_pos + 1)%u64 prune_pos
          (out ++ write (Writeable := Writeable0) (bin_writer version) (elmt : T))
    | Err _ => Ok out
    | Panic => Panic
    end
  end.

(** The loop of [rebuild_size_file]: the entries written to the size file. *)
Fixpoint rebuild_loop (fuel : nat) (version : Z) (reader : StreamingReader) (current_offset : Z)
    (out : bytes) : res Error bytes :=
  match fuel with
  | O => Panic
  | S fuel =>
    match read (A := T) reader with
    | Ok (_, reader) =>
      let size := saturating_sub (total_bytes_read reader) current_offset mod 2 ^ 16 in
      rebuild_loop fuel version reader (current_offset + size)%u64
        (out ++ ser_vec (mkSizeEntry current_offset size) version)
    | Err _ => Ok out
    | Panic => Panic
    end
  end.

(** [AppendOnlyFile::rebuild_size_file] *)
Definition rebuild_size_file (f : AppendOnlyFile) : res Error AppendOnlyFile :=
  match f with
  | mkAof d (VariableSize size_file) v m buffer start bak =>
    let? entries := rebuild_loop (S (length d)) v (mkStreaming 0 v d) 0 [] in
    Ok (mkAof d (VariableSize (aof_replace size_file entries)) v m buffer start bak)
  | _ => Ok f
  end.

(** [AppendOnlyFile::save_prune] *)
Definition aof_save_prune (f : AppendOnlyFile) (prune_pos : list Z) : res Error AppendOnlyFile :=
  let? out := save_prune_loop (S (length (disk f))) (aof_version f)
                (mkStreaming 0 (aof_version f) (disk f)) 0 prune_pos [] in
  let f := aof_replace f out in
  let? f := match size_info f with VariableSize _ => rebuild_size_file f | FixedSize _ => Ok f end in
  aof_init f.

(** [AppendOnlyFile::<SizeEntry>::sum_sizes] *)
Fixpoint sum_sizes_loop (n : nat) (pos : Z) (sum : Z) (f : AppendOnlyFile) : res Error Z :=
  match n with
  | O => Ok sum
  | S n =>
    let? entry := read_as_elmt (T := SizeEntry) f pos in
    sum_sizes_loop n (pos + 1) (sum + entry_size entry)%u64 f
  end.
Definition sum_sizes (f : AppendOnlyFile) : res Error Z :=
  sum_sizes_loop (Z.to_nat (buffer_start_pos f)) 0 0 f.

(** [AppendOnlyFile::open], on the content of the file at the path (empty when it was created) *)
Definition aof_open (content : bytes) (s : SizeInfo AppendOnlyFile) (version : Z) : res Error AppendOnlyFile :=
  let? aof := aof_init (mkAof content s version None [] 0 0) in
  let expected_size := aof_size aof in
  match size_info aof with
  | VariableSize size_file =>
    let? sum := sum_sizes size_file in
    if negb (sum =? expected_size) then
      let? aof := rebuild_size_file aof in aof_init aof
    else Ok aof
  | FixedSize _ => Ok aof
  end.

(** [DataFile::append]: the new size, in elements *)
Definition data_append (f : AppendOnlyFile) (data : T) : res Error (Z * AppendOnlyFile) :=
  let? f := append_elmt f data in
  match size_unsync_in_elmts f with
  | Ok n => Ok (n, f)
  | Err _ => Ok (0, f)
  | Panic => Panic
  end.

(** [DataFile::read] *)
Definition data_read (f : AppendOnlyFile) (position : Z) : res Error (option T) :=
  match read_as_elmt f (position - 1)%u64 with
  | Ok a => Ok (Some a)
  | Err _ => Ok None
  | Panic => Panic
  end.

(** [DataFile::save_prune] *)
Definition data_save_prune (f : AppendOnlyFile) (prune_pos : list Z) : res Error AppendOnlyFile :=
  aof_save_prune f (map (fun x => (x - 1)%u64) prune_pos).
End Elements.

(** [DataFile::size] *)
Definition data_size (f : AppendOnlyFile) : res Error Z :=
  match size_in_elmts f with Ok n => Ok n | Err _ => Ok 0 | Panic => Panic end.

(** ** Lists of records

    At the level of bytes an element is a chunk.  A file state is the list of chunks on disk, how
    many of them a rewind has kept, and the chunks in the buffer. *)

Record FileState (A : Type) := mkState { flushed : list A; keep : nat; pending : list A }.
Arguments mkState {A}.
Arguments flushed {A}.
Arguments keep {A}.
Arguments pending {A}.

(** What a reader of the file sees. *)
Definition view {A} (s : FileState A) : list A := take (keep s) (flushed s) ++ pending s.

Definition total (l : list bytes) : Z := Z.of_nat (length (concat l)).

Lemma total_app l l' : total (l ++ l') = total l + total l'.
Proof. unfold total. rewrite concat_app, length_app. lia. Qed.

Lemma total_nonneg l : 0 <= total l.
Proof. unfold total. lia. Qed.

Lemma total_take_le l i : total (take i l) <= total l.
Proof.
  rewrite <- (take_drop i l) at 2. rewrite total_app. pose proof (total_nonneg (drop i l)). lia.
Qed.

Lemma total_cons c l : total (c :: l) = Z.of_nat (length c) + total l.
Proof. unfold total. simpl. rewrite length_app. lia. Qed.

(** Reading the bytes of a chunk out of the concatenation. *)
Lemma slice_chunk (l : list bytes) i c :
  l !! i = Some c -> total l < 2 ^ 62 ->
  slice (concat l) (total (take i l)) (Z.of_nat (length c)) = c.
Proof.
  intros Hi Hb. change (2 ^ 62) with 4611686018427387904 in Hb.
  assert (El : l = take i l ++ c :: drop (S i) l) by (symmetry; by apply take_drop_middle).
  assert (Et : total l = total (take i l) + Z.of_nat (length c) + total (drop (S i) l))
    by (rewrite El at 1; rewrite total_app, total_cons; lia).
  pose proof (total_nonneg (take i l)). pose proof (total_nonneg (drop (S i) l)).
  unfold slice. rewrite add64_small by lia. fold (total l). rewrite (proj2 (Z.ltb_ge _ _)) by lia.
  rewrite El at 2. rewrite concat_app. unfold total. rewrite !Nat2Z.id, drop_app_length.
  simpl. rewrite take_app_length. done.
Qed.

(** ** The files as lists of chunks *)

Definition chunk_ok (c : bytes) : Prop := 0 < Z.of_nat (length c) < 2 ^ 16.

(** The part of the representation both kinds of files share. *)
Definition common_rep (f : AppendOnlyFile) (s : FileState bytes) : Prop :=
  disk f = concat (flushed s) /\ buffer f = concat (pending s) /\
  buffer_start_pos f = Z.of_nat (keep s) /\ (keep s <= length (flushed s))%nat /\
  (buffer_start_pos_bak f = 0 /\ keep s = length (flushed s) \/
   buffer_start_pos_bak f = Z.of_nat (length (flushed s)) /\ (0 < length (flushed s))%nat) /\
  mmap f = (if Z.of_nat (length (disk f)) =? 0 then None else Some (disk f)) /\
  Forall chunk_ok (flushed s) /\ Forall chunk_ok (pending s) /\
  total (flushed s) + total (pending s) < 2 ^ 62.

Definition fixed_rep (n : Z) (f : AppendOnlyFile) (s : FileState bytes) : Prop :=
  common_rep f s /\ size_info f = FixedSize n /\ 0 < n < 2 ^ 16 /\
  Forall (fun c => Z.of_nat (length c) = n) (flushed s) /\
  Forall (fun c => Z.of_nat (length c) = n) (pending s).

(** The size entries of consecutive chunks from an offset. *)
Fixpoint entries (offset : Z) (l : list bytes) : list SizeEntry :=
  match l with
  | [] => []
  | c :: l => mkSizeEntry offset (Z.of_nat (length c)) :: entries (offset + Z.of_nat (length c)) l
  end.

Definition entry_state (v : Z) (s : FileState bytes) : FileState bytes :=
  mkState (map (fun e => ser_vec e v) (entries 0 (flushed s))) (keep s)
    (map (fun e => ser_vec e v) (entries (total (take (keep s) (flushed s))) (pending s))).

Definition variable_rep (f : AppendOnlyFile) (s : FileState bytes) : Prop :=
  common_rep f s /\
  exists size_file, size_info f = VariableSize size_file /\
    fixed_rep SIZE_ENTRY_LEN size_file (entry_state (aof_version size_file) s).

(** A file of elements of a fixed size, or of variable sizes. *)
Definition aof_rep (elmt_size : option Z) (f : AppendOnlyFile) (s : FileState bytes) : Prop :=
  match elmt_size with Some n => fixed_rep n f s | None => variable_rep f s end.

Lemma view_length {A} (s : FileState A) :
  (keep s <= length (flushed s))%nat -> length (view s) = (keep s + length (pending s))%nat.
Proof. intros H. unfold view. rewrite length_app, length_take. lia. Qed.

Lemma view_total s :
  common_rep s.1 s.2 -> total (view s.2) < 2 ^ 62.
Proof.
  intros (_ & _ & _ & _ & _ & _ & _ & _ & Hb). unfold view. rewrite total_app.
  pose proof (total_take_le (flushed s.2) (keep s.2)). lia.
Qed.

Lemma total_fixed n (l : list bytes) :
  Forall (fun c => Z.of_nat (length c) = n) l -> total l = Z.of_nat (length l) * n.
Proof. induction 1 as [|c l Hc Hl IH]; [done|]. rewrite total_cons, IH, Hc. simpl length. lia. Qed.

(** [offset_and_size] finds the chunks of the view, [read] returns their bytes. *)
Definition offsets_ok (f : AppendOnlyFile) (s : FileState bytes) : Prop :=
  size_unsync_in_elmts f = Ok (Z.of_nat (length (view s))) /\
  forall i c, view s !! i = Some c ->
    offset_and_size f (Z.of_nat i) = Ok (total (take i (view s)), Z.of_nat (length c)).

Lemma read_common f s (i : nat) :
  common_rep f s -> offsets_ok f s -> aof_read f (Z.of_nat i) = Ok (default [] (view s !! i)).
Proof.
  intros Hc [Hsz Hoff]. pose proof (view_total (f, s) Hc) as Hvt. cbn [fst snd] in Hvt.
  destruct Hc as (Hd & Hbuf & Hst & Hk & _ & Hm & Hfo & Hpo & Hb).
  unfold aof_read, aof_read_with. rewrite Hsz. cbn [res_bind].
  destruct (view s !! i) as [c|] eqn:Ei.
  2: { apply lookup_ge_None in Ei. rewrite (proj2 (Z.leb_le _ _)) by lia. done. }
  pose proof (lookup_lt_Some _ _ _ Ei) as Hlt. rewrite (proj2 (Z.leb_gt _ _)) by lia.
  rewrite (Hoff i c Ei). cbn [res_bind from_option id]. rewrite Hst.
  assert (Hft : total (flushed s) < 2 ^ 62) by (pose proof (total_nonneg (pending s)); lia).
  assert (Hpt : total (pending s) < 2 ^ 62) by (pose proof (total_nonneg (flushed s)); lia).
  destruct (Z.ltb_spec (Z.of_nat i) (Z.of_nat (keep s))) as [Hi|Hi].
  - unfold view in Ei. rewrite lookup_app_l, lookup_take_lt in Ei by (rewrite ?length_take; lia).
    replace (take i (view s)) with (take i (flushed s))
      by (unfold view; rewrite take_app_le, take_take by (rewrite length_take; lia); f_equal; lia).
    unfold read_from_mmap. rewrite Hm, Hd.
    destruct (Z.eqb_spec (Z.of_nat (length (concat (flushed s)))) 0) as [E0|_];
      [|f_equal; by apply slice_chunk].
    exfalso. pose proof (proj1 (Forall_lookup _ _) Hfo i c Ei) as Hc. unfold chunk_ok in Hc.
    assert (El := take_drop_middle _ _ _ Ei). apply (f_equal total) in El.
    rewrite total_app, total_cons in El. unfold total in El at 3. rewrite E0 in El.
    pose proof (total_nonneg (take i (flushed s))). pose proof (total_nonneg (drop (S i) (flushed s))). lia.
  - destruct (lookup_lt_is_Some_2 (view s) (keep s)) as [c0 E0]; [lia|].
    rewrite (Hoff (keep s) c0 E0). cbn [res_bind]. f_equal.
    assert (Ek : take (keep s) (view s) = take (keep s) (flushed s)).
    { unfold view. rewrite take_app_le by (rewrite length_take; lia). rewrite take_take. f_equal. lia. }
    assert (Et : take i (view s) = take (keep s) (flushed s) ++ take (i - keep s) (pending s)).
    { unfold view. rewrite take_app. rewrite take_ge by (rewrite length_take; lia).
      rewrite length_take. do 2 f_equal. lia. }
    rewrite Ek, Et, total_app. unfold saturating_sub, read_from_buffer. rewrite Hbuf.
    pose proof (total_nonneg (take (i - keep s) (pending s))).
    rewrite Z.max_r by lia.
    replace (total (take (keep s) (flushed s)) + _ - _) with (total (take (i - keep s) (pending s))) by lia.
    apply slice_chunk; [|done]. unfold view in Ei. rewrite lookup_app_r in Ei by (rewrite length_take; lia).
    rewrite length_take, Nat.min_l in Ei by lia. exact Ei.
Qed.

Lemma fixed_offsets n f s : fixed_rep n f s -> offsets_ok f s.
Proof.
  intros (Hc & Hs & Hn & Hfn & Hpn). pose proof (view_total (f, s) Hc) as Hvt. cbn [fst snd] in Hvt.
  change (2 ^ 62) with 4611686018427387904 in Hvt.
  pose proof Hc as (_ & Hbuf & Hst & Hk & _).
  assert (Hv : Forall (fun c => Z.of_nat (length c) = n) (view s)).
  { unfold view. apply Forall_app. split; [by apply Forall_take|done]. }
  rewrite (total_fixed n) in Hvt by done.
  destruct f as [d s' v m b st bak]. cbn in Hs, Hbuf, Hst. subst. split.
  - cbn [size_unsync_in_elmts]. rewrite (proj2 (Z.eqb_neq _ _)) by lia. f_equal.
    fold (total (pending s)). rewrite (total_fixed n) by done. rewrite Z.div_mul by lia.
    rewrite view_length in * by done. rewrite add64_small; nia.
  - intros i c Hi. cbn [offset_and_size]. f_equal.
    rewrite (total_fixed n) by (by apply Forall_take).
    pose proof (proj1 (Forall_lookup _ _) Hv i c Hi) as Hlen. simpl in Hlen. rewrite Hlen.
    pose proof (lookup_lt_Some _ _ _ Hi). rewrite length_take_le by lia.
    rewrite mul64_small; [done|]. nia.
Qed.

Lemma fixed_read n f s (i : nat) :
  fixed_rep n f s -> aof_read f (Z.of_nat i) = Ok (default [] (view s !! i)).
Proof. intros H. apply read_common; [apply H|by eapply fixed_offsets]. Qed.

(** Size entries. *)

Lemma entry_reads (e : SizeEntry) v rest :
  is_u64 (entry_offset e) -> 0 <= entry_size e < 2 ^ 16 ->
  deserialize (A := SizeEntry) (ser_vec e v ++ rest) v = Ok (e, mkBinReader rest v).
Proof.
  intros Ho Hs. unfold deserialize, ser_vec, write, write_size_entry.
  assert (Hr : reads (R := BinReader) v read (write_u64 (entry_offset e) ++ write_u16 (entry_size e)) e).
  { unfold read, read_size_entry. eapply reads_bind; [apply reads_u64; exact Ho|].
    eapply reads_bind_last; [by apply reads_u16|]. destruct e. apply reads_ret. }
  destruct (Hr (mkBinReader ((write_u64 (entry_offset e) ++ write_u16 (entry_size e)) ++ rest) v) rest
    eq_refl eq_refl) as (r' & -> & Hrem & Hv).
  destruct r' as [src v']. cbn in Hrem, Hv. subst. done.
Qed.

Lemma length_entry e v : Z.of_nat (length (ser_vec e v)) = SIZE_ENTRY_LEN.
Proof.
  unfold ser_vec, write, write_size_entry, write_u64, write_u16.
  rewrite length_app, !length_be_bytes. done.
Qed.

Lemma entries_length o l : length (entries o l) = length l.
Proof. revert o; induction l as [|c l IH]; intros o; simpl; [done|]. rewrite IH. done. Qed.

Lemma entries_app o l l' : entries o (l ++ l') = entries o l ++ entries (o + total l) l'.
Proof.
  revert o; induction l as [|c l IH]; intros o; simpl; [rewrite Z.add_0_r; done|].
  rewrite IH, total_cons, Z.add_assoc. done.
Qed.

Lemma entries_lookup o l i c :
  l !! i = Some c -> entries o l !! i = Some (mkSizeEntry (o + total (take i l)) (Z.of_nat (length c))).
Proof.
  intros Hi. rewrite <- (take_drop_middle _ _ _ Hi) at 1. rewrite entries_app.
  pose proof (lookup_lt_Some _ _ _ Hi).
  rewrite lookup_app_r by (rewrite entries_length, length_take; lia).
  rewrite entries_length, length_take_le, Nat.sub_diag by lia. done.
Qed.

Lemma entries_take o l i : entries o (take i l) = take i (entries o l).
Proof.
  revert o i; induction l as [|c l IH]; intros o [|i]; simpl; try done. rewrite IH. done.
Qed.

Lemma entry_state_view v s : view (entry_state v s) = map (fun e => ser_vec e v) (entries 0 (view s)).
Proof.
  unfold view at 1. cbn [flushed keep pending entry_state].
  unfold view. rewrite entries_app, map_app, entries_take, Z.add_0_l. f_equal.
  apply firstn_map.
Qed.

Lemma entry_state_lookup v s i c :
  view s !! i = Some c ->
  view (entry_state v s) !! i
  = Some (ser_vec (mkSizeEntry (total (take i (view s))) (Z.of_nat (length c))) v).
Proof.
  intros Hi. rewrite entry_state_view, list_lookup_fmap, (entries_lookup 0 _ _ _ Hi), Z.add_0_l. done.
Qed.

Lemma variable_offsets f s : variable_rep f s -> offsets_ok f s.
Proof.
  intros (Hc & g & Hs & Hg). pose proof (view_total (f, s) Hc) as Hvt. cbn [fst snd] in Hvt.
  pose proof Hc as (_ & Hbuf & Hst & Hk & _ & _ & Hfo & Hpo & _).
  destruct (fixed_offsets _ _ _ Hg) as [Hsz _].
  destruct f as [d s' v m b st bak]. cbn in Hs. subst s'. split.
  - cbn [size_unsync_in_elmts]. rewrite Hsz, entry_state_view, length_map, entries_length. done.
  - intros i c Hi. cbn [offset_and_size]. fold (aof_read g (Z.of_nat i)).
    rewrite (fixed_read _ _ _ i Hg), (entry_state_lookup _ _ _ _ Hi). cbn [res_bind from_option id].
    rewrite <- (app_nil_r (ser_vec _ _)), entry_reads; [done| |].
    + unfold is_u64. cbn [entry_offset]. pose proof (total_nonneg (take i (view s))).
      pose proof (total_take_le (view s) i). change (2 ^ 62) with 4611686018427387904 in Hvt. lia.
    + cbn [entry_size]. assert (Hv : Forall chunk_ok (view s))
        by (unfold view; apply Forall_app; split; [by apply Forall_take|done]).
      pose proof (proj1 (Forall_lookup _ _) Hv i c Hi) as Hch. unfold chunk_ok in Hch. lia.
Qed.

Lemma aof_offsets sz f s : aof_rep sz f s -> offsets_ok f s.
Proof. destruct sz; [by apply fixed_offsets|by apply variable_offsets]. Qed.

Lemma rep_common sz f s : aof_rep sz f s -> common_rep f s.
Proof. destruct sz; intros H; apply H. Qed.

Lemma rep_read sz f s (i : nat) :
  aof_rep sz f s -> aof_read f (Z.of_nat i) = Ok (default [] (view s !! i)).
Proof. intros H. apply read_common; [by eapply rep_common|by eapply aof_offsets]. Qed.

(** ** The operations on states *)

Definition state_append {A} (s : FileState A) (c : A) : FileState A :=
  mkState (flushed s) (keep s) (pending s ++ [c]).
Definition state_rewind {A} (s : FileState A) (n : nat) : FileState A :=
  mkState (flushed s) n (pending s).
Definition state_flush {A} (s : FileState A) : FileState A :=
  mkState (view s) (length (view s)) [].
Definition state_discard {A} (s : FileState A) : FileState A :=
  mkState (flushed s) (length (flushed s)) [].

Lemma concat_snoc {A} (l : list (list A)) c : concat (l ++ [c]) = concat l ++ c.
Proof. rewrite concat_app. simpl. rewrite app_nil_r. done. Qed.

Lemma common_append s c d s' v m b st bak :
  common_rep (mkAof d s' v m b st bak) s -> chunk_ok c ->
  total (flushed s) + total (pending s) + Z.of_nat (length c) < 2 ^ 62 ->
  forall s'', common_rep (mkAof d s'' v m (b ++ c) st bak) (state_append s c).
Proof.
  intros (Hd & Hbuf & Hst & Hk & Hbak & Hm & Hfo & Hpo & Hb) Hc Hl s''. cbn in *.
  split; [done|]. cbn. rewrite concat_snoc, Hbuf. do 3 (split; [done|]). split; [done|]. split; [done|].
  split; [done|]. split; [apply Forall_app; auto|]. rewrite total_app, total_cons. change (total []) with 0. lia.
Qed.

Lemma fixed_append n f s c :
  fixed_rep n f s -> Z.of_nat (length c) = n ->
  total (flushed s) + total (pending s) + n < 2 ^ 62 ->
  exists f', aof_append f c = Ok f' /\ fixed_rep n f' (state_append s c) /\ aof_version f' = aof_version f.
Proof.
  intros (Hc & Hs & Hn & Hfn & Hpn) Hlen Hb. destruct f as [d s' v m b st bak] eqn:Ef.
  cbn in Hs. subst s'. cbn [aof_append]. eexists. split; [done|]. split; [|done]. split.
  - eapply common_append; [exact Hc|unfold chunk_ok; lia|lia].
  - split; [done|]. split; [done|]. split; [done|]. cbn. apply Forall_app. auto.
Qed.

Lemma entry_state_append v s c :
  (keep s <= length (flushed s))%nat ->
  entry_state v (state_append s c)
  = state_append (entry_state v s) (ser_vec (mkSizeEntry (total (view s)) (Z.of_nat (length c))) v).
Proof.
  intros Hk. unfold entry_state, state_append, view. cbn [flushed keep pending].
  rewrite entries_app, map_app, total_app. done.
Qed.

(** The offset of the next element is where the last one ends. *)
Lemma next_offset g s :
  fixed_rep SIZE_ENTRY_LEN g (entry_state (aof_version g) s) -> Forall chunk_ok (view s) ->
  total (view s) < 2 ^ 62 -> view s <> [] ->
  exists e, read_as_elmt (T := SizeEntry) g (saturating_sub (Z.of_nat (length (view s))) 1) = Ok e /\
    (entry_offset e + entry_size e)%u64 = total (view s).
Proof.
  intros Hg Hch Hb Hne.
  destruct (exists_last Hne) as (l & c & El). rewrite El in *.
  assert (Hc : chunk_ok c) by (apply Forall_app in Hch as [_ Hch]; by inversion Hch).
  rewrite length_app, total_app, total_cons in *. cbn [length total concat] in *.
  assert (E0 : total [] = 0) by done. rewrite E0 in *.
  unfold saturating_sub. replace (Z.max 0 _) with (Z.of_nat (length l)) by lia.
  assert (Hi : view s !! length l = Some c) by (rewrite El; by apply list_lookup_middle).
  unfold read_as_elmt. rewrite (fixed_read _ _ _ _ Hg), (entry_state_lookup _ _ _ _ Hi).
  cbn [res_bind from_option id]. rewrite El, take_app_length.
  change (2 ^ 62) with 4611686018427387904 in Hb. pose proof (total_nonneg l).
  unfold chunk_ok in Hc. rewrite <- (app_nil_r (ser_vec _ _)), entry_reads; cbn [entry_offset entry_size];
    [|unfold is_u64; lia|lia].
  eexists. split; [done|]. cbn [entry_offset entry_size]. rewrite add64_small by lia. lia.
Qed.

Lemma chunks_of_view f s : common_rep f s -> Forall chunk_ok (view s).
Proof.
  intros (_ & _ & _ & _ & _ & _ & Hfo & Hpo & _). unfold view. apply Forall_app.
  split; [by apply Forall_take|done].
Qed.

Lemma total_entries v (l : list SizeEntry) :
  total (map (fun e => ser_vec e v) l) = Z.of_nat (length l) * SIZE_ENTRY_LEN.
Proof.
  rewrite (total_fixed SIZE_ENTRY_LEN); [rewrite length_map; done|].
  apply List.Forall_map, Forall_forall. intros e _. apply length_entry.
Qed.

Lemma variable_append f s c :
  variable_rep f s -> chunk_ok c ->
  total (flushed s) + total (pending s) + Z.of_nat (length c) < 2 ^ 62 ->
  Z.of_nat (length (flushed s)) + Z.of_nat (length (pending s)) < 2 ^ 58 ->
  exists f', aof_append f c = Ok f' /\ variable_rep f' (state_append s c) /\ aof_version f' = aof_version f.
Proof.
  intros (Hc & g & Hs & Hg) Hch Hb Hcount. pose proof (view_total (f, s) Hc) as Hvt. cbn [fst snd] in Hvt.
  pose proof (chunks_of_view f s Hc) as Hcv.
  destruct f as [d s' v m b st bak] eqn:Ef. cbn in Hs. subst s'. cbn [aof_append].
  destruct (fixed_offsets _ _ _ Hg) as [-> _]. cbn [res_bind].
  rewrite entry_state_view, length_map, entries_length.
  assert (Hoff : (if Z.of_nat (length (view s)) =? 0 then Ok 0
      else let? prev_entry := read_as_elmt g (saturating_sub (Z.of_nat (length (view s))) 1) in
           Ok (entry_offset prev_entry + entry_size prev_entry)%u64) = Ok (E := Error) (total (view s))).
  { destruct (Z.eqb_spec (Z.of_nat (length (view s))) 0) as [E0|E0].
    - destruct (view s); [done|discriminate].
    - destruct (next_offset g s Hg Hcv Hvt) as (e & -> & He); [intros E1; rewrite E1 in E0; done|].
      cbn [res_bind]. rewrite He. done. }
  rewrite Hoff. cbn [res_bind]. unfold chunk_ok in Hch. rewrite (Z.mod_small (Z.of_nat _)) by lia.
  destruct (fixed_append _ _ _ (ser_vec (mkSizeEntry (total (view s)) (Z.of_nat (length c))) (aof_version g)) Hg)
    as (g' & -> & Hg' & Ev).
  - apply length_entry.
  - cbn [flushed pending entry_state]. rewrite !total_entries, !entries_length.
    unfold SIZE_ENTRY_LEN. change (2 ^ 62) with (16 * 2 ^ 58). lia.
  - cbn [res_bind]. eexists. split; [done|]. split; [|done]. split.
    + eapply common_append; [exact Hc|done|lia].
    + exists g'. split; [done|]. rewrite Ev, entry_state_append by apply Hc. done.
Qed.

(** ** Rewind, flush and discard *)

Lemma common_rewind d s' v m b st bak s (n : nat) :
  common_rep (mkAof d s' v m b st bak) s -> pending s = [] -> (n <= length (flushed s))%nat ->
  forall s'', common_rep (mkAof d s'' v m b (Z.of_nat n) (if bak =? 0 then st else bak)) (state_rewind s n).
Proof.
  intros (Hd & Hbuf & Hst & Hk & Hbak & Hm & Hrest) Hp Hn s''. cbn in *.
  do 3 (split; [done|]). split; [done|]. cbn. split; [|done].
  destruct Hbak as [[-> Hkeep]|[-> Hlen]]; [rewrite Z.eqb_refl|rewrite (proj2 (Z.eqb_neq _ _)) by lia; by right].
  destruct (decide (length (flushed s) = 0)%nat); [left; lia|right; lia].
Qed.

Lemma fixed_rewind n f s (k : nat) :
  fixed_rep n f s -> pending s = [] -> (k <= length (flushed s))%nat ->
  fixed_rep n (aof_rewind f (Z.of_nat k)) (state_rewind s k) /\
  aof_version (aof_rewind f (Z.of_nat k)) = aof_version f.
Proof.
  intros (Hc & Hs & Hn & Hfn & Hpn) Hp Hk. destruct f as [d s' v m b st bak]. cbn in Hs. subst s'.
  cbn [aof_rewind]. split; [|done]. split; [by eapply common_rewind|done].
Qed.

Lemma variable_rewind f s (k : nat) :
  variable_rep f s -> pending s = [] -> (k <= length (flushed s))%nat ->
  variable_rep (aof_rewind f (Z.of_nat k)) (state_rewind s k).
Proof.
  intros (Hc & g & Hs & Hg) Hp Hk. destruct f as [d s' v m b st bak]. cbn in Hs. subst s'.
  cbn [aof_rewind]. split; [by eapply common_rewind|]. exists (aof_rewind g (Z.of_nat k)). split; [done|].
  destruct (fixed_rewind _ _ _ k Hg) as [Hg' ->]; cbn [flushed pending entry_state].
  - rewrite Hp. done.
  - rewrite length_map, entries_length. done.
  - unfold entry_state, state_rewind in *. cbn [flushed keep pending] in *. rewrite Hp in *. done.
Qed.

Lemma common_discard d s' v m b st bak s :
  common_rep (mkAof d s' v m b st bak) s ->
  forall s'', common_rep (if 0 <? bak then mkAof d s'' v m [] bak 0 else mkAof d s'' v m [] st bak)
                (state_discard s).
Proof.
  intros (Hd & Hbuf & Hst & Hk & Hbak & Hm & Hfo & Hpo & Hb) s''. cbn in *.
  pose proof (total_nonneg (pending s)). assert (E0 : total [] = 0) by done.
  destruct Hbak as [[-> Hbak]|[-> Hbak]].
  - split; [done|]. split; [done|]. split; [cbn; lia|]. split; [cbn; lia|]. split; [by left|].
    do 2 (split; [done|]). split; [constructor|]. cbn [flushed pending state_discard]. lia.
  - rewrite (proj2 (Z.ltb_lt _ _)) by lia.
    split; [done|]. split; [done|]. split; [cbn; lia|]. split; [cbn; lia|]. split; [by left|].
    do 2 (split; [done|]). split; [constructor|]. cbn [flushed pending state_discard]. lia.
Qed.

Lemma fixed_discard n f s :
  fixed_rep n f s -> fixed_rep n (aof_discard f) (state_discard s) /\
  aof_version (aof_discard f) = aof_version f.
Proof.
  intros (Hc & Hs & Hn & Hfn & Hpn). destruct f as [d s' v m b st bak]. cbn in Hs. subst s'.
  cbn [aof_discard]. pose proof (common_discard _ _ _ _ _ _ _ _ Hc (FixedSize n)) as Hc'.
  destruct (0 <? bak); (split; [|done]); split; done || (split; [done|]; split; [done|]; split; [done|constructor]).
Qed.

Lemma variable_discard f s : variable_rep f s -> variable_rep (aof_discard f) (state_discard s).
Proof.
  intros (Hc & g & Hs & Hg). destruct f as [d s' v m b st bak]. cbn in Hs. subst s'.
  cbn [aof_discard]. destruct (fixed_discard _ _ _ Hg) as [Hg' Ev].
  pose proof (common_discard _ _ _ _ _ _ _ _ Hc (VariableSize (aof_discard g))) as Hc'.
  assert (He : fixed_rep SIZE_ENTRY_LEN (aof_discard g) (entry_state (aof_version (aof_discard g)) (state_discard s))).
  { rewrite Ev. unfold state_discard, entry_state in *. cbn [flushed keep pending map entries] in *.
    rewrite length_map, entries_length in Hg'. done. }
  destruct (0 <? bak); (split; [done|]); exists (aof_discard g); done.
Qed.

Lemma set_len_take (l : list bytes) k : set_len (total (take k l)) (concat l) = concat (take k l).
Proof.
  unfold set_len, total. rewrite Nat2Z.id. rewrite <- (take_drop k l) at 2 4. rewrite concat_app.
  rewrite take_app_length, length_app. replace (_ - _)%nat with 0%nat by lia. apply app_nil_r.
Qed.

(** What the flush has written when the offset of the last kept element was found. *)
Lemma common_flush d s' v m b st bak s :
  common_rep (mkAof d s' v m b st bak) s ->
  let d' := concat (take (keep s) (flushed s)) ++ b in
  d' = concat (view s) /\
  forall s'', common_rep (mkAof d' s'' v (if Z.of_nat (length d') =? 0 then None else Some d') []
                  (Z.of_nat (length (view s))) 0) (state_flush s).
Proof.
  intros Hc. pose proof (chunks_of_view _ _ Hc) as Hcv. pose proof (view_total (_, s) Hc) as Hvt.
  destruct Hc as (Hd & Hbuf & Hst & Hk & Hbak & Hm & Hfo & Hpo & Hb). cbn in *.
  assert (E : concat (take (keep s) (flushed s)) ++ b = concat (view s))
    by (unfold view; rewrite concat_app, Hbuf; done).
  split; [done|]. intros s''. rewrite E. split; [done|]. split; [done|]. split; [done|].
  split; [cbn; lia|]. split; [by left|]. split; [done|]. split; [done|]. split; [constructor|].
  cbn [flushed pending state_flush]. change (total []) with 0. lia.
Qed.

(** The truncation of a rewound file. *)
Definition truncated (f : AppendOnlyFile) (s : FileState bytes) (o : res Error (Z * Z)) : Prop :=
  (0 < keep s)%nat -> exists off len, o = Ok (off, len) /\
    (off + len)%u64 = total (take (keep s) (flushed s)).

Lemma flush_truncates d s' v m b st bak s o :
  common_rep (mkAof d s' v m b st bak) s -> truncated (mkAof d s' v m b st bak) s o ->
  (if 0 <? bak then
     if st =? 0 then Ok (set_len 0 d)
     else let? '(offset, size) := o in Ok (set_len (offset + size)%u64 d)
   else Ok d) = Ok (E := Error) (concat (take (keep s) (flushed s))).
Proof.
  intros (Hd & Hbuf & Hst & Hk & Hbak & _) Ho. cbn in *. subst d.
  destruct Hbak as [[-> Hkeep]|[-> Hlen]].
  - rewrite Hkeep, take_ge by done. done.
  - rewrite (proj2 (Z.ltb_lt _ _)) by lia. rewrite Hst. destruct (Z.eqb_spec (Z.of_nat (keep s)) 0) as [E0|E0].
    + replace (keep s) with 0%nat by lia. done.
    + destruct (Ho ltac:(lia)) as (off & len & -> & E). cbn [res_bind]. rewrite E, set_len_take. done.
Qed.

Lemma fixed_size_in_elmts n d v m b st bak (l : list bytes) :
  d = concat l -> 0 < n -> Forall (fun c => Z.of_nat (length c) = n) l ->
  size_in_elmts (mkAof d (FixedSize n) v m b st bak) = Ok (Z.of_nat (length l)).
Proof.
  intros -> Hn Hl. cbn [size_in_elmts]. rewrite (proj2 (Z.eqb_neq _ _)) by lia.
  fold (total l). rewrite (total_fixed n) by done. rewrite Z.div_mul by lia. done.
Qed.

Lemma fixed_flush n f s :
  fixed_rep n f s ->
  exists f', aof_flush f = Ok f' /\ fixed_rep n f' (state_flush s) /\ aof_version f' = aof_version f.
Proof.
  intros (Hc & Hs & Hn & Hfn & Hpn). pose proof (view_total (f, s) Hc) as Hvt. cbn [fst snd] in Hvt.
  assert (Hv : Forall (fun c => Z.of_nat (length c) = n) (view s)).
  { unfold view. apply Forall_app. split; [by apply Forall_take|done]. }
  destruct f as [d s' v m b st bak]. cbn in Hs. subst s'. cbn [aof_flush res_bind].
  rewrite (flush_truncates _ _ _ _ _ _ _ s _ Hc).
  - cbn [res_bind]. destruct (common_flush _ _ _ _ _ _ _ _ Hc) as [Ed Hc'].
    rewrite (fixed_size_in_elmts n _ _ _ _ _ _ (view s)) by (done || lia). cbn [res_bind].
    eexists. split; [done|]. split; [|done]. split; [apply Hc'|].
    split; [done|]. split; [done|]. split; [done|constructor].
  - intros Hk. pose proof Hc as (_ & _ & Hst & Hkl & _). cbn in Hst. subst st.
    cbn [offset_and_size]. eexists _, _. split; [done|].
    unfold view in Hvt. rewrite total_app in Hvt. pose proof (total_nonneg (pending s)).
    rewrite (total_fixed n) in * by (by apply Forall_take). rewrite length_take_le in * by done.
    change (2 ^ 62) with 4611686018427387904 in Hvt. unfold saturating_sub.
    rewrite Z.max_r by lia. rewrite mul64_small by nia. rewrite add64_small by nia. lia.
Qed.

Lemma entry_state_flush v s : state_flush (entry_state v s) = entry_state v (state_flush s).
Proof.
  unfold state_flush at 1. rewrite entry_state_view, length_map, entries_length.
  unfold entry_state, state_flush. cbn [flushed keep pending entries map]. done.
Qed.

Lemma size_in_elmts_variable d v m b st bak g :
  size_in_elmts (mkAof d (VariableSize g) v m b st bak) = size_in_elmts g.
Proof. done. Qed.

Lemma fixed_rep_size n g s :
  fixed_rep n g s -> size_in_elmts g = Ok (Z.of_nat (length (flushed s))).
Proof.
  intros ((Hd & _) & Hs & Hn & Hf & _). destruct g as [d s' v m b st bak]. cbn in Hs, Hd. subst s'.
  apply fixed_size_in_elmts; (done || lia).
Qed.

Lemma variable_flush f s :
  variable_rep f s ->
  exists f', aof_flush f = Ok f' /\ variable_rep f' (state_flush s) /\ aof_version f' = aof_version f.
Proof.
  intros (Hc & g & Hs & Hg). pose proof (view_total (f, s) Hc) as Hvt. cbn [fst snd] in Hvt.
  pose proof (chunks_of_view _ _ Hc) as Hcv.
  destruct (fixed_flush _ _ _ Hg) as (g' & Eg & Hg' & Ev).
  destruct f as [d s' v m b st bak]. cbn in Hs. subst s'. cbn [aof_flush]. rewrite Eg. cbn [res_bind].
  rewrite entry_state_flush, <- Ev in Hg'.
  rewrite (flush_truncates _ _ _ _ _ _ _ s _ Hc).
  - cbn [res_bind]. destruct (common_flush _ _ _ _ _ _ _ _ Hc) as [Ed Hc'].
    rewrite size_in_elmts_variable, (fixed_rep_size _ _ _ Hg'). cbn [res_bind flushed entry_state state_flush].
    rewrite length_map, entries_length.
    eexists. split; [done|]. split; [|done]. split; [apply Hc'|]. exists g'. done.
  - intros Hk. pose proof Hc as (_ & _ & Hst & Hkl & _). cbn in Hst. subst st.
    unfold saturating_sub. replace (Z.max 0 _) with (Z.of_nat (keep s - 1)) by lia.
    destruct (lookup_lt_is_Some_2 (view s) (keep s - 1)) as [c Ec]; [rewrite view_length by done; lia|].
    assert (Hv' : view (state_flush s) = view s)
      by (unfold view at 1, state_flush; cbn; rewrite take_ge, app_nil_r by done; done).
    cbn [offset_and_size]. fold (aof_read g' (Z.of_nat (keep s - 1))).
    rewrite (fixed_read _ _ _ _ Hg'), (entry_state_lookup _ _ _ c) by (rewrite Hv'; done).
    rewrite Hv'. cbn [res_bind from_option id].
    assert (Hlast : total (take (keep s) (flushed s))
        = total (take (keep s - 1) (view s)) + Z.of_nat (length c)).
    { assert (Et : take (keep s) (flushed s) = take (keep s) (view s)).
      { unfold view. rewrite take_app_le, take_take by (rewrite length_take; lia). f_equal. lia. }
      rewrite Et. replace (keep s) with (S (keep s - 1)) at 1 by lia.
      rewrite (take_S_r _ _ _ Ec), total_app, total_cons. change (total []) with 0. lia. }
    pose proof (total_nonneg (take (keep s - 1) (view s))).
    pose proof (total_take_le (view s) (keep s - 1)). change (2 ^ 62) with 4611686018427387904 in Hvt.
    pose proof (proj1 (Forall_lookup _ _) Hcv _ _ Ec) as Hch. unfold chunk_ok in Hch.
    change (2 ^ 16) with 65536 in Hch.
    rewrite <- (app_nil_r (ser_vec _ _)), entry_reads; cbn [entry_offset entry_size];
      [|unfold is_u64; lia|change (2 ^ 16) with 65536; lia].
    eexists _, _. split; [done|]. cbn [entry_offset entry_size]. rewrite add64_small by lia. lia.
Qed.

(** ** Both kinds of files *)

(** The chunks a file of this kind holds. *)
Definition fits_kind (sz : option Z) (c : bytes) : Prop :=
  match sz with Some n => Z.of_nat (length c) = n | None => chunk_ok c end.

(** Room for one more element. *)
Definition has_room (s : FileState bytes) : Prop :=
  total (flushed s) + total (pending s) < 2 ^ 61 /\
  Z.of_nat (length (flushed s)) + Z.of_nat (length (pending s)) < 2 ^ 58.

Lemma rep_append sz f s c :
  aof_rep sz f s -> fits_kind sz c -> has_room s ->
  exists f', aof_append f c = Ok f' /\ aof_rep sz f' (state_append s c) /\ aof_version f' = aof_version f.
Proof.
  intros Hr Hc [Hb Hn]. change (2 ^ 62) with (2 * 2 ^ 61) in *. destruct sz as [n|]; cbn in *.
  - apply fixed_append; [done|done|]. destruct Hr as (_ & _ & Hn' & _).
    change (2 ^ 16) with 65536 in Hn'. change (2 ^ 61) with 2305843009213693952 in *. change (2 ^ 62) with 4611686018427387904. lia.
  - apply variable_append; [done|done| |done]. unfold chunk_ok in Hc. change (2 ^ 16) with 65536 in Hc.
    change (2 ^ 61) with 2305843009213693952 in *. change (2 ^ 62) with 4611686018427387904. lia.
Qed.

Lemma rep_rewind sz f s (k : nat) :
  aof_rep sz f s -> pending s = [] -> (k <= length (flushed s))%nat ->
  aof_rep sz (aof_rewind f (Z.of_nat k)) (state_rewind s k) /\
  aof_version (aof_rewind f (Z.of_nat k)) = aof_version f.
Proof.
  destruct sz as [n|]; [apply fixed_rewind|]. intros Hr Hp Hk. split; [by apply variable_rewind|].
  by destruct f.
Qed.

Lemma rep_flush sz f s :
  aof_rep sz f s ->
  exists f', aof_flush f = Ok f' /\ aof_rep sz f' (state_flush s) /\ aof_version f' = aof_version f.
Proof. destruct sz; [apply fixed_flush|apply variable_flush]. Qed.

Lemma rep_discard sz f s :
  aof_rep sz f s -> aof_rep sz (aof_discard f) (state_discard s) /\
  aof_version (aof_discard f) = aof_version f.
Proof.
  destruct sz as [n|]; [apply fixed_discard|]. intros Hr. split; [by apply variable_discard|].
  destruct f as [d s' v m b st bak]. cbn. by destruct (0 <? bak).
Qed.

(** ** What an element type promises to its file

    [sz] is [PMMRable::elmt_size]; the laws are the round trip through the two readers, the second
    of which counts the bytes it consumed, and that reading at the end of a file fails. *)
Class ElmtCodec (T : Type) (v : Z) (sz : option Z) (dom : T -> Prop)
    `{!Readable T} `{!Writeable T} := {
  codec_size x : dom x -> chunk_ok (ser_vec x v) /\ fits_kind sz (ser_vec x v);
  codec_bin x rest : dom x ->
    read (mkBinReader (ser_vec x v ++ rest) v) = Ok (x, mkBinReader rest v);
  codec_bin_end : exists e, read (A := T) (mkBinReader [] v) = Err e;
  codec_stream x rest t : dom x -> 0 <= t < 2 ^ 62 ->
    read (mkStreaming t v (ser_vec x v ++ rest))
    = Ok (x, mkStreaming (t + Z.of_nat (length (ser_vec x v))) v rest);
  codec_stream_end t : exists e, read (A := T) (mkStreaming t v []) = Err e
}.

(** The elements whose index, counted from [k], is not in a set. *)
Fixpoint remove_idx {A} (p : Z -> bool) (k : Z) (l : list A) : list A :=
  match l with
  | [] => []
  | x :: l => if p k then remove_idx p (k + 1) l else x :: remove_idx p (k + 1) l
  end.

Lemma remove_idx_ext {A} (p q : Z -> bool) k (l : list A) :
  (forall i, k <= i < k + Z.of_nat (length l) -> p i = q i) -> remove_idx p k l = remove_idx q k l.
Proof.
  revert k; induction l as [|x l IH]; intros k H; simpl; [done|]. cbn [length] in H.
  rewrite H by lia. rewrite (IH (k + 1)) by (intros; apply H; lia). done.
Qed.

Lemma remove_idx_map {A B} (f : A -> B) p k (l : list A) :
  map f (remove_idx p k l) = remove_idx p k (map f l).
Proof.
  revert k; induction l as [|x l IH]; intros k; simpl; [done|]. destruct (p k); simpl; rewrite IH; done.
Qed.

Lemma remove_idx_sub {A} (P : A -> Prop) p k (l : list A) : Forall P l -> Forall P (remove_idx p k l).
Proof.
  intros H. revert k. induction H as [|x l Hx Hl IH]; intros k; simpl; [done|].
  destruct (p k); [done|constructor; done].
Qed.

Lemma total_remove_idx p k (l : list bytes) : total (remove_idx p k l) <= total l.
Proof.
  revert k; induction l as [|x l IH]; intros k; simpl; [lia|].
  rewrite total_cons. specialize (IH (k + 1)). destruct (p k); rewrite ?total_cons; lia.
Qed.

Section Typed.
  Context {T : Type} {v : Z} {sz : option Z} {dom : T -> Prop}
    `{!Readable T} `{!Writeable T} `{!ElmtCodec T v sz dom}.

Definition enc (x : T) : bytes := ser_vec x v.
Definition enc_state (s : FileState T) : FileState bytes :=
  mkState (map enc (flushed s)) (keep s) (map enc (pending s)).

(** The file holds the elements of the state. *)
Definition file_rep (f : AppendOnlyFile) (s : FileState T) : Prop :=
  aof_rep sz f (enc_state s) /\ aof_version f = v /\ Forall dom (flushed s) /\ Forall dom (pending s).

Lemma enc_view s : view (enc_state s) = map enc (view s).
Proof. unfold view, enc_state. cbn. rewrite map_app, firstn_map. done. Qed.

Lemma dom_view f s : file_rep f s -> Forall dom (view s).
Proof.
  intros (_ & _ & Hf & Hp). unfold view. apply Forall_app. split; [by apply Forall_take|done].
Qed.

Lemma file_read f s (i : nat) :
  file_rep f s -> Z.of_nat i < 2 ^ 63 -> data_read f (Z.of_nat i + 1) = Ok (view s !! i).
Proof.
  intros Hr Hi. pose proof (dom_view f s Hr) as Hdom. destruct Hr as (Hr & Hv & _).
  change (2 ^ 63) with 9223372036854775808 in Hi.
  unfold data_read, read_as_elmt. rewrite sub64_small by lia.
  replace (Z.of_nat i + 1 - 1) with (Z.of_nat i) by lia.
  rewrite (rep_read _ _ _ i Hr), enc_view, list_lookup_fmap, Hv. cbn [res_bind].
  destruct (view s !! i) as [x|] eqn:Ei; cbn; unfold deserialize.
  - rewrite <- (app_nil_r (enc x)). unfold enc.
    rewrite codec_bin by exact (proj1 (Forall_lookup _ _) Hdom i x Ei). done.
  - destruct codec_bin_end as [e He]. rewrite He. done.
Qed.

Lemma file_size f s :
  file_rep f s -> size_unsync_in_elmts f = Ok (Z.of_nat (length (view s))).
Proof.
  intros (Hr & _). destruct (aof_offsets _ _ _ Hr) as [-> _]. rewrite enc_view, length_map. done.
Qed.

(** Room for one more element, in bytes and in entries. *)
Definition file_room (s : FileState T) : Prop := has_room (enc_state s).

Lemma file_append f s x :
  file_rep f s -> dom x -> file_room s ->
  exists f', data_append f x = Ok (Z.of_nat (length (view s)) + 1, f') /\ file_rep f' (state_append s x).
Proof.
  intros Hrep Hx Hroom. pose proof Hrep as (Hr & Hv & Hf & Hp). unfold data_append, append_elmt. rewrite Hv.
  destruct (rep_append sz f (enc_state s) (enc x) Hr (proj2 (codec_size x Hx)) Hroom) as (f' & E' & Hr' & Hv').
  unfold enc in E'. rewrite E'. cbn [res_bind].
  assert (Hrep' : file_rep f' (state_append s x)).
  { split; [|split; [congruence|split; [done|apply Forall_app; auto]]].
    unfold enc_state, state_append in *. cbn in *. rewrite map_app. exact Hr'. }
  rewrite (file_size _ _ Hrep'). eexists. split; [|exact Hrep']. f_equal. f_equal.
  unfold view, state_append. cbn. rewrite app_assoc, !length_app. cbn. lia.
Qed.

Lemma file_rewind f s (k : nat) :
  file_rep f s -> pending s = [] -> (k <= length (flushed s))%nat ->
  file_rep (aof_rewind f (Z.of_nat k)) (state_rewind s k).
Proof.
  intros (Hr & Hv & Hf & Hp) Hnil Hk.
  destruct (rep_rewind sz f (enc_state s) k Hr) as [Hr' Hv'];
    [cbn; rewrite Hnil; done|cbn; rewrite length_map; done|].
  split; [exact Hr'|]. split; [congruence|done].
Qed.

Lemma file_flush f s :
  file_rep f s -> exists f', aof_flush f = Ok f' /\ file_rep f' (state_flush s).
Proof.
  intros Hrep. pose proof (dom_view f s Hrep) as Hdom. destruct Hrep as (Hr & Hv & Hf & Hp).
  destruct (rep_flush sz f (enc_state s) Hr) as (f' & E' & Hr' & Hv').
  exists f'. split; [done|]. split; [|split; [congruence|split; [done|constructor]]].
  unfold state_flush in *. rewrite enc_view, length_map in Hr'. exact Hr'.
Qed.

Lemma file_discard f s : file_rep f s -> file_rep (aof_discard f) (state_discard s).
Proof.
  intros (Hr & Hv & Hf & Hp). destruct (rep_discard sz f (enc_state s) Hr) as [Hr' Hv'].
  split; [|split; [congruence|split; [done|constructor]]].
  unfold state_discard in *. cbn in *. rewrite length_map in Hr'. exact Hr'.
Qed.

(** ** Sequences of operations *)

Inductive FileOp := OpAppend (x : T) | OpRewind (n : nat) | OpFlush | OpDiscard.

Definition run_op (f : AppendOnlyFile) (op : FileOp) : res Error AppendOnlyFile :=
  match op with
  | OpAppend x => let? '(_, f) := data_append f x in Ok f
  | OpRewind n => Ok (aof_rewind f (Z.of_nat n))
  | OpFlush => aof_flush f
  | OpDiscard => Ok (aof_discard f)
  end.

Definition state_op (s : FileState T) (op : FileOp) : FileState T :=
  match op with
  | OpAppend x => state_append s x
  | OpRewind n => state_rewind s n
  | OpFlush => state_flush s
  | OpDiscard => state_discard s
  end.

(** Appended elements are encodable and there is room; rewinding into the buffer is not supported. *)
Definition valid_op (s : FileState T) (op : FileOp) : Prop :=
  match op with
  | OpAppend x => dom x /\ file_room s
  | OpRewind n => pending s = [] /\ (n <= length (flushed s))%nat
  | _ => True
  end.

Fixpoint run_ops (f : AppendOnlyFile) (ops : list FileOp) : res Error AppendOnlyFile :=
  match ops with [] => Ok f | op :: ops => let? f := run_op f op in run_ops f ops end.
Fixpoint state_ops (s : FileState T) (ops : list FileOp) : FileState T :=
  match ops with [] => s | op :: ops => state_ops (state_op s op) ops end.
Fixpoint valid_ops (s : FileState T) (ops : list FileOp) : Prop :=
  match ops with [] => True | op :: ops => valid_op s op /\ valid_ops (state_op s op) ops end.

Lemma run_op_simulates f s op :
  file_rep f s -> valid_op s op -> exists f', run_op f op = Ok f' /\ file_rep f' (state_op s op).
Proof.
  intros Hr Hv. destruct op as [x|n| |]; cbn in *.
  - destruct Hv as [Hx Hroom]. destruct (file_append f s x Hr Hx Hroom) as (f' & -> & Hr'). eauto.
  - destruct Hv. eexists. split; [done|]. by apply file_rewind.
  - by apply file_flush.
  - eexists. split; [done|]. by apply file_discard.
Qed.

Lemma run_ops_simulate f s ops :
  file_rep f s -> valid_ops s ops -> exists f', run_ops f ops = Ok f' /\ file_rep f' (state_ops s ops).
Proof.
  revert f s. induction ops as [|op ops IH]; intros f s Hr Hv; [eauto|]. destruct Hv as [Hv Hvs].
  destruct (run_op_simulates f s op Hr Hv) as (f' & E' & Hr'). cbn. rewrite E'. cbn. by apply IH.
Qed.

(** ** Pruning a synced file *)

(** No rewind is pending. *)
Definition clean (f : AppendOnlyFile) : Prop :=
  buffer_start_pos_bak f = 0 /\
  match size_info f with VariableSize g => buffer_start_pos_bak g = 0 | FixedSize _ => True end.

Definition synced (l : list T) : FileState T := mkState l (length l) [].

Lemma existsb_eqb_in (l : list Z) k : existsb (Z.eqb k) l = true <-> k ∈ l.
Proof.
  rewrite existsb_exists. split.
  - intros (x & Hx & E%Z.eqb_eq). subst. by apply list_elem_of_In.
  - intros Hk. exists k. split; [by apply list_elem_of_In|apply Z.eqb_refl].
Qed.

Lemma existsb_eqb_drop (idxs : list Z) k :
  StronglySorted Z.lt idxs -> Forall (fun i => k <= i) idxs ->
  let rest := if existsb (Z.eqb k) idxs then drop 1 idxs else idxs in
  Forall (fun i => k + 1 <= i) rest /\ StronglySorted Z.lt rest /\
  forall i, k + 1 <= i -> existsb (Z.eqb i) rest = existsb (Z.eqb i) idxs.
Proof.
  intros Hs Hk. destruct (existsb (Z.eqb k) idxs) eqn:Ek; cbn zeta.
  - apply existsb_eqb_in in Ek. destruct Hs as [|a l Hs Ha]; [set_solver|].
    inversion Hk as [|? ? Hka Hkl]; subst.
    assert (a = k) as ->.
    { apply elem_of_cons in Ek as [->|Hin]; [done|]. rewrite Forall_forall in Ha. specialize (Ha k Hin). lia. }
    cbn [drop]. split; [eapply Forall_impl; [exact Ha|]; simpl; lia|]. split; [done|].
    intros i Hi. cbn [existsb]. rewrite (proj2 (Z.eqb_neq i k)) by lia. done.
  - split; [|done]. rewrite Forall_forall in *. intros i Hi. specialize (Hk i Hi).
    assert (i <> k); [|lia]. intros ->. apply existsb_eqb_in in Hi. congruence.
Qed.

Lemma save_prune_loop_spec (fuel : nat) l t k idxs out :
  Forall dom l -> (length l < fuel)%nat -> 0 <= t -> t + total (map enc l) < 2 ^ 62 ->
  0 <= k -> k + Z.of_nat (length l) < 2 ^ 63 ->
  StronglySorted Z.lt idxs -> Forall (fun i => k <= i) idxs ->
  save_prune_loop (T := T) fuel v (mkStreaming t v (concat (map enc l))) k idxs out
  = Ok (out ++ concat (map enc (remove_idx (fun i => existsb (Z.eqb i) idxs) k l))).
Proof.
  change (2 ^ 63) with 9223372036854775808.
  intros Hdom. revert fuel t k idxs out.
  induction Hdom as [|x l Hx Hdom IH]; intros fuel t k idxs out Hf Ht Htot Hk Hkl Hs Hge;
    (destruct fuel as [|fuel]; [lia|]); cbn [save_prune_loop map concat].
  - destruct (codec_stream_end t) as [e ->]. cbn. rewrite app_nil_r. done.
  - cbn [length] in *. rewrite map_cons, total_cons in Htot. unfold enc at 1 in Htot.
    pose proof (total_nonneg (map enc l)). unfold enc at 1. rewrite codec_stream by (done || lia).
    destruct (existsb_eqb_drop idxs k Hs Hge) as (Hge' & Hs' & Hext). cbn zeta in *.
    rewrite (add64_small k 1) by lia. cbn [remove_idx].
    destruct (existsb (Z.eqb k) idxs).
    + rewrite IH by (done || lia). f_equal. f_equal. f_equal. f_equal.
      apply remove_idx_ext. intros i Hi. apply Hext. lia.
    + rewrite IH by (done || lia). cbn [map concat]. rewrite app_assoc. done.
Qed.

Lemma rebuild_loop_spec (fuel : nat) l t out :
  Forall dom l -> (length l < fuel)%nat -> 0 <= t -> t + total (map enc l) < 2 ^ 62 ->
  rebuild_loop (T := T) fuel v (mkStreaming t v (concat (map enc l))) t out
  = Ok (out ++ concat (map (fun e => ser_vec e v) (entries t (map enc l)))).
Proof.
  intros Hdom. revert fuel t out.
  induction Hdom as [|x l Hx Hdom IH]; intros fuel t out Hf Ht Htot;
    (destruct fuel as [|fuel]; [lia|]); cbn [rebuild_loop map concat].
  - destruct (codec_stream_end t) as [e ->]. cbn. rewrite app_nil_r. done.
  - cbn [length] in *. rewrite map_cons, total_cons in Htot. unfold enc at 1 in Htot.
    pose proof (total_nonneg (map enc l)). unfold enc at 1. rewrite codec_stream by (done || lia).
    destruct (codec_size x Hx) as [Hch _]. unfold chunk_ok in Hch.
    cbn [total_bytes_read]. unfold saturating_sub. rewrite Z.max_r by lia.
    replace (t + _ - t) with (Z.of_nat (length (ser_vec x v))) by lia. rewrite Z.mod_small by lia.
    rewrite add64_small by (change (2 ^ 62) with 4611686018427387904 in Htot; lia).
    rewrite IH by (done || lia). cbn [entries map concat]. rewrite app_assoc. done.
Qed.

Lemma enc_lengths l : Forall dom l -> (length l <= length (concat (map enc l)))%nat.
Proof.
  induction 1 as [|x l Hx Hl IH]; simpl; [lia|]. rewrite length_app.
  destruct (codec_size x Hx) as [Hch _]. unfold chunk_ok in Hch. unfold enc at 1. lia.
Qed.

Lemma enc_chunks l : Forall dom l -> Forall chunk_ok (map enc l) /\
  (forall n, sz = Some n -> Forall (fun c => Z.of_nat (length c) = n) (map enc l)).
Proof.
  induction 1 as [|x l Hx Hl IH]; simpl; [split; constructor|].
  destruct (codec_size x Hx) as [Hch Hk]. destruct IH as [IH1 IH2]. split; [constructor; done|].
  intros n ->. constructor; [exact Hk|by apply IH2].
Qed.

(** What [init] makes of a file whose content was replaced. *)
Lemma common_init l d s' buf st :
  Forall dom l -> total (map enc l) < 2 ^ 62 -> d = concat (map enc l) -> buf = [] ->
  st = Z.of_nat (length l) ->
  common_rep (mkAof d s' v (if Z.of_nat (length d) =? 0 then None else Some d) buf st 0)
    (enc_state (synced l)).
Proof.
  intros Hdom Hb -> -> ->. destruct (enc_chunks l Hdom) as [Hch _].
  split; [done|]. split; [done|]. split; [done|]. cbn [flushed keep pending enc_state synced map].
  rewrite length_map. split; [done|]. split; [by left|]. split; [done|]. split; [done|].
  split; [constructor|]. change (total []) with 0. lia.
Qed.

Lemma init_mmap (d : bytes) (s' : SizeInfo AppendOnlyFile) (st0 st bak : Z) :
  (Z.of_nat (length d) = 0 -> st = 0) ->
  (if Z.of_nat (length d) =? 0 then Ok (mkAof d s' v None [] 0 bak)
   else let? st := Ok st in Ok (mkAof d s' v (Some d) [] st bak))
  = Ok (E := Error) (mkAof d s' v (if Z.of_nat (length d) =? 0 then None else Some d) [] st bak).
Proof. intros H. destruct (Z.eqb_spec (Z.of_nat (length d)) 0) as [E|]; [rewrite H by done|]; done. Qed.

Lemma empty_content l : Forall dom l -> Z.of_nat (length (concat (map enc l))) = 0 -> l = [].
Proof. intros Hd H. pose proof (enc_lengths l Hd). destruct l; [done|cbn [length] in *; lia]. Qed.

(** The entries of a rebuilt size file. *)
Lemma rebuilt_size_file g l :
  Forall dom l -> Z.of_nat (length l) < 2 ^ 58 -> total (map enc l) < 2 ^ 62 ->
  size_info g = FixedSize SIZE_ENTRY_LEN -> buffer g = [] -> buffer_start_pos_bak g = 0 ->
  exists g', aof_init (aof_replace g (concat (map (fun e => ser_vec e v) (entries 0 (map enc l))))) = Ok g' /\
    fixed_rep SIZE_ENTRY_LEN g' (entry_state (aof_version g') (enc_state (synced l))) /\
    buffer_start_pos_bak g' = 0.
Proof.
  intros Hdom Hcount Htot Hs Hbuf Hbak. destruct g as [d s' vg m b st bak]. cbn in Hs, Hbuf, Hbak. subst.
  cbn [aof_replace aof_release aof_init res_bind].
  set (es := map (fun e => ser_vec e v) (entries 0 (map enc l))).
  assert (Hes : Forall (fun c => Z.of_nat (length c) = SIZE_ENTRY_LEN) es)
    by (apply List.Forall_map, Forall_forall; intros e _; apply length_entry).
  assert (Hle : length es = length l) by (unfold es; rewrite length_map, entries_length, length_map; done).
  rewrite (fixed_size_in_elmts SIZE_ENTRY_LEN _ _ _ _ _ _ es), Hle by done.
  assert (Hempty : Z.of_nat (length (concat es)) = 0 -> l = []).
  { fold (total es). rewrite (total_fixed SIZE_ENTRY_LEN), Hle by done. unfold SIZE_ENTRY_LEN.
    destruct l; [done|cbn [length]; lia]. }
  assert (Hte : total es < 2 ^ 62).
  { rewrite (total_fixed SIZE_ENTRY_LEN), Hle by done. unfold SIZE_ENTRY_LEN.
    change (2 ^ 62) with (16 * 2 ^ 58). lia. }
  eexists (mkAof (concat es) (FixedSize SIZE_ENTRY_LEN) vg
    (if Z.of_nat (length (concat es)) =? 0 then None else Some (concat es)) [] (Z.of_nat (length l)) 0).
  split; [|split; [|done]].
  - destruct (Z.eqb_spec (Z.of_nat (length (concat es))) 0) as [E|]; [rewrite (Hempty E)|]; done.
  - cbn [aof_version]. unfold entry_state. cbn [flushed keep pending enc_state synced entries map].
    change (map (fun e => ser_vec e vg) (entries 0 (map enc l))) with es.
    split; [|split; [done|split; [done|split; [done|constructor]]]].
    split; [done|]. split; [done|]. split; [done|]. cbn [flushed keep pending]. split; [lia|].
    split; [left; split; [done|lia]|]. split; [done|]. change (total []) with 0. split; [|split; [constructor|lia]].
    eapply Forall_impl; [exact Hes|]. intros c Hc. unfold chunk_ok. rewrite Hc. done.
Qed.

Lemma file_save_prune f l idxs :
  file_rep f (synced l) -> clean f -> Z.of_nat (length l) < 2 ^ 58 ->
  StronglySorted Z.lt idxs -> Forall (fun i => 0 <= i) idxs ->
  exists f', aof_save_prune (T := T) f idxs = Ok f' /\ clean f' /\
    file_rep f' (synced (remove_idx (fun i => existsb (Z.eqb i) idxs) 0 l)).
Proof.
  intros (Hr & Hv & Hdom & _) [Hbak Hclean] Hcount Hs Hge.
  pose proof (rep_common _ _ _ Hr) as (Hd & Hbuf & Hst & _ & _ & _ & _ & _ & Htot).
  cbn [flushed pending keep enc_state synced map] in *. change (total []) with 0 in Htot. rewrite Z.add_0_r in Htot.
  change (2 ^ 58) with 288230376151711744 in Hcount.
  set (l' := remove_idx (fun i => existsb (Z.eqb i) idxs) 0 l).
  assert (Hdom' : Forall dom l') by (by apply remove_idx_sub).
  assert (Htot' : total (map enc l') < 2 ^ 62).
  { unfold l'. rewrite remove_idx_map. pose proof (total_remove_idx (fun i => existsb (Z.eqb i) idxs) 0 (map enc l)). lia. }
  assert (Hcount' : Z.of_nat (length l') < 2 ^ 58).
  { change (2 ^ 58) with 288230376151711744. enough (length l' <= length l)%nat by lia.
    unfold l'. generalize 0 at 1. clear. induction l as [|x l IH]; intros k; simpl; [lia|].
    specialize (IH (k + 1)). destruct (existsb _ _); simpl; lia. }
  pose proof (enc_lengths l Hdom) as Hlen. pose proof (enc_lengths l' Hdom') as Hlen'.
  unfold aof_save_prune. rewrite Hd, Hv. rewrite (save_prune_loop_spec _ l) by
    (done || lia || (change (2 ^ 63) with 9223372036854775808; lia)).
  cbn [res_bind app]. fold l'.
  destruct f as [d s' v0 m b st bak]. cbn in Hbak, Hv, Hd, Hbuf, Hst. subst d v0 b st bak.
  assert (Hsz : (exists n, sz = Some n) \/ sz = None) by (destruct sz; eauto).
  destruct Hsz as [[n Esz]|Esz]; rewrite Esz in Hr; cbn [aof_rep] in Hr.
  - destruct Hr as (_ & Hsi & Hn & _). cbn in Hsi. subst s'.
    cbn [aof_replace aof_release size_info res_bind aof_init].
    destruct (enc_chunks l' Hdom') as [_ Hk]. specialize (Hk n Esz).
    rewrite (fixed_size_in_elmts n _ _ _ _ _ _ (map enc l')), length_map by (done || lia).
    rewrite (init_mmap _ _ 0) by (intros E; apply empty_content in E as ->; done).
    eexists. split; [done|]. split; [done|]. split; [|done]. rewrite Esz. cbn [aof_rep].
    split; [by apply common_init|]. split; [done|]. split; [done|]. split; [done|constructor].
  - destruct Hr as (_ & g & Hsi & Hg). cbn in Hsi. subst s'. cbn in Hclean.
    cbn [aof_replace aof_release size_info rebuild_size_file].
    rewrite (rebuild_loop_spec _ l' 0 []) by (done || lia). cbn [res_bind app aof_init].
    assert (Hgs : size_info (aof_release g) = FixedSize SIZE_ENTRY_LEN /\ buffer (aof_release g) = [] /\
        buffer_start_pos_bak (aof_release g) = 0).
    { destruct Hg as ((_ & Hgb & _) & Hgs & _). destruct g as [dg sg vg mg bg stg bakg].
      cbn in *. subst. done. }
    destruct Hgs as (Hg1 & Hg2 & Hg3).
    destruct (rebuilt_size_file (aof_release g) l' Hdom' Hcount' Htot' Hg1 Hg2 Hg3)
      as (g' & -> & Hg' & Hbak').
    cbn [res_bind]. rewrite size_in_elmts_variable, (fixed_rep_size _ _ _ Hg').
    cbn [flushed entry_state enc_state synced]. rewrite length_map, entries_length, length_map.
    rewrite (init_mmap _ _ 0) by (intros E; apply empty_content in E as ->; done).
    eexists. split; [done|]. split; [done|]. split; [|done]. rewrite Esz. cbn [aof_rep].
    split; [by apply common_init|]. exists g'. done.
Qed.

(** ** Pending rewinds *)

Lemma append_bak f bs f' :
  aof_append f bs = Ok f' -> buffer_start_pos_bak f' = buffer_start_pos_bak f.
Proof.
  destruct f as [d [n|g] vv m b st bak]; cbn [aof_append]; [intros [= <-]; done|].
  destruct (size_unsync_in_elmts g); cbn [res_bind]; [|done..].
  destruct (if _ =? 0 then _ else _); cbn [res_bind]; [|done..].
  destruct (aof_append g _); cbn [res_bind]; [|done..]. intros [= <-]. done.
Qed.

Lemma append_clean f bs f' : aof_append f bs = Ok f' -> clean f -> clean f'.
Proof.
  intros E. pose proof (append_bak _ _ _ E) as Eb. unfold clean. rewrite Eb. intros [H1 H2]. split; [done|].
  destruct f as [d [n|g] vv m b st bak]; cbn [aof_append] in E; [injection E as <-; done|].
  destruct (size_unsync_in_elmts g); cbn [res_bind] in E; [|done..].
  destruct (if _ =? 0 then _ else _); cbn [res_bind] in E; [|done..].
  destruct (aof_append g _) as [g'| |] eqn:Eg; cbn [res_bind] in E; [|done..].
  injection E as <-. cbn in *. rewrite (append_bak _ _ _ Eg). done.
Qed.

Lemma flush_bak f f' : aof_flush f = Ok f' -> buffer_start_pos_bak f' = 0.
Proof.
  destruct f as [d s' vv m b st bak]. cbn [aof_flush].
  destruct (match s' with VariableSize g => _ | FixedSize _ => _ end) as [s''| |]; cbn [res_bind]; [|done..].
  destruct (if 0 <? bak then _ else _); cbn [res_bind]; [|done..].
  destruct (size_in_elmts _); cbn [res_bind]; [|done..]. intros [= <-]. done.
Qed.

Lemma flush_clean f f' : aof_flush f = Ok f' -> clean f'.
Proof.
  intros E. split; [by eapply flush_bak|]. destruct f as [d s' vv m b st bak]. cbn [aof_flush] in E.
  destruct s' as [n|g].
  - cbn [res_bind] in E. destruct (if 0 <? bak then _ else _); cbn [res_bind] in E; [|done..].
    destruct (size_in_elmts _); cbn [res_bind] in E; [|done..]. injection E as <-. done.
  - destruct (aof_flush g) as [g'| |] eqn:Eg; cbn [res_bind] in E; [|done..].
    destruct (if 0 <? bak then _ else _); cbn [res_bind] in E; [|done..].
    destruct (size_in_elmts _); cbn [res_bind] in E; [|done..]. injection E as <-. cbn. by eapply flush_bak.
Qed.

Lemma discard_clean f s : file_rep f s -> clean (aof_discard f).
Proof.
  intros (Hr & _). pose proof (rep_common _ _ _ Hr) as (_ & _ & _ & _ & Hbak & _).
  assert (Hb : forall d s' vv m st bak, (bak = 0 \/ 0 < bak) ->
      buffer_start_pos_bak (if 0 <? bak then mkAof d s' vv m [] bak 0 else mkAof d s' vv m [] st bak) = 0).
  { intros. destruct (Z.ltb_spec 0 bak); [done|]. cbn. lia. }
  destruct f as [d [n|g] vv m b st bak]; cbn [aof_discard]; (split; [apply Hb; cbn in Hbak; lia|]).
  - destruct (0 <? bak); done.
  - assert (Hg : buffer_start_pos_bak (aof_discard g) = 0); [|destruct (0 <? bak); done].
    assert (Hgr : exists s', fixed_rep SIZE_ENTRY_LEN g s').
    { unfold aof_rep in Hr. destruct sz; [destruct Hr as (_ & Hs & _); done|].
      destruct Hr as (_ & g' & [= <-] & Hg). eauto. }
    destruct Hgr as (s' & (_ & _ & _ & _ & Hgb & _) & _).
    destruct g as [dg sg vg mg bg stg bakg]. cbn [aof_discard]. apply Hb. cbn in Hgb. lia.
Qed.

(** ** Opening *)

(** A file of [cs] after [init]. *)
Definition opened (cs : list bytes) (s : SizeInfo AppendOnlyFile) (vv : Z) : AppendOnlyFile :=
  let d := concat cs in
  mkAof d s vv (if Z.of_nat (length d) =? 0 then None else Some d) [] (Z.of_nat (length cs)) 0.

Lemma opened_common cs s' vv :
  Forall chunk_ok cs -> total cs < 2 ^ 62 -> common_rep (opened cs s' vv) (mkState cs (length cs) []).
Proof.
  intros Hc Ht. split; [done|]. split; [done|]. split; [done|]. split; [done|]. split; [by left|].
  split; [done|]. split; [done|]. split; [constructor|]. cbn [flushed pending]. change (total []) with 0. lia.
Qed.

Lemma init_fixed n vv cs m st :
  0 < n -> Forall (fun c => Z.of_nat (length c) = n) cs -> (concat cs = [] -> m = None) ->
  aof_init (mkAof (concat cs) (FixedSize n) vv m [] st 0) = Ok (opened cs (FixedSize n) vv).
Proof.
  intros Hn Hcs Hm. cbn [aof_init res_bind]. rewrite (fixed_size_in_elmts n _ _ _ _ _ _ cs) by done.
  unfold opened. destruct (Z.eqb_spec (Z.of_nat (length (concat cs))) 0) as [E|]; [|done].
  rewrite Hm by (apply length_zero_iff_nil; lia). destruct cs as [|c cs]; [done|].
  inversion Hcs. simpl in E. rewrite length_app in E. lia.
Qed.

Lemma open_fixed {A} `{!Readable A} n vv cs :
  0 < n < 2 ^ 16 -> Forall (fun c => Z.of_nat (length c) = n) cs -> total cs < 2 ^ 62 ->
  aof_open (T := A) (concat cs) (FixedSize n) vv = Ok (opened cs (FixedSize n) vv) /\
  fixed_rep n (opened cs (FixedSize n) vv) (mkState cs (length cs) []).
Proof.
  intros Hn Hcs Ht. unfold aof_open. rewrite init_fixed by (done || lia). cbn [res_bind opened size_info].
  split; [done|]. split; [|split; [done|split; [done|split; [done|constructor]]]].
  apply opened_common; [|done]. eapply Forall_impl; [exact Hcs|]. intros c Hc. unfold chunk_ok. rewrite Hc. lia.
Qed.

Lemma sum_sizes_from g cs (l l' : list bytes) :
  fixed_rep SIZE_ENTRY_LEN g (entry_state (aof_version g) (mkState cs (length cs) [])) ->
  cs = l ++ l' -> Forall chunk_ok cs -> total cs < 2 ^ 62 ->
  sum_sizes_loop (length l') (Z.of_nat (length l)) (total l) g = Ok (total cs).
Proof.
  intros Hg Ecs Hch Ht. revert l Ecs. induction l' as [|c l' IH]; intros l Ecs; cbn [length sum_sizes_loop].
  - rewrite Ecs, app_nil_r. done.
  - assert (Hv : view (mkState cs (length cs) []) = cs)
      by (unfold view; cbn; rewrite take_ge, app_nil_r; done).
    assert (Hi : view (mkState cs (length cs) []) !! length l = Some c)
      by (rewrite Hv, Ecs; by apply list_lookup_middle).
    unfold read_as_elmt. rewrite (fixed_read _ _ _ _ Hg), (entry_state_lookup _ _ _ _ Hi).
    cbn [res_bind from_option id]. rewrite Hv.
    pose proof (total_nonneg l). pose proof (total_nonneg l').
    assert (Et : total cs = total l + Z.of_nat (length c) + total l') by (rewrite Ecs, total_app, total_cons; lia).
    change (2 ^ 62) with 4611686018427387904 in Ht. rewrite Ecs at 1. rewrite take_app_length.
    assert (Hc : chunk_ok c) by (rewrite Ecs in Hch; apply Forall_app in Hch as [_ Hch]; by inversion Hch).
    unfold chunk_ok in Hc. rewrite <- (app_nil_r (ser_vec _ _)), entry_reads; cbn [entry_offset entry_size];
      [|unfold is_u64; lia|lia].
    cbn [res_bind entry_size]. rewrite add64_small by lia.
    replace (Z.of_nat (length l) + 1) with (Z.of_nat (length (l ++ [c]))) by (rewrite length_app; cbn; lia).
    replace (total l + Z.of_nat (length c)) with (total (l ++ [c]))
      by (rewrite total_app, total_cons; change (total []) with 0; lia).
    apply IH. rewrite Ecs, <- app_assoc. done.
Qed.

(** A data file opens on the sizes its size file was flushed with, without rebuilding them. *)
Lemma open_variable {A} `{!Readable A} vv cs :
  Forall chunk_ok cs -> total cs < 2 ^ 62 -> Z.of_nat (length cs) < 2 ^ 58 ->
  let es := map (fun e => ser_vec e vv) (entries 0 cs) in
  exists g, aof_open (T := SizeEntry) (concat es) (FixedSize SIZE_ENTRY_LEN) vv = Ok g /\
    aof_open (T := A) (concat cs) (VariableSize g) vv = Ok (opened cs (VariableSize g) vv) /\
    variable_rep (opened cs (VariableSize g) vv) (mkState cs (length cs) []) /\ buffer_start_pos_bak g = 0.
Proof.
  intros Hch Ht Hl es.
  assert (Hes : Forall (fun c => Z.of_nat (length c) = SIZE_ENTRY_LEN) es)
    by (apply List.Forall_map, Forall_forall; intros e _; apply length_entry).
  assert (Hle : length es = length cs) by (unfold es; rewrite length_map, entries_length; done).
  assert (Hte : total es < 2 ^ 62).
  { rewrite (total_fixed SIZE_ENTRY_LEN), Hle by done. unfold SIZE_ENTRY_LEN.
    change (2 ^ 62) with (16 * 2 ^ 58). lia. }
  destruct (open_fixed (A := SizeEntry) SIZE_ENTRY_LEN vv es) as [Eg Hg]; [done..|].
  set (g := opened es (FixedSize SIZE_ENTRY_LEN) vv) in *.
  assert (Hg' : fixed_rep SIZE_ENTRY_LEN g (entry_state (aof_version g) (mkState cs (length cs) []))).
  { rewrite Hle in Hg. exact Hg. }
  exists g. split; [done|]. split; [|split; [|done]].
  - unfold aof_open. cbn [aof_init].
    change (aof_init g) with (aof_init (mkAof (concat es) (FixedSize SIZE_ENTRY_LEN) vv
      (if Z.of_nat (length (concat es)) =? 0 then None else Some (concat es)) [] (Z.of_nat (length es)) 0)).
    rewrite init_fixed by (done || (intros E; rewrite E; done)). fold g. cbn [res_bind].
    rewrite size_in_elmts_variable, (fixed_rep_size _ _ _ Hg'). cbn [res_bind flushed entry_state].
    rewrite length_map, entries_length.
    assert (Einit : (if Z.of_nat (length (concat cs)) =? 0
        then Ok (mkAof (concat cs) (VariableSize g) vv None [] 0 0)
        else Ok (mkAof (concat cs) (VariableSize g) vv (Some (concat cs)) [] (Z.of_nat (length cs)) 0))
      = Ok (E := Error) (opened cs (VariableSize g) vv)).
    { unfold opened. destruct (Z.eqb_spec (Z.of_nat (length (concat cs))) 0) as [E|]; [|done].
      destruct cs as [|c cs']; [done|]. inversion Hch as [|? ? Hc _]. unfold chunk_ok in Hc.
      simpl in E. rewrite length_app in E. lia. }
    rewrite Einit. cbn [res_bind]. unfold opened at 1 2. cbn [size_info].
    unfold sum_sizes. cbn [buffer_start_pos opened g]. rewrite Hle, Nat2Z.id.
    change 0 with (total []) at 2. change 0 with (Z.of_nat (length (@nil bytes))).
    rewrite (sum_sizes_from g cs [] cs Hg' eq_refl Hch Ht). cbn [res_bind aof_size disk].
    unfold aof_size. cbn [disk]. fold (total cs). rewrite Z.eqb_refl. done.
  - split; [by apply opened_common|]. exists g. split; [done|]. exact Hg'.
Qed.

(** Opening the files of [f] again finds what was flushed. *)
Definition size_file_disk (f : AppendOnlyFile) : bytes :=
  match size_info f with VariableSize g => disk g | FixedSize _ => [] end.

Definition file_opens (f f' : AppendOnlyFile) : Prop :=
  match sz with
  | Some n => aof_open (T := T) (disk f) (FixedSize n) v = Ok f'
  | None =>
    exists g, aof_open (T := SizeEntry) (size_file_disk f) (FixedSize SIZE_ENTRY_LEN) v = Ok g /\
      aof_open (T := T) (disk f) (VariableSize g) v = Ok f'
  end.

Lemma file_open f s :
  file_rep f s -> Z.of_nat (length (flushed s)) < 2 ^ 58 ->
  exists f', file_opens f f' /\ file_rep f' (state_discard s) /\ clean f'.
Proof.
  intros (Hr & Hv & Hdom & _) Hl. unfold file_opens.
  pose proof (rep_common _ _ _ Hr) as (Hd & _ & _ & _ & _ & _ & Hch & _ & Ht). cbn [flushed pending enc_state] in *.
  pose proof (total_nonneg (map enc (pending s))).
  assert (Hd' : Forall dom (flushed (state_discard s)) /\ Forall dom (pending (state_discard s))) by done.
  assert (Ed : enc_state (state_discard s) = mkState (map enc (flushed s)) (length (map enc (flushed s))) [])
    by (unfold enc_state, state_discard; cbn; rewrite length_map; done).
  unfold file_rep. assert (Hsz : (exists n, sz = Some n) \/ sz = None) by (destruct sz; eauto).
  destruct Hsz as [[n Esz]|Esz]; rewrite Esz in *; cbn [aof_rep] in *; rewrite Hd, Ed.
  - destruct Hr as (_ & _ & Hn & Hf & _). cbn [flushed] in Hf.
    destruct (open_fixed (A := T) n v (map enc (flushed s)) Hn Hf) as [E1 Hr1]; [lia|].
    eexists. split; [exact E1|]. done.
  - destruct Hr as (_ & g & Hg & (Hdg & _) & _). unfold size_file_disk. rewrite Hg, Hdg.
    destruct (open_variable (A := T) v (map enc (flushed s))) as (g' & E1 & E2 & Hr' & Hb);
      [done|lia|rewrite length_map; done|].
    eexists. split; [exists g'; split; [exact E1|exact E2]|]. done.
Qed.

Lemma room_of_small f s :
  file_rep f s -> Z.of_nat (length (flushed s)) + Z.of_nat (length (pending s)) < 2 ^ 40 -> file_room s.
Proof.
  intros (_ & _ & Hf & Hp) Hn.
  assert (Hb : forall l, Forall dom l -> total (map enc l) <= Z.of_nat (length l) * 65536).
  { induction 1 as [|x l Hx Hl IH]; [done|]. rewrite map_cons, total_cons.
    destruct (codec_size x Hx) as [Hch _]. unfold chunk_ok in Hch. change (2 ^ 16) with 65536 in Hch.
    unfold enc at 1. cbn [length]. lia. }
  pose proof (Hb _ Hf). pose proof (Hb _ Hp). unfold file_room, has_room, enc_state. cbn [flushed pending].
  rewrite !length_map. change (2 ^ 61) with 2305843009213693952. change (2 ^ 58) with 288230376151711744.
  change (2 ^ 40) with 1099511627776 in Hn. lia.
Qed.

(** The bytes of a data file, of fixed or of variable-size elements, implement a list with
    rewind, flush and discard: whatever sequence of appends, rewinds (of a file with no unsynced
    elements), flushes and discards runs, it succeeds, the file then stands for the list that the
    same operations give on lists, and reading any position returns the element the list has there
    (nothing past its end). *)
Theorem file_operations_simulate_a_list f s ops (i : nat) :
  file_rep f s -> valid_ops s ops -> Z.of_nat i < 2 ^ 63 ->
  exists f', run_ops f ops = Ok f' /\ file_rep f' (state_ops s ops) /\
    size_unsync_in_elmts f' = Ok (Z.of_nat (length (view (state_ops s ops)))) /\
    data_read f' (Z.of_nat i + 1) = Ok (view (state_ops s ops) !! i).
Proof.
  intros Hr Hv Hi. destruct (run_ops_simulate f s ops Hr Hv) as (f' & E' & Hr').
  exists f'. split; [done|]. split; [done|]. split; [by apply file_size|by apply file_read].
Qed.
End Typed.

(** ** An element type: the size entries themselves *)

Definition entry_dom (e : SizeEntry) : Prop := is_u64 (entry_offset e) /\ 0 <= entry_size e < 2 ^ 16.

#[export] Instance size_entry_codec v : ElmtCodec SizeEntry v (Some SIZE_ENTRY_LEN) entry_dom.
Proof.
  constructor.
  - intros e _. unfold chunk_ok, fits_kind. rewrite length_entry. done.
  - intros e rest [Ho Hs]. by apply entry_reads.
  - eexists. reflexivity.
  - intros e rest t [Ho Hs] Ht. change (2 ^ 62) with 4611686018427387904 in Ht.
    rewrite length_entry. unfold SIZE_ENTRY_LEN, ser_vec, write, write_size_entry. rewrite <- app_assoc.
    unfold read, read_size_entry, read_bind, read_u64, read_u16, read_bind, read_int, streaming_reader,
      streaming_read_int, streaming_read_fixed_bytes. cbn [stream sversion total_bytes_read].
    change (Z.to_nat (Z.of_nat 8)) with (length (write_u64 (entry_offset e))).
    rewrite read_exact_ok. cbn [res_bind stream sversion total_bytes_read read_ret].
    change (Z.to_nat (Z.of_nat 2)) with (length (write_u16 (entry_size e))).
    rewrite read_exact_ok. cbn [res_bind].
    unfold write_u64, write_u16. rewrite !be_val_be_bytes by done.
    rewrite (add64_small t) by lia. rewrite add64_small by lia.
    replace (t + Z.of_nat 8 + Z.of_nat 2) with (t + (8 + 2)) by lia. by destruct e.
  - intros t. eexists. reflexivity.
Qed.

Lemma open_empty {T} {v : Z} {dom : T -> Prop} `{!Readable T} `{!Writeable T} n :
  ElmtCodec T v (Some n) dom -> 0 < n < 2 ^ 16 ->
  exists f, aof_open (T := T) [] (FixedSize n) v = Ok f /\
    file_rep (v := v) (sz := Some n) (dom := dom) f (mkState [] 0 []).
Proof.
  intros HC Hn. eexists. split; [reflexivity|]. split; [|done]. split; [|done].
  split; [done|]. split; [done|]. split; [done|]. split; [done|]. split; [by left|]. done.
Qed.

Lemma file_operations_simulate_a_list_witness :
  exists f f', aof_open (T := SizeEntry) [] (FixedSize 10) 2 = Ok f /\
    run_ops f [OpAppend (mkSizeEntry 0 5); OpAppend (mkSizeEntry 5 7); OpFlush; OpRewind 1;
               OpAppend (mkSizeEntry 5 9); OpFlush] = Ok f' /\
    data_read (T := SizeEntry) f' 2 = Ok (Some (mkSizeEntry 5 9)).
Proof.
  destruct (open_empty (T := SizeEntry) (v := 2) 10 (size_entry_codec 2) ltac:(done)) as (f & Ef & Hr).
  destruct (file_operations_simulate_a_list f (mkState [] 0 [])
    [OpAppend (mkSizeEntry 0 5); OpAppend (mkSizeEntry 5 7); OpFlush; OpRewind 1;
     OpAppend (mkSizeEntry 5 9); OpFlush] 1 Hr) as (f' & E' & _ & _ & Er).
  - repeat split; vm_compute; try done; lia.
  - done.
  - exists f, f'. split; [exact Ef|]. split; [exact E'|]. exact Er.
Defined.
