(* ===== verification/FileBackend.v ===== *)
(** * The file-backed PMMR

    Models [store/src/pmmr.rs]: [PMMRBackend], the persistent implementation of
    the [Backend] trait, on a hash file, a data file, a leaf set and a prune list,
    with [check_compact], which takes pruned subtrees out of the files.

    The theorems relate it to the uncompacted lists of all hashes and elements:
    what is read at a kept position does not depend on how much was compacted. *)

From Stdlib Require Import ZArith Lia List Bool Sorted.
From stdpp Require Import base numbers list option gmap.
From S2P Require Import Prelude MmrIndex Pmmr Bytes Ser Bitmap PruneList DataFile.

(** ** Definitions *)

Record PMMRBackend (Bitmap : Type) := mkBackend {
  prunable : bool;
  hash_data : AppendOnlyFile;
  elmt_data : AppendOnlyFile;
  leaf_set : LeafSet Bitmap;
  prune_list : PruneList Bitmap
}.
Arguments mkBackend {Bitmap}.
Arguments prunable {Bitmap}.
Arguments hash_data {Bitmap}.
Arguments elmt_data {Bitmap}.
Arguments leaf_set {Bitmap}.
Arguments prune_list {Bitmap}.

Section Defs.
  Context {Bitmap Hash T Elt : Type} `{!CRoaring Bitmap} `{!PMMRable Hash T Elt}
    `{!Readable Hash} `{!Writeable Hash} `{!Readable Elt} `{!Writeable Elt}.
  Implicit Types (b : PMMRBackend Bitmap).

Definition failed {A} (c : res Error A) : res PmmrError A := map_err (fun _ => BackendFailure) c.

Definition set_files b (h d : AppendOnlyFile) : PMMRBackend Bitmap :=
  mkBackend (prunable b) h d (leaf_set b) (prune_list b).
Definition set_leaf_set b (ls : LeafSet Bitmap) : PMMRBackend Bitmap :=
  mkBackend (prunable b) (hash_data b) (elmt_data b) ls (prune_list b).
Definition set_prune_list b (pl : PruneList Bitmap) : PMMRBackend Bitmap :=
  mkBackend (prunable b) (hash_data b) (elmt_data b) (leaf_set b) pl.

(** The files of a data directory: an absent hash, data or size file is created empty on opening. *)
Record StoreDir := mkDir {
  PMMR_HASH_FILE : bytes;
  PMMR_DATA_FILE : bytes;
  PMMR_SIZE_FILE : bytes;
  PMMR_LEAF_FILE : file;
  PMMR_PRUN_FILE : file
}.

(** [PMMRBackend::new]; [elmt_size] is [T::elmt_size()], [snapshot] the leaf set file saved for the
    header, when one is given *)
Definition fb_new (elmt_size : option Z) (dir : StoreDir) (prunable : bool) (version : Z) (snapshot : option file)
    : res PmmrError (PMMRBackend Bitmap) :=
  let? size_info :=
    match elmt_size with
    | Some fixed_size => Ok (FixedSize fixed_size)
    | None =>
      let? size_file := failed (aof_open (T := SizeEntry) (PMMR_SIZE_FILE dir) (FixedSize SIZE_ENTRY_LEN) version) in
      Ok (VariableSize size_file)
    end in
  let? hash_file := failed (aof_open (T := Hash) (PMMR_HASH_FILE dir) (FixedSize 32) version) in
  let? data_file := failed (aof_open (T := Elt) (PMMR_DATA_FILE dir) size_info version) in
  let leaf_file :=
    match snapshot with
    | Some saved => copy_snapshot (PMMR_LEAF_FILE dir) saved
    | None => PMMR_LEAF_FILE dir
    end in
  let leaf_set := ls_open leaf_file in
  let? prune_list := pl_open (PMMR_PRUN_FILE dir) in
  Ok (mkBackend prunable hash_file data_file leaf_set prune_list).

(** [PMMRBackend::is_pruned], [is_pruned_root], [is_compacted] *)
Definition fb_is_pruned b (pos : Z) : res PmmrError bool := pl_is_pruned (prune_list b) pos.
Definition fb_is_pruned_root b (pos : Z) : res PmmrError bool := pl_is_pruned_root (prune_list b) pos.
Definition is_compacted b (pos : Z) : res PmmrError bool :=
  let? pruned := fb_is_pruned b pos in
  if pruned : bool then let? root := fb_is_pruned_root b pos in Ok (negb root) else Ok false.

(** [PMMRBackend::append] *)
Fixpoint append_hashes (f : AppendOnlyFile) (hashes : list Hash) : res PmmrError AppendOnlyFile :=
  match hashes with
  | [] => Ok f
  | h :: hashes => let? '(_, f) := failed (data_append f h) in append_hashes f hashes
  end.

Definition fb_append b (data : T) (hashes : list Hash) : res PmmrError (PMMRBackend Bitmap) :=
  let? '(size, data_file) := failed (data_append (elmt_data b) (as_elmt data)) in
  let? hash_file := append_hashes (hash_data b) hashes in
  let b := set_files b hash_file data_file in
  if prunable b then
    let? shift := get_total_leaf_shift (prune_list b) in
    let pos := insertion_to_pmmr_index (size + shift)%u64 in
    Ok (set_leaf_set b (ls_add (leaf_set b) pos))
  else Ok b.

(** [PMMRBackend::get_from_file] *)
Definition fb_get_from_file b (position : Z) : res PmmrError (option Hash) :=
  let? compacted := is_compacted b position in
  if compacted : bool then Ok None
  else
    let? shift := get_shift (prune_list b) position in
    failed (data_read (hash_data b) (position - shift)%u64).

(** [PMMRBackend::get_data_from_file] *)
Definition fb_get_data_from_file b (position : Z) : res PmmrError (option Elt) :=
  if negb (is_leaf position) then Ok None
  else
    let? compacted := is_compacted b position in
    if compacted : bool then Ok None
    else
      let flatfile_pos := n_leaves position in
      let? shift := get_leaf_shift (prune_list b) position in
      failed (data_read (elmt_data b) (flatfile_pos - shift)%u64).

(** [PMMRBackend::get_hash] *)
Definition fb_get_hash b (pos : Z) : res PmmrError (option Hash) :=
  if prunable b && is_leaf pos && negb (ls_includes (leaf_set b) pos) then Ok None
  else fb_get_from_file b pos.

(** [PMMRBackend::get_data] *)
Definition fb_get_data b (pos : Z) : res PmmrError (option Elt) :=
  if negb (is_leaf pos) then Ok None
  else if prunable b && negb (ls_includes (leaf_set b) pos) then Ok None
  else fb_get_data_from_file b pos.

(** [PMMRBackend::unpruned_size], on the synced sizes *)
Definition fb_unpruned_size b : res PmmrError Z :=
  let? size := failed (data_size (hash_data b)) in
  let? shift := get_total_shift (prune_list b) in
  Ok (size + shift)%u64.

(** [PMMRBackend::leaf_pos_iter], [n_unpruned_leaves], [leaf_idx_iter] *)
Definition fb_leaf_pos_iter b : res PmmrError (list Z) :=
  if prunable b then Ok (ls_iter (leaf_set b)) else Panic.
Definition fb_n_unpruned_leaves b : res PmmrError Z :=
  if prunable b then Ok (ls_len (leaf_set b))
  else let? size := fb_unpruned_size b in Ok (n_leaves size).
Definition fb_leaf_idx_iter b (from_idx : Z) : res PmmrError (list Z) :=
  let from_pos := insertion_to_pmmr_index (from_idx + 1)%u64 in
  if prunable b then
    Ok (map (fun x => saturating_sub (n_leaves x) 1)
          (skip_while (fun x => x <? from_pos) (ls_iter (leaf_set b))))
  else Panic.

(** [PMMRBackend::rewind] *)
Definition fb_rewind b (position : Z) (rewind_rm_pos : Bitmap) : res PmmrError (PMMRBackend Bitmap) :=
  let b := if prunable b then set_leaf_set b (ls_rewind (leaf_set b) position rewind_rm_pos) else b in
  let? shift := get_shift (prune_list b) position in
  let hash_file := aof_rewind (hash_data b) (position - shift)%u64 in
  let flatfile_pos := n_leaves position in
  let? leaf_shift := get_leaf_shift (prune_list b) position in
  let data_file := aof_rewind (elmt_data b) (flatfile_pos - leaf_shift)%u64 in
  Ok (set_files b hash_file data_file).

(** [PMMRBackend::remove] *)
Definition fb_remove b (pos : Z) : res PmmrError (PMMRBackend Bitmap) :=
  if negb (prunable b) then Panic else Ok (set_leaf_set b (ls_remove (leaf_set b) pos)).

(** [PMMRBackend::sync]: all three are attempted, any failure is reported *)
Definition fb_sync b : res PmmrError (PMMRBackend Bitmap) :=
  let? h := failed (aof_flush (hash_data b)) in
  let? d := failed (aof_flush (elmt_data b)) in
  let b := set_files b h d in
  Ok (if prunable b then set_leaf_set b (ls_flush (leaf_set b)) else b).

(** [PMMRBackend::discard] *)
Definition fb_discard b : PMMRBackend Bitmap :=
  set_leaf_set (set_files b (aof_discard (hash_data b)) (aof_discard (elmt_data b)))
    (ls_discard (leaf_set b)).

(** The climbing loop of [PMMRBackend::pos_to_rm]. *)
Fixpoint expand_loop (fuel : nat) b (expanded : Bitmap) (current : Z) : res PmmrError Bitmap :=
  match fuel with
  | O => Panic
  | S fuel =>
    let '(parent, sibling) := family current in
    let? sibling_pruned := fb_is_pruned_root b sibling in
    let expanded := if sibling_pruned : bool then bm_add expanded (wrap32 sibling) else expanded in
    if sibling_pruned || bm_contains expanded (wrap32 sibling) then
      expand_loop fuel b (bm_add expanded (wrap32 parent)) parent
    else Ok expanded
  end.

Fixpoint expand b (leaves : list Z) (expanded : Bitmap) : res PmmrError Bitmap :=
  match leaves with
  | [] => Ok expanded
  | x :: leaves =>
    let? expanded := expand_loop 64 b (bm_add expanded x) x in expand b leaves expanded
  end.

(** [removed_excl_roots] *)
Definition removed_excl_roots (removed : Bitmap) : Bitmap :=
  bm_of_list (List.filter (fun pos => bm_contains removed (wrap32 (family pos).1)) (bm_iter removed)).

(** [PMMRBackend::pos_to_rm] *)
Definition pos_to_rm b (cutoff_pos : Z) (rewind_rm_pos : Bitmap) : res PmmrError (Bitmap * Bitmap) :=
  let? leaf_pos_to_rm := removed_pre_cutoff (leaf_set b) cutoff_pos rewind_rm_pos (prune_list b) in
  let? expanded := expand b (bm_iter leaf_pos_to_rm) bm_create in
  Ok (leaf_pos_to_rm, removed_excl_roots expanded).

Fixpoint map_res {A B E} (f : A -> res E B) (l : list A) : res E (list B) :=
  match l with
  | [] => Ok []
  | a :: l => let? x := f a in let? xs := map_res f l in Ok (x :: xs)
  end.

Fixpoint add_leaves (pl : PruneList Bitmap) (leaves : list Z) : res PmmrError (PruneList Bitmap) :=
  match leaves with
  | [] => Ok pl
  | pos :: leaves => let? pl := pl_add pl pos in add_leaves pl leaves
  end.

(** [PMMRBackend::check_compact]; the clean-up of old snapshot files is left out *)
Definition check_compact b (cutoff_pos : Z) (rewind_rm_pos : Bitmap)
    : res PmmrError (bool * PMMRBackend Bitmap) :=
  if negb (prunable b) then Panic
  else
    let? '(leaves_removed, to_rm) := pos_to_rm b cutoff_pos rewind_rm_pos in
    let? hash_pos := map_res (fun pos =>
        let? shift := get_shift (prune_list b) pos in Ok (pos - shift)%u64) (bm_iter to_rm) in
    let? hash_file := failed (data_save_prune (T := Hash) (hash_data b) hash_pos) in
    let? leaf_pos := map_res (fun pos =>
        let flat_pos := n_leaves pos in
        let? shift := get_leaf_shift (prune_list b) pos in Ok (flat_pos - shift)%u64)
      (List.filter is_leaf (bm_iter to_rm)) in
    let? data_file := failed (data_save_prune (T := Elt) (elmt_data b) leaf_pos) in
    let? pl := add_leaves (prune_list b) (bm_iter leaves_removed) in
    let? pl := pl_flush pl in
    let b := set_prune_list (set_files b hash_file data_file) pl in
    Ok (true, set_leaf_set b (ls_flush (leaf_set b))).

(** The backend as the trait sees it; a panic surfaces here as a missing value. *)
Definition read_or_none {A} (c : res PmmrError (option A)) : option A :=
  match c with Ok o => o | _ => None end.

#[export] Instance file_backend : Backend Bitmap Hash T Elt (PMMRBackend Bitmap) := {
  append := fb_append;
  backend_rewind := fb_rewind;
  backend_get_hash b pos := read_or_none (fb_get_hash b pos);
  backend_get_data b pos := read_or_none (fb_get_data b pos);
  get_from_file b pos := read_or_none (fb_get_from_file b pos);
  get_data_from_file b pos := read_or_none (fb_get_data_from_file b pos);
  remove := fb_remove
}.
End Defs.

(** ** Lists with some indices taken out *)

Definition count (p : Z -> bool) (k : Z) (i : nat) : nat := length (List.filter p (seqZ k (Z.of_nat i))).

Lemma count_S p k i : count p k (S i) = ((if p k then 1 else 0) + count p (k + 1)%Z i)%nat.
Proof.
  unfold count. rewrite seqZ_cons by lia. simpl. replace (Z.pred (Z.of_nat (S i))) with (Z.of_nat i) by lia.
  rewrite <- (Z.add_1_r k). destruct (p k); done.
Qed.

Lemma count_le p k i : (count p k i <= i)%nat.
Proof. revert k; induction i as [|i IH]; intros k; [done|]. rewrite count_S. specialize (IH (k + 1)). destruct (p k); lia. Qed.

Lemma count_snoc p k i : count p k (S i) = (count p k i + (if p (k + Z.of_nat i)%Z then 1 else 0))%nat.
Proof.
  revert k; induction i as [|i IH]; intros k.
  - rewrite count_S. change (Z.of_nat 0) with 0. rewrite Z.add_0_r. by destruct (p k).
  - rewrite count_S, IH, (count_S p k i). replace (k + 1 + Z.of_nat i) with (k + Z.of_nat (S i)) by lia. lia.
Qed.

Lemma count_ext p q k k' i :
  (forall j, 0 <= j < Z.of_nat i -> p (k + j) = q (k' + j)) -> count p k i = count q k' i.
Proof.
  revert k k'; induction i as [|i IH]; intros k k' H; [done|]. rewrite !count_S.
  rewrite <- (Z.add_0_r k) at 1. rewrite H by lia. rewrite Z.add_0_r. f_equal.
  apply IH. intros j Hj. replace (k + 1 + j) with (k + (j + 1)) by lia. rewrite H by lia. f_equal. lia.
Qed.

Lemma remove_idx_lookup {A} p k (l : list A) i :
  p (k + Z.of_nat i) = false -> remove_idx p k l !! (i - count p k i)%nat = l !! i.
Proof.
  revert k i; induction l as [|x l IH]; intros k i Hp; [done|].
  destruct i as [|i]; cbn [remove_idx].
  - rewrite Z.add_0_r in Hp. rewrite Hp. done.
  - specialize (IH (k + 1) i). rewrite count_S. pose proof (count_le p (k + 1) i).
    replace (k + 1 + Z.of_nat i) with (k + Z.of_nat (S i)) in IH by lia. specialize (IH Hp).
    destruct (p k).
    + replace (S i - (1 + count p (k + 1)%Z i))%nat with (i - count p (k + 1)%Z i)%nat by lia. exact IH.
    + replace (S i - (0 + count p (k + 1)%Z i))%nat with (S (i - count p (k + 1)%Z i)) by lia. exact IH.
Qed.

(** Taking out, from what is left, the elements that satisfy [q]. *)
Lemma remove_idx_twice {A} (p q r : Z -> bool) j k (l : list A) :
  (forall d : nat, p (k + Z.of_nat d) = false ->
     r (j + Z.of_nat (d - count p k d)) = q (k + Z.of_nat d)) ->
  remove_idx r j (remove_idx p k l) = remove_idx (fun i => p i || q i) k l.
Proof.
  revert j k; induction l as [|x l IH]; intros j k H; [done|]. cbn [remove_idx].
  destruct (p k) eqn:Ep; cbn [orb].
  - apply IH. intros d Hd. replace (k + 1 + Z.of_nat d) with (k + Z.of_nat (S d)) in * by lia.
    rewrite <- H by done. rewrite count_S, Ep. done.
  - cbn [remove_idx]. pose proof (H 0%nat) as H0. cbn in H0. rewrite !Z.add_0_r in H0. rewrite H0 by done.
    rewrite (IH (j + 1) (k + 1)); [done|]. intros d Hd.
    replace (k + 1 + Z.of_nat d) with (k + Z.of_nat (S d)) in * by lia.
    rewrite <- H by done. rewrite count_S, Ep. f_equal. pose proof (count_le p (k + 1) d). lia.
Qed.

Lemma remove_idx_none {A} p k (l : list A) :
  (forall i, k <= i < k + Z.of_nat (length l) -> p i = false) -> remove_idx p k l = l.
Proof.
  revert k; induction l as [|x l IH]; intros k H; simpl; [done|]. cbn [length] in H. rewrite H by lia. f_equal.
  apply IH. intros; apply H; lia.
Qed.

Lemma remove_idx_app {A} p k (l l' : list A) :
  remove_idx p k (l ++ l') = remove_idx p k l ++ remove_idx p (k + Z.of_nat (length l)) l'.
Proof.
  revert k; induction l as [|x l IH]; intros k; simpl; [rewrite Z.add_0_r; done|].
  rewrite IH. replace (k + 1 + Z.of_nat (length l)) with (k + Z.of_nat (S (length l))) by lia.
  destruct (p k); done.
Qed.

Lemma remove_idx_length {A} p k (l : list A) :
  length (remove_idx p k l) = (length l - count p k (length l))%nat.
Proof.
  revert k; induction l as [|x l IH]; intros k; [done|]. cbn [remove_idx length]. rewrite count_S.
  pose proof (count_le p (k + 1) (length l)). destruct (p k); cbn [length]; rewrite IH; lia.
Qed.

Lemma remove_idx_take {A} p k (l : list A) i :
  (i <= length l)%nat -> remove_idx p k (take i l) = take (i - count p k i) (remove_idx p k l).
Proof.
  intros Hi. rewrite <- (take_drop i l) at 2. rewrite remove_idx_app.
  rewrite take_app_length'; [done|]. rewrite remove_idx_length, length_take_le by done. done.
Qed.

Lemma count_add p k i j : count p k (i + j) = (count p k i + count p (k + Z.of_nat i)%Z j)%nat.
Proof.
  revert k; induction i as [|i IH]; intros k; [rewrite Z.add_0_r; done|].
  change (S i + j)%nat with (S (i + j)). rewrite !count_S, IH, Nat.add_assoc.
  replace (k + 1 + Z.of_nat i) with (k + Z.of_nat (S i)) by lia. done.
Qed.

(** The index an element has after the elements of [p] are taken out. *)
Definition rank_of (p : Z -> bool) (i : Z) : Z := i - Z.of_nat (count p 0 (Z.to_nat i)).

Lemma rank_of_nat p (d : nat) : rank_of p (Z.of_nat d) = Z.of_nat (d - count p 0 d).
Proof. unfold rank_of. rewrite Nat2Z.id. pose proof (count_le p 0 d). lia. Qed.

Lemma rank_of_bounds p i : 0 <= i -> 0 <= rank_of p i <= i.
Proof. intros Hi. unfold rank_of. pose proof (count_le p 0 (Z.to_nat i)). lia. Qed.

Lemma rank_of_lt p i j : 0 <= i < j -> p i = false -> rank_of p i < rank_of p j.
Proof.
  intros Hij Hp. unfold rank_of.
  replace (Z.to_nat j) with (S (Z.to_nat i) + Z.to_nat (j - i - 1))%nat by lia.
  rewrite count_add, count_snoc, !Z.add_0_l, Z2Nat.id, Hp by lia.
  pose proof (count_le p (Z.of_nat (S (Z.to_nat i))) (Z.to_nat (j - i - 1))). lia.
Qed.

(** Removing from a list, some of whose elements are gone already, the elements at [ps]. *)
Lemma remove_ranks {A} (p : Z -> bool) (ps : list Z) (l : list A) :
  StronglySorted Z.lt ps -> Forall (fun i => 0 <= i /\ p i = false) ps ->
  let idxs := map (rank_of p) ps in
  StronglySorted Z.lt idxs /\ Forall (fun i => 0 <= i) idxs /\
  remove_idx (fun j => existsb (Z.eqb j) idxs) 0 (remove_idx p 0 l)
  = remove_idx (fun i => p i || existsb (Z.eqb i) ps) 0 l.
Proof.
  intros Hs Hp idxs. split; [|split].
  - unfold idxs. clear idxs. induction Hs as [|i ps Hs IH Hi]; simpl; [constructor|].
    inversion Hp as [|? ? [Hi0 Hpi] Hps]; subst. constructor; [by apply IH|].
    apply List.Forall_map. eapply Forall_impl; [exact Hi|]. simpl. intros j Hj. by apply rank_of_lt.
  - apply List.Forall_map. eapply Forall_impl; [exact Hp|]. simpl. intros j [Hj _]. by apply rank_of_bounds.
  - apply remove_idx_twice. intros d Hd. rewrite !Z.add_0_l in *. rewrite <- rank_of_nat.
    apply eq_true_iff_eq. rewrite !existsb_eqb_in. unfold idxs. rewrite list_elem_of_fmap. split.
    + intros (i & E & Hin). destruct (proj1 (Forall_forall _ _) Hp i Hin) as [Hi Hpi].
      destruct (Z.lt_trichotomy i (Z.of_nat d)) as [Hlt|[->|Hlt]]; [|done|].
      * pose proof (rank_of_lt p i (Z.of_nat d) ltac:(lia) Hpi). lia.
      * pose proof (rank_of_lt p (Z.of_nat d) i ltac:(lia) Hd). lia.
    + intros Hin. eauto.
Qed.

(** ** What the files hold *)

Section Spec.
  Context {Bitmap Hash T Elt : Type} `{!CRoaring Bitmap} `{!CRoaringLaws Bitmap} `{!PMMRable Hash T Elt}
    `{!Readable Hash} `{!Writeable Hash} `{!Readable Elt} `{!Writeable Elt}
    {v : Z} {sz : option Z} {hdom : Hash -> Prop} {edom : Elt -> Prop}
    `{!ElmtCodec Hash v (Some 32) hdom} `{!ElmtCodec Elt v sz edom}.
  Implicit Types (b : PMMRBackend Bitmap) (pl : PruneList Bitmap).

Abbreviation hash_rep := (file_rep (T := Hash) (v := v) (sz := Some 32) (dom := hdom)).
Abbreviation elmt_rep := (file_rep (T := Elt) (v := v) (sz := sz) (dom := edom)).

(** The positions and leaves that are not compacted. *)
Definition kept_hashes pl (hs : list Hash) : list Hash := remove_idx (fun i => compacted pl (i + 1)) 0 hs.
Definition kept_elmts pl (es : list Elt) : list Elt := remove_idx (fun i => compacted pl (node_pos i 0)) 0 es.

(** The backend holds the range of hashes [hs] over the elements [es], with the leaves [L] pruned. *)
Record backend_rep b (hs : list Hash) (es : list Elt) (L : gset Z)
    (sh : FileState Hash) (se : FileState Elt) : Prop := {
  rep_prune : pl_ready (prune_list b) L;
  rep_hashes : hash_rep (hash_data b) sh;
  rep_elmts : elmt_rep (elmt_data b) se;
  rep_hash_view : view sh = kept_hashes (prune_list b) hs;
  rep_elmt_view : view se = kept_elmts (prune_list b) es;
  rep_size : Z.of_nat (length hs) = mmr_size (Z.of_nat (length es));
  rep_leaves : forall i, i ∈ L -> 0 <= i < Z.of_nat (length es);
  rep_small : Z.of_nat (length es) < 2 ^ 30
}.

Lemma is_compacted_spec b pos : 1 <= pos < U32 -> is_compacted b pos = Ok (compacted (prune_list b) pos).
Proof.
  intros Hp. unfold is_compacted, fb_is_pruned, fb_is_pruned_root, pl_is_pruned, pl_is_pruned_root, compacted.
  rewrite (proj2 (Z.ltb_lt _ _)) by lia. cbn [negb res_bind]. unfold wrap32. rewrite Z.mod_small by lia.
  destruct (bm_contains (pruned_cache _) _); done.
Qed.

Lemma count_positions pl (pos : Z) :
  1 <= pos -> compacted pl pos = false ->
  length (List.filter (compacted pl) (seqZ 1 pos)) = count (fun i => compacted pl (i + 1)) 0 (Z.to_nat (pos - 1)).
Proof.
  intros Hp Hk. transitivity (count (compacted pl) 1 (Z.to_nat pos)).
  { unfold count. rewrite Z2Nat.id by lia. done. }
  replace (Z.to_nat pos) with (S (Z.to_nat (pos - 1))) by lia. rewrite count_snoc, Z2Nat.id by lia.
  replace (1 + (pos - 1)) with pos by lia. rewrite Hk, Nat.add_0_r. apply count_ext.
  intros j _. f_equal. lia.
Qed.

Lemma get_from_file_spec b hs es L sh se pos :
  backend_rep b hs es L sh se -> 1 <= pos < U32 ->
  fb_get_from_file b pos
  = Ok (if compacted (prune_list b) pos then None else hs !! Z.to_nat (pos - 1)).
Proof.
  intros Hr Hp. unfold fb_get_from_file. rewrite is_compacted_spec by done. cbn [res_bind].
  destruct (compacted (prune_list b) pos) eqn:Ek; [done|].
  rewrite (shift_counts _ L pos (rep_prune _ _ _ _ _ _ Hr)) by (done || lia). cbn [res_bind].
  rewrite count_positions by (done || lia).
  set (i := Z.to_nat (pos - 1)). set (p := fun i => compacted (prune_list b) (i + 1)).
  pose proof (count_le p 0 i) as Hle.
  rewrite sub64_small by lia.
  replace (pos - Z.of_nat (count p 0 i)) with (Z.of_nat (i - count p 0 i) + 1) by lia.
  rewrite (file_read _ _ _ (rep_hashes _ _ _ _ _ _ Hr)) by (change (2 ^ 63) with 9223372036854775808; lia).
  cbn [failed map_err]. rewrite (rep_hash_view _ _ _ _ _ _ Hr). unfold kept_hashes. fold p.
  f_equal. apply remove_idx_lookup. unfold p. rewrite <- Ek. f_equal. lia.
Qed.

Lemma get_data_from_file_spec b hs es L sh se i :
  backend_rep b hs es L sh se -> 0 <= i < 2 ^ 31 ->
  fb_get_data_from_file b (node_pos i 0)
  = Ok (if compacted (prune_list b) (node_pos i 0) then None else es !! Z.to_nat i).
Proof.
  intros Hr Hi. pose proof (leaf_is_node i ltac:(lia)) as Hn.
  destruct (fits_u32 i 0 Hn ltac:(lia)) as (Hu & Hs & _).
  unfold fb_get_data_from_file. rewrite is_leaf_node, is_compacted_spec by done. cbn [negb res_bind Z.eqb].
  destruct (compacted (prune_list b) (node_pos i 0)) eqn:Ek; [done|].
  rewrite (leaf_shift_counts _ L i 0 (rep_prune _ _ _ _ _ _ Hr)) by (done || lia). cbn [res_bind].
  rewrite n_leaves_pos by done. set (p := fun i => compacted (prune_list b) (node_pos i 0)).
  replace (length (List.filter p (seqZ 0 (i + 1)))) with (count p 0 (Z.to_nat i)).
  2: { transitivity (count p 0 (S (Z.to_nat i))).
       - rewrite count_snoc, Z.add_0_l, Z2Nat.id by lia. unfold p at 3. rewrite Ek. lia.
       - unfold count. do 3 f_equal. lia. }
  pose proof (count_le p 0 (Z.to_nat i)) as Hle. change (2 ^ 31) with 2147483648 in Hi.
  rewrite sub64_small by lia.
  replace (i + 1 - Z.of_nat (count p 0 (Z.to_nat i)))
    with (Z.of_nat (Z.to_nat i - count p 0 (Z.to_nat i)) + 1) by lia.
  rewrite (file_read _ _ _ (rep_elmts _ _ _ _ _ _ Hr)) by (change (2 ^ 63) with 9223372036854775808; lia).
  cbn [failed map_err]. rewrite (rep_elmt_view _ _ _ _ _ _ Hr). unfold kept_elmts. fold p.
  f_equal. apply remove_idx_lookup. rewrite Z.add_0_l, Z2Nat.id by lia. done.
Qed.

(** ** The positions a compaction removes *)

Definition has (R : gset Z) (n h : Z) : Prop := exists i, i ∈ R /\ under i n h.

(** What the expansion of the removed leaves [R] collects: the subtrees that became full, and the old
    roots whose siblings did. *)
Definition expanded_node (L R : gset Z) (n h : Z) : Prop :=
  (full (L ∪ R) n h /\ has R n h) \/
  (full_root L n h /\ full (L ∪ R) (sibling_node n h).1 (sibling_node n h).2 /\
   has R (sibling_node n h).1 (sibling_node n h).2).

Definition expanded_ok (e : Bitmap) (L R : gset Z) : Prop :=
  bm_contains e 0 = false /\
  forall n h, is_node n h -> n < 2 ^ 31 -> bm_contains e (node_pos n h) = true <-> expanded_node L R n h.

(** State of the climb for the leaf [i] at [(n, h)]. *)
Definition climbing (L R : gset Z) (i h m k : Z) : Prop :=
  expanded_node L R m k \/ (under i m k /\ k <= h) \/
  (k < h /\ full_root L m k /\ under i (sibling_node m k).1 (sibling_node m k).2).

Lemma sibling_height n h : (sibling_node n h).2 = h.
Proof. unfold sibling_node. destruct (Z.testbit n h); done. Qed.

Lemma sibling_eq m n h :
  is_node m h -> is_node n h -> (sibling_node m h).1 = n -> m = (sibling_node n h).1.
Proof.
  intros Hm Hn E. pose proof (family_sibling_node m h Hm) as (_ & F & _).
  rewrite E, sibling_height in F. rewrite F. done.
Qed.

(** A full node without new leaves was full before. *)
Lemma full_no_new L R n h : full (L ∪ R) n h -> ~ has R n h -> full L n h.
Proof.
  intros Hf Hn i Hi. specialize (Hf i Hi). apply elem_of_union in Hf as [|]; [done|].
  destruct Hn. exists i. done.
Qed.

(** When the climb stops, the sibling is not full. *)
Lemma climb_stop_sibling L R i n h :
  is_node n h -> under i n h -> i ∉ L ->
  ~ full_root L (sibling_node n h).1 (sibling_node n h).2 ->
  ~ climbing L R i h (sibling_node n h).1 (sibling_node n h).2 ->
  ~ full (L ∪ R) (sibling_node n h).1 (sibling_node n h).2.
Proof.
  intros Hn Hi HiL Hr Hc Hf. apply Hc. left. left. split; [done|].
  destruct (decide (full L (sibling_node n h).1 (sibling_node n h).2)) as [HL|HL].
  - destruct Hr. split; [done|]. rewrite (proj1 (family_sibling_node n h Hn)). intros Hp.
    apply HiL, Hp, under_parent; [done|]. by left.
  - (* some leaf below the sibling is new *)
    assert (Hex : exists j, j ∈ R /\ under j (sibling_node n h).1 (sibling_node n h).2); [|exact Hex].
    destruct (decide (Exists (fun j => j ∈ R) (seqZ ((sibling_node n h).1 - 2 ^ (sibling_node n h).2 + 1)
      (2 ^ (sibling_node n h).2)))) as [He|He].
    + apply Exists_exists in He as (j & Hj%elem_of_seqZ & HjR). exists j. split; [done|]. unfold under. lia.
    + destruct HL. intros j Hj. specialize (Hf j Hj). apply elem_of_union in Hf as [|HjR]; [done|].
      destruct He. apply Exists_exists. exists j. split; [|done]. apply elem_of_seqZ. unfold under in Hj. lia.
Qed.

Lemma climb_stop L R i n h m k :
  is_node n h -> is_node m k -> under i n h -> i ∉ L -> full ({[i]} ∪ (L ∪ R)) n h ->
  ~ full (L ∪ R) (sibling_node n h).1 (sibling_node n h).2 ->
  climbing L R i h m k <-> expanded_node L ({[i]} ∪ R) m k.
Proof.
  intros Hn Hm Hi HiL Hf Hs. unfold climbing, expanded_node.
  replace (L ∪ ({[i]} ∪ R)) with ({[i]} ∪ (L ∪ R)) by set_solver.
  pose proof (sibling_is_node m k Hm) as Hsm. rewrite (sibling_height m k) in *.
  assert (Hmono : forall a c, full (L ∪ R) a c -> full ({[i]} ∪ (L ∪ R)) a c)
    by (intros a c; apply full_mono; set_solver).
  assert (Hhas : forall a c, has R a c -> has ({[i]} ∪ R) a c)
    by (intros a c (j & Hj & Hu); exists j; split; [set_solver|done]).
  assert (Hhi : forall a c, under i a c -> has ({[i]} ∪ R) a c)
    by (intros a c Hu; exists i; split; [set_solver|done]).
  assert (Hsplit : forall a c, full ({[i]} ∪ (L ∪ R)) a c -> has ({[i]} ∪ R) a c ->
      under i a c \/ (full (L ∪ R) a c /\ has R a c)).
  { intros a c Hfa (j & Hj & Hu). destruct (decide (a - 2 ^ c < i <= a)) as [|Hni]; [by left|]. right.
    split; [by apply (full_insert_out (L ∪ R) i)|]. exists j. split; [|done].
    apply elem_of_union in Hj as [->%elem_of_singleton|]; [|done]. destruct Hni. exact Hu. }
  split.
  - intros [[[H1 H2]|(H1 & H2 & H3)]|[[H1 H2]|(H1 & H2 & H3)]].
    + left. auto.
    + right. auto.
    + left. split; [|auto]. eapply full_sub; [|exact Hf]. by apply (nodes_nest i).
    + right. split; [done|]. split; [|auto]. eapply full_sub; [|exact Hf]. apply (nodes_nest i); (done || lia).
  - intros [[H1 H2]|(H1 & H2 & H3)].
    + destruct (Hsplit _ _ H1 H2) as [Hu|[? ?]]; [|left; left; auto]. right. left. split; [done|].
      destruct (Z.leb_spec k h) as [|Hlt]; [done|]. destruct (stop_above (L ∪ R) i n h m k Hn Hm Hi Hu Hlt); try done.
    + destruct (Hsplit _ _ H2 H3) as [Hu|[? ?]]; [|left; right; auto]. right. right.
      destruct (Z.lt_trichotomy k h) as [|[->|Hlt]]; [done| |].
      * exfalso. pose proof (same_height_same_node i _ _ _ Hsm Hn Hu Hi) as E.
        apply (sibling_eq m n h Hm Hn) in E as ->. apply Hs. rewrite sibling_height.
        eapply full_mono; [|exact (proj1 H1)]. set_solver.
      * destruct (stop_above (L ∪ R) i n h _ k Hn Hsm Hi Hu Hlt); try done.
Qed.

Lemma climb_step L R i n h m k :
  is_node n h -> is_node m k -> under i n h ->
  climbing L R i (h + 1) m k <->
  climbing L R i h m k \/ (m = (sibling_node n h).1 /\ k = h /\ full_root L m k) \/
  (m = (parent_node n h).1 /\ k = h + 1).
Proof.
  intros Hn Hm Hi. pose proof (sibling_is_node m k Hm) as Hsm. rewrite sibling_height in Hsm.
  pose proof (parent_is_node n h Hn) as Hp. rewrite parent_height in Hp.
  assert (Hip : under i (parent_node n h).1 (h + 1))
    by (rewrite <- (parent_height n h); apply under_parent; [done|by left]).
  unfold climbing. rewrite sibling_height. split.
  - intros [?|[[Hu Hk]|(Hk & Hr & Hu)]]; [tauto| |].
    + destruct (Z.eq_dec k (h + 1)) as [->|]; [|left; right; left; split; [done|lia]].
      right. right. split; [|done]. by apply (same_height_same_node i _ _ (h + 1)).
    + destruct (Z.eq_dec k h) as [->|]; [|left; right; right; split; [lia|done]].
      right. left. split; [|done]. apply sibling_eq; [done..|]. by apply (same_height_same_node i _ _ h).
  - intros [[?|[[Hu Hk]|(Hk & Hr & Hu)]]|[(-> & -> & Hr)|[-> ->]]].
    + tauto.
    + right. left. split; [done|lia].
    + right. right. split; [lia|done].
    + right. right. split; [lia|]. split; [done|].
      pose proof (family_sibling_node n h Hn) as (_ & F & _). rewrite sibling_height in F. rewrite F. done.
    + right. left. split; [done|lia].
Qed.

Definition climb_state (e : Bitmap) (L R : gset Z) (i h : Z) : Prop :=
  bm_contains e 0 = false /\
  forall m k, is_node m k -> m < 2 ^ 31 -> bm_contains e (node_pos m k) = true <-> climbing L R i h m k.

Lemma add_nodes_contains (e : Bitmap) n h m k :
  is_node n h -> n < 2 ^ 31 -> is_node m k ->
  bm_contains (bm_add e (node_pos n h)) (node_pos m k) = true <->
  (m = n /\ k = h) \/ bm_contains e (node_pos m k) = true.
Proof.
  intros Hn Hlt Hm. destruct (fits_u32 n h Hn Hlt) as (Hu & _).
  rewrite bm_contains_add, orb_true_iff, node_pos_eqb by (done || (unfold is_u32; lia)). tauto.
Qed.

Lemma add_node_zero (e : Bitmap) n h :
  is_node n h -> n < 2 ^ 31 -> bm_contains e 0 = false -> bm_contains (bm_add e (node_pos n h)) 0 = false.
Proof.
  intros Hn Hlt H0. destruct (fits_u32 n h Hn Hlt) as (Hu & _).
  rewrite bm_contains_add by (unfold is_u32; lia). rewrite H0, orb_false_r. apply Z.eqb_neq. lia.
Qed.

Lemma expand_loop_spec (fuel : nat) b (e : Bitmap) L R i n h :
  pl_rep (prune_list b) L -> small_set R -> 0 <= i < 2 ^ 30 -> i ∉ L ->
  is_node n h -> under i n h -> 31 <= Z.of_nat fuel + h -> full ({[i]} ∪ (L ∪ R)) n h ->
  climb_state e L R i h ->
  exists e', expand_loop fuel b e (node_pos n h) = Ok e' /\ expanded_ok e' L ({[i]} ∪ R).
Proof.
  intros Hrep HR Hi0 HiL. pose proof Hrep as (HsmL & [_ Hroots] & _).
  assert (Hsm : small_set ({[i]} ∪ (L ∪ R))).
  { intros j Hj. apply elem_of_union in Hj as [->%elem_of_singleton|Hj]; [done|].
    apply elem_of_union in Hj as [Hj|Hj]; [by apply HsmL|by apply HR]. }
  revert e n h. induction fuel as [|fuel IH]; intros e n h Hn Hi Hfu Hf [H0 He].
  { pose proof (full_height _ n h Hsm Hn Hf). lia. }
  pose proof (full_bound _ n h Hsm Hn Hf) as Hb. pose proof (sibling_bound n h Hn Hb) as Hsb.
  pose proof (sibling_is_node n h Hn) as Hsn.
  destruct (fits_u32 n h Hn ltac:(lia)) as (Hu & Hsl & Ew).
  destruct (fits_u32 _ _ Hsn ltac:(lia)) as (Hus & _ & Ews).
  cbn [expand_loop]. rewrite family_node by done.
  unfold fb_is_pruned_root, pl_is_pruned_root. rewrite (proj2 (Z.ltb_lt _ _)) by lia. cbn [negb res_bind].
  rewrite Ews. set (s := node_pos (sibling_node n h).1 (sibling_node n h).2).
  destruct (bm_contains (pl_bitmap (prune_list b)) s) eqn:Er.
  - (* the sibling is an old root *)
    assert (Hroot : full_root L (sibling_node n h).1 (sibling_node n h).2) by (apply Hroots; (done || lia)).
    assert (Hpf : full ({[i]} ∪ (L ∪ R)) (parent_node n h).1 (parent_node n h).2).
    { apply full_parent; [done|]. split; [done|]. eapply full_mono; [|exact (proj1 Hroot)]. set_solver. }
    pose proof (parent_is_node n h Hn) as Hpn. pose proof (full_bound _ _ _ Hsm Hpn Hpf) as Hpb.
    destruct (fits_u32 _ _ Hpn ltac:(lia)) as (_ & _ & ->). cbn [orb].
    apply IH; [done|apply under_parent; [done|by left]|rewrite parent_height; lia|done|].
    split; [apply add_node_zero; [done|lia|]; apply add_node_zero; (done || lia)|].
    intros m k Hm Hmb. unfold s. rewrite !add_nodes_contains by (done || lia). rewrite He by done.
    rewrite parent_height, (climb_step L R i n h m k Hn Hm Hi), sibling_height. split.
    + intros [?|[[-> ->]|?]]; [tauto| |tauto]. right. left. rewrite sibling_height in Hroot. done.
    + intros [?|[(? & ? & ?)|?]]; tauto.
  - assert (Hnr : ~ full_root L (sibling_node n h).1 (sibling_node n h).2)
      by (intros Hr; apply Hroots in Hr; [fold s in Hr; congruence|done|lia]).
    cbn [orb]. destruct (bm_contains e s) eqn:Ec.
    + assert (Hc : climbing L R i h (sibling_node n h).1 (sibling_node n h).2) by (apply He; (done || lia)).
      assert (Hfs : full (L ∪ R) (sibling_node n h).1 (sibling_node n h).2).
      { destruct Hc as [[[? ?]|[? ?]]|[[Hc _]|[Hc _]]]; [done|done| |].
        - destruct (sibling_disjoint i n h Hn Hi Hc).
        - rewrite sibling_height in Hc. lia. }
      assert (Hpf : full ({[i]} ∪ (L ∪ R)) (parent_node n h).1 (parent_node n h).2).
      { apply full_parent; [done|]. split; [done|]. eapply full_mono; [|exact Hfs]. set_solver. }
      pose proof (parent_is_node n h Hn) as Hpn. pose proof (full_bound _ _ _ Hsm Hpn Hpf) as Hpb.
      destruct (fits_u32 _ _ Hpn ltac:(lia)) as (_ & _ & ->).
      apply IH; [done|apply under_parent; [done|by left]|rewrite parent_height; lia|done|].
      split; [apply add_node_zero; (done || lia)|].
      intros m k Hm Hmb. rewrite add_nodes_contains by (done || lia). rewrite He by done.
      rewrite parent_height, (climb_step L R i n h m k Hn Hm Hi). split; [tauto|].
      intros [?|[(-> & -> & Hr)|?]]; [tauto| |tauto]. rewrite sibling_height in Hnr. done.
    + exists e. split; [done|]. split; [done|]. intros m k Hm Hmb. rewrite He by done.
      apply (climb_stop L R i n h); try done. apply (climb_stop_sibling L R i n h); try done.
      intros Hc. apply He in Hc; [|done|lia]. fold s in Hc. congruence.
Qed.

Lemma full_leaf L i : full L i 0 <-> i ∈ L.
Proof.
  unfold full, under. change (2 ^ 0) with 1. split; [intros H; apply H; lia|].
  intros H j Hj. replace j with i by lia. done.
Qed.

Lemma under_leaf i m k : is_node m k -> under i m k /\ k <= 0 <-> m = i /\ k = 0.
Proof.
  intros [Hm Hk]. unfold under. split.
  - intros [Hu Hk0]. replace k with 0 in * by lia. change (2 ^ 0) with 1 in Hu. lia.
  - intros [-> ->]. change (2 ^ 0) with 1. lia.
Qed.

Lemma expand_spec b (e : Bitmap) L R (l : list Z) :
  pl_rep (prune_list b) L -> small_set R -> expanded_ok e L R ->
  Forall (fun i => 0 <= i < 2 ^ 30 /\ i ∉ L) l ->
  exists e', expand b (map (fun i => node_pos i 0) l) e = Ok e' /\ expanded_ok e' L (list_to_set l ∪ R).
Proof.
  intros Hrep HR He Hl. revert e R HR He. induction Hl as [|i l [Hi HiL] Hl IH]; intros e R HR [H0 He].
  - exists e. split; [done|]. replace (list_to_set [] ∪ R) with R by set_solver. done.
  - cbn [map expand]. pose proof (leaf_is_node i ltac:(lia)) as Hn.
    destruct (expand_loop_spec 64 b (bm_add e (node_pos i 0)) L R i i 0) as (e' & -> & He'); try (done || lia).
    + by apply under_self.
    + apply full_leaf. set_solver.
    + split; [apply add_node_zero; (done || lia)|]. intros m k Hm Hmb.
      rewrite add_nodes_contains by (done || lia). rewrite He by done. unfold climbing.
      pose proof (under_leaf i m k Hm). destruct Hm. intuition lia.
    + cbn [res_bind]. destruct (IH e' ({[i]} ∪ R)) as (e'' & -> & He'').
      * intros j [->%elem_of_singleton|?]%elem_of_union; [done|by apply HR].
      * done.
      * exists e''. split; [done|]. replace (list_to_set (i :: l) ∪ R) with (list_to_set l ∪ ({[i]} ∪ R)) by set_solver.
        done.
Qed.

Lemma parent_bound n h : is_node n h -> 0 <= n < 2 ^ 30 -> 0 <= (parent_node n h).1 < 2 ^ 31.
Proof.
  intros Hn Hb. pose proof (sibling_bound n h Hn Hb) as Hs. unfold parent_node, sibling_node in *.
  destruct (Z.testbit n h); cbn [fst] in *; [|done]. change (2 ^ 31) with (2 * 2 ^ 30). lia.
Qed.

Lemma has_or_full L R n h : full (L ∪ R) n h -> ~ full L n h -> has R n h.
Proof.
  intros Hf Hn.
  destruct (decide (Exists (fun j => j ∈ R) (seqZ (n - 2 ^ h + 1) (2 ^ h)))) as [He|He].
  - apply Exists_exists in He as (j & Hj%elem_of_seqZ & HjR). exists j. split; [done|]. unfold under. lia.
  - destruct Hn. apply (full_no_new L R); [done|]. intros (j & HjR & Hj). apply He, Exists_exists.
    exists j. split; [|done]. apply elem_of_seqZ. unfold under in Hj. lia.
Qed.

(** Among the expanded nodes, those with an expanded parent are the newly compacted ones. *)
Lemma expanded_excl_roots L R n h :
  is_node n h -> L ## R ->
  expanded_node L R n h /\ expanded_node L R (parent_node n h).1 (parent_node n h).2 <->
  full (L ∪ R) (parent_node n h).1 (parent_node n h).2 /\
  ~ full L (parent_node n h).1 (parent_node n h).2.
Proof.
  intros Hn Hd. split.
  - intros [Hv [[Hf (i & Hi & Hu)]|(Hr & _)]].
    + split; [done|]. intros HL. specialize (HL i Hu). set_solver.
    + exfalso. destruct Hr as [HfL _]. destruct Hv as [[_ (i & Hi & Hu)]|([_ Hnp] & _)]; [|done].
      assert (i ∈ L); [|set_solver]. apply HfL, under_parent; [done|]. by left.
  - intros [Hf Hnf]. pose proof (has_or_full L R _ _ Hf Hnf) as Hhas.
    split; [|left; done]. apply full_parent in Hf as [H1 H2]; [|done].
    destruct (decide (full L n h)) as [HL|HL]; [|left; split; [done|by apply (has_or_full L)]].
    right. split; [done|]. split; [done|]. destruct Hhas as (i & Hi & Hu).
    apply under_parent in Hu as [Hu|Hu]; [|exists i; done|done]. specialize (HL i Hu). set_solver.
Qed.

Lemma removed_excl_roots_spec (e : Bitmap) L R :
  small_set L -> small_set R -> L ## R -> expanded_ok e L R ->
  (forall n h, is_node n h -> n < 2 ^ 31 ->
    node_pos n h ∈ bm_iter (removed_excl_roots e) <->
    full (L ∪ R) (parent_node n h).1 (parent_node n h).2 /\
    ~ full L (parent_node n h).1 (parent_node n h).2) /\
  (forall x, x ∈ bm_iter (removed_excl_roots e) -> 1 <= x < U32).
Proof.
  intros HL HR Hd [H0 He].
  assert (Hmem : forall x, x ∈ bm_iter (removed_excl_roots e) <->
      x ∈ bm_iter e /\ bm_contains e (wrap32 (family x).1) = true).
  { intros x. unfold removed_excl_roots. rewrite bm_of_list_iter.
    - rewrite list_elem_of_In, filter_In, <- list_elem_of_In. done.
    - apply Forall_forall. intros y Hy. apply list_elem_of_In, filter_In in Hy as [Hy _].
      apply list_elem_of_In in Hy. by apply bm_iter_u32 in Hy. }
  assert (Hsm : small_set (L ∪ R)) by (intros j [?|?]%elem_of_union; auto).
  split.
  - intros n h Hn Hlt. rewrite Hmem, <- bm_contains_iter, He by done.
    destruct (fits_u32 n h Hn Hlt) as (_ & Hs & _). rewrite family_node by done. cbn [fst].
    rewrite <- expanded_excl_roots by done.
    assert (Hb : expanded_node L R n h -> 0 <= n < 2 ^ 30).
    { intros [[Hf _]|([Hf _] & _)]; [by apply (full_bound (L ∪ R) n h)|by apply (full_bound L n h)]. }
    split; intros [H1 H2]; (split; [done|]).
    + pose proof (parent_bound n h Hn (Hb H1)). pose proof (parent_is_node n h Hn) as Hp.
      destruct (fits_u32 _ _ Hp ltac:(lia)) as (_ & _ & Ew). rewrite Ew in H2. by apply He in H2; [|done|lia].
    + pose proof (parent_bound n h Hn (Hb H1)). pose proof (parent_is_node n h Hn) as Hp.
      destruct (fits_u32 _ _ Hp ltac:(lia)) as (_ & _ & ->). apply He; [done|lia|done].
  - intros x [Hx _]%Hmem. pose proof (bm_iter_u32 e x Hx) as Hu. unfold is_u32 in Hu.
    assert (x <> 0) by (intros ->; apply bm_contains_iter in Hx; congruence). lia.
Qed.

Lemma filter_res_ok {A E'} (f : A -> res E' bool) (g : A -> bool) (l : list A) :
  (forall x, x ∈ l -> f x = Ok (g x)) -> filter_res f l = Ok (List.filter g l).
Proof.
  induction l as [|x l IH]; intros H; simpl; [done|]. rewrite H by left. cbn.
  rewrite IH by (intros; apply H; by right). cbn. destruct (g x); done.
Qed.

Lemma map_res_ok {A B E'} (f : A -> res E' B) (g : A -> B) (l : list A) :
  (forall x, x ∈ l -> f x = Ok (g x)) -> map_res f l = Ok (map g l).
Proof.
  induction l as [|x l IH]; intros H; simpl; [done|]. rewrite H by left. cbn.
  rewrite IH by (intros; apply H; by right). done.
Qed.

Lemma removed_pre_cutoff_spec (ls : LeafSet Bitmap) cutoff (rm : Bitmap) pl L :
  pl_rep pl L -> 0 <= cutoff -> cutoff + 1 < U32 ->
  exists bm, removed_pre_cutoff (E := PmmrError) ls cutoff rm pl = Ok bm /\
    forall pos, pos ∈ bm_iter bm <-> exists i, 0 <= i < 2 ^ 31 /\ pos = node_pos i 0 /\ pos <= cutoff /\
      i ∉ L /\ pos ∉ bm_iter (rewound (ls_bitmap ls) cutoff rm).
Proof.
  intros (_ & _ & [_ Hf]) H0 Hc. unfold removed_pre_cutoff, unpruned_pre_cutoff.
  set (g := fun x => is_leaf x && negb (bm_contains (pruned_cache pl) x)).
  rewrite (filter_res_ok _ g).
  2: { intros x Hx%elem_of_seqZ. unfold g. destruct (is_leaf x); [|done]. unfold pl_is_pruned.
       rewrite (proj2 (Z.ltb_lt _ _)) by lia. cbn. unfold wrap32. rewrite Z.mod_small by lia. done. }
  cbn [res_bind]. eexists. split; [done|]. intros pos.
  assert (Hu : Forall is_u32 (map wrap32 (List.filter g (seqZ 1 cutoff)))).
  { apply List.Forall_map, Forall_forall. intros x _. unfold is_u32, wrap32. apply Z.mod_pos_bound. lia. }
  rewrite bm_and_iter, bm_of_list_iter by done.
  assert (Hm : pos ∈ map wrap32 (List.filter g (seqZ 1 cutoff)) <->
      exists i, 0 <= i < 2 ^ 31 /\ pos = node_pos i 0 /\ pos <= cutoff /\ i ∉ L).
  { rewrite list_elem_of_fmap. split.
    - intros (x & -> & Hx). apply list_elem_of_In, filter_In in Hx as [Hx Hg].
      apply list_elem_of_In, elem_of_seqZ in Hx. unfold g in Hg. apply andb_true_iff in Hg as [Hl Hp].
      unfold wrap32. rewrite Z.mod_small by lia.
      destruct (u32_fits x ltac:(lia)) as (n & h & Hn & Hlt & ->).
      destruct (fits_u32 n h Hn Hlt) as (_ & Hs & _). rewrite is_leaf_node in Hl by done.
      apply Z.eqb_eq in Hl as ->. exists n. split; [destruct Hn; lia|]. split; [done|]. split; [lia|].
      intros Hin. apply full_leaf in Hin. apply Hf in Hin; [|done|done]. rewrite Hin in Hp. done.
    - intros (i & Hi & -> & Hle & HiL). pose proof (leaf_is_node i ltac:(lia)) as Hn.
      destruct (fits_u32 i 0 Hn ltac:(lia)) as (Hub & Hs & Hw). exists (node_pos i 0). split; [done|].
      apply list_elem_of_In, filter_In. split; [apply list_elem_of_In, elem_of_seqZ; lia|].
      unfold g. rewrite is_leaf_node by done. cbn. apply negb_true_iff, not_true_iff_false.
      intros Hc'%Hf; [|done|lia]. by apply full_leaf in Hc'. }
  rewrite Hm. rewrite add64_small by lia. split.
  - intros [Hfl (i & Hi & -> & Hle & HiL)]. exists i. do 4 (split; [done|]).
    pose proof (leaf_is_node i ltac:(lia)) as Hn. destruct (fits_u32 i 0 Hn ltac:(lia)) as (Hub & _).
    apply bm_flip_iter in Hfl as [[_ ?]|[? _]]; [done|lia|unfold is_u32; lia].
  - intros (i & Hi & -> & Hle & HiL & Hnr). split; [|exists i; done].
    pose proof (leaf_is_node i ltac:(lia)) as Hn. destruct (fits_u32 i 0 Hn ltac:(lia)) as (Hub & _).
    apply bm_flip_iter; [unfold is_u32; lia|]. left. split; [lia|done].
Qed.

Lemma add_leaves_spec pl L (l : list Z) :
  pl_rep pl L -> Forall (fun i => 0 <= i < 2 ^ 30) l ->
  exists pl', add_leaves pl (map (fun i => node_pos i 0) l) = Ok pl' /\ pl_rep pl' (list_to_set l ∪ L) /\
    pl_path pl' = pl_path pl.
Proof.
  intros Hrep Hl. revert pl L Hrep. induction Hl as [|i l Hi Hl IH]; intros pl L Hrep; cbn [map add_leaves].
  - exists pl. split; [done|]. replace (list_to_set [] ∪ L) with L by set_solver. done.
  - destruct (add_leaf (E := PmmrError) pl L i Hrep Hi) as (pl1 & -> & Hrep1 & Hp1 & _). cbn [res_bind].
    destruct (IH pl1 _ Hrep1) as (pl2 & -> & Hrep2 & Hp2). exists pl2. split; [done|].
    replace (list_to_set (i :: l) ∪ L) with (list_to_set l ∪ ({[i]} ∪ L)) by set_solver. split; [done|congruence].
Qed.

(** A sorted list of leaf positions is the image of a list of leaf indices. *)
Lemma leaf_positions (l : list Z) (P : Z -> Prop) :
  StronglySorted Z.lt l -> (forall x, x ∈ l <-> exists i, P i /\ x = node_pos i 0) ->
  (forall i, P i -> 0 <= i < 2 ^ 31) ->
  exists idx, l = map (fun i => node_pos i 0) idx /\ StronglySorted Z.lt idx /\ (forall i, i ∈ idx <-> P i).
Proof.
  intros Hs Hl HP. exists (map (fun x => n_leaves x - 1) l).
  assert (Hid : forall i, P i -> n_leaves (node_pos i 0) - 1 = i).
  { intros i Hi. pose proof (HP i Hi). destruct (fits_u32 i 0 (leaf_is_node i ltac:(lia)) ltac:(lia)) as (_ & Hsm & _).
    rewrite n_leaves_leaf by done. lia. }
  split; [|split].
  - rewrite map_map. transitivity (map id l); [rewrite map_id; done|]. apply map_ext_in. intros x Hx.
    apply list_elem_of_In, Hl in Hx as (i & Hi & ->). rewrite Hid by done. done.
  - assert (Hall : Forall (fun x => exists i, P i /\ x = node_pos i 0) l)
      by (apply Forall_forall; intros x Hx; by apply Hl).
    clear Hl. induction Hs as [|x l Hs IH Hx]; simpl; [constructor|].
    inversion Hall as [|? ? (i & Hi & ->) Hl]; subst. constructor; [by apply IH|].
    apply List.Forall_map. rewrite Forall_forall in *. intros y Hy. specialize (Hx y Hy). simpl.
    destruct (Hl y Hy) as (j & Hj & ->). rewrite !Hid by done.
    pose proof (HP i Hi). pose proof (HP j Hj). destruct (Z.ltb_spec i j) as [|Hge]; [done|].
    pose proof (mmr_size_mono j i ltac:(lia)). unfold node_pos in Hx. lia.
  - intros i. rewrite list_elem_of_fmap. split.
    + intros (x & -> & Hx). apply Hl in Hx as (j & Hj & ->). rewrite Hid by done. done.
    + intros Hi. exists (node_pos i 0). split; [by rewrite Hid|]. apply Hl. eauto.
Qed.

(** ** Compaction *)

(** The positions in [rm] are exactly those that the change from [pl] to [pl'] compacts. *)
Definition newly_compacted (rm : list Z) pl pl' : Prop :=
  forall x, 1 <= x < U32 -> compacted pl' x = compacted pl x || existsb (Z.eqb x) rm.

Lemma newly_compacted_spec (rm : Bitmap) pl pl' L R :
  pl_rep pl L -> pl_rep pl' (L ∪ R) ->
  (forall n h, is_node n h -> n < 2 ^ 31 ->
    node_pos n h ∈ bm_iter rm <->
    full (L ∪ R) (parent_node n h).1 (parent_node n h).2 /\
    ~ full L (parent_node n h).1 (parent_node n h).2) ->
  newly_compacted (bm_iter rm) pl pl' /\
  (forall x, x ∈ bm_iter rm -> 1 <= x < U32 -> compacted pl x = false).
Proof.
  intros Hrep Hrep' Hrm. split.
  - intros x Hx. destruct (u32_fits x Hx) as (n & h & Hn & Hlt & ->). apply eq_true_iff_eq.
    rewrite orb_true_iff, existsb_eqb_in, (compacted_node pl L), (compacted_node pl' (L ∪ R)), Hrm by done.
    destruct (decide (full L (parent_node n h).1 (parent_node n h).2)) as [HL|]; [|tauto].
    split; [tauto|]. intros _. eapply full_mono; [|exact HL]. set_solver.
  - intros x Hin Hx. destruct (u32_fits x Hx) as (n & h & Hn & Hlt & ->). apply Hrm in Hin as [_ Hnf]; [|done..].
    apply not_true_iff_false. rewrite (compacted_node pl L) by done. done.
Qed.

Lemma hash_ranks pl L (rm : list Z) :
  pl_ready pl L -> (forall x, x ∈ rm -> 1 <= x < U32 /\ compacted pl x = false) ->
  map_res (fun pos => let? shift := get_shift pl pos in Ok (E := PmmrError) (pos - shift)%u64) rm
  = Ok (map (fun pos => rank_of (fun i => compacted pl (i + 1)) (pos - 1) + 1) rm).
Proof.
  intros Hr Hrm. apply map_res_ok. intros x Hx. destruct (Hrm x Hx) as [Hu Hk].
  rewrite (shift_counts pl L x Hr) by (done || lia). cbn [res_bind]. f_equal.
  rewrite count_positions by (done || lia). unfold rank_of.
  pose proof (count_le (fun i => compacted pl (i + 1)) 0 (Z.to_nat (x - 1))). rewrite sub64_small by lia. lia.
Qed.

Lemma leaf_ranks pl L (rm : list Z) :
  pl_ready pl L -> (forall i, i ∈ rm -> 0 <= i < 2 ^ 31 /\ compacted pl (node_pos i 0) = false) ->
  map_res (fun pos => let? shift := get_leaf_shift pl pos in Ok (E := PmmrError) (n_leaves pos - shift)%u64)
    (map (fun i => node_pos i 0) rm)
  = Ok (map (fun i => rank_of (fun i => compacted pl (node_pos i 0)) i + 1) rm).
Proof.
  intros Hr Hrm. rewrite (map_res_ok _ (fun x =>
    rank_of (fun i => compacted pl (node_pos i 0)) (n_leaves x - 1) + 1)).
  - f_equal. rewrite map_map. apply map_ext_in. intros i Hi%list_elem_of_In. destruct (Hrm i Hi) as [Hb _].
    destruct (fits_u32 i 0 (leaf_is_node i ltac:(lia)) ltac:(lia)) as (_ & Hs & _).
    rewrite n_leaves_leaf by done. do 2 f_equal. lia.
  - intros x Hx. apply list_elem_of_fmap in Hx as (i & -> & Hi). destruct (Hrm i Hi) as [Hb Hk].
    pose proof (leaf_is_node i ltac:(lia)) as Hn. destruct (fits_u32 i 0 Hn ltac:(lia)) as (_ & Hs & _).
    rewrite (leaf_shift_counts pl L i 0 Hr) by (done || lia). cbn [res_bind]. f_equal.
    rewrite n_leaves_leaf by done. set (p := fun i => compacted pl (node_pos i 0)).
    replace (length (List.filter p (seqZ 0 (i + 1)))) with (count p 0 (Z.to_nat i)).
    2: { transitivity (count p 0 (S (Z.to_nat i))).
         - rewrite count_snoc, Z.add_0_l, Z2Nat.id by lia. unfold p at 3. rewrite Hk. lia.
         - unfold count. do 3 f_equal. lia. }
    unfold rank_of. replace (i + 1 - 1) with i by lia. pose proof (count_le p 0 (Z.to_nat i)).
    change (2 ^ 31) with 2147483648 in Hb. rewrite sub64_small by lia. lia.
Qed.

(** Pruning a synced file at the ranks of [ps] leaves the elements outside [p] and [ps]. *)
Lemma save_prune_ranks {A} {sz' : option Z} {dom : A -> Prop} `{!Readable A} `{!Writeable A}
    `{!ElmtCodec A v sz' dom} f (l : list A) (p : Z -> bool) ps :
  file_rep (v := v) (sz := sz') (dom := dom) f (synced (remove_idx p 0 l)) -> clean f ->
  Z.of_nat (length l) < 2 ^ 58 -> StronglySorted Z.lt ps ->
  Forall (fun i => 0 <= i < 2 ^ 63 /\ p i = false) ps ->
  exists f', data_save_prune (T := A) f (map (fun i => rank_of p i + 1) ps) = Ok f' /\ clean f' /\
    file_rep (v := v) (sz := sz') (dom := dom) f'
      (synced (remove_idx (fun i => p i || existsb (Z.eqb i) ps) 0 l)).
Proof.
  intros Hr Hc Hl Hs Hp.
  assert (Hp' : Forall (fun i => 0 <= i /\ p i = false) ps)
    by (eapply Forall_impl; [exact Hp|]; simpl; intros i [? ?]; split; [lia|done]).
  destruct (remove_ranks p ps l Hs Hp') as (Hs' & Hge & E). cbn zeta in *.
  unfold data_save_prune. rewrite map_map.
  replace (map (fun x => ((rank_of p x + 1)%Z - 1)%u64) ps) with (map (rank_of p) ps).
  2: { apply map_ext_in. intros i Hi%list_elem_of_In. rewrite Forall_forall in Hp.
       destruct (Hp i Hi) as [Hb _]. change (2 ^ 63) with 9223372036854775808 in Hb.
       pose proof (rank_of_bounds p i ltac:(lia)). rewrite sub64_small by lia. lia. }
  destruct (file_save_prune f (remove_idx p 0 l) (map (rank_of p) ps)) as (f' & E' & Hc' & Hr'); try done.
  - rewrite remove_idx_length. lia.
  - exists f'. split; [done|]. split; [done|]. rewrite <- E. done.
Qed.

Lemma view_synced {A} (l : list A) : view (synced l) = l.
Proof. unfold view, synced. cbn. rewrite take_ge, app_nil_r by done. done. Qed.

(** A prunable backend with everything on disk. *)
Definition synced_rep b (hs : list Hash) (es : list Elt) (L : gset Z) : Prop :=
  backend_rep b hs es L (synced (kept_hashes (prune_list b) hs)) (synced (kept_elmts (prune_list b) es)) /\
  clean (hash_data b) /\ clean (elmt_data b) /\ prunable b = true.

(** The prune list file opens as a list of the same leaves. *)
Definition prune_file (pl : PruneList Bitmap) (L : gset Z) : Prop :=
  exists f pl', pl_path pl = Some f /\ pl_open (E := PmmrError) f = Ok pl' /\ pl_ready pl' L /\
    pl_path pl' = Some f.

(** The leaves a compaction up to [cutoff] prunes: neither in the rewound leaf set nor pruned before. *)
Definition prunes b (cutoff : Z) (rm : Bitmap) (L : gset Z) (i : Z) : Prop :=
  0 <= i < 2 ^ 31 /\ node_pos i 0 <= cutoff /\ i ∉ L /\
  node_pos i 0 ∉ bm_iter (rewound (ls_bitmap (leaf_set b)) cutoff rm).

(** What [pos_to_rm] returns. *)
Lemma pos_to_rm_spec b L cutoff (rm : Bitmap) :
  pl_rep (prune_list b) L -> 0 <= cutoff < 2 ^ 31 ->
  exists leaves to_rm ri, pos_to_rm b cutoff rm = Ok (leaves, to_rm) /\
    bm_iter leaves = map (fun i => node_pos i 0) ri /\
    (forall i, i ∈ ri <-> prunes b cutoff rm L i) /\
    Forall (fun i => 0 <= i < 2 ^ 30 /\ i ∉ L) ri /\
    (forall n h, is_node n h -> n < 2 ^ 31 ->
      node_pos n h ∈ bm_iter to_rm <->
      full (L ∪ list_to_set ri) (parent_node n h).1 (parent_node n h).2 /\
      ~ full L (parent_node n h).1 (parent_node n h).2) /\
    (forall x, x ∈ bm_iter to_rm -> 1 <= x < U32).
Proof.
  intros Hrep Hc. change (2 ^ 31) with 2147483648 in Hc.
  destruct (removed_pre_cutoff_spec (leaf_set b) cutoff rm _ L Hrep ltac:(lia) ltac:(lia)) as (bm & Ebm & Hbm).
  destruct (leaf_positions (bm_iter bm) (prunes b cutoff rm L)) as (ri & Eri & _ & Hri).
  - apply bm_iter_sorted.
  - intros x. rewrite Hbm. unfold prunes. split.
    + intros (i & ? & -> & ? & ? & ?). exists i. done.
    + intros (i & (? & ? & ? & ?) & ->). exists i. done.
  - intros i Hi. apply Hi.
  - assert (Hb : Forall (fun i => 0 <= i < 2 ^ 30 /\ i ∉ L) ri).
    { apply Forall_forall. intros i Hi. apply Hri in Hi as (Hi & Hle & HiL & _). split; [|done].
      pose proof (mmr_size_bounds i ltac:(lia)). unfold node_pos in Hle.
      assert (E1 : i < 2 ^ 30 \/ 2 ^ 30 <= i) by lia. destruct E1 as [|Hge]; [lia|].
      pose proof (mmr_size_mono (2 ^ 30) i ltac:(lia)) as Hm.
      assert (E2 : mmr_size (2 ^ 30) = 2147483647) by (vm_compute; reflexivity). lia. }
    assert (Hsm : small_set (list_to_set ri)).
    { intros i Hi%elem_of_list_to_set. rewrite Forall_forall in Hb. by apply Hb. }
    assert (He0 : expanded_ok (bm_create : Bitmap) L ∅).
    { split; [apply bm_contains_create|]. intros n h Hn _. rewrite bm_contains_create.
      split; [done|]. intros [[_ (i & Hi & _)]|(_ & _ & (i & Hi & _))]; set_solver. }
    destruct (expand_spec b bm_create L ∅ ri Hrep) as (e & Ee & He); [intros i Hi; set_solver|done|done|].
    rewrite (right_id_L ∅ (∪)) in He.
    destruct (removed_excl_roots_spec e L (list_to_set ri)) as [H1 H2]; [apply Hrep|done| |done|].
    { intros i Hi Hi'%elem_of_list_to_set. apply Hri in Hi' as (_ & _ & ? & _). done. }
    exists bm, (removed_excl_roots e), ri. split; [|done].
    unfold pos_to_rm. rewrite Ebm. cbn [res_bind]. rewrite Eri, Ee. done.
Qed.

(** The kept elements after a compaction, from those before. *)
Lemma kept_hashes_after pl pl' (to_rm : list Z) (hs : list Hash) :
  newly_compacted to_rm pl pl' -> Z.of_nat (length hs) < U32 - 1 ->
  remove_idx (fun i => compacted pl (i + 1) || existsb (Z.eqb i) (map (fun x => x - 1) to_rm)) 0 hs
  = kept_hashes pl' hs.
Proof.
  intros Hnew Hl. apply remove_idx_ext. intros i Hi. rewrite Hnew by lia. f_equal.
  apply eq_true_iff_eq. rewrite !existsb_eqb_in, list_elem_of_fmap. split.
  - intros (x & -> & Hx). replace (x - 1 + 1) with x by lia. done.
  - intros Hx. exists (i + 1). split; [lia|done].
Qed.

Lemma kept_elmts_after pl pl' (to_rm li : list Z) (es : list Elt) :
  newly_compacted to_rm pl pl' -> Z.of_nat (length es) < 2 ^ 30 ->
  (forall i, i ∈ li <-> 0 <= i < 2 ^ 31 /\ node_pos i 0 ∈ to_rm) ->
  remove_idx (fun i => compacted pl (node_pos i 0) || existsb (Z.eqb i) li) 0 es = kept_elmts pl' es.
Proof.
  intros Hnew Hl Hli. apply remove_idx_ext. intros i Hi.
  destruct (fits_u32 i 0 (leaf_is_node i ltac:(lia)) ltac:(change (2 ^ 30) with 1073741824 in Hl; lia)) as (Hu & _).
  rewrite Hnew by done. f_equal. apply eq_true_iff_eq. rewrite !existsb_eqb_in, Hli.
  change (2 ^ 30) with 1073741824 in Hl. change (2 ^ 31) with 2147483648. split; [tauto|]. intros; split; [lia|done].
Qed.

Lemma sorted_pred (l : list Z) : StronglySorted Z.lt l -> StronglySorted Z.lt (map (fun x => x - 1) l).
Proof.
  induction 1 as [|x l Hs IH Hx]; simpl; constructor; [done|]. apply List.Forall_map.
  eapply Forall_impl; [exact Hx|]. simpl. lia.
Qed.

Lemma sorted_filter (f : Z -> bool) (l : list Z) :
  StronglySorted Z.lt l -> StronglySorted Z.lt (List.filter f l).
Proof.
  induction 1 as [|x l Hs IH Hx]; simpl; [constructor|]. destruct (f x); [|done]. constructor; [done|].
  rewrite Forall_forall in *. intros y Hy. apply list_elem_of_In, filter_In in Hy as [Hy _].
  apply Hx. by apply list_elem_of_In.
Qed.

Lemma compact_spec b hs es L cutoff (rm : Bitmap) :
  synced_rep b hs es L -> 0 <= cutoff <= Z.of_nat (length hs) ->
  exists b' R, check_compact (Hash := Hash) (Elt := Elt) b cutoff rm = Ok (true, b') /\
    synced_rep b' hs es (L ∪ R) /\ leaf_set b' = ls_flush (leaf_set b) /\
    (forall i, i ∈ R <-> prunes b cutoff rm L i) /\
    (prune_file (prune_list b) L -> prune_file (prune_list b') (L ∪ R)).
Proof.
  intros (Hrep & Hch & Hce & Hpr) Hc.
  pose proof (rep_prune _ _ _ _ _ _ Hrep) as Hready. pose proof (rep_size _ _ _ _ _ _ Hrep) as Hsize.
  pose proof (rep_small _ _ _ _ _ _ Hrep) as Hsmall. change (2 ^ 30) with 1073741824 in Hsmall.
  pose proof (mmr_size_bounds (Z.of_nat (length es)) ltac:(lia)) as Hms.
  destruct (pos_to_rm_spec b L cutoff rm (proj1 Hready)) as (leaves & to_rm & ri & Erm & Eri & Hri & Hb & Hnew & Hu);
    [change (2 ^ 31) with 2147483648; lia|].
  destruct (add_leaves_spec (prune_list b) L ri (proj1 Hready)) as (pl1 & E1 & Hrep1 & Hp1);
    [eapply Forall_impl; [exact Hb|]; simpl; tauto|].
  replace (list_to_set ri ∪ L) with (L ∪ list_to_set ri) in Hrep1 by set_solver.
  destruct (flush_ready (E := PmmrError) pl1 _ Hrep1) as (pl2 & E2 & Hready2 & _ & Hp2).
  destruct (newly_compacted_spec to_rm (prune_list b) pl2 L (list_to_set ri) (proj1 Hready) (proj1 Hready2) Hnew)
    as [Hnc Hun].
  unfold check_compact. rewrite Hpr. cbn [negb]. rewrite Erm. cbn [res_bind].
  rewrite (hash_ranks (prune_list b) L (bm_iter to_rm) Hready) by (intros x Hx; split; [by apply Hu|apply Hun; auto]).
  cbn [res_bind].
  destruct (save_prune_ranks (hash_data b) hs (fun i => compacted (prune_list b) (i + 1))
    (map (fun x => x - 1) (bm_iter to_rm))) as (hf & Eh & Hhc & Hhr).
  { apply (rep_hashes _ _ _ _ _ _ Hrep). }
  { done. }
  { change (2 ^ 58) with 288230376151711744. lia. }
  { apply sorted_pred, bm_iter_sorted. }
  { apply List.Forall_map, Forall_forall. intros x Hx. pose proof (Hu x Hx).
    change (2 ^ 63) with 9223372036854775808. split; [lia|]. replace (x - 1 + 1) with x by lia. by apply Hun. }
  rewrite map_map in Eh. rewrite Eh. cbn [failed map_err res_bind].
  (* the leaves among the removed positions *)
  destruct (leaf_positions (List.filter is_leaf (bm_iter to_rm))
    (fun i => 0 <= i < 2 ^ 31 /\ node_pos i 0 ∈ bm_iter to_rm)) as (li & Eli & Hlis & Hli).
  { apply sorted_filter, bm_iter_sorted. }
  { intros x. rewrite list_elem_of_In, filter_In, <- list_elem_of_In. split.
    - intros [Hx Hl]. destruct (u32_fits x (Hu x Hx)) as (n & h & Hn & Hlt & ->).
      destruct (fits_u32 n h Hn Hlt) as (_ & Hs & _). rewrite is_leaf_node in Hl by done.
      apply Z.eqb_eq in Hl as ->. exists n. destruct Hn. split; [split; [lia|done]|done].
    - intros (i & [Hi Hx] & ->). split; [done|]. pose proof (leaf_is_node i ltac:(lia)) as Hn.
      destruct (fits_u32 i 0 Hn ltac:(lia)) as (_ & Hs & _). rewrite is_leaf_node by done. done. }
  { intros i Hi. apply Hi. }
  assert (Hlk : forall i, i ∈ li -> 0 <= i < 2 ^ 31 /\ compacted (prune_list b) (node_pos i 0) = false).
  { intros i Hi. apply Hli in Hi as [Hi Hx]. split; [done|]. by apply Hun; [|apply Hu]. }
  rewrite Eli, (leaf_ranks (prune_list b) L li Hready Hlk). cbn [res_bind].
  destruct (save_prune_ranks (elmt_data b) es (fun i => compacted (prune_list b) (node_pos i 0)) li)
    as (ef & Ee & Hec & Her).
  { apply (rep_elmts _ _ _ _ _ _ Hrep). }
  { done. }
  { change (2 ^ 58) with 288230376151711744. lia. }
  { done. }
  { apply Forall_forall. intros i Hi. destruct (Hlk i Hi). change (2 ^ 63) with 9223372036854775808.
    change (2 ^ 31) with 2147483648 in *. split; [lia|done]. }
  rewrite Ee. cbn [failed map_err res_bind]. rewrite Eri, E1. cbn [res_bind]. rewrite E2. cbn [res_bind].
  rewrite (kept_hashes_after (prune_list b) pl2) in Hhr by (done || lia).
  rewrite (kept_elmts_after (prune_list b) pl2 (bm_iter to_rm) li) in Her by (done || (change (2 ^ 30) with 1073741824; lia)).
  eexists _, (list_to_set ri). split; [done|]. split; [|split; [done|]].
  - split; [|split; [done|split; [done|cbn; done]]]. constructor; cbn; try done.
    + apply view_synced.
    + apply view_synced.
    + intros i Hi. apply elem_of_union in Hi as [Hi|Hi%elem_of_list_to_set].
      * by apply (rep_leaves _ _ _ _ _ _ Hrep).
      * apply Hri in Hi as (Hi & Hle & _). split; [lia|].
        destruct (Z.ltb_spec i (Z.of_nat (length es))) as [|Hge]; [done|].
        pose proof (mmr_size_mono (Z.of_nat (length es)) i ltac:(lia)). unfold node_pos in Hle. lia.
  - split; [intros i; rewrite elem_of_list_to_set; apply Hri|]. intros (f & _ & Ef & _).
    unfold prune_file. cbn [prune_list set_leaf_set set_prune_list].
    destruct (open_ready (E := PmmrError) (pl_bitmap pl1) (L ∪ list_to_set ri) (proj1 Hrep1) (proj1 (proj2 Hrep1)))
      as (pl3 & E3 & Hr3 & Hp3).
    eexists _, pl3. rewrite Hp2, Hp1, Ef. done.
Qed.
End Spec.
