(* ===== verification/StoreTheorems.v ===== *)
(** * The file-backed PMMR refines the abstract range

    A [PMMR] over [PMMRBackend] ([store/src/pmmr.rs]) under any sequence of
    pushes, removals, syncs, discards, rewinds and compactions: its root and its
    data are those of the list of elements that the same operations build, however
    many subtrees have been compacted out of the files. *)

From Stdlib Require Import ZArith Lia List Bool Sorted.
From stdpp Require Import base numbers list option gmap.
From S2P Require Import Prelude MmrIndex Pmmr PmmrTheorems Bytes Ser Bitmap PruneList DataFile FileBackend.

(** ** The abstract store *)

(** The elements on disk, kept and pending; the unspent leaves, now and at the last sync; the pruned
    leaves; and whether no rewind is pending. *)
Record AbsStore (T : Type) := mkStore {
  elems : FileState T;
  unspent : gset Z;
  unspent_bak : gset Z;
  pruned : gset Z;
  settled : bool
}.
Arguments mkStore {T}.
Arguments elems {T}.
Arguments unspent {T}.
Arguments unspent_bak {T}.
Arguments pruned {T}.
Arguments settled {T}.

Inductive StoreOp (T Bitmap : Type) :=
| SPush (x : T)
| SPrune (i : Z)
| SSync
| SDiscard
| SReopen
| SRewind (n : nat) (rm : Bitmap)
| SCompact (cutoff : Z) (rm : Bitmap).
Arguments SPush {T Bitmap}.
Arguments SPrune {T Bitmap}.
Arguments SSync {T Bitmap}.
Arguments SDiscard {T Bitmap}.
Arguments SReopen {T Bitmap}.
Arguments SRewind {T Bitmap}.
Arguments SCompact {T Bitmap}.

(** The leaf indices of the positions in a bitmap. *)
Definition leaf_indices {Bitmap} `{!CRoaring Bitmap} (b : Bitmap) : gset Z :=
  list_to_set (map (fun x => n_leaves x - 1) (List.filter is_leaf (bm_iter b))).

(** The leaves below [n]. *)
Definition below (n : Z) (s : gset Z) : gset Z := filter (fun i => i < n) s.

(** The leaves a compaction prunes. *)
Definition compact_leaves {Bitmap} `{!CRoaring Bitmap} (u L : gset Z) (cutoff : Z) (rm : Bitmap) : gset Z :=
  filter (fun i => node_pos i 0 <= cutoff) (list_to_set (seqZ 0 cutoff)) ∖ (u ∪ leaf_indices rm ∪ L).

Definition abs_op {T Bitmap} `{!CRoaring Bitmap} (a : AbsStore T) (op : StoreOp T Bitmap) : AbsStore T :=
  match op with
  | SPush x =>
    mkStore (state_append (elems a) x) ({[ Z.of_nat (length (view (elems a))) ]} ∪ unspent a)
      (unspent_bak a) (pruned a) (settled a)
  | SPrune i => mkStore (elems a) (unspent a ∖ {[ i ]}) (unspent_bak a) (pruned a) (settled a)
  | SSync => mkStore (state_flush (elems a)) (unspent a) (unspent a) (pruned a) true
  | SDiscard | SReopen => mkStore (state_discard (elems a)) (unspent_bak a) (unspent_bak a) (pruned a) true
  | SRewind n rm =>
    mkStore (state_rewind (elems a) n) (below (Z.of_nat n) (unspent a) ∪ leaf_indices rm)
      (unspent_bak a) (pruned a) false
  | SCompact cutoff rm =>
    mkStore (elems a) (unspent a) (unspent a)
      (pruned a ∪ compact_leaves (unspent a) (pruned a) cutoff rm) true
  end.

(** ** Generic facts *)

Section Agree.
  Context {Bitmap Hash T E B1 B2 : Type} `{!PMMRable Hash T E}
    `{!Backend Bitmap Hash T E B1} `{!Backend Bitmap Hash T E B2}.

(** [push] reads the left siblings on the way up only. *)
Lemma push_loop_agree (fuel : nat) (b1 : B1) (b2 : B2) n h (cur : Hash) acc :
  is_node n h -> small_leaves n ->
  (forall j, is_node n j -> j < trailing_ones n ->
     get_from_file b1 (node_pos (n - 2 ^ j) j) = get_from_file b2 (node_pos (n - 2 ^ j) j)) ->
  push_loop (Bitmap := Bitmap) (E := E) fuel b1 n (2 ^ h) (node_pos n h) cur acc
  = push_loop (Bitmap := Bitmap) (E := E) fuel b2 n (2 ^ h) (node_pos n h) cur acc.
Proof.
  intros Hn Hs Ha. revert h cur acc Hn. induction fuel as [|fuel IH]; intros h cur acc Hn; [done|].
  cbn [push_loop]. pose proof (node_height_small n h Hn Hs). pose proof (node_pos_bounds n h Hn Hs).
  pose proof (pow2_pos h ltac:(lia)).
  rewrite land_pow2_testbit, testbit_node by (done || (destruct Hn; lia)).
  destruct (Z.ltb_spec h (trailing_ones n)) as [Hlt|Hge]; cbn [negb]; [|done].
  rewrite left_sibling_pos, Ha by done.
  destruct (get_from_file b2 _) as [lh|]; cbn [ok_or res_bind]; [|done].
  rewrite mul64_small, add64_small by lia.
  replace (2 ^ h * 2) with (2 ^ (h + 1)) by (rewrite Z.pow_add_r by lia; lia).
  replace (node_pos n h + 1) with (node_pos n (h + 1)) by (unfold node_pos; lia).
  apply IH. destruct Hn; split; lia.
Qed.

(** The root depends on the hashes of the peaks only. *)
Lemma root_agree (p1 : PMMR B1) (p2 : PMMR B2) :
  last_pos p1 = last_pos p2 ->
  (forall x, x ∈ peaks (last_pos p1) ->
     get_from_file (backend p1) x = get_from_file (backend p2) x) ->
  root (Bitmap := Bitmap) (E := E) p1 = root (Bitmap := Bitmap) (E := E) p2.
Proof.
  intros Hl Ha. unfold root, is_empty, unpruned_size, pmmr_peaks. rewrite <- Hl.
  replace (omap (get_from_file (backend p2)) (peaks (last_pos p1)))
    with (omap (get_from_file (backend p1)) (peaks (last_pos p1))); [done|].
  induction (peaks (last_pos p1)) as [|x l IH]; [done|]. cbn [omap list_omap].
  rewrite Ha by left. rewrite IH by (intros; apply Ha; by right). done.
Qed.
End Agree.

Section Range.
  Context {Bitmap Hash T E : Type} `{!PMMRable Hash T E}.

(** The backend in memory that holds a list of hashes. *)
Definition vec_of (hs : list Hash) : VecBackend Hash T := mkVec None hs ∅.

Lemma range_exists (xs : list T) :
  small_leaves (Z.of_nat (length xs)) -> exists hs, range_of xs hs.
Proof.
  intros Hs. destruct (push_all_represents (Bitmap := Bitmap) (E := E) (new vec_new) [] xs)
    as (p & _ & Hp & _); [apply new_represents; done|done|]. eauto.
Qed.

(** The hashes that pushing [x] appends. *)
Lemma push_hashes (xs : list T) x hs :
  range_of xs hs -> small_leaves (Z.of_nat (length xs)) ->
  let n := Z.of_nat (length xs) in
  exists new, push_loop (Bitmap := Bitmap) (E := E) 64 (vec_of hs) n 1 (node_pos n 0)
      (hash_elmt x (mmr_size n)) [hash_elmt x (mmr_size n)]
    = Ok (node_pos n (trailing_ones n), new) /\
    range_of (xs ++ [x]) (hs ++ new) /\
    Forall (fun h => (exists y pos, h = hash_elmt y pos) \/ (exists q pos, h = hash_pair q pos)) new.
Proof.
  intros Hr Hs n. pose proof (leaf_is_node n (proj1 Hs)) as Hleaf.
  assert (Hcur : node_hash (xs ++ [x]) n (Z.to_nat 0) = Some (hash_elmt x (mmr_size n))).
  { simpl. unfold n. rewrite Nat2Z.id, lookup_app_r, Nat.sub_diag by lia. done. }
  assert (Hr' : range_of xs (hash_file (Bitmap := Bitmap) (E := E) (vec_of hs))) by exact Hr.
  destruct (push_loop_spec (Bitmap := Bitmap) (E := E) 64 (vec_of hs) xs x n 0 (hash_elmt x (mmr_size n))
    [hash_elmt x (mmr_size n)] Hr' eq_refl Hs Hleaf) as (hs' & Hloop & Hpar); [|done|].
  { pose proof (trailing_ones_bound 61 n Hs). lia. }
  change (2 ^ 0) with 1 in Hloop. exists ([hash_elmt x (mmr_size n)] ++ hs'). split; [exact Hloop|].
  split; [by apply range_of_snoc|]. constructor; [left; eauto|].
  destruct Hpar as [_ Hl]. apply Forall_lookup. intros i h Hi.
  rewrite Hl in Hi by (by eapply lookup_lt_Some).
  replace (Z.to_nat 0 + 1 + i)%nat with (S i) in Hi by lia. cbn [node_hash] in Hi.
  destruct (node_hash _ _ i); [|done]. destruct (node_hash _ _ i); [|done]. injection Hi as <-. right. eauto.
Qed.
End Range.

Lemma peaks_positions n : 0 <= n < 2 ^ 31 -> peaks (mmr_size n) = peak_positions 64 0 n.
Proof.
  intros Hn. change (2 ^ 31) with 2147483648 in Hn. pose proof (mmr_size_bounds n ltac:(lia)).
  pose proof (peaks_node n 0 (leaf_is_node n ltac:(lia)) ltac:(lia)) as E. rewrite Z.add_0_r in E.
  rewrite E. change (0 =? 0) with true. cbv iota. reflexivity.
Qed.

(** The parent of a peak needs a leaf that is not there yet. *)
Lemma peaks_parent_beyond n x :
  0 <= n < 2 ^ 31 -> x ∈ peaks (mmr_size n) ->
  exists m j, is_node m j /\ x = node_pos m j /\ m < n /\ n <= (parent_node m j).1.
Proof.
  intros Hn Hx. rewrite peaks_positions in Hx by done. change (2 ^ 31) with 2147483648 in Hn.
  apply elem_of_peak_positions in Hx as (j & Hj & Hbj & ->); [|change (2 ^ Z.of_nat 64) with U64; lia].
  destruct (peak_node n j ltac:(lia) ltac:(lia) Hbj) as (Hm & Ht & Ep & Hlt).
  pose proof (leaves_above_bounds n j ltac:(lia) ltac:(lia)).
  exists (leaves_above n j - 1), j. split; [done|]. split; [lia|]. split; [lia|].
  unfold parent_node. rewrite testbit_node, Ht, Z.ltb_irrefl by done. cbn [fst]. lia.
Qed.

(** ** Counting what was compacted *)

Section Shifts.
  Context {Bitmap : Type} `{!CRoaring Bitmap} `{!CRoaringLaws Bitmap}.
  Implicit Types (pl : PruneList Bitmap).

Definition hash_gone pl (i : Z) : bool := compacted pl (i + 1).
Definition leaf_gone pl (i : Z) : bool := compacted pl (node_pos i 0).

(** Nothing past the pruned leaves is compacted. *)
Lemma not_compacted_beyond pl L n m k :
  pl_rep pl L -> (forall i, i ∈ L -> i < n) -> is_node m k -> m < 2 ^ 31 ->
  n <= (parent_node m k).1 -> compacted pl (node_pos m k) = false.
Proof.
  intros Hrep HL Hm Hlt Hp. apply not_true_iff_false. rewrite (compacted_node pl L) by done.
  intros Hf. pose proof (parent_is_node m k Hm) as Hpn.
  specialize (HL _ (Hf _ (under_self _ _ Hpn))). lia.
Qed.

Lemma parent_ge m k : is_node m k -> m <= (parent_node m k).1.
Proof.
  intros [Hm Hk]. pose proof (pow2_pos k ltac:(lia)). unfold parent_node.
  destruct (Z.testbit m k); cbn [fst]; lia.
Qed.

Lemma hash_gone_beyond pl L n i :
  pl_rep pl L -> (forall j, j ∈ L -> j < n) -> 0 <= n -> mmr_size n <= i -> i + 1 < U32 ->
  hash_gone pl i = false.
Proof.
  intros Hrep HL Hn Hi Hu. pose proof (mmr_size_bounds n Hn). unfold hash_gone.
  destruct (u32_fits (i + 1) ltac:(lia)) as (m & k & Hm & Hlt & E). rewrite E.
  apply (not_compacted_beyond pl L n); [done..|]. pose proof (parent_ge m k Hm).
  destruct (Z.leb_spec n m) as [|Hc]; [lia|].
  pose proof (mmr_size_strict m n ltac:(destruct Hm; lia)). destruct Hm. unfold node_pos in E. lia.
Qed.

Lemma leaf_gone_beyond pl L n i :
  pl_rep pl L -> (forall j, j ∈ L -> j < n) -> 0 <= n <= i -> i < 2 ^ 31 -> leaf_gone pl i = false.
Proof.
  intros Hrep HL Hn Hi. pose proof (leaf_is_node i ltac:(lia)) as Hm. unfold leaf_gone.
  apply (not_compacted_beyond pl L n); [done..|]. pose proof (parent_ge i 0 Hm). lia.
Qed.

(** Counting past the point where nothing is counted any more. *)
Lemma count_room (p : Z -> bool) (i j : nat) : (i <= j)%nat -> (i - count p 0 i <= j - count p 0 j)%nat.
Proof.
  intros H. replace j with (i + (j - i))%nat by lia. rewrite count_add.
  pose proof (count_le p (0 + Z.of_nat i) (j - i)). pose proof (count_le p 0 i). lia.
Qed.

Lemma n_leaves_size n : small_leaves n -> n_leaves (mmr_size n) = n.
Proof.
  intros Hs. pose proof (leaf_is_node n (proj1 Hs)) as Hn. pose proof (node_pos_bounds n 0 Hn Hs) as Hb.
  replace (mmr_size n) with (mmr_size n + 0) by lia. unfold node_pos in Hb.
  rewrite n_leaves_node by (done || lia). cbn. lia.
Qed.

Lemma count_stable (p : Z -> bool) (i j : nat) :
  (i <= j)%nat -> (forall x, Z.of_nat i <= x < Z.of_nat j -> p x = false) -> count p 0 j = count p 0 i.
Proof.
  intros Hij H. induction j as [|j IH]; [by replace i with 0%nat by lia|].
  destruct (decide (i = S j)) as [->|]; [done|]. rewrite count_snoc, Z.add_0_l, H by lia.
  rewrite IH by (lia || (intros; apply H; lia)). lia.
Qed.

(** The last position of a range is never compacted away. *)
Lemma size_kept pl L n :
  pl_rep pl L -> (forall j, j ∈ L -> j < n) -> 0 <= n < 2 ^ 31 -> compacted pl (mmr_size n) = false.
Proof.
  intros Hrep HL Hn. destruct (Z.eq_dec n 0) as [->|Hne].
  { change (mmr_size 0) with 0. unfold compacted. destruct Hrep as (_ & _ & [-> _]). done. }
  pose proof (mmr_size_succ (n - 1) ltac:(lia)) as E. replace (n - 1 + 1) with n in E by lia.
  pose proof (trailing_ones_nonneg (n - 1)).
  assert (Hm : is_node (n - 1) (trailing_ones (n - 1))) by (split; lia).
  replace (mmr_size n) with (node_pos (n - 1) (trailing_ones (n - 1))) by (unfold node_pos; lia).
  apply (not_compacted_beyond pl L n); [done|done|done|lia|].
  unfold parent_node. rewrite testbit_trailing_ones by lia. cbn [fst].
  pose proof (pow2_pos (trailing_ones (n - 1)) ltac:(lia)). lia.
Qed.

Lemma shifts_at_size {E} pl L n :
  pl_ready pl L -> (forall j, j ∈ L -> j < n) -> 0 <= n < 2 ^ 31 ->
  get_shift (E := E) pl (mmr_size n) = Ok (Z.of_nat (count (hash_gone pl) 0 (Z.to_nat (mmr_size n)))) /\
  get_leaf_shift (E := E) pl (mmr_size n) = Ok (Z.of_nat (count (leaf_gone pl) 0 (Z.to_nat n))).
Proof.
  intros Hr HL Hn. pose proof (mmr_size_bounds n ltac:(lia)) as Hb. change (2 ^ 31) with 2147483648 in Hn.
  pose proof (size_kept pl L n (proj1 Hr) HL ltac:(change (2 ^ 31) with 2147483648; lia)) as Hk.
  destruct (Z.eq_dec n 0) as [->|Hne].
  { change (mmr_size 0) with 0 in *.
    rewrite (shift_counts pl L 0) by (done || lia). split; [done|].
    rewrite (proj2 (get_shift_sum pl L 0 Hr ltac:(unfold is_u32; lia))). f_equal.
    rewrite filter_false; [done|]. intros x Hx. apply Z.leb_gt.
    destruct (root_height _ L x (proj1 (proj1 Hr)) (proj1 (proj2 (proj1 Hr))) Hx) as (? & ? & ? & ? & ? & ? & ? & ? & ? & ?).
    lia. }
  split.
  - rewrite (shift_counts pl L) by (done || lia). do 2 f_equal.
    unfold count. rewrite Z2Nat.id by lia. symmetry.
    transitivity (count (compacted pl) 1 (Z.to_nat (mmr_size n))).
    + replace (seqZ 0 (mmr_size n)) with (seqZ 0 (Z.of_nat (Z.to_nat (mmr_size n)))) by (f_equal; lia).
      apply (count_ext (hash_gone pl) (compacted pl) 0 1). intros j _. unfold hash_gone. f_equal. lia.
    + unfold count. rewrite Z2Nat.id by lia. done.
  - pose proof (mmr_size_succ (n - 1) ltac:(lia)) as E1. replace (n - 1 + 1) with n in E1 by lia.
    pose proof (trailing_ones_nonneg (n - 1)).
    assert (Hm : is_node (n - 1) (trailing_ones (n - 1))) by (split; lia).
    replace (mmr_size n) with (node_pos (n - 1) (trailing_ones (n - 1))) in * by (unfold node_pos; lia).
    rewrite (leaf_shift_counts pl L) by (done || (change (2 ^ 31) with 2147483648; lia)).
    unfold count. rewrite Z2Nat.id by lia. replace (n - 1 + 1) with n by lia. done.
Qed.

Lemma total_shifts {E} pl L n :
  pl_ready pl L -> (forall j, j ∈ L -> j < n) -> 0 <= n < 2 ^ 31 ->
  get_total_shift (E := E) pl = Ok (Z.of_nat (count (hash_gone pl) 0 (Z.to_nat (mmr_size n)))) /\
  get_total_leaf_shift (E := E) pl = Ok (Z.of_nat (count (leaf_gone pl) 0 (Z.to_nat n))).
Proof.
  intros Hr HL Hn. pose proof (mmr_size_bounds n ltac:(lia)) as Hb. change (2 ^ 31) with 2147483648 in Hn.
  unfold get_total_shift, get_total_leaf_shift.
  set (r := default 0 (bm_maximum (pl_bitmap pl))). pose proof (bm_maximum_u32 (pl_bitmap pl)) as Hu. fold r in Hu.
  destruct (shifts_at_size (E := E) pl L n Hr HL ltac:(change (2 ^ 31) with 2147483648; lia)) as [<- <-].
  (* the same roots are summed up to [r] as up to the size *)
  rewrite (proj1 (get_shift_sum pl L r Hr ltac:(unfold is_u32; lia))), (proj2 (get_shift_sum pl L r Hr ltac:(unfold is_u32; lia))).
  rewrite (proj1 (get_shift_sum pl L (mmr_size n) Hr ltac:(unfold is_u32; lia))), (proj2 (get_shift_sum pl L (mmr_size n) Hr ltac:(unfold is_u32; lia))).
  assert (Ef : forall y, (forall x, x ∈ bm_iter (pl_bitmap pl) -> x <= y) ->
      List.filter (fun x => x <=? y) (bm_iter (pl_bitmap pl)) = bm_iter (pl_bitmap pl))
    by (intros y Hy; apply filter_true; intros x Hx; apply Z.leb_le; auto).
  rewrite (Ef r), (Ef (mmr_size n)); [done| |].
  - intros x Hx. destruct Hr as ((Hsm & Hroots & _) & _).
    destruct (root_height _ L x Hsm Hroots Hx) as (m & k & Hm & _ & -> & [Hf _] & _).
    specialize (HL _ (Hf _ (under_self _ _ Hm))). pose proof (mmr_size_strict m n ltac:(destruct Hm; lia)).
    destruct Hm. unfold node_pos. lia.
  - intros x Hx. apply bm_maximum_ge. by apply bm_contains_iter.
Qed.
End Shifts.

(** ** The invariant *)

(** The elements and hashes the files can hold. *)
Class StoreElements (Hash T Elt : Type) (hdom : Hash -> Prop) (edom : Elt -> Prop) (tdom : T -> Prop)
    `{!PMMRable Hash T Elt} := {
  elmt_dom x : tdom x -> edom (as_elmt x);
  hash_elmt_dom x pos : hdom (hash_elmt x pos);
  hash_pair_dom q pos : hdom (hash_pair q pos)
}.

Section Store.
  Context {Bitmap Hash T Elt : Type} `{!CRoaring Bitmap} `{!CRoaringLaws Bitmap} `{!PMMRable Hash T Elt}
    `{!Readable Hash} `{!Writeable Hash} `{!Readable Elt} `{!Writeable Elt}
    {v : Z} {sz : option Z} {hdom : Hash -> Prop} {edom : Elt -> Prop} {tdom : T -> Prop}
    `{!ElmtCodec Hash v (Some 32) hdom} `{!ElmtCodec Elt v sz edom}
    `{!StoreElements Hash T Elt hdom edom tdom}.
  Implicit Types (b : PMMRBackend Bitmap) (pl : PruneList Bitmap) (a : AbsStore T).

Abbreviation hash_rep := (file_rep (T := Hash) (v := v) (sz := Some 32) (dom := hdom)).
Abbreviation elmt_rep := (file_rep (T := Elt) (v := v) (sz := sz) (dom := edom)).

(** The bitmap holds the positions of the leaves in [s]. *)
Definition holds_leaves (bm : Bitmap) (s : gset Z) : Prop :=
  forall i, 0 <= i < 2 ^ 31 -> node_pos i 0 ∈ bm_iter bm <-> i ∈ s.

(** State of the hash file: kept hashes of the flushed range, those kept by a rewind, new ones. *)
Definition hash_state pl (k : nat) (hf ph : list Hash) : FileState Hash :=
  let m := Z.to_nat (mmr_size (Z.of_nat k)) in
  mkState (kept_hashes pl hf) (m - count (hash_gone pl) 0 m) ph.

Definition elmt_state pl (s : FileState T) : FileState Elt :=
  mkState (kept_elmts pl (map as_elmt (flushed s))) (keep s - count (leaf_gone pl) 0 (keep s))
    (map as_elmt (pending s)).

(** Hashes of the current range: a prefix of the flushed ones, then the new ones. *)
Definition cur_hashes (k : nat) (hf ph : list Hash) : list Hash :=
  take (Z.to_nat (mmr_size (Z.of_nat k))) hf ++ ph.

Record store_inv (p : PMMR (PMMRBackend Bitmap)) a (hf ph : list Hash) : Prop := {
  inv_flushed : range_of (flushed (elems a)) hf;
  inv_view : range_of (view (elems a)) (cur_hashes (keep (elems a)) hf ph);
  inv_prune : pl_ready (prune_list (backend p)) (pruned a);
  inv_hashes : hash_rep (hash_data (backend p)) (hash_state (prune_list (backend p)) (keep (elems a)) hf ph);
  inv_elmts : elmt_rep (elmt_data (backend p)) (elmt_state (prune_list (backend p)) (elems a));
  inv_keep : (keep (elems a) <= length (flushed (elems a)))%nat;
  inv_pruned : forall i, i ∈ pruned a -> 0 <= i < Z.of_nat (keep (elems a));
  inv_small : Z.of_nat (length (flushed (elems a))) + Z.of_nat (length (pending (elems a))) < 2 ^ 30;
  inv_unspent : holds_leaves (ls_bitmap (leaf_set (backend p))) (unspent a);
  inv_bak : holds_leaves (ls_bitmap_bak (leaf_set (backend p))) (unspent_bak a);
  inv_unspent_range : forall i, i ∈ unspent a -> i ∉ pruned a /\ 0 <= i < Z.of_nat (length (view (elems a)));
  inv_bak_range : forall i, i ∈ unspent_bak a -> i ∉ pruned a /\ 0 <= i < Z.of_nat (length (flushed (elems a)));
  inv_prunable : prunable (backend p) = true;
  inv_last : last_pos p = mmr_size (Z.of_nat (length (view (elems a))));
  inv_settled : settled a = true -> clean (hash_data (backend p)) /\ clean (elmt_data (backend p)) /\
    keep (elems a) = length (flushed (elems a));
  inv_dom : Forall tdom (flushed (elems a)) /\ Forall tdom (pending (elems a));
  inv_leaf_file : holds_leaves (ls_bitmap (ls_open (ls_path (leaf_set (backend p))))) (unspent_bak a);
  inv_prune_file : prune_file (prune_list (backend p)) (pruned a)
}.

Lemma range_length (xs : list T) (hs : list Hash) :
  range_of xs hs -> Z.of_nat (length hs) = mmr_size (Z.of_nat (length xs)).
Proof. intros [H _]. done. Qed.

(** The sizes are small. *)
Lemma inv_sizes p a hf ph :
  store_inv p a hf ph ->
  Z.of_nat (length (view (elems a))) < 2 ^ 30 /\ Z.of_nat (length hf) < 2 ^ 31 /\
  Z.of_nat (length (cur_hashes (keep (elems a)) hf ph)) < 2 ^ 31 /\
  (Z.to_nat (mmr_size (Z.of_nat (keep (elems a)))) <= length hf)%nat.
Proof.
  intros Hi. pose proof (inv_small _ _ _ _ Hi) as Hs. pose proof (inv_keep _ _ _ _ Hi) as Hk.
  pose proof (range_length _ _ (inv_flushed _ _ _ _ Hi)) as H1.
  pose proof (range_length _ _ (inv_view _ _ _ _ Hi)) as H2.
  assert (Hv : Z.of_nat (length (view (elems a))) < 2 ^ 30) by (rewrite view_length by done; lia).
  pose proof (mmr_size_bounds (Z.of_nat (length (flushed (elems a)))) ltac:(lia)).
  pose proof (mmr_size_bounds (Z.of_nat (length (view (elems a)))) ltac:(lia)).
  pose proof (mmr_size_mono (Z.of_nat (keep (elems a))) (Z.of_nat (length (flushed (elems a)))) ltac:(lia)).
  change (2 ^ 31) with (2 * 2 ^ 30). lia.
Qed.

(** What is left of a list whose tail is not compacted. *)
Lemma kept_hashes_split pl L k hf ph :
  pl_rep pl L -> (forall i, i ∈ L -> i < Z.of_nat k) ->
  (Z.to_nat (mmr_size (Z.of_nat k)) <= length hf)%nat ->
  Z.of_nat (length (cur_hashes k hf ph)) < 2 ^ 31 ->
  view (hash_state pl k hf ph) = kept_hashes pl (cur_hashes k hf ph).
Proof.
  intros Hrep HL Hm Hl. pose proof (mmr_size_bounds (Z.of_nat k) ltac:(lia)).
  unfold hash_state, view, kept_hashes, cur_hashes in *. cbn [flushed keep pending].
  rewrite length_app, length_take_le in Hl by done. change (2 ^ 31) with 2147483648 in Hl.
  rewrite remove_idx_app, remove_idx_take, length_take_le by done. f_equal.
  symmetry. apply remove_idx_none. intros i Hi.
  apply (hash_gone_beyond pl L (Z.of_nat k)); (done || lia).
Qed.

Lemma kept_elmts_split pl L (s : FileState T) :
  pl_rep pl L -> (forall i, i ∈ L -> i < Z.of_nat (keep s)) -> (keep s <= length (flushed s))%nat ->
  Z.of_nat (length (view s)) < 2 ^ 30 ->
  view (elmt_state pl s) = kept_elmts pl (map as_elmt (view s)).
Proof.
  intros Hrep HL Hk Hl. unfold elmt_state, kept_elmts. unfold view at 1. cbn [flushed keep pending].
  unfold view in *. rewrite length_app, length_take_le in Hl by done. change (2 ^ 30) with 1073741824 in Hl.
  rewrite map_app, remove_idx_app, <- firstn_map, remove_idx_take, length_take_le
    by (rewrite ?length_map; done). f_equal.
  symmetry. apply remove_idx_none. rewrite length_map. intros i Hi.
  apply (leaf_gone_beyond pl L (Z.of_nat (keep s))); [done|done|lia|change (2 ^ 31) with 2147483648; lia].
Qed.

(** The current range is what the files hold. *)
Lemma inv_backend p a hf ph :
  store_inv p a hf ph ->
  backend_rep (v := v) (sz := sz) (hdom := hdom) (edom := edom) (backend p)
    (cur_hashes (keep (elems a)) hf ph) (map as_elmt (view (elems a))) (pruned a)
    (hash_state (prune_list (backend p)) (keep (elems a)) hf ph) (elmt_state (prune_list (backend p)) (elems a)).
Proof.
  intros Hi. destruct (inv_sizes _ _ _ _ Hi) as (Hv & _ & Hc & Hm).
  pose proof (inv_prune _ _ _ _ Hi) as Hready. pose proof (inv_keep _ _ _ _ Hi) as Hk.
  pose proof (inv_pruned _ _ _ _ Hi) as HL.
  constructor; [done|apply Hi|apply Hi| | |rewrite length_map; apply range_length, Hi| |rewrite length_map; done].
  - apply (kept_hashes_split _ (pruned a)); [apply Hready|intros i Hin; by apply HL|done|done].
  - apply (kept_elmts_split _ (pruned a)); [apply Hready|intros i Hin; by apply HL|done|done].
  - rewrite length_map, view_length by done. intros i Hin. specialize (HL i Hin). lia.
Qed.

(** ** Reading *)

Lemma inv_get_from_file p a hf ph m k :
  store_inv p a hf ph -> is_node m k -> m < 2 ^ 31 ->
  compacted (prune_list (backend p)) (node_pos m k) = false ->
  get_from_file (Bitmap := Bitmap) (T := T) (E := Elt) (backend p) (node_pos m k)
  = get_from_file (Bitmap := Bitmap) (T := T) (E := Elt)
      (vec_of (T := T) (cur_hashes (keep (elems a)) hf ph)) (node_pos m k).
Proof.
  intros Hi Hm Hlt Hk. destruct (fits_u32 m k Hm Hlt) as (Hu & _).
  cbn [get_from_file file_backend vec_backend].
  rewrite (get_from_file_spec _ _ _ _ _ _ _ (inv_backend _ _ _ _ Hi)), Hk by done.
  unfold vec_get_from_file, saturating_sub, vec_of. cbn [hashes read_or_none]. rewrite Z.max_r by lia. done.
Qed.

Lemma inv_parent_beyond p a hf ph m k :
  store_inv p a hf ph -> is_node m k -> m < 2 ^ 31 ->
  Z.of_nat (length (view (elems a))) <= (parent_node m k).1 ->
  compacted (prune_list (backend p)) (node_pos m k) = false.
Proof.
  intros Hi Hm Hlt Hp. pose proof (inv_keep _ _ _ _ Hi) as Hk.
  apply (not_compacted_beyond _ (pruned a) (Z.of_nat (length (view (elems a)))));
    [apply (inv_prune _ _ _ _ Hi)| |done|done|done].
  intros i Hin. pose proof (inv_pruned _ _ _ _ Hi i Hin). rewrite view_length by done. lia.
Qed.

Lemma inv_root p a hf ph :
  store_inv p a hf ph -> exists r, root p = Ok r /\ range_root (view (elems a)) = Some r.
Proof.
  intros Hi. destruct (inv_sizes _ _ _ _ Hi) as (Hv & _ & _ & _).
  set (n := Z.of_nat (length (view (elems a)))) in *. change (2 ^ 30) with 1073741824 in Hv.
  assert (Hs : small_leaves n) by (split; [lia|change (2 ^ 61) with 2305843009213693952; lia]).
  pose proof (mmr_size_bounds n ltac:(lia)).
  set (pv := mkPMMR (mmr_size n) (vec_of (T := T) (cur_hashes (keep (elems a)) hf ph))).
  destruct (root_spec (Bitmap := Bitmap) (E := Elt) pv (view (elems a))) as (r & E1 & E2).
  { split; [exact (inv_view _ _ _ _ Hi)|]. split; [done|done]. }
  exists r. split; [|done]. rewrite <- E1. apply root_agree; [exact (inv_last _ _ _ _ Hi)|].
  rewrite (inv_last _ _ _ _ Hi). fold n. intros x Hx.
  destruct (peaks_parent_beyond n x ltac:(change (2 ^ 31) with 2147483648; lia) Hx) as (m & j & Hm & -> & Hlt & Hp).
  assert (Hm31 : m < 2 ^ 31) by (change (2 ^ 31) with 2147483648; lia).
  apply (inv_get_from_file p a hf ph); [done..|]. apply (inv_parent_beyond p a hf ph); done.
Qed.

(** An unspent leaf is never compacted. *)
Lemma inv_unspent_kept p a hf ph i :
  store_inv p a hf ph -> i ∈ unspent a -> compacted (prune_list (backend p)) (node_pos i 0) = false.
Proof.
  intros Hi Hu. destruct (inv_unspent_range _ _ _ _ Hi i Hu) as [HiL Hib].
  destruct (inv_sizes _ _ _ _ Hi) as (Hv & _). change (2 ^ 30) with 1073741824 in Hv.
  pose proof (leaf_is_node i ltac:(lia)) as Hn. apply not_true_iff_false.
  rewrite (compacted_node _ (pruned a)) by (apply (inv_prune _ _ _ _ Hi) || done || (change (2 ^ 31) with 2147483648; lia)).
  intros Hf. apply HiL, Hf, under_parent; [done|]. left. by apply under_self.
Qed.

Lemma inv_data p a hf ph i :
  store_inv p a hf ph -> 0 <= i < 2 ^ 31 ->
  backend_get_data (Bitmap := Bitmap) (Hash := Hash) (T := T) (backend p) (node_pos i 0)
  = (if bool_decide (i ∈ unspent a) then as_elmt <$> view (elems a) !! Z.to_nat i else None).
Proof.
  intros Hi Hb. pose proof (leaf_is_node i ltac:(lia)) as Hn.
  destruct (fits_u32 i 0 Hn ltac:(lia)) as (Hu & Hs & Hw).
  cbn [backend_get_data file_backend]. unfold fb_get_data. rewrite is_leaf_node by done. cbn [negb Z.eqb].
  rewrite (inv_prunable _ _ _ _ Hi). cbn [andb]. unfold ls_includes. rewrite Hw.
  pose proof (inv_unspent _ _ _ _ Hi i Hb) as Hiff.
  case_bool_decide as Hin.
  - rewrite (proj2 (bm_contains_iter _ _) (proj2 Hiff Hin)). cbn [negb].
    rewrite (get_data_from_file_spec _ _ _ _ _ _ _ (inv_backend _ _ _ _ Hi)) by done.
    rewrite (inv_unspent_kept p a hf ph i Hi Hin). cbn [read_or_none]. rewrite list_lookup_fmap. done.
  - assert (Hc : bm_contains (ls_bitmap (leaf_set (backend p))) (node_pos i 0) = false).
    { apply bm_contains_false. intros Hc%Hiff. done. }
    rewrite Hc. done.
Qed.

(** ** Operations *)

(** The files of the store, as they are on disk. *)
Definition store_dir b : StoreDir :=
  mkDir (disk (hash_data b)) (disk (elmt_data b)) (size_file_disk (elmt_data b))
    (ls_path (leaf_set b)) (match pl_path (prune_list b) with Some f => f | None => None end).

Definition run_store_op (p : PMMR (PMMRBackend Bitmap)) (op : StoreOp T Bitmap)
    : res PmmrError (PMMR (PMMRBackend Bitmap)) :=
  match op with
  | SPush x => let? '(_, p) := push p x in Ok p
  | SPrune i => let? '(_, p) := prune (T := T) p (node_pos i 0) in Ok p
  | SSync => let? b := fb_sync (backend p) in Ok (mkPMMR (last_pos p) b)
  | SDiscard =>
    let b := fb_discard (backend p) in let? size := fb_unpruned_size b in Ok (at_ b size)
  | SReopen =>
    let? b := fb_new (Hash := Hash) (Elt := Elt) sz (store_dir (backend p)) true v None in
    let? size := fb_unpruned_size b in Ok (at_ b size)
  | SRewind n rm => rewind (T := T) p (mmr_size (Z.of_nat n)) rm
  | SCompact cutoff rm =>
    let? '(_, b) := check_compact (Hash := Hash) (Elt := Elt) (backend p) cutoff rm in
    Ok (mkPMMR (last_pos p) b)
  end.

(** Rewinding is possible down to the pruned leaves and with nothing pending, compacting when
    everything is on disk. *)
Definition valid_store_op a (op : StoreOp T Bitmap) : Prop :=
  match op with
  | SPush x => tdom x /\
      Z.of_nat (length (flushed (elems a))) + Z.of_nat (length (pending (elems a))) + 1 < 2 ^ 30
  | SPrune i => 0 <= i < 2 ^ 31
  | SSync | SDiscard | SReopen => True
  | SRewind n rm => pending (elems a) = [] /\ (n <= length (flushed (elems a)))%nat /\
      (forall i, i ∈ pruned a -> i < Z.of_nat n) /\
      (forall i, i ∈ leaf_indices rm -> i ∉ pruned a /\ 0 <= i < Z.of_nat n)
  | SCompact cutoff rm => settled a = true /\ pending (elems a) = [] /\
      0 <= cutoff <= mmr_size (Z.of_nat (length (view (elems a))))
  end.

Lemma append_hashes_spec f (s : FileState Hash) (new : list Hash) :
  hash_rep f s -> Forall hdom new ->
  Z.of_nat (length (flushed s)) + Z.of_nat (length (pending s)) + Z.of_nat (length new) < 2 ^ 40 ->
  exists f', append_hashes f new = Ok f' /\
    hash_rep f' (mkState (flushed s) (keep s) (pending s ++ new)) /\ (clean f -> clean f').
Proof.
  intros Hr Hnew. revert f s Hr. induction Hnew as [|h new Hh Hnew IH]; intros f s Hr Hl; cbn [append_hashes].
  - exists f. rewrite app_nil_r. destruct s. done.
  - cbn [length] in Hl. destruct (file_append f s h Hr Hh) as (f1 & E1 & Hr1); [apply (room_of_small f s Hr); lia|].
    rewrite E1. cbn [failed map_err res_bind].
    destruct (IH f1 (state_append s h) Hr1) as (f2 & E2 & Hr2 & Hc2).
    { cbn. rewrite length_app. cbn. lia. }
    exists f2. split; [done|]. cbn in Hr2. rewrite <- app_assoc in Hr2. split; [done|].
    intros Hc. apply Hc2. unfold data_append, append_elmt in E1.
    destruct (aof_append f _) as [f1'| |] eqn:Ea; cbn [res_bind] in E1; [|done..].
    apply (append_clean _ _ _ Ea) in Hc.
    destruct (size_unsync_in_elmts f1'); [|injection E1 as _ <-; done|done]. injection E1 as _ <-. done.
Qed.

Lemma holds_leaves_add (bm : Bitmap) s i :
  holds_leaves bm s -> 0 <= i < 2 ^ 31 -> holds_leaves (bm_add bm (wrap32 (node_pos i 0))) ({[i]} ∪ s).
Proof.
  intros H Hi j Hj. pose proof (leaf_is_node i ltac:(lia)) as Hn. pose proof (leaf_is_node j ltac:(lia)) as Hn'.
  destruct (fits_u32 i 0 Hn ltac:(lia)) as (Hu & _ & ->).
  rewrite bm_add_iter by (unfold is_u32; lia). rewrite (H j Hj), elem_of_union, elem_of_singleton.
  split; (intros [E|?]; [left|by right]); [|by rewrite E]. by apply node_pos_inj in E as [? _].
Qed.

Lemma holds_leaves_remove (bm : Bitmap) s i :
  holds_leaves bm s -> 0 <= i < 2 ^ 31 -> holds_leaves (bm_remove bm (wrap32 (node_pos i 0))) (s ∖ {[i]}).
Proof.
  intros H Hi j Hj. pose proof (leaf_is_node i ltac:(lia)) as Hn. pose proof (leaf_is_node j ltac:(lia)) as Hn'.
  destruct (fits_u32 i 0 Hn ltac:(lia)) as (Hu & _ & ->).
  rewrite bm_remove_iter, (H j Hj), elem_of_difference, elem_of_singleton. split; intros [H1 H2]; split; try done.
  - intros ->. done.
  - intros E. apply node_pos_inj in E as [? _]; done.
Qed.

Lemma elem_of_leaf_indices (bm : Bitmap) i :
  0 <= i < 2 ^ 31 -> i ∈ leaf_indices bm <-> node_pos i 0 ∈ bm_iter bm.
Proof.
  intros Hi. pose proof (leaf_is_node i ltac:(lia)) as Hn.
  destruct (fits_u32 i 0 Hn ltac:(lia)) as (Hu & Hs & _).
  unfold leaf_indices. rewrite elem_of_list_to_set, list_elem_of_fmap. split.
  - intros (x & E & Hx). apply list_elem_of_In, filter_In in Hx as [Hx Hl].
    apply list_elem_of_In in Hx. pose proof (bm_iter_u32 bm x Hx) as Hux. unfold is_u32 in Hux.
    destruct (Z.eq_dec x 0) as [->|Hne].
    { change (n_leaves 0) with 0 in E. lia. }
    destruct (u32_fits x ltac:(lia)) as (m & k & Hm & Hlt & ->).
    destruct (fits_u32 m k Hm Hlt) as (_ & Hsm & _). rewrite is_leaf_node in Hl by done.
    apply Z.eqb_eq in Hl as ->. rewrite n_leaves_leaf in E by done. replace i with m by lia. done.
  - intros Hx. exists (node_pos i 0). rewrite n_leaves_leaf by done. split; [lia|].
    apply list_elem_of_In, filter_In. split; [by apply list_elem_of_In|]. rewrite is_leaf_node by done. done.
Qed.

Lemma holds_leaves_rewind (bm : Bitmap) s n rm :
  holds_leaves bm s -> 0 <= n < 2 ^ 30 ->
  holds_leaves (rewound bm (mmr_size n) rm) (below n s ∪ leaf_indices rm).
Proof.
  intros H Hn j Hj. pose proof (mmr_size_bounds n ltac:(lia)). change (2 ^ 30) with 1073741824 in Hn.
  rewrite rewound_iter by lia. rewrite (H j Hj), elem_of_union, elem_of_leaf_indices by done.
  unfold below. rewrite elem_of_filter.
  assert (Hc : node_pos j 0 <= mmr_size n <-> j < n); [|tauto]. unfold node_pos. split.
  - intros Hle. destruct (Z.ltb_spec j n) as [|Hge]; [done|]. pose proof (mmr_size_mono n j ltac:(lia)). lia.
  - intros Hlt. pose proof (mmr_size_strict j n ltac:(lia)). pose proof (trailing_ones_nonneg j). lia.
Qed.

Lemma view_append {A} (s : FileState A) x : view (state_append s x) = view s ++ [x].
Proof. unfold view, state_append. cbn. rewrite app_assoc. done. Qed.

Lemma cur_hashes_app k (hf ph new : list Hash) : cur_hashes k hf (ph ++ new) = cur_hashes k hf ph ++ new.
Proof. unfold cur_hashes. rewrite app_assoc. done. Qed.

Lemma kept_length_le pl (hf : list Hash) : (length (kept_hashes pl hf) <= length hf)%nat.
Proof. unfold kept_hashes. rewrite remove_idx_length. lia. Qed.

(** The number of elements in the data file, plus what was compacted, is the number of leaves. *)
Lemma elmt_view_length p a hf ph :
  store_inv p a hf ph ->
  Z.of_nat (length (view (elmt_state (prune_list (backend p)) (elems a))))
  + Z.of_nat (count (leaf_gone (prune_list (backend p))) 0 (length (view (elems a))))
  = Z.of_nat (length (view (elems a))).
Proof.
  intros Hi. rewrite (rep_elmt_view _ _ _ _ _ _ (inv_backend _ _ _ _ Hi)). unfold kept_elmts.
  rewrite remove_idx_length, length_map.
  pose proof (count_le (leaf_gone (prune_list (backend p))) 0 (length (view (elems a)))).
  unfold leaf_gone in *. lia.
Qed.

Lemma data_append_clean {A} `{!Readable A} `{!Writeable A} f (x : A) n f' :
  data_append f x = Ok (n, f') -> clean f -> clean f'.
Proof.
  unfold data_append, append_elmt. destruct (aof_append f _) as [f1| |] eqn:Ea; cbn [res_bind]; [|done..].
  intros E Hc. apply (append_clean _ _ _ Ea) in Hc.
  destruct (size_unsync_in_elmts f1); [|injection E as _ <-; done|done]. injection E as _ <-. done.
Qed.

Lemma push_inv p a hf ph x :
  store_inv p a hf ph -> valid_store_op a (SPush x) ->
  exists p' new, push p x = Ok (node_pos (Z.of_nat (length (view (elems a)))) 0, p') /\
    store_inv p' (abs_op (Bitmap := Bitmap) a (SPush x)) hf (ph ++ new) /\
    leaf_set (backend p') = ls_add (leaf_set (backend p)) (node_pos (Z.of_nat (length (view (elems a)))) 0).
Proof.
  intros Hi [Hx Hroom]. destruct (inv_sizes _ _ _ _ Hi) as (Hv & Hhf & Hcur & Hm).
  pose proof (inv_keep _ _ _ _ Hi) as Hk. pose proof (view_length (elems a) Hk) as Hvl.
  set (n := Z.of_nat (length (view (elems a)))) in *.
  change (2 ^ 30) with 1073741824 in *. change (2 ^ 31) with 2147483648 in *.
  assert (Hs : small_leaves n) by (split; [lia|change (2 ^ 61) with 2305843009213693952; lia]).
  pose proof (leaf_is_node n ltac:(lia)) as Hleaf. pose proof (node_pos_bounds n 0 Hleaf Hs) as Hb.
  pose proof (mmr_size_bounds n ltac:(lia)).
  destruct (push_hashes (Bitmap := Bitmap) (E := Elt) (view (elems a)) x _ (inv_view _ _ _ _ Hi) Hs)
    as (new & Hloop & Hrange & Hkinds). fold n in Hloop.
  assert (Hdom : Forall hdom new).
  { eapply Forall_impl; [exact Hkinds|]. intros h [(y & pos & ->)|(q & pos & ->)];
      [apply hash_elmt_dom|apply hash_pair_dom]. }
  pose proof (range_length _ _ Hrange) as Hlen. pose proof (range_length _ _ (inv_view _ _ _ _ Hi)) as Hlen0.
  rewrite !length_app in Hlen. cbn [length] in Hlen.
  pose proof (mmr_size_bounds (Z.of_nat (length (view (elems a)) + 1)) ltac:(lia)) as Hmb.
  unfold push. rewrite (inv_last _ _ _ _ Hi). fold n.
  assert (Ep : (mmr_size n + 1)%u64 = node_pos n 0) by (rewrite add64_small; unfold node_pos in *; lia).
  rewrite Ep, peak_map_height_pos by done. cbn [negb Z.eqb].
  rewrite sub64_small by lia. replace (node_pos n 0 - 1) with (mmr_size n) by (unfold node_pos; lia).
  change 1 with (2 ^ 0) at 1.
  rewrite (push_loop_agree 64 (backend p) (vec_of (T := T) (cur_hashes (keep (elems a)) hf ph))) by
    (done || (intros j Hj Hjt; destruct (right_child_sibling n j Hj Hjt) as (Hl & Ht & _);
      pose proof (pow2_pos j ltac:(destruct Hj; lia));
      apply (inv_get_from_file p a hf ph); [done|done|change (2 ^ 31) with 2147483648; lia|];
      apply (inv_parent_beyond p a hf ph); [done|done|change (2 ^ 31) with 2147483648; lia|];
      fold n; unfold parent_node; rewrite testbit_node, Ht, Z.ltb_irrefl by done; cbn [fst]; lia)).
  change (2 ^ 0) with 1. rewrite Hloop. cbn [res_bind append file_backend]. unfold fb_append.
  destruct (file_append (elmt_data (backend p)) _ (as_elmt x) (inv_elmts _ _ _ _ Hi) (elmt_dom x Hx)) as (ef & Ee & Her).
  { apply (room_of_small _ _ (inv_elmts _ _ _ _ Hi)). unfold elmt_state, kept_elmts. cbn [flushed pending].
    rewrite remove_idx_length, !length_map. change (2 ^ 40) with 1099511627776. lia. }
  rewrite Ee. cbn [failed map_err res_bind].
  destruct (append_hashes_spec (hash_data (backend p)) _ new (inv_hashes _ _ _ _ Hi) Hdom) as (hf' & Eh & Hhr & Hhc).
  { unfold hash_state. cbn [flushed pending]. pose proof (kept_length_le (prune_list (backend p)) hf).
    unfold cur_hashes in Hcur, Hlen. rewrite length_app in Hcur, Hlen. change (2 ^ 40) with 1099511627776. lia. }
  rewrite Eh. cbn [res_bind prunable set_files]. rewrite (inv_prunable _ _ _ _ Hi).
  cbn [prune_list set_files].
  destruct (total_shifts (E := PmmrError) _ (pruned a) n (inv_prune _ _ _ _ Hi)) as [_ Hts];
    [intros i Hin; pose proof (inv_pruned _ _ _ _ Hi i Hin); lia|change (2 ^ 31) with 2147483648; lia|].
  rewrite Hts. cbn [res_bind].
  replace (Z.to_nat n) with (length (view (elems a))) by (unfold n; lia).
  pose proof (elmt_view_length p a hf ph Hi) as Hev. fold n in Hev.
  rewrite add64_small by lia.
  replace (_ + 1 + _) with (n + 1) by lia. rewrite insertion_index_node by done.
  eexists _, new. split; [reflexivity|]. split; [|done].
  assert (Hn31 : 0 <= n < 2 ^ 31) by (change (2 ^ 31) with 2147483648; lia).
  constructor; cbn [elems abs_op flushed keep pending state_append backend unspent unspent_bak pruned settled
    prune_list leaf_set set_leaf_set set_files hash_data elmt_data ls_add ls_bitmap ls_bitmap_bak last_pos prunable];
    try solve [apply Hi].
  - fold (state_append (elems a) x). rewrite view_append, cur_hashes_app. exact Hrange.
  - exact Hhr.
  - unfold elmt_state, state_append in *. cbn [flushed keep pending] in *. rewrite map_app. exact Her.
  - rewrite length_app. cbn [length]. change (2 ^ 30) with 1073741824. lia.
  - apply holds_leaves_add; [apply Hi|done].
  - fold (state_append (elems a) x). rewrite view_append, length_app. cbn [length].
    intros i Hin. apply elem_of_union in Hin as [->%elem_of_singleton|Hin].
    + split; [|lia]. intros Hc. pose proof (inv_pruned _ _ _ _ Hi n Hc). lia.
    + destruct (inv_unspent_range _ _ _ _ Hi i Hin). split; [done|lia].
  - fold (state_append (elems a) x). rewrite view_append, length_app. cbn [length].
    replace (Z.of_nat (length (view (elems a)) + 1)) with (n + 1) by lia.
    rewrite mmr_size_succ by lia. unfold node_pos. lia.
  - intros Hset. destruct (inv_settled _ _ _ _ Hi Hset) as (? & ? & ?).
    split; [auto|]. split; [by eapply data_append_clean|done].
  - split; [apply Hi|]. apply Forall_app. split; [apply Hi|]. constructor; done.
Qed.

Ltac inv_fields Hi :=
  constructor; cbn [elems abs_op flushed keep pending state_append state_flush state_discard state_rewind
    backend unspent unspent_bak pruned settled prune_list leaf_set set_leaf_set set_files set_prune_list
    hash_data elmt_data ls_add ls_remove ls_flush ls_discard ls_rewind ls_bitmap ls_bitmap_bak last_pos prunable
    fb_discard at_];
  try exact (inv_small _ _ _ _ Hi); try solve [apply Hi].

Lemma prune_inv p a hf ph i :
  store_inv p a hf ph -> valid_store_op a (SPrune i) ->
  exists p', prune (T := T) p (node_pos i 0) = Ok (bool_decide (i ∈ unspent a), p') /\
    store_inv p' (abs_op (Bitmap := Bitmap) a (SPrune i)) hf ph.
Proof.
  intros Hi Hb. cbn in Hb. pose proof (leaf_is_node i ltac:(lia)) as Hn.
  destruct (fits_u32 i 0 Hn ltac:(lia)) as (Hu & Hs & Hw).
  unfold prune. rewrite is_leaf_node by done. cbn [negb Z.eqb backend_get_hash file_backend].
  unfold fb_get_hash. rewrite (inv_prunable _ _ _ _ Hi), is_leaf_node by done. cbn [andb Z.eqb].
  unfold ls_includes. rewrite Hw. pose proof (inv_unspent _ _ _ _ Hi i Hb) as Hiff.
  case_bool_decide as Hin.
  - rewrite (proj2 (bm_contains_iter _ _) (proj2 Hiff Hin)). cbn [negb].
    rewrite (get_from_file_spec _ _ _ _ _ _ _ (inv_backend _ _ _ _ Hi)) by done.
    rewrite (inv_unspent_kept p a hf ph i Hi Hin). cbn [read_or_none].
    destruct (inv_unspent_range _ _ _ _ Hi i Hin) as [_ Hir].
    destruct (lookup_lt_is_Some_2 (cur_hashes (keep (elems a)) hf ph) (Z.to_nat (node_pos i 0 - 1))) as [h ->].
    { pose proof (range_length _ _ (inv_view _ _ _ _ Hi)).
      pose proof (mmr_size_strict i (Z.of_nat (length (view (elems a)))) ltac:(lia)).
      pose proof (trailing_ones_nonneg i). pose proof (mmr_size_bounds i ltac:(lia)). unfold node_pos. lia. }
    cbn [remove file_backend]. unfold fb_remove. rewrite (inv_prunable _ _ _ _ Hi). cbn [negb res_bind].
    eexists. split; [done|]. inv_fields Hi.
    + apply holds_leaves_remove; [apply Hi|done].
    + intros j Hj. apply (inv_unspent_range _ _ _ _ Hi). set_solver.
  - assert (Hc : bm_contains (ls_bitmap (leaf_set (backend p))) (node_pos i 0) = false).
    { apply bm_contains_false. intros Hc%Hiff. done. }
    rewrite Hc. cbn [negb read_or_none]. exists p. split; [done|].
    cbn [abs_op]. replace (unspent a ∖ {[i]}) with (unspent a) by set_solver. destruct a. done.
Qed.

Lemma view_flush {A} (s : FileState A) : view (state_flush s) = view s.
Proof. unfold view at 1, state_flush. cbn. rewrite take_ge, app_nil_r by done. done. Qed.

(** The whole flushed range is kept. *)
Lemma hash_state_full pl (n : nat) (hf : list Hash) :
  Z.of_nat (length hf) = mmr_size (Z.of_nat n) ->
  hash_state pl n hf [] = mkState (kept_hashes pl hf) (length (kept_hashes pl hf)) [].
Proof.
  intros H. unfold hash_state, kept_hashes. rewrite remove_idx_length, <- H, Nat2Z.id. done.
Qed.

Lemma elmt_state_full pl (l : list T) :
  elmt_state pl (mkState l (length l) [])
  = mkState (kept_elmts pl (map as_elmt l)) (length (kept_elmts pl (map as_elmt l))) [].
Proof.
  unfold elmt_state, kept_elmts. cbn [flushed keep pending map]. rewrite remove_idx_length, length_map. done.
Qed.

Lemma cur_hashes_full (n : nat) (hf : list Hash) :
  Z.of_nat (length hf) = mmr_size (Z.of_nat n) -> cur_hashes n hf [] = hf.
Proof. intros H. unfold cur_hashes. rewrite take_ge, app_nil_r by lia. done. Qed.

Lemma holds_leaves_saved (ls : LeafSet Bitmap) s :
  holds_leaves (ls_bitmap ls) s -> holds_leaves (ls_bitmap (ls_open (ls_path (ls_flush ls)))) s.
Proof. intros H i Hi. cbn. rewrite bm_deserialize_iter. by apply H. Qed.

Lemma sync_inv p a hf ph :
  store_inv p a hf ph ->
  exists b', fb_sync (backend p) = Ok b' /\
    store_inv (mkPMMR (last_pos p) b') (abs_op (Bitmap := Bitmap) a SSync)
      (cur_hashes (keep (elems a)) hf ph) [].
Proof.
  intros Hi. destruct (inv_sizes _ _ _ _ Hi) as (Hv & Hhf & Hcur & Hm).
  pose proof (inv_keep _ _ _ _ Hi) as Hk. pose proof (range_length _ _ (inv_view _ _ _ _ Hi)) as Hlen.
  pose proof (inv_backend _ _ _ _ Hi) as Hb.
  destruct (file_flush _ _ (inv_hashes _ _ _ _ Hi)) as (h' & Eh & Hh).
  destruct (file_flush _ _ (inv_elmts _ _ _ _ Hi)) as (e' & Ee & He).
  unfold fb_sync. rewrite Eh, Ee. cbn [failed map_err res_bind prunable set_files].
  rewrite (inv_prunable _ _ _ _ Hi). eexists. split; [done|].
  inv_fields Hi.
  - fold (state_flush (elems a)). rewrite view_flush, cur_hashes_full by done. apply Hi.
  - rewrite hash_state_full by done. unfold state_flush in Hh. rewrite (rep_hash_view _ _ _ _ _ _ Hb) in Hh. exact Hh.
  - unfold state_flush at 1. rewrite elmt_state_full. unfold state_flush in He.
    rewrite (rep_elmt_view _ _ _ _ _ _ Hb) in He. exact He.
  - done.
  - intros i Hin. pose proof (inv_pruned _ _ _ _ Hi i Hin). rewrite view_length by done. lia.
  - cbn [length]. lia.
  - rewrite view_flush. apply Hi.
  - rewrite view_flush. apply Hi.
  - intros _. split; [by eapply flush_clean|]. split; [by eapply flush_clean|done].
  - split; [|constructor]. destruct (inv_dom _ _ _ _ Hi). unfold view. apply Forall_app.
    split; [by apply Forall_take|done].
  - apply holds_leaves_saved, Hi.
Qed.

(** A store with everything on disk. *)
Lemma fresh_inv b (l : list T) (u L : gset Z) hf :
  range_of l hf -> Z.of_nat (length l) < 2 ^ 30 -> Forall tdom l ->
  (forall i, i ∈ L -> 0 <= i < Z.of_nat (length l)) ->
  (forall i, i ∈ u -> i ∉ L /\ 0 <= i < Z.of_nat (length l)) ->
  pl_ready (prune_list b) L -> prune_file (prune_list b) L ->
  hash_rep (hash_data b) (synced (kept_hashes (prune_list b) hf)) -> clean (hash_data b) ->
  elmt_rep (elmt_data b) (synced (kept_elmts (prune_list b) (map as_elmt l))) -> clean (elmt_data b) ->
  holds_leaves (ls_bitmap (leaf_set b)) u -> holds_leaves (ls_bitmap_bak (leaf_set b)) u ->
  holds_leaves (ls_bitmap (ls_open (ls_path (leaf_set b)))) u -> prunable b = true ->
  exists size, fb_unpruned_size b = Ok size /\ store_inv (at_ b size) (mkStore (synced l) u u L true) hf [].
Proof.
  intros Hrange Hl Hdom HL Hu Hpl Hpf Hh Hch He Hce Hlv Hlb Hlf Hpr.
  pose proof (range_length _ _ Hrange) as Hlen. change (2 ^ 30) with 1073741824 in Hl.
  pose proof (mmr_size_bounds (Z.of_nat (length l)) ltac:(lia)).
  assert (Hvf : view (synced l) = l) by (unfold view, synced; cbn; rewrite take_ge, app_nil_r by done; done).
  exists (mmr_size (Z.of_nat (length l))). split.
  - unfold fb_unpruned_size, data_size.
    assert (Esz : size_in_elmts (hash_data b) = Ok (Z.of_nat (length (kept_hashes (prune_list b) hf)))).
    { destruct Hh as (Hfr & _). cbn [aof_rep] in Hfr. rewrite (fixed_rep_size _ _ _ Hfr).
      unfold synced, enc_state. cbn [flushed]. rewrite length_map. done. }
    rewrite Esz. cbn [failed map_err res_bind].
    destruct (total_shifts (E := PmmrError) _ L (Z.of_nat (length l)) Hpl) as [-> _].
    + intros i Hin. by apply HL.
    + change (2 ^ 31) with 2147483648. lia.
    + cbn [res_bind]. f_equal. unfold kept_hashes. rewrite remove_idx_length, <- Hlen, Nat2Z.id.
      pose proof (count_le (hash_gone (prune_list b)) 0 (length hf)).
      unfold hash_gone in *. rewrite add64_small; lia.
  - constructor; cbn [elems backend unspent unspent_bak pruned settled last_pos at_]; rewrite ?Hvf;
      cbn [flushed keep pending synced]; try done.
    + rewrite cur_hashes_full by done. done.
    + rewrite hash_state_full by done. done.
    + unfold synced at 1. rewrite elmt_state_full. done.
    + cbn [length]. change (2 ^ 30) with 1073741824. lia.
Qed.

(** The prune lists of the same leaves keep the same entries. *)
Lemma kept_same pl pl' L (hs : list Hash) (es : list Elt) :
  pl_rep pl L -> pl_rep pl' L -> Z.of_nat (length hs) < 2 ^ 31 -> Z.of_nat (length es) < 2 ^ 30 ->
  kept_hashes pl hs = kept_hashes pl' hs /\ kept_elmts pl es = kept_elmts pl' es.
Proof.
  intros Hr Hr' Hh He. change (2 ^ 31) with 2147483648 in Hh. change (2 ^ 30) with 1073741824 in He.
  assert (Hc : forall n h, is_node n h -> n < 2 ^ 31 -> compacted pl (node_pos n h) = compacted pl' (node_pos n h)).
  { intros n h Hn Hlt. apply eq_true_iff_eq. rewrite (compacted_node pl L), (compacted_node pl' L) by done. done. }
  split; apply remove_idx_ext; intros i Hi.
  - destruct (u32_fits (i + 1)) as (n & h & Hn & Hlt & ->); [lia|]. by apply Hc.
  - apply Hc; [apply leaf_is_node; lia|change (2 ^ 31) with 2147483648; lia].
Qed.

Lemma discard_inv p a hf ph :
  store_inv p a hf ph ->
  exists size, fb_unpruned_size (fb_discard (backend p)) = Ok size /\
    store_inv (at_ (fb_discard (backend p)) size) (abs_op (Bitmap := Bitmap) a SDiscard) hf [].
Proof.
  intros Hi. pose proof (inv_keep _ _ _ _ Hi). pose proof (inv_small _ _ _ _ Hi).
  apply fresh_inv; try solve [apply Hi]; [lia| | | | |].
  - intros i Hin. pose proof (inv_pruned _ _ _ _ Hi i Hin). lia.
  - exact (file_discard _ _ (inv_hashes _ _ _ _ Hi)).
  - exact (discard_clean _ _ (inv_hashes _ _ _ _ Hi)).
  - exact (file_discard _ _ (inv_elmts _ _ _ _ Hi)).
  - exact (discard_clean _ _ (inv_elmts _ _ _ _ Hi)).
Qed.

(** Opening the directory again finds what was flushed, as if the rest were discarded. *)
Lemma reopen_inv p a hf ph :
  store_inv p a hf ph ->
  exists b size, fb_new (Hash := Hash) (Elt := Elt) sz (store_dir (backend p)) true v None = Ok b /\
    fb_unpruned_size b = Ok size /\
    store_inv (at_ b size) (abs_op (Bitmap := Bitmap) a SReopen) hf [].
Proof.
  intros Hi. pose proof (inv_keep _ _ _ _ Hi). pose proof (inv_small _ _ _ _ Hi) as Hsm.
  destruct (inv_sizes _ _ _ _ Hi) as (Hv & Hhf & _ & _).
  change (2 ^ 30) with 1073741824 in Hsm. change (2 ^ 31) with 2147483648 in Hhf.
  destruct (inv_prune_file _ _ _ _ Hi) as (f & pl & Ef & Eo & Hpl & Ep).
  pose proof (kept_length_le (prune_list (backend p)) hf).
  destruct (file_open _ _ (inv_hashes _ _ _ _ Hi)) as (h' & Oh & Hh & Hhc).
  { unfold hash_state. cbn [flushed]. change (2 ^ 58) with 288230376151711744. lia. }
  destruct (file_open _ _ (inv_elmts _ _ _ _ Hi)) as (e' & Oe & He & Hec).
  { unfold elmt_state, kept_elmts. cbn [flushed]. rewrite remove_idx_length, length_map.
    change (2 ^ 58) with 288230376151711744. lia. }
  destruct (kept_same (prune_list (backend p)) pl (pruned a) hf (map as_elmt (flushed (elems a)))) as [Eh Ee];
    [apply (inv_prune _ _ _ _ Hi)|apply Hpl|done|rewrite length_map; change (2 ^ 30) with 1073741824; lia|].
  set (b := mkBackend true h' e' (ls_open (ls_path (leaf_set (backend p)))) pl).
  assert (Enew : fb_new (Hash := Hash) (Elt := Elt) sz (store_dir (backend p)) true v None = Ok b).
  { unfold fb_new, store_dir. cbn [PMMR_HASH_FILE PMMR_DATA_FILE PMMR_SIZE_FILE PMMR_LEAF_FILE PMMR_PRUN_FILE].
    unfold file_opens in Oh, Oe. assert (Hsz : (exists n, sz = Some n) \/ sz = None) by (destruct sz; eauto).
    destruct Hsz as [[n Esz]|Esz]; rewrite Esz in Oe |- *.
    - cbn [res_bind]. rewrite Oh, Oe. cbn [failed map_err res_bind]. rewrite Ef, Eo. done.
    - destruct Oe as (g & E1 & E2). rewrite E1. cbn [failed map_err res_bind]. rewrite Oh, E2.
      cbn [failed map_err res_bind]. rewrite Ef, Eo. done. }
  exists b. rewrite Enew.
  destruct (fresh_inv b (flushed (elems a)) (unspent_bak a) (pruned a) hf) as (size & E1 & E2);
    unfold b; cbn [prune_list hash_data elmt_data leaf_set prunable]; try solve [apply Hi]; try done.
  - change (2 ^ 30) with 1073741824. lia.
  - intros i Hin. pose proof (inv_pruned _ _ _ _ Hi i Hin). lia.
  - exists f, pl. done.
  - rewrite <- Eh. exact Hh.
  - rewrite <- Ee. exact He.
  - exists size. done.
Qed.

Lemma view_rewind {A} (s : FileState A) n :
  pending s = [] -> (n <= length (flushed s))%nat ->
  view (state_rewind s n) = take n (flushed s) /\ length (view (state_rewind s n)) = n.
Proof.
  intros H Hn. unfold view, state_rewind. cbn. rewrite H, app_nil_r, length_take_le by done. done.
Qed.

Lemma inv_pending_hashes p a hf ph :
  store_inv p a hf ph -> pending (elems a) = [] -> ph = [].
Proof.
  intros Hi H. destruct (inv_sizes _ _ _ _ Hi) as (_ & _ & _ & Hm). pose proof (inv_keep _ _ _ _ Hi) as Hk.
  pose proof (range_length _ _ (inv_view _ _ _ _ Hi)) as Hl. unfold cur_hashes in Hl.
  rewrite length_app, length_take_le, view_length, H in Hl by done. cbn [length] in Hl.
  rewrite Nat.add_0_r in Hl. apply length_zero_iff_nil. pose proof (mmr_size_bounds (Z.of_nat (keep (elems a)))). lia.
Qed.

Lemma rewind_inv p a hf ph n rm :
  store_inv p a hf ph -> valid_store_op a (SRewind n rm) ->
  exists p', rewind (T := T) p (mmr_size (Z.of_nat n)) rm = Ok p' /\
    store_inv p' (abs_op a (SRewind n rm)) hf [].
Proof.
  intros Hi (Hpend & Hn & HL & Hrm). destruct (inv_sizes _ _ _ _ Hi) as (Hv & Hhf & Hcur & Hm).
  pose proof (inv_pending_hashes _ _ _ _ Hi Hpend) as ->.
  pose proof (inv_small _ _ _ _ Hi) as Hsm. change (2 ^ 30) with 1073741824 in Hsm.
  assert (Hs : small_leaves (Z.of_nat n)) by (split; [lia|change (2 ^ 61) with 2305843009213693952; lia]).
  pose proof (range_length _ _ (inv_flushed _ _ _ _ Hi)) as Hlen.
  pose proof (mmr_size_bounds (Z.of_nat n) ltac:(lia)) as Hmb.
  pose proof (mmr_size_mono (Z.of_nat n) (Z.of_nat (length (flushed (elems a)))) ltac:(lia)) as Hmono.
  destruct (view_rewind (elems a) n Hpend Hn) as [Hvr Hvl].
  unfold rewind. rewrite rewind_loop_size by done. cbn [backend_rewind file_backend]. unfold fb_rewind.
  rewrite (inv_prunable _ _ _ _ Hi). cbn [prune_list set_leaf_set hash_data elmt_data].
  destruct (shifts_at_size (E := PmmrError) _ (pruned a) (Z.of_nat n) (inv_prune _ _ _ _ Hi) HL) as [-> E2];
    [change (2 ^ 31) with 2147483648; lia|]. cbn [res_bind]. rewrite E2. cbn [res_bind].
  set (pl := prune_list (backend p)) in *. set (m := Z.to_nat (mmr_size (Z.of_nat n))) in *.
  pose proof (count_le (hash_gone pl) 0 m). rewrite Nat2Z.id. pose proof (count_le (leaf_gone pl) 0 n).
  rewrite n_leaves_size, !sub64_small by (done || lia).
  replace (mmr_size (Z.of_nat n) - Z.of_nat (count (hash_gone pl) 0 m))
    with (Z.of_nat (m - count (hash_gone pl) 0 m)) by lia.
  replace (Z.of_nat n - Z.of_nat (count (leaf_gone pl) 0 n))
    with (Z.of_nat (n - count (leaf_gone pl) 0 n)) by lia.
  eexists. split; [reflexivity|].
  inv_fields Hi.
  - rewrite Hvr. unfold cur_hashes. rewrite app_nil_r.
    pose proof (range_of_take (take n (flushed (elems a))) (drop n (flushed (elems a))) hf) as Hr.
    rewrite take_drop, length_take_le in Hr by done. apply Hr, Hi.
  - apply (file_rewind _ _ _ (inv_hashes _ _ _ _ Hi)); [done|].
    unfold hash_state, kept_hashes. cbn [flushed]. rewrite remove_idx_length.
    apply count_room. lia.
  - unfold elmt_state. cbn [flushed keep pending state_rewind]. 
    apply (file_rewind _ _ _ (inv_elmts _ _ _ _ Hi)); [unfold elmt_state; cbn; rewrite Hpend; done|].
    unfold elmt_state, kept_elmts. cbn [flushed]. rewrite remove_idx_length, length_map.
    apply count_room. done.
  - done.
  - intros i Hin. pose proof (inv_pruned _ _ _ _ Hi i Hin). specialize (HL i Hin). lia.
  - apply holds_leaves_rewind; [apply Hi|change (2 ^ 30) with 1073741824; lia].
  - rewrite Hvl. intros i [Hin|Hin]%elem_of_union; [|by apply Hrm].
    unfold below in Hin. apply elem_of_filter in Hin as [Hlt Hin].
    destruct (inv_unspent_range _ _ _ _ Hi i Hin). split; [done|lia].
  - rewrite Hvl. done.
  - done.
Qed.

(** The leaves a compaction prunes are those [check_compact] computes. *)
Lemma compact_leaves_prunes b u L cutoff rm (R : gset Z) :
  holds_leaves (ls_bitmap (leaf_set b)) u -> 0 <= cutoff < 2 ^ 31 ->
  (forall i, i ∈ R <-> prunes b cutoff rm L i) -> L ∪ R = L ∪ compact_leaves u L cutoff rm.
Proof.
  intros Hu Hc HR. f_equal. apply set_eq. intros i. rewrite HR. unfold prunes, compact_leaves.
  rewrite elem_of_difference, elem_of_filter, elem_of_list_to_set, elem_of_seqZ, !elem_of_union.
  change (2 ^ 31) with 2147483648 in Hc.
  split.
  - intros (Hb & Hle & HL & Hn). rewrite rewound_iter in Hn by lia.
    rewrite (Hu i Hb), <- elem_of_leaf_indices in Hn by done.
    pose proof (mmr_size_bounds i ltac:(lia)). split; [unfold node_pos in *; lia|tauto].
  - intros ((Hle & Hb) & Hn). assert (Hb' : 0 <= i < 2 ^ 31) by (change (2 ^ 31) with 2147483648; lia).
    rewrite rewound_iter by lia. rewrite (Hu i Hb'), <- elem_of_leaf_indices by done.
    split; [done|]. split; [done|]. tauto.
Qed.

(** With everything on disk and nothing rewound, the files hold the whole range. *)
Lemma settled_synced p a hf ph :
  store_inv p a hf ph -> settled a = true -> pending (elems a) = [] ->
  synced_rep (v := v) (sz := sz) (hdom := hdom) (edom := edom) (backend p) hf
    (map as_elmt (flushed (elems a))) (pruned a) /\
  elems a = mkState (flushed (elems a)) (length (flushed (elems a))) [] /\ view (elems a) = flushed (elems a).
Proof.
  intros Hi Hset Hpend. pose proof (inv_pending_hashes _ _ _ _ Hi Hpend) as ->.
  destruct (inv_settled _ _ _ _ Hi Hset) as (Hch & Hce & Hkeep).
  pose proof (range_length _ _ (inv_flushed _ _ _ _ Hi)) as Hlen.
  assert (Hel : elems a = mkState (flushed (elems a)) (length (flushed (elems a))) []).
  { destruct (elems a). cbn in *. subst. done. }
  set (l := flushed (elems a)) in *.
  assert (Hvl : view (elems a) = l) by (rewrite Hel; unfold view; cbn; rewrite take_ge, app_nil_r; done).
  pose proof (inv_backend _ _ _ _ Hi) as Hb.
  rewrite Hkeep, cur_hashes_full, hash_state_full, Hvl in Hb by done. rewrite Hel, elmt_state_full in Hb.
  split; [|done]. split; [exact Hb|]. split; [done|]. split; [done|]. apply Hi.
Qed.

Lemma compact_inv p a hf ph cutoff rm :
  store_inv p a hf ph -> valid_store_op a (SCompact cutoff rm) ->
  exists b', check_compact (Hash := Hash) (Elt := Elt) (backend p) cutoff rm = Ok (true, b') /\
    store_inv (mkPMMR (last_pos p) b') (abs_op a (SCompact cutoff rm)) hf [].
Proof.
  intros Hi (Hset & Hpend & Hc). destruct (inv_sizes _ _ _ _ Hi) as (Hv & Hhf & Hcur & Hm).
  pose proof (inv_pending_hashes _ _ _ _ Hi Hpend) as ->.
  destruct (settled_synced _ _ _ _ Hi Hset Hpend) as (Hb & Hel & Hvl).
  pose proof (f_equal keep Hel) as Hkeep. cbn [keep] in Hkeep.
  pose proof (range_length _ _ (inv_flushed _ _ _ _ Hi)) as Hlen.
  set (l := flushed (elems a)) in *.
  rewrite Hvl in *. pose proof (mmr_size_bounds (Z.of_nat (length l)) ltac:(lia)).
  destruct (compact_spec (backend p) hf (map as_elmt l) (pruned a) cutoff rm Hb) as (b' & R & E' & Hsr & Hls & HR & Hpf);
    [lia|].
  rewrite (compact_leaves_prunes (backend p) (unspent a) (pruned a) cutoff rm R) in Hsr, Hpf by (apply Hi || done || lia).
  exists b'. split; [done|]. destruct Hsr as (Hrep & Hch' & Hce' & Hpr).
  assert (Hun : forall i, i ∈ unspent a -> i ∉ pruned a ∪ compact_leaves (unspent a) (pruned a) cutoff rm).
  { intros i Hin. destruct (inv_unspent_range _ _ _ _ Hi i Hin) as [? _]. unfold compact_leaves. set_solver. }
  constructor; cbn [elems abs_op backend unspent unspent_bak pruned settled last_pos];
    rewrite ?Hls; cbn [ls_flush ls_bitmap ls_bitmap_bak]; rewrite ?Hvl, ?Hkeep; fold l; 
    try exact (inv_small _ _ _ _ Hi); try solve [apply Hi].
  - rewrite cur_hashes_full by done. apply Hi.
  - apply (rep_prune _ _ _ _ _ _ Hrep).
  - rewrite hash_state_full by done. apply (rep_hashes _ _ _ _ _ _ Hrep).
  - rewrite Hel, elmt_state_full. apply (rep_elmts _ _ _ _ _ _ Hrep).
  - done.
  - pose proof (rep_leaves _ _ _ _ _ _ Hrep) as Hr. rewrite length_map in Hr. exact Hr.
  - intros i Hin. split; [by apply Hun|]. destruct (inv_unspent_range _ _ _ _ Hi i Hin) as [_ H']. rewrite Hvl in H'. done.
  - intros i Hin. split; [by apply Hun|]. destruct (inv_unspent_range _ _ _ _ Hi i Hin) as [_ H']. rewrite Hvl in H'. done.
  - done.
  - rewrite (inv_last _ _ _ _ Hi), Hvl. done.
  - done.
  - apply holds_leaves_saved, Hi.
  - apply Hpf, Hi.
Qed.

(** ** Opening *)

Definition empty_store : AbsStore T := mkStore (mkState [] 0 []) ∅ ∅ ∅ true.
Definition empty_dir : StoreDir := mkDir [] [] [] None None.

Lemma new_inv :
  (forall n, sz = Some n -> 0 < n < 2 ^ 16) ->
  exists b, fb_new (Hash := Hash) (Elt := Elt) sz empty_dir true v None = Ok b /\
    store_inv (at_ b 0) empty_store [] [] /\ fb_unpruned_size b = Ok 0 /\ leaf_set b = ls_open None.
Proof.
  intros Hn.
  assert (Hpl : exists pl : PruneList Bitmap, pl_open (E := PmmrError) None = Ok pl /\ pl_ready pl ∅ /\ pl_path pl = Some None).
  { unfold pl_open. destruct empty_rep as (Hsm & Hr & Hf).
    destruct (init_caches_spec (E := PmmrError) (pl_new (Some None) bm_create) ∅ Hsm Hr (fun _ => Hf))
      as (pl & E1 & E2 & _ & E3). exists pl. done. }
  destruct Hpl as (pl & Eo & Hpl & Ep).
  assert (Hsmall : total [] < 2 ^ 62) by done.
  destruct (open_fixed (A := Hash) 32 v []) as [Oh Hh]; [done|constructor|done|].
  assert (Hopen : exists si d, match sz with
      | Some n => si = FixedSize n
      | None => exists g, aof_open (T := SizeEntry) [] (FixedSize SIZE_ENTRY_LEN) v = Ok g /\ si = VariableSize g
      end /\ aof_open (T := Elt) [] si v = Ok d /\ elmt_rep d (synced []) /\ clean d).
  { unfold file_rep. assert (Hsz : (exists n, sz = Some n) \/ sz = None) by (destruct sz; eauto).
    destruct Hsz as [[n Esz]|Esz]; rewrite Esz; cbn [aof_rep].
    - destruct (open_fixed (A := Elt) n v []) as [Oe He]; [by apply Hn|constructor|done|].
      eexists _, _. split; [done|]. split; [exact Oe|]. done.
    - destruct (open_variable (A := Elt) v []) as (g & E1 & E2 & Hr & Hb); [constructor|done|done|].
      eexists _, _. split; [exists g; split; [exact E1|done]|]. split; [exact E2|]. done. }
  destruct Hopen as (si & d & Hsi & Od & Hd & Hcd).
  set (b := mkBackend true (opened [] (FixedSize 32) v) d (ls_open None) pl : PMMRBackend Bitmap).
  assert (Enew : fb_new (Hash := Hash) (Elt := Elt) sz empty_dir true v None = Ok b).
  { unfold fb_new, empty_dir. cbn [PMMR_HASH_FILE PMMR_DATA_FILE PMMR_SIZE_FILE PMMR_LEAF_FILE PMMR_PRUN_FILE].
    change (aof_open (T := Hash) [] (FixedSize 32) v) with (aof_open (T := Hash) (concat []) (FixedSize 32) v).
    rewrite Oh. assert (Hsz : (exists n, sz = Some n) \/ sz = None) by (destruct sz; eauto).
    destruct Hsz as [[n Esz]|Esz]; rewrite Esz in Hsi |- *.
    - subst si. cbn [failed map_err res_bind]. rewrite Od. cbn [failed map_err res_bind]. rewrite Eo. done.
    - destruct Hsi as (g & Eg & ->). rewrite Eg. cbn [failed map_err res_bind]. rewrite Od.
      cbn [failed map_err res_bind]. rewrite Eo. done. }
  exists b. split; [done|].
  assert (Hemp : holds_leaves (bm_create : Bitmap) ∅) by (intros i _; rewrite bm_create_iter; set_solver).
  destruct (fresh_inv b [] ∅ ∅ []) as (size & Es & Hinv); unfold b; cbn; try done; try set_solver.
  - split; [done|]. intros m h Hm Hlt. destruct Hm. cbn in Hlt. lia.
  - exists None, pl. done.
  - assert (E0 : size = 0) by exact (inv_last _ _ _ _ Hinv). rewrite E0 in Hinv, Es. done.
Qed.

(** ** Sequences of operations *)

Lemma op_inv p a hf ph op :
  store_inv p a hf ph -> valid_store_op a op ->
  exists p' hf' ph', run_store_op p op = Ok p' /\ store_inv p' (abs_op a op) hf' ph'.
Proof.
  intros Hi Hv. destruct op as [x|i| | | |n rm|cutoff rm]; cbn [run_store_op].
  - destruct (push_inv p a hf ph x Hi Hv) as (p' & new & -> & H & _). eauto.
  - destruct (prune_inv p a hf ph i Hi Hv) as (p' & -> & H). eauto.
  - destruct (sync_inv p a hf ph Hi) as (b' & -> & H). cbn [res_bind]. eauto.
  - destruct (discard_inv p a hf ph Hi) as (size & -> & H). cbn [res_bind]. eauto.
  - destruct (reopen_inv p a hf ph Hi) as (b & size & -> & E & H). cbn [res_bind]. rewrite E. cbn [res_bind]. eauto.
  - destruct (rewind_inv p a hf ph n rm Hi Hv) as (p' & -> & H). eauto.
  - destruct (compact_inv p a hf ph cutoff rm Hi Hv) as (b' & -> & H). cbn [res_bind]. eauto.
Qed.

Fixpoint run_store_ops (p : PMMR (PMMRBackend Bitmap)) (ops : list (StoreOp T Bitmap))
    : res PmmrError (PMMR (PMMRBackend Bitmap)) :=
  match ops with
  | [] => Ok p
  | op :: ops => let? p := run_store_op p op in run_store_ops p ops
  end.

Fixpoint abs_ops a (ops : list (StoreOp T Bitmap)) : AbsStore T :=
  match ops with [] => a | op :: ops => abs_ops (abs_op a op) ops end.

Fixpoint valid_store_ops a (ops : list (StoreOp T Bitmap)) : Prop :=
  match ops with
  | [] => True
  | op :: ops => valid_store_op a op /\ valid_store_ops (abs_op a op) ops
  end.

Lemma ops_inv p a hf ph ops :
  store_inv p a hf ph -> valid_store_ops a ops ->
  exists p' hf' ph', run_store_ops p ops = Ok p' /\ store_inv p' (abs_ops a ops) hf' ph'.
Proof.
  revert p a hf ph. induction ops as [|op ops IH]; intros p a hf ph Hi Hv; cbn [run_store_ops abs_ops]; [eauto|].
  destruct Hv as [Hv Hvs]. destruct (op_inv p a hf ph op Hi Hv) as (p1 & hf1 & ph1 & -> & Hi1). cbn [res_bind].
  by apply (IH p1 _ hf1 ph1).
Qed.

(** ** Properties *)

(** C15: the file-backed PMMR refines a list of elements with a set of unspent leaves.  Starting from
    an empty directory, any sequence of pushes, prunes, syncs, discards, rewinds, compactions and
    reopenings of the directory succeeds, and afterwards the root is the root of the range over the
    current list, the size is that of a range of as many leaves, and the data at a leaf position is
    the element of that index while it is unspent and nothing otherwise: neither the buffers, the
    size file and the rewound prefixes nor what compaction took out of the files can be observed.
    Reopening without a sync loses exactly what a discard drops. *)
Theorem file_store_refines_a_list (ops : list (StoreOp T Bitmap)) :
  (forall n, sz = Some n -> 0 < n < 2 ^ 16) -> valid_store_ops empty_store ops ->
  exists b p, fb_new (Hash := Hash) (Elt := Elt) sz empty_dir true v None = Ok b /\
    run_store_ops (at_ b 0) ops = Ok p /\
    let a := abs_ops empty_store ops in
    (exists r, root p = Ok r /\ range_root (view (elems a)) = Some r) /\
    unpruned_size p = mmr_size (Z.of_nat (length (view (elems a)))) /\
    forall i, 0 <= i < 2 ^ 31 ->
      backend_get_data (Bitmap := Bitmap) (Hash := Hash) (T := T) (backend p) (node_pos i 0)
      = (if bool_decide (i ∈ unspent a) then as_elmt <$> view (elems a) !! Z.to_nat i else None).
Proof.
  intros Hn Hv. destruct (new_inv Hn) as (b & Eb & Hb & _).
  destruct (ops_inv _ _ _ _ ops Hb Hv) as (p & hf & ph & Ep & Hp).
  exists b, p. split; [done|]. split; [done|]. split; [by apply (inv_root p _ hf ph)|].
  split; [apply (inv_last _ _ _ _ Hp)|]. intros i Hi. by apply (inv_data p _ hf ph).
Qed.

(** Compaction frees what lies strictly below a pruned subtree and nothing else.  On a store
    with everything on disk, [check_compact] succeeds and prunes exactly the leaves up to the cutoff
    that are neither unspent at the cutoff nor given back; a hash or an element at a position whose
    parent's subtree is not entirely pruned reads as before, and one below a pruned subtree is gone. *)
Theorem compaction_keeps_reads b hs es L cutoff (rm : Bitmap) :
  synced_rep (v := v) (sz := sz) (hdom := hdom) (edom := edom) b hs es L ->
  0 <= cutoff <= Z.of_nat (length hs) ->
  exists b' R, check_compact (Hash := Hash) (Elt := Elt) b cutoff rm = Ok (true, b') /\
    (forall i, i ∈ R <-> prunes b cutoff rm L i) /\
    forall n h, is_node n h -> n < 2 ^ 31 ->
      (~ full (L ∪ R) (parent_node n h).1 (parent_node n h).2 ->
       fb_get_from_file (Hash := Hash) b' (node_pos n h) = fb_get_from_file (Hash := Hash) b (node_pos n h) /\
       fb_get_data_from_file (Elt := Elt) b' (node_pos n h) = fb_get_data_from_file (Elt := Elt) b (node_pos n h)) /\
      (full (L ∪ R) (parent_node n h).1 (parent_node n h).2 ->
       fb_get_from_file (Hash := Hash) b' (node_pos n h) = Ok None /\
       fb_get_data_from_file (Elt := Elt) b' (node_pos n h) = Ok None).
Proof.
  intros Hs Hc. destruct (compact_spec b hs es L cutoff rm Hs Hc) as (b' & R & E & Hs' & _ & HR & _).
  exists b', R. split; [done|]. split; [done|]. intros n h Hn Hlt.
  destruct Hs as [Hb _]. destruct Hs' as [Hb' _].
  pose proof (compacted_node _ _ n h (proj1 (rep_prune _ _ _ _ _ _ Hb)) Hn Hlt) as Hk.
  pose proof (compacted_node _ _ n h (proj1 (rep_prune _ _ _ _ _ _ Hb')) Hn Hlt) as Hk'.
  destruct (fits_u32 n h Hn Hlt) as (Hu & Hsm & _).
  rewrite (get_from_file_spec _ _ _ _ _ _ _ Hb), (get_from_file_spec _ _ _ _ _ _ _ Hb') by done.
  assert (Hdata : forall b1 L1 sh1 se1,
      backend_rep (v := v) (sz := sz) (hdom := hdom) (edom := edom) b1 hs es L1 sh1 se1 ->
      fb_get_data_from_file (Elt := Elt) b1 (node_pos n h)
      = Ok (if compacted (prune_list b1) (node_pos n h) then None
            else if h =? 0 then es !! Z.to_nat n else None)).
  { intros b1 L1 sh1 se1 H1. destruct (Z.eqb_spec h 0) as [->|Hh].
    - rewrite (get_data_from_file_spec _ _ _ _ _ _ _ H1) by (destruct Hn; lia). done.
    - unfold fb_get_data_from_file. rewrite is_leaf_node, (proj2 (Z.eqb_neq _ _)) by done. cbn [negb].
      by destruct (compacted (prune_list b1) (node_pos n h)). }
  rewrite (Hdata _ _ _ _ Hb), (Hdata _ _ _ _ Hb'). split.
  - intros Hnf. destruct (compacted (prune_list b') _); [by destruct Hnf; apply Hk'|].
    destruct (compacted (prune_list b) _); [|done].
    destruct Hnf. eapply full_mono; [|by apply Hk]. set_solver.
  - intros Hf. rewrite (proj2 Hk' Hf). done.
Qed.
End Store.

(** ** An example store: 32-byte elements in a file with a size file *)

Section Example.
#[local] Instance read_bytes32 : Readable bytes := fun R _ => read_fixed_bytes 32.
#[local] Instance write_bytes32 : Writeable bytes := fun _ b => write_fixed_bytes b.

Definition is_32 (b : bytes) : Prop := length b = 32%nat.

Lemma bytes32_codec v sz : sz = Some 32 \/ sz = None -> ElmtCodec bytes v sz is_32.
Proof.
  intros Hsz. constructor; unfold is_32, ser_vec, write, write_bytes32, write_fixed_bytes.
  - intros x Hx. unfold chunk_ok, fits_kind, chunk_ok. rewrite Hx. destruct Hsz as [-> | ->]; done.
  - intros x rest Hx. unfold read, read_bytes32, read_fixed_bytes, bin_reader, bin_read_fixed_bytes. cbn [Z.ltb].
    change (Z.to_nat 32) with 32%nat. rewrite <- Hx. cbn [source version]. rewrite read_exact_ok. done.
  - eexists. reflexivity.
  - intros x rest t Hx Ht. change (2 ^ 62) with 4611686018427387904 in Ht.
    unfold read, read_bytes32, read_fixed_bytes, streaming_reader, streaming_read_fixed_bytes.
    cbn [stream sversion total_bytes_read]. change (Z.to_nat 32) with 32%nat. rewrite <- Hx at 1.
    rewrite read_exact_ok. cbn [res_bind]. rewrite add64_small, Hx by lia. done.
  - intros t. eexists. reflexivity.
Qed.

(** A toy hash of 32 bytes. *)
#[local] Instance toy_pmmrable : PMMRable bytes bytes bytes := {
  ZERO_HASH := be_bytes 32 0;
  hash_elmt x pos := be_bytes 32 (be_val x * 3 + pos + 1);
  hash_pair q pos := be_bytes 32 (be_val q.1 * 7 + be_val q.2 * 5 + pos);
  as_elmt x := x
}.

#[local] Instance toy_hash_codec : ElmtCodec bytes 2 (Some 32) is_32 := bytes32_codec 2 (Some 32) (or_introl eq_refl).
#[local] Instance toy_elmt_codec : ElmtCodec bytes 2 None is_32 := bytes32_codec 2 None (or_intror eq_refl).

#[local] Instance toy_elements : StoreElements bytes bytes bytes is_32 is_32 is_32.
Proof. constructor; intros; unfold is_32 in *; cbn; rewrite ?length_be_bytes; done. Qed.

Definition toy (k : Z) : bytes := be_bytes 32 k.

(** Four leaves are pushed and synced, the first two spent, synced and compacted away, a push is
    lost by reopening, and the last leaf is rewound and replaced. *)
Definition toy_ops : list (StoreOp bytes (gset Z)) :=
  [SPush (toy 5); SPush (toy 6); SPush (toy 7); SPush (toy 8); SSync;
   SPrune 0; SPrune 1; SSync; SCompact 7 ∅; SPush (toy 9); SReopen;
   SRewind 3 ∅; SPush (toy 10); SSync].

Lemma file_store_refines_a_list_witness :
  exists b p, fb_new (Bitmap := gset Z) (Hash := bytes) (Elt := bytes) None empty_dir true 2 None = Ok b /\
    run_store_ops (v := 2) (sz := None) (at_ b 0) toy_ops = Ok p /\
    backend_get_data (Bitmap := gset Z) (Hash := bytes) (T := bytes) (backend p) (node_pos 3 0) = Some (toy 10) /\
    backend_get_data (Bitmap := gset Z) (Hash := bytes) (T := bytes) (backend p) (node_pos 0 0) = None.
Proof.
  destruct (file_store_refines_a_list (v := 2) (sz := None) (hdom := is_32) (edom := is_32) (tdom := is_32) toy_ops)
    as (b & p & Eb & Ep & _ & _ & Hd).
  - done.
  - repeat split; try (vm_compute; congruence).
    + vm_compute. lia.
    + intros i Hi. revert i Hi. apply (bool_decide_unpack (set_Forall (fun i => i < Z.of_nat 3) _)).
      vm_compute. exact I.
    + exfalso. revert H. change (leaf_indices (∅ : gset Z)) with (∅ : gset Z). set_solver.
    + exfalso. revert H. change (leaf_indices (∅ : gset Z)) with (∅ : gset Z). set_solver.
    + exfalso. revert H. change (leaf_indices (∅ : gset Z)) with (∅ : gset Z). set_solver.
  - exists b, p. split; [exact Eb|]. split; [exact Ep|].
    rewrite !Hd by lia. split; vm_compute; reflexivity.
Defined.

(** After the first eight operations, compacting up to the whole range frees the first two leaves
    and keeps the third. *)
Lemma compaction_keeps_reads_witness :
  exists (b b' : PMMRBackend (gset Z)), check_compact (Hash := bytes) (Elt := bytes) b 7 ∅ = Ok (true, b') /\
    fb_get_data_from_file (Elt := bytes) b' (node_pos 2 0) = fb_get_data_from_file (Elt := bytes) b (node_pos 2 0).
Proof.
  destruct (new_inv (v := 2) (sz := None) (hdom := is_32) (edom := is_32) (tdom := is_32) (T := bytes)
    (Bitmap := gset Z)) as (b0 & _ & H0 & _); [done|].
  destruct (ops_inv _ _ _ _ (take 8 toy_ops) H0) as (p & hf & ph & _ & Hp).
  { repeat split; vm_compute; congruence. }
  destruct (settled_synced _ _ _ _ Hp eq_refl eq_refl) as (Hs & _ & _).
  destruct (compaction_keeps_reads (v := 2) (sz := None) (hdom := is_32) (edom := is_32)
    (backend p) hf _ _ 7 ∅ Hs) as (b' & R & E & HR & Hk).
  { rewrite (range_length _ _ (inv_flushed _ _ _ _ Hp)). vm_compute. split; congruence. }
  exists (backend p), b'. split; [exact E|].
  apply (proj1 (Hk 2 0 (leaf_is_node 2 ltac:(lia)) ltac:(lia))). intros Hf.
  assert (H2 : 2 ∈ pruned (abs_ops empty_store (take 8 toy_ops)) ∪ R) by (apply Hf; vm_compute; split; congruence).
  apply elem_of_union in H2 as [H2|H2].
  - revert H2. change (pruned (abs_ops empty_store (take 8 toy_ops))) with (∅ : gset Z). set_solver.
  - apply HR in H2 as (_ & _ & _ & Hn). apply Hn. rewrite rewound_iter by lia. left. split; [|vm_compute; congruence].
    apply (inv_unspent _ _ _ _ Hp); [lia|]. vm_compute. reflexivity.
Defined.
End Example.
