(* ===== verification/PowTypes.v ===== *)
(** * Difficulty and proof-of-work types

    Models [core/src/pow/types.rs]: [Difficulty], [Proof] with its packed bit
    vector, and [ProofOfWork].

    A proof is written as its nonces at their exact bit size.  The loops over
    bits of the source are kept; an index out of the bit vector panics. *)

From Stdlib Require Import ZArith Lia List Bool Permutation.
From stdpp Require Import base numbers list option.
From S2P Require Import Prelude Bytes Consensus Ser.

(** ** [Difficulty] *)

Record Difficulty := mkDifficulty { num : Z }.

#[export] Instance difficulty_eq_dec : EqDecision Difficulty.
Proof. solve_decision. Defined.

Definition difficulty_zero : Difficulty := mkDifficulty 0.
Definition difficulty_min : Difficulty := mkDifficulty MIN_DIFFICULTY.
Definition difficulty_unit : Difficulty := mkDifficulty initial_graph_weight.

(** [Difficulty::from_num] *)
Definition from_num (n : Z) : Difficulty := mkDifficulty (Z.max n 1).

(** [Add], [Sub], [Mul] and [Div] *)
Definition difficulty_add (a b : Difficulty) : Difficulty := mkDifficulty (num a + num b)%u64.
Definition difficulty_sub (a b : Difficulty) : Difficulty := mkDifficulty (num a - num b)%u64.
Definition difficulty_mul (a b : Difficulty) : Difficulty := mkDifficulty (num a * num b)%u64.
Definition difficulty_div (a b : Difficulty) : res Error Difficulty :=
  if num b =? 0 then Panic else Ok (mkDifficulty (num a / num b)).

#[export] Instance write_difficulty : Writeable Difficulty := fun _ d => write_u64 (num d).

Definition difficulty_read {R} `{!Reader R} : R -> res Error (Difficulty * R) :=
  let! data := read_u64 in read_ret (mkDifficulty data).

(** ** [BitVec] *)

Definition bytes_len (bits_len : nat) : nat := (bits_len + 7) / 8.

Definition bitvec_new (bits_len : nat) : bytes := replicate (bytes_len bits_len) 0.

(** [BitVec::set_bit_at] *)
Definition set_bit_at (bits : bytes) (pos : nat) : res Error bytes :=
  match bits !! (pos / 8)%nat with
  | Some b => Ok (<[(pos / 8)%nat := Z.lor b (Z.shiftl 1 (Z.of_nat (pos mod 8)))]> bits)
  | None => Panic
  end.

(** [BitVec::bit_at] *)
Definition bit_at (bits : bytes) (pos : nat) : res Error bool :=
  match bits !! (pos / 8)%nat with
  | Some b => Ok (negb (Z.land b (Z.shiftl 1 (Z.of_nat (pos mod 8))) =? 0))
  | None => Panic
  end.

(** ** [Proof] *)

Record PowProof := mkPowProof { edge_bits : Z; nonces : list Z }.

#[export] Instance pow_proof_eq_dec : EqDecision PowProof.
Proof. solve_decision. Defined.

(** [Proof::new]; the nonces are sorted. *)
Fixpoint insert_nonce (x : Z) (l : list Z) : list Z :=
  match l with [] => [x] | y :: l' => if x <=? y then x :: l else y :: insert_nonce x l' end.
Definition proof_new (in_nonces : list Z) : PowProof :=
  mkPowProof min_edge_bits (foldr insert_nonce [] in_nonces).

(** [Proof::zero] *)
Definition proof_zero (proof_size : nat) : PowProof := mkPowProof min_edge_bits (replicate proof_size 0).

(** The inner loop of [Proof::write]: the bits of one nonce. *)
Fixpoint write_bits (todo bit : nat) (bits : bytes) (n nonce_bits : nat) (nonce : Z) : res Error bytes :=
  match todo with
  | O => Ok bits
  | S todo =>
    let? bits :=
      if negb (Z.land nonce (1 << Z.of_nat bit)%u64 =? 0)
      then set_bit_at bits (n * nonce_bits + bit) else Ok bits in
    write_bits todo (S bit) bits n nonce_bits nonce
  end.

(** The outer loop: the nonces with their index. *)
Fixpoint write_nonces (nonces : list Z) (bits : bytes) (n nonce_bits : nat) : res Error bytes :=
  match nonces with
  | [] => Ok bits
  | nonce :: nonces =>
    let? bits := write_bits nonce_bits 0 bits n nonce_bits nonce in
    write_nonces nonces bits (S n) nonce_bits
  end.

(** [Proof::write] *)
Definition proof_write (w : Writer) (p : PowProof) : res Error bytes :=
  let nonce_bits := Z.to_nat (edge_bits p) in
  let? bits := write_nonces (nonces p) (bitvec_new (nonce_bits * proofsize)) 0 nonce_bits in
  Ok ((if negb (bool_decide (serialization_mode w = HashMode)) then write_u8 (edge_bits p) else [])
      ++ write_fixed_bytes bits).

(** The bytes of a proof that can be written. *)
#[export] Instance write_proof : Writeable PowProof := fun w p =>
  match proof_write w p with Ok b => b | _ => [] end.

Section ReadProof.
  Context {R : Type} `{!Reader R}.

(** The inner loop of [Proof::read]. *)
Fixpoint read_nonce (todo bit : nat) (bits : bytes) (n nonce_bits : nat) (nonce : Z) : res Error Z :=
  match todo with
  | O => Ok nonce
  | S todo =>
    let? b := bit_at bits (n * nonce_bits + bit) in
    read_nonce todo (S bit) bits n nonce_bits
      (if b then Z.lor nonce (1 << Z.of_nat bit)%u64 else nonce)
  end.

(** The loop over the nonces. *)
Fixpoint read_nonces (todo n : nat) (bits : bytes) (nonce_bits : nat) : res Error (list Z) :=
  match todo with
  | O => Ok []
  | S todo =>
    let? nonce := read_nonce nonce_bits 0 bits n nonce_bits 0 in
    let? nonces := read_nonces todo (S n) bits nonce_bits in
    Ok (nonce :: nonces)
  end.

(** The last bits of the last byte must be zero. *)
Fixpoint check_padding (todo pos : nat) (bits : bytes) : res Error unit :=
  match todo with
  | O => Ok tt
  | S todo =>
    let? b := bit_at bits pos in
    if b then Err CorruptedData else check_padding todo (S pos) bits
  end.

(** [Proof::read] *)
Definition proof_read : R -> res Error (PowProof * R) :=
  let! edge_bits := read_u8 in
  if (edge_bits =? 0) || (63 <? edge_bits) then read_fail CorruptedData
  else
    let nonce_bits := Z.to_nat edge_bits in
    let bits_len := (nonce_bits * proofsize)%nat in
    let bytes_len := bytes_len bits_len in
    let! bits := read_fixed_bytes (Z.of_nat bytes_len) in
    match read_nonces proofsize 0 bits nonce_bits with
    | Ok nonces =>
      match check_padding (bytes_len * 8 - bits_len) bits_len bits with
      | Ok _ => read_ret (mkPowProof edge_bits nonces)
      | Err e => read_fail e
      | Panic => read_panic
      end
    | Err e => read_fail e
    | Panic => read_panic
    end.
End ReadProof.

(** [Hash::to_u64]: the most significant 64 bits *)
Definition hash_to_u64 (h : bytes) : Z := be_val (take 8 h).

(** [Proof::scaled_difficulty], in 128 bits *)
Definition scaled_difficulty {DG : Digest} (p : PowProof) (scale : Z) : Z :=
  let diff := Z.shiftl scale 64 / Z.max 1 (hash_to_u64 (hash p)) in
  Z.min diff u64_max.

(** [Difficulty::from_proof_adjusted], [from_proof_scaled] *)
Definition from_proof_adjusted {DG : Digest} (height : Z) (p : PowProof) : Difficulty :=
  from_num (scaled_difficulty p (graph_weight height (edge_bits p))).
Definition from_proof_scaled {DG : Digest} (p : PowProof) (scaling : Z) : Difficulty :=
  from_num (scaled_difficulty p scaling).

(** ** [ProofOfWork] *)

Record ProofOfWork := mkPow {
  total_difficulty : Difficulty; secondary_scaling : Z; nonce : Z; proof : PowProof }.

#[export] Instance pow_eq_dec : EqDecision ProofOfWork.
Proof. solve_decision. Defined.

(** [ProofOfWork::default] *)
Definition pow_default : ProofOfWork := mkPow difficulty_min 1 0 (proof_zero proofsize).

(** [ProofOfWork::write_pre_pow] *)
Definition pow_write_pre_pow (p : ProofOfWork) : bytes :=
  write_u64 (num (total_difficulty p)) ++ write_u32 (secondary_scaling p).

#[export] Instance write_pow : Writeable ProofOfWork := fun w p =>
  (if negb (bool_decide (serialization_mode w = HashMode))
   then pow_write_pre_pow p ++ write_u64 (nonce p) else [])
  ++ write w (proof p).

Definition pow_read {R} `{!Reader R} : R -> res Error (ProofOfWork * R) :=
  let! total_difficulty := difficulty_read in
  let! secondary_scaling := read_u32 in
  let! nonce := read_u64 in
  let! proof := proof_read in
  read_ret (mkPow total_difficulty secondary_scaling nonce proof).

(** [ProofOfWork::to_difficulty] *)
Definition to_difficulty {DG : Digest} (p : ProofOfWork) (height : Z) : Difficulty :=
  if edge_bits (proof p) =? SECOND_POW_EDGE_BITS
  then from_proof_scaled (proof p) (secondary_scaling p)
  else from_proof_adjusted height (proof p).

(** [ProofOfWork::is_primary], [is_secondary] *)
Definition is_primary (p : ProofOfWork) : bool :=
  negb (edge_bits (proof p) =? SECOND_POW_EDGE_BITS) && (min_edge_bits <=? edge_bits (proof p)).
Definition is_secondary (p : ProofOfWork) : bool := edge_bits (proof p) =? SECOND_POW_EDGE_BITS.

(** ** Bits of a byte vector *)

Definition bitf (bits : bytes) (q : nat) : bool :=
  Z.testbit (default 0 (bits !! (q / 8)%nat)) (Z.of_nat (q mod 8)).

Lemma byte_lookup bits i b : are_bytes bits -> bits !! i = Some b -> 0 <= b < 256.
Proof. intros H Hl. unfold are_bytes in H. rewrite List.Forall_forall in H. apply H, list_elem_of_In, list_elem_of_lookup. eauto. Qed.

Lemma bit_index q : (q = 8 * (q / 8) + q mod 8)%nat /\ (q mod 8 < 8)%nat.
Proof. split; [apply Nat.div_mod_eq|apply Nat.mod_upper_bound; lia]. Qed.

Lemma mask_testbit x k : 0 <= x -> negb (Z.land x (Z.shiftl 1 (Z.of_nat k)) =? 0) = Z.testbit x (Z.of_nat k).
Proof. intros Hx. rewrite Z.shiftl_1_l, land_pow2_testbit by lia. apply negb_involutive. Qed.

Lemma bit_at_ok bits q : are_bytes bits -> (q < 8 * length bits)%nat -> bit_at bits q = Ok (bitf bits q).
Proof.
  intros Hb Hq. unfold bit_at, bitf. destruct (bit_index q) as [Eq _].
  destruct (bits !! (q / 8)%nat) as [b|] eqn:E; [|apply lookup_ge_None in E; lia].
  cbn [from_option id]. rewrite mask_testbit by (apply byte_lookup in E; [lia|done]). done.
Qed.

Lemma set_bit_at_ok bits p : are_bytes bits -> (p < 8 * length bits)%nat ->
  exists bits', set_bit_at bits p = Ok bits' /\ length bits' = length bits /\ are_bytes bits' /\
    forall q, bitf bits' q = bitf bits q || (q =? p)%nat.
Proof.
  intros Hb Hp. destruct (bit_index p) as [Ep Hm]. unfold set_bit_at.
  destruct (bits !! (p / 8)%nat) as [b|] eqn:E; [|apply lookup_ge_None in E; lia].
  pose proof (byte_lookup _ _ _ Hb E) as Hbb. eexists. split; [done|]. split; [apply length_insert|]. split.
  - apply Forall_insert; [done|]. rewrite Z.shiftl_1_l. split.
    + apply Z.lor_nonneg. split; [lia|]. apply Z.pow_nonneg; lia.
    + change 256 with (2 ^ 8). apply Z.log2_lt_cancel. rewrite Z.log2_lor, Z.log2_pow2, Z.log2_pow2 by (try apply Z.pow_nonneg; lia).
      apply Z.max_lub_lt; [|lia]. destruct (Z.eq_dec b 0) as [->|]; [done|]. apply Z.log2_lt_pow2; [lia|]. change (2 ^ 8) with 256. lia.
  - intros q. unfold bitf. destruct (bit_index q) as [Eq Hq].
    destruct (Nat.eq_dec (q / 8)%nat (p / 8)%nat) as [Ed|Ed].
    + rewrite Ed, list_lookup_insert_eq by (eapply lookup_lt_Some, E). rewrite E. cbn [from_option id].
      rewrite Z.lor_spec, Z.shiftl_1_l, Z.pow2_bits_eqb by lia. f_equal.
      destruct (Z.eqb_spec (Z.of_nat (p mod 8)) (Z.of_nat (q mod 8))), (Nat.eqb_spec q p); try done; subst; lia.
    + rewrite list_lookup_insert_ne by done. destruct (Nat.eqb_spec q p); [subst; lia|]. rewrite orb_false_r. done.
Qed.

Lemma bitf_new n q : bitf (bitvec_new n) q = false.
Proof.
  unfold bitf, bitvec_new. destruct (replicate _ 0 !! (q / 8)%nat) as [b|] eqn:E; [|apply Z.bits_0].
  apply lookup_replicate in E as [-> _]. apply Z.bits_0.
Qed.

(** Byte vectors with the same length and bits are equal. *)
Lemma bitf_ext a b : are_bytes a -> are_bytes b -> length a = length b ->
  (forall q, bitf a q = bitf b q) -> a = b.
Proof.
  intros Ha Hb Hl H. apply list_eq_same_length with (length a); [done|done|].
  intros i x y Hi Hx Hy. pose proof (byte_lookup _ _ _ Ha Hx). pose proof (byte_lookup _ _ _ Hb Hy).
  apply Z.bits_inj'. intros k Hk. destruct (Z.ltb_spec k 8).
  - specialize (H (8 * i + Z.to_nat k)%nat). unfold bitf in H.
    replace ((8 * i + Z.to_nat k) / 8)%nat with i in H
      by (apply Nat.div_unique with (Z.to_nat k); lia).
    replace ((8 * i + Z.to_nat k) mod 8)%nat with (Z.to_nat k) in H
      by (apply Nat.mod_unique with i; lia).
    rewrite Hx, Hy, Z2Nat.id in H by lia. exact H.
  - rewrite !Z.testbit_eqb by lia.
    rewrite !Z.div_small; [done|..]; split; try lia; (eapply Z.lt_le_trans with (2 ^ 8); [cbn; lia|apply Z.pow_le_mono_r; lia]).
Qed.

(** *** Writing *)

Definition sets (bits bits' : bytes) (P : nat -> Prop) : Prop :=
  length bits' = length bits /\ are_bytes bits' /\
  forall q, bitf bits' q = true <-> bitf bits q = true \/ P q.

Lemma write_bits_ok todo : forall bit bits n nb x,
  are_bytes bits -> 0 <= x -> (bit + todo <= 63)%nat -> (n * nb + bit + todo <= 8 * length bits)%nat ->
  exists bits', write_bits todo bit bits n nb x = Ok bits' /\
    sets bits bits' (fun q => exists i, (bit <= i < bit + todo)%nat /\ q = (n * nb + i)%nat /\ Z.testbit x (Z.of_nat i) = true).
Proof.
  induction todo as [|todo IH]; intros bit bits n nb x Hb Hx Hbit Hl; cbn [write_bits].
  { exists bits. split; [done|]. split; [done|]. split; [done|]. intros q. split; [tauto|]. intros [H|(i & ? & _)]; [done|lia]. }
  rewrite shl64_1, <- Z.shiftl_1_l, mask_testbit by lia.
  destruct (Z.testbit x (Z.of_nat bit)) eqn:Et.
  - destruct (set_bit_at_ok bits (n * nb + bit) Hb) as (b1 & -> & L1 & B1 & F1); [lia|]. cbn [res_bind].
    destruct (IH (S bit) b1 n nb x) as (b2 & -> & L2 & B2 & F2); [done|done|lia|lia|].
    exists b2. split; [done|]. split; [lia|]. split; [done|]. intros q.
    rewrite F2, F1, orb_true_iff, Nat.eqb_eq. split.
    + intros [[H| ->]|(i & Hi & -> & H)]; [tauto|right; exists bit; split; [lia|done]|right; exists i; split; [lia|done]].
    + intros [H|(i & Hi & -> & H)]; [tauto|]. destruct (Nat.eq_dec i bit) as [->|]; [tauto|].
      right. exists i. split; [lia|done].
  - cbn [res_bind]. destruct (IH (S bit) bits n nb x) as (b2 & -> & L2 & B2 & F2); [done|done|lia|lia|].
    exists b2. split; [done|]. split; [done|]. split; [done|]. intros q. rewrite F2.
    split; (intros [H|(i & Hi & -> & H)]; [tauto|right; exists i; split; [|done]]); [lia|].
    destruct (Nat.eq_dec i bit) as [->|]; [congruence|lia].
Qed.

Lemma write_nonces_ok l : forall bits n nb,
  are_bytes bits -> Forall (Z.le 0) l -> (nb <= 63)%nat -> ((n + length l) * nb <= 8 * length bits)%nat ->
  exists bits', write_nonces l bits n nb = Ok bits' /\
    sets bits bits' (fun q => exists j x i, l !! j = Some x /\ (i < nb)%nat /\
      q = ((n + j) * nb + i)%nat /\ Z.testbit x (Z.of_nat i) = true).
Proof.
  induction l as [|x l IH]; intros bits n nb Hb Hl Hnb Hlen; cbn [write_nonces].
  { exists bits. split; [done|]. split; [done|]. split; [done|]. intros q. split; [tauto|].
    intros [H|(j & y & i & H & _)]; [done|]. rewrite lookup_nil in H. done. }
  apply List.Forall_cons_iff in Hl as [Hx Hl]. cbn [length] in Hlen.
  destruct (write_bits_ok nb 0 bits n nb x) as (b1 & -> & L1 & B1 & F1); [done|done|lia|nia|]. cbn [res_bind].
  destruct (IH b1 (S n) nb) as (b2 & -> & L2 & B2 & F2); [done|done|done|rewrite L1; nia|].
  exists b2. split; [done|]. split; [lia|]. split; [done|]. intros q. rewrite F2, F1. split.
  - intros [[H|(i & Hi & -> & H)]|(j & y & i & H & Hi & -> & Ht)]; [tauto|..]; right.
    + exists 0%nat, x, i. split; [done|]. split; [lia|]. split; [f_equal; lia|done].
    + exists (S j), y, i. split; [done|]. split; [done|]. split; [f_equal; f_equal; lia|done].
  - intros [H|([|j] & y & i & H & Hi & -> & Ht)]; [tauto|..].
    + cbn in H. injection H as ->. left; right. exists i. split; [lia|]. split; [f_equal; lia|done].
    + right. exists j, y, i. split; [done|]. split; [done|]. split; [f_equal; f_equal; lia|done].
Qed.

(** *** Reading *)

Lemma read_nonce_ok todo : forall bit bits n nb x,
  are_bytes bits -> 0 <= x -> (bit + todo <= 63)%nat -> (n * nb + bit + todo <= 8 * length bits)%nat ->
  exists y, read_nonce todo bit bits n nb x = Ok y /\ 0 <= y /\
    forall k, Z.testbit y (Z.of_nat k) = Z.testbit x (Z.of_nat k) || ((bit <=? k)%nat && (k <? bit + todo)%nat && bitf bits (n * nb + k)).
Proof.
  induction todo as [|todo IH]; intros bit bits n nb x Hb Hx Hbit Hl; cbn [read_nonce].
  { exists x. split; [done|]. split; [done|]. intros k.
    destruct (Nat.leb_spec bit k), (Nat.ltb_spec k (bit + 0)); cbn; rewrite ?orb_false_r; try done; lia. }
  rewrite bit_at_ok by (done || lia). cbn [res_bind]. rewrite shl64_1 by lia.
  set (x' := if bitf bits (n * nb + bit) then Z.lor x (2 ^ Z.of_nat bit) else x).
  assert (Hx' : 0 <= x') by (unfold x'; destruct (bitf _ _); [apply Z.lor_nonneg; split; [done|apply Z.pow_nonneg; lia]|done]).
  destruct (IH (S bit) bits n nb x') as (y & -> & Hy & F); [done|done|lia|lia|].
  exists y. split; [done|]. split; [done|]. intros k. rewrite F.
  assert (Ex : Z.testbit x' (Z.of_nat k) = Z.testbit x (Z.of_nat k) || ((k =? bit)%nat && bitf bits (n * nb + k))).
  { unfold x'. destruct (Nat.eqb_spec k bit) as [->|Hne]; destruct (bitf bits (n * nb + bit)); cbn;
      rewrite ?Z.lor_spec, ?Z.pow2_bits_eqb, ?orb_false_r by lia; try done.
    - rewrite Z.eqb_refl. done.
    - rewrite (proj2 (Z.eqb_neq _ _)) by lia. rewrite orb_false_r. done. }
  rewrite Ex, <- orb_assoc. f_equal.
  destruct (Nat.eqb_spec k bit), (Nat.leb_spec (S bit) k), (Nat.leb_spec bit k), (Nat.ltb_spec k (S bit + todo)),
    (Nat.ltb_spec k (bit + S todo)); cbn; rewrite ?orb_false_r; try done; lia.
Qed.

Lemma read_nonces_ok todo : forall n bits nb,
  are_bytes bits -> (nb <= 63)%nat -> ((n + todo) * nb <= 8 * length bits)%nat ->
  exists l, read_nonces todo n bits nb = Ok l /\ length l = todo /\
    forall j y, l !! j = Some y -> 0 <= y /\
      forall k, Z.testbit y (Z.of_nat k) = ((k <? nb)%nat && bitf bits ((n + j) * nb + k)).
Proof.
  induction todo as [|todo IH]; intros n bits nb Hb Hnb Hl; cbn [read_nonces].
  { exists []. split; [done|]. split; [done|]. intros j y H. rewrite lookup_nil in H. done. }
  destruct (read_nonce_ok nb 0 bits n nb 0) as (y & -> & Hy & F); [done|lia|lia|nia|]. cbn [res_bind].
  destruct (IH (S n) bits nb) as (l & -> & Ll & Fl); [done|done|nia|]. cbn [res_bind].
  exists (y :: l). split; [done|]. split; [cbn; lia|]. intros [|j] z H.
  - injection H as <-. split; [done|]. intros k. rewrite F, Z.bits_0, Nat.add_0_r. done.
  - destruct (Fl j z H) as [Hz Fz]. split; [done|]. intros k. rewrite Fz. do 2 f_equal. lia.
Qed.

Lemma check_padding_ok todo : forall pos bits,
  are_bytes bits -> (pos + todo <= 8 * length bits)%nat ->
  (check_padding todo pos bits = Ok tt /\ forall q, (pos <= q < pos + todo)%nat -> bitf bits q = false) \/
  (check_padding todo pos bits = Err CorruptedData /\ exists q, (pos <= q < pos + todo)%nat /\ bitf bits q = true).
Proof.
  induction todo as [|todo IH]; intros pos bits Hb Hl; cbn [check_padding]; [left; split; [done|intros; lia]|].
  rewrite bit_at_ok by (done || lia). cbn [res_bind]. destruct (bitf bits pos) eqn:E.
  - right. split; [done|]. exists pos. split; [lia|done].
  - destruct (IH (S pos) bits Hb) as [[-> H]|[-> (q & Hq & H)]]; [lia|left|right]; (split; [done|]).
    + intros q Hq. destruct (Nat.eq_dec q pos) as [->|]; [done|]. apply H. lia.
    + exists q. split; [lia|done].
Qed.

(** ** Round trip and uniqueness of the packed form *)

Definition wf_proof (p : PowProof) : Prop :=
  1 <= edge_bits p <= 63 /\ length (nonces p) = proofsize /\
  Forall (fun x => 0 <= x < 2 ^ edge_bits p) (nonces p).

Lemma bytes_len_bounds n : (n <= 8 * bytes_len n < n + 8)%nat.
Proof. unfold bytes_len. pose proof (Nat.div_mod_eq (n + 7) 8). pose proof (Nat.mod_upper_bound (n + 7) 8 ltac:(lia)). lia. Qed.

Lemma length_bitvec_new n : length (bitvec_new n) = bytes_len n.
Proof. apply length_replicate. Qed.

Lemma bitvec_new_bytes n : are_bytes (bitvec_new n).
Proof. unfold are_bytes, bitvec_new. apply Forall_replicate. done. Qed.

Lemma bytes_len_small e : 1 <= e <= 63 -> Z.of_nat (bytes_len (Z.to_nat e * proofsize)) <= 100000.
Proof. intros H. pose proof (bytes_len_bounds (Z.to_nat e * proofsize)). unfold proofsize in *. lia. Qed.

(** Packed nonces: every bit is the bit of one nonce. *)
Lemma pack_nonces e l : 1 <= e <= 63 -> length l = proofsize -> Forall (Z.le 0) l ->
  let nb := Z.to_nat e in
  exists bits, write_nonces l (bitvec_new (nb * proofsize)) 0 nb = Ok bits /\
    length bits = bytes_len (nb * proofsize) /\ are_bytes bits /\
    forall q, bitf bits q = true <-> exists j x i, l !! j = Some x /\ (i < nb)%nat /\
      q = (j * nb + i)%nat /\ Z.testbit x (Z.of_nat i) = true.
Proof.
  intros He Hl Hn nb. pose proof (bytes_len_bounds (nb * proofsize)) as Hb.
  assert (Hnb : (1 <= nb <= 63)%nat) by (unfold nb; lia).
  destruct (write_nonces_ok l (bitvec_new (nb * proofsize)) 0 nb) as (bits & -> & L & B & F);
    [apply bitvec_new_bytes|done|lia|rewrite length_bitvec_new, Hl; lia|].
  exists bits. split; [done|]. rewrite length_bitvec_new in L. split; [done|]. split; [done|].
  intros q. rewrite F, bitf_new. split; [intros [|H]; done|right; done].
Qed.

Lemma bits_above_small x e k : 0 <= x < 2 ^ e -> 0 <= e <= k -> Z.testbit x k = false.
Proof.
  intros Hx Hk. rewrite Z.testbit_eqb by lia. rewrite Z.div_small; [done|].
  split; [lia|]. eapply Z.lt_le_trans; [apply Hx|apply Z.pow_le_mono_r; lia].
Qed.

Lemma split_index (j i j' i' nb : nat) : (i < nb)%nat -> (i' < nb)%nat -> (j * nb + i = j' * nb + i')%nat -> j = j' /\ i = i'.
Proof. intros H H' E. assert (j = j') by nia. subst. lia. Qed.

Lemma unpack_pack e l : 1 <= e <= 63 -> length l = proofsize -> Forall (fun x => 0 <= x < 2 ^ e) l ->
  let nb := Z.to_nat e in
  exists bits, write_nonces l (bitvec_new (nb * proofsize)) 0 nb = Ok bits /\
    length bits = bytes_len (nb * proofsize) /\
    read_nonces proofsize 0 bits nb = Ok l /\
    check_padding (bytes_len (nb * proofsize) * 8 - nb * proofsize) (nb * proofsize) bits = Ok tt.
Proof.
  intros He Hl Hn nb. pose proof (bytes_len_bounds (nb * proofsize)) as Hb.
  assert (Hnb : (1 <= nb <= 63)%nat) by (unfold nb; lia).
  destruct (pack_nonces e l He Hl) as (bits & Hw & L & B & F).
  { eapply List.Forall_impl; [|exact Hn]. cbn. lia. }
  fold nb in Hw, L, F. exists bits. split; [done|]. split; [done|]. split.
  - destruct (read_nonces_ok proofsize 0 bits nb) as (l' & -> & L' & F'); [done|lia|lia|]. f_equal.
    apply list_eq_same_length with proofsize; [done|done|]. intros j y x Hj Hy Hx.
    destruct (F' j y Hy) as [Hy0 Fy]. apply List.Forall_forall with (x := x) in Hn; [|apply list_elem_of_In, list_elem_of_lookup; eauto].
    apply Z.bits_inj'. intros k Hk. rewrite <- (Z2Nat.id k), Fy by done.
    destruct (Nat.ltb_spec (Z.to_nat k) nb); cbn [andb]; [|symmetry; apply bits_above_small with e; lia].
    apply eq_true_iff_eq. rewrite F. split.
    + intros (j' & x' & i' & Hx' & Hi' & Eq & Ht). cbn in Eq.
      destruct (split_index j (Z.to_nat k) j' i' nb H Hi' Eq) as [<- <-]. congruence.
    + intros Ht. exists j, x, (Z.to_nat k). done.
  - destruct (check_padding_ok (bytes_len (nb * proofsize) * 8 - nb * proofsize) (nb * proofsize) bits B)
      as [[-> _]|[_ (q & Hq & Ht)]]; [lia|done|].
    apply F in Ht as (j & x & i & Hx & Hi & -> & _). apply lookup_lt_Some in Hx. nia.
Qed.

Lemma pack_unpack e bits l : 1 <= e <= 63 -> let nb := Z.to_nat e in
  are_bytes bits -> length bits = bytes_len (nb * proofsize) ->
  read_nonces proofsize 0 bits nb = Ok l ->
  check_padding (bytes_len (nb * proofsize) * 8 - nb * proofsize) (nb * proofsize) bits = Ok tt ->
  write_nonces l (bitvec_new (nb * proofsize)) 0 nb = Ok bits /\
  length l = proofsize /\ Forall (fun x => 0 <= x < 2 ^ e) l.
Proof.
  intros He nb Hb Hlen Hr Hp. pose proof (bytes_len_bounds (nb * proofsize)) as Hbl.
  assert (Hnb0 : (1 <= nb <= 63)%nat) by (unfold nb; lia).
  destruct (read_nonces_ok proofsize 0 bits nb) as (l' & E & L & F); [done|lia|lia|].
  assert (l' = l) by congruence. subst l'. clear E Hr.
  assert (Hrange : Forall (fun x => 0 <= x < 2 ^ e) l).
  { apply List.Forall_forall. intros x Hin. apply list_elem_of_In, list_elem_of_lookup in Hin as [j Hx].
    destruct (F j x Hx) as [H0 Fx]. split; [done|]. destruct (Z.eq_dec x 0) as [->|]; [apply Z.pow_pos_nonneg; lia|].
    apply Z.log2_lt_pow2; [lia|]. destruct (Z.ltb_spec (Z.log2 x) e) as [|Hge]; [done|].
    pose proof (Z.bit_log2 x ltac:(lia)) as Ht. pose proof (Z.log2_nonneg x).
    rewrite <- (Z2Nat.id (Z.log2 x)), Fx in Ht by done.
    destruct (Nat.ltb_spec (Z.to_nat (Z.log2 x)) nb); [lia|done]. }
  split; [|done]. destruct (pack_nonces e l He L) as (bits' & Hw & L' & B' & F').
  { eapply List.Forall_impl; [|exact Hrange]. cbn. lia. }
  fold nb in Hw, L', F'. rewrite Hw. f_equal. apply bitf_ext; [done|done|congruence|].
  intros q. apply eq_true_iff_eq. rewrite F'. split.
  - intros (j & x & i & Hx & Hi & -> & Ht). destruct (F j x Hx) as [_ Fx]. rewrite Fx in Ht.
    apply andb_true_iff in Ht as [_ Ht]. exact Ht.
  - intros Ht. destruct (Nat.ltb_spec q (nb * proofsize)) as [Hq|Hq].
    + assert (Hnb : nb <> 0%nat) by lia. pose proof (Nat.div_mod_eq q nb). pose proof (Nat.mod_upper_bound q nb Hnb).
      assert (Hj : (q / nb < proofsize)%nat) by (apply Nat.Div0.div_lt_upper_bound; lia).
      destruct (lookup_lt_is_Some_2 l (q / nb)%nat) as [x Hx]; [lia|]. exists (q / nb)%nat, x, (q mod nb)%nat.
      split; [done|]. split; [done|]. split; [lia|]. destruct (F _ _ Hx) as [_ Fx]. rewrite Fx.
      rewrite (proj2 (Nat.ltb_lt _ _)) by done. cbn [andb]. rewrite <- Ht. f_equal. lia.
    + destruct (Nat.ltb_spec q (8 * length bits)) as [Hq2|Hq2].
      * destruct (check_padding_ok (bytes_len (nb * proofsize) * 8 - nb * proofsize) (nb * proofsize) bits Hb)
          as [[_ Hz]|[Hz _]]; [lia| |congruence]. rewrite Hz in Ht by lia. done.
      * unfold bitf in Ht. rewrite lookup_ge_None_2, Z.bits_0 in Ht; [done|].
        destruct (bit_index q). lia.
Qed.

Section ProofClaims.
  Context {R : Type} `{!Reader R} `{!ReaderLaws R}.

Lemma read_u8_range (r : R) x r' : are_bytes (remaining r) -> read_u8 r = Ok (x, r') -> 0 <= x < 256.
Proof.
  intros Hb H. apply read_bind_inv in H as (b & r1 & E1 & [= <- <-]).
  apply read_int_inv in E1 as (E1 & E2 & _). rewrite E1 in Hb. apply are_bytes_app in Hb as [Hb _].
  pose proof (be_val_bounds b Hb) as H. rewrite E2 in H. exact H.
Qed.

Lemma write_proof_wf v p bits :
  write_nonces (nonces p) (bitvec_new (Z.to_nat (edge_bits p) * proofsize)) 0 (Z.to_nat (edge_bits p)) = Ok bits ->
  write (bin_writer v) p = write_u8 (edge_bits p) ++ bits.
Proof. intros H. unfold write, write_proof, proof_write. rewrite H. cbn. done. Qed.

Lemma reads_proof v p : wf_proof p -> reads (R := R) v proof_read (write (bin_writer v) p) p.
Proof.
  intros (He & Hl & Hn). destruct (unpack_pack _ _ He Hl Hn) as (bits & Hw & L & Hr & Hp).
  rewrite (write_proof_wf _ _ _ Hw). unfold proof_read. eapply reads_bind; [apply reads_u8; change (2 ^ 8) with 256; lia|].
  rewrite (proj2 (Z.eqb_neq _ _)), (proj2 (Z.ltb_ge _ _)) by lia. cbn [orb].
  eapply reads_bind_last; [apply reads_fixed; [congruence|apply bytes_len_small, He]|].
  cbv zeta. rewrite Hr, Hp. destruct p. apply reads_ret.
Qed.

Lemma proof_canonical v : canonical (R := R) v proof_read (write (bin_writer v)).
Proof.
  intros r p r' Hv Hb H. apply read_bind_inv in H as (e & r1 & E1 & H).
  apply read_u8_range in E1 as He; [|done]. apply (canonical_u8 v r e r1 Hv Hb) in E1 as [E1 Hv1].
  rewrite E1 in Hb. apply are_bytes_app in Hb as [_ Hb].
  destruct (Z.eqb_spec e 0); [done|]. destruct (Z.ltb_spec 63 e); [done|]. cbn [orb] in H.
  apply read_bind_inv in H as (bits & r2 & E2 & H).
  apply read_fixed_inv in E2 as (E2 & L & Hv2). rewrite Nat2Z.id in L. rewrite E2 in Hb.
  apply are_bytes_app in Hb as [Hb _].
  destruct (read_nonces proofsize 0 bits (Z.to_nat e)) as [l|err|] eqn:Er; [|done|done].
  destruct (check_padding _ _ bits) as [[]|err|] eqn:Ep; [|done|done]. injection H as <- <-.
  destruct (pack_unpack e bits l ltac:(lia) Hb L Er Ep) as (Hw & _ & _).
  rewrite (write_proof_wf v (mkPowProof e l) bits Hw). cbn [edge_bits]. rewrite <- app_assoc, <- E2, <- E1.
  split; [done|congruence].
Qed.
End ProofClaims.

(** ** Theorems *)

(** A proof of work has exactly one packed form.  A proof with [proofsize]
    nonces that fit its edge bits (1 to 63) is read back from its bit-packed form
    by every reader; whatever bytes are accepted are the form of the proof
    returned, the padding bits included, so the bytes of a proof, and with them
    the hash of a header, cannot be varied. *)
Theorem proof_packing {R : Type} `{!Reader R} `{!ReaderLaws R} v :
  (forall p, wf_proof p -> reads (R := R) v proof_read (write (bin_writer v) p) p) /\
  canonical (R := R) v proof_read (write (bin_writer v)).
Proof. split; [apply reads_proof|apply proof_canonical]. Qed.
