(* ===== verification/Transaction.v ===== *)
(** * Kernels, inputs and outputs

    Models the data of [core/src/core/transaction.rs] and its binary forms: the
    kernel features in the two protocol versions, kernels, inputs, outputs and
    their token variants; and the serialization of the curve types in
    [core/src/ser.rs].

    Commitments, signatures, range proofs and blinding factors belong to the
    [secp256k1zkp] crate: here they are byte strings, whose sizes are the
    parameters [SecpSizes]. *)

From Stdlib Require Import ZArith Lia List Bool.
From stdpp Require Import base numbers list option.
From S2P Require Import Prelude Bytes Ser.

(** ** Curve types *)

Class SecpSizes := {
  PEDERSEN_COMMITMENT_SIZE : nat;
  AGG_SIGNATURE_SIZE : nat;
  SECRET_KEY_SIZE : nat;
  MAX_PROOF_SIZE : nat;
  sizes_bounded :
    Z.of_nat PEDERSEN_COMMITMENT_SIZE <= 100000 /\ Z.of_nat AGG_SIGNATURE_SIZE <= 100000 /\
    Z.of_nat SECRET_KEY_SIZE <= 100000 /\ Z.of_nat MAX_PROOF_SIZE <= 100000
}.

Record Commitment := mkCommitment { commit_bytes : bytes }.
Record Signature := mkSignature { sig_bytes : bytes }.
Record BlindingFactor := mkBlinding { blind_bytes : bytes }.

(** [RangeProof]: a buffer and the length in use. *)
Record RangeProof := mkRangeProof { proof_bytes : bytes; plen : nat }.

(** [AsRef<[u8]>] of a range proof: the part in use. *)
Definition proof_slice (p : RangeProof) : bytes := take (plen p) (proof_bytes p).

#[export] Instance commitment_eq_dec : EqDecision Commitment.
Proof. solve_decision. Defined.
#[export] Instance signature_eq_dec : EqDecision Signature.
Proof. solve_decision. Defined.
#[export] Instance blinding_eq_dec : EqDecision BlindingFactor.
Proof. solve_decision. Defined.
#[export] Instance rangeproof_eq_dec : EqDecision RangeProof.
Proof. solve_decision. Defined.

(** ** Token keys and features *)

Record TokenKey := mkTokenKey { token_hash : bytes }.
#[export] Instance token_key_eq_dec : EqDecision TokenKey.
Proof. solve_decision. Defined.

(** [TokenKey::new_zero_key] *)
Definition new_zero_key : TokenKey := mkTokenKey (replicate HASH_LEN 0).

(** [KernelFeatures]: [Plain], [Coinbase], [HeightLocked] *)
Inductive KernelFeatures :=
| KPlain (fee : Z)
| KCoinbase
| KHeightLocked (fee lock_height : Z).

(** [TokenKernelFeatures]: [PlainToken], [IssueToken], [HeightLockedToken] *)
Inductive TokenKernelFeatures :=
| PlainToken
| IssueToken
| HeightLockedToken (lock_height : Z).

(** [OutputFeatures]: [Plain = 0], [Coinbase = 1], [TokenIssue = 98],
    [Token = 99] *)
Inductive OutputFeatures := OPlain | OCoinbase | OTokenIssue | OToken.

#[export] Instance kernel_features_eq_dec : EqDecision KernelFeatures.
Proof. solve_decision. Defined.
#[export] Instance token_kernel_features_eq_dec : EqDecision TokenKernelFeatures.
Proof. solve_decision. Defined.
#[export] Instance output_features_eq_dec : EqDecision OutputFeatures.
Proof. solve_decision. Defined.

Definition PLAIN_U8 : Z := 0.
Definition COINBASE_U8 : Z := 1.
Definition HEIGHT_LOCKED_U8 : Z := 2.
Definition PLAIN_TOKEN_U8 : Z := 0.
Definition ISSUE_TOKEN_U8 : Z := 1.

(** [KernelFeatures::as_u8] *)
Definition kernel_as_u8 (k : KernelFeatures) : Z :=
  match k with KPlain _ => PLAIN_U8 | KCoinbase => COINBASE_U8 | KHeightLocked _ _ => HEIGHT_LOCKED_U8 end.

(** [TokenKernelFeatures::as_u8] *)
Definition token_kernel_as_u8 (k : TokenKernelFeatures) : Z :=
  match k with PlainToken => PLAIN_TOKEN_U8 | IssueToken => ISSUE_TOKEN_U8
  | HeightLockedToken _ => HEIGHT_LOCKED_U8 end.

Definition output_features_as_u8 (f : OutputFeatures) : Z :=
  match f with OPlain => 0 | OCoinbase => 1 | OTokenIssue => 98 | OToken => 99 end.

(** [OutputFeatures::from_u8], from [enum_from_primitive!]. *)
Definition output_features_from_u8 (n : Z) : option OutputFeatures :=
  if n =? 0 then Some OPlain
  else if n =? 1 then Some OCoinbase
  else if n =? 98 then Some OTokenIssue
  else if n =? 99 then Some OToken
  else None.

(** [KernelFeatures::write_v1]: fee and lock height always written. *)
Definition kernel_write_v1 (k : KernelFeatures) : bytes :=
  let '(fee, lock_height) :=
    match k with
    | KPlain fee => (fee, 0)
    | KCoinbase => (0, 0)
    | KHeightLocked fee lock_height => (fee, lock_height)
    end in
  write_u8 (kernel_as_u8 k) ++ write_u64 fee ++ write_u64 lock_height.

(** [KernelFeatures::write_v2]: only the fields of the variant. *)
Definition kernel_write_v2 (k : KernelFeatures) : bytes :=
  match k with
  | KPlain fee => write_u8 (kernel_as_u8 k) ++ write_u64 fee
  | KCoinbase => write_u8 (kernel_as_u8 k)
  | KHeightLocked fee lock_height =>
    write_u8 (kernel_as_u8 k) ++ write_u64 fee ++ write_u64 lock_height
  end.

(** [KernelFeatures::write]: hashes always use the first version. *)
#[export] Instance write_kernel_features : Writeable KernelFeatures := fun w k =>
  if bool_decide (serialization_mode w = HashMode) then kernel_write_v1 k
  else if writer_version w <=? 1 then kernel_write_v1 k
  else kernel_write_v2 k.

#[export] Instance write_token_kernel_features : Writeable TokenKernelFeatures := fun w k =>
  match k with
  | HeightLockedToken lock_height => write_u8 (token_kernel_as_u8 k) ++ write_u64 lock_height
  | _ => write_u8 (token_kernel_as_u8 k)
  end.

#[export] Instance write_output_features : Writeable OutputFeatures := fun w f =>
  write_u8 (output_features_as_u8 f).

Section ReadFeatures.
  Context {R : Type} `{!Reader R}.

(** [KernelFeatures::read_v1]: unused fields must be zero. *)
Definition kernel_read_v1 : R -> res Error (KernelFeatures * R) :=
  let! feature_byte := read_u8 in
  let! fee := read_u64 in
  let! lock_height := read_u64 in
  if feature_byte =? PLAIN_U8 then
    if negb (lock_height =? 0) then read_fail CorruptedData else read_ret (KPlain fee)
  else if feature_byte =? COINBASE_U8 then
    if negb (fee =? 0) then read_fail CorruptedData
    else if negb (lock_height =? 0) then read_fail CorruptedData
    else read_ret KCoinbase
  else if feature_byte =? HEIGHT_LOCKED_U8 then read_ret (KHeightLocked fee lock_height)
  else read_fail CorruptedData.

(** [KernelFeatures::read_v2] *)
Definition kernel_read_v2 : R -> res Error (KernelFeatures * R) :=
  let! feature_byte := read_u8 in
  if feature_byte =? PLAIN_U8 then
    let! fee := read_u64 in read_ret (KPlain fee)
  else if feature_byte =? COINBASE_U8 then read_ret KCoinbase
  else if feature_byte =? HEIGHT_LOCKED_U8 then
    let! fee := read_u64 in
    let! lock_height := read_u64 in
    read_ret (KHeightLocked fee lock_height)
  else read_fail CorruptedData.

(** [KernelFeatures::read] *)
Definition kernel_features_read : R -> res Error (KernelFeatures * R) :=
  let! version := read_version in
  if version <=? 1 then kernel_read_v1 else kernel_read_v2.

(** [TokenKernelFeatures::read] *)
Definition token_kernel_features_read : R -> res Error (TokenKernelFeatures * R) :=
  let! feature_byte := read_u8 in
  if feature_byte =? PLAIN_TOKEN_U8 then read_ret PlainToken
  else if feature_byte =? ISSUE_TOKEN_U8 then read_ret IssueToken
  else if feature_byte =? HEIGHT_LOCKED_U8 then
    let! lock_height := read_u64 in read_ret (HeightLockedToken lock_height)
  else read_fail CorruptedData.

(** [OutputFeatures::read] *)
Definition output_features_read : R -> res Error (OutputFeatures * R) :=
  let! n := read_u8 in
  match output_features_from_u8 n with
  | Some f => read_ret f
  | None => read_fail CorruptedData
  end.
End ReadFeatures.

(** ** Records *)

Record TxKernel := mkTxKernel {
  features : KernelFeatures; excess : Commitment; excess_sig : Signature }.

Record TokenTxKernel := mkTokenTxKernel {
  token_features : TokenKernelFeatures; kernel_token_type : TokenKey;
  token_excess : Commitment; token_excess_sig : Signature }.

Record Input := mkInput { input_features : OutputFeatures; input_commit : Commitment }.

Record TokenInput := mkTokenInput {
  token_input_features : OutputFeatures; input_token_type : TokenKey;
  token_input_commit : Commitment }.

Record Output := mkOutput {
  output_features : OutputFeatures; output_commit : Commitment; output_proof : RangeProof }.

Record TokenOutput := mkTokenOutput {
  token_output_features : OutputFeatures; output_token_type : TokenKey;
  token_output_commit : Commitment; token_output_proof : RangeProof }.

#[export] Instance tx_kernel_eq_dec : EqDecision TxKernel.
Proof. solve_decision. Defined.

(** Feature predicates of kernels, inputs and outputs. *)
Definition is_coinbase_kernel (k : TxKernel) : bool :=
  match features k with KCoinbase => true | _ => false end.
Definition is_plain_kernel (k : TxKernel) : bool :=
  match features k with KPlain _ => true | _ => false end.
Definition is_height_locked_kernel (k : TxKernel) : bool :=
  match features k with KHeightLocked _ _ => true | _ => false end.
Definition is_issue_token (k : TokenTxKernel) : bool :=
  match token_features k with IssueToken => true | _ => false end.
Definition is_plain_token (k : TokenTxKernel) : bool :=
  match token_features k with PlainToken => true | _ => false end.
Definition is_height_locked_token (k : TokenTxKernel) : bool :=
  match token_features k with HeightLockedToken _ => true | _ => false end.
Definition of_is_coinbase (f : OutputFeatures) : bool := bool_decide (f = OCoinbase).
Definition of_is_plain (f : OutputFeatures) : bool := bool_decide (f = OPlain).
Definition of_is_tokenissue (f : OutputFeatures) : bool := bool_decide (f = OTokenIssue).
Definition of_is_token (f : OutputFeatures) : bool := bool_decide (f = OToken).

(** *** Writing *)

#[export] Instance write_hash : Writeable bytes := fun _ h => write_fixed_bytes h.
#[export] Instance write_token_key : Writeable TokenKey := fun w k => write w (token_hash k).
#[export] Instance write_commitment : Writeable Commitment := fun _ c => write_fixed_bytes (commit_bytes c).
#[export] Instance write_signature : Writeable Signature := fun _ s => write_fixed_bytes (sig_bytes s).
#[export] Instance write_blinding : Writeable BlindingFactor := fun _ b => write_fixed_bytes (blind_bytes b).
#[export] Instance write_rangeproof : Writeable RangeProof := fun _ p => write_bytes (proof_slice p).

#[export] Instance write_tx_kernel : Writeable TxKernel := fun w k =>
  write w (features k) ++ write w (excess k) ++ write w (excess_sig k).

#[export] Instance write_token_tx_kernel : Writeable TokenTxKernel := fun w k =>
  write w (token_features k) ++ write w (kernel_token_type k)
  ++ write w (token_excess k) ++ write w (token_excess_sig k).

#[export] Instance write_input : Writeable Input := fun w i =>
  write w (input_features i) ++ write w (input_commit i).

#[export] Instance write_token_input : Writeable TokenInput := fun w i =>
  write w (token_input_features i) ++ write w (input_token_type i) ++ write w (token_input_commit i).

(** The hash of an output leaves out the range proof. *)
#[export] Instance write_output : Writeable Output := fun w o =>
  write w (output_features o) ++ write w (output_commit o)
  ++ (if negb (bool_decide (serialization_mode w = HashMode))
      then write_bytes (proof_slice (output_proof o)) else []).

#[export] Instance write_token_output : Writeable TokenOutput := fun w o =>
  write w (token_output_features o) ++ write w (output_token_type o)
  ++ write w (token_output_commit o)
  ++ (if negb (bool_decide (serialization_mode w = HashMode))
      then write_bytes (proof_slice (token_output_proof o)) else []).

(** *** Reading *)

Section ReadRecords.
  Context {SS : SecpSizes} {R : Type} `{!Reader R}.

Definition hash_read : R -> res Error (bytes * R) := read_fixed_bytes 32.

Definition token_key_read : R -> res Error (TokenKey * R) :=
  let! h := hash_read in read_ret (mkTokenKey h).

Definition commitment_read : R -> res Error (Commitment * R) :=
  let! a := read_fixed_bytes (Z.of_nat PEDERSEN_COMMITMENT_SIZE) in read_ret (mkCommitment a).

Definition signature_read : R -> res Error (Signature * R) :=
  let! a := read_fixed_bytes (Z.of_nat AGG_SIGNATURE_SIZE) in read_ret (mkSignature a).

Definition blinding_read : R -> res Error (BlindingFactor * R) :=
  let! a := read_fixed_bytes (Z.of_nat SECRET_KEY_SIZE) in read_ret (mkBlinding a).

(** [RangeProof::read]: at most [MAX_PROOF_SIZE] bytes, zero padded; the length
    in use becomes the size of the buffer. *)
Definition rangeproof_read : R -> res Error (RangeProof * R) :=
  let! len := read_u64 in
  let max_len := Z.min len (Z.of_nat MAX_PROOF_SIZE) in
  let! p := read_fixed_bytes max_len in
  read_ret (mkRangeProof (p ++ replicate (MAX_PROOF_SIZE - length p) 0) MAX_PROOF_SIZE).

Definition tx_kernel_read : R -> res Error (TxKernel * R) :=
  let! f := kernel_features_read in
  let! e := commitment_read in
  let! s := signature_read in
  read_ret (mkTxKernel f e s).

Definition token_tx_kernel_read : R -> res Error (TokenTxKernel * R) :=
  let! f := token_kernel_features_read in
  let! t := token_key_read in
  let! e := commitment_read in
  let! s := signature_read in
  read_ret (mkTokenTxKernel f t e s).

Definition input_read : R -> res Error (Input * R) :=
  let! f := output_features_read in
  let! c := commitment_read in
  read_ret (mkInput f c).

Definition token_input_read : R -> res Error (TokenInput * R) :=
  let! f := output_features_read in
  let! t := token_key_read in
  let! c := commitment_read in
  read_ret (mkTokenInput f t c).

Definition output_read : R -> res Error (Output * R) :=
  let! f := output_features_read in
  let! c := commitment_read in
  let! p := rangeproof_read in
  read_ret (mkOutput f c p).

Definition token_output_read : R -> res Error (TokenOutput * R) :=
  let! f := output_features_read in
  let! t := token_key_read in
  let! c := commitment_read in
  let! p := rangeproof_read in
  read_ret (mkTokenOutput f t c p).
End ReadRecords.

(** ** Well-formed values: fields in range, byte strings of the right size *)

Definition wf_kernel_features (k : KernelFeatures) : Prop :=
  match k with
  | KPlain fee => is_u64 fee
  | KCoinbase => True
  | KHeightLocked fee lock_height => is_u64 fee /\ is_u64 lock_height
  end.

Definition wf_token_kernel_features (k : TokenKernelFeatures) : Prop :=
  match k with HeightLockedToken lock_height => is_u64 lock_height | _ => True end.

Section WellFormed.
  Context {SS : SecpSizes}.

Definition wf_commitment (c : Commitment) : Prop := length (commit_bytes c) = PEDERSEN_COMMITMENT_SIZE.
Definition wf_signature (s : Signature) : Prop := length (sig_bytes s) = AGG_SIGNATURE_SIZE.
Definition wf_blinding (b : BlindingFactor) : Prop := length (blind_bytes b) = SECRET_KEY_SIZE.
Definition wf_token_key (k : TokenKey) : Prop := length (token_hash k) = HASH_LEN.
Definition wf_rangeproof (p : RangeProof) : Prop :=
  length (proof_bytes p) = MAX_PROOF_SIZE /\ plen p = MAX_PROOF_SIZE.

Definition wf_tx_kernel (k : TxKernel) : Prop :=
  wf_kernel_features (features k) /\ wf_commitment (excess k) /\ wf_signature (excess_sig k).
Definition wf_token_tx_kernel (k : TokenTxKernel) : Prop :=
  wf_token_kernel_features (token_features k) /\ wf_token_key (kernel_token_type k) /\
  wf_commitment (token_excess k) /\ wf_signature (token_excess_sig k).
Definition wf_input (i : Input) : Prop := wf_commitment (input_commit i).
Definition wf_token_input (i : TokenInput) : Prop :=
  wf_token_key (input_token_type i) /\ wf_commitment (token_input_commit i).
Definition wf_output (o : Output) : Prop :=
  wf_commitment (output_commit o) /\ wf_rangeproof (output_proof o).
Definition wf_token_output (o : TokenOutput) : Prop :=
  wf_token_key (output_token_type o) /\ wf_commitment (token_output_commit o) /\
  wf_rangeproof (token_output_proof o).
End WellFormed.

(** ** Round trips *)

(** Ranges of constants. *)
Ltac const_range := vm_compute; split; congruence.

Ltac reads_step :=
  first
    [ eapply reads_bind_last; [solve [eauto with ser]|cbv beta; apply reads_ret]
    | eapply reads_bind; [solve [eauto with ser]|cbv beta] ].
Ltac reads_all := repeat reads_step.

Section RoundTrips.
  Context {SS : SecpSizes} {R : Type} `{!Reader R} `{!ReaderLaws R}.
  Implicit Types (v : Z).

Lemma reads_wrapped {A} v n (bs : bytes) (f : bytes -> A) a :
  Z.of_nat (length bs) = n -> n <= 100000 -> f bs = a ->
  reads (R := R) v (let! b := read_fixed_bytes n in read_ret (f b)) bs a.
Proof. intros H1 H2 <-. eapply reads_bind_last; [apply reads_fixed; done|apply reads_ret]. Qed.

Lemma reads_commitment v w c :
  wf_commitment c -> reads (R := R) v commitment_read (write w c) c.
Proof.
  intros H. apply reads_wrapped; [rewrite <- H; done|apply sizes_bounded|destruct c; done].
Qed.

Lemma reads_signature v w s :
  wf_signature s -> reads (R := R) v signature_read (write w s) s.
Proof.
  intros H. apply reads_wrapped; [rewrite <- H; done|apply sizes_bounded|destruct s; done].
Qed.

Lemma reads_blinding v w b :
  wf_blinding b -> reads (R := R) v blinding_read (write w b) b.
Proof.
  intros H. apply reads_wrapped; [rewrite <- H; done|apply sizes_bounded|destruct b; done].
Qed.

Lemma reads_token_key v w k :
  wf_token_key k -> reads (R := R) v token_key_read (write w k) k.
Proof.
  intros H. apply reads_wrapped; [|lia|destruct k; done].
  unfold wf_token_key in H. change (write w k) with (token_hash k). rewrite H. done.
Qed.

Lemma reads_output_features v w f : reads (R := R) v output_features_read (write w f) f.
Proof.
  eapply reads_bind_last; [apply reads_u8; destruct f; cbn; lia|]. destruct f; apply reads_ret.
Qed.

Lemma reads_token_kernel_features v w k :
  wf_token_kernel_features k -> reads (R := R) v token_kernel_features_read (write w k) k.
Proof.
  intros H. destruct k.
  - eapply reads_bind_last; [apply reads_u8; const_range|apply reads_ret].
  - eapply reads_bind_last; [apply reads_u8; const_range|apply reads_ret].
  - eapply reads_bind; [apply reads_u8; const_range|]. cbn [Z.eqb].
    eapply reads_bind_last; [apply reads_u64, H|apply reads_ret].
Qed.

Lemma reads_kernel_v1 v k :
  wf_kernel_features k -> reads (R := R) v kernel_read_v1 (kernel_write_v1 k) k.
Proof.
  intros H. assert (H0 : is_u64 0) by (split; lia).
  destruct k; cbn in H; (eapply reads_bind; [apply reads_u8; const_range|]);
    (eapply reads_bind; [apply reads_u64; first [exact H | apply H | exact H0]|]);
    (eapply reads_bind_last; [apply reads_u64; first [exact H0 | apply H]|]); apply reads_ret.
Qed.

Lemma reads_kernel_v2 v k :
  wf_kernel_features k -> reads (R := R) v kernel_read_v2 (kernel_write_v2 k) k.
Proof.
  intros H. destruct k; cbn in H.
  - eapply reads_bind; [apply reads_u8; const_range|].
    eapply reads_bind_last; [apply reads_u64, H|apply reads_ret].
  - eapply reads_bind_last; [apply reads_u8; const_range|apply reads_ret].
  - eapply reads_bind; [apply reads_u8; const_range|].
    eapply reads_bind; [apply reads_u64, H|].
    eapply reads_bind_last; [apply reads_u64, H|apply reads_ret].
Qed.

Lemma reads_kernel_features v k :
  wf_kernel_features k -> reads (R := R) v kernel_features_read (write (bin_writer v) k) k.
Proof.
  intros H. eapply reads_bind_silent; [apply reads_version|].
  unfold write, write_kernel_features. cbn [serialization_mode bin_writer writer_version].
  rewrite bool_decide_false by done.
  destruct (v <=? 1); [apply reads_kernel_v1|apply reads_kernel_v2]; done.
Qed.

Lemma reads_rangeproof v p :
  wf_rangeproof p -> reads (R := R) v rangeproof_read (write_bytes (proof_slice p)) p.
Proof.
  intros [Hl Hp]. pose proof (proj2 (proj2 (proj2 sizes_bounded))) as Hb.
  assert (Es : proof_slice p = proof_bytes p) by (unfold proof_slice; rewrite take_ge; [done|lia]).
  unfold write_bytes. rewrite Es, Hl. eapply reads_bind; [apply reads_u64; lia|]. cbv zeta.
  rewrite Z.min_id. eapply reads_bind_last; [apply reads_fixed; [unfold write_fixed_bytes; lia|lia]|].
  unfold write_fixed_bytes. rewrite Hl, Nat.sub_diag, app_nil_r. destruct p; cbn in *. subst.
  apply reads_ret.
Qed.
End RoundTrips.

#[export] Hint Resolve reads_commitment reads_signature reads_blinding reads_token_key
  reads_output_features reads_token_kernel_features reads_kernel_features reads_rangeproof : ser.

Section RecordRoundTrips.
  Context {SS : SecpSizes} {R : Type} `{!Reader R} `{!ReaderLaws R}.
  Implicit Types (v : Z).

Lemma reads_tx_kernel v k :
  wf_tx_kernel k -> reads (R := R) v tx_kernel_read (write (bin_writer v) k) k.
Proof. intros (H1 & H2 & H3). destruct k. unfold write, write_tx_kernel. reads_all. Qed.

Lemma reads_token_tx_kernel v k :
  wf_token_tx_kernel k -> reads (R := R) v token_tx_kernel_read (write (bin_writer v) k) k.
Proof. intros (H1 & H2 & H3 & H4). destruct k. unfold write, write_token_tx_kernel. reads_all. Qed.

Lemma reads_input v i : wf_input i -> reads (R := R) v input_read (write (bin_writer v) i) i.
Proof. intros H. destruct i. unfold write, write_input. reads_all. Qed.

Lemma reads_token_input v i :
  wf_token_input i -> reads (R := R) v token_input_read (write (bin_writer v) i) i.
Proof. intros (H1 & H2). destruct i. unfold write, write_token_input. reads_all. Qed.

Lemma reads_output v o : wf_output o -> reads (R := R) v output_read (write (bin_writer v) o) o.
Proof.
  intros (H1 & H2). destruct o. unfold write, write_output. cbn [serialization_mode bin_writer].
  rewrite bool_decide_false by done. cbn [negb]. reads_all.
Qed.

Lemma reads_token_output v o :
  wf_token_output o -> reads (R := R) v token_output_read (write (bin_writer v) o) o.
Proof.
  intros (H1 & H2 & H3). destruct o. unfold write, write_token_output.
  cbn [serialization_mode bin_writer]. rewrite bool_decide_false by done. cbn [negb]. reads_all.
Qed.
End RecordRoundTrips.

(** ** Properties *)

Section Claims.
  Context {SS : SecpSizes} {R : Type} `{!Reader R} `{!ReaderLaws R}.
  Implicit Types (v : Z).

(** Take one read off a successful parse. *)
Ltac unread H Hv Hb lem :=
  let x := fresh "x" in let r := fresh "r" in let E1 := fresh "E" in let Hn := fresh "Hn" in
  apply read_bind_inv in H as (x & r & E1 & H);
  apply (lem _ _ _ _ Hv Hb) in E1 as [E1 Hn]; clear Hv; rename Hn into Hv;
  rewrite E1 in Hb; apply are_bytes_app in Hb as [_ Hb]; rewrite E1; clear E1.

Ltac encoded H :=
  injection H as <- <-; split; [|assumption];
  unfold kernel_write_v1, kernel_write_v2; cbv iota; rewrite <- ?app_assoc; reflexivity.

Lemma kernel_v1_canonical v : canonical (R := R) v kernel_read_v1 kernel_write_v1.
Proof.
  intros r a r' Hv Hb H. unfold kernel_read_v1 in H. unfold canonical in *.
  unread H Hv Hb (canonical_u8 (R := R)). unread H Hv Hb (canonical_u64 (R := R)).
  unread H Hv Hb (canonical_u64 (R := R)).
  destruct (Z.eqb_spec x PLAIN_U8) as [->|]; [|destruct (Z.eqb_spec x COINBASE_U8) as [->|];
    [|destruct (Z.eqb_spec x HEIGHT_LOCKED_U8) as [->|]; [|done]]].
  - destruct (Z.eqb_spec x1 0) as [->|]; [|done]. encoded H.
  - destruct (Z.eqb_spec x0 0) as [->|]; [|done]. destruct (Z.eqb_spec x1 0) as [->|]; [|done].
    encoded H.
  - encoded H.
Qed.

Lemma kernel_v2_canonical v : canonical (R := R) v kernel_read_v2 kernel_write_v2.
Proof.
  intros r a r' Hv Hb H. unfold kernel_read_v2 in H. unread H Hv Hb (canonical_u8 (R := R)).
  destruct (Z.eqb_spec x PLAIN_U8) as [->|]; [|destruct (Z.eqb_spec x COINBASE_U8) as [->|];
    [|destruct (Z.eqb_spec x HEIGHT_LOCKED_U8) as [->|]; [|done]]].
  - unread H Hv Hb (canonical_u64 (R := R)). encoded H.
  - encoded H.
  - unread H Hv Hb (canonical_u64 (R := R)). unread H Hv Hb (canonical_u64 (R := R)).
    encoded H.
Qed.

(** Kernel features have exactly one encoding in each protocol version: what is written is read
    back by every reader, and whatever bytes a reader accepts are the encoding of the value it
    returns, so unused fields cannot be used to vary a kernel. *)
Theorem kernel_features_encoding v :
  (forall k, wf_kernel_features k ->
    reads (R := R) v kernel_features_read (write (bin_writer v) k) k) /\
  canonical (R := R) v kernel_features_read (write (bin_writer v)).
Proof.
  split; [intros; apply reads_kernel_features; done|].
  intros r a r' Hv Hb H. apply read_bind_inv in H as (x & r1 & [= <- <-] & H).
  unfold write, write_kernel_features. cbn [serialization_mode bin_writer writer_version].
  rewrite bool_decide_false by done. rewrite Hv in H.
  destruct (v <=? 1); [eapply kernel_v1_canonical|eapply kernel_v2_canonical]; done.
Qed.

(** Kernels, inputs, outputs and their token variants that are well formed are read back by every
    reader of the version they were written in. *)
Theorem records_roundtrip v :
  (forall k, wf_tx_kernel k -> reads (R := R) v tx_kernel_read (write (bin_writer v) k) k) /\
  (forall k, wf_token_tx_kernel k ->
    reads (R := R) v token_tx_kernel_read (write (bin_writer v) k) k) /\
  (forall i, wf_input i -> reads (R := R) v input_read (write (bin_writer v) i) i) /\
  (forall i, wf_token_input i -> reads (R := R) v token_input_read (write (bin_writer v) i) i) /\
  (forall o, wf_output o -> reads (R := R) v output_read (write (bin_writer v) o) o) /\
  (forall o, wf_token_output o -> reads (R := R) v token_output_read (write (bin_writer v) o) o).
Proof.
  split; [intros; apply reads_tx_kernel; done|]. split; [intros; apply reads_token_tx_kernel; done|].
  split; [intros; apply reads_input; done|]. split; [intros; apply reads_token_input; done|].
  split; [intros; apply reads_output; done|]. intros; apply reads_token_output; done.
Qed.
End Claims.

(** The hash of a kernel does not depend on the protocol version, and the hash of an output does
    not depend on its range proof. *)
Theorem hashes_commit_to_identity `{!Digest} :
  (forall k : TxKernel,
    hash k = blake2b (kernel_write_v1 (features k) ++ commit_bytes (excess k) ++ sig_bytes (excess_sig k))) /\
  (forall f c p q, hash (mkOutput f c p) = hash (mkOutput f c q)) /\
  (forall f t c p q, hash (mkTokenOutput f t c p) = hash (mkTokenOutput f t c q)).
Proof. split; [|split]; reflexivity. Qed.
