(* ===== verification/TxBody.v ===== *)
(** * Transaction bodies

    Models [TransactionBody] and [Transaction] of
    [core/src/core/transaction.rs]: construction, weights, the verification
    steps that need no curve arithmetic, and both binary forms.

    Inputs, outputs and kernels are ordered and compared by their hash
    ([hashable_ord!] of [core/src/macros.rs]); the hash function is the
    parameter [Digest]. *)

From Stdlib Require Import ZArith Lia List Bool Sorted Permutation.
From stdpp Require Import base numbers list option gmap.
From S2P Require Import Prelude Bytes Consensus Ser Transaction.

(** ** Errors *)

(** [committed::Error]; the errors of the curve library carry no payload here. *)
Inductive CommittedError := CKeychain | CSecp | CKernelSumMismatch | CInvalidValue | CTokenSumMismatch.

(** [transaction::Error] *)
Inductive TxError :=
| TxSecp
| TxKeychain
| KernelSumMismatch
| TooHeavy
| LockHeight (h : Z)
| TxRangeProof
| TxMerkleProof
| InvalidProofMessage
| TxCommitted (e : CommittedError)
| AggregationError
| CutThrough
| InvalidOutputFeatures
| InvalidKernelFeatures
| InvalidTokenKernelFeatures
| IncorrectSignature
| Serialization (e : Error)
| TokenTypeMismatch
| IssueTokenKeyRepeated
| IssueTokenSumMismatch
| UnreachTokenSupportHeight.

Inductive Weighting :=
| AsTransaction
| AsLimitedTransaction (max_weight : Z)
| AsBlock
| NoLimit.

Record TransactionBody := mkBody {
  inputs : list Input;
  token_inputs : list TokenInput;
  outputs : list Output;
  token_outputs : list TokenOutput;
  kernels : list TxKernel;
  token_kernels : list TokenTxKernel
}.

Record Transaction := mkTx { offset : BlindingFactor; body : TransactionBody }.

(** [TransactionBody::empty] *)
Definition empty_body : TransactionBody := mkBody [] [] [] [] [] [].

(** ** Order by hash *)

Section Order.
  Context {DG : Digest} {A : Type} `{!Writeable A}.

(** [hashable_ord!]: [cmp], [eq] *)
Definition cmp (a b : A) : comparison := bytes_compare (hash a) (hash b).
Definition eqb (a b : A) : bool := bool_decide (hash a = hash b).

(** [sort_unstable], as an insertion sort. *)
Fixpoint sort_insert (x : A) (l : list A) : list A :=
  match l with
  | [] => [x]
  | y :: l' => match cmp x y with Gt => y :: sort_insert x l' | _ => x :: l end
  end.

Fixpoint sort_unstable (l : list A) : list A :=
  match l with
  | [] => []
  | x :: l => sort_insert x (sort_unstable l)
  end.

(** [VerifySortedAndUnique::verify_sorted_and_unique] *)
Definition verify_sorted_and_unique (l : list A) : res Error unit :=
  verify_sorted_hashes (map hash l).

(** [if let Err(e) = v.binary_search(&x) { v.insert(e, x) }] *)
Definition insert_sorted (x : A) (l : list A) : list A :=
  match binary_search_by (fun y => cmp y x) l with
  | NotFound i => take i l ++ x :: drop i l
  | Found _ => l
  end.
End Order.

(** ** Weights *)

(** [TransactionBody::weight].  The lengths are [usize], 64 bits wide. *)
Definition weight (input_len output_len kernel_len
    token_input_len token_output_len token_kernel_len : Z) : Z :=
  let body_weight :=
    saturating_sub (saturating_add64 (saturating_mul64 output_len 4) kernel_len) input_len in
  let body_token_weight :=
    saturating_sub (saturating_add64 (saturating_mul64 token_output_len 4) token_kernel_len)
      token_input_len in
  Z.max (body_weight + body_token_weight)%u64 1.

(** [TransactionBody::weight_as_block] *)
Definition weight_as_block (input_len output_len kernel_len
    token_input_len token_output_len token_kernel_len : Z) : Z :=
  let weight :=
    saturating_add64
      (saturating_add64 (saturating_mul64 input_len BLOCK_INPUT_WEIGHT)
        (saturating_mul64 output_len BLOCK_OUTPUT_WEIGHT))
      (saturating_mul64 kernel_len BLOCK_KERNEL_WEIGHT) in
  let token_weight :=
    saturating_add64
      (saturating_add64 (saturating_mul64 token_input_len BLOCK_INPUT_WEIGHT)
        (saturating_mul64 token_output_len BLOCK_OUTPUT_WEIGHT))
      (saturating_mul64 token_kernel_len BLOCK_KERNEL_WEIGHT) in
  (weight + token_weight)%u64.

Definition len {A} (l : list A) : Z := Z.of_nat (length l).

(** [TransactionBody::body_weight], [body_weight_as_block] *)
Definition body_weight (b : TransactionBody) : Z :=
  weight (len (inputs b)) (len (outputs b)) (len (kernels b))
    (len (token_inputs b)) (len (token_outputs b)) (len (token_kernels b)).

Definition body_weight_as_block (b : TransactionBody) : Z :=
  weight_as_block (len (inputs b)) (len (outputs b)) (len (kernels b))
    (len (token_inputs b)) (len (token_outputs b)) (len (token_kernels b)).

(** ** Fees and lock heights *)

(** [TransactionBody::fee] *)
Definition kernel_fee (k : TxKernel) : option Z :=
  match features k with
  | KCoinbase => None
  | KPlain fee | KHeightLocked fee _ => Some fee
  end.

Definition fee (b : TransactionBody) : Z :=
  foldl saturating_add64 0 (omap kernel_fee (kernels b)).

(** [TransactionBody::overage]: [fee as i64] *)
Definition overage (b : TransactionBody) : Z := to_signed 64 (fee b).

(** [TransactionBody::lock_height] *)
Definition max_or_zero (l : list Z) : Z := foldr Z.max 0 l.

Definition lock_height (b : TransactionBody) : Z :=
  let kernel_height :=
    max_or_zero (omap (fun k => match features k with
      KHeightLocked _ h => Some h | _ => None end) (kernels b)) in
  let token_kernel_height :=
    max_or_zero (omap (fun k => match token_features k with
      HeightLockedToken h => Some h | _ => None end) (token_kernels b)) in
  if token_kernel_height <? kernel_height then kernel_height else token_kernel_height.

(** ** Verification *)

(** [TransactionBody::verify_weight] *)
Definition verify_weight (ct : ChainTypes) (b : TransactionBody) (weighting : Weighting)
    : res TxError unit :=
  let coinbase_weight := BLOCK_OUTPUT_WEIGHT + BLOCK_KERNEL_WEIGHT in
  let check max_weight :=
    if max_weight <? body_weight_as_block b then Err TooHeavy else Ok tt in
  match weighting with
  | AsTransaction => check (saturating_sub (max_block_weight ct) coinbase_weight)
  | AsLimitedTransaction max_weight =>
    check (saturating_sub (Z.min (max_block_weight ct) max_weight) coinbase_weight)
  | AsBlock => check (max_block_weight ct)
  | NoLimit => Ok tt
  end.

Section Verify.
  Context {DG : Digest}.
  Implicit Types (b : TransactionBody).

(** [TransactionBody::sort] *)
Definition sort_body b : TransactionBody :=
  mkBody (sort_unstable (inputs b)) (sort_unstable (token_inputs b))
    (sort_unstable (outputs b)) (sort_unstable (token_outputs b))
    (sort_unstable (kernels b)) (sort_unstable (token_kernels b)).

(** [TransactionBody::verify_sorted] *)
Definition verify_sorted b : res TxError unit :=
  let? _ := map_err Serialization (verify_sorted_and_unique (inputs b)) in
  let? _ := map_err Serialization (verify_sorted_and_unique (token_inputs b)) in
  let? _ := map_err Serialization (verify_sorted_and_unique (outputs b)) in
  let? _ := map_err Serialization (verify_sorted_and_unique (token_outputs b)) in
  let? _ := map_err Serialization (verify_sorted_and_unique (kernels b)) in
  let? _ := map_err Serialization (verify_sorted_and_unique (token_kernels b)) in
  Ok tt.

(** [TransactionBody::init] *)
Definition init (inputs : list Input) (outputs : list Output) (kernels : list TxKernel)
    (token_inputs : list TokenInput) (token_outputs : list TokenOutput)
    (token_kernels : list TokenTxKernel) (verify : bool) : res TxError TransactionBody :=
  let body := mkBody inputs token_inputs outputs token_outputs kernels token_kernels in
  if verify then let? _ := verify_sorted body in Ok body
  else Ok (sort_body body).

(** [TransactionBody::with_input] and its siblings *)
Definition with_input b (input : Input) : TransactionBody :=
  mkBody (insert_sorted input (inputs b)) (token_inputs b) (outputs b) (token_outputs b)
    (kernels b) (token_kernels b).
Definition with_output b (output : Output) : TransactionBody :=
  mkBody (inputs b) (token_inputs b) (insert_sorted output (outputs b)) (token_outputs b)
    (kernels b) (token_kernels b).
Definition with_token_input b (input : TokenInput) : TransactionBody :=
  mkBody (inputs b) (insert_sorted input (token_inputs b)) (outputs b) (token_outputs b)
    (kernels b) (token_kernels b).
Definition with_token_output b (output : TokenOutput) : TransactionBody :=
  mkBody (inputs b) (token_inputs b) (outputs b) (insert_sorted output (token_outputs b))
    (kernels b) (token_kernels b).
Definition with_kernel b (kernel : TxKernel) : TransactionBody :=
  mkBody (inputs b) (token_inputs b) (outputs b) (token_outputs b)
    (insert_sorted kernel (kernels b)) (token_kernels b).
Definition with_token_kernel b (kernel : TokenTxKernel) : TransactionBody :=
  mkBody (inputs b) (token_inputs b) (outputs b) (token_outputs b)
    (kernels b) (insert_sorted kernel (token_kernels b)).
Definition replace_kernel b (kernel : TxKernel) : TransactionBody :=
  mkBody (inputs b) (token_inputs b) (outputs b) (token_outputs b) [kernel] (token_kernels b).
Definition replace_token_kernel b (kernel : TokenTxKernel) : TransactionBody :=
  mkBody (inputs b) (token_inputs b) (outputs b) (token_outputs b) (kernels b) [kernel].

(** The merge of [TransactionBody::verify_cut_through] over peekable hashes. *)
Fixpoint verify_cut_through_loop (fuel : nat) (ins outs : list bytes) : res TxError unit :=
  match fuel with
  | O => Ok tt
  | S fuel =>
    match ins, outs with
    | ih :: ins', oh :: outs' =>
      match bytes_compare ih oh with
      | Lt => verify_cut_through_loop fuel ins' outs
      | Gt => verify_cut_through_loop fuel ins outs'
      | Eq => Err CutThrough
      end
    | _, _ => Ok tt
    end
  end.

(** [TransactionBody::verify_cut_through] *)
Definition verify_cut_through b : res TxError unit :=
  verify_cut_through_loop (length (inputs b) + length (outputs b))
    (map hash (inputs b)) (map hash (outputs b)).

(** [TransactionBody::verify_features] and its parts *)
Definition verify_output_features b : res TxError unit :=
  if existsb (fun x => negb (of_is_plain (output_features x))) (outputs b)
  then Err InvalidOutputFeatures else Ok tt.
Definition verify_token_input_features b : res TxError unit :=
  if existsb (fun x => negb (of_is_token (token_input_features x))
                       && negb (of_is_tokenissue (token_input_features x))) (token_inputs b)
  then Err InvalidOutputFeatures else Ok tt.
Definition verify_token_output_features b : res TxError unit :=
  if existsb (fun x => negb (of_is_token (token_output_features x))
                       && negb (of_is_tokenissue (token_output_features x))) (token_outputs b)
  then Err InvalidOutputFeatures else Ok tt.
Definition verify_kernel_features b : res TxError unit :=
  if existsb is_coinbase_kernel (kernels b) then Err InvalidKernelFeatures else Ok tt.

Definition verify_features b : res TxError unit :=
  let? _ := verify_output_features b in
  let? _ := verify_token_input_features b in
  let? _ := verify_token_output_features b in
  let? _ := verify_kernel_features b in
  Ok tt.

(** [TransactionBody::validate_read] *)
Definition validate_read (ct : ChainTypes) b (weighting : Weighting) : res TxError unit :=
  let? _ := verify_weight ct b weighting in
  let? _ := verify_sorted b in
  let? _ := verify_cut_through b in
  Ok tt.

(** [Transaction::validate_read] *)
Definition tx_validate_read (ct : ChainTypes) (tx : Transaction) : res TxError unit :=
  let? _ := validate_read ct (body tx) AsTransaction in
  let? _ := verify_features (body tx) in
  Ok tt.
End Verify.

(** [all(|x| set.insert(x))]: stops at the first repeated key. *)
Fixpoint insert_all_unique (keys : list TokenKey) (seen : list TokenKey) : option (list TokenKey) :=
  match keys with
  | [] => Some seen
  | k :: keys =>
    if existsb (fun x => bool_decide (x = k)) seen then None
    else insert_all_unique keys (k :: seen)
  end.

(** [TransactionBody::validate_issue_token_output] *)
Definition validate_issue_token_output (b : TransactionBody) : res TxError unit :=
  match insert_all_unique (map output_token_type
          (List.filter (fun x => of_is_tokenissue (token_output_features x)) (token_outputs b))) [] with
  | None => Err IssueTokenKeyRepeated
  | Some output_keys =>
    match insert_all_unique (map kernel_token_type
            (List.filter is_issue_token (token_kernels b))) [] with
    | None => Err IssueTokenKeyRepeated
    | Some kernel_keys =>
      if negb (length output_keys =? length kernel_keys)%nat then Err IssueTokenSumMismatch
      else if forallb (fun k => existsb (fun x => bool_decide (x = k)) kernel_keys) output_keys
      then Ok tt else Err IssueTokenSumMismatch
    end
  end.

(** [TransactionBody::validate_token_height] *)
Definition validate_token_height (ct : ChainTypes) (b : TransactionBody) (height : Z)
    : res TxError unit :=
  if (height <? support_token_height ct) && (0 <? len (token_kernels b))
  then Err UnreachTokenSupportHeight else Ok tt.

(** [Transaction::fee_to_weight] *)
Definition fee_to_weight (tx : Transaction) : Z :=
  (fee (body tx) * 1000)%u64 / body_weight (body tx).

(** ** Binary forms *)

(** [TransactionBody::write_v1]: without the token parts *)
Definition body_write_v1 (w : Writer) (b : TransactionBody) : bytes :=
  write_u64 (len (inputs b)) ++ write_u64 (len (outputs b)) ++ write_u64 (len (kernels b))
  ++ write w (inputs b) ++ write w (outputs b) ++ write w (kernels b).

(** [TransactionBody::write_v2] *)
Definition body_write_v2 (w : Writer) (b : TransactionBody) : bytes :=
  write_u64 (len (inputs b)) ++ write_u64 (len (token_inputs b))
  ++ write_u64 (len (outputs b)) ++ write_u64 (len (token_outputs b))
  ++ write_u64 (len (kernels b)) ++ write_u64 (len (token_kernels b))
  ++ write w (inputs b) ++ write w (token_inputs b) ++ write w (outputs b)
  ++ write w (token_outputs b) ++ write w (kernels b) ++ write w (token_kernels b).

#[export] Instance write_body : Writeable TransactionBody := fun w b =>
  if writer_version w <=? 1 then body_write_v1 w b else body_write_v2 w b.

#[export] Instance write_tx : Writeable Transaction := fun w tx =>
  write w (offset tx) ++ write w (body tx).

Section ReadBody.
  Context {DG : Digest} {SS : SecpSizes} {R : Type} `{!Reader R}.

(** Any failed check of a parsed body is reported as corrupted data. *)
Definition corrupted {A} (c : res TxError A) : R -> res Error (A * R) :=
  match c with Ok a => read_ret a | Err _ => read_fail CorruptedData | Panic => read_panic end.

(** [TransactionBody::read_v1] *)
Definition body_read_v1 (ct : ChainTypes) : R -> res Error (TransactionBody * R) :=
  let! input_len := read_u64 in
  let! output_len := read_u64 in
  let! kernel_len := read_u64 in
  let tx_block_weight := weight_as_block input_len output_len kernel_len 0 0 0 in
  if max_block_weight ct <? tx_block_weight then read_fail TooLargeReadErr
  else
    let! inputs := read_multi input_read input_len in
    let! outputs := read_multi output_read output_len in
    let! kernels := read_multi tx_kernel_read kernel_len in
    corrupted (init inputs outputs kernels [] [] [] true).

(** [TransactionBody::read_v2] *)
Definition body_read_v2 (ct : ChainTypes) : R -> res Error (TransactionBody * R) :=
  let! input_len := read_u64 in
  let! token_input_len := read_u64 in
  let! output_len := read_u64 in
  let! token_output_len := read_u64 in
  let! kernel_len := read_u64 in
  let! token_kernel_len := read_u64 in
  let tx_block_weight :=
    weight_as_block input_len output_len kernel_len
      token_input_len token_output_len token_kernel_len in
  if max_block_weight ct <? tx_block_weight then read_fail TooLargeReadErr
  else
    let! inputs := read_multi input_read input_len in
    let! token_inputs := read_multi token_input_read token_input_len in
    let! outputs := read_multi output_read output_len in
    let! token_outputs := read_multi token_output_read token_output_len in
    let! kernels := read_multi tx_kernel_read kernel_len in
    let! token_kernels := read_multi token_tx_kernel_read token_kernel_len in
    corrupted (init inputs outputs kernels token_inputs token_outputs token_kernels true).

(** [TransactionBody::read] *)
Definition body_read (ct : ChainTypes) : R -> res Error (TransactionBody * R) :=
  let! version := read_version in
  if version <=? 1 then body_read_v1 ct else body_read_v2 ct.

(** [Transaction::read] *)
Definition tx_read (ct : ChainTypes) : R -> res Error (Transaction * R) :=
  let! offset := blinding_read in
  let! body := body_read ct in
  let tx := mkTx offset body in
  let! _ := corrupted (tx_validate_read ct tx) in
  read_ret tx.
End ReadBody.

(** ** Weights: exact while the lengths are small *)

Definition exact_weight (input_len output_len kernel_len
    token_input_len token_output_len token_kernel_len : Z) : Z :=
  BLOCK_INPUT_WEIGHT * (input_len + token_input_len)
  + BLOCK_OUTPUT_WEIGHT * (output_len + token_output_len)
  + BLOCK_KERNEL_WEIGHT * (kernel_len + token_kernel_len).

Lemma weight_as_block_exact i o k ti to tk :
  0 <= i <= 1000000 -> 0 <= o <= 1000000 -> 0 <= k <= 1000000 ->
  0 <= ti <= 1000000 -> 0 <= to <= 1000000 -> 0 <= tk <= 1000000 ->
  weight_as_block i o k ti to tk = exact_weight i o k ti to tk.
Proof.
  intros. unfold weight_as_block, exact_weight, saturating_add64, saturating_mul64, u64_max,
    BLOCK_INPUT_WEIGHT, BLOCK_OUTPUT_WEIGHT, BLOCK_KERNEL_WEIGHT.
  rewrite !Z.min_l by lia. autorewrite with u64. lia.
Qed.

(** ** Sorted collections *)

Definition bytes_le (a b : bytes) : Prop := bytes_compare a b <> Gt.

Lemma bytes_le_lt_trans a b c : bytes_le a b -> bytes_lt b c -> bytes_lt a c.
Proof.
  unfold bytes_le, bytes_lt. destruct (bytes_compare a b) eqn:E1; intros H1 H2; try done.
  - apply bytes_compare_eq in E1 as ->. done.
  - eapply bytes_compare_trans; done.
Qed.

Lemma bytes_lt_le_trans a b c : bytes_lt a b -> bytes_le b c -> bytes_lt a c.
Proof.
  unfold bytes_le, bytes_lt. destruct (bytes_compare b c) eqn:E1; intros H1 H2; try done.
  - apply bytes_compare_eq in E1 as <-. done.
  - eapply bytes_compare_trans; done.
Qed.

Lemma bytes_lt_le a b : bytes_lt a b -> bytes_le a b.
Proof. unfold bytes_lt, bytes_le. intros ->. done. Qed.

Lemma bytes_gt_lt a b : bytes_compare a b = Gt -> bytes_lt b a.
Proof. intros H. unfold bytes_lt. rewrite bytes_compare_antisym, H. done. Qed.

Lemma bytes_lt_neq a b : bytes_lt a b -> a <> b.
Proof. intros H ->. unfold bytes_lt in H. rewrite bytes_compare_refl in H. done. Qed.

Lemma sorted_lt_le l : StronglySorted bytes_lt l -> StronglySorted bytes_le l.
Proof.
  induction 1 as [|a l Hs IH Hl]; constructor; [done|].
  eapply List.Forall_impl; [|exact Hl]. intros b. apply bytes_lt_le.
Qed.

(** An element below the head of a sorted list is not in it. *)
Lemma below_head x b l :
  StronglySorted bytes_le (b :: l) -> bytes_lt x b -> ~ In x (b :: l).
Proof.
  intros H Hlt [->|Hin]; [exact (bytes_lt_neq _ _ Hlt eq_refl)|].
  inversion H as [|? ? Hs Hf]; subst. pose proof (proj1 (List.Forall_forall _ _) Hf x Hin) as Hle.
  exact (bytes_lt_neq _ _ (bytes_lt_le_trans _ _ _ Hlt Hle) eq_refl).
Qed.

Lemma verify_cut_through_loop_spec fuel ins outs :
  (length ins + length outs <= fuel)%nat ->
  StronglySorted bytes_le ins -> StronglySorted bytes_le outs ->
  verify_cut_through_loop fuel ins outs = Ok tt /\ (forall h, In h ins -> ~ In h outs) \/
  verify_cut_through_loop fuel ins outs = Err CutThrough /\ (exists h, In h ins /\ In h outs).
Proof.
  revert ins outs; induction fuel as [|fuel IH]; intros ins outs Hf Hi Ho.
  { destruct ins; [|simpl in Hf; lia]. left. split; [done|]. intros h []. }
  destruct ins as [|ih ins]; [left; split; [done|intros h []]|].
  destruct outs as [|oh outs]; [left; split; [done|intros h _ []]|].
  cbn [verify_cut_through_loop]. cbn [length] in Hf.
  pose proof Hi as Hi0. pose proof Ho as Ho0.
  apply StronglySorted_inv in Hi as [Hi _]. apply StronglySorted_inv in Ho as [Ho _].
  destruct (bytes_compare ih oh) eqn:Ec.
  - right. split; [done|]. apply bytes_compare_eq in Ec as ->. exists oh. split; left; done.
  - pose proof (below_head ih oh outs Ho0 Ec) as Hout.
    destruct (IH ins (oh :: outs)) as [[-> Hd]|[-> (h & H1 & H2)]]; [simpl; lia|done|done| |].
    + left. split; [done|]. intros h [<-|Hh]; [done|]. apply Hd, Hh.
    + right. split; [done|]. exists h. split; [right; done|done].
  - pose proof (below_head oh ih ins Hi0 (bytes_gt_lt _ _ Ec)) as Hout.
    destruct (IH (ih :: ins) outs) as [[-> Hd]|[-> (h & H1 & H2)]]; [simpl; lia|done|done| |].
    + left. split; [done|]. intros h Hh [<-|Hin]; [done|]. exact (Hd h Hh Hin).
    + right. split; [done|]. exists h. split; [done|right; done].
Qed.

Section SortLemmas.
  Context {DG : Digest} {A : Type} `{!Writeable A}.
  Implicit Types (l : list A).

Lemma sort_insert_perm (x : A) l : Permutation (sort_insert x l) (x :: l).
Proof.
  induction l as [|y l IH]; simpl; [done|]. destruct (cmp x y); [done|done|].
  rewrite IH. apply perm_swap.
Qed.

Lemma sort_unstable_perm l : Permutation (sort_unstable l) l.
Proof. induction l as [|x l IH]; simpl; [done|]. rewrite sort_insert_perm, IH. done. Qed.

Lemma sort_insert_sorted (x : A) l :
  StronglySorted bytes_le (map hash l) -> StronglySorted bytes_le (map hash (sort_insert x l)).
Proof.
  induction l as [|y l IH]; simpl; intros Hs; [repeat constructor|].
  apply StronglySorted_inv in Hs as [Hs Hf].
  assert (Hxle : bytes_le (hash x) (hash y) -> StronglySorted bytes_le (map hash (x :: y :: l))).
  { intros Hle. simpl. constructor; [constructor; done|]. constructor; [done|].
    eapply List.Forall_impl; [|exact Hf]. intros z Hz.
    unfold bytes_le in *. destruct (bytes_compare (hash x) (hash y)) eqn:E1; [| |done].
    - apply bytes_compare_eq in E1 as ->. done.
    - apply bytes_lt_le. eapply bytes_lt_le_trans; done. }
  destruct (cmp x y) eqn:Ec; [apply Hxle; unfold bytes_le; unfold cmp in Ec; congruence..|].
  simpl. constructor; [apply IH, Hs|].
  apply List.Forall_forall. intros z Hz. apply in_map_iff in Hz as (u & <- & Hu).
  apply (Permutation_in _ (sort_insert_perm x l)) in Hu. destruct Hu as [<-|Hu].
  - apply bytes_lt_le, bytes_gt_lt, Ec.
  - apply (proj1 (List.Forall_forall _ _) Hf), in_map, Hu.
Qed.

Lemma sort_unstable_sorted l : StronglySorted bytes_le (map hash (sort_unstable l)).
Proof. induction l as [|x l IH]; simpl; [constructor|]. apply sort_insert_sorted, IH. Qed.

(** Strictly sorted by hash, as [verify_sorted_and_unique] demands. *)
Definition sorted_unique l : Prop := StronglySorted bytes_lt (map hash l).

Lemma verify_sorted_and_unique_iff l : verify_sorted_and_unique l = Ok tt <-> sorted_unique l.
Proof. apply verify_sorted_hashes_iff. Qed.

(** Inserting keeps the order and adds the element unless its hash is present. *)
Lemma insert_sorted_spec (x : A) l :
  sorted_unique l -> sorted_unique (insert_sorted x l) /\
  (forall h, In h (map hash (insert_sorted x l)) <-> h = hash x \/ In h (map hash l)) /\
  (In (hash x) (map hash l) -> insert_sorted x l = l).
Proof.
  unfold sorted_unique, insert_sorted. induction l as [|y l IH]; intros Hs.
  { simpl. split; [repeat constructor|]. split; [|done]. intros h; split; intros [?|?]; auto. }
  cbn [binary_search_by]. cbn [map] in Hs. apply StronglySorted_inv in Hs as [Hs Hf].
  destruct (cmp y x) eqn:Ec; unfold cmp in Ec.
  - apply bytes_compare_eq in Ec. split; [constructor; done|]. split; [|done].
    intros h. cbn [map In]. rewrite Ec. naive_solver.
  - destruct (IH Hs) as (IH1 & IH2 & IH3).
    destruct (binary_search_by (fun y0 => cmp y0 x) l) as [i|i] eqn:Eb.
    + split; [constructor; done|]. split; [|done].
      intros h. cbn [map In]. rewrite (IH2 h). naive_solver.
    + cbn [take drop app map]. split; [constructor; [done|]|].
      * apply List.Forall_forall. intros h Hh. apply IH2 in Hh as [->|Hh]; [exact Ec|].
        apply (proj1 (List.Forall_forall _ _) Hf), Hh.
      * split.
        -- intros h. cbn [In]. rewrite (IH2 h). naive_solver.
        -- intros [Heq|Hin]; [rewrite Heq, bytes_compare_refl in Ec; done|]. rewrite (IH3 Hin). done.
  - apply bytes_gt_lt in Ec. cbn [take drop app map]. split; [|split].
    + constructor; [constructor; done|]. constructor; [done|].
      eapply List.Forall_impl; [|exact Hf]. intros z Hz. eapply bytes_compare_trans; done.
    + intros h. cbn [In]. split; [intros [<-|H]; auto|intros [->|H]; auto].
    + intros Hin. exfalso. apply (below_head (hash x) (hash y) (map hash l)); [|done|done].
      apply sorted_lt_le. constructor; done.
Qed.
End SortLemmas.

(** ** Bodies *)

Section BodyLemmas.
  Context {DG : Digest}.
  Implicit Types (b : TransactionBody).

Definition body_sorted b : Prop :=
  sorted_unique (inputs b) /\ sorted_unique (token_inputs b) /\ sorted_unique (outputs b) /\
  sorted_unique (token_outputs b) /\ sorted_unique (kernels b) /\ sorted_unique (token_kernels b).

Lemma map_err_ok {E F A} (f : E -> F) (c : res E A) a : map_err f c = Ok a <-> c = Ok a.
Proof. destruct c; simpl; split; intros H; try discriminate; congruence. Qed.

Lemma bind_ok_tt {E A} (c : res E unit) (k : res E A) a :
  (let? _ := c in k) = Ok a <-> c = Ok tt /\ k = Ok a.
Proof. destruct c as [[]| |]; simpl; split; [auto|intros [_ H]; exact H|done|intros [? _]; done|done|intros [? _]; done]. Qed.

Lemma verify_sorted_iff b : verify_sorted b = Ok tt <-> body_sorted b.
Proof.
  unfold verify_sorted, body_sorted. rewrite !bind_ok_tt, !map_err_ok, !verify_sorted_and_unique_iff.
  tauto.
Qed.

Lemma init_verified ins outs ks tins touts tks b :
  init ins outs ks tins touts tks true = Ok b <->
  b = mkBody ins tins outs touts ks tks /\ body_sorted b.
Proof.
  unfold init. rewrite bind_ok_tt, verify_sorted_iff. split.
  - intros [Hs [= <-]]. done.
  - intros [-> Hs]. done.
Qed.

(** The parts of a body of which all elements are well formed. *)
Definition wf_body {SS : SecpSizes} b : Prop :=
  Forall wf_input (inputs b) /\ Forall wf_token_input (token_inputs b) /\
  Forall wf_output (outputs b) /\ Forall wf_token_output (token_outputs b) /\
  Forall wf_tx_kernel (kernels b) /\ Forall wf_token_tx_kernel (token_kernels b).

Lemma len_small (l l' m : Z) :
  0 <= l -> 0 <= l' -> 0 <= m -> BLOCK_INPUT_WEIGHT * l + l' <= m -> m <= 100000 -> l <= 1000000.
Proof. unfold BLOCK_INPUT_WEIGHT. lia. Qed.

Lemma max_block_weight_bound ct : 0 <= max_block_weight ct <= 100000.
Proof. destruct ct; vm_compute; split; congruence. Qed.

(** A saturated sum below the limit is exact, but for the last addition. *)
Definition light ct b : Prop :=
  exact_weight (len (inputs b)) (len (outputs b)) (len (kernels b))
    (len (token_inputs b)) (len (token_outputs b)) (len (token_kernels b)) <= max_block_weight ct.

Lemma light_lens ct b :
  light ct b ->
  len (inputs b) <= 1000000 /\ len (outputs b) <= 1000000 /\ len (kernels b) <= 1000000 /\
  len (token_inputs b) <= 1000000 /\ len (token_outputs b) <= 1000000 /\
  len (token_kernels b) <= 1000000.
Proof.
  unfold light, exact_weight, BLOCK_INPUT_WEIGHT, BLOCK_OUTPUT_WEIGHT, BLOCK_KERNEL_WEIGHT, len.
  pose proof (max_block_weight_bound ct). lia.
Qed.

Lemma light_weight ct b : light ct b -> body_weight_as_block b <= max_block_weight ct.
Proof.
  intros H. pose proof (light_lens ct b H). unfold body_weight_as_block.
  rewrite weight_as_block_exact by (unfold len in *; lia). exact H.
Qed.
End BodyLemmas.

Section ReadLemmas.
  Context {DG : Digest} {SS : SecpSizes} {R : Type} `{!Reader R} `{!ReaderLaws R}.

Lemma read_multi_ok {A} (rd : R -> res Error (A * R)) n r l r' :
  0 <= n -> read_multi rd n r = Ok (l, r') -> len l = n /\ n <= 1000000.
Proof.
  intros H0. unfold read_multi. destruct (Z.ltb_spec 1000000 n); [done|].
  intros H1. apply read_bind_inv in H1 as (l' & r1 & _ & H1).
  destruct (Z.eqb_spec (Z.of_nat (length l')) n); [|done]. injection H1 as <- <-. done.
Qed.

Lemma read_u64_range (r r' : R) n :
  are_bytes (remaining r) -> read_u64 r = Ok (n, r') -> is_u64 n /\ are_bytes (remaining r').
Proof.
  intros Hb H. apply read_bind_inv in H as (b & r1 & E1 & [= <- <-]).
  apply read_int_inv in E1 as (E1 & E2 & _). rewrite E1 in Hb. apply are_bytes_app in Hb as [Hb1 Hb2].
  split; [|done]. pose proof (be_val_bounds b Hb1) as Hv. rewrite E2 in Hv. exact Hv.
Qed.

Lemma corrupted_ok {A} (c : res TxError A) (r r' : R) a :
  corrupted c r = Ok (a, r') -> c = Ok a /\ r = r'.
Proof. destruct c; simpl; [intros [= <- <-]; done|done|done]. Qed.

(** Peel a length off the front of a parse. *)
Ltac take_len H Hb :=
  let n := fresh "n" in let r := fresh "r" in let E1 := fresh "E" in let Hn := fresh "Hn" in
  apply read_bind_inv in H as (n & r & E1 & H); apply (read_u64_range _ _ _ Hb) in E1 as [Hn E1];
  clear Hb; rename E1 into Hb.
Ltac take_list H :=
  let l := fresh "l" in let r := fresh "r" in let E1 := fresh "E" in let Hl := fresh "Hl" in
  apply read_bind_inv in H as (l & r & E1 & H); apply read_multi_ok in E1 as Hl; [clear E1|unfold is_u64 in *; lia].

Lemma body_read_v1_bounded ct (r r' : R) b :
  are_bytes (remaining r) -> body_read_v1 ct r = Ok (b, r') -> light ct b /\ body_sorted b.
Proof.
  intros Hb H. unfold body_read_v1 in H. take_len H Hb. take_len H Hb. take_len H Hb.
  destruct (Z.ltb_spec (max_block_weight ct) (weight_as_block n n0 n1 0 0 0)) as [|Hw]; [done|].
  take_list H. take_list H. take_list H. apply corrupted_ok in H as [H ->].
  apply init_verified in H as [-> Hs]. split; [|done].
  unfold light. cbn [inputs outputs kernels token_inputs token_outputs token_kernels].
  destruct Hl as [-> ?], Hl0 as [-> ?], Hl1 as [-> ?]. unfold is_u64 in *.
  rewrite weight_as_block_exact in Hw by lia. exact Hw.
Qed.

Lemma body_read_v2_bounded ct (r r' : R) b :
  are_bytes (remaining r) -> body_read_v2 ct r = Ok (b, r') -> light ct b /\ body_sorted b.
Proof.
  intros Hb H. unfold body_read_v2 in H.
  take_len H Hb. take_len H Hb. take_len H Hb. take_len H Hb. take_len H Hb. take_len H Hb.
  destruct (Z.ltb_spec (max_block_weight ct) (weight_as_block n n1 n3 n0 n2 n4)) as [|Hw]; [done|].
  take_list H. take_list H. take_list H. take_list H. take_list H. take_list H.
  apply corrupted_ok in H as [H ->]. apply init_verified in H as [-> Hs]. split; [|done].
  unfold light. cbn [inputs outputs kernels token_inputs token_outputs token_kernels].
  destruct Hl as [-> ?], Hl0 as [-> ?], Hl1 as [-> ?], Hl2 as [-> ?], Hl3 as [-> ?], Hl4 as [-> ?].
  unfold is_u64 in *. rewrite weight_as_block_exact in Hw by lia. exact Hw.
Qed.

(** *** Reading back *)

Lemma reads_corrupted {A} v (c : res TxError A) a : c = Ok a -> reads (R := R) v (corrupted c) [] a.
Proof. intros ->. apply reads_ret. Qed.

Lemma reads_list {A} `{!Writeable A} v (rd : R -> res Error (A * R)) (wf : A -> Prop) (l : list A) :
  (forall a, wf a -> reads v rd (write (bin_writer v) a) a) -> Forall wf l -> len l <= 1000000 ->
  reads (R := R) v (read_multi rd (len l)) (write (bin_writer v) l) l.
Proof.
  intros Hrd Hwf Hl. apply reads_multi; [done|done|]. eapply List.Forall_impl; [exact Hrd|done].
Qed.

Lemma reads_len {A} v (l : list A) : len l <= 1000000 -> reads (R := R) v read_u64 (write_u64 (len l)) (len l).
Proof. intros H. apply reads_u64. unfold len in *. lia. Qed.

Lemma reads_body_v2 ct v b :
  wf_body b -> light ct b -> body_sorted b ->
  reads (R := R) v (body_read_v2 ct) (body_write_v2 (bin_writer v) b) b.
Proof.
  intros (W1 & W2 & W3 & W4 & W5 & W6) Hl Hs.
  pose proof (light_weight ct b Hl) as Hw. unfold body_weight_as_block in Hw.
  destruct (light_lens ct b Hl) as (L1 & L2 & L3 & L4 & L5 & L6).
  unfold body_read_v2, body_write_v2.
  do 6 (eapply reads_bind; [apply reads_len; done|]). cbv zeta.
  rewrite (proj2 (Z.ltb_ge _ _)) by exact Hw.
  eapply reads_bind; [eapply reads_list; [intros; apply reads_input; eassumption|done|done]|].
  eapply reads_bind; [eapply reads_list; [intros; apply reads_token_input; eassumption|done|done]|].
  eapply reads_bind; [eapply reads_list; [intros; apply reads_output; eassumption|done|done]|].
  eapply reads_bind; [eapply reads_list; [intros; apply reads_token_output; eassumption|done|done]|].
  eapply reads_bind; [eapply reads_list; [intros; apply reads_tx_kernel; eassumption|done|done]|].
  eapply reads_bind_last; [eapply reads_list; [intros; apply reads_token_tx_kernel; eassumption|done|done]|].
  apply reads_corrupted, init_verified. destruct b; done.
Qed.

Lemma reads_body_v1 ct v b :
  wf_body b -> light ct b -> body_sorted b ->
  token_inputs b = [] -> token_outputs b = [] -> token_kernels b = [] ->
  reads (R := R) v (body_read_v1 ct) (body_write_v1 (bin_writer v) b) b.
Proof.
  intros (W1 & _ & W3 & _ & W5 & _) Hl Hs T1 T2 T3.
  pose proof (light_weight ct b Hl) as Hw. unfold body_weight_as_block in Hw. rewrite T1, T2, T3 in Hw.
  destruct (light_lens ct b Hl) as (L1 & L2 & L3 & _).
  unfold body_read_v1, body_write_v1.
  do 3 (eapply reads_bind; [apply reads_len; done|]). cbv zeta.
  rewrite (proj2 (Z.ltb_ge _ _)) by exact Hw.
  eapply reads_bind; [eapply reads_list; [intros; apply reads_input; eassumption|done|done]|].
  eapply reads_bind; [eapply reads_list; [intros; apply reads_output; eassumption|done|done]|].
  eapply reads_bind_last; [eapply reads_list; [intros; apply reads_tx_kernel; eassumption|done|done]|].
  apply reads_corrupted, init_verified. destruct b; cbn in *; subst; done.
Qed.

(** A body in the form of the version *)
Lemma reads_body ct v b :
  wf_body b -> light ct b -> body_sorted b ->
  (v <= 1 -> token_inputs b = [] /\ token_outputs b = [] /\ token_kernels b = []) ->
  reads (R := R) v (body_read ct) (write (bin_writer v) b) b.
Proof.
  intros Hwf Hl Hs Htok. eapply reads_bind_silent; [apply reads_version|]. unfold write, write_body.
  cbn [writer_version bin_writer]. destruct (Z.leb_spec v 1) as [Hv|Hv].
  - destruct (Htok Hv) as (T1 & T2 & T3). apply reads_body_v1; done.
  - apply reads_body_v2; done.
Qed.

Lemma reads_tx ct v tx :
  wf_blinding (offset tx) -> wf_body (body tx) -> light ct (body tx) -> tx_validate_read ct tx = Ok tt ->
  (v <= 1 -> token_inputs (body tx) = [] /\ token_outputs (body tx) = [] /\ token_kernels (body tx) = []) ->
  reads (R := R) v (tx_read ct) (write (bin_writer v) tx) tx.
Proof.
  intros Ho Hwf Hl Hval Htok. unfold tx_read.
  assert (Hs : body_sorted (body tx)).
  { unfold tx_validate_read in Hval. apply bind_ok_tt in Hval as [Hv _].
    unfold validate_read in Hv. apply bind_ok_tt in Hv as [_ Hv]. apply bind_ok_tt in Hv as [Hv _].
    apply verify_sorted_iff, Hv. }
  unfold write, write_tx. eapply reads_bind; [apply reads_blinding, Ho|].
  eapply reads_bind_last; [apply reads_body; done|].
  cbv zeta. eapply reads_bind_silent; [apply reads_corrupted; destruct tx; exact Hval|]. destruct tx. apply reads_ret.
Qed.
End ReadLemmas.

(** ** Issued tokens *)

Lemma existsb_key (k : TokenKey) l : existsb (fun x => bool_decide (x = k)) l = true <-> In k l.
Proof.
  rewrite existsb_exists. split.
  - intros (x & Hin & Hx). apply bool_decide_eq_true in Hx. subst. done.
  - intros H. exists k. split; [done|]. apply bool_decide_eq_true. done.
Qed.

Lemma insert_all_unique_spec keys seen :
  List.NoDup seen ->
  match insert_all_unique keys seen with
  | Some l => List.NoDup (keys ++ seen) /\ (forall k, In k l <-> In k (keys ++ seen)) /\
      length l = length (keys ++ seen)
  | None => ~ List.NoDup (keys ++ seen)
  end.
Proof.
  revert seen; induction keys as [|k keys IH]; intros seen Hs; cbn [insert_all_unique app]; [done|].
  destruct (existsb _ seen) eqn:Ee.
  - apply existsb_key in Ee. intros Hd. inversion Hd; subst.
    apply H1, in_app_iff. right. done.
  - assert (Hk : ~ In k seen) by (rewrite <- existsb_key; congruence).
    specialize (IH (k :: seen) ltac:(constructor; done)).
    assert (Hperm : Permutation (keys ++ k :: seen) (k :: keys ++ seen))
      by (symmetry; apply Permutation_middle).
    destruct (insert_all_unique keys (k :: seen)) as [l|].
    + destruct IH as (H1 & H2 & H3). split; [eapply Permutation_NoDup; done|]. split.
      * intros x. rewrite H2. split; apply Permutation_in; [done|symmetry; done].
      * rewrite H3. apply Permutation_length. done.
    + intros Hd. apply IH. eapply Permutation_NoDup; [symmetry; done|done].
Qed.

(** The keys of the tokens a body issues, by its outputs and by its kernels. *)
Definition issued_by_outputs (b : TransactionBody) : list TokenKey :=
  map output_token_type
    (List.filter (fun x => of_is_tokenissue (token_output_features x)) (token_outputs b)).
Definition issued_by_kernels (b : TransactionBody) : list TokenKey :=
  map kernel_token_type (List.filter is_issue_token (token_kernels b)).

(** ** Properties *)

(** [validate_issue_token_output] accepts exactly the bodies that issue every token key at most once,
    with exactly one issuing output and one issuing kernel for each key. *)
Theorem issued_tokens_match (b : TransactionBody) :
  validate_issue_token_output b = Ok tt <->
  List.NoDup (issued_by_outputs b) /\ List.NoDup (issued_by_kernels b) /\
  (forall k, In k (issued_by_outputs b) <-> In k (issued_by_kernels b)).
Proof.
  unfold validate_issue_token_output. fold (issued_by_outputs b) (issued_by_kernels b).
  pose proof (insert_all_unique_spec (issued_by_outputs b) [] (List.NoDup_nil _)) as Ho.
  pose proof (insert_all_unique_spec (issued_by_kernels b) [] (List.NoDup_nil _)) as Hk.
  rewrite app_nil_r in Ho, Hk.
  destruct (insert_all_unique (issued_by_outputs b) []) as [lo|]; [|split; [done|tauto]].
  destruct (insert_all_unique (issued_by_kernels b) []) as [lk|]; [|split; [done|tauto]].
  destruct Ho as (Do & Io & Lo), Hk as (Dk & Ik & Lk).
  assert (Hfa : forallb (fun k => existsb (fun x => bool_decide (x = k)) lk) lo = true <->
    incl (issued_by_outputs b) (issued_by_kernels b)).
  { rewrite forallb_forall. split.
    - intros H k Hin. apply Ik, existsb_key, H, Io, Hin.
    - intros H k Hin. apply existsb_key, Ik, H, Io, Hin. }
  split.
  - destruct (Nat.eqb_spec (length lo) (length lk)) as [El|]; [|done]. cbn [negb].
    destruct (forallb _ lo); [|done]. intros _. pose proof (proj1 Hfa eq_refl) as Hi.
    split; [done|]. split; [done|]. intros k. split; [apply Hi|].
    apply (NoDup_length_incl Do); [lia|exact Hi].
  - intros (_ & _ & Heq). assert (Hi : incl (issued_by_outputs b) (issued_by_kernels b))
      by (intros k; apply Heq).
    assert (Hi' : incl (issued_by_kernels b) (issued_by_outputs b)) by (intros k; apply Heq).
    pose proof (NoDup_incl_length Do Hi). pose proof (NoDup_incl_length Dk Hi').
    rewrite (proj2 (Nat.eqb_eq _ _)) by lia. cbn [negb]. rewrite (proj2 Hfa Hi). done.
Qed.

Section Claims.
  Context {DG : Digest}.
  Implicit Types (b : TransactionBody).

(** On a sorted body [verify_cut_through] succeeds exactly when no input spends (has the hash of) an
    output of the same body, and otherwise answers [CutThrough]. *)
Theorem cut_through_is_verified b :
  body_sorted b ->
  (verify_cut_through b = Ok tt <->
    forall i o, In i (inputs b) -> In o (outputs b) -> hash i <> hash o) /\
  (verify_cut_through b <> Ok tt -> verify_cut_through b = Err CutThrough).
Proof.
  intros (Hi & _ & Ho & _). unfold verify_cut_through.
  destruct (verify_cut_through_loop_spec (length (inputs b) + length (outputs b))
    (map hash (inputs b)) (map hash (outputs b))) as [[-> Hd]|[-> (h & H1 & H2)]];
    [rewrite !length_map; done|apply sorted_lt_le, Hi|apply sorted_lt_le, Ho| |].
  - split; [|done]. split; [|done]. intros _ i o H1 H2 Heq.
    apply (Hd (hash i)); [apply in_map, H1|]. rewrite Heq. apply in_map, H2.
  - split; [|done]. split; [done|]. intros H. exfalso.
    apply in_map_iff in H1 as (i & Ei & Hin), H2 as (o & Eo & Hout).
    apply (H i o Hin Hout). congruence.
Qed.

(** The builders [with_input], [with_output], [with_kernel] and their token variants keep a body
    sorted and free of duplicates, and the element added is present. *)
Theorem builders_keep_order b :
  body_sorted b ->
  (forall i, body_sorted (with_input b i)) /\ (forall o, body_sorted (with_output b o)) /\
  (forall i, body_sorted (with_token_input b i)) /\ (forall o, body_sorted (with_token_output b o)) /\
  (forall k, body_sorted (with_kernel b k)) /\ (forall k, body_sorted (with_token_kernel b k)) /\
  (forall i, In (hash i) (map hash (inputs (with_input b i)))) /\
  (forall o, In (hash o) (map hash (outputs (with_output b o)))).
Proof.
  intros (H1 & H2 & H3 & H4 & H5 & H6). unfold body_sorted.
  repeat split; cbn [inputs token_inputs outputs token_outputs kernels token_kernels
    with_input with_output with_token_input with_token_output with_kernel with_token_kernel];
    try assumption; try (apply insert_sorted_spec; assumption).
  - intros i. apply (proj1 (proj2 (insert_sorted_spec i _ H1))). left. done.
  - intros o. apply (proj1 (proj2 (insert_sorted_spec o _ H3))). left. done.
Qed.

(** Whatever a reader accepts as a body, in either version, weighs at most the maximum block weight
    (computed exactly, without wrap-around) and is sorted and free of duplicates. *)
Theorem accepted_bodies_are_light_and_sorted {SS : SecpSizes} {R : Type} `{!Reader R} `{!ReaderLaws R}
    ct (r r' : R) b :
  are_bytes (remaining r) -> body_read ct r = Ok (b, r') -> light ct b /\ body_sorted b.
Proof.
  intros Hb H. apply read_bind_inv in H as (v & r1 & [= <- <-] & H).
  destruct (protocol_version r <=? 1); [eapply body_read_v1_bounded|eapply body_read_v2_bounded]; done.
Qed.

(** C36: a transaction that passes the lightweight validation and whose parts are well formed is read
    back from its binary form: always from version 2 on, and in version 1 when it has no token
    parts. *)
Theorem transaction_roundtrip {SS : SecpSizes} {R : Type} `{!Reader R} `{!ReaderLaws R} ct v tx :
  wf_blinding (offset tx) -> wf_body (body tx) -> light ct (body tx) ->
  tx_validate_read ct tx = Ok tt ->
  (v <= 1 -> token_inputs (body tx) = [] /\ token_outputs (body tx) = [] /\ token_kernels (body tx) = []) ->
  reads (R := R) v (tx_read ct) (write (bin_writer v) tx) tx.
Proof. intros. apply reads_tx; done. Qed.

(** The last addition of [weight_as_block] is not saturating: the announced lengths [2^64 - 1]
    inputs and one token input weigh zero, and so pass the quick weight check of [read_v2]. *)
Theorem weight_as_block_wraps ct :
  weight_as_block u64_max 0 0 1 0 0 = 0 /\
  (max_block_weight ct <? weight_as_block u64_max 0 0 1 0 0) = false.
Proof. split; [reflexivity|]. destruct ct; reflexivity. Qed.
End Claims.

(** ** Witnesses *)

(** A digest and the sizes of the curve library, to evaluate the definitions. *)
Definition demo_digest : Digest := {| blake2b b := b; sha256 b := b |}.

Definition demo_sizes : SecpSizes.
Proof.
  refine {| PEDERSEN_COMMITMENT_SIZE := 33; AGG_SIGNATURE_SIZE := 64; SECRET_KEY_SIZE := 32;
    MAX_PROOF_SIZE := 675 |}. repeat split; lia.
Defined.

Definition demo_commit (n : Z) : Commitment := mkCommitment (replicate 33 n).
Definition demo_kernel : TxKernel :=
  mkTxKernel (KPlain 5) (demo_commit 7) (mkSignature (replicate 64 3)).
Definition demo_body : TransactionBody :=
  mkBody [mkInput OPlain (demo_commit 1)] [] [mkOutput OPlain (demo_commit 2) (mkRangeProof (replicate 675 9) 675)]
    [] [demo_kernel] [].
Definition demo_tx : Transaction := mkTx (mkBlinding (replicate 32 0)) demo_body.

Lemma demo_body_sorted : body_sorted (DG := demo_digest) demo_body.
Proof. repeat split; repeat constructor. Qed.

Lemma demo_body_wf : wf_body (SS := demo_sizes) demo_body.
Proof. repeat split; repeat constructor; cbn; lia. Qed.

Lemma cut_through_is_verified_witness :
  verify_cut_through (DG := demo_digest) demo_body = Ok tt <->
    forall i o, In i (inputs demo_body) -> In o (outputs demo_body) ->
      hash (DG := demo_digest) i <> hash (DG := demo_digest) o.
Proof. apply (cut_through_is_verified (DG := demo_digest) demo_body). apply demo_body_sorted. Defined.

Lemma builders_keep_order_witness :
  body_sorted (DG := demo_digest) (with_input (DG := demo_digest) demo_body (mkInput OPlain (demo_commit 0))).
Proof. apply (builders_keep_order (DG := demo_digest) demo_body). apply demo_body_sorted. Defined.

Lemma accepted_bodies_are_light_and_sorted_witness :
  light Mainnet empty_body /\ body_sorted (DG := demo_digest) empty_body.
Proof.
  apply (accepted_bodies_are_light_and_sorted (DG := demo_digest) (SS := demo_sizes) (R := BinReader)
    Mainnet (mkBinReader (replicate 48 0) 2) (mkBinReader [] 2)); [|reflexivity].
  repeat constructor; unfold is_byte; lia.
Defined.

Lemma transaction_roundtrip_witness :
  reads (R := BinReader) 2 (tx_read (DG := demo_digest) (SS := demo_sizes) Mainnet)
    (write (bin_writer 2) demo_tx) demo_tx.
Proof.
  apply (transaction_roundtrip (DG := demo_digest) (SS := demo_sizes) Mainnet 2 demo_tx);
    [reflexivity|apply demo_body_wf|vm_compute; congruence|reflexivity|lia].
Defined.
