(* ===== verification/Committed.v ===== *)
(** * Commitment sums

    Models [core/src/core/committed.rs], [core/src/core/block_sums.rs], the
    [BlindingFactor] of [keychain/src/types.rs] and [util/src/secp_static.rs].

    The curve is the parameter [Secp].  Its documented behaviour is [SecpLaws]:
    commitments and keys live in a cyclic group, written additively as integers
    modulo the group order; [point] is the (unknown) discrete logarithm.  The
    theorems on balance are statements in that group, rewritten with the
    [Proper] instances of congruence.

    A [HashMap] is a [gmap]; its iteration order is that of [map_to_list]. *)

From Stdlib Require Import ZArith Lia List Bool Permutation.
From stdpp Require Import base numbers list option gmap countable.
From S2P Require Import Prelude Bytes Consensus Ser Transaction TxBody.

(** ** The curve library *)

Record SecretKey := mkSecretKey { secret_bytes : bytes }.

Class Secp := {
  commit_sum : list Commitment -> list Commitment -> option Commitment;
  commit : Z -> SecretKey -> option Commitment;
  commit_value : Z -> option Commitment;
  commitment_from_vec : bytes -> Commitment;
  blind_sum : list SecretKey -> list SecretKey -> option SecretKey;
  secret_key_from_slice : bytes -> option SecretKey;
  ZERO_KEY : SecretKey
}.

#[export] Instance token_key_countable : Countable TokenKey.
Proof. by refine (inj_countable' token_hash mkTokenKey _); intros []. Defined.

#[export] Instance commitment_countable : Countable Commitment.
Proof. by refine (inj_countable' commit_bytes mkCommitment _); intros []. Defined.

(** ** Blinding factors *)

Section Blinding.
  Context {SS : SecpSizes} {SP : Secp}.

(** [BlindingFactor::from_slice]: cut or zero padded to the key size *)
Definition blind_from_slice (data : bytes) : BlindingFactor :=
  let n := Nat.min SECRET_KEY_SIZE (length data) in
  mkBlinding (take n data ++ replicate (SECRET_KEY_SIZE - n) 0).

(** [BlindingFactor::from_secret_key] *)
Definition from_secret_key (skey : SecretKey) : BlindingFactor := blind_from_slice (secret_bytes skey).

(** [BlindingFactor::zero] *)
Definition blind_zero : BlindingFactor := from_secret_key ZERO_KEY.

(** [BlindingFactor::secret_key] *)
Definition secret_key (b : BlindingFactor) : option SecretKey :=
  if bool_decide (b = blind_zero) then Some ZERO_KEY else secret_key_from_slice (blind_bytes b).

(** [to_secrets] of [committed.rs], also written out in [Add for BlindingFactor] *)
Definition to_secrets (bf : list BlindingFactor) : list SecretKey :=
  omap secret_key (List.filter (fun x => negb (bool_decide (x = blind_zero))) bf).

(** [Add for BlindingFactor] *)
Definition blind_add (b other : BlindingFactor) : option BlindingFactor :=
  match to_secrets [b; other] with
  | [] => Some blind_zero
  | keys => sum ← blind_sum keys []; Some (from_secret_key sum)
  end.

(** [BlindingFactor::split]; [skey_1] is the fresh random key. *)
Definition blind_split (skey_1 : SecretKey) (b : BlindingFactor) : option (BlindingFactor * BlindingFactor) :=
  skey ← secret_key b;
  skey_2 ← blind_sum [skey] [skey_1];
  Some (from_secret_key skey_1, from_secret_key skey_2).
End Blinding.

(** [secp_static::commit_to_zero_value] *)
Definition commit_to_zero_value {SP : Secp} : Commitment := commitment_from_vec [0].

(** ** Sums *)

(** [sum_commits] *)
Definition sum_commits {SP : Secp} (positive negative : list Commitment) : res CommittedError Commitment :=
  let zero_commit := commit_to_zero_value in
  let positive := List.filter (fun x => negb (bool_decide (x = zero_commit))) positive in
  let negative := List.filter (fun x => negb (bool_decide (x = zero_commit))) negative in
  if (length positive =? 0)%nat && (length negative =? 0)%nat then Ok zero_commit
  else ok_or (commit_sum positive negative) CSecp.

(** [sum_kernel_offsets] *)
Definition sum_kernel_offsets {SS : SecpSizes} {SP : Secp} (positive negative : list BlindingFactor)
    : res CommittedError BlindingFactor :=
  let positive := to_secrets positive in
  let negative := to_secrets negative in
  match positive with
  | [] => Ok blind_zero
  | _ =>
    let? sum := ok_or (blind_sum positive negative) CSecp in
    Ok (from_secret_key sum)
  end.

(** ** The trait [Committed] *)

Class Committed (C : Type) := {
  inputs_committed : C -> list Commitment;
  outputs_committed : C -> list Commitment;
  kernels_committed : C -> list Commitment;
  token_inputs_committed : C -> gmap TokenKey (list Commitment);
  token_outputs_committed : C -> gmap TokenKey (list Commitment);
  token_kernels_committed : C -> gmap TokenKey (list Commitment)
}.

(** [BlockTokenSums] *)
Record BlockTokenSums := mkBlockTokenSums {
  token_issue_commit_map : gmap TokenKey Commitment;
  token_utxo_sum_map : gmap TokenKey Commitment;
  token_kernel_sum_map : gmap TokenKey Commitment
}.

(** [BlockTokenSums::default] *)
Definition default_block_token_sums : BlockTokenSums := mkBlockTokenSums ∅ ∅ ∅.

Section Sums.
  Context {SS : SecpSizes} {SP : Secp} {C : Type} `{!Committed C}.

(** [Committed::sum_kernel_excesses] *)
Definition sum_kernel_excesses (x : C) (offset : BlindingFactor)
    : res CommittedError (Commitment * Commitment) :=
  let kernel_commits := kernels_committed x in
  let? kernel_sum := sum_commits kernel_commits [] in
  let? commits :=
    if negb (bool_decide (offset = blind_zero)) then
      let? key := ok_or (secret_key offset) CKeychain in
      let? offset_commit := ok_or (commit 0 key) CSecp in
      Ok [kernel_sum; offset_commit]
    else Ok [kernel_sum] in
  let? kernel_sum_plus_offset := ok_or (commit_sum commits []) CSecp in
  Ok (kernel_sum, kernel_sum_plus_offset).

(** [Committed::sum_commitments]; [overage] is an [i64]. *)
Definition sum_commitments (x : C) (overage : Z) : res CommittedError Commitment :=
  let input_commits := inputs_committed x in
  let output_commits := outputs_committed x in
  if negb (overage =? 0) then
    if overage =? - 2 ^ 63 then Err CInvalidValue
    else
      match commit_value (Z.abs overage) with
      | None => Panic
      | Some over_commit =>
        if overage <? 0 then sum_commits output_commits (input_commits ++ [over_commit])
        else sum_commits (output_commits ++ [over_commit]) input_commits
      end
  else sum_commits output_commits input_commits.

(** [Committed::verify_kernel_sums] *)
Definition verify_kernel_sums (x : C) (overage : Z) (kernel_offset : BlindingFactor)
    : res CommittedError (Commitment * Commitment) :=
  let? utxo_sum := sum_commitments x overage in
  let? '(kernel_sum, kernel_sum_plus_offset) := sum_kernel_excesses x kernel_offset in
  if negb (bool_decide (utxo_sum = kernel_sum_plus_offset)) then Err CKernelSumMismatch
  else Ok (utxo_sum, kernel_sum).

(** The three loops that sum the commitments of each token type. *)
Fixpoint sum_each (l : list (TokenKey * list Commitment)) (acc : gmap TokenKey Commitment)
    : res CommittedError (gmap TokenKey Commitment) :=
  match l with
  | [] => Ok acc
  | (key, commits) :: l =>
    let? commit_sum := sum_commits commits [] in
    sum_each l (<[key := commit_sum]> acc)
  end.

(** The last loop of [verify_token_kernel_sum]. *)
Fixpoint check_each (l : list (TokenKey * Commitment)) (outs kerns : gmap TokenKey Commitment)
    : res CommittedError unit :=
  match l with
  | [] => Ok tt
  | (input_token_key, input_commit) :: l =>
    match outs !! input_token_key with
    | Some output_commit =>
      match kerns !! input_token_key with
      | Some kernel_commit =>
        let zero_commit := commit_to_zero_value in
        let? _ :=
          if bool_decide (kernel_commit = zero_commit) then
            if negb (bool_decide (output_commit = input_commit)) then Err CTokenSumMismatch else Ok tt
          else
            let? commit_sum := sum_commits [output_commit] [input_commit] in
            if negb (bool_decide (commit_sum = kernel_commit)) then Err CTokenSumMismatch else Ok tt in
        check_each l outs kerns
      | None => Err CTokenSumMismatch
      end
    | None => Err CTokenSumMismatch
    end
  end.

(** [Committed::verify_token_kernel_sum] *)
Definition verify_token_kernel_sum (x : C) : res CommittedError BlockTokenSums :=
  let token_input_commit_vec := token_inputs_committed x in
  let token_output_commit_vec := token_outputs_committed x in
  let token_kernel_commit_vec := token_kernels_committed x in
  if negb (size token_input_commit_vec =? size token_output_commit_vec)%nat
     || negb (size token_output_commit_vec =? size token_kernel_commit_vec)%nat
  then Err CTokenSumMismatch
  else
    let? token_input_commit_map := sum_each (map_to_list token_input_commit_vec) ∅ in
    let? token_output_commit_map := sum_each (map_to_list token_output_commit_vec) ∅ in
    let? token_kernel_commit_map := sum_each (map_to_list token_kernel_commit_vec) ∅ in
    let? _ := check_each (map_to_list token_input_commit_map)
                token_output_commit_map token_kernel_commit_map in
    Ok (mkBlockTokenSums token_input_commit_map token_output_commit_map token_kernel_commit_map).
End Sums.

(** ** Implementations of [Committed] *)

(** [map.entry(key).or_insert(vec![]).push(commit)] *)
Definition entry_push (m : gmap TokenKey (list Commitment)) (p : TokenKey * Commitment) :=
  <[p.1 := default [] (m !! p.1) ++ [p.2]]> m.

(** [Committed for TransactionBody] *)
#[export] Instance body_committed : Committed TransactionBody := {
  inputs_committed b := map input_commit (inputs b);
  outputs_committed b := map output_commit (outputs b);
  kernels_committed b := map excess (kernels b);
  token_inputs_committed b :=
    foldl entry_push ∅ (map (fun i => (input_token_type i, token_input_commit i)) (token_inputs b));
  token_outputs_committed b :=
    foldl entry_push ∅ (map (fun o => (output_token_type o, token_output_commit o))
      (List.filter (fun o => of_is_token (token_output_features o)) (token_outputs b)));
  token_kernels_committed b :=
    foldl entry_push ∅ (map (fun k => (kernel_token_type k, token_excess k))
      (List.filter is_plain_token (token_kernels b)))
}.

(** [Committed for Transaction] *)
#[export] Instance tx_committed : Committed Transaction := {
  inputs_committed tx := inputs_committed (body tx);
  outputs_committed tx := outputs_committed (body tx);
  kernels_committed tx := kernels_committed (body tx);
  token_inputs_committed tx := token_inputs_committed (body tx);
  token_outputs_committed tx := token_outputs_committed (body tx);
  token_kernels_committed tx := token_kernels_committed (body tx)
}.

(** [BlockSums] *)
Record BlockSums := mkBlockSums { utxo_sum : Commitment; kernel_sum : Commitment }.

(** [BlockSums::default] *)
Definition default_block_sums {SP : Secp} : BlockSums :=
  mkBlockSums commit_to_zero_value commit_to_zero_value.

(** [Committed for (BlockSums, &dyn Committed)] *)
#[export] Instance block_sums_committed {C} `{!Committed C} : Committed (BlockSums * C) := {
  inputs_committed p := inputs_committed p.2;
  outputs_committed p := utxo_sum p.1 :: outputs_committed p.2;
  kernels_committed p := kernel_sum p.1 :: kernels_committed p.2;
  token_inputs_committed _ := ∅;
  token_outputs_committed _ := ∅;
  token_kernels_committed _ := ∅
}.

(** [insert(token_key, vec![commit])] for every entry of the sums *)
Definition insert_sums (m : gmap TokenKey (list Commitment)) (sums : gmap TokenKey Commitment)
    : gmap TokenKey (list Commitment) :=
  foldl (fun m p => <[p.1 := [p.2]]> m) m (map_to_list sums).

(** [Committed for (BlockTokenSums, &dyn Committed)] *)
#[export] Instance block_token_sums_committed {C} `{!Committed C} : Committed (BlockTokenSums * C) := {
  inputs_committed _ := [];
  outputs_committed _ := [];
  kernels_committed _ := [];
  token_inputs_committed p := insert_sums (token_inputs_committed p.2) (token_issue_commit_map p.1);
  token_outputs_committed p := insert_sums (token_outputs_committed p.2) (token_utxo_sum_map p.1);
  token_kernels_committed p := insert_sums (token_kernels_committed p.2) (token_kernel_sum_map p.1)
}.

#[export] Instance write_block_sums : Writeable BlockSums := fun w s =>
  write w (utxo_sum s) ++ write w (kernel_sum s).

Definition block_sums_read {SS : SecpSizes} {R} `{!Reader R} : R -> res Error (BlockSums * R) :=
  let! utxo_sum := commitment_read in
  let! kernel_sum := commitment_read in
  read_ret (mkBlockSums utxo_sum kernel_sum).

(** ** The group behind the commitments *)

Class SecpLaws `{SS : SecpSizes} `{SP : Secp} := {
  group_order : Z;
  group_order_pos : 0 < group_order;
  (** discrete logarithm of a commitment, and of the value generator *)
  point : Commitment -> Z;
  value_point : Z;
  commit_sum_sound p n c : commit_sum p n = Some c ->
    point c mod group_order
    = (foldr Z.add 0 (map point p) - foldr Z.add 0 (map point n)) mod group_order;
  (** the point at infinity has no encoding, every other point has one *)
  commit_sum_finite p n c : commit_sum p n = Some c -> point c mod group_order <> 0;
  commit_sum_canonical p n c p' n' c' :
    commit_sum p n = Some c -> commit_sum p' n' = Some c' ->
    point c mod group_order = point c' mod group_order -> c = c';
  zero_commit_point : point commit_to_zero_value mod group_order = 0;
  commit_value_total v : 0 <= v < U64 -> is_Some (commit_value v);
  commit_value_sound v c : commit_value v = Some c ->
    point c mod group_order = (v * value_point) mod group_order;
  commit_sound v k c : commit v k = Some c ->
    point c mod group_order = (v * value_point + be_val (secret_bytes k)) mod group_order;
  blind_sum_sound p n k : blind_sum p n = Some k ->
    be_val (secret_bytes k) mod group_order
    = (foldr Z.add 0 (map (fun k => be_val (secret_bytes k)) p)
       - foldr Z.add 0 (map (fun k => be_val (secret_bytes k)) n)) mod group_order;
  blind_sum_valid p n k : blind_sum p n = Some k ->
    length (secret_bytes k) = SECRET_KEY_SIZE /\ secret_key_from_slice (secret_bytes k) = Some k;
  secret_key_from_slice_bytes b k : secret_key_from_slice b = Some k -> secret_bytes k = b;
  zero_key_bytes : secret_bytes ZERO_KEY = replicate SECRET_KEY_SIZE 0
}.

(** Congruence modulo the group order. *)
Definition eqg `{SL : SecpLaws} (a b : Z) : Prop := a mod group_order = b mod group_order.
Infix "=g=" := eqg (at level 70).

(** Equal integers are congruent. *)
Ltac glia := apply eq_subrelation; [typeclasses eauto|cbn; lia].

Section Group.
  Context `{SL : SecpLaws}.

#[global] Instance eqg_equiv : Equivalence eqg.
Proof. split; unfold eqg; red; intros; congruence. Qed.

#[global] Instance eqg_add : Proper (eqg ==> eqg ==> eqg) Z.add.
Proof. intros a b H c d H'. unfold eqg in *. rewrite Z.add_mod, H, H', <- Z.add_mod; pose proof group_order_pos; lia. Qed.

#[global] Instance eqg_opp : Proper (eqg ==> eqg) Z.opp.
Proof.
  intros a b H. unfold eqg in *. pose proof group_order_pos.
  rewrite <- !Z.sub_0_l, (Zminus_mod 0 a), (Zminus_mod 0 b), H. done.
Qed.

#[global] Instance eqg_sub : Proper (eqg ==> eqg ==> eqg) Z.sub.
Proof. intros a b H c d H'. unfold Z.sub. rewrite H, H'. done. Qed.

Definition sum_points (l : list Commitment) : Z := foldr Z.add 0 (map point l).
Definition blind_val (b : BlindingFactor) : Z := be_val (blind_bytes b).

Lemma sum_points_cons c l : sum_points (c :: l) = point c + sum_points l.
Proof. done. Qed.

Lemma sum_points_app l l' : sum_points (l ++ l') = sum_points l + sum_points l'.
Proof. induction l as [|c l IH]; [done|]. cbn [app]. rewrite !sum_points_cons, IH. lia. Qed.

#[global] Instance sum_points_perm : Proper (Permutation ==> eq) sum_points.
Proof.
  intros l l' HP. induction HP as [|c l l' _ IH|c d l|]; [done| |rewrite !sum_points_cons; lia|congruence].
  rewrite !sum_points_cons, IH. done.
Qed.

Lemma zero_commit_zero : point commit_to_zero_value =g= 0.
Proof. unfold eqg. rewrite zero_commit_point, Z.mod_0_l; pose proof group_order_pos; lia. Qed.

Lemma sum_points_nonzero l :
  sum_points (List.filter (fun x => negb (bool_decide (x = commit_to_zero_value))) l) =g= sum_points l.
Proof.
  induction l as [|c l IH]; [done|]. cbn [List.filter].
  destruct (bool_decide_reflect (c = commit_to_zero_value)) as [->|]; cbn [negb]; rewrite !sum_points_cons, IH; [|done].
  rewrite zero_commit_zero. done.
Qed.

Lemma commit_sum_points p n c : commit_sum p n = Some c -> point c =g= sum_points p - sum_points n.
Proof. apply commit_sum_sound. Qed.

Lemma sum_commits_points p n c : sum_commits p n = Ok c -> point c =g= sum_points p - sum_points n.
Proof.
  unfold sum_commits. intros H. rewrite <- (sum_points_nonzero p), <- (sum_points_nonzero n).
  destruct (List.filter _ p) as [|a p'] eqn:Ep; destruct (List.filter _ n) as [|b n'] eqn:En; cbn [length Nat.eqb andb] in H.
  1: { injection H as <-. apply zero_commit_zero. }
  all: destruct (commit_sum _ _) as [c'|] eqn:Es; [|done]; injection H as ->; apply commit_sum_points, Es.
Qed.

(** A sum is never confused with another: equal points are equal commitments. *)
Lemma sum_commits_canonical p n c p' n' c' :
  sum_commits p n = Ok c -> commit_sum p' n' = Some c' -> point c =g= point c' -> c = c'.
Proof.
  unfold sum_commits. intros H H' He. pose proof (commit_sum_finite _ _ _ H') as Hf.
  destruct (_ && _); [injection H as <-; unfold eqg in He; rewrite zero_commit_point in He; congruence|].
  destruct (commit_sum _ _) as [d|] eqn:Es; [|done]. injection H as ->.
  eapply commit_sum_canonical; done.
Qed.

Lemma sum_commits_fails p n e : sum_commits p n = Err e -> e = CSecp.
Proof. unfold sum_commits. destruct (_ && _); [done|]. destruct (commit_sum _ _); [done|]. intros [=]. done. Qed.

Lemma sum_commits_no_panic p n : sum_commits p n <> Panic.
Proof. unfold sum_commits. destruct (_ && _); [done|]. destruct (commit_sum _ _); done. Qed.

Lemma le_val_all_zero l : Forall (eq 0) l -> le_val l = 0.
Proof. induction 1 as [|b l <- _ IH]; [done|]. cbn. lia. Qed.

Lemma blind_zero_val : blind_val blind_zero =g= 0.
Proof.
  unfold blind_val, blind_zero, from_secret_key, blind_from_slice. rewrite zero_key_bytes, length_replicate.
  rewrite Nat.min_id, take_replicate, Nat.min_id, Nat.sub_diag, app_nil_r. cbn [blind_bytes].
  unfold eqg. f_equal. apply le_val_all_zero, Forall_rev, Forall_replicate. done.
Qed.
End Group.

(** ** Kernel sums *)

Section KernelSums.
  Context `{SL : SecpLaws} {C : Type} `{!Committed C}.

(** The equation [verify_kernel_sums] is meant to check. *)
Definition balanced (x : C) (overage : Z) (offset : BlindingFactor) : Prop :=
  sum_points (outputs_committed x) + overage * value_point
  =g= sum_points (inputs_committed x) + sum_points (kernels_committed x) + blind_val offset.

Lemma sum_commitments_spec (x : C) overage : - 2 ^ 63 <= overage < 2 ^ 63 ->
  match sum_commitments x overage with
  | Ok c => (exists p n, sum_commits p n = Ok c) /\
      point c =g= sum_points (outputs_committed x) - sum_points (inputs_committed x) + overage * value_point
  | Err e => e = CSecp \/ (e = CInvalidValue /\ overage = - 2 ^ 63)
  | Panic => False
  end.
Proof.
  intros Hr. unfold sum_commitments.
  assert (Hsum : forall p n, sum_points p - sum_points n =g=
      sum_points (outputs_committed x) - sum_points (inputs_committed x) + overage * value_point ->
    match sum_commits p n with
    | Ok c => (exists p n, sum_commits p n = Ok c) /\
        point c =g= sum_points (outputs_committed x) - sum_points (inputs_committed x) + overage * value_point
    | Err e => e = CSecp \/ (e = CInvalidValue /\ overage = - 2 ^ 63)
    | Panic => False
    end).
  { intros p n He. destruct (sum_commits p n) as [c|e|] eqn:E.
    - split; [eauto|]. rewrite (sum_commits_points _ _ _ E). done.
    - left. eapply sum_commits_fails, E.
    - eapply sum_commits_no_panic, E. }
  destruct (Z.eqb_spec overage 0) as [->|H0]; cbn [negb].
  { apply Hsum. glia. }
  destruct (Z.eqb_spec overage (- 2 ^ 63)) as [->|H1]; [right; done|].
  destruct (commit_value_total (Z.abs overage)) as [oc Hoc]; [change U64 with (2 * 2 ^ 63); lia|].
  rewrite Hoc. assert (Hv : point oc =g= Z.abs overage * value_point) by apply commit_value_sound, Hoc.
  destruct (Z.ltb_spec overage 0); apply Hsum; rewrite sum_points_app, sum_points_cons, Hv; glia.
Qed.

Lemma sum_kernel_excesses_spec (x : C) offset :
  match sum_kernel_excesses x offset with
  | Ok (k, ko) => (exists p n, commit_sum p n = Some ko) /\
      point k =g= sum_points (kernels_committed x) /\
      point ko =g= sum_points (kernels_committed x) + blind_val offset
  | Err e => e = CSecp \/ (e = CKeychain /\ secret_key offset = None)
  | Panic => False
  end.
Proof.
  unfold sum_kernel_excesses. destruct (sum_commits _ _) as [k|e|] eqn:Ek; cbn [res_bind];
    [|left; eapply sum_commits_fails, Ek|eapply sum_commits_no_panic, Ek].
  apply sum_commits_points in Ek. cbn in Ek. rewrite Z.sub_0_r in Ek.
  assert (Hfin : forall cs, sum_points cs =g= point k + blind_val offset ->
    match (let? kernel_sum_plus_offset := ok_or (commit_sum cs []) CSecp in Ok (k, kernel_sum_plus_offset)) with
    | Ok (k, ko) => (exists p n, commit_sum p n = Some ko) /\
        point k =g= sum_points (kernels_committed x) /\
        point ko =g= sum_points (kernels_committed x) + blind_val offset
    | Err e => e = CSecp \/ (e = CKeychain /\ secret_key offset = None)
    | Panic => False
    end).
  { intros cs Hcs. destruct (commit_sum cs []) as [ko|] eqn:Es; cbn; [|left; done].
    split; [eauto|]. split; [done|]. apply commit_sum_points in Es.
    rewrite Es, Hcs, Ek. cbn. rewrite Z.sub_0_r. done. }
  destruct (bool_decide_reflect (offset = blind_zero)) as [->|Hz]; cbn [negb res_bind].
  { apply Hfin. rewrite sum_points_cons, blind_zero_val. done. }
  destruct (secret_key offset) as [key|] eqn:Esk; cbn [ok_or res_bind]; [|right; done].
  destruct (commit 0 key) as [oc|] eqn:Eoc; cbn [ok_or res_bind]; [|left; done].
  apply Hfin. rewrite !sum_points_cons. assert (Ho : point oc =g= 0 * value_point + be_val (secret_bytes key)) by apply commit_sound, Eoc.
  unfold secret_key in Esk. rewrite bool_decide_false in Esk by done.
  apply secret_key_from_slice_bytes in Esk. rewrite Ho, Esk. unfold blind_val. glia.
Qed.

Lemma verify_kernel_sums_spec (x : C) overage offset : - 2 ^ 63 <= overage < 2 ^ 63 ->
  match verify_kernel_sums x overage offset with
  | Ok (u, k) =>
      balanced x overage offset /\
      point u =g= sum_points (outputs_committed x) - sum_points (inputs_committed x) + overage * value_point /\
      point k =g= sum_points (kernels_committed x)
  | Err CKernelSumMismatch => ~ balanced x overage offset
  | Err CInvalidValue => overage = - 2 ^ 63
  | Err CKeychain => secret_key offset = None
  | Err CSecp => True
  | Err CTokenSumMismatch | Panic => False
  end.
Proof.
  intros Hr. unfold verify_kernel_sums. pose proof (sum_commitments_spec x overage Hr) as Hu.
  destruct (sum_commitments x overage) as [u|e|]; cbn [res_bind];
    [destruct Hu as [[p [n Hc]] Hu]|destruct Hu as [->|[-> ->]]; done|done].
  pose proof (sum_kernel_excesses_spec x offset) as Hk.
  destruct (sum_kernel_excesses x offset) as [[k ko]|e|]; cbn [res_bind];
    [destruct Hk as [[p' [n' Hc']] [Hk Hko]]|destruct Hk as [->|[-> Hk]]; done|done].
  assert (Hb : balanced x overage offset <-> point u =g= point ko).
  { rewrite Hu, Hko. unfold balanced. split; intros H.
    - transitivity (sum_points (outputs_committed x) + overage * value_point - sum_points (inputs_committed x));
        [glia|].
      rewrite H. glia.
    - transitivity (sum_points (outputs_committed x) - sum_points (inputs_committed x) + overage * value_point
        + sum_points (inputs_committed x)); [glia|].
      rewrite H. glia. }
  destruct (bool_decide_reflect (u = ko)) as [->|Hne]; cbn [negb].
  - split; [apply Hb; done|done].
  - rewrite Hb. intros He. apply Hne. eapply sum_commits_canonical; done.
Qed.
End KernelSums.

(** ** Token sums *)

Section TokenSums.
  Context `{SL : SecpLaws}.

(** The commitments of one token type. *)
Definition of_key (key : TokenKey) (l : list (TokenKey * Commitment)) : list Commitment :=
  map snd (List.filter (fun p => bool_decide (p.1 = key)) l).

Lemma entry_push_lookup key l : forall m,
  foldl entry_push m l !! key =
    match of_key key l with
    | [] => m !! key
    | cs => Some (default [] (m !! key) ++ cs)
    end.
Proof.
  induction l as [|[k c] l IH]; intros m; [done|]. cbn [foldl]. rewrite IH.
  unfold of_key. cbn [List.filter fst]. destruct (bool_decide_reflect (k = key)) as [->|Hne].
  - cbn [map snd]. unfold entry_push. cbn [fst snd]. rewrite lookup_insert_eq. fold (of_key key l).
    destruct (of_key key l); [done|]. cbn. rewrite <- app_assoc. done.
  - unfold entry_push. cbn [fst snd]. rewrite lookup_insert_ne by done. done.
Qed.

Lemma entry_push_sum key l : sum_points (default [] (foldl entry_push ∅ l !! key)) = sum_points (of_key key l).
Proof. rewrite entry_push_lookup, lookup_empty. destruct (of_key key l); done. Qed.

Lemma sum_each_lookup l : forall acc m, NoDup l.*1 -> sum_each l acc = Ok m -> forall key,
  (forall cs, (key, cs) ∈ l -> exists s, m !! key = Some s /\ sum_commits cs [] = Ok s) /\
  (key ∉ l.*1 -> m !! key = acc !! key).
Proof.
  induction l as [|[k cs] l IH]; intros acc m Hnd H key.
  { injection H as ->. split; [intros cs Hin; inversion Hin|done]. }
  cbn [sum_each] in H. destruct (sum_commits cs []) as [s|e|] eqn:Es; cbn [res_bind] in H; [|done|done].
  cbn in Hnd. inversion Hnd as [|? ? Hk Hnd']; subst. clear Hnd; rename Hnd' into Hnd. destruct (IH _ _ Hnd H key) as [IH1 IH2]. split.
  - intros cs' Hin. apply elem_of_cons in Hin as [[= -> ->]|Hin]; [|apply IH1, Hin].
    exists s. rewrite IH2, lookup_insert_eq by done. done.
  - intros Hn. cbn in Hn. apply not_elem_of_cons in Hn as [Hne Hn].
    rewrite IH2, lookup_insert_ne by done. done.
Qed.

Lemma sum_each_map (v : gmap TokenKey (list Commitment)) m : sum_each (map_to_list v) ∅ = Ok m -> forall key,
  match v !! key with
  | Some cs => exists s, m !! key = Some s /\ sum_commits cs [] = Ok s
  | None => m !! key = None
  end.
Proof.
  intros H key. destruct (sum_each_lookup _ _ _ (NoDup_fst_map_to_list v) H key) as [H1 H2].
  destruct (v !! key) as [cs|] eqn:E.
  - apply H1, elem_of_map_to_list, E.
  - rewrite H2, lookup_empty; [done|]. intros Hin. apply list_elem_of_fmap in Hin as ([k cs] & -> & Hin).
    apply elem_of_map_to_list in Hin. cbn in E. congruence.
Qed.

(** A passed check: the three sums of the token type are in balance. *)
Definition key_balanced (outs kerns : gmap TokenKey Commitment) (p : TokenKey * Commitment) : Prop :=
  exists o k, outs !! p.1 = Some o /\ kerns !! p.1 = Some k /\ point o =g= point p.2 + point k.

Lemma check_each_balanced l outs kerns : check_each l outs kerns = Ok tt -> Forall (key_balanced outs kerns) l.
Proof.
  induction l as [|[key i] l IH]; intros H; [constructor|]. cbn [check_each] in H.
  destruct (outs !! key) as [o|] eqn:Eo; [|done]. destruct (kerns !! key) as [k|] eqn:Ek; [|done].
  destruct (bool_decide_reflect (k = commit_to_zero_value)) as [->|].
  - destruct (bool_decide_reflect (o = i)) as [->|]; [|done]. constructor; [|apply IH, H].
    exists i, commit_to_zero_value. split; [done|split; [done|]].
    rewrite zero_commit_zero. cbn. glia.
  - destruct (sum_commits [o] [i]) as [s|e|] eqn:Es; cbn [res_bind] in H; [|done|done].
    destruct (bool_decide_reflect (s = k)) as [->|]; [|done]. constructor; [|apply IH, H].
    exists o, k. split; [done|split; [done|]]. apply sum_commits_points in Es. rewrite Es. cbn [snd]. glia.
Qed.

Lemma sum_commits_single cs s : sum_commits cs [] = Ok s -> point s =g= sum_points cs.
Proof. intros H. apply sum_commits_points in H. rewrite H. glia. Qed.

Lemma keys_included (a b : gmap TokenKey (list Commitment)) :
  (forall key, is_Some (a !! key) -> is_Some (b !! key)) -> size a = size b ->
  forall key, is_Some (a !! key) <-> is_Some (b !! key).
Proof.
  intros Hs Hl key. rewrite <- !elem_of_dom. assert (Hd : dom a ⊆ dom b).
  { intros k. rewrite !elem_of_dom. apply Hs. }
  assert (E : dom a ≡ dom b) by (apply set_subseteq_size_equiv; [done|rewrite !size_dom; lia]). rewrite E. done.
Qed.

Lemma verify_token_kernel_sum_spec {C} `{!Committed C} (x : C) sums :
  verify_token_kernel_sum x = Ok sums -> forall key,
  (is_Some (token_inputs_committed x !! key) <-> is_Some (token_outputs_committed x !! key)) /\
  (is_Some (token_inputs_committed x !! key) <-> is_Some (token_kernels_committed x !! key)) /\
  sum_points (default [] (token_outputs_committed x !! key))
  =g= sum_points (default [] (token_inputs_committed x !! key))
      + sum_points (default [] (token_kernels_committed x !! key)).
Proof.
  unfold verify_token_kernel_sum.
  destruct (Nat.eqb_spec (size (token_inputs_committed x)) (size (token_outputs_committed x))) as [E1|]; [|done].
  destruct (Nat.eqb_spec (size (token_outputs_committed x)) (size (token_kernels_committed x))) as [E2|]; [|done].
  cbn [negb orb].
  destruct (sum_each (map_to_list (token_inputs_committed x)) ∅) as [mi|e|] eqn:Hi; cbn [res_bind]; [|done|done].
  destruct (sum_each (map_to_list (token_outputs_committed x)) ∅) as [mo|e|] eqn:Ho; cbn [res_bind]; [|done|done].
  destruct (sum_each (map_to_list (token_kernels_committed x)) ∅) as [mk|e|] eqn:Hk; cbn [res_bind]; [|done|done].
  destruct (check_each _ _ _) as [[]|e|] eqn:Hc; cbn [res_bind]; [|done|done]. intros _.
  apply check_each_balanced in Hc. pose proof (sum_each_map _ _ Hi) as Si.
  pose proof (sum_each_map _ _ Ho) as So. pose proof (sum_each_map _ _ Hk) as Sk.
  assert (Hb : forall key cs, token_inputs_committed x !! key = Some cs -> exists i, mi !! key = Some i /\
      point i =g= sum_points cs /\ key_balanced mo mk (key, i)).
  { intros key cs E. specialize (Si key). rewrite E in Si. destruct Si as (i & Ei & Es). exists i.
    split; [done|]. split; [apply sum_commits_single, Es|]. rewrite Forall_forall in Hc.
    apply Hc, list_elem_of_In, elem_of_map_to_list, Ei. }
  assert (Ko : forall key, is_Some (token_inputs_committed x !! key) <-> is_Some (token_outputs_committed x !! key)).
  { apply keys_included; [|done]. intros key [cs E]. destruct (Hb _ _ E) as (i & _ & _ & o & k & Eo & _).
    specialize (So key). cbn in Eo. destruct (token_outputs_committed x !! key); [eauto|congruence]. }
  assert (Kk : forall key, is_Some (token_inputs_committed x !! key) <-> is_Some (token_kernels_committed x !! key)).
  { apply keys_included; [|lia]. intros key [cs E]. destruct (Hb _ _ E) as (i & _ & _ & o & k & _ & Ek & _).
    specialize (Sk key). cbn in Ek. destruct (token_kernels_committed x !! key); [eauto|congruence]. }
  intros key. split; [apply Ko|]. split; [apply Kk|]. specialize (Ko key). specialize (Kk key).
  specialize (So key). specialize (Sk key).
  destruct (token_inputs_committed x !! key) as [ci|] eqn:Ei.
  - destruct (Hb _ _ Ei) as (i & _ & Hpi & o & k & Eo & Ek & Heq). cbn in Eo, Ek, Heq.
    destruct (token_outputs_committed x !! key) as [co|]; [|congruence].
    destruct (token_kernels_committed x !! key) as [ck|]; [|congruence].
    destruct So as (o' & Eo' & So). destruct Sk as (k' & Ek' & Sk). simplify_eq. cbn [from_option id].
    rewrite <- (sum_commits_single _ _ So), <- (sum_commits_single _ _ Sk), <- Hpi. done.
  - destruct (token_outputs_committed x !! key); [destruct (proj2 Ko ltac:(eauto)); done|].
    destruct (token_kernels_committed x !! key); [destruct (proj2 Kk ltac:(eauto)); done|]. done.
Qed.
End TokenSums.

(** ** Running token sums *)

Lemma insert_sums_lookup sums key c : forall m,
  sums !! key = Some c -> insert_sums m sums !! key = Some [c].
Proof.
  intros m H. unfold insert_sums. apply elem_of_map_to_list in H.
  pose proof (NoDup_fst_map_to_list sums) as Hnd. revert m H Hnd.
  induction (map_to_list sums) as [|[k c'] l IH]; intros m H Hnd; [inversion H|].
  cbn in Hnd. inversion Hnd as [|? ? Hk Hnd']; subst. cbn [foldl fst snd].
  apply elem_of_cons in H as [[= -> ->]|H]; [|apply IH; done].
  assert (Hkeep : forall l m, k ∉ l.*1 ->
    foldl (fun (m : gmap TokenKey (list Commitment)) p => <[p.1 := [p.2]]> m) m l !! k = m !! k).
  { clear. induction l as [|[k2 c2] l IH]; intros m Hn; [done|]. cbn [foldl fst snd]. cbn in Hn.
    apply not_elem_of_cons in Hn as [Hne Hn]. rewrite IH, lookup_insert_ne by done. done. }
  rewrite Hkeep, lookup_insert_eq by done. done.
Qed.

Section RunningSums.
  Context `{SL : SecpLaws} {C : Type} `{!Committed C}.

(** What [verify_token_kernel_sum] returns for one map. *)
Lemma verify_token_kernel_sum_maps {D} `{!Committed D} (x : D) sums :
  verify_token_kernel_sum x = Ok sums -> forall key,
  (forall cs, token_inputs_committed x !! key = Some cs ->
     exists s, token_issue_commit_map sums !! key = Some s /\ sum_commits cs [] = Ok s) /\
  (forall cs, token_outputs_committed x !! key = Some cs ->
     exists s, token_utxo_sum_map sums !! key = Some s /\ sum_commits cs [] = Ok s) /\
  (forall cs, token_kernels_committed x !! key = Some cs ->
     exists s, token_kernel_sum_map sums !! key = Some s /\ sum_commits cs [] = Ok s).
Proof.
  unfold verify_token_kernel_sum. destruct (_ || _); [done|].
  destruct (sum_each (map_to_list (token_inputs_committed x)) ∅) as [mi|e|] eqn:Hi; cbn [res_bind]; [|done|done].
  destruct (sum_each (map_to_list (token_outputs_committed x)) ∅) as [mo|e|] eqn:Ho; cbn [res_bind]; [|done|done].
  destruct (sum_each (map_to_list (token_kernels_committed x)) ∅) as [mk|e|] eqn:Hk; cbn [res_bind]; [|done|done].
  destruct (check_each _ _ _) as [[]|e|]; cbn [res_bind]; [|done|done]. intros [= <-] key. cbn.
  pose proof (sum_each_map _ _ Hi key) as Si. pose proof (sum_each_map _ _ Ho key) as So.
  pose proof (sum_each_map _ _ Hk key) as Sk.
  split; [|split]; intros cs E; [rewrite E in Si|rewrite E in So|rewrite E in Sk]; done.
Qed.
End RunningSums.

(** ** Theorems *)

(** C21: [Committed::verify_kernel_sums] accepts exactly what balances.  For every
    implementor and every [i64] overage: when it succeeds, outputs plus overage
    equal inputs plus excesses plus offset in the group, and the two returned
    sums are those of the unspent outputs (with the overage) and of the kernels;
    [KernelSumMismatch] means that the equation fails; the other errors are a
    refused curve operation, an offset that is no key, and the one overage
    without absolute value.  It never panics. *)
Theorem kernel_sums_balance `{SL : SecpLaws} {C} `{!Committed C} (x : C) overage offset :
  - 2 ^ 63 <= overage < 2 ^ 63 ->
  match verify_kernel_sums x overage offset with
  | Ok (u, k) =>
      balanced x overage offset /\
      point u =g= sum_points (outputs_committed x) - sum_points (inputs_committed x) + overage * value_point /\
      point k =g= sum_points (kernels_committed x)
  | Err CKernelSumMismatch => ~ balanced x overage offset
  | Err CInvalidValue => overage = - 2 ^ 63
  | Err CKeychain => secret_key offset = None
  | Err CSecp => True
  | Err CTokenSumMismatch | Panic => False
  end.
Proof. apply verify_kernel_sums_spec. Qed.

(** A transaction body that passes [verify_token_kernel_sum] creates no
    tokens: for every token type, the outputs with the feature [Token] sum to the
    token inputs plus the excesses of the plain token kernels of that type, and
    the same token types occur in the three. *)
Theorem token_sums_balance `{SL : SecpLaws} (b : TransactionBody) sums :
  verify_token_kernel_sum b = Ok sums -> forall key,
  let ins := of_key key (map (fun i => (input_token_type i, token_input_commit i)) (token_inputs b)) in
  let outs := of_key key (map (fun o => (output_token_type o, token_output_commit o))
                (List.filter (fun o => of_is_token (token_output_features o)) (token_outputs b))) in
  let kerns := of_key key (map (fun k => (kernel_token_type k, token_excess k))
                 (List.filter is_plain_token (token_kernels b))) in
  sum_points outs =g= sum_points ins + sum_points kerns /\
  (ins = [] <-> outs = []) /\ (ins = [] <-> kerns = []).
Proof.
  intros H key ins outs kerns. destruct (verify_token_kernel_sum_spec b sums H key) as (Ho & Hk & Hs).
  cbn [token_inputs_committed token_outputs_committed token_kernels_committed body_committed] in *.
  rewrite !entry_push_sum in Hs. rewrite !entry_push_lookup, !lookup_empty in Ho, Hk.
  fold ins outs kerns in Hs, Ho, Hk. split; [done|].
  assert (Hem : forall l : list Commitment,
    is_Some (match l with [] => None | c :: l' => Some (default [] None ++ c :: l') end) <-> l <> []).
  { intros [|c l]; split; [intros [? [=]]|done|done|eauto]. }
  rewrite !Hem in Ho, Hk. clear Hem Hs. split.
  - destruct ins, outs; split; intros; try done; exfalso; [apply (proj2 Ho)|apply (proj1 Ho)]; done.
  - destruct ins, kerns; split; intros; try done; exfalso; [apply (proj2 Hk)|apply (proj1 Hk)]; done.
Qed.

(** The running token sums do not take a block's tokens into account.  For a
    token type that the sums of the previous block know, whatever the block's own
    token inputs, outputs and kernels are, the new sums are commitments to the
    same points as before: [insert] replaces the block's commitments instead of
    adding to them. *)
Theorem running_token_sums_ignore_the_block `{SL : SecpLaws} {C} `{!Committed C} (x : C) prev next key :
  verify_token_kernel_sum (prev, x) = Ok next ->
  (forall c, token_issue_commit_map prev !! key = Some c ->
     exists c', token_issue_commit_map next !! key = Some c' /\ point c' =g= point c) /\
  (forall c, token_utxo_sum_map prev !! key = Some c ->
     exists c', token_utxo_sum_map next !! key = Some c' /\ point c' =g= point c) /\
  (forall c, token_kernel_sum_map prev !! key = Some c ->
     exists c', token_kernel_sum_map next !! key = Some c' /\ point c' =g= point c).
Proof.
  intros H. destruct (verify_token_kernel_sum_maps _ _ H key) as (Hi & Ho & Hk).
  assert (Hone : forall c s, sum_commits [c] [] = Ok s -> point s =g= point c).
  { intros c s Hs. rewrite (sum_commits_single _ _ Hs). glia. }
  split; [|split]; intros c E;
    [destruct (Hi [c]) as (s & E' & Hs)|destruct (Ho [c]) as (s & E' & Hs)|destruct (Hk [c]) as (s & E' & Hs)];
    try (apply insert_sums_lookup, E); eauto.
Qed.

(** ** A concrete group: one-byte commitments modulo 101 *)

Definition demo_point (c : Commitment) : Z := match commit_bytes c with [z] => z | _ => 0 end.
Definition demo_order : Z := 101.

Definition demo_sum (p n : list Z) : option Z :=
  let s := (foldr Z.add 0 p - foldr Z.add 0 n) mod demo_order in
  if s =? 0 then None else Some s.

Definition key_val (k : SecretKey) : Z := be_val (secret_bytes k).

Definition demo_secp : Secp := {|
  commit_sum p n := s ← demo_sum (map demo_point p) (map demo_point n); Some (mkCommitment [s]);
  commit v k := Some (mkCommitment [(v * 3 + key_val k) mod demo_order]);
  commit_value v := Some (mkCommitment [(v * 3) mod demo_order]);
  commitment_from_vec v := mkCommitment v;
  blind_sum p n := s ← demo_sum (map key_val p) (map key_val n); Some (mkSecretKey (be_bytes 32 s));
  secret_key_from_slice b := if (length b =? 32)%nat then Some (mkSecretKey b) else None;
  ZERO_KEY := mkSecretKey (replicate 32 0)
|}.

Lemma demo_sum_spec p n s : demo_sum p n = Some s ->
  s = (foldr Z.add 0 p - foldr Z.add 0 n) mod 101 /\ 0 < s < 101.
Proof.
  unfold demo_sum, demo_order. destruct (Z.eqb_spec ((foldr Z.add 0 p - foldr Z.add 0 n) mod 101) 0); [done|].
  intros [= <-]. pose proof (Z.mod_pos_bound (foldr Z.add 0 p - foldr Z.add 0 n) 101 ltac:(lia)). lia.
Qed.

Definition demo_laws : SecpLaws (SS := demo_sizes) (SP := demo_secp).
Proof.
  refine {| group_order := demo_order; point := demo_point; value_point := 3 |}; unfold demo_order; cbn -[be_val be_bytes].
  - lia.
  - intros p n c H. destruct (demo_sum _ _) as [s|] eqn:E; [|done]. injection H as <-. cbn -[be_val be_bytes].
    apply demo_sum_spec in E as [-> _]. rewrite Z.mod_mod by lia. done.
  - intros p n c H. destruct (demo_sum _ _) as [s|] eqn:E; [|done]. injection H as <-. cbn -[be_val be_bytes].
    apply demo_sum_spec in E as [_ E]. rewrite Z.mod_small; lia.
  - intros p n c p' n' c' H H' He. destruct (demo_sum (map demo_point p) _) as [s|] eqn:E; [|done].
    destruct (demo_sum (map demo_point p') _) as [s'|] eqn:E'; [|done]. injection H as <-. injection H' as <-.
    cbn in He. apply demo_sum_spec in E as [_ E]. apply demo_sum_spec in E' as [_ E'].
    rewrite !Z.mod_small in He by lia. congruence.
  - done.
  - intros v _. eauto.
  - intros v c [= <-]. cbn -[be_val be_bytes]. rewrite Z.mod_mod by lia. done.
  - intros v k c [= <-]. cbn -[be_val be_bytes]. rewrite Z.mod_mod by lia. done.
  - intros p n k H. destruct (demo_sum _ _) as [s|] eqn:E; [|done]. injection H as <-. cbn -[be_val be_bytes].
    apply demo_sum_spec in E as [-> E]. rewrite be_val_be_bytes; [rewrite Z.mod_mod by lia; done|].
    change (256 ^ Z.of_nat 32) with (256 ^ 32). split; [lia|]. eapply Z.lt_trans; [apply E|reflexivity].
  - intros p n k H. destruct (demo_sum _ _) as [s|] eqn:E; [|done]. injection H as <-. cbn -[be_val be_bytes].
    rewrite length_be_bytes. done.
  - intros b k H. destruct (Nat.eqb_spec (length b) 32); [|done]. injection H as <-. done.
  - done.
Defined.

#[local] Existing Instance demo_sizes.
#[local] Existing Instance demo_secp.
#[local] Existing Instance demo_laws.

Definition small_commit (z : Z) : Commitment := mkCommitment [z].

(** Spends 40 for 30 with a fee of 2 (at the point 6); offset 5, excess 92. *)
Definition small_body : TransactionBody :=
  mkBody [mkInput OPlain (small_commit 40)] []
    [mkOutput OPlain (small_commit 30) (mkRangeProof [] 0)] []
    [mkTxKernel (KPlain 2) (small_commit 92) (mkSignature [])] [].
Definition small_offset : BlindingFactor := mkBlinding (replicate 31 0 ++ [5]).

Lemma kernel_sums_balance_witness :
  verify_kernel_sums small_body 2 small_offset = Ok (small_commit 97, small_commit 92) /\
  balanced small_body 2 small_offset.
Proof.
  split; [reflexivity|].
  pose proof (kernel_sums_balance small_body 2 small_offset) as H.
  destruct H as [H _]; [split; [|reflexivity]; apply Z.leb_le; reflexivity|exact H].
Defined.

Definition gold : TokenKey := mkTokenKey (replicate 32 1).

(** Moves 10 units of a token from one output to another. *)
Definition token_body : TransactionBody :=
  mkBody [] [mkTokenInput OToken gold (small_commit 10)] []
    [mkTokenOutput OToken gold (small_commit 17) (mkRangeProof [] 0)] []
    [mkTokenTxKernel PlainToken gold (small_commit 7) (mkSignature [])].
Definition token_body_sums : BlockTokenSums :=
  mkBlockTokenSums {[ gold := small_commit 10 ]} {[ gold := small_commit 17 ]} {[ gold := small_commit 7 ]}.

Lemma token_sums_balance_witness :
  verify_token_kernel_sum token_body = Ok token_body_sums /\
  sum_points [small_commit 17] =g= sum_points [small_commit 10] + sum_points [small_commit 7].
Proof.
  split; [vm_compute; reflexivity|].
  pose proof (token_sums_balance token_body token_body_sums) as H.
  destruct (H ltac:(vm_compute; reflexivity) gold) as [H' _]. exact H'.
Defined.

(** The same block applied again, on top of its own sums: they do not move. *)
Lemma running_token_sums_ignore_the_block_witness :
  verify_token_kernel_sum (token_body_sums, token_body) = Ok token_body_sums /\
  exists c', token_utxo_sum_map token_body_sums !! gold = Some c' /\ point c' =g= point (small_commit 17).
Proof.
  split; [vm_compute; reflexivity|].
  pose proof (running_token_sums_ignore_the_block token_body token_body_sums token_body_sums gold) as H.
  destruct (H ltac:(vm_compute; reflexivity)) as (_ & H' & _). apply H'. reflexivity.
Defined.
