(* ===== verification/Verifier.v ===== *)
(** * Signatures, range proofs and the verifier cache

    Models [core/src/core/verifier_cache.rs], the batch verifications and the
    full validation of [core/src/core/transaction.rs].

    Signature and range-proof verification are the parameters [SecpVerify] of the
    curve library, the LRU cache of the [lru_cache] crate is the interface
    [LruCache].  The lock around the verifier is explicit state: [validate]
    returns the verifier it leaves behind. *)

From Stdlib Require Import ZArith Lia List Bool.
From stdpp Require Import base numbers list option gmap.
From S2P Require Import Prelude Bytes Consensus Ser Transaction TxBody Committed.

(** ** The libraries *)

Class SecpVerify := {
  PublicKey : Type;
  Message : Type;
  to_pubkey : Commitment -> option PublicKey;
  message_from_slice : bytes -> option Message;
  verify_single : Signature -> Message -> PublicKey -> bool;
  verify_batch : list Signature -> list Message -> list PublicKey -> bool;
  verify_bullet_proof : Commitment -> RangeProof -> bool;
  verify_bullet_proof_multi : list Commitment -> list RangeProof -> bool
}.

(** A batch is accepted only when each of its members is. *)
Class SecpVerifyLaws `{SV : SecpVerify} := {
  verify_batch_each sigs msgs pubkeys : verify_batch sigs msgs pubkeys = true ->
    forall i s m p, sigs !! i = Some s -> msgs !! i = Some m -> pubkeys !! i = Some p ->
      verify_single s m p = true;
  verify_bullet_proof_multi_each commits proofs : verify_bullet_proof_multi commits proofs = true ->
    forall i c p, commits !! i = Some c -> proofs !! i = Some p -> verify_bullet_proof c p = true
}.

(** A cache of keys; inserting may drop other keys. *)
Class LruCache (L : Type) := {
  lru_new : L;
  contains_key : L -> bytes -> bool;
  lru_insert : L -> bytes -> L;
  lru_new_empty k : contains_key lru_new k = false;
  lru_insert_self l k : contains_key (lru_insert l k) k = true;
  lru_insert_other l k k' : contains_key (lru_insert l k) k' = true -> k' = k \/ contains_key l k' = true
}.

(** ** The verifier cache *)

Record LruVerifierCache (L : Type) := mkVerifier {
  kernel_sig_verification_cache : L;
  rangeproof_verification_cache : L
}.
Arguments mkVerifier {L}.
Arguments kernel_sig_verification_cache {L}.
Arguments rangeproof_verification_cache {L}.

Section Cache.
  Context {DG : Digest} {L : Type} `{!LruCache L}.
  Implicit Types (vc : LruVerifierCache L).

(** [LruVerifierCache::new] *)
Definition verifier_new : LruVerifierCache L := mkVerifier lru_new lru_new.

Definition filter_kernel_sig_unverified vc (kernels : list TxKernel) : list TxKernel :=
  List.filter (fun x => negb (contains_key (kernel_sig_verification_cache vc) (hash x))) kernels.
Definition filter_token_kernel_sig_unverified vc (kernels : list TokenTxKernel) : list TokenTxKernel :=
  List.filter (fun x => negb (contains_key (kernel_sig_verification_cache vc) (hash x))) kernels.
Definition filter_rangeproof_unverified vc (outputs : list Output) : list Output :=
  List.filter (fun x => negb (contains_key (rangeproof_verification_cache vc) (hash (output_proof x)))) outputs.
Definition filter_token_rangeproof_unverified vc (outputs : list TokenOutput) : list TokenOutput :=
  List.filter (fun x => negb (contains_key (rangeproof_verification_cache vc) (hash (token_output_proof x)))) outputs.

Definition add_kernel_sig_verified vc (kernels : list TxKernel) : LruVerifierCache L :=
  mkVerifier (foldl lru_insert (kernel_sig_verification_cache vc) (map hash kernels))
    (rangeproof_verification_cache vc).
Definition add_token_kernel_sig_verified vc (kernels : list TokenTxKernel) : LruVerifierCache L :=
  mkVerifier (foldl lru_insert (kernel_sig_verification_cache vc) (map hash kernels))
    (rangeproof_verification_cache vc).
Definition add_rangeproof_verified vc (outputs : list Output) : LruVerifierCache L :=
  mkVerifier (kernel_sig_verification_cache vc)
    (foldl lru_insert (rangeproof_verification_cache vc) (map (fun o => hash (output_proof o)) outputs)).
Definition add_token_rangeproof_verified vc (outputs : list TokenOutput) : LruVerifierCache L :=
  mkVerifier (kernel_sig_verification_cache vc)
    (foldl lru_insert (rangeproof_verification_cache vc) (map (fun o => hash (token_output_proof o)) outputs)).
End Cache.

(** ** Batch verification *)

Section Batch.
  Context {DG : Digest} {SV : SecpVerify}.

(** The tuples hashed into a signed message. *)
Definition kernel_msg_bytes (k : KernelFeatures) : bytes :=
  match k with
  | KPlain fee => write_u8 (kernel_as_u8 k) ++ write_u64 fee
  | KCoinbase => write_u8 (kernel_as_u8 k)
  | KHeightLocked fee lock_height => write_u8 (kernel_as_u8 k) ++ write_u64 fee ++ write_u64 lock_height
  end.

(** [KernelFeatures::kernel_sig_msg] *)
Definition kernel_sig_msg (k : KernelFeatures) : res TxError Message :=
  ok_or (message_from_slice (blake2b (kernel_msg_bytes k))) TxSecp.

Definition token_kernel_msg_bytes (k : TokenKernelFeatures) (token_type : TokenKey) : bytes :=
  match k with
  | HeightLockedToken lock_height =>
    write_u8 (token_kernel_as_u8 k) ++ write hash_writer token_type ++ write_u64 lock_height
  | _ => write_u8 (token_kernel_as_u8 k) ++ write hash_writer token_type
  end.

(** [TokenKernelFeatures::token_kernel_sig_msg] *)
Definition token_kernel_sig_msg (k : TokenKernelFeatures) (token_type : TokenKey) : res TxError Message :=
  ok_or (message_from_slice (blake2b (token_kernel_msg_bytes k token_type))) TxSecp.

(** [msg_to_sign] *)
Definition msg_to_sign (k : TxKernel) : res TxError Message := kernel_sig_msg (features k).
Definition token_msg_to_sign (k : TokenTxKernel) : res TxError Message :=
  token_kernel_sig_msg (token_features k) (kernel_token_type k).

(** [TxKernel::verify], [TokenTxKernel::verify] *)
Definition kernel_verify (k : TxKernel) : res TxError unit :=
  let? pubkey := ok_or (to_pubkey (excess k)) TxSecp in
  let? msg := msg_to_sign k in
  if negb (verify_single (excess_sig k) msg pubkey) then Err IncorrectSignature else Ok tt.
Definition token_kernel_verify (k : TokenTxKernel) : res TxError unit :=
  let? pubkey := ok_or (to_pubkey (token_excess k)) TxSecp in
  let? msg := token_msg_to_sign k in
  if negb (verify_single (token_excess_sig k) msg pubkey) then Err IncorrectSignature else Ok tt.

(** The loop that collects signatures, public keys and messages. *)
Fixpoint collect_sigs {K} (sig : K -> Signature) (key : K -> Commitment) (msg : K -> res TxError Message)
    (kernels : list K) : res TxError (list Signature * list PublicKey * list Message) :=
  match kernels with
  | [] => Ok ([], [], [])
  | k :: kernels =>
    let? pubkey := ok_or (to_pubkey (key k)) TxSecp in
    let? m := msg k in
    let? '(sigs, pubkeys, msgs) := collect_sigs sig key msg kernels in
    Ok (sig k :: sigs, pubkey :: pubkeys, m :: msgs)
  end.

(** [TxKernel::batch_sig_verify], [TokenTxKernel::batch_sig_verify] *)
Definition batch_sig_verify (tx_kernels : list TxKernel) : res TxError unit :=
  let? '(sigs, pubkeys, msgs) := collect_sigs excess_sig excess msg_to_sign tx_kernels in
  if negb (verify_batch sigs msgs pubkeys) then Err IncorrectSignature else Ok tt.
Definition token_batch_sig_verify (tx_kernels : list TokenTxKernel) : res TxError unit :=
  let? '(sigs, pubkeys, msgs) := collect_sigs token_excess_sig token_excess token_msg_to_sign tx_kernels in
  if negb (verify_batch sigs msgs pubkeys) then Err IncorrectSignature else Ok tt.

(** [Output::verify_proof], [TokenOutput::verify_proof] *)
Definition verify_proof (o : Output) : res TxError unit :=
  if verify_bullet_proof (output_commit o) (output_proof o) then Ok tt else Err TxSecp.
Definition token_verify_proof (o : TokenOutput) : res TxError unit :=
  if verify_bullet_proof (token_output_commit o) (token_output_proof o) then Ok tt else Err TxSecp.

(** [Output::batch_verify_proofs] *)
Definition batch_verify_proofs (commits : list Commitment) (proofs : list RangeProof) : res TxError unit :=
  if verify_bullet_proof_multi commits proofs then Ok tt else Err TxSecp.
End Batch.

(** ** Full validation *)

Section Validate.
  Context {DG : Digest} {SV : SecpVerify} {L : Type} `{!LruCache L}.
  Implicit Types (vc : LruVerifierCache L).

(** The checks of [TransactionBody::validate] and what they add to the verifier. *)
Definition validate_checks (ct : ChainTypes) (b : TransactionBody) (weighting : Weighting) vc
    : res TxError (LruVerifierCache L) :=
  let? _ := validate_read ct b weighting in
  let? _ := validate_issue_token_output b in
  let outputs := filter_rangeproof_unverified vc (outputs b) in
  let? _ :=
    match outputs with
    | [] => Ok tt
    | _ => batch_verify_proofs (map output_commit outputs) (map output_proof outputs)
    end in
  let token_outputs := filter_token_rangeproof_unverified vc (token_outputs b) in
  let? _ :=
    match token_outputs with
    | [] => Ok tt
    | _ => batch_verify_proofs (map token_output_commit token_outputs) (map token_output_proof token_outputs)
    end in
  let kernels := filter_kernel_sig_unverified vc (kernels b) in
  let? _ := batch_sig_verify kernels in
  let token_kernels := filter_token_kernel_sig_unverified vc (token_kernels b) in
  let? _ := token_batch_sig_verify token_kernels in
  let vc := add_rangeproof_verified vc outputs in
  let vc := add_token_rangeproof_verified vc token_outputs in
  let vc := add_kernel_sig_verified vc kernels in
  Ok (add_token_kernel_sig_verified vc token_kernels).

(** [TransactionBody::validate]: the outcome and the verifier left behind.  A
    failed validation adds nothing. *)
Definition body_validate (ct : ChainTypes) (b : TransactionBody) (weighting : Weighting) vc
    : res TxError unit * LruVerifierCache L :=
  match validate_checks ct b weighting vc with
  | Ok vc' => (Ok tt, vc')
  | Err e => (Err e, vc)
  | Panic => (Panic, vc)
  end.

(** [Transaction::validate] *)
Definition tx_validate {SS : SecpSizes} {SP : Secp} (ct : ChainTypes) (tx : Transaction)
    (weighting : Weighting) vc : res TxError unit * LruVerifierCache L :=
  let '(r, vc) := body_validate ct (body tx) weighting vc in
  (let? _ := r in
   let? _ := verify_features (body tx) in
   let? _ := map_err TxCommitted (verify_kernel_sums tx (overage (body tx)) (offset tx)) in
   let? _ := map_err TxCommitted (verify_token_kernel_sum tx) in
   Ok tt, vc).
End Validate.

(** ** Batches verify their members *)

Section BatchProofs.
  Context {DG : Digest} `{SVL : SecpVerifyLaws}.

Lemma collect_sigs_each {K} sig key (msg : K -> res TxError Message) ks : forall sigs pubkeys msgs,
  collect_sigs sig key msg ks = Ok (sigs, pubkeys, msgs) -> verify_batch sigs msgs pubkeys = true ->
  forall k, In k ks -> exists p m, to_pubkey (key k) = Some p /\ msg k = Ok m /\ verify_single (sig k) m p = true.
Proof.
  intros sigs pubkeys msgs H Hb.
  assert (Hlook : forall i k, ks !! i = Some k -> exists p m, to_pubkey (key k) = Some p /\ msg k = Ok m /\
    sigs !! i = Some (sig k) /\ pubkeys !! i = Some p /\ msgs !! i = Some m).
  { clear Hb. revert sigs pubkeys msgs H. induction ks as [|k0 ks IH]; intros sigs pubkeys msgs H i k Hi; [done|].
    cbn [collect_sigs] in H. destruct (to_pubkey (key k0)) as [p|] eqn:Ep; [|done]. cbn [ok_or res_bind] in H.
    destruct (msg k0) as [m|e|] eqn:Em; cbn [res_bind] in H; [|done|done].
    destruct (collect_sigs sig key msg ks) as [[[sigs' pubkeys'] msgs']|e|]; cbn [res_bind] in H; [|done|done].
    injection H as <- <- <-. destruct i as [|i]; [injection Hi as <-; exists p, m; done|].
    apply (IH _ _ _ eq_refl i k Hi). }
  intros k Hin. apply list_elem_of_In, list_elem_of_lookup in Hin as [i Hi].
  destruct (Hlook i k Hi) as (p & m & Ep & Em & E1 & E2 & E3). exists p, m. split; [done|]. split; [done|].
  eapply verify_batch_each; done.
Qed.

Lemma batch_sig_verify_each ks : batch_sig_verify ks = Ok tt -> forall k, In k ks -> kernel_verify k = Ok tt.
Proof.
  unfold batch_sig_verify. intros H k Hin.
  destruct (collect_sigs _ _ _ ks) as [[[sigs pubkeys] msgs]|e|] eqn:Ec; cbn [res_bind] in H; [|done|done].
  destruct (verify_batch sigs msgs pubkeys) eqn:Eb; [|done].
  destruct (collect_sigs_each _ _ _ _ _ _ _ Ec Eb k Hin) as (p & m & Ep & Em & Ev).
  unfold kernel_verify. rewrite Ep. cbn [ok_or res_bind]. rewrite Em. cbn [res_bind]. rewrite Ev. done.
Qed.

Lemma token_batch_sig_verify_each ks : token_batch_sig_verify ks = Ok tt -> forall k, In k ks -> token_kernel_verify k = Ok tt.
Proof.
  unfold token_batch_sig_verify. intros H k Hin.
  destruct (collect_sigs _ _ _ ks) as [[[sigs pubkeys] msgs]|e|] eqn:Ec; cbn [res_bind] in H; [|done|done].
  destruct (verify_batch sigs msgs pubkeys) eqn:Eb; [|done].
  destruct (collect_sigs_each _ _ _ _ _ _ _ Ec Eb k Hin) as (p & m & Ep & Em & Ev).
  unfold token_kernel_verify. rewrite Ep. cbn [ok_or res_bind]. rewrite Em. cbn [res_bind]. rewrite Ev. done.
Qed.

(** One range-proof batch of [validate], for plain and token outputs alike. *)
Lemma batch_proofs_each {O} (commit : O -> Commitment) (prf : O -> RangeProof) l :
  match l with [] => Ok tt | _ => batch_verify_proofs (map commit l) (map prf l) end = Ok tt ->
  forall o, In o l -> verify_bullet_proof (commit o) (prf o) = true.
Proof.
  intros H o Hin. assert (Hm : verify_bullet_proof_multi (map commit l) (map prf l) = true).
  { destruct l; [done|]. unfold batch_verify_proofs in H. destruct (verify_bullet_proof_multi _ _); done. }
  apply list_elem_of_In, list_elem_of_lookup in Hin as [i Hi].
  eapply (verify_bullet_proof_multi_each _ _ Hm i); rewrite list_lookup_fmap, Hi; done.
Qed.
End BatchProofs.

(** ** What the cache stands for *)

Section Sound.
  Context {DG : Digest} `{SVL : SecpVerifyLaws} {L : Type} `{!LruCache L}.
  Implicit Types (vc : LruVerifierCache L).

(** Some kernel of this hash was verified; some range proof of this hash was
    verified, for some commitment. *)
Definition kernel_seen (h : bytes) : Prop :=
  (exists k : TxKernel, hash k = h /\ kernel_verify k = Ok tt) \/
  (exists k : TokenTxKernel, hash k = h /\ token_kernel_verify k = Ok tt).
Definition proof_seen (h : bytes) : Prop :=
  exists c (p : RangeProof), hash p = h /\ verify_bullet_proof c p = true.

Definition cache_sound vc : Prop :=
  (forall h, contains_key (kernel_sig_verification_cache vc) h = true -> kernel_seen h) /\
  (forall h, contains_key (rangeproof_verification_cache vc) h = true -> proof_seen h).

Lemma verifier_new_sound : cache_sound verifier_new.
Proof. split; intros h H; cbn in H; rewrite lru_new_empty in H; done. Qed.

Lemma inserted_keys l keys (P : bytes -> Prop) :
  (forall h, contains_key l h = true -> P h) -> Forall P keys ->
  forall h, contains_key (foldl lru_insert l keys) h = true -> P h.
Proof.
  intros Hl Hk. revert l Hl. induction Hk as [|k keys Hk _ IH]; intros l Hl; [done|]. cbn [foldl]. apply IH.
  intros h Hh. apply lru_insert_other in Hh as [->|Hh]; [done|apply Hl, Hh].
Qed.

(** An element is either cached or among the unverified ones. *)
Lemma cached_or_unverified {T} (l : L) (h : T -> bytes) xs x :
  In x xs -> contains_key l (h x) = true \/ In x (List.filter (fun x => negb (contains_key l (h x))) xs).
Proof.
  intros Hin. destruct (contains_key l (h x)) eqn:E; [left; done|right].
  apply filter_In. rewrite E. done.
Qed.

(** What a successful validation has checked. *)
Record checked ct b weighting vc : Prop := {
  checked_read : validate_read ct b weighting = Ok tt;
  checked_issue : validate_issue_token_output b = Ok tt;
  checked_outputs o : In o (filter_rangeproof_unverified vc (outputs b)) -> verify_proof o = Ok tt;
  checked_token_outputs o : In o (filter_token_rangeproof_unverified vc (token_outputs b)) -> token_verify_proof o = Ok tt;
  checked_kernels k : In k (filter_kernel_sig_unverified vc (kernels b)) -> kernel_verify k = Ok tt;
  checked_token_kernels k : In k (filter_token_kernel_sig_unverified vc (token_kernels b)) -> token_kernel_verify k = Ok tt
}.

Lemma validate_checked ct b weighting vc vc' :
  body_validate ct b weighting vc = (Ok tt, vc') ->
  checked ct b weighting vc /\
  vc' = add_token_kernel_sig_verified (add_kernel_sig_verified
    (add_token_rangeproof_verified (add_rangeproof_verified vc (filter_rangeproof_unverified vc (outputs b)))
      (filter_token_rangeproof_unverified vc (token_outputs b)))
    (filter_kernel_sig_unverified vc (kernels b)))
    (filter_token_kernel_sig_unverified vc (token_kernels b)).
Proof.
  unfold body_validate, validate_checks.
  destruct (validate_read ct b weighting) as [[]|e|] eqn:E1; cbn [res_bind]; [|done|done].
  destruct (validate_issue_token_output b) as [[]|e|] eqn:E2; cbn [res_bind]; [|done|done].
  destruct (match filter_rangeproof_unverified vc (outputs b) with [] => _ | _ => _ end) as [[]|e|] eqn:E3; cbn [res_bind]; [|done|done].
  destruct (match filter_token_rangeproof_unverified vc (token_outputs b) with [] => _ | _ => _ end) as [[]|e|] eqn:E4; cbn [res_bind]; [|done|done].
  destruct (batch_sig_verify _) as [[]|e|] eqn:E5; cbn [res_bind]; [|done|done].
  destruct (token_batch_sig_verify _) as [[]|e|] eqn:E6; cbn [res_bind]; [|done|done].
  intros [= <-]. split; [|done]. constructor; [done|done|..].
  - intros o Ho. unfold verify_proof. rewrite (batch_proofs_each _ _ _ E3 o Ho). done.
  - intros o Ho. unfold token_verify_proof. rewrite (batch_proofs_each _ _ _ E4 o Ho). done.
  - apply batch_sig_verify_each, E5.
  - apply token_batch_sig_verify_each, E6.
Qed.

Lemma verified_proof_seen c p : (if verify_bullet_proof c p then Ok tt else Err TxSecp) = Ok tt -> proof_seen (hash p).
Proof. intros H. exists c, p. destruct (verify_bullet_proof c p); done. Qed.

Lemma validate_sound ct b weighting vc vc' :
  cache_sound vc -> body_validate ct b weighting vc = (Ok tt, vc') ->
  cache_sound vc' /\
  (forall k, In k (kernels b) -> kernel_seen (hash k)) /\
  (forall k, In k (token_kernels b) -> kernel_seen (hash k)) /\
  (forall o, In o (outputs b) -> proof_seen (hash (output_proof o))) /\
  (forall o, In o (token_outputs b) -> proof_seen (hash (token_output_proof o))).
Proof.
  intros [Sk Sp] H. apply validate_checked in H as [[_ _ Co Cto Ck Ctk] ->].
  assert (Fk : forall k, In k (filter_kernel_sig_unverified vc (kernels b)) -> kernel_seen (hash k)) by (intros k Hk; left; eauto).
  assert (Ftk : forall k, In k (filter_token_kernel_sig_unverified vc (token_kernels b)) -> kernel_seen (hash k)) by (intros k Hk; right; eauto).
  assert (Fo : forall o, In o (filter_rangeproof_unverified vc (outputs b)) -> proof_seen (hash (output_proof o)))
    by (intros o Ho; eapply verified_proof_seen, Co, Ho).
  assert (Fto : forall o, In o (filter_token_rangeproof_unverified vc (token_outputs b)) -> proof_seen (hash (token_output_proof o)))
    by (intros o Ho; eapply verified_proof_seen, Cto, Ho).
  split; [|split; [|split; [|split]]].
  - split; cbn [kernel_sig_verification_cache rangeproof_verification_cache add_token_kernel_sig_verified
      add_kernel_sig_verified add_token_rangeproof_verified add_rangeproof_verified];
      (apply inserted_keys; [apply inserted_keys; [done|]|]);
      apply List.Forall_map, List.Forall_forall; done.
  - intros k Hk. destruct (cached_or_unverified (kernel_sig_verification_cache vc) hash _ _ Hk); eauto.
  - intros k Hk. destruct (cached_or_unverified (kernel_sig_verification_cache vc) hash _ _ Hk); eauto.
  - intros o Ho. destruct (cached_or_unverified (rangeproof_verification_cache vc) (fun o => hash (output_proof o)) _ _ Ho); eauto.
  - intros o Ho. destruct (cached_or_unverified (rangeproof_verification_cache vc) (fun o => hash (token_output_proof o)) _ _ Ho); eauto.
Qed.
End Sound.

(** ** Theorems *)

(** [TransactionBody::validate] verifies what the cache has not seen.  From a
    sound cache, a successful validation leaves a sound cache; the lightweight
    checks hold; every kernel and token kernel has the hash of a kernel whose
    signature verified, every range proof has the hash of one that verified for
    some commitment; and whatever was not cached before was verified itself, an
    output's proof against the output's own commitment.  The empty cache is
    sound. *)
Theorem validation_verifies `{SVL : SecpVerifyLaws} {DG : Digest} {L} `{!LruCache L}
    ct b weighting (vc vc' : LruVerifierCache L) :
  cache_sound vc -> body_validate ct b weighting vc = (Ok tt, vc') ->
  cache_sound vc' /\ cache_sound (verifier_new (L := L)) /\
  validate_read ct b weighting = Ok tt /\ validate_issue_token_output b = Ok tt /\
  (forall k, In k (kernels b) -> kernel_seen (hash k) /\
     (contains_key (kernel_sig_verification_cache vc) (hash k) = false -> kernel_verify k = Ok tt)) /\
  (forall k, In k (token_kernels b) -> kernel_seen (hash k) /\
     (contains_key (kernel_sig_verification_cache vc) (hash k) = false -> token_kernel_verify k = Ok tt)) /\
  (forall o, In o (outputs b) -> proof_seen (hash (output_proof o)) /\
     (contains_key (rangeproof_verification_cache vc) (hash (output_proof o)) = false -> verify_proof o = Ok tt)) /\
  (forall o, In o (token_outputs b) -> proof_seen (hash (token_output_proof o)) /\
     (contains_key (rangeproof_verification_cache vc) (hash (token_output_proof o)) = false -> token_verify_proof o = Ok tt)).
Proof.
  intros Hs H. destruct (validate_sound _ _ _ _ _ Hs H) as (Hs' & Sk & Stk & So & Sto).
  apply validate_checked in H as [[C1 C2 Co Cto Ck Ctk] _].
  split; [done|]. split; [apply verifier_new_sound|]. split; [done|]. split; [done|].
  split; [|split; [|split]]; intros x Hx; (split; [auto|]); intros Hc;
    [apply Ck|apply Ctk|apply Co|apply Cto]; apply filter_In; rewrite Hc; done.
Qed.

(** The range-proof cache does not know the commitment.  It is keyed by the
    hash of the proof alone: once any output with a given range proof has been
    added, a body whose outputs carry that proof is accepted by
    [TransactionBody::validate] as soon as its other checks pass, whatever the
    commitments of these outputs are, without any range-proof verification. *)
Theorem cached_rangeproof_fits_any_commitment {SV : SecpVerify} {DG : Digest} {L} `{!LruCache L}
    ct b weighting (vc : LruVerifierCache L) (o : Output) :
  Forall (fun o' => output_proof o' = output_proof o) (outputs b) -> token_outputs b = [] ->
  validate_read ct b weighting = Ok tt -> validate_issue_token_output b = Ok tt ->
  batch_sig_verify (filter_kernel_sig_unverified vc (kernels b)) = Ok tt ->
  token_batch_sig_verify (filter_token_kernel_sig_unverified vc (token_kernels b)) = Ok tt ->
  (body_validate ct b weighting (add_rangeproof_verified vc [o])).1 = Ok tt.
Proof.
  intros Ho Ht H1 H2 H3 H4. unfold body_validate, validate_checks. rewrite H1, H2. cbn [res_bind].
  assert (E : filter_rangeproof_unverified (add_rangeproof_verified vc [o]) (outputs b) = []).
  { unfold filter_rangeproof_unverified. induction Ho as [|o' l Ho' _ IH]; [done|]. cbn [List.filter]. rewrite Ho'.
    cbn [add_rangeproof_verified rangeproof_verification_cache map foldl] in *.
    rewrite lru_insert_self. cbn [negb]. exact IH. }
  rewrite E, Ht. cbn [filter_token_rangeproof_unverified List.filter res_bind].
  change (filter_kernel_sig_unverified (add_rangeproof_verified vc [o]) (kernels b))
    with (filter_kernel_sig_unverified vc (kernels b)).
  change (filter_token_kernel_sig_unverified (add_rangeproof_verified vc [o]) (token_kernels b))
    with (filter_token_kernel_sig_unverified vc (token_kernels b)).
  rewrite H3, H4. done.
Qed.

(** ** Concrete instances *)

(** A cache for 50_000 keys: the newest first, the oldest dropped. *)
#[export] Instance list_lru : LruCache (list bytes).
Proof.
  refine {| lru_new := [];
    contains_key l k := existsb (fun x => bool_decide (x = k)) l;
    lru_insert l k := k :: take (Z.to_nat 49999) (List.filter (fun x => negb (bool_decide (x = k))) l) |}.
  - done.
  - intros l k. cbn [existsb]. rewrite bool_decide_true by done. done.
  - intros l k k' H. cbn [existsb] in H. apply orb_true_iff in H as [H|H].
    + apply bool_decide_eq_true in H. left. done.
    + right. apply existsb_exists in H as (x & Hin & Hx). apply existsb_exists. exists x. split; [|done].
      apply list_elem_of_In, elem_of_take in Hin as (i & Hi & _).
      apply list_elem_of_lookup_2, list_elem_of_In, filter_In in Hi as [Hi _]. exact Hi.
Defined.

(** Signatures always verify; a range proof fits the commitment it starts with. *)
Definition demo_fits (c : Commitment) (p : RangeProof) : bool :=
  bool_decide (commit_bytes c = take 1 (proof_bytes p)).

Definition demo_verify : SecpVerify := {|
  PublicKey := unit; Message := unit;
  to_pubkey _ := Some tt; message_from_slice _ := Some tt;
  verify_single _ _ _ := true; verify_batch _ _ _ := true;
  verify_bullet_proof := demo_fits;
  verify_bullet_proof_multi cs ps := forallb (fun p => demo_fits p.1 p.2) (zip cs ps)
|}.

Definition demo_verify_laws : SecpVerifyLaws (SV := demo_verify).
Proof.
  constructor; [done|]. cbn. intros cs ps H i c p Hc Hp. rewrite forallb_forall in H.
  apply (H (c, p)), list_elem_of_In, list_elem_of_lookup. exists i.
  apply lookup_zip_Some. done.
Defined.

#[local] Existing Instance demo_digest.
#[local] Existing Instance demo_verify.
#[local] Existing Instance demo_verify_laws.

Definition proven_output (c : Z) : Output := mkOutput OPlain (small_commit c) (mkRangeProof [9] 1).
Definition output_body (c : Z) : TransactionBody :=
  mkBody [] [] [proven_output c] [] [mkTxKernel (KPlain 2) (small_commit 92) (mkSignature [])] [].

Lemma validation_verifies_witness :
  verify_proof (proven_output 9) = Ok tt /\
  cache_sound (body_validate Mainnet (output_body 9) AsTransaction (verifier_new (L := list bytes))).2.
Proof.
  split; [reflexivity|].
  apply (validation_verifies Mainnet (output_body 9) AsTransaction verifier_new);
    [apply verifier_new_sound|vm_compute; reflexivity].
Defined.

(** The proof of the output of commitment 9 passes for commitment 8. *)
Lemma cached_rangeproof_fits_any_commitment_witness :
  verify_proof (proven_output 8) = Err TxSecp /\
  (body_validate Mainnet (output_body 8) AsTransaction
    (add_rangeproof_verified (verifier_new (L := list bytes)) [proven_output 9])).1 = Ok tt.
Proof.
  split; [reflexivity|].
  apply (cached_rangeproof_fits_any_commitment Mainnet (output_body 8) AsTransaction
           (verifier_new (L := list bytes)) (proven_output 9));
    [repeat constructor|reflexivity|vm_compute; reflexivity|reflexivity|reflexivity|reflexivity].
Defined.
