(* ===== verification/Aggregate.v ===== *)
(** * Cut-through and aggregation

    Models [cut_through], [aggregate] and [deaggregate] of
    [core/src/core/transaction.rs].

    [cut_through] works in place on two sorted vectors, with two indices and the
    number of pairs cut so far; it is proved equal to a merge of the two lists. *)

From Stdlib Require Import ZArith Lia List Bool Sorted Permutation.
From stdpp Require Import base numbers list option gmap.
From S2P Require Import Prelude Bytes Consensus Ser Transaction TxBody Committed.

(** ** [cut_through] *)

(** [Vec::drain(a..b)] *)
Definition drain {A} (l : list A) (a b : nat) : list A := take a l ++ drop b l.

Section CutThrough.
  Context {DG : Digest} {A B : Type} `{!Writeable A} `{!Writeable B}.
  Context (check : A -> B -> res TxError unit).

(** [windows(2).any(|pair| pair[0] == pair[1])] *)
Fixpoint any_adjacent_equal (l : list B) : bool :=
  match l with
  | a :: (b :: _) as tl => eqb a b || any_adjacent_equal tl
  | _ => false
  end.

(** The loop over [inputs_idx], [outputs_idx] and [ncut].  It ends when one
    index leaves its vector; every turn advances one of them. *)
Fixpoint cut_loop (fuel : nat) (ins : list A) (outs : list B) (inputs_idx outputs_idx ncut : nat)
    : res TxError (list A * list B * (nat * nat * nat)) :=
  match fuel with
  | O => Ok (ins, outs, (inputs_idx, outputs_idx, ncut))
  | S fuel =>
    match ins !! inputs_idx, outs !! outputs_idx with
    | Some x, Some y =>
      match bytes_compare (hash x) (hash y) with
      | Lt => cut_loop fuel (<[(inputs_idx - ncut)%nat := x]> ins) outs (S inputs_idx) outputs_idx ncut
      | Gt => cut_loop fuel ins (<[(outputs_idx - ncut)%nat := y]> outs) inputs_idx (S outputs_idx) ncut
      | Eq =>
        let? _ := check x y in
        cut_loop fuel ins outs (S inputs_idx) (S outputs_idx) (S ncut)
      end
    | _, _ => Ok (ins, outs, (inputs_idx, outputs_idx, ncut))
    end
  end.

(** One half of [cut_through]: sort, refuse duplicate outputs, cut, drain. *)
Definition cut_through_half (ins : list A) (outs : list B) : res TxError (list A * list B) :=
  let outs := sort_unstable outs in
  if any_adjacent_equal outs then Err AggregationError
  else
    let ins := sort_unstable ins in
    let? '(ins, outs, (inputs_idx, outputs_idx, ncut)) :=
      cut_loop (length ins + length outs) ins outs 0 0 0 in
    Ok (drain ins (inputs_idx - ncut) inputs_idx, drain outs (outputs_idx - ncut) outputs_idx).

(** The reference: a merge that keeps what is unmatched and returns the pairs. *)
Fixpoint cut_merge (fuel : nat) (ins : list A) (outs : list B)
    : res TxError (list A * list B * list (A * B)) :=
  match fuel with
  | O => Ok (ins, outs, [])
  | S fuel =>
    match ins, outs with
    | x :: ins', y :: outs' =>
      match bytes_compare (hash x) (hash y) with
      | Lt => let? '(ki, ko, cut) := cut_merge fuel ins' outs in Ok (x :: ki, ko, cut)
      | Gt => let? '(ki, ko, cut) := cut_merge fuel ins outs' in Ok (ki, y :: ko, cut)
      | Eq =>
        let? _ := check x y in
        let? '(ki, ko, cut) := cut_merge fuel ins' outs' in Ok (ki, ko, (x, y) :: cut)
      end
    | _, _ => Ok (ins, outs, [])
    end
  end.
End CutThrough.

(** The check of the second loop *)
Definition token_types_match (i : TokenInput) (o : TokenOutput) : res TxError unit :=
  if negb (bool_decide (input_token_type i = output_token_type o)) then Err TokenTypeMismatch else Ok tt.

(** [cut_through] *)
Definition cut_through {DG : Digest} (ins : list Input) (outs : list Output)
    (tins : list TokenInput) (touts : list TokenOutput)
    : res TxError (list Input * list Output * list TokenInput * list TokenOutput) :=
  let? '(ins, outs) := cut_through_half (fun _ _ => Ok tt) ins outs in
  let? '(tins, touts) :=
    cut_through_half token_types_match tins touts in
  Ok (ins, outs, tins, touts).

(** ** Aggregation *)

Section Aggregation.
  Context {DG : Digest} {SS : SecpSizes} {SP : Secp}.

(** [Transaction::new] with an offset *)
Definition new_tx (inputs : list Input) (outputs : list Output) (token_inputs : list TokenInput)
    (token_outputs : list TokenOutput) (kernels : list TxKernel) (token_kernels : list TokenTxKernel)
    (offset : BlindingFactor) : res TxError Transaction :=
  match init inputs outputs kernels token_inputs token_outputs token_kernels false with
  | Ok body => Ok (mkTx offset body)
  | _ => Panic
  end.

(** [aggregate] *)
Definition aggregate (txs : list Transaction) : res TxError Transaction :=
  match txs with
  | [] => Ok (mkTx blind_zero empty_body)
  | [tx] => Ok tx
  | _ =>
    let? '(inputs, outputs, token_inputs, token_outputs) :=
      cut_through (concat (map (fun tx => inputs (body tx)) txs))
        (concat (map (fun tx => outputs (body tx)) txs))
        (concat (map (fun tx => token_inputs (body tx)) txs))
        (concat (map (fun tx => token_outputs (body tx)) txs)) in
    let kernels := sort_unstable (concat (map (fun tx => kernels (body tx)) txs)) in
    let token_kernels := sort_unstable (concat (map (fun tx => token_kernels (body tx)) txs)) in
    let? total_kernel_offset :=
      map_err TxCommitted (sum_kernel_offsets (map offset txs) []) in
    new_tx inputs outputs token_inputs token_outputs kernels token_kernels total_kernel_offset
  end.

(** The loops of [deaggregate]: the elements of [mk] that are not among [known],
    each once, compared by hash. *)
Fixpoint subtract {A} `{!Writeable A} (mk known acc : list A) : list A :=
  match mk with
  | [] => acc
  | x :: mk =>
    if negb (existsb (eqb x) known) && negb (existsb (eqb x) acc)
    then subtract mk known (acc ++ [x]) else subtract mk known acc
  end.

(** [deaggregate] *)
Definition deaggregate (mk_tx : Transaction) (txs : list Transaction) : res TxError Transaction :=
  let? tx := aggregate txs in
  let inputs := subtract (inputs (body mk_tx)) (inputs (body tx)) [] in
  let outputs := subtract (outputs (body mk_tx)) (outputs (body tx)) [] in
  let kernels := subtract (kernels (body mk_tx)) (kernels (body tx)) [] in
  let token_inputs := subtract (token_inputs (body mk_tx)) (token_inputs (body tx)) [] in
  let token_outputs := subtract (token_outputs (body mk_tx)) (token_outputs (body tx)) [] in
  let token_kernels := subtract (token_kernels (body mk_tx)) (token_kernels (body tx)) [] in
  let positive_key := to_secrets [offset mk_tx] in
  let negative_keys := to_secrets [offset tx] in
  let? total_kernel_offset :=
    match positive_key, negative_keys with
    | [], [] => Ok blind_zero
    | _, _ =>
      let? sum := ok_or (blind_sum positive_key negative_keys) TxSecp in
      Ok (from_secret_key sum)
    end in
  new_tx (sort_unstable inputs) (sort_unstable outputs) (sort_unstable token_inputs)
    (sort_unstable token_outputs) (sort_unstable kernels) (sort_unstable token_kernels)
    total_kernel_offset.
End Aggregation.

(** ** [cut_through] is a merge *)

Section CutThroughProofs.
  Context {DG : Digest} {A B : Type} `{!Writeable A} `{!Writeable B}.
  Context (check : A -> B -> res TxError unit).

(** The state of one vector: a kept prefix [P], a gap [G] as long as the number
    of pairs cut, and the part not looked at. *)
Lemma insert_in_gap {T} (P G : list T) x rest :
  exists G', <[length P := x]> (P ++ G ++ x :: rest) = (P ++ [x]) ++ G' ++ rest /\ length G' = length G.
Proof.
  destruct G as [|g G].
  - exists []. cbn. split; [|done]. rewrite insert_app_r_alt by lia.
    rewrite Nat.sub_diag. cbn. rewrite <- app_assoc. done.
  - exists (G ++ [x]). rewrite insert_app_r_alt by lia. rewrite Nat.sub_diag. cbn.
    rewrite <- !app_assoc. cbn. rewrite !length_app. cbn. split; [done|lia].
Qed.

Lemma drain_gap {T} (P G rest : list T) i n :
  length P = (i - n)%nat -> length G = n -> (n <= i)%nat -> drain (P ++ G ++ rest) (i - n) i = P ++ rest.
Proof.
  intros HP HG Hle. unfold drain. rewrite <- HP, take_app_length. f_equal.
  replace i with (length (P ++ G)) by (rewrite length_app; lia).
  rewrite app_assoc, drop_app_length. done.
Qed.

Lemma lookup_gap {T} (P G rest : list T) i n :
  length P = (i - n)%nat -> length G = n -> (n <= i)%nat -> (P ++ G ++ rest) !! i = head rest.
Proof.
  intros HP HG Hle. rewrite app_assoc, lookup_app_r by (rewrite length_app; lia).
  replace (i - length (P ++ G))%nat with 0%nat by (rewrite length_app; lia).
  destruct rest; done.
Qed.

Lemma cut_loop_is_merge fuel : forall i o n Pi Gi ri Po Go ro,
  length Pi = (i - n)%nat -> length Gi = n -> (n <= i)%nat ->
  length Po = (o - n)%nat -> length Go = n -> (n <= o)%nat ->
  (let? '(ins, outs, (i', o', n')) := cut_loop check fuel (Pi ++ Gi ++ ri) (Po ++ Go ++ ro) i o n in
   Ok (drain ins (i' - n') i', drain outs (o' - n') o'))
  = let? '(ki, ko, cut) := cut_merge check fuel ri ro in Ok (Pi ++ ki, Po ++ ko).
Proof.
  induction fuel as [|fuel IH]; intros i o n Pi Gi ri Po Go ro H1 H2 H3 H4 H5 H6; cbn [cut_loop cut_merge].
  - cbn. rewrite !drain_gap by done. done.
  - rewrite !(lookup_gap _ _ _ _ n) by done.
    destruct ri as [|x ri]; [cbn; rewrite !drain_gap by done; done|].
    destruct ro as [|y ro]; [cbn; rewrite !drain_gap by done; done|]. cbn [head].
    destruct (bytes_compare (hash x) (hash y)).
    + destruct (check x y) as [[]|e|]; [|done|done]. cbn [res_bind].
      replace (Pi ++ Gi ++ x :: ri) with (Pi ++ (Gi ++ [x]) ++ ri) by (rewrite <- !app_assoc; done).
      replace (Po ++ Go ++ y :: ro) with (Po ++ (Go ++ [y]) ++ ro) by (rewrite <- !app_assoc; done).
      rewrite IH by (rewrite ?length_app; cbn; lia).
      destruct (cut_merge check fuel ri ro) as [[[ki ko] cut]|e|]; done.
    + rewrite <- H1. destruct (insert_in_gap Pi Gi x ri) as (G' & -> & HG').
      rewrite IH by (rewrite ?length_app; cbn; lia).
      destruct (cut_merge check fuel ri (y :: ro)) as [[[ki ko] cut]|e|]; cbn; [|done..].
      rewrite <- app_assoc. done.
    + rewrite <- H4. destruct (insert_in_gap Po Go y ro) as (G' & -> & HG').
      rewrite IH by (rewrite ?length_app; cbn; lia).
      destruct (cut_merge check fuel (x :: ri) ro) as [[[ki ko] cut]|e|]; cbn; [|done..].
      rewrite <- app_assoc. done.
Qed.

(** Enough fuel: the two lists together. *)
Lemma cut_through_half_merge ins outs :
  cut_through_half check ins outs =
    (if any_adjacent_equal (sort_unstable outs) then Err AggregationError
     else let? '(ki, ko, _) :=
            cut_merge check (length ins + length outs) (sort_unstable ins) (sort_unstable outs) in
          Ok (ki, ko)).
Proof.
  unfold cut_through_half. destruct (any_adjacent_equal _); [done|].
  rewrite !(Permutation_length (sort_unstable_perm _)).
  apply (cut_loop_is_merge (length ins + length outs) 0 0 0 [] [] (sort_unstable ins) [] []
           (sort_unstable outs)); cbn; lia.
Qed.

(** What a cut must achieve: every input and output is either kept or matched
    with one of equal hash, and nothing more could be cut. *)
Record is_cut (ins : list A) (outs : list B) (ki : list A) (ko : list B) (cut : list (A * B)) : Prop := {
  cut_ins : Permutation ins (ki ++ map fst cut);
  cut_outs : Permutation outs (ko ++ map snd cut);
  cut_matched : Forall (fun p => hash p.1 = hash p.2 /\ check p.1 p.2 = Ok tt) cut;
  cut_kept_ins : StronglySorted bytes_le (map hash ki);
  cut_kept_outs : StronglySorted bytes_le (map hash ko);
  cut_disjoint : forall x y, In x ki -> In y ko -> hash x <> hash y
}.

Lemma sorted_tail {T} `{!Writeable T} (x : T) l :
  StronglySorted bytes_le (map hash (x :: l)) -> StronglySorted bytes_le (map hash l).
Proof. cbn. intros H. apply StronglySorted_inv in H. apply H. Qed.

Lemma sorted_cons_kept {T} `{!Writeable T} (x : T) l ks cs :
  StronglySorted bytes_le (map hash (x :: l)) -> Permutation l (ks ++ cs) ->
  StronglySorted bytes_le (map hash ks) -> StronglySorted bytes_le (map hash (x :: ks)).
Proof.
  cbn. intros H HP Hk. apply StronglySorted_inv in H as [_ H]. constructor; [done|].
  rewrite List.Forall_map in *. rewrite HP, Forall_app in H. apply H.
Qed.

Lemma lt_head_not_in {T} `{!Writeable T} (h : bytes) (y : T) l :
  StronglySorted bytes_le (map hash (y :: l)) -> bytes_lt h (hash y) ->
  forall z, In z (y :: l) -> h <> hash z.
Proof.
  intros Hs Hlt z Hin Heq. apply (below_head h (hash y) (map hash l) Hs Hlt).
  rewrite Heq. apply (in_map hash (y :: l)). done.
Qed.

Lemma cut_merge_ok fuel : forall ins outs ki ko cut,
  (length ins + length outs <= fuel)%nat ->
  StronglySorted bytes_le (map hash ins) -> StronglySorted bytes_le (map hash outs) ->
  cut_merge check fuel ins outs = Ok (ki, ko, cut) -> is_cut ins outs ki ko cut.
Proof.
  induction fuel as [|fuel IH]; intros ins outs ki ko cut Hf Hi Ho H;
    (destruct ins as [|x ins]; [cbn in H; injection H as <- <- <-;
      constructor; cbn; rewrite ?app_nil_r; [done|done|constructor|constructor|done|done]|]);
    (destruct outs as [|y outs]; [cbn in H; injection H as <- <- <-;
      constructor; cbn; rewrite ?app_nil_r; [done|done|constructor|done|constructor|done]|]);
    [cbn in Hf; lia|].
  cbn [cut_merge] in H. cbn [length] in Hf.
  pose proof (sorted_tail _ _ Hi) as Hi'. pose proof (sorted_tail _ _ Ho) as Ho'.
  destruct (bytes_compare (hash x) (hash y)) eqn:Ec.
  - destruct (check x y) as [[]|e|] eqn:Ek; [|done|done]. cbn [res_bind] in H.
    destruct (cut_merge check fuel ins outs) as [[[ki' ko'] cut']|e|] eqn:Em; [|done|done].
    injection H as <- <- <-. destruct (IH ins outs ki' ko' cut' ltac:(lia) Hi' Ho' Em) as [P1 P2 F S1 S2 D].
    apply bytes_compare_eq in Ec.
    constructor; cbn; [rewrite <- Permutation_middle, <- P1; done|rewrite <- Permutation_middle, <- P2; done
      |constructor; done|done..].
  - destruct (cut_merge check fuel ins (y :: outs)) as [[[ki' ko'] cut']|e|] eqn:Em; [|done|done].
    injection H as <- <- <-. destruct (IH ins (y :: outs) ki' ko' cut' ltac:(cbn; lia) Hi' Ho Em) as [P1 P2 F S1 S2 D].
    constructor; [rewrite P1; done|done|done|eapply sorted_cons_kept; done|done|].
    intros a b [<-|Ha] Hb; [|apply D; done]. apply (lt_head_not_in _ _ _ Ho Ec).
    eapply Permutation_in; [symmetry; exact P2|]. apply in_or_app; left; done.
  - apply bytes_gt_lt in Ec.
    destruct (cut_merge check fuel (x :: ins) outs) as [[[ki' ko'] cut']|e|] eqn:Em; [|done|done].
    injection H as <- <- <-. destruct (IH (x :: ins) outs ki' ko' cut' ltac:(cbn; lia) Hi Ho' Em) as [P1 P2 F S1 S2 D].
    constructor; [done|rewrite P2; done|done|done|eapply sorted_cons_kept; done|].
    intros a b Ha [<-|Hb]; [|apply D; done]. apply not_eq_sym, (lt_head_not_in _ _ _ Hi Ec).
    eapply Permutation_in; [symmetry; exact P1|]. apply in_or_app; left; done.
Qed.

(** The merge fails only when the check of a matched pair fails. *)
Lemma cut_merge_fails fuel : forall ins outs e,
  cut_merge check fuel ins outs = Err e ->
  exists x y, In x ins /\ In y outs /\ hash x = hash y /\ check x y = Err e.
Proof.
  induction fuel as [|fuel IH]; [done|]. intros [|x ins] [|y outs] e H; try done. cbn [cut_merge] in H.
  destruct (bytes_compare (hash x) (hash y)) eqn:Ec.
  - destruct (check x y) as [[]|e'|] eqn:Ek; cbn [res_bind] in H; [|injection H as ->|done].
    + destruct (cut_merge check fuel ins outs) as [[[ki' ko'] cut']|e'|] eqn:Em; [done| |done].
      injection H as ->. destruct (IH _ _ _ Em) as (a & b & ?). exists a, b. cbn; tauto.
    + exists x, y. apply bytes_compare_eq in Ec. cbn; tauto.
  - destruct (cut_merge check fuel ins (y :: outs)) as [[[ki' ko'] cut']|e'|] eqn:Em; [done| |done].
    injection H as ->. destruct (IH _ _ _ Em) as (a & b & ?). exists a, b. cbn in *; tauto.
  - destruct (cut_merge check fuel (x :: ins) outs) as [[[ki' ko'] cut']|e'|] eqn:Em; [done| |done].
    injection H as ->. destruct (IH _ _ _ Em) as (a & b & ?). exists a, b. cbn in *; tauto.
Qed.

(** Sorted by hash, equal hashes are neighbours. *)
Lemma any_adjacent_equal_spec (l : list B) :
  StronglySorted bytes_le (map hash l) -> (any_adjacent_equal l = false <-> NoDup (map hash l)).
Proof.
  induction l as [|a l IH]; intros Hs; [split; constructor|].
  destruct l as [|b l]; [split; [intros _; apply NoDup_singleton|done]|].
  change (any_adjacent_equal (a :: b :: l)) with (eqb a b || any_adjacent_equal (b :: l)).
  pose proof (sorted_tail _ _ Hs) as Hs'. rewrite orb_false_iff, (IH Hs').
  change (map hash (a :: b :: l)) with (hash a :: map hash (b :: l)). rewrite NoDup_cons.
  unfold eqb. rewrite bool_decide_eq_false. split; intros [H1 H2]; (split; [|done]).
  - rewrite list_elem_of_In. apply below_head; [done|]. cbn in Hs. apply StronglySorted_inv in Hs as [_ Hs].
    apply List.Forall_inv in Hs. unfold bytes_le in Hs. unfold bytes_lt.
    destruct (bytes_compare (hash a) (hash b)) eqn:E; [apply bytes_compare_eq in E|..]; done.
  - intros E. apply H1. rewrite E. cbn. left.
Qed.

Lemma cut_through_half_spec ins outs :
  match cut_through_half check ins outs with
  | Ok (ki, ko) => NoDup (map hash outs) /\ exists cut, is_cut ins outs ki ko cut
  | Err e =>
      (~ NoDup (map hash outs) /\ e = AggregationError) \/
      (NoDup (map hash outs) /\
       exists x y, In x ins /\ In y outs /\ hash x = hash y /\ check x y = Err e)
  | Panic => NoDup (map hash outs)
  end.
Proof.
  rewrite cut_through_half_merge.
  pose proof (any_adjacent_equal_spec _ (sort_unstable_sorted outs)) as Hu.
  assert (Hn : NoDup (map hash (sort_unstable outs)) <-> NoDup (map hash outs)).
  { rewrite (sort_unstable_perm outs). done. }
  destruct (any_adjacent_equal (sort_unstable outs)).
  { left. split; [|done]. rewrite <- Hn, <- Hu. done. }
  apply proj1 in Hu. specialize (Hu eq_refl). apply Hn in Hu.
  destruct (cut_merge _ _ _ _) as [[[ki ko] cut]|e|] eqn:Em; cbn; [| |done].
  - split; [done|]. exists cut. apply cut_merge_ok in Em;
      [|rewrite !(Permutation_length (sort_unstable_perm _)); lia|apply sort_unstable_sorted..].
    destruct Em as [P1 P2 F S1 S2 D]. constructor; try done.
    + rewrite <- (sort_unstable_perm ins). done.
    + rewrite <- (sort_unstable_perm outs). done.
  - right. split; [done|]. apply cut_merge_fails in Em as (x & y & Hx & Hy & Hh & Hc).
    exists x, y. split; [|split; [|done]].
    + eapply Permutation_in; [apply sort_unstable_perm|done].
    + eapply Permutation_in; [apply sort_unstable_perm|done].
Qed.

Lemma cut_merge_no_panic fuel : forall ins outs,
  (forall x y, check x y <> Panic) -> cut_merge check fuel ins outs <> Panic.
Proof.
  induction fuel as [|fuel IH]; [done|]. intros [|x ins] [|y outs] Hc; try done. cbn [cut_merge].
  destruct (bytes_compare (hash x) (hash y)).
  - specialize (Hc x y) as Hxy. specialize (IH ins outs Hc).
    destruct (check x y); [|done|done]. cbn. destruct (cut_merge _ _ _ _) as [[[] ]| |]; done.
  - specialize (IH ins (y :: outs) Hc). destruct (cut_merge _ _ _ _) as [[[] ]| |]; done.
  - specialize (IH (x :: ins) outs Hc). destruct (cut_merge _ _ _ _) as [[[] ]| |]; done.
Qed.

Lemma cut_through_half_no_panic ins outs :
  (forall x y, check x y <> Panic) -> cut_through_half check ins outs <> Panic.
Proof.
  intros Hc. rewrite cut_through_half_merge. destruct (any_adjacent_equal _); [done|].
  pose proof (cut_merge_no_panic (length ins + length outs) (sort_unstable ins) (sort_unstable outs) Hc) as H.
  destruct (cut_merge _ _ _ _) as [[[] ]| |]; done.
Qed.
End CutThroughProofs.

(** ** Aggregation keeps the balance *)

(** A quantity summed over transactions. *)
Definition total {T} (f : T -> Z) (l : list T) : Z := foldr Z.add 0 (map f l).

Lemma total_map {T U} (f : U -> Z) (g : T -> U) l : total f (map g l) = total (fun x => f (g x)) l.
Proof. unfold total. rewrite map_map. done. Qed.

Section Balance.
  Context `{SL : SecpLaws} {DG : Digest}.

Lemma sum_points_concat {T U} (f : U -> Commitment) (g : T -> list U) l :
  sum_points (map f (concat (map g l))) = total (fun x => sum_points (map f (g x))) l.
Proof.
  induction l as [|x l IH]; [done|]. cbn [map concat]. rewrite map_app, sum_points_app, IH. done.
Qed.

Lemma total_concat_omap {T U} (f : U -> option Z) (g : T -> list U) l :
  foldr Z.add 0 (omap f (concat (map g l))) = total (fun x => foldr Z.add 0 (omap f (g x))) l.
Proof.
  induction l as [|x l IH]; [done|]. cbn [map concat]. rewrite omap_app, foldr_app, IH.
  unfold total at 2. cbn [map foldr]. fold (total (fun x => foldr Z.add 0 (omap f (g x))) l).
  generalize (total (fun x => foldr Z.add 0 (omap f (g x))) l). intros z.
  induction (omap f (g x)) as [|y ys IHy]; cbn; [lia|rewrite IHy; lia].
Qed.

(** *** Fees *)

Definition exact_fee (b : TransactionBody) : Z := foldr Z.add 0 (omap kernel_fee (kernels b)).

Definition fees_ok (b : TransactionBody) : Prop := Forall (Z.le 0) (omap kernel_fee (kernels b)).

Lemma saturating_fold l : forall acc, Forall (Z.le 0) l -> 0 <= acc <= u64_max ->
  foldl saturating_add64 acc l = Z.min (acc + foldr Z.add 0 l) u64_max /\ 0 <= foldr Z.add 0 l.
Proof.
  induction l as [|x l IH]; intros acc Hf Ha; cbn [foldl foldr]; [lia|].
  apply List.Forall_cons_iff in Hf as [Hx Hf].
  destruct (IH (saturating_add64 acc x) Hf) as [-> H]; [unfold saturating_add64; lia|].
  unfold saturating_add64. lia.
Qed.

Lemma fee_exact b : fees_ok b -> exact_fee b < 2 ^ 63 ->
  fee b = exact_fee b /\ overage b = exact_fee b /\ 0 <= exact_fee b.
Proof.
  intros Hf Hlt. destruct (saturating_fold _ 0 Hf) as [H1 H2]; [unfold u64_max; lia|].
  assert (E : fee b = exact_fee b).
  { unfold fee. rewrite H1. unfold exact_fee in *. unfold u64_max. lia. }
  split; [done|]. unfold overage, to_signed. rewrite E. change (64 - 1) with 63.
  rewrite (proj2 (Z.ltb_lt _ _)) by done. done.
Qed.

Lemma total_nonneg_le {T} (f : T -> Z) l : Forall (fun x => 0 <= f x) l -> Forall (fun x => f x <= total f l) l.
Proof.
  intros H. assert (Hp : 0 <= total f l).
  { induction H; [done|]. unfold total in *. cbn. lia. }
  clear Hp. induction H as [|x l Hx H IH]; [constructor|].
  assert (Hp : 0 <= total f l) by (clear -H; induction H; [done|]; unfold total in *; cbn; lia).
  unfold total in *. cbn. constructor; [lia|]. eapply List.Forall_impl; [|exact IH]. cbn. lia.
Qed.

(** *** Offsets *)

Lemma from_secret_key_bytes k : length (secret_bytes k) = SECRET_KEY_SIZE -> blind_bytes (from_secret_key k) = secret_bytes k.
Proof.
  intros H. unfold from_secret_key, blind_from_slice. cbn [blind_bytes].
  rewrite H, Nat.min_id, Nat.sub_diag, app_nil_r, <- H. apply firstn_all.
Qed.

Lemma to_secrets_sum l : Forall (fun b => is_Some (secret_key b)) l ->
  total (fun k => be_val (secret_bytes k)) (to_secrets l) =g= total blind_val l.
Proof.
  induction 1 as [|b l [k Hk] _ IH]; [done|]. unfold to_secrets in *. cbn [List.filter].
  unfold total in *. destruct (bool_decide_reflect (b = blind_zero)) as [->|Hne]; cbn [negb].
  - cbn [map foldr]. rewrite blind_zero_val, IH. done.
  - cbn [omap list_omap]. rewrite Hk. cbn [map foldr]. rewrite IH.
    unfold secret_key in Hk. rewrite bool_decide_false in Hk by done.
    apply secret_key_from_slice_bytes in Hk. rewrite Hk. done.
Qed.

Lemma sum_kernel_offsets_sum l off : Forall (fun b => is_Some (secret_key b)) l ->
  sum_kernel_offsets l [] = Ok off -> blind_val off =g= total blind_val l /\ is_Some (secret_key off).
Proof.
  intros Hl H. unfold sum_kernel_offsets in H. rewrite <- (to_secrets_sum l Hl).
  destruct (to_secrets l) as [|k ks] eqn:El.
  - injection H as <-. split; [apply blind_zero_val|]. unfold secret_key. rewrite bool_decide_true by done. eauto.
  - destruct (blind_sum (k :: ks) (to_secrets [])) as [s|] eqn:Es; [|done]. injection H as <-.
    destruct (blind_sum_valid _ _ _ Es) as [Hlen Hv]. split.
    + unfold blind_val. rewrite from_secret_key_bytes by done.
      unfold eqg. rewrite (blind_sum_sound _ _ _ Es). cbn [to_secrets List.filter omap list_omap map foldr].
      rewrite Z.sub_0_r. done.
    + unfold secret_key. destruct (bool_decide _); [eauto|]. rewrite from_secret_key_bytes by done. eauto.
Qed.

Lemma verify_kernel_sums_key {C} `{!Committed C} (x : C) ov off r :
  verify_kernel_sums x ov off = Ok r -> is_Some (secret_key off).
Proof.
  unfold verify_kernel_sums, sum_kernel_excesses. intros H.
  destruct (sum_commitments x ov) as [u|e|]; cbn [res_bind] in H; [|done|done].
  destruct (sum_commits _ _) as [k|e|]; cbn [res_bind] in H; [|done|done].
  destruct (bool_decide_reflect (off = blind_zero)) as [->|Hz].
  - unfold secret_key. rewrite bool_decide_true by done. eauto.
  - cbn [negb] in H. destruct (secret_key off); [eauto|done].
Qed.

(** *** Cut pairs *)

(** No collision of the hash function among these inputs and outputs. *)
Definition no_collision (ins : list Input) (outs : list Output) : Prop :=
  forall i o, In i ins -> In o outs -> hash i = hash o -> write hash_writer i = write hash_writer o.

Lemma same_hash_same_commit ins outs i o :
  no_collision ins outs -> In i ins -> In o outs -> hash i = hash o -> input_commit i = output_commit o.
Proof.
  intros Hc Hi Ho Hh. specialize (Hc i o Hi Ho Hh). destruct i as [fi [ci]], o as [fo [co] p].
  unfold write, write_input, write_output in Hc. cbn in Hc. rewrite app_nil_r in Hc.
  destruct fi, fo; cbn in Hc; injection Hc; intros; subst; done.
Qed.

Lemma cut_balance ins outs ki ko cut :
  no_collision ins outs -> is_cut (fun _ _ => Ok tt) ins outs ki ko cut ->
  sum_points (map output_commit ko) - sum_points (map input_commit ki)
  = sum_points (map output_commit outs) - sum_points (map input_commit ins).
Proof.
  intros Hc [P1 P2 F _ _ _].
  assert (E : map (fun p => input_commit p.1) cut = map (fun p => output_commit p.2) cut).
  { apply map_ext_in. intros p Hp. rewrite List.Forall_forall in F. destruct (F p Hp) as [Hh _].
    apply (same_hash_same_commit ins outs); [done|..|done].
    - rewrite P1. apply in_or_app. right. apply in_map, Hp.
    - rewrite P2. apply in_or_app. right. apply in_map, Hp. }
  rewrite (Permutation_map _ P1), (Permutation_map _ P2), !map_app, !map_map, !sum_points_app, E. lia.
Qed.

Lemma total_combine (b : list Transaction) (o i k f off : Transaction -> Z) :
  Forall (fun tx => o tx + f tx * value_point =g= i tx + k tx + off tx) b ->
  total o b + total f b * value_point =g= total i b + total k b + total off b.
Proof.
  induction 1 as [|tx b Hx _ IH]; [done|]. unfold total in *. cbn [map foldr].
  transitivity ((o tx + f tx * value_point) + (foldr Z.add 0 (map o b) + foldr Z.add 0 (map f b) * value_point)); [glia|].
  rewrite Hx, IH. glia.
Qed.

(** What aggregation of several transactions puts into the result. *)
Definition all_of {T} (f : TransactionBody -> list T) (txs : list Transaction) : list T :=
  concat (map (fun tx => f (body tx)) txs).

Lemma aggregate_parts tx1 tx2 txs tx : aggregate (tx1 :: tx2 :: txs) = Ok tx ->
  let l := tx1 :: tx2 :: txs in
  (exists ki ko cut, is_cut (fun _ _ => Ok tt) (all_of inputs l) (all_of outputs l) ki ko cut /\
     Permutation (inputs (body tx)) ki /\ Permutation (outputs (body tx)) ko) /\
  (exists ki ko cut, is_cut token_types_match (all_of token_inputs l) (all_of token_outputs l) ki ko cut /\
     Permutation (token_inputs (body tx)) ki /\ Permutation (token_outputs (body tx)) ko) /\
  Permutation (kernels (body tx)) (all_of kernels l) /\
  Permutation (token_kernels (body tx)) (all_of token_kernels l) /\
  sum_kernel_offsets (map offset l) [] = Ok (offset tx).
Proof.
  set (l := tx1 :: tx2 :: txs). cbv beta iota delta [aggregate]. fold l.
  fold (all_of inputs l) (all_of outputs l) (all_of token_inputs l) (all_of token_outputs l)
    (all_of kernels l) (all_of token_kernels l). unfold cut_through.
  pose proof (cut_through_half_spec (fun _ _ => Ok tt) (all_of inputs l) (all_of outputs l)) as H1.
  destruct (cut_through_half _ (all_of inputs l) _) as [[ki ko]|e|]; cbn [res_bind]; [|done|done].
  pose proof (cut_through_half_spec token_types_match (all_of token_inputs l) (all_of token_outputs l)) as H2.
  destruct (cut_through_half _ (all_of token_inputs l) _) as [[kti kto]|e|]; cbn [res_bind]; [|done|done].
  destruct (sum_kernel_offsets _ _) as [off|e|] eqn:Eo; cbn [map_err res_bind]; [|done|done].
  intros [= <-]. destruct H1 as [_ [cut H1]]. destruct H2 as [_ [tcut H2]]. cbn.
  split; [exists ki, ko, cut; split; [done|split; apply sort_unstable_perm]|].
  split; [exists kti, kto, tcut; split; [done|split; apply sort_unstable_perm]|].
  split; [rewrite !sort_unstable_perm; done|]. split; [rewrite !sort_unstable_perm; done|done].
Qed.

(** The transactions given to [aggregate]: each verified, with fees that do not
    overflow an [i64] together. *)
Definition verified (tx : Transaction) : Prop :=
  fees_ok (body tx) /\
  exists r, verify_kernel_sums tx (overage (body tx)) (offset tx) = Ok r.

Lemma verified_balance txs :
  Forall verified txs -> total (fun tx => exact_fee (body tx)) txs < 2 ^ 63 ->
  Forall (fun tx => sum_points (map output_commit (outputs (body tx))) + exact_fee (body tx) * value_point
    =g= sum_points (map input_commit (inputs (body tx))) + sum_points (map excess (kernels (body tx)))
        + blind_val (offset tx)) txs.
Proof.
  intros Hv Ht. assert (Hpos : Forall (fun tx => 0 <= exact_fee (body tx)) txs).
  { eapply List.Forall_impl; [|exact Hv]. intros tx [Hf _].
    apply (saturating_fold _ 0 Hf). unfold u64_max; lia. }
  apply total_nonneg_le in Hpos as Hle. rewrite List.Forall_forall in *. intros tx Hin.
  destruct (Hv tx Hin) as [Hf [[u k] Hr]].
  destruct (fee_exact (body tx) Hf) as (_ & Eo & Hp); [specialize (Hle tx Hin); cbn in Hle; lia|].
  pose proof (verify_kernel_sums_spec tx (overage (body tx)) (offset tx)) as Hs. rewrite Hr, Eo in Hs.
  specialize (Hle tx Hin). cbn in Hle. destruct Hs as [Hb _]; [lia|]. exact Hb.
Qed.

Lemma fees_ok_all txs kers : Forall (fun tx => fees_ok (body tx)) txs ->
  Permutation kers (all_of kernels txs) ->
  Forall (Z.le 0) (omap kernel_fee kers) /\
  foldr Z.add 0 (omap kernel_fee kers) = total (fun tx => exact_fee (body tx)) txs.
Proof.
  intros Hf HP. assert (HP' : Permutation (omap kernel_fee kers) (omap kernel_fee (all_of kernels txs))).
  { rewrite HP. done. }
  split.
  - rewrite HP'. clear HP HP'. unfold all_of. induction Hf as [|tx txs Hx _ IH]; [constructor|].
    cbn [map concat]. rewrite omap_app. apply List.Forall_app. split; done.
  - unfold exact_fee. rewrite <- (total_concat_omap kernel_fee (fun tx => kernels (body tx)) txs).
    fold (all_of kernels txs). clear HP. induction HP'; cbn; lia.
Qed.

Lemma aggregate_balanced txs tx :
  Forall verified txs -> total (fun tx => exact_fee (body tx)) txs < 2 ^ 63 ->
  no_collision (all_of inputs txs) (all_of outputs txs) ->
  aggregate txs = Ok tx ->
  balanced tx (overage (body tx)) (offset tx) /\ is_Some (secret_key (offset tx)) /\
  overage (body tx) = total (fun tx => exact_fee (body tx)) txs /\ 0 <= overage (body tx).
Proof.
  intros Hv Ht Hc Ha. pose proof (verified_balance txs Hv Ht) as Hb.
  assert (Hf : Forall (fun tx => fees_ok (body tx)) txs).
  { eapply List.Forall_impl; [|exact Hv]. intros ? [? _]. done. }
  destruct txs as [|tx1 [|tx2 txs]].
  - injection Ha as <-. split; [|split; [|done]].
    + change (0 + 0 * value_point =g= 0 + 0 + blind_val blind_zero). rewrite blind_zero_val. done.
    + unfold secret_key. cbn. rewrite bool_decide_true by done. eauto.
  - injection Ha as <-. unfold total in Ht. cbn in Ht. rewrite Z.add_0_r in Ht.
    apply List.Forall_inv in Hv as [Hf1 [r Hr]]. apply List.Forall_inv in Hb.
    destruct (fee_exact (body tx1) Hf1 Ht) as (_ & Eo & Hp). rewrite Eo. unfold total. cbn.
    split; [done|]. split; [eapply verify_kernel_sums_key, Hr|]. lia.
  - destruct (aggregate_parts _ _ _ _ Ha) as ((ki & ko & cut & Hcut & Pi & Po) & _ & Pk & _ & Hoff).
    set (l := tx1 :: tx2 :: txs) in *.
    destruct (fees_ok_all l (kernels (body tx)) Hf Pk) as [Hf' Et].
    fold (exact_fee (body tx)) in Et.
    destruct (fee_exact (body tx) Hf') as (_ & Eo & Hp); [rewrite Et; done|].
    rewrite Eo, Et in *.
    destruct (sum_kernel_offsets_sum (map offset l) (offset tx)) as [Hbl Hkey]; [|done|].
    { rewrite List.Forall_map. eapply List.Forall_impl; [|exact Hv]. intros t [_ [r Hr]].
      eapply verify_kernel_sums_key, Hr. }
    rewrite total_map in Hbl. split; [|split; [done|split; done]].
    pose proof (cut_balance _ _ _ _ _ Hc Hcut) as Hd. apply total_combine in Hb.
    unfold balanced. cbn [outputs_committed inputs_committed kernels_committed tx_committed body_committed].
    rewrite (Permutation_map _ Pi), (Permutation_map _ Po), (Permutation_map _ Pk), Hbl.
    unfold all_of in Hd at 1 2. unfold all_of. rewrite !sum_points_concat in *.
    replace (sum_points (map output_commit ko)) with
      (sum_points (map input_commit ki) - total (fun tx => sum_points (map input_commit (inputs (body tx)))) l
       + total (fun tx => sum_points (map output_commit (outputs (body tx)))) l) by lia.
    transitivity ((sum_points (map input_commit ki) - total (fun tx => sum_points (map input_commit (inputs (body tx)))) l)
      + (total (fun tx => sum_points (map output_commit (outputs (body tx)))) l
         + total (fun tx => exact_fee (body tx)) l * value_point)); [glia|].
    rewrite Hb. glia.
Qed.
End Balance.

(** ** Theorems *)

(** C20: [cut_through] removes exactly the matching pairs.  On success every input
    and output is either kept or paired with one of equal hash and equal token
    type, the kept ones are sorted, and no kept input spends a kept output;
    [AggregationError] means that two outputs have the same hash,
    [TokenTypeMismatch] that a matched pair differs in its token type; nothing
    else happens. *)
Theorem cut_through_removes_matching_pairs {DG : Digest} ins outs tins touts :
  match cut_through ins outs tins touts with
  | Ok (ki, ko, kti, kto) =>
      NoDup (map hash outs) /\ NoDup (map hash touts) /\
      (exists cut, is_cut (fun _ _ => Ok tt) ins outs ki ko cut) /\
      (exists cut, is_cut token_types_match tins touts kti kto cut)
  | Err AggregationError => ~ NoDup (map hash outs) \/ ~ NoDup (map hash touts)
  | Err TokenTypeMismatch =>
      exists i o, In i tins /\ In o touts /\ hash i = hash o /\ input_token_type i <> output_token_type o
  | Err _ | Panic => False
  end.
Proof.
  unfold cut_through. pose proof (cut_through_half_spec (fun _ _ => Ok tt) ins outs) as H1.
  pose proof (cut_through_half_no_panic (fun _ _ => Ok tt) ins outs ltac:(done)) as P1.
  destruct (cut_through_half _ ins outs) as [[ki ko]|e|]; cbn [res_bind]; [| |done].
  2: { destruct H1 as [[H1 ->]|(_ & x & y & _ & _ & _ & [=])]. left. done. }
  assert (Hnp : forall i o, token_types_match i o <> Panic).
  { intros i o. unfold token_types_match. destruct (negb _); done. }
  pose proof (cut_through_half_spec token_types_match tins touts) as H2.
  pose proof (cut_through_half_no_panic token_types_match tins touts Hnp) as P2.
  destruct (cut_through_half token_types_match tins touts) as [[kti kto]|e|]; cbn [res_bind]; [tauto| |done].
  destruct H2 as [[H2 ->]|(_ & x & y & Hx & Hy & Hh & Hc)]; [right; done|].
  unfold token_types_match in Hc. destruct (bool_decide_reflect (input_token_type x = output_token_type y)); [done|].
  injection Hc as <-. exists x, y. done.
Qed.

(** C19: aggregation keeps transactions balanced.  When every given transaction
    passes [verify_kernel_sums], the fees add up below [2^63], and the hash
    function has no collision among their inputs and outputs, the aggregate
    satisfies the balance equation for its own overage and offset: the sum of
    all fees is its overage, and verifying it can only succeed or be refused by
    the curve library (a sum at infinity), never with [KernelSumMismatch]. *)
Theorem aggregate_keeps_balance `{SL : SecpLaws} {DG : Digest} txs tx :
  Forall verified txs -> total (fun tx => exact_fee (body tx)) txs < 2 ^ 63 ->
  no_collision (all_of inputs txs) (all_of outputs txs) ->
  aggregate txs = Ok tx ->
  balanced tx (overage (body tx)) (offset tx) /\
  overage (body tx) = total (fun tx => exact_fee (body tx)) txs /\
  ((exists r, verify_kernel_sums tx (overage (body tx)) (offset tx) = Ok r) \/
   verify_kernel_sums tx (overage (body tx)) (offset tx) = Err CSecp).
Proof.
  intros Hv Ht Hc Ha. destruct (aggregate_balanced txs tx Hv Ht Hc Ha) as (Hb & [k Hk] & Eo & Hp).
  split; [done|split; [done|]].
  pose proof (verify_kernel_sums_spec tx (overage (body tx)) (offset tx) ltac:(lia)) as Hs.
  destruct (verify_kernel_sums _ _ _) as [r|[]|]; [left; eauto|congruence|right; done|done|lia|done|done].
Qed.

(** Two chained transactions: the second spends the output of the first. *)
#[local] Existing Instance demo_digest.
#[local] Existing Instance demo_sizes.
#[local] Existing Instance demo_secp.
#[local] Existing Instance demo_laws.

Definition chain_tx1 : Transaction := mkTx small_offset small_body.
Definition chain_tx2 : Transaction :=
  mkTx (mkBlinding (replicate 31 0 ++ [4]))
    (mkBody [mkInput OPlain (small_commit 30)] []
       [mkOutput OPlain (small_commit 20) (mkRangeProof [] 0)] []
       [mkTxKernel (KPlain 1) (small_commit 90) (mkSignature [])] []).

(** Their aggregate: the shared output is cut, the fees and offsets add up. *)
Definition chain_tx12 : Transaction :=
  mkTx (mkBlinding (replicate 31 0 ++ [9]))
    (mkBody [mkInput OPlain (small_commit 40)] []
       [mkOutput OPlain (small_commit 20) (mkRangeProof [] 0)] []
       [mkTxKernel (KPlain 1) (small_commit 90) (mkSignature []);
        mkTxKernel (KPlain 2) (small_commit 92) (mkSignature [])] []).

Lemma aggregate_keeps_balance_witness :
  aggregate [chain_tx1; chain_tx2] = Ok chain_tx12 /\
  balanced chain_tx12 (overage (body chain_tx12)) (offset chain_tx12).
Proof.
  split; [vm_compute; reflexivity|].
  pose proof (aggregate_keeps_balance [chain_tx1; chain_tx2] chain_tx12) as H.
  destruct H as [H _]; [| | | |exact H].
  - repeat constructor; cbn; try lia; eexists; vm_compute; reflexivity.
  - vm_compute. reflexivity.
  - intros i o _ _ Heq. exact Heq.
  - vm_compute. reflexivity.
Defined.
