(* ===== verification/Block.v ===== *)
(** * Block headers and blocks

    Models [core/src/core/block.rs]: headers, merge-mining data and blocks with
    their binary forms, the building and the validation of blocks, and the block
    sums that [chain/src/pipe.rs] keeps per block.

    The chain type is an argument [ct], as in [Consensus].  A timestamp is its
    number of seconds; the date range of the [chrono] crate is the parameter
    [Chrono].  Reading untrusted headers needs the proof-of-work verifiers and is
    in [Pow]. *)

From Stdlib Require Import ZArith Lia List Bool Permutation.
From stdpp Require Import base numbers list option gmap.
From S2P Require Import Prelude Bytes Consensus Ser PowTypes Transaction TxBody Committed Verifier Aggregate.

(** The first and last date [chrono] can represent, in seconds. *)
Class Chrono := {
  min_timestamp : Z;
  max_timestamp : Z;
  timestamps_i64 : - 2 ^ 63 <= min_timestamp /\ max_timestamp < 2 ^ 63
}.

(** ** Merge-mining data *)

Record AuxBitHeader := mkAuxHeader {
  aux_version : Z; aux_prev_hash : bytes; merkle_root : bytes;
  mine_time : Z; nbits : Z; aux_nonce : Z }.

(** [AuxBitHeader::default] *)
Definition aux_header_default : AuxBitHeader :=
  mkAuxHeader 0 ZERO_HASH_BYTES ZERO_HASH_BYTES 0 0 0.

#[export] Instance write_aux_header : Writeable AuxBitHeader := fun _ h =>
  write_i32_le (aux_version h) ++ write_fixed_bytes (aux_prev_hash h) ++ write_fixed_bytes (merkle_root h)
  ++ write_u32_le (mine_time h) ++ write_u32_le (nbits h) ++ write_u32_le (aux_nonce h).

Record BlockAuxData := mkAuxData {
  aux_header : AuxBitHeader; merkle_branch : list bytes; coinbase_tx : bytes }.

(** [BlockAuxData::default] *)
Definition aux_data_default : BlockAuxData := mkAuxData aux_header_default [] [].

#[export] Instance write_aux_data : Writeable BlockAuxData := fun w d =>
  write w (aux_header d)
  ++ write_u32 (len (merkle_branch d) mod U32) ++ concat (map write_fixed_bytes (merkle_branch d))
  ++ write_u32 (len (coinbase_tx d) mod U32) ++ concat (map write_u8 (coinbase_tx d)).

(** ** Headers *)

Record BlockHeader := mkHeader {
  bh_version : Z; bh_height : Z; prev_hash : bytes; prev_root : bytes; timestamp : Z;
  output_root : bytes; range_proof_root : bytes; kernel_root : bytes;
  total_kernel_offset : BlindingFactor; output_mmr_size : Z; kernel_mmr_size : Z; bits : Z;
  token_output_root : bytes; token_range_proof_root : bytes;
  token_issue_proof_root : bytes; token_kernel_root : bytes;
  token_output_mmr_size : Z; token_issue_proof_mmr_size : Z; token_kernel_mmr_size : Z;
  pow : ProofOfWork; btc_pow : BlockAuxData }.

#[export] Instance aux_header_eq_dec : EqDecision AuxBitHeader.
Proof. solve_decision. Defined.
#[export] Instance aux_data_eq_dec : EqDecision BlockAuxData.
Proof. solve_decision. Defined.

(** [BlockHeader::default] *)
Definition header_default {SS : SecpSizes} {SP : Secp} : BlockHeader :=
  mkHeader 1 0 ZERO_HASH_BYTES ZERO_HASH_BYTES 0 ZERO_HASH_BYTES ZERO_HASH_BYTES ZERO_HASH_BYTES
    blind_zero 0 0 0 ZERO_HASH_BYTES ZERO_HASH_BYTES ZERO_HASH_BYTES ZERO_HASH_BYTES 0 0 0
    pow_default aux_data_default.

Section Header.
  Context (ct : ChainTypes).

(** [BlockHeader::write_pre_pow] *)
Definition write_pre_pow (w : Writer) (h : BlockHeader) : bytes :=
  write_u16 (bh_version h) ++ write_u64 (bh_height h) ++ write_i64 (timestamp h)
  ++ write_fixed_bytes (prev_hash h) ++ write_fixed_bytes (prev_root h)
  ++ write_fixed_bytes (output_root h) ++ write_fixed_bytes (range_proof_root h)
  ++ write_fixed_bytes (kernel_root h) ++ write w (total_kernel_offset h)
  ++ write_u64 (output_mmr_size h) ++ write_u64 (kernel_mmr_size h) ++ write_u32 (bits h)
  ++ (if support_token_height ct <=? bh_height h then
        write_fixed_bytes (token_output_root h) ++ write_fixed_bytes (token_range_proof_root h)
        ++ write_fixed_bytes (token_issue_proof_root h) ++ write_fixed_bytes (token_kernel_root h)
        ++ write_u64 (token_output_mmr_size h) ++ write_u64 (token_issue_proof_mmr_size h)
        ++ write_u64 (token_kernel_mmr_size h)
      else []).

(** [BlockHeader::write] *)
Definition write_header : Writeable BlockHeader := fun w h =>
  if refactor_header_height ct <=? bh_height h then
    write_pre_pow w h
    ++ (if negb (bool_decide (serialization_mode w = HashMode)) then write w (btc_pow h) else [])
  else
    (if negb (bool_decide (serialization_mode w = HashMode)) then write_pre_pow w h else [])
    ++ write w (pow h).

(** [BlockHeader::pre_pow] *)
Definition pre_pow (h : BlockHeader) : bytes :=
  write_pre_pow (bin_writer PROTOCOL_VERSION) h ++ pow_write_pre_pow (pow h) ++ write_u64 (nonce (pow h)).

(** [BlockHeader::overage]: [(reward as i64).checked_neg().unwrap_or(0)] *)
Definition checked_neg64 (x : Z) : option Z := if x =? - 2 ^ 63 then None else Some (- x).
Definition header_overage (h : BlockHeader) : Z :=
  default 0 (checked_neg64 (to_signed 64 (reward ct (bh_height h) 0))).

(** [BlockHeader::total_overage] *)
Definition total_overage (h : BlockHeader) (genesis_had_reward : bool) : Z :=
  default 0 (checked_neg64 (to_signed 64 (total_reward ct (bh_height h) genesis_had_reward))).

(** [BlockHeader::is_pre_pow_equal] *)
Definition is_pre_pow_equal (a b : BlockHeader) : bool :=
  (bh_version a =? bh_version b) && (bh_height a =? bh_height b)
  && bool_decide (prev_hash a = prev_hash b) && bool_decide (prev_root a = prev_root b)
  && (timestamp a =? timestamp b) && bool_decide (output_root a = output_root b)
  && bool_decide (range_proof_root a = range_proof_root b) && bool_decide (kernel_root a = kernel_root b)
  && bool_decide (total_kernel_offset a = total_kernel_offset b)
  && (output_mmr_size a =? output_mmr_size b) && (kernel_mmr_size a =? kernel_mmr_size b)
  && (bits a =? bits b) && bool_decide (token_output_root a = token_output_root b)
  && bool_decide (token_range_proof_root a = token_range_proof_root b)
  && bool_decide (token_issue_proof_root a = token_issue_proof_root b)
  && bool_decide (token_kernel_root a = token_kernel_root b)
  && (token_output_mmr_size a =? token_output_mmr_size b)
  && (token_issue_proof_mmr_size a =? token_issue_proof_mmr_size b)
  && (token_kernel_mmr_size a =? token_kernel_mmr_size b).

(** [PartialEq for BlockHeader] *)
Definition header_eq (a b : BlockHeader) : bool :=
  if support_token_height ct <=? bh_height a
  then is_pre_pow_equal a b && bool_decide (btc_pow a = btc_pow b)
  else is_pre_pow_equal a b && bool_decide (pow a = pow b).
End Header.

Section ReadHeader.
  Context {SS : SecpSizes} {CH : Chrono} {R : Type} `{!Reader R}.

Definition aux_header_read : R -> res Error (AuxBitHeader * R) :=
  let! version := read_i32_le in
  let! prev_hash := hash_read in
  let! merkle_root := hash_read in
  let! mine_time := read_u32_le in
  let! nbits := read_u32_le in
  let! nonce := read_u32_le in
  read_ret (mkAuxHeader version prev_hash merkle_root mine_time nbits nonce).

Definition aux_data_read : R -> res Error (BlockAuxData * R) :=
  let! header := aux_header_read in
  let! merkle_branch_length := read_u32 in
  let! merkle_branch := read_multi hash_read merkle_branch_length in
  let! coin_base_length := read_u32 in
  let! coin_base := read_multi read_u8 coin_base_length in
  read_ret (mkAuxData header merkle_branch coin_base).

(** The token part of [read_block_header], absent below the token height. *)
Definition token_part_read (ct : ChainTypes) (height : Z)
    : R -> res Error ((bytes * bytes * bytes * bytes) * (Z * Z * Z) * R) :=
  if support_token_height ct <=? height then
    let! token_output_root := hash_read in
    let! token_range_proof_root := hash_read in
    let! token_issue_proof_root := hash_read in
    let! token_kernel_root := hash_read in
    let! token_output_mmr_size := read_u64 in
    let! token_issue_proof_mmr_size := read_u64 in
    let! token_kernel_mmr_size := read_u64 in
    read_ret (token_output_root, token_range_proof_root, token_issue_proof_root, token_kernel_root,
      (token_output_mmr_size, token_issue_proof_mmr_size, token_kernel_mmr_size))
  else
    read_ret (ZERO_HASH_BYTES, ZERO_HASH_BYTES, ZERO_HASH_BYTES, ZERO_HASH_BYTES, (0, 0, 0)).

(** The proof of work of a header read after the refactoring height. *)
Definition implied_pow (height : Z) : ProofOfWork :=
  mkPow (from_num (height + 1)%u64) (secondary_scaling pow_default) (nonce pow_default) (proof pow_default).

(** [read_block_header] *)
Definition header_read (ct : ChainTypes) : R -> res Error (BlockHeader * R) :=
  let! version := read_u16 in
  let! height := read_u64 in
  let! timestamp := read_i64 in
  let! prev_hash := hash_read in
  let! prev_root := hash_read in
  let! output_root := hash_read in
  let! range_proof_root := hash_read in
  let! kernel_root := hash_read in
  let! total_kernel_offset := blinding_read in
  let! output_mmr_size := read_u64 in
  let! kernel_mmr_size := read_u64 in
  let! bits := read_u32 in
  let! token := token_part_read ct height in
  let '(tor, trr, tir, tkr, (tos, tis, tks)) := token in
  let! pows :=
    if refactor_header_height ct <=? height then
      let! btc_pow := aux_data_read in read_ret (implied_pow height, btc_pow)
    else
      let! pow := pow_read in read_ret (pow, aux_data_default) in
  if (max_timestamp <? timestamp) || (timestamp <? min_timestamp) then read_fail CorruptedData
  else read_ret (mkHeader version height prev_hash prev_root timestamp output_root range_proof_root
    kernel_root total_kernel_offset output_mmr_size kernel_mmr_size bits tor trr tir tkr tos tis tks
    pows.1 pows.2).
End ReadHeader.

(** ** Blocks *)

Record Block := mkBlock { header : BlockHeader; aux_data : BlockAuxData; block_body : TransactionBody }.

(** [Block::write], [Block::read] *)
Definition write_block (ct : ChainTypes) : Writeable Block := fun w b =>
  @write _ (write_header ct) w (header b)
  ++ (if negb (bool_decide (serialization_mode w = HashMode)) then
        (if bh_height (header b) <? refactor_header_height ct then write w (aux_data b) else [])
        ++ write w (block_body b)
      else []).

Definition block_read {SS : SecpSizes} {CH : Chrono} {DG : Digest} {R} `{!Reader R} (ct : ChainTypes)
    : R -> res Error (Block * R) :=
  let! header := header_read ct in
  let! aux_data :=
    if refactor_header_height ct <=? bh_height header then read_ret aux_data_default else aux_data_read in
  let! body := body_read ct in
  read_ret (mkBlock header aux_data body).

(** [Committed for Block] *)
#[export] Instance block_committed : Committed Block := {
  inputs_committed b := inputs_committed (block_body b);
  outputs_committed b := outputs_committed (block_body b);
  kernels_committed b := kernels_committed (block_body b);
  token_inputs_committed b := token_inputs_committed (block_body b);
  token_outputs_committed b := token_outputs_committed (block_body b);
  token_kernels_committed b := token_kernels_committed (block_body b)
}.

(** [block::Error] *)
Inductive BlockError :=
| BKernelSumMismatch | InvalidTotalKernelSum | CoinbaseSumMismatch | BTooHeavy | WeightExceeded
| InvalidBlockVersion (v : Z) | InvalidBlockTime | InvalidPow | KernelLockHeight (h : Z)
| BTransaction (e : TxError) | BSecp | BKeychain | BMerkleProof | BCommitted (e : CommittedError)
| BCutThrough | BSerialization (e : Error) | BOther.

Section Blocks.
  Context {DG : Digest} {SS : SecpSizes} {SP : Secp}.
  Implicit Types (b : Block).

(** [Block::with_reward] *)
Definition with_reward b (reward_out : Output) (reward_kern : TxKernel) : Block :=
  mkBlock (header b) (aux_data b)
    (mkBody (inputs (block_body b)) (token_inputs (block_body b)) [reward_out]
       (token_outputs (block_body b)) [reward_kern] (token_kernels (block_body b))).

(** [Block::cut_through] *)
Definition block_cut_through b : res BlockError Block :=
  let? '(inputs, outputs, token_inputs, token_outputs) :=
    map_err BTransaction (cut_through (inputs (block_body b)) (outputs (block_body b))
      (token_inputs (block_body b)) (token_outputs (block_body b))) in
  let? body :=
    map_err BTransaction (init inputs outputs (kernels (block_body b)) token_inputs token_outputs
      (token_kernels (block_body b)) false) in
  Ok (mkBlock (header b) (aux_data b) body).

(** [Block::from_reward]; [now] is the time of the clock. *)
Definition from_reward (ct : ChainTypes) (now : Z) (prev : BlockHeader) (txs : list Transaction)
    (reward_out : Output) (reward_kern : TxKernel) (difficulty : Difficulty) : res BlockError Block :=
  let? agg := map_err BTransaction (aggregate txs) in
  let agg_tx := mkTx (offset agg) (with_kernel (with_output (body agg) reward_out) reward_kern) in
  let? total_kernel_offset :=
    map_err BCommitted (sum_kernel_offsets [offset agg_tx; total_kernel_offset prev] []) in
  let height := (bh_height prev + 1)%u64 in
  let d := header_default in
  block_cut_through
    (mkBlock
       (mkHeader (header_version ct height) height (@hash DG _ (write_header ct) prev) (prev_root d) now
          (output_root d) (range_proof_root d) (kernel_root d) total_kernel_offset
          (output_mmr_size d) (kernel_mmr_size d) (bits d) (token_output_root d) (token_range_proof_root d)
          (token_issue_proof_root d) (token_kernel_root d) (token_output_mmr_size d)
          (token_issue_proof_mmr_size d) (token_kernel_mmr_size d)
          (mkPow (difficulty_add difficulty (total_difficulty (pow prev)))
             (secondary_scaling pow_default) (nonce pow_default) (proof pow_default))
          (btc_pow d))
       aux_data_default (body agg_tx)).

(** [Block::verify_kernel_lock_heights]: the first kernel locked beyond the block *)
Definition verify_kernel_lock_heights b : res BlockError unit :=
  let late lock := match lock with Some h => bh_height (header b) <? h | None => false end in
  match List.find (fun k => late match features k with KHeightLocked _ h => Some h | _ => None end)
          (kernels (block_body b)) with
  | Some k => Err (KernelLockHeight match features k with KHeightLocked _ h => h | _ => 0 end)
  | None =>
    match List.find (fun k => late match token_features k with HeightLockedToken h => Some h | _ => None end)
            (token_kernels (block_body b)) with
    | Some k => Err (KernelLockHeight match token_features k with HeightLockedToken h => h | _ => 0 end)
    | None => Ok tt
    end
  end.

(** [Block::validate_read] *)
Definition block_validate_read (ct : ChainTypes) b : res BlockError unit :=
  let? _ := map_err BTransaction (validate_read ct (block_body b) AsBlock) in
  let? _ := verify_kernel_lock_heights b in
  Ok tt.

(** [Block::block_kernel_offset] *)
Definition block_kernel_offset b (prev_kernel_offset : BlindingFactor) : res BlockError BlindingFactor :=
  if bool_decide (total_kernel_offset (header b) = prev_kernel_offset) then Ok blind_zero
  else map_err BCommitted (sum_kernel_offsets [total_kernel_offset (header b)] [prev_kernel_offset]).

(** [Block::verify_coinbase] *)
Definition verify_coinbase (ct : ChainTypes) b : res BlockError unit :=
  let cb_outs := List.filter (fun o => of_is_coinbase (output_features o)) (outputs (block_body b)) in
  let cb_kerns := List.filter is_coinbase_kernel (kernels (block_body b)) in
  let? over_commit :=
    ok_or (commit_value (reward ct (bh_height (header b)) (fee (block_body b)))) BSecp in
  let? out_adjust_sum := ok_or (commit_sum (map output_commit cb_outs) [over_commit]) BSecp in
  let? kerns_sum := ok_or (commit_sum (map excess cb_kerns) []) BSecp in
  if negb (bool_decide (kerns_sum = out_adjust_sum)) then Err CoinbaseSumMismatch else Ok tt.

(** [Block::validate]: the kernel sum, and the verifier left behind *)
Definition block_validate {SV : SecpVerify} {L} `{!LruCache L} (ct : ChainTypes) b
    (prev_kernel_offset : BlindingFactor) (vc : LruVerifierCache L)
    : res BlockError Commitment * LruVerifierCache L :=
  match validate_token_height ct (block_body b) (bh_height (header b)) with
  | Ok _ =>
    let '(r, vc) := body_validate ct (block_body b) AsBlock vc in
    (let? _ := map_err BTransaction r in
     let? _ := verify_kernel_lock_heights b in
     let? _ := verify_coinbase ct b in
     let? _ := map_err BCommitted (verify_token_kernel_sum b) in
     let? offset := block_kernel_offset b prev_kernel_offset in
     let? '(_, kernel_sum) := map_err BCommitted (verify_kernel_sums b (header_overage ct (header b)) offset) in
     Ok kernel_sum, vc)
  | Err e => (Err (BTransaction e), vc)
  | Panic => (Panic, vc)
  end.
End Blocks.

(** ** Running sums of the chain *)

(** The sums stored per block hash, as [verify_block_sums] uses them. *)
Abbreviation SumStore := (gmap bytes BlockSums).

Inductive ChainError := StoreErr | ChainCommitted (e : CommittedError).

(** [verify_block_sums] of [pipe.rs] *)
Definition verify_block_sums {DG : Digest} {SS : SecpSizes} {SP : Secp} (ct : ChainTypes)
    (b : Block) (batch : SumStore) : res ChainError SumStore :=
  let? block_sums := ok_or (batch !! prev_hash (header b)) StoreErr in
  let overage := header_overage ct (header b) in
  let offset := total_kernel_offset (header b) in
  let? '(utxo_sum, kernel_sum) :=
    map_err ChainCommitted (verify_kernel_sums (block_sums, b) overage offset) in
  Ok (<[@hash DG _ (write_header ct) (header b) := mkBlockSums utxo_sum kernel_sum]> batch).

(** ** Round trips *)

Definition wf_hash (h : bytes) : Prop := length h = HASH_LEN.

Definition wf_aux_header (h : AuxBitHeader) : Prop :=
  - 2 ^ 31 <= aux_version h < 2 ^ 31 /\ wf_hash (aux_prev_hash h) /\ wf_hash (merkle_root h) /\
  is_u32 (mine_time h) /\ is_u32 (nbits h) /\ is_u32 (aux_nonce h).
Definition wf_aux_data (d : BlockAuxData) : Prop :=
  wf_aux_header (aux_header d) /\
  (len (merkle_branch d) <= 1000000 /\ Forall wf_hash (merkle_branch d)) /\
  (len (coinbase_tx d) <= 1000000 /\ are_bytes (coinbase_tx d)).
Definition wf_pow (p : ProofOfWork) : Prop :=
  is_u64 (num (total_difficulty p)) /\ is_u32 (secondary_scaling p) /\ is_u64 (nonce p) /\ wf_proof (proof p).

Section WfHeader.
  Context {SS : SecpSizes} {CH : Chrono} (ct : ChainTypes).

Definition wf_token_part (h : BlockHeader) : Prop :=
  if support_token_height ct <=? bh_height h then
    wf_hash (token_output_root h) /\ wf_hash (token_range_proof_root h) /\
    wf_hash (token_issue_proof_root h) /\ wf_hash (token_kernel_root h) /\
    is_u64 (token_output_mmr_size h) /\ is_u64 (token_issue_proof_mmr_size h) /\ is_u64 (token_kernel_mmr_size h)
  else
    token_output_root h = ZERO_HASH_BYTES /\ token_range_proof_root h = ZERO_HASH_BYTES /\
    token_issue_proof_root h = ZERO_HASH_BYTES /\ token_kernel_root h = ZERO_HASH_BYTES /\
    token_output_mmr_size h = 0 /\ token_issue_proof_mmr_size h = 0 /\ token_kernel_mmr_size h = 0.

Definition wf_pow_part (h : BlockHeader) : Prop :=
  if refactor_header_height ct <=? bh_height h
  then pow h = implied_pow (bh_height h) /\ wf_aux_data (btc_pow h)
  else wf_pow (pow h) /\ btc_pow h = aux_data_default.

Definition wf_header (h : BlockHeader) : Prop :=
  (0 <= bh_version h < 2 ^ 16 /\ is_u64 (bh_height h) /\ min_timestamp <= timestamp h <= max_timestamp) /\
  (wf_hash (prev_hash h) /\ wf_hash (prev_root h) /\ wf_hash (output_root h) /\
   wf_hash (range_proof_root h) /\ wf_hash (kernel_root h) /\ wf_blinding (total_kernel_offset h)) /\
  (is_u64 (output_mmr_size h) /\ is_u64 (kernel_mmr_size h) /\ is_u32 (bits h)) /\
  wf_token_part h /\ wf_pow_part h.

Definition wf_block (b : Block) : Prop :=
  wf_header (header b) /\
  (if refactor_header_height ct <=? bh_height (header b)
   then aux_data b = aux_data_default else wf_aux_data (aux_data b)).
End WfHeader.

Section HeaderRoundTrip.
  Context {SS : SecpSizes} {CH : Chrono} {R : Type} `{!Reader R} `{!ReaderLaws R}.
  Implicit Types (v : Z).

Lemma reads_hash v h : wf_hash h -> reads (R := R) v hash_read (write_fixed_bytes h) h.
Proof. intros H. apply reads_fixed; [unfold write_fixed_bytes; rewrite H; done|lia]. Qed.

Lemma reads_u32_le v n : is_u32 n -> reads (R := R) v read_u32_le (write_u32_le n) n.
Proof. intros H. apply reads_decoded; [apply length_le_bytes|apply le_val_le_bytes, H]. Qed.

Lemma reads_i32_le v n : - 2 ^ 31 <= n < 2 ^ 31 -> reads (R := R) v read_i32_le (write_i32_le n) n.
Proof.
  intros H. unfold write_i32_le. apply reads_decoded; [apply length_le_bytes|].
  rewrite le_val_le_bytes by (apply (Z.mod_pos_bound n (2 ^ 32)); lia). apply to_signed_mod; [lia|exact H].
Qed.

Lemma reads_i64 v n : - 2 ^ 63 <= n < 2 ^ 63 -> reads (R := R) v read_i64 (write_i64 n) n.
Proof.
  intros H. unfold write_i64. apply reads_decoded; [apply length_be_bytes|].
  rewrite be_val_be_bytes by (apply (Z.mod_pos_bound n (2 ^ 64)); lia). apply to_signed_mod; [lia|exact H].
Qed.

(** Peel the first field off a record that is read back. *)
Ltac field lem := eapply reads_bind; [apply lem; assumption|].

Lemma reads_aux_header v h : wf_aux_header h -> reads (R := R) v aux_header_read (write (bin_writer v) h) h.
Proof.
  intros (H1 & H2 & H3 & H4 & H5 & H6). unfold aux_header_read, write, write_aux_header.
  field reads_i32_le. field reads_hash. field reads_hash. field reads_u32_le. field reads_u32_le.
  eapply reads_bind_last; [apply reads_u32_le; assumption|]. destruct h. apply reads_ret.
Qed.

Lemma reads_aux_data v d : wf_aux_data d -> reads (R := R) v aux_data_read (write (bin_writer v) d) d.
Proof.
  intros (H1 & (H2 & H3) & H4 & H5). unfold aux_data_read.
  assert (Hlen : forall (l : list bytes), len l <= 1000000 -> len l mod U32 = len l)
    by (intros l Hl; apply Z.mod_small; unfold len in *; lia).
  assert (Hlen' : forall (l : bytes), len l <= 1000000 -> len l mod U32 = len l)
    by (intros l Hl; apply Z.mod_small; unfold len in *; lia).
  change (write (bin_writer v) d) with
    (write (bin_writer v) (aux_header d) ++ write_u32 (len (merkle_branch d) mod U32)
     ++ concat (map write_fixed_bytes (merkle_branch d))
     ++ write_u32 (len (coinbase_tx d) mod U32) ++ concat (map write_u8 (coinbase_tx d))).
  rewrite Hlen, Hlen' by done. field reads_aux_header.
  eapply reads_bind; [apply reads_u32; unfold len in *; change (2 ^ 32) with U32; lia|].
  eapply reads_bind; [eapply reads_multi; [done|done|]|].
  { eapply List.Forall_impl; [|exact H3]. intros h Hh. apply reads_hash, Hh. }
  eapply reads_bind; [apply reads_u32; unfold len in *; change (2 ^ 32) with U32; lia|].
  eapply reads_bind_last; [eapply reads_multi; [done|done|]|destruct d; apply reads_ret].
  eapply List.Forall_impl; [|exact H5]. intros x Hx. apply reads_u8. exact Hx.
Qed.

Lemma reads_pow v p : wf_pow p -> reads (R := R) v pow_read (write (bin_writer v) p) p.
Proof.
  intros (H1 & H2 & H3 & H4). unfold pow_read.
  change (write (bin_writer v) p) with
    (((write_u64 (num (total_difficulty p)) ++ write_u32 (secondary_scaling p)) ++ write_u64 (nonce p))
     ++ write (bin_writer v) (proof p)).
  rewrite <- !app_assoc.
  eapply reads_bind; [eapply reads_bind_last; [apply reads_u64, H1|apply reads_ret]|].
  eapply reads_bind; [apply reads_u32, H2|]. eapply reads_bind; [apply reads_u64, H3|].
  eapply reads_bind_last; [apply reads_proof, H4|]. destruct p as [[] ? ? ?]. apply reads_ret.
Qed.

Lemma reads_token_part ct v h : wf_token_part ct h ->
  reads (R := R) v (token_part_read ct (bh_height h))
    (if support_token_height ct <=? bh_height h then
        write_fixed_bytes (token_output_root h) ++ write_fixed_bytes (token_range_proof_root h)
        ++ write_fixed_bytes (token_issue_proof_root h) ++ write_fixed_bytes (token_kernel_root h)
        ++ write_u64 (token_output_mmr_size h) ++ write_u64 (token_issue_proof_mmr_size h)
        ++ write_u64 (token_kernel_mmr_size h)
      else [])
    (token_output_root h, token_range_proof_root h, token_issue_proof_root h, token_kernel_root h,
      (token_output_mmr_size h, token_issue_proof_mmr_size h, token_kernel_mmr_size h)).
Proof.
  unfold wf_token_part, token_part_read. destruct (support_token_height ct <=? bh_height h).
  - intros (H1 & H2 & H3 & H4 & H5 & H6 & H7). field reads_hash. field reads_hash. field reads_hash.
    field reads_hash. field reads_u64. field reads_u64.
    eapply reads_bind_last; [apply reads_u64; assumption|apply reads_ret].
  - intros (-> & -> & -> & -> & -> & -> & ->). apply reads_ret.
Qed.

Definition write_pow_part ct v h : bytes :=
  if refactor_header_height ct <=? bh_height h then write (bin_writer v) (btc_pow h) else write (bin_writer v) (pow h).

Lemma reads_pow_part ct v h : wf_pow_part ct h ->
  reads (R := R) v
    (if refactor_header_height ct <=? bh_height h then
       let! btc_pow := aux_data_read in read_ret (implied_pow (bh_height h), btc_pow)
     else let! pow := pow_read in read_ret (pow, aux_data_default))
    (write_pow_part ct v h) (pow h, btc_pow h).
Proof.
  unfold wf_pow_part, write_pow_part. destruct (refactor_header_height ct <=? bh_height h).
  - intros [-> H]. eapply reads_bind_last; [apply reads_aux_data, H|apply reads_ret].
  - intros [H ->]. eapply reads_bind_last; [apply reads_pow, H|apply reads_ret].
Qed.

Lemma write_header_bin ct v h :
  @write _ (write_header ct) (bin_writer v) h = write_pre_pow ct (bin_writer v) h ++ write_pow_part ct v h.
Proof. unfold write, write_header, write_pow_part. destruct (_ <=? _); done. Qed.

Lemma reads_header ct v h : wf_header ct h ->
  reads (R := R) v (header_read ct) (@write _ (write_header ct) (bin_writer v) h) h.
Proof.
  intros ((H1 & H2 & H3) & (H4 & H5 & H6 & H7 & H8 & H9) & (H10 & H11 & H12) & Ht & Hp).
  rewrite write_header_bin. unfold write_pre_pow. rewrite <- !app_assoc. unfold header_read.
  field reads_u16. field reads_u64.
  eapply reads_bind; [apply reads_i64; destruct timestamps_i64; lia|].
  field reads_hash. field reads_hash. field reads_hash. field reads_hash. field reads_hash.
  eapply reads_bind; [apply reads_blinding, H9|]. field reads_u64. field reads_u64. field reads_u32.
  eapply reads_bind; [apply reads_token_part, Ht|]. cbv iota beta.
  eapply reads_bind_last; [apply reads_pow_part, Hp|].
  rewrite !(proj2 (Z.ltb_ge _ _)) by lia. cbn [orb fst snd]. destruct h. apply reads_ret.
Qed.
End HeaderRoundTrip.

(** ** Rewards and overage *)

Lemma reward_bounds ct height : 0 <= height -> 0 <= reward ct height 0 <= REWARD.
Proof.
  intros Hh. unfold reward. set (q := height / halving_interval ct).
  assert (Hq : 0 <= q) by (apply Z.div_pos; [lia|pose proof (halving_interval_bounds ct); lia]).
  assert (HR : 0 <= REWARD <= u64_max) by (split; vm_compute; congruence).
  assert (H : 0 <= (if 64 <=? q then 0 else (REWARD >> q)%u64) <= REWARD).
  { destruct (64 <=? q); [lia|]. unfold shr64. pose proof (Z.mod_pos_bound q 64 ltac:(lia)).
    rewrite Z.shiftr_div_pow2 by lia. split; [apply Z.div_pos; [lia|apply pow2_pos; lia]|].
    apply Z.div_le_upper_bound; [apply pow2_pos; lia|]. pose proof (pow2_pos (q mod 64) ltac:(lia)). nia. }
  unfold saturating_add64. lia.
Qed.

Lemma header_overage_reward ct h : 0 <= bh_height h -> header_overage ct h = - reward ct (bh_height h) 0.
Proof.
  intros Hh. pose proof (reward_bounds ct _ Hh) as Hr. unfold header_overage, checked_neg64, to_signed.
  assert (REWARD < 2 ^ 63) by done. change (64 - 1) with 63. rewrite (proj2 (Z.ltb_lt _ _)) by lia.
  rewrite (proj2 (Z.eqb_neq _ _)) by lia. done.
Qed.

Lemma header_overage_i64 ct h : 0 <= bh_height h -> - 2 ^ 63 < header_overage ct h <= 0.
Proof.
  intros Hh. rewrite header_overage_reward by done. pose proof (reward_bounds ct _ Hh).
  assert (REWARD < 2 ^ 63) by done. lia.
Qed.

(** ** A chain of blocks *)

Section ChainSums.
  Context `{SL : SecpLaws} {DG : Digest} (ct : ChainTypes).

Definition block_hash (b : Block) : bytes := @hash DG _ (write_header ct) (header b).

(** Blocks processed one after the other, each on top of the one before. *)
Inductive processed : SumStore -> bytes -> list Block -> SumStore -> bytes -> Prop :=
| processed_none batch tip : processed batch tip [] batch tip
| processed_block batch tip b batch' bs batch'' tip'' :
    prev_hash (header b) = tip -> 0 <= bh_height (header b) ->
    verify_block_sums ct b batch = Ok batch' ->
    processed batch' (block_hash b) bs batch'' tip'' ->
    processed batch tip (b :: bs) batch'' tip''.

(** What a block adds to the unspent outputs. *)
Definition block_value (b : Block) : Z :=
  sum_points (outputs_committed b) - sum_points (inputs_committed b).

Lemma verify_block_sums_step b batch batch' prev :
  0 <= bh_height (header b) -> batch !! prev_hash (header b) = Some prev ->
  verify_block_sums ct b batch = Ok batch' ->
  exists s, batch' !! block_hash b = Some s /\
    point (utxo_sum s) =g= point (utxo_sum prev) + block_value b - reward ct (bh_height (header b)) 0 * value_point /\
    point (kernel_sum s) =g= point (kernel_sum prev) + sum_points (kernels_committed b) /\
    point (utxo_sum s) =g= point (kernel_sum s) + blind_val (total_kernel_offset (header b)).
Proof.
  intros Hh Hp H. unfold verify_block_sums in H. rewrite Hp in H. cbn [ok_or res_bind] in H.
  pose proof (header_overage_i64 ct _ Hh) as Ho.
  pose proof (verify_kernel_sums_spec (prev, b) (header_overage ct (header b)) (total_kernel_offset (header b)) ltac:(lia)) as Hs.
  destruct (verify_kernel_sums _ _ _) as [[u k]|e|]; cbn [map_err res_bind] in H; [|done|done].
  injection H as <-. exists (mkBlockSums u k). split; [apply lookup_insert_eq|].
  destruct Hs as (Hb & Hu & Hk). unfold balanced in Hb.
  cbn [outputs_committed inputs_committed kernels_committed block_sums_committed fst snd utxo_sum kernel_sum] in *.
  rewrite sum_points_cons in Hu, Hk, Hb. rewrite header_overage_reward in Hu, Hb by done. unfold block_value.
  cbn [outputs_committed inputs_committed kernels_committed block_committed] in *.
  split; [rewrite Hu; glia|]. split; [done|]. rewrite Hu, Hk.
  transitivity (point (utxo_sum prev) + sum_points (outputs_committed (block_body b)) +
    - reward ct (bh_height (header b)) 0 * value_point - sum_points (inputs_committed (block_body b))); [glia|].
  rewrite sum_points_cons in Hb. rewrite Hb. glia.
Qed.

Definition total_rewards (bs : list Block) : Z := total (fun b => reward ct (bh_height (header b)) 0) bs.

Lemma processed_sums batch tip bs batch' tip' : processed batch tip bs batch' tip' ->
  forall start, batch !! tip = Some start ->
  exists s, batch' !! tip' = Some s /\
    point (utxo_sum s) =g= point (utxo_sum start) + total block_value bs - total_rewards bs * value_point /\
    point (kernel_sum s) =g= point (kernel_sum start) + total (fun b => sum_points (kernels_committed b)) bs /\
    (forall b, last bs = Some b ->
       point (utxo_sum s) =g= point (kernel_sum s) + blind_val (total_kernel_offset (header b))).
Proof.
  induction 1 as [batch tip|batch tip b batch' bs batch'' tip'' Ht Hh Hv _ IH]; intros start Hs.
  - exists start. split; [done|]. split; [unfold total_rewards, total; glia|].
    split; [unfold total; glia|]. intros b [=].
  - rewrite <- Ht in Hs. destruct (verify_block_sums_step _ _ _ _ Hh Hs Hv) as (s1 & E1 & U1 & K1 & B1).
    destruct (IH s1 E1) as (s & E2 & U2 & K2 & B2). exists s. split; [done|].
    unfold total_rewards, total in *. cbn [map foldr].
    split; [rewrite U2, U1; glia|]. split; [rewrite K2, K1; glia|].
    intros b' Hb'. destruct bs as [|b2 bs]; [|apply B2, Hb'].
    injection Hb' as <-. cbn in U2, K2. rewrite U2, K2. rewrite B1. glia.
Qed.
End ChainSums.

(** ** Validated blocks *)

Section ValidBlocks.
  Context `{SL : SecpLaws} {DG : Digest} (ct : ChainTypes).
  Implicit Types (b : Block).

Definition coinbase_outputs b := List.filter (fun o => of_is_coinbase (output_features o)) (outputs (block_body b)).
Definition coinbase_kernels b := List.filter is_coinbase_kernel (kernels (block_body b)).

Lemma verify_coinbase_ok b : verify_coinbase ct b = Ok tt ->
  sum_points (map output_commit (coinbase_outputs b))
  =g= reward ct (bh_height (header b)) (fee (block_body b)) * value_point
      + sum_points (map excess (coinbase_kernels b)).
Proof.
  unfold verify_coinbase. fold (coinbase_outputs b) (coinbase_kernels b).
  destruct (commit_value _) as [oc|] eqn:Ev; cbn [ok_or res_bind]; [|done].
  destruct (commit_sum (map output_commit _) _) as [os|] eqn:Eo; cbn [ok_or res_bind]; [|done].
  destruct (commit_sum (map excess _) _) as [ks|] eqn:Ek; cbn [ok_or res_bind]; [|done].
  destruct (bool_decide_reflect (ks = os)) as [->|]; [|done]. intros _.
  apply commit_sum_points in Eo, Ek.
  assert (Hv : point oc =g= reward ct (bh_height (header b)) (fee (block_body b)) * value_point) by apply commit_value_sound, Ev.
  rewrite sum_points_cons in Eo. rewrite Ek, Hv in Eo.
  set (rew := reward ct (bh_height (header b)) (fee (block_body b)) * value_point) in *.
  transitivity (sum_points (map output_commit (coinbase_outputs b)) - (rew + sum_points []) + rew); [glia|].
  rewrite <- Eo. glia.
Qed.

Lemma block_kernel_offset_ok b prev off :
  is_Some (secret_key (total_kernel_offset (header b))) -> is_Some (secret_key prev) ->
  total_kernel_offset (header b) <> blind_zero \/ total_kernel_offset (header b) = prev ->
  block_kernel_offset b prev = Ok off ->
  blind_val off =g= blind_val (total_kernel_offset (header b)) - blind_val prev.
Proof.
  unfold block_kernel_offset. set (t := total_kernel_offset (header b)). intros Ht Hp Hz H.
  destruct (bool_decide_reflect (t = prev)) as [->|Hne]; [injection H as <-; rewrite blind_zero_val; glia|].
  destruct Hz as [Hz|]; [|done].
  pose proof (to_secrets_sum [t] ltac:(constructor; [done|constructor])) as E1.
  pose proof (to_secrets_sum [prev] ltac:(constructor; [done|constructor])) as E2.
  unfold sum_kernel_offsets in H. destruct (to_secrets [t]) as [|k ks] eqn:Et.
  { exfalso. unfold to_secrets in Et. cbn [List.filter] in Et. rewrite bool_decide_false in Et by done.
    destruct Ht as [k Ht]. cbn in Et. rewrite Ht in Et. done. }
  destruct (blind_sum (k :: ks) (to_secrets [prev])) as [s|] eqn:Es; [|done]. injection H as <-.
  destruct (blind_sum_valid _ _ _ Es) as [Hlen _]. unfold blind_val at 1. rewrite from_secret_key_bytes by done.
  transitivity (total (fun k => be_val (secret_bytes k)) (k :: ks) - total (fun k => be_val (secret_bytes k)) (to_secrets [prev]));
    [apply (blind_sum_sound _ _ _ Es)|].
  rewrite E1, E2. unfold total. glia.
Qed.

(** With a total offset of zero the previous offset is not subtracted. *)
Lemma zero_total_offset_not_subtracted b prev :
  total_kernel_offset (header b) = blind_zero -> block_kernel_offset b prev = Ok blind_zero.
Proof.
  intros H. unfold block_kernel_offset. destruct (bool_decide _); [done|].
  unfold sum_kernel_offsets, to_secrets. rewrite H. cbn [List.filter]. rewrite bool_decide_true by done. done.
Qed.

Lemma lock_heights_ok b : verify_kernel_lock_heights b = Ok tt ->
  (forall k fee h, In k (kernels (block_body b)) -> features k = KHeightLocked fee h -> h <= bh_height (header b)) /\
  (forall k h, In k (token_kernels (block_body b)) -> token_features k = HeightLockedToken h -> h <= bh_height (header b)).
Proof.
  unfold verify_kernel_lock_heights.
  destruct (List.find _ (kernels (block_body b))) as [k|] eqn:E1; [done|].
  destruct (List.find _ (token_kernels (block_body b))) as [k|] eqn:E2; [done|]. intros _. split.
  - intros k fee h Hin Hk. pose proof (find_none _ _ E1 k Hin) as Hn. cbn in Hn. rewrite Hk in Hn. lia.
  - intros k h Hin Hk. pose proof (find_none _ _ E2 k Hin) as Hn. cbn in Hn. rewrite Hk in Hn. lia.
Qed.
End ValidBlocks.

(** ** Theorems *)

(** C17: a validated block creates exactly its reward.  When [Block::validate]
    accepts a block on top of a previous total offset, the outputs equal the
    inputs plus the kernel excesses plus this block's share of the offset plus
    the reward of its height; the coinbase outputs alone equal the reward with
    the fees plus the coinbase kernels; no kernel is locked beyond the block; a
    block below the token height has no token kernels; the returned sum is that
    of the kernels.  The offsets are keys, and the total offset is not zero
    unless it did not change (see [zero_total_offset_not_subtracted]). *)
Theorem validated_block_creates_its_reward `{SL : SecpLaws} {SV : SecpVerify} {DG : Digest} {L} `{!LruCache L}
    ct b prev (vc vc' : LruVerifierCache L) k :
  0 <= bh_height (header b) ->
  is_Some (secret_key (total_kernel_offset (header b))) -> is_Some (secret_key prev) ->
  total_kernel_offset (header b) <> blind_zero \/ total_kernel_offset (header b) = prev ->
  block_validate ct b prev vc = (Ok k, vc') ->
  (sum_points (outputs_committed b)
   =g= sum_points (inputs_committed b) + sum_points (kernels_committed b)
       + (blind_val (total_kernel_offset (header b)) - blind_val prev)
       + reward ct (bh_height (header b)) 0 * value_point) /\
  (sum_points (map output_commit (coinbase_outputs b))
   =g= reward ct (bh_height (header b)) (fee (block_body b)) * value_point
       + sum_points (map excess (coinbase_kernels b))) /\
  (forall k fee h, In k (kernels (block_body b)) -> features k = KHeightLocked fee h -> h <= bh_height (header b)) /\
  (forall k h, In k (token_kernels (block_body b)) -> token_features k = HeightLockedToken h -> h <= bh_height (header b)) /\
  (bh_height (header b) < support_token_height ct -> token_kernels (block_body b) = []) /\
  point k =g= sum_points (kernels_committed b).
Proof.
  intros Hh Ht Hp Hz H. unfold block_validate in H.
  destruct (validate_token_height ct (block_body b) (bh_height (header b))) as [[]|e|] eqn:E0; [|done|done].
  destruct (body_validate ct (block_body b) AsBlock vc) as [r vc1]. injection H as H _.
  destruct r as [[]|e|]; cbn [map_err res_bind] in H; [|done|done].
  destruct (verify_kernel_lock_heights b) as [[]|e|] eqn:E1; cbn [map_err res_bind] in H; [|done|done].
  destruct (verify_coinbase ct b) as [[]|e|] eqn:E2; cbn [map_err res_bind] in H; [|done|done].
  destruct (verify_token_kernel_sum b) as [ts|e|]; cbn [map_err res_bind] in H; [|done|done].
  destruct (block_kernel_offset b prev) as [off|e|] eqn:E3; cbn [map_err res_bind] in H; [|done|done].
  pose proof (header_overage_i64 ct _ Hh) as Ho.
  pose proof (verify_kernel_sums_spec b (header_overage ct (header b)) off ltac:(lia)) as Hs.
  destruct (verify_kernel_sums b _ off) as [[u k']|e|]; cbn [map_err res_bind] in H; [|done|done].
  injection H as ->. destruct Hs as (Hb & _ & Hk). unfold balanced in Hb.
  rewrite header_overage_reward, (block_kernel_offset_ok b prev off Ht Hp Hz E3) in Hb by done.
  split; [|split; [apply verify_coinbase_ok, E2|split; [apply lock_heights_ok, E1|split; [apply lock_heights_ok, E1|split; [|done]]]]].
  - transitivity (sum_points (outputs_committed b) + - reward ct (bh_height (header b)) 0 * value_point
      + reward ct (bh_height (header b)) 0 * value_point); [glia|]. rewrite Hb. glia.
  - intros Hlt. unfold validate_token_height in E0. rewrite (proj2 (Z.ltb_lt _ _)) in E0 by done. cbn [andb] in E0.
    destruct (token_kernels (block_body b)); [done|]. unfold len in E0. cbn [length] in E0.
    rewrite (proj2 (Z.ltb_lt _ _)) in E0 by lia. done.
Qed.

(** C18: the supply of the chain is the sum of the rewards.  For blocks accepted
    one after the other by [verify_block_sums], each on top of the one before,
    the stored sum of unspent outputs commits to the outputs minus the inputs of
    all blocks minus all rewards, the stored kernel sum to all kernel excesses,
    and the two differ exactly by the total offset of the last header. *)
Theorem chain_supply_is_the_rewards `{SL : SecpLaws} {DG : Digest} ct batch tip bs batch' tip' start :
  batch !! tip = Some start -> processed ct batch tip bs batch' tip' ->
  exists s, batch' !! tip' = Some s /\
    point (utxo_sum s) + total_rewards ct bs * value_point =g= point (utxo_sum start) + total block_value bs /\
    point (kernel_sum s) =g= point (kernel_sum start) + total (fun b => sum_points (kernels_committed b)) bs /\
    (forall b, last bs = Some b ->
       point (utxo_sum s) =g= point (kernel_sum s) + blind_val (total_kernel_offset (header b))).
Proof.
  intros Hs H. destruct (processed_sums ct _ _ _ _ _ H start Hs) as (s & E & U & K & B).
  exists s. split; [done|]. split; [rewrite U; glia|]. split; done.
Qed.

(** Headers and blocks survive serialization.  A well-formed header is read
    back as written, in the form its height calls for (token part, proof of work
    or merge-mining data); so is a block with a sorted, light and well-formed
    body (in version 1 without token parts). *)
Theorem block_roundtrip {SS : SecpSizes} {CH : Chrono} {DG : Digest} {R} `{!Reader R} `{!ReaderLaws R} ct v :
  (forall h, wf_header ct h -> reads (R := R) v (header_read ct) (@write _ (write_header ct) (bin_writer v) h) h) /\
  (forall b, wf_block ct b -> wf_body (block_body b) -> light ct (block_body b) -> body_sorted (block_body b) ->
     (v <= 1 -> token_inputs (block_body b) = [] /\ token_outputs (block_body b) = [] /\ token_kernels (block_body b) = []) ->
     reads (R := R) v (block_read ct) (@write _ (write_block ct) (bin_writer v) b) b).
Proof.
  split; [intros; apply reads_header; done|]. intros b [Hh Ha] Hwf Hl Hs Htok. unfold block_read.
  assert (E : @write _ (write_block ct) (bin_writer v) b = @write _ (write_header ct) (bin_writer v) (header b)
    ++ (if bh_height (header b) <? refactor_header_height ct then write (bin_writer v) (aux_data b) else [])
    ++ write (bin_writer v) (block_body b)) by done.
  rewrite E. eapply reads_bind; [apply reads_header, Hh|].
  eapply reads_bind with (a := aux_data b).
  - destruct (Z.leb_spec (refactor_header_height ct) (bh_height (header b))).
    + rewrite (proj2 (Z.ltb_ge _ _)) by done. rewrite Ha. apply reads_ret.
    + rewrite (proj2 (Z.ltb_lt _ _)) by done. apply reads_aux_data, Ha.
  - eapply reads_bind_last with (a := block_body b); [apply reads_body; done|destruct b; apply reads_ret].
Qed.

(** Header equality forgets the proof of work too early.  Between the token
    height and the height at which headers stop carrying a proof of work, headers
    are written and hashed with [pow], but compared by [btc_pow], which they do
    not have yet: two such headers that differ in their proof of work only are
    equal. *)
Theorem header_eq_ignores_pow ct h p :
  support_token_height ct <= bh_height h < refactor_header_height ct ->
  let h' := mkHeader (bh_version h) (bh_height h) (prev_hash h) (prev_root h) (timestamp h) (output_root h)
    (range_proof_root h) (kernel_root h) (total_kernel_offset h) (output_mmr_size h) (kernel_mmr_size h) (bits h)
    (token_output_root h) (token_range_proof_root h) (token_issue_proof_root h) (token_kernel_root h)
    (token_output_mmr_size h) (token_issue_proof_mmr_size h) (token_kernel_mmr_size h) p (btc_pow h) in
  header_eq ct h h' = true /\
  @write _ (write_header ct) hash_writer h = write hash_writer (pow h) /\
  @write _ (write_header ct) hash_writer h' = write hash_writer p.
Proof.
  intros Hh h'. split; [|split].
  - unfold header_eq. rewrite (proj2 (Z.leb_le _ _)) by lia. unfold is_pre_pow_equal, h'. cbn.
    rewrite !Z.eqb_refl, !bool_decide_true by done. done.
  - unfold write at 1, write_header. rewrite (proj2 (Z.leb_gt _ _)) by lia. done.
  - unfold write at 1, write_header. cbn [bh_height h']. rewrite (proj2 (Z.leb_gt _ _)) by lia. done.
Qed.

(** ** Witnesses *)

#[local] Existing Instance demo_digest.
#[local] Existing Instance demo_sizes.
#[local] Existing Instance demo_secp.
#[local] Existing Instance demo_laws.
#[local] Existing Instance demo_verify.

(** The first block: the reward [r] at the point [3 r] modulo 101, excess 7. *)
Definition first_coinbase : Z := (reward Mainnet 1 0 * 3 + 7) mod 101.
Definition first_body : TransactionBody :=
  mkBody [] [] [mkOutput OCoinbase (small_commit first_coinbase) (mkRangeProof [first_coinbase] 1)] []
    [mkTxKernel KCoinbase (small_commit 7) (mkSignature [])] [].
Definition first_header : BlockHeader :=
  mkHeader 1 1 ZERO_HASH_BYTES ZERO_HASH_BYTES 1000 ZERO_HASH_BYTES ZERO_HASH_BYTES ZERO_HASH_BYTES
    blind_zero 1 1 0 ZERO_HASH_BYTES ZERO_HASH_BYTES ZERO_HASH_BYTES ZERO_HASH_BYTES 0 0 0
    pow_default aux_data_default.
Definition first_block : Block := mkBlock first_header aux_data_default first_body.

Lemma validated_block_creates_its_reward_witness :
  exists vc', block_validate Mainnet first_block blind_zero (verifier_new (L := list bytes)) = (Ok (small_commit 7), vc') /\
  sum_points (outputs_committed first_block)
  =g= sum_points (inputs_committed first_block) + sum_points (kernels_committed first_block)
      + (blind_val blind_zero - blind_val blind_zero) + reward Mainnet 1 0 * value_point.
Proof.
  eexists. split; [vm_compute; reflexivity|].
  pose proof (validated_block_creates_its_reward Mainnet first_block blind_zero
    (verifier_new (L := list bytes))) as H.
  eapply H; [cbn; lia|eexists; vm_compute; reflexivity|eexists; vm_compute; reflexivity|right; reflexivity
    |vm_compute; reflexivity].
Defined.

Definition genesis_store : SumStore := {[ ZERO_HASH_BYTES := default_block_sums ]}.
Definition first_store : SumStore :=
  <[block_hash Mainnet first_block := mkBlockSums (small_commit 7) (small_commit 7)]> genesis_store.

Lemma chain_supply_is_the_rewards_witness :
  exists s, first_store !! block_hash Mainnet first_block = Some s /\
    point (utxo_sum s) + total_rewards Mainnet [first_block] * value_point
    =g= point (utxo_sum default_block_sums) + total block_value [first_block].
Proof.
  pose proof (chain_supply_is_the_rewards Mainnet genesis_store ZERO_HASH_BYTES [first_block] first_store
    (block_hash Mainnet first_block) default_block_sums) as H.
  destruct H as (s & H1 & H2 & _); [reflexivity| |exists s; split; [exact H1|exact H2]].
  eapply processed_block with (batch' := first_store); [reflexivity|cbn; lia|vm_compute; reflexivity|constructor].
Defined.

Lemma header_eq_ignores_pow_witness :
  exists h h', header_eq Floonet h h' = true /\ pow h <> pow h'.
Proof.
  set (h := mkHeader 2 165 ZERO_HASH_BYTES ZERO_HASH_BYTES 1000 ZERO_HASH_BYTES ZERO_HASH_BYTES ZERO_HASH_BYTES
    blind_zero 1 1 0 ZERO_HASH_BYTES ZERO_HASH_BYTES ZERO_HASH_BYTES ZERO_HASH_BYTES 0 0 0
    pow_default aux_data_default).
  pose proof (header_eq_ignores_pow Floonet h (mkPow difficulty_min 1 7 (proof_zero proofsize))) as H.
  destruct H as [H _]; [split; reflexivity || (cbn; lia)|]. eexists _, _. split; [exact H|]. vm_compute. congruence.
Defined.
