(* ===== verification/CompactBlock.v ===== *)
(** * Compact blocks

    Models [core/src/core/id.rs] (short ids), [core/src/core/compact_block.rs]
    and [Block::hydrate_from] of [core/src/core/block.rs]: the announcement of a
    block by its header, its coinbase and the short ids of its kernels, and the
    rebuilding of the block from transactions.

    SipHash is an external crate; the elements of a [HashSet] come out in an
    unspecified order, so the conversion of a set to a vector is a parameter. *)

From Stdlib Require Import ZArith Lia List Bool Permutation Sorted.
From stdpp Require Import base numbers list option gmap.
From S2P Require Import Prelude Bytes Consensus Ser PowTypes Transaction TxBody Committed Verifier Aggregate Block.

(** [SipHasher24::new_with_keys(k0, k1)], one [write] and [finish]. *)
Class SipHasher := siphash24 : Z -> Z -> bytes -> Z.

(** The elements of a [HashSet] extended with the elements of a list, as a vector. *)
Class HashSets := hash_set_vec : forall {A : Type}, (A -> A -> bool) -> list A -> list A.

(** When equality is identity on the list, the vector holds each of its elements once. *)
Class HashSetLaws `{HashSets} :=
  hash_set_vec_spec : forall {A : Type} (eq : A -> A -> bool) (l : list A),
    (forall x y, In x l -> In y l -> eq x y = true <-> x = y) ->
    NoDup (hash_set_vec eq l) /\ forall x, In x (hash_set_vec eq l) <-> In x l.

(** ** Short ids *)

Definition SHORT_ID_SIZE : nat := 6.

Record ShortId := mkShortId { id_bytes : bytes }.

#[export] Instance write_short_id : Writeable ShortId := fun _ i => write_fixed_bytes (id_bytes i).

Definition short_id_read {R} `{!Reader R} : R -> res Error (ShortId * R) :=
  let! v := read_fixed_bytes (Z.of_nat SHORT_ID_SIZE) in read_ret (mkShortId v).

(** [ShortId::from_bytes]: the first six bytes, padded with zeros *)
Definition short_id_from_bytes (b : bytes) : ShortId :=
  let copy_size := Nat.min SHORT_ID_SIZE (length b) in
  mkShortId (take copy_size b ++ replicate (SHORT_ID_SIZE - copy_size) 0).

(** [ShortId::zero] *)
Definition short_id_zero : ShortId := short_id_from_bytes [0].

(** [ShortIdentifiable::short_id] *)
Definition short_id {DG : Digest} {SH : SipHasher} {A} `{!Writeable A} (a : A) (block_hash : bytes) (nonce : Z) : ShortId :=
  let hash_with_nonce := blake2b (write_fixed_bytes block_hash ++ write_u64 nonce) in
  let k0 := le_val (take 8 hash_with_nonce) in
  let k1 := le_val (take 8 (drop 8 hash_with_nonce)) in
  let res := siphash24 k0 k1 (hash a) in
  short_id_from_bytes (take 6 (le_bytes 8 res)).

(** ** Compact blocks *)

Record CompactBlockBody := mkCompactBody {
  out_full : list Output; kern_full : list TxKernel; kern_ids : list ShortId }.

Record CompactBlock := mkCompact {
  cb_header : BlockHeader; cb_nonce : Z; cb_aux_data : BlockAuxData; cb_body : CompactBlockBody }.

Section Compact.
  Context {DG : Digest}.

(** [CompactBlockBody::sort], [verify_sorted], [validate_read] and [init] *)
Definition compact_sort (b : CompactBlockBody) : CompactBlockBody :=
  mkCompactBody (sort_unstable (out_full b)) (sort_unstable (kern_full b)) (sort_unstable (kern_ids b)).

Definition compact_verify_sorted (b : CompactBlockBody) : res BlockError unit :=
  let? _ := map_err BSerialization (verify_sorted_and_unique (out_full b)) in
  let? _ := map_err BSerialization (verify_sorted_and_unique (kern_full b)) in
  let? _ := map_err BSerialization (verify_sorted_and_unique (kern_ids b)) in
  Ok tt.

Definition compact_body_validate_read (b : CompactBlockBody) : res BlockError unit := compact_verify_sorted b.

Definition compact_init (outs : list Output) (kerns : list TxKernel) (ids : list ShortId) (verify : bool)
    : res BlockError CompactBlockBody :=
  let body := mkCompactBody outs kerns ids in
  if verify then let? _ := compact_verify_sorted body in Ok body else Ok (compact_sort body).

#[export] Instance write_compact_body : Writeable CompactBlockBody := fun w b =>
  write_u64 (len (out_full b)) ++ write_u64 (len (kern_full b)) ++ write_u64 (len (kern_ids b))
  ++ write w (out_full b) ++ write w (kern_full b) ++ write w (kern_ids b).

Definition compact_body_read {SS : SecpSizes} {R} `{!Reader R} : R -> res Error (CompactBlockBody * R) :=
  let! out_full_len := read_u64 in
  let! kern_full_len := read_u64 in
  let! kern_id_len := read_u64 in
  let! outs := read_multi output_read out_full_len in
  let! kerns := read_multi tx_kernel_read kern_full_len in
  let! ids := read_multi short_id_read kern_id_len in
  match compact_init outs kerns ids true with
  | Ok body => read_ret body
  | Err _ => read_fail CorruptedData
  | Panic => read_panic
  end.

(** [CompactBlock::validate_read] *)
Definition compact_validate_read (cb : CompactBlock) : res BlockError unit := compact_body_validate_read (cb_body cb).

(** [From<Block> for CompactBlock]; [nonce] is drawn at random. *)
Definition compact_of_block {SH : SipHasher} (ct : ChainTypes) (nonce : Z) (block : Block) : res BlockError CompactBlock :=
  let header := header block in
  let outs := List.filter (fun o => of_is_coinbase (output_features o)) (outputs (block_body block)) in
  let kerns := List.filter is_coinbase_kernel (kernels (block_body block)) in
  let ids := map (fun k => short_id k (@hash DG _ (write_header ct) header) nonce)
               (List.filter (fun k => negb (is_coinbase_kernel k)) (kernels (block_body block))) in
  match compact_init outs kerns ids false with
  | Ok body => Ok (mkCompact header nonce (aux_data block) body)
  | Err _ | Panic => Panic
  end.

Definition write_compact_block (ct : ChainTypes) : Writeable CompactBlock := fun w cb =>
  @write _ (write_header ct) w (cb_header cb)
  ++ (if negb (bool_decide (serialization_mode w = HashMode)) then
        write_u64 (cb_nonce cb)
        ++ (if bh_height (cb_header cb) <? refactor_header_height ct then write w (cb_aux_data cb) else [])
        ++ write w (cb_body cb)
      else []).

Definition compact_block_read {SS : SecpSizes} {CH : Chrono} {R} `{!Reader R} (ct : ChainTypes)
    : R -> res Error (CompactBlock * R) :=
  let! header := header_read ct in
  let! nonce := read_u64 in
  let! aux_data :=
    if refactor_header_height ct <=? bh_height header then read_ret aux_data_default else aux_data_read in
  let! body := compact_body_read in
  read_ret (mkCompact header nonce aux_data body).

(** ** Hydration *)

(** [Block::hydrate_from] *)
Definition hydrate_from {HS : HashSets} (cb : CompactBlock) (txs : list Transaction) : res BlockError Block :=
  let all {A} (f : TransactionBody -> list A) := concat (map (fun tx => f (body tx)) txs) in
  let all_inputs := hash_set_vec eqb (all inputs) in
  let all_outputs := hash_set_vec eqb (all outputs ++ out_full (cb_body cb)) in
  let all_kernels := hash_set_vec eqb (all kernels ++ kern_full (cb_body cb)) in
  let all_token_inputs := hash_set_vec eqb (all token_inputs) in
  let all_token_outputs := hash_set_vec eqb (all token_outputs) in
  let all_token_kernels := hash_set_vec eqb (all token_kernels) in
  let? body :=
    map_err BTransaction (init all_inputs all_outputs all_kernels all_token_inputs all_token_outputs
      all_token_kernels false) in
  block_cut_through (mkBlock (cb_header cb) (cb_aux_data cb) body).
End Compact.

(** ** Sorted lists *)

Section Sorting.
  Context {DG : Digest} {A : Type} `{!Writeable A}.
  Implicit Types l : list A.

Lemma sorted_unique_nodup_hash l : sorted_unique l -> NoDup (map hash l).
Proof.
  unfold sorted_unique. generalize (map (hash (A := A)) l). intros hs. induction 1 as [|h hs Hs IH Hf]; constructor; [|done].
  intros Hin%list_elem_of_In. rewrite List.Forall_forall in Hf. apply (bytes_lt_neq h h (Hf h Hin)). done.
Qed.

(** A permutation of a strictly sorted list sorts to it. *)
Lemma sorted_perm_unique l l' :
  StronglySorted bytes_le (map hash l) -> sorted_unique l' -> Permutation l l' -> l = l'.
Proof.
  revert l'. induction l as [|x l IH]; intros l' Hs Hu Hp.
  - apply Permutation_nil in Hp. done.
  - destruct l' as [|y l']; [by apply Permutation_sym, Permutation_nil in Hp|].
    cbn in Hs. apply StronglySorted_inv in Hs as [Hs Hf].
    pose proof Hu as Hu'. unfold sorted_unique in Hu'. cbn in Hu'. apply StronglySorted_inv in Hu' as [Hu' Hf'].
    rewrite List.Forall_forall in Hf, Hf'.
    assert (E : x = y).
    { assert (Hx : In x (y :: l')) by (eapply Permutation_in; [exact Hp|by left]).
      assert (Hy : In y (x :: l)) by (eapply Permutation_in; [apply Permutation_sym, Hp|by left]).
      destruct Hx as [->|Hx]; [done|]. destruct Hy as [->|Hy]; [done|].
      specialize (Hf _ (in_map _ _ _ Hy)). specialize (Hf' _ (in_map _ _ _ Hx)).
      destruct (bytes_lt_neq (hash y) (hash y) (bytes_lt_le_trans _ _ _ Hf' Hf)). done. }
    subst y. f_equal. apply IH; [done|done|]. eapply Permutation_cons_inv, Hp.
Qed.

Lemma sort_rebuilds l l' :
  NoDup l -> (forall x, In x l <-> In x l') -> sorted_unique l' -> sort_unstable l = l'.
Proof.
  intros Hn Hin Hu. apply sorted_perm_unique; [apply sort_unstable_sorted|done|].
  rewrite sort_unstable_perm. apply NoDup_Permutation; [done| |intros x; rewrite !list_elem_of_In; apply Hin].
  apply (NoDup_fmap_1 hash), sorted_unique_nodup_hash, Hu.
Qed.
End Sorting.

(** ** Cutting *)

Section Cut.
  Context {DG : Digest} {A B : Type} `{!Writeable A} `{!Writeable B} (check : A -> B -> res TxError unit).

(** No two elements share a hash. *)
Definition hash_injective {T} `{!Writeable T} (l : list T) : Prop :=
  forall x y, In x l -> In y l -> hash x = hash y -> x = y.

Lemma hash_injective_nodup {T} `{!Writeable T} (l : list T) : NoDup l -> hash_injective l -> NoDup (map hash l).
Proof.
  induction 1 as [|x l Hx Hn IH]; intros Hi; cbn; constructor.
  - rewrite list_elem_of_In, in_map_iff. intros (y & E & Hy). apply Hx, list_elem_of_In.
    rewrite (Hi x y); [done|by left|by right|done].
  - apply IH. intros a b Ha Hb. apply Hi; by right.
Qed.

(** What a cut of lists without duplicates keeps: the elements whose hash is not on the other side. *)
Lemma cut_keeps ins outs :
  (forall x y, check x y <> Panic) ->
  NoDup ins -> NoDup outs -> hash_injective ins -> hash_injective outs ->
  (forall x y, In x ins -> In y outs -> hash x = hash y -> check x y = Ok tt) ->
  exists ki ko, cut_through_half check ins outs = Ok (ki, ko) /\ NoDup ki /\ NoDup ko /\
    (forall x, In x ki <-> In x ins /\ forall y, In y outs -> hash y <> hash x) /\
    (forall y, In y ko <-> In y outs /\ forall x, In x ins -> hash x <> hash y).
Proof.
  intros Hp Hn Hn' Hi Hi' Hc. pose proof (cut_through_half_spec check ins outs) as Hs.
  pose proof (hash_injective_nodup _ Hn' Hi') as Hno. pose proof (cut_through_half_no_panic check ins outs Hp) as Hnp.
  destruct (cut_through_half check ins outs) as [[ki ko]|e|]; [|destruct Hs as [[H _]|(_ & x & y & Hx & Hy & Hh & He)];
    [done|rewrite (Hc x y Hx Hy Hh) in He; done]|done].
  destruct Hs as (_ & cut & [P1 P2 F _ _ Hd]). exists ki, ko. split; [done|].
  rewrite P1 in Hn. rewrite P2 in Hn'. apply NoDup_app in Hn as (N1 & N2 & N3). apply NoDup_app in Hn' as (M1 & M2 & M3).
  rewrite List.Forall_forall in F.
  assert (Hins : forall x, In x ins <-> In x ki \/ exists y, In (x, y) cut).
  { intros x. split; intros H.
    - apply (Permutation_in _ P1), in_app_or in H as [H|H]; [by left|]. apply in_map_iff in H as ([x' y] & E & H).
      cbn in E. subst. right. by exists y.
    - apply (Permutation_in _ (Permutation_sym P1)), in_or_app. destruct H as [H|[y H]]; [by left|right].
      apply in_map_iff. by exists (x, y). }
  assert (Houts : forall y, In y outs <-> In y ko \/ exists x, In (x, y) cut).
  { intros y. split; intros H.
    - apply (Permutation_in _ P2), in_app_or in H as [H|H]; [by left|]. apply in_map_iff in H as ([x y'] & E & H).
      cbn in E. subst. right. by exists x.
    - apply (Permutation_in _ (Permutation_sym P2)), in_or_app. destruct H as [H|[x H]]; [by left|right].
      apply in_map_iff. by exists (x, y). }
  assert (Hki : forall x y, In x ki -> In (x, y) cut -> False).
  { intros x y H1 H2. apply (N2 x); rewrite list_elem_of_In; [done|]. apply in_map_iff. by exists (x, y). }
  assert (Hko : forall x y, In y ko -> In (x, y) cut -> False).
  { intros x y H1 H2. apply (M2 y); rewrite list_elem_of_In; [done|]. apply in_map_iff. by exists (x, y). }
  split; [done|]. split; [done|]. split; intros z.
  - split.
    + intros Hz. split; [apply Hins; by left|]. intros y Hy Hh. apply Houts in Hy as [Hy|[x Hy]]; [by apply (Hd z y)|].
      destruct (F _ Hy) as [Hxy _]. cbn in Hxy. assert (z = x) as ->; [|by apply (Hki x y)].
      apply Hi; [apply Hins; by left|apply Hins; right; by exists y|congruence].
    + intros [Hz Hnone]. apply Hins in Hz as [Hz|[y Hy]]; [done|]. destruct (F _ Hy) as [Hxy _]. cbn in Hxy.
      destruct (Hnone y); [apply Houts; right; by exists z|done].
  - split.
    + intros Hz. split; [apply Houts; by left|]. intros x Hx Hh. apply Hins in Hx as [Hx|[y Hx]]; [by apply (Hd x z)|].
      destruct (F _ Hx) as [Hxy _]. cbn in Hxy. assert (z = y) as ->; [|by apply (Hko x y)].
      apply Hi'; [apply Houts; by left|apply Houts; right; by exists x|congruence].
    + intros [Hz Hnone]. apply Houts in Hz as [Hz|[x Hx]]; [done|]. destruct (F _ Hx) as [Hxy _]. cbn in Hxy.
      destruct (Hnone x); [apply Hins; right; by exists z|done].
Qed.
End Cut.

(** ** Rebuilding *)

Section Rebuild.
  Context {DG : Digest} {HS : HashSets} {HL : HashSetLaws}.

Lemma hash_set_elements {T} `{!Writeable T} (l : list T) :
  hash_injective l ->
  NoDup (sort_unstable (hash_set_vec eqb l)) /\ hash_injective (sort_unstable (hash_set_vec eqb l)) /\
  forall x, In x (sort_unstable (hash_set_vec eqb l)) <-> In x l.
Proof.
  intros Hi. destruct (hash_set_vec_spec eqb l) as [Hn Hin].
  { intros x y Hx Hy. unfold eqb. rewrite bool_decide_eq_true. split; [by apply Hi|by intros ->]. }
  assert (Hin' : forall x, In x (sort_unstable (hash_set_vec eqb l)) <-> In x l).
  { intros x. rewrite <- Hin. split; apply Permutation_in; [|symmetry]; apply sort_unstable_perm. }
  split; [by rewrite sort_unstable_perm|]. split; [|done]. intros x y Hx Hy. apply Hi; by apply Hin'.
Qed.

(** The elements of [l] that no element of [l'] cuts. *)
Definition uncut {T U} `{!Writeable T} `{!Writeable U} (l : list T) (l' : list U) (x : T) : Prop :=
  In x l /\ forall y, In y l' -> hash y <> hash x.

Lemma rebuild_half {T U} `{!Writeable T} `{!Writeable U} (check : T -> U -> res TxError unit)
    (I : list T) (O : list U) (bi : list T) (bo : list U) :
  (forall x y, check x y <> Panic) -> hash_injective I -> hash_injective O ->
  (forall x y, In x I -> In y O -> hash x = hash y -> check x y = Ok tt) ->
  sorted_unique bi -> sorted_unique bo ->
  (forall x, In x bi <-> uncut I O x) -> (forall y, In y bo <-> uncut O I y) ->
  exists ki ko, cut_through_half check (sort_unstable (hash_set_vec eqb I)) (sort_unstable (hash_set_vec eqb O))
      = Ok (ki, ko) /\ sort_unstable ki = bi /\ sort_unstable ko = bo.
Proof.
  intros Hp Hi Ho Hc Si So Hbi Hbo.
  destruct (hash_set_elements I Hi) as (Ni & Hi' & Ei). destruct (hash_set_elements O Ho) as (No & Ho' & Eo).
  destruct (cut_keeps check _ _ Hp Ni No Hi' Ho') as (ki & ko & -> & Nk & Nk' & Hki & Hko).
  { intros x y Hx Hy. apply Hc; [by apply Ei|by apply Eo]. }
  exists ki, ko. split; [done|]. split; apply sort_rebuilds; try done.
  - intros x. rewrite Hki, Hbi. unfold uncut. rewrite Ei. split; intros [H1 H2]; (split; [done|]); intros y Hy; apply H2, Eo, Hy.
  - intros y. rewrite Hko, Hbo. unfold uncut. rewrite Eo. split; intros [H1 H2]; (split; [done|]); intros x Hx; apply H2, Ei, Hx.
Qed.

Lemma rebuild_set {T} `{!Writeable T} (l bl : list T) :
  hash_injective l -> sorted_unique bl -> (forall x, In x bl <-> In x l) ->
  sort_unstable (sort_unstable (hash_set_vec eqb l)) = bl.
Proof.
  intros Hi Hs Hin. destruct (hash_set_elements l Hi) as (Hn & _ & He).
  apply sort_rebuilds; [done| |done]. intros x. rewrite He, Hin. done.
Qed.

(** Everything of one kind in a list of transactions. *)
Definition all_of {T} (f : TransactionBody -> list T) (txs : list Transaction) : list T :=
  concat (map (fun tx => f (body tx)) txs).

(** The block [b] is made of the transactions and its coinbase: its lists are theirs, cut through,
    and nothing in them shares a hash with something else of its kind. *)
Record made_of (txs : list Transaction) (b : Block) : Prop := {
  made_inputs x : In x (inputs (block_body b)) <->
    uncut (all_of inputs txs) (all_of outputs txs ++ coinbase_outputs b) x;
  made_outputs x : In x (outputs (block_body b)) <->
    uncut (all_of outputs txs ++ coinbase_outputs b) (all_of inputs txs) x;
  made_token_inputs x : In x (token_inputs (block_body b)) <->
    uncut (all_of token_inputs txs) (all_of token_outputs txs) x;
  made_token_outputs x : In x (token_outputs (block_body b)) <->
    uncut (all_of token_outputs txs) (all_of token_inputs txs) x;
  made_kernels x : In x (kernels (block_body b)) <-> In x (all_of kernels txs ++ coinbase_kernels b);
  made_token_kernels x : In x (token_kernels (block_body b)) <-> In x (all_of token_kernels txs);
  made_injective :
    hash_injective (all_of inputs txs) /\ hash_injective (all_of outputs txs ++ coinbase_outputs b) /\
    hash_injective (all_of token_inputs txs) /\ hash_injective (all_of token_outputs txs) /\
    hash_injective (all_of kernels txs ++ coinbase_kernels b) /\ hash_injective (all_of token_kernels txs);
  made_token_types i o : In i (all_of token_inputs txs) -> In o (all_of token_outputs txs) ->
    hash i = hash o -> input_token_type i = output_token_type o
}.

(** A filtered sorted list is sorted. *)
Lemma sort_filtered {T} `{!Writeable T} (f : T -> bool) (l : list T) :
  sorted_unique l -> sort_unstable (List.filter f l) = List.filter f l.
Proof.
  intros Hs.
  assert (Hf : sorted_unique (List.filter f l)).
  { unfold sorted_unique in *. induction l as [|x l IH]; [done|]. cbn in *. apply StronglySorted_inv in Hs as [Hs Hx].
    destruct (f x); [|by apply IH]. cbn. constructor; [by apply IH|]. rewrite List.Forall_forall in *.
    intros h Hh. apply in_map_iff in Hh as (y & <- & Hy). apply filter_In in Hy as [Hy _]. by apply Hx, in_map. }
  apply sort_rebuilds; [|done|done]. apply (NoDup_fmap_1 hash), sorted_unique_nodup_hash, Hf.
Qed.

Lemma compact_block_parts {SH : SipHasher} ct nonce b :
  body_sorted (block_body b) ->
  exists ids, compact_of_block ct nonce b
    = Ok (mkCompact (header b) nonce (aux_data b) (mkCompactBody (coinbase_outputs b) (coinbase_kernels b) ids)) /\
    length ids = length (List.filter (fun k => negb (is_coinbase_kernel k)) (kernels (block_body b))).
Proof.
  intros (_ & _ & So & _ & Sk & _). unfold compact_of_block, compact_init, compact_sort. cbn [out_full kern_full kern_ids].
  rewrite !sort_filtered by done. eexists. split; [reflexivity|].
  rewrite (Permutation_length (sort_unstable_perm _)), length_map. done.
Qed.

Lemma filter_split_length {T} (f : T -> bool) (l : list T) :
  (length (List.filter (fun x => negb (f x)) l) + length (List.filter f l) = length l)%nat.
Proof. induction l as [|x l IH]; [done|]. cbn. destruct (f x); cbn; lia. Qed.

(** C40: a block announced as a compact block is rebuilt exactly.  When the sorted block is made of
    some transactions and its coinbase, the compact block carries its header, its coinbase and one
    short id per other kernel, and hydrating it with those transactions, in whatever order the hash
    sets yield their elements, returns the block itself: header, merge-mining data and all six
    lists in their order. *)
Theorem compact_block_is_rebuilt {SH : SipHasher} ct nonce b txs :
  body_sorted (block_body b) -> made_of txs b ->
  exists cb, compact_of_block ct nonce b = Ok cb /\
    len (kern_ids (cb_body cb)) + len (kern_full (cb_body cb)) = len (kernels (block_body b)) /\
    hydrate_from cb txs = Ok b.
Proof.
  intros Hs Hm. destruct (compact_block_parts ct nonce b Hs) as (ids & E & Hids). rewrite E.
  destruct Hs as (Si & Sti & So & Sto & Sk & Stk).
  destruct (made_injective _ _ Hm) as (Ji & Jo & Jti & Jto & Jk & Jtk).
  eexists. split; [reflexivity|]. split.
  { cbn [cb_body kern_ids kern_full]. unfold len. rewrite Hids. unfold coinbase_kernels.
    pose proof (filter_split_length is_coinbase_kernel (kernels (block_body b))). lia. }
  unfold hydrate_from. cbn [cb_header cb_aux_data cb_body out_full kern_full].
  fold (all_of inputs txs) (all_of outputs txs) (all_of kernels txs) (all_of token_inputs txs)
    (all_of token_outputs txs) (all_of token_kernels txs).
  unfold init, sort_body. cbn [res_bind map_err]. unfold block_cut_through, cut_through.
  cbn [block_body header aux_data inputs outputs kernels token_inputs token_outputs token_kernels].
  destruct (rebuild_half (fun _ _ => Ok tt) (all_of inputs txs) (all_of outputs txs ++ coinbase_outputs b)
    (inputs (block_body b)) (outputs (block_body b))) as (ki & ko & -> & Eki & Eko); try done; try apply Hm.
  cbn [res_bind map_err].
  destruct (rebuild_half token_types_match (all_of token_inputs txs) (all_of token_outputs txs)
    (token_inputs (block_body b)) (token_outputs (block_body b))) as (kti & kto & -> & Ekti & Ekto); try done; try apply Hm.
  { intros x y. unfold token_types_match. destruct (negb _); done. }
  { intros x y Hx Hy Hh. unfold token_types_match. rewrite bool_decide_true; [done|]. by apply (made_token_types _ _ Hm). }
  cbn [res_bind map_err]. unfold init, sort_body.
  cbn [res_bind map_err inputs outputs kernels token_inputs token_outputs token_kernels].
  rewrite Eki, Eko, Ekti, Ekto, (rebuild_set _ (kernels (block_body b))), (rebuild_set _ (token_kernels (block_body b)));
    try done; try apply Hm.
  destruct b as [h a []]. done.
Qed.
End Rebuild.

(** ** Reading back *)

Section RoundTrip.
  Context {SS : SecpSizes} {CH : Chrono} {DG : Digest} {R : Type} `{!Reader R} `{!ReaderLaws R}.

Definition wf_compact_body (b : CompactBlockBody) : Prop :=
  Forall wf_output (out_full b) /\ Forall wf_tx_kernel (kern_full b) /\
  Forall (fun i => length (id_bytes i) = SHORT_ID_SIZE) (kern_ids b) /\
  len (out_full b) <= 1000000 /\ len (kern_full b) <= 1000000 /\ len (kern_ids b) <= 1000000 /\
  sorted_unique (out_full b) /\ sorted_unique (kern_full b) /\ sorted_unique (kern_ids b).

Definition wf_compact_block ct (cb : CompactBlock) : Prop :=
  wf_header ct (cb_header cb) /\ 0 <= cb_nonce cb < 2 ^ 64 /\
  (if refactor_header_height ct <=? bh_height (cb_header cb)
   then cb_aux_data cb = aux_data_default else wf_aux_data (cb_aux_data cb)) /\
  wf_compact_body (cb_body cb).

Lemma compact_init_verified outs kerns ids :
  compact_init outs kerns ids true = Ok (mkCompactBody outs kerns ids) <->
  sorted_unique outs /\ sorted_unique kerns /\ sorted_unique ids.
Proof.
  unfold compact_init. rewrite bind_ok_tt. unfold compact_verify_sorted. cbn [out_full kern_full kern_ids].
  rewrite !bind_ok_tt, !map_err_ok, !verify_sorted_and_unique_iff. tauto.
Qed.

Lemma reads_short_id v i :
  length (id_bytes i) = SHORT_ID_SIZE -> reads (R := R) v short_id_read (write (bin_writer v) i) i.
Proof.
  intros H. unfold short_id_read. eapply reads_bind_last; [apply (reads_fixed v _ (id_bytes i)); [rewrite H; done|done]|].
  destruct i. apply reads_ret.
Qed.

Lemma reads_compact_body v b :
  wf_compact_body b -> reads (R := R) v compact_body_read (write (bin_writer v) b) b.
Proof.
  intros (W1 & W2 & W3 & L1 & L2 & L3 & S1 & S2 & S3). unfold compact_body_read.
  change (write (bin_writer v) b) with
    (write_u64 (len (out_full b)) ++ write_u64 (len (kern_full b)) ++ write_u64 (len (kern_ids b))
     ++ write (bin_writer v) (out_full b) ++ write (bin_writer v) (kern_full b) ++ write (bin_writer v) (kern_ids b)).
  do 3 (eapply reads_bind; [apply reads_len; done|]).
  eapply reads_bind; [eapply reads_list; [intros; apply reads_output; eassumption|done|done]|].
  eapply reads_bind; [eapply reads_list; [intros; apply reads_tx_kernel; eassumption|done|done]|].
  eapply reads_bind_last; [apply (reads_list v short_id_read (fun i => length (id_bytes i) = SHORT_ID_SIZE));
    [apply reads_short_id|exact W3|done]|].
  rewrite (proj2 (compact_init_verified _ _ _)) by done. destruct b. apply reads_ret.
Qed.

(** Compact blocks are read back from their binary form. *)
Theorem compact_block_roundtrip ct v cb :
  wf_compact_block ct cb ->
  reads (R := R) v (compact_block_read ct) (@write _ (write_compact_block ct) (bin_writer v) cb) cb.
Proof.
  intros (Hh & Hn & Ha & Hb). unfold compact_block_read.
  change (@write _ (write_compact_block ct) (bin_writer v) cb) with
    (@write _ (write_header ct) (bin_writer v) (cb_header cb) ++ write_u64 (cb_nonce cb)
     ++ (if bh_height (cb_header cb) <? refactor_header_height ct then write (bin_writer v) (cb_aux_data cb) else [])
     ++ write (bin_writer v) (cb_body cb)).
  eapply reads_bind; [apply reads_header, Hh|]. eapply reads_bind; [by apply reads_u64|].
  eapply reads_bind with (a := cb_aux_data cb).
  - destruct (Z.leb_spec (refactor_header_height ct) (bh_height (cb_header cb))).
    + rewrite (proj2 (Z.ltb_ge _ _)) by done. rewrite Ha. apply reads_ret.
    + rewrite (proj2 (Z.ltb_lt _ _)) by done. apply reads_aux_data, Ha.
  - eapply reads_bind_last; [apply reads_compact_body, Hb|]. destruct cb. apply reads_ret.
Qed.
End RoundTrip.

(** ** Witnesses *)

#[local] Existing Instance demo_digest.
#[local] Existing Instance demo_sizes.
#[local] Existing Instance demo_secp.

(** A hash set that yields its elements in reverse order of insertion. *)
Definition dedup_vec : HashSets := fun A eq =>
  fix go l := match l with
              | [] => []
              | x :: l => if existsb (eq x) (go l) then go l else x :: go l
              end.

Lemma dedup_vec_laws : HashSetLaws (H := dedup_vec).
Proof.
  intros A eq l. unfold hash_set_vec, dedup_vec. induction l as [|x l IH]; intros He; [split; [constructor|done]|].
  destruct IH as [Hn Hin]; [intros a b Ha Hb; apply He; by right|].
  destruct (existsb (eq x) _) eqn:Ex.
  - apply existsb_exists in Ex as (y & Hy & E). apply Hin in Hy.
    apply He in E; [|by left|by right]. subst y. split; [done|]. intros z. rewrite Hin. cbn. split; [by right|].
    intros [->|]; done.
  - split.
    + constructor; [|done]. intros Hx%list_elem_of_In. apply not_true_iff_false in Ex. apply Ex, existsb_exists.
      exists x. split; [done|]. apply He; [by left|by left|done].
    + intros z. cbn. rewrite Hin. done.
Qed.

#[local] Existing Instance dedup_vec.
#[local] Existing Instance dedup_vec_laws.

Definition demo_siphash : SipHasher := fun k0 k1 b => (k0 + k1 + le_val b) mod 2 ^ 64.
#[local] Existing Instance demo_siphash.

(** Two transactions, the second spending the output 4 of the first, and a coinbase. *)
Definition plain_output (n : Z) : Output := mkOutput OPlain (demo_commit n) (mkRangeProof [n] 1).
Definition plain_kernel (n : Z) : TxKernel := mkTxKernel (KPlain 5) (demo_commit n) (mkSignature (replicate 64 3)).
Definition tx_a : Transaction :=
  mkTx (mkBlinding (replicate 32 0)) (mkBody [mkInput OPlain (demo_commit 1)] [] [plain_output 3; plain_output 4] [] [plain_kernel 7] []).
Definition tx_b : Transaction :=
  mkTx (mkBlinding (replicate 32 0)) (mkBody [mkInput OPlain (demo_commit 4)] [] [plain_output 5] [] [plain_kernel 8] []).
Definition coinbase_out : Output := mkOutput OCoinbase (demo_commit 9) (mkRangeProof [9] 1).
Definition coinbase_kern : TxKernel := mkTxKernel KCoinbase (demo_commit 6) (mkSignature (replicate 64 3)).
Definition announced : Block :=
  mkBlock header_default aux_data_default
    (sort_body (mkBody [mkInput OPlain (demo_commit 1)] [] [plain_output 3; plain_output 5; coinbase_out] []
       [plain_kernel 7; plain_kernel 8; coinbase_kern] [])).

Lemma uncut_filter {T U} `{!Writeable T} `{!Writeable U} (l : list T) (l' : list U) x :
  uncut l l' x <-> In x (List.filter (fun x => forallb (fun y => negb (bool_decide (hash y = hash x))) l') l).
Proof.
  rewrite filter_In. unfold uncut. rewrite forallb_forall. split; intros [H1 H2]; (split; [done|]); intros y Hy.
  - rewrite bool_decide_false; [done|]. by apply H2.
  - specialize (H2 y Hy). apply negb_true_iff, bool_decide_eq_false in H2. done.
Qed.

Lemma nodup_hash_injective {T} `{!Writeable T} (l : list T) : bool_decide (NoDup (map hash l)) = true -> hash_injective l.
Proof.
  intros H%bool_decide_eq_true x y Hx Hy E.
  apply list_elem_of_In, list_elem_of_lookup in Hx as [i Hi]. apply list_elem_of_In, list_elem_of_lookup in Hy as [j Hj].
  assert (i = j) as ->; [|congruence].
  apply (NoDup_lookup (hash <$> l) i j (hash x)); [exact H|rewrite list_lookup_fmap, Hi; done|].
  rewrite list_lookup_fmap, Hj, E. done.
Qed.

Lemma announced_made : made_of [tx_b; tx_a] announced.
Proof.
  constructor.
  1-4: intros x; rewrite uncut_filter; vm_compute; tauto.
  1-2: intros x; vm_compute; tauto.
  - repeat split; apply nodup_hash_injective; vm_compute; reflexivity.
  - intros i o [].
Qed.

Lemma compact_block_is_rebuilt_witness :
  exists cb, compact_of_block Mainnet 17 announced = Ok cb /\ hydrate_from cb [tx_b; tx_a] = Ok announced.
Proof.
  destruct (compact_block_is_rebuilt Mainnet 17 announced [tx_b; tx_a]) as (cb & E & _ & H).
  - apply verify_sorted_iff. vm_compute. reflexivity.
  - apply announced_made.
  - exists cb. split; [exact E|exact H].
Defined.
