(* ===== verification/Pow.v ===== *)
(** * Proof-of-work verification

    Models [core/src/pow/siphash.rs], the parameters of [core/src/pow/common.rs],
    the verifiers of [cuckatoo.rs], [cuckaroo.rs], [cuckarood.rs] and
    [cuckaroom.rs], [pow::verify_size], and the readers of untrusted headers,
    blocks and compact blocks.

    Edges have type [u64], as in [verify_size].  The verifiers follow a cycle
    through the endpoints of the edges with a loop that has no bound in the
    source; here it has fuel and [None] stands for a loop still running. *)

From Stdlib Require Import ZArith Lia List Bool.
From stdpp Require Import base numbers list option.
From S2P Require Import Prelude Bytes Consensus Ser PowTypes Transaction TxBody Committed Verifier Aggregate Block CompactBlock.

(** ** SipHash *)

Definition SIPHASH_BLOCK_BITS : Z := 6.
Definition SIPHASH_BLOCK_SIZE : Z := Z.shiftl 1 SIPHASH_BLOCK_BITS.
Definition SIPHASH_BLOCK_MASK : Z := SIPHASH_BLOCK_SIZE - 1.

(** [u64::wrapping_add] and [rotl!], for shifts between 1 and 63 *)
Definition wrapping_add (x y : Z) : Z := Z.land (x + y) u64_max.
Definition rotl (num shift : Z) : Z := Z.lor (Z.land (Z.shiftl num shift) u64_max) (Z.shiftr num (64 - shift)).

(** [SipHash24] *)
Record SipHash24 := mkSip { sip0 : Z; sip1 : Z; sip2 : Z; sip3 : Z }.

(** [SipHash24::round] *)
Definition sip_round (s : SipHash24) (rot_e : Z) : SipHash24 :=
  let v0 := wrapping_add (sip0 s) (sip1 s) in
  let v2 := wrapping_add (sip2 s) (sip3 s) in
  let v1 := rotl (sip1 s) 13 in
  let v3 := rotl (sip3 s) 16 in
  let v1 := Z.lxor v1 v0 in
  let v3 := Z.lxor v3 v2 in
  let v0 := rotl v0 32 in
  let v2 := wrapping_add v2 v1 in
  let v0 := wrapping_add v0 v3 in
  let v1 := rotl v1 17 in
  let v3 := rotl v3 rot_e in
  let v1 := Z.lxor v1 v2 in
  let v3 := Z.lxor v3 v0 in
  let v2 := rotl v2 32 in
  mkSip v0 v1 v2 v3.

(** [SipHash24::hash] and [digest] *)
Definition sip_hash (s : SipHash24) (nonce rot_e : Z) : SipHash24 :=
  let s := mkSip (sip0 s) (sip1 s) (sip2 s) (Z.lxor (sip3 s) nonce) in
  let s := sip_round (sip_round s rot_e) rot_e in
  let s := mkSip (Z.lxor (sip0 s) nonce) (sip1 s) (Z.lxor (sip2 s) 0xff) (sip3 s) in
  Nat.iter 4 (fun s => sip_round s rot_e) s.

Definition sip_digest (s : SipHash24) : Z := Z.lxor (Z.lxor (sip0 s) (sip1 s)) (Z.lxor (sip2 s) (sip3 s)).

(** [siphash24]; the keys are the four words of the initial state *)
Definition siphash24_nonce (v : SipHash24) (nonce : Z) : Z := sip_digest (sip_hash v nonce 21).

(** The loop of [siphash_block]: the digests of [n] consecutive hashings. *)
Fixpoint sip_digests (n : nat) (s : SipHash24) (nonce rot_e : Z) : list Z :=
  match n with
  | O => []
  | S n => let s := sip_hash s nonce rot_e in sip_digest s :: sip_digests n s (nonce + 1) rot_e
  end.

(** [siphash_block] *)
Definition siphash_block (v : SipHash24) (nonce rot_e : Z) (xor_all : bool) : Z :=
  let nonce0 := Z.land nonce (Z.lxor u64_max SIPHASH_BLOCK_MASK) in
  let nonce_i := Z.land nonce SIPHASH_BLOCK_MASK in
  let nonce_hash := sip_digests (Z.to_nat SIPHASH_BLOCK_SIZE) v nonce0 rot_e in
  let xor_from := if xor_all || (nonce_i =? SIPHASH_BLOCK_MASK) then nonce_i + 1 else SIPHASH_BLOCK_MASK in
  foldl Z.lxor (nth (Z.to_nat nonce_i) nonce_hash 0) (drop (Z.to_nat xor_from) nonce_hash).

(** The values of the unit tests of [siphash.rs]. *)
Example siphash24_vectors :
  siphash24_nonce (mkSip 1 2 3 4) 10 = 928382149599306901 /\
  siphash24_nonce (mkSip 1 2 3 4) 111 = 10524991083049122233 /\
  siphash24_nonce (mkSip 9 7 6 7) 12 = 1305683875471634734 /\
  siphash24_nonce (mkSip 9 7 6 7) 10 = 11589833042187638814.
Proof. vm_compute. done. Qed.

Example siphash_block_vectors :
  siphash_block (mkSip 1 2 3 4) 10 21 false = 1182162244994096396 /\
  siphash_block (mkSip 1 2 3 4) 123 21 false = 11303676240481718781 /\
  siphash_block (mkSip 9 7 6 7) 12 21 false = 4886136884237259030.
Proof. vm_compute. done. Qed.

(** ** Parameters *)

(** [pow::ErrorKind]; the verification messages are constructors *)
Inductive PowVerification :=
| EdgeTooBig | EdgesNotAscending | EndpointsDontMatch | BranchInCycle | CycleDeadEnds | CycleTooShort
| WrongCycleLength | EdgesNotBalanced | GraphTooBig.
Inductive PowError :=
| PVerification (e : PowVerification) | IntegerCast | PIOError | EdgeAddition | PPath
| InvalidCycle (n : Z) | NoCycle | NoSolution.

Record CuckooParams := mkParams {
  cp_edge_bits : Z; cp_proof_size : nat; num_edges : Z; siphash_keys : SipHash24; edge_mask : Z }.

(** [CuckooParams::new] *)
Definition params_new (edge_bits : Z) (proof_size : nat) : CuckooParams :=
  let num_edges := shl64 1 edge_bits in
  mkParams edge_bits proof_size num_edges (mkSip 0 0 0 0) (num_edges - 1)%u64.

Section Keys.
  Context {DG : Digest}.

(** [create_siphash_keys] *)
Definition create_siphash_keys (header : bytes) : SipHash24 :=
  let h := blake2b header in
  mkSip (le_val (take 8 h)) (le_val (take 8 (drop 8 h)))
    (le_val (take 8 (drop 16 h))) (le_val (take 8 (drop 24 h))).

(** [set_header_nonce]: the nonce replaces the last four bytes *)
Definition set_header_nonce (header : bytes) (nonce : option Z) : SipHash24 :=
  match nonce with
  | Some n => create_siphash_keys (take (length header - 4) header ++ le_bytes 4 n)
  | None => create_siphash_keys header
  end.

(** [CuckooParams::reset_header_nonce] *)
Definition reset_header_nonce (p : CuckooParams) (header : bytes) (nonce : option Z) : CuckooParams :=
  mkParams (cp_edge_bits p) (cp_proof_size p) (num_edges p) (set_header_nonce header nonce) (edge_mask p).
End Keys.

(** [CuckooParams::sipnode] *)
Definition sipnode (p : CuckooParams) (edge uorv : Z) (shift : bool) : Z :=
  let hash_u64 := siphash24_nonce (siphash_keys p) (2 * edge + uorv)%u64 in
  let masked := Z.land hash_u64 (edge_mask p) in
  if shift then Z.lor (shl64 masked 1) uorv else masked.

(** ** Following the cycle *)

Section Follow.
  Context (key : Z -> Z) (dead : Z -> Z -> bool).

(** The inner loop: the other endpoint on the side of [i] with the key of [i]. *)
Fixpoint find_match (fuel : nat) (uvs : list Z) (m i k j : Z) : option (res PowError Z) :=
  match fuel with
  | O => None
  | S fuel =>
    if m =? 0 then Some Panic
    else
      let k := (k + 2) mod m in
      if k =? i then Some (Ok j)
      else
        match uvs !! Z.to_nat k, uvs !! Z.to_nat i with
        | Some a, Some b =>
          if key a =? key b then
            if negb (j =? i) then Some (Err (PVerification BranchInCycle)) else find_match fuel uvs m i k k
          else find_match fuel uvs m i k j
        | _, _ => Some Panic
        end
  end.

(** The outer loop; [n] edges were followed before *)
Fixpoint follow_cycle (fuel : nat) (uvs : list Z) (m n i : Z) : option (res PowError Z) :=
  match fuel with
  | O => None
  | S fuel =>
    match find_match (S (Z.to_nat m)) uvs m i i i with
    | Some (Ok j) =>
      if (j =? i) || dead (nth (Z.to_nat j) uvs 0) (nth (Z.to_nat i) uvs 0)
      then Some (Err (PVerification CycleDeadEnds))
      else
        let i := Z.lxor j 1 in
        let n := n + 1 in
        if i =? 0 then Some (Ok n) else follow_cycle fuel uvs m n i
    | Some (Err e) => Some (Err e)
    | Some Panic => Some Panic
    | None => None
    end
  end.
End Follow.

(** ** The verifiers *)

(** The loop over the nonces: endpoints and their xor on both sides. *)
Fixpoint collect_edges (node : Z -> Z * Z) (mask : Z) (prev : option Z) (ns : list Z) (xor0 xor1 : Z)
    : res PowError (list Z * Z * Z) :=
  match ns with
  | [] => Ok ([], xor0, xor1)
  | nonce :: ns =>
    if mask <? nonce then Err (PVerification EdgeTooBig)
    else if match prev with Some p => nonce <=? p | None => false end then Err (PVerification EdgesNotAscending)
    else
      let '(u, v) := node nonce in
      let? '(uvs, x0, x1) := collect_edges node mask (Some nonce) ns (Z.lxor xor0 u) (Z.lxor xor1 v) in
      Ok (u :: v :: uvs, x0, x1)
  end.

(** What the verifiers share: collect, compare, follow, count. *)
Definition verify_cycle (key : Z -> Z) (dead : Z -> Z -> bool) (node : Z -> Z * Z) (xor : Z)
    (p : CuckooParams) (fuel : nat) (pr : PowProof) : option (res PowError unit) :=
  match collect_edges node (edge_mask p) None (nonces pr) xor xor with
  | Err e => Some (Err e)
  | Panic => Some Panic
  | Ok (uvs, xor0, xor1) =>
    if negb (Z.lor xor0 xor1 =? 0) then Some (Err (PVerification EndpointsDontMatch))
    else
      match follow_cycle key dead fuel uvs (2 * Z.of_nat (cp_proof_size p)) 0 0 with
      | Some (Ok n) =>
        Some (if n =? Z.of_nat (cp_proof_size p) then Ok tt else Err (PVerification CycleTooShort))
      | Some (Err e) => Some (Err e)
      | Some Panic => Some Panic
      | None => None
      end
  end.

(** [CuckatooContext::verify_impl] *)
Definition cuckatoo_node (p : CuckooParams) (nonce : Z) : Z * Z := (sipnode p nonce 0 false, sipnode p nonce 1 false).
Definition cuckatoo_verify (p : CuckooParams) (fuel : nat) (pr : PowProof) : option (res PowError unit) :=
  verify_cycle (fun x => Z.shiftr x 1) Z.eqb (cuckatoo_node p)
    (Z.land (Z.of_nat (cp_proof_size p) / 2) 1) p fuel pr.

(** [CuckarooContext::verify] *)
Definition cuckaroo_node (p : CuckooParams) (nonce : Z) : Z * Z :=
  let edge := siphash_block (siphash_keys p) nonce 21 false in
  (Z.land edge (edge_mask p), Z.land (shr64 edge 32) (edge_mask p)).
Definition cuckaroo_verify (p : CuckooParams) (fuel : nat) (pr : PowProof) : option (res PowError unit) :=
  verify_cycle (fun x => x) (fun _ _ => false) (cuckaroo_node p) 0 p fuel pr.

(** [CuckaroodContext::verify]: the edges of the two directions alternate in the endpoint vector;
    [ndir] counts those seen *)
Fixpoint collect_directed (p : CuckooParams) (half : nat) (prev : option Z) (ns : list Z) (ndir0 ndir1 : nat)
    (uvs : list Z) (xor0 xor1 : Z) : res PowError (list Z * Z * Z) :=
  match ns with
  | [] => Ok (uvs, xor0, xor1)
  | nonce :: ns =>
    let dir := Z.testbit nonce 0 in
    let seen := if dir then ndir1 else ndir0 in
    if (half <=? seen)%nat then Err (PVerification EdgesNotBalanced)
    else if edge_mask p <? nonce then Err (PVerification EdgeTooBig)
    else if match prev with Some q => nonce <=? q | None => false end then Err (PVerification EdgesNotAscending)
    else
      let nodemask := Z.shiftr (edge_mask p) 1 in
      let edge := siphash_block (siphash_keys p) nonce 25 false in
      let idx := (4 * seen + (if dir then 2 else 0))%nat in
      let u := Z.land edge nodemask in
      let v := Z.land (shr64 edge 32) nodemask in
      collect_directed p half (Some nonce) ns (if dir then ndir0 else S ndir0) (if dir then S ndir1 else ndir1)
        (<[S idx := v]> (<[idx := u]> uvs)) (Z.lxor xor0 u) (Z.lxor xor1 v)
  end.

(** The inner loop: the endpoints of the other direction on the side of [i]. *)
Fixpoint find_reverse (n : nat) (uvs : list Z) (m i k j : Z) : res PowError Z :=
  match n with
  | O => Ok j
  | S n =>
    if m <=? k then Ok j
    else
      match uvs !! Z.to_nat k, uvs !! Z.to_nat i with
      | Some a, Some b =>
        if a =? b then
          if negb (j =? i) then Err (PVerification BranchInCycle) else find_reverse n uvs m i (k + 4) k
        else find_reverse n uvs m i (k + 4) j
      | _, _ => Panic
      end
  end.

Fixpoint follow_directed (fuel : nat) (uvs : list Z) (m n i : Z) : option (res PowError Z) :=
  match fuel with
  | O => None
  | S fuel =>
    match find_reverse (Z.to_nat m) uvs m i (Z.lxor (i mod 4) 2) i with
    | Ok j =>
      if j =? i then Some (Err (PVerification CycleDeadEnds))
      else
        let i := Z.lxor j 1 in
        let n := n + 1 in
        if i =? 0 then Some (Ok n) else follow_directed fuel uvs m n i
    | Err e => Some (Err e)
    | Panic => Some Panic
    end
  end.

Definition count_cycle (size : nat) (r : option (res PowError Z)) : option (res PowError unit) :=
  match r with
  | Some (Ok n) => Some (if n =? Z.of_nat size then Ok tt else Err (PVerification CycleTooShort))
  | Some (Err e) => Some (Err e)
  | Some Panic => Some Panic
  | None => None
  end.

Definition cuckarood_verify (p : CuckooParams) (fuel : nat) (pr : PowProof) : option (res PowError unit) :=
  let size := length (nonces pr) in
  if negb (size =? proofsize)%nat then Some (Err (PVerification WrongCycleLength))
  else
    match collect_directed p (size / 2) None (nonces pr) 0 0 (replicate (2 * size) 0) 0 0 with
    | Err e => Some (Err e)
    | Panic => Some Panic
    | Ok (uvs, xor0, xor1) =>
      if negb (Z.lor xor0 xor1 =? 0) then Some (Err (PVerification EndpointsDontMatch))
      else count_cycle (cp_proof_size p) (follow_directed fuel uvs (2 * Z.of_nat (cp_proof_size p)) 0 0)
    end.

(** [CuckaroomContext::verify]: a cycle of directed edges *)
Definition cuckaroom_node (p : CuckooParams) (nonce : Z) : Z * Z :=
  let nodemask := Z.shiftr (edge_mask p) 1 in
  let edge := siphash_block (siphash_keys p) nonce 21 true in
  (wrap32 (Z.land edge nodemask), wrap32 (Z.land (shr64 edge 32) nodemask)).

(** The first edge that starts at a node. *)
Fixpoint first_from (from : list Z) (node : Z) (i : nat) : res PowError nat :=
  match from with
  | [] => Err (PVerification CycleDeadEnds)
  | f :: from => if f =? node then Ok i else first_from from node (S i)
  end.

Fixpoint follow_visited (fuel : nat) (from to : list Z) (visited : list bool) (n : Z) (i : nat)
    : option (res PowError Z) :=
  match fuel with
  | O => None
  | S fuel =>
    match visited !! i, to !! i with
    | Some v, Some node =>
      if v : bool then Some (Err (PVerification BranchInCycle))
      else
        match first_from from node 0 with
        | Ok nexti => if (nexti =? 0)%nat then Some (Ok (n + 1))
                      else follow_visited fuel from to (<[i := true]> visited) (n + 1) nexti
        | Err e => Some (Err e)
        | Panic => Some Panic
        end
    | _, _ => Some Panic
    end
  end.

Fixpoint evens (l : list Z) : list Z := match l with u :: _ :: l => u :: evens l | _ => [] end.
Fixpoint odds (l : list Z) : list Z := match l with _ :: v :: l => v :: odds l | _ => [] end.

Definition cuckaroom_verify (p : CuckooParams) (fuel : nat) (pr : PowProof) : option (res PowError unit) :=
  let size := length (nonces pr) in
  if negb (size =? proofsize)%nat then Some (Err (PVerification WrongCycleLength))
  else
    match collect_edges (cuckaroom_node p) (edge_mask p) None (nonces pr) 0 0 with
    | Err e => Some (Err e)
    | Panic => Some Panic
    | Ok (ft, xor_from, xor_to) =>
      if negb (xor_from =? xor_to) then Some (Err (PVerification EndpointsDontMatch))
      else count_cycle size (follow_visited fuel (evens ft) (odds ft) (replicate size false) 0 0)
    end.

(** A fuel that is always enough. *)
Definition cycle_fuel (p : CuckooParams) : nat := S (2 * cp_proof_size p).

(** The first test vector of [cuckaroo.rs]. *)
Definition v1_19_keys : SipHash24 := mkSip 0x23796193872092ea 0xf1017d8a68c4b745 0xd312bd53d2cd307b 0x840acce5833ddc52.
Definition v1_19_sol : list Z := [
  0x45e9; 0x6a59; 0xf1ad; 0x10ef7; 0x129e8; 0x13e58; 0x17936; 0x19f7f; 0x208df; 0x23704;
  0x24564; 0x27e64; 0x2b828; 0x2bb41; 0x2ffc0; 0x304c5; 0x31f2a; 0x347de; 0x39686; 0x3ab6c;
  0x429ad; 0x45254; 0x49200; 0x4f8f8; 0x5697f; 0x57ad1; 0x5dd47; 0x607f8; 0x66199; 0x686c7;
  0x6d5f3; 0x6da7a; 0x6dbdf; 0x6f6bf; 0x6ffbb; 0x7580e; 0x78594; 0x785ac; 0x78b1d; 0x7b80d;
  0x7c11c; 0x7da35].
Definition v1_19_params : CuckooParams :=
  let p := params_new 19 42 in mkParams 19 42 (num_edges p) v1_19_keys (edge_mask p).

Example cuckaroo19_vector :
  cuckaroo_verify v1_19_params (cycle_fuel v1_19_params) (mkPowProof 19 v1_19_sol) = Some (Ok tt) /\
  cuckaroo_verify v1_19_params (cycle_fuel v1_19_params) (proof_zero 42) <> Some (Ok tt).
Proof. vm_compute. done. Qed.

(** The first test vectors of [cuckarood.rs] and [cuckaroom.rs], of 42 edges, past the check of the
    proof size. *)
Definition test_params (keys : SipHash24) : CuckooParams :=
  let p := params_new 19 42 in mkParams 19 42 (num_edges p) keys (edge_mask p).

Definition cuckarood19_sol : list Z := [
  0xa00; 0x3ffb; 0xa474; 0xdc27; 0x182e6; 0x242cc; 0x24de4; 0x270a2; 0x28356; 0x2951f;
  0x2a6ae; 0x2c889; 0x355c7; 0x3863b; 0x3bd7e; 0x3cdbc; 0x3ff95; 0x430b6; 0x4ba1a; 0x4bd7e;
  0x4c59f; 0x4f76d; 0x52064; 0x5378c; 0x540a3; 0x5af6b; 0x5b041; 0x5e9d3; 0x64ec7; 0x6564b;
  0x66763; 0x66899; 0x66e80; 0x68e4e; 0x69133; 0x6b20a; 0x6c2d7; 0x6fd3b; 0x79a8a; 0x79e29;
  0x7ae52; 0x7defe].

Example cuckarood19_vector :
  match collect_directed (test_params (mkSip 0x89f81d7da5e674df 0x7586b93105a5fd13 0x6fbe212dd4e8c001 0x8800c93a8431f938))
          21 None cuckarood19_sol 0 0 (replicate 84 0) 0 0 with
  | Ok (uvs, xor0, xor1) => xor0 = 0 /\ xor1 = 0 /\ follow_directed 43 uvs 84 0 0 = Some (Ok 42)
  | _ => False
  end.
Proof. vm_compute. done. Qed.

Definition cuckaroom19_sol : list Z := [
  0x0413c; 0x05121; 0x0546e; 0x1293a; 0x1dd27; 0x1e13e; 0x1e1d2; 0x22870; 0x24642; 0x24833;
  0x29190; 0x2a732; 0x2ccf6; 0x302cf; 0x32d9a; 0x33700; 0x33a20; 0x351d9; 0x3554b; 0x35a70;
  0x376c1; 0x398c6; 0x3f404; 0x3ff0c; 0x48b26; 0x49a03; 0x4c555; 0x4dcda; 0x4dfcd; 0x4fbb6;
  0x50275; 0x584a8; 0x5da0d; 0x5dbf1; 0x6038f; 0x66540; 0x72bbd; 0x77323; 0x77424; 0x77a14;
  0x77dc9; 0x7d9dc].

Example cuckaroom19_vector :
  match collect_edges (cuckaroom_node (test_params
          (mkSip 0xdb7896f799c76dab 0x352e8bf25df7a723 0xf0aa29cbb1150ea6 0x3206c2759f41cbd5)))
          (2 ^ 19 - 1) None cuckaroom19_sol 0 0 with
  | Ok (ft, xor_from, xor_to) =>
    xor_from = xor_to /\ follow_visited 43 (evens ft) (odds ft) (replicate 42 false) 0 0 = Some (Ok 42)
  | _ => False
  end.
Proof. vm_compute. done. Qed.

(** Unlike the others, the loop of cuckarood need not end: it looks for the partner of an endpoint
    among the edges of the other direction only, so two endpoints of one direction may lead to the
    same edge.  Six edges whose endpoints xor to zero on both sides and on which it runs forever
    without coming back to the first edge. *)
Definition directed_trap : list Z := [1; 8; 1; 16; 1; 16; 4; 64; 2; 32; 7; 104].

Lemma cuckarood_loop_need_not_end :
  foldl Z.lxor 0 (evens directed_trap) = 0 /\ foldl Z.lxor 0 (odds directed_trap) = 0 /\
  forall fuel, follow_directed fuel directed_trap 12 0 0 = None.
Proof.
  split; [reflexivity|]. split; [reflexivity|].
  assert (Hloop : forall fuel n, follow_directed fuel directed_trap 12 n 3 = None /\
                                 follow_directed fuel directed_trap 12 n 4 = None).
  { induction fuel as [|fuel IH]; intros n; [done|]. split; cbn; apply IH. }
  intros [|fuel]; [done|]. cbn. apply Hloop.
Qed.

(** ** Cycles

    An edge [e] has the endpoints [2 * e] and [2 * e + 1]; the endpoints of one
    parity are on one side of the bipartite graph. *)

Section Cycles.
  Context (key : Z -> Z) (dead : Z -> Z -> bool) (N : nat) (uvs : list Z).
  Context (dead_sym : forall a b, dead a b = dead b a).
  Context (N_pos : (0 < N)%nat) (uvs_len : length uvs = (2 * N)%nat).

Definition uv (i : Z) : Z := nth (Z.to_nat i) uvs 0.
Definition endpoint (i : Z) : Prop := 0 <= i < 2 * Z.of_nat N.

(** [k] is another endpoint on the side of [i] with the same key. *)
Definition meets (i k : Z) : Prop :=
  endpoint k /\ Z.odd k = Z.odd i /\ k <> i /\ key (uv k) = key (uv i).

(** [j] is the only endpoint that meets [i]. *)
Definition partner (i j : Z) : Prop := meets i j /\ forall k, meets i k -> k = j.

(** One turn of the outer loop. *)
Definition step (i i' : Z) : Prop :=
  exists j, partner i j /\ dead (uv j) (uv i) = false /\ i' = Z.lxor j 1.

Lemma meets_sym i k : endpoint i -> meets i k -> meets k i.
Proof. intros Hi (H1 & H2 & H3 & H4). split; [done|]. split; [done|]. split; congruence. Qed.

Lemma partner_sym i j : endpoint i -> partner i j -> partner j i.
Proof.
  intros Hi [Hm Hu]. split; [by apply meets_sym|]. intros k (K1 & K2 & K3 & K4).
  destruct (Z.eq_dec k i) as [|Hne]; [done|]. destruct Hm as (M1 & M2 & M3 & M4).
  assert (k = j); [|done]. apply Hu. split; [done|]. split; [congruence|]. split; congruence.
Qed.

Lemma lxor_1 j : 0 <= j -> Z.lxor j 1 = if Z.odd j then j - 1 else j + 1.
Proof. intros Hj. destruct j as [|[p|p|]|p]; try reflexivity. lia. Qed.

Lemma lxor_1_twice j : Z.lxor (Z.lxor j 1) 1 = j.
Proof. rewrite Z.lxor_assoc. change (Z.lxor 1 1) with 0. apply Z.lxor_0_r. Qed.

Lemma endpoint_other j : endpoint j -> endpoint (Z.lxor j 1) /\ Z.odd (Z.lxor j 1) = negb (Z.odd j).
Proof.
  unfold endpoint. intros Hj. rewrite lxor_1 by lia. destruct (Z.odd j) eqn:E.
  - apply Z.odd_spec in E as [k ->]. split; [lia|]. replace (2 * k + 1 - 1) with (2 * k) by lia.
    rewrite Z.odd_mul. done.
  - assert (Ev : Z.even j = true) by (rewrite <- Z.negb_odd, E; done). apply Z.even_spec in Ev as [k ->].
    split; [lia|]. rewrite Z.odd_add, Z.odd_mul. done.
Qed.

Lemma step_endpoint i i' : step i i' -> endpoint i' /\ Z.odd i' = negb (Z.odd i).
Proof.
  intros (j & [(H1 & H2 & _) _] & _ & ->). destruct (endpoint_other j H1) as [H3 H4]. split; [done|congruence].
Qed.

Lemma step_det i a b : step i a -> step i b -> a = b.
Proof. intros (j & [Hj Hu] & _ & ->) (j' & [Hj' Hu'] & _ & ->). rewrite (Hu j' Hj'). done. Qed.

Lemma step_inj a b c : endpoint a -> endpoint b -> step a c -> step b c -> a = b.
Proof.
  intros Ha Hb (j & Hj & _ & ->) (j' & Hj' & _ & E).
  assert (j = j') as <- by (rewrite <- (lxor_1_twice j), E; apply lxor_1_twice).
  apply partner_sym in Hj, Hj'; [|done..]. destruct Hj as [_ Hu]. destruct Hj' as [Hm _]. symmetry. by apply Hu.
Qed.

(** The walk can be followed backwards from the other ends. *)
Lemma step_rev i i' : endpoint i -> step i i' -> step (Z.lxor i' 1) (Z.lxor i 1).
Proof.
  intros Hi (j & Hj & Hd & ->). rewrite lxor_1_twice. exists i. split; [by apply partner_sym|].
  split; [by rewrite dead_sym|done].
Qed.

Lemma step_not_back i : ~ step i (Z.lxor i 1).
Proof.
  intros (j & [(_ & _ & Hne & _) _] & _ & E). apply Hne.
  rewrite <- (lxor_1_twice j), <- E. apply lxor_1_twice.
Qed.

(** *** Walks *)

Definition is_walk (l : list Z) : Prop :=
  Forall endpoint l /\ forall s a b, l !! s = Some a -> l !! S s = Some b -> step a b.

Lemma path_cons i l : endpoint i -> is_walk l -> (forall b, l !! 0%nat = Some b -> step i b) -> is_walk (i :: l).
Proof.
  intros Hi [Hf Hp] H0. split; [by constructor|]. intros [|s] a b Ha Hb; cbn in Ha, Hb.
  - injection Ha as <-. by apply H0.
  - by apply (Hp s).
Qed.

Lemma path_endpoint l s a : is_walk l -> l !! s = Some a -> endpoint a.
Proof. intros [Hf _] H. exact (proj1 (Forall_lookup _ _) Hf s a H). Qed.

Lemma path_parity l s a b : is_walk l -> l !! 0%nat = Some a -> l !! s = Some b -> Z.odd b = xorb (Z.odd a) (Nat.odd s).
Proof.
  intros Hp Ha. revert b. induction s as [|s IH]; intros b Hb.
  - rewrite Ha in Hb. injection Hb as <-. cbn. by rewrite xorb_false_r.
  - destruct (l !! s) as [c|] eqn:Hc.
    + destruct (step_endpoint c b (proj2 Hp s c b Hc Hb)) as [_ ->]. rewrite (IH c eq_refl), Nat.odd_succ, <- Nat.negb_odd.
      destruct (Z.odd a), (Nat.odd s); done.
    + apply lookup_ge_None in Hc. apply lookup_lt_Some in Hb. lia.
Qed.

(** A is_walk that does not come back to its start has no repetition. *)
Lemma path_shift l a b x y :
  is_walk l -> (a <= b)%nat -> l !! a = Some x -> l !! b = Some x -> l !! 0%nat = Some y -> l !! (b - a)%nat = Some y.
Proof.
  intros Hp. revert b x. induction a as [|a IH]; intros b x Hab Ha Hb H0.
  - rewrite Nat.sub_0_r. congruence.
  - destruct b as [|b]; [lia|]. cbn [Nat.sub].
    destruct (l !! a) as [x1|] eqn:E1; [|apply lookup_ge_None in E1; apply lookup_lt_Some in Ha; lia].
    destruct (l !! b) as [x2|] eqn:E2; [|apply lookup_ge_None in E2; apply lookup_lt_Some in Hb; lia].
    pose proof (proj2 Hp a x1 x E1 Ha). pose proof (proj2 Hp b x2 x E2 Hb).
    assert (x1 = x2) as -> by (eapply step_inj; eauto using path_endpoint).
    apply (IH b x2); [lia|done|done|done].
Qed.

Definition no_return (l : list Z) : Prop :=
  forall s y, (0 < s)%nat -> l !! 0%nat = Some y -> l !! s <> Some y.

Lemma path_nodup l : is_walk l -> no_return l -> NoDup l.
Proof.
  intros Hp Hn. apply NoDup_alt. intros a b x Ha Hb.
  destruct (l !! 0%nat) as [y|] eqn:H0; [|apply lookup_ge_None in H0; apply lookup_lt_Some in Ha; lia].
  destruct (lt_eq_lt_dec a b) as [[Hlt|]|Hlt]; [|done|].
  - destruct (Hn (b - a)%nat y); [lia|done|]. apply (path_shift l a b x); [done|lia|done..].
  - destruct (Hn (a - b)%nat y); [lia|done|]. apply (path_shift l b a x); [done|lia|done..].
Qed.

(** No edge is entered from both ends. *)
Lemma path_no_reverse l a b x :
  is_walk l -> l !! a = Some x -> l !! b = Some (Z.lxor x 1) -> (a < b)%nat -> Nat.odd (b - a) = true -> False.
Proof.
  intros Hp. remember (b - a)%nat as d eqn:Ed. revert a b x Ed. induction (lt_wf d) as [d _ IH].
  intros a b x Ed Ha Hb Hlt Hodd.
  destruct (l !! S a) as [y|] eqn:Ey; [|apply lookup_ge_None in Ey; apply lookup_lt_Some in Hb; lia].
  pose proof (proj2 Hp a x y Ha Ey) as Hxy.
  destruct (decide (S a = b)) as [E|Hne].
  { rewrite <- E, Ey in Hb. injection Hb as ->. by apply (step_not_back x). }
  destruct b as [|b]; [lia|].
  destruct (l !! b) as [z|] eqn:Ez; [|apply lookup_ge_None in Ez; apply lookup_lt_Some in Hb; lia].
  pose proof (step_rev z _ (path_endpoint _ _ _ Hp Ez) (proj2 Hp b z _ Ez Hb)) as Hz. rewrite lxor_1_twice in Hz.
  assert (y = Z.lxor z 1) as -> by (eapply step_det; eauto).
  assert (Hb2 : (S a < b)%nat).
  { destruct (decide (S a = b)) as [E|]; [|lia]. subst d.
    replace (S b - a)%nat with 2%nat in Hodd by lia. done. }
  apply (IH (b - S a)%nat ltac:(lia) (S a) b (Z.lxor z 1) eq_refl Ey); [by rewrite lxor_1_twice|done|].
  subst d. replace (S b - a)%nat with (S (S (b - S a))) in Hodd by lia. done.
Qed.

Definition edges (l : list Z) : list Z := map (fun i => i / 2) l.

Lemma same_edge i j : endpoint i -> endpoint j -> i / 2 = j / 2 -> i = j \/ i = Z.lxor j 1.
Proof.
  intros Hi Hj E. rewrite lxor_1 by apply Hj. pose proof (Z.div_mod i 2 ltac:(lia)). pose proof (Z.div_mod j 2 ltac:(lia)).
  rewrite Zmod_odd in *. destruct (Z.odd i), (Z.odd j); lia.
Qed.

Lemma path_edges_nodup l : is_walk l -> no_return l -> NoDup (edges l).
Proof.
  intros Hp Hn. pose proof (path_nodup l Hp Hn) as Hnd. apply NoDup_alt. intros a b e Ha Hb.
  unfold edges in Ha, Hb. apply list_lookup_fmap_Some in Ha as (x & -> & Ha). apply list_lookup_fmap_Some in Hb as (y & E & Hb).
  destruct (same_edge x y) as [->| ->]; [by eapply path_endpoint..|done|by eapply NoDup_lookup|].
  exfalso. pose proof (proj2 (endpoint_other y (path_endpoint _ _ _ Hp Hb))) as Hodd.
  destruct (l !! 0%nat) as [z|] eqn:H0; [|apply lookup_ge_None in H0; apply lookup_lt_Some in Ha; lia].
  rewrite (path_parity l a z _ Hp H0 Ha), (path_parity l b z _ Hp H0 Hb) in Hodd.
  assert (Hne : Nat.odd a <> Nat.odd b) by (destruct (Z.odd z), (Nat.odd a), (Nat.odd b); done).
  destruct (lt_eq_lt_dec a b) as [[Hlt|Heq]|Hlt]; [|congruence|].
  - apply (path_no_reverse l a b (Z.lxor y 1) Hp Ha); [by rewrite lxor_1_twice|done|].
    rewrite Nat.odd_sub by lia. destruct (Nat.odd a), (Nat.odd b); done.
  - apply (path_no_reverse l b a y Hp Hb); [done|done|].
    rewrite Nat.odd_sub by lia. destruct (Nat.odd a), (Nat.odd b); done.
Qed.

(** *** The loops *)

(** The inner loop as a scan of the other endpoints. *)
Fixpoint scan (i j : Z) (ks : list Z) : res PowError Z :=
  match ks with
  | [] => Ok j
  | k :: ks =>
    if key (uv k) =? key (uv i) then
      if negb (j =? i) then Err (PVerification BranchInCycle) else scan i k ks
    else scan i j ks
  end.

Definition others (i : Z) (t r : Z) : list Z :=
  map (fun s => (i + 2 * s) mod (2 * Z.of_nat N)) (seqZ (t + 1) (r - 1)).

Lemma uvs_lookup i : endpoint i -> uvs !! Z.to_nat i = Some (uv i).
Proof. unfold endpoint, uv. intros Hi. rewrite nth_lookup.
  destruct (lookup_lt_is_Some_2 uvs (Z.to_nat i)) as [x ->]; [rewrite uvs_len; lia|done].
Qed.

Lemma find_match_scan (fuel : nat) i j t r :
  endpoint i -> 0 <= t -> 0 < r -> t + r = Z.of_nat N -> (Z.to_nat r <= fuel)%nat ->
  find_match key fuel uvs (2 * Z.of_nat N) i ((i + 2 * t) mod (2 * Z.of_nat N)) j = Some (scan i j (others i t r)).
Proof.
  intros Hi. revert t r j. induction fuel as [|fuel IH]; intros t r j Ht Hr Hsum Hf; [lia|].
  cbn [find_match]. rewrite (proj2 (Z.eqb_neq _ _)) by lia.
  rewrite Zplus_mod_idemp_l. replace (i + 2 * t + 2) with (i + 2 * (t + 1)) by lia.
  unfold endpoint in Hi. unfold others.
  destruct (Z.eq_dec r 1) as [->|Hr1].
  - replace (i + 2 * (t + 1)) with (i + 1 * (2 * Z.of_nat N)) by lia.
    rewrite Z_mod_plus_full, Z.mod_small, Z.eqb_refl by lia. done.
  - assert (Hk : endpoint ((i + 2 * (t + 1)) mod (2 * Z.of_nat N)))
      by (unfold endpoint; apply Z.mod_pos_bound; lia).
    rewrite (proj2 (Z.eqb_neq ((i + 2 * (t + 1)) mod _) i)).
    2: { intros E. pose proof (Z.div_mod (i + 2 * (t + 1)) (2 * Z.of_nat N) ltac:(lia)) as Hd. rewrite E in Hd.
         assert (0 < (i + 2 * (t + 1)) / (2 * Z.of_nat N) < 1) by nia. lia. }
    rewrite !uvs_lookup by done. rewrite seqZ_cons by lia. cbn [map scan].
    replace (Z.pred (r - 1)) with ((r - 1) - 1) by lia. replace (Z.succ (t + 1)) with ((t + 1) + 1) by lia.
    fold (others i (t + 1) (r - 1)).
    destruct (key _ =? key _); [destruct (negb (j =? i)); [done|]|]; apply IH; lia.
Qed.

Lemma find_match_eq i : endpoint i ->
  find_match key (S (Z.to_nat (2 * Z.of_nat N))) uvs (2 * Z.of_nat N) i i i
  = Some (scan i i (others i 0 (Z.of_nat N))).
Proof.
  intros Hi. rewrite <- (find_match_scan (S (Z.to_nat (2 * Z.of_nat N))) i i 0 (Z.of_nat N)) by (done || lia).
  f_equal. unfold endpoint in Hi. rewrite Z.add_0_r, Z.mod_small by lia. done.
Qed.

Lemma elem_of_others i k : endpoint i ->
  k ∈ others i 0 (Z.of_nat N) <-> endpoint k /\ Z.odd k = Z.odd i /\ k <> i.
Proof.
  intros Hi. unfold others. rewrite list_elem_of_fmap. setoid_rewrite elem_of_seqZ. unfold endpoint in *. split.
  - intros (s & -> & Hs). pose proof (Z.mod_pos_bound (i + 2 * s) (2 * Z.of_nat N) ltac:(lia)).
    pose proof (Z.div_mod (i + 2 * s) (2 * Z.of_nat N) ltac:(lia)) as Hd.
    set (q := (i + 2 * s) / (2 * Z.of_nat N)) in *. set (k := (i + 2 * s) mod _) in *.
    split; [done|]. split.
    + replace k with (i + 2 * (s - Z.of_nat N * q)) by lia. rewrite Z.odd_add, Z.odd_mul. cbn. apply xorb_false_r.
    + intros E. rewrite E in Hd. assert (0 < q < 1) by nia. lia.
  - intros (Hk & Ho & Hne).
    assert (Hev : exists d, k - i = 2 * d).
    { assert (Z.even (k - i) = true) as Hev by (rewrite Z.even_sub, <- !Z.negb_odd, Ho; by destruct (Z.odd i)).
      apply Z.even_spec in Hev. exact Hev. }
    destruct Hev as [d Hd]. exists (if d <? 0 then d + Z.of_nat N else d).
    destruct (Z.ltb_spec d 0).
    + split; [|lia]. replace (i + 2 * (d + Z.of_nat N)) with (k + 1 * (2 * Z.of_nat N)) by lia.
      rewrite Z_mod_plus_full, Z.mod_small by lia. done.
    + split; [|lia]. replace (i + 2 * d) with k by lia. rewrite Z.mod_small by lia. done.
Qed.

(** The outcome of a scan. *)
Lemma scan_spec i j ks :
  NoDup ks -> (j = i \/ j ∉ ks) -> i ∉ ks ->
  match scan i j ks with
  | Ok j' =>
    (j = i -> (j' = i /\ forall k, k ∈ ks -> key (uv k) <> key (uv i)) \/
      (j' ∈ ks /\ key (uv j') = key (uv i) /\ forall k, k ∈ ks -> key (uv k) = key (uv i) -> k = j')) /\
    (j <> i -> j' = j /\ forall k, k ∈ ks -> key (uv k) <> key (uv i))
  | Err e =>
    (j = i -> exists k k', k ∈ ks /\ k' ∈ ks /\ k <> k' /\ key (uv k) = key (uv i) /\ key (uv k') = key (uv i)) /\
    (j <> i -> exists k, k ∈ ks /\ key (uv k) = key (uv i))
  | Panic => False
  end.
Proof.
  intros Hn. revert j. induction Hn as [|k ks Hk Hn IH]; intros j Hj Hi; cbn [scan].
  - split; [intros ->; left; split; [done|]|intros _; split; [done|]]; intros k Hk; by apply elem_of_nil in Hk.
  - assert (Hi' : i ∉ ks) by (intros H; apply Hi; by right).
    destruct (Z.eqb_spec (key (uv k)) (key (uv i))) as [E|E].
    + destruct (Z.eqb_spec j i) as [->|Hji]; cbn [negb].
      * specialize (IH k (or_intror Hk) Hi'). assert (Hki : k <> i) by (intros ->; apply Hi; left).
        destruct (scan i k ks) as [j'|e|]; [| |done].
        -- split; [|done]. intros _. right. destruct IH as [_ IH]. destruct (IH Hki) as [-> H].
           split; [left|]. split; [done|]. intros k' Hk'. inversion Hk'; subst; [done|]. intros E'. by destruct (H k').
        -- split; [|done]. intros _. destruct IH as [_ IH]. destruct (IH Hki) as (k' & Hk' & E').
           exists k, k'. split; [left|]. split; [by right|]. split; [by intros ->|done].
      * split; [done|]. intros _. exists k. split; [left|done].
    + assert (Hj' : j = i \/ j ∉ ks) by (destruct Hj as [|Hj]; [by left|right; intros H; apply Hj; by right]).
      specialize (IH j Hj' Hi'). destruct (scan i j ks) as [j'|e|]; [| |done].
      * destruct IH as [IH1 IH2]. split.
        -- intros Hji. destruct (IH1 Hji) as [[-> H]|(H1 & H2 & H3)].
           ++ left. split; [done|]. intros k' Hk'. inversion Hk'; subst; [done|]. by apply H.
           ++ right. split; [by right|]. split; [done|]. intros k' Hk' E'. inversion Hk'; subst; [done|]. by apply H3.
        -- intros Hji. destruct (IH2 Hji) as [-> H]. split; [done|]. intros k' Hk'. inversion Hk'; subst; [done|]. by apply H.
      * destruct IH as [IH1 IH2]. split.
        -- intros Hji. destruct (IH1 Hji) as (k1 & k2 & H1 & H2 & H3). exists k1, k2. split; [by right|]. split; [by right|done].
        -- intros Hji. destruct (IH2 Hji) as (k1 & H1 & H2). exists k1. split; [by right|done].
Qed.

Lemma others_nodup i : endpoint i -> NoDup (others i 0 (Z.of_nat N)).
Proof.
  intros Hi. unfold others. apply NoDup_fmap_2_strong; [|apply NoDup_seqZ].
  intros a b [Ha Ha']%elem_of_seqZ [Hb Hb']%elem_of_seqZ E.
  pose proof (Z.div_mod (i + 2 * a) (2 * Z.of_nat N) ltac:(lia)) as H1.
  pose proof (Z.div_mod (i + 2 * b) (2 * Z.of_nat N) ltac:(lia)) as H2. rewrite E in H1.
  set (q1 := (i + 2 * a) / _) in *. set (q2 := (i + 2 * b) / _) in *.
  assert (q1 = q2) by nia. nia.
Qed.

(** The inner loop finds the partner. *)
Lemma find_match_outcome i : endpoint i ->
  let r := find_match key (S (Z.to_nat (2 * Z.of_nat N))) uvs (2 * Z.of_nat N) i i i in
  (exists j, r = Some (Ok j) /\ partner i j) \/
  (r = Some (Ok i) /\ forall k, ~ meets i k) \/
  (exists e, r = Some (Err e) /\ forall j, ~ partner i j).
Proof.
  intros Hi. cbv zeta. rewrite find_match_eq by done.
  pose proof (fun k => elem_of_others i k Hi) as He.
  assert (Hni : i ∉ others i 0 (Z.of_nat N)) by (rewrite He; tauto).
  pose proof (scan_spec i i _ (others_nodup i Hi) (or_introl eq_refl) Hni) as Hs.
  destruct (scan i i (others i 0 (Z.of_nat N))) as [j|e|]; [| |done]; destruct Hs as [Hs _]; specialize (Hs eq_refl).
  - destruct Hs as [[-> H]|(H1 & H2 & H3)].
    + right. left. split; [done|]. intros k (K1 & K2 & K3 & K4). by apply (H k); [apply He|].
    + left. exists j. split; [done|]. split; [apply He in H1; unfold meets; tauto|].
      intros k (K1 & K2 & K3 & K4). by apply H3; [apply He|].
  - right. right. exists e. split; [done|]. intros j [_ Hu]. destruct Hs as (k & k' & H1 & H2 & Hne & E1 & E2).
    apply He in H1, H2. apply Hne. rewrite (Hu k), (Hu k'); [done|unfold meets; tauto|unfold meets; tauto].
Qed.

Lemma find_match_partner i j : endpoint i -> partner i j ->
  find_match key (S (Z.to_nat (2 * Z.of_nat N))) uvs (2 * Z.of_nat N) i i i = Some (Ok j).
Proof.
  intros Hi [Hm Hu]. destruct (find_match_outcome i Hi) as [(j' & -> & Hj')|[[_ H]|(e & _ & H)]].
  - destruct Hj' as [Hj' _]. by rewrite (Hu j' Hj').
  - by destruct (H j).
  - by destruct (H j).
Qed.

Abbreviation follow := (fun fuel => follow_cycle key dead fuel uvs (2 * Z.of_nat N)).

Lemma follow_outcome (fuel : nat) n i : endpoint i ->
  exists l, is_walk (i :: l) /\ Forall (fun x => x <> 0) l /\
   ((follow fuel n i = None /\ length l = fuel) \/
    (follow fuel n i = Some (Ok (n + Z.of_nat (length (i :: l)))) /\ (length l < fuel)%nat /\
     exists x, (i :: l) !! length l = Some x /\ step x 0) \/
    exists e, follow fuel n i = Some (Err e)).
Proof.
  revert n i. induction fuel as [|fuel IH]; intros n i Hi.
  - exists []. split; [apply path_cons; [done|split; [constructor|done]|done]|]. split; [constructor|]. left. done.
  - cbn [follow_cycle]. assert (Hnil : is_walk [i]) by (apply path_cons; [done|split; [constructor|done]|done]).
    destruct (find_match_outcome i Hi) as [(j & -> & Hj)|[[-> _]|(e & -> & _)]].
    + pose proof (proj1 (proj2 (proj2 (proj1 Hj)))) as Hji. rewrite (proj2 (Z.eqb_neq j i)) by done.
      fold (uv j) (uv i). cbn [orb]. destruct (dead (uv j) (uv i)) eqn:Ed.
      { exists []. split; [done|]. split; [constructor|]. right. right. eauto. }
      assert (Hst : step i (Z.lxor j 1)) by (exists j; done). destruct (step_endpoint _ _ Hst) as [Hep _].
      destruct (Z.eqb_spec (Z.lxor j 1) 0) as [E0|E0].
      * exists []. split; [done|]. split; [constructor|]. right. left. split; [done|]. split; [cbn; lia|].
        exists i. rewrite <- E0. done.
      * destruct (IH (n + 1) _ Hep) as (l & Hp & Hnz & Hout). exists (Z.lxor j 1 :: l).
        split; [apply path_cons; [done|done|]; intros b [= <-]; done|]. split; [by constructor|].
        destruct Hout as [[-> Hl]|[(-> & Hl & x & Hx & Hx0)|[e He]]].
        -- left. cbn. auto.
        -- right. left. split; [do 2 f_equal; cbn [length]; lia|]. split; [cbn; lia|]. exists x. done.
        -- right. right. eauto.
    + rewrite Z.eqb_refl. cbn [orb]. exists []. split; [done|]. split; [constructor|]. right. right. eauto.
    + exists []. split; [done|]. split; [constructor|]. right. right. eauto.
Qed.

Lemma endpoint_0 : endpoint 0.
Proof. unfold endpoint. lia. Qed.

Lemma no_return_0 l : Forall (fun x => x <> 0) l -> no_return (0 :: l).
Proof.
  intros Hf s y Hs [= <-] H. destruct s as [|s]; [lia|]. cbn in H. exact (proj1 (Forall_lookup _ _) Hf s 0 H eq_refl).
Qed.

Lemma nodup_bound (l : list Z) (n : nat) :
  NoDup l -> Forall (fun x => 0 <= x < Z.of_nat n) l -> (length l <= n)%nat /\ (length l = n -> Permutation l (seqZ 0 (Z.of_nat n))).
Proof.
  intros Hn Hf.
  assert (Hinc : forall x, x ∈ l -> x ∈ seqZ 0 (Z.of_nat n)).
  { intros x Hx. apply elem_of_seqZ. rewrite List.Forall_forall in Hf.
    specialize (Hf x (proj1 (list_elem_of_In _ _) Hx)). lia. }
  pose proof (submseteq_length _ _ (NoDup_submseteq _ _ Hn Hinc)) as Hle. rewrite length_seqZ, Nat2Z.id in Hle.
  split; [done|]. intros Hl. apply submseteq_length_Permutation; [by apply NoDup_submseteq|].
  rewrite length_seqZ, Nat2Z.id. lia.
Qed.

(** The outer loop always ends. *)
Lemma follow_ends (fuel : nat) : (2 * N <= fuel)%nat ->
  (exists n, follow fuel 0 0 = Some (Ok n)) \/ exists e, follow fuel 0 0 = Some (Err e).
Proof.
  intros Hf. destruct (follow_outcome fuel 0 0 endpoint_0) as (l & Hp & Hnz & [[_ Hl]|[(E & _)|He]]); [|eauto|eauto].
  exfalso. pose proof (path_nodup _ Hp (no_return_0 l Hnz)) as Hnd.
  destruct (nodup_bound (0 :: l) (2 * N) Hnd) as [Hlen _]; [|cbn in Hlen; lia].
  eapply List.Forall_impl; [|exact (proj1 Hp)]. intros x. unfold endpoint. lia.
Qed.

(** *** Cycles of edges *)

(** The edges [e] and [e'], and no other, share their node on a side. *)
Definition joined (side e e' : Z) : Prop :=
  e <> e' /\ key (uv (2 * e + side)) = key (uv (2 * e' + side)) /\
  dead (uv (2 * e' + side)) (uv (2 * e + side)) = false /\
  forall e'', 0 <= e'' < Z.of_nat N -> key (uv (2 * e'' + side)) = key (uv (2 * e + side)) -> e'' = e \/ e'' = e'.

(** All edges in a round, from the edge 0, joined alternately on the two sides. *)
Definition is_cycle : Prop :=
  Nat.even N = true /\
  exists order : list Z, Permutation order (seqZ 0 (Z.of_nat N)) /\ order !! 0%nat = Some 0 /\
    forall t e, order !! t = Some e ->
      exists e', order !! (S t mod N)%nat = Some e' /\ joined (Z.of_nat (t mod 2)) e e'.

Lemma partner_joined side e j :
  0 <= e < Z.of_nat N -> (side = 0 \/ side = 1) -> partner (2 * e + side) j ->
  dead (uv j) (uv (2 * e + side)) = false -> j = 2 * (j / 2) + side /\ joined side e (j / 2).
Proof.
  intros He Hs [(H1 & H2 & H3 & H4) Hu] Hd. unfold endpoint in H1.
  assert (Hj : j = 2 * (j / 2) + side).
  { pose proof (Z.div_mod j 2 ltac:(lia)) as Hdm. rewrite Zmod_odd, H2, Z.odd_add, Z.odd_mul in Hdm.
    destruct Hs as [-> | ->]; cbn in Hdm; lia. }
  split; [done|]. split; [lia|]. rewrite <- Hj. split; [congruence|]. split; [done|].
  intros e'' He'' Hk. destruct (Z.eq_dec e'' e) as [|Hne]; [by left|right].
  rewrite <- (Hu (2 * e'' + side)); [replace (2 * e'' + side) with (side + e'' * 2) by lia|].
  - rewrite Z.div_add by lia. destruct Hs as [-> | ->]; done.
  - split; [unfold endpoint; lia|]. split; [|split; [lia|done]].
    rewrite !Z.odd_add, !Z.odd_mul. done.
Qed.

Lemma joined_partner side e e' :
  0 <= e < Z.of_nat N -> 0 <= e' < Z.of_nat N -> (side = 0 \/ side = 1) -> joined side e e' ->
  partner (2 * e + side) (2 * e' + side) /\ dead (uv (2 * e' + side)) (uv (2 * e + side)) = false.
Proof.
  intros He He' Hs (Hne & Hk & Hd & Hu). split; [|done]. split.
  - split; [unfold endpoint; lia|]. split; [rewrite !Z.odd_add, !Z.odd_mul; done|]. split; [lia|done].
  - intros k (K1 & K2 & K3 & K4). unfold endpoint in K1. pose proof (Z.div_mod k 2 ltac:(lia)) as Hdm.
    rewrite Zmod_odd, K2, Z.odd_add, Z.odd_mul in Hdm.
    assert (Ek : k = 2 * (k / 2) + side) by (destruct Hs as [-> | ->]; cbn in Hdm; lia).
    rewrite Ek in K4. destruct (Hu (k / 2)) as [E|E]; [lia|done|lia|lia].
Qed.

Lemma odd_side (a : bool) i : Z.odd i = a -> i = 2 * (i / 2) + (if a then 1 else 0).
Proof. intros <-. pose proof (Z.div_mod i 2 ltac:(lia)) as H. rewrite Zmod_odd in H. destruct (Z.odd i); lia. Qed.

Lemma nat_mod_2 t : Z.of_nat (t mod 2) = if Nat.odd t then 1 else 0.
Proof. rewrite <- Nat.bit0_mod, Nat.bit0_odd. destruct (Nat.odd t); done. Qed.

(** A walk of [N] edges goes through all of them in a round. *)
Lemma walk_is_cycle l :
  is_walk (0 :: l) -> Forall (fun x => x <> 0) l -> length (0 :: l) = N ->
  (exists x, (0 :: l) !! length l = Some x /\ step x 0) -> is_cycle.
Proof.
  intros Hp Hnz Hlen (x & Hx & Hx0). set (w := 0 :: l) in *.
  pose proof (path_edges_nodup _ Hp (no_return_0 l Hnz)) as Hnd.
  assert (Hpar : forall t i, w !! t = Some i -> Z.odd i = Nat.odd t).
  { intros t i Hi. rewrite (path_parity w t 0 i Hp eq_refl Hi). cbn. by destruct (Nat.odd t). }
  assert (Hnext : forall t i i', step i i' -> w !! t = Some i -> (S t mod N < N)%nat ->
    joined (Z.of_nat (t mod 2)) (i / 2) (i' / 2)).
  { intros t i i' (j & Hj & Hd & ->) Hi _. pose proof (path_endpoint _ _ _ Hp Hi) as He. unfold endpoint in He.
    pose proof (odd_side _ i (Hpar t i Hi)) as Ei. rewrite nat_mod_2.
    assert (Hs : (if Nat.odd t then 1 else 0) = 0 \/ (if Nat.odd t then 1 else 0) = 1) by (destruct (Nat.odd t); auto).
    destruct (partner_joined _ (i / 2) j ltac:(destruct (Nat.odd t); lia) Hs) as [Ej Hjoin];
      [by rewrite <- Ei|by rewrite <- Ei|].
    replace (Z.lxor j 1 / 2) with (j / 2); [done|].
    destruct Hj as [(Hej & _) _]. unfold endpoint in Hej. rewrite lxor_1 by lia.
    pose proof (Z.div_mod j 2 ltac:(lia)) as Hdm. rewrite Zmod_odd in Hdm.
    destruct (Z.odd j); [replace (j - 1) with (0 + j / 2 * 2) by lia|replace (j + 1) with (1 + j / 2 * 2) by lia];
      rewrite Z.div_add by lia; done. }
  split.
  - apply step_endpoint in Hx0 as [_ Hodd]. rewrite (Hpar _ _ Hx) in Hodd. cbn in Hodd.
    rewrite <- Hlen. cbn [length w]. rewrite Nat.even_succ. destruct (Nat.odd (length l)); done.
  - exists (edges w). split; [|split; [done|]].
    + apply nodup_bound; [done| |unfold edges; by rewrite length_map].
      apply List.Forall_map. eapply List.Forall_impl; [|exact (proj1 Hp)]. intros i. unfold endpoint. intros Hi.
      split; [apply Z.div_pos; lia|apply Z.div_lt_upper_bound; lia].
    + intros t e He. apply list_lookup_fmap_Some in He as (i & -> & Hi).
      pose proof (lookup_lt_Some _ _ _ Hi) as Ht.
      assert (Hm : (S t mod N < N)%nat) by (apply Nat.mod_upper_bound; lia).
      destruct (decide (S t = N)) as [E|Hne].
      * assert (t = length l) as -> by (cbn [length w] in Hlen; lia). exists 0.
        rewrite E, Nat.Div0.mod_same. split; [done|]. assert (i = x) as -> by congruence.
        exact (Hnext (length l) x 0 Hx0 Hi Hm).
      * rewrite Nat.mod_small by lia. destruct (lookup_lt_is_Some_2 w (S t)) as [i' Hi']; [lia|].
        exists (i' / 2). split; [unfold edges; rewrite list_lookup_fmap, Hi'; done|].
        apply (Hnext t i i'); [exact (proj2 Hp t i i' Hi Hi')|done|done].
Qed.

(** Conversely a round is followed to its end. *)
Lemma cycle_is_followed (fuel : nat) : (N <= fuel)%nat -> is_cycle -> follow fuel 0 0 = Some (Ok (Z.of_nat N)).
Proof.
  intros Hf (Hev & order & Hperm & H0 & Hround).
  assert (Hlen : length order = N) by (rewrite (Permutation_length Hperm), length_seqZ, Nat2Z.id; done).
  assert (Hnd : NoDup order) by (rewrite Hperm; apply NoDup_seqZ).
  assert (Hrange : forall t e, order !! t = Some e -> 0 <= e < Z.of_nat N).
  { intros t e He. apply list_elem_of_lookup_2 in He. rewrite Hperm, elem_of_seqZ in He. lia. }
  assert (Hgen : forall d t e n fl, (t + S d = N)%nat -> order !! t = Some e -> (S d <= fl)%nat ->
    follow fl n (2 * e + Z.of_nat (t mod 2)) = Some (Ok (n + Z.of_nat (S d)))); cycle 1.
  { destruct N as [|n'] eqn:EN; [lia|].
    pose proof (Hgen n' 0%nat 0 0 fuel ltac:(lia) H0 ltac:(lia)) as H. rewrite nat_mod_2 in H. cbn in H. exact H. }
  induction d as [|d IH]; intros t e n fl Ht He Hfl; (destruct fl as [|fl]; [lia|]); cbn [follow_cycle].
  all: pose proof (Hrange t e He) as Her; destruct (Hround t e He) as (e' & He' & Hj);
    pose proof (Hrange _ e' He') as Her';
    assert (Hs : Z.of_nat (t mod 2) = 0 \/ Z.of_nat (t mod 2) = 1) by (rewrite nat_mod_2; destruct (Nat.odd t); auto);
    destruct (joined_partner _ e e' Her Her' Hs Hj) as [Hp Hd];
    assert (Hi : endpoint (2 * e + Z.of_nat (t mod 2))) by (unfold endpoint; lia);
    rewrite (find_match_partner _ _ Hi Hp);
    pose proof (proj1 (proj2 (proj2 (proj1 Hp)))) as Hne; rewrite (proj2 (Z.eqb_neq _ _)) by exact Hne;
    fold (uv (2 * e' + Z.of_nat (t mod 2))) (uv (2 * e + Z.of_nat (t mod 2))); rewrite Hd; cbn [orb];
    assert (Ex : Z.lxor (2 * e' + Z.of_nat (t mod 2)) 1 = 2 * e' + Z.of_nat (S t mod 2)) by
      (rewrite lxor_1 by lia; rewrite Z.odd_add, Z.odd_mul, !nat_mod_2, Nat.odd_succ, <- Nat.negb_odd;
       destruct (Nat.odd t); cbn; lia);
    rewrite Ex.
  - assert (EN : S t = N) by lia. rewrite EN, Nat.Div0.mod_same in He'. assert (e' = 0) as -> by congruence.
    rewrite EN, nat_mod_2, <- Nat.negb_even, Hev. cbn. done.
  - assert (Hlt : (S t < N)%nat) by lia. rewrite Nat.mod_small in He' by done.
    rewrite (proj2 (Z.eqb_neq _ _)).
    + rewrite (IH (S t) e' (n + 1) fl) by (done || lia). do 2 f_equal. lia.
    + intros E0. assert (e' = 0) by lia. subst e'.
      assert (S t = 0%nat) by (eapply NoDup_lookup; [exact Hnd|done|done]). lia.
Qed.

Lemma follow_counts_cycle (fuel : nat) : (2 * N <= fuel)%nat ->
  exists r, follow fuel 0 0 = Some r /\ r <> Panic /\ (r = Ok (Z.of_nat N) <-> is_cycle).
Proof.
  intros Hf. destruct (follow_ends fuel Hf) as [(n & E)|(e & E)]; rewrite E; (eexists; split; [done|]; split; [done|]); split.
  - intros [= ->]. destruct (follow_outcome fuel 0 0 endpoint_0) as (l & Hp & Hnz & Hout).
    rewrite E in Hout. destruct Hout as [[? _]|[([= El] & _ & Hx)|[e ?]]]; [done| |done].
    apply (walk_is_cycle l); [done|done|cbn [length]; lia|done].
  - intros Hc. pose proof (cycle_is_followed fuel ltac:(lia) Hc). congruence.
  - done.
  - intros Hc. pose proof (cycle_is_followed fuel ltac:(lia) Hc). congruence.
Qed.
End Cycles.

(** ** The verifiers *)

(** Both endpoints of each edge. *)
Definition endpoints (node : Z -> Z * Z) (ns : list Z) : list Z := concat (map (fun n => [(node n).1; (node n).2]) ns).
Definition xor_of (x : Z) (l : list Z) : Z := foldl Z.lxor x l.

(** The nonces are edges in ascending order. *)
Fixpoint ascending (mask : Z) (prev : option Z) (ns : list Z) : Prop :=
  match ns with
  | [] => True
  | n :: ns => n <= mask /\ match prev with Some p => p < n | None => True end /\ ascending mask (Some n) ns
  end.

Lemma collect_edges_spec node mask prev ns x0 x1 :
  match collect_edges node mask prev ns x0 x1 with
  | Ok (uvs, y0, y1) => ascending mask prev ns /\ uvs = endpoints node ns /\
      y0 = xor_of x0 (map (fun n => (node n).1) ns) /\ y1 = xor_of x1 (map (fun n => (node n).2) ns)
  | Err _ => ~ ascending mask prev ns
  | Panic => False
  end.
Proof.
  revert prev x0 x1. induction ns as [|n ns IH]; intros prev x0 x1; cbn [collect_edges]; [done|].
  destruct (Z.ltb_spec mask n); [cbn; lia|].
  destruct (match prev with Some p => n <=? p | None => false end) eqn:Ep.
  { destruct prev as [q|]; [|done]. apply Z.leb_le in Ep. cbn. lia. }
  assert (Hprev : match prev with Some p => p < n | None => True end).
  { destruct prev as [q|]; [|done]. apply Z.leb_gt in Ep. lia. }
  specialize (IH (Some n) (Z.lxor x0 (node n).1) (Z.lxor x1 (node n).2)).
  destruct (node n) as [u v] eqn:En. cbn [fst snd] in *.
  destruct (collect_edges node mask (Some n) ns _ _) as [[[uvs y0] y1]|e|]; cbn [res_bind].
  - destruct IH as (H1 & -> & -> & ->). cbn. rewrite En. done.
  - cbn. tauto.
  - done.
Qed.

Lemma length_endpoints node ns : length (endpoints node ns) = (2 * length ns)%nat.
Proof. unfold endpoints. induction ns as [|n ns IH]; [done|]. cbn in *. lia. Qed.

(** What a proof must be. *)
Definition valid_cycle (key : Z -> Z) (dead : Z -> Z -> bool) (node : Z -> Z * Z) (xor : Z) (p : CuckooParams)
    (ns : list Z) : Prop :=
  ascending (edge_mask p) None ns /\
  xor_of xor (map (fun n => (node n).1) ns) = 0 /\ xor_of xor (map (fun n => (node n).2) ns) = 0 /\
  is_cycle key dead (length ns) (endpoints node ns).

Lemma verify_cycle_spec key dead node xor p fuel pr :
  (forall a b, dead a b = dead b a) -> cp_proof_size p = length (nonces pr) -> nonces pr <> [] ->
  (cycle_fuel p <= fuel)%nat ->
  exists r, verify_cycle key dead node xor p fuel pr = Some r /\ r <> Panic /\
    (r = Ok tt <-> valid_cycle key dead node xor p (nonces pr)).
Proof.
  intros Hd Hsize Hne Hf. unfold verify_cycle, valid_cycle.
  pose proof (collect_edges_spec node (edge_mask p) None (nonces pr) xor xor) as Hc.
  destruct (collect_edges _ _ _ _ _ _) as [[[uvs x0] x1]|e|]; [|eexists; split; [done|]; split; [done|]; split; [done|tauto]|done].
  destruct Hc as (Ha & -> & -> & ->).
  destruct (Z.eqb_spec (Z.lor (xor_of xor (map (fun n => (node n).1) (nonces pr)))
    (xor_of xor (map (fun n => (node n).2) (nonces pr)))) 0) as [E|E]; cbn [negb].
  - apply Z.lor_eq_0_iff in E as [E0 E1]. rewrite Hsize.
    destruct (follow_counts_cycle key dead (length (nonces pr)) (endpoints node (nonces pr)) Hd
      ltac:(destruct (nonces pr); [done|cbn; lia]) (length_endpoints _ _) fuel) as (r & -> & Hr & Hiff).
    { unfold cycle_fuel in Hf. lia. }
    destruct r as [n|e|]; [|eexists; split; [done|]; split; [done|]; split; [done|]; intros (_ & _ & _ & Hcy);
      by apply Hiff in Hcy|done].
    eexists. split; [done|]. destruct (Z.eqb_spec n (Z.of_nat (length (nonces pr)))) as [->|Hn].
    + split; [done|]. split; [intros _|done]. split; [done|]. split; [done|]. split; [done|]. by apply Hiff.
    + split; [done|]. split; [done|]. intros (_ & _ & _ & Hcy). apply Hiff in Hcy. congruence.
  - eexists. split; [done|]. split; [done|]. split; [done|]. intros (_ & H0 & H1 & _). rewrite H0, H1 in E. done.
Qed.

(** C39: the cuckatoo and cuckaroo verifiers always return, and accept exactly the cycles.  Whatever
    the siphash keys and the nonces, as many as the parameters say, the loop that follows the cycle
    ends within two turns per edge and never indexes out of bounds; the proof is accepted if and
    only if the nonces are edges in ascending order, their endpoints xor to zero on both sides, and
    the edges form one round through all of them, consecutive edges sharing a node, alternately on
    the two sides, with no third edge at that node (for cuckatoo the shared nodes are the two
    halves of a pair). *)
Theorem verifiers_accept_exactly_the_cycles (p : CuckooParams) (fuel : nat) (pr : PowProof) :
  cp_proof_size p = length (nonces pr) -> nonces pr <> [] -> (cycle_fuel p <= fuel)%nat ->
  (exists r, cuckatoo_verify p fuel pr = Some r /\ r <> Panic /\
    (r = Ok tt <-> valid_cycle (fun x => Z.shiftr x 1) Z.eqb (cuckatoo_node p)
                     (Z.land (Z.of_nat (cp_proof_size p) / 2) 1) p (nonces pr))) /\
  (exists r, cuckaroo_verify p fuel pr = Some r /\ r <> Panic /\
    (r = Ok tt <-> valid_cycle (fun x => x) (fun _ _ => false) (cuckaroo_node p) 0 p (nonces pr))).
Proof.
  intros Hs Hne Hf. split; apply verify_cycle_spec; try done. intros a b. apply Z.eqb_sym.
Qed.

Lemma verifiers_accept_exactly_the_cycles_witness :
  valid_cycle (fun x => x) (fun _ _ => false) (cuckaroo_node v1_19_params) 0 v1_19_params v1_19_sol.
Proof.
  destruct (verifiers_accept_exactly_the_cycles v1_19_params (cycle_fuel v1_19_params) (mkPowProof 19 v1_19_sol)
    eq_refl ltac:(done) ltac:(done)) as [_ (r & E & _ & Hiff)].
  apply Hiff. rewrite (proj1 cuckaroo19_vector) in E. injection E as <-. reflexivity.
Defined.

(** ** Headers *)

Definition MAX_SOLS : Z := 10.

(** [global::create_pow_context]: [new_cuckatoo_ctx], whose graph must fit in 64 bits *)
Definition create_pow_context (edge_bits : Z) (proof_size : nat) : res PowError CuckooParams :=
  let p := params_new edge_bits proof_size in
  if u64_max / 2 <=? num_edges p then Err (PVerification GraphTooBig) else Ok p.

Section Untrusted.
  Context {DG : Digest} {SS : SecpSizes} {CH : Chrono}.

(** [pow::verify_size]; the fuel is enough by [verify_cycle_spec] *)
Definition verify_size (ct : ChainTypes) (bh : BlockHeader) : res PowError unit :=
  let? p := create_pow_context (edge_bits (proof (pow bh))) (length (nonces (proof (pow bh)))) in
  let p := reset_header_nonce p (pre_pow ct bh) None in
  match cuckatoo_verify p (cycle_fuel p) (proof (pow bh)) with
  | Some r => r
  | None => Panic
  end.

(** [UntrustedBlockHeader::read]; [now] is the time of the clock, in seconds *)
Definition untrusted_header_read {R} `{!Reader R} (ct : ChainTypes) (now : Z) : R -> res Error (BlockHeader * R) :=
  let! header := header_read ct in
  if now + 12 * BLOCK_TIME_SEC <? Block.timestamp header then read_fail CorruptedData
  else if bh_height header <? refactor_header_height ct then
    if negb (valid_header_version ct (bh_height header) (bh_version header)) then read_fail Ser.InvalidBlockVersion
    else if negb (is_primary (pow header)) && negb (is_secondary (pow header)) then read_fail CorruptedData
    else
      match verify_size ct header with
      | Ok _ => read_ret header
      | Err _ => read_fail CorruptedData
      | Panic => read_panic
      end
  else read_ret header.

(** [UntrustedBlock::read] *)
Definition untrusted_block_read {R} `{!Reader R} (ct : ChainTypes) (now : Z) : R -> res Error (Block * R) :=
  let! header := untrusted_header_read ct now in
  let! aux_data :=
    if refactor_header_height ct <=? bh_height header then read_ret aux_data_default else aux_data_read in
  let! body := body_read ct in
  match validate_read ct body AsBlock with
  | Ok _ => read_ret (mkBlock header aux_data body)
  | Err _ => read_fail CorruptedData
  | Panic => read_panic
  end.

(** [UntrustedCompactBlock::read] *)
Definition untrusted_compact_read {R} `{!Reader R} (ct : ChainTypes) (now : Z) : R -> res Error (CompactBlock * R) :=
  let! header := untrusted_header_read ct now in
  let! nonce := read_u64 in
  let! aux_data :=
    if refactor_header_height ct <=? bh_height header then read_ret aux_data_default else aux_data_read in
  let! body := compact_body_read in
  let cb := mkCompact header nonce aux_data body in
  match compact_validate_read cb with
  | Ok _ => read_ret cb
  | Err _ => read_fail CorruptedData
  | Panic => read_panic
  end.
End Untrusted.

(** ** What is read from a peer *)

Lemma read_nonces_length (n : nat) : forall i bits nb ns, read_nonces n i bits nb = Ok ns -> length ns = n.
Proof.
  induction n as [|n IH]; intros i bits nb ns; cbn [read_nonces]; [intros [= <-]; done|].
  destruct (read_nonce _ _ _) as [x|e|]; cbn [res_bind]; [|done|done].
  destruct (read_nonces n _ bits nb) as [l|e|] eqn:El; cbn [res_bind]; [|done|done].
  intros [= <-]. cbn. f_equal. by eapply IH.
Qed.

Section Peer.
  Context {DG : Digest} {SS : SecpSizes} {CH : Chrono} {R : Type} `{!Reader R}.

Lemma proof_read_size (r r' : R) pr : proof_read r = Ok (pr, r') -> length (nonces pr) = proofsize.
Proof.
  intros (eb & r1 & _ & H)%read_bind_inv. destruct ((eb =? 0) || _); [done|].
  apply read_bind_inv in H as (bits & r2 & _ & H). cbv zeta in H.
  destruct (read_nonces _ _ _ _) as [ns|e|] eqn:En; [|done|done].
  destruct (check_padding _ _ _) as [?|e|]; [|done|done]. unfold read_ret in H. injection H as <- _. cbn [nonces].
  by eapply read_nonces_length.
Qed.

Lemma pow_read_size (r r' : R) p : pow_read r = Ok (p, r') -> length (nonces (proof p)) = proofsize.
Proof.
  intros (d & r1 & _ & H)%read_bind_inv. apply read_bind_inv in H as (s & r2 & _ & H).
  apply read_bind_inv in H as (n & r3 & _ & H). apply read_bind_inv in H as (pr & r4 & Hp & H).
  unfold read_ret in H. injection H as <- _. cbn [proof]. by eapply proof_read_size.
Qed.

Lemma header_read_size ct (r r' : R) h :
  header_read ct r = Ok (h, r') -> length (nonces (proof (pow h))) = proofsize.
Proof.
  unfold header_read. intros H. do 12 (apply read_bind_inv in H as (? & ? & _ & H)).
  apply read_bind_inv in H as ([[[[? ?] ?] ?] [[? ?] ?]] & ? & _ & H).
  apply read_bind_inv in H as ([pw bp] & ? & Hp & H).
  destruct ((_ <? _) || _); [done|]. unfold read_ret in H. injection H as <- _. cbn [pow fst].
  destruct (refactor_header_height ct <=? _).
  - apply read_bind_inv in Hp as (? & ? & _ & Hp). unfold read_ret in Hp. injection Hp as <- _. done.
  - apply read_bind_inv in Hp as (pw' & r1 & Hp & H). unfold read_ret in H. injection H as <- _ _. by eapply pow_read_size.
Qed.

(** The checks of a header that still has a proof of work of its own. *)
Definition own_pow_ok (ct : ChainTypes) (h : BlockHeader) : Prop :=
  let pr := proof (pow h) in
  let p := reset_header_nonce (params_new (edge_bits pr) proofsize) (pre_pow ct h) None in
  bh_version h = header_version ct (bh_height h) /\
  (is_primary (pow h) = true \/ is_secondary (pow h) = true) /\
  num_edges p < u64_max / 2 /\
  valid_cycle (fun x => Z.shiftr x 1) Z.eqb (cuckatoo_node p) (Z.land (Z.of_nat proofsize / 2) 1) p (nonces pr).

Lemma verify_size_spec ct h :
  length (nonces (proof (pow h))) = proofsize ->
  let pr := proof (pow h) in
  let p := reset_header_nonce (params_new (edge_bits pr) proofsize) (pre_pow ct h) None in
  verify_size ct h <> Panic /\
  (verify_size ct h = Ok tt <-> num_edges p < u64_max / 2 /\
    valid_cycle (fun x => Z.shiftr x 1) Z.eqb (cuckatoo_node p) (Z.land (Z.of_nat proofsize / 2) 1) p (nonces pr)).
Proof.
  intros Hl pr p. unfold verify_size, create_pow_context. rewrite Hl. fold pr.
  change (num_edges (params_new (edge_bits pr) proofsize)) with (num_edges p).
  destruct (Z.leb_spec (u64_max / 2) (num_edges p)); cbn [res_bind]; [split; [done|split; [done|lia]]|]. fold p.
  destruct (verify_cycle_spec (fun x => Z.shiftr x 1) Z.eqb (cuckatoo_node p) (Z.land (Z.of_nat (cp_proof_size p) / 2) 1)
    p (cycle_fuel p) pr) as (r & E & Hp & Hiff).
  - intros a b. apply Z.eqb_sym.
  - cbn. done.
  - destruct (nonces pr) eqn:En; [|done]. unfold pr in En. rewrite En in Hl. done.
  - done.
  - unfold cuckatoo_verify. rewrite E. split; [done|]. rewrite Hiff. tauto.
Qed.

Lemma untrusted_header_panics ct now (r : R) :
  untrusted_header_read ct now r = Panic <-> header_read ct r = Panic.
Proof.
  unfold untrusted_header_read. unfold read_bind at 1.
  destruct (header_read ct r) as [[h0 r0]|e|] eqn:Eh; cbn [res_bind]; [|done|done].
  destruct (verify_size_spec ct h0 (header_read_size ct r r0 h0 Eh)) as [Hnp _].
  split; [|done]. destruct (_ <? _); [done|]. destruct (_ <? _); [|done]. destruct (negb _); [done|].
  destruct (negb _ && negb _); [done|]. destruct (verify_size ct h0); done.
Qed.

Lemma untrusted_header_accepted ct now (r r' : R) h :
  untrusted_header_read ct now r = Ok (h, r') <->
  header_read ct r = Ok (h, r') /\ Block.timestamp h <= now + 12 * BLOCK_TIME_SEC /\
  (bh_height h < refactor_header_height ct -> own_pow_ok ct h).
Proof.
  unfold untrusted_header_read. unfold read_bind at 1.
  destruct (header_read ct r) as [[h0 r0]|e|] eqn:Eh; cbn [res_bind]; [|split; [done|intros [? _]; done]..].
  pose proof (header_read_size ct r r0 h0 Eh) as Hl.
  destruct (verify_size_spec ct h0 Hl) as [Hnp Hiff].
  destruct (Z.ltb_spec (now + 12 * BLOCK_TIME_SEC) (Block.timestamp h0)).
  { split; [done|]. intros ([= -> ->] & Ht & _). lia. }
  destruct (Z.ltb_spec (bh_height h0) (refactor_header_height ct)) as [Hlt|Hge].
  2: { split; [intros [= <- <-]; split; [done|]; split; [lia|lia]|intros ([= -> ->] & _); done]. }
  unfold valid_header_version. destruct (Z.eqb_spec (bh_version h0) (header_version ct (bh_height h0))) as [Ev|Ev]; cbn [negb].
  2: { split; [done|]. intros ([= -> ->] & _ & Ho). destruct (Ho Hlt) as [? _]. done. }
  destruct (negb (is_primary (pow h0)) && negb (is_secondary (pow h0))) eqn:Ep.
  { split; [done|]. intros ([= -> ->] & _ & Ho). destruct (Ho Hlt) as (_ & Hps & _).
    destruct (is_primary (pow h)), (is_secondary (pow h)); cbn in Ep; try done. destruct Hps; done. }
  assert (Hps : is_primary (pow h0) = true \/ is_secondary (pow h0) = true)
    by (destruct (is_primary (pow h0)), (is_secondary (pow h0)); auto).
  destruct (verify_size ct h0) as [[]|e|]; [| |done].
  - split; [intros [= <- <-]; split; [done|]; split; [lia|]; intros _; split; [done|]; split; [done|]; by apply Hiff|].
    intros ([= -> ->] & _). done.
  - split; [done|]. intros ([= -> ->] & _ & Ho). destruct (Ho Hlt) as (_ & _ & Hc). apply Hiff in Hc. done.
Qed.

(** An untrusted header is accepted exactly when it parses, is not more than two hours ahead of
    the clock and, as long as headers carry their own proof of work, has the version of its height,
    a known graph size and a proof whose edges form a cycle in the graph of its pre-proof bytes.
    No header read from a peer makes the verifier loop or panic. *)
Theorem untrusted_headers_have_cycles ct now (r r' : R) h :
  (untrusted_header_read ct now r = Panic <-> header_read ct r = Panic) /\
  (untrusted_header_read ct now r = Ok (h, r') <->
   header_read ct r = Ok (h, r') /\ Block.timestamp h <= now + 12 * BLOCK_TIME_SEC /\
   (bh_height h < refactor_header_height ct -> own_pow_ok ct h)).
Proof. split; [apply untrusted_header_panics|apply untrusted_header_accepted]. Qed.
End Peer.
