(* ===== verification/Pool.v ===== *)
(** * A pool of transactions

    Models [pool/src/types.rs] and [pool/src/pool.rs]: the entries of a pool, how a
    transaction is admitted, how a pool is reconciled with a new block, and how its
    transactions are chosen for mining.

    The chain behind the pool is the trait [BlockChain], a record of its methods.
    The pool shares the verifier cache with the rest of the node: operations that
    validate run in the state and error monad [vm] over that cache.  A failed
    operation returns the cache it leaves behind. *)

From Stdlib Require Import ZArith Lia List Bool Sorted Permutation.
From stdpp Require Import base numbers list option gmap.
From S2P Require Import Prelude Bytes Consensus Ser PowTypes Transaction TxBody Committed Verifier Aggregate Block CompactBlock.

(** ** Types *)

Definition DANDELION_EPOCH_SECS : Z := 600.
Definition DANDELION_EMBARGO_SECS : Z := 180.
Definition DANDELION_AGGREGATION_SECS : Z := 30.
Definition DANDELION_STEM_PROBABILITY : Z := 90.
Definition DANDELION_ALWAYS_STEM_OUR_TXS : bool := true.

Record DandelionConfig := mkDandelion {
  epoch_secs : Z; embargo_secs : Z; aggregation_secs : Z; stem_probability : Z; always_stem_our_txs : bool }.

(** [DandelionConfig::default] *)
Definition dandelion_default : DandelionConfig :=
  mkDandelion DANDELION_EPOCH_SECS DANDELION_EMBARGO_SECS DANDELION_AGGREGATION_SECS
    DANDELION_STEM_PROBABILITY DANDELION_ALWAYS_STEM_OUR_TXS.

Record PoolConfig := mkPoolConfig {
  accept_fee_base : Z; max_pool_size : Z; max_stempool_size : Z; mineable_max_weight : Z }.

Definition default_max_pool_size : Z := 50000.
Definition default_max_stempool_size : Z := 50000.

(** [PoolConfig::default] *)
Definition pool_config_default (ct : ChainTypes) : PoolConfig :=
  mkPoolConfig MILLI_GRIN default_max_pool_size default_max_stempool_size (max_block_weight ct).

Inductive TxSource := PushApi | Broadcast | Fluff | EmbargoExpired | Deaggregate.

(** [TxSource::is_pushed] *)
Definition is_pushed (s : TxSource) : bool := match s with PushApi => true | _ => false end.

(** [tx_at] is a time in seconds. *)
Record PoolEntry := mkEntry { src : TxSource; tx_at : Z; entry_tx : Transaction }.

Inductive PoolError :=
| InvalidTx (e : TxError) | InvalidBlock (e : BlockError) | PKeychain | PCommitted (e : CommittedError)
| ImmatureTransaction | ImmatureCoinbase | DandelionError | OverCapacity | LowFeeTransaction (threshold : Z)
| DuplicateCommitment | DuplicateTx | POther.

(** The trait [BlockChain] *)
Record BlockChain := mkBlockChain {
  verify_coinbase_maturity : Transaction -> res PoolError unit;
  verify_tx_lock_height : Transaction -> res PoolError unit;
  validate_tx : Transaction -> res PoolError unit;
  chain_head : res PoolError BlockHeader;
  get_block_header : bytes -> res PoolError BlockHeader;
  get_block_sums : bytes -> res PoolError BlockSums;
  get_block_token_sums : bytes -> res PoolError BlockTokenSums
}.

(** [PartialEq] of vectors, bodies and transactions *)
Fixpoint vec_eqb {A} (eq : A -> A -> bool) (l l' : list A) : bool :=
  match l, l' with
  | [], [] => true
  | a :: l, a' :: l' => eq a a' && vec_eqb eq l l'
  | _, _ => false
  end.

Definition body_eqb {DG : Digest} (a b : TransactionBody) : bool :=
  vec_eqb eqb (inputs a) (inputs b) && vec_eqb eqb (token_inputs a) (token_inputs b)
  && vec_eqb eqb (outputs a) (outputs b) && vec_eqb eqb (token_outputs a) (token_outputs b)
  && vec_eqb eqb (kernels a) (kernels b) && vec_eqb eqb (token_kernels a) (token_kernels b).

Definition tx_eqb {DG : Digest} (a b : Transaction) : bool :=
  body_eqb (body a) (body b) && bool_decide (offset a = offset b).

(** [Vec::dedup]: drop what equals the element kept before it *)
Fixpoint dedup_from {A} (eq : A -> A -> bool) (prev : A) (l : list A) : list A :=
  match l with
  | [] => []
  | a :: l => if eq a prev then dedup_from eq prev l else a :: dedup_from eq a l
  end.
Definition vec_dedup {A} (eq : A -> A -> bool) (l : list A) : list A :=
  match l with [] => [] | a :: l => a :: dedup_from eq a l end.

#[export] Instance short_id_eq_dec : EqDecision ShortId.
Proof. solve_decision. Defined.

(** ** The pool *)

Record Pool := mkPool { entries : list PoolEntry }.

(** A bucket of [bucket_transactions] *)
Record Bucket := mkBucket { raw_txs : list Transaction; bucket_fee_to_weight : Z; age_idx : nat }.

Section Pool.
  Context {DG : Digest} {SS : SecpSizes} {SP : Secp} {SV : SecpVerify} {L : Type} `{!LruCache L}.
  Context (ct : ChainTypes) (bc : BlockChain).
  #[local] Abbreviation VM := (vm (LruVerifierCache L) PoolError).
  Implicit Types (p : Pool) (h : BlockHeader).

(** [Pool::new] *)
Definition pool_new : Pool := mkPool [].

Definition contains_tx p (h : bytes) : bool :=
  existsb (fun x => bool_decide (hash (entry_tx x) = h)) (entries p).

Definition get_tx p (h : bytes) : option Transaction :=
  entry_tx <$> List.find (fun x => bool_decide (hash (entry_tx x) = h)) (entries p).

Definition retrieve_tx_by_kernel_hash p (h : bytes) : option Transaction :=
  entry_tx <$> List.find (fun x => existsb (fun k => bool_decide (hash k = h)) (kernels (body (entry_tx x)))) (entries p).

(** The two loops of [retrieve_transactions], over the kernels of an entry and over
    the entries; the flag says the outer loop is left. *)
Fixpoint retrieve_kernels {SH : SipHasher} (h : bytes) (nonce : Z) (kern_ids : list ShortId) (tx : Transaction)
    (ks : list TxKernel) (txs : list Transaction) (found_ids : list ShortId)
    : list Transaction * list ShortId * bool :=
  match ks with
  | [] => (txs, found_ids, false)
  | k :: ks =>
    let id := short_id k h nonce in
    let '(txs, found_ids) :=
      if bool_decide (id ∈ kern_ids) then (txs ++ [tx], found_ids ++ [id]) else (txs, found_ids) in
    if (length found_ids =? length kern_ids)%nat then (txs, found_ids, true)
    else retrieve_kernels h nonce kern_ids tx ks txs found_ids
  end.

Fixpoint retrieve_entries {SH : SipHasher} (h : bytes) (nonce : Z) (kern_ids : list ShortId)
    (es : list PoolEntry) (txs : list Transaction) (found_ids : list ShortId) : list Transaction * list ShortId :=
  match es with
  | [] => (txs, found_ids)
  | x :: es =>
    match retrieve_kernels h nonce kern_ids (entry_tx x) (kernels (body (entry_tx x))) txs found_ids with
    | (txs, found_ids, true) => (txs, found_ids)
    | (txs, found_ids, false) => retrieve_entries h nonce kern_ids es txs found_ids
    end
  end.

Definition retrieve_transactions {SH : SipHasher} p (h : bytes) (nonce : Z) (kern_ids : list ShortId)
    : list Transaction * list ShortId :=
  let '(txs, found_ids) := retrieve_entries h nonce kern_ids (entries p) [] [] in
  (vec_dedup tx_eqb txs, List.filter (fun id => negb (bool_decide (id ∈ found_ids))) kern_ids).

Definition all_transactions p : list Transaction := map entry_tx (entries p).

(** [tx.validate(weighting, verifier_cache)?] *)
Definition vm_validate (tx : Transaction) (weighting : Weighting) : VM unit := fun vc =>
  let '(r, vc) := tx_validate ct tx weighting vc in (map_err InvalidTx r, vc).

(** [transaction::aggregate(txs)?] *)
Definition vm_aggregate (txs : list Transaction) : VM Transaction := vlift (map_err InvalidTx (aggregate txs)).

Definition all_transactions_aggregate p : VM (option Transaction) :=
  let txs := all_transactions p in
  match txs with
  | [] => vret None
  | _ =>
    let@ tx := vm_aggregate txs in
    let@ _ := vm_validate tx NoLimit in
    vret (Some tx)
  end.

Definition header_hash h : bytes := @hash DG _ (write_header ct) h.

Definition apply_tx_to_block_sums (tx : Transaction) h : res PoolError BlockSums :=
  let overage := overage (body tx) in
  let? offset := ok_or (blind_add (total_kernel_offset h) (offset tx)) PKeychain in
  let? block_sums := get_block_sums bc (header_hash h) in
  let? '(utxo_sum, kernel_sum) := map_err PCommitted (verify_kernel_sums (block_sums, tx) overage offset) in
  Ok (mkBlockSums utxo_sum kernel_sum).

Definition apply_tx_to_block_token_sums (tx : Transaction) h : res PoolError unit :=
  let? block_token_sums := get_block_token_sums bc (header_hash h) in
  let? _ := map_err PCommitted (verify_token_kernel_sum (block_token_sums, tx)) in
  Ok tt.

Definition validate_raw_tx (tx : Transaction) h (weighting : Weighting) : VM BlockSums :=
  let@ _ := vm_validate tx weighting in
  let@ _ := vlift (validate_tx bc tx) in
  let@ _ := vlift (apply_tx_to_block_token_sums tx h) in
  let@ new_sums := vlift (apply_tx_to_block_sums tx h) in
  vret new_sums.

(** The transaction validated by [Pool::add_to_pool] *)
Definition candidate (txs : list Transaction) (tx : Transaction) : res TxError Transaction :=
  match txs with [] => Ok tx | _ => aggregate (txs ++ [tx]) end.

(** [Pool::add_to_pool]: the pool after the entry was pushed *)
Definition pool_add p (entry : PoolEntry) (extra_txs : list Transaction) h : VM Pool :=
  let txs := all_transactions p in
  if existsb (fun tx => tx_eqb tx (entry_tx entry)) txs then vlift (Err DuplicateTx)
  else
    let txs := txs ++ extra_txs in
    let@ agg_tx := vlift (map_err InvalidTx (candidate txs (entry_tx entry))) in
    let@ _ := validate_raw_tx agg_tx h NoLimit in
    vret (mkPool (entries p ++ [entry])).

(** The loop of [validate_raw_txs] *)
Fixpoint validate_raw_loop (txs : list Transaction) (extra_tx : option Transaction) h (weighting : Weighting)
    (valid_txs : list Transaction) : VM (list Transaction) :=
  match txs with
  | [] => vret valid_txs
  | tx :: txs =>
    let candidate_txs := option_list extra_tx ++ valid_txs ++ [tx] in
    let@ agg_tx := vm_aggregate candidate_txs in
    let@ r := vtry (validate_raw_tx agg_tx h weighting) in
    validate_raw_loop txs extra_tx h weighting
      (match r with Some _ => valid_txs ++ [tx] | None => valid_txs end)
  end.

Definition validate_raw_txs (txs : list Transaction) (extra_tx : option Transaction) h (weighting : Weighting)
    : VM (list Transaction) := validate_raw_loop txs extra_tx h weighting [].

(** The loop of [Pool::reconcile] *)
Fixpoint reconcile_loop (existing_entries : list PoolEntry) p (extra_txs : list Transaction) h : VM Pool :=
  match existing_entries with
  | [] => vret p
  | x :: existing_entries =>
    let@ r := vtry (pool_add p x extra_txs h) in
    reconcile_loop existing_entries (default p r) extra_txs h
  end.

(** [Pool::reconcile] *)
Definition reconcile p (extra_tx : option Transaction) h : VM Pool :=
  reconcile_loop (entries p) (mkPool []) (option_list extra_tx) h.

(** [Bucket::new], [Bucket::aggregate_with_tx] *)
Definition bucket_new (tx : Transaction) (age_idx : nat) : Bucket := mkBucket [tx] (fee_to_weight tx) age_idx.

Definition aggregate_with_tx (b : Bucket) (new_tx : Transaction) (weighting : Weighting) : VM Bucket :=
  let raw_txs := raw_txs b ++ [new_tx] in
  let@ agg_tx := vm_aggregate raw_txs in
  let@ _ := vm_validate agg_tx weighting in
  vret (mkBucket raw_txs (fee_to_weight agg_tx) (age_idx b)).

(** The state of the loop of [bucket_transactions] *)
Record Buckets := mkBuckets {
  tx_buckets : list Bucket; output_commits : gmap Commitment nat; rejected : gset Commitment }.

(** The loop over the inputs: the position of the parent's bucket and [is_rejected]. *)
Fixpoint find_parent (st : Buckets) (ins : list Input) (insert_pos : option nat) (is_rejected : bool)
    : option nat * bool :=
  match ins with
  | [] => (insert_pos, is_rejected)
  | i :: ins =>
    if bool_decide (input_commit i ∈ rejected st) then find_parent st ins insert_pos true
    else
      match output_commits st !! input_commit i with
      | Some pos =>
        match insert_pos with
        | Some _ => find_parent st ins insert_pos true
        | None => find_parent st ins (Some pos) is_rejected
        end
      | None => find_parent st ins insert_pos is_rejected
      end
  end.

(** The outputs of a rejected entry, and of one put into the bucket [pos] *)
Definition reject (st : Buckets) (tx : Transaction) : Buckets :=
  mkBuckets (tx_buckets st) (output_commits st)
    (list_to_set (map output_commit (outputs (body tx))) ∪ rejected st).
Definition index_outputs (st : Buckets) (bs : list Bucket) (tx : Transaction) (pos : nat) : Buckets :=
  mkBuckets bs (foldl (fun m c => <[c := pos]> m) (output_commits st) (map output_commit (outputs (body tx))))
    (rejected st).

(** One turn of the loop of [bucket_transactions] *)
Definition bucket_entry (weighting : Weighting) (st : Buckets) (tx : Transaction) : VM Buckets :=
  let bs := tx_buckets st in
  match find_parent st (inputs (body tx)) None false with
  | (_, true) => vret (reject st tx)
  | (None, false) => vret (index_outputs st (bs ++ [bucket_new tx (length bs)]) tx (length bs))
  | (Some pos, false) =>
    match bs !! pos with
    | None => vlift Panic
    | Some bucket =>
      let@ r := vtry (aggregate_with_tx bucket tx weighting) in
      match r with
      | Some new_bucket =>
        if bucket_fee_to_weight bucket <=? bucket_fee_to_weight new_bucket
        then vret (index_outputs st (<[pos := new_bucket]> bs) tx pos)
        else vret (index_outputs st (bs ++ [bucket_new tx (length bs)]) tx pos)
      | None => vret (reject st tx)
      end
    end
  end.

Fixpoint bucket_loop (weighting : Weighting) (txs : list Transaction) (st : Buckets) : VM Buckets :=
  match txs with
  | [] => vret st
  | tx :: txs => let@ st := bucket_entry weighting st tx in bucket_loop weighting txs st
  end.

(** [sort_unstable_by_key(|x| (Reverse(x.fee_to_weight), x.age_idx))] *)
Definition bucket_before (a b : Bucket) : bool :=
  (bucket_fee_to_weight b <? bucket_fee_to_weight a)
  || ((bucket_fee_to_weight a =? bucket_fee_to_weight b) && (age_idx a <=? age_idx b)%nat).
Fixpoint bucket_insert (b : Bucket) (l : list Bucket) : list Bucket :=
  match l with
  | [] => [b]
  | b' :: l' => if bucket_before b b' then b :: l else b' :: bucket_insert b l'
  end.
Definition sort_buckets (l : list Bucket) : list Bucket := foldr bucket_insert [] l.

Definition bucket_transactions p (weighting : Weighting) : VM (list Transaction) :=
  let@ st := bucket_loop weighting (all_transactions p) (mkBuckets [] ∅ ∅) in
  vret (concat (map raw_txs (sort_buckets (tx_buckets st)))).

(** [Pool::prepare_mineable_transactions] *)
Definition prepare_mineable p (max_weight : Z) : VM (list Transaction) :=
  let weighting := AsLimitedTransaction max_weight in
  let@ txs := bucket_transactions p weighting in
  let@ header := vlift (chain_head bc) in
  validate_raw_txs txs None header weighting.

Definition find_matching_transactions p (ks : list TxKernel) : list Transaction :=
  List.filter (fun tx => forallb (fun k => existsb (eqb k) ks) (kernels (body tx))) (all_transactions p).

(** [Pool::reconcile_block]: what conflicts with the block, in plain and in token parts *)
Definition conflicts (b : TransactionBody) (tx : Transaction) : bool :=
  existsb (fun y => existsb (eqb y) (kernels b)) (kernels (body tx))
  || existsb (fun y => existsb (eqb y) (inputs b)) (inputs (body tx)).
Definition token_conflicts (b : TransactionBody) (tx : Transaction) : bool :=
  existsb (fun y => existsb (eqb y) (token_kernels b)) (token_kernels (body tx))
  || existsb (fun y => existsb (eqb y) (token_inputs b)) (token_inputs (body tx)).
Definition pool_reconcile_block p (b : Block) : Pool :=
  let retained := List.filter (fun x => negb (conflicts (block_body b) (entry_tx x))) (entries p) in
  mkPool (List.filter (fun x => negb (token_conflicts (block_body b) (entry_tx x))) retained).

Definition pool_size p : Z := len (entries p).
Definition kernel_count p : Z := foldl Z.add 0 (map (fun x => len (kernels (body (entry_tx x)))) (entries p)).
Definition pool_is_empty p : bool := match entries p with [] => true | _ => false end.
End Pool.

Lemma sublist_Forall {A} (P : A -> Prop) l k : l `sublist_of` k -> Forall P k -> Forall P l.
Proof. induction 1 as [|x l k Hs IH|x l k Hs IH]; [done|..]; rewrite !Forall_cons; tauto. Qed.

(** ** Triples

    [triple P c Q X]: from a state in [P], [c] returns a value and a state in [Q],
    or fails in a state of [X]. *)

Section Triple.
  Context {V E : Type}.

Definition triple {A} (P : V -> Prop) (c : vm V E A) (Q : A -> V -> Prop) (X : V -> Prop) : Prop :=
  forall v, P v -> match c v with (Ok a, v') => Q a v' | (_, v') => X v' end.

Lemma triple_ret {A} (P : V -> Prop) (a : A) (Q : A -> V -> Prop) X :
  (forall v, P v -> Q a v) -> triple P (vret a) Q X.
Proof. intros H v Hv. apply H, Hv. Qed.

Lemma triple_lift {A} (P : V -> Prop) (c : res E A) (Q : A -> V -> Prop) (X : V -> Prop) :
  (forall v a, P v -> c = Ok a -> Q a v) -> (forall v, P v -> X v) -> triple P (vlift c) Q X.
Proof. intros H HX v Hv. unfold vlift. destruct c; [apply H; done|apply HX, Hv|apply HX, Hv]. Qed.

Lemma triple_bind {A B} P (c : vm V E A) (k : A -> vm V E B) R Q X :
  triple P c R X -> (forall a, triple (R a) (k a) Q X) -> triple P (vbind c k) Q X.
Proof.
  intros Hc Hk v Hv. specialize (Hc v Hv). unfold vbind. destruct (c v) as [[a|e|] v']; [|done|done].
  apply Hk, Hc.
Qed.

Lemma triple_try {A} P (c : vm V E A) (Q : A -> V -> Prop) (X : V -> Prop) :
  triple P c Q X -> triple P (vtry c) (fun r v => match r with Some a => Q a v | None => X v end) X.
Proof. intros Hc v Hv. specialize (Hc v Hv). unfold vtry. destruct (c v) as [[a|e|] v']; done. Qed.

Lemma triple_conseq {A} (P P' : V -> Prop) (c : vm V E A) (Q Q' : A -> V -> Prop) (X X' : V -> Prop) :
  triple P c Q X -> (forall v, P' v -> P v) -> (forall a v, Q a v -> Q' a v) -> (forall v, X v -> X' v) ->
  triple P' c Q' X'.
Proof. intros Hc HP HQ HX v Hv. specialize (Hc v (HP v Hv)). destruct (c v) as [[a|e|] v']; auto. Qed.
End Triple.

(** ** What a validated transaction satisfies *)

Section Valid.
  Context {DG : Digest} `{SVL : SecpVerifyLaws} {SS : SecpSizes} {SP : Secp} {L : Type} `{!LruCache L}.
  Context (ct : ChainTypes).
  Implicit Types (vc : LruVerifierCache L) (tx : Transaction).

(** The checks of [Transaction::validate], with signatures and range proofs seen by
    a verifier. *)
Record tx_checked weighting tx : Prop := {
  tc_read : validate_read ct (body tx) weighting = Ok tt;
  tc_issue : validate_issue_token_output (body tx) = Ok tt;
  tc_kernels : Forall (fun k => kernel_seen (hash k)) (kernels (body tx));
  tc_token_kernels : Forall (fun k => kernel_seen (hash k)) (token_kernels (body tx));
  tc_outputs : Forall (fun o => proof_seen (hash (output_proof o))) (outputs (body tx));
  tc_token_outputs : Forall (fun o => proof_seen (hash (token_output_proof o))) (token_outputs (body tx));
  tc_features : verify_features (body tx) = Ok tt;
  tc_sums : is_ok (verify_kernel_sums tx (overage (body tx)) (offset tx)) = true;
  tc_token_sums : is_ok (verify_token_kernel_sum tx) = true
}.

(** ... and can be applied to the chain [bc] at the header [h]. *)
Record applicable (bc : BlockChain) (h : BlockHeader) weighting tx : Prop := {
  ap_checked : tx_checked weighting tx;
  ap_utxo : validate_tx bc tx = Ok tt;
  ap_token_sums : apply_tx_to_block_token_sums ct bc tx h = Ok tt;
  ap_sums : is_ok (apply_tx_to_block_sums ct bc tx h) = true
}.

Lemma body_validate_sound b weighting vc r vc' :
  cache_sound vc -> body_validate ct b weighting vc = (r, vc') -> cache_sound vc'.
Proof.
  intros Hs H. destruct r as [[]|e|]; [eapply validate_sound; done|..];
    unfold body_validate in H; destruct (validate_checks ct b weighting vc); congruence.
Qed.

Lemma vm_validate_triple tx weighting :
  triple cache_sound (vm_validate ct tx weighting)
    (fun _ vc => cache_sound vc /\ tx_checked weighting tx) cache_sound.
Proof.
  intros vc Hs. unfold vm_validate, tx_validate.
  destruct (body_validate ct (body tx) weighting vc) as [r vc'] eqn:Eb.
  pose proof (body_validate_sound _ _ _ _ _ Hs Eb) as Hs'.
  destruct r as [[]|e|]; cbn [res_bind map_err]; [|done|done].
  destruct (validate_sound _ _ _ _ _ Hs Eb) as (_ & Sk & Stk & So & Sto).
  apply validate_checked in Eb as [[C1 C2 _ _ _ _] _].
  destruct (verify_features (body tx)) as [[]|e|] eqn:Ef; cbn [res_bind map_err]; [|done|done].
  destruct (verify_kernel_sums tx _ _) as [s|e|] eqn:Es; cbn [res_bind map_err]; [|done|done].
  destruct (verify_token_kernel_sum tx) as [s'|e|] eqn:Et; cbn [res_bind map_err]; [|done|done].
  split; [done|]. constructor; try done; try (apply List.Forall_forall; assumption);
    [rewrite Es|rewrite Et]; done.
Qed.

Lemma validate_raw_tx_triple bc tx h weighting :
  triple cache_sound (validate_raw_tx ct bc tx h weighting)
    (fun _ vc => cache_sound vc /\ applicable bc h weighting tx) cache_sound.
Proof.
  unfold validate_raw_tx. eapply triple_bind; [apply vm_validate_triple|intros []].
  eapply triple_bind; [apply triple_lift with
    (Q := fun _ vc => (cache_sound vc /\ tx_checked weighting tx) /\ validate_tx bc tx = Ok tt); [|tauto]|].
  { intros vc [] H1 H2. done. }
  intros []. eapply triple_bind; [apply triple_lift with
    (Q := fun _ vc => ((cache_sound vc /\ tx_checked weighting tx) /\ validate_tx bc tx = Ok tt) /\
       apply_tx_to_block_token_sums ct bc tx h = Ok tt); [|tauto]|].
  { intros vc [] H1 H2. done. }
  intros []. eapply triple_bind; [apply triple_lift with
    (Q := fun s vc => (((cache_sound vc /\ tx_checked weighting tx) /\ validate_tx bc tx = Ok tt) /\
       apply_tx_to_block_token_sums ct bc tx h = Ok tt) /\ apply_tx_to_block_sums ct bc tx h = Ok s); [|tauto]|].
  { intros vc s H1 H2. done. }
  intros s. apply triple_ret. intros vc [[[[Hs Hc] Hu] Ht] Hk]. split; [done|].
  constructor; [done|done|done|rewrite Hk; done].
Qed.

(** ** Admission *)

(** Every entry was new when it came, and applicable together with the entries
    before it and the [extra] transactions. *)
Inductive admitted (bc : BlockChain) (h : BlockHeader) (extra : list Transaction) : list PoolEntry -> Prop :=
| admitted_nil : admitted bc h extra []
| admitted_snoc es x agg :
    admitted bc h extra es ->
    existsb (fun tx => tx_eqb tx (entry_tx x)) (map entry_tx es) = false ->
    candidate (map entry_tx es ++ extra) (entry_tx x) = Ok agg ->
    applicable bc h NoLimit agg ->
    admitted bc h extra (es ++ [x]).

(** Pairwise distinct as transactions *)
Definition distinct (es : list PoolEntry) : Prop :=
  forall i j x y, (i < j)%nat -> es !! i = Some x -> es !! j = Some y -> tx_eqb (entry_tx x) (entry_tx y) = false.

Lemma pool_add_triple bc p x extra h :
  triple cache_sound (pool_add ct bc p x extra h)
    (fun p' vc => cache_sound vc /\ entries p' = entries p ++ [x] /\
       existsb (fun tx => tx_eqb tx (entry_tx x)) (map entry_tx (entries p)) = false /\
       exists agg, candidate (map entry_tx (entries p) ++ extra) (entry_tx x) = Ok agg /\ applicable bc h NoLimit agg)
    cache_sound.
Proof.
  unfold pool_add, all_transactions. destruct (existsb _ _) eqn:Ed; [apply triple_lift; done|].
  eapply triple_bind; [apply triple_lift with (Q := fun a vc => cache_sound vc /\
    candidate (map entry_tx (entries p) ++ extra) (entry_tx x) = Ok a); [|done]|].
  { intros vc a Hs H. destruct (candidate _ _); cbn [map_err] in H; [|done|done]. injection H as <-. done. }
  intros a vc [Hs Ha]. revert vc Hs. eapply triple_bind; [apply validate_raw_tx_triple|].
  intros s. apply triple_ret. intros vc [Hs Hv]. split; [done|]. split; [done|]. split; [done|]. exists a. done.
Qed.

Lemma reconcile_loop_triple bc extra h es : forall p,
  admitted bc h extra (entries p) ->
  triple cache_sound (reconcile_loop ct bc es p extra h)
    (fun p' vc => cache_sound vc /\ admitted bc h extra (entries p') /\
       exists kept, entries p' = entries p ++ kept /\ kept `sublist_of` es) cache_sound.
Proof.
  induction es as [|x es IH]; intros p Hp; cbn [reconcile_loop].
  { apply triple_ret. intros vc Hs. split; [done|]. split; [done|]. exists []. rewrite app_nil_r. done. }
  eapply triple_bind; [apply triple_try, pool_add_triple|]. intros [p'|] vc; cbn [from_option id].
  - intros (Hs & E & Hd & agg & Ha & Hv). revert vc Hs. eapply triple_conseq; [apply (IH p')|done| |done].
    { rewrite E. econstructor; done. }
    intros q vc (Hs & Hq & kept & Ek & Hk). split; [done|]. split; [done|]. exists (x :: kept).
    rewrite Ek, E, <- app_assoc. split; [done|]. apply sublist_skip, Hk.
  - intros Hs. revert vc Hs. eapply triple_conseq; [apply IH, Hp|done| |done].
    intros q vc (Hs & Hq & kept & Ek & Hk). split; [done|]. split; [done|]. exists kept. split; [done|].
    apply sublist_cons, Hk.
Qed.

Lemma reconcile_triple bc p extra h :
  triple cache_sound (reconcile ct bc p extra h)
    (fun p' vc => cache_sound vc /\ admitted bc h (option_list extra) (entries p') /\
       entries p' `sublist_of` entries p) cache_sound.
Proof.
  eapply triple_conseq; [apply reconcile_loop_triple; constructor|done| |done].
  intros q vc (Hs & Hq & kept & Ek & Hk). rewrite Ek. cbn in *. rewrite Ek in Hq. done.
Qed.

Lemma tx_eqb_refl tx : tx_eqb tx tx = true.
Proof.
  assert (Hv : forall A (W : Writeable A) (l : list A), vec_eqb eqb l l = true).
  { intros A W l. induction l as [|a l IH]; cbn [vec_eqb]; [done|]. unfold eqb. rewrite bool_decide_eq_true_2 by done. done. }
  unfold tx_eqb, body_eqb. rewrite !Hv, bool_decide_eq_true_2; done.
Qed.

Lemma vec_eqb_trans {A} `{!Writeable A} (l1 l2 l3 : list A) :
  vec_eqb eqb l1 l2 = true -> vec_eqb eqb l2 l3 = true -> vec_eqb eqb l1 l3 = true.
Proof.
  revert l2 l3. induction l1 as [|a l1 IH]; intros [|b l2] [|c l3]; cbn [vec_eqb]; try done.
  rewrite !andb_true_iff. unfold eqb. rewrite !bool_decide_eq_true. intros [E1 H1] [E2 H2]. split; [congruence|eauto].
Qed.

Lemma vec_eqb_sym {A} `{!Writeable A} (l1 l2 : list A) : vec_eqb eqb l1 l2 = vec_eqb eqb l2 l1.
Proof.
  revert l2. induction l1 as [|a l1 IH]; intros [|b l2]; cbn [vec_eqb]; try done. rewrite IH. f_equal. unfold eqb.
  apply bool_decide_ext. split; congruence.
Qed.

Lemma tx_eqb_sym tx tx' : tx_eqb tx tx' = tx_eqb tx' tx.
Proof.
  unfold tx_eqb, body_eqb. rewrite !(vec_eqb_sym _ (_ (body tx'))). f_equal. apply bool_decide_ext. split; congruence.
Qed.

Lemma tx_eqb_trans a b c : tx_eqb a b = true -> tx_eqb b c = true -> tx_eqb a c = true.
Proof.
  unfold tx_eqb, body_eqb. rewrite !andb_true_iff, !bool_decide_eq_true. intros [H1 E1] [H2 E2].
  split; [|congruence]. destruct H1 as [[[[[A1 A2] A3] A4] A5] A6], H2 as [[[[[B1 B2] B3] B4] B5] B6].
  repeat split; eapply vec_eqb_trans; done.
Qed.

Lemma distinct_nil : distinct [].
Proof. intros i j x y _ H. done. Qed.

Lemma distinct_snoc es x :
  distinct es -> existsb (fun tx => tx_eqb tx (entry_tx x)) (map entry_tx es) = false -> distinct (es ++ [x]).
Proof.
  intros Hd Hx i j a b Hij Ha Hb. destruct (decide (j < length es)%nat) as [Hj|Hj].
  { rewrite lookup_app_l in Ha, Hb by lia. exact (Hd i j a b Hij Ha Hb). }
  apply lookup_lt_Some in Hb as Hl. rewrite length_app in Hl. cbn [length] in Hl. assert (j = length es) as -> by lia.
  rewrite list_lookup_middle in Hb by done. injection Hb as <-. rewrite lookup_app_l in Ha by lia.
  destruct (tx_eqb (entry_tx a) (entry_tx x)) eqn:E; [|done]. rewrite <- Hx. symmetry. apply existsb_exists.
  exists (entry_tx a). split; [|done]. apply in_map, list_elem_of_In, list_elem_of_lookup. eauto.
Qed.

Lemma admitted_distinct bc h extra es : admitted bc h extra es -> distinct es.
Proof. induction 1; [apply distinct_nil|apply distinct_snoc; done]. Qed.

Lemma distinct_cons x es :
  distinct (x :: es) <-> Forall (fun y => tx_eqb (entry_tx x) (entry_tx y) = false) es /\ distinct es.
Proof.
  split.
  - intros H. split.
    + apply Forall_lookup. intros j y Hj. apply (H 0%nat (S j) x y); [lia|done|done].
    + intros i j a b Hij Ha Hb. apply (H (S i) (S j)); [lia|done|done].
  - intros [Hf Hd] [|i] [|j] a b Hij Ha Hb; try lia.
    + injection Ha as <-. rewrite Forall_lookup in Hf. eapply Hf, Hb.
    + eapply (Hd i j); [lia|done|done].
Qed.

Lemma distinct_sublist es es' : es `sublist_of` es' -> distinct es' -> distinct es.
Proof.
  induction 1 as [|x l k Hs IH|x l k Hs IH]; [done|..]; rewrite ?distinct_cons; [|tauto].
  intros [Hf Hd]. split; [|auto]. eapply sublist_Forall; done.
Qed.

(** ** Buckets *)

(** The buckets hold, in some order, a part of the transactions seen so far; a
    bucket's age is its index; the index of outputs points at buckets. *)
Record buckets_of (txs : list Transaction) (st : Buckets) : Prop := {
  bo_txs : exists kept, kept `sublist_of` txs /\ concat (map raw_txs (tx_buckets st)) ≡ₚ kept;
  bo_raw : Forall (fun b => raw_txs b <> []) (tx_buckets st);
  bo_age i b : tx_buckets st !! i = Some b -> age_idx b = i;
  bo_index c i : output_commits st !! c = Some i -> (i < length (tx_buckets st))%nat;
  bo_some : tx_buckets st = [] -> txs = [] /\ rejected st = ∅
}.

Lemma find_parent_index st ins : forall pos rej r,
  find_parent st ins pos rej = r ->
  (forall c i, output_commits st !! c = Some i -> (i < length (tx_buckets st))%nat) ->
  (forall i, pos = Some i -> (i < length (tx_buckets st))%nat) ->
  forall i, r.1 = Some i -> (i < length (tx_buckets st))%nat.
Proof.
  induction ins as [|x ins IH]; intros pos rej r H Hi Hp i Hr; cbn [find_parent] in H; [subst; auto|].
  destruct (bool_decide _); [eapply IH; done|]. destruct (output_commits st !! _) as [q|] eqn:Eq; [|eapply IH; done].
  destruct pos; [eapply IH; done|]. eapply IH; [done|done| |done]. intros k [= <-]. eapply Hi, Eq.
Qed.

Lemma index_outputs_lookup cs pos : forall (m : gmap Commitment nat) c i,
  foldl (fun m c => <[c := pos]> m) m cs !! c = Some i -> i = pos \/ m !! c = Some i.
Proof.
  induction cs as [|c' cs IH]; intros m c i H; [right; done|]. cbn [foldl] in H. apply IH in H as [H|H]; [left; done|].
  rewrite lookup_insert_Some in H. naive_solver.
Qed.

Lemma buckets_push txs st tx pos :
  buckets_of txs st -> (pos <= length (tx_buckets st))%nat ->
  buckets_of (txs ++ [tx])
    (index_outputs st (tx_buckets st ++ [bucket_new tx (length (tx_buckets st))]) tx pos).
Proof.
  intros [[kept [Hk Hp]] Hraw Ha Hi _] Hpos. constructor; cbn [index_outputs tx_buckets output_commits rejected].
  - exists (kept ++ [tx]). split; [apply sublist_app; done|]. rewrite map_app, concat_app. cbn. rewrite Hp. done.
  - apply Forall_app. split; [done|]. repeat constructor. done.
  - intros i b H. apply lookup_app_Some in H as [H|[Hl H]]; [apply Ha, H|].
    apply list_lookup_singleton_Some in H as [Hz <-]. cbn. lia.
  - intros c i H. rewrite length_app. cbn [length]. apply index_outputs_lookup in H as [->|H]; [lia|].
    apply Hi in H. lia.
  - intros H. destruct (tx_buckets st); done.
Qed.

Lemma buckets_join txs st tx pos b b' :
  buckets_of txs st -> tx_buckets st !! pos = Some b ->
  raw_txs b' = raw_txs b ++ [tx] -> age_idx b' = age_idx b ->
  buckets_of (txs ++ [tx]) (index_outputs st (<[pos := b']> (tx_buckets st)) tx pos).
Proof.
  intros [[kept [Hk Hp]] Hraw Ha Hi _] Hb Hr Hage. pose proof (lookup_lt_Some _ _ _ Hb) as Hl.
  constructor; cbn [index_outputs tx_buckets output_commits rejected].
  - exists (kept ++ [tx]). split; [apply sublist_app; done|]. rewrite <- Hp.
    rewrite <- (take_drop_middle (tx_buckets st) pos b Hb) at 2. rewrite insert_take_drop by lia.
    rewrite !map_app, !concat_app. cbn [map concat]. rewrite Hr, <- !app_assoc. apply Permutation_app_head, Permutation_app_head.
    apply Permutation_app_comm.
  - apply Forall_insert; [done|]. rewrite Hr. destruct (raw_txs b); done.
  - intros i c H. apply list_lookup_insert_Some in H as [(-> & <- & _)|[Hne H]]; [rewrite Hage|]; apply Ha; done.
  - intros c i H. rewrite length_insert. apply index_outputs_lookup in H as [->|H]; [done|apply Hi in H; done].
  - intros H. apply (f_equal length) in H. rewrite length_insert in H. cbn in H. lia.
Qed.

Lemma buckets_reject txs st tx : buckets_of txs st -> tx_buckets st <> [] -> buckets_of (txs ++ [tx]) (reject st tx).
Proof.
  intros [[kept [Hk Hp]] Hraw Ha Hi _] Hn. constructor; cbn [reject tx_buckets output_commits]; [|done|done|done|done].
  exists kept. split; [|done]. apply sublist_inserts_r, Hk.
Qed.

Lemma find_parent_empty st ins :
  tx_buckets st = [] -> rejected st = ∅ ->
  (forall c i, output_commits st !! c = Some i -> (i < length (tx_buckets st))%nat) ->
  find_parent st ins None false = (None, false).
Proof.
  intros Hb Hr Hi. induction ins as [|x ins IH]; cbn [find_parent]; [done|].
  rewrite bool_decide_eq_false_2 by (rewrite Hr; set_solver).
  destruct (output_commits st !! _) as [q|] eqn:E; [|done]. apply Hi in E. rewrite Hb in E. cbn in E. lia.
Qed.

Lemma aggregate_with_tx_triple b tx weighting :
  triple cache_sound (aggregate_with_tx ct b tx weighting)
    (fun b' vc => cache_sound vc /\ raw_txs b' = raw_txs b ++ [tx] /\ age_idx b' = age_idx b /\
       exists agg, aggregate (raw_txs b') = Ok agg /\ bucket_fee_to_weight b' = fee_to_weight agg /\ tx_checked weighting agg)
    cache_sound.
Proof.
  unfold aggregate_with_tx. eapply triple_bind; [apply triple_lift with (Q := fun a vc => cache_sound vc /\
    aggregate (raw_txs b ++ [tx]) = Ok a); [|done]|].
  { intros vc a Hs H. destruct (aggregate _); cbn [map_err] in H; [|done|done]. injection H as <-. done. }
  intros a vc [Hs Ha]. revert vc Hs. eapply triple_bind; [apply vm_validate_triple|].
  intros []. apply triple_ret. intros vc [Hs Hv]. cbn. eauto 10.
Qed.

(** A turn keeps the invariant; an entry with a bucket for a parent never meets an
    index out of range. *)
Lemma bucket_entry_triple weighting txs st tx :
  buckets_of txs st ->
  triple cache_sound (bucket_entry ct weighting st tx)
    (fun st' vc => cache_sound vc /\ buckets_of (txs ++ [tx]) st') cache_sound.
Proof.
  intros Hst. destruct (find_parent st (inputs (body tx)) None false) as [pos rej] eqn:Ef.
  pose proof (find_parent_index _ _ _ _ _ Ef (bo_index _ _ Hst) ltac:(done)) as Hpos. cbn [fst] in Hpos.
  unfold bucket_entry. rewrite Ef. destruct pos as [pos|]; [destruct rej|destruct rej].
  2: { destruct (lookup_lt_is_Some_2 _ _ (Hpos pos eq_refl)) as [b Eb]. rewrite Eb.
       eapply triple_bind; [apply triple_try, aggregate_with_tx_triple|]. intros [b'|] vc.
       - intros (Hs & Hr & Ha & _). revert vc Hs.
         destruct (_ <=? _); apply triple_ret; intros vc Hs; (split; [done|]);
           [eapply buckets_join; done|apply buckets_push; [done|specialize (Hpos _ eq_refl); lia]].
       - intros Hs. revert vc Hs. apply triple_ret. intros vc Hs. split; [done|]. apply buckets_reject; [done|].
         intros Hn. rewrite Hn in Eb. done. }
  3: { apply triple_ret. intros vc Hs. split; [done|]. apply buckets_push; [done|lia]. }
  all: apply triple_ret; intros vc Hs; (split; [done|]); apply buckets_reject; [done|]; intros Hn;
    destruct (bo_some _ _ Hst Hn) as [_ Hr]; rewrite (find_parent_empty st _ Hn Hr (bo_index _ _ Hst)) in Ef; done.
Qed.

Lemma bucket_loop_triple weighting rest : forall txs st,
  buckets_of txs st ->
  triple cache_sound (bucket_loop ct weighting rest st)
    (fun st' vc => cache_sound vc /\ buckets_of (txs ++ rest) st') cache_sound.
Proof.
  induction rest as [|tx rest IH]; intros txs st Hst; cbn [bucket_loop].
  { apply triple_ret. intros vc Hs. rewrite app_nil_r. done. }
  eapply triple_bind; [apply bucket_entry_triple, Hst|]. intros st' vc [Hs Hst'].
  specialize (IH _ _ Hst' vc Hs). rewrite <- app_assoc in IH. exact IH.
Qed.

Lemma concat_perm {A} (l l' : list (list A)) : l ≡ₚ l' -> concat l ≡ₚ concat l'.
Proof.
  induction 1 as [|x l l' _ IH|x y l|l l' l'' _ IH _ IH']; cbn; [done|rewrite IH; done| |etrans; done].
  rewrite !app_assoc. apply Permutation_app_tail, Permutation_app_comm.
Qed.

Lemma bucket_insert_perm b l : bucket_insert b l ≡ₚ b :: l.
Proof.
  induction l as [|b' l IH]; cbn [bucket_insert]; [done|]. destruct (bucket_before b b'); [done|].
  rewrite IH. apply Permutation_swap.
Qed.

Lemma sort_buckets_perm l : sort_buckets l ≡ₚ l.
Proof. induction l as [|b l IH]; [done|]. cbn [sort_buckets foldr]. rewrite bucket_insert_perm. f_equiv. exact IH. Qed.

Lemma buckets_start : buckets_of [] (mkBuckets [] ∅ ∅).
Proof. constructor; cbn; [exists []| |..]; done. Qed.

Lemma bucket_transactions_triple p weighting :
  triple cache_sound (bucket_transactions ct p weighting)
    (fun txs vc => cache_sound vc /\ (exists kept, kept `sublist_of` all_transactions p /\ txs ≡ₚ kept) /\
       (entries p <> [] -> txs <> [])) cache_sound.
Proof.
  unfold bucket_transactions. eapply triple_bind; [apply bucket_loop_triple, buckets_start|].
  intros st. apply triple_ret. intros vc [Hs [Ht Hraw _ _ Hn]]. split; [done|].
  assert (E : concat (map raw_txs (sort_buckets (tx_buckets st))) ≡ₚ concat (map raw_txs (tx_buckets st))).
  { apply concat_perm, Permutation_map, sort_buckets_perm. }
  split; [destruct Ht as [kept [H1 H2]]; exists kept; rewrite E; done|].
  intros Hp Hnil. rewrite Hnil in E. apply Permutation_nil_l in E. destruct (tx_buckets st) as [|b bs] eqn:Eb.
  - destruct (Hn eq_refl) as [Hz _]. cbn [app] in Hz. unfold all_transactions in Hz. destruct (entries p); done.
  - apply Forall_cons in Hraw as [Hb _]. cbn in E. destruct (raw_txs b); done.
Qed.

(** The order of the buckets: highest fee first, then oldest.  Ages are distinct, so
    the sort has one outcome. *)
Definition in_order (a b : Bucket) : Prop := bucket_before a b = true.

Lemma bucket_before_spec a b :
  in_order a b <-> bucket_fee_to_weight b < bucket_fee_to_weight a \/
    (bucket_fee_to_weight a = bucket_fee_to_weight b /\ (age_idx a <= age_idx b)%nat).
Proof.
  unfold in_order, bucket_before. rewrite orb_true_iff, andb_true_iff, Z.ltb_lt, Z.eqb_eq, Nat.leb_le. done.
Qed.

Lemma bucket_insert_sorted b l : StronglySorted in_order l -> StronglySorted in_order (bucket_insert b l).
Proof.
  induction 1 as [|b' l Hl IH Hb']; cbn [bucket_insert]; [repeat constructor|].
  destruct (bucket_before b b') eqn:E.
  - constructor; [constructor; done|]. apply Forall_cons. split; [done|]. eapply Forall_impl; [exact Hb'|].
    intros c Hc. fold (in_order b b') in E. rewrite bucket_before_spec in *. lia.
  - constructor; [done|]. rewrite bucket_insert_perm. apply Forall_cons. split; [|done].
    destruct (bucket_before b' b) eqn:E'; [done|]. exfalso.
    assert (~ in_order b b') as H1 by (unfold in_order; congruence).
    assert (~ in_order b' b) as H2 by (unfold in_order; congruence).
    rewrite bucket_before_spec in H1, H2. lia.
Qed.

Lemma sort_buckets_sorted l : StronglySorted in_order (sort_buckets l).
Proof. induction l as [|b l IH]; [constructor|]. apply bucket_insert_sorted, IH. Qed.

(** ** Mining *)

(** Every non-empty prefix of the chosen transactions is applicable as one. *)
Definition mineable bc h weighting (extra : option Transaction) (txs : list Transaction) : Prop :=
  forall n, (0 < n <= length txs)%nat ->
    exists agg, aggregate (option_list extra ++ take n txs) = Ok agg /\ applicable bc h weighting agg.

Lemma mineable_snoc bc h weighting extra txs tx agg :
  mineable bc h weighting extra txs -> aggregate (option_list extra ++ txs ++ [tx]) = Ok agg ->
  applicable bc h weighting agg -> mineable bc h weighting extra (txs ++ [tx]).
Proof.
  intros H Ha Hp n Hn. rewrite length_app in Hn. cbn [length] in Hn.
  destruct (decide (n <= length txs)%nat).
  - rewrite take_app_le by lia. apply H. lia.
  - exists agg. rewrite take_ge by (rewrite length_app; cbn; lia). done.
Qed.

Lemma validate_raw_loop_triple bc h weighting extra txs : forall valid,
  mineable bc h weighting extra valid ->
  triple cache_sound (validate_raw_loop ct bc txs extra h weighting valid)
    (fun r vc => cache_sound vc /\ mineable bc h weighting extra r /\
       exists kept, r = valid ++ kept /\ kept `sublist_of` txs) cache_sound.
Proof.
  induction txs as [|tx txs IH]; intros valid Hv; cbn [validate_raw_loop].
  { apply triple_ret. intros vc Hs. split; [done|]. split; [done|]. exists []. rewrite app_nil_r. done. }
  eapply triple_bind; [apply triple_lift with (Q := fun a vc => cache_sound vc /\
    aggregate (option_list extra ++ valid ++ [tx]) = Ok a); [|done]|].
  { intros vc a Hs H. destruct (aggregate _); cbn [map_err] in H; [|done|done]. injection H as <-. done. }
  intros a vc [Hs Ha]. revert vc Hs. eapply triple_bind; [apply triple_try, validate_raw_tx_triple|].
  intros [s|] vc.
  - intros [Hs Hp]. revert vc Hs. eapply triple_conseq; [apply IH; eapply mineable_snoc; done|done| |done].
    intros r vc (Hs & Hm & kept & -> & Hk). split; [done|]. split; [done|]. exists (tx :: kept).
    rewrite <- app_assoc. split; [done|]. apply sublist_skip, Hk.
  - intros Hs. revert vc Hs. eapply triple_conseq; [apply IH, Hv|done| |done].
    intros r vc (Hs & Hm & kept & -> & Hk). split; [done|]. split; [done|]. exists kept. split; [done|].
    apply sublist_cons, Hk.
Qed.

Lemma applicable_weight bc h max_weight tx :
  applicable bc h (AsLimitedTransaction max_weight) tx ->
  body_weight_as_block (body tx)
  <= saturating_sub (Z.min (max_block_weight ct) max_weight) (BLOCK_OUTPUT_WEIGHT + BLOCK_KERNEL_WEIGHT).
Proof.
  intros [[Hr _ _ _ _ _ _ _ _] _ _ _]. unfold validate_read in Hr. apply bind_ok_tt in Hr as [Hw _].
  unfold verify_weight in Hw. destruct (Z.ltb_spec (saturating_sub (Z.min (max_block_weight ct) max_weight)
    (BLOCK_OUTPUT_WEIGHT + BLOCK_KERNEL_WEIGHT)) (body_weight_as_block (body tx))); [done|lia].
Qed.
End Valid.

(** ** A concrete chain *)

#[local] Existing Instance demo_digest.
#[local] Existing Instance demo_sizes.
#[local] Existing Instance demo_secp.
#[local] Existing Instance demo_laws.
#[local] Existing Instance demo_verify.
#[local] Existing Instance demo_verify_laws.

(** A balanced transaction with a zero offset, over the points of its inputs and outputs. *)
Definition demo_spend (ins outs : list Z) (fee : Z) : Transaction :=
  mkTx blind_zero
    (mkBody (map (fun c => mkInput OPlain (small_commit c)) ins) []
       (map (fun c => mkOutput OPlain (small_commit c) (mkRangeProof [c] 1)) outs) []
       [mkTxKernel (KPlain fee) (small_commit ((foldr Z.add 0 outs + 3 * fee - foldr Z.add 0 ins) mod 101)) (mkSignature [])] []).

(** A chain whose unspent outputs are the points of [utxos]. *)
Definition demo_chain (utxos : list Z) : BlockChain :=
  mkBlockChain (fun _ => Ok tt) (fun _ => Ok tt)
    (fun tx => if forallb (fun i => bool_decide (input_commit i ∈ map small_commit utxos)) (inputs (body tx))
               then Ok tt else Err POther)
    (Ok header_default) (fun _ => Ok header_default)
    (fun _ => Ok (mkBlockSums (small_commit 50) (small_commit 50)))
    (fun _ => Ok default_block_token_sums).

(** [spend_b] spends the output of [spend_a] for a low fee, [spend_c] that of [spend_b] for a high one. *)
Definition spend_a : Transaction := demo_spend [1] [11] 10.
Definition spend_b : Transaction := demo_spend [11] [12] 1.
Definition spend_c : Transaction := demo_spend [12] [13] 30.
Definition demo_entry (tx : Transaction) : PoolEntry := mkEntry Broadcast 0 tx.
Definition chained_pool : Pool := mkPool (map demo_entry [spend_a; spend_b; spend_c]).
#[local] Abbreviation fresh := (verifier_new (L := list bytes)).

(** ** Theorems *)

(** What a miner is given can be mined.  [prepare_mineable_transactions] asks the
    chain for its head and returns transactions of the pool, each entry at most once;
    every non-empty prefix of them aggregates to one transaction that passes all
    checks of [Transaction::validate], spends only outputs the chain knows, keeps the
    running sums of the head balanced, and leaves room for the coinbase within the
    smaller of the consensus and the miner's block weight. *)
Theorem mineable_transactions_apply {DG : Digest} `{SVL : SecpVerifyLaws} {SS : SecpSizes} {SP : Secp}
    {L : Type} `{!LruCache L} ct bc p max_weight (vc vc' : LruVerifierCache L) txs :
  cache_sound vc -> prepare_mineable ct bc p max_weight vc = (Ok txs, vc') ->
  (exists kept ordered, kept `sublist_of` all_transactions p /\ ordered ≡ₚ kept /\ txs `sublist_of` ordered) /\
  exists head, chain_head bc = Ok head /\
    forall n, (0 < n <= length txs)%nat ->
      exists agg, aggregate (take n txs) = Ok agg /\
        applicable ct bc head (AsLimitedTransaction max_weight) agg /\
        body_weight_as_block (body agg)
        <= saturating_sub (Z.min (max_block_weight ct) max_weight) (BLOCK_OUTPUT_WEIGHT + BLOCK_KERNEL_WEIGHT).
Proof.
  intros Hs. enough (T : triple (cache_sound (L := L)) (prepare_mineable ct bc p max_weight) (fun txs _ =>
    (exists kept ordered, kept `sublist_of` all_transactions p /\ ordered ≡ₚ kept /\ txs `sublist_of` ordered) /\
    exists head, chain_head bc = Ok head /\ mineable ct bc head (AsLimitedTransaction max_weight) None txs)
    (fun _ => True)).
  { intros E. specialize (T vc Hs). rewrite E in T. destruct T as (H1 & head & Hh & Hm). split; [done|].
    exists head. split; [done|]. intros n Hn. destruct (Hm n Hn) as (agg & Ha & Hp). exists agg.
    split; [done|]. split; [done|]. eapply applicable_weight, Hp. }
  unfold prepare_mineable. eapply triple_bind.
  { eapply triple_conseq; [apply bucket_transactions_triple|done| |done]. intros a v H. exact H. }
  intros ordered v (Hv & (kept & Hk & Ho) & _). revert v Hv. eapply triple_bind.
  { apply triple_lift with (Q := fun head v => cache_sound v /\ chain_head bc = Ok head); done. }
  intros head v [Hv Hh]. revert v Hv. eapply triple_conseq; [apply validate_raw_loop_triple|done| |done].
  { intros n Hn. cbn in Hn. lia. }
  intros r v (_ & Hm & kept' & -> & Hk'). cbn [app]. split; [eauto|eauto].
Qed.

(** The order of the buckets can contradict the dependencies.  The pool below is
    valid: three transactions, each spending the output of the one before, all three
    fit a block together.  The second has a low fee and opens its own bucket, but its
    outputs are indexed under its parent's bucket, so the third is put there, ahead
    of the transaction it spends from: mining selects only the first two. *)
Theorem buckets_misplace_grandchildren :
  (inputs (body spend_c) = map (fun o => mkInput OPlain (output_commit o)) (outputs (body spend_b))) /\
  (bucket_transactions Mainnet chained_pool NoLimit fresh).1 = Ok [spend_a; spend_c; spend_b] /\
  (prepare_mineable Mainnet (demo_chain [1]) chained_pool 1000 fresh).1 = Ok [spend_a; spend_b] /\
  (validate_raw_txs Mainnet (demo_chain [1]) [spend_a; spend_b; spend_c] None header_default
     (AsLimitedTransaction 1000) fresh).1 = Ok [spend_a; spend_b; spend_c].
Proof. repeat split; vm_compute; reflexivity. Qed.

Lemma mineable_transactions_apply_witness :
  exists head, chain_head (demo_chain [1]) = Ok head /\
    exists agg, aggregate [spend_a; spend_b] = Ok agg /\ body_weight_as_block (body agg) <= 976.
Proof.
  destruct (prepare_mineable Mainnet (demo_chain [1]) chained_pool 1000 fresh) as [r vc'] eqn:E.
  pose proof (mineable_transactions_apply Mainnet (demo_chain [1]) chained_pool 1000 fresh vc'
    [spend_a; spend_b] verifier_new_sound) as H.
  destruct H as (_ & head & Hh & H); [rewrite E; f_equal; change r with (r, vc').1; rewrite <- E; vm_compute; reflexivity|].
  exists head. split; [exact Hh|]. destruct (H 2%nat) as (agg & Ha & _ & Hw); [cbn; lia|].
  exists agg. split; [exact Ha|]. exact Hw.
Defined.
