(* ===== verification/TransactionPool.v ===== *)
(** * The transaction pool and the stempool

    Models [pool/src/transaction_pool.rs]: the pool of public transactions, the
    Dandelion stempool on top of it and the cache kept for reorganisations.

    A method returns its outcome and the pool it leaves behind, also when it
    fails.  The chain may change between two calls, so it is an argument of each;
    so are the clock and the header the caller validates against.  The trait
    [PoolAdapter] is an interface with a state of its own. *)

From Stdlib Require Import ZArith Lia List Bool Permutation.
From stdpp Require Import base numbers list option gmap.
From S2P Require Import Prelude Bytes Consensus Ser PowTypes Transaction TxBody Committed Verifier Aggregate Block CompactBlock Pool.

(** The trait [PoolAdapter]: what the rest of the node does with accepted entries *)
Class PoolAdapter (W : Type) := {
  tx_accepted : PoolEntry -> W -> W;
  stem_tx_accepted : PoolEntry -> W -> res PoolError unit * W
}.

(** [NoopAdapter] *)
#[export] Instance noop_adapter : PoolAdapter unit := {
  tx_accepted _ w := w;
  stem_tx_accepted _ w := (Ok tt, w)
}.

Record TransactionPool (L W : Type) := mkTxPool {
  config : PoolConfig;
  txpool : Pool;
  stempool : Pool;
  reorg_cache : list PoolEntry;
  verifier_cache : LruVerifierCache L;
  adapter : W
}.
Arguments mkTxPool {L W}.
Arguments config {L W}.
Arguments txpool {L W}.
Arguments stempool {L W}.
Arguments reorg_cache {L W}.
Arguments verifier_cache {L W}.
Arguments adapter {L W}.

Section TransactionPool.
  Context {DG : Digest} {SS : SecpSizes} {SP : Secp} {SV : SecpVerify} {L : Type} `{!LruCache L}.
  Context {W : Type} `{!PoolAdapter W}.
  Context (ct : ChainTypes) (bc : BlockChain).
  #[local] Abbreviation TP := (TransactionPool L W).
  #[local] Abbreviation VM := (vm (LruVerifierCache L) PoolError).
  Implicit Types (t : TP) (h : BlockHeader) (entry : PoolEntry).

(** [TransactionPool::new] *)
Definition txpool_new (config : PoolConfig) (vc : LruVerifierCache L) (adapter : W) : TP :=
  mkTxPool config pool_new pool_new [] vc adapter.

(** Field updates *)
Definition set_txpool t p : TP := mkTxPool (config t) p (stempool t) (reorg_cache t) (verifier_cache t) (adapter t).
Definition set_stempool t p : TP := mkTxPool (config t) (txpool t) p (reorg_cache t) (verifier_cache t) (adapter t).
Definition set_reorg_cache t c : TP := mkTxPool (config t) (txpool t) (stempool t) c (verifier_cache t) (adapter t).
Definition set_adapter t w : TP := mkTxPool (config t) (txpool t) (stempool t) (reorg_cache t) (verifier_cache t) w.

(** A method is a state and error computation on the whole pool; [on_verifier] runs
    a computation on the shared verifier cache. *)
#[local] Abbreviation TM := (vm TP PoolError).
Definition on_verifier {A} (c : VM A) : TM A := fun t =>
  let '(r, vc) := c (verifier_cache t) in
  (r, mkTxPool (config t) (txpool t) (stempool t) (reorg_cache t) vc (adapter t)).
Definition get_pool : TM TP := fun t => (Ok t, t).
Definition modify (f : TP -> TP) : TM unit := fun t => (Ok tt, f t).

Definition total_size t : Z := pool_size (txpool t).

Definition add_to_stempool entry h : TM unit :=
  let@ t := get_pool in
  let@ p := on_verifier (pool_add ct bc (stempool t) entry (all_transactions (txpool t)) h) in
  modify (fun t => set_stempool t p).

Definition add_to_reorg_cache entry : TM unit :=
  modify (fun t =>
    let cache := reorg_cache t ++ [entry] in
    set_reorg_cache t (if max_pool_size (config t) <? len cache then tail cache else cache)).

(** [add_to_txpool]: deaggregate, add, reconcile the stempool *)
Definition deaggregate_entry entry : TM PoolEntry :=
  let@ t := get_pool in
  let ks := kernels (body (entry_tx entry)) in
  if 1 <? len ks then
    match find_matching_transactions (txpool t) ks with
    | [] => vret entry
    | txs =>
      let@ tx := vlift (map_err InvalidTx (deaggregate (entry_tx entry) txs)) in
      let@ _ := on_verifier (vm_validate ct tx AsTransaction) in
      vret (mkEntry Deaggregate (tx_at entry) tx)
    end
  else vret entry.

Definition reconcile_stempool h : TM unit :=
  let@ t := get_pool in
  let@ txpool_tx := on_verifier (all_transactions_aggregate ct (txpool t)) in
  let@ p := on_verifier (reconcile ct bc (stempool t) txpool_tx h) in
  modify (fun t => set_stempool t p).

Definition add_to_txpool entry h : TM unit :=
  let@ entry := deaggregate_entry entry in
  let@ t := get_pool in
  let@ p := on_verifier (pool_add ct bc (txpool t) entry [] h) in
  let@ _ := modify (fun t => set_txpool t p) in
  reconcile_stempool h.

(** [is_acceptable] *)
Definition is_acceptable t (tx : Transaction) (stem : bool) : res PoolError unit :=
  if max_pool_size (config t) <? total_size t then Err OverCapacity
  else if (stem && (max_stempool_size (config t) <? pool_size (stempool t)))
          || (max_pool_size (config t) <? total_size t) then Err OverCapacity
  else if 0 <? accept_fee_base (config t) then
    let threshold := (body_weight (body tx) * accept_fee_base (config t))%u64 in
    if fee (body tx) <? threshold then Err (LowFeeTransaction threshold) else Ok tt
  else Ok tt.

(** [evict_from_txpool] *)
Definition evict_from_txpool : TM unit :=
  let@ t := get_pool in
  let@ txs := on_verifier (bucket_transactions ct (txpool t) NoLimit) in
  match List.rev txs with
  | [] => vret tt
  | evictable :: _ =>
    modify (fun t => set_txpool t
      (mkPool (List.filter (fun x => negb (tx_eqb (entry_tx x) evictable)) (entries (txpool t)))))
  end.

(** The call of the adapter after a stem transaction was added *)
Definition notify_stem entry : TM unit := fun t =>
  let '(r, w) := stem_tx_accepted entry (adapter t) in (r, set_adapter t w).

(** [TransactionPool::add_to_pool]; [now] is the time of the clock. *)
Definition add_to_pool (source : TxSource) (tx : Transaction) (stem : bool) (now : Z) h : TM unit :=
  let@ t := get_pool in
  if negb stem && contains_tx (txpool t) (hash tx) then vlift (Err DuplicateTx)
  else
    let@ evict :=
      match is_acceptable t tx stem with
      | Err OverCapacity => if stem then vlift (Err OverCapacity) else vret true
      | Err e => vlift (Err e)
      | Ok _ => vret false
      | Panic => vlift Panic
      end in
    let@ _ := vlift (map_err InvalidTx (validate_token_height ct (body tx) (bh_height h))) in
    let@ _ := on_verifier (vm_validate ct tx AsTransaction) in
    let@ _ := vlift (verify_tx_lock_height bc tx) in
    let@ _ := vlift (verify_coinbase_maturity bc tx) in
    let entry := mkEntry source now tx in
    let@ stemmed :=
      if stem then vtry (let@ _ := add_to_stempool entry h in notify_stem entry) else vret None in
    let@ _ :=
      match stemmed with
      | Some _ => vret tt
      | None =>
        let@ _ := add_to_txpool entry h in
        let@ _ := add_to_reorg_cache entry in
        modify (fun t => set_adapter t (tx_accepted entry (adapter t)))
      end in
    if evict then evict_from_txpool else vret tt.

(** [truncate_reorg_cache] *)
Fixpoint drop_old (cutoff : Z) (cache : list PoolEntry) : list PoolEntry :=
  match cache with
  | x :: tl => if tx_at x <? cutoff then drop_old cutoff tl else cache
  | [] => []
  end.
Definition truncate_reorg_cache (cutoff : Z) : TM unit :=
  modify (fun t => set_reorg_cache t (drop_old cutoff (reorg_cache t))).

(** [reconcile_reorg_cache] *)
Fixpoint readd_loop (es : list PoolEntry) h : TM unit :=
  match es with
  | [] => vret tt
  | entry :: es =>
    let@ _ := vtry (add_to_txpool entry h) in
    readd_loop es h
  end.
Definition reconcile_reorg_cache h : TM unit :=
  let@ t := get_pool in readd_loop (reorg_cache t) h.

(** [TransactionPool::reconcile_block] *)
Definition reconcile_block (block : Block) : TM unit :=
  let@ _ := modify (fun t => set_txpool t (pool_reconcile_block (txpool t) block)) in
  let@ t := get_pool in
  let@ p := on_verifier (reconcile ct bc (txpool t) None (header block)) in
  let@ _ := modify (fun t => set_txpool t p) in
  let@ _ := modify (fun t => set_stempool t (pool_reconcile_block (stempool t) block)) in
  reconcile_stempool (header block).

(** [TransactionPool::prepare_mineable_transactions] *)
Definition prepare_mineable_transactions : TM (list Transaction) :=
  let@ t := get_pool in
  on_verifier (prepare_mineable ct bc (txpool t) (mineable_max_weight (config t))).
End TransactionPool.

(** ** Operations on the pool, as a step relation's labels *)

Inductive PoolOp :=
| OpAdd (bc : BlockChain) (source : TxSource) (tx : Transaction) (stem : bool) (now : Z) (h : BlockHeader)
| OpTruncate (cutoff : Z)
| OpReorg (bc : BlockChain) (h : BlockHeader)
| OpBlock (bc : BlockChain) (b : Block)
| OpMine (bc : BlockChain).

Section Steps.
  Context {DG : Digest} `{SVL : SecpVerifyLaws} {SS : SecpSizes} {SP : Secp} {L : Type} `{!LruCache L}.
  Context {W : Type} `{!PoolAdapter W}.
  Context (ct : ChainTypes).
  #[local] Abbreviation TP := (TransactionPool L W).
  #[local] Abbreviation TM := (vm TP PoolError).
  Implicit Types (t : TP).

(** The pool after an operation, whatever its outcome *)
Definition run_op (op : PoolOp) t : TP :=
  match op with
  | OpAdd bc source tx stem now h => (add_to_pool ct bc source tx stem now h t).2
  | OpTruncate cutoff => (truncate_reorg_cache cutoff t).2
  | OpReorg bc h => (reconcile_reorg_cache ct bc h t).2
  | OpBlock bc b => (reconcile_block ct bc b t).2
  | OpMine bc => (prepare_mineable_transactions ct bc t).2
  end.

(** The invariant: a sound verifier cache; pools without duplicates; every entry was
    validated as a transaction on its own; bounded stempool and reorg cache. *)
Record pool_ok (cfg : PoolConfig) t : Prop := {
  ok_config : config t = cfg;
  ok_cache : cache_sound (verifier_cache t);
  ok_distinct : distinct (entries (txpool t));
  ok_stem_distinct : distinct (entries (stempool t));
  ok_checked : Forall (fun x => tx_checked ct AsTransaction (entry_tx x)) (entries (txpool t));
  ok_stem_checked : Forall (fun x => tx_checked ct AsTransaction (entry_tx x)) (entries (stempool t));
  ok_reorg_checked : Forall (fun x => tx_checked ct AsTransaction (entry_tx x)) (reorg_cache t);
  ok_reorg_size : len (reorg_cache t) <= max_pool_size cfg;
  ok_stem_size : pool_size (stempool t) <= max_stempool_size cfg + 1
}.

(** The txpool applies to the chain at [h] as one transaction, and the stempool on
    top of it. *)
Definition pools_applicable bc h t : Prop :=
  match entries (txpool t) with
  | [] => admitted ct bc h [] (entries (stempool t))
  | _ => exists agg, aggregate (all_transactions (txpool t)) = Ok agg /\ applicable ct bc h NoLimit agg /\
      admitted ct bc h [agg] (entries (stempool t))
  end.

(** A computation on the verifier leaves the rest of the pool alone. *)
Definition with_verifier t vc : TP :=
  mkTxPool (config t) (txpool t) (stempool t) (reorg_cache t) vc (adapter t).

Lemma on_verifier_triple {A} (P : TP -> Prop) (c : vm (LruVerifierCache L) PoolError A) (Q : A -> Prop) :
  triple cache_sound c (fun a vc => cache_sound vc /\ Q a) cache_sound ->
  (forall t, P t -> cache_sound (verifier_cache t)) ->
  (forall t vc, P t -> cache_sound vc -> P (with_verifier t vc)) ->
  triple P (on_verifier c) (fun a t => P t /\ Q a) P.
Proof.
  intros Hc Hs Hp t Ht. specialize (Hc _ (Hs t Ht)). unfold on_verifier.
  destruct (c (verifier_cache t)) as [[a|e|] vc]; [destruct Hc as [Hv Hq]; split; [|done]|..]; apply (Hp t vc); done.
Qed.

Lemma get_triple (P : TP -> Prop) X : triple P get_pool (fun a t => P t /\ a = t) X.
Proof. intros t Ht. done. Qed.

Lemma modify_triple (P : TP -> Prop) f (Q : TP -> Prop) X :
  (forall t, P t -> Q (f t)) -> triple P (modify f) (fun _ => Q) X.
Proof. intros H t Ht. apply H, Ht. Qed.

Lemma with_verifier_ok cfg t vc : pool_ok cfg t -> cache_sound vc -> pool_ok cfg (with_verifier t vc).
Proof. intros [] Hv. constructor; done. Qed.

Lemma pool_ok_txpool cfg t es :
  pool_ok cfg t -> distinct es -> Forall (fun x => tx_checked ct AsTransaction (entry_tx x)) es ->
  pool_ok cfg (set_txpool t (mkPool es)).
Proof. intros [] Hd Hc. constructor; done. Qed.

Lemma pool_ok_stempool cfg t es :
  pool_ok cfg t -> distinct es -> Forall (fun x => tx_checked ct AsTransaction (entry_tx x)) es ->
  len es <= max_stempool_size cfg + 1 -> pool_ok cfg (set_stempool t (mkPool es)).
Proof. intros [] Hd Hc Hl. constructor; done. Qed.

Lemma pool_ok_reorg cfg t es :
  pool_ok cfg t -> Forall (fun x => tx_checked ct AsTransaction (entry_tx x)) es ->
  len es <= max_pool_size cfg -> pool_ok cfg (set_reorg_cache t es).
Proof. intros [] Hc Hl. constructor; done. Qed.

Lemma sublist_len {A} (l k : list A) : l `sublist_of` k -> len l <= len k.
Proof. intros H. apply sublist_length in H. unfold len. lia. Qed.

Lemma filter_sublist {A} (f : A -> bool) l : List.filter f l `sublist_of` l.
Proof. induction l as [|a l IH]; cbn [List.filter]; [done|]. destruct (f a); [apply sublist_skip|apply sublist_cons]; done. Qed.

Lemma drop_old_sublist cutoff es : drop_old cutoff es `sublist_of` es.
Proof.
  induction es as [|x es IH]; cbn [drop_old]; [done|]. destruct (_ <? _); [apply sublist_cons, IH|done].
Qed.

Lemma candidate_aggregate txs tx : candidate txs tx = aggregate (txs ++ [tx]).
Proof. destruct txs as [|a txs]; [done|]. unfold candidate. done. Qed.

(** The contents of the two pools and of the reorg cache, next to the invariant *)
Record holds cfg (es ss rc : list PoolEntry) t : Prop := {
  h_ok : pool_ok cfg t;
  h_txpool : entries (txpool t) = es;
  h_stempool : entries (stempool t) = ss;
  h_reorg : reorg_cache t = rc
}.

Lemma holds_self cfg t : pool_ok cfg t -> holds cfg (entries (txpool t)) (entries (stempool t)) (reorg_cache t) t.
Proof. done. Qed.

Lemma holds_verifier {A} cfg es ss rc (c : vm (LruVerifierCache L) PoolError A) (Q : A -> Prop) :
  triple cache_sound c (fun a vc => cache_sound vc /\ Q a) cache_sound ->
  triple (holds cfg es ss rc) (on_verifier c) (fun a t => holds cfg es ss rc t /\ Q a) (holds cfg es ss rc).
Proof.
  intros Hc. apply on_verifier_triple; [done|intros t [[] _ _ _]; done|].
  intros t vc [Hok H1 H2 H3] Hv. constructor; [apply with_verifier_ok; done|done|done|done].
Qed.

(** The aggregate of a pool's transactions, none for an empty pool *)
Definition aggregated (es : list PoolEntry) (o : option Transaction) : Prop :=
  match es with [] => o = None | _ => exists agg, o = Some agg /\ aggregate (map entry_tx es) = Ok agg end.

Lemma all_aggregate_triple p :
  triple cache_sound (all_transactions_aggregate (L := L) ct p)
    (fun o vc => cache_sound vc /\ aggregated (entries p) o) cache_sound.
Proof.
  unfold all_transactions_aggregate, all_transactions. destruct (entries p) as [|e es]; [apply triple_ret; done|].
  cbn [map]. eapply triple_bind; [apply triple_lift with (Q := fun a vc => cache_sound vc /\
    aggregate (map entry_tx (e :: es)) = Ok a); [|done]|].
  { intros vc a Hs H. cbn [map]. destruct (aggregate _); cbn [map_err] in H; [|done|done]. injection H as <-. done. }
  intros a vc [Hs Ha]. revert vc Hs. eapply triple_bind; [apply vm_validate_triple|].
  intros []. apply triple_ret. intros vc [Hs _]. split; [done|]. exists a. done.
Qed.

Lemma stem_sublist_ok cfg es ss rc t ss' :
  holds cfg es ss rc t -> ss' `sublist_of` ss -> holds cfg es ss' rc (set_stempool t (mkPool ss')).
Proof.
  intros [Hok <- <- <-] Hs. constructor; [|done|done|done]. apply pool_ok_stempool; [done|..].
  - eapply distinct_sublist; [done|apply (ok_stem_distinct _ _ Hok)].
  - eapply sublist_Forall; [done|apply (ok_stem_checked _ _ Hok)].
  - apply sublist_len in Hs. pose proof (ok_stem_size _ _ Hok) as H. unfold pool_size in H. lia.
Qed.

Lemma txpool_sublist_ok cfg es ss rc t es' :
  holds cfg es ss rc t -> es' `sublist_of` es -> holds cfg es' ss rc (set_txpool t (mkPool es')).
Proof.
  intros [Hok <- <- <-] Hs. constructor; [|done|done|done]. apply pool_ok_txpool; [done|..].
  - eapply distinct_sublist; [done|apply (ok_distinct _ _ Hok)].
  - eapply sublist_Forall; [done|apply (ok_checked _ _ Hok)].
Qed.

Lemma reconcile_stempool_triple cfg bc h es ss rc :
  triple (holds cfg es ss rc) (reconcile_stempool ct bc h)
    (fun _ t => exists ss' o, holds cfg es ss' rc t /\ ss' `sublist_of` ss /\ aggregated es o /\
       admitted ct bc h (option_list o) ss') (holds cfg es ss rc).
Proof.
  unfold reconcile_stempool. eapply triple_bind; [apply get_triple|]. intros t0 t [Ht ->].
  pose proof (h_txpool _ _ _ _ _ Ht) as E1. pose proof (h_stempool _ _ _ _ _ Ht) as E2.
  generalize dependent (txpool t). intros p E1. generalize dependent (stempool t). intros q E2.
  revert t Ht. eapply triple_bind; [apply holds_verifier, all_aggregate_triple|].
  intros o t [Ht Ho]. rewrite E1 in Ho. revert t Ht.
  eapply triple_bind; [eapply holds_verifier, reconcile_triple|].
  intros p' t (Ht & Hp' & Hs). revert t Ht. apply modify_triple. intros t Ht.
  rewrite E2 in Hs. exists (entries p'), o. split; [|done].
  destruct p' as [ss']. apply (stem_sublist_ok _ _ _ _ _ _ Ht Hs).
Qed.

Lemma deaggregate_entry_triple cfg es ss rc x :
  tx_checked ct AsTransaction (entry_tx x) ->
  triple (holds cfg es ss rc) (deaggregate_entry ct x)
    (fun x' t => holds cfg es ss rc t /\ tx_checked ct AsTransaction (entry_tx x')) (holds cfg es ss rc).
Proof.
  intros Hx. unfold deaggregate_entry. eapply triple_bind; [apply get_triple|]. intros t0 t [Ht ->]. revert Ht.
  generalize (find_matching_transactions (txpool t) (kernels (body (entry_tx x)))). intros l Ht. revert t Ht.
  destruct (_ <? _); [destruct l as [|tx l]|]; try (apply triple_ret; done).
  eapply triple_bind; [apply triple_lift with (Q := fun _ => holds cfg es ss rc); done|]. intros a.
  eapply triple_bind; [apply holds_verifier, vm_validate_triple|]. intros []. apply triple_ret. intros t [Ht Ha]. done.
Qed.

(** Adding to the txpool: on success the entry, deaggregated perhaps, is last, the
    pools are applicable; a failure leaves at most the entry behind. *)
Lemma add_to_txpool_triple cfg bc h es ss rc x :
  tx_checked ct AsTransaction (entry_tx x) ->
  triple (holds cfg es ss rc) (add_to_txpool ct bc x h)
    (fun _ t => exists x' ss', holds cfg (es ++ [x']) ss' rc t /\ pools_applicable bc h t)
    (fun t => exists es', holds cfg es' ss rc t /\ len es' <= len es + 1).
Proof.
  intros Hx. unfold add_to_txpool.
  assert (Hweak : forall t, holds cfg es ss rc t -> exists es', holds cfg es' ss rc t /\ len es' <= len es + 1).
  { intros t Ht. exists es. split; [done|lia]. }
  eapply triple_bind; [eapply triple_conseq; [apply deaggregate_entry_triple, Hx|done|intros x' t H; exact H|exact Hweak]|].
  intros x' t [Ht Hx']. revert t Ht. eapply triple_bind; [apply get_triple|]. intros t0 t [Ht ->].
  pose proof (h_txpool _ _ _ _ _ Ht) as E1. generalize dependent (txpool t). intros p E1. revert t Ht.
  eapply triple_bind; [eapply triple_conseq; [eapply holds_verifier, pool_add_triple|done|intros p' t H; exact H|exact Hweak]|].
  intros p' t (Ht & Ep & Hd & agg & Ha & Hap). rewrite E1 in Ep, Hd, Ha. rewrite app_nil_r, candidate_aggregate in Ha.
  revert t Ht. eapply triple_bind; [apply modify_triple with (Q := holds cfg (es ++ [x']) ss rc)|].
  { intros t [Hok <- <- <-]. destruct p' as [es']. cbn [entries] in Ep. subst es'. constructor; [|done|done|done].
    apply pool_ok_txpool; [done|apply distinct_snoc; [apply (ok_distinct _ _ Hok)|done]|].
    apply Forall_app. split; [apply (ok_checked _ _ Hok)|]. apply Forall_singleton. done. }
  intros []. eapply triple_conseq; [apply reconcile_stempool_triple|done| |].
  - intros [] t (ss' & o & Ht & _ & Ho & Hadm). exists x', ss'. split; [done|]. unfold pools_applicable, all_transactions.
    rewrite (h_txpool _ _ _ _ _ Ht), (h_stempool _ _ _ _ _ Ht).
    assert (exists agg', o = Some agg' /\ aggregate (map entry_tx (es ++ [x'])) = Ok agg') as (agg' & -> & Hg)
      by (destruct es; exact Ho). assert (agg' = agg) as -> by (rewrite map_app in Hg; cbn [map] in Hg; congruence).
    destruct (es ++ [x']) as [|e l] eqn:El; [destruct es; done|]. eauto.
  - intros t Ht. exists (es ++ [x']). split; [done|]. unfold len. rewrite length_app. cbn [length]. lia.
Qed.

Lemma add_to_stempool_triple cfg bc h es ss rc x :
  tx_checked ct AsTransaction (entry_tx x) -> len ss <= max_stempool_size cfg ->
  triple (holds cfg es ss rc) (add_to_stempool ct bc x h)
    (fun _ t => holds cfg es (ss ++ [x]) rc t /\
       exists agg, aggregate (map entry_tx ss ++ map entry_tx es ++ [entry_tx x]) = Ok agg /\ applicable ct bc h NoLimit agg)
    (holds cfg es ss rc).
Proof.
  intros Hx Hl. unfold add_to_stempool. eapply triple_bind; [apply get_triple|]. intros t0 t [Ht ->].
  pose proof (h_txpool _ _ _ _ _ Ht) as E1. pose proof (h_stempool _ _ _ _ _ Ht) as E2.
  generalize dependent (txpool t). intros p E1. generalize dependent (stempool t). intros q E2. revert t Ht.
  eapply triple_bind; [eapply holds_verifier, pool_add_triple|].
  intros p' t (Ht & Ep & Hd & agg & Ha & Hap). rewrite E2 in Ep, Hd, Ha. unfold all_transactions in Ha.
  rewrite E1, candidate_aggregate, <- app_assoc in Ha.
  revert t Ht. apply modify_triple. intros t [Hok <- <- <-]. split; [|eauto].
  destruct p' as [ss']. cbn [entries] in Ep. subst ss'. constructor; [|done|done|done].
  apply pool_ok_stempool; [done|apply distinct_snoc; [apply (ok_stem_distinct _ _ Hok)|done]|..].
  - apply Forall_app. split; [apply (ok_stem_checked _ _ Hok)|]. apply Forall_singleton. done.
  - unfold len in *. rewrite length_app. cbn [length]. lia.
Qed.

Lemma distinct_filter_one es x :
  distinct es -> x ∈ es ->
  length (List.filter (fun y => negb (tx_eqb (entry_tx y) (entry_tx x))) es) = (length es - 1)%nat.
Proof.
  induction es as [|y es IH]; intros Hd Hx; [set_solver|]. apply distinct_cons in Hd as [Hy Hd]. cbn [List.filter].
  destruct (tx_eqb (entry_tx y) (entry_tx x)) eqn:E; cbn [negb length].
  - assert (x = y \/ x ∈ es) as [->|Hin] by set_solver; [|exfalso; apply list_elem_of_lookup in Hin as [i Hi];
      rewrite Forall_lookup in Hy; rewrite (Hy _ _ Hi) in E; done].
    replace (S (length es) - 1)%nat with (length es) by lia. f_equal. clear IH Hd Hx E.
    induction Hy as [|z es Hz _ IH]; [done|]. cbn [List.filter]. rewrite tx_eqb_sym, Hz. cbn [negb]. f_equal. exact IH.
  - assert (x = y \/ x ∈ es) as [->|Hin] by set_solver; [rewrite tx_eqb_refl in E; done|].
    rewrite IH by done. destruct es; [set_solver|]. cbn [length]. lia.
Qed.

(** Eviction takes exactly one entry from a pool that has any. *)
Lemma evict_triple cfg es ss rc :
  triple (holds cfg es ss rc) (evict_from_txpool ct)
    (fun _ t => exists es', holds cfg es' ss rc t /\ es' `sublist_of` es /\ length es' = (length es - 1)%nat)
    (holds cfg es ss rc).
Proof.
  unfold evict_from_txpool. eapply triple_bind; [apply get_triple|]. intros t0 t [Ht ->].
  pose proof (h_txpool _ _ _ _ _ Ht) as E1. generalize dependent (txpool t). intros p E1. revert t Ht.
  eapply triple_bind; [eapply holds_verifier, bucket_transactions_triple|].
  intros txs t (Ht & (kept & Hk & Hp) & Hn). destruct (List.rev txs) as [|tx l] eqn:Er.
  - revert t Ht. apply triple_ret. intros t Ht. apply (f_equal (@List.rev _)) in Er. rewrite rev_involutive in Er. cbn in Er.
    rewrite E1 in Hn. destruct es; [exists []; done|exfalso; apply Hn; done].
  - assert (Hin : exists x, x ∈ es /\ entry_tx x = tx).
    { assert (tx ∈ all_transactions p) as H.
      { eapply elem_of_submseteq; [|apply sublist_submseteq, Hk]. rewrite <- Hp. apply list_elem_of_In, in_rev. rewrite Er. left. done. }
      unfold all_transactions in H. rewrite E1 in H. apply list_elem_of_In, in_map_iff in H as (x & Ex & Hx).
      exists x. split; [apply list_elem_of_In|]; done. }
    destruct Hin as (x & Hx & <-). revert t Ht. apply modify_triple. intros t Ht.
    exists (List.filter (fun y => negb (tx_eqb (entry_tx y) (entry_tx x))) es).
    rewrite (h_txpool _ _ _ _ _ Ht). split; [apply (txpool_sublist_ok _ _ _ _ _ _ Ht), filter_sublist|].
    split; [apply filter_sublist|]. apply distinct_filter_one; [|done].
    rewrite <- (h_txpool _ _ _ _ _ Ht). apply (ok_distinct _ _ (h_ok _ _ _ _ _ Ht)).
Qed.

Lemma add_to_reorg_cache_triple cfg es ss rc x :
  tx_checked ct AsTransaction (entry_tx x) ->
  triple (holds cfg es ss rc) (add_to_reorg_cache x) (fun _ t => exists rc', holds cfg es ss rc' t) (fun _ => False).
Proof.
  intros Hx. apply modify_triple. intros t [Hok <- <- <-].
  set (c := reorg_cache t ++ [x]). exists (if max_pool_size (config t) <? len c then tail c else c).
  assert (Hc : Forall (fun x => tx_checked ct AsTransaction (entry_tx x)) c).
  { apply Forall_app. split; [apply (ok_reorg_checked _ _ Hok)|apply Forall_singleton; done]. }
  pose proof (ok_reorg_size _ _ Hok) as Hl. rewrite (ok_config _ _ Hok).
  constructor; [|done|done|done].
  apply pool_ok_reorg; [done|..].
  - destruct (_ <? _); [|done]. destruct c; [done|]. apply Forall_cons in Hc as [_ Hc]. done.
  - destruct (Z.ltb_spec (max_pool_size cfg) (len c)); [|lia]. unfold len in *. unfold c in *.
    destruct (reorg_cache t); cbn [app tail length] in *; rewrite ?length_app in *; cbn [length] in *; lia.
Qed.

(** The stempool half of [add_to_pool] *)
Lemma stem_triple cfg bc h es ss rc x :
  tx_checked ct AsTransaction (entry_tx x) -> len ss <= max_stempool_size cfg ->
  triple (holds cfg es ss rc)
    (let@ _ := add_to_stempool ct bc x h in notify_stem x)
    (fun _ t => holds cfg es (ss ++ [x]) rc t) (fun t => exists ss', holds cfg es ss' rc t).
Proof.
  intros Hx Hl. eapply triple_bind; [eapply triple_conseq; [apply add_to_stempool_triple; done|done|intros u t [Ht _]; exact Ht|]|].
  { intros t Ht. eauto. }
  intros [] t [Hok E1 E2 E3]. unfold notify_stem. destruct (stem_tx_accepted x (adapter t)) as [[a|e|] w].
  2, 3: exists (ss ++ [x]).
  all: constructor; [destruct Hok; constructor; done|done|done|done].
Qed.

(** The txpool half *)
Lemma fluff_triple cfg bc h es ss rc x :
  tx_checked ct AsTransaction (entry_tx x) ->
  triple (holds cfg es ss rc)
    (let@ _ := add_to_txpool ct bc x h in
     let@ _ := add_to_reorg_cache x in
     modify (fun t => set_adapter t (tx_accepted x (adapter t))))
    (fun _ t => exists x' ss' rc', holds cfg (es ++ [x']) ss' rc' t /\ pools_applicable bc h t) (pool_ok cfg).
Proof.
  intros Hx. eapply triple_bind; [eapply triple_conseq; [apply add_to_txpool_triple, Hx|done|intros u t H; exact H|]|].
  { intros t (es' & [Hok _ _ _] & _). done. }
  intros [] t (x' & ss' & Ht & Ha). unfold vbind, add_to_reorg_cache, modify.
  destruct (add_to_reorg_cache_triple _ _ _ _ _ Hx t Ht) as [rc' [Hok E1 E2 E3]].
  exists x', ss', rc'. split; [|exact Ha]. constructor; [destruct Hok; constructor; done|done|done|done].
Qed.

Lemma is_acceptable_spec cfg es ss rc t tx stem :
  holds cfg es ss rc t ->
  match is_acceptable t tx stem with
  | Ok _ => len es <= max_pool_size cfg /\ (stem = true -> len ss <= max_stempool_size cfg)
  | Err OverCapacity => stem = false -> max_pool_size cfg < len es
  | _ => True
  end.
Proof.
  intros [Hok <- <- <-]. unfold is_acceptable, total_size, pool_size. rewrite (ok_config _ _ Hok).
  destruct (Z.ltb_spec (max_pool_size cfg) (len (entries (txpool t)))); [done|].
  rewrite orb_false_r. destruct stem; cbn [andb].
  - destruct (Z.ltb_spec (max_stempool_size cfg) (len (entries (stempool t)))); [done|].
    destruct (_ <? _); [destruct (_ <? _)|]; done.
  - destruct (_ <? _); [destruct (_ <? _)|]; done.
Qed.

(** The capacity decision of [add_to_pool]: [evict] exactly when the pool is over its size *)
Definition decide_evict t tx (stem : bool) : TM bool :=
  match is_acceptable t tx stem with
  | Err OverCapacity => if stem then vlift (Err OverCapacity) else vret true
  | Err e => vlift (Err e)
  | Ok _ => vret false
  | Panic => vlift Panic
  end.

Lemma decide_evict_triple cfg es ss rc t0 tx stem :
  holds cfg es ss rc t0 ->
  triple (holds cfg es ss rc) (decide_evict t0 tx stem)
    (fun evict t => holds cfg es ss rc t /\
       if evict then stem = false /\ max_pool_size cfg < len es
       else len es <= max_pool_size cfg /\ (stem = true -> len ss <= max_stempool_size cfg)) (pool_ok cfg).
Proof.
  intros H0. pose proof (is_acceptable_spec _ _ _ _ _ tx stem H0) as Hs. unfold decide_evict.
  destruct (is_acceptable t0 tx stem) as [u|[]|]; try (apply triple_lift; [done|intros t []; done]).
  - apply triple_ret. done.
  - destruct stem; [apply triple_lift; [done|intros t []; done]|]. apply triple_ret. auto.
Qed.

(** What [add_to_pool] leaves behind when it succeeds, from a txpool [es] *)
Definition added cfg bc h (es : list PoolEntry) (stem : bool) t : Prop :=
  pool_ok cfg t /\
  (max_pool_size cfg < len es -> stem = false /\ pool_size (txpool t) = len es) /\
  (len es <= max_pool_size cfg -> pool_size (txpool t) <= len es + 1 /\
     (stem = false -> pool_size (txpool t) = len es + 1 /\ pools_applicable bc h t)).

Lemma holds_lift {A} cfg es ss rc (c : res PoolError A) :
  triple (holds cfg es ss rc) (vlift c) (fun a t => holds cfg es ss rc t /\ c = Ok a) (pool_ok cfg).
Proof. apply triple_lift; [done|]. intros t []. done. Qed.

Lemma finish_triple cfg bc h es ss rc x stem evict :
  tx_checked ct AsTransaction (entry_tx x) ->
  (if evict : bool then stem = false /\ max_pool_size cfg < len es
   else len es <= max_pool_size cfg /\ (stem = true -> len ss <= max_stempool_size cfg)) ->
  triple (holds cfg es ss rc)
    (let@ stemmed := if stem then vtry (let@ _ := add_to_stempool ct bc x h in notify_stem x) else vret None in
     let@ _ :=
       match stemmed with
       | Some _ => vret tt
       | None =>
         let@ _ := add_to_txpool ct bc x h in
         let@ _ := add_to_reorg_cache x in
         modify (fun t => set_adapter t (tx_accepted x (adapter t)))
       end in
     if evict then evict_from_txpool ct else vret tt)
    (fun _ => added cfg bc h es stem) (pool_ok cfg).
Proof.
  intros Hx He. set (done_stem := fun (s : option unit) t => exists ss' rc', holds cfg es ss' rc' t /\ (is_Some s -> stem = true)).
  apply triple_bind with (R := done_stem).
  { unfold done_stem. destruct stem.
    - destruct evict; [destruct He; done|]. destruct He as [_ Hl].
      eapply triple_conseq; [apply triple_try, (stem_triple cfg bc h es ss rc x Hx (Hl eq_refl))|done|..].
      + intros [[]|] t Ht; [eauto|]. destruct Ht as [ss' Ht]. exists ss', rc. split; [done|]. intros [? ?]; done.
      + intros t [ss' []]. done.
    - apply triple_ret. intros t Ht. exists ss, rc. split; [done|]. intros [? ?]; done. }
  intros stemmed t (ss' & rc' & Ht & Hst). revert t Ht.
  eapply triple_bind with (R := fun _ t => exists es' ss' rc', holds cfg es' ss' rc' t /\
    ((es' = es /\ stem = true) \/ (len es' = len es + 1 /\ pools_applicable bc h t))).
  { destruct stemmed as [u|].
    - apply triple_ret. intros t Ht. exists es, ss', rc'. split; [done|]. left. split; [done|]. apply Hst. eauto.
    - eapply triple_conseq; [apply fluff_triple, Hx|done| |done].
      intros u t (x' & ss2 & rc2 & H2 & Ha). exists (es ++ [x']), ss2, rc2. split; [done|]. right. split; [|done].
      unfold len. rewrite length_app. cbn [length]. lia. }
  intros u t (es' & ss2 & rc2 & H2 & Hes). destruct evict; revert t H2 Hes; intros t H2 Hes.
  - pose proof (evict_triple cfg es' ss2 rc2 t H2) as Hev. destruct He as [-> Hcap].
    destruct Hes as [[_ ?]|[Hl _]]; [done|].
    destruct (evict_from_txpool ct t) as [[a|e|] t']; [|destruct Hev; done|destruct Hev; done].
    destruct Hev as (es2 & [Hok E1 _ _] & _ & Hlen). split; [done|]. split; [|lia].
    intros _. split; [done|]. unfold pool_size. rewrite E1. unfold len in *. lia.
  - destruct He as [Hcap _], H2 as [Hok E1 _ _]. cbn. split; [done|]. split; [lia|]. unfold pool_size. rewrite E1.
    intros _. destruct Hes as [[-> ->]|[Hl Ha]]; [split; [lia|done]|split; [lia|]]. done.
Qed.

Lemma add_to_pool_triple cfg bc source tx stem now h es ss rc :
  triple (holds cfg es ss rc) (add_to_pool ct bc source tx stem now h)
    (fun _ => added cfg bc h es stem) (pool_ok cfg).
Proof.
  unfold add_to_pool. eapply triple_bind; [apply get_triple|]. intros t0 t [Ht ->].
  destruct (negb stem && contains_tx (txpool t) (hash tx)); [destruct Ht; done|].
  pose proof (decide_evict_triple _ _ _ _ _ tx stem Ht) as Hd. revert Hd Ht. unfold decide_evict.
  generalize (is_acceptable t tx stem). intros acc Hd Ht. revert t Ht.
  eapply triple_bind; [exact Hd|]. intros evict t [Ht He]. clear Hd. revert t Ht.
  eapply triple_bind; [apply holds_lift|]. intros u t [Ht _]. revert t Ht.
  eapply triple_bind; [eapply triple_conseq; [apply holds_verifier, vm_validate_triple|done|intros a t H; exact H|intros t []; done]|].
  intros u' t [Ht Hx]. revert t Ht.
  eapply triple_bind; [apply holds_lift|]. intros v t [Ht _]. revert t Ht.
  eapply triple_bind; [apply holds_lift|]. intros v' t [Ht _]. revert t Ht.
  apply (finish_triple cfg bc h es ss rc (mkEntry source now tx) stem evict Hx He).
Qed.

Lemma reconcile_block_triple cfg bc b es ss rc :
  triple (holds cfg es ss rc) (reconcile_block ct bc b)
    (fun _ t => pool_ok cfg t /\ pools_applicable bc (header b) t /\ admitted ct bc (header b) [] (entries (txpool t)) /\
       entries (txpool t) `sublist_of` entries (pool_reconcile_block (mkPool es) b) /\
       entries (stempool t) `sublist_of` entries (pool_reconcile_block (mkPool ss) b)) (pool_ok cfg).
Proof.
  unfold reconcile_block.
  assert (Hsub : forall l, entries (pool_reconcile_block (mkPool l) b) `sublist_of` l).
  { intros l. cbn. etrans; [apply filter_sublist|]. apply filter_sublist. }
  set (es1 := entries (pool_reconcile_block (mkPool es) b)). set (ss1 := entries (pool_reconcile_block (mkPool ss) b)).
  eapply triple_bind; [apply modify_triple with (Q := holds cfg es1 ss rc)|intros []].
  { intros t Ht. apply (txpool_sublist_ok _ _ _ _ _ es1) in Ht as Ht'; [|apply Hsub].
    replace (pool_reconcile_block (txpool t) b) with (mkPool es1); [done|]. unfold es1. rewrite <- (h_txpool _ _ _ _ _ Ht).
    destruct (txpool t). done. }
  eapply triple_bind; [apply get_triple|]. intros t0 t [Ht ->].
  pose proof (h_txpool _ _ _ _ _ Ht) as E1. generalize dependent (txpool t). intros p E1. revert t Ht.
  eapply triple_bind; [eapply triple_conseq; [eapply holds_verifier, reconcile_triple|done|intros a t H; exact H|intros t []; done]|].
  intros [es2] t (Ht & Hadm & Hs). cbn [entries option_list] in *. rewrite E1 in Hs. revert t Ht.
  eapply triple_bind; [apply modify_triple with (Q := holds cfg es2 ss rc)|intros []].
  { intros t Ht. apply (txpool_sublist_ok _ _ _ _ _ _ Ht Hs). }
  eapply triple_bind; [apply modify_triple with (Q := holds cfg es2 ss1 rc)|intros []].
  { intros t Ht. apply (stem_sublist_ok _ _ _ _ _ ss1) in Ht as Ht'; [|apply Hsub].
    replace (pool_reconcile_block (stempool t) b) with (mkPool ss1); [done|]. unfold ss1. rewrite <- (h_stempool _ _ _ _ _ Ht).
    destruct (stempool t). done. }
  eapply triple_conseq; [apply reconcile_stempool_triple|done| |intros t []; done].
  intros u t (ss2 & o & [Hok E3 E4 _] & Hs2 & Ho & Hadm2). split; [done|]. rewrite E3, E4. split; [|done].
  unfold pools_applicable, all_transactions. rewrite E3, E4.
  destruct es2 as [|e l] eqn:Ees; [cbn in Ho; subst o; exact Hadm2|]. destruct Ho as (agg & -> & Ha).
  exists agg. split; [done|]. split; [|exact Hadm2]. rewrite <- Ees in *. inversion Hadm as [E|es3 x agg' H3 _ Hc Hap E]; [congruence|].
  rewrite <- E, map_app in Ha. rewrite app_nil_r, candidate_aggregate in Hc. cbn [map] in Ha. congruence.
Qed.

Lemma readd_triple cfg bc h rc xs : forall es ss,
  Forall (fun x => tx_checked ct AsTransaction (entry_tx x)) xs ->
  triple (holds cfg es ss rc) (readd_loop ct bc xs h)
    (fun _ t => exists es' ss', holds cfg es' ss' rc t /\ len es' <= len es + len xs)
    (pool_ok cfg).
Proof.
  induction xs as [|x xs IH]; intros es ss Hxs; cbn [readd_loop].
  { apply triple_ret. intros t Ht. exists es, ss. split; [done|]. unfold len. cbn. lia. }
  apply Forall_cons in Hxs as [Hx Hxs].
  eapply triple_bind with (R := fun _ t => exists es1 ss1, holds cfg es1 ss1 rc t /\ len es1 <= len es + 1).
  { eapply triple_conseq; [apply triple_try, add_to_txpool_triple, Hx|done|..].
    - intros [u|] t.
      + intros (x' & ss' & Ht & _). exists (es ++ [x']), ss'. split; [done|]. unfold len. rewrite length_app. cbn [length]. lia.
      + intros (es' & Ht & Hl). eauto.
    - intros t (es' & [] & _). done. }
  intros r t (es1 & ss1 & Ht & Hl). revert t Ht. eapply triple_conseq; [apply (IH es1 ss1 Hxs)|done| |done].
  intros u t (es' & ss' & Ht & Hl'). exists es', ss'. split; [done|]. unfold len in *. cbn [length]. lia.
Qed.

Lemma new_pool_ok cfg w : 0 <= max_pool_size cfg -> 0 <= max_stempool_size cfg -> pool_ok cfg (txpool_new cfg verifier_new w).
Proof.
  intros H1 H2. constructor; [done|apply verifier_new_sound|apply distinct_nil|apply distinct_nil|
    constructor|constructor|constructor|exact H1|]. unfold pool_size, len. cbn. lia.
Qed.

Lemma run_op_ok cfg op t : pool_ok cfg t -> pool_ok cfg (run_op op t).
Proof.
  intros Hok. pose proof (holds_self cfg t Hok) as Hh. destruct op as [bc source tx stem now h|cutoff|bc h|bc b|bc]; cbn [run_op].
  - pose proof (add_to_pool_triple cfg bc source tx stem now h _ _ _ t Hh) as H.
    destruct (add_to_pool _ _ _ _ _ _ _ t) as [[a|e|] t']; [apply H|done|done].
  - apply pool_ok_reorg; [done|eapply sublist_Forall; [apply drop_old_sublist|apply (ok_reorg_checked _ _ Hok)]|].
    pose proof (sublist_len _ _ (drop_old_sublist cutoff (reorg_cache t))). pose proof (ok_reorg_size _ _ Hok). lia.
  - pose proof (readd_triple cfg bc h _ (reorg_cache t) _ _ (ok_reorg_checked _ _ Hok) t Hh) as H.
    unfold reconcile_reorg_cache, vbind, get_pool. destruct (readd_loop ct bc (reorg_cache t) h t) as [[a|e|] t']; [|done|done].
    destruct H as (es' & ss' & [] & _). done.
  - pose proof (reconcile_block_triple cfg bc b _ _ _ t Hh) as H.
    destruct (reconcile_block ct bc b t) as [[a|e|] t']; [apply H|done|done].
  - unfold prepare_mineable_transactions, vbind, get_pool.
    assert (T : triple (cache_sound (L := L)) (prepare_mineable ct bc (txpool t) (mineable_max_weight (config t)))
      (fun _ => cache_sound) cache_sound).
    { unfold prepare_mineable. eapply triple_bind; [apply bucket_transactions_triple|]. intros a v [Hv _]. revert v Hv.
      eapply triple_bind; [apply triple_lift with (Q := fun _ => cache_sound); done|]. intros head.
      eapply triple_conseq; [apply validate_raw_loop_triple|done|intros r v [H _]; exact H|done]. intros n Hn. cbn in Hn. lia. }
    specialize (T _ (ok_cache _ _ Hok)). unfold on_verifier. destruct (prepare_mineable _ _ _ _ _) as [[a|e|] vc];
      apply with_verifier_ok; done.
Qed.
End Steps.

(** ** Theorems *)

(** C37: the invariant of the transaction pool.  Whatever operations are called, on
    whatever chain states, and whether they succeed or fail, the verifier cache stays
    sound, neither the txpool nor the stempool holds a transaction twice, every entry
    of both and of the reorg cache passed the checks of [Transaction::validate] with
    the weight limit of a transaction, the reorg cache stays within [max_pool_size]
    and the stempool within [max_stempool_size + 1]. *)
Theorem pool_operations_keep_invariant {DG : Digest} `{SVL : SecpVerifyLaws} {SS : SecpSizes} {SP : Secp}
    {L : Type} `{!LruCache L} {W : Type} `{!PoolAdapter W} ct cfg (w : W) ops :
  0 <= max_pool_size cfg -> 0 <= max_stempool_size cfg ->
  pool_ok ct cfg (foldl (fun t op => run_op ct op t) (txpool_new cfg (verifier_new (L := L)) w) ops).
Proof.
  intros H1 H2. generalize (new_pool_ok (L := L) ct cfg w H1 H2). generalize (txpool_new cfg (verifier_new (L := L)) w).
  induction ops as [|op ops IH]; intros t Ht; [done|]. cbn [foldl]. apply IH, run_op_ok, Ht.
Qed.

(** C38: a block leaves pools that apply on top of it.  From any pool that satisfies
    the invariant, a successful [reconcile_block] keeps, in order, only entries
    without a kernel or an input in common with the block; the txpool's entries were
    re-admitted one by one at the block's header, its aggregate is applicable there,
    and the stempool's entries were admitted on top of that aggregate. *)
Theorem reconciled_pools_apply {DG : Digest} `{SVL : SecpVerifyLaws} {SS : SecpSizes} {SP : Secp}
    {L : Type} `{!LruCache L} {W : Type} `{!PoolAdapter W} ct cfg bc b (t t' : TransactionPool L W) :
  pool_ok ct cfg t -> reconcile_block ct bc b t = (Ok tt, t') ->
  pool_ok ct cfg t' /\ pools_applicable ct bc (header b) t' /\
  admitted ct bc (header b) [] (entries (txpool t')) /\
  entries (txpool t') `sublist_of` entries (txpool t) /\ entries (stempool t') `sublist_of` entries (stempool t) /\
  Forall (fun x => conflicts (block_body b) (entry_tx x) = false /\ token_conflicts (block_body b) (entry_tx x) = false)
    (entries (txpool t') ++ entries (stempool t')).
Proof.
  intros Hok E. pose proof (reconcile_block_triple ct cfg bc b _ _ _ t (holds_self ct cfg t Hok)) as H. rewrite E in H.
  destruct H as (H1 & H2 & H3 & H4 & H5). split; [done|]. split; [done|]. split; [done|].
  assert (Hsub : forall l, entries (pool_reconcile_block (mkPool l) b) `sublist_of` l).
  { intros l. cbn. etrans; [apply filter_sublist|]. apply filter_sublist. }
  assert (Hc : forall l, Forall (fun x => conflicts (block_body b) (entry_tx x) = false /\
    token_conflicts (block_body b) (entry_tx x) = false) (entries (pool_reconcile_block (mkPool l) b))).
  { intros l. apply List.Forall_forall. intros x Hx. cbn in Hx. apply filter_In in Hx as [Hx Hx2].
    apply filter_In in Hx as [_ Hx1]. rewrite negb_true_iff in Hx1, Hx2. done. }
  split; [etrans; [exact H4|apply Hsub]|]. split; [etrans; [exact H5|apply Hsub]|].
  apply Forall_app. split; eapply sublist_Forall; eauto.
Qed.

(** The size of the txpool.  A successful [add_to_pool] on a pool within
    [max_pool_size] adds at most one entry, exactly one for a transaction that is not
    stemmed, and then both pools are applicable at the header; on a pool over its size
    only a transaction that is not stemmed is accepted, and eviction takes exactly one
    entry for it, so the pool does not grow.  Replaying the reorg cache, which checks
    no capacity, adds at most [max_pool_size] entries. *)
Theorem pool_capacity {DG : Digest} `{SVL : SecpVerifyLaws} {SS : SecpSizes} {SP : Secp}
    {L : Type} `{!LruCache L} {W : Type} `{!PoolAdapter W} ct cfg bc h (t : TransactionPool L W) :
  pool_ok ct cfg t ->
  (forall source tx stem now t', add_to_pool ct bc source tx stem now h t = (Ok tt, t') ->
     (max_pool_size cfg < pool_size (txpool t) -> stem = false /\ pool_size (txpool t') = pool_size (txpool t)) /\
     (pool_size (txpool t) <= max_pool_size cfg -> pool_size (txpool t') <= pool_size (txpool t) + 1 /\
        (stem = false -> pool_size (txpool t') = pool_size (txpool t) + 1 /\ pools_applicable ct bc h t'))) /\
  (forall t', reconcile_reorg_cache ct bc h t = (Ok tt, t') ->
     pool_size (txpool t') <= pool_size (txpool t) + max_pool_size cfg).
Proof.
  intros Hok. pose proof (holds_self ct cfg t Hok) as Hh. split.
  - intros source tx stem now t' E. pose proof (add_to_pool_triple ct cfg bc source tx stem now h _ _ _ t Hh) as H.
    rewrite E in H. apply H.
  - intros t' E. pose proof (readd_triple ct cfg bc h _ (reorg_cache t) _ _ (ok_reorg_checked _ _ _ Hok) t Hh) as H.
    unfold reconcile_reorg_cache, vbind, get_pool in E. rewrite E in H. destruct H as (es' & ss' & [_ E1 _ _] & Hl).
    unfold pool_size in *. rewrite E1. pose proof (ok_reorg_size _ _ _ Hok). lia.
Qed.

(** ** A concrete node *)

#[local] Existing Instance demo_digest.
#[local] Existing Instance demo_sizes.
#[local] Existing Instance demo_secp.
#[local] Existing Instance demo_laws.
#[local] Existing Instance demo_verify.
#[local] Existing Instance demo_verify_laws.

Definition tiny_config : PoolConfig := mkPoolConfig 0 2 10 40000.
Definition tiny_pool : TransactionPool (list bytes) unit := txpool_new tiny_config verifier_new tt.
Definition tiny_chain : BlockChain := demo_chain [1; 2; 3; 4].
Definition tiny_add (t : TransactionPool (list bytes) unit) (tx : Transaction) :=
  add_to_pool Mainnet tiny_chain Broadcast tx false 0 header_default t.

(** Two parents, a transaction that spends the outputs of both, and two unrelated ones *)
Definition parent_1 : Transaction := demo_spend [1] [11] 10.
Definition parent_2 : Transaction := demo_spend [2] [12] 5.
Definition child_12 : Transaction := demo_spend [11; 12] [13] 20.
Definition other_1 : Transaction := demo_spend [3] [14] 8.
Definition other_2 : Transaction := demo_spend [4] [15] 9.

(** The pool over its size of two, then the fourth transaction, which evicts. *)
Definition full_pool := foldl (fun t tx => (tiny_add t tx).2) tiny_pool [parent_1; parent_2; child_12].
Definition evicted_pool := (tiny_add full_pool other_1).2.

(** Eviction can orphan a transaction and block the pool.  In the pool below, over
    its size, a transaction spends the outputs of two others; having two parents it is
    in no bucket, and the parent with the lowest fee is evicted although it is spent.
    The child stays with an input no one provides, so the aggregate of the pool no
    longer applies to the chain and an unrelated transaction, acceptable to an empty
    pool, is refused. *)
Theorem eviction_can_orphan_and_block :
  map entry_tx (entries (txpool full_pool)) = [parent_1; parent_2; child_12] /\
  pools_applicable Mainnet tiny_chain header_default full_pool /\
  (tiny_add full_pool other_1).1 = Ok tt /\
  map entry_tx (entries (txpool evicted_pool)) = [parent_1; child_12; other_1] /\
  (validate_raw_txs Mainnet tiny_chain [parent_1; child_12; other_1] None header_default NoLimit
     (verifier_new (L := list bytes))).1 = Ok [parent_1; other_1] /\
  (tiny_add tiny_pool other_2).1 = Ok tt /\ (tiny_add evicted_pool other_2).1 = Err POther.
Proof.
  assert (H : added Mainnet tiny_config tiny_chain header_default
    (entries (txpool (foldl (fun t tx => (tiny_add t tx).2) tiny_pool [parent_1; parent_2]))) false full_pool).
  { set (t := foldl (fun t tx => (tiny_add t tx).2) tiny_pool [parent_1; parent_2]).
    assert (Hok : pool_ok Mainnet tiny_config t).
    { apply (run_op_ok Mainnet tiny_config (OpAdd tiny_chain Broadcast parent_2 false 0 header_default)).
      apply (run_op_ok Mainnet tiny_config (OpAdd tiny_chain Broadcast parent_1 false 0 header_default)).
      apply new_pool_ok; cbn; lia. }
    pose proof (add_to_pool_triple Mainnet tiny_config tiny_chain Broadcast child_12 false 0 header_default _ _ _ t (holds_self _ _ t Hok)) as H.
    change full_pool with (tiny_add t child_12).2. unfold tiny_add.
    destruct (add_to_pool Mainnet tiny_chain Broadcast child_12 false 0 header_default t) as [[[]|e|] t'] eqn:E; [exact H|..];
      exfalso; apply (f_equal fst) in E; vm_compute in E; discriminate E. }
  split; [vm_compute; reflexivity|]. split; [apply H; [vm_compute; congruence|reflexivity]|].
  repeat split; vm_compute; reflexivity.
Qed.

Lemma pool_operations_keep_invariant_witness :
  pool_ok Mainnet tiny_config
    (foldl (fun t op => run_op Mainnet op t) (txpool_new tiny_config (verifier_new (L := list bytes)) tt)
       [OpAdd tiny_chain Broadcast parent_1 false 0 header_default; OpMine tiny_chain]).
Proof. apply pool_operations_keep_invariant; cbn; lia. Defined.

(** A block that mines [parent_1], and the chain after it *)
Definition parent_block : Block := mkBlock header_default aux_data_default (body parent_1).
Definition after_parent : BlockChain := demo_chain [11; 2; 3; 4].
Definition one_pool := (tiny_add (tiny_add tiny_pool parent_1).2 parent_2).2.

Lemma one_pool_ok : pool_ok Mainnet tiny_config one_pool.
Proof.
  apply (run_op_ok Mainnet tiny_config (OpAdd tiny_chain Broadcast parent_2 false 0 header_default)).
  apply (run_op_ok Mainnet tiny_config (OpAdd tiny_chain Broadcast parent_1 false 0 header_default)).
  apply new_pool_ok; cbn; lia.
Qed.

Lemma reconciled_pools_apply_witness :
  exists t', reconcile_block Mainnet after_parent parent_block one_pool = (Ok tt, t') /\
    admitted Mainnet after_parent header_default [] (entries (txpool t')).
Proof.
  destruct (reconcile_block Mainnet after_parent parent_block one_pool) as [r t'] eqn:E.
  assert (r = Ok tt) as -> by (change r with (r, t').1; rewrite <- E; vm_compute; reflexivity).
  exists t'. split; [reflexivity|].
  apply (reconciled_pools_apply Mainnet tiny_config after_parent parent_block one_pool t'); [exact one_pool_ok|exact E].
Defined.

Lemma pool_capacity_witness :
  exists t', tiny_add one_pool child_12 = (Ok tt, t') /\ pool_size (txpool t') = 3.
Proof.
  destruct (tiny_add one_pool child_12) as [r t'] eqn:E.
  assert (r = Ok tt) as -> by (change r with (r, t').1; rewrite <- E; vm_compute; reflexivity).
  exists t'. split; [reflexivity|].
  pose proof (pool_capacity Mainnet tiny_config tiny_chain header_default one_pool one_pool_ok) as [H _].
  destruct (H _ _ _ _ _ E) as [_ H2]. destruct H2 as [_ H2]; [vm_compute; congruence|].
  destruct (H2 eq_refl) as [H3 _]. rewrite H3. vm_compute. reflexivity.
Defined.
