(* ===== verification/ChainTypes.v ===== *)
(** * Types of the chain crate

    Models [chain/src/types.rs] (tips, roots, positions, the sync state),
    [chain/src/error.rs], and from [core/src/core] the elements the seven trees of
    the transaction hash set and the header tree store: output identifiers, issue
    proofs and header entries, with the hash of a tree node of [core/src/ser.rs].

    Strings inside errors are dropped. *)

From Stdlib Require Import ZArith Lia List Bool.
From stdpp Require Import base numbers list option gmap.
From S2P Require Import Prelude MmrIndex Pmmr Bytes Consensus Ser PowTypes Transaction TxBody Committed Verifier Aggregate Block.

(** ** Errors *)

(** [store::Error] of [store/src/lmdb.rs] *)
Inductive StoreError := NotFoundErr | LmdbErr | StoreSerErr.

(** [ErrorKind] *)
Inductive ErrorKind :=
| Unfit | Orphan | BitDifficultyTooLow | DifficultyTooLow | WrongTotalDifficulty | LowEdgebits
| InvalidScaling | CInvalidPow | InvalidCoinbase | InvalidMerklebranch | BadBitDiffbits | OldBlock
| InvalidBlockProof (e : BlockError) | CInvalidBlockTime | InvalidBlockHeight | InvalidRoot | InvalidMMRSize
| KeychainErr | SecpErr | AlreadySpent (c : Commitment) | CDuplicateCommitment (c : Commitment)
| DuplicateTokenKey (k : TokenKey) | CImmatureCoinbase | CMerkleProof | OutputNotFound | RangeproofNotFound
| TxKernelNotFound | OutputSpent | CInvalidBlockVersion (v : Z) | InvalidTxHashSet | StoreErr (e : StoreError)
| FileReadErr | SerErr (e : Error) | TxHashSetErr | TxLockHeight | GenesisBlockRequired
| CTransaction (e : TxError) | COther | ECommitted (e : CommittedError) | Stopped | BitmapErr
| BadAuxDataBlock | SyncError.

(** [Error::is_bad_data] *)
Definition is_bad_data (e : ErrorKind) : bool :=
  match e with
  | Unfit | Orphan | StoreErr _ | SerErr _ | TxHashSetErr | GenesisBlockRequired | COther => false
  | _ => true
  end.

(** ** Elements of the trees *)

Record OutputIdentifier := mkOutputId { oid_features : OutputFeatures; oid_commit : Commitment }.
Record TokenOutputIdentifier := mkTokenOutputId {
  toid_features : OutputFeatures; toid_token_type : TokenKey; toid_commit : Commitment }.
Record TokenIssueProof := mkIssueProof {
  issue_token_type : TokenKey; issue_commit : Commitment; issue_proof : RangeProof }.
Record HeaderEntry := mkHeaderEntry {
  entry_hash : bytes; entry_timestamp : Z; entry_total_difficulty : Difficulty;
  entry_secondary_scaling : Z; entry_is_secondary : bool }.

#[export] Instance output_id_eq_dec : EqDecision OutputIdentifier.
Proof. solve_decision. Defined.
#[export] Instance token_output_id_eq_dec : EqDecision TokenOutputIdentifier.
Proof. solve_decision. Defined.

(** The [From] conversions *)
Definition oid_of_output (o : Output) : OutputIdentifier := mkOutputId (output_features o) (output_commit o).
Definition oid_of_input (i : Input) : OutputIdentifier := mkOutputId (input_features i) (input_commit i).
Definition toid_of_output (o : TokenOutput) : TokenOutputIdentifier :=
  mkTokenOutputId (token_output_features o) (output_token_type o) (token_output_commit o).
Definition toid_of_input (i : TokenInput) : TokenOutputIdentifier :=
  mkTokenOutputId (token_input_features i) (input_token_type i) (token_input_commit i).

(** [into_output] *)
Definition into_output (i : OutputIdentifier) (p : RangeProof) : Output := mkOutput (oid_features i) (oid_commit i) p.
Definition into_token_output (i : TokenOutputIdentifier) (p : RangeProof) : TokenOutput :=
  mkTokenOutput (toid_features i) (toid_token_type i) (toid_commit i) p.

(** [TokenIssueProof::from_token_output] *)
Definition issue_of_output (o : TokenOutput) : TokenIssueProof :=
  mkIssueProof (output_token_type o) (token_output_commit o) (token_output_proof o).

(** Binary forms *)
#[export] Instance write_output_id : Writeable OutputIdentifier := fun w i =>
  write w (oid_features i) ++ write w (oid_commit i).
#[export] Instance write_token_output_id : Writeable TokenOutputIdentifier := fun w i =>
  write w (toid_features i) ++ write w (toid_token_type i) ++ write w (toid_commit i).
#[export] Instance write_issue_proof : Writeable TokenIssueProof := fun w i =>
  write w (issue_token_type i) ++ write w (issue_commit i)
  ++ (if negb (bool_decide (serialization_mode w = HashMode)) then write_bytes (proof_slice (issue_proof i)) else []).
#[export] Instance write_header_entry : Writeable HeaderEntry := fun w e =>
  write w (entry_hash e) ++ write_u64 (entry_timestamp e) ++ write w (entry_total_difficulty e)
  ++ write_u32 (entry_secondary_scaling e) ++ write_u8 (if entry_is_secondary e then 1 else 0).

Section Read.
  Context {SS : SecpSizes} {R : Type} `{!Reader R}.

Definition output_id_read : R -> res Error (OutputIdentifier * R) :=
  let! features := output_features_read in
  let! commit := commitment_read in
  read_ret (mkOutputId features commit).
Definition token_output_id_read : R -> res Error (TokenOutputIdentifier * R) :=
  let! features := output_features_read in
  let! token_type := token_key_read in
  let! commit := commitment_read in
  read_ret (mkTokenOutputId features token_type commit).
Definition issue_proof_read : R -> res Error (TokenIssueProof * R) :=
  let! token_type := token_key_read in
  let! commit := commitment_read in
  let! proof := rangeproof_read in
  read_ret (mkIssueProof token_type commit proof).
Definition header_entry_read : R -> res Error (HeaderEntry * R) :=
  let! hash := hash_read in
  let! timestamp := read_u64 in
  let! total_difficulty := difficulty_read in
  let! secondary_scaling := read_u32 in
  let! is_secondary := read_u8 in
  read_ret (mkHeaderEntry hash timestamp total_difficulty secondary_scaling (negb (is_secondary =? 0))).
End Read.

(** ** Hashes of tree nodes *)

Section Hashing.
  Context {DG : Digest}.

(** [hash_with_index] of a pair of children *)
Definition pair_hash_with_index (p : bytes * bytes) (index : Z) : bytes :=
  blake2b (write_u64 index ++ write hash_writer p.1 ++ write hash_writer p.2).

Definition pmmrable_by {T E} `{!Writeable T} (as_elmt : T -> E) : PMMRable bytes T E := {|
  ZERO_HASH := ZERO_HASH_BYTES; hash_elmt := hash_with_index; hash_pair := pair_hash_with_index;
  Pmmr.as_elmt := as_elmt |}.

#[export] Instance output_pmmrable : PMMRable bytes Output OutputIdentifier := pmmrable_by oid_of_output.
#[export] Instance rangeproof_pmmrable : PMMRable bytes RangeProof RangeProof := pmmrable_by (fun p => p).
#[export] Instance kernel_pmmrable : PMMRable bytes TxKernel TxKernel := pmmrable_by (fun k => k).
#[export] Instance token_output_pmmrable : PMMRable bytes TokenOutput TokenOutputIdentifier := pmmrable_by toid_of_output.
#[export] Instance issue_proof_pmmrable : PMMRable bytes TokenIssueProof TokenIssueProof := pmmrable_by (fun p => p).
#[export] Instance token_kernel_pmmrable : PMMRable bytes TokenTxKernel TokenTxKernel := pmmrable_by (fun k => k).

(** [BlockHeader::as_elmt]; [timestamp as u64] *)
Definition header_entry (ct : ChainTypes) (h : BlockHeader) : HeaderEntry :=
  mkHeaderEntry (@hash DG _ (write_header ct) h) (timestamp h mod U64) (total_difficulty (pow h))
    (secondary_scaling (pow h)) (is_secondary (pow h)).
Definition header_pmmrable (ct : ChainTypes) : PMMRable bytes BlockHeader HeaderEntry :=
  @pmmrable_by _ _ (write_header ct) (header_entry ct).
End Hashing.

(** ** Roots *)

Record OutputRoots := mkOutputRoots { pmmr_root : bytes; bitmap_root : bytes }.
Record TxHashSetRoots := mkRoots {
  output_roots : OutputRoots; rproof_root : bytes; roots_kernel_root : bytes; roots_token_output_root : bytes;
  token_rproof_root : bytes; roots_token_issue_proof_root : bytes; roots_token_kernel_root : bytes }.

Section Roots.
  Context {DG : Digest}.

(** [OutputRoots::merged_root], [OutputRoots::root] *)
Definition merged_root (r : OutputRoots) (h : BlockHeader) : bytes :=
  pair_hash_with_index (pmmr_root r, bitmap_root r) (output_mmr_size h).
Definition output_roots_root (r : OutputRoots) (h : BlockHeader) : bytes :=
  if bh_version h <? 3 then pmmr_root r else merged_root r h.

(** [TxHashSetRoots::validate] *)
Definition roots_validate (r : TxHashSetRoots) (h : BlockHeader) : res ErrorKind unit :=
  if negb (bool_decide (output_root h = output_roots_root (output_roots r) h))
     || negb (bool_decide (range_proof_root h = rproof_root r))
     || negb (bool_decide (kernel_root h = roots_kernel_root r)) then Err InvalidRoot
  else if negb (bool_decide (token_output_root h = roots_token_output_root r)) then Err InvalidRoot
  else if negb (bool_decide (token_range_proof_root h = token_rproof_root r)) then Err InvalidRoot
  else if negb (bool_decide (token_issue_proof_root h = roots_token_issue_proof_root r)) then Err InvalidRoot
  else if negb (bool_decide (token_kernel_root h = roots_token_kernel_root r)) then Err InvalidRoot
  else Ok tt.
End Roots.

(** ** Positions and tips *)

Record CommitPos := mkCommitPos { cp_pos : Z; cp_height : Z }.
#[export] Instance write_commit_pos : Writeable CommitPos := fun _ p => write_u64 (cp_pos p) ++ write_u64 (cp_height p).
Definition commit_pos_read {R} `{!Reader R} : R -> res Error (CommitPos * R) :=
  let! pos := read_u64 in
  let! height := read_u64 in
  read_ret (mkCommitPos pos height).

Record Tip := mkTip { tip_height : Z; last_block_h : bytes; prev_block_h : bytes; tip_total_difficulty : Difficulty }.

(** [Tip::from_header] *)
Definition tip_from_header {DG : Digest} (ct : ChainTypes) (h : BlockHeader) : Tip :=
  mkTip (bh_height h) (@hash DG _ (write_header ct) h) (prev_hash h) (total_difficulty (pow h)).

(** [Tip::default] *)
Definition tip_default : Tip := mkTip 0 ZERO_HASH_BYTES ZERO_HASH_BYTES difficulty_min.

(** [PartialEq for Tip] *)
Definition tip_eqb (ct : ChainTypes) (a b : Tip) : bool :=
  (tip_height a =? tip_height b) && bool_decide (last_block_h a = last_block_h b)
  && bool_decide (prev_block_h a = prev_block_h b)
  && ((support_token_height ct <=? tip_height a) || (num (tip_total_difficulty a) =? num (tip_total_difficulty b))).

#[export] Instance write_tip : Writeable Tip := fun w t =>
  write_u64 (tip_height t) ++ write_fixed_bytes (last_block_h t) ++ write_fixed_bytes (prev_block_h t)
  ++ write w (tip_total_difficulty t).
Definition tip_read {R} `{!Reader R} : R -> res Error (Tip * R) :=
  let! height := read_u64 in
  let! last := hash_read in
  let! prev := hash_read in
  let! diff := difficulty_read in
  read_ret (mkTip height last prev diff).

(** ** Options and statuses *)

(** The flags of [Options] *)
Definition OPT_NONE : Z := 0.
Definition SKIP_POW : Z := 1.
Definition OPT_SYNC : Z := 2.
Definition OPT_MINE : Z := 4.
Definition opts_contains (opts flag : Z) : bool := Z.land opts flag =? flag.

Inductive BlockStatus := BNext | BFork | BReorg (depth : Z).

Inductive SyncStatus :=
| Initial | NoSync | AwaitingPeers (wait : bool)
| HeaderSync (current_height highest_height : Z)
| TxHashsetDownload (start_time prev_update_time update_time : Z)
    (prev_downloaded_size downloaded_size total_size : Z)
| TxHashsetSetup
| TxHashsetKernelsValidation (kernels kernels_total : Z)
| TxHashsetRangeProofsValidation (rproofs rproofs_total : Z)
| TxHashsetTokenKernelsValidation (kernels kernels_total : Z)
| TxHashsetTokenRangeProofsValidation (rproofs rproofs_total : Z)
| TxHashsetSave | TxHashsetDone
| BodySync (current_height highest_height : Z)
| Shutdown.
#[export] Instance sync_status_eq_dec : EqDecision SyncStatus.
Proof. solve_decision. Defined.

(** [SyncState]: the status and the last sync error *)
Record SyncState := mkSync { current : SyncStatus; sync_error : option ErrorKind }.
Definition sync_new : SyncState := mkSync Initial None.
Definition is_syncing (s : SyncState) : bool := negb (bool_decide (current s = NoSync)).
Definition sync_update (s : SyncState) (new_status : SyncStatus) : SyncState :=
  if bool_decide (current s = new_status) then s else mkSync new_status (sync_error s).
Definition update_txhashset_download (s : SyncState) (new_status : SyncStatus) : bool * SyncState :=
  match new_status with
  | TxHashsetDownload _ _ _ _ _ _ => (true, mkSync new_status (sync_error s))
  | _ => (false, s)
  end.
Definition set_sync_error (s : SyncState) (e : ErrorKind) : SyncState := mkSync (current s) (Some e).
Definition clear_sync_error (s : SyncState) : SyncState := mkSync (current s) None.
