(* ===== verification/BitmapAccumulator.v ===== *)
(** * The bitmap accumulator

    Models [chain/src/txhashset/bitmap_accumulator.rs]: a Merkle mountain range over
    the chunks of 1024 bits of a bitmap, over the hash-only [VecBackend] of [Pmmr].

    The reference is the list of chunks of a set of bits; building from scratch and
    updating in place are both proved against it. *)

From Stdlib Require Import ZArith Lia List Bool Sorted.
From stdpp Require Import base numbers list option gmap sorting.
From S2P Require Import Prelude MmrIndex Pmmr PmmrTheorems Bytes Ser Transaction TxBody Bitmap ChainTypes.

(** ** Chunks *)

(** [BitmapChunk]: 1024 bits *)
Record BitmapChunk := mkChunk { chunk_bits : list bool }.

Definition LEN_BITS : nat := 1024.
Definition LEN_BYTES : nat := LEN_BITS / 8.

Definition chunk_new : BitmapChunk := mkChunk (replicate LEN_BITS false).

(** [BitmapChunk::set]: [assert!(idx < LEN_BITS)] *)
Definition chunk_set {E} (c : BitmapChunk) (idx : Z) (value : bool) : res E BitmapChunk :=
  if (Z.to_nat idx <? LEN_BITS)%nat then Ok (mkChunk (<[Z.to_nat idx := value]> (chunk_bits c))) else Panic.

Definition chunk_any (c : BitmapChunk) : bool := existsb (fun b => b) (chunk_bits c).

(** [BitVec::to_bytes]: eight bits a byte, the first bit the highest *)
Fixpoint bits_to_bytes (l : list bool) : bytes :=
  match l with
  | b7 :: b6 :: b5 :: b4 :: b3 :: b2 :: b1 :: b0 :: l =>
    (128 * Z.b2z b7 + 64 * Z.b2z b6 + 32 * Z.b2z b5 + 16 * Z.b2z b4
     + 8 * Z.b2z b3 + 4 * Z.b2z b2 + 2 * Z.b2z b1 + Z.b2z b0) :: bits_to_bytes l
  | _ => []
  end.
#[export] Instance write_chunk : Writeable BitmapChunk := fun _ c => concat (map write_u8 (bits_to_bytes (chunk_bits c))).

#[export] Instance chunk_pmmrable {DG : Digest} : PMMRable bytes BitmapChunk BitmapChunk := pmmrable_by (fun c => c).

(** ** The accumulator *)

Section Accumulator.
  Context {Bitmap Hash : Type} {BR : CRoaring Bitmap} `{!PMMRable Hash BitmapChunk BitmapChunk}.
  #[local] Abbreviation Acc := (VecBackend Hash BitmapChunk).
  Implicit Types (acc : Acc).

(** [BitmapAccumulator::new] *)
Definition acc_new : Acc := vec_new_hash_only.

Definition chunk_start_idx (idx : Z) : Z := Z.land idx (Z.lnot 1023).
Definition chunk_idx (idx : Z) : Z := idx / 1024.

(** [ErrorKind::Other(e)] *)
Definition acc_err {A} (c : res PmmrError A) : res ErrorKind A := map_err (fun _ => COther) c.

Definition append_chunk acc (chunk : BitmapChunk) : res ErrorKind (Z * Acc) :=
  let? '(pos, p) := acc_err (push (Bitmap := Bitmap) (E := BitmapChunk) (at_ acc (vec_size acc)) chunk) in
  Ok (pos, backend p).

(** The loop of [apply_from] over the peeked iterator.  A turn takes an index or
    closes a chunk below it, so [fuel] bounds the indices and the chunks. *)
Fixpoint apply_loop (fuel : nat) (idx : list Z) (chunk_idx : Z) (chunk : BitmapChunk) acc
    : res ErrorKind (BitmapChunk * Acc) :=
  match fuel with
  | O => Ok (chunk, acc)
  | S fuel =>
    match idx with
    | [] => Ok (chunk, acc)
    | x :: idx' =>
      if x <? (chunk_idx * 1024)%u64 then apply_loop fuel idx' chunk_idx chunk acc
      else if x <? ((chunk_idx + 1) * 1024)%u64 then
        let? chunk := chunk_set chunk (x mod 1024) true in
        apply_loop fuel idx' chunk_idx chunk acc
      else
        let? '(_, acc) := append_chunk acc chunk in
        apply_loop fuel idx (chunk_idx + 1)%u64 chunk_new acc
    end
  end.

(** Enough turns: one for every index and for every chunk up to the last. *)
Definition apply_fuel (idx : list Z) : nat :=
  length idx + Z.to_nat (chunk_idx (default 0 (last idx))) + 2.

Definition apply_from acc (idx : list Z) (from_idx size : Z) : res ErrorKind Acc :=
  let from_chunk_idx := chunk_idx from_idx in
  let idx := List.filter (fun x => x <? size) idx in
  let? '(chunk, acc) := apply_loop (apply_fuel idx) idx from_chunk_idx chunk_new acc in
  if chunk_any chunk then let? '(_, acc) := append_chunk acc chunk in Ok acc else Ok acc.

(** [BitmapAccumulator::init] *)
Definition acc_init acc (idx : list Z) (size : Z) : res ErrorKind Acc := apply_from acc idx 0 size.

Definition rewind_prior acc (from_idx : Z) : res ErrorKind Acc :=
  let last_pos := vec_size acc in
  let chunk_pos := insertion_to_pmmr_index (chunk_idx from_idx + 1)%u64 in
  let rewind_pos := saturating_sub chunk_pos 1 in
  let? p := acc_err (rewind (Bitmap := Bitmap) (Hash := Hash) (T := BitmapChunk) (E := BitmapChunk)
              (at_ acc last_pos) rewind_pos bm_create) in
  Ok (backend p).

(** [for _ in current_chunk_idx..chunk_idx] *)
Fixpoint pad_loop (n : nat) acc : res ErrorKind Acc :=
  match n with
  | O => Ok acc
  | S n => let? '(_, acc) := append_chunk acc chunk_new in pad_loop n acc
  end.
Definition pad_left acc (from_idx : Z) : res ErrorKind Acc :=
  let current_chunk_idx := n_leaves (vec_size acc) in
  pad_loop (Z.to_nat (chunk_idx from_idx - current_chunk_idx)) acc.

(** [BitmapAccumulator::apply] *)
Definition acc_apply acc (invalidated_idx idx : list Z) (size : Z) : res ErrorKind Acc :=
  match invalidated_idx with
  | [] => Ok acc
  | from_idx :: _ =>
    let? acc := rewind_prior acc from_idx in
    let? acc := pad_left acc from_idx in
    apply_from acc idx from_idx size
  end.

(** [BitmapAccumulator::root] *)
Definition acc_root acc : res PmmrError Hash :=
  readonly_root (Bitmap := Bitmap) (T := BitmapChunk) (E := BitmapChunk) (at_ acc (vec_size acc)).

(** ** The reference: chunks of a set of bits *)

Definition chunk_of (S : list Z) (k : Z) : BitmapChunk :=
  mkChunk (map (fun j => bool_decide (k * 1024 + j ∈ S)) (seqZ 0 1024)).
Definition chunks_of (S : list Z) (from n : Z) : list BitmapChunk := map (chunk_of S) (seqZ from (n - from)).

(** Chunks up to the last bit *)
Definition n_chunks (S : list Z) : Z := match last S with None => 0 | Some x => chunk_idx x + 1 end.

(** The accumulator holds the chunks [cs]. *)
Definition acc_holds acc (cs : list BitmapChunk) : Prop :=
  represents (Bitmap := Bitmap) (E := BitmapChunk) (at_ acc (vec_size acc)) cs.

Lemma acc_at acc cs p : represents (Bitmap := Bitmap) (E := BitmapChunk) p cs -> backend p = acc -> acc_holds acc cs.
Proof.
  intros (Hr & Hl & Hs) E. subst acc. unfold acc_holds. split; [done|]. split; [|done]. cbn [at_ last_pos].
  unfold vec_size. apply Hr.
Qed.

Lemma acc_new_holds : acc_holds acc_new [].
Proof. apply (new_represents (Bitmap := Bitmap) (E := BitmapChunk) acc_new). done. Qed.

Lemma append_holds acc cs c :
  acc_holds acc cs -> small_leaves (Z.of_nat (length cs) + 1) ->
  exists pos acc', append_chunk acc c = Ok (pos, acc') /\ acc_holds acc' (cs ++ [c]).
Proof.
  intros H Hs. destruct (push_represents _ _ c H Hs) as (p' & E & Hp). eexists _, (backend p').
  unfold append_chunk, acc_err. rewrite E. split; [done|]. eapply acc_at; done.
Qed.

(** ** Building chunks *)

Lemma chunk_of_lookup S k (j : nat) :
  (j < 1024)%nat -> chunk_bits (chunk_of S k) !! j = Some (bool_decide (k * 1024 + Z.of_nat j ∈ S)).
Proof.
  intros Hj. unfold chunk_of. cbn [chunk_bits]. rewrite list_lookup_fmap, lookup_seqZ_lt by lia. cbn. f_equal.
Qed.

Lemma chunk_of_length S k : length (chunk_bits (chunk_of S k)) = 1024%nat.
Proof. unfold chunk_of. cbn [chunk_bits]. rewrite length_map, length_seqZ. done. Qed.

(** A chunk only depends on its bits. *)
Lemma chunk_of_ext S S' k :
  (forall x, k * 1024 <= x < (k + 1) * 1024 -> x ∈ S <-> x ∈ S') -> chunk_of S k = chunk_of S' k.
Proof.
  intros H. unfold chunk_of. f_equal. apply map_ext_in. intros j Hj. apply list_elem_of_In, elem_of_seqZ in Hj.
  apply bool_decide_ext, H. lia.
Qed.

Lemma chunk_of_nil k : chunk_of [] k = chunk_new.
Proof. reflexivity. Qed.

Lemma chunk_set_of {E} S k x :
  k * 1024 <= x < (k + 1) * 1024 -> chunk_set (E := E) (chunk_of S k) (x mod 1024) true = Ok (chunk_of (S ++ [x]) k).
Proof.
  intros Hx. assert (Hm : x mod 1024 = x - k * 1024) by (symmetry; apply Z.mod_unique with (q := k); lia).
  unfold chunk_set. rewrite Hm, (proj2 (Nat.ltb_lt _ _)) by (unfold LEN_BITS; lia). f_equal.
  enough (E' : <[Z.to_nat (x - k * 1024) := true]> (chunk_bits (chunk_of S k)) = chunk_bits (chunk_of (S ++ [x]) k))
    by (rewrite E'; done).
  apply list_eq. intros j. destruct (decide (j < 1024)%nat) as [Hj|Hj].
  2: { rewrite !lookup_ge_None_2; [done|rewrite chunk_of_length; lia|rewrite length_insert, chunk_of_length; lia]. }
  rewrite (chunk_of_lookup (S ++ [x])) by done. destruct (decide (j = Z.to_nat (x - k * 1024))) as [->|Hne].
  - rewrite list_lookup_insert_eq by (rewrite chunk_of_length; lia). f_equal. symmetry. apply bool_decide_eq_true_2.
    rewrite Z2Nat.id by lia. replace (k * 1024 + (x - k * 1024)) with x by lia. set_solver.
  - rewrite list_lookup_insert_ne, chunk_of_lookup by done. f_equal. apply bool_decide_ext. rewrite elem_of_app, list_elem_of_singleton.
    split; [auto|]. intros [H|H]; [done|lia].
Qed.

Lemma chunk_any_of S k : chunk_any (chunk_of S k) = true <-> exists x, x ∈ S /\ k * 1024 <= x < (k + 1) * 1024.
Proof.
  unfold chunk_any, chunk_of. cbn [chunk_bits]. rewrite existsb_exists. split.
  - intros (b & Hb & ->). apply in_map_iff in Hb as (j & Ej & Hj). apply bool_decide_eq_true in Ej.
    apply list_elem_of_In, elem_of_seqZ in Hj. exists (k * 1024 + j). split; [done|lia].
  - intros (x & Hx & Hr). exists true. split; [|done]. apply in_map_iff. exists (x - k * 1024). split.
    + apply bool_decide_eq_true_2. replace (k * 1024 + (x - k * 1024)) with x by lia. done.
    + apply list_elem_of_In, elem_of_seqZ. lia.
Qed.

Lemma chunks_of_snoc S from k : from <= k -> chunks_of S from (k + 1) = chunks_of S from k ++ [chunk_of S k].
Proof.
  intros H. unfold chunks_of. replace (k + 1 - from) with ((k - from) + 1) by lia. rewrite seqZ_app by lia.
  rewrite map_app. cbn. replace (from + (k - from)) with k by lia. done.
Qed.

Lemma chunks_of_length S from n : from <= n -> Z.of_nat (length (chunks_of S from n)) = n - from.
Proof. intros H. unfold chunks_of. rewrite length_map, length_seqZ. lia. Qed.

Lemma chunks_of_ext S S' from n :
  (forall x, from * 1024 <= x < n * 1024 -> x ∈ S <-> x ∈ S') -> chunks_of S from n = chunks_of S' from n.
Proof.
  intros H. unfold chunks_of. apply map_ext_in. intros k Hk. apply list_elem_of_In, elem_of_seqZ in Hk.
  apply chunk_of_ext. intros x Hx. apply H. lia.
Qed.

Lemma chunks_of_split S a b c : a <= b <= c -> chunks_of S a c = chunks_of S a b ++ chunks_of S b c.
Proof.
  intros H. unfold chunks_of. replace (c - a) with ((b - a) + (c - b)) by lia. rewrite seqZ_app by lia.
  rewrite map_app. do 3 f_equal. lia.
Qed.

(** Bits as an iterator yields them: ascending, and far from the end of the range. *)
Definition wf_bits (S : list Z) : Prop := StronglySorted Z.lt S /\ Forall (fun x => 0 <= x < 2 ^ 60) S.

Definition steps_left (idx : list Z) (k : Z) : Z :=
  match last idx with None => 0 | Some x => Z.of_nat (length idx) + Z.max 0 (chunk_idx x - k) + 1 end.

Lemma sorted_last_ge (l : list Z) x y : StronglySorted Z.lt (x :: l) -> last (x :: l) = Some y -> x <= y.
Proof.
  intros Hs Hl. apply last_Some_elem_of in Hl. apply elem_of_cons in Hl as [->|Hl]; [lia|].
  apply StronglySorted_inv in Hs as [_ Hs]. rewrite Forall_forall in Hs.
  specialize (Hs y Hl). lia.
Qed.

Lemma steps_left_tail x idx k : steps_left idx k + 1 <= steps_left (x :: idx) k.
Proof.
  unfold steps_left. destruct idx as [|y idx]; [cbn; lia|]. rewrite (last_cons x).
  destruct (last (y :: idx)) eqn:E; [cbn [length]; lia|]. apply last_None in E. done.
Qed.

Lemma steps_left_chunk x idx k :
  StronglySorted Z.lt (x :: idx) -> (k + 1) * 1024 <= x -> steps_left (x :: idx) (k + 1) + 1 <= steps_left (x :: idx) k.
Proof.
  intros Hs Hx. unfold steps_left. destruct (last (x :: idx)) as [y|] eqn:E; [|apply last_None in E; done].
  apply (sorted_last_ge _ _ _ Hs) in E. unfold chunk_idx.
  assert (k + 1 <= y / 1024) by (apply Z.div_le_lower_bound; lia). lia.
Qed.

Lemma apply_loop_spec (fuel : nat) from : forall pre idx k cs acc,
  0 <= from <= k -> k <= 2 ^ 51 -> wf_bits (pre ++ idx) -> Forall (fun x => x < (k + 1) * 1024) pre ->
  (k = from \/ (Forall (fun x => k * 1024 <= x) idx /\ idx <> []) \/ exists x, x ∈ pre /\ k * 1024 <= x) ->
  acc_holds acc (cs ++ chunks_of (pre ++ idx) from k) -> Z.of_nat (length cs) = from ->
  steps_left idx k <= Z.of_nat fuel ->
  exists k' acc', apply_loop fuel idx k (chunk_of pre k) acc = Ok (chunk_of (pre ++ idx) k', acc') /\
    from <= k' /\ Forall (fun x => x < (k' + 1) * 1024) (pre ++ idx) /\
    (k' = from \/ exists x, x ∈ pre ++ idx /\ k' * 1024 <= x) /\
    acc_holds acc' (cs ++ chunks_of (pre ++ idx) from k').
Proof.
  induction fuel as [|fuel IH]; intros pre idx k cs acc Hk Hk2 Hwf Hpre Hdis Hacc Hcs Hfuel.
  all: destruct idx as [|x idx].
  1, 3: exists k, acc; rewrite app_nil_r in *; cbn [apply_loop]; (split; [done|]); (split; [lia|]); (split; [done|]);
    (split; [|done]); destruct Hdis as [->|[[_ ?]|Hex]]; [left; done|done|right; exact Hex].
  { exfalso. unfold steps_left in Hfuel. destruct (last (x :: idx)) eqn:E; [cbn [length] in Hfuel; lia|]. apply last_None in E. done. }
  cbn [apply_loop]. pose proof Hwf as [Hs Hb]. apply Forall_app in Hb as [_ Hb]. apply Forall_cons in Hb as [Hx _].
  assert (Hsx : StronglySorted Z.lt (x :: idx)) by (apply (StronglySorted_app_1_r Z.lt pre); done).
  assert (Hpx : forall y, y ∈ pre -> y < x).
  { intros y Hy. apply (StronglySorted_app_1_elem_of Z.lt pre (x :: idx)); [done|done|set_solver]. }
  change (2 ^ 60) with 1152921504606846976 in Hx. change (2 ^ 51) with 2251799813685248 in *.
  rewrite !mul64_small, !add64_small by (rewrite ?add64_small; lia).
  pose proof (steps_left_tail x idx k) as Hst. assert (Happ : pre ++ x :: idx = (pre ++ [x]) ++ idx) by (rewrite <- app_assoc; done).
  destruct (Z.ltb_spec x (k * 1024)) as [Hlt|Hge].
  - assert (k = from) as -> by (destruct Hdis as [->|[[Hf _]|(y & Hy & Hyk)]]; [done|apply Forall_cons in Hf as [? _]; lia|
      specialize (Hpx y Hy); lia]).
    rewrite <- (chunk_of_ext (pre ++ [x]) pre) by (intros y Hy; rewrite elem_of_app, list_elem_of_singleton; intuition lia).
    rewrite Happ in *. apply IH; try done; [apply Forall_app; split; [done|]; repeat constructor; lia|left; done|lia].
  - destruct (Z.ltb_spec x ((k + 1) * 1024)) as [Hin|Hout].
    + rewrite chunk_set_of by lia. cbn [res_bind]. rewrite Happ in *.
      apply IH; try done; [apply Forall_app; split; [done|]; repeat constructor; lia| |lia].
      right. right. exists x. split; [set_solver|lia].
    + assert (Hrest : forall y, y ∈ x :: idx -> (k + 1) * 1024 <= y).
      { intros y Hy. apply StronglySorted_inv in Hsx as [_ Hsx]. rewrite Forall_forall in Hsx.
        apply elem_of_cons in Hy as [->|Hy]; [lia|]. specialize (Hsx y Hy). lia. }
      rewrite (chunk_of_ext pre (pre ++ x :: idx)).
      2: { intros y Hy. rewrite elem_of_app. split; [auto|]. intros [H|H]; [done|]. specialize (Hrest y H). lia. }
      destruct (append_holds acc _ (chunk_of (pre ++ x :: idx) k) Hacc) as (pos & acc1 & -> & Hacc1).
      { rewrite length_app. rewrite Nat2Z.inj_add, chunks_of_length by lia. split; [lia|]. change (2 ^ 61) with 2305843009213693952. lia. }
      cbn [res_bind]. rewrite <- app_assoc, <- chunks_of_snoc in Hacc1 by lia.
      rewrite <- (chunk_of_nil (k + 1)), (chunk_of_ext [] pre).
      2: { intros y Hy. split; [set_solver|]. intros H. rewrite Forall_forall in Hpre. specialize (Hpre y H). lia. }
      pose proof (steps_left_chunk x idx k Hsx Hout).
      apply IH; try done; [lia| | | |lia].
      * change (2 ^ 60) with 1152921504606846976. lia.
      * eapply Forall_impl; [exact Hpre|]. cbn. intros; lia.
      * right. left. split; [|done]. apply Forall_forall. exact Hrest.
Qed.

(** ** Applying bits from a chunk on *)

Definition below (size : Z) (idx : list Z) : list Z := List.filter (fun x => x <? size) idx.
Definition above (start : Z) (idx : list Z) : list Z := List.filter (fun x => start <=? x) idx.

Lemma below_elem size idx x : x ∈ below size idx <-> x ∈ idx /\ x < size.
Proof. unfold below. rewrite !list_elem_of_In, List.filter_In, Z.ltb_lt. done. Qed.
Lemma above_elem start idx x : x ∈ above start idx <-> x ∈ idx /\ start <= x.
Proof. unfold above. rewrite !list_elem_of_In, List.filter_In, Z.leb_le. done. Qed.

Lemma wf_bits_filter f idx : wf_bits idx -> wf_bits (List.filter f idx).
Proof.
  intros [Hs Hb]. induction idx as [|x idx IH]; [done|]. apply StronglySorted_inv in Hs as [Hs Hx].
  apply Forall_cons in Hb as [Hb0 Hb]. destruct (IH Hs Hb) as [Hs' Hb']. cbn. destruct (f x); [|done]. split; [|by constructor].
  constructor; [done|]. rewrite List.Forall_forall in *. intros y Hy%List.filter_In. apply Hx, Hy.
Qed.

Lemma last_max idx x y : wf_bits idx -> last idx = Some y -> x ∈ idx -> x <= y.
Proof.
  intros [Hs _] (l & ->)%last_Some Hx. apply elem_of_app in Hx as [Hx|Hx%list_elem_of_singleton]; [|lia].
  pose proof (StronglySorted_app_1_elem_of Z.lt l [y] x y Hs Hx ltac:(set_solver)). lia.
Qed.

Lemma n_chunks_max idx k :
  wf_bits idx -> 0 <= k -> Forall (fun x => x < (k + 1) * 1024) idx -> (exists x, x ∈ idx /\ k * 1024 <= x) -> n_chunks idx = k + 1.
Proof.
  intros Hwf Hk Hall (x & Hx & Hkx). unfold n_chunks. destruct (last idx) as [y|] eqn:E.
  2: { apply last_None in E. subst. set_solver. }
  pose proof (last_max _ _ _ Hwf E Hx). apply last_Some_elem_of in E. rewrite Forall_forall in Hall. specialize (Hall y E).
  unfold chunk_idx. f_equal. symmetry. apply Z.div_unique with (r := y - 1024 * k); lia.
Qed.

Lemma n_chunks_le idx k : wf_bits idx -> 0 <= k -> Forall (fun x => x < k * 1024) idx -> n_chunks idx <= k.
Proof.
  intros [Hs Hb] Hk Hall. unfold n_chunks. destruct (last idx) as [y|] eqn:E; [|lia].
  apply last_Some_elem_of in E. rewrite Forall_forall in Hall. specialize (Hall y E). unfold chunk_idx.
  assert (y / 1024 < k) by (apply Z.div_lt_upper_bound; lia). lia.
Qed.

Lemma apply_from_holds acc cs idx from_idx size :
  wf_bits idx -> 0 <= from_idx < 2 ^ 60 -> acc_holds acc cs -> Z.of_nat (length cs) = chunk_idx from_idx ->
  exists acc', apply_from acc idx from_idx size = Ok acc' /\
    acc_holds acc' (cs ++ chunks_of (below size idx) (chunk_idx from_idx)
      (Z.max (chunk_idx from_idx) (n_chunks (below size idx)))).
Proof.
  intros Hwf Hf Hacc Hcs. unfold apply_from. fold (below size idx).
  pose proof (wf_bits_filter (fun x => x <? size) idx Hwf) as Hwf'. fold (below size idx) in Hwf'.
  generalize dependent (below size idx). clear Hwf idx. intros idx Hwf.
  assert (Hf0 : 0 <= chunk_idx from_idx <= 2 ^ 50).
  { unfold chunk_idx. change (2 ^ 60) with 1152921504606846976 in Hf. change (2 ^ 50) with 1125899906842624. Z.div_mod_to_equations; lia. }
  change (2 ^ 50) with 1125899906842624 in Hf0. set (from := chunk_idx from_idx) in *.
  rewrite <- (chunk_of_nil from).
  destruct (apply_loop_spec (apply_fuel idx) from [] idx from cs acc) as (k & acc1 & -> & Hk & Hall & Hdis & Hacc1); try done.
  { lia. }
  { change (2 ^ 51) with 2251799813685248. lia. }
  { left. done. }
  { unfold chunks_of. rewrite Z.sub_diag. cbn. rewrite app_nil_r. done. }
  { unfold steps_left, apply_fuel. destruct (last idx) as [y|] eqn:E; cbn [default]; [|lia].
    assert (0 <= chunk_idx y); [|unfold from in *; cbn; lia]. destruct Hwf as [_ Hb]. apply last_Some_elem_of in E.
    rewrite Forall_forall in Hb. specialize (Hb y E). apply Z.div_pos; lia. }
  cbn [res_bind app] in *. destruct (chunk_any (chunk_of idx k)) eqn:Ea.
  - apply chunk_any_of in Ea as (x & Hx & Hkx).
    rewrite (n_chunks_max idx k) by (done || lia || (exists x; split; [done|lia])).
    rewrite Z.max_r by lia. rewrite chunks_of_snoc, app_assoc by done.
    assert (Hk2 : k < 2 ^ 50).
    { destruct Hwf as [_ Hb]. rewrite Forall_forall in Hb. specialize (Hb x Hx). change (2 ^ 60) with 1152921504606846976 in Hb.
      change (2 ^ 50) with 1125899906842624. lia. }
    destruct (append_holds acc1 _ (chunk_of idx k) Hacc1) as (pos & acc2 & -> & Hacc2).
    { rewrite length_app, Nat2Z.inj_add, chunks_of_length by lia. change (2 ^ 50) with 1125899906842624 in Hk2. split; [lia|].
      change (2 ^ 61) with 2305843009213693952. lia. }
    eexists. split; [done|]. done.
  - assert (Hno : forall x, x ∈ idx -> x < k * 1024).
    { intros x Hx. rewrite Forall_forall in Hall. specialize (Hall x Hx). destruct (Z.lt_ge_cases x (k * 1024)); [done|].
      rewrite (proj2 (chunk_any_of idx k)) in Ea; [done|]. exists x. split; [done|lia]. }
    assert (k = from) as -> by (destruct Hdis as [->|(x & Hx & Hkx)]; [done|specialize (Hno x Hx); lia]).
    pose proof (n_chunks_le idx from Hwf ltac:(lia) (proj2 (Forall_forall _ _) Hno)).
    rewrite Z.max_l by lia. eexists. split; [done|]. done.
Qed.

(** ** Rewinding and padding *)

Lemma rewind_prior_holds acc cs from_idx :
  acc_holds acc cs -> 0 <= from_idx < 2 ^ 60 ->
  exists acc', rewind_prior acc from_idx = Ok acc' /\ acc_holds acc' (take (Z.to_nat (chunk_idx from_idx)) cs).
Proof.
  intros Hacc Hf. assert (Hk : 0 <= chunk_idx from_idx < 2 ^ 51).
  { unfold chunk_idx. change (2 ^ 60) with 1152921504606846976 in Hf. change (2 ^ 51) with 2251799813685248. Z.div_mod_to_equations; lia. }
  change (2 ^ 51) with 2251799813685248 in Hk. set (k := chunk_idx from_idx) in *.
  assert (Hsm : small_leaves k) by (split; [lia|]; change (2 ^ 61) with 2305843009213693952; lia).
  pose proof (mmr_size_bounds k (proj1 Hk)) as Hm.
  assert (Hpos : saturating_sub (insertion_to_pmmr_index (k + 1)%u64) 1 = mmr_size k).
  { rewrite add64_small by lia. rewrite insertion_index_node by done. unfold saturating_sub, node_pos. lia. }
  unfold rewind_prior, acc_err. fold k. rewrite Hpos. destruct (Z.le_gt_cases k (Z.of_nat (length cs))) as [Hle|Hgt].
  - destruct (rewind_represents (at_ acc (vec_size acc)) (take (Z.to_nat k) cs) (drop (Z.to_nat k) cs) (mmr_size k) bm_create)
      as (p & -> & Hp); [rewrite take_drop; done|right; rewrite length_take; f_equal; lia|].
    cbn [map_err res_bind]. eexists. split; [done|]. eapply acc_at; done.
  - unfold rewind. rewrite rewind_loop_size by done.
    destruct (rewind_file (backend (at_ acc (vec_size acc))) (mmr_size k) bm_create ltac:(lia)) as (b' & -> & Hb').
    cbn [map_err res_bind backend]. eexists. split; [done|]. rewrite take_ge by lia. destruct Hacc as (Hr & Hl & Hs).
    pose proof Hr as [Hlen _]. pose proof (mmr_size_mono (Z.of_nat (length cs)) k ltac:(lia)).
    rewrite take_ge in Hb' by lia. apply (acc_at b' cs (mkPMMR (vec_size acc) b')); [|done].
    split; [cbn [backend]; rewrite Hb'; exact Hr|done].
Qed.

Lemma pad_loop_holds n : forall acc cs,
  acc_holds acc cs -> small_leaves (Z.of_nat (length cs + n)) ->
  exists acc', pad_loop n acc = Ok acc' /\ acc_holds acc' (cs ++ replicate n chunk_new).
Proof.
  induction n as [|n IH]; intros acc cs Hacc Hs; cbn [pad_loop].
  { eexists. split; [done|]. rewrite app_nil_r. done. }
  destruct (append_holds acc cs chunk_new Hacc) as (pos & acc1 & -> & Hacc1); [destruct Hs; split; lia|].
  cbn [res_bind]. destruct (IH acc1 _ Hacc1) as (acc2 & -> & Hacc2); [rewrite length_app; cbn; destruct Hs; split; lia|].
  eexists. split; [done|]. rewrite <- app_assoc in Hacc2. done.
Qed.

Lemma pad_left_holds acc cs from_idx :
  acc_holds acc cs -> 0 <= from_idx < 2 ^ 60 ->
  exists acc', pad_left acc from_idx = Ok acc' /\
    acc_holds acc' (cs ++ replicate (Z.to_nat (chunk_idx from_idx) - length cs) chunk_new).
Proof.
  intros Hacc Hf. pose proof Hacc as (Hr & Hl & Hs). assert (Hk : 0 <= chunk_idx from_idx < 2 ^ 51).
  { unfold chunk_idx. change (2 ^ 60) with 1152921504606846976 in Hf. change (2 ^ 51) with 2251799813685248. Z.div_mod_to_equations; lia. }
  unfold pad_left. cbn [at_ last_pos] in Hl. rewrite Hl. pose proof (mmr_size_bounds _ (proj1 Hs)).
  rewrite <- (Z.add_0_r (mmr_size _)), n_leaves_node; [|apply leaf_is_node; lia|destruct Hs; change (2 ^ 61) with 2305843009213693952 in *; lia].
  cbn [Z.eqb]. rewrite Z.add_0_r. replace (Z.to_nat (chunk_idx from_idx - Z.of_nat (length cs))) with (Z.to_nat (chunk_idx from_idx) - length cs)%nat by lia.
  apply pad_loop_holds; [done|]. change (2 ^ 51) with 2251799813685248 in Hk. destruct Hs. split; [lia|]. change (2 ^ 61) with 2305843009213693952 in *. lia.
Qed.

(** ** Updating a bitmap *)

(** The bits after an update from [from_idx] on: those of the chunks before are kept,
    the others are the new ones below [size]. *)
Definition updated (S : list Z) (from_idx : Z) (idx : list Z) (size : Z) : list Z :=
  below (chunk_start_idx from_idx) S ++ above (chunk_start_idx from_idx) (below size idx).

(** The chunks of a bitmap up to its last set bit, as built by [init]. *)
Definition acc_of acc (S : list Z) : Prop := acc_holds acc (chunks_of S 0 (n_chunks S)).

Lemma chunk_start idx : 0 <= idx -> chunk_start_idx idx = chunk_idx idx * 1024.
Proof.
  intros H. unfold chunk_start_idx, chunk_idx. change 1023 with (Z.ones 10). rewrite <- Z.ldiff_land, Z.ldiff_ones_r by lia.
  rewrite Z.shiftl_mul_pow2, Z.shiftr_div_pow2 by lia. done.
Qed.

Lemma updated_wf S from_idx idx size : wf_bits S -> wf_bits idx -> wf_bits (updated S from_idx idx size).
Proof.
  intros HS Hi. unfold updated. destruct (wf_bits_filter (fun x => x <? chunk_start_idx from_idx) S HS) as [A1 A2].
  destruct (wf_bits_filter (fun x => x <? size) idx Hi) as [B1 B2].
  destruct (wf_bits_filter (fun x => chunk_start_idx from_idx <=? x) _ (conj B1 B2)) as [C1 C2].
  split; [|apply Forall_app; done]. apply StronglySorted_app. split; [|done].
  intros x y Hx%below_elem Hy%above_elem. lia.
Qed.

Lemma chunks_of_one S k : chunks_of S k (k + 1) = [chunk_of S k].
Proof. unfold chunks_of. replace (k + 1 - k) with 1 by lia. done. Qed.

Lemma chunks_past S k (n : nat) :
  wf_bits S -> n_chunks S <= k -> chunks_of S k (k + Z.of_nat n) = replicate n chunk_new.
Proof.
  intros Hwf. revert k. induction n as [|n IH]; intros k Hk; [unfold chunks_of; rewrite Z.add_0_r, Z.sub_diag; done|].
  rewrite (chunks_of_split S k (k + 1)) by lia. replace (k + Z.of_nat (Datatypes.S n)) with (k + 1 + Z.of_nat n) by lia.
  rewrite IH by lia. rewrite chunks_of_one. cbn [replicate app]. f_equal. rewrite <- (chunk_of_nil k).
  apply chunk_of_ext. intros x Hx. split; [|set_solver]. intros Hin. exfalso.
  unfold n_chunks in Hk. destruct (last S) as [y|] eqn:E; [|apply last_None in E; subst; set_solver].
  pose proof (last_max _ _ _ Hwf E Hin). unfold chunk_idx in Hk. assert (y / 1024 < k) by lia. Z.div_mod_to_equations; lia.
Qed.

(** The first [k] chunks, padded with empty ones. *)
Lemma take_pad S (k : Z) :
  wf_bits S -> 0 <= k -> 0 <= n_chunks S ->
  let cs := take (Z.to_nat k) (chunks_of S 0 (n_chunks S)) in
  cs ++ replicate (Z.to_nat k - length cs) chunk_new = chunks_of S 0 k.
Proof.
  intros Hwf Hk Hn cs. subst cs. pose proof (chunks_of_length S 0 (n_chunks S) Hn) as Hl.
  destruct (Z.le_gt_cases k (n_chunks S)) as [Hle|Hgt].
  - rewrite (chunks_of_split S 0 k) by lia. pose proof (chunks_of_length S 0 k Hk) as Hl'.
    rewrite take_app_length' by lia. replace (Z.to_nat k - _)%nat with 0%nat by lia. apply app_nil_r.
  - rewrite take_ge by lia. rewrite (chunks_of_split S 0 (n_chunks S) k) by lia. f_equal.
    replace k with (n_chunks S + Z.of_nat (Z.to_nat k - length (chunks_of S 0 (n_chunks S)))) at 2 by lia.
    symmetry. apply chunks_past; [done|lia].
Qed.

Lemma n_chunks_nonneg S : wf_bits S -> 0 <= n_chunks S.
Proof.
  intros [_ Hb]. unfold n_chunks. destruct (last S) eqn:E; [|lia]. apply last_Some_elem_of in E. rewrite Forall_forall in Hb.
  specialize (Hb _ E). unfold chunk_idx. pose proof (Z.div_pos z 1024). lia.
Qed.

Lemma acc_init_of idx size :
  wf_bits idx -> exists acc, acc_init acc_new idx size = Ok acc /\ acc_of acc (below size idx).
Proof.
  intros Hwf. destruct (apply_from_holds acc_new [] idx 0 size Hwf) as (acc & E & H); [lia|apply acc_new_holds|done|].
  exists acc. split; [exact E|]. unfold acc_of. change (chunk_idx 0) with 0 in H.
  rewrite Z.max_r in H by (apply n_chunks_nonneg, wf_bits_filter; done). exact H.
Qed.

Lemma last_app_some (l1 l2 : list Z) y : last l2 = Some y -> last (l1 ++ l2) = Some y.
Proof. intros H. rewrite last_app, H. done. Qed.

Lemma acc_apply_holds acc S from_idx invalidated idx size :
  wf_bits S -> wf_bits idx -> 0 <= from_idx < 2 ^ 60 -> acc_of acc S ->
  exists acc', acc_apply acc (from_idx :: invalidated) idx size = Ok acc' /\
    acc_holds acc' (chunks_of (updated S from_idx idx size) 0
      (Z.max (chunk_idx from_idx) (n_chunks (updated S from_idx idx size)))).
Proof.
  intros HS Hi Hf Hacc. unfold acc_apply. set (k := chunk_idx from_idx).
  assert (Hk : 0 <= k) by (apply Z.div_pos; lia). pose proof (chunk_start from_idx ltac:(lia)) as Hst. fold k in Hst.
  destruct (rewind_prior_holds _ _ _ Hacc Hf) as (acc1 & -> & H1). cbn [res_bind].
  destruct (pad_left_holds _ _ _ H1 Hf) as (acc2 & -> & H2). cbn [res_bind]. fold k in H1, H2.
  rewrite take_pad in H2 by (done || apply n_chunks_nonneg; done).
  destruct (apply_from_holds acc2 _ idx from_idx size Hi Hf H2) as (acc3 & -> & H3);
    [rewrite chunks_of_length by lia; fold k; lia|]. fold k in H3.
  eexists. split; [done|]. set (S' := updated S from_idx idx size) in *.
  assert (Hn : Z.max k (n_chunks S') = Z.max k (n_chunks (below size idx))).
  { unfold S', updated. destruct (last (above (chunk_start_idx from_idx) (below size idx))) as [y|] eqn:E.
    - unfold n_chunks. rewrite (last_app_some _ _ _ E). pose proof (last_Some_elem_of _ _ E) as Hy. apply above_elem in Hy as [Hy Hky].
      pose proof (wf_bits_filter (fun x => x <? size) idx Hi) as Hw. fold (below size idx) in Hw.
      pose proof (wf_bits_filter (fun x => chunk_start_idx from_idx <=? x) _ Hw) as Hw'.
      destruct (last (below size idx)) as [z|] eqn:Ez; [|apply last_None in Ez; rewrite Ez in Hy; set_solver].
      pose proof (last_max _ _ _ Hw Ez Hy). enough (z <= y) by (replace z with y by lia; done).
      apply (last_max _ _ _ Hw' E). apply above_elem. split; [apply last_Some_elem_of; done|lia].
    - apply last_None in E. rewrite E, app_nil_r. rewrite !Z.max_l; [done| |].
      + apply n_chunks_le; [apply wf_bits_filter; done|lia|]. apply Forall_forall. intros x Hx.
        destruct (Z.lt_ge_cases x (k * 1024)); [done|]. exfalso. apply (not_elem_of_nil x). rewrite <- E. apply above_elem. split; [done|lia].
      + apply n_chunks_le; [apply wf_bits_filter; done|lia|]. apply Forall_forall. intros x [_ Hx]%below_elem. lia. }
  rewrite Hn, (chunks_of_split S' 0 k) by lia. rewrite (chunks_of_ext S' S 0 k), (chunks_of_ext S' (below size idx) k); [done| |];
    intros x Hx; unfold S', updated; rewrite elem_of_app, below_elem, above_elem; intuition lia.
Qed.

(** C16: an accumulator that holds the chunks of a bitmap, updated in place from the first invalidated
    bit on ([apply]: rewind, pad, append), has the hashes and the root of one built from scratch over
    the updated bits, whatever its history, as long as a bit at or after the first invalidated chunk is
    set (the last output of a block is unspent when the block is applied). *)
Theorem update_equals_rebuild acc S from_idx invalidated idx size :
  wf_bits S -> wf_bits idx -> 0 <= from_idx < 2 ^ 60 -> acc_of acc S ->
  Exists (fun x => chunk_start_idx from_idx <= x < size) idx ->
  exists acc' scratch,
    acc_apply acc (from_idx :: invalidated) idx size = Ok acc' /\
    acc_init acc_new (updated S from_idx idx size) size = Ok scratch /\
    acc_of acc' (updated S from_idx idx size) /\
    hashes acc' = hashes scratch /\ acc_root acc' = acc_root scratch.
Proof.
  intros HS Hi Hf Hacc Hex. apply Exists_exists in Hex as (x & Hx & Hxr).
  destruct (acc_apply_holds acc S from_idx invalidated idx size HS Hi Hf Hacc) as (acc' & E & H).
  set (S' := updated S from_idx idx size) in *. assert (HS' : wf_bits S') by (apply updated_wf; done).
  destruct (acc_init_of S' size HS') as (scratch & E2 & H2). exists acc', scratch.
  assert (Hb : below size S' = S').
  { apply List.forallb_filter_id. apply List.forallb_forall. intros y Hy. apply Z.ltb_lt. apply list_elem_of_In in Hy.
    unfold S', updated in Hy. rewrite elem_of_app, above_elem, !below_elem in Hy. intuition lia. }
  rewrite Hb in H2. assert (Hk : chunk_idx from_idx <= n_chunks S').
  { unfold n_chunks. rewrite chunk_start in Hxr by lia.
    assert (Hx' : x ∈ S') by (unfold S', updated; rewrite elem_of_app, above_elem, !below_elem, chunk_start by lia; intuition lia).
    destruct (last S') as [y|] eqn:Ey; [|apply last_None in Ey; rewrite Ey in Hx'; apply not_elem_of_nil in Hx'; done].
    pose proof (last_max S' x y HS' Ey Hx').
    unfold chunk_idx in *. assert (from_idx / 1024 <= y / 1024) by (apply Z.div_le_lower_bound; lia). lia. }
  rewrite Z.max_r in H by done. split; [done|]. split; [done|]. split; [done|].
  destruct (represents_root _ _ _ H H2) as (_ & _ & Eh).
  pose proof (eq_trans (pmmr_peaks_spec _ _ H) (eq_sym (pmmr_peaks_spec _ _ H2))) as Ep. split; [exact Eh|].
  unfold acc_root, readonly_root, is_empty, unpruned_size. destruct H as (? & Hl & ?), H2 as (? & Hl2 & ?).
  rewrite Ep, Hl, Hl2. done.
Qed.
End Accumulator.

(** ** Runs *)

#[local] Existing Instance demo_digest.

(** Chunks 0 and 2 of three are rebuilt: the bits 3 and 2048 are spent, 2049 and 3000 are added. *)
Definition demo_acc : VecBackend bytes BitmapChunk :=
  match acc_init (Bitmap := gset Z) acc_new [3; 1030; 2048] 2049 with Ok acc => acc | _ => acc_new end.

Lemma demo_wf (l : list Z) :
  List.forallb (fun x => (0 <=? x) && (x <? 2 ^ 60)) l = true -> Sorted.Sorted Z.lt l -> wf_bits l.
Proof.
  intros H Hs. split; [apply Sorted_StronglySorted; [|done]; intros x y z; lia|].
  rewrite List.forallb_forall in H. apply List.Forall_forall. intros x Hx%H. lia.
Qed.

Lemma update_equals_rebuild_witness :
  exists acc' scratch,
    acc_apply (Bitmap := gset Z) demo_acc [3; 2048] [1030; 2049; 3000] 3001 = Ok acc' /\
    acc_init (Bitmap := gset Z) acc_new [1030; 2049; 3000] 3001 = Ok scratch /\
    acc_root (Bitmap := gset Z) acc' = acc_root (Bitmap := gset Z) scratch.
Proof.
  destruct (update_equals_rebuild (Bitmap := gset Z) demo_acc [3; 1030; 2048] 3 [2048] [1030; 2049; 3000] 3001)
    as (acc' & scratch & E1 & E2 & _ & _ & E3).
  - apply demo_wf; [reflexivity|repeat constructor].
  - apply demo_wf; [reflexivity|repeat constructor].
  - lia.
  - destruct (acc_init_of (Bitmap := gset Z) (Hash := bytes) [3; 1030; 2048] 2049) as (acc & E & H);
      [apply demo_wf; [reflexivity|repeat constructor]|].
    replace demo_acc with acc by (unfold demo_acc; rewrite E; reflexivity). exact H.
  - apply Exists_cons_hd. vm_compute. split; [discriminate|reflexivity].
  - exists acc', scratch. split; [exact E1|]. split; [exact E2|exact E3].
Defined.

(** The root of an accumulator after a computation. *)
Definition root_after (c : res ErrorKind (VecBackend bytes BitmapChunk)) : option bytes :=
  match c with
  | Ok acc => match acc_root (Bitmap := gset Z) acc with Ok r => Some r | _ => None end
  | _ => None
  end.

(** The chunks held do not cover [size], though [apply] documents two chunks for a size of 1024:
    the trailing empty chunks are not appended, so that a bitmap of [size] 3000 with bit 0 set has a single chunk.
    And the chunks held depend on the history: with bits 0, 1024 and 2048 set and the last two spent in two steps, the
    middle chunk stays as an empty one and the root differs from that of bit 0 alone. *)
Theorem trailing_chunks_depend_on_history :
  match acc_init (Bitmap := gset Z) (Hash := bytes) acc_new [0] 3000 with
  | Ok acc => n_leaves (vec_size acc) = 1
  | _ => False
  end /\
  let spent :=
    let? acc := acc_init (Bitmap := gset Z) acc_new [0; 1024; 2048] 3000 in
    let? acc := acc_apply (Bitmap := gset Z) acc [1024] [0; 2048] 3000 in
    acc_apply (Bitmap := gset Z) acc [2048] [0] 3000 in
  root_after spent <> None /\
  root_after spent <> root_after (acc_init (Bitmap := gset Z) acc_new [0] 3000).
Proof.
  split; [vm_compute; reflexivity|].
  split; vm_compute; discriminate.
Qed.
