(* ===== verification/ChainStore.v ===== *)
(** * The chain store

    Models [chain/src/store.rs]: the database behind the chain, and the batches
    in which it is changed ([store/src/lmdb.rs]).

    LMDB is external: a database is modelled as a typed map per key prefix, a read
    transaction as the committed database and a write transaction as a copy of it, with
    the documented behaviour that a child transaction starts from its parent's content, that
    committing it replaces the parent's content, and that deleting a missing key fails.
    Values are written in their binary form and read back; the maps hold the values (the round
    trips of blocks, headers and transactions are theorems of [Block] and [TxBody]).

    As in the source, [exists], [get] and [iter] of a batch read the committed database
    and not the batch; only [get_ser] sees what the batch has written. *)

From Stdlib Require Import ZArith Lia List Bool.
From stdpp Require Import base numbers list option gmap.
From S2P Require Import Prelude MmrIndex Pmmr Bytes Consensus Ser Bitmap PowTypes Transaction TxBody Committed Verifier Aggregate Block ChainTypes.

(** ** The database *)

(** One map per key prefix *)
Record ChainStore := mkDb {
  db_head : option Tip;
  db_tail : option Tip;
  db_headers : gmap bytes BlockHeader;
  db_blocks : gmap bytes Block;
  db_sums : gmap bytes BlockSums;
  db_token_sums : gmap bytes BlockTokenSums;
  db_output_pos : gmap Commitment (Z * Z);
  db_token_output_pos : gmap Commitment (Z * Z);
  db_issue_pos : gmap TokenKey Z;
  db_spent : gmap bytes (list CommitPos);
  db_token_spent : gmap bytes (list CommitPos);
  db_bitmap : gmap bytes bytes;
  db_token_bitmap : gmap bytes bytes
}.

Definition empty_db : ChainStore := mkDb None None ∅ ∅ ∅ ∅ ∅ ∅ ∅ ∅ ∅ ∅ ∅.

Definition set_head (s : ChainStore) (x : option Tip) : ChainStore :=
  mkDb x (db_tail s) (db_headers s) (db_blocks s) (db_sums s) (db_token_sums s) (db_output_pos s)
    (db_token_output_pos s) (db_issue_pos s) (db_spent s) (db_token_spent s) (db_bitmap s)
    (db_token_bitmap s).
Definition set_tail (s : ChainStore) (x : option Tip) : ChainStore :=
  mkDb (db_head s) x (db_headers s) (db_blocks s) (db_sums s) (db_token_sums s) (db_output_pos s)
    (db_token_output_pos s) (db_issue_pos s) (db_spent s) (db_token_spent s) (db_bitmap s)
    (db_token_bitmap s).
Definition set_headers (s : ChainStore) (x : gmap bytes BlockHeader) : ChainStore :=
  mkDb (db_head s) (db_tail s) x (db_blocks s) (db_sums s) (db_token_sums s) (db_output_pos s)
    (db_token_output_pos s) (db_issue_pos s) (db_spent s) (db_token_spent s) (db_bitmap s)
    (db_token_bitmap s).
Definition set_blocks (s : ChainStore) (x : gmap bytes Block) : ChainStore :=
  mkDb (db_head s) (db_tail s) (db_headers s) x (db_sums s) (db_token_sums s) (db_output_pos s)
    (db_token_output_pos s) (db_issue_pos s) (db_spent s) (db_token_spent s) (db_bitmap s)
    (db_token_bitmap s).
Definition set_sums (s : ChainStore) (x : gmap bytes BlockSums) : ChainStore :=
  mkDb (db_head s) (db_tail s) (db_headers s) (db_blocks s) x (db_token_sums s) (db_output_pos s)
    (db_token_output_pos s) (db_issue_pos s) (db_spent s) (db_token_spent s) (db_bitmap s)
    (db_token_bitmap s).
Definition set_token_sums (s : ChainStore) (x : gmap bytes BlockTokenSums) : ChainStore :=
  mkDb (db_head s) (db_tail s) (db_headers s) (db_blocks s) (db_sums s) x (db_output_pos s)
    (db_token_output_pos s) (db_issue_pos s) (db_spent s) (db_token_spent s) (db_bitmap s)
    (db_token_bitmap s).
Definition set_output_pos (s : ChainStore) (x : gmap Commitment (Z * Z)) : ChainStore :=
  mkDb (db_head s) (db_tail s) (db_headers s) (db_blocks s) (db_sums s) (db_token_sums s) x
    (db_token_output_pos s) (db_issue_pos s) (db_spent s) (db_token_spent s) (db_bitmap s)
    (db_token_bitmap s).
Definition set_token_output_pos (s : ChainStore) (x : gmap Commitment (Z * Z)) : ChainStore :=
  mkDb (db_head s) (db_tail s) (db_headers s) (db_blocks s) (db_sums s) (db_token_sums s)
    (db_output_pos s) x (db_issue_pos s) (db_spent s) (db_token_spent s) (db_bitmap s)
    (db_token_bitmap s).
Definition set_issue_pos (s : ChainStore) (x : gmap TokenKey Z) : ChainStore :=
  mkDb (db_head s) (db_tail s) (db_headers s) (db_blocks s) (db_sums s) (db_token_sums s)
    (db_output_pos s) (db_token_output_pos s) x (db_spent s) (db_token_spent s) (db_bitmap s)
    (db_token_bitmap s).
Definition set_spent (s : ChainStore) (x : gmap bytes (list CommitPos)) : ChainStore :=
  mkDb (db_head s) (db_tail s) (db_headers s) (db_blocks s) (db_sums s) (db_token_sums s)
    (db_output_pos s) (db_token_output_pos s) (db_issue_pos s) x (db_token_spent s) (db_bitmap s)
    (db_token_bitmap s).
Definition set_token_spent (s : ChainStore) (x : gmap bytes (list CommitPos)) : ChainStore :=
  mkDb (db_head s) (db_tail s) (db_headers s) (db_blocks s) (db_sums s) (db_token_sums s)
    (db_output_pos s) (db_token_output_pos s) (db_issue_pos s) (db_spent s) x (db_bitmap s)
    (db_token_bitmap s).
Definition set_bitmap (s : ChainStore) (x : gmap bytes bytes) : ChainStore :=
  mkDb (db_head s) (db_tail s) (db_headers s) (db_blocks s) (db_sums s) (db_token_sums s)
    (db_output_pos s) (db_token_output_pos s) (db_issue_pos s) (db_spent s) (db_token_spent s) x
    (db_token_bitmap s).
Definition set_token_bitmap (s : ChainStore) (x : gmap bytes bytes) : ChainStore :=
  mkDb (db_head s) (db_tail s) (db_headers s) (db_blocks s) (db_sums s) (db_token_sums s)
    (db_output_pos s) (db_token_output_pos s) (db_issue_pos s) (db_spent s) (db_token_spent s)
    (db_bitmap s) x.

(** A write transaction: what the environment has committed, and what the transaction sees *)
Record Batch := mkBatch { committed : ChainStore; content : ChainStore }.

(** [ChainStore::batch], [Batch::child] and [Batch::commit] *)
Definition batch (s : ChainStore) : Batch := mkBatch s s.
Definition child (b : Batch) : Batch := mkBatch (committed b) (content b).
Definition commit_child (parent b : Batch) : Batch := mkBatch (committed parent) (content b).
Definition commit (b : Batch) : ChainStore := content b.

(** [option_to_not_found] *)
Definition option_to_not_found {A} (o : option A) : res StoreError A := ok_or o NotFoundErr.

(** A change of the content of a batch *)
Definition update (b : Batch) (f : ChainStore -> ChainStore) : Batch := mkBatch (committed b) (f (content b)).

(** [del_key]: a missing key is an error *)
Definition del {K A} `{!EqDecision K} `{!Countable K} (m : gmap K A) (k : K) : res StoreError (gmap K A) :=
  match m !! k with Some _ => Ok (delete k m) | None => Err LmdbErr end.

(** The conversion of a store error into a chain error by [?] *)
Definition from_store {A} (c : res StoreError A) : res ErrorKind A := map_err StoreErr c.

Section Store.
  Context {DG : Digest} (ct : ChainTypes) {Bitmap : Type} {BR : CRoaring Bitmap}.
  Implicit Types (b : Batch) (h : bytes) (c : Commitment) (k : TokenKey).

Definition header_hash (h : BlockHeader) : bytes := @hash DG _ (write_header ct) h.

(** ** Tips, headers and blocks *)

Definition head b : res StoreError Tip := option_to_not_found (db_head (content b)).
Definition tail b : res StoreError Tip := option_to_not_found (db_tail (content b)).
Definition save_body_head b (t : Tip) : Batch := update b (fun s => set_head s (Some t)).
Definition save_body_tail b (t : Tip) : Batch := update b (fun s => set_tail s (Some t)).

Definition get_block_header b h : res StoreError BlockHeader := option_to_not_found (db_headers (content b) !! h).
Definition get_previous_header b (header : BlockHeader) : res StoreError BlockHeader :=
  get_block_header b (prev_hash header).
Definition head_header b : res StoreError BlockHeader :=
  let? t := head b in get_block_header b (last_block_h t).
Definition save_block_header b (header : BlockHeader) : Batch :=
  update b (fun s => set_headers s (<[header_hash header := header]> (db_headers s))).

Definition get_block b h : res StoreError Block := option_to_not_found (db_blocks (content b) !! h).
(** [exists] reads the committed database *)
Definition block_exists b h : bool := bool_decide (is_Some (db_blocks (committed b) !! h)).
Definition save_block b (x : Block) : Batch :=
  update b (fun s => set_blocks s (<[header_hash (header x) := x]> (db_blocks s))).
(** [iter] reads the committed database *)
Definition blocks_iter b : list (bytes * Block) := map_to_list (db_blocks (committed b)).

(** ** Running sums *)

Definition get_block_sums b h : res StoreError BlockSums := option_to_not_found (db_sums (content b) !! h).
Definition save_block_sums b h (sums : BlockSums) : Batch :=
  update b (fun s => set_sums s (<[h := sums]> (db_sums s))).
Definition delete_block_sums b h : res StoreError Batch :=
  let? m := del (db_sums (content b)) h in Ok (update b (fun s => set_sums s m)).

Definition get_block_token_sums b h : res StoreError BlockTokenSums :=
  let? header := get_block_header b h in
  if bh_height header <? support_token_height ct then Ok default_block_token_sums
  else option_to_not_found (db_token_sums (content b) !! h).
Definition save_block_token_sums b h (sums : BlockTokenSums) : res StoreError Batch :=
  let? header := get_block_header b h in
  if bh_height header <? support_token_height ct then Ok b
  else Ok (update b (fun s => set_token_sums s (<[h := sums]> (db_token_sums s)))).
Definition delete_block_token_sums b h : res StoreError Batch :=
  let? header := get_block_header b h in
  if bh_height header <? support_token_height ct then Ok b
  else let? m := del (db_token_sums (content b)) h in Ok (update b (fun s => set_token_sums s m)).

(** ** Indices of output positions *)

Definition get_output_pos_height b c : res StoreError (option (Z * Z)) := Ok (db_output_pos (content b) !! c).
Definition get_output_pos b c : res StoreError Z :=
  let? o := get_output_pos_height b c in
  match o with Some (pos, _) => Ok pos | None => Err NotFoundErr end.
Definition save_output_pos_height b c (pos height : Z) : Batch :=
  update b (fun s => set_output_pos s (<[c := (pos, height)]> (db_output_pos s))).
Definition delete_output_pos_height b c : res StoreError Batch :=
  let? m := del (db_output_pos (content b)) c in Ok (update b (fun s => set_output_pos s m)).
(** The iterator yields the entries of the committed index. *)
Definition output_pos_iter b : list (Commitment * (Z * Z)) := map_to_list (db_output_pos (committed b)).

Definition get_token_output_pos_height b c : res StoreError (option (Z * Z)) := Ok (db_token_output_pos (content b) !! c).
Definition get_token_output_pos b c : res StoreError Z :=
  let? o := get_token_output_pos_height b c in
  match o with Some (pos, _) => Ok pos | None => Err NotFoundErr end.
Definition save_token_output_pos_height b c (pos height : Z) : Batch :=
  update b (fun s => set_token_output_pos s (<[c := (pos, height)]> (db_token_output_pos s))).
Definition delete_token_output_pos_height b c : res StoreError Batch :=
  let? m := del (db_token_output_pos (content b)) c in Ok (update b (fun s => set_token_output_pos s m)).
Definition token_output_pos_iter b : list (Commitment * (Z * Z)) := map_to_list (db_token_output_pos (committed b)).

Definition save_token_issue_proof_pos b k (pos : Z) : Batch :=
  update b (fun s => set_issue_pos s (<[k := pos]> (db_issue_pos s))).
Definition get_token_issue_proof_pos b k : res StoreError Z := option_to_not_found (db_issue_pos (content b) !! k).
Fixpoint delete_issue_keys b (keys : list TokenKey) : res StoreError Batch :=
  match keys with
  | [] => Ok b
  | k :: keys =>
    let? m := del (db_issue_pos (content b)) k in
    delete_issue_keys (update b (fun s => set_issue_pos s m)) keys
  end.
Definition clear_token_issue_proof_pos b : res StoreError Batch :=
  delete_issue_keys b (map fst (map_to_list (db_issue_pos (committed b)))).

(** ** Spent outputs *)

Definition save_spent_index b h (spent : list CommitPos) : Batch :=
  update b (fun s => set_spent s (<[h := spent]> (db_spent s))).
Definition get_spent_index b h : res StoreError (list CommitPos) := option_to_not_found (db_spent (content b) !! h).
Definition save_spent_token_index b h (spent : list CommitPos) : Batch :=
  update b (fun s => set_token_spent s (<[h := spent]> (db_token_spent s))).
Definition get_token_spent_index b h : res StoreError (list CommitPos) :=
  option_to_not_found (db_token_spent (content b) !! h).

(** The legacy bitmaps are read from the committed database. *)
Definition get_legacy_input_bitmap b h : res StoreError Bitmap :=
  match db_bitmap (committed b) !! h with Some bs => Ok (bm_deserialize bs) | None => Err NotFoundErr end.
Definition get_legacy_token_input_bitmap b h : res StoreError Bitmap :=
  match db_token_bitmap (committed b) !! h with Some bs => Ok (bm_deserialize bs) | None => Err NotFoundErr end.

(** [x.pos.try_into().unwrap()]: a position beyond 32 bits panics *)
Fixpoint positions_u32 (l : list CommitPos) : res StoreError (list Z) :=
  match l with
  | [] => Ok []
  | x :: l => if cp_pos x <? U32 then let? l := positions_u32 l in Ok (cp_pos x :: l) else Panic
  end.
Definition get_block_input_bitmap b h : res StoreError Bitmap :=
  match get_spent_index b h with
  | Ok spent => let? l := positions_u32 spent in Ok (bm_of_list l)
  | _ => get_legacy_input_bitmap b h
  end.
Definition get_block_token_input_bitmap b h : res StoreError Bitmap :=
  match get_token_spent_index b h with
  | Ok spent => let? l := positions_u32 spent in Ok (bm_of_list l)
  | _ => get_legacy_token_input_bitmap b h
  end.

(** [let _ = delete(..)]: the legacy entry may be missing *)
Definition delete_spent_index b h : Batch * res StoreError unit :=
  let b := update b (fun s => set_bitmap s (delete h (db_bitmap s))) in
  match del (db_spent (content b)) h with
  | Ok m => (update b (fun s => set_spent s m), Ok tt)
  | Err e => (b, Err e)
  | Panic => (b, Panic)
  end.
Definition delete_token_spent_index b h : Batch * res StoreError unit :=
  let b := update b (fun s => set_token_bitmap s (delete h (db_token_bitmap s))) in
  match del (db_token_spent (content b)) h with
  | Ok m => (update b (fun s => set_token_spent s m), Ok tt)
  | Err e => (b, Err e)
  | Panic => (b, Panic)
  end.

(** [let _ = ..]: what was changed stays, the error is dropped *)
Definition ignoring (b : Batch) (c : res StoreError Batch) : Batch := match c with Ok b => b | _ => b end.

Definition delete_block b h : res StoreError Batch :=
  let? m := del (db_blocks (content b)) h in
  let b := update b (fun s => set_blocks s m) in
  let b := ignoring b (delete_block_sums b h) in
  let b := ignoring b (delete_block_token_sums b h) in
  let b := (delete_spent_index b h).1 in
  Ok (delete_token_spent_index b h).1.
End Store.
