(* ===== verification/TxHashSet.v ===== *)
(** * The transaction hash set

    Models [chain/src/txhashset/txhashset.rs], [utxo_view.rs] and
    [rewindable_kernel_view.rs]: the seven trees of outputs, range proofs, kernels and
    their token counterparts, the extensions in which blocks are applied and rewound,
    the units of work that commit or discard an extension, and the read-only views.

    The trees are accessed through the [Backend] trait and the operations of
    [PMMRBackend] the crate calls ([TreeStore]); [TxHashSetTheorems] proves the operations against the
    interface, and [FileTrees] discharges it with the file backend. *)

From Stdlib Require Import ZArith Lia List Bool.
From stdpp Require Import base numbers list option gmap sorting.
From S2P Require Import Prelude MmrIndex Pmmr MerkleProof Bytes Consensus Ser Bitmap PowTypes Transaction TxBody Committed Verifier Aggregate Block ChainTypes BitmapAccumulator ChainStore.

(** ** The trees *)

(** What the crate uses of [PMMRBackend] besides the [Backend] trait *)
Class TreeStore (Bitmap T E B : Type) := {
  tree_backend :: Backend Bitmap bytes T E B;
  leaf_pos_iter : B -> res PmmrError (list Z);
  leaf_idx_iter : B -> Z -> res PmmrError (list Z);
  n_unpruned_leaves : B -> res PmmrError Z;
  sync : B -> res PmmrError B;
  discard : B -> B;
  check_compact : B -> Z -> Bitmap -> res PmmrError (bool * B)
}.

(** A backend for each type of element.  A [PMMRHandle] is a backend with its last position,
    as a [PMMR] is. *)
Class Trees (Bitmap : Type) (B : Type -> Type) := {
  header_trees :: TreeStore Bitmap BlockHeader HeaderEntry (B BlockHeader);
  output_trees :: TreeStore Bitmap Output OutputIdentifier (B Output);
  rproof_trees :: TreeStore Bitmap RangeProof RangeProof (B RangeProof);
  kernel_trees :: TreeStore Bitmap TxKernel TxKernel (B TxKernel);
  token_output_trees :: TreeStore Bitmap TokenOutput TokenOutputIdentifier (B TokenOutput);
  issue_proof_trees :: TreeStore Bitmap TokenIssueProof TokenIssueProof (B TokenIssueProof);
  token_kernel_trees :: TreeStore Bitmap TokenTxKernel TokenTxKernel (B TokenTxKernel)
}.

Abbreviation PMMRHandle := PMMR.

Section Types.
  Context {Bitmap : Type} {B : Type -> Type}.
  #[local] Abbreviation tree T := (PMMR (B T)).

(** [TxHashSet] *)
Record TxHashSet := mkTxHashSet {
  output_pmmr_h : tree Output;
  rproof_pmmr_h : tree RangeProof;
  kernel_pmmr_h : tree TxKernel;
  token_output_pmmr_h : tree TokenOutput;
  token_rproof_pmmr_h : tree RangeProof;
  token_issue_proof_pmmr_h : tree TokenIssueProof;
  token_kernel_pmmr_h : tree TokenTxKernel;
  set_accumulator : VecBackend bytes BitmapChunk
}.

(** [HeaderExtension] *)
Record HeaderExtension := mkHeaderExt { hext_head : Tip; hext_pmmr : tree BlockHeader; hext_rollback : bool }.

(** [Extension] *)
Record Extension := mkExt {
  ext_head : Tip;
  output_pmmr : tree Output;
  rproof_pmmr : tree RangeProof;
  kernel_pmmr : tree TxKernel;
  token_output_pmmr : tree TokenOutput;
  token_rproof_pmmr : tree RangeProof;
  token_issue_proof_pmmr : tree TokenIssueProof;
  token_kernel_pmmr : tree TokenTxKernel;
  bitmap_accumulator : VecBackend bytes BitmapChunk;
  rollback : bool
}.

(** [ExtensionPair] *)
Record ExtensionPair := mkPair { header_extension : HeaderExtension; extension : Extension }.

(** [UTXOView] *)
Record UTXOView := mkView {
  view_header_pmmr : tree BlockHeader;
  view_output_pmmr : tree Output;
  view_token_output_pmmr : tree TokenOutput;
  view_issue_token_pmmr : tree TokenIssueProof;
  view_rproof_pmmr : tree RangeProof;
  view_token_rproof_pmmr : tree RangeProof
}.

(** [RewindableKernelView] *)
Record RewindableKernelView := mkKernelView {
  kview_pmmr : tree TxKernel; kview_token_pmmr : tree TokenTxKernel; kview_header : BlockHeader }.

(** Changes of some fields of an extension *)
Definition with_outputs (e : Extension) p q : Extension :=
  mkExt (ext_head e) p q (kernel_pmmr e) (token_output_pmmr e) (token_rproof_pmmr e) (token_issue_proof_pmmr e)
    (token_kernel_pmmr e) (bitmap_accumulator e) (rollback e).
Definition with_kernels (e : Extension) p : Extension :=
  mkExt (ext_head e) (output_pmmr e) (rproof_pmmr e) p (token_output_pmmr e) (token_rproof_pmmr e)
    (token_issue_proof_pmmr e) (token_kernel_pmmr e) (bitmap_accumulator e) (rollback e).
Definition with_token_outputs (e : Extension) p q : Extension :=
  mkExt (ext_head e) (output_pmmr e) (rproof_pmmr e) (kernel_pmmr e) p q (token_issue_proof_pmmr e)
    (token_kernel_pmmr e) (bitmap_accumulator e) (rollback e).
Definition with_issue_proofs (e : Extension) p : Extension :=
  mkExt (ext_head e) (output_pmmr e) (rproof_pmmr e) (kernel_pmmr e) (token_output_pmmr e) (token_rproof_pmmr e) p
    (token_kernel_pmmr e) (bitmap_accumulator e) (rollback e).
Definition with_token_kernels (e : Extension) p : Extension :=
  mkExt (ext_head e) (output_pmmr e) (rproof_pmmr e) (kernel_pmmr e) (token_output_pmmr e) (token_rproof_pmmr e)
    (token_issue_proof_pmmr e) p (bitmap_accumulator e) (rollback e).
Definition with_accumulator (e : Extension) acc : Extension :=
  mkExt (ext_head e) (output_pmmr e) (rproof_pmmr e) (kernel_pmmr e) (token_output_pmmr e) (token_rproof_pmmr e)
    (token_issue_proof_pmmr e) (token_kernel_pmmr e) acc (rollback e).
Definition with_head (e : Extension) (t : Tip) : Extension :=
  mkExt t (output_pmmr e) (rproof_pmmr e) (kernel_pmmr e) (token_output_pmmr e) (token_rproof_pmmr e)
    (token_issue_proof_pmmr e) (token_kernel_pmmr e) (bitmap_accumulator e) (rollback e).

(** [Extension::force_rollback], [HeaderExtension::force_rollback] *)
Definition force_rollback (e : Extension) : Extension :=
  mkExt (ext_head e) (output_pmmr e) (rproof_pmmr e) (kernel_pmmr e) (token_output_pmmr e) (token_rproof_pmmr e)
    (token_issue_proof_pmmr e) (token_kernel_pmmr e) (bitmap_accumulator e) true.
Definition header_force_rollback (e : HeaderExtension) : HeaderExtension :=
  mkHeaderExt (hext_head e) (hext_pmmr e) true.

(** [Extension::new], [HeaderExtension::new] *)
Definition extension_new (trees : TxHashSet) (head : Tip) : Extension :=
  mkExt head (output_pmmr_h trees) (rproof_pmmr_h trees) (kernel_pmmr_h trees) (token_output_pmmr_h trees)
    (token_rproof_pmmr_h trees) (token_issue_proof_pmmr_h trees) (token_kernel_pmmr_h trees) (set_accumulator trees) false.
Definition header_extension_new (pmmr : tree BlockHeader) (head : Tip) : HeaderExtension := mkHeaderExt head pmmr false.

(** [Extension::utxo_view] *)
Definition utxo_view (e : Extension) (h : HeaderExtension) : UTXOView :=
  mkView (hext_pmmr h) (output_pmmr e) (token_output_pmmr e) (token_issue_proof_pmmr e) (rproof_pmmr e) (token_rproof_pmmr e).

(** [Extension::sizes] *)
Definition sizes (e : Extension) : Z * Z * Z * Z * Z * Z * Z :=
  (unpruned_size (output_pmmr e), unpruned_size (rproof_pmmr e), unpruned_size (kernel_pmmr e),
   unpruned_size (token_output_pmmr e), unpruned_size (token_rproof_pmmr e),
   unpruned_size (token_issue_proof_pmmr e), unpruned_size (token_kernel_pmmr e)).
End Types.
Arguments TxHashSet : clear implicits.
Arguments HeaderExtension : clear implicits.
Arguments Extension : clear implicits.
Arguments ExtensionPair : clear implicits.
Arguments UTXOView : clear implicits.
Arguments RewindableKernelView : clear implicits.

(** [.map_err(ErrorKind::TxHashSetErr)] and the other conversions of a tree's error *)
Definition set_err {A} (c : res PmmrError A) : res ErrorKind A := map_err (fun _ => TxHashSetErr) c.
Definition root_err {A} (c : res PmmrError A) : res ErrorKind A := map_err (fun _ => InvalidRoot) c.
Definition other_err {A} (c : res PmmrError A) : res ErrorKind A := map_err (fun _ => COther) c.

(** What works on trees changes them in place.  Its error comes with what it leaves behind, which the unit of work then
    discards: [leaving s] for a step that fails before it changes [s], and [inside] for a work on a part of a whole. *)
Abbreviation outcome S A := (res (ErrorKind * S) A).
Definition leaving {S A} (s : S) (c : res ErrorKind A) : outcome S A := map_err (fun x => (x, s)) c.
Definition inside {S S' A} (f : S -> S') (c : outcome S A) : outcome S' A := map_err (fun x => (x.1, f x.2)) c.
(** The error alone *)
Definition plain {S A} (c : outcome S A) : res ErrorKind A := map_err fst c.

Lemma leaving_ok {S A} (s : S) (c : res ErrorKind A) a : leaving s c = Ok a -> c = Ok a.
Proof. destruct c; [intros [= ->]|..]; done. Qed.
Lemma inside_ok {S S' A} (f : S -> S') (c : outcome S A) a : inside f c = Ok a -> c = Ok a.
Proof. destruct c; [intros [= ->]|..]; done. Qed.
Lemma plain_ok {S A} (c : outcome S A) a : plain c = Ok a -> c = Ok a.
Proof. destruct c; [intros [= ->]|..]; done. Qed.

Section Operations.
  Context {DG : Digest} (ct : ChainTypes) {Bitmap : Type} {BR : CRoaring Bitmap} {B : Type -> Type} {TR : Trees Bitmap B}.
  #[local] Existing Instance header_pmmrable.
  #[local] Abbreviation tree T := (PMMR (B T)).
  #[local] Abbreviation Ext := (Extension B).
  Implicit Types (b : Batch) (e : Ext).
  #[local] Abbreviation data p pos := (get_data (Bitmap := Bitmap) (Hash := bytes) p pos).
  #[local] Abbreviation root_of p := (root (Bitmap := Bitmap) (Hash := bytes) p).

(** ** Headers *)

(** [PMMRHandle::get_header_hash_by_height] *)
Definition get_header_hash_by_height (h : tree BlockHeader) (height : Z) : res ErrorKind bytes :=
  match data h (insertion_to_pmmr_index (height + 1)%u64) with
  | Some entry => Ok (entry_hash entry)
  | None => Err COther
  end.

(** [PMMRHandle::head_hash] *)
Definition head_hash (h : tree BlockHeader) : res ErrorKind bytes :=
  if last_pos h =? 0 then Err COther
  else match data h (bintree_rightmost (last_pos h)) with
       | Some entry => Ok (entry_hash entry)
       | None => Err COther
       end.

(** [HeaderExtension::get_header_by_height] *)
Definition get_header_by_height (p : tree BlockHeader) (height : Z) b : res ErrorKind BlockHeader :=
  match data p (insertion_to_pmmr_index (height + 1)%u64) with
  | Some entry => from_store (get_block_header b (entry_hash entry))
  | None => Err COther
  end.

(** [HeaderExtension::is_on_current_chain] *)
Definition is_on_current_chain (h : HeaderExtension B) (header : BlockHeader) b : res ErrorKind unit :=
  if tip_height (hext_head h) <? bh_height header then Err COther
  else
    let? chain_header := get_header_by_height (hext_pmmr h) (bh_height header) b in
    if bool_decide (header_hash ct chain_header = header_hash ct header) then Ok tt else Err COther.

(** [HeaderExtension::apply_header] *)
Definition apply_header (h : HeaderExtension B) (header : BlockHeader) : outcome (HeaderExtension B) (HeaderExtension B) :=
  let? '(_, p) := leaving h (set_err (push (PMMRable0 := header_pmmrable ct) (hext_pmmr h) header)) in
  Ok (mkHeaderExt (tip_from_header ct header) p (hext_rollback h)).

(** [HeaderExtension::rewind] *)
Definition header_rewind (h : HeaderExtension B) (header : BlockHeader) : outcome (HeaderExtension B) (HeaderExtension B) :=
  let header_pos := insertion_to_pmmr_index (bh_height header + 1)%u64 in
  let? p := leaving h (set_err (rewind (Hash := bytes) (T := BlockHeader) (E := HeaderEntry) (hext_pmmr h) header_pos (bm_create (Bitmap := Bitmap)))) in
  Ok (mkHeaderExt (tip_from_header ct header) p (hext_rollback h)).

(** [HeaderExtension::root], [HeaderExtension::validate_root] *)
Definition header_root (h : HeaderExtension B) : res ErrorKind bytes :=
  root_err (root (Bitmap := Bitmap) (PMMRable0 := header_pmmrable ct) (hext_pmmr h)).
Definition validate_root (h : HeaderExtension B) (header : BlockHeader) : res ErrorKind unit :=
  if bh_height header =? 0 then Ok tt
  else
    let? r := header_root h in
    if negb (bool_decide (r = prev_root header)) then Err InvalidRoot else Ok tt.

(** ** Creating and spending outputs *)

(** The bodies that [apply_output] and [apply_token_output], [apply_input] and
    [apply_token_input] share *)
Section Outputs.
  Context {T E : Type} `{!EqDecision E} `{!PMMRable bytes T E} `{!TreeStore Bitmap T E (B T)}
    (out_commit : T -> Commitment) (id_commit : E -> Commitment) (out_proof : T -> RangeProof).

Definition create_output (indexed : res StoreError Z) (out : T) (p : tree T) (q : tree RangeProof)
    : outcome (tree T * tree RangeProof) (Z * tree T * tree RangeProof) :=
  let commit := out_commit out in
  let? _ :=
    leaving (p, q) match indexed with
    | Ok pos =>
      match data p pos with
      | Some out_mmr => if bool_decide (id_commit out_mmr = commit) then Err (CDuplicateCommitment commit) else Ok tt
      | None => Ok tt
      end
    | _ => Ok tt
    end in
  let? '(output_pos, p) := leaving (p, q) (set_err (push (Bitmap := Bitmap) p out)) in
  let? '(rproof_pos, q) := leaving (p, q) (set_err (push (Bitmap := Bitmap) q (out_proof out))) in
  if negb (unpruned_size p =? unpruned_size q) then Err (COther, (p, q))
  else if negb (output_pos =? rproof_pos) then Err (COther, (p, q))
  else Ok (output_pos, p, q).

Definition spend_output (indexed : res StoreError (option (Z * Z))) (commit : Commitment) (id : E)
    (p : tree T) (q : tree RangeProof) : outcome (tree T * tree RangeProof) (CommitPos * tree T * tree RangeProof) :=
  let? entry := leaving (p, q) (from_store indexed) in
  match entry with
  | None => Err (AlreadySpent commit, (p, q))
  | Some (pos, height) =>
    let? _ :=
      leaving (p, q) match data p pos with
      | Some out => if negb (bool_decide (id = out)) then Err TxHashSetErr else Ok tt
      | None => Ok tt
      end in
    match prune (Bitmap := Bitmap) (Hash := bytes) (T := T) (E := E) p pos with
    | Ok (true, p) =>
      let? '(_, q) := leaving (p, q) (set_err (prune (Bitmap := Bitmap) (Hash := bytes) (T := RangeProof) (E := RangeProof) q pos)) in
      Ok (mkCommitPos pos height, p, q)
    | Ok (false, p) => Err (AlreadySpent commit, (p, q))
    | Err _ => Err (TxHashSetErr, (p, q))
    | Panic => Panic
    end
  end.
End Outputs.

(** [Extension::apply_output], [Extension::apply_token_output] *)
Definition apply_output e b (out : Output) : outcome Ext (Z * Ext) :=
  let? '(pos, p, q) := inside (fun pq => with_outputs e pq.1 pq.2) (create_output output_commit oid_commit output_proof
    (get_output_pos b (output_commit out)) out (output_pmmr e) (rproof_pmmr e)) in
  Ok (pos, with_outputs e p q).
Definition apply_token_output e b (out : TokenOutput) : outcome Ext (Z * Ext) :=
  let? '(pos, p, q) := inside (fun pq => with_token_outputs e pq.1 pq.2) (create_output token_output_commit toid_commit token_output_proof
    (get_token_output_pos b (token_output_commit out)) out (token_output_pmmr e) (token_rproof_pmmr e)) in
  Ok (pos, with_token_outputs e p q).

(** [Extension::apply_input], [Extension::apply_token_input] *)
Definition apply_input e b (i : Input) : outcome Ext (CommitPos * Ext) :=
  let? '(spent, p, q) := inside (fun pq => with_outputs e pq.1 pq.2)
    (spend_output (get_output_pos_height b (input_commit i)) (input_commit i) (oid_of_input i) (output_pmmr e) (rproof_pmmr e)) in
  Ok (spent, with_outputs e p q).
Definition apply_token_input e b (i : TokenInput) : outcome Ext (CommitPos * Ext) :=
  let? '(spent, p, q) := inside (fun pq => with_token_outputs e pq.1 pq.2)
    (spend_output (get_token_output_pos_height b (token_input_commit i)) (token_input_commit i) (toid_of_input i)
       (token_output_pmmr e) (token_rproof_pmmr e)) in
  Ok (spent, with_token_outputs e p q).

(** [Extension::apply_token_issue_output] *)
Definition apply_token_issue_output e b (out : TokenOutput) : outcome Ext (Z * Ext) :=
  if of_is_token (token_output_features out) then Err (COther, e)
  else
    let token_key := output_token_type out in
    let? _ :=
      leaving e match get_token_issue_proof_pos b token_key with
      | Ok pos =>
        match data (token_issue_proof_pmmr e) pos with
        | Some out_mmr => if bool_decide (issue_token_type out_mmr = token_key) then Err (DuplicateTokenKey token_key) else Ok tt
        | None => Ok tt
        end
      | _ => Ok tt
      end in
    let? '(issue_pos, p) := leaving e (set_err (push (Bitmap := Bitmap) (token_issue_proof_pmmr e) (issue_of_output out))) in
    Ok (issue_pos, with_issue_proofs e p).

(** [Extension::apply_kernel], [Extension::apply_token_kernel] *)
Definition apply_kernel e (k : TxKernel) : outcome Ext Ext :=
  let? '(_, p) := leaving e (set_err (push (Bitmap := Bitmap) (kernel_pmmr e) k)) in Ok (with_kernels e p).
Definition apply_token_kernel e (k : TokenTxKernel) : outcome Ext Ext :=
  let? '(_, p) := leaving e (set_err (push (Bitmap := Bitmap) (token_kernel_pmmr e) k)) in Ok (with_token_kernels e p).

(** [Extension::apply_to_bitmap_accumulator]; the accumulator is a part of the extension, which is dropped after an error *)
Definition apply_to_bitmap_accumulator e (output_pos : list Z) : outcome Ext Ext :=
  let output_idx := merge_sort Z.le (map (fun x => saturating_sub (n_leaves x) 1) output_pos) in
  let min_idx := default 0 (List.hd_error output_idx) in
  let size := n_leaves (last_pos (output_pmmr e)) in
  let? idx := leaving e (set_err (leaf_idx_iter (backend (output_pmmr e)) (chunk_start_idx min_idx))) in
  let? acc := leaving e (acc_apply (Bitmap := Bitmap) (bitmap_accumulator e) output_idx idx size) in
  Ok (with_accumulator e acc).

(** ** Applying a block *)

Fixpoint apply_outputs (outs : list Output) (height : Z) e b (affected_pos : list Z)
    : outcome Ext (list Z * Ext * Batch) :=
  match outs with
  | [] => Ok (affected_pos, e, b)
  | out :: outs =>
    let? '(pos, e) := apply_output e b out in
    apply_outputs outs height e (save_output_pos_height b (output_commit out) pos height) (affected_pos ++ [pos])
  end.

Fixpoint apply_inputs (ins : list Input) e b (affected_pos : list Z) (spent : list CommitPos)
    : outcome Ext (list Z * list CommitPos * Ext * Batch) :=
  match ins with
  | [] => Ok (affected_pos, spent, e, b)
  | i :: ins =>
    let? '(spent_pos, e) := apply_input e b i in
    let? b := leaving e (from_store (delete_output_pos_height b (input_commit i))) in
    apply_inputs ins e b (affected_pos ++ [cp_pos spent_pos]) (spent ++ [spent_pos])
  end.

Fixpoint apply_token_outputs (outs : list TokenOutput) (height : Z) e b : outcome Ext (Ext * Batch) :=
  match outs with
  | [] => Ok (e, b)
  | out :: outs =>
    let? '(pos, e) := apply_token_output e b out in
    let b := save_token_output_pos_height b (token_output_commit out) pos height in
    if of_is_tokenissue (token_output_features out) then
      let? '(pos, e) := apply_token_issue_output e b out in
      apply_token_outputs outs height e (save_token_issue_proof_pos b (output_token_type out) pos)
    else apply_token_outputs outs height e b
  end.

Fixpoint apply_token_inputs (ins : list TokenInput) e b (spent : list CommitPos)
    : outcome Ext (list CommitPos * Ext * Batch) :=
  match ins with
  | [] => Ok (spent, e, b)
  | i :: ins =>
    let? '(spent_pos, e) := apply_token_input e b i in
    let? b := leaving e (from_store (delete_token_output_pos_height b (token_input_commit i))) in
    apply_token_inputs ins e b (spent ++ [spent_pos])
  end.

Fixpoint apply_kernels (ks : list TxKernel) e : outcome Ext Ext :=
  match ks with [] => Ok e | k :: ks => let? e := apply_kernel e k in apply_kernels ks e end.
Fixpoint apply_token_kernels (ks : list TokenTxKernel) e : outcome Ext Ext :=
  match ks with [] => Ok e | k :: ks => let? e := apply_token_kernel e k in apply_token_kernels ks e end.

(** [Extension::apply_block] *)
Definition apply_block e b (x : Block) : outcome Ext (Ext * Batch) :=
  let body := block_body x in
  let height := bh_height (header x) in
  let hash := header_hash ct (header x) in
  let? '(affected_pos, e, b) := apply_outputs (outputs body) height e b [] in
  let? '(affected_pos, spent, e, b) := apply_inputs (inputs body) e b affected_pos [] in
  let b := save_spent_index b hash spent in
  let? '(e, b) := apply_token_outputs (token_outputs body) height e b in
  let? '(token_spent, e, b) := apply_token_inputs (token_inputs body) e b [] in
  let b := save_spent_token_index b hash token_spent in
  let? e := apply_kernels (kernels body) e in
  let? e := apply_token_kernels (token_kernels body) e in
  let? e := apply_to_bitmap_accumulator e affected_pos in
  Ok (with_head e (tip_from_header ct (header x)), b).

(** ** Rewinding *)

(** [Extension::rewind_mmrs_to_pos]; positions are cut to 32 bits *)
Definition rewind_tree {T E} `{!TreeStore Bitmap T E (B T)} (p : tree T) (pos : Z) (rm : Bitmap) : res ErrorKind (tree T) :=
  set_err (rewind (Bitmap := Bitmap) (Hash := bytes) (T := T) (E := E) p pos rm).
Definition rewind_mmrs_to_pos e (output_pos kernel_pos token_output_pos token_issue_proof_pos token_kernel_pos : Z)
    (spent_pos token_spent_pos : list Z) : outcome Ext Ext :=
  let bitmap := bm_of_list (map wrap32 spent_pos) in
  let token_bitmap := bm_of_list (map wrap32 token_spent_pos) in
  let? p := leaving e (rewind_tree (output_pmmr e) output_pos bitmap) in
  let e := with_outputs e p (rproof_pmmr e) in
  let? q := leaving e (rewind_tree (rproof_pmmr e) output_pos bitmap) in
  let e := with_outputs e p q in
  let? k := leaving e (rewind_tree (kernel_pmmr e) kernel_pos bm_create) in
  let e := with_kernels e k in
  let? tp := leaving e (rewind_tree (token_output_pmmr e) token_output_pos token_bitmap) in
  let e := with_token_outputs e tp (token_rproof_pmmr e) in
  let? tq := leaving e (rewind_tree (token_rproof_pmmr e) token_output_pos token_bitmap) in
  let e := with_token_outputs e tp tq in
  let? ti := leaving e (rewind_tree (token_issue_proof_pmmr e) token_issue_proof_pos bm_create) in
  let e := with_issue_proofs e ti in
  let? tk := leaving e (rewind_tree (token_kernel_pmmr e) token_kernel_pos bm_create) in
  Ok (with_token_kernels e tk).

(** [delete(..).is_err()] only counts what is missing *)
Fixpoint delete_outputs (outs : list Output) b : Batch :=
  match outs with
  | [] => b
  | out :: outs => delete_outputs outs (ignoring b (delete_output_pos_height b (output_commit out)))
  end.
Fixpoint delete_token_outputs (outs : list TokenOutput) b : Batch :=
  match outs with
  | [] => b
  | out :: outs => delete_token_outputs outs (ignoring b (delete_token_output_pos_height b (token_output_commit out)))
  end.

(** [for (x, y) in inputs.into_iter().zip(spent)] *)
Fixpoint restore_inputs (l : list (Input * CommitPos)) b : Batch :=
  match l with
  | [] => b
  | (x, y) :: l => restore_inputs l (save_output_pos_height b (input_commit x) (cp_pos y) (cp_height y))
  end.
Fixpoint restore_token_inputs (l : list (TokenInput * CommitPos)) b : Batch :=
  match l with
  | [] => b
  | (x, y) :: l => restore_token_inputs l (save_token_output_pos_height b (token_input_commit x) (cp_pos y) (cp_height y))
  end.

(** The spent positions of a block: from its spent index, or from the legacy bitmap *)
Definition spent_positions (spent : res StoreError (list CommitPos)) (legacy : res StoreError Bitmap) : res ErrorKind (list Z) :=
  match spent with
  | Ok spent => Ok (map cp_pos spent)
  | _ => let? bitmap := from_store legacy in Ok (bm_iter bitmap)
  end.

(** [Extension::rewind_single_block] *)
Definition rewind_single_block e b (header : BlockHeader) : outcome Ext (list Z * Ext * Batch) :=
  let hash := header_hash ct header in
  let spent := get_spent_index b hash in
  let token_spent := get_token_spent_index b hash in
  let? spent_pos := leaving e (spent_positions spent (get_block_input_bitmap b hash)) in
  let? token_spent_pos := leaving e (spent_positions token_spent (get_block_token_input_bitmap b hash)) in
  let? e :=
    if bh_height header =? 0 then rewind_mmrs_to_pos e 0 0 0 0 0 spent_pos token_spent_pos
    else
      let? prev := leaving e (from_store (get_previous_header b header)) in
      rewind_mmrs_to_pos e (output_mmr_size prev) (kernel_mmr_size prev) (token_output_mmr_size prev)
        (token_issue_proof_mmr_size prev) (token_kernel_mmr_size prev) spent_pos token_spent_pos in
  let affected_pos := spent_pos ++ [last_pos (output_pmmr e)] in
  let? block := leaving e (from_store (get_block b hash)) in
  let b := delete_outputs (outputs (block_body block)) b in
  let b := delete_token_outputs (token_outputs (block_body block)) b in
  let b := match spent with Ok spent => restore_inputs (zip (inputs (block_body block)) spent) b | _ => b end in
  let b := match token_spent with
           | Ok spent => restore_token_inputs (zip (token_inputs (block_body block)) spent) b | _ => b end in
  Ok (affected_pos, e, b).

(** The loop of [Extension::rewind].  A turn goes to the previous header, one block lower, so that
    the height of the head is enough fuel; a store whose headers do not go down would
    make the code loop, shown as a panic here. *)
Fixpoint rewind_blocks (fuel : nat) e b (height : Z) (current : BlockHeader) (affected_pos : list Z)
    : outcome Ext (list Z * Ext * Batch) :=
  if height <? bh_height current then
    match fuel with
    | O => Panic
    | S fuel =>
      let? '(affected, e, b) := rewind_single_block e b current in
      let? current := leaving e (from_store (get_previous_header b current)) in
      rewind_blocks fuel e b height current (affected_pos ++ affected)
    end
  else Ok (affected_pos, e, b).

(** [Extension::rewind] *)
Definition ext_rewind e b (header : BlockHeader) : outcome Ext (Ext * Batch) :=
  let? head_header := leaving e (from_store (get_block_header b (last_block_h (ext_head e)))) in
  let? '(e, b) :=
    if bh_height head_header <=? bh_height header then
      let? e := rewind_mmrs_to_pos e (output_mmr_size header) (kernel_mmr_size header) (token_output_mmr_size header)
        (token_issue_proof_mmr_size header) (token_kernel_mmr_size header) [] [] in
      let? e := apply_to_bitmap_accumulator e [output_mmr_size header] in
      Ok (e, b)
    else
      let? '(affected_pos, e, b) := rewind_blocks (Z.to_nat (bh_height head_header)) e b (bh_height header) head_header [] in
      let? e := apply_to_bitmap_accumulator e affected_pos in
      Ok (e, b) in
  Ok (with_head e (tip_from_header ct header), b).

(** ** Roots and sizes *)

(** [Extension::roots]; the root of the accumulator is that of its whole backend *)
Definition ext_roots e : res ErrorKind TxHashSetRoots :=
  let? pmmr_root := root_err (root_of (output_pmmr e)) in
  let? bitmap_root := other_err (acc_root (Bitmap := Bitmap) (bitmap_accumulator e)) in
  let? rproof_root := root_err (root_of (rproof_pmmr e)) in
  let? kernel_root := root_err (root_of (kernel_pmmr e)) in
  let? token_output_root := root_err (root_of (token_output_pmmr e)) in
  let? token_rproof_root := root_err (root_of (token_rproof_pmmr e)) in
  let? token_issue_proof_root := root_err (root_of (token_issue_proof_pmmr e)) in
  let? token_kernel_root := root_err (root_of (token_kernel_pmmr e)) in
  Ok (mkRoots (mkOutputRoots pmmr_root bitmap_root) rproof_root kernel_root token_output_root token_rproof_root
        token_issue_proof_root token_kernel_root).

(** [Extension::validate_roots], [Extension::validate_sizes] *)
Definition validate_roots e (header : BlockHeader) : res ErrorKind unit :=
  if bh_height header =? 0 then Ok tt else let? r := ext_roots e in roots_validate r header.
Definition header_sizes (header : BlockHeader) : Z * Z * Z * Z * Z * Z * Z :=
  (output_mmr_size header, output_mmr_size header, kernel_mmr_size header, token_output_mmr_size header,
   token_output_mmr_size header, token_issue_proof_mmr_size header, token_kernel_mmr_size header).
Definition validate_sizes e (header : BlockHeader) : res ErrorKind unit :=
  if bh_height header =? 0 then Ok tt
  else if negb (bool_decide (header_sizes header = sizes e)) then Err InvalidMMRSize else Ok tt.

(** [Extension::merkle_proof], [Extension::token_merkle_proof] *)
Definition ext_merkle_proof e b (output : OutputIdentifier) : res ErrorKind (MerkleProof bytes) :=
  let? pos := from_store (get_output_pos b (oid_commit output)) in
  set_err (merkle_proof (Bitmap := Bitmap) (T := Output) (E := OutputIdentifier) (output_pmmr e) pos).
Definition ext_token_merkle_proof e b (output : TokenOutputIdentifier) : res ErrorKind (MerkleProof bytes) :=
  let? pos := from_store (get_token_output_pos b (toid_commit output)) in
  set_err (merkle_proof (Bitmap := Bitmap) (T := TokenOutput) (E := TokenOutputIdentifier) (token_output_pmmr e) pos).

(** ** The UTXO view *)

Implicit Types (v : UTXOView B).

(** [UTXOView::validate_input], [UTXOView::validate_token_input] *)
Definition validate_input v b (i : Input) : res ErrorKind unit :=
  match get_output_pos b (input_commit i) with
  | Ok pos =>
    match data (view_output_pmmr v) pos with
    | Some out => if bool_decide (oid_of_input i = out) then Ok tt else Err (AlreadySpent (input_commit i))
    | None => Err (AlreadySpent (input_commit i))
    end
  | _ => Err (AlreadySpent (input_commit i))
  end.
Definition validate_token_input v b (i : TokenInput) : res ErrorKind unit :=
  match get_token_output_pos b (token_input_commit i) with
  | Ok pos =>
    match data (view_token_output_pmmr v) pos with
    | Some out => if bool_decide (toid_of_input i = out) then Ok tt else Err (AlreadySpent (token_input_commit i))
    | None => Err (AlreadySpent (token_input_commit i))
    end
  | _ => Err (AlreadySpent (token_input_commit i))
  end.

(** [UTXOView::validate_output], [UTXOView::validate_token_output] *)
Definition validate_output v b (o : Output) : res ErrorKind unit :=
  match get_output_pos b (output_commit o) with
  | Ok pos =>
    match data (view_output_pmmr v) pos with
    | Some out_mmr =>
      if bool_decide (oid_commit out_mmr = output_commit o) then Err (CDuplicateCommitment (output_commit o)) else Ok tt
    | None => Ok tt
    end
  | _ => Ok tt
  end.
Definition validate_token_output v b (o : TokenOutput) : res ErrorKind unit :=
  let? _ :=
    match get_token_output_pos b (token_output_commit o) with
    | Ok pos =>
      match data (view_token_output_pmmr v) pos with
      | Some out_mmr =>
        if bool_decide (toid_commit out_mmr = token_output_commit o) then Err (CDuplicateCommitment (token_output_commit o))
        else Ok tt
      | None => Ok tt
      end
    | _ => Ok tt
    end in
  if of_is_tokenissue (token_output_features o) then
    match get_token_issue_proof_pos b (output_token_type o) with
    | Ok pos =>
      match data (view_issue_token_pmmr v) pos with
      | Some out_mmr =>
        if bool_decide (issue_token_type out_mmr = output_token_type o) then Err (DuplicateTokenKey (output_token_type o))
        else Ok tt
      | None => Ok tt
      end
    | _ => Ok tt
    end
  else Ok tt.

Fixpoint each {A} (f : A -> res ErrorKind unit) (l : list A) : res ErrorKind unit :=
  match l with [] => Ok tt | x :: l => let? _ := f x in each f l end.

(** [UTXOView::validate_block] and [UTXOView::validate_tx] check a body in the same order. *)
Definition validate_body v b (body : TransactionBody) : res ErrorKind unit :=
  let? _ := each (validate_output v b) (outputs body) in
  let? _ := each (validate_input v b) (inputs body) in
  let? _ := each (validate_token_output v b) (token_outputs body) in
  each (validate_token_input v b) (token_inputs body).
Definition view_validate_block v b (x : Block) : res ErrorKind unit := validate_body v b (block_body x).
Definition view_validate_tx v b (tx : Transaction) : res ErrorKind unit := validate_body v b (body tx).

(** [UTXOView::get_unspent_output_at], [UTXOView::get_unspent_token_output_at] *)
Definition get_unspent_output_at v (pos : Z) : res ErrorKind Output :=
  match data (view_output_pmmr v) pos with
  | Some output_id =>
    match data (view_rproof_pmmr v) pos with
    | Some rproof => Ok (into_output output_id rproof)
    | None => Err RangeproofNotFound
    end
  | None => Err OutputNotFound
  end.
Definition get_unspent_token_output_at v (pos : Z) : res ErrorKind TokenOutput :=
  match data (view_token_output_pmmr v) pos with
  | Some output_id =>
    match data (view_token_rproof_pmmr v) pos with
    | Some rproof => Ok (into_token_output output_id rproof)
    | None => Err RangeproofNotFound
    end
  | None => Err OutputNotFound
  end.

(** [UTXOView::verify_coinbase_maturity] *)
Definition coinbase_pos (ins : list Input) b : Z :=
  foldr Z.max 0 (omap (fun x => match get_output_pos b (input_commit x) with Ok pos => Some pos | _ => None end)
    (List.filter (fun x => of_is_coinbase (input_features x)) ins)).
Definition view_coinbase_maturity v (ins : list Input) (height : Z) b : res ErrorKind unit :=
  let pos := coinbase_pos ins b in
  if 0 <? pos then
    if height <? coinbase_maturity ct then Err CImmatureCoinbase
    else
      let cutoff_height := saturating_sub height (coinbase_maturity ct) in
      let? cutoff_header := get_header_by_height (view_header_pmmr v) cutoff_height b in
      if output_mmr_size cutoff_header <? pos then Err CImmatureCoinbase else Ok tt
  else Ok tt.
End Operations.

(** ** Units of work *)

Section Units.
  Context {DG : Digest} (ct : ChainTypes) {Bitmap : Type} {BR : CRoaring Bitmap} {B : Type -> Type} {TR : Trees Bitmap B}.
  #[local] Abbreviation tree T := (PMMR (B T)).
  Implicit Types (b : Batch) (e : Extension B) (trees : TxHashSet B) (h : tree BlockHeader).

(** [handle.backend.discard()] and [handle.backend.sync()?; handle.last_pos = size] *)
Definition discarded {T E} `{!TreeStore Bitmap T E (B T)} (handle : tree T) (b : B T) : tree T := mkPMMR (last_pos handle) (discard b).
Definition synced_tree {T E} `{!TreeStore Bitmap T E (B T)} (p : tree T) : res ErrorKind (tree T) :=
  let? b := set_err (sync (backend p)) in Ok (mkPMMR (unpruned_size p) b).

(** The backends of [e] are discarded, the handles and the accumulator stay where they were. *)
Definition discard_trees trees e : TxHashSet B :=
  mkTxHashSet (discarded (output_pmmr_h trees) (backend (output_pmmr e)))
    (discarded (rproof_pmmr_h trees) (backend (rproof_pmmr e))) (discarded (kernel_pmmr_h trees) (backend (kernel_pmmr e)))
    (discarded (token_output_pmmr_h trees) (backend (token_output_pmmr e)))
    (discarded (token_rproof_pmmr_h trees) (backend (token_rproof_pmmr e)))
    (discarded (token_issue_proof_pmmr_h trees) (backend (token_issue_proof_pmmr e)))
    (discarded (token_kernel_pmmr_h trees) (backend (token_kernel_pmmr e))) (set_accumulator trees).

Definition sync_trees e : res ErrorKind (TxHashSet B) :=
  let? o := synced_tree (output_pmmr e) in
  let? r := synced_tree (rproof_pmmr e) in
  let? k := synced_tree (kernel_pmmr e) in
  let? t_o := synced_tree (token_output_pmmr e) in
  let? t_r := synced_tree (token_rproof_pmmr e) in
  let? t_i := synced_tree (token_issue_proof_pmmr e) in
  let? t_k := synced_tree (token_kernel_pmmr e) in
  Ok (mkTxHashSet o r k t_o t_r t_i t_k (bitmap_accumulator e)).

(** The tip of the header tree: the header of its last leaf *)
Definition header_tip h b : res ErrorKind Tip :=
  let? hash := head_hash h in
  let? header := from_store (get_block_header b hash) in
  Ok (tip_from_header ct header).

(** A work in a unit: it returns its result with the extensions and the child batch it leaves, or its error with the
    extensions it leaves. *)
Abbreviation work A := (ExtensionPair B -> Batch -> outcome (ExtensionPair B) (A * ExtensionPair B * Batch)).

(** [extending].  The backends of the header tree are discarded after every work, and those of the other trees when the work
    fails or asks for it; the child batch is dropped then.  When writing a tree fails, the code leaves the trees partly written;
    the trees given then are the discarded ones and say nothing. *)
Definition extending {A} (inner : work A) h trees b : res ErrorKind A * tree BlockHeader * TxHashSet B * Batch :=
  match (let? head := from_store (head b) in let? header_head := header_tip h b in Ok (head, header_head)) with
  | Ok (head, header_head) =>
    match inner (mkPair (header_extension_new h header_head) (extension_new trees head)) (child b) with
    | Ok (r, ext, child_batch) =>
      let e := extension ext in
      let h := discarded h (backend (hext_pmmr (header_extension ext))) in
      if rollback e then (Ok r, h, discard_trees trees e, b)
      else
        let b := commit_child b child_batch in
        match sync_trees e with
        | Ok trees => (Ok r, h, trees, b)
        | Err x => (Err x, h, discard_trees trees e, b)
        | Panic => (Panic, h, discard_trees trees e, b)
        end
    | Err (x, ext) => (Err x, discarded h (backend (hext_pmmr (header_extension ext))), discard_trees trees (extension ext), b)
    | Panic => (Panic, h, trees, b)
    end
  | Err x => (Err x, h, trees, b)
  | Panic => (Panic, h, trees, b)
  end.

(** [extending_readonly]: the batch and the trees are always discarded *)
Definition extending_readonly {A} (inner : work A) h trees (commit_index : ChainStore) : res ErrorKind A * tree BlockHeader * TxHashSet B :=
  let b := batch commit_index in
  match (let? head := from_store (head b) in let? header_head := header_tip h b in Ok (head, header_head)) with
  | Ok (head, header_head) =>
    match inner (mkPair (header_extension_new h header_head) (extension_new trees head)) b with
    | Ok (r, ext, _) =>
      (Ok r, discarded h (backend (hext_pmmr (header_extension ext))), discard_trees trees (extension ext))
    | Err (x, ext) => (Err x, discarded h (backend (hext_pmmr (header_extension ext))), discard_trees trees (extension ext))
    | Panic => (Panic, h, trees)
    end
  | Err x => (Err x, h, trees)
  | Panic => (Panic, h, trees)
  end.

(** [header_extending] *)
Abbreviation header_work A := (HeaderExtension B -> Batch -> outcome (HeaderExtension B) (A * HeaderExtension B * Batch)).
Definition header_extending {A} (inner : header_work A) h b : res ErrorKind A * tree BlockHeader * Batch :=
  let child_batch := child b in
  match (match head_hash h with
         | Ok hash => let? header := from_store (get_block_header child_batch hash) in Ok (tip_from_header ct header)
         | Err _ => Ok tip_default
         | Panic => Panic
         end) with
  | Ok head =>
    match inner (header_extension_new h head) child_batch with
    | Ok (r, ext, child_batch) =>
      if hext_rollback ext then (Ok r, discarded h (backend (hext_pmmr ext)), b)
      else
        let b := commit_child b child_batch in
        match synced_tree (hext_pmmr ext) with
        | Ok h => (Ok r, h, b)
        | Err x => (Err x, discarded h (backend (hext_pmmr ext)), b)
        | Panic => (Panic, h, b)
        end
    | Err (x, ext) => (Err x, discarded h (backend (hext_pmmr ext)), b)
    | Panic => (Panic, h, b)
    end
  | Err x => (Err x, h, b)
  | Panic => (Panic, h, b)
  end.

(** [utxo_view]: a view of the committed trees with a batch that is dropped *)
Definition with_utxo_view {A} (inner : UTXOView B -> Batch -> res ErrorKind A) h trees (commit_index : ChainStore)
    : res ErrorKind A :=
  inner (mkView h (output_pmmr_h trees) (token_output_pmmr_h trees) (token_issue_proof_pmmr_h trees)
           (rproof_pmmr_h trees) (token_rproof_pmmr_h trees)) (batch commit_index).

(** ** The rewindable kernel view *)

(** [rewindable_kernel_view] *)
Definition rewindable_kernel_view {A} (inner : RewindableKernelView B -> Batch -> res ErrorKind A) trees
    (commit_index : ChainStore) : res ErrorKind A :=
  let b := batch commit_index in
  let? header := from_store (head_header b) in
  inner (mkKernelView (kernel_pmmr_h trees) (token_kernel_pmmr_h trees) header) b.

(** [RewindableKernelView::rewind], [RewindableKernelView::validate_root] *)
Definition kernel_view_rewind (v : RewindableKernelView B) (header : BlockHeader) : res ErrorKind (RewindableKernelView B) :=
  let? p := set_err (rewindable_rewind (kview_pmmr v) (kernel_mmr_size header)) in
  let? q := set_err (rewindable_rewind (kview_token_pmmr v) (token_kernel_mmr_size header)) in
  Ok (mkKernelView p q header).
Definition kernel_view_validate_root (v : RewindableKernelView B) : res ErrorKind unit :=
  let? r := root_err (root (Bitmap := Bitmap) (T := TxKernel) (E := TxKernel) (kview_pmmr v)) in
  if negb (bool_decide (r = kernel_root (kview_header v))) then Err InvalidTxHashSet
  else
    let? r := root_err (root (Bitmap := Bitmap) (T := TokenTxKernel) (E := TokenTxKernel) (kview_token_pmmr v)) in
    if negb (bool_decide (r = token_kernel_root (kview_header v))) then Err InvalidTxHashSet else Ok tt.

(** ** Queries of the hash set *)

(** [TxHashSet::get_unspent], [TxHashSet::get_token_unspent]: the index is the committed one *)
Definition get_unspent trees (commit_index : ChainStore) (output_id : OutputIdentifier) : res ErrorKind (option CommitPos) :=
  match db_output_pos commit_index !! oid_commit output_id with
  | Some (pos, height) =>
    match get_data (Bitmap := Bitmap) (Hash := bytes) (output_pmmr_h trees) pos with
    | Some out => if bool_decide (out = output_id) then Ok (Some (mkCommitPos pos height)) else Ok None
    | None => Ok None
    end
  | None => Ok None
  end.
Definition get_token_unspent trees (commit_index : ChainStore) (output_id : TokenOutputIdentifier) : res ErrorKind (option CommitPos) :=
  match db_token_output_pos commit_index !! toid_commit output_id with
  | Some (pos, height) =>
    match get_data (Bitmap := Bitmap) (Hash := bytes) (token_output_pmmr_h trees) pos with
    | Some out => if bool_decide (out = output_id) then Ok (Some (mkCommitPos pos height)) else Ok None
    | None => Ok None
    end
  | None => Ok None
  end.

(** The loop of [find_kernel], backwards from [index]; at most [fuel] positions are left *)
Fixpoint find_from {T E} `{!TreeStore Bitmap T E (B T)} (fuel : nat) (p : tree T) (wanted : E -> bool) (index min_index : Z)
    : option (E * Z) :=
  match fuel with
  | O => None
  | S fuel =>
    if min_index <? index then
      let index := (index - 1)%u64 in
      match get_data (Bitmap := Bitmap) (Hash := bytes) p index with
      | Some kernel => if wanted kernel then Some (kernel, index) else find_from fuel p wanted index min_index
      | None => find_from fuel p wanted index min_index
      end
    else None
  end.
Definition find_kernel trees (excess_of : Commitment) (min_index max_index : option Z) : option (TxKernel * Z) :=
  let min_index := default 1 min_index in
  let max_index := default (last_pos (kernel_pmmr_h trees)) max_index in
  let index := (max_index + 1)%u64 in
  find_from (Z.to_nat (index - min_index)) (kernel_pmmr_h trees) (fun k => bool_decide (excess k = excess_of)) index min_index.
Definition find_token_kernel trees (excess_of : Commitment) (min_index max_index : option Z) : option (TokenTxKernel * Z) :=
  let min_index := default 1 min_index in
  let max_index := default (last_pos (token_kernel_pmmr_h trees)) max_index in
  let index := (max_index + 1)%u64 in
  find_from (Z.to_nat (index - min_index)) (token_kernel_pmmr_h trees)
    (fun k => bool_decide (token_excess k = excess_of)) index min_index.

(** [TxHashSet::roots] *)
Definition set_roots trees : res ErrorKind TxHashSetRoots :=
  let? pmmr_root := other_err (readonly_root (Bitmap := Bitmap) (T := Output) (E := OutputIdentifier) (output_pmmr_h trees)) in
  let? bitmap_root := other_err (acc_root (Bitmap := Bitmap) (set_accumulator trees)) in
  let? rproof_root := other_err (readonly_root (Bitmap := Bitmap) (T := RangeProof) (E := RangeProof) (rproof_pmmr_h trees)) in
  let? kernel_root := other_err (readonly_root (Bitmap := Bitmap) (T := TxKernel) (E := TxKernel) (kernel_pmmr_h trees)) in
  let? token_output_root :=
    other_err (readonly_root (Bitmap := Bitmap) (T := TokenOutput) (E := TokenOutputIdentifier) (token_output_pmmr_h trees)) in
  let? token_rproof_root :=
    other_err (readonly_root (Bitmap := Bitmap) (T := RangeProof) (E := RangeProof) (token_rproof_pmmr_h trees)) in
  let? token_issue_proof_root :=
    other_err (readonly_root (Bitmap := Bitmap) (T := TokenIssueProof) (E := TokenIssueProof) (token_issue_proof_pmmr_h trees)) in
  let? token_kernel_root :=
    other_err (readonly_root (Bitmap := Bitmap) (T := TokenTxKernel) (E := TokenTxKernel) (token_kernel_pmmr_h trees)) in
  Ok (mkRoots (mkOutputRoots pmmr_root bitmap_root) rproof_root kernel_root token_output_root token_rproof_root
        token_issue_proof_root token_kernel_root).

(** [TxHashSet::merkle_proof], [TxHashSet::token_merkle_proof] *)
Definition set_merkle_proof trees (commit_index : ChainStore) (commit : Commitment) : res ErrorKind (MerkleProof bytes) :=
  let? pos := from_store (get_output_pos (batch commit_index) commit) in
  map_err (fun _ => CMerkleProof) (merkle_proof (Bitmap := Bitmap) (T := Output) (E := OutputIdentifier) (output_pmmr_h trees) pos).
Definition set_token_merkle_proof trees (commit_index : ChainStore) (commit : Commitment) : res ErrorKind (MerkleProof bytes) :=
  let? pos := from_store (get_token_output_pos (batch commit_index) commit) in
  map_err (fun _ => CMerkleProof)
    (merkle_proof (Bitmap := Bitmap) (T := TokenOutput) (E := TokenOutputIdentifier) (token_output_pmmr_h trees) pos).

(** [TxHashSet::bitmap_accumulator] *)
Definition build_accumulator (p : tree Output) : res ErrorKind (VecBackend bytes BitmapChunk) :=
  let size := n_leaves (last_pos p) in
  let? idx := set_err (leaf_idx_iter (backend p) 0) in
  acc_init (Bitmap := Bitmap) acc_new idx size.

(** ** Compaction *)

(** The loops of [input_pos_to_rewind] and [token_input_pos_to_rewind]; the height of the head is enough fuel, as for
    [rewind_blocks] *)
Fixpoint pos_to_rewind (fuel : nat) (bitmap_of : bytes -> res StoreError Bitmap) b (height : Z) (current : BlockHeader)
    (bitmap : Bitmap) : res ErrorKind Bitmap :=
  if height <? bh_height current then
    match fuel with
    | O => Panic
    | S fuel =>
      let? bitmap :=
        match bitmap_of (header_hash ct current) with
        | Ok block_bitmap => Ok (bm_or_inplace bitmap block_bitmap)
        | Err _ => Ok bitmap
        | Panic => Panic
        end in
      let? current := from_store (get_previous_header b current) in
      pos_to_rewind fuel bitmap_of b height current bitmap
    end
  else Ok bitmap.
Definition input_pos_to_rewind b (block_header head_header : BlockHeader) : res ErrorKind Bitmap :=
  pos_to_rewind (Z.to_nat (bh_height head_header)) (get_block_input_bitmap b) b (bh_height block_header) head_header bm_create.
Definition token_input_pos_to_rewind b (block_header head_header : BlockHeader) : res ErrorKind Bitmap :=
  pos_to_rewind (Z.to_nat (bh_height head_header)) (get_block_token_input_bitmap b) b (bh_height block_header) head_header bm_create.

Definition compact_tree {T E} `{!TreeStore Bitmap T E (B T)} (p : tree T) (cutoff : Z) (rm : Bitmap) : res ErrorKind (tree T) :=
  let? '(_, b) := set_err (check_compact (backend p) cutoff rm) in Ok (mkPMMR (last_pos p) b).

(** [TxHashSet::compact]; the cutoff of the token range proofs is the size of the issue proof tree *)
Definition set_compact trees (horizon_header : BlockHeader) b : res ErrorKind (TxHashSet B) :=
  let? head_header := from_store (head_header b) in
  let? rewind_rm_pos := input_pos_to_rewind b horizon_header head_header in
  let? token_rewind_rm_pos := token_input_pos_to_rewind b horizon_header head_header in
  let? o := compact_tree (output_pmmr_h trees) (output_mmr_size horizon_header) rewind_rm_pos in
  let? r := compact_tree (rproof_pmmr_h trees) (output_mmr_size horizon_header) rewind_rm_pos in
  let? t_o := compact_tree (token_output_pmmr_h trees) (token_output_mmr_size horizon_header) token_rewind_rm_pos in
  let? t_r := compact_tree (token_rproof_pmmr_h trees) (token_issue_proof_mmr_size horizon_header) token_rewind_rm_pos in
  Ok (mkTxHashSet o r (kernel_pmmr_h trees) t_o t_r (token_issue_proof_pmmr_h trees) (token_kernel_pmmr_h trees)
        (set_accumulator trees)).
End Units.
