(* ===== verification/TxHashSetState.v ===== *)
(** * Validating and indexing a whole transaction hash set

    Models the rest of [chain/src/txhashset/txhashset.rs]: the sums, signatures and range
    proofs of everything in the trees ([Extension::validate], used after a state sync), and the
    rebuilding of the index of output positions.  The status callbacks only report progress and are left out. *)

From Stdlib Require Import ZArith Lia List Bool.
From stdpp Require Import base numbers list option gmap.
From S2P Require Import Prelude MmrIndex Pmmr Bytes Consensus Ser Bitmap PowTypes Transaction TxBody Committed Verifier Aggregate Block ChainTypes BitmapAccumulator ChainStore TxHashSet.

Section State.
  Context {DG : Digest} (ct : ChainTypes) {SS : SecpSizes} {SP : Secp} {SV : SecpVerify}
    {Bitmap : Type} {BR : CRoaring Bitmap} {B : Type -> Type} {TR : Trees Bitmap B}.
  #[local] Abbreviation tree T := (PMMR (B T)).
  #[local] Abbreviation data p pos := (get_data (Bitmap := Bitmap) (Hash := bytes) p pos).
  Implicit Types (b : Batch) (e : Extension B) (trees : TxHashSet B).

(** The elements at the leaf positions of a tree that is not pruned: [for n in 1..size + 1] with [is_leaf] *)
Definition leaf_elements {T E} `{!TreeStore Bitmap T E (B T)} (p : tree T) : list E :=
  omap (fun n => data p n) (List.filter is_leaf (seqZ 1 (unpruned_size p))).

(** The elements at the unspent positions of a pruned tree ([leaf_pos_iter]) *)
Definition unspent_elements {T E} `{!TreeStore Bitmap T E (B T)} (p : tree T) : list E :=
  match leaf_pos_iter (backend p) with Ok l => omap (fun n => data p n) l | _ => [] end.

(** [entry(key).or_insert(vec![])], then a push for a plain kernel only *)
Definition kernel_entry (m : gmap TokenKey (list Commitment)) (k : TokenTxKernel) : gmap TokenKey (list Commitment) :=
  let v := default [] (m !! kernel_token_type k) in
  <[kernel_token_type k := if is_plain_token k then v ++ [token_excess k] else v]> m.

(** [Committed for Extension] *)
#[export] Instance extension_committed : Committed (Extension B) := {
  inputs_committed _ := [];
  outputs_committed e := map oid_commit (unspent_elements (output_pmmr e));
  kernels_committed e := map excess (leaf_elements (kernel_pmmr e));
  token_inputs_committed e :=
    foldl entry_push ∅ (map (fun p => (issue_token_type p, issue_commit p)) (leaf_elements (token_issue_proof_pmmr e)));
  token_outputs_committed e :=
    foldl entry_push ∅ (map (fun o => (toid_token_type o, toid_commit o)) (unspent_elements (token_output_pmmr e)));
  token_kernels_committed e := foldl kernel_entry ∅ (leaf_elements (token_kernel_pmmr e))
}.

(** [Extension::validate_mmrs] *)
Definition valid_tree {T E} `{!PMMRable bytes T E} `{!TreeStore Bitmap T E (B T)} (p : tree T) : res ErrorKind unit :=
  map_err (fun _ => InvalidTxHashSet) (validate (Bitmap := Bitmap) (T := T) (E := E) p).
Definition validate_mmrs e : res ErrorKind unit :=
  let? _ := valid_tree (output_pmmr e) in
  let? _ := valid_tree (rproof_pmmr e) in
  let? _ := valid_tree (kernel_pmmr e) in
  let? _ := valid_tree (token_output_pmmr e) in
  let? _ := valid_tree (token_rproof_pmmr e) in
  let? _ := valid_tree (token_issue_proof_pmmr e) in
  valid_tree (token_kernel_pmmr e).

(** [Extension::validate_kernel_sums], [Extension::validate_token_kernel_sums] *)
Definition validate_kernel_sums e (genesis header : BlockHeader) : res ErrorKind (Commitment * Commitment) :=
  map_err ECommitted (verify_kernel_sums e (total_overage ct header (0 <? kernel_mmr_size genesis)) (total_kernel_offset header)).
Definition validate_token_kernel_sums e : res ErrorKind BlockTokenSums :=
  map_err ECommitted (verify_token_kernel_sum e).

(** ** Signatures *)

Definition KERNEL_BATCH_SIZE : nat := 5000.

(** The loop of [verify_kernel_signatures] over the positions [ns] of a tree of [size] *)
Fixpoint kernel_batches {T E} `{!TreeStore Bitmap T E (B T)} (verify : list E -> res TxError unit) (p : tree T)
    (ns : list Z) (acc : list E) : res ErrorKind unit :=
  match ns with
  | [] => Ok tt
  | n :: ns =>
    let? acc :=
      if is_leaf n then let? kernel := ok_or (data p n) TxKernelNotFound in Ok (acc ++ [kernel]) else Ok acc in
    if (KERNEL_BATCH_SIZE <=? length acc)%nat || (unpruned_size p <=? n) then
      let? _ := map_err CTransaction (verify acc) in kernel_batches verify p ns []
    else kernel_batches verify p ns acc
  end.
Definition verify_kernel_signatures e : res ErrorKind unit :=
  kernel_batches batch_sig_verify (kernel_pmmr e) (seqZ 1 (unpruned_size (kernel_pmmr e))) [].
Definition verify_token_kernel_signatures e : res ErrorKind unit :=
  kernel_batches token_batch_sig_verify (token_kernel_pmmr e) (seqZ 1 (unpruned_size (token_kernel_pmmr e))) [].

(** ** Range proofs *)

(** The loop of [verify_rangeproofs]: batches of a thousand, and the rest *)
Fixpoint rangeproof_batches {T E} `{!TreeStore Bitmap T E (B T)} (id_commit : E -> Commitment) (p : tree T) (q : tree RangeProof)
    (ps : list Z) (commits : list Commitment) (proofs : list RangeProof) : res ErrorKind unit :=
  match ps with
  | [] => match proofs with [] => Ok tt | _ => map_err CTransaction (batch_verify_proofs commits proofs) end
  | pos :: ps =>
    match data p pos, data q pos with
    | None, _ => Err OutputNotFound
    | _, None => Err RangeproofNotFound
    | Some output, Some proof =>
      let commits := commits ++ [id_commit output] in
      let proofs := proofs ++ [proof] in
      if (1000 <=? length proofs)%nat then
        let? _ := map_err CTransaction (batch_verify_proofs commits proofs) in
        rangeproof_batches id_commit p q ps [] []
      else rangeproof_batches id_commit p q ps commits proofs
    end
  end.
Definition verify_rangeproofs e : res ErrorKind unit :=
  let? ps := set_err (leaf_pos_iter (backend (output_pmmr e))) in
  rangeproof_batches oid_commit (output_pmmr e) (rproof_pmmr e) ps [] [].
Definition verify_token_rangeproofs e : res ErrorKind unit :=
  let? ps := set_err (leaf_pos_iter (backend (token_output_pmmr e))) in
  rangeproof_batches toid_commit (token_output_pmmr e) (token_rproof_pmmr e) ps [] [].

(** [Extension::validate] *)
Definition ext_validate e (genesis : BlockHeader) (fast_validation : bool) (header : BlockHeader)
    : res ErrorKind (Commitment * Commitment * BlockTokenSums) :=
  let? _ := validate_mmrs e in
  let? _ := validate_roots (Bitmap := Bitmap) e header in
  let? _ := validate_sizes e header in
  if tip_height (ext_head e) =? 0 then Ok (commit_to_zero_value, commit_to_zero_value, default_block_token_sums)
  else
    let? '(output_sum, kernel_sum) := validate_kernel_sums e genesis header in
    let? block_token_sums := validate_token_kernel_sums e in
    let? _ :=
      if fast_validation then Ok tt
      else
        let? _ := verify_rangeproofs e in
        let? _ := verify_token_rangeproofs e in
        let? _ := verify_kernel_signatures e in
        verify_token_kernel_signatures e in
    Ok (output_sum, kernel_sum, block_token_sums).

(** ** Rebuilding the index of output positions *)

(** Remove the entries of the committed index that do not point to their output. *)
Fixpoint drop_stale {T E} `{!TreeStore Bitmap T E (B T)} (id_commit : E -> Commitment) (p : tree T)
    (pos_of : Batch -> Commitment -> res StoreError Z) (del_of : Batch -> Commitment -> res StoreError Batch)
    (entries : list (Commitment * (Z * Z))) b : res StoreError Batch :=
  match entries with
  | [] => Ok b
  | (key, (pos, _)) :: entries =>
    let keep :=
      match data p pos with
      | Some out =>
        match pos_of b (id_commit out) with
        | Ok pos_via_mmr => (pos =? pos_via_mmr) && bool_decide (key = id_commit out)
        | _ => false
        end
      | None => false
      end in
    if keep : bool then drop_stale id_commit p pos_of del_of entries b
    else let? b := del_of b key in drop_stale id_commit p pos_of del_of entries b
  end.

(** [while i < total_outputs]: the outputs up to the size of the header get its height *)
Fixpoint index_up_to (save : Batch -> Commitment -> Z -> Z -> Batch) (size height : Z)
    (outputs_pos : list (Commitment * Z)) b : list (Commitment * Z) * Batch :=
  match outputs_pos with
  | [] => ([], b)
  | (commit, pos) :: rest =>
    if size <? pos then (outputs_pos, b) else index_up_to save size height rest (save b commit pos height)
  end.

(** [for search_height in 0..max_height] *)
Fixpoint index_heights (save : Batch -> Commitment -> Z -> Z -> Batch) (size_of : BlockHeader -> Z)
    (header_pmmr : tree BlockHeader) (heights : list Z) (outputs_pos : list (Commitment * Z)) b : res ErrorKind Batch :=
  match heights with
  | [] => Ok b
  | search_height :: heights =>
    let? hash := get_header_hash_by_height header_pmmr (search_height + 1)%u64 in
    let? h := from_store (get_block_header b hash) in
    let '(outputs_pos, b) := index_up_to save (size_of h) (bh_height h) outputs_pos b in
    index_heights save size_of header_pmmr heights outputs_pos b
  end.

(** The body that [init_output_pos_index] and [init_token_output_pos_index] share *)
Definition init_pos_index {T E} `{!TreeStore Bitmap T E (B T)} (id_commit : E -> Commitment) (p : tree T)
    (pos_of : Batch -> Commitment -> res StoreError Z) (height_of : Batch -> Commitment -> res StoreError (option (Z * Z)))
    (del_of : Batch -> Commitment -> res StoreError Batch) (save : Batch -> Commitment -> Z -> Z -> Batch)
    (size_of : BlockHeader -> Z) (entries : list (Commitment * (Z * Z))) (header_pmmr : tree BlockHeader) b
    : res ErrorKind Batch :=
  let? b := from_store (drop_stale id_commit p pos_of del_of entries b) in
  let? ps := set_err (leaf_pos_iter (backend p)) in
  let outputs_pos := omap (fun pos => match data p pos with Some out => Some (id_commit out, pos) | None => None end) ps in
  let outputs_pos := List.filter
    (fun x => match height_of b x.1 with Ok (Some _) => false | _ => true end) outputs_pos in
  match outputs_pos with
  | [] => Ok b
  | _ =>
    let? head := from_store (head b) in
    index_heights save size_of header_pmmr (seqZ 0 (tip_height head)) outputs_pos b
  end.

(** [TxHashSet::init_output_pos_index], [TxHashSet::init_token_output_pos_index] *)
Definition init_output_pos_index trees (header_pmmr : tree BlockHeader) b : res ErrorKind Batch :=
  init_pos_index oid_commit (output_pmmr_h trees) get_output_pos get_output_pos_height delete_output_pos_height
    save_output_pos_height output_mmr_size (output_pos_iter b) header_pmmr b.
Definition init_token_output_pos_index trees (header_pmmr : tree BlockHeader) b : res ErrorKind Batch :=
  init_pos_index toid_commit (token_output_pmmr_h trees) get_token_output_pos get_token_output_pos_height
    delete_token_output_pos_height save_token_output_pos_height token_output_mmr_size (token_output_pos_iter b) header_pmmr b.
End State.
