(* ===== verification/TreeLaws.v ===== *)
(** * What the transaction hash set relies on in its trees

    The laws of the tree operations that [TxHashSet] calls, against the abstract store of
    [StoreTheorems] (the elements, the unspent leaves and their backup), as interfaces: [PrunableTree] for
    the trees of outputs and range proofs, [AppendTree] for headers, kernels and issue proofs.  [FileTrees] discharges both.

    On top of the interface, the pair of an output tree and its range proof tree with the index of positions is
    proved to be a ledger: a finite map from commitments to what an input has to match. *)

From Stdlib Require Import ZArith Lia List Bool Sorted.
From stdpp Require Import base numbers list option gmap.
From S2P Require Import Prelude MmrIndex Pmmr Bytes Consensus Ser Bitmap PruneList DataFile FileBackend StoreTheorems PowTypes Transaction TxBody Committed Verifier Aggregate Block ChainTypes BitmapAccumulator ChainStore TxHashSet.

(** ** Interfaces *)

Definition room {T} (s : FileState T) : Prop :=
  Z.of_nat (length (flushed s)) + Z.of_nat (length (pending s)) + 1 < 2 ^ 30.

(** Positions of leaves only *)
Definition only_leaves {Bitmap} `{!CRoaring Bitmap} (rm : Bitmap) : Prop :=
  forall x, x ∈ bm_iter rm -> exists i, 0 <= i < 2 ^ 31 /\ x = node_pos i 0.

Class PrunableTree (Bitmap T E B : Type) `{!CRoaring Bitmap} `{!PMMRable bytes T E} `{!TreeStore Bitmap T E B} := {
  tree_rep : PMMR B -> AbsStore T -> Prop;
  tree_dom : T -> Prop;
  rep_size p a : tree_rep p a -> last_pos p = mmr_size (Z.of_nat (length (view (elems a))));
  rep_small p a : tree_rep p a -> Z.of_nat (length (view (elems a))) < 2 ^ 30;
  rep_unspent p a i : tree_rep p a -> i ∈ unspent a -> i ∉ pruned a /\ 0 <= i < Z.of_nat (length (view (elems a)));
  rep_data p a i : tree_rep p a -> 0 <= i < 2 ^ 31 ->
    backend_get_data (Bitmap := Bitmap) (Hash := bytes) (T := T) (backend p) (node_pos i 0)
    = (if bool_decide (i ∈ unspent a) then as_elmt <$> view (elems a) !! Z.to_nat i else None);
  rep_root p a : tree_rep p a ->
    exists r, root (Bitmap := Bitmap) (Hash := bytes) (T := T) p = Ok r /\ range_root (view (elems a)) = Some r;
  rep_push p a x : tree_rep p a -> tree_dom x -> room (elems a) ->
    exists p', push (Bitmap := Bitmap) p x = Ok (node_pos (Z.of_nat (length (view (elems a)))) 0, p') /\
      tree_rep p' (abs_op (Bitmap := Bitmap) a (SPush x));
  rep_prune p a i : tree_rep p a -> 0 <= i < 2 ^ 31 ->
    exists p', prune (Bitmap := Bitmap) (Hash := bytes) (T := T) p (node_pos i 0) = Ok (bool_decide (i ∈ unspent a), p') /\
      tree_rep p' (abs_op (Bitmap := Bitmap) a (SPrune i));
  rep_rewind p a n (rm : Bitmap) : tree_rep p a -> pending (elems a) = [] -> (n <= length (flushed (elems a)))%nat ->
    (forall i, i ∈ pruned a -> i < Z.of_nat n) -> only_leaves rm ->
    (forall i, i ∈ leaf_indices rm -> i ∉ pruned a /\ 0 <= i < Z.of_nat n) ->
    exists p', rewind (Hash := bytes) (T := T) p (mmr_size (Z.of_nat n)) rm = Ok p' /\ tree_rep p' (abs_op a (SRewind n rm));
  rep_leaf_idx p a from : tree_rep p a -> 0 <= from < 2 ^ 31 ->
    exists l, leaf_idx_iter (Bitmap := Bitmap) (backend p) from = Ok l /\ StronglySorted Z.lt l /\
      forall i, i ∈ l <-> i ∈ unspent a /\ from <= i;
  rep_sync p a : tree_rep p a ->
    exists b', sync (Bitmap := Bitmap) (backend p) = Ok b' /\
      tree_rep (mkPMMR (last_pos p) b') (abs_op (Bitmap := Bitmap) a SSync);
  rep_discard p a : tree_rep p a ->
    tree_rep (mkPMMR (mmr_size (Z.of_nat (length (flushed (elems a))))) (discard (Bitmap := Bitmap) (backend p)))
      (abs_op (Bitmap := Bitmap) a SDiscard)
}.

Class AppendTree (Bitmap T E B : Type) `{!CRoaring Bitmap} `{!PMMRable bytes T E} `{!TreeStore Bitmap T E B} := {
  list_rep : PMMR B -> FileState T -> Prop;
  list_dom : T -> Prop;
  list_size p s : list_rep p s -> last_pos p = mmr_size (Z.of_nat (length (view s)));
  list_small p s : list_rep p s -> Z.of_nat (length (view s)) < 2 ^ 30;
  list_data p s i : list_rep p s -> 0 <= i < 2 ^ 31 ->
    backend_get_data (Bitmap := Bitmap) (Hash := bytes) (T := T) (backend p) (node_pos i 0) = as_elmt <$> view s !! Z.to_nat i;
  list_root p s : list_rep p s ->
    exists r, root (Bitmap := Bitmap) (Hash := bytes) (T := T) p = Ok r /\ range_root (view s) = Some r;
  list_push p s x : list_rep p s -> list_dom x -> room s ->
    exists p', push (Bitmap := Bitmap) p x = Ok (node_pos (Z.of_nat (length (view s))) 0, p') /\ list_rep p' (state_append s x);
  list_rewind p s n position : list_rep p s -> pending s = [] -> (n <= length (view s))%nat ->
    position = mmr_size (Z.of_nat n) \/ position = insertion_to_pmmr_index (Z.of_nat n) ->
    exists p', rewind (Hash := bytes) (T := T) p position (bm_create (Bitmap := Bitmap)) = Ok p' /\ list_rep p' (state_rewind s n);
  list_sync p s : list_rep p s ->
    exists b', sync (Bitmap := Bitmap) (backend p) = Ok b' /\ list_rep (mkPMMR (last_pos p) b') (state_flush s);
  list_discard p s : list_rep p s ->
    list_rep (mkPMMR (mmr_size (Z.of_nat (length (flushed s)))) (discard (Bitmap := Bitmap) (backend p))) (state_discard s)
}.

(** ** Reading through a PMMR *)

Lemma leaf_pos_small i : 0 <= i < 2 ^ 31 -> is_leaf (node_pos i 0) = true /\ small_leaves i.
Proof.
  intros Hi. pose proof (leaf_is_node i ltac:(lia)) as Hn. destruct (fits_u32 i 0 Hn ltac:(lia)) as (_ & Hs & _).
  split; [|done]. rewrite is_leaf_node by done. done.
Qed.

Lemma leaf_pos_le i n : 0 <= i -> 0 <= n -> node_pos i 0 <= mmr_size n <-> i < n.
Proof.
  intros Hi Hn. unfold node_pos. split.
  - intros H. destruct (Z.lt_ge_cases i n); [done|]. pose proof (mmr_size_mono n i ltac:(lia)). lia.
  - intros H. pose proof (mmr_size_strict i n ltac:(lia)). pose proof (trailing_ones_nonneg i). lia.
Qed.

Lemma leaf_pos_inj i j : 0 <= i -> 0 <= j -> node_pos i 0 = node_pos j 0 -> i = j.
Proof. intros Hi Hj E. apply node_pos_inj in E as [? _]; [done|apply leaf_is_node; done..]. Qed.

Lemma leaf_pos_lt i j : 0 <= i < j -> node_pos i 0 < node_pos j 0.
Proof.
  intros H. pose proof (mmr_size_strict i j H). pose proof (trailing_ones_nonneg i). unfold node_pos. lia.
Qed.
Lemma leaf_pos_mono i j : 0 <= i <= j -> node_pos i 0 <= node_pos j 0.
Proof. intros H. destruct (Z.eq_dec i j) as [->|]; [lia|]. pose proof (leaf_pos_lt i j ltac:(lia)). lia. Qed.

Lemma leaf_index i : 0 <= i < 2 ^ 31 -> saturating_sub (n_leaves (node_pos i 0)) 1 = i.
Proof. intros Hi. rewrite n_leaves_leaf by apply (leaf_pos_small i Hi). unfold saturating_sub. lia. Qed.

Section Reading.
  Context {Bitmap T E B : Type} {BR : CRoaring Bitmap} `{!PMMRable bytes T E} `{!TreeStore Bitmap T E B}.

Lemma tree_get_data `{!PrunableTree Bitmap T E B} p a i :
  tree_rep p a -> 0 <= i < 2 ^ 31 ->
  get_data (Bitmap := Bitmap) (Hash := bytes) p (node_pos i 0)
  = (if bool_decide (i ∈ unspent a) then as_elmt <$> view (elems a) !! Z.to_nat i else None).
Proof.
  intros Hr Hi. unfold get_data. rewrite (rep_size p a Hr), (proj1 (leaf_pos_small i Hi)), (rep_data p a i Hr Hi).
  destruct (Z.ltb_spec (mmr_size (Z.of_nat (length (view (elems a))))) (node_pos i 0)) as [Hlt|]; [|done].
  case_bool_decide as Hu; [|done]. apply (rep_unspent p a i Hr) in Hu as [_ [_ Hu]].
  apply (leaf_pos_le i) in Hu; lia.
Qed.

Lemma list_get_data `{!AppendTree Bitmap T E B} p s i :
  list_rep p s -> 0 <= i < 2 ^ 31 ->
  get_data (Bitmap := Bitmap) (Hash := bytes) p (node_pos i 0) = as_elmt <$> view s !! Z.to_nat i.
Proof.
  intros Hr Hi. unfold get_data. rewrite (list_size p s Hr), (proj1 (leaf_pos_small i Hi)), (list_data p s i Hr Hi).
  destruct (Z.ltb_spec (mmr_size (Z.of_nat (length (view s)))) (node_pos i 0)) as [Hlt|]; [|done].
  destruct (view s !! Z.to_nat i) eqn:E'; [|done]. apply lookup_lt_Some in E'.
  assert (node_pos i 0 <= mmr_size (Z.of_nat (length (view s)))); [|lia]. apply leaf_pos_le; lia.
Qed.
End Reading.

(** ** Outputs as a ledger *)

(** An entry: what an input has to match, the leaf of the output and the height of its block *)
Record Entry (E : Type) := mkEntry { entry_id : E; entry_leaf : Z; entry_height : Z }.
Arguments mkEntry {E}.
Arguments entry_id {E}.
Arguments entry_leaf {E}.
Arguments entry_height {E}.

Section Ledger.
  Context {Bitmap T E : Type} {B : Type -> Type} {DG : Digest} {BR : CRoaring Bitmap} {TR : Trees Bitmap B} `{!EqDecision E}
    `{!PMMRable bytes T E} `{!TreeStore Bitmap T E (B T)}
    `{!PrunableTree Bitmap T E (B T)} `{!PrunableTree Bitmap RangeProof RangeProof (B RangeProof)}
    (out_commit : T -> Commitment) (id_commit : E -> Commitment) (out_proof : T -> RangeProof).
  Hypothesis id_of_out : forall o : T, id_commit (as_elmt o) = out_commit o.
  Abbreviation Index := (gmap Commitment (Z * Z)).
  Abbreviation Ledger := (gmap Commitment (Entry E)).
  Implicit Types (a : AbsStore T) (r : AbsStore RangeProof) (idx : Index) (l : Ledger).

(** Spending and creating, as a ledger does it *)
Definition ledger_create (out : T) (leaf height : Z) l : option Ledger :=
  match l !! out_commit out with
  | Some _ => None
  | None => Some (<[out_commit out := mkEntry (as_elmt out) leaf height]> l)
  end.
Definition ledger_spend (commit : Commitment) (id : E) l : option (Entry E * Ledger) :=
  match l !! commit with
  | Some e => if bool_decide (id = entry_id e) then Some (e, delete commit l) else None
  | None => None
  end.

(** A list of outputs gets consecutive leaves. *)
Fixpoint create_all (outs : list T) (leaf height : Z) l : option Ledger :=
  match outs with
  | [] => Some l
  | o :: outs => match ledger_create o leaf height l with Some l => create_all outs (leaf + 1) height l | None => None end
  end.
Fixpoint spend_all (ins : list (Commitment * E)) l : option (list (Entry E) * Ledger) :=
  match ins with
  | [] => Some ([], l)
  | (c, id) :: ins =>
    match ledger_spend c id l with
    | Some (e, l) => match spend_all ins l with Some (es, l) => Some (e :: es, l) | None => None end
    | None => None
    end
  end.

(** The ledger that a tree and its index hold: an entry of the index counts when its leaf is unspent and has the
    commitment it is indexed by. *)
Definition entry_at a (c : Commitment) (ph : Z * Z) : option (Entry E) :=
  let i := n_leaves ph.1 - 1 in
  if bool_decide (i ∈ unspent a) then
    match view (elems a) !! Z.to_nat i with
    | Some o => if bool_decide (out_commit o = c) then Some (mkEntry (as_elmt o) i ph.2) else None
    | None => None
    end
  else None.
Definition ledger_of a idx : Ledger := map_imap (entry_at a) idx.

(** The two trees hold the same leaves, every unspent leaf is indexed, and the index holds positions of leaves. *)
Record outs_inv (p : PMMR (B T)) (q : PMMR (B RangeProof)) idx a r : Prop := {
  oi_outs : tree_rep p a;
  oi_proofs : tree_rep q r;
  oi_same : elems r = mkState (map out_proof (flushed (elems a))) (keep (elems a)) (map out_proof (pending (elems a)));
  oi_unspent : unspent r = unspent a;
  oi_bak : unspent_bak r = unspent_bak a;
  oi_indexed : forall i o, i ∈ unspent a -> view (elems a) !! Z.to_nat i = Some o ->
    exists h, idx !! out_commit o = Some (node_pos i 0, h);
  oi_leaves : forall c pos h, idx !! c = Some (pos, h) -> exists i, 0 <= i < 2 ^ 31 /\ pos = node_pos i 0
}.

Lemma proofs_view a r :
  elems r = mkState (map out_proof (flushed (elems a))) (keep (elems a)) (map out_proof (pending (elems a))) ->
  view (elems r) = map out_proof (view (elems a)).
Proof. intros ->. unfold view. cbn. rewrite map_app, firstn_map. done. Qed.

Lemma ledger_lookup p q idx a r c :
  outs_inv p q idx a r ->
  ledger_of a idx !! c =
  match idx !! c with
  | Some (pos, h) =>
    let i := n_leaves pos - 1 in
    if bool_decide (i ∈ unspent a) then
      match view (elems a) !! Z.to_nat i with
      | Some o => if bool_decide (out_commit o = c) then Some (mkEntry (as_elmt o) i h) else None
      | None => None
      end
    else None
  | None => None
  end.
Proof. intros _. unfold ledger_of. rewrite map_lookup_imap. destruct (idx !! c) as [[pos h]|]; done. Qed.

(** An entry of the ledger is an unspent leaf. *)
Lemma ledger_entry p q idx a r c e :
  outs_inv p q idx a r -> ledger_of a idx !! c = Some e ->
  exists o, idx !! c = Some (node_pos (entry_leaf e) 0, entry_height e) /\ entry_leaf e ∈ unspent a /\
    view (elems a) !! Z.to_nat (entry_leaf e) = Some o /\ out_commit o = c /\ entry_id e = as_elmt o /\ 0 <= entry_leaf e < 2 ^ 31.
Proof.
  intros Hi. rewrite (ledger_lookup p q idx a r c Hi). destruct (idx !! c) as [[pos h]|] eqn:Ei; [|done].
  destruct (oi_leaves _ _ _ _ _ Hi c pos h Ei) as (i & Hib & ->). pose proof (leaf_pos_small i Hib) as [_ Hs].
  cbn zeta. rewrite n_leaves_leaf by done. replace (i + 1 - 1) with i by lia. case_bool_decide as Hu; [|done].
  destruct (view (elems a) !! Z.to_nat i) as [o|] eqn:Eo; [|done]. case_bool_decide as Hc; [|done].
  intros [= <-]. cbn. exists o. done.
Qed.

(** Every unspent leaf is an entry, under its commitment. *)
Lemma unspent_entry p q idx a r i o :
  outs_inv p q idx a r -> i ∈ unspent a -> view (elems a) !! Z.to_nat i = Some o ->
  exists h, ledger_of a idx !! out_commit o = Some (mkEntry (as_elmt o) i h).
Proof.
  intros Hi Hu Ho. destruct (oi_indexed _ _ _ _ _ Hi i o Hu Ho) as (h & Eh). exists h.
  rewrite (ledger_lookup p q idx a r _ Hi), Eh. destruct (rep_unspent _ _ i (oi_outs _ _ _ _ _ Hi) Hu) as [_ Hb].
  pose proof (rep_small _ _ (oi_outs _ _ _ _ _ Hi)) as Hsm.
  pose proof (leaf_pos_small i ltac:(change (2 ^ 30) with 1073741824 in Hsm; change (2 ^ 31) with 2147483648; lia)) as [_ Hs].
  cbn zeta. rewrite n_leaves_leaf by done. replace (i + 1 - 1) with i by lia.
  rewrite bool_decide_eq_true_2 by done. rewrite Ho, bool_decide_eq_true_2 by done. done.
Qed.

Lemma ledger_iff p q idx a r c e :
  outs_inv p q idx a r ->
  ledger_of a idx !! c = Some e <->
  exists o, entry_leaf e ∈ unspent a /\ view (elems a) !! Z.to_nat (entry_leaf e) = Some o /\ out_commit o = c /\
    entry_id e = as_elmt o /\ idx !! c = Some (node_pos (entry_leaf e) 0, entry_height e).
Proof.
  intros Hi. split.
  - intros H. destruct (ledger_entry p q idx a r c e Hi H) as (o & H1 & H2 & H3 & H4 & H5 & _). exists o. done.
  - intros (o & H2 & H3 & <- & H5 & H1). destruct (unspent_entry p q idx a r _ o Hi H2 H3) as (h & Eh). rewrite Eh.
    destruct (oi_indexed _ _ _ _ _ Hi _ o H2 H3) as (h' & Eh'). rewrite H1 in Eh'. injection Eh' as Eh'.
    destruct (ledger_entry p q idx a r _ _ Hi Eh) as (o' & Ei & _). rewrite H1 in Ei. injection Ei as Ei. cbn in *. destruct e. cbn in *. subst. done.
Qed.

(** *** Creating *)

Abbreviation pushed a x := (abs_op (Bitmap := Bitmap) a (SPush x)).
Abbreviation pruned_at a i := (abs_op (Bitmap := Bitmap) a (SPrune i)).

(** [get_output_pos] of the index *)
Definition pos_of idx (c : Commitment) : res StoreError Z :=
  match idx !! c with Some (pos, _) => Ok pos | None => Err NotFoundErr end.

Lemma push_lookup a x i o :
  view (elems (pushed a x)) !! i = Some o <->
  view (elems a) !! i = Some o \/ (i = length (view (elems a)) /\ o = x).
Proof.
  cbn [abs_op elems]. rewrite view_append. rewrite lookup_app. destruct (view (elems a) !! i) as [y|] eqn:Ey.
  - apply lookup_lt_Some in Ey. split; [intros [= <-]; left; done|]. intros [[= <-]|[-> _]]; [done|lia].
  - apply lookup_ge_None in Ey. split.
    + intros H. apply list_lookup_singleton_Some in H as [H ->]. right. split; [lia|done].
    + intros [?|[-> ->]]; [done|]. rewrite Nat.sub_diag. done.
Qed.

Lemma pair_push_inv p q idx a r out height p' q' :
  outs_inv p q idx a r -> ledger_of a idx !! out_commit out = None ->
  tree_rep p' (pushed a out) -> tree_rep q' (abs_op (Bitmap := Bitmap) r (SPush (out_proof out))) ->
  let n := Z.of_nat (length (view (elems a))) in
  outs_inv p' q' (<[out_commit out := (node_pos n 0, height)]> idx) (pushed a out) (abs_op (Bitmap := Bitmap) r (SPush (out_proof out))).
Proof.
  intros Hi Hn Hp Hq n. pose proof (rep_small _ _ (oi_outs _ _ _ _ _ Hi)) as Hsm. change (2 ^ 30) with 1073741824 in Hsm.
  pose proof (proofs_view a r (oi_same _ _ _ _ _ Hi)) as Hv. split; try done.
  - cbn [abs_op elems state_append]. rewrite (oi_same _ _ _ _ _ Hi). unfold state_append. cbn. rewrite map_app. done.
  - cbn [abs_op unspent]. rewrite Hv, length_map, (oi_unspent _ _ _ _ _ Hi). done.
  - cbn [abs_op unspent_bak]. apply Hi.
  - intros i o Hu Ho. apply push_lookup in Ho as [Ho|[Hin ->]].
    + assert (Hu' : i ∈ unspent a).
      { cbn [abs_op unspent] in Hu. apply elem_of_union in Hu as [Hu%elem_of_singleton|]; [|done].
        apply lookup_lt_Some in Ho. subst i. lia. }
      rewrite lookup_insert_ne; [apply Hi; done|]. intros E'. destruct (unspent_entry p q idx a r i o Hi Hu' Ho) as (h & Eh).
      rewrite <- E' in Eh. congruence.
    + exists height. rewrite lookup_insert. rewrite decide_True by done. do 3 f_equal. subst n.
      assert (0 <= i) by (apply (rep_unspent _ _ i Hp) in Hu as [_ ?]; lia). lia.
  - intros c pos h. rewrite lookup_insert_Some. intros [[<- [= <- <-]]|[_ H]]; [|eapply Hi; done].
    exists n. split; [subst n; change (2 ^ 31) with 2147483648; lia|done].
Qed.

Lemma push_ledger p q idx a r out height p' q' :
  outs_inv p q idx a r ->
  let n := Z.of_nat (length (view (elems a))) in
  outs_inv p' q' (<[out_commit out := (node_pos n 0, height)]> idx) (pushed a out) (abs_op (Bitmap := Bitmap) r (SPush (out_proof out))) ->
  ledger_of (pushed a out) (<[out_commit out := (node_pos n 0, height)]> idx)
  = <[out_commit out := mkEntry (as_elmt out) n height]> (ledger_of a idx).
Proof.
  intros Hi n Hi'. apply map_eq. intros c. apply option_eq. intros e. rewrite (ledger_iff p' q' _ _ _ c e Hi').
  rewrite (lookup_insert_Some (ledger_of a idx)). split.
  - intros (o & Hu & Ho & <- & He & Ei). apply push_lookup in Ho as [Ho|[Hin ->]].
    + assert (entry_leaf e <> n) by (apply lookup_lt_Some in Ho; subst n; lia).
      assert (Hu' : entry_leaf e ∈ unspent a) by (cbn in Hu; set_solver).
      destruct (decide (out_commit out = out_commit o)) as [Ec|Ec].
      * rewrite Ec, lookup_insert, decide_True in Ei by done. injection Ei as Ei _.
        destruct (rep_unspent _ _ _ (oi_outs _ _ _ _ _ Hi) Hu') as [_ ?]. apply leaf_pos_inj in Ei; subst n; lia.
      * right. split; [done|]. apply (ledger_iff p q idx a r); [done|]. rewrite lookup_insert_ne in Ei by done. exists o. done.
    + left. split; [done|]. destruct (rep_unspent _ _ _ (oi_outs _ _ _ _ _ Hi') Hu) as [_ ?].
      rewrite lookup_insert, decide_True in Ei by done. injection Ei as Ei1 Ei2. destruct e. cbn in *. subst. f_equal. lia.
  - intros [[<- <-]|[Hne H]]; cbn [entry_leaf entry_id entry_height].
    + exists out. split; [cbn; set_solver|]. split; [apply push_lookup; right; split; [lia|done]|].
      split; [done|]. split; [done|]. rewrite lookup_insert, decide_True by done. done.
    + apply (ledger_iff p q idx a r c e Hi) in H as (o & H1 & H2 & H3 & H4 & H5). exists o.
      split; [cbn; set_solver|]. split; [apply push_lookup; left; done|]. split; [done|]. split; [done|].
      rewrite lookup_insert_ne by done. done.
Qed.

(** What a failed work leaves of a pair: trees that discarding brings back to where those of [a] and [r] would be *)
Definition pair_left a (r : AbsStore RangeProof) (pq : PMMR (B T) * PMMR (B RangeProof)) : Prop :=
  exists a' r', tree_rep pq.1 a' /\ tree_rep pq.2 r' /\
    abs_op (Bitmap := Bitmap) a' SDiscard = abs_op (Bitmap := Bitmap) a SDiscard /\
    abs_op (Bitmap := Bitmap) r' SDiscard = abs_op (Bitmap := Bitmap) r SDiscard.
Lemma pair_left_self p q idx a r : outs_inv p q idx a r -> pair_left a r (p, q).
Proof. intros Hi. exists a, r. split_and!; [apply Hi|apply Hi|done|done]. Qed.

(** [create_output] creates an entry of the ledger, or reports the duplicate. *)
Lemma create_spec p q idx a r out height :
  outs_inv p q idx a r -> tree_dom out -> tree_dom (out_proof out) -> room (elems a) ->
  let n := Z.of_nat (length (view (elems a))) in
  match ledger_create out n height (ledger_of a idx) with
  | Some l' => exists p' q',
      create_output (Bitmap := Bitmap) out_commit id_commit out_proof (pos_of idx (out_commit out)) out p q = Ok (node_pos n 0, p', q') /\
      outs_inv p' q' (<[out_commit out := (node_pos n 0, height)]> idx) (pushed a out) (abs_op (Bitmap := Bitmap) r (SPush (out_proof out))) /\
      ledger_of (pushed a out) (<[out_commit out := (node_pos n 0, height)]> idx) = l'
  | None => create_output (Bitmap := Bitmap) out_commit id_commit out_proof (pos_of idx (out_commit out)) out p q
      = Err (CDuplicateCommitment (out_commit out), (p, q))
  end.
Proof.
  intros Hi Hd Hdp Hroom n. unfold ledger_create, create_output.
  pose proof (proofs_view a r (oi_same _ _ _ _ _ Hi)) as Hv.
  destruct (ledger_of a idx !! out_commit out) as [e|] eqn:El.
  - destruct (ledger_entry p q idx a r _ e Hi El) as (o & Ei & Hu & Ho & Hc & _ & Hb). unfold pos_of. rewrite Ei.
    rewrite (tree_get_data p a _ (oi_outs _ _ _ _ _ Hi) Hb), bool_decide_eq_true_2, Ho by done. cbn [fmap option_fmap option_map].
    rewrite id_of_out, bool_decide_eq_true_2 by done. done.
  - replace (match pos_of idx (out_commit out) with Ok pos => _ | _ => _ end) with (Ok (E := ErrorKind) tt).
    2: { unfold pos_of. destruct (idx !! out_commit out) as [[pos h]|] eqn:Ei; [|done].
         destruct (oi_leaves _ _ _ _ _ Hi _ _ _ Ei) as (i & Hb & ->). rewrite (tree_get_data p a _ (oi_outs _ _ _ _ _ Hi) Hb).
         case_bool_decide as Hu; [|done]. destruct (view (elems a) !! Z.to_nat i) as [o|] eqn:Eo; [|done]. cbn [fmap option_fmap option_map].
         rewrite id_of_out. case_bool_decide as Hc; [|done]. destruct (unspent_entry p q idx a r i o Hi Hu Eo) as (h' & Eh).
         rewrite Hc in Eh. congruence. }
    cbn [leaving map_err res_bind]. destruct (rep_push p a out (oi_outs _ _ _ _ _ Hi) Hd Hroom) as (p' & -> & Hp). cbn [set_err leaving map_err res_bind].
    destruct (rep_push q r (out_proof out) (oi_proofs _ _ _ _ _ Hi) Hdp) as (q' & -> & Hq).
    { unfold room. rewrite (oi_same _ _ _ _ _ Hi). cbn. rewrite !length_map. exact Hroom. }
    cbn [set_err leaving map_err res_bind]. rewrite Hv, length_map. fold n. unfold unpruned_size.
    pose proof (pair_push_inv p q idx a r out height p' q' Hi El Hp Hq) as Hi'. cbn zeta in Hi'. fold n in Hi'.
    rewrite (rep_size p' _ Hp), (rep_size q' _ Hq), (proofs_view _ _ (oi_same _ _ _ _ _ Hi')), length_map, !Z.eqb_refl. cbn [negb].
    exists p', q'. split; [done|]. split; [done|]. apply (push_ledger p q idx a r out height p' q' Hi Hi').
Qed.

(** *** Spending *)

Lemma pair_prune_inv p q idx a r c e p' q' :
  outs_inv p q idx a r -> ledger_of a idx !! c = Some e ->
  tree_rep p' (pruned_at a (entry_leaf e)) -> tree_rep q' (pruned_at r (entry_leaf e)) ->
  outs_inv p' q' (delete c idx) (pruned_at a (entry_leaf e)) (pruned_at r (entry_leaf e)).
Proof.
  intros Hi He Hp Hq. split; try done; [apply Hi|cbn; rewrite (oi_unspent _ _ _ _ _ Hi); done|cbn; apply Hi| |].
  - intros i o Hu Ho. cbn in Hu, Ho. apply elem_of_difference in Hu as [Hu Hne]. apply not_elem_of_singleton in Hne.
    rewrite lookup_delete_ne; [apply Hi; done|]. intros ->. destruct (unspent_entry p q idx a r i o Hi Hu Ho) as (h & Eh).
    rewrite Eh in He. injection He as <-. done.
  - intros c' pos h H. apply lookup_delete_Some in H as [_ H]. eapply Hi; done.
Qed.

Lemma prune_ledger p q idx a r c e p' q' :
  outs_inv p q idx a r -> ledger_of a idx !! c = Some e ->
  outs_inv p' q' (delete c idx) (pruned_at a (entry_leaf e)) (pruned_at r (entry_leaf e)) ->
  ledger_of (pruned_at a (entry_leaf e)) (delete c idx) = delete c (ledger_of a idx).
Proof.
  intros Hi He Hi'. apply map_eq. intros c'. apply option_eq. intros x. rewrite (ledger_iff p' q' _ _ _ c' x Hi').
  rewrite (lookup_delete_Some (ledger_of a idx)), (ledger_iff p q idx a r c' x Hi). setoid_rewrite lookup_delete_Some. cbn [abs_op unspent elems].
  setoid_rewrite elem_of_difference. setoid_rewrite elem_of_singleton. split.
  - intros (o & [Hu Hne] & Ho & Hc & Hx & Hcc & Ei). split; [done|]. exists o. done.
  - intros (Hcc & o & Hu & Ho & Hc & Hx & Ei). exists o. split; [|done]. split; [done|]. intros E'.
    destruct (ledger_entry p q idx a r c e Hi He) as (o' & _ & _ & Ho' & Hc' & _). rewrite E' in Ho. congruence.
Qed.

(** [get_output_pos_height] of the index *)
Definition height_of idx (c : Commitment) : res StoreError (option (Z * Z)) := Ok (idx !! c).

(** [spend_output] takes the entry that the input matches out of the ledger, or fails. *)
Lemma spend_spec p q idx a r c id :
  outs_inv p q idx a r -> id_commit id = c ->
  match ledger_spend c id (ledger_of a idx) with
  | Some (e, l') => exists p' q',
      spend_output (Bitmap := Bitmap) (height_of idx c) c id p q = Ok (mkCommitPos (node_pos (entry_leaf e) 0) (entry_height e), p', q') /\
      outs_inv p' q' (delete c idx) (pruned_at a (entry_leaf e)) (pruned_at r (entry_leaf e)) /\
      ledger_of (pruned_at a (entry_leaf e)) (delete c idx) = l' /\ is_Some (idx !! c)
  | None => exists x pq, spend_output (Bitmap := Bitmap) (height_of idx c) c id p q = Err (x, pq) /\ pair_left a r pq
  end.
Proof.
  intros Hi Hidc. unfold ledger_spend, spend_output, height_of, from_store. cbn [map_err leaving res_bind].
  pose proof (pair_left_self p q idx a r Hi) as Hself.
  destruct (ledger_of a idx !! c) as [e|] eqn:El.
  - destruct (ledger_entry p q idx a r _ e Hi El) as (o & Ei & Hu & Ho & Hc & He & Hb). rewrite Ei.
    rewrite (tree_get_data p a _ (oi_outs _ _ _ _ _ Hi) Hb), (bool_decide_eq_true_2 (entry_leaf e ∈ unspent a)), Ho by done. cbn [fmap option_fmap option_map].
    rewrite <- He. case_bool_decide as Hid; cbn [negb leaving map_err res_bind]; [|eauto].
    destruct (rep_prune p a _ (oi_outs _ _ _ _ _ Hi) Hb) as (p' & -> & Hp). rewrite bool_decide_eq_true_2 by done.
    destruct (rep_prune q r _ (oi_proofs _ _ _ _ _ Hi) Hb) as (q' & -> & Hq). cbn [set_err leaving map_err res_bind].
    exists p', q'. split; [done|]. pose proof (pair_prune_inv p q idx a r c e p' q' Hi El Hp Hq) as Hi'. split; [done|].
    split; [|eexists; done]. apply (prune_ledger p q idx a r c e p' q'); done.
  - destruct (idx !! c) as [[pos h]|] eqn:Ei; [|eauto]. destruct (oi_leaves _ _ _ _ _ Hi _ _ _ Ei) as (i & Hb & ->).
    rewrite (tree_get_data p a _ (oi_outs _ _ _ _ _ Hi) Hb).
    destruct (rep_prune p a _ (oi_outs _ _ _ _ _ Hi) Hb) as (p' & -> & Hp). case_bool_decide as Hu.
    2: { cbn [fmap option_fmap option_map leaving map_err res_bind]. do 2 eexists. split; [done|].
         exists (abs_op (Bitmap := Bitmap) a (SPrune i)), r. split_and!; [exact Hp|apply Hi|done|done]. }
    destruct (view (elems a) !! Z.to_nat i) as [o|] eqn:Eo; cbn [fmap option_fmap option_map].
    + case_bool_decide as Hid; cbn [negb leaving map_err res_bind]; [|eauto]. exfalso.
      destruct (unspent_entry p q idx a r i o Hi Hu Eo) as (h' & Eh). rewrite <- id_of_out, <- Hid, Hidc in Eh. congruence.
    + exfalso. destruct (rep_unspent _ _ i (oi_outs _ _ _ _ _ Hi) Hu) as [_ Hr]. apply lookup_ge_None in Eo. lia.
Qed.

(** *** Lists of outputs and inputs *)

Lemma create_all_keeps (outs : list T) (height : Z) : forall leaf l m c e,
  create_all outs leaf height l = Some m -> l !! c = Some e -> m !! c = Some e.
Proof.
  induction outs as [|o outs IH]; intros leaf l m c e; cbn [create_all]; [intros [= <-]; done|].
  unfold ledger_create. destruct (l !! out_commit o) eqn:El; [done|]. intros H Hc. eapply IH; [done|].
  rewrite lookup_insert_ne; [done|]. intros Ec. rewrite Ec in El. congruence.
Qed.

(** A created output is an entry, with a leaf of its own range. *)
Lemma create_all_entry (outs : list T) (height : Z) : forall leaf l m o,
  create_all outs leaf height l = Some m -> o ∈ outs ->
  exists i, leaf <= i < leaf + Z.of_nat (length outs) /\ m !! out_commit o = Some (mkEntry (as_elmt o) i height).
Proof.
  induction outs as [|x outs IH]; intros leaf l m o; cbn [create_all]; [set_solver|].
  unfold ledger_create. destruct (l !! out_commit x) eqn:El; [done|]. intros H Ho. cbn [length].
  apply elem_of_cons in Ho as [->|Ho].
  - exists leaf. split; [lia|]. eapply create_all_keeps; [done|]. rewrite lookup_insert, decide_True; done.
  - destruct (IH _ _ _ _ H Ho) as (i & Hi & E'). exists i. split; [lia|done].
Qed.

Lemma spend_all_keeps (ins : list (Commitment * E)) : forall l es m c,
  spend_all ins l = Some (es, m) -> c ∉ map fst ins -> m !! c = l !! c.
Proof.
  induction ins as [|[c' id] ins IH]; intros l es m c; cbn [spend_all map fst]; [intros [= <- <-]; done|].
  unfold ledger_spend. destruct (l !! c') as [e|]; [|done]. case_bool_decide; [|done].
  destruct (spend_all ins (delete c' l)) as [[es' m']|] eqn:Es; [|done]. intros [= <- <-] Hc.
  rewrite not_elem_of_cons in Hc. destruct Hc as [Hne Hc]. rewrite (IH _ _ _ _ Es Hc), lookup_delete_ne; done.
Qed.

(** What is spent was there, under the commitment of the input. *)
Lemma spend_all_entries (ins : list (Commitment * E)) : forall l es m,
  spend_all ins l = Some (es, m) -> Forall2 (fun x e => l !! x.1 = Some e /\ entry_id e = x.2) ins es.
Proof.
  induction ins as [|[c' id] ins IH]; intros l es m; cbn [spend_all]; [intros [= <- <-]; done|].
  unfold ledger_spend. destruct (l !! c') as [e|] eqn:El; [|done]. case_bool_decide as Hid; [|done].
  destruct (spend_all ins (delete c' l)) as [[es' m']|] eqn:Es; [|done]. intros [= <- <-]. constructor; [done|].
  eapply Forall2_impl; [apply (IH _ _ _ Es)|]. intros [c i] x [Hx Hi]. cbn in *. apply lookup_delete_Some in Hx as [_ Hx]. done.
Qed.

Definition push_outs a (outs : list T) : AbsStore T := fold_left (fun a x => pushed a x) outs a.
Definition push_proofs r (outs : list T) : AbsStore RangeProof :=
  fold_left (fun r x => abs_op (Bitmap := Bitmap) r (SPush (out_proof x))) outs r.
End Ledger.

Lemma fold_push {Bitmap X Y} `{!CRoaring Bitmap} (f : Y -> X) (outs : list Y) : forall a : AbsStore X,
  let a' := fold_left (fun a x => abs_op (Bitmap := Bitmap) a (SPush (f x))) outs a in
  elems a' = mkState (flushed (elems a)) (keep (elems a)) (pending (elems a) ++ map f outs) /\
  view (elems a') = view (elems a) ++ map f outs /\
  (forall i, i ∈ unspent a' <-> i ∈ unspent a \/
    Z.of_nat (length (view (elems a))) <= i < Z.of_nat (length (view (elems a))) + Z.of_nat (length outs)) /\
  unspent_bak a' = unspent_bak a /\ pruned a' = pruned a.
Proof.
  induction outs as [|o outs IH]; intros a; cbn [fold_left].
  - rewrite !app_nil_r. split; [destruct (elems a); done|]. split; [done|]. split; [|done]. intros i. cbn [length]. split; [auto|]. intros [?|?]; [done|lia].
  - set (a1 := abs_op (Bitmap := Bitmap) a (SPush (f o))).
    assert (Ev : view (elems a1) = view (elems a) ++ [f o]) by apply view_append.
    destruct (IH a1) as (E1 & E2 & E3 & E4 & E5). cbn zeta. rewrite E2, E4, E5, Ev, <- !app_assoc.
    split; [rewrite E1; cbn; rewrite <- app_assoc; done|]. split; [done|]. split; [|done].
    intros i. rewrite E3, Ev, length_app. unfold a1 at 1. cbn [abs_op unspent length]. rewrite elem_of_union, elem_of_singleton. split.
    + intros [[->|?]|?]; [right; lia|left; done|right; lia].
    + intros [?|?]; [left; right; done|]. destruct (decide (i = Z.of_nat (length (view (elems a))))); [left; left; done|right; lia].
Qed.

Lemma fold_prune {Bitmap X} `{!CRoaring Bitmap} (leaves : list Z) : forall a : AbsStore X,
  let a' := fold_left (fun a i => abs_op (Bitmap := Bitmap) a (SPrune i)) leaves a in
  elems a' = elems a /\ unspent a' = unspent a ∖ list_to_set leaves /\ unspent_bak a' = unspent_bak a /\ pruned a' = pruned a.
Proof.
  induction leaves as [|i leaves IH]; intros a; cbn [fold_left]; [cbn; split; [done|]; split; [set_solver|done]|].
  destruct (IH (abs_op (Bitmap := Bitmap) a (SPrune i))) as (E1 & E2 & E3 & E4). cbn zeta. rewrite E1, E2, E3, E4.
  split; [done|]. split; [|done]. cbn. set_solver.
Qed.
