(* ===== verification/FileTrees.v ===== *)
(** * The trees of the hash set on files

    The interfaces of [TreeLaws] discharged by [PMMRBackend] of [FileBackend]: as a prunable tree by the invariant of
    [StoreTheorems], as a tree that is only appended to by the same invariant with no leaf pruned.
    [TreeElements] has the elements of the trees. *)

From Stdlib Require Import ZArith Lia List Bool Sorted.
From stdpp Require Import base numbers list option gmap.
From S2P Require Import Prelude MmrIndex Pmmr PmmrTheorems Bytes Consensus Ser Bitmap PruneList DataFile FileBackend StoreTheorems PowTypes Transaction TxBody Committed Verifier Aggregate Block ChainTypes BitmapAccumulator ChainStore TxHashSet TreeLaws.

Section Trees.
  Context {Bitmap T Elt : Type} `{!CRoaring Bitmap} `{!CRoaringLaws Bitmap} `{!PMMRable bytes T Elt}
    `{!Readable bytes} `{!Writeable bytes} `{!Readable Elt} `{!Writeable Elt}.
  Implicit Types (b : PMMRBackend Bitmap).

Definition file_tree : TreeStore Bitmap T Elt (PMMRBackend Bitmap) := {|
  tree_backend := file_backend;
  leaf_pos_iter := fb_leaf_pos_iter;
  leaf_idx_iter := fb_leaf_idx_iter;
  n_unpruned_leaves := fb_n_unpruned_leaves;
  sync := fb_sync;
  discard := fb_discard;
  check_compact := FileBackend.check_compact (Hash := bytes) (Elt := Elt)
|}.
#[local] Existing Instance file_tree.

  Context {v : Z} {sz : option Z} {hdom : bytes -> Prop} {edom : Elt -> Prop} {tdom : T -> Prop}
    `{!ElmtCodec bytes v (Some 32) hdom} `{!ElmtCodec Elt v sz edom} `{!StoreElements bytes T Elt hdom edom tdom}.
  Implicit Types (p : PMMR (PMMRBackend Bitmap)) (a : AbsStore T).
  #[local] Abbreviation inv := (store_inv (Bitmap := Bitmap) (v := v) (sz := sz) (hdom := hdom) (edom := edom) (tdom := tdom)).

(** ** A prunable backend *)

(** The leaf set holds positions of leaves only, now and in the backup. *)
Definition leaves_held b : Prop := only_leaves (ls_bitmap (leaf_set b)) /\ only_leaves (ls_bitmap_bak (leaf_set b)).
Definition prunable_rep p a : Prop := (exists hf ph, inv p a hf ph) /\ leaves_held (backend p).

Lemma only_leaves_add (bm : Bitmap) i : only_leaves bm -> 0 <= i < 2 ^ 31 -> only_leaves (bm_add bm (wrap32 (node_pos i 0))).
Proof.
  intros H Hi x Hx. destruct (fits_u32 i 0 (leaf_is_node i ltac:(lia)) ltac:(lia)) as (Hu & _ & Ew).
  rewrite Ew, bm_add_iter in Hx by (unfold is_u32; lia). destruct Hx as [->|Hx]; [exists i; done|apply H; done].
Qed.
Lemma only_leaves_remove (bm : Bitmap) y : only_leaves bm -> only_leaves (bm_remove bm y).
Proof. intros H x Hx. apply bm_remove_iter in Hx as [_ Hx]. apply H. done. Qed.
Lemma only_leaves_rewound (bm rm : Bitmap) n :
  only_leaves bm -> only_leaves rm -> 0 <= n < 2 ^ 30 -> only_leaves (rewound bm (mmr_size n) rm).
Proof.
  intros H Hr Hn x Hx. pose proof (mmr_size_bounds n ltac:(lia)). change (2 ^ 30) with 1073741824 in Hn.
  apply rewound_iter in Hx as [[Hx _]|Hx]; [apply H; done|apply Hr; done|lia|change U32 with 4294967296; lia].
Qed.

Lemma prunable_push p a x : prunable_rep p a -> tdom x -> room (elems a) ->
  exists p', push (Bitmap := Bitmap) p x = Ok (node_pos (Z.of_nat (length (view (elems a)))) 0, p') /\
    prunable_rep p' (abs_op (Bitmap := Bitmap) a (SPush x)).
Proof.
  intros ((hf & ph & Hi) & Hl & Hb) Hd Hr. destruct (push_inv p a hf ph x Hi (conj Hd Hr)) as (p' & new & E & Hi' & El).
  exists p'. split; [exact E|]. split; [eauto|]. unfold leaves_held. rewrite El. cbn [ls_add ls_bitmap ls_bitmap_bak].
  split; [|done]. destruct (inv_sizes _ _ _ _ Hi) as (Hv & _). apply only_leaves_add; [done|].
  change (2 ^ 30) with 1073741824 in Hv. change (2 ^ 31) with 2147483648. lia.
Qed.

Lemma prunable_prune p a i : prunable_rep p a -> 0 <= i < 2 ^ 31 ->
  exists p', prune (Bitmap := Bitmap) (Hash := bytes) (T := T) p (node_pos i 0) = Ok (bool_decide (i ∈ unspent a), p') /\
    prunable_rep p' (abs_op (Bitmap := Bitmap) a (SPrune i)).
Proof.
  intros ((hf & ph & Hi) & Hl & Hb) Hd. destruct (prune_inv p a hf ph i Hi Hd) as (p' & E & Hi').
  exists p'. split; [exact E|]. split; [eauto|]. revert E. unfold prune. destruct (negb _); [done|].
  destruct (backend_get_hash _ _) as [h|]; [|intros [= _ <-]; done].
  cbn [remove tree_backend file_tree file_backend]. unfold fb_remove. destruct (negb (prunable (backend p))); [done|].
  intros [= _ <-]. split; [|done]. apply only_leaves_remove. done.
Qed.

Lemma prunable_rewind p a n (rm : Bitmap) : prunable_rep p a -> pending (elems a) = [] -> (n <= length (flushed (elems a)))%nat ->
  (forall i, i ∈ pruned a -> i < Z.of_nat n) -> only_leaves rm ->
  (forall i, i ∈ leaf_indices rm -> i ∉ pruned a /\ 0 <= i < Z.of_nat n) ->
  exists p', rewind (Hash := bytes) (T := T) p (mmr_size (Z.of_nat n)) rm = Ok p' /\ prunable_rep p' (abs_op a (SRewind n rm)).
Proof.
  intros ((hf & ph & Hi) & Hl & Hb) Hp Hn Hpr Hrm Hin.
  destruct (rewind_inv p a hf ph n rm Hi (conj Hp (conj Hn (conj Hpr Hin)))) as (p' & E & Hi').
  exists p'. split; [exact E|]. split; [eauto|]. pose proof (inv_small _ _ _ _ Hi) as Hs. change (2 ^ 30) with 1073741824 in Hs.
  assert (Hsn : small_leaves (Z.of_nat n)) by (split; [lia|change (2 ^ 61) with 2305843009213693952; lia]).
  revert E. unfold rewind. rewrite rewind_loop_size by done. cbn [backend_rewind tree_backend file_tree file_backend].
  unfold fb_rewind. rewrite (inv_prunable _ _ _ _ Hi). destruct (get_shift _ _) as [sh| |]; [|done..]. cbn [res_bind].
  destruct (get_leaf_shift _ _) as [lsh| |]; [|done..]. cbn [res_bind]. intros [= <-]. split; [|done].
  apply only_leaves_rewound; [done..|change (2 ^ 30) with 1073741824; lia].
Qed.

Lemma prunable_sync p a : prunable_rep p a ->
  exists b', sync (backend p) = Ok b' /\ prunable_rep (mkPMMR (last_pos p) b') (abs_op (Bitmap := Bitmap) a SSync).
Proof.
  intros ((hf & ph & Hi) & Hl & Hb). destruct (sync_inv p a hf ph Hi) as (b' & E & Hi'). exists b'. split; [exact E|]. split; [eauto|].
  revert E. unfold fb_sync. destruct (aof_flush _) as [h| |]; cbn [failed map_err res_bind]; [|done..].
  destruct (aof_flush _) as [d| |]; cbn [failed map_err res_bind prunable set_files]; [|done..].
  rewrite (inv_prunable _ _ _ _ Hi). intros [= <-]. done.
Qed.

Lemma prunable_discard p a : prunable_rep p a ->
  prunable_rep (mkPMMR (mmr_size (Z.of_nat (length (flushed (elems a))))) (discard (backend p))) (abs_op (Bitmap := Bitmap) a SDiscard).
Proof.
  intros ((hf & ph & Hi) & Hl & Hb). destruct (discard_inv p a hf ph Hi) as (size & _ & Hi').
  pose proof (inv_last _ _ _ _ Hi') as El. cbn [last_pos at_ abs_op elems] in El.
  assert (Ev : view (state_discard (elems a)) = flushed (elems a)) by (unfold view, state_discard; cbn; rewrite take_ge, app_nil_r; done).
  rewrite Ev in El. subst size. split; [|done]. exists hf, []. exact Hi'.
Qed.

Lemma skip_while_sorted (f : Z) (l : list Z) : StronglySorted Z.lt l ->
  StronglySorted Z.lt (skip_while (fun x => x <? f) l) /\ forall x, x ∈ skip_while (fun x => x <? f) l <-> x ∈ l /\ f <= x.
Proof.
  induction 1 as [|y l Hs IH Hy]; cbn [skip_while]; [split; [constructor|set_solver]|].
  destruct (Z.ltb_spec y f) as [Hlt|Hge].
  - destruct IH as [IH1 IH2]. split; [done|]. intros x. rewrite IH2, elem_of_cons. split; [tauto|]. intros [[->|?] ?]; [lia|done].
  - split; [constructor; done|]. intros x. split; [|tauto]. intros Hx. split; [done|]. apply elem_of_cons in Hx as [->|Hx]; [lia|].
    rewrite Forall_forall in Hy. specialize (Hy x Hx). lia.
Qed.

Lemma prunable_leaf_idx p a from : prunable_rep p a -> 0 <= from < 2 ^ 31 ->
  exists l, leaf_idx_iter (backend p) from = Ok l /\ StronglySorted Z.lt l /\ forall i, i ∈ l <-> i ∈ unspent a /\ from <= i.
Proof.
  intros ((hf & ph & Hi) & Hl & _) Hf. cbn [leaf_idx_iter file_tree]. unfold fb_leaf_idx_iter. rewrite (inv_prunable _ _ _ _ Hi).
  change (2 ^ 31) with 2147483648 in Hf. rewrite add64_small, insertion_index_node by (lia || apply (leaf_pos_small from); done).
  eexists. split; [done|]. unfold ls_iter. set (bm := ls_bitmap (leaf_set (backend p))) in *.
  destruct (skip_while_sorted (node_pos from 0) (bm_iter bm) (bm_iter_sorted bm)) as [Hs He].
  set (xs := skip_while _ _) in *.
  assert (Hx : Forall (fun x => exists i, 0 <= i < 2 ^ 31 /\ x = node_pos i 0) xs).
  { apply Forall_forall. intros x Hx. apply He in Hx as [Hx _]. apply Hl. done. }
  assert (Hm : forall i, i ∈ map (fun x => saturating_sub (n_leaves x) 1) xs <-> 0 <= i < 2 ^ 31 /\ node_pos i 0 ∈ xs).
  { intros i. rewrite list_elem_of_fmap. split.
    - intros (x & -> & Hin). rewrite Forall_forall in Hx. destruct (Hx x Hin) as (j & Hj & ->). rewrite leaf_index by done. done.
    - intros [Hb Hin]. exists (node_pos i 0). rewrite leaf_index by done. done. }
  split.
  - clear He Hm. induction Hs as [|y l' Hs IH Hy]; cbn [map]; [constructor|]. apply Forall_cons in Hx as [(j & Hj & ->) Hx].
    constructor; [apply IH; done|]. apply Forall_map. rewrite Forall_forall in Hx, Hy |- *. intros z Hz.
    destruct (Hx z Hz) as (k & Hk & ->). specialize (Hy _ Hz). rewrite !leaf_index by done.
    destruct (Z.lt_ge_cases j k) as [|Hge]; [done|]. pose proof (leaf_pos_mono k j ltac:(lia)). lia.
  - intros i. rewrite Hm, He. destruct (decide (0 <= i < 2 ^ 31)) as [Hb|Hb].
    + rewrite (inv_unspent _ _ _ _ Hi i Hb : node_pos i 0 ∈ bm_iter bm <-> _). split; intros (H1 & H2).
      * destruct H2 as [H2 H3]. split; [done|]. destruct (Z.lt_ge_cases i from) as [Hlt|]; [|done]. pose proof (leaf_pos_lt i from ltac:(lia)). lia.
      * split; [done|]. split; [done|]. apply leaf_pos_mono. lia.
    + split; [tauto|]. intros [Hu _]. exfalso. apply Hb. destruct (inv_unspent_range _ _ _ _ Hi i Hu) as [_ Hr].
      destruct (inv_sizes _ _ _ _ Hi) as (Hv & _). change (2 ^ 30) with 1073741824 in Hv. change (2 ^ 31) with 2147483648. lia.
Qed.

Definition prunable_tree : PrunableTree Bitmap T Elt (PMMRBackend Bitmap) := {|
  tree_rep := prunable_rep;
  tree_dom := tdom;
  TreeLaws.rep_size p a H := let '(ex_intro _ hf (ex_intro _ ph Hi)) := proj1 H in inv_last p a hf ph Hi;
  TreeLaws.rep_small p a H := let '(ex_intro _ hf (ex_intro _ ph Hi)) := proj1 H in proj1 (inv_sizes p a hf ph Hi);
  rep_unspent p a i H := let '(ex_intro _ hf (ex_intro _ ph Hi)) := proj1 H in inv_unspent_range p a hf ph Hi i;
  rep_data p a i H := let '(ex_intro _ hf (ex_intro _ ph Hi)) := proj1 H in inv_data p a hf ph i Hi;
  rep_root p a H := let '(ex_intro _ hf (ex_intro _ ph Hi)) := proj1 H in inv_root p a hf ph Hi;
  rep_push := prunable_push;
  rep_prune := prunable_prune;
  rep_rewind := prunable_rewind;
  rep_leaf_idx := prunable_leaf_idx;
  rep_sync := prunable_sync;
  rep_discard := prunable_discard
|}.

(** ** A backend that is only appended to

    It behaves as the prunable one with the same files and a leaf set that holds every leaf. *)

Definition with_leaves b (ls : LeafSet Bitmap) : PMMRBackend Bitmap :=
  mkBackend true (hash_data b) (elmt_data b) ls (prune_list b).
Definition pmmr_with_leaves p ls : PMMR (PMMRBackend Bitmap) := mkPMMR (last_pos p) (with_leaves (backend p) ls).

Definition all_leaves (n : nat) : gset Z := list_to_set (seqZ 0 (Z.of_nat n)).
Definition unpruned_store (f : FileState T) : AbsStore T :=
  mkStore f (all_leaves (length (view f))) (all_leaves (length (flushed f))) ∅ false.

Definition append_rep p (f : FileState T) : Prop :=
  prunable (backend p) = false /\ exists ls hf ph, inv (pmmr_with_leaves p ls) (unpruned_store f) hf ph.

(** Reads do not look at the leaf set. *)
Lemma with_leaves_push p ls x pos q :
  push (Bitmap := Bitmap) (pmmr_with_leaves p ls) x = Ok (pos, q) -> prunable (backend p) = false ->
  exists p', push (Bitmap := Bitmap) p x = Ok (pos, p') /\ prunable (backend p') = false /\ q = pmmr_with_leaves p' (leaf_set (backend q)).
Proof.
  unfold push. cbn [last_pos backend pmmr_with_leaves]. destruct (peak_map_height _) as [pm h]. destruct (negb (h =? 0)); [done|].
  change (push_loop (Bitmap := Bitmap) (E := Elt) 64 (with_leaves (backend p) ls)) with (push_loop (Bitmap := Bitmap) (E := Elt) 64 (backend p)).
  destruct (push_loop _ _ _ _ _ _ _) as [[pos' hashes]| |]; cbn [res_bind]; [|done..].
  cbn [append tree_backend file_tree file_backend]. unfold fb_append. cbn [elmt_data hash_data with_leaves set_files prunable].
  destruct (data_append _ _) as [[size d]| |]; cbn [failed map_err res_bind]; [|done..].
  destruct (append_hashes _ _) as [hd'| |]; cbn [res_bind]; [|done..]. destruct (get_total_leaf_shift _) as [sh| |]; cbn [res_bind]; [|done..].
  intros [= <- <-] Hp. rewrite Hp. cbn [res_bind]. eexists. split; [done|]. split; done.
Qed.

Lemma all_leaves_S n : {[Z.of_nat n]} ∪ all_leaves n = all_leaves (n + 1).
Proof. apply set_eq. intros i. unfold all_leaves. rewrite elem_of_union, elem_of_singleton, !elem_of_list_to_set, !elem_of_seqZ. lia. Qed.

Lemma inv_unsettled p a hf ph : inv p a hf ph -> inv p (mkStore (elems a) (unspent a) (unspent_bak a) (pruned a) false) hf ph.
Proof. intros []. constructor; done. Qed.

Lemma append_push p f x : append_rep p f -> tdom x -> room f ->
  exists p', push (Bitmap := Bitmap) p x = Ok (node_pos (Z.of_nat (length (view f))) 0, p') /\ append_rep p' (state_append f x).
Proof.
  intros (Hp & ls & hf & ph & Hi) Hd Hr. destruct (push_inv _ _ hf ph x Hi (conj Hd Hr)) as (q & new & E & Hi' & _).
  destruct (with_leaves_push p ls x _ q E Hp) as (p' & E' & Hp' & Eq). exists p'. split; [exact E'|]. split; [done|].
  exists (leaf_set (backend q)), hf, (ph ++ new). rewrite <- Eq. unfold unpruned_store.
  rewrite view_append, length_app. cbn [length]. rewrite <- all_leaves_S. exact Hi'.
Qed.

Lemma append_data p f i : append_rep p f -> 0 <= i < 2 ^ 31 ->
  backend_get_data (Bitmap := Bitmap) (Hash := bytes) (T := T) (backend p) (node_pos i 0) = as_elmt <$> view f !! Z.to_nat i.
Proof.
  intros (Hp & ls & hf & ph & Hi) Hb. cbn [backend_get_data tree_backend file_tree file_backend]. unfold fb_get_data.
  rewrite (proj1 (leaf_pos_small i Hb)), Hp. cbn [negb andb].
  change (fb_get_data_from_file (backend p)) with (fb_get_data_from_file (Elt := Elt) (backend (pmmr_with_leaves p ls))).
  rewrite (get_data_from_file_spec _ _ _ _ _ _ _ (inv_backend _ _ _ _ Hi)) by done. cbn [read_or_none elems unpruned_store].
  destruct (decide (i ∈ all_leaves (length (view f)))) as [Hin|Hin].
  - rewrite (inv_unspent_kept _ _ _ _ i Hi Hin), list_lookup_fmap. done.
  - assert (Hn : view f !! Z.to_nat i = None).
    { apply lookup_ge_None. unfold all_leaves in Hin. rewrite elem_of_list_to_set, elem_of_seqZ in Hin. lia. }
    rewrite list_lookup_fmap, Hn. destruct (compacted _ _); done.
Qed.

Lemma append_root p f : append_rep p f ->
  exists r, root (Bitmap := Bitmap) (Hash := bytes) (T := T) p = Ok r /\ range_root (view f) = Some r.
Proof. intros (Hp & ls & hf & ph & Hi). exact (inv_root _ _ _ _ Hi). Qed.

Lemma append_tree_rewind p f n position : append_rep p f -> pending f = [] -> (n <= length (view f))%nat ->
  position = mmr_size (Z.of_nat n) \/ position = insertion_to_pmmr_index (Z.of_nat n) ->
  exists p', rewind (Hash := bytes) (T := T) p position (bm_create (Bitmap := Bitmap)) = Ok p' /\ append_rep p' (state_rewind f n).
Proof.
  intros (Hp & ls & hf & ph & Hi) Hpe Hn Hpos. destruct (inv_sizes _ _ _ _ Hi) as (Hv & _). cbn [elems unpruned_store] in Hv.
  change (2 ^ 30) with 1073741824 in Hv.
  assert (Hsn : small_leaves (Z.of_nat n)) by (split; [lia|change (2 ^ 61) with 2305843009213693952; lia]).
  assert (Hf : (n <= length (flushed f))%nat) by (unfold view in Hn; rewrite Hpe, app_nil_r, length_take in Hn; lia).
  assert (Hc : leaf_indices (bm_create (Bitmap := Bitmap)) = ∅) by (unfold leaf_indices; rewrite bm_create_iter; done).
  destruct (rewind_inv _ _ hf ph n (bm_create (Bitmap := Bitmap)) Hi) as (q & E & Hi').
  { split; [done|]. split; [done|]. split; [set_solver|]. rewrite Hc. set_solver. }
  revert E. unfold rewind. rewrite rewind_loop_size by done.
  replace (rewind_loop 64 position) with (mmr_size (Z.of_nat n)) by (destruct Hpos as [->| ->]; [rewrite rewind_loop_size|rewrite rewind_loop_leaf]; done).
  cbn [backend_rewind tree_backend file_tree file_backend]. unfold fb_rewind. rewrite Hp.
  cbn [prunable with_leaves backend pmmr_with_leaves prune_list set_leaf_set hash_data elmt_data].
  destruct (get_shift _ _) as [sh| |]; [|done..]. cbn [res_bind]. destruct (get_leaf_shift _ _) as [lsh| |]; [|done..]. cbn [res_bind].
  intros [= <-]. eexists. split; [done|]. split; [done|]. eexists _, hf, []. unfold unpruned_store. rewrite (proj2 (view_rewind f n Hpe Hf)).
  replace (all_leaves n) with (StoreTheorems.below (Z.of_nat n) (all_leaves (length (view f))) ∪ leaf_indices (bm_create (Bitmap := Bitmap))).
  - exact Hi'.
  - rewrite Hc. apply set_eq. intros i. unfold StoreTheorems.below, all_leaves.
    rewrite elem_of_union, elem_of_filter, !elem_of_list_to_set, !elem_of_seqZ. split; [intros [?|?]; [lia|set_solver]|intros ?; left; lia].
Qed.

Lemma append_sync p f : append_rep p f ->
  exists b', sync (backend p) = Ok b' /\ append_rep (mkPMMR (last_pos p) b') (state_flush f).
Proof.
  intros (Hp & ls & hf & ph & Hi). destruct (sync_inv _ _ hf ph Hi) as (q & E & Hi'). revert E.
  cbn [sync file_tree]. unfold fb_sync. cbn [hash_data elmt_data with_leaves backend pmmr_with_leaves].
  destruct (aof_flush (hash_data _)) as [h| |]; cbn [failed map_err res_bind]; [|done..].
  destruct (aof_flush (elmt_data _)) as [d| |]; cbn [failed map_err res_bind prunable set_files with_leaves]; [|done..]. rewrite Hp.
  intros [= <-]. eexists. split; [done|]. split; [done|]. eexists _, _, []. unfold unpruned_store.
  rewrite view_flush. cbn [flushed state_flush]. apply inv_unsettled in Hi'. exact Hi'.
Qed.

Lemma append_discard p f : append_rep p f ->
  append_rep (mkPMMR (mmr_size (Z.of_nat (length (flushed f)))) (discard (backend p))) (state_discard f).
Proof.
  intros (Hp & ls & hf & ph & Hi). destruct (discard_inv _ _ hf ph Hi) as (size & _ & Hi'). pose proof (inv_last _ _ _ _ Hi') as El.
  assert (Ev : view (state_discard f) = flushed f) by (unfold view, state_discard; cbn; rewrite take_ge, app_nil_r; done).
  cbn [last_pos at_ abs_op elems unpruned_store] in El. rewrite Ev in El. subst size.
  split; [done|]. eexists _, hf, []. unfold unpruned_store. rewrite Ev. apply inv_unsettled in Hi'. exact Hi'.
Qed.

Definition append_tree : AppendTree Bitmap T Elt (PMMRBackend Bitmap) := {|
  list_rep := append_rep;
  list_dom := tdom;
  list_size p f H := let '(ex_intro _ ls (ex_intro _ hf (ex_intro _ ph Hi))) := proj2 H in inv_last _ _ hf ph Hi;
  list_small p f H := let '(ex_intro _ ls (ex_intro _ hf (ex_intro _ ph Hi))) := proj2 H in proj1 (inv_sizes _ _ hf ph Hi);
  list_data := append_data;
  list_root := append_root;
  list_push := append_push;
  TreeLaws.list_rewind := append_tree_rewind;
  list_sync := append_sync;
  list_discard := append_discard
|}.
End Trees.
