(* ===== verification/TreeElements.v ===== *)
(** * The elements of the trees in their files

    The binary forms of the elements of the trees, read back by both readers as [ElmtCodec] asks, and the trees that
    [TxHashSet::open] opens: the outputs, the token outputs and their range proofs prunable, the rest not. *)

From Stdlib Require Import ZArith Lia List Bool Sorted.
From stdpp Require Import base numbers list option gmap.
From S2P Require Import Prelude MmrIndex Pmmr Bytes Consensus Ser Bitmap PruneList DataFile FileBackend StoreTheorems PowTypes Transaction TxBody Committed Verifier Aggregate Block ChainTypes BitmapAccumulator ChainStore TxHashSet TreeLaws FileTrees.

(** ** The streaming reader counts what it reads *)

Definition consumed (r r' : StreamingReader) : Z := Z.of_nat (length (stream r)) - Z.of_nat (length (stream r')).
Definition counts {A} (rd : StreamingReader -> res Error (A * StreamingReader)) : Prop :=
  forall r a r', rd r = Ok (a, r') ->
    total_bytes_read r' mod U64 = (total_bytes_read r + consumed r r') mod U64 /\
    (0 <= total_bytes_read r < U64 -> 0 <= total_bytes_read r' < U64).

Lemma counts_ret {A} (a : A) : counts (read_ret a).
Proof. intros r a' r' [= <- <-]. unfold consumed. split; [f_equal; lia|done]. Qed.
Lemma counts_fail {A} e : counts (read_fail (A := A) e).
Proof. done. Qed.
Lemma counts_bind {A C} (m : StreamingReader -> res Error (A * StreamingReader)) (k : A -> StreamingReader -> res Error (C * StreamingReader)) :
  counts m -> (forall a, counts (k a)) -> counts (read_bind m k).
Proof.
  intros Hm Hk r c r'. unfold read_bind. destruct (m r) as [[a r1]| |] eqn:E1; cbn [res_bind]; [|done..]. intros E2.
  destruct (Hm _ _ _ E1) as [H1 H2]. destruct (Hk a _ _ _ E2) as [H3 H4]. split; [|auto].
  rewrite H3, <- Zplus_mod_idemp_l, H1, Zplus_mod_idemp_l. f_equal. unfold consumed. lia.
Qed.
Lemma counts_fixed n : 0 <= n -> counts (read_fixed_bytes n).
Proof.
  intros Hn r b r' H. cbn in H. unfold streaming_read_fixed_bytes in H.
  destruct (read_exact _ _) as [[b1 s1]| |] eqn:E1; cbn [res_bind] in H; [|done..]. injection H as <- <-.
  apply read_exact_inv in E1 as [E1 E2]. cbn [total_bytes_read stream]. split.
  - unfold consumed. cbn [stream]. rewrite E1, length_app. change ((total_bytes_read r + n)%u64) with ((total_bytes_read r + n) mod U64). rewrite Z.mod_mod by done. f_equal. lia.
  - intros _. apply Z.mod_pos_bound. done.
Qed.
Lemma counts_int k : counts (read_int k).
Proof. apply (counts_fixed (Z.of_nat k)). lia. Qed.
Lemma counts_version : counts read_version.
Proof. intros r a r' [= <- <-]. unfold consumed. split; [f_equal; lia|done]. Qed.
Create HintDb counts.
#[export] Hint Resolve counts_ret counts_fail counts_int counts_version : counts.

Ltac counts_all := repeat first
  [ apply counts_bind; [|intros ?] | apply counts_fixed; lia | solve [eauto with counts]
  | match goal with |- counts (if ?c then _ else _) => destruct c end
  | match goal with |- counts (match ?c with _ => _ end) => destruct c end ].

(** [rd] reads exactly [bs] as [a] in a stream, and counts it. *)
Definition sreads {A} (v : Z) (rd : StreamingReader -> res Error (A * StreamingReader)) (bs : bytes) (a : A) : Prop :=
  forall t rest, 0 <= t -> t + Z.of_nat (length bs) < U64 ->
    rd (mkStreaming t v (bs ++ rest)) = Ok (a, mkStreaming (t + Z.of_nat (length bs)) v rest).

Lemma sreads_of {A} v (rd : StreamingReader -> res Error (A * StreamingReader)) bs a : reads v rd bs a -> counts rd -> sreads v rd bs a.
Proof.
  intros Hr Hc t rest H0 Ht. destruct (Hr (mkStreaming t v (bs ++ rest)) rest eq_refl eq_refl) as ([t' ver s] & E & H1 & H2).
  cbn in H1, H2. subst. rewrite E. do 3 f_equal. destruct (Hc _ _ _ E) as [H1 H2]. unfold consumed in H1.
  cbn [total_bytes_read stream] in H1, H2. rewrite length_app in H1. change U64 with 18446744073709551616 in *.
  rewrite Z.mod_small, Z.mod_small in H1 by lia. lia.
Qed.

Lemma sreads_bind {A C} v (m : StreamingReader -> res Error (A * StreamingReader)) (k : A -> StreamingReader -> res Error (C * StreamingReader))
    b1 b2 a c : sreads v m b1 a -> sreads v (k a) b2 c -> sreads v (read_bind m k) (b1 ++ b2) c.
Proof.
  intros Hm Hk t rest H0 Ht. rewrite length_app in Ht |- *. rewrite <- app_assoc. unfold read_bind. rewrite Hm by lia. cbn [res_bind].
  rewrite Hk by lia. do 3 f_equal. lia.
Qed.

(** ** A codec from the readers' laws *)

Lemma codec_of_reads {T} `{!Readable T} `{!Writeable T} (v : Z) (sz : option Z) (dom : T -> Prop) :
  (forall x, dom x -> chunk_ok (ser_vec x v) /\ fits_kind sz (ser_vec x v)) ->
  (forall x, dom x -> reads (R := BinReader) v read (ser_vec x v) x /\ sreads v read (ser_vec x v) x) ->
  (forall v, exists e, read (A := T) (mkBinReader [] v) = Err e) ->
  (forall t v, exists e, read (A := T) (mkStreaming t v []) = Err e) ->
  ElmtCodec T v sz dom.
Proof.
  intros Hsize Hreads Hend Hstream. constructor.
  - exact Hsize.
  - intros x rest Hx. destruct (proj1 (Hreads x Hx) (mkBinReader (ser_vec x v ++ rest) v) rest eq_refl eq_refl) as ([src ver] & E & H1 & H2).
    cbn in H1, H2. subst. exact E.
  - apply Hend.
  - intros x rest t Hx Ht. destruct (Hsize x Hx) as [Hch _]. unfold chunk_ok in Hch. change (2 ^ 16) with 65536 in Hch.
    change (2 ^ 62) with 4611686018427387904 in Ht. apply Hreads; [done|lia|change U64 with 18446744073709551616; lia].
  - intros t. exact (Hstream t v).
Qed.

(** ** The elements *)

(** The sizes of the curve library leave an element below 64 KiB, as the size file needs. *)
Class SmallSizes `{SS : SecpSizes} : Prop :=
  small_sizes : Z.of_nat PEDERSEN_COMMITMENT_SIZE + Z.of_nat AGG_SIGNATURE_SIZE + Z.of_nat MAX_PROOF_SIZE < 60000.

(** A digest has 32 bytes. *)
Class DigestSize `{DG : Digest} : Prop := blake2b_size : forall b, length (blake2b b) = 32%nat.

Section Elements.
  Context {SS : SecpSizes} {SM : SmallSizes}.

#[export] Instance read_hash : Readable bytes := fun R _ => hash_read.
#[export] Instance read_output_id : Readable OutputIdentifier := fun R _ => output_id_read.
#[export] Instance read_token_output_id : Readable TokenOutputIdentifier := fun R _ => token_output_id_read.
#[export] Instance read_proof : Readable RangeProof := fun R _ => rangeproof_read.
#[export] Instance read_kernel : Readable TxKernel := fun R _ => tx_kernel_read.
#[export] Instance read_token_kernel : Readable TokenTxKernel := fun R _ => token_tx_kernel_read.
#[export] Instance read_header_entry : Readable HeaderEntry := fun R _ => header_entry_read.
#[export] Instance read_issue_proof : Readable TokenIssueProof := fun R _ => issue_proof_read.

(** [PMMRable::elmt_size] *)
Definition output_elmt_size : option Z := Some (1 + Z.of_nat PEDERSEN_COMMITMENT_SIZE).
Definition token_output_elmt_size : option Z := Some (1 + 32 + Z.of_nat PEDERSEN_COMMITMENT_SIZE).
Definition rproof_elmt_size : option Z := Some (8 + Z.of_nat MAX_PROOF_SIZE).
Definition kernel_elmt_size : option Z := None.
Definition token_kernel_elmt_size : option Z := None.
Definition issue_proof_elmt_size : option Z :=
  Some (32 + Z.of_nat PEDERSEN_COMMITMENT_SIZE + 8 + Z.of_nat MAX_PROOF_SIZE).

Definition header_elmt_size : option Z := Some (32 + 8 + 8 + 4 + 1).

Definition wf_header_entry (e : HeaderEntry) : Prop :=
  length (entry_hash e) = 32%nat /\ 0 <= entry_timestamp e < U64 /\ 0 <= num (entry_total_difficulty e) < U64 /\
  0 <= entry_secondary_scaling e < U32.
Definition wf_output_id (i : OutputIdentifier) : Prop := wf_commitment (oid_commit i).
Definition wf_token_output_id (i : TokenOutputIdentifier) : Prop := wf_token_key (toid_token_type i) /\ wf_commitment (toid_commit i).
Definition wf_issue_proof (i : TokenIssueProof) : Prop :=
  wf_token_key (issue_token_type i) /\ wf_commitment (issue_commit i) /\ wf_rangeproof (issue_proof i).

Lemma reads_output_id {R} {RD : Reader R} `{!ReaderLaws R} v i :
  wf_output_id i -> reads (R := R) v output_id_read (write (bin_writer v) i) i.
Proof. intros Hi. destruct i. unfold write, write_output_id. reads_all. Qed.
Lemma reads_token_output_id {R} {RD : Reader R} `{!ReaderLaws R} v i :
  wf_token_output_id i -> reads (R := R) v token_output_id_read (write (bin_writer v) i) i.
Proof. intros [H1 H2]. destruct i. unfold write, write_token_output_id. reads_all. Qed.
Lemma reads_issue_proof {R} {RD : Reader R} `{!ReaderLaws R} v i :
  wf_issue_proof i -> reads (R := R) v issue_proof_read (write (bin_writer v) i) i.
Proof.
  intros (H1 & H2 & H3). destruct i. unfold write, write_issue_proof. cbn [serialization_mode bin_writer].
  rewrite bool_decide_false by done. cbn [negb]. reads_all.
Qed.

Lemma length_proof p : wf_rangeproof p -> length (write_bytes (proof_slice p)) = (8 + MAX_PROOF_SIZE)%nat.
Proof.
  intros [Hl Hp]. unfold write_bytes, write_fixed_bytes, write_u64. rewrite length_app, length_be_bytes. unfold proof_slice.
  rewrite length_take. lia.
Qed.
Lemma length_u8 n : length (write_u8 n) = 1%nat.
Proof. apply length_be_bytes. Qed.

Lemma length_u64 n : length (write_u64 n) = 8%nat.
Proof. apply length_be_bytes. Qed.

(** Sizes of records, field by field *)
Lemma length_features w (f : OutputFeatures) : length (write w f) = 1%nat.
Proof. apply length_be_bytes. Qed.
Lemma length_commitment w c : length (write w c) = length (commit_bytes c).
Proof. done. Qed.
Lemma length_token_key w k : length (write w k) = length (token_hash k).
Proof. done. Qed.
Lemma length_signature w s : length (write w s) = length (sig_bytes s).
Proof. done. Qed.

Ltac fields_sized := unfold chunk_ok, fits_kind, output_elmt_size, token_output_elmt_size, issue_proof_elmt_size, kernel_elmt_size, token_kernel_elmt_size, chunk_ok,
    ser_vec, write, write_output_id, write_token_output_id, write_issue_proof, write_tx_kernel, write_token_tx_kernel;
  cbn [serialization_mode bin_writer]; rewrite ?bool_decide_false by done; cbn [negb];
  rewrite ?(List.length_app (A := Z)), ?length_features, ?length_commitment, ?length_token_key, ?length_signature.
Ltac fixed_size := unfold chunk_ok, fits_kind; pose proof small_sizes; unfold wf_commitment, wf_token_key, wf_signature, HASH_LEN in *;
  change (2 ^ 16) with 65536; split; lia.
Ltac at_end := intros; eexists; reflexivity.

Lemma counts_features : counts output_features_read.
Proof. unfold output_features_read, read_u8. counts_all. Qed.
Lemma counts_commitment : counts commitment_read.
Proof. unfold commitment_read. counts_all. Qed.
Lemma counts_token_key : counts token_key_read.
Proof. unfold token_key_read, hash_read. counts_all. Qed.
Lemma counts_signature : counts signature_read.
Proof. unfold signature_read. counts_all. Qed.
Lemma counts_kernel_features : counts kernel_features_read.
Proof. unfold kernel_features_read, kernel_read_v1, kernel_read_v2, read_u8, read_u64. counts_all. Qed.
Lemma counts_token_kernel_features : counts token_kernel_features_read.
Proof. unfold token_kernel_features_read, read_u8, read_u64. counts_all. Qed.
#[local] Hint Resolve counts_features counts_commitment counts_token_key counts_signature counts_kernel_features
  counts_token_kernel_features : counts.

(** The length in front of a range proof is read before the bytes it bounds. *)
Lemma sreads_proof v p : wf_rangeproof p -> sreads v rangeproof_read (write_bytes (proof_slice p)) p.
Proof.
  intros [Hl Hp]. pose proof (proj2 (proj2 (proj2 sizes_bounded))) as Hb.
  assert (Es : proof_slice p = proof_bytes p) by (unfold proof_slice; rewrite take_ge; [done|lia]).
  unfold write_bytes, rangeproof_read. rewrite Es, Hl. eapply sreads_bind.
  - apply sreads_of; [apply reads_u64; lia|unfold read_u64; counts_all].
  - cbv zeta. rewrite Z.min_id. apply sreads_of; [|counts_all].
    eapply reads_bind_last; [apply reads_fixed; [unfold write_fixed_bytes; lia|lia]|].
    unfold write_fixed_bytes. rewrite Hl, Nat.sub_diag, app_nil_r. destruct p; cbn in *. subst. apply reads_ret.
Qed.

#[export] Instance hash_codec v : ElmtCodec bytes v (Some 32) (fun h => length h = 32%nat).
Proof.
  apply codec_of_reads; [| |at_end|at_end].
  - intros h Hh. change (ser_vec h v) with h. unfold chunk_ok, fits_kind. change (2 ^ 16) with 65536. split; lia.
  - assert (H : forall R (RD : Reader R) (RL : ReaderLaws R) h, length h = 32%nat -> reads (R := R) v hash_read (ser_vec h v) h).
    { intros R RD RL h Hh. apply reads_fixed; [change (Z.of_nat (length h) = 32); lia|lia]. }
    intros h Hh. split; [apply H; done|]. apply sreads_of; [apply H; done|]. unfold read, read_hash, hash_read. counts_all.
Qed.

#[export] Instance output_id_codec v : ElmtCodec OutputIdentifier v output_elmt_size wf_output_id.
Proof.
  apply codec_of_reads; [| |at_end|at_end].
  - intros [f c] Hi. unfold wf_output_id in Hi. cbn in Hi. fields_sized. cbn [oid_features oid_commit]. fixed_size.
  - intros i Hi. split; [apply reads_output_id; done|]. apply sreads_of; [apply reads_output_id; done|].
    unfold read, read_output_id, output_id_read. counts_all.
Qed.

#[export] Instance token_output_id_codec v : ElmtCodec TokenOutputIdentifier v token_output_elmt_size wf_token_output_id.
Proof.
  apply codec_of_reads; [| |at_end|at_end].
  - intros [f k c] [Hk Hc]. cbn in Hk, Hc. fields_sized. cbn [toid_features toid_commit toid_token_type]. fixed_size.
  - intros i Hi. split; [apply reads_token_output_id; done|]. apply sreads_of; [apply reads_token_output_id; done|].
    unfold read, read_token_output_id, token_output_id_read. counts_all.
Qed.

#[export] Instance proof_codec v : ElmtCodec RangeProof v rproof_elmt_size wf_rangeproof.
Proof.
  apply codec_of_reads; [| |at_end|at_end].
  - intros p Hp. change (ser_vec p v) with (write_bytes (proof_slice p)). unfold chunk_ok, fits_kind, rproof_elmt_size. rewrite length_proof by done. fixed_size.
  - intros p Hp. split; [apply reads_rangeproof; done|]. apply sreads_proof. done.
Qed.

#[export] Instance issue_proof_codec v : ElmtCodec TokenIssueProof v issue_proof_elmt_size wf_issue_proof.
Proof.
  apply codec_of_reads; [| |at_end|at_end].
  - intros [k c p] (Hk & Hc & Hp). cbn in Hk, Hc, Hp. fields_sized. cbn [issue_token_type issue_commit issue_proof].
    rewrite length_proof by done. fixed_size.
  - intros i Hi. split; [apply reads_issue_proof; done|]. destruct i as [k c p], Hi as (Hk & Hc & Hp). cbn in Hk, Hc, Hp.
    unfold ser_vec, write, write_issue_proof, read, read_issue_proof, issue_proof_read. cbn [serialization_mode bin_writer].
    rewrite bool_decide_false by done. cbn [negb issue_token_type issue_commit issue_proof].
    eapply sreads_bind; [apply sreads_of; [apply reads_token_key; done|counts_all]|].
    eapply sreads_bind; [apply sreads_of; [apply reads_commitment; done|counts_all]|].
    rewrite <- (app_nil_r (write_bytes _)). eapply sreads_bind; [apply sreads_proof; done|apply sreads_of; [apply reads_ret|counts_all]].
Qed.

Lemma length_kernel_features v k : (1 <= length (write (A := KernelFeatures) (bin_writer v) k) <= 17)%nat.
Proof.
  unfold write, write_kernel_features. cbn [serialization_mode bin_writer writer_version].
  rewrite bool_decide_false by done. destruct (v <=? 1); destruct k; cbn; rewrite ?(List.length_app (A := Z)), ?length_u8, ?length_u64; lia.
Qed.
Lemma length_token_kernel_features v k : (1 <= length (write (A := TokenKernelFeatures) (bin_writer v) k) <= 9)%nat.
Proof. destruct k; cbn; rewrite ?(List.length_app (A := Z)), ?length_u8, ?length_u64; lia. Qed.

Lemma reads_header_entry {R} {RD : Reader R} `{!ReaderLaws R} v e :
  wf_header_entry e -> reads (R := R) v header_entry_read (write (bin_writer v) e) e.
Proof.
  intros (H1 & H2 & H3 & H4). destruct e as [h t [d] sc b]. cbn in *. unfold write, write_header_entry, header_entry_read.
  cbn [entry_hash entry_timestamp entry_total_difficulty entry_secondary_scaling entry_is_secondary].
  eapply reads_bind; [apply (reads_hash v h H1)|]. eapply reads_bind; [apply reads_u64; exact H2|].
  eapply reads_bind; [unfold difficulty_read; eapply reads_bind_last; [apply reads_u64; exact H3|apply reads_ret]|].
  eapply reads_bind; [apply reads_u32; exact H4|]. eapply reads_bind_last; [apply reads_u8; destruct b; lia|].
  destruct b; apply reads_ret.
Qed.

#[export] Instance header_entry_codec v : ElmtCodec HeaderEntry v header_elmt_size wf_header_entry.
Proof.
  apply codec_of_reads; [| |at_end|at_end].
  - intros [h t [d] sc b] (H1 & _). cbn in H1. unfold chunk_ok, fits_kind, header_elmt_size, ser_vec, write, write_header_entry.
    cbn [entry_hash entry_timestamp entry_total_difficulty entry_secondary_scaling entry_is_secondary].
    rewrite !(List.length_app (A := Z)), length_u64, length_u8. unfold write_u32. rewrite length_be_bytes.
    change (length (write _ h)) with (length h). rewrite H1. change (length (write _ (mkDifficulty d))) with (length (write_u64 d)).
    rewrite length_u64. change (2 ^ 16) with 65536. split; lia.
  - intros e He. split; [apply reads_header_entry; done|]. apply sreads_of; [apply reads_header_entry; done|].
    unfold read, read_header_entry, header_entry_read, hash_read, difficulty_read, read_u64, read_u32, read_u8. counts_all.
Qed.

#[export] Instance kernel_codec v : ElmtCodec TxKernel v kernel_elmt_size wf_tx_kernel.
Proof.
  apply codec_of_reads; [| |intros w; unfold read, read_kernel, tx_kernel_read, kernel_features_read, read_bind, read_version; cbn;
    destruct (w <=? 1); eexists; reflexivity|intros t w; unfold read, read_kernel, tx_kernel_read, kernel_features_read, read_bind, read_version; cbn;
    destruct (w <=? 1); eexists; reflexivity].
  - intros [f c s] (_ & Hc & Hs). cbn in Hc, Hs. pose proof (length_kernel_features v f). fields_sized. cbn [features excess excess_sig].
    fixed_size.
  - intros k Hk. split; [apply reads_tx_kernel; done|]. apply sreads_of; [apply reads_tx_kernel; done|].
    unfold read, read_kernel, tx_kernel_read. counts_all.
Qed.

#[export] Instance token_kernel_codec v : ElmtCodec TokenTxKernel v token_kernel_elmt_size wf_token_tx_kernel.
Proof.
  apply codec_of_reads; [| |at_end|at_end].
  - intros [f k c s] (_ & Hk & Hc & Hs). cbn in Hk, Hc, Hs. pose proof (length_token_kernel_features v f). fields_sized.
    cbn [token_features kernel_token_type token_excess token_excess_sig].
    fixed_size.
  - intros k Hk. split; [apply reads_token_tx_kernel; done|]. apply sreads_of; [apply reads_token_tx_kernel; done|].
    unfold read, read_token_kernel, token_tx_kernel_read. counts_all.
Qed.
End Elements.

(** ** The trees of the hash set *)


Section ChainTrees.
  Context {Bitmap : Type} {BR : CRoaring Bitmap} {BL : CRoaringLaws Bitmap} {DG : Digest} {DS : DigestSize}
    {SS : SecpSizes} {SM : SmallSizes} (ct : ChainTypes).

(** Every tree is kept by a [PMMRBackend]. *)
#[export] Instance chain_trees : Trees Bitmap (fun _ => PMMRBackend Bitmap) := {|
  header_trees := @file_tree Bitmap BlockHeader HeaderEntry _ (header_pmmrable ct) _ _ _ _;
  output_trees := file_tree;
  rproof_trees := file_tree;
  kernel_trees := file_tree;
  token_output_trees := file_tree;
  issue_proof_trees := file_tree;
  token_kernel_trees := file_tree
|}.

#[local] Abbreviation is_hash := (fun h : bytes => length h = 32%nat).

Lemma pmmrable_elements {T E} `{!Writeable T} `{!Writeable E} (f : T -> E) (edom : E -> Prop) (tdom : T -> Prop) :
  (forall x, tdom x -> edom (f x)) -> StoreElements bytes T E is_hash edom tdom (PMMRable0 := pmmrable_by f).
Proof. intros H. constructor; [exact H|intros; apply blake2b_size..]. Qed.

#[export] Instance output_elements : StoreElements bytes Output OutputIdentifier is_hash wf_output_id wf_output.
Proof. apply pmmrable_elements. intros o [H _]. exact H. Qed.
#[export] Instance rproof_elements : StoreElements bytes RangeProof RangeProof is_hash wf_rangeproof wf_rangeproof.
Proof. apply pmmrable_elements. done. Qed.
#[export] Instance kernel_elements : StoreElements bytes TxKernel TxKernel is_hash wf_tx_kernel wf_tx_kernel.
Proof. apply pmmrable_elements. done. Qed.
#[export] Instance token_output_elements :
  StoreElements bytes TokenOutput TokenOutputIdentifier is_hash wf_token_output_id wf_token_output.
Proof. apply pmmrable_elements. intros o (H1 & H2 & _). split; assumption. Qed.
#[export] Instance issue_elements : StoreElements bytes TokenIssueProof TokenIssueProof is_hash wf_issue_proof wf_issue_proof.
Proof. apply pmmrable_elements. done. Qed.
#[export] Instance token_kernel_elements : StoreElements bytes TokenTxKernel TokenTxKernel is_hash wf_token_tx_kernel wf_token_tx_kernel.
Proof. apply pmmrable_elements. done. Qed.

#[local] Existing Instance file_tree.

(** The number of its header entry is the header's, in the range of its type. *)
Definition wf_header_numbers (h : BlockHeader) : Prop :=
  0 <= num (total_difficulty (pow h)) < U64 /\ 0 <= secondary_scaling (pow h) < U32.
#[export] Instance header_elements :
  @StoreElements bytes BlockHeader HeaderEntry is_hash wf_header_entry wf_header_numbers (header_pmmrable ct).
Proof.
  apply pmmrable_elements. intros h [H1 H2]. split; [apply blake2b_size|]. split; [apply Z.mod_pos_bound; done|]. split; assumption.
Qed.

(** [TxHashSet::open] keeps kernels in the second version and everything else in the first. *)
#[export] Instance output_tree : PrunableTree Bitmap Output OutputIdentifier (PMMRBackend Bitmap) :=
  prunable_tree (v := 1) (sz := output_elmt_size).
#[export] Instance rproof_tree : PrunableTree Bitmap RangeProof RangeProof (PMMRBackend Bitmap) :=
  prunable_tree (v := 1) (sz := rproof_elmt_size).
#[export] Instance token_output_tree : PrunableTree Bitmap TokenOutput TokenOutputIdentifier (PMMRBackend Bitmap) :=
  prunable_tree (v := 1) (sz := token_output_elmt_size).
#[export] Instance kernel_tree : AppendTree Bitmap TxKernel TxKernel (PMMRBackend Bitmap) :=
  append_tree (v := 2) (sz := kernel_elmt_size).
#[export] Instance issue_tree : AppendTree Bitmap TokenIssueProof TokenIssueProof (PMMRBackend Bitmap) :=
  append_tree (v := 1) (sz := issue_proof_elmt_size).
#[export] Instance token_kernel_tree : AppendTree Bitmap TokenTxKernel TokenTxKernel (PMMRBackend Bitmap) :=
  append_tree (v := 1) (sz := token_kernel_elmt_size).
#[export] Instance header_tree :
  @AppendTree Bitmap BlockHeader HeaderEntry (PMMRBackend Bitmap) BR (header_pmmrable ct) (@header_trees Bitmap _ chain_trees) :=
  @append_tree Bitmap BlockHeader HeaderEntry _ _ (header_pmmrable ct) _ _ _ _ 1 header_elmt_size _ _ _ _ _ _.
End ChainTrees.
