(* ===== verification/TxHashSetTheorems.v ===== *)
(** * The transaction hash set as a ledger

    [apply_block], [rewind_single_block] and the units of work of [TxHashSet] against an
    abstract ledger: the unspent outputs and unspent token outputs by commitment, and the
    issued tokens.  Applying a block succeeds exactly when the ledger accepts it and then makes the
    ledger's step; rewinding a block brings the ledger, the trees and the accumulator back. *)

From Stdlib Require Import ZArith Lia List Bool Sorted.
From stdpp Require Import base numbers list option gmap sorting.
From S2P Require Import Prelude MmrIndex Pmmr PmmrTheorems Bytes Consensus Ser Bitmap PruneList DataFile FileBackend StoreTheorems PowTypes Transaction TxBody Committed Verifier Aggregate Block ChainTypes BitmapAccumulator ChainStore TxHashSet TreeLaws.

(** ** The ledger *)

(** [n] counts the outputs created so far: an output gets the next leaf. *)
Record LedgerState := mkLedger {
  coins : gmap Commitment (Entry OutputIdentifier);
  tokens : gmap Commitment (Entry TokenOutputIdentifier);
  issued : list TokenKey;
  n_coins : Z;
  n_tokens : Z
}.

Section LedgerSteps.
  Context {DG : Digest}.
  Implicit Types (l : LedgerState).

(** A token is issued once. *)
Fixpoint issue_all (outs : list TokenOutput) (iss : list TokenKey) : option (list TokenKey) :=
  match outs with
  | [] => Some iss
  | o :: outs =>
    if of_is_tokenissue (token_output_features o) then
      if bool_decide (output_token_type o ∈ iss) then None else issue_all outs (iss ++ [output_token_type o])
    else issue_all outs iss
  end.

Definition input_ids (ins : list Input) : list (Commitment * OutputIdentifier) :=
  map (fun i => (input_commit i, oid_of_input i)) ins.
Definition token_input_ids (ins : list TokenInput) : list (Commitment * TokenOutputIdentifier) :=
  map (fun i => (token_input_commit i, toid_of_input i)) ins.

(** What a block takes out of the ledger, and the ledger it leaves *)
Record Spent := mkSpent { spent_coins : list (Entry OutputIdentifier); spent_tokens : list (Entry TokenOutputIdentifier) }.

(** A block creates its outputs and spends its inputs, then its token outputs, the tokens it issues and its
    token inputs. *)
Definition ledger_block (x : Block) l : option (Spent * LedgerState) :=
  let body := block_body x in
  let height := bh_height (header x) in
  match create_all output_commit (outputs body) (n_coins l) height (coins l) with
  | None => None
  | Some m =>
    match spend_all (input_ids (inputs body)) m with
    | None => None
    | Some (es, m) =>
      match create_all token_output_commit (token_outputs body) (n_tokens l) height (tokens l),
            issue_all (token_outputs body) (issued l) with
      | Some tm, Some iss =>
        match spend_all (token_input_ids (token_inputs body)) tm with
        | None => None
        | Some (tes, tm) =>
          Some (mkSpent es tes,
                mkLedger m tm iss (n_coins l + Z.of_nat (length (outputs body)))
                  (n_tokens l + Z.of_nat (length (token_outputs body))))
        end
      | _, _ => None
      end
    end
  end.
End LedgerSteps.

(** ** The hash set *)

(** What the seven trees hold *)
Record SetState := mkSetState {
  st_outputs : AbsStore Output;
  st_rproofs : AbsStore RangeProof;
  st_kernels : FileState TxKernel;
  st_token_outputs : AbsStore TokenOutput;
  st_token_rproofs : AbsStore RangeProof;
  st_issues : FileState TokenIssueProof;
  st_token_kernels : FileState TokenTxKernel
}.

(** The accumulator of the unspent leaves *)
Definition holds_bits {Bitmap} {DG : Digest} (acc : VecBackend bytes BitmapChunk) (u : gset Z) : Prop :=
  exists S, wf_bits S /\ (forall i, i ∈ S <-> i ∈ u) /\ acc_of (Bitmap := Bitmap) acc S.

Section Set_.
  Context {DG : Digest} (ct : ChainTypes) {Bitmap : Type} {BR : CRoaring Bitmap} `{!CRoaringLaws Bitmap}
    {B : Type -> Type} {TR : Trees Bitmap B}
    `{!PrunableTree Bitmap Output OutputIdentifier (B Output)}
    `{!PrunableTree Bitmap RangeProof RangeProof (B RangeProof)}
    `{!PrunableTree Bitmap TokenOutput TokenOutputIdentifier (B TokenOutput)}
    `{!AppendTree Bitmap TxKernel TxKernel (B TxKernel)}
    `{!AppendTree Bitmap TokenIssueProof TokenIssueProof (B TokenIssueProof)}
    `{!AppendTree Bitmap TokenTxKernel TokenTxKernel (B TokenTxKernel)}.
  #[local] Abbreviation Ext := (Extension B).
  Implicit Types (e : Ext) (b : Batch) (s : SetState).

Definition coin_inv e b s : Prop :=
  outs_inv output_commit output_proof (output_pmmr e) (rproof_pmmr e) (db_output_pos (content b)) (st_outputs s) (st_rproofs s).
Definition token_inv e b s : Prop :=
  outs_inv token_output_commit token_output_proof (token_output_pmmr e) (token_rproof_pmmr e)
    (db_token_output_pos (content b)) (st_token_outputs s) (st_token_rproofs s).

(** Issue proofs are indexed by their token, at leaves. *)
Definition issues_inv (p : PMMR (B TokenIssueProof)) (idx : gmap TokenKey Z) (f : FileState TokenIssueProof) : Prop :=
  list_rep p f /\
  (forall i x, view f !! i = Some x -> idx !! issue_token_type x = Some (node_pos (Z.of_nat i) 0)) /\
  (forall k pos, idx !! k = Some pos -> exists i, 0 <= i < 2 ^ 31 /\ pos = node_pos i 0).

(** The trees of an extension hold [s], the indices of its batch point into them *)
Record trees_inv e b s : Prop := {
  inv_coins : coin_inv e b s;
  inv_tokens : token_inv e b s;
  inv_issues : issues_inv (token_issue_proof_pmmr e) (db_issue_pos (content b)) (st_issues s);
  inv_kernels : list_rep (kernel_pmmr e) (st_kernels s);
  inv_token_kernels : list_rep (token_kernel_pmmr e) (st_token_kernels s)
}.

Record ext_inv e b s : Prop := {
  inv_trees :> trees_inv e b s;
  inv_bits : holds_bits (Bitmap := Bitmap) (bitmap_accumulator e) (unspent (st_outputs s))
}.

(** The ledger of a hash set and its index *)
Definition ledger b s : LedgerState :=
  mkLedger (ledger_of output_commit (st_outputs s) (db_output_pos (content b)))
    (ledger_of token_output_commit (st_token_outputs s) (db_token_output_pos (content b)))
    (map issue_token_type (view (st_issues s)))
    (Z.of_nat (length (view (elems (st_outputs s))))) (Z.of_nat (length (view (elems (st_token_outputs s))))).

Lemma oid_commit_of (o : Output) : oid_commit (as_elmt o) = output_commit o.
Proof. done. Qed.
Lemma toid_commit_of (o : TokenOutput) : toid_commit (as_elmt o) = token_output_commit o.
Proof. done. Qed.

(** ** The accumulator follows the unspent leaves *)

Lemma merge_sort_head (l : list Z) x : x ∈ l -> exists m rest, merge_sort Z.le l = m :: rest /\ m ∈ l /\ forall y, y ∈ l -> m <= y.
Proof.
  intros Hx. pose proof (merge_sort_Permutation Z.le l) as Hp. pose proof (Sorted_merge_sort Z.le l) as Hs.
  apply Sorted_StronglySorted in Hs; [|intros ? ? ?; lia]. destruct (merge_sort Z.le l) as [|m rest] eqn:E.
  - apply Permutation_nil in Hp. subst. set_solver.
  - exists m, rest. split; [done|]. split; [rewrite <- Hp; set_solver|]. intros y Hy. rewrite <- Hp in Hy.
    apply StronglySorted_inv in Hs as [_ Hs]. rewrite Forall_forall in Hs. apply elem_of_cons in Hy as [->|Hy]; [lia|].
    specialize (Hs y Hy). lia.
Qed.

(** The accumulator after [apply_to_bitmap_accumulator], when no leaf below the affected ones changed and an unspent
    leaf is in or after the chunk of one of these *)
Lemma accumulator_update e a (u : gset Z) (ps J : list Z) :
  tree_rep (output_pmmr e) a -> holds_bits (Bitmap := Bitmap) (bitmap_accumulator e) u ->
  map (fun x => saturating_sub (n_leaves x) 1) ps = J -> Forall (fun i => 0 <= i < 2 ^ 31) J ->
  (forall i, 0 <= i -> (forall j, j ∈ J -> i < j) -> i ∈ unspent a <-> i ∈ u) ->
  (exists x j, x ∈ unspent a /\ j ∈ J /\ chunk_start_idx j <= x) ->
  exists acc, apply_to_bitmap_accumulator (Bitmap := Bitmap) e ps = Ok (with_accumulator e acc) /\
    holds_bits (Bitmap := Bitmap) acc (unspent a).
Proof.
  intros Hrep (S & HS & Hu & Hacc) HJ Hb Hsame (x & j & Hx & Hj & Hjx). unfold apply_to_bitmap_accumulator. rewrite HJ.
  destruct (merge_sort_head J j Hj) as (f & rest & -> & Hf & Hmin). change (default 0 (hd_error (f :: rest))) with f.
  rewrite Forall_forall in Hb. pose proof (Hb f Hf) as Hfb. change (2 ^ 31) with 2147483648 in *.
  pose proof (chunk_start f ltac:(lia)) as Hst. assert (Hc : 0 <= chunk_start_idx f <= f).
  { rewrite Hst. unfold chunk_idx. Z.div_mod_to_equations. lia. }
  destruct (rep_leaf_idx (output_pmmr e) a (chunk_start_idx f) Hrep) as (idx & -> & Hs & Hidx); [change (2 ^ 31) with 2147483648; lia|].
  cbn [set_err leaving map_err res_bind]. pose proof (rep_small _ _ Hrep) as Hsm. change (2 ^ 30) with 1073741824 in Hsm.
  set (n := Z.of_nat (length (view (elems a)))) in *.
  assert (En : n_leaves (last_pos (output_pmmr e)) = n).
  { rewrite (rep_size _ _ Hrep). apply n_leaves_size. split; [lia|]. change (2 ^ 61) with 2305843009213693952. lia. }
  rewrite En. assert (Hur : forall i, i ∈ unspent a -> 0 <= i < n) by (intros i Hi; apply (rep_unspent _ _ i Hrep Hi)).
  assert (Hwi : wf_bits idx).
  { split; [done|]. apply Forall_forall. intros i Hi. apply Hidx in Hi as [Hi _]. specialize (Hur i Hi).
    change (2 ^ 60) with 1152921504606846976. lia. }
  destruct (update_equals_rebuild (Bitmap := Bitmap) (bitmap_accumulator e) S f rest idx n HS Hwi) as (acc & _ & -> & _ & Hacc' & _); [|done| |].
  { change (2 ^ 60) with 1152921504606846976. lia. }
  { apply Exists_exists. exists x. specialize (Hmin j Hj). specialize (Hb j Hj) as Hjb. rewrite chunk_start in Hjx |- * by lia.
    assert (Hle : chunk_idx f * 1024 <= x) by (unfold chunk_idx in *; Z.div_mod_to_equations; lia).
    split; [apply Hidx; split; [done|rewrite chunk_start by lia; done]|]. specialize (Hur x Hx). lia. }
  cbn [res_bind]. exists acc. split; [done|]. exists (updated S f idx n). split; [apply updated_wf; done|]. split; [|done].
  intros i. unfold updated. rewrite elem_of_app, !below_elem, above_elem, below_elem, Hidx, Hu. split.
  - intros [[Hi Hlt]|[[[Hi _] _] _]]; [|done]. apply Hsame; [|intros k Hk; specialize (Hmin k Hk); lia|done].
    destruct HS as [_ HS]. rewrite Forall_forall in HS. apply Hu in Hi. specialize (HS i Hi). lia.
  - intros Hi. specialize (Hur i Hi) as Hr. destruct (Z.lt_ge_cases i (chunk_start_idx f)) as [Hlt|Hge].
    + left. split; [|done]. apply Hsame; [lia|intros k Hk; specialize (Hmin k Hk); lia|done].
    + right. split; [|done]. split; [done|lia].
Qed.

(** ** Creating and spending in the trees of an extension *)

(** Room for [n] more elements *)
Definition fits {A} (f : FileState A) (n : nat) : Prop :=
  Z.of_nat (length (flushed f)) + Z.of_nat (length (pending f)) + Z.of_nat n < 2 ^ 30.

Lemma fits_room {A} (f : FileState A) n : fits f (S n) -> room f.
Proof. unfold fits, room. lia. Qed.
Lemma fits_append {A} (f : FileState A) x n : fits f (S n) -> fits (state_append f x) n.
Proof. unfold fits, state_append. cbn [flushed pending]. rewrite length_app. cbn [length]. lia. Qed.

Abbreviation leaf_of a := (Z.of_nat (length (view (elems a)))).
Lemma leaf_of_push {T} (a : AbsStore T) x : leaf_of (abs_op (Bitmap := Bitmap) a (SPush x)) = leaf_of a + 1.
Proof. cbn [abs_op elems]. rewrite view_append, length_app. cbn [length]. lia. Qed.

Lemma same_index b : update b (fun d => set_output_pos d (db_output_pos (content b))) = b.
Proof. destruct b as [? []]. done. Qed.
Lemma same_token_index b : update b (fun d => set_token_output_pos d (db_token_output_pos (content b))) = b.
Proof. destruct b as [? []]. done. Qed.
Lemma same_outputs e : with_outputs e (output_pmmr e) (rproof_pmmr e) = e.
Proof. destruct e. done. Qed.
Lemma same_token_outputs e : with_token_outputs e (token_output_pmmr e) (token_rproof_pmmr e) = e.
Proof. destruct e. done. Qed.

Abbreviation coin_pair e b a r :=
  (outs_inv output_commit output_proof (output_pmmr e) (rproof_pmmr e) (db_output_pos (content b)) a r).
Abbreviation token_pair e b a r :=
  (outs_inv token_output_commit token_output_proof (token_output_pmmr e) (token_rproof_pmmr e) (db_token_output_pos (content b)) a r).

Lemma apply_outputs_spec (outs : list Output) (height : Z) : forall e b a r aff,
  coin_pair e b a r -> Forall tree_dom outs -> Forall tree_dom (map output_proof outs) -> fits (elems a) (length outs) ->
  match create_all output_commit outs (leaf_of a) height (ledger_of output_commit a (db_output_pos (content b))) with
  | Some m => exists p q idx,
      apply_outputs (Bitmap := Bitmap) outs height e b aff
      = Ok (aff ++ map (fun i => node_pos i 0) (seqZ (leaf_of a) (Z.of_nat (length outs))), with_outputs e p q,
            update b (fun d => set_output_pos d idx)) /\
      outs_inv output_commit output_proof p q idx (push_outs (Bitmap := Bitmap) a outs) (push_proofs (Bitmap := Bitmap) output_proof r outs) /\
      ledger_of output_commit (push_outs (Bitmap := Bitmap) a outs) idx = m
  | None => exists x pq, apply_outputs (Bitmap := Bitmap) outs height e b aff = Err (x, with_outputs e pq.1 pq.2) /\ pair_left a r pq
  end.
Proof.
  induction outs as [|o outs IH]; intros e b a r aff Hi Hd Hp Hf; cbn [create_all].
  - exists (output_pmmr e), (rproof_pmmr e), (db_output_pos (content b)). cbn. rewrite app_nil_r, same_outputs, same_index. done.
  - apply Forall_cons in Hd as [Ho Hd]. apply Forall_cons in Hp as [Hop Hp]. cbn [apply_outputs]. unfold apply_output.
    pose proof (create_spec output_commit oid_commit output_proof oid_commit_of _ _ _ a r o height Hi Ho Hop (fits_room _ _ Hf)) as Hc.
    cbn zeta in Hc. destruct (ledger_create output_commit o _ height _) as [l'|].
    + destruct Hc as (p & q & E & Hi' & <-).
      change (get_output_pos b (output_commit o)) with (pos_of (db_output_pos (content b)) (output_commit o)).
      rewrite E. cbn [inside map_err res_bind].
      specialize (IH (with_outputs e p q) (save_output_pos_height b (output_commit o) (node_pos (leaf_of a) 0) height)
        _ _ (aff ++ [node_pos (leaf_of a) 0]) Hi' Hd Hp (fits_append _ _ _ Hf)). rewrite leaf_of_push in IH.
      destruct (create_all _ _ _ _ _) as [m|]; [|exact IH]. destruct IH as (p' & q' & idx & -> & IH). exists p', q', idx. split; [|exact IH].
      rewrite <- app_assoc. cbn [length]. rewrite (seqZ_cons (leaf_of a)), Nat2Z.inj_succ, Z.pred_succ by lia. done.
    + change (get_output_pos b (output_commit o)) with (pos_of (db_output_pos (content b)) (output_commit o)). rewrite Hc.
      eexists _, (_, _). split; [done|]. eapply pair_left_self, Hi.
Qed.

Definition prune_all {T} (a : AbsStore T) (leaves : list Z) : AbsStore T :=
  fold_left (fun a i => abs_op (Bitmap := Bitmap) a (SPrune i)) leaves a.
Definition entry_pos {E} (x : Entry E) : CommitPos := mkCommitPos (node_pos (entry_leaf x) 0) (entry_height x).

Lemma delete_output_some b c : is_Some (db_output_pos (content b) !! c) ->
  delete_output_pos_height b c = Ok (update b (fun d => set_output_pos d (delete c (db_output_pos (content b))))).
Proof. intros [x Hx]. unfold delete_output_pos_height, del. rewrite Hx. done. Qed.
Lemma delete_token_output_some b c : is_Some (db_token_output_pos (content b) !! c) ->
  delete_token_output_pos_height b c = Ok (update b (fun d => set_token_output_pos d (delete c (db_token_output_pos (content b))))).
Proof. intros [x Hx]. unfold delete_token_output_pos_height, del. rewrite Hx. done. Qed.

Lemma apply_inputs_spec (ins : list Input) : forall e b a r aff spent,
  coin_pair e b a r ->
  match spend_all (input_ids ins) (ledger_of output_commit a (db_output_pos (content b))) with
  | Some (es, m) => exists p q idx,
      apply_inputs (Bitmap := Bitmap) ins e b aff spent
      = Ok (aff ++ map (fun i => node_pos i 0) (map entry_leaf es), spent ++ map entry_pos es, with_outputs e p q,
            update b (fun d => set_output_pos d idx)) /\
      outs_inv output_commit output_proof p q idx (prune_all a (map entry_leaf es)) (prune_all r (map entry_leaf es)) /\
      ledger_of output_commit (prune_all a (map entry_leaf es)) idx = m
  | None => exists x pq, apply_inputs (Bitmap := Bitmap) ins e b aff spent = Err (x, with_outputs e pq.1 pq.2) /\ pair_left a r pq
  end.
Proof.
  induction ins as [|i ins IH]; intros e b a r aff spent Hi; cbn [spend_all input_ids map].
  - exists (output_pmmr e), (rproof_pmmr e), (db_output_pos (content b)). cbn. rewrite !app_nil_r, same_outputs, same_index. done.
  - cbn [apply_inputs]. unfold apply_input. fold (input_ids ins).
    change (get_output_pos_height b (input_commit i)) with (height_of (db_output_pos (content b)) (input_commit i)).
    pose proof (spend_spec output_commit oid_commit output_proof oid_commit_of _ _ _ a r (input_commit i) (oid_of_input i) Hi eq_refl) as Hc.
    destruct (ledger_spend _ _ _) as [[x l']|]; [|destruct Hc as (x & pq & -> & Hl); eexists _, pq; split; [done|exact Hl]].
    destruct Hc as (p & q & -> & Hi' & <- & Hs). cbn [inside map_err res_bind]. rewrite (delete_output_some b _ Hs). cbn [from_store leaving map_err res_bind].
    specialize (IH (with_outputs e p q) (update b (fun d => set_output_pos d (delete (input_commit i) (db_output_pos (content b))))) _ _
      (aff ++ [node_pos (entry_leaf x) 0]) (spent ++ [entry_pos x]) Hi'). cbn [cp_pos]. fold (entry_pos x).
    cbn [content update db_output_pos set_output_pos] in IH.
    destruct (spend_all _ _) as [[es m]|]; [|exact IH]. destruct IH as (p' & q' & idx & -> & IH). exists p', q', idx. split; [|exact IH].
    rewrite <- !app_assoc. done.
Qed.

Lemma apply_token_inputs_spec (ins : list TokenInput) : forall e b a r spent,
  token_pair e b a r ->
  match spend_all (token_input_ids ins) (ledger_of token_output_commit a (db_token_output_pos (content b))) with
  | Some (es, m) => exists p q idx,
      apply_token_inputs (Bitmap := Bitmap) ins e b spent
      = Ok (spent ++ map entry_pos es, with_token_outputs e p q, update b (fun d => set_token_output_pos d idx)) /\
      outs_inv token_output_commit token_output_proof p q idx (prune_all a (map entry_leaf es)) (prune_all r (map entry_leaf es)) /\
      ledger_of token_output_commit (prune_all a (map entry_leaf es)) idx = m
  | None => exists x pq, apply_token_inputs (Bitmap := Bitmap) ins e b spent = Err (x, with_token_outputs e pq.1 pq.2) /\ pair_left a r pq
  end.
Proof.
  induction ins as [|i ins IH]; intros e b a r spent Hi; cbn [spend_all token_input_ids map].
  - exists (token_output_pmmr e), (token_rproof_pmmr e), (db_token_output_pos (content b)). cbn. rewrite !app_nil_r, same_token_outputs, same_token_index. done.
  - cbn [apply_token_inputs]. unfold apply_token_input. fold (token_input_ids ins).
    change (get_token_output_pos_height b (token_input_commit i)) with (height_of (db_token_output_pos (content b)) (token_input_commit i)).
    pose proof (spend_spec token_output_commit toid_commit token_output_proof toid_commit_of _ _ _ a r (token_input_commit i) (toid_of_input i) Hi eq_refl) as Hc.
    destruct (ledger_spend _ _ _) as [[x l']|]; [|destruct Hc as (x & pq & -> & Hl); eexists _, pq; split; [done|exact Hl]].
    destruct Hc as (p & q & -> & Hi' & <- & Hs). cbn [inside map_err res_bind]. rewrite (delete_token_output_some b _ Hs). cbn [from_store leaving map_err res_bind].
    specialize (IH (with_token_outputs e p q) (update b (fun d => set_token_output_pos d (delete (token_input_commit i) (db_token_output_pos (content b))))) _ _
      (spent ++ [entry_pos x]) Hi'). fold (entry_pos x).
    cbn [content update db_token_output_pos set_token_output_pos] in IH.
    destruct (spend_all _ _) as [[es m]|]; [|exact IH]. destruct IH as (p' & q' & idx & -> & IH). exists p', q', idx. split; [|exact IH].
    rewrite <- !app_assoc. done.
Qed.

(** ** Issuing tokens *)

Lemma issue_spec e b f (o : TokenOutput) :
  issues_inv (token_issue_proof_pmmr e) (db_issue_pos (content b)) f ->
  of_is_tokenissue (token_output_features o) = true -> list_dom (issue_of_output o) -> room f ->
  let n := Z.of_nat (length (view f)) in
  if bool_decide (output_token_type o ∈ map issue_token_type (view f))
  then exists x, apply_token_issue_output (Bitmap := Bitmap) e b o = Err (x, e)
  else exists p, apply_token_issue_output (Bitmap := Bitmap) e b o = Ok (node_pos n 0, with_issue_proofs e p) /\
    issues_inv p (<[output_token_type o := node_pos n 0]> (db_issue_pos (content b))) (state_append f (issue_of_output o)).
Proof.
  intros (Hr & Hidx & Hleaf) Hf Hd Hroom n. unfold apply_token_issue_output, get_token_issue_proof_pos, option_to_not_found, ok_or.
  replace (of_is_token (token_output_features o)) with false by (destruct (token_output_features o); done).
  pose proof (list_small _ _ Hr) as Hsm. change (2 ^ 30) with 1073741824 in Hsm.
  case_bool_decide as Hin.
  - apply list_elem_of_fmap in Hin as (x & Ex & Hx). apply list_elem_of_lookup in Hx as (i & Hi).
    pose proof (Hidx i x Hi) as Ei. rewrite <- Ex in Ei. rewrite Ei. cbv beta iota.
    apply lookup_lt_Some in Hi as Hlt. rewrite (list_get_data _ f (Z.of_nat i) Hr) by (change (2 ^ 31) with 2147483648; lia). rewrite Nat2Z.id, Hi.
    cbn [fmap option_fmap option_map]. change (issue_token_type (as_elmt x)) with (issue_token_type x).
    rewrite (bool_decide_eq_true_2 (issue_token_type x = _)) by done. eexists. done.
  - replace (match _ with Ok pos => _ | _ => _ end) with (Ok (E := ErrorKind) tt).
    2: { destruct (db_issue_pos (content b) !! output_token_type o) as [pos|] eqn:Ei; [|done]. cbv beta iota.
         destruct (Hleaf _ _ Ei) as (i & Hi & ->). rewrite (list_get_data _ f _ Hr Hi).
         destruct (view f !! Z.to_nat i) as [x|] eqn:Ex; [|done]. cbn [fmap option_fmap option_map].
         rewrite bool_decide_eq_false_2; [done|]. intros Hk. apply Hin, list_elem_of_fmap. exists x. split; [done|].
         eapply list_elem_of_lookup_2. done. }
    cbn [leaving map_err res_bind]. destruct (list_push _ f (issue_of_output o) Hr Hd Hroom) as (p & -> & Hp). cbn [set_err leaving map_err res_bind].
    exists p. split; [done|]. split; [done|]. split.
    + intros i x. rewrite view_append, lookup_app. destruct (view f !! i) as [y|] eqn:Ey.
      * intros [= <-]. rewrite lookup_insert_ne; [apply Hidx; done|]. intros Hk. apply Hin, list_elem_of_fmap. exists y.
        split; [done|]. eapply list_elem_of_lookup_2. done.
      * intros H. apply list_lookup_singleton_Some in H as [H <-]. apply lookup_ge_None in Ey. rewrite lookup_insert, decide_True by done.
        do 2 f_equal. lia.
    + intros k pos. rewrite lookup_insert_Some. intros [[<- <-]|[_ H]]; [|eapply Hleaf; done].
      exists n. split; [subst n; change (2 ^ 31) with 2147483648; lia|done].
Qed.

Definition append_all {A} (f : FileState A) (xs : list A) : FileState A := fold_left state_append xs f.
Definition issue_proofs (outs : list TokenOutput) : list TokenIssueProof :=
  map issue_of_output (List.filter (fun o => of_is_tokenissue (token_output_features o)) outs).

Lemma append_all_spec {A} (xs : list A) : forall f : FileState A,
  append_all f xs = mkState (flushed f) (keep f) (pending f ++ xs) /\ view (append_all f xs) = view f ++ xs.
Proof.
  induction xs as [|x xs IH]; intros f; cbn.
  - rewrite !app_nil_r. destruct f; done.
  - destruct (IH (state_append f x)) as [E1 E2]. fold (append_all (state_append f x) xs). rewrite E1, <- E1, E2, view_append, <- app_assoc.
    rewrite E1. cbn. rewrite <- app_assoc. done.
Qed.

Lemma same_issues e b :
  with_issue_proofs (with_token_outputs e (token_output_pmmr e) (token_rproof_pmmr e)) (token_issue_proof_pmmr e) = e /\
  update b (fun d => set_issue_pos (set_token_output_pos d (db_token_output_pos (content b))) (db_issue_pos (content b))) = b.
Proof. destruct e, b as [? []]. done. Qed.

Lemma apply_token_outputs_spec (outs : list TokenOutput) (height : Z) : forall e b a r f,
  token_pair e b a r -> issues_inv (token_issue_proof_pmmr e) (db_issue_pos (content b)) f ->
  Forall tree_dom outs -> Forall tree_dom (map token_output_proof outs) -> Forall list_dom (map issue_of_output outs) ->
  fits (elems a) (length outs) -> fits f (length outs) ->
  match create_all token_output_commit outs (leaf_of a) height (ledger_of token_output_commit a (db_token_output_pos (content b))),
        issue_all outs (map issue_token_type (view f)) with
  | Some m, Some iss => exists p q idx ti iidx,
      apply_token_outputs (Bitmap := Bitmap) outs height e b
      = Ok (with_issue_proofs (with_token_outputs e p q) ti,
            update b (fun d => set_issue_pos (set_token_output_pos d idx) iidx)) /\
      outs_inv token_output_commit token_output_proof p q idx (push_outs (Bitmap := Bitmap) a outs)
        (push_proofs (Bitmap := Bitmap) token_output_proof r outs) /\
      ledger_of token_output_commit (push_outs (Bitmap := Bitmap) a outs) idx = m /\
      issues_inv ti iidx (append_all f (issue_proofs outs)) /\ iss = map issue_token_type (view (append_all f (issue_proofs outs)))
  | _, _ => exists x pq ti, apply_token_outputs (Bitmap := Bitmap) outs height e b
        = Err (x, with_issue_proofs (with_token_outputs e pq.1 pq.2) ti) /\
      pair_left a r pq /\ exists f', list_rep ti f' /\ state_discard f' = state_discard f
  end.
Proof.
  induction outs as [|o outs IH]; intros e b a r f Hi Hf Hd Hp Hid Hr Hrf; cbn [create_all].
  - destruct (same_issues e b) as [E1 E2]. do 5 eexists. cbn [apply_token_outputs issue_all]. rewrite <- E1, <- E2 at 1. done.
  - apply Forall_cons in Hd as [Ho Hd]. apply Forall_cons in Hp as [Hop Hp]. apply Forall_cons in Hid as [Hoi Hid].
    cbn [apply_token_outputs]. unfold apply_token_output.
    change (get_token_output_pos b (token_output_commit o)) with (pos_of (db_token_output_pos (content b)) (token_output_commit o)).
    pose proof (create_spec token_output_commit toid_commit token_output_proof toid_commit_of _ _ _ a r o height Hi Ho Hop (fits_room _ _ Hr)) as Hc.
    cbn zeta in Hc. destruct (ledger_create token_output_commit o _ height _) as [l'|].
    2: { rewrite Hc. exists (CDuplicateCommitment (token_output_commit o)), (token_output_pmmr e, token_rproof_pmmr e), (token_issue_proof_pmmr e).
         split; [destruct e; done|]. split; [eapply pair_left_self, Hi|].
         exists f. split; [apply Hf|done]. }
    destruct Hc as (p & q & -> & Hi' & <-). cbn [inside map_err res_bind issue_all]. cbn zeta.
    set (e1 := with_token_outputs e p q). set (b1 := save_token_output_pos_height b (token_output_commit o) (node_pos (leaf_of a) 0) height).
    unfold issue_proofs. cbn [List.filter]. destruct (of_is_tokenissue (token_output_features o)) eqn:Et.
    + pose proof (issue_spec e1 b1 f o Hf Et Hoi (fits_room _ _ Hrf)) as Hc. cbn zeta in Hc. case_bool_decide as Hin.
      * destruct Hc as (x & ->). cbn [res_bind].
        assert (Hx : exists x0 pq ti, Err (x, e1) = Err (A := Ext * Batch) (x0, with_issue_proofs (with_token_outputs e pq.1 pq.2) ti) /\
          pair_left a r pq /\ exists f', list_rep ti f' /\ state_discard f' = state_discard f).
        { exists x, (p, q), (token_issue_proof_pmmr e). split; [destruct e; done|]. split; [|exists f; split; [apply Hf|done]].
          exists (abs_op (Bitmap := Bitmap) a (SPush o)), (abs_op (Bitmap := Bitmap) r (SPush (token_output_proof o))).
          split_and!; [apply Hi'|apply Hi'|done|done]. }
        destruct (create_all _ _ _ _ _); exact Hx.
      * destruct Hc as (ti & -> & Hf'). cbn [res_bind].
        specialize (IH (with_issue_proofs e1 ti) (save_token_issue_proof_pos b1 (output_token_type o) (node_pos (Z.of_nat (length (view f))) 0))
          _ _ (state_append f (issue_of_output o)) Hi' Hf' Hd Hp Hid (fits_append _ _ _ Hr) (fits_append _ _ _ Hrf)).
        rewrite leaf_of_push, view_append, map_app in IH. exact IH.
    + assert (Hrf' : fits f (length outs)) by (unfold fits in *; cbn [length] in Hrf; lia).
      specialize (IH e1 b1 _ _ f Hi' Hf Hd Hp Hid (fits_append _ _ _ Hr) Hrf'). rewrite leaf_of_push in IH. exact IH.
Qed.

(** ** Kernels *)

Lemma apply_kernels_spec (ks : list TxKernel) : forall e f,
  list_rep (kernel_pmmr e) f -> Forall list_dom ks -> fits f (length ks) ->
  exists k, apply_kernels (Bitmap := Bitmap) ks e = Ok (with_kernels e k) /\ list_rep k (append_all f ks).
Proof.
  induction ks as [|k ks IH]; intros e f Hr Hd Hf; cbn [apply_kernels append_all fold_left].
  - exists (kernel_pmmr e). destruct e. done.
  - apply Forall_cons in Hd as [Hk Hd]. unfold apply_kernel.
    destruct (list_push _ f k Hr Hk (fits_room _ _ Hf)) as (p & -> & Hp). cbn [set_err leaving map_err res_bind].
    destruct (IH (with_kernels e p) _ Hp Hd (fits_append _ _ _ Hf)) as (q & -> & Hq). exists q. done.
Qed.

Lemma apply_token_kernels_spec (ks : list TokenTxKernel) : forall e f,
  list_rep (token_kernel_pmmr e) f -> Forall list_dom ks -> fits f (length ks) ->
  exists k, apply_token_kernels (Bitmap := Bitmap) ks e = Ok (with_token_kernels e k) /\ list_rep k (append_all f ks).
Proof.
  induction ks as [|k ks IH]; intros e f Hr Hd Hf; cbn [apply_token_kernels append_all fold_left].
  - exists (token_kernel_pmmr e). destruct e. done.
  - apply Forall_cons in Hd as [Hk Hd]. unfold apply_token_kernel.
    destruct (list_push _ f k Hr Hk (fits_room _ _ Hf)) as (p & -> & Hp). cbn [set_err leaving map_err res_bind].
    destruct (IH (with_token_kernels e p) _ Hp Hd (fits_append _ _ _ Hf)) as (q & -> & Hq). exists q. done.
Qed.

(** What writing and discarding make of the state of the trees *)
Definition written s : SetState :=
  mkSetState (abs_op (Bitmap := Bitmap) (st_outputs s) SSync) (abs_op (Bitmap := Bitmap) (st_rproofs s) SSync) (state_flush (st_kernels s))
    (abs_op (Bitmap := Bitmap) (st_token_outputs s) SSync) (abs_op (Bitmap := Bitmap) (st_token_rproofs s) SSync) (state_flush (st_issues s)) (state_flush (st_token_kernels s)).
Definition discarded_state s : SetState :=
  mkSetState (abs_op (Bitmap := Bitmap) (st_outputs s) SDiscard) (abs_op (Bitmap := Bitmap) (st_rproofs s) SDiscard) (state_discard (st_kernels s))
    (abs_op (Bitmap := Bitmap) (st_token_outputs s) SDiscard) (abs_op (Bitmap := Bitmap) (st_token_rproofs s) SDiscard) (state_discard (st_issues s))
    (state_discard (st_token_kernels s)).
(** Nothing to discard *)
Definition at_rest s : Prop := discarded_state s = s.

Lemma state_eq s s' :
  st_outputs s = st_outputs s' -> st_rproofs s = st_rproofs s' -> st_kernels s = st_kernels s' ->
  st_token_outputs s = st_token_outputs s' -> st_token_rproofs s = st_token_rproofs s' -> st_issues s = st_issues s' ->
  st_token_kernels s = st_token_kernels s' -> s = s'.
Proof. destruct s, s'. cbn. congruence. Qed.

(** The seven trees alone, and the trees that a failed work on the state [s] leaves: discarding them gives what discarding [s]
    gives. *)
Record trees_rep e s : Prop := {
  rep_outputs : tree_rep (output_pmmr e) (st_outputs s);
  rep_rproofs : tree_rep (rproof_pmmr e) (st_rproofs s);
  rep_kernels : list_rep (kernel_pmmr e) (st_kernels s);
  rep_token_outputs : tree_rep (token_output_pmmr e) (st_token_outputs s);
  rep_token_rproofs : tree_rep (token_rproof_pmmr e) (st_token_rproofs s);
  rep_issues : list_rep (token_issue_proof_pmmr e) (st_issues s);
  rep_token_kernels : list_rep (token_kernel_pmmr e) (st_token_kernels s)
}.
Definition left_by e s : Prop := exists s', trees_rep e s' /\ discarded_state s' = discarded_state s.

Lemma inv_rep e b s : trees_inv e b s -> trees_rep e s.
Proof. intros [C T I K TK]. constructor; [apply C|apply C|exact K|apply T|apply T|apply I|exact TK]. Qed.
Lemma left_by_self e b s : trees_inv e b s -> left_by e s.
Proof. intros H. exists s. split; [eapply inv_rep, H|done]. Qed.
Lemma left_by_trans e s s' : left_by e s' -> discarded_state s' = discarded_state s -> left_by e s.
Proof. intros (s2 & H & E) E'. exists s2. split; [exact H|congruence]. Qed.

(** A block changes nothing that discarding keeps. *)
Lemma pushed_pruned_discard {T X} (a : AbsStore T) (f : X -> T) (xs : list X) (leaves : list Z) :
  abs_op (Bitmap := Bitmap) (prune_all (fold_left (fun a o => abs_op (Bitmap := Bitmap) a (SPush (f o))) xs a) leaves) SDiscard
  = abs_op (Bitmap := Bitmap) a SDiscard.
Proof.
  destruct (fold_push (Bitmap := Bitmap) f xs a) as (E1 & E2 & E3 & E4 & E5).
  destruct (fold_prune (Bitmap := Bitmap) leaves (fold_left (fun a o => abs_op (Bitmap := Bitmap) a (SPush (f o))) xs a)) as (F1 & F2 & F3 & F4).
  unfold prune_all, abs_op, state_discard in *. rewrite F1, F3, F4, E4, E5, E1. done.
Qed.
Lemma appended_discard {X} (f : FileState X) (xs : list X) : state_discard (append_all f xs) = state_discard f.
Proof. unfold state_discard. rewrite (proj1 (append_all_spec xs f)). done. Qed.

(** The state of the trees half way through a block: outputs created, coins spent, and the same for tokens *)
Definition partial_state (os : list Output) (cs : list Z) (ts : list TokenOutput) (tcs : list Z) s : SetState :=
  mkSetState
    (prune_all (push_outs (Bitmap := Bitmap) (st_outputs s) os) cs)
    (prune_all (push_proofs (Bitmap := Bitmap) output_proof (st_rproofs s) os) cs)
    (st_kernels s)
    (prune_all (push_outs (Bitmap := Bitmap) (st_token_outputs s) ts) tcs)
    (prune_all (push_proofs (Bitmap := Bitmap) token_output_proof (st_token_rproofs s) ts) tcs)
    (append_all (st_issues s) (issue_proofs ts))
    (st_token_kernels s).
Lemma partial_discard os cs ts tcs s : discarded_state (partial_state os cs ts tcs s) = discarded_state s.
Proof.
  apply state_eq; cbn; first [done|apply (pushed_pruned_discard _ (fun o => o))|apply pushed_pruned_discard|apply appended_discard].
Qed.

(** What is left when a part of the trees of [e] was replaced *)
Lemma left_outputs e s pq : trees_rep e s -> pair_left (st_outputs s) (st_rproofs s) pq -> left_by (with_outputs e pq.1 pq.2) s.
Proof.
  intros [R1 R2 R3 R4 R5 R6 R7] (a & r & H1 & H2 & E1 & E2).
  exists (mkSetState a r (st_kernels s) (st_token_outputs s) (st_token_rproofs s) (st_issues s) (st_token_kernels s)).
  split; [constructor; done|]. apply state_eq; done.
Qed.
Lemma left_token_outputs e s pq : trees_rep e s -> pair_left (st_token_outputs s) (st_token_rproofs s) pq ->
  left_by (with_token_outputs e pq.1 pq.2) s.
Proof.
  intros [R1 R2 R3 R4 R5 R6 R7] (a & r & H1 & H2 & E1 & E2).
  exists (mkSetState (st_outputs s) (st_rproofs s) (st_kernels s) a r (st_issues s) (st_token_kernels s)).
  split; [constructor; done|]. apply state_eq; done.
Qed.
Lemma left_tokens e s pq ti f : trees_rep e s -> pair_left (st_token_outputs s) (st_token_rproofs s) pq ->
  list_rep ti f -> state_discard f = state_discard (st_issues s) ->
  left_by (with_issue_proofs (with_token_outputs e pq.1 pq.2) ti) s.
Proof.
  intros [R1 R2 R3 R4 R5 R6 R7] (a & r & H1 & H2 & E1 & E2) H3 E3.
  exists (mkSetState (st_outputs s) (st_rproofs s) (st_kernels s) a r f (st_token_kernels s)).
  split; [constructor; done|]. apply state_eq; done.
Qed.

(** ** Applying a block *)

(** The state of the trees after a block that spends [sp] *)
Definition block_state (x : Block) (sp : Spent) s : SetState :=
  let body := block_body x in
  mkSetState
    (prune_all (push_outs (Bitmap := Bitmap) (st_outputs s) (outputs body)) (map entry_leaf (spent_coins sp)))
    (prune_all (push_proofs (Bitmap := Bitmap) output_proof (st_rproofs s) (outputs body)) (map entry_leaf (spent_coins sp)))
    (append_all (st_kernels s) (kernels body))
    (prune_all (push_outs (Bitmap := Bitmap) (st_token_outputs s) (token_outputs body)) (map entry_leaf (spent_tokens sp)))
    (prune_all (push_proofs (Bitmap := Bitmap) token_output_proof (st_token_rproofs s) (token_outputs body))
      (map entry_leaf (spent_tokens sp)))
    (append_all (st_issues s) (issue_proofs (token_outputs body)))
    (append_all (st_token_kernels s) (token_kernels body)).

Lemma block_discard s x sp : discarded_state (block_state x sp s) = discarded_state s.
Proof.
  apply state_eq; cbn; first [apply (pushed_pruned_discard _ (fun o => o))|apply pushed_pruned_discard|apply appended_discard].
Qed.

(** The elements of a block are in the domain of the trees, which have room for them. *)
Record block_fits (x : Block) s : Prop := {
  fits_outputs : Forall tree_dom (outputs (block_body x)) /\ Forall tree_dom (map output_proof (outputs (block_body x)));
  fits_tokens : Forall tree_dom (token_outputs (block_body x)) /\
    Forall tree_dom (map token_output_proof (token_outputs (block_body x))) /\
    Forall list_dom (map issue_of_output (token_outputs (block_body x)));
  fits_kernels : Forall list_dom (kernels (block_body x)) /\ Forall list_dom (token_kernels (block_body x));
  fits_rooms : fits (elems (st_outputs s)) (length (outputs (block_body x))) /\
    fits (elems (st_token_outputs s)) (length (token_outputs (block_body x))) /\
    fits (st_issues s) (length (token_outputs (block_body x))) /\
    fits (st_kernels s) (length (kernels (block_body x))) /\ fits (st_token_kernels s) (length (token_kernels (block_body x)))
}.

Lemma view_le {A} (f : FileState A) : (length (view f) <= length (flushed f) + length (pending f))%nat.
Proof. unfold view. rewrite length_app, length_take. lia. Qed.

(** The leaves of a pair after pushing and pruning *)
Lemma pushed_pruned {X} (a : AbsStore X) (outs : list X) (leaves : list Z) :
  let a' := prune_all (push_outs (Bitmap := Bitmap) a outs) leaves in
  view (elems a') = view (elems a) ++ outs /\
  elems a' = mkState (flushed (elems a)) (keep (elems a)) (pending (elems a) ++ outs) /\
  (forall i, i ∈ unspent a' <-> (i ∈ unspent a \/ leaf_of a <= i < leaf_of a + Z.of_nat (length outs)) /\ i ∉ leaves) /\
  unspent_bak a' = unspent_bak a /\ pruned a' = pruned a.
Proof.
  cbn zeta. destruct (fold_push (Bitmap := Bitmap) (fun x : X => x) outs a) as (E1 & E2 & E3 & E4 & E5). rewrite map_id in E1, E2.
  destruct (fold_prune (Bitmap := Bitmap) leaves (push_outs (Bitmap := Bitmap) a outs)) as (F1 & F2 & F3 & F4).
  fold (prune_all (push_outs (Bitmap := Bitmap) a outs) leaves) in F1, F2, F3, F4. fold (push_outs (Bitmap := Bitmap) a outs) in E1, E2, E3, E4, E5.
  rewrite F1, F3, F4. split; [done|]. split; [done|]. split; [|done]. intros i. rewrite F2, elem_of_difference, elem_of_list_to_set, <- E3. done.
Qed.

Lemma leaf_indices_of (J : list Z) : Forall (fun i => 0 <= i < 2 ^ 31) J ->
  map (fun x => saturating_sub (n_leaves x) 1) (map (fun i => node_pos i 0) J) = J.
Proof.
  induction 1 as [|i J Hi HJ IH]; [done|]. cbn [map]. rewrite IH, (leaf_index i Hi). done.
Qed.

(** The leaves that a list of inputs spends are leaves of the tree. *)
Lemma spent_leaves p q idx (a : AbsStore Output) r ins es m :
  outs_inv output_commit output_proof p q idx a r -> spend_all ins (ledger_of output_commit a idx) = Some (es, m) ->
  Forall (fun i => 0 <= i < 2 ^ 31) (map entry_leaf es).
Proof.
  intros Hi Hs. apply spend_all_entries in Hs. apply Forall_map. induction Hs as [|x e ins es [Hx _] _ IH]; constructor; [|done].
  destruct (ledger_entry output_commit output_proof p q idx a r _ e Hi Hx) as (o & _ & _ & _ & _ & _ & H). done.
Qed.

(** The accumulator follows the outputs of a block of which one stays unspent. *)
Lemma block_accumulator e b s x m es m' p q idx :
  ext_inv e b s -> block_fits x s ->
  (exists o, o ∈ outputs (block_body x) /\ output_commit o ∉ map input_commit (inputs (block_body x))) ->
  create_all output_commit (outputs (block_body x)) (leaf_of (st_outputs s)) (bh_height (header x))
    (ledger_of output_commit (st_outputs s) (db_output_pos (content b))) = Some m ->
  spend_all (input_ids (inputs (block_body x))) m = Some (es, m') ->
  Forall (fun i => 0 <= i < 2 ^ 31) (map entry_leaf es) ->
  let a := st_outputs (block_state x (mkSpent es []) s) in
  outs_inv output_commit output_proof p q idx a (st_rproofs (block_state x (mkSpent es []) s)) ->
  ledger_of output_commit a idx = m' ->
  forall e', output_pmmr e' = p -> bitmap_accumulator e' = bitmap_accumulator e ->
  exists acc,
    apply_to_bitmap_accumulator (Bitmap := Bitmap) e'
      (map (fun i => node_pos i 0) (seqZ (leaf_of (st_outputs s)) (Z.of_nat (length (outputs (block_body x))))) ++
       map (fun i => node_pos i 0) (map entry_leaf es)) = Ok (with_accumulator e' acc) /\
    holds_bits (Bitmap := Bitmap) acc (unspent a).
Proof.
  intros He Hf (o & Ho & Hns) Hc Hs Hb a Hi Hm e' Ep Eacc. destruct (fits_rooms _ _ Hf) as [Hroom _].
  pose proof (view_le (elems (st_outputs s))) as Hvl. unfold fits in Hroom. change (2 ^ 30) with 1073741824 in Hroom.
  destruct (pushed_pruned (st_outputs s) (outputs (block_body x)) (map entry_leaf es)) as (_ & _ & Hu & _).
  change (prune_all _ _) with a in Hu.
  apply (accumulator_update e' a (unspent (st_outputs s)) _
    (seqZ (leaf_of (st_outputs s)) (Z.of_nat (length (outputs (block_body x)))) ++ map entry_leaf es)).
  - rewrite Ep. apply Hi.
  - rewrite Eacc. apply He.
  - rewrite <- map_app. apply leaf_indices_of. apply Forall_app. split; [|done].
    apply Forall_forall. intros i Hin. apply elem_of_seqZ in Hin. change (2 ^ 31) with 2147483648. lia.
  - apply Forall_app. split; [|done]. apply Forall_forall. intros i Hin. apply elem_of_seqZ in Hin. change (2 ^ 31) with 2147483648. lia.
  - intros i H0 Hlt. rewrite Hu. split.
    + intros [[?|Hr] _]; [done|]. exfalso. specialize (Hlt i ltac:(apply elem_of_app; left; apply elem_of_seqZ; lia)). lia.
    + intros Hin. split; [left; done|]. intros Hl. specialize (Hlt i ltac:(apply elem_of_app; right; done)). lia.
  - destruct (create_all_entry output_commit oid_commit oid_commit_of _ _ _ _ _ o Hc Ho) as (i & Hir & Ei).
    assert (Ei' : ledger_of output_commit a idx !! output_commit o = Some (mkEntry (as_elmt o) i (bh_height (header x)))).
    { rewrite Hm, (spend_all_keeps _ _ _ _ _ Hs); [done|]. unfold input_ids. rewrite map_map. cbn [fst]. done. }
    destruct (ledger_entry output_commit output_proof _ _ _ _ _ _ _ Hi Ei') as (o' & _ & Hun & _). cbn [entry_leaf] in Hun.
    exists i, i. split; [done|]. split; [apply elem_of_app; left; apply elem_of_seqZ; lia|].
    rewrite chunk_start by lia. unfold chunk_idx. Z.div_mod_to_equations. lia.
Qed.

(** The block is recorded by what it spent; headers and blocks are not touched. *)
Definition block_tables x (sp : Spent) (d d' : ChainStore) : Prop :=
  db_spent d' = <[header_hash ct (header x) := map entry_pos (spent_coins sp)]> (db_spent d) /\
  db_token_spent d' = <[header_hash ct (header x) := map entry_pos (spent_tokens sp)]> (db_token_spent d) /\
  db_headers d' = db_headers d /\ db_blocks d' = db_blocks d /\ db_head d' = db_head d.

(** Every tree of the extension after the block *)
Definition block_done e b s x (sp : Spent) (e' : Ext) b' : Prop :=
  ext_inv e' b' (block_state x sp s) /\ ext_head e' = tip_from_header ct (header x) /\ rollback e' = rollback e /\
  block_tables x sp (content b) (content b').

Lemma apply_block_spec e b s x :
  ext_inv e b s -> block_fits x s ->
  (exists o, o ∈ outputs (block_body x) /\ output_commit o ∉ map input_commit (inputs (block_body x))) ->
  match ledger_block x (ledger b s) with
  | Some (sp, l) => exists e' b',
      apply_block (Bitmap := Bitmap) ct e b x = Ok (e', b') /\ block_done e b s x sp e' b' /\
      ledger b' (block_state x sp s) = l
  | None => exists err e', apply_block (Bitmap := Bitmap) ct e b x = Err (err, e') /\ left_by e' s
  end.
Proof.
  intros He Hf Hkeep. pose proof (inv_rep _ _ _ (inv_trees _ _ _ He)) as [R_1 R_2 R_3 R_4 R_5 R_6 R_7].
  pose proof (inv_rep _ _ _ (inv_trees _ _ _ He)) as HR. unfold ledger_block, apply_block. cbn [ledger coins tokens issued n_coins n_tokens].
  destruct (fits_outputs _ _ Hf) as [Hd1 Hd2]. destruct (fits_tokens _ _ Hf) as (Hd3 & Hd4 & Hd5).
  destruct (fits_kernels _ _ Hf) as [Hd6 Hd7]. destruct (fits_rooms _ _ Hf) as (R1 & R2 & R3 & R4 & R5).
  pose proof (apply_outputs_spec (outputs (block_body x)) (bh_height (header x)) e b _ _ [] (inv_coins _ _ _ He) Hd1 Hd2 R1) as H1.
  destruct (create_all output_commit _ _ _ _) as [m|] eqn:C1; [|destruct H1 as (err & pq & -> & Hl); do 2 eexists; split; [done|apply left_outputs; done]].
  destruct H1 as (p1 & q1 & idx1 & -> & I1 & L1). cbn [res_bind app].
  set (e1 := with_outputs e p1 q1). set (b1 := update b (fun d => set_output_pos d idx1)).
  pose proof (apply_inputs_spec (inputs (block_body x)) e1 b1 _ _
    (map (fun i => node_pos i 0) (seqZ (leaf_of (st_outputs s)) (Z.of_nat (length (outputs (block_body x)))))) [] I1) as H2.
  change (db_output_pos (content b1)) with idx1 in H2. rewrite L1 in H2.
  destruct (spend_all (input_ids _) m) as [[es m']|] eqn:S1.
  2: { destruct H2 as (err & pq & -> & Hl). do 2 eexists. split; [done|].
       apply (left_by_trans _ _ (partial_state (outputs (block_body x)) [] [] [] s)); [|apply partial_discard].
       apply left_outputs; [|exact Hl]. constructor; [apply I1|apply I1|done..]. }
  destruct H2 as (p2 & q2 & idx2 & -> & I2 & L2). cbn [res_bind app]. subst m.
  pose proof (spent_leaves _ _ _ _ _ _ _ _ I1 S1) as Hb1.
  set (e2 := with_outputs e1 p2 q2). set (b2 := save_spent_index _ _ _).
  pose proof (apply_token_outputs_spec (token_outputs (block_body x)) (bh_height (header x)) e2 b2 _ _ _
    (inv_tokens _ _ _ He) (inv_issues _ _ _ He) Hd3 Hd4 Hd5 R2 R3) as H3.
  change (db_token_output_pos (content b2)) with (db_token_output_pos (content b)) in H3.
  assert (HR2 : trees_rep e2 (partial_state (outputs (block_body x)) (map entry_leaf es) [] [] s)).
  { constructor; [apply I2|apply I2|done..]. }
  assert (Hfail : forall err pq ti f', pair_left (st_token_outputs s) (st_token_rproofs s) pq -> list_rep ti f' ->
    state_discard f' = state_discard (st_issues s) -> exists (err' : ErrorKind) e', Err (A := Ext * Batch) (err : ErrorKind, with_issue_proofs (with_token_outputs e2 pq.1 pq.2) ti) = Err (err', e') /\ left_by e' s).
  { intros err pq ti f' Hl Hti Hf'. do 2 eexists. split; [done|]. eapply left_by_trans; [|apply (partial_discard (outputs (block_body x)) (map entry_leaf es) [] [])].
    eapply left_tokens; [exact HR2|exact Hl|exact Hti|exact Hf']. }
  destruct (create_all token_output_commit _ _ _ _) as [tm|] eqn:C2; [|destruct H3 as (err & pq & ti & -> & Hl & f' & Hti & Hf'); eapply Hfail; done].
  destruct (issue_all _ _) as [iss|] eqn:Is; [|destruct H3 as (err & pq & ti & -> & Hl & f' & Hti & Hf'); eapply Hfail; done].
  destruct H3 as (p3 & q3 & idx3 & ti & iidx & -> & I3 & L3 & I4 & L4). cbn [res_bind].
  set (e3 := with_issue_proofs _ _). set (b3 := update b2 _).
  pose proof (apply_token_inputs_spec (token_inputs (block_body x)) e3 b3 _ _ [] I3) as H5.
  change (db_token_output_pos (content b3)) with idx3 in H5. rewrite L3 in H5.
  destruct (spend_all (token_input_ids _) tm) as [[tes tm']|] eqn:S2.
  2: { destruct H5 as (err & pq & -> & Hl). do 2 eexists. split; [done|].
       eapply left_by_trans; [|apply (partial_discard (outputs (block_body x)) (map entry_leaf es) (token_outputs (block_body x)) [])].
       apply left_token_outputs; [|exact Hl]. constructor; [apply I2|apply I2|done|apply I3|apply I3|apply I4|done]. }
  destruct H5 as (p5 & q5 & idx5 & -> & I5 & L5). cbn [res_bind app].
  destruct (apply_kernels_spec (kernels (block_body x)) (with_token_outputs e3 p5 q5) _ (inv_kernels _ _ _ He) Hd6 R4) as (k & -> & Hk). cbn [res_bind].
  destruct (apply_token_kernels_spec (token_kernels (block_body x)) (with_kernels (with_token_outputs e3 p5 q5) k) _
    (inv_token_kernels _ _ _ He) Hd7 R5) as (tk & -> & Htk). cbn [res_bind].
  destruct (block_accumulator e b s x _ es m' p2 q2 idx2 He Hf Hkeep C1 S1 Hb1 I2 L2
    (with_token_kernels (with_kernels (with_token_outputs e3 p5 q5) k) tk) eq_refl eq_refl) as (acc & -> & Hacc).
  cbn [res_bind]. eexists _, _. split; [done|]. split.
  - split; [|split; [done|split; done]].
    split; [constructor; [exact I2|exact I5|exact I4|exact Hk|exact Htk]|exact Hacc].
  - unfold ledger. cbn [block_state st_outputs st_token_outputs st_issues spent_coins spent_tokens].
    destruct (pushed_pruned (st_outputs s) (outputs (block_body x)) (map entry_leaf es)) as (Hv & _).
    destruct (pushed_pruned (st_token_outputs s) (token_outputs (block_body x)) (map entry_leaf tes)) as (Hv' & _).
    rewrite Hv, Hv', !length_app, !Nat2Z.inj_add. f_equal; [exact L2|exact L5|symmetry; exact L4].
Qed.

(** C5: Applying a block to an extension of the hash set refines the ledger: it succeeds exactly when every output is
    new, every input takes an unspent output with its identifier, and every issued token is new; the trees, the
    indices and the accumulator then hold the ledger with the outputs added and the inputs removed, and the spent
    indices record what was taken. *)
Theorem apply_block_refines_ledger e b s x :
  ext_inv e b s -> block_fits x s ->
  (exists o, o ∈ outputs (block_body x) /\ output_commit o ∉ map input_commit (inputs (block_body x))) ->
  match ledger_block x (ledger b s) with
  | Some (sp, l) => exists e' b',
      apply_block (Bitmap := Bitmap) ct e b x = Ok (e', b') /\ block_done e b s x sp e' b' /\
      ledger b' (block_state x sp s) = l
  | None => exists err, apply_block (Bitmap := Bitmap) ct e b x = Err err
  end.
Proof.
  intros He Hf Hk. pose proof (apply_block_spec e b s x He Hf Hk) as H. destruct (ledger_block x (ledger b s)) as [[sp l]|]; [exact H|].
  destruct H as (err & e' & H & _). eauto.
Qed.
End Set_.
