(* ===== verification/ViewTheorems.v ===== *)
(** * The view of the unspent outputs

    [UTXOView] validates the inputs and outputs of a block or a transaction: it accepts exactly what the ledger of
    [TxHashSetTheorems] accepts, output by output and input by input.  A body that the view accepts can be applied when no
    two of its outputs and no two of its inputs have the same commitment. *)

From Stdlib Require Import ZArith Lia List Bool Sorted.
From stdpp Require Import base numbers list option gmap.
From S2P Require Import Prelude MmrIndex Pmmr PmmrTheorems Bytes Consensus Ser Bitmap PruneList DataFile FileBackend StoreTheorems PowTypes Transaction TxBody Committed Verifier Aggregate Block ChainTypes BitmapAccumulator ChainStore TxHashSet TreeLaws TxHashSetTheorems.

(** ** What the ledger accepts *)

Section Accepts.
  Context {DG : Digest}.
  Implicit Types (l : LedgerState) (body : TransactionBody).

Definition new_output l (o : Output) : Prop := coins l !! output_commit o = None.
Definition live_input l (i : Input) : Prop := entry_id <$> coins l !! input_commit i = Some (oid_of_input i).
Definition new_token_output l (o : TokenOutput) : Prop :=
  tokens l !! token_output_commit o = None /\
  (of_is_tokenissue (token_output_features o) = true -> output_token_type o ∉ issued l).
Definition live_token_input l (i : TokenInput) : Prop :=
  entry_id <$> tokens l !! token_input_commit i = Some (toid_of_input i).

Definition ledger_valid l body : Prop :=
  Forall (new_output l) (outputs body) /\ Forall (live_input l) (inputs body) /\
  Forall (new_token_output l) (token_outputs body) /\ Forall (live_token_input l) (token_inputs body).
End Accepts.

Lemma each_iff {A} (f : A -> res ErrorKind unit) (P : A -> Prop) (l : list A) :
  (forall x, f x = Ok tt <-> P x) -> each f l = Ok tt <-> Forall P l.
Proof.
  intros Hf. induction l as [|x l IH]; cbn [each]; [split; [constructor|done]|]. rewrite Forall_cons, <- IH, <- Hf.
  destruct (f x) as [[]|e|]; cbn [res_bind]; split; intuition congruence.
Qed.

Section View.
  Context {DG : Digest} {Bitmap : Type} {BR : CRoaring Bitmap} `{!CRoaringLaws Bitmap}
    {B : Type -> Type} {TR : Trees Bitmap B}
    `{!PrunableTree Bitmap Output OutputIdentifier (B Output)}
    `{!PrunableTree Bitmap RangeProof RangeProof (B RangeProof)}
    `{!PrunableTree Bitmap TokenOutput TokenOutputIdentifier (B TokenOutput)}
    `{!AppendTree Bitmap TxKernel TxKernel (B TxKernel)}
    `{!AppendTree Bitmap TokenIssueProof TokenIssueProof (B TokenIssueProof)}
    `{!AppendTree Bitmap TokenTxKernel TokenTxKernel (B TokenTxKernel)}.
  Implicit Types (e : Extension B) (b : Batch) (s : SetState) (h : HeaderExtension B).

(** ** The entry under a commitment, as the view reads it *)

Section Entry.
  Context {T E : Type} `{!EqDecision E} `{!PMMRable bytes T E} `{!TreeStore Bitmap T E (B T)} `{!PrunableTree Bitmap T E (B T)}
    (out_commit : T -> Commitment) (id_commit : E -> Commitment) (out_proof : T -> RangeProof).
  Hypothesis id_of_out : forall o : T, id_commit (as_elmt o) = out_commit o.

Definition read_entry (p : PMMR (B T)) (idx : gmap Commitment (Z * Z)) (c : Commitment) : option E :=
  match pos_of idx c with
  | Ok pos => get_data (Bitmap := Bitmap) (Hash := bytes) p pos
  | _ => None
  end.

(** What it reads under the commitment of the element is the ledger's entry. *)
Lemma read_entry_spec p q idx a r c id : outs_inv out_commit out_proof p q idx a r ->
  (read_entry p idx c = Some id /\ id_commit id = c) <-> entry_id <$> ledger_of out_commit a idx !! c = Some id.
Proof.
  intros Hi. rewrite (ledger_lookup _ _ p q idx a r c Hi). unfold read_entry, pos_of.
  destruct (idx !! c) as [[pos h]|] eqn:Ei; [|split; [intros [? _]|]; done].
  destruct (oi_leaves _ _ _ _ _ _ _ Hi c pos h Ei) as (i & Hb & ->). rewrite (tree_get_data p a i (oi_outs _ _ _ _ _ _ _ Hi) Hb).
  pose proof (leaf_pos_small i Hb) as [_ Hs]. cbn zeta. rewrite n_leaves_leaf by done. replace (i + 1 - 1) with i by lia.
  case_bool_decide as Hu; [|split; [intros [? _]|]; done]. destruct (view (elems a) !! Z.to_nat i) as [o|]; [|split; [intros [? _]|]; done].
  cbn [fmap option_fmap option_map]. case_bool_decide as Hc; cbn.
  - split; [intros [[= <-] _]; done|]. intros [= <-]. split; [done|]. rewrite id_of_out. done.
  - split; [|done]. intros [[= <-] Hc']. exfalso. apply Hc. rewrite <- Hc', id_of_out. done.
Qed.
End Entry.

Lemma read_coin e b s c id : trees_inv e b s ->
  (read_entry (output_pmmr e) (db_output_pos (content b)) c = Some id /\ oid_commit id = c) <->
  entry_id <$> coins (ledger b s) !! c = Some id.
Proof. intros Hi. apply (read_entry_spec output_commit oid_commit output_proof oid_commit_of _ _ _ _ _ c id (inv_coins _ _ _ Hi)). Qed.
Lemma read_token e b s c id : trees_inv e b s ->
  (read_entry (token_output_pmmr e) (db_token_output_pos (content b)) c = Some id /\ toid_commit id = c) <->
  entry_id <$> tokens (ledger b s) !! c = Some id.
Proof. intros Hi. apply (read_entry_spec token_output_commit toid_commit token_output_proof toid_commit_of _ _ _ _ _ c id (inv_tokens _ _ _ Hi)). Qed.

Lemma view_output e h b s o : trees_inv e b s ->
  validate_output (Bitmap := Bitmap) (utxo_view e h) b o = Ok tt <-> new_output (ledger b s) o.
Proof.
  intros Hi. unfold new_output. pose proof (fun id => read_coin e b s (output_commit o) id Hi) as Hr. unfold read_entry in Hr.
  unfold validate_output, utxo_view. cbn [view_output_pmmr].
  change (get_output_pos b (output_commit o)) with (pos_of (db_output_pos (content b)) (output_commit o)).
  destruct (coins _ !! output_commit o) as [x|] eqn:El.
  - destruct (proj2 (Hr (entry_id x)) eq_refl) as [Hd Hc]. destruct (pos_of _ _) as [pos| |]; [|done..]. rewrite Hd, Hc.
    rewrite bool_decide_eq_true_2 by done. done.
  - split; [done|]. intros _. destruct (pos_of _ _) as [pos| |]; [|done..].
    destruct (get_data _ pos) as [id|] eqn:Ed; [|done]. case_bool_decide as Hc; [|done]. exfalso.
    destruct (Hr id) as [Hr' _]. discriminate (Hr' (conj eq_refl Hc)).
Qed.

Lemma view_input e h b s i : trees_inv e b s ->
  validate_input (Bitmap := Bitmap) (utxo_view e h) b i = Ok tt <-> live_input (ledger b s) i.
Proof.
  intros Hi. unfold live_input. rewrite <- (read_coin e b s _ _ Hi). unfold read_entry, validate_input, utxo_view. cbn [view_output_pmmr].
  change (get_output_pos b (input_commit i)) with (pos_of (db_output_pos (content b)) (input_commit i)).
  destruct (pos_of _ _) as [pos| |]; [|split; [|intros [? _]]; done..]. destruct (get_data _ pos) as [id|]; [|split; [|intros [? _]]; done].
  case_bool_decide as Hc; [subst id|]; split; try done. intros [[= ->] _]. done.
Qed.

Lemma view_token_input e h b s i : trees_inv e b s ->
  validate_token_input (Bitmap := Bitmap) (utxo_view e h) b i = Ok tt <-> live_token_input (ledger b s) i.
Proof.
  intros Hi. unfold live_token_input. rewrite <- (read_token e b s _ _ Hi). unfold read_entry, validate_token_input, utxo_view. cbn [view_token_output_pmmr].
  change (get_token_output_pos b (token_input_commit i)) with (pos_of (db_token_output_pos (content b)) (token_input_commit i)).
  destruct (pos_of _ _) as [pos| |]; [|split; [|intros [? _]]; done..]. destruct (get_data _ pos) as [id|]; [|split; [|intros [? _]]; done].
  case_bool_decide as Hc; [subst id|]; split; try done. intros [[= ->] _]. done.
Qed.

(** A token is read as issued exactly when the ledger has it. *)
Lemma view_issue e b s (k : TokenKey) : trees_inv e b s ->
  match get_token_issue_proof_pos b k with
  | Ok pos =>
    match get_data (Bitmap := Bitmap) (Hash := bytes) (token_issue_proof_pmmr e) pos with
    | Some x => if bool_decide (issue_token_type x = k) then Err (DuplicateTokenKey k) else Ok tt
    | None => Ok tt
    end
  | _ => Ok tt
  end = (if bool_decide (k ∈ issued (ledger b s)) then Err (DuplicateTokenKey k) else Ok tt).
Proof.
  intros Hi. destruct (inv_issues _ _ _ Hi) as (Hr & Hidx & Hleaf). pose proof (list_small _ _ Hr) as Hsm.
  change (2 ^ 30) with 1073741824 in Hsm. cbn [ledger issued]. unfold get_token_issue_proof_pos, option_to_not_found, ok_or. case_bool_decide as Hin.
  - apply list_elem_of_fmap in Hin as (x & -> & Hx). apply list_elem_of_lookup in Hx as (i & Ex).
    rewrite (Hidx i x Ex). apply lookup_lt_Some in Ex as Hlt.
    rewrite (list_get_data _ _ (Z.of_nat i) Hr) by (change (2 ^ 31) with 2147483648; lia). rewrite Nat2Z.id, Ex.
    cbn [fmap option_fmap option_map]. change (issue_token_type (as_elmt x)) with (issue_token_type x).
    rewrite bool_decide_eq_true_2 by done. done.
  - destruct (db_issue_pos (content b) !! k) as [pos|] eqn:Ei; [|done]. destruct (Hleaf _ _ Ei) as (i & Hb & ->).
    rewrite (list_get_data _ _ i Hr Hb). destruct (view (st_issues s) !! Z.to_nat i) as [x|] eqn:Ex; [|done].
    cbn [fmap option_fmap option_map]. change (issue_token_type (as_elmt x)) with (issue_token_type x).
    rewrite bool_decide_eq_false_2; [done|]. intros <-. apply Hin, list_elem_of_fmap. exists x. split; [done|].
    eapply list_elem_of_lookup_2. done.
Qed.

Lemma view_token_output e h b s o : trees_inv e b s ->
  validate_token_output (Bitmap := Bitmap) (utxo_view e h) b o = Ok tt <-> new_token_output (ledger b s) o.
Proof.
  intros Hi. unfold new_token_output. pose proof (fun id => read_token e b s (token_output_commit o) id Hi) as Hr.
  unfold read_entry in Hr.
  unfold validate_token_output, utxo_view. cbn [view_token_output_pmmr view_issue_token_pmmr]. rewrite (view_issue e b s _ Hi).
  change (get_token_output_pos b (token_output_commit o)) with (pos_of (db_token_output_pos (content b)) (token_output_commit o)).
  destruct (tokens _ !! token_output_commit o) as [x|] eqn:El.
  - destruct (proj2 (Hr (entry_id x)) eq_refl) as [Hd Hc]. destruct (pos_of _ _) as [pos| |]; [|done..]. rewrite Hd, Hc.
    rewrite bool_decide_eq_true_2 by done. split; [done|]. intros [? _]. done.
  - replace (match pos_of _ _ with Ok pos => _ | _ => _ end) with (Ok (E := ErrorKind) tt).
    2: { destruct (pos_of _ _) as [pos| |]; [|done..]. destruct (get_data _ pos) as [id|] eqn:Ed; [|done]. case_bool_decide as Hc; [|done].
         exfalso. destruct (Hr id) as [Hr' _]. discriminate (Hr' (conj eq_refl Hc)). }
    cbn [res_bind]. destruct (of_is_tokenissue _); [|split; [|intros]; done]. case_bool_decide as Hin; split; intuition congruence.
Qed.

Lemma view_valid e h b s (body : TransactionBody) : trees_inv e b s ->
  validate_body (Bitmap := Bitmap) (utxo_view e h) b body = Ok tt <-> ledger_valid (ledger b s) body.
Proof.
  intros Hi. unfold ledger_valid, validate_body.
  rewrite <- (each_iff _ _ (outputs body) (fun o => view_output e h b s o Hi)), <- (each_iff _ _ (inputs body) (fun i => view_input e h b s i Hi)),
    <- (each_iff _ _ (token_outputs body) (fun o => view_token_output e h b s o Hi)),
    <- (each_iff _ _ (token_inputs body) (fun i => view_token_input e h b s i Hi)).
  destruct (each _ (outputs body)) as [[]| |]; cbn [res_bind]; [|intuition congruence..].
  destruct (each _ (inputs body)) as [[]| |]; cbn [res_bind]; [|intuition congruence..].
  destruct (each _ (token_outputs body)) as [[]| |]; cbn [res_bind]; intuition congruence.
Qed.

(** C9: The view of the unspent outputs accepts a block or a transaction exactly when the ledger does: every output has a
    new commitment, every input an unspent output with its identifier, and every issued token is new. *)
Theorem view_validates_the_ledger e h b s (body : TransactionBody) : trees_inv e b s ->
  validate_body (Bitmap := Bitmap) (utxo_view e h) b body = Ok tt <-> ledger_valid (ledger b s) body.
Proof. apply view_valid. Qed.
End View.
