(* ===== verification/RewindTheorems.v ===== *)
(** * Rewinding the transaction hash set

    What a block created and spent is undone by [rewind_single_block] and [ext_rewind]: the views of the trees, the
    unspent leaves and the ledger are those from before the block. *)

From Stdlib Require Import ZArith Lia List Bool Sorted.
From stdpp Require Import base numbers list option gmap sorting.
From S2P Require Import Prelude MmrIndex Pmmr PmmrTheorems Bytes Consensus Ser Bitmap PruneList DataFile FileBackend StoreTheorems PowTypes Transaction TxBody Committed Verifier Aggregate Block ChainTypes BitmapAccumulator ChainStore TxHashSet TreeLaws TxHashSetTheorems.

(** ** Deleting and restoring in an index *)

Section Index.
  Context {V : Type}.
  Implicit Types (m : gmap Commitment V).

Definition del_all (cs : list Commitment) m : gmap Commitment V := fold_left (fun m c => delete c m) cs m.
Definition restore_all (l : list (Commitment * V)) m : gmap Commitment V := fold_left (fun m x => <[x.1 := x.2]> m) l m.

Lemma del_all_lookup (cs : list Commitment) : forall m c,
  del_all cs m !! c = if bool_decide (c ∈ cs) then None else m !! c.
Proof.
  induction cs as [|k cs IH]; intros m c; cbn; [done|]. fold (del_all cs (delete k m)). rewrite IH.
  destruct (decide (c = k)) as [->|Hne].
  - rewrite lookup_delete, decide_True, (bool_decide_eq_true_2 (k ∈ k :: cs)) by set_solver. case_bool_decide; done.
  - rewrite lookup_delete_ne by done. destruct (decide (c ∈ cs)).
    + rewrite !bool_decide_eq_true_2 by set_solver. done.
    + rewrite !bool_decide_eq_false_2 by set_solver. done.
Qed.

Lemma restore_all_other (l : list (Commitment * V)) : forall m c,
  c ∉ map fst l -> restore_all l m !! c = m !! c.
Proof.
  induction l as [|x l IH]; intros m c Hc; cbn; [done|]. cbn in Hc. rewrite not_elem_of_cons in Hc. destruct Hc as [Hne Hc].
  fold (restore_all l (<[x.1 := x.2]> m)). rewrite IH, lookup_insert_ne; done.
Qed.

Lemma restore_all_lookup (l : list (Commitment * V)) : forall m c v,
  c ∈ map fst l -> (forall x, x ∈ l -> x.1 = c -> x.2 = v) -> restore_all l m !! c = Some v.
Proof.
  induction l as [|x l IH]; intros m c v Hc Hv; [set_solver|]. cbn. fold (restore_all l (<[x.1 := x.2]> m)).
  destruct (decide (c ∈ map fst l)) as [Hin|Hin].
  - apply IH; [done|]. intros y Hy. apply Hv. set_solver.
  - rewrite restore_all_other by done. cbn in Hc. apply elem_of_cons in Hc as [->|?]; [|done].
    rewrite lookup_insert, decide_True by done. f_equal. apply Hv; [set_solver|done].
Qed.
End Index.

(** ** Rewinding a pair of trees *)

Section Pair.
  Context {Bitmap T E : Type} {B : Type -> Type} {DG : Digest} {BR : CRoaring Bitmap} `{!CRoaringLaws Bitmap}
    {TR : Trees Bitmap B} `{!EqDecision E} `{!PMMRable bytes T E} `{!TreeStore Bitmap T E (B T)}
    `{!PrunableTree Bitmap T E (B T)} `{!PrunableTree Bitmap RangeProof RangeProof (B RangeProof)}
    (out_commit : T -> Commitment) (out_proof : T -> RangeProof).
  Abbreviation Index := (gmap Commitment (Z * Z)).
  Abbreviation Ledger := (gmap Commitment (Entry E)).
  Implicit Types (a : AbsStore T) (r : AbsStore RangeProof) (idx : Index) (l m : Ledger) (v : list T) (u : gset Z).
  Abbreviation pair_inv := (outs_inv out_commit out_proof).
  Abbreviation ledger_at := (ledger_of out_commit).

(** A ledger is that of a list of outputs of which those at [u] are unspent. *)
Record consistent v u l : Prop := {
  cs_range i : i ∈ u -> 0 <= i < Z.of_nat (length v);
  cs_entry c e : l !! c = Some e ->
    exists o, entry_leaf e ∈ u /\ v !! Z.to_nat (entry_leaf e) = Some o /\ out_commit o = c /\ entry_id e = as_elmt o;
  cs_unspent i o : i ∈ u -> v !! Z.to_nat i = Some o -> exists h, l !! out_commit o = Some (mkEntry (as_elmt o) i h)
}.

Lemma outs_inv_consistent p q idx a r : pair_inv p q idx a r -> consistent (view (elems a)) (unspent a) (ledger_at a idx).
Proof.
  intros Hi. split.
  - intros i Hu. apply (rep_unspent _ _ i (oi_outs _ _ _ _ _ _ _ Hi) Hu).
  - intros c e Hl. destruct (ledger_entry out_commit out_proof p q idx a r c e Hi Hl) as (o & _ & H1 & H2 & H3 & H4 & _). exists o. done.
  - intros i o Hu Ho. apply (unspent_entry out_commit out_proof p q idx a r i o Hi Hu Ho).
Qed.

(** Two ledgers of the same unspent outputs of which one contains the other are equal. *)
Lemma consistent_eq v u l m :
  consistent v u l -> consistent v u m -> (forall c e, l !! c = Some e -> m !! c = Some e) -> l = m.
Proof.
  intros Hl Hm Hsub. apply map_eq. intros c. apply option_eq. intros e. split; [apply Hsub|].
  intros He. destruct (cs_entry _ _ _ Hm c e He) as (o & Hu & Ho & <- & Hid).
  destruct (cs_unspent _ _ _ Hl _ _ Hu Ho) as (h & Eh). apply Hsub in Eh as Eh'. congruence.
Qed.

(** An index that holds a ledger makes the pair hold it. *)
Lemma restored_ledger p q idx a r l :
  tree_rep p a -> tree_rep q r ->
  elems r = mkState (map out_proof (flushed (elems a))) (keep (elems a)) (map out_proof (pending (elems a))) ->
  unspent r = unspent a -> unspent_bak r = unspent_bak a ->
  consistent (view (elems a)) (unspent a) l ->
  (forall c e, l !! c = Some e -> idx !! c = Some (node_pos (entry_leaf e) 0, entry_height e)) ->
  (forall c pos h, idx !! c = Some (pos, h) -> exists i, 0 <= i < 2 ^ 31 /\ pos = node_pos i 0) ->
  pair_inv p q idx a r /\ ledger_at a idx = l.
Proof.
  intros Hp Hq Hsame Hu Hb Hc Hidx Hleaf. assert (Hi : pair_inv p q idx a r).
  { constructor; try done. intros i o Hi Ho. destruct (cs_unspent _ _ _ Hc i o Hi Ho) as (h & Eh). exists h.
    apply Hidx in Eh. done. }
  split; [done|]. symmetry. apply (consistent_eq (view (elems a)) (unspent a)); [done|eapply outs_inv_consistent; done|].
  intros c e He. destruct (cs_entry _ _ _ Hc c e He) as (o & H1 & H2 & H3 & H4).
  apply (ledger_iff out_commit out_proof p q idx a r c e Hi). exists o. do 4 (split; [done|]). apply Hidx. done.
Qed.

Lemma create_all_other (outs : list T) (height : Z) : forall leaf l m c,
  create_all out_commit outs leaf height l = Some m -> c ∉ map out_commit outs -> m !! c = l !! c.
Proof.
  induction outs as [|o outs IH]; intros leaf l m c; cbn [create_all map]; [intros [= <-]; done|].
  unfold ledger_create. destruct (l !! out_commit o) eqn:El; [done|]. intros H Hc. rewrite not_elem_of_cons in Hc. destruct Hc as [Hne Hc].
  rewrite (IH _ _ _ _ H Hc), lookup_insert_ne; done.
Qed.
Lemma create_all_new (outs : list T) (height : Z) : forall leaf l m c,
  create_all out_commit outs leaf height l = Some m -> c ∈ map out_commit outs -> l !! c = None.
Proof.
  induction outs as [|o outs IH]; intros leaf l m c; cbn [create_all map]; [set_solver|].
  unfold ledger_create. destruct (l !! out_commit o) eqn:El; [done|]. intros H Hc. apply elem_of_cons in Hc as [->|Hc]; [done|].
  specialize (IH _ _ _ _ H Hc). apply lookup_insert_None in IH as [? _]. done.
Qed.

(** The position and height that an index gives to an entry *)
Definition index_entry (e : Entry E) : Z * Z := (node_pos (entry_leaf e) 0, entry_height e).
Definition rewound_leaves (leaves : list Z) : Bitmap := bm_of_list (map wrap32 (map (fun i => node_pos i 0) leaves)).

Lemma leaf_pos_u32 i : 0 <= i < 2 ^ 31 -> is_u32 (node_pos i 0) /\ wrap32 (node_pos i 0) = node_pos i 0.
Proof.
  intros Hi. destruct (fits_u32 i 0 (leaf_is_node i ltac:(lia)) ltac:(lia)) as (Hu & _ & Hw). split; [|done]. unfold is_u32. lia.
Qed.

Lemma rewound_positions (leaves : list Z) x : Forall (fun i => 0 <= i < 2 ^ 31) leaves ->
  x ∈ bm_iter (rewound_leaves leaves) <-> exists i, i ∈ leaves /\ x = node_pos i 0.
Proof.
  intros Hl. unfold rewound_leaves.
  assert (Ew : map wrap32 (map (fun i => node_pos i 0) leaves) = map (fun i => node_pos i 0) leaves).
  { induction Hl as [|i leaves Hi _ IH]; [done|]. cbn [map]. rewrite IH, (proj2 (leaf_pos_u32 i Hi)). done. }
  rewrite Ew, bm_of_list_iter.
  - rewrite list_elem_of_fmap. split; intros (i & ? & ?); exists i; done.
  - apply Forall_map. eapply Forall_impl; [exact Hl|]. intros i Hi. apply leaf_pos_u32. done.
Qed.

Lemma rewound_indices (leaves : list Z) i : Forall (fun i => 0 <= i < 2 ^ 31) leaves ->
  i ∈ leaf_indices (rewound_leaves leaves) <-> i ∈ leaves.
Proof.
  intros Hl. pose proof Hl as Hf. rewrite Forall_forall in Hf. split.
  - intros Hi. unfold leaf_indices in Hi. rewrite elem_of_list_to_set, list_elem_of_fmap in Hi. destruct Hi as (x & -> & Hx).
    apply list_elem_of_In, filter_In in Hx as [Hx _]. apply list_elem_of_In, (rewound_positions leaves x Hl) in Hx as (j & Hj & ->).
    rewrite n_leaves_leaf by apply (leaf_pos_small j (Hf j Hj)). replace (j + 1 - 1) with j by lia. done.
  - intros Hi. apply elem_of_leaf_indices; [apply Hf; done|]. apply rewound_positions; [done|]. exists i. done.
Qed.

(** What the inputs of a block spend was unspent before it, when they do not spend its outputs. *)
Lemma spent_before v u l m m' (outs : list T) (height : Z) leaf ins es :
  consistent v u l -> create_all out_commit outs leaf height l = Some m -> spend_all ins m = Some (es, m') ->
  (forall c, c ∈ map fst ins -> c ∉ map out_commit outs) ->
  Forall2 (fun x e => l !! x.1 = Some e) ins es /\ Forall (fun e => entry_leaf e ∈ u) es.
Proof.
  intros Hc Hm Hs Hd. apply spend_all_entries in Hs. induction Hs as [|x e ins es [Hx _] Hs IH]; [done|].
  cbn [map] in Hd. rewrite (create_all_other outs height _ _ _ _ Hm) in Hx by (apply Hd; set_solver).
  destruct IH as [IH1 IH2]; [intros c Hin; apply Hd; set_solver|]. split; constructor; try done.
  destruct (cs_entry _ _ _ Hc _ _ Hx) as (o & Hu & _). done.
Qed.

(** The index after deleting what a block created and restoring what it spent holds the ledger from before it. *)
Lemma restored_index l m m' idx (outs : list T) (height : Z) leaf ins es :
  create_all out_commit outs leaf height l = Some m -> spend_all ins m = Some (es, m') ->
  (forall c, c ∈ map fst ins -> c ∉ map out_commit outs) ->
  Forall2 (fun x e => l !! x.1 = Some e) ins es ->
  (forall c e, m' !! c = Some e -> idx !! c = Some (index_entry e)) ->
  forall c e, l !! c = Some e ->
    restore_all (zip (map fst ins) (map index_entry es)) (del_all (map out_commit outs) idx) !! c = Some (index_entry e).
Proof.
  intros Hm Hs Hd Hspent Hidx c e He. assert (Hfst : map fst (zip (map fst ins) (map index_entry es)) = map fst ins).
  { apply fst_zip. apply Forall2_length in Hspent. rewrite !length_map. lia. }
  destruct (decide (c ∈ map fst ins)) as [Hin|Hin].
  - apply restore_all_lookup; [rewrite Hfst; done|]. intros [c' w] Hx. cbn. intros ->.
    apply list_elem_of_lookup in Hx as (k & Hk). apply lookup_zip_with_Some in Hk as (c1 & w1 & Ec & H1 & H2).
    apply list_lookup_fmap_Some in H1 as ([c2 id] & -> & H1). apply list_lookup_fmap_Some in H2 as (e' & -> & H2).
    pose proof (Forall2_lookup_lr _ _ _ _ _ _ Hspent H1 H2) as Hl. cbn in *. congruence.
  - rewrite restore_all_other by (rewrite Hfst; done). rewrite del_all_lookup, bool_decide_eq_false_2.
    + apply Hidx. rewrite (spend_all_keeps _ _ _ _ _ Hs Hin). eapply create_all_keeps; done.
    + intros Hc. pose proof (create_all_new outs height _ _ _ _ Hm Hc). congruence.
Qed.

(** The restored index holds positions of leaves. *)
Lemma restored_positions l idx (outs : list T) (ins : list (Commitment * E)) es u :
  Forall2 (fun x e => l !! x.1 = Some e) ins es -> Forall (fun i => i ∈ u) (map entry_leaf es) ->
  (forall i, i ∈ u -> 0 <= i < 2 ^ 31) ->
  (forall c pos h, idx !! c = Some (pos, h) -> exists i, 0 <= i < 2 ^ 31 /\ pos = node_pos i 0) ->
  forall c pos h, restore_all (zip (map fst ins) (map index_entry es)) (del_all (map out_commit outs) idx) !! c = Some (pos, h) ->
    exists i, 0 <= i < 2 ^ 31 /\ pos = node_pos i 0.
Proof.
  intros Hspent Hl Hb Hidx c pos h H. set (zs := zip _ _) in *.
  destruct (decide (c ∈ map fst zs)) as [Hin|Hin]; [|rewrite restore_all_other, del_all_lookup in H by done; case_bool_decide; [done|eauto]].
  assert (Hw : forall w, (c, w) ∈ zs -> exists e, l !! c = Some e /\ w = index_entry e /\ e ∈ es).
  { intros w Hw. apply list_elem_of_lookup in Hw as (k & Hk). apply lookup_zip_with_Some in Hk as (c2 & w2 & [= -> ->] & H1 & H2).
    apply list_lookup_fmap_Some in H1 as ([c3 id] & -> & H1). apply list_lookup_fmap_Some in H2 as (e & -> & H2).
    pose proof (Forall2_lookup_lr _ _ _ _ _ _ Hspent H1 H2) as Hx. exists e. split; [done|]. split; [done|]. eapply list_elem_of_lookup_2. done. }
  apply list_elem_of_fmap in Hin as ([c' w] & -> & Hin). cbn [fst] in *. destruct (Hw w Hin) as (e & He & -> & Hes).
  rewrite (restore_all_lookup zs _ c' (index_entry e)) in H.
  - injection H as <- <-. exists (entry_leaf e). split; [|done]. rewrite Forall_forall in Hl. apply Hb, Hl. apply list_elem_of_fmap. exists e. done.
  - apply list_elem_of_fmap. eexists. split; [|exact Hin]. done.
  - intros [c2 w2] Hx. cbn. intros ->. destruct (Hw w2 Hx) as (e2 & He2 & -> & _). congruence.
Qed.

(** What a compaction has pruned is below [n] and was spent at [u]. *)
Definition pruned_before {A} (a : AbsStore A) (n : nat) u : Prop := forall i, i ∈ pruned a -> i < Z.of_nat n /\ i ∉ u.

Lemma rewind_ready {A} (a : AbsStore A) (n : nat) u (leaves : list Z) :
  pending (elems a) = [] -> (n <= length (view (elems a)))%nat -> pruned_before a n u ->
  Forall (fun i => i ∈ u) leaves -> (forall i, i ∈ u -> 0 <= i < Z.of_nat n) -> Z.of_nat n < 2 ^ 30 ->
  (n <= length (flushed (elems a)))%nat /\ (forall i, i ∈ pruned a -> i < Z.of_nat n) /\ only_leaves (rewound_leaves leaves) /\
  (forall i, i ∈ leaf_indices (rewound_leaves leaves) -> i ∉ pruned a /\ 0 <= i < Z.of_nat n) /\
  Forall (fun i => 0 <= i < 2 ^ 31) leaves.
Proof.
  intros Hp Hv Hpr Hl Hu Hn. change (2 ^ 30) with 1073741824 in Hn.
  assert (Hb : Forall (fun i => 0 <= i < 2 ^ 31) leaves).
  { eapply Forall_impl; [exact Hl|]. intros i Hi. specialize (Hu i Hi). change (2 ^ 31) with 2147483648. lia. }
  split; [unfold view in Hv; rewrite Hp, app_nil_r, length_take in Hv; lia|]. split; [intros i Hi; apply Hpr in Hi; tauto|].
  rewrite Forall_forall in Hl. split; [|split; [|done]].
  - intros x Hx. apply (rewound_positions leaves x Hb) in Hx as (i & Hi & ->). exists i. split; [|done]. rewrite Forall_forall in Hb. apply Hb. done.
  - intros i Hi. apply (rewound_indices leaves i Hb) in Hi. apply Hl in Hi. split; [|apply Hu; done]. intros Hc. apply Hpr in Hc. tauto.
Qed.

(** Rewinding the pair brings the outputs, the unspent leaves and the ledger back. *)
Lemma pair_rewind v u l m m' (outs : list T) (height : Z) ins es p q idx a r :
  consistent v u l ->
  create_all out_commit outs (Z.of_nat (length v)) height l = Some m -> spend_all ins m = Some (es, m') ->
  (forall c, c ∈ map fst ins -> c ∉ map out_commit outs) ->
  pair_inv p q idx a r -> ledger_at a idx = m' -> view (elems a) = v ++ outs -> pending (elems a) = [] ->
  (forall i, i ∈ unspent a <->
    (i ∈ u \/ Z.of_nat (length v) <= i < Z.of_nat (length v) + Z.of_nat (length outs)) /\ i ∉ map entry_leaf es) ->
  pruned_before a (length v) u -> pruned_before r (length v) u ->
  let rm := rewound_leaves (map entry_leaf es) in
  let a' := abs_op a (SRewind (length v) rm) in
  let r' := abs_op r (SRewind (length v) rm) in
  let idx' := restore_all (zip (map fst ins) (map index_entry es)) (del_all (map out_commit outs) idx) in
  exists p' q',
    rewind (Hash := bytes) (T := T) p (mmr_size (Z.of_nat (length v))) rm = Ok p' /\
    rewind (Hash := bytes) (T := RangeProof) q (mmr_size (Z.of_nat (length v))) rm = Ok q' /\
    pair_inv p' q' idx' a' r' /\ ledger_at a' idx' = l /\ view (elems a') = v /\ unspent a' = u.
Proof.
  intros Hc Hm Hs Hd Hi Hm' Hv Hp Hu Hpa Hpr rm a' r' idx'.
  pose proof (rep_small _ _ (oi_outs _ _ _ _ _ _ _ Hi)) as Hsm. rewrite Hv, length_app in Hsm.
  destruct (spent_before v u l m m' outs height _ ins es Hc Hm Hs Hd) as [Hspent Hleaves].
  assert (Hl : Forall (fun i => i ∈ u) (map entry_leaf es)) by (apply Forall_map; done).
  destruct (rewind_ready a (length v) u (map entry_leaf es) Hp ltac:(rewrite Hv, length_app; lia) Hpa Hl (cs_range _ _ _ Hc) ltac:(lia))
    as (R1 & R2 & R3 & R4 & Hb).
  pose proof (oi_same _ _ _ _ _ _ _ Hi) as Hsame.
  assert (Hpq : pending (elems r) = []) by (rewrite Hsame; cbn; rewrite Hp; done).
  assert (Hvr : (length v <= length (view (elems r)))%nat) by (rewrite (proofs_view out_proof a r Hsame), length_map, Hv, length_app; lia).
  destruct (rewind_ready r (length v) u (map entry_leaf es) Hpq Hvr Hpr Hl (cs_range _ _ _ Hc) ltac:(lia)) as (Q1 & Q2 & _ & Q4 & _).
  destruct (rep_rewind p a (length v) rm (oi_outs _ _ _ _ _ _ _ Hi) Hp R1 R2 R3 R4) as (p' & Ep & Hp').
  destruct (rep_rewind q r (length v) rm (oi_proofs _ _ _ _ _ _ _ Hi) Hpq Q1 Q2 R3 Q4) as (q' & Eq & Hq').
  exists p', q'. split; [done|]. split; [done|].
  assert (Ev : view (elems a') = v).
  { subst a'. cbn [abs_op elems]. destruct (view_rewind (elems a) (length v) Hp R1) as [E' _]. rewrite E'.
    unfold view in Hv. rewrite Hp, app_nil_r in Hv. apply (f_equal (take (length v))) in Hv. rewrite take_take, take_app_length in Hv.
    rewrite <- Hv at 2. f_equal. apply (f_equal length) in Hv. rewrite length_take in Hv. lia. }
  assert (Eu : unspent a' = u).
  { apply set_eq. intros i. subst a' rm. cbn [abs_op unspent]. rewrite elem_of_union, rewound_indices by done.
    unfold StoreTheorems.below. rewrite elem_of_filter, Hu. split.
    - intros [[Hlt [[?|?] _]]|Hin]; [done|lia|]. rewrite Forall_forall in Hl. apply Hl. done.
    - intros Hin. destruct (decide (i ∈ map entry_leaf es)); [right; done|]. left. split; [apply (cs_range _ _ _ Hc i Hin)|]. split; [left; done|done]. }
  assert (Hr' : pair_inv p' q' idx' a' r' /\ ledger_at a' idx' = l); [|tauto].
  apply restored_ledger; try done.
  - subst a' r'. cbn [abs_op elems state_rewind flushed keep pending]. rewrite Hsame. done.
  - subst a' r'. cbn [abs_op unspent]. rewrite (oi_unspent _ _ _ _ _ _ _ Hi). done.
  - apply Hi.
  - rewrite Ev, Eu. done.
  - apply (restored_index l m m' idx outs height (Z.of_nat (length v)) ins es); try done. intros c e He. rewrite <- Hm' in He.
    destruct (ledger_entry out_commit out_proof _ _ _ _ _ _ _ Hi He) as (o & H1 & _). done.
  - apply (restored_positions l idx outs ins es u Hspent Hl).
    + intros i Hin. pose proof (cs_range _ _ _ Hc i Hin). change (2 ^ 30) with 1073741824 in Hsm. change (2 ^ 31) with 2147483648. lia.
    + apply Hi.
Qed.
End Pair.

(** ** Rewinding the hash set *)

(** What the trees and the indices hold *)
Record Contents := mkContents {
  cn_outputs : list Output;
  cn_unspent : gset Z;
  cn_kernels : list TxKernel;
  cn_token_outputs : list TokenOutput;
  cn_token_unspent : gset Z;
  cn_issues : list TokenIssueProof;
  cn_token_kernels : list TokenTxKernel;
  cn_ledger : LedgerState
}.

Definition leaves_after {A} (u : gset Z) (v outs : list A) (spent : list Z) : gset Z :=
  (u ∪ list_to_set (seqZ (Z.of_nat (length v)) (Z.of_nat (length outs)))) ∖ list_to_set spent.

Section Rewind.
  Context {DG : Digest} (ct : ChainTypes) {Bitmap : Type} {BR : CRoaring Bitmap} `{!CRoaringLaws Bitmap}
    {B : Type -> Type} {TR : Trees Bitmap B}
    `{!PrunableTree Bitmap Output OutputIdentifier (B Output)}
    `{!PrunableTree Bitmap RangeProof RangeProof (B RangeProof)}
    `{!PrunableTree Bitmap TokenOutput TokenOutputIdentifier (B TokenOutput)}
    `{!AppendTree Bitmap TxKernel TxKernel (B TxKernel)}
    `{!AppendTree Bitmap TokenIssueProof TokenIssueProof (B TokenIssueProof)}
    `{!AppendTree Bitmap TokenTxKernel TokenTxKernel (B TokenTxKernel)}.
  #[local] Abbreviation Ext := (Extension B).
  Implicit Types (e : Ext) (b : Batch) (s : SetState) (c : Contents) (x : Block).

Definition contents b s : Contents :=
  mkContents (view (elems (st_outputs s))) (unspent (st_outputs s)) (view (st_kernels s))
    (view (elems (st_token_outputs s))) (unspent (st_token_outputs s)) (view (st_issues s)) (view (st_token_kernels s))
    (ledger b s).

(** The contents after a block that spends [sp] and leaves the ledger [l] *)
Definition block_contents x (sp : Spent) c (l : LedgerState) : Contents :=
  let body := block_body x in
  mkContents (cn_outputs c ++ outputs body)
    (leaves_after (cn_unspent c) (cn_outputs c) (outputs body) (map entry_leaf (spent_coins sp)))
    (cn_kernels c ++ kernels body) (cn_token_outputs c ++ token_outputs body)
    (leaves_after (cn_token_unspent c) (cn_token_outputs c) (token_outputs body) (map entry_leaf (spent_tokens sp)))
    (cn_issues c ++ issue_proofs (token_outputs body)) (cn_token_kernels c ++ token_kernels body) l.

Lemma leaves_after_iff {A} (u : gset Z) (v outs : list A) (spent : list Z) i :
  i ∈ leaves_after u v outs spent <->
  (i ∈ u \/ Z.of_nat (length v) <= i < Z.of_nat (length v) + Z.of_nat (length outs)) /\ i ∉ spent.
Proof. unfold leaves_after. rewrite elem_of_difference, elem_of_union, !elem_of_list_to_set, elem_of_seqZ. done. Qed.

Lemma block_state_contents b b' s x sp l :
  ledger b' (block_state (Bitmap := Bitmap) x sp s) = l ->
  contents b' (block_state (Bitmap := Bitmap) x sp s) = block_contents x sp (contents b s) l.
Proof.
  intros <-. unfold contents at 1, block_contents. cbn [block_state st_outputs st_kernels st_token_outputs st_issues st_token_kernels contents
    cn_outputs cn_unspent cn_kernels cn_token_outputs cn_token_unspent cn_issues cn_token_kernels].
  destruct (pushed_pruned (Bitmap := Bitmap) (st_outputs s) (outputs (block_body x)) (map entry_leaf (spent_coins sp))) as (-> & _ & Hu & _).
  destruct (pushed_pruned (Bitmap := Bitmap) (st_token_outputs s) (token_outputs (block_body x)) (map entry_leaf (spent_tokens sp))) as (-> & _ & Hu' & _).
  rewrite !(proj2 (append_all_spec _ _)). f_equal; apply set_eq; intros i; rewrite leaves_after_iff; [apply Hu|apply Hu'].
Qed.

(** The contents of an extension are well formed. *)
Record well_formed c : Prop := {
  wf_coins : consistent output_commit (cn_outputs c) (cn_unspent c) (coins (cn_ledger c));
  wf_tokens : consistent token_output_commit (cn_token_outputs c) (cn_token_unspent c) (tokens (cn_ledger c));
  wf_issued : issued (cn_ledger c) = map issue_token_type (cn_issues c);
  wf_counts : n_coins (cn_ledger c) = Z.of_nat (length (cn_outputs c)) /\
    n_tokens (cn_ledger c) = Z.of_nat (length (cn_token_outputs c))
}.

Lemma contents_well_formed e b s : trees_inv e b s -> well_formed (contents b s).
Proof.
  intros Hi. split; [eapply outs_inv_consistent; apply Hi|eapply outs_inv_consistent; apply Hi|done|done].
Qed.

(** The tables of the indices after a block is rewound *)
Definition rewound_index x (sp : Spent) b : Batch :=
  update b (fun d => set_token_output_pos (set_output_pos d
    (restore_all (zip (map input_commit (inputs (block_body x))) (map index_entry (spent_coins sp)))
      (del_all (map output_commit (outputs (block_body x))) (db_output_pos (content b)))))
    (restore_all (zip (map token_input_commit (token_inputs (block_body x))) (map index_entry (spent_tokens sp)))
      (del_all (map token_output_commit (token_outputs (block_body x))) (db_token_output_pos (content b))))).

Lemma delete_outputs_index (outs : list Output) : forall b,
  delete_outputs outs b = update b (fun d => set_output_pos d (del_all (map output_commit outs) (db_output_pos (content b)))).
Proof.
  induction outs as [|o outs IH]; intros b; cbn [delete_outputs map]; [destruct b as [? []]; done|].
  rewrite IH. unfold delete_output_pos_height, del. destruct (db_output_pos (content b) !! output_commit o) eqn:El; [done|].
  cbn [res_bind ignoring del_all fold_left]. rewrite delete_id by done. done.
Qed.
Lemma delete_token_outputs_index (outs : list TokenOutput) : forall b,
  delete_token_outputs outs b
  = update b (fun d => set_token_output_pos d (del_all (map token_output_commit outs) (db_token_output_pos (content b)))).
Proof.
  induction outs as [|o outs IH]; intros b; cbn [delete_token_outputs map]; [destruct b as [? []]; done|].
  rewrite IH. unfold delete_token_output_pos_height, del. destruct (db_token_output_pos (content b) !! token_output_commit o) eqn:El; [done|].
  cbn [res_bind ignoring del_all fold_left]. rewrite delete_id by done. done.
Qed.

Lemma restore_inputs_index (ins : list Input) : forall (es : list (Entry OutputIdentifier)) b,
  restore_inputs (zip ins (map entry_pos es)) b
  = update b (fun d => set_output_pos d (restore_all (zip (map input_commit ins) (map index_entry es)) (db_output_pos (content b)))).
Proof.
  induction ins as [|i ins IH]; intros [|y es] b; cbn [zip zip_with map restore_inputs]; first [rewrite IH; done|destruct b as [? []]; done].
Qed.
Lemma restore_token_inputs_index (ins : list TokenInput) : forall (es : list (Entry TokenOutputIdentifier)) b,
  restore_token_inputs (zip ins (map entry_pos es)) b
  = update b (fun d => set_token_output_pos d
      (restore_all (zip (map token_input_commit ins) (map index_entry es)) (db_token_output_pos (content b)))).
Proof.
  induction ins as [|i ins IH]; intros [|y es] b; cbn [zip zip_with map restore_token_inputs]; first [rewrite IH; done|destruct b as [? []]; done].
Qed.

(** The sizes in a header are those of the contents. *)
Definition sizes_match (h : BlockHeader) c : Prop :=
  output_mmr_size h = mmr_size (Z.of_nat (length (cn_outputs c))) /\
  kernel_mmr_size h = mmr_size (Z.of_nat (length (cn_kernels c))) /\
  token_output_mmr_size h = mmr_size (Z.of_nat (length (cn_token_outputs c))) /\
  token_issue_proof_mmr_size h = mmr_size (Z.of_nat (length (cn_issues c))) /\
  token_kernel_mmr_size h = mmr_size (Z.of_nat (length (cn_token_kernels c))).

(** Nothing is waiting to be written. *)
Definition synced s : Prop :=
  pending (elems (st_outputs s)) = [] /\ pending (st_kernels s) = [] /\ pending (elems (st_token_outputs s)) = [] /\
  pending (st_issues s) = [] /\ pending (st_token_kernels s) = [].

(** Compaction stopped before [c]. *)
Definition set_pruned_before s c : Prop :=
  pruned_before (st_outputs s) (length (cn_outputs c)) (cn_unspent c) /\
  pruned_before (st_rproofs s) (length (cn_outputs c)) (cn_unspent c) /\
  pruned_before (st_token_outputs s) (length (cn_token_outputs c)) (cn_token_unspent c) /\
  pruned_before (st_token_rproofs s) (length (cn_token_outputs c)) (cn_token_unspent c).

(** The state of the trees after rewinding to [c] *)
Definition rewound_state s c (leaves token_leaves : list Z) : SetState :=
  let rm := rewound_leaves (Bitmap := Bitmap) leaves in
  let token_rm := rewound_leaves (Bitmap := Bitmap) token_leaves in
  mkSetState (abs_op (st_outputs s) (SRewind (length (cn_outputs c)) rm)) (abs_op (st_rproofs s) (SRewind (length (cn_outputs c)) rm))
    (state_rewind (st_kernels s) (length (cn_kernels c)))
    (abs_op (st_token_outputs s) (SRewind (length (cn_token_outputs c)) token_rm))
    (abs_op (st_token_rproofs s) (SRewind (length (cn_token_outputs c)) token_rm))
    (state_rewind (st_issues s) (length (cn_issues c))) (state_rewind (st_token_kernels s) (length (cn_token_kernels c))).

Lemma view_rewind_app {A} (f : FileState A) (v w : list A) : pending f = [] -> view f = v ++ w ->
  (length v <= length (flushed f))%nat /\ view (state_rewind f (length v)) = v.
Proof.
  intros Hp Hv. unfold view in Hv. rewrite Hp, app_nil_r in Hv.
  assert (Hl : (length v <= length (flushed f))%nat) by (apply (f_equal length) in Hv; rewrite length_take, length_app in Hv; lia).
  split; [done|]. destruct (view_rewind f (length v) Hp Hl) as [-> _].
  assert (Hk : (length v <= keep f)%nat) by (apply (f_equal length) in Hv; rewrite length_take, length_app in Hv; lia).
  apply (f_equal (take (length v))) in Hv. rewrite take_take, take_app_length in Hv. rewrite <- Hv at 2. f_equal. lia.
Qed.

(** The trees that are only appended to go back to an initial part. *)
Lemma append_rewind {X Y} `{!PMMRable bytes X Y} `{!TreeStore Bitmap X Y (B X)} `{!AppendTree Bitmap X Y (B X)}
    (p : PMMR (B X)) (f : FileState X) (v w : list X) :
  list_rep p f -> pending f = [] -> view f = v ++ w ->
  exists p', rewind_tree (B := B) p (mmr_size (Z.of_nat (length v))) (bm_create (Bitmap := Bitmap)) = Ok p' /\
    list_rep p' (state_rewind f (length v)) /\ view (state_rewind f (length v)) = v.
Proof.
  intros Hr Hp Hv. destruct (view_rewind_app f v w Hp Hv) as [Hl E].
  destruct (list_rewind p f (length v) _ Hr Hp ltac:(rewrite Hv, length_app; lia) (or_introl eq_refl)) as (p' & Ep & Hr'). exists p'.
  unfold rewind_tree. rewrite Ep. done.
Qed.

(** The store knows how to undo the block [x] on top of [c]: the block, its spent positions and the header before it. *)
Record block_above (d : ChainStore) c x (sp : Spent) (l : LedgerState) (prev : BlockHeader) : Prop := {
  ab_step : ledger_block x (cn_ledger c) = Some (sp, l);
  ab_disjoint : (forall k, k ∈ map input_commit (inputs (block_body x)) -> k ∉ map output_commit (outputs (block_body x))) /\
    (forall k, k ∈ map token_input_commit (token_inputs (block_body x)) ->
       k ∉ map token_output_commit (token_outputs (block_body x)));
  ab_spent : db_spent d !! header_hash ct (header x) = Some (map entry_pos (spent_coins sp));
  ab_token_spent : db_token_spent d !! header_hash ct (header x) = Some (map entry_pos (spent_tokens sp));
  ab_block : db_blocks d !! header_hash ct (header x) = Some x;
  ab_prev : db_headers d !! prev_hash (header x) = Some prev;
  ab_sizes : sizes_match prev c;
  ab_height : bh_height (header x) = bh_height prev + 1 /\ 0 <= bh_height prev
}.

(** The tables that rewinding does not write *)
Definition same_tables (d d' : ChainStore) : Prop :=
  db_spent d = db_spent d' /\ db_token_spent d = db_token_spent d' /\ db_blocks d = db_blocks d' /\ db_headers d = db_headers d'.

Definition affected_positions c (sp : Spent) : list Z :=
  map (fun i => node_pos i 0) (map entry_leaf (spent_coins sp)) ++ [mmr_size (Z.of_nat (length (cn_outputs c)))].

Lemma ledger_block_inv x c sp l : well_formed c -> ledger_block x (cn_ledger c) = Some (sp, l) ->
  exists m m' tm tm',
    create_all output_commit (outputs (block_body x)) (Z.of_nat (length (cn_outputs c))) (bh_height (header x)) (coins (cn_ledger c)) = Some m /\
    spend_all (input_ids (inputs (block_body x))) m = Some (spent_coins sp, m') /\
    create_all token_output_commit (token_outputs (block_body x)) (Z.of_nat (length (cn_token_outputs c))) (bh_height (header x))
      (tokens (cn_ledger c)) = Some tm /\
    spend_all (token_input_ids (token_inputs (block_body x))) tm = Some (spent_tokens sp, tm') /\
    coins l = m' /\ tokens l = tm'.
Proof.
  intros Hw. unfold ledger_block. destruct (wf_counts _ Hw) as [-> ->].
  destruct (create_all output_commit _ _ _ _) as [m|]; [|done]. destruct (spend_all _ m) as [[es m']|] eqn:S1; [|done].
  destruct (create_all token_output_commit _ _ _ _) as [tm|]; [|done]. destruct (issue_all _ _); [|done].
  destruct (spend_all _ tm) as [[tes tm']|] eqn:S2; [|done]. intros [= <- <-]. exists m, m', tm, tm'. done.
Qed.

Lemma contents_eq c c' :
  cn_outputs c = cn_outputs c' -> cn_unspent c = cn_unspent c' -> cn_kernels c = cn_kernels c' ->
  cn_token_outputs c = cn_token_outputs c' -> cn_token_unspent c = cn_token_unspent c' -> cn_issues c = cn_issues c' ->
  cn_token_kernels c = cn_token_kernels c' -> cn_ledger c = cn_ledger c' -> c = c'.
Proof. destruct c, c'. cbn. congruence. Qed.
Lemma ledger_eq (l l' : LedgerState) :
  coins l = coins l' -> tokens l = tokens l' -> issued l = issued l' -> n_coins l = n_coins l' -> n_tokens l = n_tokens l' -> l = l'.
Proof. destruct l, l'. cbn. congruence. Qed.

Lemma entry_positions {E} (es : list (Entry E)) : map cp_pos (map entry_pos es) = map (fun i => node_pos i 0) (map entry_leaf es).
Proof. rewrite !map_map. done. Qed.

(** The seven trees go back one after the other. *)
Lemma rewind_mmrs_ok e out_pos k_pos t_pos i_pos tk_pos spent token_spent p q k tp tq ti tk :
  rewind_tree (output_pmmr e) out_pos (bm_of_list (map wrap32 spent)) = Ok p ->
  rewind_tree (rproof_pmmr e) out_pos (bm_of_list (map wrap32 spent)) = Ok q ->
  rewind_tree (kernel_pmmr e) k_pos bm_create = Ok k ->
  rewind_tree (token_output_pmmr e) t_pos (bm_of_list (map wrap32 token_spent)) = Ok tp ->
  rewind_tree (token_rproof_pmmr e) t_pos (bm_of_list (map wrap32 token_spent)) = Ok tq ->
  rewind_tree (token_issue_proof_pmmr e) i_pos bm_create = Ok ti ->
  rewind_tree (token_kernel_pmmr e) tk_pos bm_create = Ok tk ->
  rewind_mmrs_to_pos (Bitmap := Bitmap) e out_pos k_pos t_pos i_pos tk_pos spent token_spent
  = Ok (mkExt (ext_head e) p q k tp tq ti tk (bitmap_accumulator e) (rollback e)).
Proof.
  intros E1 E2 E3 E4 E5 E6 E7. unfold rewind_mmrs_to_pos. rewrite E1. cbn [leaving map_err res_bind with_outputs rproof_pmmr].
  rewrite E2. cbn. rewrite E3. cbn. rewrite E4. cbn. rewrite E5. cbn. rewrite E6. cbn. rewrite E7. done.
Qed.

(** The trees go back to [c] with the spent positions of the block. *)
Lemma rewind_mmrs_undo e b s c x sp l :
  well_formed c -> trees_inv e b s -> synced s -> set_pruned_before s c ->
  contents b s = block_contents x sp c l -> ledger_block x (cn_ledger c) = Some (sp, l) ->
  (forall k, k ∈ map input_commit (inputs (block_body x)) -> k ∉ map output_commit (outputs (block_body x))) ->
  (forall k, k ∈ map token_input_commit (token_inputs (block_body x)) -> k ∉ map token_output_commit (token_outputs (block_body x))) ->
  let s' := rewound_state s c (map entry_leaf (spent_coins sp)) (map entry_leaf (spent_tokens sp)) in
  exists e',
    rewind_mmrs_to_pos (Bitmap := Bitmap) e (mmr_size (Z.of_nat (length (cn_outputs c)))) (mmr_size (Z.of_nat (length (cn_kernels c))))
      (mmr_size (Z.of_nat (length (cn_token_outputs c)))) (mmr_size (Z.of_nat (length (cn_issues c))))
      (mmr_size (Z.of_nat (length (cn_token_kernels c)))) (map (fun i => node_pos i 0) (map entry_leaf (spent_coins sp)))
      (map (fun i => node_pos i 0) (map entry_leaf (spent_tokens sp))) = Ok e' /\
    trees_inv e' (rewound_index x sp b) s' /\ contents (rewound_index x sp b) s' = c /\
    bitmap_accumulator e' = bitmap_accumulator e /\ ext_head e' = ext_head e.
Proof.
  intros Hw Hi (Y1 & Y2 & Y3 & Y4 & Y5) (P1 & P2 & P3 & P4) Hc Ha D1 D2 s'.
  destruct (ledger_block_inv x c sp l Hw Ha) as (m & m' & tm & tm' & C1 & S1 & C2 & S2 & L1 & L2).
  unfold contents, block_contents in Hc. injection Hc as V1 U1 V2 V3 U3 V4 V5 Hl.
  assert (Hl1 : ledger_of output_commit (st_outputs s) (db_output_pos (content b)) = m') by (rewrite <- L1, <- Hl; done).
  assert (Hl2 : ledger_of token_output_commit (st_token_outputs s) (db_token_output_pos (content b)) = tm') by (rewrite <- L2, <- Hl; done).
  assert (F1 : map fst (input_ids (inputs (block_body x))) = map input_commit (inputs (block_body x))) by (unfold input_ids; rewrite map_map; done).
  assert (F2 : map fst (token_input_ids (token_inputs (block_body x))) = map token_input_commit (token_inputs (block_body x)))
    by (unfold token_input_ids; rewrite map_map; done).
  destruct (pair_rewind output_commit output_proof _ _ _ _ _ _ _ _ _ _ _ _ _ _ (wf_coins _ Hw) C1 S1 ltac:(rewrite F1; exact D1)
    (inv_coins _ _ _ Hi) Hl1 V1 Y1 ltac:(intros i; rewrite U1; apply leaves_after_iff) P1 P2) as (p1 & q1 & E1 & E2 & I1 & K1 & W1 & X1).
  destruct (pair_rewind token_output_commit token_output_proof _ _ _ _ _ _ _ _ _ _ _ _ _ _ (wf_tokens _ Hw) C2 S2 ltac:(rewrite F2; exact D2)
    (inv_tokens _ _ _ Hi) Hl2 V3 Y3 ltac:(intros i; rewrite U3; apply leaves_after_iff) P3 P4) as (p2 & q2 & E3 & E4 & I2 & K2 & W2 & X2).
  destruct (append_rewind _ _ _ _ (inv_kernels _ _ _ Hi) Y2 V2) as (k & E5 & I3 & W3).
  destruct (append_rewind _ _ _ _ (proj1 (inv_issues _ _ _ Hi)) Y4 V4) as (ti & E6 & I4 & W4).
  destruct (append_rewind _ _ _ _ (inv_token_kernels _ _ _ Hi) Y5 V5) as (tk & E7 & I5 & W5).
  rewrite F1 in I1, K1. rewrite F2 in I2, K2.
  eexists. split; [apply rewind_mmrs_ok; unfold rewind_tree;
    fold (rewound_leaves (Bitmap := Bitmap) (map entry_leaf (spent_coins sp))) (rewound_leaves (Bitmap := Bitmap) (map entry_leaf (spent_tokens sp)));
    [rewrite E1|rewrite E2|exact E5|rewrite E3|rewrite E4|exact E6|exact E7]; done|].
  split; [|split; [|done]].
  - constructor; [exact I1|exact I2| |exact I3|exact I5]. split; [exact I4|]. destruct (inv_issues _ _ _ Hi) as (_ & J1 & J2). split; [|exact J2].
    intros i y Hy. apply J1. cbn [s' rewound_state st_issues] in Hy. rewrite W4 in Hy. rewrite V4. apply lookup_app_l_Some. exact Hy.
  - destruct (wf_counts _ Hw) as [N1 N2]. pose proof (wf_issued _ Hw) as N3.
    apply contents_eq; [exact W1|exact X1|exact W3|exact W2|exact X2|exact W4|exact W5|].
    apply ledger_eq; [exact K1|exact K2|etrans; [|symmetry; exact N3]|etrans; [|symmetry; exact N1]|etrans; [|symmetry; exact N2]].
    + exact (f_equal (map issue_token_type) W4).
    + exact (f_equal (fun v => Z.of_nat (length v)) W1).
    + exact (f_equal (fun v => Z.of_nat (length v)) W2).
Qed.

(** One block back *)
Lemma rewind_single_block_undoes e b s c x sp l prev :
  well_formed c -> trees_inv e b s -> synced s -> set_pruned_before s c ->
  contents b s = block_contents x sp c l -> block_above (content b) c x sp l prev ->
  let s' := rewound_state s c (map entry_leaf (spent_coins sp)) (map entry_leaf (spent_tokens sp)) in
  exists e',
    rewind_single_block (Bitmap := Bitmap) ct e b (header x) = Ok (affected_positions c sp, e', rewound_index x sp b) /\
    trees_inv e' (rewound_index x sp b) s' /\ contents (rewound_index x sp b) s' = c /\
    bitmap_accumulator e' = bitmap_accumulator e /\ ext_head e' = ext_head e.
Proof.
  intros Hw Hi Hs Hp Hc Ha s'. destruct (ab_disjoint _ _ _ _ _ _ Ha) as [D1 D2]. destruct (ab_sizes _ _ _ _ _ _ Ha) as (Z1 & Z2 & Z3 & Z4 & Z5).
  destruct (rewind_mmrs_undo e b s c x sp l Hw Hi Hs Hp Hc (ab_step _ _ _ _ _ _ Ha) D1 D2) as (e' & E & I & K & Hacc).
  exists e'. split; [|done].
  unfold rewind_single_block, get_spent_index, get_token_spent_index, get_previous_header, get_block_header, get_block, option_to_not_found, ok_or.
  rewrite (ab_spent _ _ _ _ _ _ Ha), (ab_token_spent _ _ _ _ _ _ Ha), (ab_block _ _ _ _ _ _ Ha), (ab_prev _ _ _ _ _ _ Ha).
  cbn [spent_positions res_bind from_store map_err leaving]. destruct (ab_height _ _ _ _ _ _ Ha) as [Hh1 Hh2].
  destruct (Z.eqb_spec (bh_height (header x)) 0); [lia|]. cbn [res_bind leaving map_err]. rewrite Z1, Z2, Z3, Z4, Z5, !entry_positions, E. cbn [res_bind leaving map_err].
  rewrite restore_token_inputs_index, restore_inputs_index, delete_token_outputs_index, delete_outputs_index.
  rewrite (rep_size _ _ (oi_outs _ _ _ _ _ _ _ (inv_coins _ _ _ I))). unfold affected_positions.
  apply (f_equal cn_outputs) in K. cbn [contents cn_outputs] in K. rewrite K. done.
Qed.

(** ** Rewinding a chain of blocks *)

(** The contents [c] at the header [h] came from [c0] at [h0] by blocks that the store can undo; the affected
    positions from the last block back *)
Inductive undo_chain (d : ChainStore) : Contents -> BlockHeader -> Contents -> BlockHeader -> list Z -> Prop :=
| undo_none c h : undo_chain d c h c h []
| undo_block c x sp l prev c0 h0 ps :
    well_formed c -> block_above d c x sp l prev -> undo_chain d c prev c0 h0 ps ->
    undo_chain d (block_contents x sp c l) (header x) c0 h0 (affected_positions c sp ++ ps).

Lemma same_tables_above d d' c x sp l prev : same_tables d d' -> block_above d c x sp l prev -> block_above d' c x sp l prev.
Proof. intros (E1 & E2 & E3 & E4) [A1 A2 A3 A4 A5 A6 A7 A8]. constructor; congruence. Qed.
Lemma same_tables_chain d d' c h c0 h0 ps : same_tables d d' -> undo_chain d c h c0 h0 ps -> undo_chain d' c h c0 h0 ps.
Proof. intros Hs. induction 1; econstructor; eauto using same_tables_above. Qed.

Lemma chain_height d c h c0 h0 ps : undo_chain d c h c0 h0 ps -> bh_height h0 <= bh_height h /\ (ps <> [] -> bh_height h0 < bh_height h).
Proof.
  induction 1 as [|c x sp l prev c0 h0 ps _ Ha _ IH]; [split; [lia|done]|]. pose proof (ab_height _ _ _ _ _ _ Ha). lia.
Qed.

Lemma chain_base d c h c0 h0 ps : undo_chain d c h c0 h0 ps -> ps <> [] -> 0 <= bh_height h0.
Proof.
  induction 1 as [|c x sp l prev c0 h0 ps _ Ha Hch IH]; [done|]. intros _. pose proof (ab_height _ _ _ _ _ _ Ha) as [_ Hb].
  destruct ps; [|apply IH; done]. inversion Hch; subst; [done|]. exfalso.
  match goal with H : affected_positions _ _ ++ _ = [] |- _ => apply app_eq_nil in H as [H _]; apply app_eq_nil in H as [_ H]; done end.
Qed.

Lemma pruned_after {A X} (a : AbsStore A) (v outs : list X) u spent :
  pruned_before a (length v) u -> pruned_before a (length (v ++ outs)) (leaves_after u v outs spent).
Proof. intros H i Hi. apply H in Hi as [Hlt Hu]. rewrite leaves_after_iff, length_app. split; [lia|]. intros [[?|?] _]; [done|lia]. Qed.

Lemma chain_pruned d c h c0 h0 ps s : undo_chain d c h c0 h0 ps -> set_pruned_before s c0 -> set_pruned_before s c.
Proof.
  induction 1 as [|c x sp l prev c0 h0 ps _ _ _ IH]; [done|]. intros H. destruct (IH H) as (P1 & P2 & P3 & P4).
  split; [|split; [|split]]; apply pruned_after; done.
Qed.

Lemma rewound_synced s c leaves token_leaves : synced s -> synced (rewound_state s c leaves token_leaves).
Proof. intros (? & ? & ? & ? & ?). repeat split; done. Qed.
Lemma rewound_discard s c leaves token_leaves :
  discarded_state (Bitmap := Bitmap) (rewound_state s c leaves token_leaves) = discarded_state (Bitmap := Bitmap) s.
Proof. done. Qed.

(** The loop of [Extension::rewind] undoes the whole chain. *)
Lemma rewind_blocks_undo d c h c0 h0 ps : undo_chain d c h c0 h0 ps ->
  forall fuel e b s aff,
  trees_inv e b s -> synced s -> set_pruned_before s c0 -> contents b s = c -> same_tables (content b) d ->
  bh_height h - bh_height h0 <= Z.of_nat fuel ->
  exists e' b' s',
    rewind_blocks (Bitmap := Bitmap) ct fuel e b (bh_height h0) h aff = Ok (aff ++ ps, e', b') /\
    trees_inv e' b' s' /\ contents b' s' = c0 /\ same_tables (content b') d /\
    bitmap_accumulator e' = bitmap_accumulator e /\ ext_head e' = ext_head e /\
    synced s' /\ discarded_state (Bitmap := Bitmap) s' = discarded_state (Bitmap := Bitmap) s.
Proof.
  induction 1 as [c h|c x sp l prev c0 h0 ps Hw Ha Hch IH]; intros fuel e b s aff Hi Hs Hp Hc Ht Hf.
  - exists e, b, s. rewrite app_nil_r. split; [|done]. destruct fuel; cbn [rewind_blocks]; rewrite Z.ltb_irrefl; done.
  - destruct (chain_height _ _ _ _ _ _ Hch) as [Hle _]. destruct (ab_height _ _ _ _ _ _ Ha) as [Hh _].
    destruct fuel as [|fuel]; [lia|]. cbn [rewind_blocks]. destruct (Z.ltb_spec (bh_height h0) (bh_height (header x))); [|lia].
    assert (Ha' : block_above (content b) c x sp l prev) by (eapply same_tables_above; [|exact Ha]; destruct Ht as (? & ? & ? & ?); repeat split; congruence).
    destruct (rewind_single_block_undoes e b s c x sp l prev Hw Hi Hs (chain_pruned _ _ _ _ _ _ s Hch Hp) Hc Ha') as (e1 & -> & I1 & K1 & B1 & T1).
    cbn [res_bind]. unfold get_previous_header, get_block_header, option_to_not_found, ok_or.
    change (db_headers (content (rewound_index x sp b))) with (db_headers (content b)). rewrite (ab_prev _ _ _ _ _ _ Ha').
    cbn [from_store map_err leaving res_bind].
    destruct (IH fuel e1 _ _ (aff ++ affected_positions c sp) I1 (rewound_synced s c _ _ Hs) Hp K1 Ht ltac:(lia))
      as (e2 & b2 & s2 & -> & I2 & K2 & S2 & B2 & T2 & Y2 & D2).
    exists e2, b2, s2. rewrite <- app_assoc, B2, T2. done.
Qed.

(** ** The accumulator after a rewind *)

Abbreviation leaf_number pos := (saturating_sub (n_leaves pos) 1).

Lemma affected_leaves d c x sp l prev : well_formed c -> block_above d c x sp l prev ->
  Z.of_nat (length (cn_outputs c)) < 2 ^ 30 ->
  Forall (fun i => i ∈ cn_unspent c) (map entry_leaf (spent_coins sp)) /\
  map (fun pos => leaf_number pos) (affected_positions c sp)
  = map entry_leaf (spent_coins sp) ++ [Z.max 0 (Z.of_nat (length (cn_outputs c)) - 1)].
Proof.
  intros Hw Ha Hn. change (2 ^ 30) with 1073741824 in Hn.
  destruct (ledger_block_inv x c sp l Hw (ab_step _ _ _ _ _ _ Ha)) as (m & m' & _ & _ & C1 & S1 & _).
  destruct (spent_before output_commit _ _ _ _ _ _ _ _ _ _ (wf_coins _ Hw) C1 S1) as [_ Hl].
  { unfold input_ids. rewrite map_map. apply (ab_disjoint _ _ _ _ _ _ Ha). }
  apply (Forall_map entry_leaf (fun i => i ∈ cn_unspent c)) in Hl. split; [done|]. unfold affected_positions. rewrite map_app, leaf_indices_of.
  - cbn [map]. rewrite n_leaves_size; [|split; [lia|change (2 ^ 61) with 2305843009213693952; lia]]. done.
  - eapply Forall_impl; [exact Hl|]. intros i Hi. apply (cs_range _ _ _ _ (wf_coins _ Hw)) in Hi. change (2 ^ 31) with 2147483648. lia.
Qed.

Lemma chain_affected d c h c0 h0 ps : undo_chain d c h c0 h0 ps -> Z.of_nat (length (cn_outputs c)) < 2 ^ 30 ->
  let J := map (fun pos => leaf_number pos) ps in
  Forall (fun i => 0 <= i < 2 ^ 31) J /\
  (forall i, 0 <= i -> (forall j, j ∈ J -> i < j) -> i ∈ cn_unspent c0 <-> i ∈ cn_unspent c) /\
  (ps <> [] -> Z.max 0 (Z.of_nat (length (cn_outputs c0)) - 1) ∈ J).
Proof.
  induction 1 as [|c x sp l prev c0 h0 ps Hw Ha Hch IH]; intros Hn; cbn zeta; [split; [constructor|split; [done|done]]|].
  cbn [block_contents cn_outputs cn_unspent] in Hn |- *. rewrite length_app in Hn.
  destruct (affected_leaves d c x sp l prev Hw Ha ltac:(lia)) as [Hl Ej]. destruct (IH ltac:(lia)) as (J1 & J2 & J3).
  rewrite map_app, Ej. change (2 ^ 30) with 1073741824 in Hn. split; [|split].
  - apply Forall_app. split; [|done]. apply Forall_app. split.
    + eapply Forall_impl; [exact Hl|]. intros i Hi. apply (cs_range _ _ _ _ (wf_coins _ Hw)) in Hi. change (2 ^ 31) with 2147483648. lia.
    + constructor; [|constructor]. change (2 ^ 31) with 2147483648. lia.
  - intros i Hi Hlt. rewrite leaves_after_iff, J2; [|done|intros j Hj; apply Hlt; set_solver].
    pose proof (Hlt (Z.max 0 (Z.of_nat (length (cn_outputs c)) - 1)) ltac:(set_solver)). split.
    + intros Hu. split; [left; done|]. intros Hin. specialize (Hlt i ltac:(set_solver)). lia.
    + intros [[?|?] _]; [done|lia].
  - intros _. inversion Hch; subst; [set_solver|]. apply elem_of_app. right. apply J3.
    intros E'. apply app_eq_nil in E' as [E' _]. apply app_eq_nil in E' as [_ E']. done.
Qed.

Lemma ext_rewind_undoes e b s h c0 h0 ps :
  ext_inv e b s -> synced s -> undo_chain (content b) (contents b s) h c0 h0 ps -> ps <> [] -> set_pruned_before s c0 ->
  (exists i, i ∈ cn_unspent c0 /\ chunk_start_idx (Z.of_nat (length (cn_outputs c0)) - 1) <= i) ->
  get_block_header b (last_block_h (ext_head e)) = Ok h ->
  exists e' b' s',
    ext_rewind (Bitmap := Bitmap) ct e b h0 = Ok (e', b') /\ ext_inv e' b' s' /\ contents b' s' = c0 /\
    ext_head e' = tip_from_header ct h0 /\ same_tables (content b') (content b) /\
    synced s' /\ discarded_state (Bitmap := Bitmap) s' = discarded_state (Bitmap := Bitmap) s.
Proof.
  intros He Hs Hch Hne Hp (i & Hi & Hchunk) Hh. unfold ext_rewind. rewrite Hh. cbn [from_store map_err leaving res_bind].
  destruct (chain_height _ _ _ _ _ _ Hch) as [Hle Hlt]. specialize (Hlt Hne). destruct (Z.leb_spec (bh_height h) (bh_height h0)); [lia|].
  assert (Hfuel : bh_height h - bh_height h0 <= Z.of_nat (Z.to_nat (bh_height h))).
  { pose proof (chain_base _ _ _ _ _ _ Hch Hne). lia. }
  destruct (rewind_blocks_undo _ _ _ _ _ _ Hch _ e b s [] He Hs Hp eq_refl ltac:(done) Hfuel) as (e1 & b1 & s1 & -> & I1 & K1 & S1 & B1 & T1 & Y1 & D1).
  cbn [res_bind app]. pose proof (rep_small _ _ (oi_outs _ _ _ _ _ _ _ (inv_coins _ _ _ (inv_trees _ _ _ He)))) as Hsm.
  destruct (chain_affected _ _ _ _ _ _ Hch Hsm) as (J1 & J2 & J3). subst c0.
  destruct (accumulator_update e1 (st_outputs s1) (unspent (st_outputs s)) ps _ (oi_outs _ _ _ _ _ _ _ (inv_coins _ _ _ I1))
    ltac:(rewrite B1; apply He) eq_refl J1 J2) as (acc & -> & Hacc).
  { exists i, (Z.max 0 (Z.of_nat (length (view (elems (st_outputs s1)))) - 1)). split; [done|]. split; [apply J3; done|].
    pose proof (rep_unspent _ _ i (oi_outs _ _ _ _ _ _ _ (inv_coins _ _ _ I1)) Hi) as [_ Hr].
    rewrite Z.max_r by lia. exact Hchunk. }
  cbn [res_bind leaving map_err]. eexists _, b1, s1. split; [done|]. split; [|done]. split; [|exact Hacc]. destruct I1. constructor; done.
Qed.
(** C6: Rewinding the hash set from the head to an earlier header of its chain restores what the trees, the indices and
    the accumulator held there: the views of the seven trees, the unspent leaves and the ledger, whatever number of
    blocks is undone, when the trees are written, compaction stopped before that header and its last chunk of outputs
    holds an unspent one. *)
Theorem rewind_restores_the_ledger e b s h c0 h0 ps :
  ext_inv e b s -> synced s -> undo_chain (content b) (contents b s) h c0 h0 ps -> ps <> [] -> set_pruned_before s c0 ->
  (exists i, i ∈ cn_unspent c0 /\ chunk_start_idx (Z.of_nat (length (cn_outputs c0)) - 1) <= i) ->
  get_block_header b (last_block_h (ext_head e)) = Ok h ->
  exists e' b' s',
    ext_rewind (Bitmap := Bitmap) ct e b h0 = Ok (e', b') /\ ext_inv e' b' s' /\ contents b' s' = c0 /\
    ext_head e' = tip_from_header ct h0 /\ same_tables (content b') (content b).
Proof.
  intros. destruct (ext_rewind_undoes e b s h c0 h0 ps) as (e' & b' & s' & E & I & K & T & S & _); try done.
  exists e', b', s'. done.
Qed.
End Rewind.
