(* ===== verification/UnitTheorems.v ===== *)
(** * Units of work are atomic

    [extending] on the trees and the batch: after it, the trees hold either what the work left and the parent batch holds
    what the child wrote, or both hold what they held before, however the work ended. *)

From Stdlib Require Import ZArith Lia List Bool Sorted.
From stdpp Require Import base numbers list option gmap.
From S2P Require Import Prelude MmrIndex Pmmr PmmrTheorems Bytes Consensus Ser Bitmap PruneList DataFile FileBackend StoreTheorems PowTypes Transaction TxBody Committed Verifier Aggregate Block ChainTypes BitmapAccumulator ChainStore TxHashSet TreeLaws TxHashSetTheorems RewindTheorems.

Section Units.
  Context {DG : Digest} (ct : ChainTypes) {Bitmap : Type} {BR : CRoaring Bitmap} `{!CRoaringLaws Bitmap}
    {B : Type -> Type} {TR : Trees Bitmap B}
    `{!PrunableTree Bitmap Output OutputIdentifier (B Output)}
    `{!PrunableTree Bitmap RangeProof RangeProof (B RangeProof)}
    `{!PrunableTree Bitmap TokenOutput TokenOutputIdentifier (B TokenOutput)}
    `{!AppendTree Bitmap TxKernel TxKernel (B TxKernel)}
    `{!AppendTree Bitmap TokenIssueProof TokenIssueProof (B TokenIssueProof)}
    `{!AppendTree Bitmap TokenTxKernel TokenTxKernel (B TokenTxKernel)}.
  Implicit Types (e : Extension B) (b : Batch) (s : SetState) (x : Block) (trees : TxHashSet B) (h : PMMR (B BlockHeader)).
  #[local] Abbreviation op a o := (abs_op (Bitmap := Bitmap) a o).

Lemma written_at_rest s : at_rest (written s).
Proof. done. Qed.
Lemma written_synced s : synced (written s).
Proof. done. Qed.
Lemma rest_synced s : at_rest s -> synced s.
Proof.
  intros Hr. rewrite <- Hr. done.
Qed.
Lemma contents_written b s : contents b (written s) = contents b s.
Proof.
  unfold contents, ledger, written, ledger_of. cbn [st_outputs st_token_outputs st_kernels st_issues st_token_kernels abs_op elems unspent].
  unfold entry_at. cbn [elems unspent]. rewrite !view_flush. done.
Qed.

(** ** Reps of other trees with the same state *)

Section Pair.
  Context {T E : Type} `{!EqDecision E} `{!PMMRable bytes T E} `{!TreeStore Bitmap T E (B T)} `{!PrunableTree Bitmap T E (B T)}
    (out_commit : T -> Commitment) (out_proof : T -> RangeProof).

Lemma outs_inv_rep (p p' : PMMR (B T)) q q' idx a r :
  outs_inv out_commit out_proof p q idx a r -> tree_rep p' a -> tree_rep q' r -> outs_inv out_commit out_proof p' q' idx a r.
Proof. intros [] H1 H2. constructor; done. Qed.

Lemma outs_inv_written (p p' : PMMR (B T)) q q' idx a r :
  outs_inv out_commit out_proof p q idx a r -> tree_rep p' (op a SSync) -> tree_rep q' (op r SSync) ->
  outs_inv out_commit out_proof p' q' idx (op a SSync) (op r SSync).
Proof.
  intros Hi H1 H2. pose proof (proofs_view out_proof a r (oi_same _ _ _ _ _ _ _ Hi)) as Hv. destruct Hi. constructor; try done.
  - cbn [abs_op elems]. unfold state_flush. cbn [flushed keep pending]. rewrite Hv, length_map. done.
  - cbn [abs_op elems unspent]. rewrite view_flush. done.
Qed.
End Pair.

(** ** Writing *)

Lemma synced_tree_rep {T E} `{!PMMRable bytes T E} `{!TreeStore Bitmap T E (B T)} `{!PrunableTree Bitmap T E (B T)} (p : PMMR (B T)) a :
  tree_rep p a -> exists p', synced_tree (B := B) p = Ok p' /\ tree_rep p' (op a SSync).
Proof. intros H. destruct (rep_sync p a H) as (b & E' & H'). eexists. unfold synced_tree. rewrite E'. done. Qed.
Lemma synced_list_rep {T E} `{!PMMRable bytes T E} `{!TreeStore Bitmap T E (B T)} `{!AppendTree Bitmap T E (B T)} (p : PMMR (B T)) f :
  list_rep p f -> exists p', synced_tree (B := B) p = Ok p' /\ list_rep p' (state_flush f).
Proof. intros H. destruct (list_sync p f H) as (b & E' & H'). eexists. unfold synced_tree. rewrite E'. done. Qed.

Lemma sync_trees_inv e b s : ext_inv e b s ->
  exists trees, sync_trees e = Ok trees /\ forall head, ext_inv (extension_new trees head) b (written s).
Proof.
  intros [[C T I K TK] A]. unfold sync_trees.
  destruct (synced_tree_rep _ _ (oi_outs _ _ _ _ _ _ _ C)) as (o & -> & Ho). destruct (synced_tree_rep _ _ (oi_proofs _ _ _ _ _ _ _ C)) as (r & -> & Hr).
  destruct (synced_list_rep _ _ K) as (k & -> & Hk).
  destruct (synced_tree_rep _ _ (oi_outs _ _ _ _ _ _ _ T)) as (t_o & -> & Hto). destruct (synced_tree_rep _ _ (oi_proofs _ _ _ _ _ _ _ T)) as (t_r & -> & Htr).
  destruct (synced_list_rep _ _ (proj1 I)) as (i & -> & Hi). destruct (synced_list_rep _ _ TK) as (tk & -> & Htk). cbn [res_bind].
  eexists. split; [done|]. intros head. split; [constructor|exact A].
  - eapply outs_inv_written; done.
  - eapply outs_inv_written; done.
  - split; [exact Hi|]. destruct I as (_ & J1 & J2). split; [|done]. intros j y. cbn [written st_issues]. rewrite view_flush. apply J1.
  - exact Hk.
  - exact Htk.
Qed.

(** ** Discarding *)

Lemma size_at_rest {T E} `{!PMMRable bytes T E} `{!TreeStore Bitmap T E (B T)} `{!PrunableTree Bitmap T E (B T)} (p p' : PMMR (B T)) a a' :
  tree_rep p a -> op a SDiscard = a -> tree_rep p' a' -> op a' SDiscard = a ->
  tree_rep (discarded (B := B) p (backend p')) a.
Proof.
  intros Hp Ha Hp' Ha'. pose proof (rep_discard p' a' Hp') as H. rewrite Ha' in H. pose proof (rep_size _ _ H) as E1.
  cbn [last_pos] in E1. unfold discarded. rewrite (rep_size p a Hp), <- E1. exact H.
Qed.
Lemma list_at_rest {T E} `{!PMMRable bytes T E} `{!TreeStore Bitmap T E (B T)} `{!AppendTree Bitmap T E (B T)} (p p' : PMMR (B T)) f f' :
  list_rep p f -> state_discard f = f -> list_rep p' f' -> state_discard f' = f ->
  list_rep (discarded (B := B) p (backend p')) f.
Proof.
  intros Hp Hf Hp' Hf'. pose proof (list_discard p' f' Hp') as H. rewrite Hf' in H. pose proof (list_size _ _ H) as E1.
  cbn [last_pos] in E1. unfold discarded. rewrite (list_size p f Hp), <- E1. exact H.
Qed.

(** The discarded trees hold what they held before, whatever was done to them since. *)
Lemma discard_trees_inv trees head b s e :
  ext_inv (extension_new trees head) b s -> at_rest s -> left_by e s ->
  forall head', ext_inv (extension_new (discard_trees trees e) head') b s.
Proof.
  intros [[C T I K TK] A] Hr (s' & [R1' R2' R3' R4' R5' R6' R7'] & Hd) head'. unfold at_rest in Hr. rewrite Hr in Hd.
  pose proof (f_equal st_outputs Hr) as R1. pose proof (f_equal st_outputs Hd) as D1. pose proof (f_equal st_rproofs Hr) as R2.
  pose proof (f_equal st_rproofs Hd) as D2. pose proof (f_equal st_kernels Hr) as R3. pose proof (f_equal st_kernels Hd) as D3.
  pose proof (f_equal st_token_outputs Hr) as R4. pose proof (f_equal st_token_outputs Hd) as D4. pose proof (f_equal st_token_rproofs Hr) as R5.
  pose proof (f_equal st_token_rproofs Hd) as D5. pose proof (f_equal st_issues Hr) as R6. pose proof (f_equal st_issues Hd) as D6.
  pose proof (f_equal st_token_kernels Hr) as R7. pose proof (f_equal st_token_kernels Hd) as D7. clear Hr Hd.
  cbn [discarded_state st_outputs st_rproofs st_kernels st_token_outputs st_token_rproofs st_issues st_token_kernels] in *.
  split; [constructor|exact A].
  - eapply outs_inv_rep; [exact C| |]; eapply size_at_rest; first [apply C|eassumption].
  - eapply outs_inv_rep; [exact T| |]; eapply size_at_rest; first [apply T|eassumption].
  - split; [|apply I]. eapply list_at_rest; first [apply I|eassumption].
  - eapply list_at_rest; [exact K|done|exact R3'|done].
  - eapply list_at_rest; [exact TK|done|exact R7'|done].
Qed.

(** The invariant reads the indices of the batch only. *)
Definition same_indices b b' : Prop :=
  db_output_pos (content b) = db_output_pos (content b') /\ db_token_output_pos (content b) = db_token_output_pos (content b') /\
  db_issue_pos (content b) = db_issue_pos (content b').
Lemma ext_inv_index e b b' s : same_indices b b' -> ext_inv e b s -> ext_inv e b' s.
Proof.
  intros (E1 & E2 & E3) [[C T I K TK] A]. unfold coin_inv, token_inv in *. rewrite E1 in C. rewrite E2 in T. rewrite E3 in I.
  split; [constructor|]; done.
Qed.
Lemma contents_index b b' s : same_indices b b' -> contents b s = contents b' s.
Proof. intros (E1 & E2 & _). unfold contents, ledger. rewrite E1, E2. done. Qed.
Lemma ext_inv_head e b s head back : ext_inv e b s ->
  ext_inv (mkExt head (output_pmmr e) (rproof_pmmr e) (kernel_pmmr e) (token_output_pmmr e) (token_rproof_pmmr e)
    (token_issue_proof_pmmr e) (token_kernel_pmmr e) (bitmap_accumulator e) back) b s.
Proof. intros [[C T I K TK] A]. split; [constructor|]; done. Qed.

(** What a unit of work asks of the work that runs in it, on trees with the state [s] at rest: when it succeeds, its trees are those
    of a state with a batch and [Q] holds; when it fails, half way through, its trees are such that discarding them gives [s]. *)
Definition well_behaved {A} (inner : ExtensionPair B -> Batch -> outcome (ExtensionPair B) (A * ExtensionPair B * Batch))
    (Q : A -> Contents -> Prop) trees b s : Prop :=
  forall pair head, extension pair = extension_new trees head ->
  match inner pair (child b) with
  | Ok (r, pair', b') => exists s', ext_inv (extension pair') b' s' /\ discarded_state s' = s /\ Q r (contents b' s')
  | Err (_, pair') => left_by (extension pair') s
  | Panic => True
  end.

(** C7: A unit of work is atomic, also when the work fails half way and leaves the trees changed.  When it ends without an
    error and is not rolled back, the trees and the accumulator hold what the work left, with all it guarantees ([Q]), and the
    parent batch what its child wrote; when it is rolled back or fails, the trees are those of the backends that the work
    changed, discarded, and they, the accumulator and the batch hold what they held before.  Only a unit whose heads cannot be
    read runs nothing and leaves the trees alone. *)
Theorem units_are_atomic {A} (inner : ExtensionPair B -> Batch -> outcome (ExtensionPair B) (A * ExtensionPair B * Batch)) (Q : A -> Contents -> Prop)
    h trees b s :
  at_rest s -> (forall head, ext_inv (extension_new trees head) b s) -> well_behaved inner Q trees b s ->
  let '(r, _, trees', b2) := extending ct inner h trees b in
  match r with
  | Ok x => exists pair head pair' b', extension pair = extension_new trees head /\ inner pair (child b) = Ok (x, pair', b') /\
      if rollback (extension pair')
      then b2 = b /\ trees' = discard_trees trees (extension pair') /\ (forall head, ext_inv (extension_new trees' head) b s)
      else content b2 = content b' /\ committed b2 = committed b /\
        exists s', at_rest s' /\ Q x (contents b2 s') /\ forall head, ext_inv (extension_new trees' head) b2 s'
  | Err x => b2 = b /\ (forall head, ext_inv (extension_new trees' head) b s) /\
      ((from_store (head b) = Err x \/ header_tip ct h b = Err x) /\ trees' = trees \/
       exists pair head pair', extension pair = extension_new trees head /\ inner pair (child b) = Err (x, pair') /\
         trees' = discard_trees trees (extension pair'))
  | Panic => True
  end.
Proof.
  intros Hr He Hin. unfold extending.
  destruct (from_store (head b)) as [hd|err|] eqn:Eh; cbn [res_bind]; [|split; [done|]; split; [done|left; split; [left|]; done]|done].
  destruct (header_tip ct h b) as [hhead|err|] eqn:Et; cbn [res_bind]; [|split; [done|]; split; [done|left; split; [right|]; done]|done].
  set (pair := mkPair _ _). specialize (Hin pair hd eq_refl). destruct (inner pair (child b)) as [[[x pair'] b']|[err pair']|] eqn:E; [| |done].
  - destruct Hin as (s' & Hi & Hd & HQ). destruct (rollback (extension pair')) eqn:Eb.
    + exists pair, hd, pair', b'. split; [done|]. split; [done|]. rewrite Eb. split; [done|]. split; [done|].
      eapply discard_trees_inv; [apply (He hd)|done|]. exists s'. split; [eapply inv_rep, Hi|]. unfold at_rest in Hr. congruence.
    + destruct (sync_trees_inv _ _ _ Hi) as (trees' & -> & Ht). exists pair, hd, pair', b'. split; [done|]. split; [done|]. rewrite Eb. split; [done|]. split; [done|].
      exists (written s'). split; [apply written_at_rest|]. split; [rewrite contents_written; exact HQ|].
      intros head'. eapply ext_inv_index; [|apply Ht]. done.
  - split; [done|]. split; [eapply discard_trees_inv; [apply (He hd)|done|exact Hin]|].
    right. exists pair, hd, pair'. done.
Qed.
End Units.
