(* ===== verification/OpenSet.v ===== *)
(** * Opening and listing the hash set

    [PMMRHandle::new] and [TxHashSet::open] on the files of the seven trees, with the search for the version the
    kernels are written in, and the listings of the trees.  A hash set opened without files holds the empty ledger;
    from it on, the theorems of [TxHashSetTheorems] and [RewindTheorems] follow the blocks. *)

From Stdlib Require Import ZArith Lia List Bool Sorted.
From stdpp Require Import base numbers list option gmap.
From S2P Require Import Prelude MmrIndex Pmmr PmmrTheorems Bytes Consensus Ser Bitmap PruneList DataFile FileBackend StoreTheorems PowTypes Transaction TxBody Committed Verifier Aggregate Block ChainTypes BitmapAccumulator ChainStore TxHashSet TreeLaws FileTrees TreeElements TxHashSetTheorems.

(** The directory of a tree, with the leaf sets saved for headers *)
Record TreeDir := mkTreeDir { dir_files : StoreDir; dir_snapshots : bytes -> file }.

Record SetDir := mkSetDir {
  OUTPUT_SUBDIR : TreeDir;
  RANGE_PROOF_SUBDIR : TreeDir;
  TOKEN_OUTPUT_SUBDIR : TreeDir;
  TOKEN_RANGE_PROOF_SUBDIR : TreeDir;
  TOKEN_ISSUE_PROOF_SUBDIR : TreeDir;
  KERNEL_SUBDIR : TreeDir;
  TOKEN_KERNEL_SUBDIR : TreeDir
}.

Section Open.
  Context {Bitmap : Type} {BR : CRoaring Bitmap} {DG : Digest} {SS : SecpSizes} {SP : Secp} {SV : SecpVerify} (ct : ChainTypes).
  #[local] Existing Instance file_tree.
  #[local] Abbreviation Handle := (PMMR (PMMRBackend Bitmap)).
  #[local] Abbreviation Set_ := (TxHashSet (fun _ => PMMRBackend Bitmap)).

(** [PMMRHandle::new] *)
Definition handle_new (Elt : Type) `{!Readable Elt} `{!Writeable Elt} (elmt_size : option Z) (dir : TreeDir) (prunable : bool)
    (version : Z) (header : option BlockHeader) : res ErrorKind Handle :=
  let snapshot := (fun h => dir_snapshots dir (header_hash ct h)) <$> header in
  let? backend := set_err (fb_new (Hash := bytes) (Elt := Elt) elmt_size (dir_files dir) prunable version snapshot) in
  let? last_pos := set_err (fb_unpruned_size backend) in
  Ok (mkPMMR last_pos backend).

(** The loop of [TxHashSet::open] over the versions of kernels *)
Fixpoint open_kernels (versions : list Z) (dir : TreeDir) : res ErrorKind (option Handle) :=
  match versions with
  | [] => Ok None
  | version :: versions =>
    let? handle := handle_new TxKernel kernel_elmt_size dir false version None in
    if last_pos handle =? 0 then Ok (Some handle)
    else
      match get_data (Bitmap := Bitmap) (Hash := bytes) (T := TxKernel) (E := TxKernel) (mkPMMR 1 (backend handle)) 1 with
      | Some kernel => if is_ok (kernel_verify kernel) then Ok (Some handle) else open_kernels versions dir
      | None => open_kernels versions dir
      end
  end.

(** [TxHashSet::open] *)
Definition set_open (root_dir : SetDir) (header : option BlockHeader) : res ErrorKind Set_ :=
  let? output_pmmr_h := handle_new OutputIdentifier output_elmt_size (OUTPUT_SUBDIR root_dir) true 1 header in
  let? rproof_pmmr_h := handle_new RangeProof rproof_elmt_size (RANGE_PROOF_SUBDIR root_dir) true 1 header in
  let? token_output_pmmr_h :=
    handle_new TokenOutputIdentifier token_output_elmt_size (TOKEN_OUTPUT_SUBDIR root_dir) true 1 header in
  let? token_rproof_pmmr_h := handle_new RangeProof rproof_elmt_size (TOKEN_RANGE_PROOF_SUBDIR root_dir) true 1 header in
  let? token_issue_proof_pmmr_h :=
    handle_new TokenIssueProof issue_proof_elmt_size (TOKEN_ISSUE_PROOF_SUBDIR root_dir) false 1 header in
  let? token_kernel_pmmr_h :=
    handle_new TokenTxKernel token_kernel_elmt_size (TOKEN_KERNEL_SUBDIR root_dir) false 1 None in
  let? bitmap_accumulator := build_accumulator (TR := chain_trees ct) output_pmmr_h in
  let? maybe_kernel_handle := open_kernels [2; 1] (KERNEL_SUBDIR root_dir) in
  match maybe_kernel_handle with
  | Some kernel_pmmr_h =>
    Ok (mkTxHashSet output_pmmr_h rproof_pmmr_h kernel_pmmr_h token_output_pmmr_h token_rproof_pmmr_h
          token_issue_proof_pmmr_h token_kernel_pmmr_h bitmap_accumulator)
  | None => Err TxHashSetErr
  end.
End Open.

(** ** Listings *)

Section Listing.
  Context {DG : Digest} {Bitmap : Type} {BR : CRoaring Bitmap} {B : Type -> Type} {TR : Trees Bitmap B}.
  Implicit Types (trees : TxHashSet B).
  #[local] Abbreviation last_n T E p n := (get_last_n_insertions (Bitmap := Bitmap) (Hash := bytes) (T := T) (E := E) p n).
  #[local] Abbreviation from_index T E p i n m := (elements_from_pmmr_index (Bitmap := Bitmap) (Hash := bytes) (T := T) (E := E) p i n m).

Definition last_n_output trees (distance : Z) : list (bytes * OutputIdentifier) :=
  last_n Output OutputIdentifier (output_pmmr_h trees) distance.
Definition last_n_token_output trees (distance : Z) : list (bytes * TokenOutputIdentifier) :=
  last_n TokenOutput TokenOutputIdentifier (token_output_pmmr_h trees) distance.
Definition last_n_rangeproof trees (distance : Z) : list (bytes * RangeProof) :=
  last_n RangeProof RangeProof (rproof_pmmr_h trees) distance.
Definition last_n_token_rangeproof trees (distance : Z) : list (bytes * RangeProof) :=
  last_n RangeProof RangeProof (token_rproof_pmmr_h trees) distance.
Definition last_n_kernel trees (distance : Z) : list (bytes * TxKernel) :=
  last_n TxKernel TxKernel (kernel_pmmr_h trees) distance.
Definition last_n_token_issue_proof trees (distance : Z) : list (bytes * TokenIssueProof) :=
  last_n TokenIssueProof TokenIssueProof (token_issue_proof_pmmr_h trees) distance.

Definition outputs_by_pmmr_index trees (start_index max_count : Z) (max_index : option Z) : Z * list OutputIdentifier :=
  from_index Output OutputIdentifier (output_pmmr_h trees) start_index max_count max_index.
Definition token_outputs_by_pmmr_index trees (start_index max_count : Z) (max_index : option Z) : Z * list TokenOutputIdentifier :=
  from_index TokenOutput TokenOutputIdentifier (token_output_pmmr_h trees) start_index max_count max_index.
Definition rangeproofs_by_pmmr_index trees (start_index max_count : Z) (max_index : option Z) : Z * list RangeProof :=
  from_index RangeProof RangeProof (rproof_pmmr_h trees) start_index max_count max_index.
Definition token_rangeproofs_by_pmmr_index trees (start_index max_count : Z) (max_index : option Z) : Z * list RangeProof :=
  from_index RangeProof RangeProof (token_rproof_pmmr_h trees) start_index max_count max_index.
Definition highest_output_insertion_index trees : Z := last_pos (output_pmmr_h trees).
Definition highest_token_output_insertion_index trees : Z := last_pos (token_output_pmmr_h trees).
End Listing.

(** ** An empty hash set *)

Section Empty.
  Context {Bitmap : Type} {BR : CRoaring Bitmap} {BL : CRoaringLaws Bitmap} {DG : Digest} {DS : DigestSize}
    {SS : SecpSizes} {SM : SmallSizes} {SP : Secp} {SV : SecpVerify} (ct : ChainTypes).
  #[local] Existing Instance file_tree.

Definition no_files : TreeDir := mkTreeDir empty_dir (fun _ => None).
Definition no_set : SetDir := mkSetDir no_files no_files no_files no_files no_files no_files no_files.
Definition empty_elems {T} : FileState T := mkState [] 0 [].
Definition empty_state : SetState :=
  mkSetState empty_store empty_store empty_elems empty_store empty_store empty_elems empty_elems.

Lemma none_held : only_leaves (ls_bitmap (ls_open (Bitmap := Bitmap) None)).
Proof. intros x Hx. cbn in Hx. rewrite bm_create_iter in Hx. set_solver. Qed.

Section Handle.
  Context {T Elt : Type} `{!PMMRable bytes T Elt} `{!Readable Elt} `{!Writeable Elt} {v : Z} {sz : option Z} {hdom : bytes -> Prop}
    {edom : Elt -> Prop} {tdom : T -> Prop} {HC : ElmtCodec bytes v (Some 32) hdom} {EC : ElmtCodec Elt v sz edom}
    {SE : StoreElements bytes T Elt hdom edom tdom}.

Lemma open_prunable : (forall n, sz = Some n -> 0 < n < 2 ^ 16) ->
  exists p, handle_new ct Elt sz no_files true v None = Ok p /\
    prunable_rep (T := T) (Bitmap := Bitmap) (v := v) (sz := sz) (hdom := hdom) (edom := edom) (tdom := tdom) p empty_store /\ last_pos p = 0.
Proof.
  intros Hn. destruct (new_inv (Bitmap := Bitmap) (T := T) (v := v) (sz := sz) (hdom := hdom) (edom := edom) (tdom := tdom) Hn)
    as (b & E & Hi & Hs & Hl).
  exists (mkPMMR 0 b). unfold handle_new. cbn [dir_files no_files fmap option_fmap option_map]. rewrite E. cbn [set_err map_err res_bind].
  rewrite Hs. cbn [map_err res_bind]. split; [done|]. split; [|done]. split; [exists [], []; exact Hi|].
  unfold leaves_held. cbn [backend]. rewrite Hl. split; apply none_held.
Qed.

Lemma open_append : (forall n, sz = Some n -> 0 < n < 2 ^ 16) ->
  exists p, handle_new ct Elt sz no_files false v None = Ok p /\
    append_rep (T := T) (Bitmap := Bitmap) (v := v) (sz := sz) (hdom := hdom) (edom := edom) (tdom := tdom) p empty_elems /\ last_pos p = 0.
Proof.
  intros Hn. destruct (new_inv (Bitmap := Bitmap) (T := T) (v := v) (sz := sz) (hdom := hdom) (edom := edom) (tdom := tdom) Hn)
    as (b & E & Hi & Hs & _).
  exists (mkPMMR 0 (mkBackend false (hash_data b) (elmt_data b) (leaf_set b) (prune_list b))).
  assert (Hp : prunable b = true) by apply (inv_prunable _ _ _ _ Hi).
  unfold handle_new. cbn [dir_files no_files fmap option_fmap option_map]. unfold fb_new in E |- *.
  repeat match goal with
  | H : res_bind ?c _ = Ok _ |- _ => destruct c; cbn [res_bind] in H |- *; [|discriminate..]
  end.
  injection E as <-. cbn [set_err map_err res_bind hash_data elmt_data leaf_set prune_list]. cbn [fb_unpruned_size hash_data prune_list] in Hs.
  unfold fb_unpruned_size in Hs |- *. cbn [hash_data prune_list] in Hs |- *. rewrite Hs. cbn [map_err res_bind]. split; [done|].
  split; [|done]. split; [done|]. eexists _, [], []. apply inv_unsettled in Hi. exact Hi.
Qed.
End Handle.

#[local] Abbreviation trees_of := (chain_trees (Bitmap := Bitmap) ct).
#[local] Abbreviation set_inv := (ext_inv (TR := trees_of) (Bitmap := Bitmap) (B := fun _ => PMMRBackend Bitmap)).

Lemma size_ok (sz : option Z) : (forall n, sz = Some n -> 0 < n /\ n < 65536) -> forall n, sz = Some n -> 0 < n < 2 ^ 16.
Proof. done. Qed.
#[local] Ltac size_ok := apply size_ok; intros n [= <-]; pose proof small_sizes; lia.

(** A pair of empty trees with an empty index *)
Lemma empty_pair {B : Type -> Type} {TR : Trees Bitmap B} {T E} `{!EqDecision E} `{!PMMRable bytes T E} `{!TreeStore Bitmap T E (B T)}
    `{!PrunableTree Bitmap T E (B T)} `{!PrunableTree Bitmap RangeProof RangeProof (B RangeProof)}
    (out_commit : T -> Commitment) (out_proof : T -> RangeProof) (p : PMMR (B T)) (q : PMMR (B RangeProof)) :
  tree_rep p empty_store -> tree_rep q empty_store ->
  outs_inv out_commit out_proof p q ∅ empty_store empty_store.
Proof. intros Hp Hq. constructor; done. Qed.

Lemma open_no_set :
  exists trees, set_open ct no_set None = Ok trees /\
    forall head, set_inv (extension_new trees head) (batch empty_db) empty_state.
Proof.
  destruct (open_prunable (EC := output_id_codec 1) (SE := output_elements)) as (o & Eo & Ho & Lo); [size_ok|].
  destruct (open_prunable (EC := proof_codec 1) (SE := rproof_elements)) as (r & Er & Hr & _); [size_ok|].
  destruct (open_prunable (EC := token_output_id_codec 1) (SE := token_output_elements)) as (t & Et & Ht & _); [size_ok|].
  destruct (open_append (EC := issue_proof_codec 1) (SE := issue_elements)) as (i & Ei & Hi & _); [size_ok|].
  destruct (open_append (EC := token_kernel_codec 1) (SE := token_kernel_elements)) as (tk & Etk & Htk & _); [done|].
  destruct (open_append (EC := kernel_codec 2) (SE := kernel_elements)) as (k & Ek & Hk & Lk); [done|].
  destruct (rep_leaf_idx (PrunableTree := output_tree) o empty_store 0 Ho ltac:(lia)) as (idx & Eidx & Hs & Hidx).
  destruct idx as [|x idx]; [|exfalso; specialize (Hidx x); cbn in Hidx; set_solver].
  destruct (acc_init_of (Bitmap := Bitmap) (Hash := bytes) [] 0) as (acc & Eacc & Hacc); [split; constructor|].
  assert (Hopen : set_open ct no_set None = Ok (mkTxHashSet o r k t r i tk acc)).
  { unfold set_open, no_set. cbn [OUTPUT_SUBDIR RANGE_PROOF_SUBDIR TOKEN_OUTPUT_SUBDIR TOKEN_RANGE_PROOF_SUBDIR TOKEN_ISSUE_PROOF_SUBDIR KERNEL_SUBDIR TOKEN_KERNEL_SUBDIR].
    rewrite Eo, Er, Et, Ei, Etk. cbn [res_bind]. unfold build_accumulator. rewrite Lo. cbn [open_kernels].
    rewrite Ek. cbn [res_bind]. rewrite Lk. cbn [Z.eqb res_bind]. change (n_leaves 0) with 0. change (leaf_idx_iter (backend o) 0) with (fb_leaf_idx_iter (backend o) 0) in Eidx.
    change (leaf_idx_iter (TreeStore := output_trees (Trees := trees_of)) (backend o) 0) with (fb_leaf_idx_iter (backend o) 0). rewrite Eidx. cbn [set_err map_err res_bind].
    rewrite Eacc. done. }
  exists (mkTxHashSet o r k t r i tk acc). split; [exact Hopen|]. intros head. split; [constructor|].
  - apply empty_pair; assumption.
  - apply empty_pair; assumption.
  - split; [exact Hi|]. done.
  - exact Hk.
  - exact Htk.
  - exists []. split; [split; constructor|]. split; [|exact Hacc]. intros x. set_solver.
Qed.

(** Opening the hash set in a directory without files succeeds, the kernels in the second version, and gives an
    extension of the empty ledger, whose trees, indices and accumulator agree. *)
Theorem new_set_is_the_empty_ledger :
  exists trees, set_open ct no_set None = Ok trees /\
    forall head, set_inv (extension_new trees head) (batch empty_db) empty_state /\
      ledger (batch empty_db) empty_state = mkLedger ∅ ∅ [] 0 0.
Proof. destruct open_no_set as (trees & E & Hi). exists trees. done. Qed.
End Empty.
