(* ===== verification/SetExamples.v ===== *)
(** * Two blocks on an empty hash set

    The theorems on the hash set at concrete inputs: a hash set opened without files, a first block with one output,
    a second one that spends it and issues a token, the units of work that apply them, and the way back. *)

From Stdlib Require Import ZArith Lia List Bool Sorted.
From stdpp Require Import base numbers list option gmap.
From S2P Require Import Prelude MmrIndex Pmmr PmmrTheorems Bytes Consensus Ser Bitmap PruneList DataFile FileBackend StoreTheorems PowTypes Transaction TxBody Committed Verifier Aggregate Block ChainTypes BitmapAccumulator ChainStore TxHashSet TreeLaws FileTrees TreeElements TxHashSetTheorems ViewTheorems RewindTheorems UnitTheorems OpenSet.

(** A digest of 32 bytes: the number modulo a prime *)
Definition mod_digest : Digest :=
  {| blake2b b := be_bytes 32 (be_val b mod (2 ^ 255 - 19)); sha256 b := be_bytes 32 (be_val b mod (2 ^ 255 - 19)) |}.

#[local] Existing Instance mod_digest.
#[local] Existing Instance demo_sizes.
#[local] Existing Instance demo_secp.
#[local] Existing Instance demo_verify.

Lemma mod_size : DigestSize.
Proof. intros b. apply length_be_bytes. Defined.
Lemma demo_small : SmallSizes.
Proof. reflexivity. Defined.
#[local] Existing Instance mod_size.
#[local] Existing Instance demo_small.

Definition demo_output (f : OutputFeatures) (n : Z) : Output := mkOutput f (demo_commit n) (mkRangeProof (replicate 675 9) 675).
Definition demo_token : TokenKey := mkTokenKey (replicate 32 5).
Definition issuing_output : TokenOutput :=
  mkTokenOutput OTokenIssue demo_token (demo_commit 4) (mkRangeProof (replicate 675 9) 675).

(** Headers with the sizes of the trees; the proof of work makes their hashes differ. *)
Definition demo_header (height : Z) (prev : bytes) (outs kernels tokens issues : Z) (tag : Z) : BlockHeader :=
  mkHeader 1 height prev ZERO_HASH_BYTES 1000 ZERO_HASH_BYTES ZERO_HASH_BYTES ZERO_HASH_BYTES
    blind_zero outs kernels 0 ZERO_HASH_BYTES ZERO_HASH_BYTES ZERO_HASH_BYTES ZERO_HASH_BYTES tokens issues 0
    (mkPow difficulty_min 1 0 (mkPowProof 29 (replicate proofsize tag))) aux_data_default.
Definition header_1 : BlockHeader := demo_header 1 ZERO_HASH_BYTES 1 1 0 0 1.
Definition header_2 : BlockHeader := demo_header 2 (header_hash Mainnet header_1) 3 3 1 1 2.
Definition block_1 : Block :=
  mkBlock header_1 aux_data_default (mkBody [] [] [demo_output OCoinbase 2] [] [demo_kernel] []).
Definition block_2 : Block :=
  mkBlock header_2 aux_data_default
    (mkBody [mkInput OCoinbase (demo_commit 2)] [] [demo_output OPlain 3] [issuing_output] [demo_kernel] []).

#[local] Abbreviation trees_of := (chain_trees (Bitmap := gset Z) Mainnet).
#[local] Abbreviation set_inv := (ext_inv (TR := trees_of) (Bitmap := gset Z) (B := fun _ => PMMRBackend (gset Z))).
#[local] Abbreviation fits_set := (block_fits (TR := trees_of) (Bitmap := gset Z) (B := fun _ => PMMRBackend (gset Z))).

Lemma block_1_fits : fits_set block_1 empty_state.
Proof. split; cbn; repeat (constructor || split); try done; vm_compute; try congruence. Qed.

(** ** The first block *)

Definition ledger_1 : LedgerState :=
  mkLedger {[ demo_commit 2 := mkEntry (mkOutputId OCoinbase (demo_commit 2)) 0 1 ]} ∅ [] 1 0.
Definition spent_1 : Spent := mkSpent [] [].
Definition state_1 : SetState := written (Bitmap := gset Z) (block_state (Bitmap := gset Z) block_1 spent_1 empty_state).

Lemma ledger_accepts_1 : ledger_block block_1 (ledger (batch empty_db) empty_state) = Some (spent_1, ledger_1).
Proof. vm_compute. reflexivity. Defined.

Lemma keeps_1 : exists o, o ∈ outputs (block_body block_1) /\ output_commit o ∉ map input_commit (inputs (block_body block_1)).
Proof. exists (demo_output OCoinbase 2). split; [constructor|apply not_elem_of_nil]. Defined.

Lemma apply_block_refines_ledger_witness :
  exists trees, set_open Mainnet no_set None = Ok trees /\
  exists e' b', apply_block (Bitmap := gset Z) (TR := trees_of) Mainnet (extension_new trees tip_default) (batch empty_db) block_1 = Ok (e', b') /\
    ledger b' (block_state (Bitmap := gset Z) block_1 spent_1 empty_state) = ledger_1.
Proof.
  destruct (open_no_set (Bitmap := gset Z) Mainnet) as (trees & Eo & Hi). exists trees. split; [exact Eo|].
  pose proof (apply_block_refines_ledger (TR := trees_of) (Bitmap := gset Z) (B := fun _ => PMMRBackend (gset Z)) Mainnet
    (extension_new trees tip_default) (batch empty_db) empty_state block_1 (Hi tip_default) block_1_fits keeps_1) as H.
  rewrite ledger_accepts_1 in H. destruct H as (e' & b' & E & _ & L). exists e', b'. split; [exact E|exact L].
Defined.

(** ** Applied in a unit of work, above a genesis header *)

Definition header_0 : BlockHeader := demo_header 0 ZERO_HASH_BYTES 0 0 0 0 3.
#[local] Instance demo_header_pmmrable : PMMRable bytes BlockHeader HeaderEntry := header_pmmrable Mainnet.
#[local] Instance demo_header_store : TreeStore (gset Z) BlockHeader HeaderEntry (PMMRBackend (gset Z)) := file_tree.
Definition no_backend : PMMRBackend (gset Z) :=
  mkBackend false (mkAof [] (FixedSize 1) 0 None [] 0 0) (mkAof [] (FixedSize 1) 0 None [] 0 0) (ls_open None) (pl_new None bm_create).
Definition demo_headers : PMMR (PMMRBackend (gset Z)) :=
  match
    (let? q := handle_new (Bitmap := gset Z) Mainnet HeaderEntry header_elmt_size no_files false 1 None in
     let? '(_, q) := set_err (push (Bitmap := gset Z) q header_0) in
     synced_tree (B := fun _ => PMMRBackend (gset Z)) q) with
  | Ok q => q
  | _ => mkPMMR 0 no_backend
  end.
Definition demo_batch : Batch :=
  batch (mkDb (Some (tip_from_header Mainnet header_0)) None {[ header_hash Mainnet header_0 := header_0 ]} ∅ ∅ ∅ ∅ ∅ ∅ ∅ ∅ ∅ ∅).
Lemma demo_tip : header_tip (TR := trees_of) (B := fun _ => PMMRBackend (gset Z)) Mainnet demo_headers demo_batch = Ok (tip_from_header Mainnet header_0).
Proof. vm_compute. reflexivity. Defined.

Lemma demo_accepts_1 : ledger_block block_1 (ledger (child demo_batch) empty_state) = Some (spent_1, ledger_1).
Proof. vm_compute. reflexivity. Defined.

(** The block in a unit of work, and a work that applies it twice and fails half way *)
Definition apply_1 (pair : ExtensionPair (fun _ => PMMRBackend (gset Z))) (b : Batch) :=
  let? '(e, b) := inside (mkPair (header_extension pair))
    (apply_block (Bitmap := gset Z) (TR := trees_of) Mainnet (extension pair) b block_1) in
  Ok (tt, mkPair (header_extension pair) e, b).
Definition apply_twice (pair : ExtensionPair (fun _ => PMMRBackend (gset Z))) (b : Batch) :=
  let? '(_, half, b) := apply_1 pair b in apply_1 half b.

Lemma demo_indices : same_indices (batch empty_db) demo_batch /\ same_indices (batch empty_db) (child demo_batch).
Proof. split; split; try split; reflexivity. Qed.
Lemma empty_at_rest : at_rest (Bitmap := gset Z) empty_state.
Proof. reflexivity. Qed.

(** The first block on the empty set *)
Lemma empty_inv trees : (forall head, set_inv (extension_new trees head) (batch empty_db) empty_state) ->
  forall head b, same_indices (batch empty_db) b -> set_inv (extension_new trees head) b empty_state.
Proof. intros Hi head b Hs. eapply ext_inv_index; [exact Hs|apply Hi]. Qed.
Lemma step_1 trees head : (forall head, set_inv (extension_new trees head) (batch empty_db) empty_state) ->
  exists e' b',
    apply_block (Bitmap := gset Z) (TR := trees_of) Mainnet (extension_new trees head) (child demo_batch) block_1 = Ok (e', b') /\
    set_inv e' b' (block_state (Bitmap := gset Z) block_1 spent_1 empty_state) /\ rollback e' = false /\
    ledger b' (block_state (Bitmap := gset Z) block_1 spent_1 empty_state) = ledger_1.
Proof.
  intros Hi. pose proof (apply_block_spec (TR := trees_of) (Bitmap := gset Z) (B := fun _ => PMMRBackend (gset Z)) Mainnet
    (extension_new trees head) (child demo_batch) empty_state block_1 (empty_inv trees Hi head (child demo_batch) (proj2 demo_indices)) block_1_fits keeps_1) as H.
  rewrite demo_accepts_1 in H. destruct H as (e' & b' & E & (I & _ & R & _) & L). exists e', b'. done.
Qed.
Lemma refused_twice : ledger_block block_1 ledger_1 = None.
Proof. vm_compute. reflexivity. Qed.
Lemma twice_fits : fits_set block_1 (block_state (Bitmap := gset Z) block_1 spent_1 empty_state).
Proof. split; cbn; repeat (constructor || split); try done; vm_compute; try congruence. Qed.

Lemma apply_1_behaved trees : (forall head, set_inv (extension_new trees head) (batch empty_db) empty_state) ->
  well_behaved (TR := trees_of) (Bitmap := gset Z) (B := fun _ => PMMRBackend (gset Z)) apply_1 (fun _ c => cn_ledger c = ledger_1) trees demo_batch empty_state.
Proof.
  intros Hi pair head Epair. unfold apply_1. rewrite Epair. destruct (step_1 trees head Hi) as (e' & b' & -> & I & _ & L).
  eexists. split; [exact I|]. split; [apply block_discard|exact L].
Qed.
Lemma apply_twice_behaved trees : (forall head, set_inv (extension_new trees head) (batch empty_db) empty_state) ->
  well_behaved (TR := trees_of) (Bitmap := gset Z) (B := fun _ => PMMRBackend (gset Z)) apply_twice (fun _ _ => False) trees demo_batch empty_state.
Proof.
  intros Hi pair head Epair. unfold apply_twice, apply_1. rewrite Epair. destruct (step_1 trees head Hi) as (e' & b' & -> & I & _ & L).
  cbn [inside map_err res_bind extension header_extension].
  pose proof (apply_block_spec (TR := trees_of) (Bitmap := gset Z) (B := fun _ => PMMRBackend (gset Z)) Mainnet e' b' _ block_1 I twice_fits keeps_1) as H.
  rewrite L, refused_twice in H. destruct H as (err & e2 & -> & Hl). cbn [inside map_err res_bind extension].
  eapply left_by_trans; [exact Hl|apply block_discard].
Qed.

(** The unit of the failing work, computed: its error, and the size of the outputs it left before they were discarded *)
Definition duplicate : ErrorKind := CDuplicateCommitment (demo_commit 2).
Lemma extending_twice :
  match set_open Mainnet no_set None with
  | Ok trees =>
    let '(r, _, _, _) := extending (TR := trees_of) Mainnet apply_twice demo_headers trees demo_batch in
    r = Err duplicate /\
    match apply_twice (mkPair (header_extension_new demo_headers (tip_from_header Mainnet header_0))
                         (extension_new trees (tip_from_header Mainnet header_0))) (child demo_batch) with
    | Err (x, half) => x = duplicate /\ last_pos (output_pmmr (extension half)) = 1
    | _ => False
    end
  | _ => False
  end.
Proof. vm_compute. split; [reflexivity|split; reflexivity]. Qed.

(** A unit that commits the first block, and one that fails after it and leaves the set as it was *)
Lemma units_are_atomic_witness :
  exists trees, set_open Mainnet no_set None = Ok trees /\
  (exists trees' h' b2 s',
    extending (TR := trees_of) Mainnet apply_1 demo_headers trees demo_batch = (Ok tt, h', trees', b2) /\
    (forall head, set_inv (extension_new trees' head) b2 s') /\ ledger b2 s' = ledger_1) /\
  (exists trees' h',
    extending (TR := trees_of) Mainnet apply_twice demo_headers trees demo_batch = (Err duplicate, h', trees', demo_batch) /\
    (forall head, set_inv (extension_new trees' head) demo_batch empty_state)).
Proof.
  destruct (open_no_set (Bitmap := gset Z) Mainnet) as (trees & Eo & Hi). exists trees. split; [exact Eo|]. split.
  - destruct (extending (TR := trees_of) Mainnet apply_1 demo_headers trees demo_batch) as [[[r h'] trees'] b2] eqn:Ex.
    pose proof (units_are_atomic (TR := trees_of) (Bitmap := gset Z) (B := fun _ => PMMRBackend (gset Z)) Mainnet apply_1
      (fun _ c => cn_ledger c = ledger_1) demo_headers trees demo_batch empty_state empty_at_rest
      (fun head => empty_inv trees Hi head demo_batch (proj1 demo_indices)) (apply_1_behaved trees Hi)) as H.
    rewrite Ex in H. assert (Hr : r = Ok tt).
    { revert Ex. unfold extending. rewrite demo_tip. cbn [from_store map_err res_bind head demo_batch batch content db_head option_to_not_found ok_or].
      destruct (step_1 trees (tip_from_header Mainnet header_0) Hi) as (e' & b' & E & I & R & _). unfold apply_1 at 1. cbn [extension]. rewrite E.
      cbn [inside map_err res_bind extension]. rewrite R. destruct (sync_trees_inv _ _ _ I) as (t & -> & _). intros [= <- _ _ _]. done. }
    subst r. destruct H as (pair & head & pair' & b' & Epair & Ep & H).
    unfold apply_1 in Ep. rewrite Epair in Ep. destruct (step_1 trees head Hi) as (e' & b'' & E & _ & R & _). rewrite E in Ep.
    injection Ep as <- <-. cbn [extension] in H. rewrite R in H. destruct H as (_ & _ & s' & _ & L & I).
    exists trees', h', b2, s'. split; [reflexivity|]. split; [exact I|exact L].
  - destruct (extending (TR := trees_of) Mainnet apply_twice demo_headers trees demo_batch) as [[[r h'] trees'] b2] eqn:Ex.
    pose proof (units_are_atomic (TR := trees_of) (Bitmap := gset Z) (B := fun _ => PMMRBackend (gset Z)) Mainnet apply_twice
      (fun _ _ => False) demo_headers trees demo_batch empty_state empty_at_rest
      (fun head => empty_inv trees Hi head demo_batch (proj1 demo_indices)) (apply_twice_behaved trees Hi)) as H.
    rewrite Ex in H. pose proof extending_twice as Ht. rewrite Eo, Ex in Ht. destruct Ht as [-> _]. destruct H as (-> & I & _).
    exists trees', h'. split; [reflexivity|exact I].
Defined.

(** ** The view after the first block *)

Lemma ledger_1_valid : ledger_valid ledger_1 (block_body block_2).
Proof.
  unfold ledger_valid. cbn [block_body block_2 outputs inputs token_outputs token_inputs]. rewrite !Forall_cons, !Forall_nil.
  repeat split; try (vm_compute; reflexivity). intros _. apply not_elem_of_nil.
Qed.
Lemma view_validates_the_ledger_witness : exists trees e b,
  set_open Mainnet no_set None = Ok trees /\
  apply_block (Bitmap := gset Z) (TR := trees_of) Mainnet (extension_new trees tip_default) (batch empty_db) block_1 = Ok (e, b) /\
  validate_body (TR := trees_of) (Bitmap := gset Z) (utxo_view e (header_extension_new demo_headers tip_default)) b (block_body block_2) = Ok tt.
Proof.
  destruct (open_no_set (Bitmap := gset Z) Mainnet) as (trees & Eo & Hi).
  pose proof (apply_block_spec (TR := trees_of) (Bitmap := gset Z) (B := fun _ => PMMRBackend (gset Z)) Mainnet
    (extension_new trees tip_default) (batch empty_db) empty_state block_1 (Hi tip_default) block_1_fits keeps_1) as H.
  rewrite ledger_accepts_1 in H. destruct H as (e & b & E & (I & _) & L). exists trees, e, b. split; [exact Eo|]. split; [exact E|].
  apply (view_validates_the_ledger (TR := trees_of) (Bitmap := gset Z) (B := fun _ => PMMRBackend (gset Z)) e
    (header_extension_new demo_headers tip_default) b _ (block_body block_2) (inv_trees _ _ _ I)).
  rewrite L. exact ledger_1_valid.
Defined.

(** ** The second block, and back *)

Definition ledger_2 : LedgerState :=
  mkLedger {[ demo_commit 3 := mkEntry (mkOutputId OPlain (demo_commit 3)) 1 2 ]}
    {[ demo_commit 4 := mkEntry (mkTokenOutputId OTokenIssue demo_token (demo_commit 4)) 0 2 ]} [demo_token] 2 1.
Definition spent_2 : Spent := mkSpent [mkEntry (mkOutputId OCoinbase (demo_commit 2)) 0 1] [].

Lemma ledger_accepts_2 : ledger_block block_2 ledger_1 = Some (spent_2, ledger_2).
Proof. vm_compute. reflexivity. Defined.
Lemma keeps_2 : exists o, o ∈ outputs (block_body block_2) /\ output_commit o ∉ map input_commit (inputs (block_body block_2)).
Proof. exists (demo_output OPlain 3). split; [constructor|]. apply (bool_decide_unpack (demo_commit 3 ∉ [demo_commit 2])). vm_compute. exact I. Defined.
Lemma block_2_fits : fits_set block_2 state_1.
Proof. split; cbn; repeat (constructor || split); try done; vm_compute; try congruence. Qed.
Lemma other_hash : header_hash Mainnet header_1 <> header_hash Mainnet header_2.
Proof. apply (bool_decide_unpack (header_hash Mainnet header_1 <> header_hash Mainnet header_2)). vm_compute. exact I. Qed.

(** The blocks in the store *)
Definition with_chain (b : Batch) : Batch :=
  update b (fun d => set_blocks (set_headers d (<[header_hash Mainnet header_2 := header_2]> {[header_hash Mainnet header_1 := header_1]}))
    {[header_hash Mainnet header_2 := block_2]}).

Lemma header_1_stored b : db_headers (content (with_chain b)) !! header_hash Mainnet header_1 = Some header_1.
Proof.
  cbn -[header_hash header_1 header_2]. rewrite lookup_insert_ne by (intros E; symmetry in E; exact (other_hash E)).
  apply lookup_singleton_eq.
Qed.

Lemma rewind_restores_the_ledger_witness :
  exists trees b e' b' s', set_inv (extension_new trees (tip_from_header Mainnet header_2)) b s' /\
    cn_ledger (contents b s') = ledger_2 /\
    ext_rewind (Bitmap := gset Z) (TR := trees_of) Mainnet (extension_new trees (tip_from_header Mainnet header_2)) b header_1 = Ok (e', b') /\
    exists s, set_inv e' b' s /\ cn_ledger (contents b' s) = ledger_1.
Proof.
  destruct (open_no_set (Bitmap := gset Z) Mainnet) as (trees & Eo & Hi).
  pose proof (apply_block_spec (TR := trees_of) (Bitmap := gset Z) (B := fun _ => PMMRBackend (gset Z)) Mainnet
    (extension_new trees tip_default) (batch empty_db) empty_state block_1 (Hi tip_default) block_1_fits keeps_1) as H1.
  rewrite ledger_accepts_1 in H1. destruct H1 as (e1 & b1 & E1 & (I1 & _) & L1).
  destruct (sync_trees_inv _ _ _ I1) as (trees1 & _ & J1). fold state_1 in J1.
  set (c0 := contents b1 state_1). assert (C0 : cn_ledger c0 = ledger_1) by (rewrite <- L1; unfold c0, state_1; rewrite contents_written; done).
  pose proof (apply_block_spec (TR := trees_of) (Bitmap := gset Z) (B := fun _ => PMMRBackend (gset Z)) Mainnet
    (extension_new trees1 (tip_from_header Mainnet header_1)) b1 state_1 block_2 (J1 _) block_2_fits keeps_2) as H2.
  change (ledger b1 state_1) with (cn_ledger c0) in H2. rewrite C0, ledger_accepts_2 in H2. destruct H2 as (e2 & b2 & E2 & (I2 & _ & _ & S2 & T2 & _) & L2).
  destruct (sync_trees_inv _ _ _ I2) as (trees2 & _ & J2).
  set (s2 := written (Bitmap := gset Z) (block_state (Bitmap := gset Z) block_2 spent_2 state_1)) in *.
  set (b3 := with_chain b2). assert (J3 : forall head, set_inv (extension_new trees2 head) b3 s2) by (intros head; eapply ext_inv_index; [|apply J2]; done).
  assert (C3 : contents b3 s2 = block_contents block_2 spent_2 c0 ledger_2).
  { transitivity (contents b2 s2); [apply contents_index; split; [|split]; reflexivity|]. unfold s2. rewrite contents_written.
    exact (block_state_contents (Bitmap := gset Z) b1 b2 state_1 block_2 spent_2 ledger_2 L2). }
  assert (Hab : block_above Mainnet (content b3) c0 block_2 spent_2 ledger_2 header_1).
  { constructor.
    - rewrite C0. exact ledger_accepts_2.
    - split; intros k Hk; cbn in Hk |- *; [|apply elem_of_nil in Hk; done]. apply list_elem_of_singleton in Hk. subst k.
      apply (bool_decide_unpack (demo_commit 2 ∉ [demo_commit 3])). vm_compute. exact I.
    - change (db_spent (content b3)) with (db_spent (content b2)). rewrite S2. apply lookup_insert_eq.
    - change (db_token_spent (content b3)) with (db_token_spent (content b2)). rewrite T2. apply lookup_insert_eq.
    - apply lookup_singleton_eq.
    - apply header_1_stored.
    - assert (Ec : c0 = block_contents block_1 spent_1 (contents (batch empty_db) empty_state) ledger_1).
      { unfold c0, state_1. rewrite contents_written. exact (block_state_contents (Bitmap := gset Z) (batch empty_db) b1 _ block_1 spent_1 ledger_1 L1). }
      rewrite Ec. repeat split.
    - split; [reflexivity|discriminate]. }
  assert (Hun : (0 : Z) ∈ cn_unspent c0) by (apply (bool_decide_unpack ((0 : Z) ∈ unspent (st_outputs state_1))); vm_compute; exact I).
  pose proof (rewind_restores_the_ledger (TR := trees_of) (Bitmap := gset Z) (B := fun _ => PMMRBackend (gset Z)) Mainnet
    (extension_new trees2 (tip_from_header Mainnet header_2)) b3 s2 header_2 c0 header_1 (affected_positions c0 spent_2 ++ [])) as H.
  destruct H as (e' & b' & s' & E & I' & K & _).
  - apply J3.
  - apply written_synced.
  - rewrite C3. apply undo_block with (prev := header_1); [|exact Hab|apply undo_none].
    eapply contents_well_formed. apply (J1 tip_default).
  - intros Hn. apply (f_equal length) in Hn. vm_compute in Hn. discriminate.
  - assert (Hp : set_Forall (fun _ => False) (∅ : gset Z)) by (apply set_Forall_empty). 
    repeat split; intros; exfalso; apply (Hp i); assumption.
  - exists 0. split; [exact Hun|]. assert (Hl : length (cn_outputs c0) = 1%nat) by reflexivity. rewrite Hl. vm_compute. discriminate.
  - unfold get_block_header, option_to_not_found, ok_or. cbn [ext_head extension_new tip_from_header last_block_h].
    cbn -[header_hash header_1 header_2]. rewrite lookup_insert_eq. reflexivity.
  - exists trees2, b3, e', b', s2. split; [apply J3|]. split; [rewrite C3; reflexivity|]. split; [exact E|].
    exists s'. split; [exact I'|]. rewrite K. exact C0.
Defined.

Lemma new_set_is_the_empty_ledger_witness :
  exists trees, set_open (Bitmap := gset Z) Mainnet no_set None = Ok trees /\
    ledger (batch empty_db) empty_state = mkLedger ∅ ∅ [] 0 0 /\ last_pos (kernel_pmmr_h trees) = 0.
Proof.
  destruct (new_set_is_the_empty_ledger (Bitmap := gset Z) Mainnet) as (trees & E & H).
  destruct (H tip_default) as [Hi L]. exists trees. split; [exact E|]. split; [exact L|].
  exact (list_size _ _ (inv_kernels _ _ _ Hi)).
Defined.
