(* ===== verification/Pipe.v ===== *)
(** * The block processing pipeline

    Models [chain/src/pipe.rs]: the checks of a header, the header tree, the units of
    work that apply a block or a fork of blocks to the transaction hash set, and the
    choice of the head.

    A computation passes the [BlockContext] along and returns it also when it fails: what was
    written to the files of the header tree before an error stays there. *)

From Stdlib Require Import ZArith Lia List Bool.
From stdpp Require Import base numbers list option gmap.
From S2P Require Import Prelude MmrIndex Pmmr Bytes Compact Consensus Ser Bitmap PowTypes Transaction TxBody Committed Verifier Aggregate Block Pool ChainTypes BitmapAccumulator ChainStore TxHashSet.

(** ** Merge mining *)

(** [util::to_hex]: a string is the list of the values of its digits *)
Definition to_hex (l : bytes) : list Z := concat (map (fun x => [x / 16; x mod 16]) l).

(** [str::contains] *)
Fixpoint starts_with (s t : list Z) : bool :=
  match t, s with
  | [], _ => true
  | _, [] => false
  | y :: t, x :: s => (x =? y) && starts_with s t
  end.
Fixpoint contains (s t : list Z) : bool :=
  starts_with s t || match s with [] => false | _ :: s => contains s t end.

(** [get_grin_magic_data_str]: OP_RETURN, the length 36, the magic number and the hash *)
Definition get_grin_magic_data_str (header_hash : bytes) : list Z :=
  to_hex [0x6a; 0x24] ++ [0xb; 0x9; 0xe; 0x1; 0x1; 0xb; 0x6; 0xd] ++ to_hex header_hash.

(** [Hash::dhash_with] *)
Definition dhash_with {DG : Digest} (h other : bytes) : bytes := sha256 (sha256 (write_fixed_bytes h ++ write_fixed_bytes other)).

Section Pipe.
  Context {DG : Digest} (ct : ChainTypes) {SS : SecpSizes} {SP : Secp} {SV : SecpVerify} {L : Type} `{!LruCache L}
    {Bitmap : Type} {BR : CRoaring Bitmap} {B : Type -> Type} {TR : Trees Bitmap B}.
  #[local] Abbreviation tree T := (PMMR (B T)).

(** [BlockContext] *)
Record BlockContext := mkCtx {
  opts : Z;
  pow_verifier : BlockHeader -> bool;
  txhashset : TxHashSet B;
  header_pmmr : tree BlockHeader;
  ctx_batch : Batch;
  verifier_cache : LruVerifierCache L
}.
Implicit Types (ctx : BlockContext) (b : Batch) (header : BlockHeader).
#[local] Abbreviation M := (vm BlockContext ErrorKind).

Definition with_batch ctx b : BlockContext :=
  mkCtx (opts ctx) (pow_verifier ctx) (txhashset ctx) (header_pmmr ctx) b (verifier_cache ctx).
Definition reading {A} (f : BlockContext -> res ErrorKind A) : M A := fun ctx => (f ctx, ctx).
Definition on_batch (f : Batch -> Batch) : M unit := fun ctx => (Ok tt, with_batch ctx (f (ctx_batch ctx))).

(** ** Checks of a header *)

(** [prev_header_store] *)
Definition prev_header_store header b : res ErrorKind BlockHeader :=
  map_err (fun e => match e with NotFoundErr => Orphan | _ => StoreErr e end) (get_previous_header b header).

(** [validate_block_auxdata] *)
Definition validate_block_auxdata (bheader : BlockHeader) (fast_validate : bool) ctx : res ErrorKind unit :=
  if min_bit_diff ct <? bits bheader then Err BitDifficultyTooLow
  else
    let aux := btc_pow bheader in
    let btc_header_hash := dhash (aux_header aux) in
    let cur_diff := hash_to_biguint (N := Z) btc_header_hash in
    let? target_diff_option := map_err (fun _ => COther) (compact_to_biguint (N := Z) (bits bheader)) in
    match target_diff_option with
    | None => Err BitDifficultyTooLow
    | Some target_diff =>
      if target_diff <? cur_diff then Err BitDifficultyTooLow
      else if negb (contains (to_hex (coinbase_tx aux)) (get_grin_magic_data_str (header_hash ct bheader))) then Err InvalidCoinbase
      else
        let coinbase_hash := sha256 (sha256 (concat (map write_u8 (coinbase_tx aux)))) in
        let hash_value := fold_left dhash_with (merkle_branch aux) coinbase_hash in
        if negb (bool_decide (hash_value = merkle_root (aux_header aux))) then Err InvalidMerklebranch
        else if fast_validate then Ok tt
        else
          let? pre_header := prev_header_store bheader (ctx_batch ctx) in
          let? nbits :=
            if negb ((bh_height pre_header + 1)%u64 mod DIFFICULTY_ADJUST_WINDOW =? 0) then Ok (bits pre_header)
            else
              let start_height :=
                if DIFFICULTY_ADJUST_WINDOW - 1 <=? bh_height pre_header
                then bh_height pre_header - (DIFFICULTY_ADJUST_WINDOW - 1) else 0 in
              let? start_hash := get_header_hash_by_height (header_pmmr ctx) start_height in
              let? start_head := from_store (get_block_header (ctx_batch ctx) start_hash) in
              map_err (fun _ => COther) (next_bit_difficulty (N := Z) ct (bh_height pre_header) (bits pre_header)
                (timestamp pre_header) (timestamp start_head)) in
          if negb (nbits =? bits bheader) then Err BadBitDiffbits else Ok tt
    end.

(** [validate_pow_only] *)
Definition validate_pow_only header ctx : res ErrorKind unit :=
  if refactor_header_height ct <=? bh_height header then validate_block_auxdata header true ctx
  else if opts_contains (opts ctx) SKIP_POW then Ok tt
  else if negb (PowTypes.is_primary (pow header)) && negb (PowTypes.is_secondary (pow header)) then Err LowEdgebits
  else if negb (pow_verifier ctx header) then Err CInvalidPow
  else Ok tt.

(** [check_known_head], [check_known_store], [check_known] *)
Definition check_known_head header ctx : res ErrorKind unit :=
  let? head := from_store (head (ctx_batch ctx)) in
  let bh := header_hash ct header in
  if bool_decide (bh = last_block_h head) || bool_decide (bh = prev_block_h head) then Err Unfit else Ok tt.
Definition check_known_store header ctx : res ErrorKind unit :=
  if block_exists (ctx_batch ctx) (header_hash ct header) then
    let? head := from_store (head (ctx_batch ctx)) in
    if bh_height header <? saturating_sub (tip_height head) 50 then Err OldBlock else Err Unfit
  else Ok tt.
Definition check_known header ctx : res ErrorKind unit :=
  let? _ := check_known_head header ctx in check_known_store header ctx.

(** [validate_header] *)
Definition validate_header header ctx : res ErrorKind unit :=
  let? prev := prev_header_store header (ctx_batch ctx) in
  if negb (bh_height header =? (bh_height prev + 1)%u64) then Err InvalidBlockHeight
  else if negb (valid_header_version ct (bh_height header) (bh_version header)) then Err (CInvalidBlockVersion (bh_version header))
  else if timestamp header <=? timestamp prev then Err CInvalidBlockTime
  else if is_production_mode ct && negb (num (total_difficulty (pow header)) =? (bh_height header + 1)%u64) then Err WrongTotalDifficulty
  else if negb (opts_contains (opts ctx) SKIP_POW) then
    if refactor_header_height ct <=? bh_height header then validate_block_auxdata header false ctx
    else
      let? _ := validate_pow_only header ctx in
      if num (total_difficulty (pow header)) <=? num (total_difficulty (pow prev)) then Err DifficultyTooLow
      else
        let target_difficulty := difficulty_sub (total_difficulty (pow header)) (total_difficulty (pow prev)) in
        if num (to_difficulty (pow header) (bh_height header)) <? num target_difficulty then Err DifficultyTooLow
        else
          let next_header_info := next_difficulty (bh_height header) [] in
          if negb (num target_difficulty =? difficulty next_header_info) then Err WrongTotalDifficulty
          else if negb (secondary_scaling (pow header) =? Consensus.secondary_scaling next_header_info) then Err InvalidScaling
          else Ok tt
  else Ok tt.

(** [has_more_work] *)
Definition has_more_work header (head : Tip) : bool := tip_height head <? bh_height header.

(** ** Forks *)

(** The loops that walk back to the current chain.  A turn goes one header down, so that the height of the
    first header is enough fuel; headers that do not go down would make the code loop, shown as a panic. *)
Fixpoint walk_back (fuel : nat) (h : HeaderExtension B) b (current : BlockHeader) (fork_hashes : list bytes)
    : res ErrorKind (list bytes * BlockHeader) :=
  if (0 <? bh_height current) && negb (is_ok (is_on_current_chain (Bitmap := Bitmap) ct h current b)) then
    match fuel with
    | O => Panic
    | S fuel =>
      let? prev := from_store (get_previous_header b current) in
      walk_back fuel h b prev (fork_hashes ++ [header_hash ct current])
    end
  else Ok (fork_hashes, current).

Fixpoint apply_headers (hashes : list bytes) (h : HeaderExtension B) b : outcome (HeaderExtension B) (HeaderExtension B) :=
  match hashes with
  | [] => Ok h
  | x :: hashes =>
    let? header := leaving h (from_store (get_block_header b x)) in
    let? _ := leaving h (validate_root (Bitmap := Bitmap) ct h header) in
    let? h := apply_header (Bitmap := Bitmap) ct h header in
    apply_headers hashes h b
  end.

(** [rewind_and_apply_header_fork] *)
Definition rewind_and_apply_header_fork header (h : HeaderExtension B) b : outcome (HeaderExtension B) (HeaderExtension B) :=
  let? '(fork_hashes, forked_header) := leaving h (walk_back (Z.to_nat (bh_height header)) h b header []) in
  let? h := header_rewind (Bitmap := Bitmap) ct h forked_header in
  apply_headers (rev fork_hashes) h b.

(** [while current.height > fork_point.height] *)
Fixpoint fork_from (fuel : nat) b (height : Z) (current : BlockHeader) (fork_hashes : list bytes) : res ErrorKind (list bytes) :=
  if height <? bh_height current then
    match fuel with
    | O => Panic
    | S fuel =>
      let? prev := from_store (get_previous_header b current) in
      fork_from fuel b height prev (fork_hashes ++ [header_hash ct current])
    end
  else Ok fork_hashes.

(** [verify_coinbase_maturity], [validate_utxo] *)
Definition verify_coinbase_maturity (block : Block) (ext : ExtensionPair B) b : res ErrorKind unit :=
  view_coinbase_maturity (Bitmap := Bitmap) ct (utxo_view (extension ext) (header_extension ext)) (inputs (block_body block))
    (bh_height (Block.header block)) b.
Definition validate_utxo (block : Block) (ext : ExtensionPair B) b : res ErrorKind unit :=
  view_validate_block (Bitmap := Bitmap) (utxo_view (extension ext) (header_extension ext)) b block.

(** [verify_block_sums] on a batch, [verify_block_token_sums] *)
Definition batch_block_sums (block : Block) b : res ErrorKind Batch :=
  let? sums := map_err (fun e => match e with Block.StoreErr => StoreErr NotFoundErr | ChainCommitted e => ECommitted e end)
    (verify_block_sums ct block (db_sums (content b))) in
  Ok (update b (fun s => set_sums s sums)).
Definition verify_block_token_sums (block : Block) b : res ErrorKind Batch :=
  let? sums := from_store (get_block_token_sums ct b (prev_hash (Block.header block))) in
  let? sums := map_err ECommitted (verify_token_kernel_sum (sums, block)) in
  from_store (save_block_token_sums ct b (header_hash ct (Block.header block)) sums).

(** [apply_block_to_txhashset] *)
Definition apply_block_to_txhashset (block : Block) (e : Extension B) b : outcome (Extension B) (Extension B * Batch) :=
  let? '(e, b) := apply_block (Bitmap := Bitmap) ct e b block in
  let? _ := leaving e (validate_roots (Bitmap := Bitmap) e (Block.header block)) in
  let? _ := leaving e (validate_sizes e (Block.header block)) in
  Ok (e, b).

(** The steps that a block goes through on top of its previous one *)
Definition connect_block (block : Block) (ext : ExtensionPair B) b : outcome (ExtensionPair B) (ExtensionPair B * Batch) :=
  let? _ := leaving ext (verify_coinbase_maturity block ext b) in
  let? _ := leaving ext (validate_utxo block ext b) in
  let? b := leaving ext (batch_block_sums block b) in
  let? b := leaving ext (verify_block_token_sums block b) in
  let? '(e, b) := inside (mkPair (header_extension ext)) (apply_block_to_txhashset block (extension ext) b) in
  Ok (mkPair (header_extension ext) e, b).

Fixpoint connect_blocks (hashes : list bytes) (ext : ExtensionPair B) b : outcome (ExtensionPair B) (ExtensionPair B * Batch) :=
  match hashes with
  | [] => Ok (ext, b)
  | h :: hashes =>
    let? fb := leaving ext (from_store (get_block b h)) in
    let? '(ext, b) := connect_block fb ext b in
    connect_blocks hashes ext b
  end.

(** [rewind_and_apply_fork] *)
Definition rewind_and_apply_fork header (ext : ExtensionPair B) b : outcome (ExtensionPair B) (ExtensionPair B * Batch) :=
  let? h := inside (fun h => mkPair h (extension ext)) (rewind_and_apply_header_fork header (header_extension ext) b) in
  let ext := mkPair h (extension ext) in
  let? current := leaving ext (from_store (head_header b)) in
  let? '(_, fork_point) := leaving ext (walk_back (Z.to_nat (bh_height current)) h b current []) in
  let? '(e, b) := inside (mkPair h) (ext_rewind (Bitmap := Bitmap) ct (extension ext) b fork_point) in
  let? fork_hashes := leaving (mkPair h e) (fork_from (Z.to_nat (bh_height header)) b (bh_height fork_point) header []) in
  connect_blocks (rev fork_hashes) (mkPair h e) b.

(** ** Processing headers *)

(** A header unit of work on the context *)
Definition header_unit {A} (inner : HeaderExtension B -> Batch -> outcome (HeaderExtension B) (A * HeaderExtension B * Batch)) : M A :=
  fun ctx =>
    let '(r, h, b) := header_extending (Bitmap := Bitmap) ct inner (header_pmmr ctx) (ctx_batch ctx) in
    (r, mkCtx (opts ctx) (pow_verifier ctx) (txhashset ctx) h b (verifier_cache ctx)).

(** [add_block_header] *)
Definition add_block_header header : M unit := on_batch (fun b => save_block_header ct b header).

(** [process_block_header] *)
Definition process_block_header header : M unit :=
  let@ prev_header := reading (fun ctx => from_store (get_previous_header (ctx_batch ctx) header)) in
  let@ known := reading (fun ctx => Ok (is_ok (check_known header ctx))) in
  if negb known then vret tt
  else
    let@ header_head := reading (fun ctx => header_tip (Bitmap := Bitmap) ct (header_pmmr ctx) (ctx_batch ctx)) in
    let@ seen := reading (fun ctx => Ok (match get_block_header (ctx_batch ctx) (header_hash ct header) with
                                         | Ok existing => negb (has_more_work existing header_head)
                                         | _ => false
                                         end)) in
    if seen then vret tt
    else
      let@ _ := header_unit (fun h b =>
        let? h := rewind_and_apply_header_fork prev_header h b in
        let? _ := leaving h (validate_root (Bitmap := Bitmap) ct h header) in
        let? h := apply_header (Bitmap := Bitmap) ct h header in
        Ok (tt, if negb (has_more_work header header_head) then header_force_rollback h else h, b)) in
      let@ _ := reading (validate_header header) in
      add_block_header header.

(** [for header in headers] *)
Fixpoint validate_and_add (headers : list BlockHeader) : M unit :=
  match headers with
  | [] => vret tt
  | h :: headers =>
    let@ _ := reading (validate_header h) in
    let@ _ := add_block_header h in
    validate_and_add headers
  end.

(** [sync_block_headers] *)
Definition sync_block_headers (headers : list BlockHeader) : M unit :=
  match last headers with
  | None => vret tt
  | Some last_header =>
    let@ sync_head := reading (fun ctx => header_tip (Bitmap := Bitmap) ct (header_pmmr ctx) (ctx_batch ctx)) in
    let@ seen := reading (fun ctx => Ok (match get_block_header (ctx_batch ctx) (header_hash ct last_header) with
                                         | Ok existing => negb (has_more_work existing sync_head)
                                         | _ => false
                                         end)) in
    if seen then vret tt
    else
      let@ _ := validate_and_add headers in
      header_unit (fun h b =>
        let? h := rewind_and_apply_header_fork last_header h b in Ok (tt, h, b))
  end.

(** ** Processing blocks *)

(** [validate_block] *)
Definition validate_block (block : Block) : M unit := fun ctx =>
  match get_previous_header (ctx_batch ctx) (Block.header block) with
  | Ok prev =>
    let '(r, vc) := block_validate ct block (total_kernel_offset prev) (verifier_cache ctx) in
    (let? _ := map_err InvalidBlockProof r in Ok tt,
     mkCtx (opts ctx) (pow_verifier ctx) (txhashset ctx) (header_pmmr ctx) (ctx_batch ctx) vc)
  | Err x => (Err (StoreErr x), ctx)
  | Panic => (Panic, ctx)
  end.

(** A unit of work of the hash set on the context *)
Definition set_unit {A} (inner : ExtensionPair B -> Batch -> outcome (ExtensionPair B) (A * ExtensionPair B * Batch)) : M A :=
  fun ctx =>
    let '(r, h, trees, b) := extending (Bitmap := Bitmap) ct inner (header_pmmr ctx) (txhashset ctx) (ctx_batch ctx) in
    (r, mkCtx (opts ctx) (pow_verifier ctx) trees h b (verifier_cache ctx)).

(** The work of [process_block] in an extension *)
Definition block_work (block : Block) (prev : BlockHeader) (ext : ExtensionPair B) b
    : outcome (ExtensionPair B) (unit * ExtensionPair B * Batch) :=
  let? '(ext, b) := rewind_and_apply_fork prev ext b in
  let? '(ext, b) := connect_block block ext b in
  let? head := leaving ext (from_store (head b)) in
  Ok (tt, if negb (has_more_work (Block.header block) head)
          then mkPair (header_extension ext) (force_rollback (extension ext)) else ext, b).

(** [process_block] *)
Definition process_block (block : Block) : M (option Tip) :=
  let header := Block.header block in
  let@ _ := reading (check_known header) in
  let@ _ := reading (validate_pow_only header) in
  let@ head := reading (fun ctx => from_store (head (ctx_batch ctx))) in
  let@ prev := reading (fun ctx => prev_header_store header (ctx_batch ctx)) in
  let@ orphan := reading (fun ctx =>
    Ok (negb (bool_decide (prev_hash header = last_block_h head)) && negb (block_exists (ctx_batch ctx) (header_hash ct prev)))) in
  if orphan then vlift (Err Orphan)
  else
    let@ _ :=
      if bh_height header <? refactor_header_height ct then
        reading (validate_block_auxdata
          (mkHeader (bh_version header) (bh_height header) (prev_hash header) (prev_root header) (timestamp header)
             (output_root header) (range_proof_root header) (kernel_root header) (total_kernel_offset header)
             (output_mmr_size header) (kernel_mmr_size header) (bits header) (token_output_root header)
             (token_range_proof_root header) (token_issue_proof_root header) (token_kernel_root header)
             (token_output_mmr_size header) (token_issue_proof_mmr_size header) (token_kernel_mmr_size header)
             (pow header) (aux_data block)) false)
      else vret tt in
    let@ _ := process_block_header header in
    let@ _ := validate_block block in
    let@ _ := set_unit (block_work block prev) in
    let@ _ := on_batch (fun b => save_block ct b block) in
    let@ _ := on_batch (fun b => if is_ok (tail b) then b else save_body_tail b (tip_from_header ct header)) in
    if has_more_work header head then
      let tip := tip_from_header ct header in
      let@ _ := on_batch (fun b => save_body_head b tip) in
      vret (Some tip)
    else vret None.
End Pipe.
