(* ===== verification/HeaderTheorems.v ===== *)
(** * The header tree

    The tree of headers of the current chain, with what the pipeline does to it: looking headers up by height,
    walking back from a header to the chain, rewinding to the fork point and applying the headers of the fork.  The tree
    always holds a chain: the header at height [i] is its leaf [i], its previous header is the leaf before, and
    its [prev_root] is the root of the leaves before it. *)

From Stdlib Require Import ZArith Lia List Bool Sorted.
From stdpp Require Import base numbers list option gmap.
From S2P Require Import Prelude MmrIndex Pmmr PmmrTheorems Bytes Consensus Ser Bitmap PruneList DataFile FileBackend StoreTheorems PowTypes Transaction TxBody Committed Verifier Aggregate Block ChainTypes BitmapAccumulator ChainStore TxHashSet TreeLaws TxHashSetTheorems RewindTheorems UnitTheorems Pipe.

Section Headers.
  Context {DG : Digest} (ct : ChainTypes) {Bitmap : Type} {BR : CRoaring Bitmap} {B : Type -> Type} {TR : Trees Bitmap B}.
  #[local] Existing Instance header_pmmrable.
  Context {AT : @AppendTree Bitmap BlockHeader HeaderEntry (B BlockHeader) BR (header_pmmrable ct) (@header_trees Bitmap B TR)}.
  Implicit Types (h : HeaderExtension B) (b : Batch) (d : ChainStore) (hs l : list BlockHeader) (x y : BlockHeader).
  #[local] Abbreviation header_rep := (list_rep (AppendTree := AT)).
  #[local] Abbreviation hash_of := (header_hash ct).

(** The root of a list of headers *)
Definition headers_root hs : option bytes := range_root (PMMRable0 := header_pmmrable ct) hs.

(** ** Stored headers *)

(** Headers are stored under their hash; a header above the genesis [g] has its previous one stored, one lower. *)
Record headers_stored d (g : BlockHeader) : Prop := {
  st_hash k x : db_headers d !! k = Some x -> hash_of x = k;
  st_height k x : db_headers d !! k = Some x -> 0 <= bh_height x < 2 ^ 31;
  st_genesis k x : db_headers d !! k = Some x -> bh_height x = 0 -> x = g;
  st_prev k x : db_headers d !! k = Some x -> 0 < bh_height x ->
    exists p, db_headers d !! prev_hash x = Some p /\ bh_height x = bh_height p + 1
}.

Definition stored d x : Prop := db_headers d !! hash_of x = Some x.

(** The headers from [x] down to [y], without [y] *)
Inductive header_path d : BlockHeader -> list BlockHeader -> BlockHeader -> Prop :=
| path_here x : header_path d x [] x
| path_down x p l y : stored d x -> db_headers d !! prev_hash x = Some p -> bh_height x = bh_height p + 1 -> header_path d p l y ->
    header_path d x (x :: l) y.

Lemma path_height d x l y : header_path d x l y -> bh_height x = bh_height y + Z.of_nat (length l).
Proof. induction 1; cbn [length]; lia. Qed.

Lemma path_snoc d x l y p : header_path d x l y -> stored d y -> db_headers d !! prev_hash y = Some p -> bh_height y = bh_height p + 1 ->
  header_path d x (l ++ [y]) p.
Proof. induction 1; intros; cbn; econstructor; eauto using path_here. Qed.

Lemma stored_prev d g x : headers_stored d g -> stored d x -> 0 < bh_height x ->
  exists p, db_headers d !! prev_hash x = Some p /\ stored d p /\ bh_height x = bh_height p + 1.
Proof.
  intros Hd Hx Hh. destruct (st_prev _ _ Hd _ _ Hx Hh) as (p & Hp & E). exists p. split; [done|]. split; [|done].
  unfold stored. rewrite (st_hash _ _ Hd _ _ Hp). done.
Qed.

(** ** A chain of headers in the tree *)

Definition chain_at d hs : Prop :=
  forall i x, hs !! i = Some x ->
    bh_height x = Z.of_nat i /\ stored d x /\
    forall j p, i = S j -> hs !! j = Some p -> prev_hash x = hash_of p /\ headers_root (take i hs) = Some (prev_root x).

Record headers_inv h d (g : BlockHeader) (f : FileState BlockHeader) : Prop := {
  hi_rep : header_rep (hext_pmmr h) f;
  hi_chain : chain_at d (view f);
  hi_genesis : view f !! 0%nat = Some g;
  hi_head : exists x, last (view f) = Some x /\ hext_head h = tip_from_header ct x
}.

Lemma head_height h d g f : headers_inv h d g f -> tip_height (hext_head h) = Z.of_nat (length (view f)) - 1.
Proof.
  intros Hi. destruct (hi_head _ _ _ _ Hi) as (x & Hx & ->). rewrite last_lookup in Hx.
  destruct (hi_chain _ _ _ _ Hi _ _ Hx) as [E _]. cbn [tip_from_header tip_height]. rewrite E.
  apply lookup_lt_Some in Hx. lia.
Qed.

(** The header at a height *)
Lemma header_at h d g f b height : headers_inv h d g f -> content b = d -> 0 <= height < 2 ^ 31 ->
  get_header_by_height (Bitmap := Bitmap) (hext_pmmr h) height b
  = match view f !! Z.to_nat height with Some x => Ok x | None => Err COther end.
Proof.
  intros Hi Eb Hh. unfold get_header_by_height. change (2 ^ 31) with 2147483648 in Hh.
  rewrite add64_small, insertion_index_node by (lia || apply (leaf_pos_small height); done).
  pose proof (list_get_data (AppendTree0 := AT) (hext_pmmr h) f height (hi_rep _ _ _ _ Hi) Hh) as Hd. rewrite Hd.
  destruct (view f !! Z.to_nat height) as [x|] eqn:Ex; [|done]. cbn [fmap option_fmap option_map].
  destruct (hi_chain _ _ _ _ Hi _ _ Ex) as (_ & Hs & _). unfold get_block_header, option_to_not_found, ok_or.
  change (entry_hash (as_elmt x)) with (hash_of x). rewrite Eb, Hs. done.
Qed.

Lemma on_chain_spec h d g f b x : headers_inv h d g f -> headers_stored d g -> content b = d -> stored d x ->
  is_ok (is_on_current_chain (Bitmap := Bitmap) ct h x b) = true <-> view f !! Z.to_nat (bh_height x) = Some x.
Proof.
  intros Hi Hd Eb Hx. unfold is_on_current_chain. rewrite (head_height _ _ _ _ Hi). pose proof (st_height _ _ Hd _ _ Hx) as Hh.
  destruct (Z.ltb_spec (Z.of_nat (length (view f)) - 1) (bh_height x)) as [Hlt|Hge].
  - split; [done|]. intros E. apply lookup_lt_Some in E. lia.
  - rewrite (header_at _ _ _ _ _ _ Hi Eb Hh). destruct (view f !! Z.to_nat (bh_height x)) as [y|] eqn:Ey; [|split; done].
    cbn [res_bind]. case_bool_decide as Hc; cbn; split; try done.
    + intros _. destruct (hi_chain _ _ _ _ Hi _ _ Ey) as (_ & Hs & _). unfold stored in Hs, Hx. congruence.
    + intros [= ->]. done.
Qed.
(** ** Walking back *)

(** The walk from a stored header ends, and at the highest of its ancestors that is on the chain. *)
Lemma walk_back_spec h d g f b : headers_inv h d g f -> headers_stored d g -> content b = d ->
  forall fuel x acc, stored d x -> bh_height x <= Z.of_nat fuel ->
  exists l y, walk_back (Bitmap := Bitmap) ct fuel h b x acc = Ok (acc ++ map hash_of l, y) /\ header_path d x l y /\ stored d y /\
    view f !! Z.to_nat (bh_height y) = Some y /\ Forall (fun z => view f !! Z.to_nat (bh_height z) <> Some z) l.
Proof.
  intros Hi Hd Eb. induction fuel as [|fuel IH]; intros x acc Hx Hf; cbn [walk_back];
    pose proof (st_height _ _ Hd _ _ Hx) as Hh; pose proof (on_chain_spec h d g f b x Hi Hd Eb Hx) as Hon;
    destruct (Z.ltb_spec 0 (bh_height x)) as [Hpos|Hz]; cbn [andb]; try lia.
  1, 3: exists [], x; rewrite app_nil_r; split; [done|]; split; [apply path_here|]; split; [done|]; split; [|apply Forall_nil; done];
    rewrite (ltac:(lia) : bh_height x = 0); rewrite (st_genesis _ _ Hd _ _ Hx ltac:(lia)); apply (hi_genesis _ _ _ _ Hi).
  destruct (is_ok _); cbn [negb].
  - exists [], x. rewrite app_nil_r. split; [done|]. split; [apply path_here|]. split; [done|]. split; [apply Hon; done|constructor].
  - destruct (stored_prev d g x Hd Hx Hpos) as (p & Hp & Hsp & Eh). unfold get_previous_header, get_block_header, option_to_not_found, ok_or.
    rewrite Eb, Hp. cbn [from_store map_err leaving res_bind]. destruct (IH p (acc ++ [hash_of x]) Hsp ltac:(lia)) as (l & y & -> & Hl & Hy & Hc & Hn).
    exists (x :: l), y. rewrite <- app_assoc. split; [done|]. split; [eapply path_down; done|]. split; [done|]. split; [done|].
    constructor; [|done]. intros E. apply Hon in E. done.
Qed.
(** ** Rewinding and applying headers *)

Lemma chain_take d hs n : chain_at d hs -> chain_at d (take n hs).
Proof.
  intros H i x Hi. apply lookup_take_Some in Hi as [Hi Hn]. destruct (H i x Hi) as (H1 & H2 & H3). split; [done|]. split; [done|].
  intros j p -> Hp. apply lookup_take_Some in Hp as [Hp _]. destruct (H3 j p eq_refl Hp) as [H4 H5]. split; [done|].
  rewrite take_take, Nat.min_l by lia. done.
Qed.

Lemma header_rewind_spec h d g f y : headers_inv h d g f -> pending f = [] -> 0 <= bh_height y < 2 ^ 31 ->
  view f !! Z.to_nat (bh_height y) = Some y ->
  exists h', header_rewind (Bitmap := Bitmap) ct h y = Ok h' /\
    headers_inv h' d g (state_rewind f (S (Z.to_nat (bh_height y)))) /\
    view (state_rewind f (S (Z.to_nat (bh_height y)))) = take (S (Z.to_nat (bh_height y))) (view f) /\
    hext_head h' = tip_from_header ct y /\ hext_rollback h' = hext_rollback h.
Proof.
  intros Hi Hp Hh Hy. change (2 ^ 31) with 2147483648 in Hh. set (n := S (Z.to_nat (bh_height y))). apply lookup_lt_Some in Hy as Hlt.
  assert (Hn : (n <= length (view f))%nat) by lia.
  assert (Ev : view (state_rewind f n) = take n (view f)).
  { destruct (view_rewind_app f (take n (view f)) (drop n (view f)) Hp) as [_ E]; [rewrite take_drop; done|].
    rewrite length_take_le in E by lia. done. }
  unfold header_rewind. rewrite add64_small by lia.
  destruct (list_rewind (AppendTree := AT) (hext_pmmr h) f n (insertion_to_pmmr_index (bh_height y + 1)) (hi_rep _ _ _ _ Hi) Hp Hn) as (p' & E & Hr).
  { right. f_equal. subst n. lia. }
  rewrite E. cbn [set_err map_err leaving res_bind]. eexists. split; [done|]. split; [|done]. constructor.
  - exact Hr.
  - rewrite Ev. apply chain_take. apply Hi.
  - rewrite Ev, lookup_take_lt by lia. apply Hi.
  - exists y. split; [|done]. rewrite Ev, last_lookup, length_take_le by lia. rewrite lookup_take_lt by lia. exact Hy.
Qed.

(** A header on top of the tree: its root is checked before it is pushed. *)
Lemma apply_header_spec h d g f x y : headers_inv h d g f -> last (view f) = Some y -> stored d x ->
  db_headers d !! prev_hash x = Some y -> bh_height x = bh_height y + 1 -> list_dom (AppendTree := AT) x -> room f ->
  (let? _ := leaving h (validate_root (Bitmap := Bitmap) ct h x) in apply_header (Bitmap := Bitmap) ct h x) =
  (if bool_decide (headers_root (view f) = Some (prev_root x))
   then apply_header (Bitmap := Bitmap) ct h x else Err (InvalidRoot, h)) /\
  exists h', apply_header (Bitmap := Bitmap) ct h x = Ok h' /\ hext_rollback h' = hext_rollback h /\
    (headers_root (view f) = Some (prev_root x) -> headers_stored d g -> headers_inv h' d g (state_append f x)).
Proof.
  intros Hi Hl Hx Hy Hh Hdom Hroom. rewrite last_lookup in Hl. destruct (hi_chain _ _ _ _ Hi _ _ Hl) as (Ey & Hsy & _).
  apply lookup_lt_Some in Hl as Hlt. split.
  - unfold validate_root, header_root. rewrite (proj2 (Z.eqb_neq _ _)) by lia.
    destruct (list_root (AppendTree := AT) (hext_pmmr h) f (hi_rep _ _ _ _ Hi)) as (r & Er & Hr). unfold headers_root.
    rewrite Hr. change (root (PMMRable0 := header_pmmrable ct) (hext_pmmr h)) with (root (Bitmap := Bitmap) (PMMRable0 := header_pmmrable ct) (T := BlockHeader) (E := HeaderEntry) (hext_pmmr h)).
    rewrite Er. cbn [root_err map_err leaving res_bind]. case_bool_decide as Hc; [subst r; rewrite bool_decide_eq_true_2 by done; done|].
    rewrite bool_decide_eq_false_2 by congruence. done.
  - unfold apply_header. destruct (list_push (AppendTree := AT) (hext_pmmr h) f x (hi_rep _ _ _ _ Hi) Hdom Hroom) as (p' & E & Hr').
    rewrite E. cbn [set_err map_err leaving res_bind]. eexists. split; [done|]. split; [done|]. intros Hroot Hd. constructor.
    + exact Hr'.
    + rewrite view_append. intros i z Hz. apply lookup_app_Some in Hz as [Hz|[Hge Hz]].
      * destruct (hi_chain _ _ _ _ Hi i z Hz) as (H1 & H2 & H3). split; [done|]. split; [done|]. intros j p -> Hp.
        apply lookup_lt_Some in Hz as Hzl. rewrite lookup_app_l in Hp by lia. destruct (H3 j p eq_refl Hp) as [H4 H5]. split; [done|].
        rewrite take_app_le by lia. done.
      * apply list_lookup_singleton_Some in Hz as [Hz <-]. assert (Ei : i = length (view f)) by lia. subst i.
        split; [lia|]. split; [done|]. intros j p Ej Hp. rewrite lookup_app_l in Hp by lia.
        assert (Ej' : j = pred (length (view f))) by lia. subst j. rewrite Hl in Hp. injection Hp as <-.
        split; [symmetry; apply (st_hash _ _ Hd _ _ Hy)|]. rewrite take_app_length. exact Hroot.
    + rewrite view_append, lookup_app_l by lia. apply Hi.
    + exists x. rewrite view_append, last_snoc. done.
Qed.
(** The first header of a chain *)
Lemma apply_genesis h d g f : header_rep (hext_pmmr h) f -> view f = [] -> stored d g -> bh_height g = 0 ->
  list_dom (AppendTree := AT) g -> room f ->
  exists h', apply_header (Bitmap := Bitmap) ct h g = Ok h' /\ headers_inv h' d g (state_append f g).
Proof.
  intros Hr Hv Hg Hh Hdom Hroom. unfold apply_header. destruct (list_push (AppendTree := AT) (hext_pmmr h) f g Hr Hdom Hroom) as (p' & E & Hr').
  rewrite E. cbn [set_err map_err leaving res_bind]. eexists. split; [done|]. constructor; rewrite ?view_append, ?Hv.
  - exact Hr'.
  - intros i x Hi. apply list_lookup_singleton_Some in Hi as [-> <-]. split; [done|]. split; done.
  - done.
  - exists g. done.
Qed.

(** A tree in its files, in a new unit of work *)
Lemma headers_inv_synced h d g f : headers_inv h d g f ->
  exists p, synced_tree (B := B) (hext_pmmr h) = Ok p /\ headers_inv (header_extension_new p (hext_head h)) d g (state_flush f).
Proof.
  intros [I1 I2 I3 I4]. destruct (synced_list_rep (AppendTree3 := AT) _ _ I1) as (p & E & Hp). exists p. split; [exact E|].
  constructor; rewrite ?view_flush; done.
Qed.

Lemma apply_headers_app (l l' : list bytes) : forall h b,
  apply_headers (Bitmap := Bitmap) ct (l ++ l') h b
  = let? h := apply_headers (Bitmap := Bitmap) ct l h b in apply_headers (Bitmap := Bitmap) ct l' h b.
Proof.
  induction l as [|k l IH]; intros h b; [done|]. cbn [app apply_headers]. destruct (from_store _) as [x| |]; cbn [leaving map_err res_bind]; [|done..].
  destruct (validate_root _ _ _) as [[]| |]; cbn [leaving map_err res_bind]; [|done..]. destruct (apply_header _ _ _) as [h1| |]; cbn [res_bind]; [|done..]. apply IH.
Qed.

Lemma append_all_app {A} (f : FileState A) (l l' : list A) : append_all f (l ++ l') = append_all (append_all f l) l'.
Proof. apply fold_left_app. Qed.

Lemma apply_path h d g f b x l y : header_path d x l y -> headers_inv h d g f -> headers_stored d g -> content b = d -> stored d y ->
  last (view f) = Some y -> Forall (list_dom (AppendTree := AT)) l -> fits f (length l) ->
  match apply_headers (Bitmap := Bitmap) ct (rev (map hash_of l)) h b with
  | Ok h' => headers_inv h' d g (append_all f (rev l)) /\ last (view f ++ rev l) = Some x /\ hext_rollback h' = hext_rollback h
  | Err (e, _) => e = InvalidRoot
  | Panic => False
  end.
Proof.
  intros Hp Hi Hd Eb Hy Hl. induction Hp as [x|x p l y Hx Hxp Hh Hp IH]; intros Hdom Hf; cbn [map rev].
  - cbn [apply_headers append_all fold_left]. rewrite app_nil_r. done.
  - apply Forall_cons in Hdom as [Hdx Hdom]. rewrite apply_headers_app.
    assert (Hf' : fits f (length l)) by (unfold fits in *; cbn [length] in Hf; lia).
    specialize (IH Hy Hl Hdom Hf'). destruct (apply_headers _ _ h b) as [h1|[e h1]|]; cbn [res_bind]; [|done..].
    destruct IH as (I1 & L1 & R1). cbn [apply_headers]. unfold get_block_header, option_to_not_found, ok_or. rewrite Eb.
    unfold stored in Hx. rewrite Hx. cbn [from_store map_err leaving res_bind]. assert (Hsp : view (append_all f (rev l)) = view f ++ rev l) by apply append_all_spec.
    assert (Hroom : room (append_all f (rev l))).
    { unfold room, fits in *. rewrite (proj1 (append_all_spec (rev l) f)). cbn [flushed pending]. rewrite length_app, length_rev. cbn [length] in Hf. lia. }
    destruct (apply_header_spec h1 d g _ x p I1 ltac:(rewrite Hsp; exact L1) Hx Hxp Hh Hdx Hroom) as [E (h2 & E2 & R2 & I2)].
    destruct (validate_root _ h1 x) as [[]|e|]; cbn [leaving map_err res_bind] in E |- *.
    + rewrite E2 in E |- *. cbn [res_bind]. case_bool_decide as Hc; [|discriminate E]. rewrite append_all_app. cbn [append_all fold_left].
      split; [apply I2; done|]. split; [rewrite app_assoc; apply last_snoc|congruence].
    + case_bool_decide; congruence.
    + case_bool_decide; congruence.
Qed.

Lemma header_fork_spec h d g f b x :
  headers_inv h d g f -> headers_stored d g -> content b = d -> pending f = [] -> stored d x ->
  (forall k z, db_headers d !! k = Some z -> list_dom (AppendTree := AT) z) -> fits f (Z.to_nat (bh_height x)) ->
  match rewind_and_apply_header_fork (Bitmap := Bitmap) ct x h b with
  | Ok h' => exists f' l y,
      headers_inv h' d g f' /\ hext_head h' = tip_from_header ct x /\ header_path d x l y /\
      view f' = take (S (Z.to_nat (bh_height y))) (view f) ++ rev l /\
      view f !! Z.to_nat (bh_height y) = Some y /\ Forall (fun z => view f !! Z.to_nat (bh_height z) <> Some z) l
  | Err (e, _) => e = InvalidRoot
  | Panic => False
  end.
Proof.
  intros Hi Hd Eb Hp Hx Hdom Hf. unfold rewind_and_apply_header_fork.
  pose proof (st_height _ _ Hd _ _ Hx) as Hh.
  destruct (walk_back_spec h d g f b Hi Hd Eb (Z.to_nat (bh_height x)) x [] Hx ltac:(lia)) as (l & y & -> & Hl & Hy & Hon & Hn).
  cbn [leaving map_err res_bind app]. pose proof (st_height _ _ Hd _ _ Hy) as Hhy. pose proof (path_height _ _ _ _ Hl) as Hlen.
  destruct (header_rewind_spec h d g f y Hi Hp Hhy Hon) as (h1 & -> & I1 & E1 & T1 & R1). cbn [res_bind].
  pose proof (apply_path h1 d g _ b x l y Hl I1 Hd Eb Hy) as Ha. rewrite E1 in Ha.
  assert (Hlast : last (take (S (Z.to_nat (bh_height y))) (view f)) = Some y).
  { apply lookup_lt_Some in Hon as Hlt. rewrite last_lookup, length_take_le by lia. rewrite lookup_take_lt by (cbn; lia). exact Hon. }
  specialize (Ha Hlast). assert (Hdl : Forall (list_dom (AppendTree := AT)) l).
  { clear -Hl Hdom. induction Hl; constructor; [eapply Hdom; done|done]. }
  specialize (Ha Hdl). assert (Hfl : fits (state_rewind f (S (Z.to_nat (bh_height y)))) (length l)).
  { unfold fits in *. cbn [flushed pending state_rewind]. lia. }
  specialize (Ha Hfl). destruct (apply_headers _ _ h1 b) as [h2|[e h2]|]; cbn [leaving map_err res_bind]; [|done..]. destruct Ha as (I2 & L2 & R2).
  eexists _, l, y. split; [exact I2|]. rewrite (proj2 (append_all_spec _ _)), E1. split.
  - destruct (hi_head _ _ _ _ I2) as (z & Hz & ->). rewrite (proj2 (append_all_spec _ _)), E1, L2 in Hz. injection Hz as ->. done.
  - done.
Qed.

(** Taking the header tree to a stored header always ends: it walks back to the highest ancestor on the current
    chain, rewinds to it and applies the headers of the fork; the tree then holds exactly the ancestors of the header and
    the header, linked and with their roots, and the only failure is a header whose root is not that of its ancestors. *)
Theorem header_fork_ends_at_the_header h d g f b x :
  headers_inv h d g f -> headers_stored d g -> content b = d -> pending f = [] -> stored d x ->
  (forall k z, db_headers d !! k = Some z -> list_dom (AppendTree := AT) z) -> fits f (Z.to_nat (bh_height x)) ->
  match rewind_and_apply_header_fork (Bitmap := Bitmap) ct x h b with
  | Ok h' => exists f' l y,
      headers_inv h' d g f' /\ hext_head h' = tip_from_header ct x /\ header_path d x l y /\
      view f' = take (S (Z.to_nat (bh_height y))) (view f) ++ rev l /\
      view f !! Z.to_nat (bh_height y) = Some y /\ Forall (fun z => view f !! Z.to_nat (bh_height z) <> Some z) l
  | Err (e, _) => e = InvalidRoot
  | Panic => False
  end.
Proof. apply header_fork_spec. Qed.
End Headers.
