(* ===== verification/ConnectTheorems.v ===== *)
(** * Connecting blocks

    The steps of the pipeline that put a block on top of its previous one, and a fork of blocks, against the
    ledger: a connected block was accepted by the ledger, its header commits to the contents after it, and it can be
    undone. *)

From Stdlib Require Import ZArith Lia List Bool Sorted.
From stdpp Require Import base numbers list option gmap.
From S2P Require Import Prelude MmrIndex Pmmr PmmrTheorems Bytes Consensus Ser Bitmap PruneList DataFile FileBackend StoreTheorems PowTypes Transaction TxBody Committed Verifier Aggregate Block ChainTypes BitmapAccumulator ChainStore TxHashSet TreeLaws TxHashSetTheorems ViewTheorems RewindTheorems UnitTheorems Pipe HeaderTheorems.

(** ** What a header commits to *)

Section Commits.
  Context {DG : Digest}.

(** The root of the accumulator of the unspent leaves *)
Definition bitmap_root_of (u : gset Z) (r : bytes) : Prop :=
  exists S, wf_bits S /\ (forall i, i ∈ S <-> i ∈ u) /\ range_root (chunks_of S 0 (n_chunks S)) = Some r.

Record header_commits (h : BlockHeader) (c : Contents) : Prop := {
  hc_sizes : sizes_match h c;
  hc_outputs : exists r br, range_root (cn_outputs c) = Some r /\ bitmap_root_of (cn_unspent c) br /\
    output_root h = (if bh_version h <? 3 then r else pair_hash_with_index (r, br) (output_mmr_size h));
  hc_proofs : range_root (map output_proof (cn_outputs c)) = Some (range_proof_root h);
  hc_kernels : range_root (cn_kernels c) = Some (kernel_root h);
  hc_token_outputs : range_root (cn_token_outputs c) = Some (token_output_root h);
  hc_token_proofs : range_root (map token_output_proof (cn_token_outputs c)) = Some (token_range_proof_root h);
  hc_issues : range_root (cn_issues c) = Some (token_issue_proof_root h);
  hc_token_kernels : range_root (cn_token_kernels c) = Some (token_kernel_root h)
}.
End Commits.

Section Connect.
  Context {DG : Digest} (ct : ChainTypes) {SS : SecpSizes} {SP : Secp} {Bitmap : Type} {BR : CRoaring Bitmap} `{!CRoaringLaws Bitmap}
    {B : Type -> Type} {TR : Trees Bitmap B}
    `{!PrunableTree Bitmap Output OutputIdentifier (B Output)}
    `{!PrunableTree Bitmap RangeProof RangeProof (B RangeProof)}
    `{!PrunableTree Bitmap TokenOutput TokenOutputIdentifier (B TokenOutput)}
    `{!AppendTree Bitmap TxKernel TxKernel (B TxKernel)}
    `{!AppendTree Bitmap TokenIssueProof TokenIssueProof (B TokenIssueProof)}
    `{!AppendTree Bitmap TokenTxKernel TokenTxKernel (B TokenTxKernel)}.
  Implicit Types (e : Extension B) (b : Batch) (s : SetState) (x : Block).

Lemma acc_root_spec (acc : VecBackend bytes BitmapChunk) (u : gset Z) : holds_bits (Bitmap := Bitmap) acc u ->
  exists r, acc_root (Bitmap := Bitmap) acc = Ok r /\ bitmap_root_of u r.
Proof.
  intros (S & HS & Hu & Hr). destruct (root_spec _ _ Hr) as (r & Er & Hroot). exists r. split.
  - revert Er. unfold acc_root, readonly_root, root. destruct (is_empty _); [done|]. destruct (bag _ _); done.
  - exists S. split; [exact HS|]. split; [exact Hu|exact Hroot].
Qed.

Lemma tree_size {T E} `{!PMMRable bytes T E} `{!TreeStore Bitmap T E (B T)} `{!PrunableTree Bitmap T E (B T)} (p : PMMR (B T)) a :
  tree_rep p a -> unpruned_size p = mmr_size (Z.of_nat (length (view (elems a)))).
Proof. apply rep_size. Qed.

(** The checks of the roots and of the sizes pass exactly on a header that commits to the contents. *)
Lemma validated_header_commits e b s (h : BlockHeader) : ext_inv e b s -> bh_height h <> 0 ->
  validate_roots (Bitmap := Bitmap) e h = Ok tt -> validate_sizes e h = Ok tt -> header_commits h (contents b s).
Proof.
  intros [[C T I K TK] A] Hh. unfold validate_roots, validate_sizes. rewrite (proj2 (Z.eqb_neq _ _) Hh). unfold ext_roots.
  destruct (rep_root _ _ (oi_outs _ _ _ _ _ _ _ C)) as (r1 & -> & R1). destruct (acc_root_spec _ _ A) as (br & -> & RB).
  destruct (rep_root _ _ (oi_proofs _ _ _ _ _ _ _ C)) as (r2 & -> & R2). destruct (list_root _ _ K) as (r3 & -> & R3).
  destruct (rep_root _ _ (oi_outs _ _ _ _ _ _ _ T)) as (r4 & -> & R4). destruct (rep_root _ _ (oi_proofs _ _ _ _ _ _ _ T)) as (r5 & -> & R5).
  destruct (list_root _ _ (proj1 I)) as (r6 & -> & R6). destruct (list_root _ _ TK) as (r7 & -> & R7).
  cbn [root_err other_err map_err leaving inside res_bind]. rewrite (proofs_view _ _ _ (oi_same _ _ _ _ _ _ _ C)) in R2.
  rewrite (proofs_view _ _ _ (oi_same _ _ _ _ _ _ _ T)) in R5. unfold roots_validate.
  cbn [output_roots rproof_root roots_kernel_root roots_token_output_root token_rproof_root roots_token_issue_proof_root roots_token_kernel_root].
  intros Hv Hz.
  do 3 (destruct (bool_decide _) eqn:?Q in Hv; cbn [negb orb] in Hv; [|discriminate Hv]).
  do 4 (destruct (bool_decide _) eqn:?Q in Hv; cbn [negb orb] in Hv; [|discriminate Hv]). clear Hv.
  destruct (bool_decide _) eqn:?Q in Hz; cbn [negb] in Hz; [|discriminate Hz]. clear Hz.
  repeat match goal with H : bool_decide _ = true |- _ => apply bool_decide_eq_true in H end.
  unfold header_sizes, sizes in Q6. rewrite (rep_size _ _ (oi_outs _ _ _ _ _ _ _ C) : unpruned_size _ = _), (list_size _ _ K : unpruned_size _ = _),
    (rep_size _ _ (oi_outs _ _ _ _ _ _ _ T) : unpruned_size _ = _), (list_size _ _ (proj1 I) : unpruned_size _ = _),
    (list_size _ _ TK : unpruned_size _ = _) in Q6. injection Q6 as Z1 _ Z3 Z4 _ Z6 Z7. subst.
  constructor; try done. exists r1, br. done.
Qed.

(** ** Rewinding to where the hash set is *)

Lemma leaves_after_none {A} (u : gset Z) (v : list A) : leaves_after u v [] [] = u.
Proof. apply set_eq. intros i. rewrite leaves_after_iff. cbn [length]. split; [intros [[?|?] _]; [done|lia]|]. intros Hi. split; [left; done|apply not_elem_of_nil]. Qed.

(** The block without content *)
Definition empty_block (h : BlockHeader) : Block := mkBlock h aux_data_default (mkBody [] [] [] [] [] []).

Lemma empty_block_contents h c : block_contents (empty_block h) (mkSpent [] []) c (cn_ledger c) = c.
Proof.
  unfold block_contents. cbn [empty_block block_body outputs kernels token_outputs token_kernels spent_coins spent_tokens map issue_proofs List.filter].
  rewrite !leaves_after_none, !app_nil_r. destruct c. done.
Qed.
Lemma empty_block_step h l : ledger_block (empty_block h) l = Some (mkSpent [] [], l).
Proof. unfold ledger_block. cbn. rewrite !Z.add_0_r. destruct l. done. Qed.
Lemma empty_block_index h b : rewound_index (empty_block h) (mkSpent [] []) b = b.
Proof. destruct b as [? []]. done. Qed.

(** The last leaf, or the first of an empty tree *)
Definition last_leaf c : Z := Z.of_nat (length (cn_outputs c)) - 1.
(** The chunk of the last output has an unspent one. *)
Definition last_chunk_used c : Prop := exists i, i ∈ cn_unspent c /\ chunk_start_idx (last_leaf c) <= i.

Lemma ext_rewind_stays e b s head h0 :
  ext_inv e b s -> synced s -> set_pruned_before s (contents b s) -> sizes_match h0 (contents b s) -> last_chunk_used (contents b s) ->
  get_block_header b (last_block_h (ext_head e)) = Ok head -> bh_height head <= bh_height h0 ->
  exists e' s',
    ext_rewind (Bitmap := Bitmap) ct e b h0 = Ok (e', b) /\ ext_inv e' b s' /\ contents b s' = contents b s /\
    ext_head e' = tip_from_header ct h0 /\ synced s' /\ discarded_state (Bitmap := Bitmap) s' = discarded_state (Bitmap := Bitmap) s.
Proof.
  intros He Hs Hp (Z1 & Z2 & Z3 & Z4 & Z5) (i & Hi & Hchunk) Hh Hle. unfold ext_rewind. rewrite Hh. cbn [from_store map_err leaving inside res_bind].
  rewrite (proj2 (Z.leb_le _ _) Hle), Z1, Z2, Z3, Z4, Z5. set (c := contents b s) in *.
  destruct (rewind_mmrs_undo (Bitmap := Bitmap) e b s c (empty_block h0) (mkSpent [] []) (cn_ledger c)) as (e' & E & I & K & Eb & Eh).
  1: exact (contents_well_formed _ _ _ (inv_trees _ _ _ He)). 1: apply He. 1-2: done. 1: rewrite empty_block_contents; done. 1: apply empty_block_step.
  1-2: cbn; intros k Hk; apply elem_of_nil in Hk; done.
  cbn [spent_coins spent_tokens map] in E, I, K. rewrite E. cbn [leaving inside map_err res_bind]. rewrite empty_block_index in I, K.
  set (s' := rewound_state s c [] []) in *. pose proof (rep_small _ _ (oi_outs _ _ _ _ _ _ _ (inv_coins _ _ _ (inv_trees _ _ _ He)))) as Hsm.
  change (2 ^ 30) with 1073741824 in Hsm. assert (Ku : unspent (st_outputs s') = unspent (st_outputs s)) by exact (f_equal cn_unspent K). unfold last_leaf in Hchunk.
  change (length (cn_outputs c)) with (length (view (elems (st_outputs s)))) in *. set (n := length (view (elems (st_outputs s)))) in *.
  assert (Hr : 0 <= i < Z.of_nat n) by exact (proj2 (rep_unspent _ _ i (oi_outs _ _ _ _ _ _ _ (inv_coins _ _ _ (inv_trees _ _ _ He))) Hi)).
  destruct (accumulator_update e' (st_outputs s') (unspent (st_outputs s)) [mmr_size (Z.of_nat n)] [Z.of_nat n - 1]
    (oi_outs _ _ _ _ _ _ _ (inv_coins _ _ _ I)) ltac:(rewrite Eb; apply He)) as (acc & -> & Hacc).
  - cbn [map]. rewrite n_leaves_size; [|split; [lia|change (2 ^ 61) with 2305843009213693952; lia]]. unfold saturating_sub. do 2 f_equal. lia.
  - constructor; [|constructor]. change (2 ^ 31) with 2147483648. lia.
  - intros j _ _. rewrite Ku. done.
  - exists i, (Z.of_nat n - 1). rewrite Ku. split; [done|]. split; [left|done].
  - cbn [leaving inside map_err res_bind]. eexists _, s'. split; [done|]. split; [split; [|exact Hacc]; destruct I; constructor; done|]. split; [exact K|].
    split; [done|]. split; [apply rewound_synced; done|apply rewound_discard].
Qed.
(** ** One block *)

Lemma valid_disjoint (l : LedgerState) (body : TransactionBody) : ledger_valid l body ->
  (forall k, k ∈ map input_commit (inputs body) -> k ∉ map output_commit (outputs body)) /\
  (forall k, k ∈ map token_input_commit (token_inputs body) -> k ∉ map token_output_commit (token_outputs body)).
Proof.
  intros (H1 & H2 & H3 & H4). rewrite Forall_forall in H1. rewrite Forall_forall in H2. rewrite Forall_forall in H3. rewrite Forall_forall in H4.
  split; intros k (i & -> & Hi)%list_elem_of_fmap (o & Eo & Ho)%list_elem_of_fmap.
  - specialize (H1 o Ho). specialize (H2 i Hi). unfold new_output, live_input in *. rewrite Eo, H1 in H2. done.
  - specialize (H3 o Ho). specialize (H4 i Hi). unfold new_token_output, live_token_input in *. rewrite Eo, (proj1 H3) in H4. done.
Qed.

(** The tables that the sums of a block do not touch *)
Definition same_but_sums (d d' : ChainStore) : Prop :=
  db_output_pos d' = db_output_pos d /\ db_token_output_pos d' = db_token_output_pos d /\ db_issue_pos d' = db_issue_pos d /\
  db_spent d' = db_spent d /\ db_token_spent d' = db_token_spent d /\ db_headers d' = db_headers d /\ db_blocks d' = db_blocks d /\
  db_head d' = db_head d.

Lemma block_sums_tables x b b' : batch_block_sums ct x b = Ok b' -> same_but_sums (content b) (content b').
Proof. unfold batch_block_sums. destruct (map_err _ _) as [sums| |]; cbn [leaving inside map_err res_bind]; [|done..]. intros [= <-]. done. Qed.
Lemma token_sums_tables x b b' : verify_block_token_sums ct x b = Ok b' -> same_but_sums (content b) (content b').
Proof.
  unfold verify_block_token_sums, save_block_token_sums. destruct (from_store _) as [s0| |]; cbn [leaving inside map_err res_bind]; [|done..].
  destruct (map_err _ _) as [sums| |]; cbn [leaving inside map_err res_bind]; [|done..].
  destruct (get_block_header b _) as [h| |]; cbn [leaving inside map_err res_bind from_store map_err]; [|done..]. destruct (_ <? _); intros [= <-]; done.
Qed.

Lemma connect_block_spec ext b s x ext' b' :
  ext_inv (extension ext) b s -> block_fits x s -> bh_height (header x) <> 0 -> outputs (block_body x) <> [] ->
  connect_block (Bitmap := Bitmap) ct x ext b = Ok (ext', b') ->
  exists sp l, let s' := block_state (Bitmap := Bitmap) x sp s in
    ledger_block x (ledger b s) = Some (sp, l) /\ ledger_valid (ledger b s) (block_body x) /\
    ext_inv (extension ext') b' s' /\ contents b' s' = block_contents x sp (contents b s) l /\
    header_commits (header x) (contents b' s') /\ header_extension ext' = header_extension ext /\
    ext_head (extension ext') = tip_from_header ct (header x) /\ rollback (extension ext') = rollback (extension ext) /\
    block_tables ct x sp (content b) (content b').
Proof.
  intros He Hf Hh Ho. unfold connect_block. destruct (verify_coinbase_maturity _ _ _ _) as [[]| |]; cbn [leaving inside map_err res_bind]; [|done..].
  destruct (validate_utxo x ext b) as [[]| |] eqn:Ev; cbn [leaving inside map_err res_bind]; [|done..].
  apply (view_valid _ _ b s) in Ev; [|apply He].
  destruct (batch_block_sums ct x b) as [b1| |] eqn:E1; cbn [leaving inside map_err res_bind]; [|done..]. apply block_sums_tables in E1.
  destruct (verify_block_token_sums ct x b1) as [b2| |] eqn:E2; cbn [leaving inside map_err res_bind]; [|done..]. apply token_sums_tables in E2.
  destruct E1 as (A1 & A2 & A3 & A4 & A5 & A6 & A7 & A8), E2 as (B1 & B2 & B3 & B4 & B5 & B6 & B7 & B8).
  assert (Hs : same_indices b b2) by (split; [|split]; congruence).
  assert (Hl : ledger b2 s = ledger b s) by (apply (f_equal cn_ledger (contents_index b2 b s ltac:(split; [|split]; congruence)))).
  pose proof (ext_inv_index _ _ _ _ Hs He) as He2. unfold apply_block_to_txhashset.
  destruct (valid_disjoint _ _ Ev) as [Hd1 Hd2].
  assert (Hkeep : exists o, o ∈ outputs (block_body x) /\ output_commit o ∉ map input_commit (inputs (block_body x))).
  { destruct (outputs (block_body x)) as [|o outs] eqn:Eo; [done|]. exists o. split; [left|]. intros Hin. apply (Hd1 _ Hin). left. }
  pose proof (apply_block_spec (Bitmap := Bitmap) ct _ b2 s x He2 Hf Hkeep) as Ha. rewrite Hl in Ha.
  destruct (ledger_block x (ledger b s)) as [[sp l]|]; [|destruct Ha as (err & el & -> & _); done].
  destruct Ha as (e3 & b3 & -> & (I3 & T3 & R3 & S3 & S4 & S5 & S6 & S7) & L3). cbn [leaving inside map_err res_bind].
  destruct (validate_roots e3 (header x)) as [[]| |] eqn:Er; cbn [leaving inside map_err res_bind]; [|done..].
  destruct (validate_sizes e3 (header x)) as [[]| |] eqn:Ez; cbn [leaving inside map_err res_bind]; [|done..]. intros [= <- <-].
  exists sp, l. cbn zeta. split; [done|]. split; [done|]. split; [exact I3|]. split.
  - rewrite <- (contents_index b2 b s) by (split; [|split]; congruence). apply block_state_contents. exact L3.
  - split; [eapply validated_header_commits; done|]. split; [done|]. split; [exact T3|]. split; [exact R3|].
    repeat split; congruence.
Qed.

(** A block that is not connected leaves trees that go back to those before it when they are discarded. *)
Lemma connect_block_left ext b s x err ext' :
  ext_inv (extension ext) b s -> block_fits x s -> outputs (block_body x) <> [] ->
  connect_block (Bitmap := Bitmap) ct x ext b = Err (err, ext') -> left_by (extension ext') s.
Proof.
  intros He Hf Ho. pose proof (left_by_self _ _ _ (inv_trees _ _ _ He)) as H0. unfold connect_block.
  destruct (verify_coinbase_maturity _ _ _ _) as [[]| |]; cbn [leaving inside map_err res_bind]; [|intros [= _ <-]; exact H0|done].
  destruct (validate_utxo x ext b) as [[]| |] eqn:Ev; cbn [leaving inside map_err res_bind]; [|intros [= _ <-]; exact H0|done].
  apply (view_valid _ _ b s) in Ev; [|apply He].
  destruct (batch_block_sums ct x b) as [b1| |] eqn:E1; cbn [leaving inside map_err res_bind]; [|intros [= _ <-]; exact H0|done].
  apply block_sums_tables in E1.
  destruct (verify_block_token_sums ct x b1) as [b2| |] eqn:E2; cbn [leaving inside map_err res_bind]; [|intros [= _ <-]; exact H0|done].
  apply token_sums_tables in E2. destruct E1 as (A1 & A2 & A3 & _), E2 as (B1 & B2 & B3 & _).
  assert (Hs : same_indices b b2) by (split; [|split]; congruence).
  destruct (valid_disjoint _ _ Ev) as [Hd1 _].
  assert (Hkeep : exists o, o ∈ outputs (block_body x) /\ output_commit o ∉ map input_commit (inputs (block_body x))).
  { destruct (outputs (block_body x)) as [|o outs] eqn:Eo; [done|]. exists o. split; [left|]. intros Hin. apply (Hd1 _ Hin). left. }
  pose proof (apply_block_spec (Bitmap := Bitmap) ct _ b2 s x (ext_inv_index _ _ _ _ Hs He) Hf Hkeep) as Ha. unfold apply_block_to_txhashset.
  destruct (ledger_block x (ledger b2 s)) as [[sp l]|].
  - destruct Ha as (e3 & b3 & -> & (I3 & _) & _). cbn [leaving inside map_err res_bind].
    assert (Hl : left_by e3 s) by (eapply left_by_trans; [eapply left_by_self, I3|apply block_discard]).
    destruct (validate_roots e3 (header x)) as [[]| |]; cbn [leaving inside map_err res_bind]; [|intros [= _ <-]; exact Hl|done].
    destruct (validate_sizes e3 (header x)) as [[]| |]; cbn [leaving inside map_err res_bind]; [done|intros [= _ <-]; exact Hl|done].
  - destruct Ha as (err' & e3 & -> & Hl). cbn [leaving inside map_err res_bind]. intros [= _ <-]. exact Hl.
Qed.

(** Connecting a block is a work that a unit can run: with what [connect_block_spec] promises when it succeeds, and
    nothing left of it when it fails. *)
Lemma connect_block_behaved trees b s x :
  (forall head, ext_inv (extension_new trees head) b s) -> at_rest s -> block_fits x s -> bh_height (header x) <> 0 -> outputs (block_body x) <> [] ->
  well_behaved (fun ext b => let? '(ext, b) := connect_block (Bitmap := Bitmap) ct x ext b in Ok (tt, ext, b))
    (fun _ c => exists sp l, ledger_block x (ledger b s) = Some (sp, l) /\ ledger_valid (ledger b s) (block_body x) /\
       c = block_contents x sp (contents b s) l /\ header_commits (header x) c) trees b s.
Proof.
  intros He Hr Hf Hh Ho pair head Ep. pose proof (connect_block_left pair (child b) s x) as Hl.
  pose proof (connect_block_spec pair (child b) s x) as Hc. rewrite Ep in Hl, Hc.
  assert (Hi : ext_inv (extension_new trees head) (child b) s) by (eapply ext_inv_index; [|apply He]; done).
  destruct (connect_block ct x pair (child b)) as [[ext' b']|[err ext']|]; cbn [leaving inside map_err res_bind]; [|eapply Hl; done|done].
  destruct (Hc ext' b' Hi Hf Hh Ho eq_refl) as (sp & l & Hb & Hv & I & K & Hcm & _).
  eexists. split; [exact I|]. split; [etrans; [apply block_discard|exact Hr]|]. exists sp, l. split; [exact Hb|]. split; [exact Hv|]. split; [exact K|exact Hcm].
Qed.
(** ** Chains of connected blocks *)

(** The contents [c] at the header [h] came from [c0] at [h0] by blocks that were connected: each header commits to
    its contents, and the store can undo each block. *)
Inductive connected (d : ChainStore) : Contents -> BlockHeader -> Contents -> BlockHeader -> Prop :=
| connected_here c h : connected d c h c h
| connected_above c x sp l prev c0 h0 :
    well_formed c -> block_above ct d c x sp l prev -> outputs (block_body x) <> [] -> stored ct d (header x) ->
    header_commits (header x) (block_contents x sp c l) -> connected d c prev c0 h0 ->
    connected d (block_contents x sp c l) (header x) c0 h0.

Lemma connected_height d c h c0 h0 : connected d c h c0 h0 -> bh_height h0 <= bh_height h.
Proof. induction 1 as [|c x sp l prev c0 h0 _ Ha _ _ _ _ IH]; [lia|]. pose proof (ab_height _ _ _ _ _ _ _ Ha). lia. Qed.

Lemma connected_undo d c h c0 h0 : connected d c h c0 h0 ->
  exists ps, undo_chain ct d c h c0 h0 ps /\ (bh_height h0 < bh_height h -> ps <> []).
Proof.
  induction 1 as [c h|c x sp l prev c0 h0 Hw Ha Ho Hx Hc Hch IH]; [exists []; split; [constructor|lia]|].
  destruct IH as (ps & Hps & _). eexists. split; [econstructor; done|]. intros _ E. apply app_eq_nil in E as [E _].
  apply app_eq_nil in E as [_ E]. done.
Qed.

Lemma connected_trans d c h c1 h1 c0 h0 : connected d c h c1 h1 -> connected d c1 h1 c0 h0 -> connected d c h c0 h0.
Proof. induction 1; intros; [done|]. econstructor; eauto. Qed.

(** An ancestor of the head above the base is on the way. *)
Lemma connected_split d c h cb hb l y : connected d c h cb hb -> header_path ct d h l y -> bh_height hb <= bh_height y ->
  exists c0, connected d c h c0 y /\ connected d c0 y cb hb.
Proof.
  intros Hc. revert l. induction Hc as [c h|c x sp l prev c0 h0 Hw Ha Ho Hx Hcm Hch IH]; intros hs Hp Hle.
  - assert (Hl : hs = []) by (pose proof (path_height _ _ _ _ _ Hp); destruct hs; [done|cbn [length] in *; lia]). subst hs.
    inversion Hp; subst. exists c. split; constructor.
  - inversion Hp as [|? p hs' ? Hsx Hxp Hh Hp']; subst.
    + exists (block_contents x sp c l). split; [constructor|]. econstructor; done.
    + assert (p = prev) by (pose proof (ab_prev _ _ _ _ _ _ _ Ha); congruence). subst p.
      destruct (IH _ Hp' Hle) as (c1 & H1 & H2). exists c1. split; [econstructor; done|done].
Qed.

Lemma connected_sizes d c h c0 h0 : connected d c h c0 h0 -> sizes_match h0 c0 -> sizes_match h c.
Proof. destruct 1 as [|c x sp l prev c0 h0 _ _ _ _ Hc _]; [done|]. intros _. apply Hc. Qed.

(** The outputs of a connected block are unspent after it. *)
Lemma connected_last_chunk d c h c0 h0 : connected d c h c0 h0 -> last_chunk_used c0 ->
  Z.of_nat (length (cn_outputs c)) < 2 ^ 30 -> last_chunk_used c.
Proof.
  destruct 1 as [|c x sp l prev c0 h0 Hw Ha Ho _ _ _]; [done|]. intros _ Hn. change (2 ^ 30) with 1073741824 in Hn.
  cbn [block_contents cn_outputs] in Hn. unfold last_chunk_used, last_leaf. cbn [block_contents cn_outputs cn_unspent].
  rewrite length_app in Hn |- *. assert (Hlen : (0 < length (outputs (block_body x)))%nat) by (destruct (outputs _); [done|cbn; lia]).
  set (n := length (cn_outputs c)) in *. exists (Z.of_nat (n + length (outputs (block_body x))) - 1). split.
  - rewrite leaves_after_iff. split; [right; subst n; lia|]. intros Hin.
    destruct (affected_leaves ct d c x sp l prev Hw Ha ltac:(change (2 ^ 30) with 1073741824; lia)) as [Hl _].
    rewrite List.Forall_forall in Hl. apply list_elem_of_In in Hin. apply Hl in Hin.
    apply (cs_range _ _ _ _ (wf_coins _ Hw)) in Hin. subst n. lia.
  - rewrite chunk_start by lia. unfold chunk_idx. Z.div_mod_to_equations. lia.
Qed.

(** Recording another, higher block keeps a chain. *)
Lemma connected_record d d' c h c0 h0 k v tv : connected d c h c0 h0 ->
  db_spent d' = <[k := v]> (db_spent d) -> db_token_spent d' = <[k := tv]> (db_token_spent d) ->
  db_headers d' = db_headers d -> db_blocks d' = db_blocks d ->
  (forall z, stored ct d z -> header_hash ct z = k -> bh_height h < bh_height z) -> connected d' c h c0 h0.
Proof.
  intros Hc E1 E2 E3 E4. induction Hc as [c h|c x sp l prev c0 h0 Hw Ha Ho Hx Hcm Hch IH]; intros Hk; [constructor|].
  destruct (ab_height _ _ _ _ _ _ _ Ha) as [Hh _].
  assert (Hne : k <> header_hash ct (header x)) by (intros E; specialize (Hk (header x) Hx (eq_sym E)); lia).
  econstructor; [done| |done|unfold stored; rewrite E3; exact Hx|done|apply IH; intros z Hz E; specialize (Hk z Hz E); lia].
  destruct Ha as [A1 A2 A3 A4 A5 A6 A7 A8]. constructor; rewrite ?E1, ?E2, ?E3, ?E4; try done; rewrite lookup_insert_ne by done; done.
Qed.
(** ** Forks of blocks *)

(** The elements of a block are in the domain of the trees, and there are at most [K] of a kind. *)
Definition block_dom (K : nat) x : Prop :=
  (Forall tree_dom (outputs (block_body x)) /\ Forall tree_dom (map output_proof (outputs (block_body x)))) /\
  (Forall tree_dom (token_outputs (block_body x)) /\ Forall tree_dom (map token_output_proof (token_outputs (block_body x))) /\
    Forall list_dom (map issue_of_output (token_outputs (block_body x)))) /\
  (Forall list_dom (kernels (block_body x)) /\ Forall list_dom (token_kernels (block_body x))) /\
  (length (outputs (block_body x)) <= K)%nat /\ (length (token_outputs (block_body x)) <= K)%nat /\
  (length (kernels (block_body x)) <= K)%nat /\ (length (token_kernels (block_body x)) <= K)%nat.
Definition rooms s (n : nat) : Prop :=
  fits (elems (st_outputs s)) n /\ fits (elems (st_token_outputs s)) n /\ fits (st_issues s) n /\ fits (st_kernels s) n /\
  fits (st_token_kernels s) n.

(** Blocks are stored under the hash of their header, which is stored too, and are not empty. *)
Record blocks_stored (d : ChainStore) (K : nat) : Prop := {
  bs_hash k x : db_blocks d !! k = Some x -> header_hash ct (header x) = k /\ stored ct d (header x);
  bs_dom k x : db_blocks d !! k = Some x -> block_dom K x;
  bs_reward k x : db_blocks d !! k = Some x -> outputs (block_body x) <> []
}.

Lemma fits_le {A} (f : FileState A) n m : (m <= n)%nat -> fits f n -> fits f m.
Proof. unfold fits. lia. Qed.
Lemma block_dom_fits K x s : block_dom K x -> rooms s K -> block_fits x s.
Proof.
  intros (D1 & D2 & D3 & L1 & L2 & L3 & L4) (R1 & R2 & R3 & R4 & R5). constructor; [done..|].
  split; [eapply fits_le; [|exact R1]; done|]. split; [eapply fits_le; [|exact R2]; done|]. split; [eapply fits_le; [|exact R3]; done|].
  split; [eapply fits_le; [|exact R4]; done|eapply fits_le; [|exact R5]; done].
Qed.

Lemma fits_add {A} (f f' : FileState A) (l : list A) n : flushed f' = flushed f -> pending f' = pending f ++ l ->
  fits f (length l + n) -> fits f' n.
Proof. unfold fits. intros -> ->. rewrite length_app. lia. Qed.

Lemma issue_proofs_length (outs : list TokenOutput) : (length (issue_proofs outs) <= length outs)%nat.
Proof. unfold issue_proofs. rewrite length_map. apply List.filter_length_le. Qed.

Lemma rooms_block K x s sp n : block_dom K x -> rooms s (K + n) -> rooms (block_state (Bitmap := Bitmap) x sp s) n.
Proof.
  intros (_ & _ & _ & L1 & L2 & L3 & L4) (R1 & R2 & R3 & R4 & R5). unfold rooms. cbn [block_state st_outputs st_token_outputs st_issues st_kernels st_token_kernels].
  destruct (pushed_pruned (Bitmap := Bitmap) (st_outputs s) (outputs (block_body x)) (map entry_leaf (spent_coins sp))) as (_ & -> & _).
  destruct (pushed_pruned (Bitmap := Bitmap) (st_token_outputs s) (token_outputs (block_body x)) (map entry_leaf (spent_tokens sp))) as (_ & -> & _).
  rewrite !(proj1 (append_all_spec _ _)). pose proof (issue_proofs_length (token_outputs (block_body x))).
  split; [eapply (fits_add (elems (st_outputs s))); [done|done|eapply fits_le; [|exact R1]; lia]|].
  split; [eapply (fits_add (elems (st_token_outputs s))); [done|done|eapply fits_le; [|exact R2]; lia]|].
  split; [eapply (fits_add (st_issues s)); [done|done|eapply fits_le; [|exact R3]; lia]|].
  split; [eapply (fits_add (st_kernels s)); [done|done|eapply fits_le; [|exact R4]; lia]|].
  eapply (fits_add (st_token_kernels s)); [done|done|eapply fits_le; [|exact R5]; lia].
Qed.

Lemma connect_blocks_app (l l' : list bytes) : forall ext b,
  connect_blocks (Bitmap := Bitmap) ct (l ++ l') ext b
  = let? '(ext, b) := connect_blocks (Bitmap := Bitmap) ct l ext b in connect_blocks (Bitmap := Bitmap) ct l' ext b.
Proof.
  induction l as [|k l IH]; intros ext b; [done|]. cbn [app connect_blocks]. destruct (from_store _) as [x| |]; cbn [leaving inside map_err res_bind]; [|done..].
  destruct (connect_block _ _ _ _) as [[ext1 b1]| |]; cbn [leaving inside map_err res_bind]; [|done..]. apply IH.
Qed.

(** What connecting a fork leaves as it was *)
Definition same_chain (d d' : ChainStore) : Prop :=
  db_headers d' = db_headers d /\ db_blocks d' = db_blocks d.

(** Connecting the blocks of a path above [y] makes a chain of connected blocks. *)
Lemma connect_path K g d (x : BlockHeader) l y : header_path ct d x l y -> headers_stored ct d g -> blocks_stored d K -> 0 <= bh_height y ->
  forall ext b s ext' b' c0,
  ext_inv (extension ext) b s -> contents b s = c0 -> sizes_match y c0 -> rooms s (K * length l) -> same_chain d (content b) ->
  connect_blocks (Bitmap := Bitmap) ct (rev (map (header_hash ct) l)) ext b = Ok (ext', b') ->
  exists s',
    ext_inv (extension ext') b' s' /\ connected (content b') (contents b' s') x c0 y /\ same_chain d (content b') /\
    discarded_state (Bitmap := Bitmap) s' = discarded_state (Bitmap := Bitmap) s /\ header_extension ext' = header_extension ext /\
    rollback (extension ext') = rollback (extension ext) /\
    (forall c h cb hb, connected (content b) c h cb hb -> bh_height h <= bh_height y -> connected (content b') c h cb hb).
Proof.
  intros Hp Hd Hb Hy. cut (forall n, forall ext b s ext' b' c0,
    ext_inv (extension ext) b s -> contents b s = c0 -> sizes_match y c0 -> rooms s (K * length l + n) -> same_chain d (content b) ->
    connect_blocks (Bitmap := Bitmap) ct (rev (map (header_hash ct) l)) ext b = Ok (ext', b') ->
    exists s',
      ext_inv (extension ext') b' s' /\ connected (content b') (contents b' s') x c0 y /\ same_chain d (content b') /\
      discarded_state (Bitmap := Bitmap) s' = discarded_state (Bitmap := Bitmap) s /\ header_extension ext' = header_extension ext /\
      rollback (extension ext') = rollback (extension ext) /\ rooms s' n /\
      (forall c h cb hb, connected (content b) c h cb hb -> bh_height h <= bh_height y -> connected (content b') c h cb hb)).
  { intros H ext b s ext' b' c0 H1 H2 H3 H4 H5 H6. rewrite <- (Nat.add_0_r (K * length l)) in H4.
    destruct (H 0%nat ext b s ext' b' c0 H1 H2 H3 H4 H5 H6) as (s' & ? & ? & ? & ? & ? & ? & _ & ?). exists s'. done. }
  induction Hp as [y|x p l y Hx Hxp Hh Hp IH]; intros n ext b s ext' b' c0 He Hc Hz Hr Hs; cbn [map rev].
  - cbn [connect_blocks]. intros [= <- <-]. exists s. rewrite Hc. split; [done|]. split; [constructor|]. split; [done|].
    split; [done|]. split; [done|]. split; [done|]. split; [|done]. cbn [length] in Hr. rewrite Nat.mul_0_r in Hr. exact Hr.
  - rewrite connect_blocks_app. destruct (connect_blocks _ _ ext b) as [[ext1 b1]| |] eqn:E1; cbn [leaving inside map_err res_bind]; [|done..].
    assert (Hr' : rooms s (K * length l + (K + n))) by (replace (K * length l + (K + n))%nat with (K * length (x :: l) + n)%nat by (cbn [length]; lia); exact Hr).
    destruct (IH Hy (K + n)%nat ext b s ext1 b1 c0 He Hc Hz Hr' Hs E1) as (s1 & I1 & C1 & (S1 & S2) & D1 & H1 & R1 & Q1 & P1).
    cbn [connect_blocks]. unfold get_block, option_to_not_found, ok_or. rewrite S2.
    destruct (db_blocks d !! header_hash ct x) as [fb|] eqn:Eb; cbn [from_store map_err leaving inside res_bind]; [|done].
    destruct (bs_hash _ _ Hb _ _ Eb) as [Eh Hfb]. assert (Ex : header fb = x) by (unfold stored in *; congruence).
    pose proof (path_height _ _ _ _ _ Hp) as Hlen. pose proof (bs_dom _ _ Hb _ _ Eb) as Hdom.
    destruct (connect_block ct fb ext1 b1) as [[ext2 b2]| |] eqn:E2; cbn [leaving inside map_err res_bind]; [|done..]. intros [= <- <-].
    assert (Hfits : rooms s1 K) by (destruct Q1 as (? & ? & ? & ? & ?); repeat split; (eapply fits_le; [|eassumption]; lia)).
    destruct (connect_block_spec ext1 b1 s1 fb ext2 b2 I1 (block_dom_fits _ _ _ Hdom Hfits) ltac:(rewrite Ex; lia) (bs_reward _ _ Hb _ _ Eb) E2)
      as (sp & l2 & A1 & A2 & A3 & A4 & A5 & A6 & A7 & A8 & T1 & T2 & T3 & T4 & T5).
    exists (block_state (Bitmap := Bitmap) fb sp s1). split; [exact A3|].
    assert (Hk : forall z, stored ct (content b1) z -> header_hash ct z = header_hash ct (header fb) -> z = x).
    { intros z Hz' E. unfold stored in Hz', Hx. rewrite E, Ex, S1, Hx in Hz'. congruence. }
    split; [|split; [split; congruence|]].
    + rewrite A4, <- Ex. econstructor.
      * eapply contents_well_formed. apply I1.
      * constructor; rewrite ?T1, ?T2, ?T3, ?T4, ?S1, ?S2.
        -- exact A1.
        -- apply (valid_disjoint (ledger b1 s1)). exact A2.
        -- apply lookup_insert_eq.
        -- apply lookup_insert_eq.
        -- rewrite Ex. exact Eb.
        -- rewrite Ex. exact Hxp.
        -- eapply connected_sizes; done.
        -- rewrite Ex. lia.
      * apply (bs_reward _ _ Hb _ _ Eb).
      * unfold stored. rewrite T3, S1, Ex. exact Hx.
      * rewrite <- A4. exact A5.
      * eapply connected_record; [exact C1|done..|]. intros z Hz' E. rewrite (Hk z Hz' E). lia.
    + split; [rewrite block_discard; exact D1|]. split; [congruence|]. split; [congruence|]. split; [eapply rooms_block; done|].
      intros c h cb hb Hch Hle. eapply connected_record; [apply P1; done|done..|]. intros z Hz' E. rewrite (Hk z Hz' E). lia.
Qed.
End Connect.
