(* ===== verification/ForkTheorems.v ===== *)
(** * Reorganisations

    [rewind_and_apply_fork] takes the hash set from its head to another header of the store: the header tree goes there,
    the blocks above the fork point are undone and those of the fork are connected.  The ledger it ends with is the
    ledger at the fork point with the blocks of the fork on top, whatever was there before. *)

From Stdlib Require Import ZArith Lia List Bool Sorted.
From stdpp Require Import base numbers list option gmap.
From S2P Require Import Prelude MmrIndex Pmmr PmmrTheorems Bytes Consensus Ser Bitmap PruneList DataFile FileBackend StoreTheorems PowTypes Transaction TxBody Committed Verifier Aggregate Block ChainTypes BitmapAccumulator ChainStore TxHashSet TreeLaws TxHashSetTheorems ViewTheorems RewindTheorems UnitTheorems Pipe HeaderTheorems ConnectTheorems.

(** ** Paths of headers *)

Section Paths.
  Context {DG : Digest} (ct : ChainTypes).
  Implicit Types (d : ChainStore) (x y z : BlockHeader) (l hs : list BlockHeader).
  #[local] Abbreviation header_path := (header_path ct).

Lemma path_prefix d x l y l' z : header_path d x l y -> header_path d x l' z -> bh_height y <= bh_height z ->
  exists l2, l = l' ++ l2 /\ header_path d z l2 y.
Proof.
  intros Hy Hz. revert l Hy. induction Hz as [x|x p l' z Hx Hxp Hh Hz IH]; intros l Hy Hle; [exists l; done|].
  inversion Hy as [|? p' l2 ? _ Hxp' _ Hy']; subst.
  - pose proof (path_height _ _ _ _ _ Hz). lia.
  - assert (p' = p) by congruence. subst p'. destruct (IH _ Hy' Hle) as (l3 & -> & H3). exists l3. done.
Qed.

Lemma path_unique d x l y l' z : header_path d x l y -> header_path d x l' z -> bh_height y = bh_height z -> y = z /\ l = l'.
Proof.
  intros Hy Hz E. destruct (path_prefix _ _ _ _ _ _ Hy Hz ltac:(lia)) as (l2 & -> & H2). pose proof (path_height _ _ _ _ _ H2) as Hl.
  destruct l2; [|cbn [length] in Hl; lia]. inversion H2; subst. rewrite app_nil_r. done.
Qed.

(** The leaves of the header tree are the ancestors of its last. *)
Lemma chain_path d hs x i z : chain_at ct d hs -> last hs = Some x -> hs !! i = Some z -> exists l, header_path d x l z.
Proof.
  intros Hc Hl. remember (length hs - 1 - i)%nat as n eqn:En. revert i z En. induction n as [|n IH]; intros i z En Hi.
  - rewrite last_lookup in Hl. apply lookup_lt_Some in Hi as Hlt. assert (i = pred (length hs)) by lia. subst i.
    assert (z = x) by congruence. subst z. exists []. apply path_here.
  - apply lookup_lt_Some in Hi as Hlt. destruct (lookup_lt_is_Some_2 hs (S i) ltac:(lia)) as [w Hw].
    destruct (IH (S i) w ltac:(lia) Hw) as (l & Hp). destruct (Hc _ _ Hw) as (H1 & H2 & H3). destruct (Hc _ _ Hi) as (H4 & H5 & _).
    destruct (H3 i z eq_refl Hi) as [H6 _]. exists (l ++ [w]). eapply path_snoc; [exact Hp|done|rewrite H6; exact H5|lia].
Qed.

Lemma fork_from_path d x l y : header_path d x l y -> forall fuel b acc, content b = d -> (length l <= fuel)%nat ->
  fork_from ct fuel b (bh_height y) x acc = Ok (acc ++ map (header_hash ct) l).
Proof.
  induction 1 as [y|x p l y Hx Hxp Hh Hp IH]; intros fuel b acc Eb Hf; cbn [length] in Hf.
  - rewrite app_nil_r. destruct fuel; cbn [fork_from]; rewrite Z.ltb_irrefl; done.
  - destruct fuel as [|fuel]; [lia|]. cbn [fork_from]. pose proof (path_height _ _ _ _ _ Hp).
    rewrite (proj2 (Z.ltb_lt _ _)) by lia. unfold get_previous_header, get_block_header, option_to_not_found, ok_or.
    rewrite Eb, Hxp. cbn [from_store map_err leaving inside res_bind]. rewrite (IH fuel b _ Eb) by lia. cbn [map]. rewrite <- app_assoc. done.
Qed.

(** When the walk from [x] meets [y] first on the chain of [hs], every other common ancestor is below. *)
Lemma first_common d hs x l y z l' : header_path d x l y -> Forall (fun w => hs !! Z.to_nat (bh_height w) <> Some w) l ->
  header_path d x l' z -> hs !! Z.to_nat (bh_height z) = Some z -> bh_height z <= bh_height y.
Proof.
  intros Hy Hn Hz Hzz. destruct (Z.le_gt_cases (bh_height z) (bh_height y)) as [|Hlt]; [done|]. exfalso.
  destruct (path_prefix _ _ _ _ _ _ Hy Hz ltac:(lia)) as (l2 & -> & H2). pose proof (path_height _ _ _ _ _ H2) as Hl.
  destruct l2 as [|w l2]; [cbn [length] in Hl; lia|]. inversion H2; subst. apply Forall_app in Hn as [_ Hn]. apply Forall_cons in Hn as [Hn _]. done.
Qed.
End Paths.

(** ** The reorganisation *)

Section Fork.
  Context {DG : Digest} (ct : ChainTypes) {SS : SecpSizes} {SP : Secp} {Bitmap : Type} {BR : CRoaring Bitmap} `{!CRoaringLaws Bitmap}
    {B : Type -> Type} {TR : Trees Bitmap B}
    {AT : @AppendTree Bitmap BlockHeader HeaderEntry (B BlockHeader) BR (header_pmmrable ct) (@header_trees Bitmap B TR)}
    `{!PrunableTree Bitmap Output OutputIdentifier (B Output)}
    `{!PrunableTree Bitmap RangeProof RangeProof (B RangeProof)}
    `{!PrunableTree Bitmap TokenOutput TokenOutputIdentifier (B TokenOutput)}
    `{!AppendTree Bitmap TxKernel TxKernel (B TxKernel)}
    `{!AppendTree Bitmap TokenIssueProof TokenIssueProof (B TokenIssueProof)}
    `{!AppendTree Bitmap TokenTxKernel TokenTxKernel (B TokenTxKernel)}.
  Implicit Types (e : Extension B) (b : Batch) (s : SetState) (c : Contents) (d : ChainStore) (h : BlockHeader).

Lemma connected_path d c h c0 h0 : connected ct d c h c0 h0 -> exists l, header_path ct d h l h0.
Proof.
  induction 1 as [c h|c x sp l prev c0 h0 _ Ha _ Hx _ _ (l' & IH)]; [exists []; apply path_here|].
  exists (header x :: l'). eapply path_down; [exact Hx|apply Ha|apply (ab_height _ _ _ _ _ _ _ Ha)|exact IH].
Qed.

Lemma connected_tables d d' c h c0 h0 : same_tables d d' -> connected ct d c h c0 h0 -> connected ct d' c h c0 h0.
Proof.
  intros Ht. pose proof Ht as (_ & _ & _ & E4). induction 1; econstructor; eauto using same_tables_above.
  unfold stored in *. rewrite <- E4. done.
Qed.

Lemma connected_outputs d c h c0 h0 : connected ct d c h c0 h0 -> (length (cn_outputs c0) <= length (cn_outputs c))%nat.
Proof. induction 1; [done|]. cbn [block_contents cn_outputs]. rewrite length_app. lia. Qed.

Lemma connected_pruned d c h c0 h0 s : connected ct d c h c0 h0 -> set_pruned_before s c0 -> set_pruned_before s c.
Proof. intros Hc. destruct (connected_undo _ _ _ _ _ _ Hc) as (ps & Hps & _). eapply chain_pruned. exact Hps. Qed.

(** Rewinding the hash set from the head to an ancestor above the base *)
Lemma rewind_to_ancestor e b s current c0 fp cb hb :
  let d := content b in
  ext_inv e b s -> synced s -> connected ct d (contents b s) current c0 fp -> connected ct d c0 fp cb hb ->
  sizes_match hb cb -> last_chunk_used cb -> set_pruned_before s cb -> (bh_height fp = bh_height current -> fp = current) ->
  get_block_header b (last_block_h (ext_head e)) = Ok current ->
  exists e' b' s',
    ext_rewind (Bitmap := Bitmap) ct e b fp = Ok (e', b') /\ ext_inv e' b' s' /\ contents b' s' = c0 /\
    same_tables (content b') d /\ synced s' /\ discarded_state (Bitmap := Bitmap) s' = discarded_state (Bitmap := Bitmap) s /\
    ext_head e' = tip_from_header ct fp.
Proof.
  intros d He Hs Hc H0 Hz Hch Hp Hsame Hh. pose proof (connected_pruned _ _ _ _ _ _ H0 Hp) as Hp0.
  pose proof (rep_small _ _ (oi_outs _ _ _ _ _ _ _ (inv_coins _ _ _ (inv_trees _ _ _ He)))) as Hsm.
  pose proof (connected_outputs _ _ _ _ _ Hc) as Hlen. cbn [contents cn_outputs] in Hlen.
  pose proof (connected_last_chunk _ _ _ _ _ _ H0 Hch ltac:(lia)) as Hl0. pose proof (connected_height _ _ _ _ _ _ Hc) as Hle.
  destruct (Z.eq_dec (bh_height fp) (bh_height current)) as [E|Hne].
  - pose proof (Hsame E); subst current. assert (Ec : contents b s = c0).
    { inversion Hc as [|c x sp l prev c1 h1 _ Ha _ _ _ Hc1]; subst; [done|]. pose proof (connected_height _ _ _ _ _ _ Hc1).
      pose proof (ab_height _ _ _ _ _ _ _ Ha). lia. }
    rewrite <- Ec in *. destruct (ext_rewind_stays (Bitmap := Bitmap) ct e b s fp fp He Hs Hp0 (connected_sizes _ _ _ _ _ _ H0 Hz) Hl0 Hh ltac:(lia))
      as (e' & s' & E1 & I & K & T & Y & D). exists e', b, s'. done.
  - destruct (connected_undo _ _ _ _ _ _ Hc) as (ps & Hps & Hn). destruct Hl0 as (i & Hi & Hic).
    destruct (ext_rewind_undoes (Bitmap := Bitmap) ct e b s current c0 fp ps He Hs Hps (Hn ltac:(lia)) Hp0 ltac:(exists i; done) Hh)
      as (e' & b' & s' & E1 & I & K & T & S & Y & D). exists e', b', s'. done.
Qed.

Lemma rooms_discard s s' n : synced s -> synced s' -> discarded_state (Bitmap := Bitmap) s' = discarded_state (Bitmap := Bitmap) s -> rooms s n -> rooms s' n.
Proof.
  intros (P1 & P2 & P3 & P4 & P5) (Q1 & Q2 & Q3 & Q4 & Q5) E (R1 & R2 & R3 & R4 & R5). unfold rooms, fits in *.
  pose proof (f_equal (fun s => flushed (elems (st_outputs s))) E) as F1. pose proof (f_equal (fun s => flushed (elems (st_token_outputs s))) E) as F2.
  pose proof (f_equal (fun s => flushed (st_issues s)) E) as F3. pose proof (f_equal (fun s => flushed (st_kernels s)) E) as F4.
  pose proof (f_equal (fun s => flushed (st_token_kernels s)) E) as F5. cbn in F1, F2, F3, F4, F5.
  rewrite P1 in R1. rewrite P2 in R4. rewrite P3 in R2. rewrite P4 in R3. rewrite P5 in R5.
  rewrite F1, F2, F3, F4, F5, Q1, Q2, Q3, Q4, Q5. done.
Qed.

(** What the work starts from: the header tree, the stored headers and blocks, and the chain of connected blocks from a
    base that compaction has not passed to the head [current] *)
Record chain_state (ext : ExtensionPair B) b (g : BlockHeader) (f : FileState BlockHeader) s (current : BlockHeader)
    (cb : Contents) (hb : BlockHeader) (K : nat) : Prop := {
  cs_tree : headers_inv ct (AT := AT) (header_extension ext) (content b) g f;
  cs_tree_synced : pending f = [];
  cs_headers : headers_stored ct (content b) g;
  cs_header_dom k z : db_headers (content b) !! k = Some z -> list_dom (AppendTree := AT) z;
  cs_blocks : blocks_stored ct (content b) K;
  cs_set : ext_inv (extension ext) b s;
  cs_synced : synced s;
  cs_head : head_header b = Ok current /\ get_block_header b (last_block_h (ext_head (extension ext))) = Ok current;
  cs_chain : connected ct (content b) (contents b s) current cb hb;
  cs_base : sizes_match hb cb /\ last_chunk_used cb /\ set_pruned_before s cb
}.

Lemma reorganise ext b g f s current cb hb K header lh ext' b' :
  chain_state ext b g f s current cb hb K -> stored ct (content b) header -> header_path ct (content b) header lh hb ->
  fits f (Z.to_nat (bh_height header)) -> rooms s (K * Z.to_nat (bh_height header)) ->
  rewind_and_apply_fork (Bitmap := Bitmap) ct header ext b = Ok (ext', b') ->
  exists s' c0 fp f',
    connected ct (content b) (contents b s) current c0 fp /\ connected ct (content b') c0 fp cb hb /\
    connected ct (content b') (contents b' s') header c0 fp /\ ext_inv (extension ext') b' s' /\
    discarded_state (Bitmap := Bitmap) s' = discarded_state (Bitmap := Bitmap) s /\ same_chain (content b) (content b') /\
    headers_inv ct (AT := AT) (header_extension ext') (content b') g f' /\ last (view f') = Some header.
Proof.
  intros H Hx Hlh Hf Hr. destruct (cs_head _ _ _ _ _ _ _ _ _ H) as [Hcur Hext]. pose proof (cs_headers _ _ _ _ _ _ _ _ _ H) as Hd.
  destruct (cs_base _ _ _ _ _ _ _ _ _ H) as (Hz & Hch & Hp). pose proof (cs_chain _ _ _ _ _ _ _ _ _ H) as Hc. set (d := content b) in *.
  assert (Hsc : stored ct d current).
  { unfold get_block_header, option_to_not_found, ok_or in Hext. fold d in Hext. destruct (db_headers d !! _) as [z|] eqn:Ez; [|done].
    injection Hext as ->. unfold stored. rewrite (st_hash _ _ _ Hd _ _ Ez). done. }
  pose proof (st_height _ _ _ Hd _ _ Hsc) as Hhc. pose proof (st_height _ _ _ Hd _ _ Hx) as Hhx. unfold rewind_and_apply_fork.
  pose proof (header_fork_spec (Bitmap := Bitmap) ct (header_extension ext) d g f b header (cs_tree _ _ _ _ _ _ _ _ _ H) Hd eq_refl
    (cs_tree_synced _ _ _ _ _ _ _ _ _ H) Hx (cs_header_dom _ _ _ _ _ _ _ _ _ H) Hf) as Hfork.
  destruct (rewind_and_apply_header_fork _ _ _ b) as [h'| |]; cbn [leaving inside map_err res_bind extension header_extension]; [|done..].
  destruct Hfork as (f' & _ & _ & Hi' & Hhead & _). rewrite Hcur. cbn [from_store map_err leaving inside res_bind].
  destruct (walk_back_spec (Bitmap := Bitmap) ct h' d g f' b Hi' Hd eq_refl (Z.to_nat (bh_height current)) current [] Hsc ltac:(lia))
    as (l & fp & -> & Hl & Hfp & Hon & Hn). cbn [leaving inside map_err res_bind extension header_extension]. pose proof (st_height _ _ _ Hd _ _ Hfp) as Hhf.
  assert (Hlast : last (view f') = Some header).
  { destruct (hi_head _ _ _ _ _ Hi') as (z & Hzl & E). rewrite Hzl. f_equal. rewrite Hhead in E. apply (f_equal last_block_h) in E.
    change (header_hash ct header = header_hash ct z) in E.
    rewrite last_lookup in Hzl. destruct (hi_chain _ _ _ _ _ Hi' _ _ Hzl) as (_ & Hs & _). unfold stored in Hs, Hx. rewrite E in Hx. congruence. }
  pose proof (hi_chain _ _ _ _ _ Hi') as Hcf. destruct (chain_path ct d _ header _ fp Hcf Hlast Hon) as (lf & Hlf).
  pose proof (path_height _ _ _ _ _ Hlf) as Hlen. pose proof (path_height _ _ _ _ _ Hlh) as Hlenh.
  destruct (connected_path _ _ _ _ _ Hc) as (lb & Hlb).
  assert (Hbase : bh_height hb <= bh_height fp).
  { destruct (Z.lt_ge_cases (bh_height hb) 0) as [|Hpos]; [lia|]. eapply (first_common ct d (view f')); [exact Hl|exact Hn|exact Hlb|].
    assert (Hlv : bh_height header = Z.of_nat (length (view f')) - 1).
    { rewrite last_lookup in Hlast. destruct (Hcf _ _ Hlast) as (E & _). apply lookup_lt_Some in Hlast. lia. }
    destruct (lookup_lt_is_Some_2 (view f') (Z.to_nat (bh_height hb)) ltac:(lia)) as [z Hzz].
    destruct (chain_path ct d _ header _ z Hcf Hlast Hzz) as (lz & Hlz). destruct (Hcf _ _ Hzz) as (Ez & _).
    destruct (path_unique _ _ _ _ _ _ _ Hlh Hlz ltac:(lia)) as [<- _]. done. }
  destruct (connected_split _ _ _ _ _ _ _ _ Hc Hl Hbase) as (c0 & Hc0 & Hcb).
  destruct (rewind_to_ancestor (extension ext) b s current c0 fp cb hb (cs_set _ _ _ _ _ _ _ _ _ H) (cs_synced _ _ _ _ _ _ _ _ _ H) Hc0 Hcb Hz Hch Hp)
    as (e1 & b1 & s1 & -> & I1 & K1 & T1 & Y1 & D1 & _); [|exact Hext|].
  { intros E. pose proof (path_height _ _ _ _ _ Hl) as E'. destruct l; [inversion Hl; done|cbn [length] in E'; lia]. }
  cbn [leaving inside map_err res_bind extension header_extension]. pose proof T1 as (T2 & T3 & T4 & T5). fold d in T2, T3, T4, T5.
  assert (Hp1 : header_path ct (content b1) header lf fp).
  { clear -Hlf T5. induction Hlf; econstructor; eauto; unfold stored in *; rewrite T5; done. }
  rewrite (fork_from_path ct (content b1) header lf fp Hp1 (Z.to_nat (bh_height header)) b1 [] eq_refl ltac:(lia)). cbn [leaving inside map_err res_bind extension header_extension app].
  assert (Hd1 : headers_stored ct (content b1) g) by (destruct Hd; constructor; rewrite T5; done).
  assert (Hb1 : blocks_stored ct (content b1) K).
  { destruct (cs_blocks _ _ _ _ _ _ _ _ _ H) as [B1 B2 B3]. constructor; intros k y Hk; rewrite T4 in Hk.
    - destruct (B1 _ _ Hk) as [E1 E2]. split; [done|]. unfold stored. rewrite T5. done.
    - eapply B2; done.
    - eapply B3; done. }
  intros Hcon. pose proof (connect_path ct K g (content b1) header lf fp Hp1 Hd1 Hb1 ltac:(lia) (mkPair h' e1) b1 s1 ext' b' c0 I1 K1
    (connected_sizes _ _ _ _ _ _ Hcb Hz)) as Hcp.
  assert (Hr1 : rooms s1 (K * length lf)).
  { apply (rooms_discard s s1); [apply H|done|done|]. destruct Hr as (R1 & R2 & R3 & R4 & R5).
    assert (Hk : (K * length lf <= K * Z.to_nat (bh_height header))%nat) by (apply Nat.mul_le_mono_l; lia).
    repeat split; (eapply fits_le; [exact Hk|assumption]). }
  destruct (Hcp Hr1 ltac:(done) Hcon) as (s' & I' & C' & [S1 S2] & D' & H' & R' & P').
  exists s', c0, fp, f'. split; [exact Hc0|]. split; [apply P'; [eapply connected_tables; [|exact Hcb]|lia]|].
  { fold d. repeat split; congruence. }
  split; [exact C'|]. split; [exact I'|]. split; [congruence|]. split; [split; congruence|]. split; [|exact Hlast].
  rewrite H'. cbn [header_extension]. destruct Hi' as [J1 J2 J3 J4]. constructor; try done. intros i z Hiz. destruct (J2 i z Hiz) as (M1 & M2 & M3).
    split; [done|]. split; [|done]. unfold stored in *. rewrite S1, T5. done.
Qed.

(** C8: A reorganisation follows the fork: when [rewind_and_apply_fork] succeeds, the blocks of the old chain above the fork point
    are undone, and the trees, the indices and the accumulator hold the contents at the fork point with the blocks of the fork
    connected on top of them, each accepted by the ledger, committed to by its header, and undoable by the store; the
    header tree holds the ancestors of the new header. *)
Theorem reorganisation_follows_the_fork ext b g f s current cb hb K header lh ext' b' :
  chain_state ext b g f s current cb hb K -> stored ct (content b) header -> header_path ct (content b) header lh hb ->
  fits f (Z.to_nat (bh_height header)) -> rooms s (K * Z.to_nat (bh_height header)) ->
  rewind_and_apply_fork (Bitmap := Bitmap) ct header ext b = Ok (ext', b') ->
  exists s' c0 fp f',
    connected ct (content b) (contents b s) current c0 fp /\ connected ct (content b') c0 fp cb hb /\
    connected ct (content b') (contents b' s') header c0 fp /\ ext_inv (extension ext') b' s' /\
    headers_inv ct (AT := AT) (header_extension ext') (content b') g f' /\ last (view f') = Some header.
Proof.
  intros H1 H2 H3 H4 H5 H6. destruct (reorganise ext b g f s current cb hb K header lh ext' b' H1 H2 H3 H4 H5 H6)
    as (s' & c0 & fp & f' & A1 & A2 & A3 & A4 & _ & _ & A5 & A6). exists s', c0, fp, f'. done.
Qed.
End Fork.
