(* ===== verification/ForkExamples.v ===== *)
(** * A reorganisation

    Two blocks compete on top of a first one: the hash set is at the first of them and goes to the other.  Everything is
    computed by the definitions, from the files of an empty hash set on; the headers commit to the trees after their blocks. *)

From Stdlib Require Import ZArith Lia List Bool Sorted.
From stdpp Require Import base numbers list option gmap.
From S2P Require Import Prelude MmrIndex Pmmr PmmrTheorems Bytes Consensus Ser Bitmap PruneList DataFile FileBackend StoreTheorems PowTypes Transaction TxBody Committed Verifier Aggregate Block ChainTypes BitmapAccumulator ChainStore TxHashSet TreeLaws FileTrees TreeElements TxHashSetTheorems ViewTheorems RewindTheorems UnitTheorems OpenSet SetExamples Pipe HeaderTheorems ConnectTheorems ForkTheorems.

#[local] Existing Instance mod_digest.
#[local] Existing Instance mod_size.
#[local] Existing Instance demo_sizes.
#[local] Existing Instance demo_small.
#[local] Existing Instance demo_verify.

(** Commitments of the size of the trees: the number modulo 101 *)
Definition pt (z : Z) : Commitment := mkCommitment (be_bytes 33 (z mod 101)).
Definition pt_val (c : Commitment) : Z := be_val (commit_bytes c).
Definition sum_secp : Secp := {|
  commit_sum p n := s ← demo_sum (map pt_val p) (map pt_val n); Some (pt s);
  Committed.commit := fun v k => Some (pt (v * 3 + key_val k));
  commit_value v := Some (pt (v * 3));
  commitment_from_vec v := mkCommitment v;
  blind_sum p n := s ← demo_sum (map key_val p) (map key_val n); Some (mkSecretKey (be_bytes 32 s));
  secret_key_from_slice b := if (length b =? 32)%nat then Some (mkSecretKey b) else None;
  ZERO_KEY := mkSecretKey (replicate 32 0)
|}.
#[local] Existing Instance sum_secp.

#[local] Abbreviation ct := Mainnet.
#[local] Abbreviation F := (fun _ : Type => PMMRBackend (gset Z)).
#[local] Abbreviation trees_of := (chain_trees (Bitmap := gset Z) ct).
#[local] Instance fork_trees : Trees (gset Z) F := trees_of.
#[local] Existing Instance header_pmmrable.

(** A block that pays its reward to [pt out]; its kernel has the excess left. *)
Definition reward_body (height out : Z) : TransactionBody :=
  mkBody [] [] [mkOutput OCoinbase (pt out) (mkRangeProof (replicate 675 9) 675)] []
    [mkTxKernel KCoinbase (pt (out - 3 * reward ct height 0)) (mkSignature (replicate 64 3))] [].

Definition skeleton (height : Z) (prev prev_root : bytes) (leaves tag : Z) : BlockHeader :=
  mkHeader 1 height prev prev_root (1000 + height) ZERO_HASH_BYTES ZERO_HASH_BYTES ZERO_HASH_BYTES
    blind_zero (mmr_size leaves) (mmr_size leaves) 0 ZERO_HASH_BYTES ZERO_HASH_BYTES ZERO_HASH_BYTES ZERO_HASH_BYTES 0 0 0
    (mkPow difficulty_min 1 0 (mkPowProof 29 (replicate proofsize tag))) aux_data_default.

Definition with_roots (h : BlockHeader) (r : TxHashSetRoots) : BlockHeader :=
  mkHeader (bh_version h) (bh_height h) (prev_hash h) (prev_root h) (timestamp h) (pmmr_root (output_roots r)) (rproof_root r)
    (roots_kernel_root r) (total_kernel_offset h) (output_mmr_size h) (kernel_mmr_size h) (bits h) (roots_token_output_root r)
    (token_rproof_root r) (roots_token_issue_proof_root r) (roots_token_kernel_root r) (token_output_mmr_size h)
    (token_issue_proof_mmr_size h) (token_kernel_mmr_size h) (pow h) (btc_pow h).

Definition root_of_headers (hs : list BlockHeader) : bytes := default [] (headers_root ct hs).

Definition fork_0 : BlockHeader := skeleton 0 ZERO_HASH_BYTES ZERO_HASH_BYTES 0 3.
Definition fork_1 : BlockHeader := skeleton 1 (header_hash ct fork_0) (root_of_headers [fork_0]) 1 1.
Definition body_1 : TransactionBody := reward_body 1 20.

(** The trees and the indices after the first block *)
Definition base : res ErrorKind (TxHashSet F * Batch) :=
  let? trees := set_open ct no_set None in
  let? '(e, b) := plain (apply_block (Bitmap := gset Z) ct (extension_new trees tip_default) (batch empty_db) (mkBlock fork_1 aux_data_default body_1)) in
  let? trees := sync_trees e in
  Ok (trees, b).

(** A header on top of the first, with the roots of the trees after its block *)
Definition mined (body : TransactionBody) (tag : Z) : BlockHeader :=
  let h := skeleton 2 (header_hash ct fork_1) (root_of_headers [fork_0; fork_1]) 2 tag in
  match
    (let? '(trees, b) := base in
     let? '(e, _) := plain (apply_block (Bitmap := gset Z) ct (extension_new trees tip_default) b (mkBlock h aux_data_default body)) in
     ext_roots (Bitmap := gset Z) e) with
  | Ok r => with_roots h r
  | _ => h
  end.
Definition body_2a : TransactionBody := reward_body 2 40.
Definition body_2b : TransactionBody := reward_body 2 50.
Definition fork_2a : BlockHeader := Eval vm_compute in mined body_2a 5.
Definition fork_2b : BlockHeader := Eval vm_compute in mined body_2b 7.
Definition block_2a : Block := mkBlock fork_2a aux_data_default body_2a.
Definition block_2b : Block := mkBlock fork_2b aux_data_default body_2b.

(** The store of the two, at the first block *)
Definition fork_headers : list BlockHeader := [fork_0; fork_1; fork_2a; fork_2b].
Definition with_fork (b : Batch) : Batch :=
  update b (fun d => set_sums (set_blocks (set_headers (set_head d (Some (tip_from_header ct fork_1)))
    (list_to_map (map (fun h => (header_hash ct h, h)) fork_headers)))
    (list_to_map (map (fun x => (header_hash ct (header x), x)) [block_2a; block_2b])))
    {[header_hash ct fork_1 := mkBlockSums (pt 5) (pt 5)]}).

Definition at_2a (b : Batch) : Batch := update b (fun d => set_head d (Some (tip_from_header ct fork_2a))).

(** The header tree at that head *)
Definition fork_tree : res ErrorKind (PMMR (PMMRBackend (gset Z))) :=
  let? q := handle_new (Bitmap := gset Z) ct HeaderEntry header_elmt_size no_files false 1 None in
  let? h := plain (apply_header (Bitmap := gset Z) (B := F) ct (header_extension_new q tip_default) fork_0) in
  let? h := plain (apply_header (Bitmap := gset Z) (B := F) ct h fork_1) in
  let? h := plain (apply_header (Bitmap := gset Z) (B := F) ct h fork_2a) in
  synced_tree (TreeStore0 := header_trees) (B := F) (hext_pmmr h).

(** The whole run: the first block, the second on top of it, and the way to the other *)
Definition fork_run : res ErrorKind (ExtensionPair F * Batch) :=
  let? '(trees, b) := base in
  let? q := fork_tree in
  let h := header_extension_new q (tip_from_header ct fork_2a) in
  let? '(p, b) := plain (connect_blocks (Bitmap := gset Z) ct [header_hash ct fork_2a] (mkPair h (extension_new trees (tip_from_header ct fork_1))) (with_fork b)) in
  let? trees := sync_trees (extension p) in
  plain (rewind_and_apply_fork (Bitmap := gset Z) ct fork_2b (mkPair h (extension_new trees (tip_from_header ct fork_2a))) (at_2a b)).

Lemma fork_runs : is_ok fork_run = true.
Proof. vm_compute. reflexivity. Qed.

(** ** What the run starts from *)

#[local] Abbreviation set_inv := (ext_inv (TR := fork_trees) (Bitmap := gset Z) (B := F)).
Definition tree_laws : @AppendTree (gset Z) BlockHeader HeaderEntry (F BlockHeader) _ (header_pmmrable ct) (@header_trees (gset Z) F fork_trees) :=
  header_tree (Bitmap := gset Z) ct.

(** The store of the run *)
#[local] Opaque header_hash fork_0 fork_1 fork_2a fork_2b.
Record fork_store (d : ChainStore) : Prop := {
  fs_headers : db_headers d = list_to_map (map (fun h => (header_hash ct h, h)) fork_headers);
  fs_blocks : db_blocks d = list_to_map (map (fun x => (header_hash ct (header x), x)) [block_2a; block_2b])
}.

Lemma fork_lookup d k x : fork_store d -> db_headers d !! k = Some x -> x ∈ fork_headers /\ k = header_hash ct x.
Proof.
  intros [-> _] H. apply elem_of_list_to_map_2 in H. apply list_elem_of_fmap in H as (y & [= -> ->] & Hy). done.
Qed.
Lemma fork_block d k x : fork_store d -> db_blocks d !! k = Some x -> x ∈ [block_2a; block_2b] /\ k = header_hash ct (header x).
Proof.
  intros [_ ->] H. apply elem_of_list_to_map_2 in H. apply list_elem_of_fmap in H as (y & [= -> ->] & Hy). done.
Qed.
Definition header_map : gmap bytes BlockHeader := list_to_map (map (fun h => (header_hash ct h, h)) fork_headers).
Lemma fork_stored_all : Forall (fun h => header_map !! header_hash ct h = Some h) fork_headers.
Proof. repeat constructor; vm_compute; reflexivity. Qed.
Lemma fork_stored d h : fork_store d -> h ∈ fork_headers -> stored ct d h.
Proof.
  intros [E _] Hh. unfold stored. rewrite E. pose proof fork_stored_all as H. rewrite Forall_forall in H. exact (H h Hh).
Qed.

(** Facts on the four headers, by computation *)
Lemma fork_heights : Forall (fun h => 0 <= bh_height h < 2 ^ 31) fork_headers.
Proof. apply (bool_decide_unpack (Forall _ fork_headers)). vm_compute. exact I. Qed.
Lemma fork_first : Forall (fun h => bh_height h = 0 -> h = fork_0) fork_headers.
Proof. repeat (apply Forall_cons; split); [done|intros H; vm_compute in H; discriminate H..|apply Forall_nil; done]. Qed.
Lemma fork_links :
  Forall (fun h => 0 < bh_height h -> exists p, header_map !! prev_hash h = Some p /\ bh_height h = bh_height p + 1) fork_headers.
Proof.
  repeat (apply Forall_cons; split); [intros H; vm_compute in H; discriminate H|intros _..|apply Forall_nil; done].
  1: exists fork_0. 2, 3: exists fork_1. all: split; vm_compute; reflexivity.
Qed.

Lemma fork_headers_stored d : fork_store d -> headers_stored ct d fork_0.
Proof.
  intros Hd. pose proof fork_heights as H1. pose proof fork_first as H2. pose proof fork_links as H3.
  rewrite Forall_forall in H1. rewrite Forall_forall in H2. rewrite Forall_forall in H3.
  constructor; intros k x H; destruct (fork_lookup d k x Hd H) as [Hx Hk].
  - symmetry. exact Hk.
  - exact (H1 x Hx).
  - exact (H2 x Hx).
  - rewrite (fs_headers d Hd). exact (H3 x Hx).
Qed.

Lemma reward_dom h height out : block_dom (TR := fork_trees) (Bitmap := gset Z) (B := F) 1 (mkBlock h aux_data_default (reward_body height out)).
Proof.
  unfold block_dom, reward_body. cbn [block_body outputs token_outputs kernels token_kernels map length].
  repeat split; repeat constructor; try apply length_be_bytes; cbn; lia.
Qed.

Lemma fork_2a_member : fork_2a ∈ fork_headers.
Proof. do 2 right. left. Qed.
Lemma fork_2b_member : fork_2b ∈ fork_headers.
Proof. do 3 right. left. Qed.
Lemma fork_blocks_facts :
  Forall (fun x => header x ∈ fork_headers /\ block_dom (TR := fork_trees) (Bitmap := gset Z) (B := F) 1 x /\ outputs (block_body x) <> [])
    [block_2a; block_2b].
Proof.
  apply Forall_cons. split; [|apply Forall_cons; split; [|apply Forall_nil; done]].
  - split; [exact fork_2a_member|]. split; [apply (reward_dom fork_2a 2 40)|]. discriminate.
  - split; [exact fork_2b_member|]. split; [apply (reward_dom fork_2b 2 50)|]. discriminate.
Qed.

Lemma fork_blocks_stored d : fork_store d -> blocks_stored (TR := fork_trees) (Bitmap := gset Z) (B := F) ct d 1.
Proof.
  intros Hd. pose proof fork_blocks_facts as H1. rewrite Forall_forall in H1.
  constructor; intros k x H; destruct (fork_block d k x Hd H) as [Hx Hk]; destruct (H1 x Hx) as (M1 & M2 & M3).
  - split; [symmetry; exact Hk|]. apply fork_stored; [exact Hd|exact M1].
  - exact M2.
  - exact M3.
Qed.

(** ** The header tree *)

Lemma fork_doms : Forall (fun h => list_dom (AppendTree := tree_laws) h) fork_headers.
Proof. apply (bool_decide_unpack (Forall (fun h => wf_header_numbers h) fork_headers)). vm_compute. exact I. Qed.
Lemma header_dom d k x : fork_store d -> db_headers d !! k = Some x -> list_dom (AppendTree := tree_laws) x.
Proof. intros Hd H. pose proof fork_doms as F. rewrite Forall_forall in F. exact (F x (proj1 (fork_lookup d k x Hd H))). Qed.

Lemma fork_1_links : Forall (fun h => header_map !! prev_hash h = Some fork_1 /\ bh_height h = 2) [fork_2a; fork_2b].
Proof. repeat (apply Forall_cons; split); [split; vm_compute; reflexivity..|apply Forall_nil; done]. Qed.

(** One more header *)
Lemma next_header d h f (x y : BlockHeader) : headers_inv ct (AT := tree_laws) h d fork_0 f -> fork_store d -> last (view f) = Some y ->
  x ∈ fork_headers -> header_map !! prev_hash x = Some y -> bh_height x = bh_height y + 1 -> headers_root ct (view f) = Some (prev_root x) ->
  room f -> exists h', apply_header (Bitmap := gset Z) (B := F) ct h x = Ok h' /\ headers_inv ct (AT := tree_laws) h' d fork_0 (state_append f x) /\
    hext_head h' = tip_from_header ct x.
Proof.
  intros Hi Hd Hy Hx Hp Hh Hr Hm. pose proof (fork_stored d x Hd Hx) as Hs.
  destruct (apply_header_spec (Bitmap := gset Z) (B := F) (AT := tree_laws) ct h d fork_0 f x y Hi Hy Hs) as (_ & h' & E & _ & Hi').
  - rewrite (fs_headers d Hd). exact Hp.
  - exact Hh.
  - exact (header_dom d _ x Hd Hs).
  - exact Hm.
  - exists h'. split; [exact E|]. pose proof (Hi' Hr (fork_headers_stored d Hd)) as I2. split; [exact I2|].
    destruct (hi_head _ _ _ _ _ I2) as (z & Hz & ->). rewrite view_append, last_snoc in Hz. injection Hz as ->. reflexivity.
Qed.

Lemma fork_roots : headers_root ct [fork_0] = Some (prev_root fork_1) /\ headers_root ct [fork_0; fork_1] = Some (prev_root fork_2a).
Proof. split; vm_compute; reflexivity. Qed.
Lemma fork_1_above_0 : header_map !! prev_hash fork_1 = Some fork_0 /\ bh_height fork_1 = bh_height fork_0 + 1.
Proof. split; vm_compute; reflexivity. Qed.
Lemma fork_2a_above_1 : header_map !! prev_hash fork_2a = Some fork_1 /\ bh_height fork_2a = bh_height fork_1 + 1.
Proof. split; vm_compute; reflexivity. Qed.
Lemma fork_0_height : bh_height fork_0 = 0.
Proof. vm_compute. reflexivity. Qed.
Lemma fork_0_member : fork_0 ∈ fork_headers.
Proof. left. Qed.
Lemma fork_1_member : fork_1 ∈ fork_headers.
Proof. right. left. Qed.

Lemma fork_tree_inv d : fork_store d ->
  exists q f, fork_tree = Ok q /\ headers_inv ct (AT := tree_laws) (header_extension_new q (tip_from_header ct fork_2a)) d fork_0 f /\
    pending f = [] /\ view f = [fork_0; fork_1; fork_2a] /\ fits f 2.
Proof.
  intros Hd. destruct (open_append (T := BlockHeader) (Bitmap := gset Z) ct (PMMRable0 := header_pmmrable ct) (EC := header_entry_codec 1) (SE := header_elements ct))
    as (p & E & Hp & _); [intros n [= <-]; lia|]. unfold fork_tree. rewrite E. cbn [plain map_err res_bind].
  assert (Hroom : forall l : list BlockHeader, (length l < 10)%nat -> room (append_all (empty_elems (T := BlockHeader)) l)).
  { intros l Hl. unfold room. rewrite (proj1 (append_all_spec l _)). cbn [flushed pending empty_elems app length].
    change (2 ^ 30) with 1073741824. lia. }
  pose proof (fork_stored d _ Hd fork_0_member) as S0.
  destruct (apply_genesis (Bitmap := gset Z) (B := F) (AT := tree_laws) ct (header_extension_new p tip_default) d fork_0 empty_elems Hp eq_refl S0 fork_0_height
    (header_dom d _ _ Hd S0) (Hroom [] ltac:(cbn; lia))) as (h0 & E0 & I0). rewrite E0. cbn [plain map_err res_bind].
  destruct (next_header d h0 _ fork_1 fork_0 I0 Hd eq_refl fork_1_member (proj1 fork_1_above_0) (proj2 fork_1_above_0) (proj1 fork_roots)
    (Hroom [fork_0] ltac:(cbn; lia))) as (h1 & E1 & I1 & _). rewrite E1. cbn [plain map_err res_bind].
  destruct (next_header d h1 _ fork_2a fork_1 I1 Hd eq_refl fork_2a_member (proj1 fork_2a_above_1) (proj2 fork_2a_above_1) (proj2 fork_roots)
    (Hroom [fork_0; fork_1] ltac:(cbn; lia))) as (h2 & E2 & I2 & T2). rewrite E2. cbn [plain map_err res_bind].
  destruct (headers_inv_synced (B := F) (AT := tree_laws) ct h2 d fork_0 _ I2) as (q & E3 & I3). rewrite E3, T2 in *.
  exists q. eexists. split; [reflexivity|]. split; [exact I3|]. split; [reflexivity|]. split; reflexivity.
Qed.

(** ** The hash set *)

Definition first_block : Block := mkBlock fork_1 aux_data_default body_1.
Definition base_state : SetState := written (Bitmap := gset Z) (block_state (Bitmap := gset Z) first_block (mkSpent [] []) empty_state).

Lemma first_accepted : exists l, ledger_block first_block (ledger (batch empty_db) empty_state) = Some (mkSpent [] [], l).
Proof. eexists. vm_compute. reflexivity. Qed.
Lemma first_fits : block_fits (TR := fork_trees) (Bitmap := gset Z) (B := F) first_block empty_state.
Proof. apply (block_dom_fits (TR := fork_trees) (Bitmap := gset Z) (B := F) 1); [apply reward_dom|]. repeat split; vm_compute; reflexivity. Qed.
Lemma first_keeps : exists o, o ∈ outputs (block_body first_block) /\ output_commit o ∉ map input_commit (inputs (block_body first_block)).
Proof. eexists. split; [left|apply not_elem_of_nil]. Qed.

(** What the contents after the first block are, as far as the run needs it *)
Definition base_contents (c : Contents) : Prop :=
  sizes_match fork_1 c /\ last_chunk_used c /\ set_pruned_before base_state c /\ length (cn_outputs c) = 1%nat.

Lemma base_inv : exists trees b, base = Ok (trees, b) /\ db_spent (content b) !! header_hash ct fork_1 = Some [] /\
  forall b', same_indices b b' -> base_contents (contents b' base_state) /\ forall head, set_inv (extension_new trees head) b' base_state.
Proof.
  destruct (open_no_set (Bitmap := gset Z) ct) as (trees & Eo & Hi). destruct first_accepted as (l & Hl).
  pose proof (apply_block_spec (TR := fork_trees) (Bitmap := gset Z) (B := F) ct
    (extension_new trees tip_default) (batch empty_db) empty_state first_block (Hi tip_default) first_fits first_keeps) as H.
  rewrite Hl in H. destruct H as (e & b & E & (I & _ & _ & S & _) & L).
  destruct (sync_trees_inv _ _ _ I) as (trees' & Es & J). fold base_state in J. unfold base. fold first_block. rewrite Eo. cbn [res_bind].
  rewrite E. cbn [plain map_err res_bind]. rewrite Es. cbn [res_bind]. exists trees', b. split; [reflexivity|].
  split; [rewrite S; apply lookup_insert_eq|]. intros b' Hb.
  split; [|intros head; eapply ext_inv_index; [exact Hb|apply J]].
  assert (Ec : contents b' base_state = block_contents first_block (mkSpent [] []) (contents (batch empty_db) empty_state) l).
  { rewrite (contents_index b' b) by (destruct Hb as (? & ? & ?); split; [|split]; congruence). unfold base_state. rewrite contents_written.
    exact (block_state_contents (Bitmap := gset Z) (batch empty_db) b _ first_block _ l L). }
  rewrite Ec. split; [repeat split|]. split.
  - exists 0. split; [|vm_compute; discriminate]. cbn [block_contents cn_unspent]. apply leaves_after_iff. split; [right; vm_compute; split; [discriminate|reflexivity]|apply not_elem_of_nil].
  - split; [|reflexivity]. assert (Hp : set_Forall (fun _ => False) (∅ : gset Z)) by apply set_Forall_empty. repeat split; intros; exfalso; apply (Hp i); assumption.
Qed.

Lemma with_fork_store b : fork_store (content (with_fork b)).
Proof. split; reflexivity. Qed.
Lemma fork_path d x : fork_store d -> x ∈ [fork_2a; fork_2b] -> header_path ct d x [x] fork_1.
Proof.
  intros Hd Hx. assert (Hm : x ∈ fork_headers) by (do 2 right; exact Hx). pose proof fork_1_links as Fl. rewrite Forall_forall in Fl.
  destruct (Fl x Hx) as [H1 H2]. eapply path_down; [exact (fork_stored d x Hd Hm)|rewrite (fs_headers d Hd); exact H1|rewrite H2; reflexivity|apply path_here].
Qed.

Lemma written_fits {A} (f : FileState A) n : Z.of_nat (length (view f)) + Z.of_nat n < 2 ^ 30 -> fits (state_flush f) n.
Proof. unfold fits. cbn [state_flush flushed pending length]. lia. Qed.
Lemma written_rooms b s n h : sizes_match h (contents b s) ->
  Forall (fun z => z + Z.of_nat n < 2 ^ 30) [output_mmr_size h; kernel_mmr_size h; token_output_mmr_size h; token_issue_proof_mmr_size h; token_kernel_mmr_size h] ->
  rooms (written (Bitmap := gset Z) s) n.
Proof.
  intros (H1 & H2 & H3 & H4 & H5) Hn. rewrite H1, H2, H3, H4, H5 in Hn. rewrite !Forall_cons in Hn. destruct Hn as (N1 & N2 & N3 & N4 & N5 & _).
  unfold contents in *. cbn [cn_outputs cn_kernels cn_token_outputs cn_issues cn_token_kernels] in *.
  repeat split; apply written_fits;
    match goal with |- Z.of_nat ?l + _ < _ => pose proof (mmr_size_bounds (Z.of_nat l) ltac:(lia)) end; lia.
Qed.

Lemma pruned_discarded s s' c : discarded_state (Bitmap := gset Z) s' = discarded_state (Bitmap := gset Z) s -> set_pruned_before s c ->
  set_pruned_before (written (Bitmap := gset Z) s') c.
Proof.
  intros E (H1 & H2 & H3 & H4). pose proof (f_equal (fun s => pruned (st_outputs s)) E) as P1. pose proof (f_equal (fun s => pruned (st_rproofs s)) E) as P2.
  pose proof (f_equal (fun s => pruned (st_token_outputs s)) E) as P3. pose proof (f_equal (fun s => pruned (st_token_rproofs s)) E) as P4.
  cbn in P1, P2, P3, P4. unfold set_pruned_before, pruned_before in *. cbn [written st_outputs st_rproofs st_token_outputs st_token_rproofs abs_op pruned].
  rewrite P1, P2, P3, P4. done.
Qed.

(** The run goes through a state in which the reorganisation has all it needs. *)
Lemma fork_state : exists ext b f s cb ext' b',
  chain_state (AT := tree_laws) (Bitmap := gset Z) ct ext b fork_0 f s fork_2a cb fork_1 1 /\ fork_store (content b) /\
  fits f 2 /\ rooms s 2 /\ rewind_and_apply_fork (Bitmap := gset Z) ct fork_2b ext b = Ok (ext', b') /\
  hext_head (header_extension ext) = tip_from_header ct fork_2a.
Proof.
  pose proof fork_runs as R. unfold fork_run in R. destruct base_inv as (trees & b & E & Hsp & Hb). rewrite E in R. cbn [plain map_err res_bind] in R.
  destruct fork_tree as [q| |] eqn:Eq; cbn [res_bind] in R; [|discriminate R..].
  set (h := header_extension_new q (tip_from_header ct fork_2a)) in R.
  destruct (connect_blocks _ _ _ _) as [[p b1]| |] eqn:Ec; cbn [plain map_err res_bind] in R; [|discriminate R..].
  pose proof (with_fork_store b) as W. assert (Hs0 : same_indices b (with_fork b)) by (split; [|split]; reflexivity).
  destruct (Hb _ Hs0) as ((Z0 & U0 & P0 & N0) & I0). set (c0 := contents (with_fork b) base_state) in *.
  assert (R0 : rooms base_state (1 * length [fork_2a])).
  { destruct Z0 as (L1 & L2 & L3 & L4 & L5). repeat split; vm_compute; reflexivity. }
  pose proof (connect_path (TR := fork_trees) (Bitmap := gset Z) (B := F) ct 1 fork_0 (content (with_fork b)) fork_2a [fork_2a] fork_1
    (fork_path _ _ W ltac:(left)) (fork_headers_stored _ W) (fork_blocks_stored _ W) ltac:(vm_compute; discriminate)
    (mkPair h (extension_new trees (tip_from_header ct fork_1))) (with_fork b) base_state p b1 c0 (I0 _) eq_refl Z0 R0 ltac:(split; reflexivity) Ec)
    as (s1 & I1 & C1 & [T1 T2] & D1 & _).
  destruct (sync_trees_inv _ _ _ I1) as (trees1 & Es & J1). rewrite Es in R. cbn [res_bind] in R.
  set (ext := mkPair h (extension_new trees1 (tip_from_header ct fork_2a))) in R.
  destruct (rewind_and_apply_fork _ _ _ _) as [[ext' b']| |] eqn:Er; cbn [plain map_err] in R; [|discriminate R..].
  assert (W1 : fork_store (content (at_2a b1))) by (destruct W as [W1 W2]; split; [rewrite <- W1; exact T1|rewrite <- W2; exact T2]).
  destruct (fork_tree_inv _ W1) as (q' & f & Eq' & Hq & Hf & Hv & Hr). rewrite Eq in Eq'. injection Eq' as <-. fold h in Hq.
  assert (Hz1 : sizes_match fork_2a (contents b1 s1)) by (eapply connected_sizes; [exact C1|exact Z0]).
  assert (Hg : get_block_header (at_2a b1) (header_hash ct fork_2a) = Ok fork_2a).
  { pose proof (fork_stored _ _ W1 fork_2a_member) as H. unfold stored in H. unfold get_block_header, option_to_not_found, ok_or. rewrite H. reflexivity. }
  exists ext, (at_2a b1), f, (written (Bitmap := gset Z) s1), c0, ext', b'. split; [constructor|split; [exact W1|split; [|split; [|split; [exact Er|reflexivity]]]]].
  - exact Hq.
  - exact Hf.
  - exact (fork_headers_stored _ W1).
  - intros k z. exact (header_dom _ k z W1).
  - exact (fork_blocks_stored _ W1).
  - eapply ext_inv_index; [|apply J1]. split; [|split]; reflexivity.
  - apply written_synced.
  - split; exact Hg.
  - eapply connected_tables; [|replace (contents (at_2a b1) (written s1)) with (contents b1 s1); [exact C1|]].
    + repeat split.
    + rewrite <- (contents_written b1 s1). reflexivity.
  - split; [exact Z0|]. split; [exact U0|]. exact (pruned_discarded _ _ _ D1 P0).
  - exact Hr.
  - eapply written_rooms; [exact Hz1|]. repeat (apply Forall_cons; split); [vm_compute; reflexivity..|apply Forall_nil; done].
Qed.

Lemma reorganisation_follows_the_fork_witness : exists ext b s ext' b' s' c0 fp,
  head_header b = Ok fork_2a /\ rewind_and_apply_fork (Bitmap := gset Z) ct fork_2b ext b = Ok (ext', b') /\
  connected ct (content b) (contents b s) fork_2a c0 fp /\ connected ct (content b') (contents b' s') fork_2b c0 fp /\
  set_inv (extension ext') b' s'.
Proof.
  destruct fork_state as (ext & b & f & s & cb & ext' & b' & H & W & Hf & Hr & E & Eh0).
  destruct (reorganisation_follows_the_fork (AT := tree_laws) (Bitmap := gset Z) ct ext b fork_0 f s fork_2a cb fork_1 1 fork_2b [fork_2b] ext' b' H
    (fork_stored _ _ W fork_2b_member) (fork_path _ _ W ltac:(right; left)) Hf Hr E) as (s' & c0 & fp & f' & C1 & C2 & C3 & I & _).
  exists ext, b, s, ext', b', s', c0, fp. split; [apply H|]. split; [exact E|]. split; [exact C1|]. split; [exact C3|exact I].
Defined.

Lemma header_fork_ends_at_the_header_witness : exists h b h',
  hext_head h = tip_from_header ct fork_2a /\ rewind_and_apply_header_fork (Bitmap := gset Z) (B := F) ct fork_2b h b = Ok h' /\
  exists f' l y, headers_inv ct (AT := tree_laws) h' (content b) fork_0 f' /\ header_path ct (content b) fork_2b l y.
Proof.
  destruct fork_state as (ext & b & f & s & cb & ext' & b' & H & W & Hf & Hr & E & Eh0).
  pose proof (header_fork_ends_at_the_header (AT := tree_laws) (Bitmap := gset Z) ct (header_extension ext) (content b) fork_0 f b fork_2b
    (cs_tree _ _ _ _ _ _ _ _ _ _ H) (fork_headers_stored _ W) eq_refl (cs_tree_synced _ _ _ _ _ _ _ _ _ _ H) (fork_stored _ _ W fork_2b_member)
    (fun k z => header_dom _ k z W) Hf) as Hfork.
  unfold rewind_and_apply_fork in E. destruct (rewind_and_apply_header_fork _ _ _ _) as [h'| |] eqn:Eh; [|discriminate E..].
  destruct Hfork as (f' & l & y & I & _ & P & _). exists (header_extension ext), b, h'. split; [exact Eh0|]. split; [exact Eh|].
  exists f', l, y; split; [exact I|exact P].
Defined.
