(* ===== verification/PipeTheorems.v ===== *)
(** * What the pipeline does to the store

    Applying, rewinding and connecting blocks change the indices and the sums of a batch and nothing else of it; an
    accepted block is stored with its header, and becomes the head exactly when it is higher than the head. *)

From Stdlib Require Import ZArith Lia List Bool.
From stdpp Require Import base numbers list option gmap.
From S2P Require Import Prelude MmrIndex Pmmr Bytes Consensus Ser Bitmap PowTypes Transaction TxBody Committed Verifier Aggregate Block Pool ChainTypes BitmapAccumulator ChainStore TxHashSet Pipe.

(** The tables of the chain: the head, the tail, the headers and the blocks *)
Record kept (b b' : Batch) : Prop := {
  kept_committed : committed b' = committed b;
  kept_head : db_head (content b') = db_head (content b);
  kept_tail : db_tail (content b') = db_tail (content b);
  kept_headers : db_headers (content b') = db_headers (content b);
  kept_blocks : db_blocks (content b') = db_blocks (content b)
}.
#[export] Instance kept_preorder : PreOrder kept.
Proof.
  split; [constructor; done|]. intros b1 b2 b3 [] []. constructor; congruence.
Qed.

Create HintDb kept.

(** Splits a successful computation into its steps *)
Ltac succeeds E := repeat match type of E with
  | leaving _ _ = Ok _ => apply leaving_ok in E
  | inside _ _ = Ok _ => apply inside_ok in E
  | plain _ = Ok _ => apply plain_ok in E
  end.
Ltac binds H := repeat match type of H with
  | res_bind ?c _ = Ok _ => let E := fresh "E" in destruct c eqn:E; cbn [res_bind] in H; [succeeds E|discriminate H..]
  | (let '(_, _) := ?p in _) = _ => destruct p
  | (if ?c then _ else _) = _ => destruct c
  | Ok _ = Ok _ => injection H; clear H; intros; subst
  | Err _ = Ok _ => discriminate H
  | Panic = Ok _ => discriminate H
  end.

Lemma kept_update b f :
  db_head (f (content b)) = db_head (content b) -> db_tail (f (content b)) = db_tail (content b) ->
  db_headers (f (content b)) = db_headers (content b) -> db_blocks (f (content b)) = db_blocks (content b) -> kept b (update b f).
Proof. constructor; done. Qed.

Lemma from_store_ok {A} (c : res StoreError A) a : from_store c = Ok a -> c = Ok a.
Proof. destruct c; [intros [= ->]|..]; done. Qed.

Lemma kept_delete_output b c b' : delete_output_pos_height b c = Ok b' -> kept b b'.
Proof. unfold delete_output_pos_height. intros H. binds H. apply kept_update; done. Qed.
Lemma kept_delete_token_output b c b' : delete_token_output_pos_height b c = Ok b' -> kept b b'.
Proof. unfold delete_token_output_pos_height. intros H. binds H. apply kept_update; done. Qed.
Lemma kept_ignoring b (r : res StoreError Batch) : (forall b', r = Ok b' -> kept b b') -> kept b (ignoring b r).
Proof. destruct r; cbn; intros H; [apply H; done|reflexivity..]. Qed.

Section Kept.
  Context {DG : Digest} (ct : ChainTypes) {SS : SecpSizes} {SP : Secp} {Bitmap : Type} {BR : CRoaring Bitmap}
    {B : Type -> Type} {TR : Trees Bitmap B}.
  Implicit Types (e : Extension B) (b : Batch) (header : BlockHeader) (x : Block).

(** ** Applying a block *)

Lemma kept_apply_outputs outs height : forall e b acc r e' b',
  apply_outputs (Bitmap := Bitmap) outs height e b acc = Ok (r, e', b') -> kept b b'.
Proof.
  induction outs as [|o outs IH]; intros e b acc r e' b' H; cbn [apply_outputs] in H; binds H; [reflexivity|].
  etrans; [|eapply IH; exact H]. apply kept_update; done.
Qed.
Lemma kept_apply_inputs ins : forall e b acc sp r s e' b',
  apply_inputs (Bitmap := Bitmap) ins e b acc sp = Ok (r, s, e', b') -> kept b b'.
Proof.
  induction ins as [|i ins IH]; intros e b acc sp r s e' b' H; cbn [apply_inputs] in H; binds H; [reflexivity|].
  etrans; [|eapply IH; exact H]. eapply kept_delete_output, from_store_ok. eassumption.
Qed.
Lemma kept_apply_token_outputs outs height : forall e b e' b',
  apply_token_outputs (Bitmap := Bitmap) outs height e b = Ok (e', b') -> kept b b'.
Proof.
  induction outs as [|o outs IH]; intros e b e' b' H; cbn [apply_token_outputs] in H; binds H; [reflexivity|..];
    (etrans; [|eapply IH; exact H]); [etrans|]; apply kept_update; done.
Qed.
Lemma kept_apply_token_inputs ins : forall e b sp s e' b',
  apply_token_inputs (Bitmap := Bitmap) ins e b sp = Ok (s, e', b') -> kept b b'.
Proof.
  induction ins as [|i ins IH]; intros e b sp s e' b' H; cbn [apply_token_inputs] in H; binds H; [reflexivity|].
  etrans; [|eapply IH; exact H]. eapply kept_delete_token_output, from_store_ok. eassumption.
Qed.

Lemma kept_apply_block e b x e' b' : apply_block (Bitmap := Bitmap) ct e b x = Ok (e', b') -> kept b b'.
Proof.
  unfold apply_block. intros H. binds H.
  etrans; [eapply kept_apply_outputs; eassumption|]. etrans; [eapply kept_apply_inputs; eassumption|].
  etrans; [|apply kept_update; done]. etrans; [|eapply kept_apply_token_inputs; eassumption].
  etrans; [|eapply kept_apply_token_outputs; eassumption]. apply kept_update; done.
Qed.

(** ** Rewinding *)

Lemma kept_delete_outputs outs : forall b, kept b (delete_outputs outs b).
Proof.
  induction outs as [|o outs IH]; intros b; cbn; [reflexivity|]. etrans; [|apply IH]. apply kept_ignoring. apply kept_delete_output.
Qed.
Lemma kept_delete_token_outputs outs : forall b, kept b (delete_token_outputs outs b).
Proof.
  induction outs as [|o outs IH]; intros b; cbn; [reflexivity|]. etrans; [|apply IH]. apply kept_ignoring. apply kept_delete_token_output.
Qed.
Lemma kept_restore_inputs l : forall b, kept b (restore_inputs l b).
Proof. induction l as [|[i p] l IH]; intros b; cbn; [reflexivity|]. etrans; [|apply IH]. apply kept_update; done. Qed.
Lemma kept_restore_token_inputs l : forall b, kept b (restore_token_inputs l b).
Proof. induction l as [|[i p] l IH]; intros b; cbn; [reflexivity|]. etrans; [|apply IH]. apply kept_update; done. Qed.

Lemma kept_rewind_single e b header r e' b' :
  rewind_single_block (Bitmap := Bitmap) ct e b header = Ok (r, e', b') -> kept b b'.
Proof.
  unfold rewind_single_block. intros H.
  destruct (spent_positions (get_spent_index b _) _); cbn [leaving map_err res_bind] in H; [|discriminate H..].
  destruct (spent_positions (get_token_spent_index b _) _); cbn [leaving map_err res_bind] in H; [|discriminate H..].
  destruct (if _ =? 0 then _ else _); cbn [leaving map_err res_bind] in H; [|discriminate H..].
  destruct (from_store (get_block b _)) as [x| |]; cbn [leaving map_err res_bind] in H; [|discriminate H..]. injection H as _ _ <-.
  etrans; [apply kept_delete_outputs|]. etrans; [apply kept_delete_token_outputs|].
  etrans; [|destruct (get_token_spent_index b _); [apply kept_restore_token_inputs|reflexivity..]].
  destruct (get_spent_index b _); [apply kept_restore_inputs|reflexivity..].
Qed.
Lemma kept_rewind_blocks fuel : forall e b height current acc r e' b',
  rewind_blocks (Bitmap := Bitmap) ct fuel e b height current acc = Ok (r, e', b') -> kept b b'.
Proof.
  induction fuel as [|fuel IH]; intros e b height current acc r e' b' H; cbn [rewind_blocks] in H;
    (destruct (_ <? _); [|injection H as _ _ <-; reflexivity]); [discriminate H|].
  binds H. etrans; [eapply kept_rewind_single; eassumption|]. eapply IH. exact H.
Qed.
Lemma kept_rewind e b header e' b' : ext_rewind (Bitmap := Bitmap) ct e b header = Ok (e', b') -> kept b b'.
Proof.
  unfold ext_rewind. intros H. destruct (from_store _) as [hh| |]; cbn [leaving map_err res_bind] in H; [|discriminate H..].
  destruct (_ <=? _).
  - binds H. match goal with E : res_bind _ _ = Ok _ |- _ => binds E end. reflexivity.
  - binds H. match goal with E : res_bind _ _ = Ok _ |- _ => binds E end. eapply kept_rewind_blocks. eassumption.
Qed.

(** ** Connecting blocks *)

Lemma kept_connect_block x ext b ext' b' : connect_block (Bitmap := Bitmap) ct x ext b = Ok (ext', b') -> kept b b'.
Proof.
  unfold connect_block, apply_block_to_txhashset. intros H. binds H.
  match goal with E : res_bind _ _ = Ok _ |- _ => binds E end.
  etrans; [|eapply kept_apply_block; eassumption].
  match goal with E : batch_block_sums _ _ _ = Ok _ |- _ => unfold batch_block_sums in E; binds E end.
  match goal with E : verify_block_token_sums _ _ _ = Ok _ |- _ =>
    unfold verify_block_token_sums, save_block_token_sums in E; binds E; apply from_store_ok in E; binds E end.
  - apply kept_update; done.
  - etrans; apply kept_update; done.
Qed.
Lemma kept_connect_blocks l : forall ext b ext' b', connect_blocks (Bitmap := Bitmap) ct l ext b = Ok (ext', b') -> kept b b'.
Proof.
  induction l as [|h l IH]; intros ext b ext' b' H; cbn [connect_blocks] in H; binds H; [reflexivity|].
  etrans; [eapply kept_connect_block; eassumption|]. eapply IH. exact H.
Qed.
Lemma kept_fork header ext b ext' b' :
  rewind_and_apply_fork (Bitmap := Bitmap) ct header ext b = Ok (ext', b') -> kept b b'.
Proof.
  unfold rewind_and_apply_fork. intros H. binds H. etrans; [eapply kept_rewind; eassumption|]. eapply kept_connect_blocks. exact H.
Qed.
End Kept.

(** ** Units of work *)

Section Units.
  Context {DG : Digest} (ct : ChainTypes) {SS : SecpSizes} {SP : Secp} {SV : SecpVerify} {L : Type} `{!LruCache L}
    {Bitmap : Type} {BR : CRoaring Bitmap} {B : Type -> Type} {TR : Trees Bitmap B}.
  #[local] Abbreviation BlockContext := (BlockContext (L := L) (B := B)).
  Implicit Types (b : Batch) (header : BlockHeader) (x : Block) (ctx : BlockContext).

Lemma kept_commit_child b b1 : kept (child b) b1 -> kept b (commit_child b b1).
Proof. intros []. constructor; done. Qed.

Lemma kept_extending {A} (inner : ExtensionPair B -> Batch -> outcome (ExtensionPair B) (A * ExtensionPair B * Batch)) h trees b r h' trees' b' :
  (forall ext b r ext' b', inner ext b = Ok (r, ext', b') -> kept b b') ->
  extending (Bitmap := Bitmap) ct inner h trees b = (r, h', trees', b') -> kept b b'.
Proof.
  intros Hk. unfold extending. destruct (let? _ := _ in _) as [[hd hh]| |]; [|intros [= <- <- <- <-]; reflexivity..].
  destruct (inner _ _) as [[[a ext] b1]|[x ext]|] eqn:E; [|intros [= <- <- <- <-]; reflexivity..]. apply Hk in E.
  destruct (rollback _); [intros [= <- <- <- <-]; reflexivity|]. apply kept_commit_child in E.
  destruct (sync_trees _); intros [= <- <- <- <-]; exact E.
Qed.

Lemma kept_header_extending {A} (inner : HeaderExtension B -> Batch -> outcome (HeaderExtension B) (A * HeaderExtension B * Batch)) h b r h' b' :
  (forall ext b r ext' b', inner ext b = Ok (r, ext', b') -> kept b b') ->
  header_extending (Bitmap := Bitmap) ct inner h b = (r, h', b') -> kept b b'.
Proof.
  intros Hk. unfold header_extending. destruct (match head_hash h with Ok _ => _ | _ => _ end) as [hd| |]; [|intros [= <- <- <-]; reflexivity..].
  destruct (inner _ _) as [[[a ext] b1]|[x ext]|] eqn:E; [|intros [= <- <- <-]; reflexivity..]. apply Hk in E.
  destruct (hext_rollback _); [intros [= <- <- <-]; reflexivity|]. apply kept_commit_child in E.
  destruct (synced_tree _); intros [= <- <- <-]; exact E.
Qed.

(** ** Steps of the monad *)

Lemma reading_ok {A} (f : BlockContext -> res ErrorKind A) ctx a ctx' :
  reading f ctx = (Ok a, ctx') -> f ctx = Ok a /\ ctx' = ctx.
Proof. intros [= ? <-]. done. Qed.

(** The headers after a step: as before, or with [header] under its hash *)
Definition with_header header b b' : Prop :=
  committed b' = committed b /\ db_head (content b') = db_head (content b) /\ db_tail (content b') = db_tail (content b) /\
  db_blocks (content b') = db_blocks (content b) /\
  (db_headers (content b') = db_headers (content b) \/
   db_headers (content b') = <[header_hash ct header := header]> (db_headers (content b))).

Lemma kept_with_header header b b' : kept b b' -> with_header header b b'.
Proof. intros []. repeat split; auto. Qed.

Lemma process_block_header_ok header ctx ctx' u :
  process_block_header (Bitmap := Bitmap) ct header ctx = (Ok u, ctx') ->
  with_header header (ctx_batch ctx) (ctx_batch ctx') /\
  (is_ok (check_known ct header ctx) = true -> is_Some (db_headers (content (ctx_batch ctx')) !! header_hash ct header)).
Proof.
  unfold process_block_header. intros H. apply vbind_ok in H as (prev & c1 & H1 & H). apply reading_ok in H1 as [_ ->].
  apply vbind_ok in H as (known & c2 & H1 & H). apply reading_ok in H1 as [[= <-] ->].
  destruct (is_ok (check_known ct header ctx)) eqn:Ek; cbn [negb] in H; [|injection H as _ <-; split; [apply kept_with_header; reflexivity|done]].
  apply vbind_ok in H as (hh & c3 & H1 & H). apply reading_ok in H1 as [_ ->].
  apply vbind_ok in H as (seen & c4 & H1 & H). apply reading_ok in H1 as [[= <-] ->].
  destruct (get_block_header _ _) as [existing| |] eqn:Eg.
  1: destruct (has_more_work existing hh) eqn:Ew; cbn [negb] in H;
     [|injection H as _ <-; split; [apply kept_with_header; reflexivity|intros _];
       unfold get_block_header, option_to_not_found, ok_or in Eg; destruct (db_headers _ !! _); [eauto|done]].
  all: apply vbind_ok in H as (u1 & c5 & H1 & H); apply vbind_ok in H as (u2 & c6 & H2 & H); apply reading_ok in H2 as [_ ->];
    unfold header_unit in H1; destruct (header_extending _ _ _ _) as [[r h] b1] eqn:Ex; injection H1 as -> <-;
    injection H as _ <-; cbn [ctx_batch add_block_header on_batch with_batch save_block_header update content] in *;
    (apply kept_header_extending in Ex as [K1 K2 K3 K4 K5]; [|intros ext b r ext' b' Hi; binds Hi; reflexivity]);
    (split; [|intros _; cbn; rewrite lookup_insert_eq; eauto]); unfold with_header; cbn; rewrite ?K1, ?K2, ?K3, ?K5, <- ?K4;
    (split; [done|]; split; [done|]; split; [done|]; split; [done|]; right; rewrite K4; done).
Qed.

(** ** Blocks *)

(** What an accepted block leaves in the store *)
Record accepted_block x (b b' : Batch) (t : option Tip) : Prop := {
  ac_committed : committed b' = committed b;
  ac_prev : is_Some (db_headers (content b) !! prev_hash (Block.header x));
  ac_blocks : db_blocks (content b') = <[header_hash ct (Block.header x) := x]> (db_blocks (content b));
  ac_header : is_Some (db_headers (content b') !! header_hash ct (Block.header x));
  ac_headers : db_headers (content b') = db_headers (content b) \/
    db_headers (content b') = <[header_hash ct (Block.header x) := Block.header x]> (db_headers (content b));
  ac_tip : exists hd, db_head (content b) = Some hd /\
    if tip_height hd <? bh_height (Block.header x)
    then t = Some (tip_from_header ct (Block.header x)) /\ db_head (content b') = t
    else t = None /\ db_head (content b') = Some hd
}.

Lemma kept_block_work x prev ext b r ext' b' :
  block_work (Bitmap := Bitmap) ct x prev ext b = Ok (r, ext', b') -> kept b b'.
Proof.
  unfold block_work. intros H. binds H; (etrans; [eapply kept_fork; eassumption|]); eapply kept_connect_block; eassumption.
Qed.

Lemma validate_block_ok x ctx u ctx' : validate_block ct x ctx = (Ok u, ctx') -> ctx_batch ctx' = ctx_batch ctx.
Proof.
  unfold validate_block. destruct (get_previous_header _ _); [|discriminate..]. destruct (block_validate _ _ _ _) as [r vc].
  intros [= _ <-]. done.
Qed.

Lemma process_block_ok x ctx t ctx' : process_block (Bitmap := Bitmap) ct x ctx = (Ok t, ctx') ->
  accepted_block x (ctx_batch ctx) (ctx_batch ctx') t.
Proof.
  unfold process_block. intros H. apply vbind_ok in H as (u0 & c0 & H0 & H). apply reading_ok in H0 as [Hk ->].
  apply vbind_ok in H as (u1 & c1 & H1 & H). apply reading_ok in H1 as [_ ->].
  apply vbind_ok in H as (hd & c2 & H2 & H). apply reading_ok in H2 as [Hh ->]. apply from_store_ok in Hh.
  apply vbind_ok in H as (prev & c3 & H3 & H). apply reading_ok in H3 as [Hp ->]. apply map_err_ok_inv in Hp.
  apply vbind_ok in H as (orphan & c4 & H4 & H). apply reading_ok in H4 as [_ ->]. destruct orphan; [discriminate H|].
  apply vbind_ok in H as (u5 & c5 & H5 & H).
  assert (c5 = ctx) as -> by (destruct (_ <? _) in H5; [apply reading_ok in H5 as [_ ->]|injection H5 as _ <-]; done).
  apply vbind_ok in H as (u6 & c6 & H6 & H). apply process_block_header_ok in H6 as [(W1 & W2 & W3 & W4 & W5) W6].
  specialize (W6 ltac:(rewrite Hk; done)).
  apply vbind_ok in H as (u7 & c7 & H7 & H). apply validate_block_ok in H7.
  apply vbind_ok in H as (u8 & c8 & H8 & H). unfold set_unit in H8. destruct (extending _ _ _ _ _) as [[[r h] trees] b1] eqn:Ex.
  injection H8 as -> <-. apply kept_extending in Ex as [K1 K2 K3 K4 K5]; [|intros; eapply kept_block_work; eassumption].
  rewrite H7 in K1, K2, K3, K4, K5.
  unfold head, option_to_not_found, ok_or in Hh. destruct (db_head (content (ctx_batch ctx))) as [hd'|] eqn:Ed; [|done]. injection Hh as ->.
  apply vbind_ok in H as (u9 & c9 & H9 & H). injection H9 as _ <-.
  apply vbind_ok in H as (u10 & c10 & H10 & H). injection H10 as _ <-.
  assert (Hb : forall b : Batch, exists b2, (if is_ok (tail b) then b else save_body_tail b (tip_from_header ct (Block.header x))) = b2 /\
    committed b2 = committed b /\ db_head (content b2) = db_head (content b) /\ db_headers (content b2) = db_headers (content b) /\
    db_blocks (content b2) = db_blocks (content b)) by (intros b; destruct (is_ok (tail b)); eexists; done).
  cbn [ctx_batch with_batch] in H.
  destruct (Hb (save_block ct b1 x)) as (b2 & E2 & M1 & M2 & M3 & M4). rewrite E2 in H. cbn [save_block update content committed db_head db_headers db_blocks set_blocks] in M1, M2, M3, M4.
  unfold has_more_work in H. assert (Hpr : is_Some (db_headers (content (ctx_batch ctx)) !! prev_hash (Block.header x))).
  { unfold get_previous_header, get_block_header, option_to_not_found, ok_or in Hp. destruct (_ !! _); [eauto|done]. }
  assert (Hhd : exists hd0, db_head (content (ctx_batch ctx)) = Some hd0) by eauto.
  destruct (tip_height hd <? bh_height (Block.header x)) eqn:Ew.
  - apply vbind_ok in H as (u11 & c11 & H11 & H). injection H11 as _ <-. injection H as <- <-.
    constructor; cbn; rewrite ?M1, ?M3, ?M4, ?K1, ?K4, ?K5, ?W1, ?W4; try done. exists hd. rewrite Ew. done.
  - injection H as <- <-. constructor; cbn; rewrite ?M1, ?M3, ?M4, ?K1, ?K4, ?K5, ?W1, ?W4; try done.
    exists hd. rewrite Ew. split; [done|]. split; [done|]. congruence.
Qed.
End Units.
