(* ===== verification/OrphanPool.v ===== *)
(** * The pool of orphan blocks

    Models [OrphanBlockPool] of [chain/src/chain.rs]: the blocks whose previous block is not there yet, by hash, with an
    index of the hashes of each height.  A pool that grows past its limit drops the old blocks and then the highest ones.

    The time since a block was added is read from the clock; it is an argument of [add]. *)

From Stdlib Require Import ZArith Lia List Bool Sorted.
From stdpp Require Import base numbers list option gmap sorting.
From S2P Require Import Prelude MmrIndex Pmmr Bytes Consensus Ser PowTypes Transaction TxBody Committed Verifier Aggregate Block ChainTypes ChainStore.

Definition MAX_ORPHAN_SIZE : nat := 200.
(** [Duration::from_secs(MAX_ORPHAN_AGE_SECS)], in nanoseconds *)
Definition MAX_ORPHAN_AGE_SECS : Z := 300.
Definition from_secs (n : Z) : Z := n * 1000000000.

(** [Orphan]; [added] is the time of the clock *)
Record Orphan := mkOrphan { orphan_block : Block; orphan_opts : Z; added : Z }.

Record OrphanBlockPool := mkOrphans {
  orphans : gmap bytes Orphan;
  height_idx : gmap Z (list bytes);
  evicted : Z
}.

Definition orphans_new : OrphanBlockPool := mkOrphans ∅ ∅ 0.
Definition orphans_len (p : OrphanBlockPool) : nat := size (orphans p).
Definition len_evicted (p : OrphanBlockPool) : Z := evicted p.
Definition orphans_contains (p : OrphanBlockPool) (hash : bytes) : bool := bool_decide (is_Some (orphans p !! hash)).

Section OrphanPool.
  Context {DG : Digest} (ct : ChainTypes).
  Implicit Types (p : OrphanBlockPool) (o : Orphan) (k : bytes) (m : gmap bytes Orphan) (idx : gmap Z (list bytes)).

Definition orphan_hash o : bytes := header_hash ct (header (orphan_block o)).
Definition orphan_height o : Z := bh_height (header (orphan_block o)).

Definition remove_all (hs : list bytes) m : gmap bytes Orphan := foldl (fun m k => delete k m) m hs.

(** "evict too far ahead": the heights come from the highest to the lowest. *)
Fixpoint evict_far (heights : list Z) m idx : gmap bytes Orphan * gmap Z (list bytes) :=
  match heights with
  | [] => (m, idx)
  | h :: heights =>
    let '(m, idx) :=
      match idx !! h with
      | Some hs => (remove_all hs m, delete h idx)
      | None => (m, idx)
      end in
    if (size m <? MAX_ORPHAN_SIZE)%nat then (m, idx) else evict_far heights m idx
  end.

Definition is_young (elapsed : Orphan -> Z) o : bool := elapsed o <? from_secs MAX_ORPHAN_AGE_SECS.
Definition sorted_heights idx : list Z := merge_sort Z.le (map fst (map_to_list idx)).

Definition orphans_add (elapsed : Orphan -> Z) p o : OrphanBlockPool :=
  let idx := <[orphan_height o := default [] (height_idx p !! orphan_height o) ++ [orphan_hash o]]> (height_idx p) in
  let m := <[orphan_hash o := o]> (orphans p) in
  if (MAX_ORPHAN_SIZE <? size m)%nat then
    let old_len := size m in
    let m := filter (fun x => is_young elapsed x.2 = true) m in
    let '(m, idx) := evict_far (rev (sorted_heights idx)) m idx in
    let idx := filter (fun x => existsb (fun k => bool_decide (is_Some (m !! k))) x.2 = true) idx in
    mkOrphans m idx ((evicted p + Z.of_nat (old_len - size m)) mod U64)
  else mkOrphans m idx (evicted p).

(** [hs.iter().filter_map(|h| orphans.remove(h)).collect()] *)
Fixpoint take_all (hs : list bytes) m : list Orphan * gmap bytes Orphan :=
  match hs with
  | [] => ([], m)
  | k :: hs =>
    let '(l, m') := take_all hs (delete k m) in
    (match m !! k with Some o => o :: l | None => l end, m')
  end.
Definition remove_by_height p (height : Z) : option (list Orphan) * OrphanBlockPool :=
  match height_idx p !! height with
  | Some hs =>
    let '(l, m) := take_all hs (orphans p) in
    (Some l, mkOrphans m (delete height (height_idx p)) (evicted p))
  | None => (None, p)
  end.

(** ** The index finds every block *)

Definition indexed m idx : Prop :=
  forall k o, m !! k = Some o -> k = orphan_hash o /\ exists hs, idx !! orphan_height o = Some hs /\ k ∈ hs.
Definition pool_wf p : Prop := indexed (orphans p) (height_idx p) /\ (orphans_len p <= MAX_ORPHAN_SIZE)%nat.

Lemma new_wf : pool_wf orphans_new.
Proof. split; [intros k o H; cbn in H; rewrite lookup_empty in H; done|vm_compute; lia]. Qed.

Lemma remove_all_lookup hs : forall m k, remove_all hs m !! k = if bool_decide (k ∈ hs) then None else m !! k.
Proof.
  induction hs as [|k' hs IH]; intros m k; cbn; [done|]. fold (remove_all hs (delete k' m)). rewrite IH.
  destruct (decide (k ∈ hs)); [rewrite !bool_decide_eq_true_2 by set_solver; done|]. rewrite (bool_decide_eq_false_2 (k ∈ hs)) by done.
  destruct (decide (k = k')) as [->|]; [rewrite bool_decide_eq_true_2 by left; apply lookup_delete_eq|].
  rewrite bool_decide_eq_false_2 by set_solver. apply lookup_delete_ne. done.
Qed.

Lemma take_all_spec hs : forall m, (take_all hs m).2 = remove_all hs m /\
  (forall o, o ∈ (take_all hs m).1 <-> exists k, k ∈ hs /\ m !! k = Some o) /\
  (length (take_all hs m).1 + size (remove_all hs m) = size m)%nat.
Proof.
  induction hs as [|k hs IH]; intros m; cbn [take_all]; [split; [done|]; split; [|done]; intros o; split; [set_solver|intros (k & H & _); set_solver]|].
  destruct (IH (delete k m)) as (E & H & L). destruct (take_all hs (delete k m)) as [l m']. cbn [fst snd] in *. split; [exact E|].
  change (remove_all (k :: hs) m) with (remove_all hs (delete k m)). split.
  - intros o. destruct (m !! k) as [x|] eqn:Ex.
    + rewrite elem_of_cons, H. split.
      * intros [->|(k' & Hk & Hm)]; [exists k; split; [left|done]|]. apply lookup_delete_Some in Hm as [_ Hm]. exists k'. split; [right; done|done].
      * intros (k' & [->|Hk]%elem_of_cons & Hm); [left; congruence|]. destruct (decide (k = k')) as [<-|Hne]; [left; congruence|].
        right. exists k'. split; [done|]. rewrite lookup_delete_ne by done. done.
    + rewrite H. split.
      * intros (k' & Hk & Hm). apply lookup_delete_Some in Hm as [_ Hm]. exists k'. split; [right; done|done].
      * intros (k' & [->|Hk]%elem_of_cons & Hm); [congruence|]. exists k'. split; [done|]. rewrite lookup_delete_ne by congruence. done.
  - rewrite map_size_delete in L. destruct (m !! k) as [x|] eqn:Ex; cbn [length id] in L |- *; unfold id in L; [|lia].
    pose proof (map_size_ne_0_lookup_2 m k ltac:(eauto)) as Hsz. lia.
Qed.

(** ** Adding *)

Lemma drop_height_indexed m idx h hs : indexed m idx -> idx !! h = Some hs -> indexed (remove_all hs m) (delete h idx).
Proof.
  intros H Eh k o Hk. rewrite remove_all_lookup in Hk. case_bool_decide as Hin; [done|].
  destruct (H k o Hk) as (-> & hs' & Hi & Hk'). split; [done|]. exists hs'. split; [|done].
  apply lookup_delete_Some. split; [|done]. intros ->. congruence.
Qed.

Lemma evict_indexed heights : forall m idx, indexed m idx -> indexed (evict_far heights m idx).1 (evict_far heights m idx).2.
Proof.
  induction heights as [|h heights IH]; intros m idx H; [done|]. cbn [evict_far].
  assert (Hs : forall m' idx', (m', idx') = match idx !! h with Some hs => (remove_all hs m, delete h idx) | None => (m, idx) end -> indexed m' idx').
  { intros m' idx'. destruct (idx !! h) as [hs|] eqn:Eh; intros [= -> ->]; [|done]. apply drop_height_indexed; done. }
  destruct (match idx !! h with Some _ => _ | None => _ end) as [m' idx']. specialize (Hs m' idx' eq_refl).
  destruct (size m' <? MAX_ORPHAN_SIZE)%nat; [exact Hs|]. apply IH. exact Hs.
Qed.

Lemma evict_removes heights : forall m idx, indexed m idx -> (forall h, is_Some (idx !! h) -> h ∈ heights) ->
  (size (evict_far heights m idx).1 < MAX_ORPHAN_SIZE)%nat.
Proof.
  induction heights as [|h heights IH]; intros m idx H Hall; cbn [evict_far].
  - assert (m = ∅) as ->; [|cbn [fst]; rewrite map_size_empty; vm_compute; lia]. apply map_eq. intros k. rewrite lookup_empty.
    destruct (m !! k) as [o|] eqn:Ek; [|done]. destruct (H k o Ek) as (_ & hs & Hi & _). destruct (not_elem_of_nil (orphan_height o)).
    apply Hall. eauto.
  - pose proof (evict_indexed [h] m idx H) as H1. cbn [evict_far] in H1.
    destruct (match idx !! h with Some _ => _ | None => _ end) as [m' idx'] eqn:E.
    assert (H2 : indexed m' idx') by (destruct (size m' <? MAX_ORPHAN_SIZE)%nat; exact H1).
    destruct (Nat.ltb_spec (size m') MAX_ORPHAN_SIZE) as [Hlt|Hge]; [exact Hlt|]. apply IH; [exact H2|].
    intros h' Hh'. destruct (idx !! h) as [hs|] eqn:Eh; injection E as <- <-.
    + destruct Hh' as [x Hx]. apply lookup_delete_Some in Hx as [Hne Hx]. specialize (Hall h' ltac:(eauto)). set_solver.
    + specialize (Hall h' Hh'). apply elem_of_cons in Hall as [->|Hall]; [rewrite Eh in Hh'; destruct Hh'; done|exact Hall].
Qed.

Lemma evict_subset heights : forall m idx, (evict_far heights m idx).1 ⊆ m.
Proof.
  induction heights as [|h heights IH]; intros m idx; [done|]. cbn [evict_far].
  assert (Hs : forall m' idx', (m', idx') = match idx !! h with Some hs => (remove_all hs m, delete h idx) | None => (m, idx) end -> m' ⊆ m).
  { intros m' idx'. destruct (idx !! h) as [hs|]; intros [= -> ->]; [|done]. apply map_subseteq_spec. intros k o Hk.
    rewrite remove_all_lookup in Hk. case_bool_decide; done. }
  destruct (match idx !! h with Some _ => _ | None => _ end) as [m' idx']. specialize (Hs m' idx' eq_refl).
  destruct (size m' <? MAX_ORPHAN_SIZE)%nat; [exact Hs|]. etrans; [apply IH|exact Hs].
Qed.

Lemma sorted_heights_all idx h : is_Some (idx !! h) -> h ∈ rev (sorted_heights idx).
Proof.
  intros [hs Hh]. rewrite list_elem_of_In, <- in_rev, <- list_elem_of_In. unfold sorted_heights. rewrite merge_sort_Permutation. apply list_elem_of_fmap.
  exists (h, hs). split; [done|]. apply elem_of_map_to_list. exact Hh.
Qed.

Lemma indexed_subset m m' idx : m' ⊆ m -> indexed m idx -> indexed m' idx.
Proof. intros Hs H k o Hk. apply H. rewrite map_subseteq_spec in Hs. auto. Qed.

(** Entries of the index that find no block can go. *)
Lemma cleanup_indexed m idx : indexed m idx ->
  indexed m (filter (fun x => existsb (fun k => bool_decide (is_Some (m !! k))) x.2 = true) idx).
Proof.
  intros H k o Hk. destruct (H k o Hk) as (E & hs & Hi & Hin). split; [done|]. exists hs. split; [|done].
  apply map_lookup_filter_Some. split; [done|]. apply existsb_exists. exists k. split; [apply list_elem_of_In; done|].
  apply bool_decide_eq_true_2. eauto.
Qed.

Lemma insert_indexed m idx o : indexed m idx ->
  indexed (<[orphan_hash o := o]> m) (<[orphan_height o := default [] (idx !! orphan_height o) ++ [orphan_hash o]]> idx).
Proof.
  intros H k x Hx. apply lookup_insert_Some in Hx as [[<- <-]|[Hne Hx]].
  - split; [done|]. eexists. split; [apply lookup_insert_eq|]. apply elem_of_app. right. left.
  - destruct (H k x Hx) as (E & hs & Hi & Hin). split; [done|]. destruct (decide (orphan_height o = orphan_height x)) as [Eh|Hh].
    + rewrite Eh, lookup_insert_eq, Hi. eexists. split; [done|]. apply elem_of_app. left. done.
    + exists hs. rewrite lookup_insert_ne by done. done.
Qed.

Lemma add_wf elapsed p o : pool_wf p -> pool_wf (orphans_add elapsed p o).
Proof.
  intros [Hi Hl]. pose proof (insert_indexed _ _ o Hi) as H. unfold orphans_add.
  set (idx := <[_ := _]> (height_idx p)) in *. set (m := <[_ := o]> (orphans p)) in *.
  destruct (Nat.ltb_spec MAX_ORPHAN_SIZE (size m)) as [Hlt|Hge]; [|split; [exact H|exact Hge]].
  set (young := filter _ m). assert (Hy : indexed young idx) by (eapply indexed_subset; [apply map_filter_subseteq|exact H]).
  pose proof (evict_indexed (rev (sorted_heights idx)) young idx Hy) as H1.
  pose proof (evict_removes (rev (sorted_heights idx)) young idx Hy (sorted_heights_all idx)) as H2.
  destruct (evict_far _ young idx) as [m' idx']. split; [apply cleanup_indexed; exact H1|]. unfold orphans_len. cbn [orphans fst] in *. lia.
Qed.

(** What a height gives: all its blocks, and the others stay. *)
Lemma remove_by_height_spec p height : pool_wf p ->
  let '(r, p') := remove_by_height p height in
  pool_wf p' /\ (forall k o, orphans p !! k = Some o -> o ∈ default [] r \/ orphans p' !! k = Some o) /\
  (forall o, o ∈ default [] r -> orphans p !! orphan_hash o = Some o) /\
  (forall k o, orphans p' !! k = Some o -> orphan_height o <> height) /\
  (length (default [] r) + orphans_len p' = orphans_len p)%nat.
Proof.
  intros [Hi Hl]. unfold remove_by_height. destruct (height_idx p !! height) as [hs|] eqn:Eh.
  - destruct (take_all_spec hs (orphans p)) as (E & Ho & Hn). pose proof (drop_height_indexed _ _ _ _ Hi Eh) as Hd.
    destruct (take_all hs (orphans p)) as [l m]. cbn [fst snd default] in *. subst m. unfold pool_wf, orphans_len in *. cbn [orphans height_idx].
    split; [split; [exact Hd|lia]|]. split; [|split; [|split; [|exact Hn]]].
    + intros k o Hk. destruct (decide (k ∈ hs)) as [Hin|Hin]; [left; apply Ho; eauto|right].
      rewrite remove_all_lookup, bool_decide_eq_false_2 by done. done.
    + intros o Hin. apply Ho in Hin as (k & _ & Hk). destruct (Hi k o Hk) as [-> _]. done.
    + intros k o Hk <-. destruct (Hd k o Hk) as (_ & hs' & Hx & _). rewrite lookup_delete_eq in Hx. done.
  - split; [split; done|]. split; [intros; right; done|]. split; [intros o H; destruct (not_elem_of_nil o); exact H|]. split; [|done].
    intros k o Hk <-. destruct (Hi k o Hk) as (_ & hs & Hx & _). congruence.
Qed.

(** The states of a pool *)
Inductive pool_reachable : OrphanBlockPool -> Prop :=
| reach_new : pool_reachable orphans_new
| reach_add elapsed p o : pool_reachable p -> pool_reachable (orphans_add elapsed p o)
| reach_remove p height : pool_reachable p -> pool_reachable (remove_by_height p height).2.

Lemma reachable_wf p : pool_reachable p -> pool_wf p.
Proof.
  induction 1 as [|elapsed p o _ IH|p height _ IH]; [apply new_wf|apply add_wf; exact IH|].
  pose proof (remove_by_height_spec p height IH) as H. destruct (remove_by_height p height) as [r p']. apply H.
Qed.

(** C14: However blocks are added and taken out, and whatever the clock says, the pool never holds more than 200 orphans, every
    orphan is found under its height, and taking a height out gives every orphan of that height and keeps the others. *)
Theorem orphan_pool_is_bounded p height : pool_reachable p ->
  (orphans_len p <= 200)%nat /\
  let '(r, p') := remove_by_height p height in
  (forall k o, orphans p !! k = Some o -> orphan_height o = height -> o ∈ default [] r) /\
  (forall k o, orphans p !! k = Some o -> o ∈ default [] r \/ orphans p' !! k = Some o) /\
  (length (default [] r) + orphans_len p' = orphans_len p)%nat.
Proof.
  intros H. apply reachable_wf in H. split; [apply H|]. pose proof (remove_by_height_spec p height H) as Hr.
  destruct (remove_by_height p height) as [r p']. destruct Hr as (_ & H1 & _ & H3 & H4). split; [|split; [exact H1|exact H4]].
  intros k o Hk Hh. destruct (H1 k o Hk) as [Hin|Hk']; [exact Hin|]. destruct (H3 k o Hk' Hh).
Qed.

(** The same block added again stays one orphan, and the index grows by its hash every time: the limit does not see it. *)
Lemma index_grows_with_repeats elapsed p o n : height_idx p = ∅ -> orphans p = ∅ ->
  let q := Nat.iter n (fun p => orphans_add elapsed p o) p in
  (orphans_len q <= 1)%nat /\ default [] (height_idx q !! orphan_height o) = replicate n (orphan_hash o).
Proof.
  intros E1 E2. induction n as [|n IH]; cbn [Nat.iter nat_rect].
  - unfold orphans_len. rewrite E1, E2, lookup_empty, map_size_empty. split; [lia|done].
  - destruct IH as [L I]. set (q := Nat.iter n _ p) in *. change (nat_rect _ _ _ n) with q.
    assert (Hq : orphans q ⊆ {[orphan_hash o := o]}).
    { subst q. clear L I. induction n as [|n IH]; cbn [Nat.iter nat_rect]; [rewrite E2; apply map_empty_subseteq|].
      set (q := nat_rect _ _ _ n) in *. unfold orphans_add.
      assert (Hs : <[orphan_hash o := o]> (orphans q) ⊆ {[orphan_hash o := o]}).
      { apply map_subseteq_spec. intros k x Hx. apply lookup_insert_Some in Hx as [[<- <-]|[Hne Hx]]; [apply lookup_singleton_eq|].
        rewrite map_subseteq_spec in IH. apply IH. exact Hx. }
      destruct (_ <? _)%nat eqn:E; [|exact Hs]. apply Nat.ltb_lt in E. apply map_subseteq_size in Hs. rewrite map_size_singleton in Hs.
      unfold MAX_ORPHAN_SIZE in E. lia. }
    assert (Hs : (size (<[orphan_hash o := o]> (orphans q)) <= 1)%nat).
    { rewrite <- (map_size_singleton (orphan_hash o) o). apply map_subseteq_size. apply map_subseteq_spec. intros k x Hx.
      apply lookup_insert_Some in Hx as [[<- <-]|[Hne Hx]]; [apply lookup_singleton_eq|]. rewrite map_subseteq_spec in Hq. apply Hq. exact Hx. }
    unfold orphans_add. rewrite (proj2 (Nat.ltb_ge _ _)) by (unfold MAX_ORPHAN_SIZE; lia). cbn [orphans height_idx]. split; [exact Hs|].
    rewrite lookup_insert_eq, I. cbn [default]. rewrite <- replicate_S_end. done.
Qed.
End OrphanPool.
