(* ===== verification/Chain.v ===== *)
(** * The chain

    Models [chain/src/chain.rs]: the facade that owns the store, the trees and the orphans, runs the pipeline in batches of
    the store, and answers the queries of the other parts of the node.

    An operation passes the chain along and returns it also when it fails.  The locks are not modelled: operations follow
    each other.  The calls of the adapter are kept as a list, and the clock is a sequence of readings.  Opening the files
    of the trees is the part of [OpenSet]; here the trees are arguments. *)

From Stdlib Require Import ZArith Lia List Bool.
From stdpp Require Import base numbers list option gmap.
From S2P Require Import Prelude MmrIndex Pmmr MerkleProof Bytes Compact Consensus Ser Bitmap PowTypes Transaction TxBody Committed Verifier Aggregate Block Pool ChainTypes BitmapAccumulator ChainStore TxHashSet TxHashSetState OpenSet Pipe OrphanPool.

(** The readings of [Instant::now()] *)
Class Clock := { instant : nat -> Z }.

Section Chain.
  Context {DG : Digest} (ct : ChainTypes) {SS : SecpSizes} {SP : Secp} {SV : SecpVerify} {CK : Clock} {L : Type} `{!LruCache L}
    {Bitmap : Type} {BR : CRoaring Bitmap} {B : Type -> Type} {TR : Trees Bitmap B}.
  #[local] Abbreviation tree T := (PMMR (B T)).

(** [Chain] *)
Record Chain := mkChain {
  chain_store : ChainStore;
  chain_adapter : list (Block * BlockStatus * Z);
  chain_orphans : OrphanBlockPool;
  chain_txhashset : TxHashSet B;
  chain_header_pmmr : tree BlockHeader;
  chain_sync_pmmr : tree BlockHeader;
  chain_verifier_cache : LruVerifierCache L;
  chain_pow_verifier : BlockHeader -> bool;
  archive_mode : bool;
  chain_genesis : BlockHeader;
  clock_readings : nat
}.
Implicit Types (c : Chain) (b : Batch) (header : BlockHeader).
#[local] Abbreviation M := (vm Chain ErrorKind).

Definition with_store c (s : ChainStore) : Chain :=
  mkChain s (chain_adapter c) (chain_orphans c) (chain_txhashset c) (chain_header_pmmr c) (chain_sync_pmmr c)
    (chain_verifier_cache c) (chain_pow_verifier c) (archive_mode c) (chain_genesis c) (clock_readings c).
Definition with_trees c (trees : TxHashSet B) (h : tree BlockHeader) (cache : LruVerifierCache L) : Chain :=
  mkChain (chain_store c) (chain_adapter c) (chain_orphans c) trees h (chain_sync_pmmr c)
    cache (chain_pow_verifier c) (archive_mode c) (chain_genesis c) (clock_readings c).
Definition with_sync c (h : tree BlockHeader) : Chain :=
  mkChain (chain_store c) (chain_adapter c) (chain_orphans c) (chain_txhashset c) (chain_header_pmmr c) h
    (chain_verifier_cache c) (chain_pow_verifier c) (archive_mode c) (chain_genesis c) (clock_readings c).
Definition with_orphans c (p : OrphanBlockPool) (readings : nat) : Chain :=
  mkChain (chain_store c) (chain_adapter c) p (chain_txhashset c) (chain_header_pmmr c) (chain_sync_pmmr c)
    (chain_verifier_cache c) (chain_pow_verifier c) (archive_mode c) (chain_genesis c) readings.
(** [adapter.block_accepted] *)
Definition block_accepted (x : Block) (status : BlockStatus) (opts : Z) c : Chain :=
  mkChain (chain_store c) (chain_adapter c ++ [(x, status, opts)]) (chain_orphans c) (chain_txhashset c) (chain_header_pmmr c)
    (chain_sync_pmmr c) (chain_verifier_cache c) (chain_pow_verifier c) (archive_mode c) (chain_genesis c) (clock_readings c).

(** ** Processing blocks *)

(** [new_ctx] *)
Definition new_ctx c (opts : Z) (h : tree BlockHeader) : BlockContext :=
  mkCtx opts (chain_pow_verifier c) (chain_txhashset c) h (batch (chain_store c)) (chain_verifier_cache c).

(** [determine_status] *)
Definition determine_status (head : option Tip) (prev_head : Tip) : BlockStatus :=
  match head with
  | Some head =>
    if bool_decide (prev_block_h head = last_block_h prev_head) then BNext
    else BReorg (saturating_sub (tip_height prev_head) (tip_height head) + 1)%u64
  | None => BFork
  end.

(** The error that a rejected block gives *)
Definition rejection (e : ErrorKind) : ErrorKind :=
  match e with
  | ChainTypes.Orphan => ChainTypes.Orphan
  | Unfit => Unfit
  | BitDifficultyTooLow | BadBitDiffbits | InvalidCoinbase | InvalidMerklebranch => BadAuxDataBlock
  | _ => COther
  end.

Definition add_orphan (x : Block) (opts : Z) c : Chain :=
  let orphan := mkOrphan x opts (instant (clock_readings c)) in
  let now := instant (S (clock_readings c)) in
  with_orphans c (orphans_add ct (fun o => saturating_sub now (added o)) (chain_orphans c) orphan) (S (S (clock_readings c))).

(** [process_block_single]: the batch is committed only when the block is accepted *)
Definition process_block_single (x : Block) (opts : Z) : M (option Tip) := fun c =>
  let ctx := new_ctx c opts (chain_header_pmmr c) in
  match from_store (head (ctx_batch ctx)) with
  | Ok prev_head =>
    let '(maybe_new_head, ctx) := process_block (Bitmap := Bitmap) ct x ctx in
    let c := with_trees c (txhashset ctx) (header_pmmr ctx) (verifier_cache ctx) in
    match maybe_new_head with
    | Ok head =>
      let c := with_store c (commit (ctx_batch ctx)) in
      (Ok head, block_accepted x (determine_status head prev_head) opts c)
    | Err e => (Err (rejection e), match e with ChainTypes.Orphan => add_orphan x opts c | _ => c end)
    | Panic => (Panic, c)
    end
  | Err e => (Err e, c)
  | Panic => (Panic, c)
  end.

(** [for orphan in orphans]: whether one was accepted, and the height of the last that was *)
Fixpoint try_orphans (l : list Orphan) (accepted : bool * Z) : M (bool * Z) :=
  match l with
  | [] => vret accepted
  | o :: l =>
    let@ res := vtry (process_block_single (orphan_block o) (orphan_opts o)) in
    try_orphans l (match res with Some _ => (true, orphan_height o) | None => accepted end)
  end.

(** [check_orphans].  A turn that goes on has taken an orphan out for good, so that the number of orphans is enough
    fuel (lemma [check_spec] of [ChainTheorems]). *)
Fixpoint check_orphans (fuel : nat) (height : Z) : M unit :=
  match fuel with
  | O => vlift Panic
  | S fuel => fun c =>
    match remove_by_height (chain_orphans c) height with
    | (Some l, p) =>
      (let@ accepted := try_orphans l (false, height) in
       if accepted.1 then check_orphans fuel (accepted.2 + 1)%u64 else vret tt)
        (with_orphans c p (clock_readings c))
    | (None, p) => (Ok tt, with_orphans c p (clock_readings c))
    end
  end.

(** [Chain::process_block] *)
Definition chain_process_block (x : Block) (opts : Z) : M (option Tip) :=
  let@ head := process_block_single x opts in
  let@ _ := fun c => check_orphans (S (orphans_len (chain_orphans c))) (bh_height (Block.header x) + 1)%u64 c in
  vret head.

(** ** Processing headers *)

(** A step of the pipeline in a batch of its own, on the header tree or on the sync tree; it is committed on success *)
Definition in_batch {A} (sync : bool) (opts : Z) (step : vm BlockContext ErrorKind A) : M A := fun c =>
  let '(r, ctx) := step (new_ctx c opts (if sync then chain_sync_pmmr c else chain_header_pmmr c)) in
  let c :=
    if sync then with_sync (with_trees c (txhashset ctx) (chain_header_pmmr c) (verifier_cache ctx)) (header_pmmr ctx)
    else with_trees c (txhashset ctx) (header_pmmr ctx) (verifier_cache ctx) in
  (r, if is_ok r then with_store c (commit (ctx_batch ctx)) else c).

(** [Chain::process_block_header], [Chain::sync_block_headers] *)
Definition chain_process_block_header header (opts : Z) : M unit :=
  in_batch false opts (process_block_header (Bitmap := Bitmap) ct header).
Definition chain_sync_block_headers (headers : list BlockHeader) (opts : Z) : M unit :=
  let@ _ := in_batch true opts (sync_block_headers (Bitmap := Bitmap) ct headers) in
  match last headers with
  | Some header => in_batch false opts (process_block_header (Bitmap := Bitmap) ct header)
  | None => vret tt
  end.

(** [rebuild_sync_mmr] *)
Definition rebuild_sync_mmr (sync_head : Tip) : M unit := fun c =>
  let b := batch (chain_store c) in
  match from_store (get_block_header b (last_block_h sync_head)) with
  | Ok header =>
    let '(r, h, b) := header_extending (Bitmap := Bitmap) ct
      (fun h b => let? h := rewind_and_apply_header_fork (Bitmap := Bitmap) ct header h b in Ok (tt, h, b)) (chain_sync_pmmr c) b in
    let c := with_sync c h in
    (r, if is_ok r then with_store c (commit b) else c)
  | Err e => (Err e, c)
  | Panic => (Panic, c)
  end.

(** [is_orphan], [orphans_evicted_len], [orphans_len] *)
Definition is_orphan c (hash : bytes) : bool := orphans_contains (chain_orphans c) hash.
Definition orphans_evicted_len c : Z := len_evicted (chain_orphans c).
Definition chain_orphans_len c : nat := orphans_len (chain_orphans c).

(** ** Queries of the store and of the header tree *)

(** [head], [tail], [head_header], [get_block], [get_block_header], [get_previous_header], [get_block_sums],
    [get_block_token_sums], [block_exists]: reads of the committed store *)
Definition store_batch c : Batch := batch (chain_store c).
Definition chain_head c : res ErrorKind Tip := from_store (head (store_batch c)).
Definition chain_tail c : res ErrorKind Tip := from_store (tail (store_batch c)).
Definition chain_head_header c : res ErrorKind BlockHeader := from_store (head_header (store_batch c)).
Definition chain_get_block c (h : bytes) : res ErrorKind Block := from_store (get_block (store_batch c) h).
Definition chain_get_block_header c (h : bytes) : res ErrorKind BlockHeader := from_store (get_block_header (store_batch c) h).
Definition chain_get_previous_header c header : res ErrorKind BlockHeader := from_store (get_previous_header (store_batch c) header).
Definition chain_get_block_sums c (h : bytes) : res ErrorKind BlockSums := from_store (get_block_sums (store_batch c) h).
Definition chain_get_block_token_sums c (h : bytes) : res ErrorKind BlockTokenSums :=
  from_store (get_block_token_sums ct (store_batch c) h).
Definition chain_block_exists c (h : bytes) : bool := block_exists (store_batch c) h.

(** [read_header_head], [header_head], [get_sync_head] *)
Definition read_header_head c (pmmr : tree BlockHeader) : res ErrorKind Tip :=
  let? hash := head_hash (Bitmap := Bitmap) pmmr in
  let? header := chain_get_block_header c hash in
  Ok (tip_from_header ct header).
Definition chain_header_head c : res ErrorKind Tip := read_header_head c (chain_header_pmmr c).
Definition get_sync_head c : res ErrorKind Tip := read_header_head c (chain_sync_pmmr c).

(** [Chain::get_header_hash_by_height], [Chain::get_header_by_height], [Chain::is_on_current_chain] *)
Definition chain_header_hash_by_height c (height : Z) : res ErrorKind bytes :=
  get_header_hash_by_height (Bitmap := Bitmap) (chain_header_pmmr c) height.
Definition chain_header_by_height c (height : Z) : res ErrorKind BlockHeader :=
  let? hash := chain_header_hash_by_height c height in
  chain_get_block_header c hash.
Definition chain_is_on_current_chain c header : res ErrorKind unit :=
  let? chain_header := chain_header_by_height c (bh_height header) in
  if bool_decide (header_hash ct chain_header = header_hash ct header) then Ok tt else Err COther.

(** [txhashset_archive_header] *)
Definition txhashset_archive_header c : res ErrorKind BlockHeader :=
  let sync_threshold := state_sync_threshold ct in
  let? body_head := chain_head c in
  let archive_interval := txhashset_archive_interval ct in
  let txhashset_height := saturating_sub (tip_height body_head) sync_threshold in
  chain_header_by_height c (saturating_sub txhashset_height (txhashset_height mod archive_interval)).

(** ** Queries of the trees *)

(** [get_unspent_output_at], [get_unspent_token_output_at], [validate_tx] *)
Definition chain_utxo_view {A} c (inner : UTXOView B -> Batch -> res ErrorKind A) : res ErrorKind A :=
  with_utxo_view inner (chain_header_pmmr c) (chain_txhashset c) (chain_store c).
Definition chain_unspent_output_at c (pos : Z) : res ErrorKind Output :=
  chain_utxo_view c (fun utxo _ => get_unspent_output_at (Bitmap := Bitmap) utxo pos).
Definition chain_unspent_token_output_at c (pos : Z) : res ErrorKind TokenOutput :=
  chain_utxo_view c (fun utxo _ => get_unspent_token_output_at (Bitmap := Bitmap) utxo pos).
Definition chain_validate_tx c (tx : Transaction) : res ErrorKind unit :=
  chain_utxo_view c (fun utxo b => view_validate_tx (Bitmap := Bitmap) utxo b tx).

(** [Chain::get_unspent], [Chain::get_token_unspent] *)
Definition chain_get_unspent c (output_ref : OutputIdentifier) : res ErrorKind (option CommitPos) :=
  get_unspent (Bitmap := Bitmap) (chain_txhashset c) (chain_store c) output_ref.
Definition chain_get_token_unspent c (output_ref : TokenOutputIdentifier) : res ErrorKind (option CommitPos) :=
  get_token_unspent (Bitmap := Bitmap) (chain_txhashset c) (chain_store c) output_ref.

(** [next_block_height], [Chain::verify_coinbase_maturity], [verify_tx_lock_height] *)
Definition next_block_height c : res ErrorKind Z :=
  let? bh := chain_head_header c in Ok (bh_height bh + 1)%u64.
Definition chain_coinbase_maturity c (tx : Transaction) : res ErrorKind unit :=
  let? height := next_block_height c in
  chain_utxo_view c (fun utxo b => view_coinbase_maturity (Bitmap := Bitmap) ct utxo (inputs (body tx)) height b).
Definition verify_tx_lock_height c (tx : Transaction) : res ErrorKind unit :=
  let? height := next_block_height c in
  if lock_height (body tx) <=? height then Ok tt else Err TxLockHeight.

(** [get_header_for_output], [get_header_for_token_output] *)
Definition header_for_pos c (output_pos : res ErrorKind (option CommitPos)) : res ErrorKind BlockHeader :=
  let? o := output_pos in
  match o with
  | Some o =>
    let? hash := chain_header_hash_by_height c (cp_height o) in
    chain_get_block_header c hash
  | None => Err OutputNotFound
  end.
Definition get_header_for_output c (output_ref : OutputIdentifier) : res ErrorKind BlockHeader :=
  header_for_pos c (chain_get_unspent c output_ref).
Definition get_header_for_token_output c (output_ref : TokenOutputIdentifier) : res ErrorKind BlockHeader :=
  header_for_pos c (chain_get_token_unspent c output_ref).

(** [block_height_range_to_pmmr_indices], [block_height_range_to_token_pmmr_indices] *)
Definition height_range_to_indices (size_of : BlockHeader -> Z) c (start_block_height : Z) (end_block_height : option Z)
    : res ErrorKind (Z * Z) :=
  let? end_block_height :=
    match end_block_height with
    | Some h => Ok h
    | None => let? h := chain_head_header c in Ok (bh_height h)
    end in
  let? prev_to_start_header := chain_header_by_height c (saturating_sub start_block_height 1) in
  let? end_header := chain_header_by_height c end_block_height in
  Ok ((size_of prev_to_start_header + 1)%u64, size_of end_header).
Definition block_height_range_to_pmmr_indices c := height_range_to_indices output_mmr_size c.
Definition block_height_range_to_token_pmmr_indices c := height_range_to_indices token_output_mmr_size c.

(** [get_output_pos], [get_token_output_pos] *)
Definition chain_get_output_pos c (commit : Commitment) : res ErrorKind Z := from_store (get_output_pos (store_batch c) commit).
Definition chain_get_token_output_pos c (commit : Commitment) : res ErrorKind Z :=
  from_store (get_token_output_pos (store_batch c) commit).

(** [get_merkle_proof_for_pos], [get_token_merkle_proof_for_pos] *)
Definition get_merkle_proof_for_pos c (commit : Commitment) : res ErrorKind (MerkleProof bytes) :=
  set_merkle_proof (Bitmap := Bitmap) (chain_txhashset c) (chain_store c) commit.
Definition get_token_merkle_proof_for_pos c (commit : Commitment) : res ErrorKind (MerkleProof bytes) :=
  set_token_merkle_proof (Bitmap := Bitmap) (chain_txhashset c) (chain_store c) commit.

(** [unspent_outputs_by_pmmr_index], [unspent_token_outputs_by_pmmr_index] *)
Definition unspent_outputs_by_pmmr_index c (start_index max_count : Z) (max_pmmr_index : option Z)
    : res ErrorKind (Z * Z * list Output) :=
  let trees := chain_txhashset c in
  let last_index := default (highest_output_insertion_index trees) max_pmmr_index in
  let os := outputs_by_pmmr_index (Bitmap := Bitmap) trees start_index max_count max_pmmr_index in
  let ps := rangeproofs_by_pmmr_index (Bitmap := Bitmap) trees start_index max_count max_pmmr_index in
  if negb (os.1 =? ps.1) || negb (length os.2 =? length ps.2)%nat then Err TxHashSetErr
  else Ok (os.1, last_index, zip_with into_output os.2 ps.2).
Definition unspent_token_outputs_by_pmmr_index c (start_index max_count : Z) (max_pmmr_index : option Z)
    : res ErrorKind (Z * Z * list TokenOutput) :=
  let trees := chain_txhashset c in
  let last_index := default (highest_token_output_insertion_index trees) max_pmmr_index in
  let os := token_outputs_by_pmmr_index (Bitmap := Bitmap) trees start_index max_count max_pmmr_index in
  let ps := token_rangeproofs_by_pmmr_index (Bitmap := Bitmap) trees start_index max_count max_pmmr_index in
  if negb (os.1 =? ps.1) || negb (length os.2 =? length ps.2)%nat then Err TxHashSetErr
  else Ok (os.1, last_index, zip_with into_token_output os.2 ps.2).

(** ** The block of a kernel *)

(** The loop of [get_header_for_kernel_index] and of [get_header_for_token_kernel_index].  An index above the size at [max]
    makes the code loop, shown as a panic when the fuel runs out; [max - min + 1] turns are enough for the others. *)
Fixpoint search_header (header_at : Z -> res ErrorKind BlockHeader) (size_of : BlockHeader -> Z) (kernel_mmr_index : Z)
    (fuel : nat) (min max : Z) : res ErrorKind BlockHeader :=
  match fuel with
  | O => Panic
  | S fuel =>
    let search_height := (max - ((max - min)%u64 / 2)%Z)%u64 in
    let? h := header_at search_height in
    if search_height =? 0 then Ok h
    else
      let? h_prev := header_at (search_height - 1) in
      if size_of h <? kernel_mmr_index then search_header header_at size_of kernel_mmr_index fuel search_height max
      else if kernel_mmr_index <? size_of h_prev then search_header header_at size_of kernel_mmr_index fuel min search_height
      else if kernel_mmr_index =? size_of h_prev then Ok h_prev
      else Ok h
  end.
Definition header_for_index (size_of : BlockHeader -> Z) c (kernel_mmr_index : Z) (min_height max_height : option Z)
    : res ErrorKind BlockHeader :=
  let min := saturating_sub (default 0 min_height) 1 in
  let? max := match max_height with Some h => Ok h | None => let? t := chain_head c in Ok (tip_height t) end in
  search_header (chain_header_by_height c) size_of kernel_mmr_index (S (Z.to_nat (max - min))) min max.
Definition get_header_for_kernel_index c := header_for_index kernel_mmr_size c.
Definition get_header_for_token_kernel_index c := header_for_index token_kernel_mmr_size c.

(** [get_kernel_height], [get_token_kernel_height] *)
Definition kernel_height {K} (size_of : BlockHeader -> Z) (find : option Z -> option Z -> option (K * Z)) c
    (min_height max_height : option Z) : res ErrorKind (option (K * Z * Z)) :=
  let? min_index :=
    match min_height with
    | Some h => let? header := chain_header_by_height c (h - 1)%u64 in Ok (Some (size_of header + 1)%u64)
    | None => Ok None
    end in
  let? max_index :=
    match max_height with
    | Some h => let? header := chain_header_by_height c h in Ok (Some (size_of header))
    | None => Ok None
    end in
  match find min_index max_index with
  | Some (kernel, mmr_index) =>
    let? header := header_for_index size_of c mmr_index min_height max_height in
    Ok (Some (kernel, bh_height header, mmr_index))
  | None => Ok None
  end.
Definition get_kernel_height c (excess : Commitment) : option Z -> option Z -> res ErrorKind (option (TxKernel * Z * Z)) :=
  kernel_height kernel_mmr_size (find_kernel (Bitmap := Bitmap) (chain_txhashset c) excess) c.
Definition get_token_kernel_height c (excess : Commitment) : option Z -> option Z -> res ErrorKind (option (TokenTxKernel * Z * Z)) :=
  kernel_height token_kernel_mmr_size (find_token_kernel (Bitmap := Bitmap) (chain_txhashset c) excess) c.
End Chain.
Arguments Chain : clear implicits.
