(* ===== verification/ChainState.v ===== *)
(** * The state of the chain

    Models the rest of [chain/src/chain.rs]: validating the state and setting the roots of a new block in read-only units of
    work, compaction, the state that a fast sync receives, and the start of the chain with [setup_head].

    The archive of a received state is unpacked and opened by [sandbox] and moved in place and opened again by
    [reopen], arguments of [txhashset_write]; [OpenSet] models the opening. *)

From Stdlib Require Import ZArith Lia List Bool.
From stdpp Require Import base numbers list option gmap.
From S2P Require Import Prelude MmrIndex Pmmr MerkleProof Bytes Compact Consensus Ser Bitmap PowTypes Transaction TxBody Committed Verifier Aggregate Block Pool ChainTypes BitmapAccumulator ChainStore TxHashSet TxHashSetState OpenSet Pipe OrphanPool Chain.

Section ChainState.
  Context {DG : Digest} (ct : ChainTypes) {SS : SecpSizes} {SP : Secp} {SV : SecpVerify} {CK : Clock} {L : Type} `{!LruCache L}
    {Bitmap : Type} {BR : CRoaring Bitmap} {B : Type -> Type} {TR : Trees Bitmap B}.
  #[local] Abbreviation tree T := (PMMR (B T)).
  #[local] Abbreviation Chain := (Chain L B).
  Implicit Types (c : Chain) (b : Batch) (header genesis : BlockHeader) (trees : TxHashSet B).
  #[local] Abbreviation M := (vm Chain ErrorKind).

(** ** Read-only units of work *)

Definition readonly_unit {A} (inner : ExtensionPair B -> Batch -> outcome (ExtensionPair B) (A * ExtensionPair B * Batch)) : M A := fun c =>
  let '(r, h, trees) :=
    extending_readonly (Bitmap := Bitmap) ct inner (chain_header_pmmr c) (chain_txhashset c) (chain_store c) in
  (r, with_trees c trees h (chain_verifier_cache c)).
Definition chain_lift {A} (f : Chain -> res ErrorKind A) : M A := fun c => (f c, c).

(** [Chain::validate] *)
Definition chain_validate (fast_validation : bool) : M unit :=
  let@ header := chain_lift (fun c => from_store (head_header (batch (chain_store c)))) in
  if bh_height header =? 0 then vret tt
  else fun c =>
    readonly_unit (fun ext b =>
      let? '(ext, b) := rewind_and_apply_fork (Bitmap := Bitmap) ct header ext b in
      let? _ := leaving ext (ext_validate (Bitmap := Bitmap) ct (extension ext) (chain_genesis c) fast_validation header) in
      Ok (tt, ext, b)) c.

(** [set_txhashset_roots] *)
Definition block_with_roots (x : Block) (prev_root : bytes) (roots : TxHashSetRoots) (szs : Z * Z * Z * Z * Z * Z * Z) : Block :=
  let '(output_size, _, kernel_size, token_output_size, _, token_issue_size, token_kernel_size) := szs in
  let h := header x in
  let sized :=
    mkHeader (bh_version h) (bh_height h) (prev_hash h) prev_root (timestamp h) (output_root h) (range_proof_root h)
      (kernel_root h) (total_kernel_offset h) output_size kernel_size (bits h) (token_output_root h)
      (token_range_proof_root h) (token_issue_proof_root h) (token_kernel_root h) token_output_size token_issue_size
      token_kernel_size (pow h) (btc_pow h) in
  mkBlock
    (mkHeader (bh_version h) (bh_height h) (prev_hash h) prev_root (timestamp h) (output_roots_root (output_roots roots) sized)
      (rproof_root roots) (roots_kernel_root roots) (total_kernel_offset h) output_size kernel_size (bits h)
      (roots_token_output_root roots) (token_rproof_root roots) (roots_token_issue_proof_root roots)
      (roots_token_kernel_root roots) token_output_size token_issue_size token_kernel_size (pow h) (btc_pow h))
    (aux_data x) (block_body x).
Definition roots_work (x : Block) (ext : ExtensionPair B) b
    : outcome (ExtensionPair B) ((bytes * TxHashSetRoots * (Z * Z * Z * Z * Z * Z * Z)) * ExtensionPair B * Batch) :=
  let? previous_header := leaving ext (from_store (get_previous_header b (Block.header x))) in
  let? '(ext, b) := rewind_and_apply_fork (Bitmap := Bitmap) ct previous_header ext b in
  let? prev_root := leaving ext (header_root (Bitmap := Bitmap) ct (header_extension ext)) in
  let? '(e, b) := inside (mkPair (header_extension ext)) (apply_block (Bitmap := Bitmap) ct (extension ext) b x) in
  let ext := mkPair (header_extension ext) e in
  let? roots := leaving ext (ext_roots (Bitmap := Bitmap) e) in
  Ok ((prev_root, roots, sizes e), ext, b).
Definition set_txhashset_roots (x : Block) : M Block :=
  let@ r := readonly_unit (roots_work x) in
  vret (block_with_roots x r.1.1 r.1.2 r.2).

(** [get_merkle_proof] *)
Definition get_merkle_proof (output : OutputIdentifier) header : M (MerkleProof bytes) :=
  readonly_unit (fun ext b =>
    let? '(ext, b) := rewind_and_apply_fork (Bitmap := Bitmap) ct header ext b in
    let? p := leaving ext (ext_merkle_proof (Bitmap := Bitmap) (extension ext) b output) in
    Ok (p, ext, b)).

(** ** Compaction *)

(** [delete_block] on each block below the tail, its errors dropped *)
Fixpoint delete_below (blocks : list (bytes * Block)) (tail_height : Z) b : Batch :=
  match blocks with
  | [] => b
  | (_, x) :: blocks =>
    delete_below blocks tail_height
      (if bh_height (Block.header x) <? tail_height then ignoring b (delete_block ct b (header_hash ct (Block.header x))) else b)
  end.

(** [remove_historical_blocks] *)
Definition remove_historical_blocks c b : res ErrorKind Batch :=
  if archive_mode c then Ok b
  else
    let horizon := cut_through_horizon ct in
    let? head := from_store (head b) in
    let tail := match tail b with Ok tail => tail | _ => tip_from_header ct (chain_genesis c) end in
    let cutoff := saturating_sub (tip_height head) horizon in
    if cutoff =? 0 then Ok b
    else
      let? tail_hash := chain_header_hash_by_height (Bitmap := Bitmap) c (tip_height head - horizon) in
      let? tail := from_store (get_block_header b tail_hash) in
      Ok (save_body_tail (delete_below (blocks_iter b) (bh_height tail) b) (tip_from_header ct tail)).

(** Whether [compact] has nothing to do yet *)
Definition skips_compaction c : bool :=
  match chain_tail c, chain_head c with
  | Ok tail, Ok head =>
    tip_height head <? saturating_add64 (tip_height tail) (saturating_add64 (cut_through_horizon ct) 60)
  | _, _ => false
  end.

(** [Chain::compact]; the trees are changed in place, the batch is committed at the end *)
Definition chain_compact : M unit := fun c =>
  if skips_compaction c then (Ok tt, c)
  else
    let b := batch (chain_store c) in
    let compacted :=
      let? head_header := from_store (head_header b) in
      let horizon_height := saturating_sub (bh_height head_header) (cut_through_horizon ct) in
      let? horizon_hash := chain_header_hash_by_height (Bitmap := Bitmap) c horizon_height in
      let? horizon_header := from_store (get_block_header b horizon_hash) in
      set_compact (Bitmap := Bitmap) ct (chain_txhashset c) horizon_header b in
    match compacted with
    | Ok trees =>
      let c := with_trees c trees (chain_header_pmmr c) (chain_verifier_cache c) in
      match
        (let? b := if archive_mode c then Ok b else remove_historical_blocks c b in
         let? b := init_output_pos_index (Bitmap := Bitmap) trees (chain_header_pmmr c) b in
         init_token_output_pos_index (Bitmap := Bitmap) trees (chain_header_pmmr c) b)
      with
      | Ok b => (Ok tt, with_store c (commit b))
      | Err e => (Err e, c)
      | Panic => (Panic, c)
      end
    | Err e => (Err e, c)
    | Panic => (Panic, c)
    end.

(** ** The state of a fast sync *)

(** The walk from the body head to a header of the current chain: its height and hash.  A turn goes one header down, so
    that the height of the head is enough fuel; a header that is not found ends the walk. *)
Fixpoint oldest_common (fuel : nat) c (current : res ErrorKind BlockHeader) : Z * bytes :=
  match current with
  | Ok header =>
    if is_ok (chain_is_on_current_chain (Bitmap := Bitmap) ct c header) then (bh_height header, header_hash ct header)
    else
      match fuel with
      | O => (0, ZERO_HASH_BYTES)
      | S fuel => oldest_common fuel c (chain_get_previous_header c header)
      end
  | _ => (0, ZERO_HASH_BYTES)
  end.

(** The hashes from the header head down to [oldest_height] *)
Fixpoint missing_hashes (fuel : nat) c (oldest_height : Z) (h : res ErrorKind BlockHeader) : list bytes :=
  match fuel, h with
  | S fuel, Ok header =>
    if bh_height header <=? oldest_height then []
    else header_hash ct header :: missing_hashes fuel c oldest_height (chain_get_previous_header c header)
  | _, _ => []
  end.

(** [check_txhashset_needed], with the hashes it appends when they are asked for *)
Definition check_txhashset_needed c (with_hashes : bool) : res ErrorKind (bool * list bytes) :=
  let horizon := cut_through_horizon ct in
  let? body_head := chain_head c in
  let? header_head := chain_header_head (Bitmap := Bitmap) ct c in
  let? _ := get_sync_head (Bitmap := Bitmap) ct c in
  if num (tip_total_difficulty header_head) <=? num (tip_total_difficulty body_head) then Ok (false, [])
  else
    let current := chain_get_block_header c (last_block_h body_head) in
    if negb (is_ok current) then Ok (false, [])
    else
      let '(oldest_height, _) := oldest_common (Z.to_nat (tip_height body_head)) c current in
      let hashes :=
        if with_hashes
        then missing_hashes (Z.to_nat (tip_height header_head)) c oldest_height
               (chain_get_block_header c (last_block_h header_head))
        else [] in
      Ok (oldest_height <? saturating_sub (tip_height header_head) horizon, hashes).

(** The loop of [validate_kernel_history]; the height of the header is enough fuel *)
Fixpoint kernel_history (fuel : nat) (view : RewindableKernelView B) b (current : BlockHeader) : res ErrorKind unit :=
  if 0 <? bh_height current then
    match fuel with
    | O => Panic
    | S fuel =>
      let? view := kernel_view_rewind view current in
      let? _ := kernel_view_validate_root (Bitmap := Bitmap) view in
      let? current := from_store (get_previous_header b current) in
      kernel_history fuel view b current
    end
  else Ok tt.
Definition validate_kernel_history c header trees : res ErrorKind unit :=
  rewindable_kernel_view (fun view b => kernel_history (Z.to_nat (bh_height header)) view b header) trees (chain_store c).

(** The work of [txhashset_write] in an extension *)
Definition state_work genesis header (ext : ExtensionPair B) b : outcome (ExtensionPair B) (unit * ExtensionPair B * Batch) :=
  let? '(e, b) := inside (mkPair (header_extension ext)) (ext_rewind (Bitmap := Bitmap) ct (extension ext) b header) in
  let ext := mkPair (header_extension ext) e in
  let? '(utxo_sum, kernel_sum, block_token_sums) := leaving ext (ext_validate (Bitmap := Bitmap) ct e genesis false header) in
  let b := save_block_sums b (header_hash ct header) (mkBlockSums utxo_sum kernel_sum) in
  let? b := leaving ext (from_store (save_block_token_sums ct b (header_hash ct header) block_token_sums)) in
  Ok (tt, ext, b).

(** [txhashset_write]: [Ok true] is a reason to ban the peer *)
Definition txhashset_write (h : bytes) (sandbox reopen : BlockHeader -> res ErrorKind (TxHashSet B)) : M bool := fun c =>
  match check_txhashset_needed c false with
  | Ok (false, _) => (Err InvalidTxHashSet, c)
  | Ok (true, _) =>
    match chain_get_block_header c h with
    | Ok header =>
      match (let? trees := sandbox header in let? _ := validate_kernel_history c header trees in Ok trees) with
      | Ok trees =>
        let '(r, hp, trees, b) :=
          extending (Bitmap := Bitmap) ct (state_work (chain_genesis c) header) (chain_header_pmmr c) trees (batch (chain_store c)) in
        let c := with_trees c (chain_txhashset c) hp (chain_verifier_cache c) in
        match
          (let? _ := r in
           let tip := tip_from_header ct header in
           let b := save_body_tail (save_body_head b tip) tip in
           let? b := init_output_pos_index (Bitmap := Bitmap) trees hp b in
           init_token_output_pos_index (Bitmap := Bitmap) trees hp b)
        with
        | Ok b =>
          let c := with_store c (commit b) in
          match reopen header with
          | Ok trees => (Ok false, with_trees c trees hp (chain_verifier_cache c))
          | Err e => (Err e, c)
          | Panic => (Panic, c)
          end
        | Err e => (Err e, c)
        | Panic => (Panic, c)
        end
      | Err e => (Err e, c)
      | Panic => (Panic, c)
      end
    | Err _ => (Ok true, c)
    | Panic => (Panic, c)
    end
  | Err e => (Err e, c)
  | Panic => (Panic, c)
  end.

(** ** The start *)

(** The work of [setup_head] at the head: rewinding to it, its roots, and the sums when they are missing *)
Definition check_head genesis header (ext : ExtensionPair B) b : outcome (ExtensionPair B) (unit * ExtensionPair B * Batch) :=
  let? '(ext, b) := rewind_and_apply_fork (Bitmap := Bitmap) ct header ext b in
  let e := extension ext in
  let? _ := leaving ext (validate_roots (Bitmap := Bitmap) e header) in
  let hash := header_hash ct header in
  let? b :=
    if (0 <? bh_height header) && negb (is_ok (get_block_sums b hash)) then
      let? '(utxo_sum, kernel_sum) := leaving ext (validate_kernel_sums (Bitmap := Bitmap) ct e genesis header) in
      Ok (save_block_sums b hash (mkBlockSums utxo_sum kernel_sum))
    else Ok b in
  let? b :=
    if negb (is_ok (get_block_token_sums ct b hash)) then
      let? block_token_sums := leaving ext (validate_token_kernel_sums (Bitmap := Bitmap) e) in
      leaving ext (from_store (save_block_token_sums ct b hash block_token_sums))
    else Ok b in
  Ok (tt, ext, b).

(** The loop of [setup_head]: a head that does not validate is deleted and its previous one tried.  A turn goes one block
    down, so that the height of the first head and one more are enough fuel. *)
Fixpoint find_head (fuel : nat) genesis (h : tree BlockHeader) trees b (head : Tip)
    : res ErrorKind (tree BlockHeader * TxHashSet B * Batch) :=
  match fuel with
  | O => Panic
  | S fuel =>
    let? header := from_store (get_block_header b (last_block_h head)) in
    match extending (Bitmap := Bitmap) ct (check_head genesis header) h trees b with
    | (Ok _, h, trees, b) => Ok (h, trees, b)
    | (Panic, _, _, _) => Panic
    | (Err _, h, trees, b) =>
      let? prev_header := from_store (get_block_header b (prev_block_h head)) in
      match
        extending (Bitmap := Bitmap) ct
          (fun ext b => let? '(ext, b) := rewind_and_apply_fork (Bitmap := Bitmap) ct prev_header ext b in Ok (tt, ext, b)) h trees b
      with
      | (Ok _, h, trees, b) =>
        let b := ignoring b (delete_block ct b (header_hash ct header)) in
        let head := tip_from_header ct prev_header in
        find_head fuel genesis h trees (save_body_head b head) head
      | (Err e, _, _, _) => Err e
      | (Panic, _, _, _) => Panic
      end
    end
  end.

(** The store of the genesis block *)
Definition setup_genesis (genesis : Block) (h : tree BlockHeader) trees b : res ErrorKind (tree BlockHeader * TxHashSet B * Batch) :=
  let header := Block.header genesis in
  let hash := header_hash ct header in
  let b := save_block ct (save_block_header ct b header) genesis in
  let b := save_body_head (save_spent_index b hash []) (tip_from_header ct header) in
  let? sums :=
    if negb (bool_decide (kernels (block_body genesis) = [])) then
      let? '(utxo_sum, kernel_sum) :=
        map_err ECommitted (verify_kernel_sums (default_block_sums, genesis) (header_overage ct header) (total_kernel_offset header)) in
      Ok (mkBlockSums utxo_sum kernel_sum)
    else Ok default_block_sums in
  match
    extending (Bitmap := Bitmap) ct
      (fun ext b => let? '(e, b) := inside (mkPair (header_extension ext)) (apply_block (Bitmap := Bitmap) ct (extension ext) b genesis) in
                    Ok (tt, mkPair (header_extension ext) e, b)) h trees b
  with
  | (Ok _, h, trees, b) =>
    let b := save_block_sums b hash sums in
    let? b := from_store (save_block_token_sums ct b hash default_block_token_sums) in
    Ok (h, trees, b)
  | (Err e, _, _, _) => Err e
  | (Panic, _, _, _) => Panic
  end.

(** The genesis header, when a header tree is empty *)
Definition ensure_genesis genesis (h : tree BlockHeader) b : res ErrorKind (tree BlockHeader * Batch) :=
  if last_pos h =? 0 then
    match
      header_extending (Bitmap := Bitmap) ct
        (fun ext b => let? ext := apply_header (Bitmap := Bitmap) ct ext genesis in Ok (tt, ext, b)) h b
    with
    | (Ok _, h, b) => Ok (h, b)
    | (Err e, _, _) => Err e
    | (Panic, _, _) => Panic
    end
  else Ok (h, b).

(** [setup_head] *)
Definition setup_head (genesis : Block) (s : ChainStore) (h sync : tree BlockHeader) trees
    : res ErrorKind (ChainStore * tree BlockHeader * tree BlockHeader * TxHashSet B) :=
  let b := batch s in
  let? '(h, b) := ensure_genesis (Block.header genesis) h b in
  let? '(sync, b) := ensure_genesis (Block.header genesis) sync b in
  let? '(h, trees, b) :=
    match head b with
    | Ok t => find_head (S (Z.to_nat (tip_height t))) (Block.header genesis) h trees b t
    | Err NotFoundErr => setup_genesis genesis h trees b
    | Err e => Err (StoreErr e)
    | Panic => Panic
    end in
  Ok (commit b, h, sync, trees).

(** [Chain::init], on the trees that were opened *)
Definition chain_init (s : ChainStore) (trees : TxHashSet B) (h sync : tree BlockHeader) (genesis : Block)
    (pow_verifier : BlockHeader -> bool) (cache : LruVerifierCache L) (archive : bool) : res ErrorKind Chain :=
  let? '(s, h, sync, trees) := setup_head genesis s h sync trees in
  let? b := init_output_pos_index (Bitmap := Bitmap) trees h (batch s) in
  let? b := init_token_output_pos_index (Bitmap := Bitmap) trees h b in
  let c := mkChain (commit b) [] orphans_new trees h sync cache pow_verifier archive (Block.header genesis) 0 in
  let? _ := chain_head c in
  let? _ := chain_header_head (Bitmap := Bitmap) ct c in
  let? _ := get_sync_head (Bitmap := Bitmap) ct c in
  Ok c.
End ChainState.
