(* ===== verification/ChainTheorems.v ===== *)
(** * Properties of the chain

    What processing does to the committed store, whatever the operations: it stays well typed, its head never falls and
    nothing of it is lost, a rejected block leaves it alone.  The orphans are tried until none is accepted, and the loop ends. *)

From Stdlib Require Import ZArith Lia List Bool.
From stdpp Require Import base numbers list option gmap relations.
From S2P Require Import Prelude MmrIndex Pmmr Bytes Consensus Ser Bitmap PowTypes Transaction TxBody Committed Verifier Aggregate Block Pool ChainTypes BitmapAccumulator ChainStore TxHashSet TxHashSetState OpenSet Pipe PipeTheorems OrphanPool Chain.

Section ChainTheorems.
  Context {DG : Digest} (ct : ChainTypes) {SS : SecpSizes} {SP : Secp} {SV : SecpVerify} {CK : Clock} {L : Type} `{!LruCache L}
    {Bitmap : Type} {BR : CRoaring Bitmap} {B : Type -> Type} {TR : Trees Bitmap B}.
  #[local] Abbreviation Chain := (Chain L B).
  #[local] Abbreviation hash_of := (header_hash ct).
  Implicit Types (c : Chain) (b : Batch) (header : BlockHeader) (x : Block) (d : ChainStore).

(** ** The store *)

(** Headers and blocks are stored under their hash, a block has its header stored, and the head is a stored block. *)
Record store_typed d : Prop := {
  ty_header k h : db_headers d !! k = Some h -> hash_of h = k;
  ty_block k x : db_blocks d !! k = Some x -> hash_of (Block.header x) = k;
  ty_block_header k : is_Some (db_blocks d !! k) -> is_Some (db_headers d !! k);
  ty_head t : db_head d = Some t -> is_Some (db_blocks d !! last_block_h t)
}.

(** The head does not fall, and headers and blocks stay. *)
Record store_grows d d' : Prop := {
  gr_head t : db_head d = Some t -> exists t', db_head d' = Some t' /\ tip_height t <= tip_height t';
  gr_headers k : is_Some (db_headers d !! k) -> is_Some (db_headers d' !! k);
  gr_blocks k : is_Some (db_blocks d !! k) -> is_Some (db_blocks d' !! k)
}.
#[local] Instance grows_preorder : PreOrder store_grows.
Proof.
  split; [intros d; constructor; eauto; intros t Ht; exists t; split; [done|lia]|]. intros d1 d2 d3 [H1 H2 H3] [H4 H5 H6]. constructor; auto.
  intros t Ht. destruct (H1 t Ht) as (t2 & Ht2 & L2). destruct (H4 t2 Ht2) as (t3 & Ht3 & L3). exists t3. split; [done|lia].
Qed.

(** What an operation does to the store *)
Inductive store_step : ChainStore -> ChainStore -> Prop :=
| step_block x b b' t : accepted_block ct x b b' t -> store_step (content b) (content b')
| step_header header b b' : with_header ct header b b' -> store_step (content b) (content b').

Lemma insert_some {A} (m : gmap bytes A) k k' v : is_Some (m !! k') -> is_Some (<[k := v]> m !! k').
Proof. intros H. destruct (decide (k = k')) as [->|Hne]; [rewrite lookup_insert_eq; eauto|rewrite lookup_insert_ne by done; done]. Qed.

Lemma step_typed d d' : store_step d d' -> store_typed d -> store_typed d'.
Proof.
  intros H [T1 T2 T3 T4]. destruct H as [x b b' t [_ Hp Eb Hh Ehs (hd & Ehd & Ht)]|header b b' (_ & E1 & _ & E2 & Ehs)].
  - constructor.
    + intros k h Hk. destruct Ehs as [E|E]; rewrite E in Hk; [eauto|]. apply lookup_insert_Some in Hk as [[<- <-]|[_ Hk]]; eauto.
    + intros k y Hk. rewrite Eb in Hk. apply lookup_insert_Some in Hk as [[<- <-]|[_ Hk]]; eauto.
    + intros k Hk. rewrite Eb in Hk. destruct (decide (hash_of (Block.header x) = k)) as [<-|Hne]; [exact Hh|].
      rewrite lookup_insert_ne in Hk by done. apply T3 in Hk. destruct Ehs as [->| ->]; [exact Hk|apply insert_some; exact Hk].
    + intros t' Ht'. destruct (_ <? _); destruct Ht as [-> Et]; rewrite Et in Ht'; injection Ht' as <-; rewrite Eb.
      * rewrite lookup_insert_eq. eauto.
      * apply insert_some. apply T4. exact Ehd.
  - constructor.
    + intros k h Hk. destruct Ehs as [E|E]; rewrite E in Hk; [eauto|]. apply lookup_insert_Some in Hk as [[<- <-]|[_ Hk]]; eauto.
    + intros k y. rewrite E2. apply T2.
    + intros k. rewrite E2. intros Hk. apply T3 in Hk. destruct Ehs as [->| ->]; [exact Hk|apply insert_some; exact Hk].
    + intros t. rewrite E1, E2. apply T4.
Qed.

Lemma step_grows d d' : store_step d d' -> store_grows d d'.
Proof.
  intros H. destruct H as [x b b' t [_ Hp Eb Hh Ehs (hd & Ehd & Ht)]|header b b' (_ & E1 & _ & E2 & Ehs)]; constructor.
  - intros t' Ht'. assert (t' = hd) by congruence. subst t'. destruct (Z.ltb_spec (tip_height hd) (bh_height (Block.header x)));
      destruct Ht as [-> ->]; eexists; (split; [done|]); cbn; lia.
  - intros k Hk. destruct Ehs as [->| ->]; [exact Hk|apply insert_some; exact Hk].
  - intros k Hk. rewrite Eb. apply insert_some. exact Hk.
  - intros t Ht. exists t. rewrite E1. split; [done|lia].
  - intros k Hk. destruct Ehs as [->| ->]; [exact Hk|apply insert_some; exact Hk].
  - intros k. rewrite E2. done.
Qed.

Lemma steps_typed d d' : rtc store_step d d' -> store_typed d -> store_typed d'.
Proof. induction 1; eauto using step_typed. Qed.
Lemma steps_grow d d' : rtc store_step d d' -> store_grows d d'.
Proof. induction 1 as [|d1 d2 d3 H _ IH]; [reflexivity|]. etrans; [apply step_grows; exact H|exact IH]. Qed.

(** ** One block *)

(** The status of an accepted block, from the head before it *)
Definition status_of x (hd : Tip) : BlockStatus :=
  if tip_height hd <? bh_height (Block.header x)
  then if bool_decide (prev_hash (Block.header x) = last_block_h hd) then BNext else BReorg 1
  else BFork.

Lemma single_spec x opts c :
  match process_block_single (Bitmap := Bitmap) ct x opts c with
  | (Ok t, c') => exists hd b', db_head (chain_store c) = Some hd /\ accepted_block ct x (batch (chain_store c)) b' t /\
      chain_store c' = content b' /\ chain_orphans c' = chain_orphans c /\
      chain_adapter c' = chain_adapter c ++ [(x, status_of x hd, opts)]
  | (Err e, c') => chain_store c' = chain_store c /\ chain_adapter c' = chain_adapter c /\
      (exists elapsed now, chain_orphans c' =
         match e with
         | ChainTypes.Orphan => orphans_add ct elapsed (chain_orphans c) (mkOrphan x opts now)
         | _ => chain_orphans c
         end)
  | (Panic, c') => chain_store c' = chain_store c /\ chain_orphans c' = chain_orphans c
  end.
Proof.
  unfold process_block_single. destruct (from_store (head _)) as [hd|e|] eqn:Eh.
  2: split; [done|]; split; [done|]; exists (fun _ => 0), 0; unfold from_store, map_err in Eh; destruct (head _); [done|injection Eh as <-|]; done.
  2: done.
  apply from_store_ok in Eh. destruct (process_block ct x _) as [r ctx] eqn:Ep. destruct r as [t|e|].
  - apply process_block_ok in Ep. cbn [new_ctx ctx_batch] in Ep, Eh. unfold head, option_to_not_found, ok_or in Eh. cbn [content batch] in Eh.
    destruct (db_head (chain_store c)) as [hd'|] eqn:Ed; [|done]. injection Eh as ->.
    exists hd, (ctx_batch ctx). split; [done|]. split; [exact Ep|]. split; [done|]. split; [done|]. cbn [block_accepted chain_adapter with_store with_trees].
    do 3 f_equal. destruct (ac_tip _ _ _ _ _ Ep) as (hd' & Ed' & Ht). cbn [content batch] in Ed'. assert (hd' = hd) by congruence. subst hd'.
    unfold status_of. destruct (Z.ltb_spec (tip_height hd) (bh_height (Block.header x))) as [Hlt|]; destruct Ht as [-> _]; [|done].
    cbn [determine_status tip_from_header prev_block_h tip_height]. case_bool_decide; [done|]. f_equal.
    unfold saturating_sub. rewrite Z.max_l by lia. done.
  - split; [destruct e; done|]. split; [destruct e; done|]. destruct e; cbn [rejection]; try (exists (fun _ => 0), 0; done).
    eexists _, _. unfold add_orphan. cbn. reflexivity.
  - done.
Qed.

(** C10: What becomes of a block.  An accepted block is stored with its header, the head moves to it exactly when it is higher
    than the head, and the adapter is told once, with the next block, a reorganisation or a fork; a rejected block leaves
    the store and the adapter alone, and only a block without its previous one joins the orphans. *)
Theorem block_outcomes x opts c :
  match process_block_single (Bitmap := Bitmap) ct x opts c with
  | (Ok t, c') => exists hd, db_head (chain_store c) = Some hd /\
      db_blocks (chain_store c') = <[hash_of (Block.header x) := x]> (db_blocks (chain_store c)) /\
      is_Some (db_headers (chain_store c') !! hash_of (Block.header x)) /\
      t = (if tip_height hd <? bh_height (Block.header x) then Some (tip_from_header ct (Block.header x)) else None) /\
      db_head (chain_store c') = Some (default hd t) /\
      chain_adapter c' = chain_adapter c ++ [(x, status_of x hd, opts)] /\ chain_orphans c' = chain_orphans c
  | (Err e, c') => chain_store c' = chain_store c /\ chain_adapter c' = chain_adapter c /\
      (exists elapsed now, chain_orphans c' =
         match e with
         | ChainTypes.Orphan => orphans_add ct elapsed (chain_orphans c) (mkOrphan x opts now)
         | _ => chain_orphans c
         end)
  | (Panic, c') => chain_store c' = chain_store c
  end.
Proof.
  pose proof (single_spec x opts c) as H. destruct (process_block_single ct x opts c) as [[t|e|] c']; [|exact H|apply H].
  destruct H as (hd & b' & Eh & [A1 A2 A3 A4 A5 (hd' & Ed & At)] & -> & Eo & Ea). exists hd. cbn [content batch] in *.
  assert (hd' = hd) by congruence. subst hd'. split; [exact Eh|]. split; [exact A3|]. split; [exact A4|].
  destruct (tip_height hd <? _); destruct At as [-> Et]; repeat split; done.
Qed.

(** ** Sequences of operations *)

Lemma single_steps x opts c : rtc store_step (chain_store c) (chain_store (process_block_single (Bitmap := Bitmap) ct x opts c).2).
Proof.
  pose proof (single_spec x opts c) as H. destruct (process_block_single ct x opts c) as [[t|e|] c']; cbn [snd].
  - destruct H as (hd & b' & _ & Ha & -> & _). apply rtc_once. exact (step_block x (batch (chain_store c)) b' t Ha).
  - destruct H as [-> _]. reflexivity.
  - destruct H as [-> _]. reflexivity.
Qed.
Lemma try_steps l : forall acc c, rtc store_step (chain_store c) (chain_store (try_orphans (Bitmap := Bitmap) ct l acc c).2).
Proof.
  induction l as [|o l IH]; intros acc c; [reflexivity|]. cbn [try_orphans]. unfold vbind, vtry.
  pose proof (single_steps (orphan_block o) (orphan_opts o) c) as H.
  destruct (process_block_single ct (orphan_block o) (orphan_opts o) c) as [[t|e|] c1]; cbn [snd] in *; [etrans; [exact H|apply IH]..|exact H].
Qed.
Lemma check_steps fuel : forall height c, rtc store_step (chain_store c) (chain_store (check_orphans (Bitmap := Bitmap) ct fuel height c).2).
Proof.
  induction fuel as [|fuel IH]; intros height c; cbn [check_orphans]; [reflexivity|].
  destruct (remove_by_height (chain_orphans c) height) as [[l|] p]; [|reflexivity].
  pose proof (try_steps l (false, height) (with_orphans c p (clock_readings c))) as H. unfold vbind.
  destruct (try_orphans ct l (false, height) _) as [[acc|e|] c1]; cbn [snd] in *; [|exact H..].
  destruct acc.1; [etrans; [exact H|apply IH]|exact H].
Qed.
Lemma process_steps x opts c : rtc store_step (chain_store c) (chain_store (chain_process_block (Bitmap := Bitmap) ct x opts c).2).
Proof.
  unfold chain_process_block, vbind. pose proof (single_steps x opts c) as H.
  destruct (process_block_single ct x opts c) as [[t|e|] c1]; cbn [snd] in *; [|exact H..].
  pose proof (check_steps (S (orphans_len (chain_orphans c1))) (bh_height (Block.header x) + 1)%u64 c1) as H2.
  destruct (check_orphans ct _ _ c1) as [[u|e|] c2]; cbn [snd vret] in *; etrans; eassumption.
Qed.

(** ** Headers *)

Lemma in_batch_steps {A} sync opts (step : vm (BlockContext (L := L) (B := B)) ErrorKind A) c :
  (forall ctx a ctx', step ctx = (Ok a, ctx') -> rtc store_step (content (ctx_batch ctx)) (content (ctx_batch ctx'))) ->
  rtc store_step (chain_store c) (chain_store (in_batch sync opts step c).2).
Proof.
  intros Hs. unfold in_batch. destruct (step _) as [r ctx] eqn:E. destruct r as [a|e|]; cbn [is_ok snd]; [|destruct sync; reflexivity..].
  apply Hs in E. destruct sync; exact E.
Qed.
Lemma header_steps header (ctx : BlockContext (L := L) (B := B)) u ctx' : process_block_header (Bitmap := Bitmap) ct header ctx = (Ok u, ctx') ->
  rtc store_step (content (ctx_batch ctx)) (content (ctx_batch ctx')).
Proof. intros H. apply process_block_header_ok in H as [H _]. apply rtc_once. eapply step_header. exact H. Qed.
Lemma add_all_steps hs : forall (ctx : BlockContext (L := L) (B := B)) u ctx', validate_and_add (Bitmap := Bitmap) ct hs ctx = (Ok u, ctx') ->
  rtc store_step (content (ctx_batch ctx)) (content (ctx_batch ctx')).
Proof.
  induction hs as [|h hs IH]; intros ctx u ctx' H; cbn [validate_and_add] in H; [injection H as _ <-; reflexivity|].
  apply vbind_ok in H as (u1 & c1 & H1 & H). apply reading_ok in H1 as [_ ->].
  apply vbind_ok in H as (u2 & c2 & H2 & H). injection H2 as _ <-. eapply rtc_l; [|eapply IH; exact H].
  apply (step_header h (ctx_batch ctx) (save_block_header ct (ctx_batch ctx) h)). repeat split. right. done.
Qed.
Lemma sync_steps hs (ctx : BlockContext (L := L) (B := B)) u ctx' : sync_block_headers (Bitmap := Bitmap) ct hs ctx = (Ok u, ctx') ->
  rtc store_step (content (ctx_batch ctx)) (content (ctx_batch ctx')).
Proof.
  unfold sync_block_headers. destruct (last hs) as [lh|]; [|intros [= _ <-]; reflexivity]. intros H.
  apply vbind_ok in H as (sh & c1 & H1 & H). apply reading_ok in H1 as [_ ->].
  apply vbind_ok in H as (seen & c2 & H1 & H). apply reading_ok in H1 as [_ ->]. destruct seen; [injection H as _ <-; reflexivity|].
  apply vbind_ok in H as (u3 & c3 & H3 & H). apply add_all_steps in H3. etrans; [exact H3|].
  unfold header_unit in H. destruct (header_extending _ _ _ _) as [[r h] b1] eqn:Ex. injection H as -> <-. cbn [ctx_batch].
  apply kept_header_extending in Ex; [|intros ext b r ext' b' Hi; binds Hi; reflexivity]. apply rtc_once.
  eapply (step_header lh). apply kept_with_header. exact Ex.
Qed.

(** The operations of the network on the chain *)
Inductive chain_op :=
| OpBlock (x : Block) (opts : Z)
| OpHeader (header : BlockHeader) (opts : Z)
| OpHeaders (headers : list BlockHeader) (opts : Z).
Definition run_op (o : chain_op) c : Chain :=
  match o with
  | OpBlock x opts => (chain_process_block (Bitmap := Bitmap) ct x opts c).2
  | OpHeader header opts => (chain_process_block_header (Bitmap := Bitmap) ct header opts c).2
  | OpHeaders headers opts => (chain_sync_block_headers (Bitmap := Bitmap) ct headers opts c).2
  end.

Lemma op_steps o c : rtc store_step (chain_store c) (chain_store (run_op o c)).
Proof.
  destruct o as [x opts|header opts|headers opts]; cbn [run_op].
  - apply process_steps.
  - apply in_batch_steps. apply header_steps.
  - unfold chain_sync_block_headers, vbind. pose proof (in_batch_steps true opts (sync_block_headers (Bitmap := Bitmap) ct headers) c (sync_steps headers)) as H.
    destruct (in_batch true opts _ c) as [[u|e|] c1]; cbn [snd] in *; [|exact H..].
    destruct (last headers) as [lh|]; [|exact H]. etrans; [exact H|]. apply in_batch_steps. apply header_steps.
Qed.
Lemma ops_steps os : forall c, rtc store_step (chain_store c) (chain_store (fold_left (fun c o => run_op o c) os c)).
Proof. induction os as [|o os IH]; intros c; cbn [fold_left]; [reflexivity|]. etrans; [apply op_steps|apply IH]. Qed.

(** C12: Whatever blocks and headers the network sends, in whatever order, the store stays well typed: every header and every
    block is stored under its hash, every block has its header stored, and the head is a stored block. *)
Theorem store_stays_typed os c : store_typed (chain_store c) ->
  store_typed (chain_store (fold_left (fun c o => run_op o c) os c)).
Proof. apply steps_typed. apply ops_steps. Qed.

(** C11: Whatever blocks and headers the network sends, the height of the head never falls and no stored header or block is
    lost. *)
Theorem head_never_falls os c : store_grows (chain_store c) (chain_store (fold_left (fun c o => run_op o c) os c)).
Proof. apply steps_grow. apply ops_steps. Qed.

(** ** The orphans *)

Lemma add_len elapsed p o : (orphans_len (orphans_add ct elapsed p o) <= S (orphans_len p))%nat.
Proof.
  unfold orphans_add, orphans_len. set (m := <[_ := o]> (orphans p)).
  assert (Hm : (size m <= S (size (orphans p)))%nat).
  { subst m. destruct (orphans p !! orphan_hash ct o) as [y|] eqn:E; [|rewrite map_size_insert_None by done; lia].
    rewrite map_size_insert_Some by done. lia. }
  destruct (_ <? size m)%nat; [|exact Hm].
  match goal with |- context [evict_far ?h ?y ?i] =>
    pose proof (evict_subset h y i) as Hs; assert (Hy : (size y <= size m)%nat) by (apply map_subseteq_size, map_filter_subseteq);
    destruct (evict_far h y i) as [m' idx'] end.
  cbn [orphans fst] in *. apply map_subseteq_size in Hs. lia.
Qed.

(** One of the orphans panics, on the chain that those before it left. *)
Inductive orphan_panics : list Orphan -> Chain -> Prop :=
| panics_here o l c c' : process_block_single (Bitmap := Bitmap) ct (orphan_block o) (orphan_opts o) c = (Panic, c') -> orphan_panics (o :: l) c
| panics_later o l c r c' : process_block_single (Bitmap := Bitmap) ct (orphan_block o) (orphan_opts o) c = (r, c') -> r <> Panic ->
    orphan_panics l c' -> orphan_panics (o :: l) c.

(** Every orphan that is accepted has left the pool. *)
Lemma try_spec l : forall acc c,
  match try_orphans (Bitmap := Bitmap) ct l acc c with
  | (Ok acc', c') =>
      (length (chain_adapter c') + orphans_len (chain_orphans c') <=
       length (chain_adapter c) + length l + orphans_len (chain_orphans c))%nat /\
      (length (chain_adapter c) <= length (chain_adapter c'))%nat /\
      (orphans_len (chain_orphans c') <= length l + orphans_len (chain_orphans c))%nat /\
      (acc'.1 = true -> acc.1 = true \/ (orphans_len (chain_orphans c') < length l + orphans_len (chain_orphans c))%nat) /\
      (acc.1 = true -> acc'.1 = true) /\ (acc'.1 = true \/ length (chain_adapter c') = length (chain_adapter c))
  | (Err _, _) => False
  | (Panic, _) => orphan_panics l c
  end.
Proof.
  induction l as [|o l IH]; intros acc c; cbn [try_orphans].
  - cbn [vret length]. split; [lia|]. split; [lia|]. split; [lia|]. split; [intros H; left; exact H|]. split; [done|right; done].
  - unfold vbind, vtry. pose proof (single_spec (orphan_block o) (orphan_opts o) c) as H.
    destruct (process_block_single ct (orphan_block o) (orphan_opts o) c) as [[t|e|] c1] eqn:E1; cycle 2.
    + eapply panics_here. exact E1.
    + specialize (IH (true, orphan_height o) c1). destruct (try_orphans ct l (true, orphan_height o) c1) as [[acc'|e|] c']; [|exact IH|eapply panics_later; [exact E1|discriminate|exact IH]].
      destruct H as (hd & b' & _ & _ & _ & Eo & Ea). rewrite Eo, Ea, length_app in IH. cbn [length] in IH |- *.
      destruct IH as (I1 & I2 & I3 & I4 & I5 & I6). repeat split; try lia; [intros _; apply I5; done|left; apply I5; done].
    + specialize (IH acc c1). destruct (try_orphans ct l acc c1) as [[acc'|e'|] c']; [|exact IH|eapply panics_later; [exact E1|discriminate|exact IH]].
      destruct H as (_ & Ea & elapsed & now & Eo). rewrite Ea in IH. cbn [length].
      assert (Hl : (orphans_len (chain_orphans c1) <= S (orphans_len (chain_orphans c)))%nat) by (rewrite Eo; destruct e; try lia; apply add_len).
      destruct IH as (I1 & I2 & I3 & I4 & I5 & I6). repeat split; try lia; [|exact I5|exact I6].
      intros Ha. destruct (I4 Ha) as [|Hlt]; [left; done|right; lia].
Qed.

(** The loop of [check_orphans], without fuel: the number of its turns, its result and the chain it leaves.  A turn takes the
    orphans of a height out of the pool and tries them; the loop ends with the first height without orphans or without an
    accepted one, and it panics only when one of the orphans of the turn does. *)
Inductive orphan_turns : nat -> Chain -> Z -> res ErrorKind unit -> Chain -> Prop :=
| turns_none c height p : remove_by_height (chain_orphans c) height = (None, p) ->
    orphan_turns 1 c height (Ok tt) (with_orphans c p (clock_readings c))
| turns_stop c height l p h c' : remove_by_height (chain_orphans c) height = (Some l, p) ->
    try_orphans (Bitmap := Bitmap) ct l (false, height) (with_orphans c p (clock_readings c)) = (Ok (false, h), c') ->
    orphan_turns 1 c height (Ok tt) c'
| turns_panic c height l p c' : remove_by_height (chain_orphans c) height = (Some l, p) ->
    orphan_panics l (with_orphans c p (clock_readings c)) ->
    try_orphans (Bitmap := Bitmap) ct l (false, height) (with_orphans c p (clock_readings c)) = (Panic, c') ->
    orphan_turns 1 c height Panic c'
| turns_more n c height l p h c1 r c' : remove_by_height (chain_orphans c) height = (Some l, p) ->
    try_orphans (Bitmap := Bitmap) ct l (false, height) (with_orphans c p (clock_readings c)) = (Ok (true, h), c1) ->
    orphan_turns n c1 (h + 1)%u64 r c' -> orphan_turns (S n) c height r c'.

Lemma removed_len p height l p' : remove_by_height p height = (Some l, p') -> (length l + orphans_len p' = orphans_len p)%nat.
Proof.
  unfold remove_by_height. destruct (height_idx p !! height) as [hs|]; [|discriminate]. destruct (take_all_spec hs (orphans p)) as (E & _ & Hn).
  destruct (take_all hs (orphans p)) as [l0 m]. cbn [fst snd] in *. intros [= <- <-]. unfold orphans_len. cbn [orphans]. subst m. exact Hn.
Qed.

Lemma check_spec fuel : forall height c, (orphans_len (chain_orphans c) < fuel)%nat ->
  exists n, (n <= S (orphans_len (chain_orphans c)))%nat /\
  match check_orphans (Bitmap := Bitmap) ct fuel height c with
  | (Ok _, c') => orphan_turns n c height (Ok tt) c' /\
      (length (chain_adapter c') + orphans_len (chain_orphans c') <= length (chain_adapter c) + orphans_len (chain_orphans c))%nat
  | (Err _, _) => False
  | (Panic, c') => orphan_turns n c height Panic c'
  end.
Proof.
  induction fuel as [|fuel IH]; intros height c Hf; [lia|]. cbn [check_orphans].
  destruct (remove_by_height (chain_orphans c) height) as [[l|] p] eqn:Er.
  - pose proof (removed_len _ _ _ _ Er) as Hn. pose proof (try_spec l (false, height) (with_orphans c p (clock_readings c))) as Ht. unfold vbind.
    destruct (try_orphans ct l (false, height) _) as [[[a h]|e|] c1] eqn:Et; [|done|exists 1%nat; split; [lia|eapply turns_panic; eassumption]].
    destruct Ht as (I1 & _ & I3 & I4 & _).
    cbn [with_orphans chain_orphans chain_adapter fst] in *. destruct a.
    + destruct (I4 eq_refl) as [|Hlt]; [done|]. destruct (IH (h + 1)%u64 c1 ltac:(lia)) as (n & Hle & Hc). cbn [snd]. exists (S n). split; [lia|].
      destruct (check_orphans ct fuel (h + 1)%u64 c1) as [[u|e|] c']; [|exact Hc|eapply turns_more; eassumption]. destruct Hc as [T Hc]. split; [|lia].
      eapply turns_more; eassumption.
    + exists 1%nat. split; [lia|]. cbn [vret]. split; [eapply turns_stop; eassumption|lia].
  - exists 1%nat. split; [lia|]. split; [apply turns_none; exact Er|]. cbn [with_orphans chain_orphans chain_adapter].
    unfold remove_by_height in Er. destruct (height_idx _ !! height); [destruct (take_all _ _); discriminate|]. injection Er as <-. lia.
Qed.

(** C13: After an accepted block the orphans are tried height after height until none is accepted, and this always comes to
    an end: the loop of the code stops within as many turns as there are orphans and one more, it never fails, every orphan
    that was accepted has left the pool, and it panics only in a turn one of whose orphans panics when it is processed.  After a
    rejected block nothing is tried. *)
Theorem orphans_come_to_rest x opts c :
  match process_block_single (Bitmap := Bitmap) ct x opts c with
  | (Ok t, c1) =>
    exists turns, (turns <= S (orphans_len (chain_orphans c1)))%nat /\
    match chain_process_block (Bitmap := Bitmap) ct x opts c with
    | (Ok t', c2) => t' = t /\ orphan_turns turns c1 (bh_height (Block.header x) + 1)%u64 (Ok tt) c2 /\
        (length (chain_adapter c2) + orphans_len (chain_orphans c2) <= length (chain_adapter c1) + orphans_len (chain_orphans c1))%nat
    | (Err _, _) => False
    | (Panic, c2) => orphan_turns turns c1 (bh_height (Block.header x) + 1)%u64 Panic c2
    end
  | (r, c1) => chain_process_block (Bitmap := Bitmap) ct x opts c = (r, c1)
  end.
Proof.
  unfold chain_process_block, vbind. destruct (process_block_single ct x opts c) as [[t|e|] c1]; [|done..].
  destruct (check_spec (S (orphans_len (chain_orphans c1))) (bh_height (Block.header x) + 1)%u64 c1 ltac:(lia)) as (turns & Hle & Hc).
  exists turns. split; [exact Hle|]. destruct (check_orphans ct _ _ c1) as [[u|e|] c2]; [split; [done|exact Hc]|exact Hc..].
Qed.

(** ** The block of a kernel *)

Section Search.
  Context (header_at : Z -> res ErrorKind BlockHeader) (size_of : BlockHeader -> Z) (f : Z -> BlockHeader).

Lemma search_turn index fuel min max : 0 <= min <= max -> max < U64 ->
  let s := max - (max - min) / 2 in
  min <= s <= max /\ (min < max -> min < s) /\
  search_header header_at size_of index (S fuel) min max =
    let? h := header_at s in
    if s =? 0 then Ok h
    else
      let? h_prev := header_at (s - 1) in
      if size_of h <? index then search_header header_at size_of index fuel s max
      else if index <? size_of h_prev then search_header header_at size_of index fuel min s
      else if index =? size_of h_prev then Ok h_prev else Ok h.
Proof.
  intros Hm Hu s. assert (Hd : 0 <= (max - min) / 2 /\ 2 * ((max - min) / 2) <= max - min) by (Z.div_mod_to_equations; lia).
  split; [subst s; lia|]. split; [subst s; lia|]. cbn [search_header].
  rewrite (sub64_small max min), (sub64_small max) by lia. done.
Qed.

(** The search finds the block with the kernel when every block adds a kernel. *)
Lemma search_spec index n t : forall fuel min max,
  (forall i, 0 <= i <= n -> header_at i = Ok (f i)) ->
  (forall i j, 0 <= i -> i < j -> j <= n -> size_of (f i) < size_of (f j)) ->
  0 <= min -> max <= n -> n < U64 -> min <= t <= max -> (min = t -> index = size_of (f t)) ->
  index <= size_of (f t) -> (0 < t -> size_of (f (t - 1)) < index) -> (Z.to_nat (max - min) < fuel)%nat ->
  search_header header_at size_of index fuel min max = Ok (f t).
Proof.
  induction fuel as [|fuel IH]; intros min max Ha Hs Hmin Hmax Hn Ht Hm Hi Hp Hf; [lia|].
  destruct (search_turn index fuel min max ltac:(lia) ltac:(lia)) as (Hr & Hlt & ->). set (s := max - (max - min) / 2) in *.
  rewrite Ha by lia. cbn [res_bind]. destruct (Z.eqb_spec s 0) as [E|Hs0]; [f_equal; f_equal; lia|]. rewrite Ha by lia. cbn [res_bind].
  destruct (Z.ltb_spec (size_of (f s)) index) as [H1|H1].
  { assert (s < t). { destruct (Z.lt_trichotomy s t) as [|[->|Hg]]; [done|lia|]. specialize (Hs t s ltac:(lia) Hg ltac:(lia)). lia. }
    assert (min < s) by lia. apply IH; try done; try lia. }
  assert (t <= s) by (destruct (Z.le_gt_cases t s) as [|Hg]; [done|]; specialize (Hp ltac:(lia)); destruct (Z.eq_dec s (t - 1)) as [->|]; [lia|];
    specialize (Hs s (t - 1) ltac:(lia) ltac:(lia) ltac:(lia)); lia).
  destruct (Z.ltb_spec index (size_of (f (s - 1)))) as [H2|H2].
  { assert (t < s). { destruct (Z.eq_dec t s) as [->|]; [specialize (Hp ltac:(lia)); lia|lia]. }
    assert (t <> s - 1 \/ index < size_of (f t)) by (destruct (Z.eq_dec t (s - 1)) as [->|]; [right; done|left; done]).
    assert (min < t \/ t <> s - 1).
    { destruct (Z.eq_dec min t) as [E|]; [|left; lia]. right. intros ->. specialize (Hm E). lia. }
    assert (s < max) by (subst s; Z.div_mod_to_equations; lia). apply IH; try done; lia. }
  destruct (Z.eqb_spec index (size_of (f (s - 1)))) as [H3|H3]; do 2 f_equal.
  - destruct (Z.eq_dec t s) as [->|]; [specialize (Hp ltac:(lia)); lia|]. destruct (Z.eq_dec t (s - 1)) as [|]; [lia|].
    specialize (Hs t (s - 1) ltac:(lia) ltac:(lia) ltac:(lia)). lia.
  - destruct (Z.eq_dec t s) as [|]; [lia|]. assert (size_of (f t) <= size_of (f (s - 1))); [|lia].
    destruct (Z.eq_dec t (s - 1)) as [->|]; [lia|]. specialize (Hs t (s - 1) ltac:(lia) ltac:(lia) ltac:(lia)). lia.
Qed.

(** Above the size of the last block the code never returns. *)
Lemma search_above index n : forall fuel min,
  (forall i, 0 <= i <= n -> header_at i = Ok (f i)) -> (forall i, 0 <= i <= n -> size_of (f i) < index) ->
  0 <= min <= n -> 0 < n < U64 -> search_header header_at size_of index fuel min n = Panic.
Proof.
  induction fuel as [|fuel IH]; intros min Ha Hs Hm Hn; [done|].
  destruct (search_turn index fuel min n ltac:(lia) ltac:(lia)) as (Hr & Hlt & ->). set (s := n - (n - min) / 2) in *.
  rewrite Ha by lia. cbn [res_bind]. rewrite (proj2 (Z.eqb_neq s 0)) by lia. rewrite Ha by lia. cbn [res_bind].
  rewrite (proj2 (Z.ltb_lt _ _)) by (apply Hs; lia). apply IH; [done|done|lia|done].
Qed.
End Search.

(** When every block adds a kernel, [get_header_for_kernel_index] ends and returns the block that the kernel came with:
    the first whose kernel tree reaches the index.  The bounds may be given; a block at the lower bound is found only
    when the kernel is its last. *)
Theorem kernel_index_finds_its_block c (f : Z -> BlockHeader) index min_height max_height n t :
  (match max_height with Some h => Ok h | None => let? tip := chain_head c in Ok (tip_height tip) end) = Ok n ->
  (forall i, 0 <= i <= n -> chain_header_by_height (Bitmap := Bitmap) c i = Ok (f i)) ->
  (forall i j, 0 <= i -> i < j -> j <= n -> kernel_mmr_size (f i) < kernel_mmr_size (f j)) ->
  n < U64 -> saturating_sub (default 0 min_height) 1 <= t <= n ->
  (saturating_sub (default 0 min_height) 1 = t -> index = kernel_mmr_size (f t)) ->
  index <= kernel_mmr_size (f t) -> (0 < t -> kernel_mmr_size (f (t - 1)) < index) ->
  get_header_for_kernel_index (Bitmap := Bitmap) c index min_height max_height = Ok (f t).
Proof.
  intros En Ha Hs Hn Ht Hm Hi Hp. unfold get_header_for_kernel_index, header_for_index. rewrite En. cbn [res_bind].
  apply (search_spec _ _ f index n t); try done; [unfold saturating_sub; lia|lia..].
Qed.
End ChainTheorems.
