(* ===== verification/ChainExamples.v ===== *)
(** * A chain at work

    The theorems on the chain at concrete inputs, on the headers and blocks of [ForkExamples], and what the model shows of
    two operations: the tree of headers keeps a rejected header, and the block of a token kernel can be missed. *)

From Stdlib Require Import ZArith Lia List Bool.
From stdpp Require Import base numbers list option gmap.
From S2P Require Import Prelude MmrIndex Pmmr PmmrTheorems Bytes Consensus Ser Bitmap PruneList DataFile FileBackend StoreTheorems PowTypes Transaction TxBody Committed Verifier Aggregate Block Pool ChainTypes BitmapAccumulator ChainStore TxHashSet TreeLaws FileTrees TreeElements TxHashSetTheorems OpenSet SetExamples Pipe HeaderTheorems ForkExamples PipeTheorems OrphanPool Chain ChainState ChainTheorems.

#[local] Existing Instance mod_digest.
#[local] Existing Instance mod_size.
#[local] Existing Instance demo_sizes.
#[local] Existing Instance demo_small.
#[local] Existing Instance demo_verify.
#[local] Existing Instance sum_secp.
#[local] Abbreviation ct := Mainnet.
#[local] Abbreviation F := (fun _ : Type => PMMRBackend (gset Z)).
#[local] Existing Instance fork_trees.
#[local] Existing Instance header_pmmrable.
#[local] Instance demo_clock : Clock := {| instant n := Z.of_nat n |}.
#[local] Abbreviation Chain := (Chain (list bytes) F).

(** ** The start *)

Definition no_tree {T} : PMMR (F T) := mkPMMR 0 no_backend.
Definition no_trees : TxHashSet F := mkTxHashSet no_tree no_tree no_tree no_tree no_tree no_tree no_tree acc_new.
Definition got {A} (default_value : A) (r : res ErrorKind A) : A := match r with Ok a => a | _ => default_value end.

Definition new_header_tree : PMMR (F BlockHeader) := got no_tree (handle_new (Bitmap := gset Z) ct HeaderEntry header_elmt_size no_files false 1 None).
Definition genesis_block : Block := mkBlock fork_0 aux_data_default (mkBody [] [] [] [] [] []).

(** [Chain::init] without files *)
Definition started : res ErrorKind Chain :=
  let? trees := set_open ct no_set None in
  chain_init ct empty_db trees new_header_tree new_header_tree genesis_block (fun _ => true) (mkVerifier [] []) false.
Definition no_chain : Chain := mkChain empty_db [] orphans_new no_trees no_tree no_tree (mkVerifier [] []) (fun _ => true) false fork_0 0.
Definition at_genesis : Chain := got no_chain started.

Lemma starts_at_genesis : is_ok started = true /\ chain_head at_genesis = Ok (tip_from_header ct fork_0) /\
  chain_header_head (Bitmap := gset Z) ct at_genesis = Ok (tip_from_header ct fork_0).
Proof. vm_compute. done. Qed.

(** ** A rejected header in the header tree *)

(** A header on top of the genesis, at a time, with the difficulty that is due *)
Definition next_at (time : Z) : BlockHeader :=
  mkHeader (bh_version fork_1) 1 (prev_hash fork_1) (prev_root fork_1) time (output_root fork_1) (range_proof_root fork_1)
    (kernel_root fork_1) (total_kernel_offset fork_1) (output_mmr_size fork_1) (kernel_mmr_size fork_1) (bits fork_1) (token_output_root fork_1)
    (token_range_proof_root fork_1) (token_issue_proof_root fork_1) (token_kernel_root fork_1) (token_output_mmr_size fork_1)
    (token_issue_proof_mmr_size fork_1) (token_kernel_mmr_size fork_1)
    (mkPow (mkDifficulty 2) (secondary_scaling (pow fork_1)) (nonce (pow fork_1)) (proof (pow fork_1))) (btc_pow fork_1).
Definition process_header (h : BlockHeader) (c : Chain) : res ErrorKind unit * Chain :=
  chain_process_block_header (Bitmap := gset Z) ct h SKIP_POW c.
Definition after_rejected : Chain := (process_header (next_at (timestamp fork_0)) at_genesis).2.

(** A rejected header can stop the chain.  [process_block_header] writes the header tree before it validates the header: a
    header on top of the genesis with a time that is too early is rejected, but stays the head of the header tree, while
    the store does not have it; from then on the head of the header chain is not found, and a valid header, which the chain
    accepted before, is refused. *)
Theorem rejected_header_stops_the_chain :
  (process_header (next_at (timestamp fork_0)) at_genesis).1 = Err CInvalidBlockTime /\
  chain_head after_rejected = chain_head at_genesis /\
  chain_header_head (Bitmap := gset Z) ct at_genesis = Ok (tip_from_header ct fork_0) /\
  chain_header_head (Bitmap := gset Z) ct after_rejected = Err (StoreErr NotFoundErr) /\
  (process_header (next_at (timestamp fork_0 + 1)) at_genesis).1 = Ok tt /\
  (process_header (next_at (timestamp fork_0 + 1)) after_rejected).1 = Err (StoreErr NotFoundErr).
Proof. vm_compute. repeat split. Qed.

(** ** The block of a token kernel *)

(** Six blocks, of which only the first has a token kernel *)
Definition token_header (height : Z) : BlockHeader :=
  mkHeader 1 height ZERO_HASH_BYTES ZERO_HASH_BYTES 1000 ZERO_HASH_BYTES ZERO_HASH_BYTES ZERO_HASH_BYTES
    blind_zero 0 0 0 ZERO_HASH_BYTES ZERO_HASH_BYTES ZERO_HASH_BYTES ZERO_HASH_BYTES 0 0 (if height =? 0 then 0 else 1)
    (mkPow difficulty_min 1 0 (mkPowProof 29 (replicate proofsize height))) aux_data_default.

(** The search of [get_header_for_token_kernel_index] with the head at 6 gives block 2 for the kernel of block 1. *)
Lemma token_kernel_of_another_block :
  token_kernel_mmr_size (token_header 0) < 1 <= token_kernel_mmr_size (token_header 1) /\
  exists h, search_header (fun i => Ok (token_header i)) token_kernel_mmr_size 1 7 0 6 = Ok h /\ bh_height h = 2.
Proof. split; [vm_compute; split; [reflexivity|discriminate]|]. eexists. split; vm_compute; reflexivity. Qed.

(** ** Witnesses *)

(** The header tree of [ForkExamples] at the second block, with its store *)
Definition fork_chain : Chain :=
  mkChain (content (at_2a (with_fork (batch empty_db)))) [] orphans_new no_trees (got no_tree fork_tree) (got no_tree fork_tree)
    (mkVerifier [] []) (fun _ => true) false fork_0 0.
Definition fork_header (i : Z) : BlockHeader := default fork_2a ([fork_0; fork_1; fork_2a] !! Z.to_nat i).

Lemma fork_chain_headers : Forall (fun i => chain_header_by_height (Bitmap := gset Z) fork_chain i = Ok (fork_header i)) [0; 1; 2].
Proof. repeat (apply Forall_cons; split); [vm_compute; reflexivity..|apply Forall_nil; done]. Qed.

Lemma kernel_index_finds_its_block_witness : get_header_for_kernel_index (Bitmap := gset Z) fork_chain 2 None None = Ok (fork_header 2).
Proof.
  apply (kernel_index_finds_its_block (Bitmap := gset Z) fork_chain fork_header 2 None None 2 2).
  - vm_compute. reflexivity.
  - intros i Hi. pose proof fork_chain_headers as F. rewrite Forall_forall in F. apply F.
    assert (i = 0 \/ i = 1 \/ i = 2) as [->|[->| ->]] by lia; repeat (left || right).
  - intros i j Hi Hj Hn. assert (i = 0 /\ j = 1 \/ i = 0 /\ j = 2 \/ i = 1 /\ j = 2) as [[-> ->]|[[-> ->]|[-> ->]]] by lia; vm_compute; reflexivity.
  - lia.
  - vm_compute. split; discriminate.
  - intros H. vm_compute in H. discriminate.
  - vm_compute. discriminate.
  - intros _. vm_compute. reflexivity.
Defined.

Lemma fork_chain_typed : store_typed ct (chain_store fork_chain).
Proof.
  pose proof (with_fork_store (batch empty_db)) as [E1 E2].
  assert (W : fork_store (chain_store fork_chain)) by (split; [exact E1|exact E2]). constructor.
  - intros k h H. destruct (fork_lookup _ k h W H) as [_ ->]. reflexivity.
  - intros k x H. destruct (fork_block _ k x W H) as [_ ->]. reflexivity.
  - intros k [x H]. destruct (fork_block _ k x W H) as [Hx ->]. pose proof fork_blocks_facts as Fb. rewrite Forall_forall in Fb.
    destruct (Fb x Hx) as [Hm _]. exists (header x). exact (fork_stored _ _ W Hm).
  - intros t H. injection H as <-. exists block_2a. vm_compute. reflexivity.
Qed.
Lemma store_stays_typed_witness :
  store_typed ct (chain_store (fold_left (fun c o => run_op (Bitmap := gset Z) ct o c) [OpBlock block_2b 0; OpHeader fork_2b 0; OpHeaders [fork_2b] 0] fork_chain)).
Proof. exact (store_stays_typed (Bitmap := gset Z) ct [OpBlock block_2b 0; OpHeader fork_2b 0; OpHeaders [fork_2b] 0] fork_chain fork_chain_typed). Defined.

Definition one_orphan : OrphanBlockPool := orphans_add ct (fun _ => 0) orphans_new (mkOrphan block_2b 0 0).
Lemma orphan_pool_is_bounded_witness :
  (orphans_len one_orphan <= 200)%nat /\ exists l p, remove_by_height one_orphan 2 = (Some l, p) /\ l = [mkOrphan block_2b 0 0].
Proof.
  assert (Hr : pool_reachable ct one_orphan) by (apply reach_add; apply reach_new).
  split; [exact (proj1 (orphan_pool_is_bounded ct one_orphan 2 Hr))|]. eexists _, _. split; vm_compute; reflexivity.
Defined.
