(* ===== verification/Base58.v ===== *)
(** * Base58

    Models [keychain/src/base58.rs]: the text form of extended keys, a number in base 58 with a checksum.

    A string is its bytes.  The loops over digits keep their carries; the vectors that grow from the low end, and the scratch
    buffer that is walked from its end, are lists with the low digit first. *)

From Stdlib Require Import ZArith Lia List Bool String Ascii.
From stdpp Require Import base numbers list option gmap.
From S2P Require Import Prelude Bytes Ser Pmmr.

(** SHA-256 gives 32 bytes. *)
Class Sha256Laws `{DG : Digest} : Prop := sha256_hash : forall data, is_hash (sha256 data).

(** The bytes of an ASCII literal *)
Definition ascii_bytes (s : string) : bytes := map (fun c => Z.of_N (N_of_ascii c)) (list_ascii_of_string s).

Definition sha256d_hash {DG : Digest} (data : bytes) : bytes := sha256 (sha256 data).
Definition into_le_low_u32 (data : bytes) : Z := le_val (take 8 data) mod 2 ^ 32.

Inductive Base58Error :=
| BadByte (b : Z)
| BadChecksum (expected actual : Z)
| InvalidLength (n : Z)
| InvalidVersion (v : bytes)
| TooShort (n : Z)
| Base58Other.

Definition BASE58_CHARS : bytes := ascii_bytes "123456789ABCDEFGHJKLMNPQRSTUVWXYZabcdefghijkmnopqrstuvwxyz".

(** The table of digits, eight entries to a line *)
Definition BASE58_DIGITS : list (option Z) :=
  replicate 49 None ++
  [Some 0; Some 1; Some 2; Some 3; Some 4; Some 5; Some 6; Some 7; Some 8; None; None; None; None; None; None; None;
   Some 9; Some 10; Some 11; Some 12; Some 13; Some 14; Some 15;
   Some 16; None; Some 17; Some 18; Some 19; Some 20; Some 21; None;
   Some 22; Some 23; Some 24; Some 25; Some 26; Some 27; Some 28; Some 29;
   Some 30; Some 31; Some 32; None; None; None; None; None; None;
   Some 33; Some 34; Some 35; Some 36; Some 37; Some 38; Some 39;
   Some 40; Some 41; Some 42; Some 43; None; Some 44; Some 45; Some 46;
   Some 47; Some 48; Some 49; Some 50; Some 51; Some 52; Some 53; Some 54;
   Some 55; Some 56; Some 57; None; None; None; None; None].

(** ** Decoding *)

(** [for d256 in scratch.iter_mut().rev()], with the carry it ends with *)
Fixpoint mul58_add (low_first : bytes) (carry : Z) : bytes * Z :=
  match low_first with
  | [] => ([], carry)
  | d256 :: l =>
    let carry := carry + d256 * 58 in
    let '(l, c) := mul58_add l (carry / 256) in
    (carry mod 256 :: l, c)
  end.

(** [for d58 in data.bytes()] *)
Fixpoint decode_digits (data : bytes) (scratch : bytes) : res Base58Error bytes :=
  match data with
  | [] => Ok scratch
  | d58 :: data =>
    if Z.of_nat (length BASE58_DIGITS) <? d58 then Err (BadByte d58)
    else
      match BASE58_DIGITS !! Z.to_nat d58 with
      | None => Panic
      | Some None => Err (BadByte d58)
      | Some (Some digit) =>
        let '(low_first, carry) := mul58_add (rev scratch) digit in
        if carry =? 0 then decode_digits data (rev low_first) else Panic
      end
  end.

Fixpoint take_while {A} (f : A -> bool) (l : list A) : list A :=
  match l with x :: l => if f x then x :: take_while f l else [] | [] => [] end.

(** [base58::from] *)
Definition base58_from (data : bytes) : res Base58Error bytes :=
  let? scratch := decode_digits data (replicate (1 + length data * 11 / 15) 0) in
  Ok (map (fun _ => 0) (take_while (fun x => x =? default 0 (head BASE58_CHARS)) data) ++ skip_while (fun x => x =? 0) scratch).

(** [from_check] *)
Definition from_check {DG : Digest} (data : bytes) : res Base58Error bytes :=
  let? ret := base58_from data in
  if (length ret <? 4)%nat then Err (TooShort (Z.of_nat (length ret)))
  else
    let ck_start := (length ret - 4)%nat in
    let expected := into_le_low_u32 (sha256d_hash (take ck_start ret)) in
    let actual := le_val (take 4 (drop ck_start ret)) in
    if expected =? actual then Ok (take ck_start ret) else Err (BadChecksum expected actual).

(** ** Encoding *)

(** [for ch in ret.iter_mut()], with the carry it ends with *)
Fixpoint mul256_add (low_first : list Z) (carry : Z) : list Z * Z :=
  match low_first with
  | [] => ([], carry)
  | ch :: l =>
    let new_ch := ch * 256 + carry in
    let '(l, c) := mul256_add l (new_ch / 58) in
    (new_ch mod 58 :: l, c)
  end.

(** [while carry > 0]: the carry falls, so that it is enough fuel itself *)
Fixpoint push_carry (fuel : nat) (carry : Z) : list Z :=
  match fuel with
  | O => []
  | S fuel => if 0 <? carry then carry mod 58 :: push_carry fuel (carry / 58) else []
  end.

(** [for d256 in data]: the digits, and the zeroes at the start of the data *)
Fixpoint encode_digits (data : bytes) (ret : list Z) (leading_zero_count : nat) (leading_zeroes : bool) : list Z * nat :=
  match data with
  | [] => (ret, leading_zero_count)
  | d256 :: data =>
    let zero := leading_zeroes && (d256 =? 0) in
    let '(ret, carry) := mul256_add ret d256 in
    encode_digits data (ret ++ push_carry (Z.to_nat carry) carry)
      (if zero then S leading_zero_count else leading_zero_count) zero
  end.

(** [encode_iter_utf8] *)
Definition encode_iter_utf8 (data : bytes) : bytes :=
  let '(ret, leading_zero_count) := encode_digits data [] 0 true in
  map (fun ch => default 0 (BASE58_CHARS !! Z.to_nat ch)) (rev (ret ++ replicate leading_zero_count 0)).

(** [check_encode_slice] *)
Definition check_encode_slice {DG : Digest} (data : bytes) : bytes :=
  encode_iter_utf8 (data ++ take 4 (sha256d_hash data)).

(** ** Numbers in base 58 *)

(** The number of digits, the low one first *)
Definition digits_val (base : Z) (low_first : list Z) : Z := foldr (fun d v => d + base * v) 0 low_first.
Definition are_digits (base : Z) (l : list Z) : Prop := Forall (fun d => 0 <= d < base) l.

Lemma digits_val_app base l l' : digits_val base (l ++ l') = digits_val base l + base ^ Z.of_nat (length l) * digits_val base l'.
Proof.
  induction l as [|d l IH].
  - change (digits_val base []) with 0. change (base ^ Z.of_nat (length (@nil Z))) with 1. cbn [app]. lia.
  - cbn [app length].
    change (digits_val base (d :: l ++ l')) with (d + base * digits_val base (l ++ l')).
    change (digits_val base (d :: l)) with (d + base * digits_val base l).
    rewrite IH, Nat2Z.inj_succ, Z.pow_succ_r by lia. ring.
Qed.
Lemma digits_val_bounds base l : are_digits base l -> 0 <= digits_val base l < base ^ Z.of_nat (length l).
Proof.
  induction 1 as [|d l Hd _ IH]; [cbn; lia|]. cbn [digits_val foldr length]. fold (digits_val base l).
  rewrite Nat2Z.inj_succ, Z.pow_succ_r by lia. nia.
Qed.
Lemma le_val_digits l : le_val l = digits_val 256 l.
Proof. induction l as [|d l IH]; cbn; [done|]. rewrite IH. done. Qed.

Lemma mul58_add_spec l : are_bytes l -> forall carry, 0 <= carry ->
  let '(l', c) := mul58_add l carry in
  are_bytes l' /\ length l' = length l /\ 0 <= c /\ le_val l' + 256 ^ Z.of_nat (length l) * c = 58 * le_val l + carry.
Proof.
  induction 1 as [|d l Hd Hl IH]; intros carry Hc; cbn [mul58_add]; [cbn; repeat split; try constructor; lia|].
  unfold is_byte in Hd. specialize (IH ((carry + d * 58) / 256) ltac:(Z.div_mod_to_equations; lia)).
  destruct (mul58_add l _) as [l' c]. destruct IH as (H1 & H2 & H3 & H4). repeat split; [|cbn; lia|lia|].
  - constructor; [unfold is_byte; Z.div_mod_to_equations; lia|exact H1].
  - cbn [le_val length]. rewrite Nat2Z.inj_succ, Z.pow_succ_r by lia.
    pose proof (Z.div_mod (carry + d * 58) 256 ltac:(lia)). nia.
Qed.

Lemma mul256_add_spec l : are_digits 58 l -> forall carry, 0 <= carry < 256 ->
  let '(l', c) := mul256_add l carry in
  are_digits 58 l' /\ length l' = length l /\ 0 <= c < 256 /\
  digits_val 58 l' + 58 ^ Z.of_nat (length l) * c = 256 * digits_val 58 l + carry.
Proof.
  induction 1 as [|d l Hd Hl IH]; intros carry Hc; cbn [mul256_add]; [cbn; repeat split; try constructor; lia|].
  specialize (IH ((d * 256 + carry) / 58) ltac:(Z.div_mod_to_equations; lia)).
  destruct (mul256_add l _) as [l' c]. destruct IH as (H1 & H2 & H3 & H4). repeat split; [|cbn; lia|lia..|].
  - constructor; [Z.div_mod_to_equations; lia|exact H1].
  - cbn [digits_val foldr length]. fold (digits_val 58 l) (digits_val 58 l'). rewrite Nat2Z.inj_succ, Z.pow_succ_r by lia.
    pose proof (Z.div_mod (d * 256 + carry) 58 ltac:(lia)). nia.
Qed.

(** Digits without a zero at the high end *)
Definition no_high_zero (low_first : list Z) : Prop := last low_first <> Some 0.
Lemma push_carry_spec fuel : forall carry, 0 <= carry -> (Z.to_nat carry <= fuel)%nat ->
  are_digits 58 (push_carry fuel carry) /\ digits_val 58 (push_carry fuel carry) = carry /\ no_high_zero (push_carry fuel carry) /\
  (carry <> 0 -> push_carry fuel carry <> []).
Proof.
  induction fuel as [|fuel IH]; intros carry Hc Hf; cbn [push_carry].
  - repeat split; [constructor|cbn; lia|done|lia].
  - destruct (Z.ltb_spec 0 carry) as [Hpos|]; [|assert (carry = 0) by lia; subst; repeat split; [constructor|done..]].
    destruct (IH (carry / 58)) as (H1 & H2 & H3 & H4); [Z.div_mod_to_equations; lia| |].
    { assert (carry / 58 < carry) by (apply Z.div_lt; lia). lia. }
    repeat split; [constructor; [Z.div_mod_to_equations; lia|exact H1]| | |done].
    + cbn [digits_val foldr]. fold (digits_val 58 (push_carry fuel (carry / 58))). rewrite H2. Z.div_mod_to_equations; lia.
    + unfold no_high_zero. destruct (push_carry fuel (carry / 58)) as [|x l] eqn:E; [|rewrite last_cons_cons; exact H3].
      assert (carry / 58 = 0) by (destruct (Z.eq_dec (carry / 58) 0); [done|destruct H4; done]). cbn. intros [= H0].
      pose proof (Z.div_mod carry 58 ltac:(lia)). lia.
Qed.

(** A step of the encoder multiplies by 256 and adds the byte. *)
Lemma encode_step ret d256 : are_digits 58 ret -> no_high_zero ret -> 0 <= d256 < 256 ->
  let '(ret', carry) := mul256_add ret d256 in
  let digits := ret' ++ push_carry (Z.to_nat carry) carry in
  are_digits 58 digits /\ no_high_zero digits /\ digits_val 58 digits = 256 * digits_val 58 ret + d256.
Proof.
  intros Hr Hz Hd. pose proof (mul256_add_spec ret Hr d256 Hd) as H.
  destruct (mul256_add ret d256) as [ret' carry] eqn:E. destruct H as (H1 & H2 & H3 & H4).
  destruct (push_carry_spec (Z.to_nat carry) carry ltac:(lia) ltac:(lia)) as (P1 & P2 & P3 & P4). repeat split.
  - apply Forall_app. done.
  - unfold no_high_zero. rewrite last_app. destruct (last (push_carry _ carry)) as [x|] eqn:El; [unfold no_high_zero in P3; congruence|].
    apply last_None in El. assert (carry = 0) by (destruct (Z.eq_dec carry 0); [done|destruct P4; done]). subst carry.
    rewrite Z.mul_0_r, Z.add_0_r in H4. intros Hl. apply last_Some in Hl as [l ->].
    destruct (last ret) as [x|] eqn:Er; [|apply last_None in Er; subst ret; destruct l; discriminate].
    apply last_Some in Er as [l0 ->]. apply Forall_app in Hr as [Hr0 Hx]. apply Forall_singleton in Hx.
    assert (x <> 0) by (intros ->; apply Hz; rewrite last_app; done).
    apply Forall_app in H1 as [Hl _]. rewrite !digits_val_app in H4. cbn in H4. rewrite !length_app in H2. cbn in H2.
    pose proof (digits_val_bounds 58 l Hl). pose proof (digits_val_bounds 58 l0 Hr0).
    assert (El' : length l0 = length l) by lia. rewrite El' in *. nia.
  - rewrite digits_val_app, P2, H2. lia.
Qed.

Definition leading_zeros (data : bytes) : nat := length (take_while (fun x => x =? 0) data).

Lemma encode_digits_spec data : are_bytes data -> forall ret n z, are_digits 58 ret -> no_high_zero ret ->
  let '(ret', n') := encode_digits data ret n z in
  are_digits 58 ret' /\ no_high_zero ret' /\
  digits_val 58 ret' = digits_val 58 ret * 256 ^ Z.of_nat (length data) + be_val data /\
  n' = (n + if z then leading_zeros data else 0)%nat.
Proof.
  induction 1 as [|d data Hd Hdata IH]; intros ret n z Hr Hz; cbn [encode_digits].
  - repeat split; [done|done|change (be_val []) with 0; change (Z.of_nat (length (@nil Z))) with 0; lia|destruct z; cbn; lia].
  - pose proof (encode_step ret d Hr Hz Hd) as Hs. destruct (mul256_add ret d) as [ret' c]. destruct Hs as (S1 & S2 & S3).
    specialize (IH (ret' ++ push_carry (Z.to_nat c) c) (if z && (d =? 0) then S n else n) (z && (d =? 0)) S1 S2).
    destruct (encode_digits data _ _ _) as [r k]. destruct IH as (I1 & I2 & I3 & I4). repeat split; [done|done| |].
    + rewrite I3, S3. cbn [length]. rewrite Nat2Z.inj_succ, Z.pow_succ_r by lia.
      assert (E : be_val (d :: data) = d * 256 ^ Z.of_nat (length data) + be_val data).
      { unfold be_val. cbn [rev]. rewrite (le_val_digits (rev data)), (le_val_digits (rev data ++ [d])), digits_val_app, length_rev. change (digits_val 256 [d]) with (d + 256 * 0). ring. }
      rewrite E. ring.
    + rewrite I4. unfold leading_zeros. cbn [take_while]. destruct z; cbn [andb]; [|lia]. destruct (d =? 0); cbn [length]; lia.
Qed.

(** ** Decoding undoes encoding *)

Lemma char_of_digit d : 0 <= d < 58 ->
  exists c, BASE58_CHARS !! Z.to_nat d = Some c /\ c < 128 /\ BASE58_DIGITS !! Z.to_nat c = Some (Some d) /\
            (c =? default 0 (head BASE58_CHARS)) = (d =? 0).
Proof.
  intros Hd.
  assert (H : Forall (fun d => match BASE58_CHARS !! d with
                               | Some c => (c <? 128) && bool_decide (BASE58_DIGITS !! Z.to_nat c = Some (Some (Z.of_nat d))) &&
                                           eqb (c =? default 0 (head BASE58_CHARS)) (Z.of_nat d =? 0)
                               | None => false
                               end = true) (seq 0 58)) by (vm_compute; repeat constructor).
  rewrite List.Forall_forall in H. specialize (H (Z.to_nat d) ltac:(apply in_seq; lia)). rewrite Z2Nat.id in H by lia.
  destruct (BASE58_CHARS !! Z.to_nat d) as [c|]; [|discriminate]. apply andb_prop in H as [H H3]. apply andb_prop in H as [H1 H2].
  exists c. apply bool_decide_eq_true in H2. apply eqb_prop in H3. repeat split; [lia|exact H2|exact H3].
Qed.
Definition char_of (ch : Z) : Z := default 0 (BASE58_CHARS !! Z.to_nat ch).

(** The scratch buffer of the decoder holds every number of that many digits. *)
Lemma scratch_suffices n : 58 ^ Z.of_nat n <= 256 ^ Z.of_nat (1 + n * 11 / 15).
Proof.
  destruct (Z.le_gt_cases (58 ^ Z.of_nat n) (256 ^ Z.of_nat (1 + n * 11 / 15))) as [H|H]; [exact H|exfalso].
  assert (H15 : (256 ^ Z.of_nat (1 + n * 11 / 15)) ^ 15 < (58 ^ Z.of_nat n) ^ 15) by (apply Z.pow_lt_mono_l; lia).
  rewrite <- !Z.pow_mul_r in H15 by lia. rewrite (Z.mul_comm (Z.of_nat n) 15), (Z.pow_mul_r 58 15) in H15 by lia.
  assert (Hb : (58 ^ 15) ^ Z.of_nat n <= (256 ^ 11) ^ Z.of_nat n) by (apply Z.pow_le_mono_l; lia).
  rewrite <- (Z.pow_mul_r 256 11) in Hb by lia.
  assert (Hm : 11 * Z.of_nat n <= Z.of_nat (1 + n * 11 / 15) * 15).
  { pose proof (Nat.div_mod (n * 11) 15 ltac:(lia)). pose proof (Nat.mod_upper_bound (n * 11) 15 ltac:(lia)). lia. }
  apply (Z.pow_le_mono_r 256) in Hm; [|lia]. lia.
Qed.

(** Decoding the characters of digits, the high one first *)
Lemma decode_digits_spec ds : are_digits 58 ds -> forall scratch, are_bytes scratch ->
  (be_val scratch + 1) * 58 ^ Z.of_nat (length ds) <= 256 ^ Z.of_nat (length scratch) ->
  exists scratch', decode_digits (map char_of ds) scratch = Ok scratch' /\ are_bytes scratch' /\
    be_val scratch' = be_val scratch * 58 ^ Z.of_nat (length ds) + digits_val 58 (rev ds).
Proof.
  induction 1 as [|d ds Hd Hds IH]; intros scratch Hs Hb; cbn [map decode_digits].
  - exists scratch. change (digits_val 58 (rev [])) with 0. change (Z.of_nat (length (@nil Z))) with 0. repeat split; [exact Hs|lia].
  - destruct (char_of_digit d Hd) as (c & Ec & Hc & Edig & _). assert (Ech : char_of d = c) by (unfold char_of; rewrite Ec; done).
    rewrite Ech. change (Z.of_nat (length BASE58_DIGITS)) with 128. rewrite (proj2 (Z.ltb_ge _ _)) by lia. rewrite Edig. pose proof (mul58_add_spec (rev scratch) (are_bytes_rev _ Hs) d ltac:(lia)) as Hm.
    destruct (mul58_add (rev scratch) d) as [l' carry]. destruct Hm as (M1 & M2 & M3 & M4). rewrite length_rev in M2, M4.
    cbn [length] in Hb. rewrite Nat2Z.inj_succ, Z.pow_succ_r in Hb by lia.
    pose proof (le_val_bounds l' M1) as Hl'. rewrite M2 in Hl'. fold (be_val scratch) in M4.
    pose proof (be_val_bounds scratch Hs) as Hsc. assert (0 < 58 ^ Z.of_nat (length ds)) by (apply Z.pow_pos_nonneg; lia).
    assert (carry = 0) by nia. subst carry. cbn [Z.eqb].
    assert (Ev : be_val (rev l') = 58 * be_val scratch + d) by (unfold be_val at 1; rewrite rev_involutive; lia).
    destruct (IH (rev l') (are_bytes_rev _ M1)) as (s' & E' & B' & V').
    { rewrite Ev, length_rev, M2. nia. }
    exists s'. split; [exact E'|split; [exact B'|]]. rewrite V', Ev. cbn [rev length].
    rewrite digits_val_app, length_rev, Nat2Z.inj_succ, Z.pow_succ_r by lia. change (digits_val 58 [d]) with (d + 58 * 0). ring.
Qed.

Lemma digits_val_zeroes base n : digits_val base (replicate n 0) = 0.
Proof.
  induction n as [|n IH]; [done|]. cbn [replicate].
  change (digits_val base (0 :: replicate n 0)) with (0 + base * digits_val base (replicate n 0)). rewrite IH. lia.
Qed.
Lemma map_zero {A} (l : list A) : map (fun _ => 0) l = replicate (length l) 0.
Proof. induction l as [|x l IH]; [done|]. cbn [map length replicate]. f_equal. exact IH. Qed.
Definition not_zero (l : bytes) : bytes := skip_while (fun x => x =? 0) l.
Lemma zeroes_split l : l = replicate (leading_zeros l) 0 ++ not_zero l.
Proof.
  unfold leading_zeros, not_zero. induction l as [|x l IH]; [done|]. cbn [take_while skip_while].
  destruct (Z.eqb_spec x 0) as [->|]; [|done]. cbn [length replicate app]. f_equal. exact IH.
Qed.
Lemma not_zero_head l : head (not_zero l) <> Some 0.
Proof. unfold not_zero. induction l as [|x l IH]; [done|]. cbn [skip_while]. destruct (Z.eqb_spec x 0); [exact IH|cbn; congruence]. Qed.
Lemma rev_replicate {A} n (x : A) : rev (replicate n x) = replicate n x.
Proof. induction n as [|n IH]; [done|]. cbn [replicate rev]. rewrite IH, <- replicate_S_end. done. Qed.
Lemma be_val_zeroes n l : be_val (replicate n 0 ++ l) = be_val l.
Proof. unfold be_val. rewrite rev_app_distr, rev_replicate. apply le_val_zeros. Qed.
(** The bytes of a number without leading zeroes are determined by it. *)
Lemma not_zero_unique l l' : are_bytes l -> are_bytes l' -> be_val l = be_val l' -> not_zero l = not_zero l'.
Proof.
  assert (Hle : forall l l', are_bytes l -> are_bytes l' -> head l <> Some 0 -> be_val l = be_val l' -> (length l <= length l')%nat).
  { intros [|x k] k' Hk Hk' Hh E; cbn [length]; [lia|]. destruct (le_lt_dec (S (length k)) (length k')) as [|Hlt]; [done|exfalso].
    apply Forall_cons in Hk as [Hx Hk]. assert (x <> 0) by (cbn in Hh; congruence). unfold is_byte in Hx.
    pose proof (be_val_bounds k' Hk') as Hb. pose proof (be_val_bounds k Hk) as Hbk. rewrite <- E in Hb.
    assert (Ev : be_val (x :: k) = x * 256 ^ Z.of_nat (length k) + be_val k).
    { unfold be_val. cbn [rev]. rewrite (le_val_digits (rev k)), (le_val_digits (rev k ++ [x])), digits_val_app, length_rev.
      change (digits_val 256 [x]) with (x + 256 * 0). ring. }
    assert (256 ^ Z.of_nat (length k') <= 256 ^ Z.of_nat (length k)) by (apply Z.pow_le_mono_r; lia). nia. }
  intros Hl Hl' E. pose proof (zeroes_split l) as El. pose proof (zeroes_split l') as El'.
  assert (Hn : are_bytes (not_zero l)) by (rewrite El in Hl; apply are_bytes_app in Hl; apply Hl).
  assert (Hn' : are_bytes (not_zero l')) by (rewrite El' in Hl'; apply are_bytes_app in Hl'; apply Hl').
  rewrite El, El', !be_val_zeroes in E.
  assert (Hlen : length (not_zero l) = length (not_zero l')).
  { apply Nat.le_antisymm; apply Hle; try done; apply not_zero_head. }
  rewrite <- (be_bytes_be_val _ Hn), <- (be_bytes_be_val _ Hn'), Hlen, E. done.
Qed.
Lemma leading_ones_digits k ds : are_digits 58 ds -> head ds <> Some 0 ->
  length (take_while (fun x => x =? default 0 (head BASE58_CHARS)) (map char_of (replicate k 0 ++ ds))) = k.
Proof.
  intros Hds Hh. induction k as [|k IH]; cbn [replicate app map take_while].
  - destruct ds as [|d ds]; [done|]. cbn [map take_while]. apply Forall_cons in Hds as [Hd _].
    destruct (char_of_digit d Hd) as (c & Ec & _ & _ & E). unfold char_of at 1. rewrite Ec. change (default 0 (Some c)) with c.
    rewrite E, (proj2 (Z.eqb_neq d 0)); [done|]. cbn in Hh. congruence.
  - change (char_of 0 =? default 0 (head BASE58_CHARS)) with true. cbn [length]. f_equal. exact IH.
Qed.

Lemma base58_from_encode data : are_bytes data -> base58_from (encode_iter_utf8 data) = Ok data.
Proof.
  intros Hd. unfold base58_from, encode_iter_utf8.
  pose proof (encode_digits_spec data Hd [] 0%nat true ltac:(constructor) ltac:(discriminate)) as He.
  destruct (encode_digits data [] 0 true) as [ret n]. destruct He as (E1 & E2 & E3 & En). rewrite Nat.add_0_l in En. subst n.
  change (digits_val 58 []) with 0 in E3. rewrite Z.mul_0_l, Z.add_0_l in E3.
  rewrite rev_app_distr, rev_replicate. fold (char_of). change (fun ch => default 0 (BASE58_CHARS !! Z.to_nat ch)) with char_of.
  set (ds := replicate (leading_zeros data) 0 ++ rev ret). rewrite length_map.
  assert (Hr : are_digits 58 (rev ret)) by (apply Forall_rev, E1).
  assert (Hds : are_digits 58 ds) by (apply Forall_app; split; [apply Forall_replicate; lia|exact Hr]).
  assert (Hval : digits_val 58 (rev ds) = be_val data).
  { subst ds. rewrite rev_app_distr, rev_involutive, rev_replicate, digits_val_app, E3.
    rewrite digits_val_zeroes. lia. }
  destruct (decode_digits_spec ds Hds (replicate (1 + length ds * 11 / 15) 0)) as (s' & -> & B' & V').
  { apply Forall_replicate. unfold is_byte. lia. }
  { rewrite length_replicate. replace (be_val (replicate _ 0)) with 0.
    - rewrite Z.add_0_l, Z.mul_1_l. apply scratch_suffices.
    - rewrite <- (app_nil_r (replicate _ 0)). rewrite be_val_zeroes. done. }
  cbn [res_bind]. f_equal.
  assert (Hh : head (rev ret) <> Some 0).
  { intros Hh. apply E2. destruct (rev ret) as [|x l] eqn:Er; [discriminate|]. injection Hh as ->.
    rewrite <- (rev_involutive ret), Er. cbn [rev]. apply last_snoc. }
  rewrite map_zero. subst ds. rewrite leading_ones_digits by done.
  rewrite (zeroes_split data) at 2. f_equal. apply not_zero_unique; [exact B'|exact Hd|].
  rewrite V', Hval. rewrite <- (app_nil_r (replicate (1 + _) 0)), be_val_zeroes. change (be_val []) with 0. lia.
Qed.

(** A checked encoding is read back. *)
Lemma encoded_from_check `{SL : Sha256Laws} data : are_bytes data -> from_check (check_encode_slice data) = Ok data.
Proof.
  intros Hd. unfold from_check, check_encode_slice. pose proof (sha256_hash (sha256 data)) as [Hl Hb].
  fold (sha256d_hash data) in *. set (ck := sha256d_hash data) in *. unfold HASH_LEN in Hl.
  rewrite base58_from_encode by (apply are_bytes_app; split; [exact Hd|apply Forall_take, Hb]). cbn [res_bind].
  rewrite length_app, length_take, Hl. replace (length data + 4 `min` 32 - 4)%nat with (length data) by lia.
  rewrite (proj2 (Nat.ltb_ge _ _)) by lia. rewrite take_app_length, drop_app_length, take_take. fold ck.
  change (4 `min` 4)%nat with 4%nat. replace (into_le_low_u32 ck) with (le_val (take 4 ck)); [rewrite Z.eqb_refl; done|].
  unfold into_le_low_u32. rewrite <- (take_drop 4 (take 8 ck)), take_take. change (4 `min` 8)%nat with 4%nat.
  rewrite (le_val_digits (_ ++ _)), digits_val_app, le_val_digits, length_take, Hl. change (256 ^ Z.of_nat (4 `min` 32)) with (2 ^ 32).
  rewrite Z.mul_comm, Z.mod_add by lia. rewrite Z.mod_small; [done|].
  pose proof (digits_val_bounds 256 (take 4 ck)) as H. rewrite length_take, Hl in H. apply H. apply Forall_take, Hb.
Qed.
