(* ===== verification/Mnemonic.v ===== *)
(** * Mnemonics

    Models [keychain/src/mnemonic.rs]: entropy written as words of a list, with a checksum.

    A string is the list of its characters, as code points.  Sizes and positions of bits are [nat]. *)

From Stdlib Require Import ZArith Lia List Bool String Ascii ZifyNat.
From stdpp Require Import base numbers list option gmap.
From S2P Require Import Prelude Bytes Ser Words.

Inductive MnemonicError :=
| BadWord (w : list Z)
| BadChecksum (expected actual : Z)
| InvalidLength (n : nat).

(** [char::is_whitespace]: the Unicode property [White_Space] *)
Definition is_whitespace (c : Z) : bool :=
  (9 <=? c) && (c <=? 13) || (c =? 32) || (c =? 0x85) || (c =? 0xA0) || (c =? 0x1680) || (0x2000 <=? c) && (c <=? 0x200A)
  || (c =? 0x2028) || (c =? 0x2029) || (c =? 0x202F) || (c =? 0x205F) || (c =? 0x3000).

(** [str::split_whitespace]; [word] is what is read of the current word *)
Fixpoint split_words (s : list Z) (word : list Z) : list (list Z) :=
  match s with
  | [] => match word with [] => [] | _ => [word] end
  | c :: s =>
    if is_whitespace c then match word with [] => split_words s [] | _ => word :: split_words s [] end
    else split_words s (word ++ [c])
  end.
Definition split_whitespace (s : list Z) : list (list Z) := split_words s [].

(** [[String]::join] with a space *)
Fixpoint join_words (l : list (list Z)) : list Z :=
  match l with [] => [] | [w] => w | w :: l => w ++ [32] ++ join_words l end.

(** [str::as_bytes] *)
Definition utf8_char (c : Z) : bytes :=
  if c <? 0x80 then [c]
  else if c <? 0x800 then [0xC0 + c / 2 ^ 6; 0x80 + c mod 2 ^ 6]
  else if c <? 0x10000 then [0xE0 + c / 2 ^ 12; 0x80 + c / 2 ^ 6 mod 2 ^ 6; 0x80 + c mod 2 ^ 6]
  else [0xF0 + c / 2 ^ 18; 0x80 + c / 2 ^ 12 mod 2 ^ 6; 0x80 + c / 2 ^ 6 mod 2 ^ 6; 0x80 + c mod 2 ^ 6].
Definition as_bytes (s : list Z) : bytes := concat (map utf8_char s).

Definition chars_of (s : string) : list Z := map (fun c => Z.of_N (N_of_ascii c)) (list_ascii_of_string s).
Definition WORDS : list (list Z) := split_whitespace (chars_of EN_TXT).

(** ** Words and bits *)

(** [search]: UTF-8 keeps the order of the characters *)
Definition search (word : list Z) : res MnemonicError Z :=
  match binary_search_by (fun w => bytes_compare w word) WORDS with
  | Found index => Ok (Z.of_nat index mod 2 ^ 16)
  | NotFound _ => Err (BadWord word)
  end.
Fixpoint search_all (words : list (list Z)) : res MnemonicError (list Z) :=
  match words with
  | [] => Ok []
  | w :: words => let? i := search w in let? l := search_all words in Ok (i :: l)
  end.

(** [x & (1 << i) != 0] *)
Definition bit_of (x : Z) (i : nat) : bool := negb (Z.land x (Z.shiftl 1 (Z.of_nat i)) =? 0).

(** [v[cell] |= bit << off] for each bit in turn, at the cell and the offset of its location *)
Fixpoint put_bits (cell off : nat -> nat) (v : list Z) (loc : nat) (bits : list bool) : res MnemonicError (list Z) :=
  match bits with
  | [] => Ok v
  | bit :: bits =>
    match v !! cell loc with
    | Some x => put_bits cell off (<[cell loc := Z.lor x (Z.shiftl (Z.b2z bit) (Z.of_nat (off loc)))]> v) (S loc) bits
    | None => Panic
    end
  end.

Section Mnemonic.
  Context {DG : Digest}.

(** The [n] bits of the checksum, as [(hash[0] >> (8 - checksum_bits)) & mask] *)
Definition hash_checksum (entropy : bytes) (checksum_bits : nat) : Z :=
  let mask := (Z.shiftl 1 (Z.of_nat checksum_bits) - 1) mod 2 ^ 8 in
  Z.land (Z.shiftr (default 0 (sha256 entropy !! 0%nat)) (8 - Z.of_nat checksum_bits)) mask.

(** [to_entropy].  The location of a bit counts from the end of the entropy, so that a location past the first byte panics. *)
Definition to_entropy (mnemonic : list Z) : res MnemonicError bytes :=
  let words := split_whitespace mnemonic in
  if negb (existsb (Nat.eqb (length words)) [12; 15; 18; 21; 24]%nat) then Err (InvalidLength (length words))
  else
    let? indexes := search_all words in
    let checksum_bits := (length words / 3)%nat in
    let mask := (Z.shiftl 1 (Z.of_nat checksum_bits) - 1) mod 2 ^ 8 in
    match last indexes with
    | None => Panic
    | Some last_index =>
      let checksum := Z.land (last_index mod 2 ^ 8) mask in
      let datalen := ((11 * length words - checksum_bits) / 8 - 1)%nat in
      let entropy := replicate datalen 0 ++ [Z.shiftr last_index (Z.of_nat checksum_bits) mod 2 ^ 8] in
      let? entropy :=
        put_bits (fun loc => if (datalen <? loc / 8)%nat then length entropy else (datalen - loc / 8)%nat) (fun loc => (loc mod 8)%nat)
          entropy (11 - checksum_bits) (concat (map (fun index => map (bit_of index) (seq 0 11)) (rev (removelast indexes)))) in
      let actual := hash_checksum entropy checksum_bits in
      if negb (actual =? checksum) then Err (BadChecksum checksum actual) else Ok entropy
    end.

(** [WORDS[x].clone()] *)
Fixpoint words_at (indexes : list Z) : res MnemonicError (list (list Z)) :=
  match indexes with
  | [] => Ok []
  | x :: indexes =>
    match WORDS !! Z.to_nat x with
    | Some w => let? l := words_at indexes in Ok (w :: l)
    | None => Panic
    end
  end.

(** [from_entropy] *)
Definition from_entropy (entropy : bytes) : res MnemonicError (list Z) :=
  let len := length entropy in
  if negb (existsb (Nat.eqb len) [16; 20; 24; 28; 32]%nat) then Err (InvalidLength len)
  else
    let checksum_bits := (len / 4)%nat in
    let checksum := hash_checksum entropy checksum_bits in
    let nwords := ((len * 8 + checksum_bits) / 11)%nat in
    let? indexes :=
      put_bits (fun loc => (loc / 11)%nat) (fun loc => (10 - loc mod 11)%nat) (replicate nwords 0) 0
        (concat (map (fun byte => map (bit_of byte) (rev (seq 0 8))) entropy) ++ map (bit_of checksum) (rev (seq 0 checksum_bits))) in
    let? words := words_at indexes in
    Ok (join_words words).

(** PBKDF2 with HMAC-SHA512, of the [pbkdf2] crate: the password, the salt and the rounds *)
Class Pbkdf2 := pbkdf2 : bytes -> bytes -> Z -> bytes.

(** [to_seed] *)
Definition to_seed `{Pbkdf2} (mnemonic : list Z) (passphrase : option (list Z)) : res MnemonicError bytes :=
  let? _ := to_entropy mnemonic in
  let salt := as_bytes (chars_of "mnemonic" ++ default [] passphrase) in
  Ok (pbkdf2 (as_bytes mnemonic) salt 2048).
End Mnemonic.

(** ** Putting bits *)

(** Bit [o] of cell [c] *)
Definition cell_bit (v : list Z) (c o : nat) : bool := match v !! c with Some x => Z.testbit x (Z.of_nat o) | None => false end.

Lemma put_bits_spec cell off bits : forall v loc,
  (forall i, (loc <= i < loc + length bits)%nat -> (cell i < length v)%nat) ->
  (forall i j, (loc <= i < loc + length bits)%nat -> (loc <= j < loc + length bits)%nat ->
     cell i = cell j -> off i = off j -> i = j) ->
  exists v', put_bits cell off v loc bits = Ok v' /\ length v' = length v /\
    (forall i b, bits !! i = Some b -> cell_bit v' (cell (loc + i)%nat) (off (loc + i)%nat)
                                       = cell_bit v (cell (loc + i)%nat) (off (loc + i)%nat) || b) /\
    (forall c o, (forall i, (i < length bits)%nat -> ~ (cell (loc + i)%nat = c /\ off (loc + i)%nat = o)) ->
       cell_bit v' c o = cell_bit v c o) /\
    (Forall (Z.le 0) v -> Forall (Z.le 0) v').
Proof.
  induction bits as [|bit bits IH]; intros v loc Hin Hinj; cbn [put_bits].
  - exists v. split; [done|]. split; [done|]. split; [intros i b H; discriminate|]. done.
  - destruct (lookup_lt_is_Some_2 v (cell loc)) as [x Ex]; [apply Hin; cbn; lia|]. rewrite Ex.
    set (v1 := <[cell loc := _]> v).
    assert (Hv1 : length v1 = length v) by apply length_insert.
    assert (Hx : forall c o, cell_bit v1 c o = cell_bit v c o || (bool_decide (c = cell loc /\ o = off loc) && bit)).
    { intros c o. unfold cell_bit, v1. destruct (decide (c = cell loc)) as [->|Hne].
      - rewrite list_lookup_insert_eq by (apply Hin; cbn; lia). rewrite Ex, Z.lor_spec. f_equal. rewrite Z.shiftl_spec by lia.
        case_bool_decide as Ho; [destruct Ho as [_ ->]; rewrite Z.sub_diag; destruct bit; done|].
        destruct bit; cbn [Z.b2z andb]; [|apply Z.testbit_0_l].
        destruct (Z.testbit 1 (Z.of_nat o - Z.of_nat (off loc))) eqn:Et; [|done].
        destruct (Z.lt_ge_cases (Z.of_nat o - Z.of_nat (off loc)) 0) as [Hn|Hp]; [rewrite Z.testbit_neg_r in Et; done|].
        change 1 with (2 ^ 0) in Et. rewrite Z.pow2_bits_eqb in Et by lia. apply Z.eqb_eq in Et. destruct Ho. split; [done|lia].
      - rewrite list_lookup_insert_ne by congruence. rewrite bool_decide_eq_false_2 by tauto. rewrite orb_false_r. done. }
    destruct (IH v1 (S loc)) as (v' & E & H1 & H2 & H3 & H4).
    { rewrite Hv1. intros i Hi. apply Hin. cbn. lia. }
    { intros i j Hi Hj. apply Hinj; cbn; lia. }
    exists v'. split; [exact E|]. split; [lia|]. split; [|split].
    + intros [|i] b Hb.
      * injection Hb as <-. rewrite Nat.add_0_r. rewrite H3; [rewrite Hx, bool_decide_eq_true_2 by done; done|].
        intros i Hi [Hc Ho]. assert (S loc + i = loc)%nat by (apply Hinj; cbn; [lia|lia|done|done]). lia.
      * change (bits !! i = Some b) in Hb. pose proof (lookup_lt_Some _ _ _ Hb) as Hlt. replace (loc + S i)%nat with (S loc + i)%nat by lia.
        rewrite (H2 i b Hb), Hx, bool_decide_eq_false_2, orb_false_r; [done|]. intros [Hc Ho].
        assert (S loc + i = loc)%nat by (apply Hinj; cbn; [lia|lia|done|done]). lia.
    + intros c o Hco. rewrite H3.
      * rewrite Hx, bool_decide_eq_false_2, orb_false_r; [done|]. intros [-> ->]. apply (Hco 0%nat); [cbn; lia|]. rewrite Nat.add_0_r. done.
      * intros i Hi Hc. apply (Hco (S i)); [cbn; lia|]. replace (loc + S i)%nat with (S loc + i)%nat by lia. exact Hc.
    + intros Hv. apply H4. unfold v1. apply Forall_insert; [exact Hv|]. rewrite Forall_forall in Hv.
      apply Z.lor_nonneg. split; [apply Hv; apply list_elem_of_lookup; eauto|apply Z.shiftl_nonneg; destruct bit; cbn; lia].
Qed.

Lemma bit_of_testbit x i : bit_of x i = Z.testbit x (Z.of_nat i).
Proof.
  unfold bit_of. rewrite Z.shiftl_1_l. destruct (Z.testbit x (Z.of_nat i)) eqn:E.
  - apply negb_true_iff, Z.eqb_neq. intros H. apply (f_equal (fun z => Z.testbit z (Z.of_nat i))) in H.
    rewrite Z.land_spec, E, Z.pow2_bits_true, Z.testbit_0_l in H by lia. discriminate.
  - apply negb_false_iff, Z.eqb_eq. apply Z.bits_inj'. intros n Hn. rewrite Z.land_spec, Z.testbit_0_l, Z.pow2_bits_eqb by lia.
    destruct (Z.eqb_spec (Z.of_nat i) n) as [<-|]; [rewrite E; done|apply andb_false_r].
Qed.

(** The bits of rows of the same width *)
Lemma concat_lookup {A} (w : nat) (rows : list (list A)) q r : Forall (fun l => length l = w) rows -> (r < w)%nat ->
  concat rows !! (w * q + r)%nat = rows !! q ≫= (fun l => l !! r).
Proof.
  intros H Hr. revert q. induction H as [|l rows Hl _ IH]; intros q; cbn [concat]; [done|]. destruct q as [|q].
  - rewrite Nat.mul_0_r, Nat.add_0_l, lookup_app_l by lia. done.
  - rewrite lookup_app_r by lia. change ((l :: rows) !! S q) with (rows !! q). rewrite <- (IH q). f_equal. lia.
Qed.
Lemma concat_length {A} (w : nat) (rows : list (list A)) : Forall (fun l => length l = w) rows -> length (concat rows) = (w * length rows)%nat.
Proof. induction 1 as [|l rows Hl _ IH]; cbn [concat length]; [lia|]. rewrite length_app, IH. lia. Qed.

(** A number below [2 ^ n] is its first [n] bits. *)
Lemma bits_eq n x y : 0 <= x < 2 ^ Z.of_nat n -> 0 <= y ->
  (forall o, Z.testbit y (Z.of_nat o) = if (o <? n)%nat then Z.testbit x (Z.of_nat o) else false) -> x = y.
Proof.
  intros Hx Hy H. apply Z.bits_inj'. intros k Hk. specialize (H (Z.to_nat k)). rewrite Z2Nat.id in H by done. rewrite H.
  destruct (Nat.ltb_spec (Z.to_nat k) n) as [|Hn]; [done|]. destruct (Z.eq_dec x 0) as [->|]; [apply Z.testbit_0_l|].
  apply Z.bits_above_log2; [lia|]. apply Z.log2_lt_pow2; [lia|]. apply Z.lt_le_trans with (2 ^ Z.of_nat n); [lia|].
  apply Z.pow_le_mono_r; lia.
Qed.
Lemma bits_bound n x : 0 <= x -> (forall o, (n <= o)%nat -> Z.testbit x (Z.of_nat o) = false) -> x < 2 ^ Z.of_nat n.
Proof.
  intros Hx H. destruct (Z.lt_ge_cases x (2 ^ Z.of_nat n)) as [|Hge]; [done|exfalso].
  assert (Hpos : 0 < x) by (assert (0 < 2 ^ Z.of_nat n) by (apply Z.pow_pos_nonneg; lia); lia).
  assert (Hl : Z.of_nat n <= Z.log2 x) by (apply Z.log2_le_pow2; lia).
  specialize (H (Z.to_nat (Z.log2 x)) ltac:(lia)). rewrite Z2Nat.id in H by apply Z.log2_nonneg.
  rewrite Z.bit_log2 in H by done. discriminate.
Qed.

(** ** The words *)

Definition plain_word (w : list Z) : bool := negb (bool_decide (w = [])) && forallb (fun c => negb (is_whitespace c)) w.
Lemma words_table : length WORDS = 2048%nat /\
  forallb (fun p => plain_word p.2 && match search p.2 with Ok j => j =? Z.of_nat p.1 | _ => false end) (combine (seq 0 2048) WORDS) = true.
Proof. split; vm_compute; reflexivity. Qed.
#[local] Opaque WORDS.

Lemma word_facts i : (i < 2048)%nat -> exists w, WORDS !! i = Some w /\ plain_word w = true /\ search w = Ok (Z.of_nat i).
Proof.
  intros Hi. destruct words_table as [Hl Hf]. destruct (lookup_lt_is_Some_2 WORDS i) as [w Ew]; [lia|]. exists w. split; [done|].
  rewrite forallb_forall in Hf. specialize (Hf (i, w)). cbn [fst snd] in Hf.
  assert (Hin : In (i, w) (combine (seq 0 2048) WORDS)).
  { apply list_elem_of_In, list_elem_of_lookup. exists i. change (combine (seq 0 2048) WORDS) with (zip (seq 0 2048) WORDS).
    apply lookup_zip_Some. split; [apply lookup_seq; lia|exact Ew]. }
  apply Hf, andb_prop in Hin as [Hp Hs]. split; [exact Hp|]. destruct (search w) as [j|e|]; [|discriminate..].
  apply Z.eqb_eq in Hs. subst. done.
Qed.

Lemma split_words_plain w : forall word rest, forallb (fun c => negb (is_whitespace c)) w = true ->
  split_words (w ++ rest) word = split_words rest (word ++ w).
Proof.
  induction w as [|c w IH]; intros word rest H; cbn [app]; [rewrite app_nil_r; done|]. cbn [forallb] in H. apply andb_prop in H as [Hc Hw].
  cbn [split_words]. rewrite (proj1 (negb_true_iff _) Hc), IH by done. rewrite <- app_assoc. done.
Qed.
Lemma split_join l : Forall (fun w => plain_word w = true) l -> split_whitespace (join_words l) = l.
Proof.
  unfold split_whitespace. induction 1 as [|w l Hw _ IH]; [done|]. unfold plain_word in Hw. apply andb_prop in Hw as [Hne Hw].
  apply negb_true_iff, bool_decide_eq_false in Hne. cbn [join_words]. destruct l as [|w2 l].
  - rewrite <- (app_nil_r w) at 1. rewrite split_words_plain by done. cbn. destruct w; done.
  - rewrite split_words_plain by done. cbn [app split_words]. change (is_whitespace 32) with true. cbv iota.
    rewrite IH. destruct w; done.
Qed.

Lemma words_at_spec l : Forall (fun x => 0 <= x < 2048) l ->
  exists ws, words_at l = Ok ws /\ length ws = length l /\ Forall (fun w => plain_word w = true) ws /\ search_all ws = Ok l.
Proof.
  induction 1 as [|x l Hx _ (ws & E & Hl & Hp & Hs)]; [exists []; done|]. cbn [words_at].
  destruct (word_facts (Z.to_nat x) ltac:(lia)) as (w & -> & Hw & Hsw). rewrite E. exists (w :: ws). cbn [res_bind search_all length].
  rewrite Hsw, Hs. cbn [res_bind]. rewrite Z2Nat.id by lia. repeat split; [lia|]. constructor; done.
Qed.

(** ** The bits of an entropy and its checksum *)

Section Stream.
  Context {DG : Digest}.

Definition checksum_stream (entropy : bytes) (k : nat) : list bool :=
  concat (map (fun byte => map (bit_of byte) (rev (seq 0 8))) entropy) ++ map (bit_of (hash_checksum entropy k)) (rev (seq 0 k)).

Lemma rev_seq_lookup n i : (i < n)%nat -> rev (seq 0 n) !! i = Some (n - 1 - i)%nat.
Proof.
  intros Hi. rewrite rev_alt. change (rev_append (seq 0 n) []) with (reverse (seq 0 n)). rewrite reverse_lookup by (rewrite length_seq; lia).
  rewrite length_seq. apply lookup_seq. lia.
Qed.
Lemma rows_8 entropy : Forall (fun l : list bool => length l = 8%nat) (map (fun byte => map (bit_of byte) (rev (seq 0 8))) entropy).
Proof. apply Forall_map, Forall_forall. intros. done. Qed.
Lemma stream_length entropy k : length (checksum_stream entropy k) = (8 * length entropy + k)%nat.
Proof.
  unfold checksum_stream. rewrite length_app, (concat_length 8) by apply rows_8. rewrite !length_map, length_rev, length_seq. lia.
Qed.
Lemma stream_entropy entropy k q r : (q < length entropy)%nat -> (r < 8)%nat ->
  checksum_stream entropy k !! (8 * q + r)%nat = Some (cell_bit entropy q (7 - r)).
Proof.
  intros Hq Hr. unfold checksum_stream. rewrite lookup_app_l by (rewrite (concat_length 8), length_map by apply rows_8; lia).
  rewrite (concat_lookup 8) by (done || apply rows_8). rewrite list_lookup_fmap. unfold cell_bit.
  destruct (lookup_lt_is_Some_2 entropy q Hq) as [x ->]. cbn [fmap option_fmap option_map mbind option_bind].
  rewrite list_lookup_fmap, rev_seq_lookup by done. cbn [fmap option_fmap option_map]. rewrite bit_of_testbit. done.
Qed.
Lemma stream_checksum entropy k j : (j < k)%nat ->
  checksum_stream entropy k !! (8 * length entropy + j)%nat = Some (Z.testbit (hash_checksum entropy k) (Z.of_nat (k - 1 - j))).
Proof.
  intros Hj. unfold checksum_stream. rewrite lookup_app_r by (rewrite (concat_length 8), length_map by apply rows_8; lia).
  rewrite (concat_length 8), length_map by apply rows_8. replace (8 * length entropy + j - 8 * length entropy)%nat with j by lia.
  rewrite list_lookup_fmap, rev_seq_lookup by done. cbn [fmap option_fmap option_map]. rewrite bit_of_testbit. done.
Qed.

#[local] Ltac ndiv := zify; Z.div_mod_to_equations; lia.

Lemma bit_at_zeros n c o : cell_bit (replicate n 0) c o = false.
Proof. unfold cell_bit. destruct (replicate n 0 !! c) as [x|] eqn:E; [|done]. apply lookup_replicate in E as [-> _]. apply Z.testbit_0_l. Qed.

(** The indexes of the words are the bits of the stream, eleven to a word. *)
Lemma indexes_spec entropy k : length entropy = (4 * k)%nat ->
  exists v, put_bits (fun loc => (loc / 11)%nat) (fun loc => (10 - loc mod 11)%nat) (replicate (3 * k) 0) 0 (checksum_stream entropy k) = Ok v /\
    length v = (3 * k)%nat /\ Forall (fun x => 0 <= x < 2048) v /\
    forall q r, (q < 3 * k)%nat -> (r < 11)%nat -> checksum_stream entropy k !! (11 * q + r)%nat = Some (cell_bit v q (10 - r)).
Proof.
  intros Hl.
  assert (Hs : length (checksum_stream entropy k) = (33 * k)%nat) by (rewrite stream_length; lia).
  destruct (put_bits_spec (fun loc => (loc / 11)%nat) (fun loc => (10 - loc mod 11)%nat) (checksum_stream entropy k) (replicate (3 * k) 0) 0)
    as (v & E & Hv & Hset & Hrest & Hpos).
  { intros i Hi. rewrite length_replicate. ndiv. }
  { intros i j _ _ Hd Hm. ndiv. }
  rewrite length_replicate in Hv. exists v. split; [exact E|]. split; [exact Hv|].
  assert (Hnn : Forall (Z.le 0) v) by (apply Hpos, Forall_replicate; lia). split.
  - apply Forall_lookup. intros c x Hx. rewrite Forall_lookup in Hnn. specialize (Hnn c x Hx). split; [exact Hnn|].
    change 2048 with (2 ^ Z.of_nat 11). apply bits_bound; [exact Hnn|]. intros o Ho.
    assert (Hb : cell_bit v c o = false) by (rewrite Hrest; [apply bit_at_zeros|intros i _ [_ H]; lia]). unfold cell_bit in Hb. rewrite Hx in Hb. done.
  - intros q r Hq Hr. destruct (lookup_lt_is_Some_2 (checksum_stream entropy k) (11 * q + r)) as [b Eb]; [lia|]. rewrite Eb. f_equal.
    specialize (Hset _ _ Eb). rewrite Nat.add_0_l, bit_at_zeros in Hset.
    replace ((11 * q + r) / 11)%nat with q in Hset by ndiv. replace ((11 * q + r) mod 11)%nat with r in Hset by ndiv. done.
Qed.

Lemma hash_checksum_bound entropy k : (k <= 8)%nat -> 0 <= hash_checksum entropy k < 2 ^ Z.of_nat k.
Proof.
  intros Hk. unfold hash_checksum. rewrite Z.shiftl_1_l.
  assert (Hm : (2 ^ Z.of_nat k - 1) mod 2 ^ 8 = Z.ones (Z.of_nat k)).
  { rewrite Z.ones_equiv, Z.mod_small; [lia|]. assert (2 ^ Z.of_nat k <= 2 ^ 8) by (apply Z.pow_le_mono_r; lia).
    assert (0 < 2 ^ Z.of_nat k) by (apply Z.pow_pos_nonneg; lia). lia. }
  rewrite Hm, Z.land_ones by lia. apply Z.mod_pos_bound. apply Z.pow_pos_nonneg; lia.
Qed.

(** The bits that the words give back *)
Lemma back_lookup v t : (t < 11 * (length v - 1))%nat ->
  concat (map (fun index => map (bit_of index) (seq 0 11)) (rev (removelast v))) !! t
  = Some (cell_bit v (length v - 2 - t / 11) (t mod 11)).
Proof.
  intros Ht. assert (Hrl : length (removelast v) = (length v - 1)%nat) by (rewrite removelast_firstn_len, length_firstn; lia).
  rewrite (Nat.div_mod t 11) at 1 by lia.
  rewrite (concat_lookup 11); [|apply Forall_map, Forall_forall; done|apply Nat.mod_upper_bound; lia].
  rewrite list_lookup_fmap, rev_alt. change (rev_append (removelast v) []) with (reverse (removelast v)).
  rewrite reverse_lookup by (rewrite Hrl; ndiv). rewrite Hrl.
  replace (length v - 1 - S (t / 11))%nat with (length v - 2 - t / 11)%nat by lia.
  rewrite removelast_firstn_len. change firstn with (@take Z). rewrite lookup_take_lt by ndiv. unfold cell_bit.
  destruct (lookup_lt_is_Some_2 v (length v - 2 - t / 11)) as [x ->]; [ndiv|]. cbn [fmap option_fmap option_map mbind option_bind].
  rewrite list_lookup_fmap, lookup_seq_lt by (apply Nat.mod_upper_bound; lia). cbn [fmap option_fmap option_map].
  rewrite bit_of_testbit. done.
Qed.

Lemma last_index_at (v : list Z) : v <> [] -> exists x, last v = Some x /\ v !! (length v - 1)%nat = Some x.
Proof.
  intros Hv. destruct (last v) as [x|] eqn:E; [|apply last_None in E; done]. exists x. split; [done|].
  rewrite <- E, last_lookup. f_equal. lia.
Qed.

(** The bits of the last word are the start of the entropy. *)
Lemma start_bits n k x c o : (c <= n)%nat ->
  cell_bit (replicate n 0 ++ [Z.shiftr x (Z.of_nat k) mod 2 ^ 8]) c o = if (c =? n)%nat && (o <? 8)%nat then Z.testbit x (Z.of_nat (k + o)) else false.
Proof.
  intros Hc. destruct (Nat.eqb_spec c n) as [->|Hne]; cbn [andb].
  - unfold cell_bit. rewrite lookup_app_r, length_replicate, Nat.sub_diag by (rewrite length_replicate; lia). cbn [lookup list_lookup].
    rewrite Z.testbit_mod_pow2, Z.shiftr_spec by lia. replace (Z.of_nat o + Z.of_nat k) with (Z.of_nat (k + o)) by lia.
    destruct (Nat.ltb_spec o 8); [rewrite (proj2 (Z.ltb_lt _ _)) by lia; done|rewrite (proj2 (Z.ltb_ge _ _)) by lia; done].
  - unfold cell_bit at 1. rewrite lookup_app_l by (rewrite length_replicate; lia). apply bit_at_zeros.
Qed.
Lemma high_bits x : 0 <= x < 2048 -> forall o, (11 <= o)%nat -> Z.testbit x (Z.of_nat o) = false.
Proof.
  intros Hx o Ho. destruct (Z.eq_dec x 0) as [->|]; [apply Z.testbit_0_l|].
  apply Z.bits_above_log2; [lia|]. apply Z.lt_le_trans with 11; [|lia]. apply Z.log2_lt_pow2; lia.
Qed.

(** What the words give back is the entropy. *)
Lemma entropy_back entropy k v x : length entropy = (4 * k)%nat -> (4 <= k <= 8)%nat -> are_bytes entropy ->
  length v = (3 * k)%nat -> Forall (fun x => 0 <= x < 2048) v ->
  (forall q r, (q < 3 * k)%nat -> (r < 11)%nat -> checksum_stream entropy k !! (11 * q + r)%nat = Some (cell_bit v q (10 - r))) ->
  last v = Some x ->
  let datalen := (4 * k - 1)%nat in
  let start := replicate datalen 0 ++ [Z.shiftr x (Z.of_nat k) mod 2 ^ 8] in
  put_bits (fun loc => if (datalen <? loc / 8)%nat then length start else (datalen - loc / 8)%nat) (fun loc => (loc mod 8)%nat)
    start (11 - k) (concat (map (fun index => map (bit_of index) (seq 0 11)) (rev (removelast v)))) = Ok entropy.
Proof.
  intros Hl Hk Hb Hv Hx Hs Hlast datalen start.
  assert (Hlen : length start = (4 * k)%nat) by (subst start datalen; rewrite length_app, length_replicate; cbn; lia).
  set (bits := concat _). assert (Hbits : length bits = (33 * k - 11)%nat).
  { subst bits. rewrite (concat_length 11); [|apply Forall_map, Forall_forall; done]. rewrite length_map, length_rev, removelast_firstn_len, length_firstn. lia. }
  destruct (last_index_at v ltac:(intros ->; cbn in Hv; lia)) as (x' & Hl' & Hx'). rewrite Hlast in Hl'. injection Hl' as <-.
  destruct (put_bits_spec (fun loc => if (datalen <? loc / 8)%nat then length start else (datalen - loc / 8)%nat)
              (fun loc => (loc mod 8)%nat) bits start (11 - k)) as (e & E & He & Hset & Hrest & Hpos).
  { intros i Hi. rewrite (proj2 (Nat.ltb_ge _ _)) by (subst datalen; ndiv). subst datalen. ndiv. }
  { intros i j Hi Hj. rewrite !(proj2 (Nat.ltb_ge _ _)) by (subst datalen; ndiv). subst datalen. intros Hc Ho. ndiv. }
  rewrite E. f_equal. apply list_eq. intros c. destruct (Nat.lt_ge_cases c (4 * k)) as [Hc|Hc];
    [|rewrite !lookup_ge_None_2 by lia; done].
  assert (Hst : forall c o, (c < 4 * k)%nat -> cell_bit start c o = if (c =? datalen)%nat && (o <? 8)%nat then Z.testbit x (Z.of_nat (k + o)) else false).
  { intros c' o Hc'. apply start_bits. subst datalen. lia. }
  assert (Hxb : forall o, (11 <= o)%nat -> Z.testbit x (Z.of_nat o) = false).
  { apply high_bits. rewrite Forall_lookup in Hx. apply (Hx _ _ Hx'). }
  destruct (lookup_lt_is_Some_2 entropy c ltac:(lia)) as [y Hy]. destruct (lookup_lt_is_Some_2 e c ltac:(lia)) as [z Hz].
  rewrite Hy, Hz. f_equal. symmetry. assert (Hyb : is_byte y) by (unfold are_bytes in Hb; rewrite Forall_lookup in Hb; eauto).
  assert (Hz0 : 0 <= z).
  { assert (Hp : Forall (Z.le 0) e); [|rewrite Forall_lookup in Hp; eauto]. apply Hpos. subst start. apply Forall_app. split; [apply Forall_replicate; lia|].
    constructor; [apply Z.mod_pos_bound; lia|constructor]. }
  apply (bits_eq 8); [exact Hyb|exact Hz0|]. intros o.
  assert (Hze : Z.testbit z (Z.of_nat o) = cell_bit e c o) by (unfold cell_bit; rewrite Hz; done). rewrite Hze.
  destruct (Nat.ltb_spec o 8) as [Ho|Ho].
  - assert (Hye : Z.testbit y (Z.of_nat o) = cell_bit entropy c o) by (unfold cell_bit; rewrite Hy; done). rewrite Hye.
    (* the location of the bit from the end *)
    set (loc := (8 * (datalen - c) + o)%nat).
    assert (Hstr : checksum_stream entropy k !! (32 * k - 1 - loc)%nat = Some (cell_bit entropy c o)).
    { replace (32 * k - 1 - loc)%nat with (8 * c + (7 - o))%nat by (subst loc datalen; lia). rewrite stream_entropy by lia. do 2 f_equal. lia. }
    destruct (Nat.lt_ge_cases loc (11 - k)) as [Hlow|Hhigh].
    + assert (c = datalen) by (subst loc datalen; lia). subst c. rewrite Hrest.
      * rewrite Hst, Nat.eqb_refl, (proj2 (Nat.ltb_lt o 8) Ho) by lia. cbn [andb].
        replace (32 * k - 1 - loc)%nat with (11 * (3 * k - 1) + (10 - (k + o)))%nat in Hstr by (subst loc datalen; lia).
        rewrite Hs in Hstr by lia. apply (inj Some) in Hstr. rewrite <- Hstr. unfold cell_bit.
        replace (3 * k - 1)%nat with (length v - 1)%nat by lia. rewrite Hx'. f_equal. lia.
      * intros i Hi. rewrite (proj2 (Nat.ltb_ge _ _)) by (subst datalen; ndiv). intros [H1 H2]. subst datalen loc. ndiv.
    + destruct (lookup_lt_is_Some_2 bits (loc - (11 - k))%nat) as [b Eb]; [rewrite Hbits; subst loc datalen; lia|].
      specialize (Hset _ _ Eb). replace (11 - k + (loc - (11 - k)))%nat with loc in Hset by lia.
      rewrite (proj2 (Nat.ltb_ge _ _)) in Hset by (subst loc datalen; ndiv).
      replace (datalen - loc / 8)%nat with c in Hset by (subst loc datalen; ndiv). replace (loc mod 8)%nat with o in Hset by (subst loc; ndiv).
      rewrite Hset, Hst by lia.
      assert (Hno : (if (c =? datalen)%nat && (o <? 8)%nat then Z.testbit x (Z.of_nat (k + o)) else false) = false).
      { destruct (Nat.eqb_spec c datalen) as [->|]; [|done]. rewrite (proj2 (Nat.ltb_lt o 8) Ho). cbn [andb]. apply Hxb. subst loc. lia. }
      rewrite Hno, orb_false_l. subst bits. rewrite back_lookup in Eb by (subst loc datalen; lia). apply (inj Some) in Eb. subst b.
      set (t := (loc - (11 - k))%nat) in *.
      replace (32 * k - 1 - loc)%nat with (11 * (length v - 2 - t / 11) + (10 - t mod 11))%nat in Hstr by (subst t loc datalen; rewrite Hv; ndiv).
      rewrite Hs in Hstr by (subst t loc datalen; rewrite ?Hv; ndiv). apply (inj Some) in Hstr. rewrite <- Hstr. f_equal. subst t. ndiv.
  - rewrite Hrest; [rewrite Hst by lia; destruct (Nat.ltb_spec o 8); [lia|apply andb_false_r || (rewrite andb_false_r; done)]|].
    intros i _ [_ H]. ndiv.
Qed.

(** A mnemonic made from an entropy is read back. *)
Lemma from_entropy_back entropy k : length entropy = (4 * k)%nat -> (4 <= k <= 8)%nat -> are_bytes entropy ->
  exists m, from_entropy entropy = Ok m /\ to_entropy m = Ok entropy /\ length (split_whitespace m) = (3 * k)%nat.
Proof.
  intros Hl Hk Hb. destruct (indexes_spec entropy k Hl) as (v & E & Hv & Hx & Hs).
  destruct (words_at_spec v Hx) as (ws & Ew & Hlw & Hp & Hsw).
  assert (Hk5 : k = 4%nat \/ k = 5%nat \/ k = 6%nat \/ k = 7%nat \/ k = 8%nat) by lia.
  exists (join_words ws). split; [|split].
  - unfold from_entropy. fold (checksum_stream entropy (length entropy / 4)).
    replace (length entropy / 4)%nat with k by (rewrite Hl; ndiv). replace ((length entropy * 8 + k) / 11)%nat with (3 * k)%nat by (rewrite Hl; ndiv).
    fold (checksum_stream entropy k). rewrite E. cbn [res_bind]. rewrite Ew. rewrite Hl.
    destruct Hk5 as [->|[->|[->|[->| ->]]]]; reflexivity.
  - unfold to_entropy. rewrite split_join by exact Hp. rewrite Hlw, Hv, Hsw. cbn [res_bind].
    replace (negb (existsb (Nat.eqb (3 * k)) [12; 15; 18; 21; 24]%nat)) with false by (destruct Hk5 as [->|[->|[->|[->| ->]]]]; reflexivity).
    replace (3 * k / 3)%nat with k by ndiv. replace ((11 * (3 * k) - k) / 8 - 1)%nat with (4 * k - 1)%nat by ndiv.
    destruct (last_index_at v ltac:(intros ->; cbn in Hv; lia)) as (x & Elast & Hxl). rewrite Elast.
    rewrite (entropy_back entropy k v x) by done. cbn [res_bind]. cbv zeta.
    replace (Z.land (x mod 2 ^ 8) _) with (hash_checksum entropy k); [rewrite Z.eqb_refl; done|].
    pose proof (hash_checksum_bound entropy k ltac:(lia)) as Hcb.
    rewrite Z.shiftl_1_l. assert (2 ^ Z.of_nat k <= 2 ^ 8) by (apply Z.pow_le_mono_r; lia). assert (0 < 2 ^ Z.of_nat k) by (apply Z.pow_pos_nonneg; lia).
    rewrite (Z.mod_small (2 ^ Z.of_nat k - 1)) by lia. replace (2 ^ Z.of_nat k - 1) with (Z.ones (Z.of_nat k)) by (rewrite Z.ones_equiv; lia).
    apply (bits_eq k); [exact Hcb|apply Z.land_nonneg; left; apply Z.mod_pos_bound; lia|].
    intros o. rewrite Z.land_spec, Z.testbit_mod_pow2 by lia. destruct (Nat.ltb_spec o k) as [Ho|Ho].
    + rewrite Z.ones_spec_low, andb_true_r, (proj2 (Z.ltb_lt _ _)) by lia. cbn [andb].
      pose proof (stream_checksum entropy k (k - 1 - o) ltac:(lia)) as Hc. replace (k - 1 - (k - 1 - o))%nat with o in Hc by lia.
      replace (8 * length entropy + (k - 1 - o))%nat with (11 * (3 * k - 1) + (10 - o))%nat in Hc by lia.
      rewrite Hs in Hc by lia. apply (inj Some) in Hc. rewrite <- Hc. unfold cell_bit.
      replace (3 * k - 1)%nat with (length v - 1)%nat by lia. rewrite Hxl. do 2 f_equal. lia.
    + rewrite Z.ones_spec_high, andb_false_r by lia. done.
  - rewrite split_join by exact Hp. lia.
Qed.

(** An entropy of 16, 20, 24, 28 or 32 bytes is written as three words for each four bytes, words of the list, and
    reading them gives the entropy back; any other length is refused.  No bit is lost between the bytes and the words, and the
    checksum is accepted. *)
Theorem mnemonic_roundtrip entropy : are_bytes entropy ->
  match from_entropy entropy with
  | Ok m => to_entropy m = Ok entropy /\ length (split_whitespace m) = (3 * (length entropy / 4))%nat
  | Err e => e = InvalidLength (length entropy) /\ ~ In (length entropy) [16; 20; 24; 28; 32]%nat
  | Panic => False
  end.
Proof.
  intros Hb. destruct (existsb (Nat.eqb (length entropy)) [16; 20; 24; 28; 32]%nat) eqn:E.
  - assert (exists k, length entropy = (4 * k)%nat /\ (4 <= k <= 8)%nat) as (k & Hl & Hk).
    { apply existsb_exists in E as (n & Hin & Hn). apply Nat.eqb_eq in Hn. exists (n / 4)%nat. subst n. cbn [In] in Hin. 
      destruct Hin as [H|[H|[H|[H|[H|[]]]]]]; rewrite <- H; cbn; lia. }
    destruct (from_entropy_back entropy k Hl Hk Hb) as (m & -> & Hm & Hw). split; [exact Hm|]. rewrite Hw, Hl. ndiv.
  - unfold from_entropy. rewrite E. cbn [negb]. split; [done|]. intros Hin.
    rewrite (proj2 (existsb_exists _ _)) in E; [discriminate|]. exists (length entropy). split; [exact Hin|apply Nat.eqb_refl].
Qed.
End Stream.

(** The first published test vector: SHA-256 of sixteen zero bytes starts with [0x37]. *)
Definition zero_digest : Digest := {| blake2b _ := replicate 32 0; sha256 _ := 0x37 :: replicate 31 0 |}.
Definition zero_mnemonic : list Z :=
  chars_of "abandon abandon abandon abandon abandon abandon abandon abandon abandon abandon abandon about".
Lemma mnemonic_roundtrip_witness :
  are_bytes (replicate 16 0) /\ from_entropy (DG := zero_digest) (replicate 16 0) = Ok zero_mnemonic /\
  to_entropy (DG := zero_digest) zero_mnemonic = Ok (replicate 16 0).
Proof.
  assert (Hb : are_bytes (replicate 16 0)) by (apply Forall_replicate; unfold is_byte; lia).
  assert (E : from_entropy (DG := zero_digest) (replicate 16 0) = Ok zero_mnemonic) by (vm_compute; reflexivity).
  pose proof (mnemonic_roundtrip (DG := zero_digest) (replicate 16 0) Hb) as H. rewrite E in H. split; [exact Hb|]. split; [exact E|]. apply H.
Defined.
