(* ===== verification/ExtKey.v ===== *)
(** * Extended keys

    Models [keychain/src/extkey_bip32.rs]: the tree of keys of BIP32, in which a private key derives private keys and its
    public key derives their public keys, and the text form of both.

    The operations on single keys are those of the curve library; [PublicKey] is its type. *)

From Stdlib Require Import ZArith Lia List Bool String.
From stdpp Require Import base numbers list option gmap.
From S2P Require Import Prelude Bytes Ser Transaction TxBody Committed Verifier Base58 Mnemonic.

(** ** Single keys of the curve library *)

Class SecpKeys `{SP : Secp} `{SV : SecpVerify} := {
  (** [PublicKey::from_secret_key], [serialize_vec] compressed, [from_slice] *)
  public_from_secret : SecretKey -> option PublicKey;
  public_serialize : PublicKey -> bytes;
  public_from_slice : bytes -> option PublicKey;
  (** [SecretKey::add_assign], [PublicKey::add_exp_assign] *)
  secret_add : SecretKey -> SecretKey -> option SecretKey;
  public_add_exp : PublicKey -> SecretKey -> option PublicKey
}.

(** Public keys of sums are sums of public keys, a sum without an inverse has neither; a compressed point has 33 bytes. *)
Class SecpKeysLaws `{SK : SecpKeys} := {
  public_of_sum t k p : public_from_secret k = Some p ->
    match secret_add t k with
    | Some s => exists q, public_add_exp p t = Some q /\ public_from_secret s = Some q
    | None => public_add_exp p t = None
    end;
  public_serialize_spec p : are_bytes (public_serialize p) /\ length (public_serialize p) = 33%nat /\
    public_from_slice (public_serialize p) = Some p
}.

(** ** Hash functions of the derivation *)

(** HMAC-SHA512 and RIPEMD-160 come from external crates. *)
Class Macs := {
  hmac_sha512 : bytes -> bytes -> bytes;
  ripemd160 : bytes -> bytes
}.

(** The trait [BIP32Hasher]; the three functions of SHA-512 change the hasher. *)
Class BIP32Hasher (H : Type) := {
  network_priv : H -> bytes;
  network_pub : H -> bytes;
  master_seed : bytes;
  init_sha512 : bytes -> H -> H;
  append_sha512 : bytes -> H -> H;
  result_sha512 : H -> bytes * H;
  sha_256 : H -> bytes -> bytes;
  ripemd_160 : H -> bytes -> bytes
}.

(** What derivation relies on: the result is a function of what was put in since [init_sha512], and nothing else of the
    hasher changes. *)
Class BIP32HasherLaws (H : Type) `{!BIP32Hasher H} := {
  input_of : H -> option (bytes * bytes);
  mac_of : bytes -> bytes -> bytes;
  same_hasher (h h' : H) : Prop := network_pub h = network_pub h' /\ network_priv h = network_priv h' /\
    (forall x, sha_256 h x = sha_256 h' x) /\ (forall x, ripemd_160 h x = ripemd_160 h' x);
  init_input k h : input_of (init_sha512 k h) = Some (k, []) /\ same_hasher (init_sha512 k h) h;
  append_input k d x h : input_of h = Some (k, d) ->
    input_of (append_sha512 x h) = Some (k, d ++ x) /\ same_hasher (append_sha512 x h) h;
  result_input k d h : input_of h = Some (k, d) ->
    (result_sha512 h).1 = mac_of k d /\ same_hasher (result_sha512 h).2 h
}.

(** [BIP32GrinHasher]: the network and a MAC with its key and its input *)
Record BIP32GrinHasher := mkHasher { is_floo : bool; hmac_key : bytes; hmac_input : bytes }.

Section GrinHasher.
  Context {DG : Digest} {MC : Macs}.

(** [BIP32GrinHasher::new] *)
Definition hasher_new (floo : bool) : BIP32GrinHasher := mkHasher floo (replicate 128 0) [].

#[export] Instance grin_hasher : BIP32Hasher BIP32GrinHasher := {
  network_priv h := if is_floo h then [0x03; 0x27; 0x3A; 0x10] else [0x03; 0x3C; 0x04; 0xA4];
  network_pub h := if is_floo h then [0x03; 0x27; 0x3E; 0x4B] else [0x03; 0x3C; 0x08; 0xDF];
  master_seed := ascii_bytes "IamVoldemort";
  init_sha512 seed h := mkHasher (is_floo h) seed [];
  append_sha512 value h := mkHasher (is_floo h) (hmac_key h) (hmac_input h ++ value);
  result_sha512 h := (hmac_sha512 (hmac_key h) (hmac_input h), mkHasher (is_floo h) (hmac_key h) []);
  sha_256 _ input := sha256 input;
  ripemd_160 _ input := ripemd160 input
}.

#[export] Instance grin_hasher_laws : BIP32HasherLaws BIP32GrinHasher.
Proof.
  refine {| input_of h := Some (hmac_key h, hmac_input h); mac_of := hmac_sha512 |}.
  - done.
  - intros k d x h [= <- <-]. done.
  - intros k d h [= <- <-]. done.
Defined.
End GrinHasher.

(** ** Child numbers *)

Inductive ChildNumber :=
| Normal (index : Z)
| Hardened (index : Z).
#[export] Instance child_number_eq_dec : EqDecision ChildNumber.
Proof. solve_decision. Defined.

Inductive BIP32Error :=
| CannotDeriveFromHardenedKey
| Ecdsa
| InvalidChildNumber (n : ChildNumber)
| RngError
| EMnemonic (e : MnemonicError).

(** [from_normal_idx], [from_hardened_idx]: an index out of range panics *)
Definition from_normal_idx (index : Z) : res BIP32Error ChildNumber :=
  if Z.land index (2 ^ 31) =? 0 then Ok (Normal index) else Panic.
Definition from_hardened_idx (index : Z) : res BIP32Error ChildNumber :=
  if Z.land index (2 ^ 31) =? 0 then Ok (Hardened index) else Panic.
Definition is_hardened (c : ChildNumber) : bool := match c with Hardened _ => true | Normal _ => false end.
Definition is_normal (c : ChildNumber) : bool := negb (is_hardened c).
(** [From<u32> for ChildNumber], [From<ChildNumber> for u32] *)
Definition child_of_u32 (number : Z) : ChildNumber :=
  if negb (Z.land number (2 ^ 31) =? 0) then Hardened (Z.lxor number (2 ^ 31)) else Normal number.
Definition u32_of_child (c : ChildNumber) : Z :=
  match c with Normal index => index | Hardened index => Z.lor index (2 ^ 31) end.

(** ** Keys *)

Record ExtendedPrivKey := mkPriv {
  priv_network : bytes;
  priv_depth : Z;
  priv_parent_fingerprint : bytes;
  priv_child_number : ChildNumber;
  priv_secret_key : SecretKey;
  priv_chain_code : bytes
}.

Section Keys.
  Context {DG : Digest} {SP : Secp} {SV : SecpVerify} {SK : SecpKeys} {H : Type} `{!BIP32Hasher H}.
  #[local] Abbreviation HM := (vm H BIP32Error).

Record ExtendedPubKey := mkPub {
  pub_network : bytes;
  pub_depth : Z;
  pub_parent_fingerprint : bytes;
  pub_child_number : ChildNumber;
  public_key : PublicKey;
  pub_chain_code : bytes
}.

(** [result_sha512], a method that changes the hasher *)
Definition result : HM bytes := fun h => let '(r, h) := result_sha512 h in (Ok r, h).
Definition hasher_update (f : H -> H) : HM unit := fun h => (Ok tt, f h).

(** [ExtendedPrivKey::new_master] *)
Definition new_master (seed : bytes) : HM ExtendedPrivKey :=
  let@ _ := hasher_update (init_sha512 master_seed) in
  let@ _ := hasher_update (append_sha512 seed) in
  let@ result := result in
  fun h =>
    vlift
      (let? child := from_normal_idx 0 in
       let? secret := ok_or (secret_key_from_slice (take 32 result)) Ecdsa in
       Ok (mkPriv (network_priv h) 0 [0; 0; 0; 0] child secret (drop 32 result))) h.

(** [ExtendedPubKey::from_private] *)
Definition from_private (h : H) (sk : ExtendedPrivKey) : res BIP32Error ExtendedPubKey :=
  match public_from_secret (priv_secret_key sk) with
  | Some p => Ok (mkPub (network_pub h) (priv_depth sk) (priv_parent_fingerprint sk) (priv_child_number sk) p (priv_chain_code sk))
  | None => Panic
  end.

(** [ExtendedPubKey::identifier], [fingerprint] *)
Definition pub_identifier (h : H) (pk : ExtendedPubKey) : bytes := ripemd_160 h (sha_256 h (public_serialize (public_key pk))).
Definition pub_fingerprint (h : H) (pk : ExtendedPubKey) : bytes := take 4 (pub_identifier h pk).

(** [ExtendedPrivKey::identifier], [fingerprint] *)
Definition priv_identifier (h : H) (sk : ExtendedPrivKey) : res BIP32Error bytes :=
  let? pk := from_private h sk in
  Ok (ripemd_160 h (sha_256 h (public_serialize (public_key pk)))).
Definition priv_fingerprint (h : H) (sk : ExtendedPrivKey) : res BIP32Error bytes :=
  let? id := priv_identifier h sk in Ok (take 4 id).

(** [ExtendedPrivKey::ckd_priv] *)
Definition ckd_priv (sk : ExtendedPrivKey) (i : ChildNumber) : HM ExtendedPrivKey :=
  let@ _ := hasher_update (init_sha512 (priv_chain_code sk)) in
  let@ _ :=
    match i with
    | Normal _ =>
      let@ p := vlift (ok_or (public_from_secret (priv_secret_key sk)) Ecdsa) in
      hasher_update (append_sha512 (public_serialize p))
    | Hardened _ =>
      let@ _ := hasher_update (append_sha512 [0]) in
      hasher_update (append_sha512 (secret_bytes (priv_secret_key sk)))
    end in
  let@ _ := hasher_update (append_sha512 (be_bytes 4 (u32_of_child i))) in
  let@ result := result in
  fun h =>
    vlift
      (let? tweak := ok_or (secret_key_from_slice (take 32 result)) Ecdsa in
       let? secret := ok_or (secret_add tweak (priv_secret_key sk)) Ecdsa in
       let? fingerprint := priv_fingerprint h sk in
       Ok (mkPriv (priv_network sk) ((priv_depth sk + 1) mod 2 ^ 8) fingerprint i secret (drop 32 result))) h.

(** [ExtendedPrivKey::derive_priv] *)
Fixpoint derive_priv (sk : ExtendedPrivKey) (cnums : list ChildNumber) : HM ExtendedPrivKey :=
  match cnums with
  | [] => vret sk
  | cnum :: cnums => let@ sk := ckd_priv sk cnum in derive_priv sk cnums
  end.

(** [ExtendedPubKey::ckd_pub_tweak] *)
Definition ckd_pub_tweak (pk : ExtendedPubKey) (i : ChildNumber) : HM (SecretKey * bytes) :=
  match i with
  | Hardened _ => vlift (Err CannotDeriveFromHardenedKey)
  | Normal n =>
    let@ _ := hasher_update (init_sha512 (pub_chain_code pk)) in
    let@ _ := hasher_update (append_sha512 (public_serialize (public_key pk))) in
    let@ _ := hasher_update (append_sha512 (be_bytes 4 n)) in
    let@ result := result in
    vlift (let? secret := ok_or (secret_key_from_slice (take 32 result)) Ecdsa in Ok (secret, drop 32 result))
  end.

(** [ExtendedPubKey::ckd_pub] *)
Definition ckd_pub (pk : ExtendedPubKey) (i : ChildNumber) : HM ExtendedPubKey :=
  let@ tweak := ckd_pub_tweak pk i in
  fun h =>
    vlift
      (let? p := ok_or (public_add_exp (public_key pk) tweak.1) Ecdsa in
       Ok (mkPub (pub_network pk) ((pub_depth pk + 1) mod 2 ^ 8) (pub_fingerprint h pk) i p tweak.2)) h.

(** [ExtendedPubKey::derive_pub] *)
Fixpoint derive_pub (pk : ExtendedPubKey) (cnums : list ChildNumber) : HM ExtendedPubKey :=
  match cnums with
  | [] => vret pk
  | cnum :: cnums => let@ pk := ckd_pub pk cnum in derive_pub pk cnums
  end.

(** ** Text forms *)

(** [Display for ExtendedPrivKey], [Display for ExtendedPubKey] *)
Definition priv_to_string (sk : ExtendedPrivKey) : bytes :=
  check_encode_slice
    (priv_network sk ++ [priv_depth sk] ++ priv_parent_fingerprint sk ++ be_bytes 4 (u32_of_child (priv_child_number sk)) ++
     priv_chain_code sk ++ [0] ++ secret_bytes (priv_secret_key sk)).
Definition pub_to_string (pk : ExtendedPubKey) : bytes :=
  check_encode_slice
    (pub_network pk ++ [pub_depth pk] ++ pub_parent_fingerprint pk ++ be_bytes 4 (u32_of_child (pub_child_number pk)) ++
     pub_chain_code pk ++ public_serialize (public_key pk)).

(** [data[from .. to]] *)
Definition slice (data : bytes) (from to : nat) : bytes := take (to - from) (drop from data).

(** [FromStr for ExtendedPrivKey], [FromStr for ExtendedPubKey] *)
Definition priv_from_str (inp : bytes) : res Base58Error ExtendedPrivKey :=
  let? data := from_check inp in
  if negb (length data =? 78)%nat then Err (Base58.InvalidLength (Z.of_nat (length data)))
  else
    let child_number := child_of_u32 (be_val (slice data 9 13)) in
    let? secret := ok_or (secret_key_from_slice (slice data 46 78)) Base58Other in
    Ok (mkPriv (slice data 0 4) (default 0 (data !! 4%nat)) (slice data 5 9) child_number secret (slice data 13 45)).
Definition pub_from_str (inp : bytes) : res Base58Error ExtendedPubKey :=
  let? data := from_check inp in
  if negb (length data =? 78)%nat then Err (Base58.InvalidLength (Z.of_nat (length data)))
  else
    let child_number := child_of_u32 (be_val (slice data 9 13)) in
    let? p := ok_or (public_from_slice (slice data 45 78)) Base58Other in
    Ok (mkPub (slice data 0 4) (default 0 (data !! 4%nat)) (slice data 5 9) child_number p (slice data 13 45)).
End Keys.

(** [ExtendedPrivKey::from_mnemonic] *)
Definition priv_from_mnemonic {DG : Digest} {MC : Macs} {SP : Secp} `{Pbkdf2} (mnemonic passphrase : list Z) (floo : bool)
    : res BIP32Error ExtendedPrivKey :=
  let? seed := map_err EMnemonic (to_seed mnemonic (Some passphrase)) in
  (new_master seed (hasher_new floo)).1.

(** ** Child numbers are 32-bit numbers *)

Lemma land_bit31 n : 0 <= n < 2 ^ 32 -> Z.land n (2 ^ 31) = if n <? 2 ^ 31 then 0 else 2 ^ 31.
Proof.
  intros Hn. apply Z.bits_inj'. intros k Hk. rewrite Z.land_spec, Z.pow2_bits_eqb by lia.
  destruct (Z.eqb_spec 31 k) as [<-|Hne].
  - rewrite andb_true_r. rewrite (testbit_top n 31) by lia. destruct (Z.ltb_spec n (2 ^ 31)) as [Hlt|Hge].
    + rewrite Z.testbit_0_l. apply Z.leb_gt. lia.
    + rewrite Z.pow2_bits_true by lia. apply Z.leb_le. lia.
  - rewrite andb_false_r. destruct (n <? _); [rewrite Z.testbit_0_l; done|]. rewrite Z.pow2_bits_false by lia. done.
Qed.
Lemma child_of_u32_spec n : 0 <= n < 2 ^ 32 -> child_of_u32 n = if n <? 2 ^ 31 then Normal n else Hardened (n - 2 ^ 31).
Proof.
  intros Hn. unfold child_of_u32. rewrite land_bit31 by done. destruct (Z.ltb_spec n (2 ^ 31)) as [Hlt|Hge]; [done|]. cbn [negb].
  replace (negb (2 ^ 31 =? 0)) with true by done. f_equal.
  assert (E : n = Z.lor (n - 2 ^ 31) (2 ^ 31)).
  { pose proof (lor_low_add (n - 2 ^ 31) 1 31 ltac:(lia) ltac:(lia)) as Hl. rewrite Z.mul_1_l in Hl. lia. }
  rewrite E at 1. apply Z.bits_inj'. intros k Hk. rewrite Z.lxor_spec, Z.lor_spec, Z.pow2_bits_eqb by lia.
  destruct (Z.eqb_spec 31 k) as [<-|]; [|rewrite orb_false_r, xorb_false_r; done]. rewrite orb_true_r.
  rewrite (testbit_top (n - 2 ^ 31) 31) by lia. symmetry. apply Z.leb_gt. lia.
Qed.
Lemma u32_of_child_of n : 0 <= n < 2 ^ 32 -> u32_of_child (child_of_u32 n) = n.
Proof.
  intros Hn. rewrite child_of_u32_spec by done. destruct (Z.ltb_spec n (2 ^ 31)); cbn [u32_of_child]; [done|].
  pose proof (lor_low_add (n - 2 ^ 31) 1 31 ltac:(lia) ltac:(lia)) as Hl. rewrite Z.mul_1_l in Hl. lia.
Qed.
Definition child_wf (c : ChildNumber) : Prop := match c with Normal i | Hardened i => 0 <= i < 2 ^ 31 end.
Lemma child_of_u32_of c : child_wf c -> child_of_u32 (u32_of_child c) = c /\ 0 <= u32_of_child c < 2 ^ 32.
Proof.
  destruct c as [i|i]; cbn [child_wf u32_of_child]; intros Hi.
  - split; [|lia]. rewrite child_of_u32_spec by lia. rewrite (proj2 (Z.ltb_lt _ _)) by lia. done.
  - pose proof (lor_low_add i 1 31 ltac:(lia) ltac:(lia)) as Hl. rewrite Z.mul_1_l in Hl. rewrite Hl. split; [|lia].
    rewrite child_of_u32_spec by lia. rewrite (proj2 (Z.ltb_ge _ _)) by lia. f_equal. lia.
Qed.

(** ** Public derivation *)

Section Derivation.
  Context {DG : Digest} `{SKL : SecpKeysLaws} {H : Type} `{HL : BIP32HasherLaws H}.

#[export] Instance same_hasher_equiv : Equivalence same_hasher.
Proof.
  unfold same_hasher. split.
  - done.
  - intros h h' (-> & -> & E1 & E2). done.
  - intros h h' h'' (-> & -> & E1 & E2) (-> & -> & E3 & E4). repeat split; intros x; [rewrite E1|rewrite E2]; done.
Qed.

(** Three inputs and the result *)
Lemma mac_run k d1 d2 (h : H) :
  let '(r, h') := result_sha512 (append_sha512 d2 (append_sha512 d1 (init_sha512 k h))) in
  r = mac_of k (d1 ++ d2) /\ same_hasher h' h.
Proof.
  destruct (init_input k h) as [I1 S1]. destruct (append_input k [] d1 _ I1) as [I2 S2]. destruct (append_input k _ d2 _ I2) as [I3 S3].
  destruct (result_input _ _ _ I3) as [R S4]. destruct (result_sha512 _) as [r h']. cbn [fst snd] in *. split; [exact R|].
  rewrite S4, S3, S2, S1. done.
Qed.

Lemma ckd_agree sk pk n (h h2 : H) : same_hasher h h2 -> from_private h sk = Ok pk ->
  match ckd_priv sk (Normal n) h, ckd_pub pk (Normal n) h2 with
  | (Ok sk', h'), (Ok pk', h2') => same_hasher h' h2' /\ from_private h' sk' = Ok pk'
  | (Err Ecdsa, _), (Err Ecdsa, _) => True
  | _, _ => False
  end.
Proof.
  intros Hs Hp. unfold from_private in Hp. destruct (public_from_secret (priv_secret_key sk)) as [p|] eqn:Ep; [|discriminate].
  injection Hp as <-. unfold ckd_priv, ckd_pub, ckd_pub_tweak, vbind, hasher_update, vlift, ok_or, result. cbn [public_key pub_chain_code u32_of_child].
  rewrite Ep. pose proof (mac_run (priv_chain_code sk) (public_serialize p) (be_bytes 4 n) h) as M1.
  pose proof (mac_run (priv_chain_code sk) (public_serialize p) (be_bytes 4 n) h2) as M2.
  destruct (result_sha512 _) as [r h']. destruct M1 as [-> S1]. destruct (result_sha512 _) as [r2 h2']. destruct M2 as [-> S2].
  set (mac := mac_of _ _). destruct (secret_key_from_slice (take 32 mac)) as [t|]; cbn [res_bind]; [|done].
  pose proof (public_of_sum t (priv_secret_key sk) p Ep) as Hsum. cbn [fst snd].
  destruct (secret_add t (priv_secret_key sk)) as [s|]; cbn [res_bind]; [|rewrite Hsum; done].
  destruct Hsum as (q & -> & Eq). cbn [res_bind]. unfold priv_fingerprint, priv_identifier, from_private. rewrite Ep. cbn [res_bind priv_secret_key].
  rewrite Eq. assert (S' : same_hasher h' h2') by (rewrite S1, S2; done). split; [exact S'|].
  cbn. unfold pub_fingerprint, pub_identifier. cbn [public_key]. destruct S' as (En & _ & E1 & E2). destruct S1 as (En1 & _).
  rewrite En1, E1, E2. done.
Qed.

Lemma derive_agree ns : forall sk pk (h h2 : H), same_hasher h h2 -> from_private h sk = Ok pk ->
  match derive_priv sk (map Normal ns) h, derive_pub pk (map Normal ns) h2 with
  | (Ok sk', h'), (Ok pk', h2') => same_hasher h' h2' /\ from_private h' sk' = Ok pk'
  | (Err Ecdsa, _), (Err Ecdsa, _) => True
  | _, _ => False
  end.
Proof.
  induction ns as [|n ns IH]; intros sk pk h h2 Hs Hp; cbn [map derive_priv derive_pub]; [split; done|].
  pose proof (ckd_agree sk pk n h h2 Hs Hp) as Hc. unfold vbind.
  destruct (ckd_priv sk (Normal n) h) as [[sk'|e|] h']; destruct (ckd_pub pk (Normal n) h2) as [[pk'|e2|] h2']; try done;
    try (destruct e; done). destruct Hc as [Hs' Hp']. apply IH; done.
Qed.
End Derivation.

(** C25: The public tree follows the private one: along any path of normal children, the public key that [derive_pub] derives
    from a public key is the public key of what [derive_priv] derives from its private key, with the same depth,
    fingerprint, child number and chain code, and one derivation fails exactly when the other does; a hardened child has no
    public derivation. *)
Theorem public_derivation_follows {DG : Digest} `{SKL : SecpKeysLaws} {H : Type} `{HL : BIP32HasherLaws H} sk pk path (h : H) :
  from_private h sk = Ok pk ->
  match derive_priv sk (map Normal path) h with
  | (Ok sk', h') => exists h2, derive_pub pk (map Normal path) h = (from_private h' sk', h2)
  | (Err e, _) => exists h2, derive_pub pk (map Normal path) h = (Err e, h2)
  | (Panic, _) => False
  end /\
  forall i, ckd_pub pk (Hardened i) h = (Err CannotDeriveFromHardenedKey, h).
Proof.
  intros Hp. split; [|done]. pose proof (derive_agree path sk pk h h ltac:(reflexivity) Hp) as Hd.
  destruct (derive_priv sk (map Normal path) h) as [[sk'|e|] h'], (derive_pub pk (map Normal path) h) as [[pk'|e'|] h2]; try done; try (destruct e; done).
  - exists h2. destruct Hd as [_ ->]. done.
  - exists h2. destruct e, e'; done.
Qed.

(** ** Reading what was printed *)

Section Text.
  Context {DG : Digest} {SL : Sha256Laws} `{SKL : SecpKeysLaws}.

Record priv_wf (sk : ExtendedPrivKey) : Prop := {
  wf_priv_network : are_bytes (priv_network sk) /\ length (priv_network sk) = 4%nat;
  wf_priv_depth : is_byte (priv_depth sk);
  wf_priv_fingerprint : are_bytes (priv_parent_fingerprint sk) /\ length (priv_parent_fingerprint sk) = 4%nat;
  wf_priv_child : child_wf (priv_child_number sk);
  wf_priv_chain_code : are_bytes (priv_chain_code sk) /\ length (priv_chain_code sk) = 32%nat;
  wf_priv_secret : are_bytes (secret_bytes (priv_secret_key sk)) /\ length (secret_bytes (priv_secret_key sk)) = 32%nat /\
    secret_key_from_slice (secret_bytes (priv_secret_key sk)) = Some (priv_secret_key sk)
}.
Record pub_wf (pk : ExtendedPubKey) : Prop := {
  wf_pub_network : are_bytes (pub_network pk) /\ length (pub_network pk) = 4%nat;
  wf_pub_depth : is_byte (pub_depth pk);
  wf_pub_fingerprint : are_bytes (pub_parent_fingerprint pk) /\ length (pub_parent_fingerprint pk) = 4%nat;
  wf_pub_child : child_wf (pub_child_number pk);
  wf_pub_chain_code : are_bytes (pub_chain_code pk) /\ length (pub_chain_code pk) = 32%nat
}.

(** The fields of the 78 bytes *)
Lemma fields network depth fingerprint child chain_code key :
  length network = 4%nat -> length fingerprint = 4%nat -> child_wf child -> length chain_code = 32%nat -> length key = 33%nat ->
  let data := network ++ [depth] ++ fingerprint ++ be_bytes 4 (u32_of_child child) ++ chain_code ++ key in
  length data = 78%nat /\ slice data 0 4 = network /\ data !! 4%nat = Some depth /\ slice data 5 9 = fingerprint /\
  child_of_u32 (be_val (slice data 9 13)) = child /\ slice data 13 45 = chain_code /\ slice data 45 78 = key /\
  slice data 46 78 = drop 1 key.
Proof.
  intros Hn Hf Hc Hcc Hk data. destruct (child_of_u32_of child Hc) as [Hchild Hu]. assert (Hb := length_be_bytes 4 (u32_of_child child)).
  assert (Hd : forall n, drop (4 + n) data = drop n ([depth] ++ fingerprint ++ be_bytes 4 (u32_of_child child) ++ chain_code ++ key)).
  { intros n. rewrite <- drop_drop. subst data. rewrite drop_app_length' by done. done. }
  repeat split.
  - subst data. rewrite !length_app. cbn [length]. lia.
  - change (take 4 (drop 0 data) = network). rewrite drop_0. subst data. apply take_app_length'. done.
  - subst data. rewrite lookup_app_r by lia. rewrite Hn. done.
  - change (take 4 (drop (4 + 1) data) = fingerprint). rewrite Hd. cbn [drop app]. apply take_app_length'. done.
  - change (child_of_u32 (be_val (take 4 (drop (4 + (1 + 4)) data))) = child). rewrite Hd, <- drop_drop. cbn [app]. rewrite skipn_cons, drop_0, drop_app_length' by done.
    rewrite take_app_length' by done. rewrite be_val_be_bytes; [exact Hchild|]. exact Hu.
  - change (take 32 (drop (4 + (1 + (4 + 4))) data) = chain_code). rewrite Hd, <- drop_drop, <- (drop_drop _ 4 4). cbn [app]. rewrite skipn_cons, drop_0.
    rewrite !drop_app_length' by done. apply take_app_length'. done.
  - change (take 33 (drop (4 + (1 + (4 + (4 + 32)))) data) = key). rewrite Hd, <- drop_drop, <- (drop_drop _ (4 + 32) 4), <- (drop_drop _ 32 4). cbn [app].
    rewrite skipn_cons, drop_0. rewrite !drop_app_length' by done. apply take_ge. lia.
  - change (take 32 (drop (4 + (1 + (4 + (4 + (32 + 1))))) data) = drop 1 key). rewrite Hd, <- drop_drop, <- (drop_drop _ (4 + (32 + 1)) 4), <- (drop_drop _ (32 + 1) 4), <- (drop_drop _ 1 32).
    cbn [app]. rewrite skipn_cons, drop_0. rewrite !drop_app_length' by done. apply take_ge. rewrite length_drop. lia.
Qed.

Lemma priv_roundtrip sk : priv_wf sk -> priv_from_str (priv_to_string sk) = Ok sk.
Proof.
  intros [[Bn Ln] Bd [Bf Lf] Hc [Bcc Lcc] (Bs & Ls & Es)]. unfold priv_from_str, priv_to_string. 
  pose proof (fields (priv_network sk) (priv_depth sk) _ _ _ ([0] ++ secret_bytes (priv_secret_key sk)) Ln Lf Hc Lcc ltac:(cbn; lia)) as Hf.
  cbv zeta in Hf. set (data := _ ++ _) in *. destruct Hf as (F1 & F2 & F3 & F4 & F5 & F6 & _ & F8).
  rewrite encoded_from_check.
  - cbn [res_bind]. rewrite F1, F2, F3, F4, F5, F6, F8. cbn [negb Nat.eqb]. cbn [app]. rewrite skipn_cons, drop_0, Es. destruct sk; done.
  - subst data. rewrite !are_bytes_app. repeat split; try done; try apply be_bytes_are_bytes; apply Forall_singleton; [exact Bd|unfold is_byte; lia].
Qed.
Lemma pub_roundtrip pk : pub_wf pk -> pub_from_str (pub_to_string pk) = Ok pk.
Proof.
  intros [[Bn Ln] Bd [Bf Lf] Hc [Bcc Lcc]]. unfold pub_from_str, pub_to_string. destruct (public_serialize_spec (public_key pk)) as (Bp & Lp & Ep).
  pose proof (fields (pub_network pk) (pub_depth pk) _ _ _ (public_serialize (public_key pk)) Ln Lf Hc Lcc Lp) as Hf.
  cbv zeta in Hf. set (data := _ ++ _) in *. destruct Hf as (F1 & F2 & F3 & F4 & F5 & F6 & F7 & _).
  rewrite encoded_from_check.
  - cbn [res_bind]. rewrite F1, F2, F3, F4, F5, F6, F7. cbn [negb Nat.eqb]. rewrite Ep. destruct pk; done.
  - subst data. rewrite !are_bytes_app. repeat split; try done; try apply be_bytes_are_bytes. apply Forall_singleton. exact Bd.
Qed.
End Text.

(** C26: An extended key survives its text form: what [to_string] writes in base 58 with its checksum, [from_str] reads back to
    the same key, whatever the bytes of the key are, private or public. *)
Theorem extended_keys_roundtrip {DG : Digest} {SL : Sha256Laws} `{SKL : SecpKeysLaws} :
  (forall sk, priv_wf sk -> priv_from_str (priv_to_string sk) = Ok sk) /\
  (forall pk, pub_wf pk -> pub_from_str (pub_to_string pk) = Ok pk).
Proof. split; [apply priv_roundtrip|apply pub_roundtrip]. Qed.
