(* ===== verification/Hex.v ===== *)
(** * Hexadecimal strings

    Models [util/src/hex.rs].  A string is the list of its characters, as in [Mnemonic]; [from_hex] cuts it at byte positions,
    where a position inside a character panics. *)

From Stdlib Require Import ZArith Lia List Bool String ZifyNat.
From stdpp Require Import base numbers list option gmap.
From S2P Require Import Prelude Bytes Mnemonic.

(** [{:02x}] *)
Definition hex_digit (d : Z) : Z := if d <? 10 then 48 + d else 87 + d.
Definition hex_string (l : bytes) : list Z := concat (map (fun b => [hex_digit (b / 16); hex_digit (b mod 16)]) l).

(** [str::trim], [str::trim_start_matches] with ["0x"] *)
Fixpoint trim_start (s : list Z) : list Z :=
  match s with c :: s' => if is_whitespace c then trim_start s' else s | [] => [] end.
Definition trim (s : list Z) : list Z := rev (trim_start (rev (trim_start s))).
Fixpoint trim_0x (s : list Z) : list Z :=
  match s with
  | c1 :: ((c2 :: s') as tl) => if (c1 =? 48) && (c2 =? 120) then trim_0x s' else s
  | _ => s
  end.

(** [char::to_digit(16)] *)
Definition hex_val (c : Z) : option Z :=
  if (48 <=? c) && (c <=? 57) then Some (c - 48)
  else if (97 <=? c) && (c <=? 102) then Some (c - 87)
  else if (65 <=? c) && (c <=? 70) then Some (c - 55)
  else None.
(** [u8::from_str_radix] on two bytes: a plus sign may come first *)
Definition parse_pair (a b : Z) : option Z :=
  if a =? 43 then hex_val b
  else match hex_val a, hex_val b with Some x, Some y => Some (16 * x + y) | _, _ => None end.

(** A byte inside a character, not its first *)
Definition continues (b : Z) : bool := (0x80 <=? b) && (b <? 0xC0).

(** The bytes two by two; the first pair that is not a number ends the iteration. *)
Fixpoint parse_pairs (l : bytes) (whole : list Z) : res (list Z) bytes :=
  match l with
  | a :: b :: l =>
    if continues a || continues (default 0 (head l)) then Panic
    else
      match parse_pair a b with
      | Some x => let? r := parse_pairs l whole in Ok (x :: r)
      | None => Err whole
      end
  | _ => Ok []
  end.

(** [from_hex] *)
Definition from_hex (hex : list Z) : res (list Z) bytes :=
  let hex := trim_0x (trim hex) in
  if negb (length (as_bytes hex) mod 2 =? 0)%nat then Err hex else parse_pairs (as_bytes hex) hex.

(** ** Round trip *)

Lemma hex_digit_range d : 0 <= d < 16 -> 48 <= hex_digit d <= 57 /\ d < 10 \/ 97 <= hex_digit d <= 102 /\ 10 <= d.
Proof. intros Hd. unfold hex_digit. destruct (Z.ltb_spec d 10); lia. Qed.
Lemma hex_val_digit d : 0 <= d < 16 -> hex_val (hex_digit d) = Some d.
Proof.
  intros Hd. unfold hex_val, hex_digit. destruct (Z.ltb_spec d 10); repeat (case_match; try (f_equal; lia); try lia).
Qed.
Lemma hex_digit_plain d : 0 <= d < 16 -> is_whitespace (hex_digit d) = false /\ utf8_char (hex_digit d) = [hex_digit d] /\
  continues (hex_digit d) = false /\ hex_digit d <> 43 /\ hex_digit d <> 120.
Proof.
  intros Hd. pose proof (hex_digit_range d Hd). set (c := hex_digit d) in *. clearbody c.
  assert (Hc : 48 <= c <= 102) by lia. repeat split; try lia.
  - unfold is_whitespace. repeat rewrite orb_false_iff. repeat split; try apply Z.eqb_neq; try apply andb_false_iff; lia.
  - unfold utf8_char. rewrite (proj2 (Z.ltb_lt _ _)) by lia. done.
  - unfold continues. apply andb_false_iff. lia.
Qed.
Lemma hex_string_digits l : are_bytes l -> Forall (fun c => exists d, 0 <= d < 16 /\ c = hex_digit d) (hex_string l).
Proof.
  induction 1 as [|b l Hb _ IH]; [constructor|]. unfold is_byte in Hb. cbn [hex_string map concat app].
  constructor; [exists (b / 16); split; [Z.div_mod_to_equations; lia|done]|].
  constructor; [exists (b mod 16); split; [Z.div_mod_to_equations; lia|done]|]. exact IH.
Qed.
Lemma trim_plain s : Forall (fun c => is_whitespace c = false) s -> trim s = s.
Proof.
  assert (Ht : forall s, Forall (fun c => is_whitespace c = false) s -> trim_start s = s).
  { intros l [|c l' Hc _]; [done|]. cbn. rewrite Hc. done. }
  intros Hs. unfold trim. rewrite (Ht s Hs), (Ht (rev s)) by (apply Forall_rev, Hs). apply rev_involutive.
Qed.
Lemma parse_pairs_digits l whole : are_bytes l -> parse_pairs (hex_string l) whole = Ok l.
Proof.
  induction 1 as [|b l Hb Hl IH]; [done|]. unfold is_byte in Hb.
  change (hex_string (b :: l)) with (hex_digit (b / 16) :: hex_digit (b mod 16) :: hex_string l). cbn [parse_pairs].
  assert (H1 : 0 <= b / 16 < 16) by (Z.div_mod_to_equations; lia). assert (H2 : 0 <= b mod 16 < 16) by (Z.div_mod_to_equations; lia).
  destruct (hex_digit_plain _ H1) as (_ & _ & -> & Hp & _).
  assert (Hh : continues (default 0 (head (hex_string l))) = false).
  { destruct (hex_string_digits l Hl) as [|c s (d & Hd & ->) _]; [done|]. apply (hex_digit_plain d Hd). }
  rewrite Hh. cbn [orb]. unfold parse_pair. rewrite (proj2 (Z.eqb_neq _ _)) by exact Hp. rewrite !hex_val_digit by done.
  rewrite IH. cbn [res_bind]. do 2 f_equal. Z.div_mod_to_equations; lia.
Qed.

Lemma hex_roundtrip l : are_bytes l -> from_hex (hex_string l) = Ok l.
Proof.
  intros Hl. pose proof (hex_string_digits l Hl) as Hd. unfold from_hex.
  rewrite trim_plain by (eapply Forall_impl; [exact Hd|]; intros c (d & Hr & ->); apply (hex_digit_plain d Hr)).
  assert (E0x : trim_0x (hex_string l) = hex_string l).
  { destruct (hex_string l) as [|c1 [|c2 s]]; [done..|]. apply Forall_cons in Hd as [_ Hd]. apply Forall_cons in Hd as [(d & Hr & ->) _].
    cbn [trim_0x]. destruct (hex_digit_plain d Hr) as (_ & _ & _ & _ & Hx). rewrite (proj2 (Z.eqb_neq _ 120)) by exact Hx. rewrite andb_false_r. done. }
  rewrite E0x.
  assert (Eb : as_bytes (hex_string l) = hex_string l).
  { clear E0x. unfold as_bytes. induction Hd as [|c s (d & Hr & ->) _ IH]; [done|]. cbn [map concat].
    destruct (hex_digit_plain d Hr) as (_ & -> & _). cbn [app]. rewrite IH. done. }
  rewrite Eb. assert (Hlen : length (hex_string l) = (2 * length l)%nat).
  { unfold hex_string. clear. induction l as [|b l IH]; [done|]. cbn [map concat app length]. lia. }
  rewrite Hlen. replace (2 * length l mod 2)%nat with 0%nat by (zify; Z.div_mod_to_equations; lia). cbn [Nat.eqb negb].
  apply parse_pairs_digits, Hl.
Qed.
