(* ===== verification/Keychain.v ===== *)
(** * The keychain

    Models [keychain/src/types.rs] (identifiers, paths, blinding sums), [keychain/src/keychain.rs] (the keys, commitments and
    signatures of a path below a master key) and [keychain/src/view_key.rs].

    The random seed of [from_random_seed], for tests, is left out; [BlindingFactor] is in [Committed]. *)

From Stdlib Require Import ZArith Lia List Bool String.
From stdpp Require Import base numbers list option gmap.
From S2P Require Import Prelude Bytes Ser Transaction TxBody Committed Verifier Base58 Mnemonic Hex ExtKey.

(** ** Paths and identifiers *)

Definition IDENTIFIER_SIZE : nat := 17.
Record Identifier := mkIdentifier { identifier_bytes : bytes }.

Inductive KeychainError :=
| KSecp
| KeyDerivation (e : BIP32Error)
| KTransaction
| KRangeProof
| SwitchCommitment.

(** A path has four child numbers, of which [depth] count. *)
Record ExtKeychainPath := mkPath { path_depth : Z; path_children : list ChildNumber }.
Inductive SwitchCommitmentType := SwitchNone | SwitchRegular.
Record ValueExtKeychainPath := mkValuePath { path_value : Z; ext_keychain_path : ExtKeychainPath; switch : SwitchCommitmentType }.

(** [TryFrom<u8> for SwitchCommitmentType], [From<SwitchCommitmentType> for u8] *)
Definition switch_of_u8 (value : Z) : option SwitchCommitmentType :=
  if value =? 0 then Some SwitchNone else if value =? 1 then Some SwitchRegular else None.
Definition u8_of_switch (s : SwitchCommitmentType) : Z := match s with SwitchNone => 0 | SwitchRegular => 1 end.

(** [ExtKeychainPath::new], [from_identifier], [to_identifier] *)
Definition path_new (depth d0 d1 d2 d3 : Z) : ExtKeychainPath :=
  mkPath depth [child_of_u32 d0; child_of_u32 d1; child_of_u32 d2; child_of_u32 d3].
Definition path_from_identifier (id : Identifier) : ExtKeychainPath :=
  let b := identifier_bytes id in
  path_new (default 0 (head b)) (be_val (slice b 1 5)) (be_val (slice b 5 9)) (be_val (slice b 9 13)) (be_val (slice b 13 17)).
Definition to_identifier (p : ExtKeychainPath) : Identifier :=
  mkIdentifier (path_depth p :: concat (map (fun c => be_bytes 4 (u32_of_child c)) (path_children p))).

(** [last_path_index] *)
Definition last_path_index {E} (p : ExtKeychainPath) : res E Z :=
  if path_depth p =? 0 then Ok 0
  else match path_children p !! Z.to_nat (path_depth p - 1) with Some c => Ok (u32_of_child c) | None => Panic end.

(** [Identifier::from_bytes]: cut or zero padded *)
Definition identifier_from_bytes (b : bytes) : Identifier :=
  let n := Nat.min IDENTIFIER_SIZE (length b) in
  mkIdentifier (take n b ++ replicate (IDENTIFIER_SIZE - n) 0).
Definition identifier_zero : Identifier := identifier_from_bytes (replicate IDENTIFIER_SIZE 0).
Definition from_path (p : ExtKeychainPath) : Identifier := to_identifier p.
Definition to_path (id : Identifier) : ExtKeychainPath := path_from_identifier id.
Definition to_value_path (id : Identifier) (value : Z) : ValueExtKeychainPath := mkValuePath value (to_path id) SwitchRegular.

(** [serialize_path], [from_serialized_path]; a slice that is too short panics *)
Definition serialize_path (id : Identifier) : bytes := slice (identifier_bytes id) 1 IDENTIFIER_SIZE.
Definition from_serialized_path {E} (len : Z) (p : bytes) : res E Identifier :=
  if (length p <? IDENTIFIER_SIZE - 1)%nat then Panic else Ok (mkIdentifier (len :: take (IDENTIFIER_SIZE - 1) p)).

(** [parent_path] *)
Definition parent_path {E} (id : Identifier) : res E Identifier :=
  let p := path_from_identifier id in
  if 0 <? path_depth p then
    let i := Z.to_nat (path_depth p - 1) in
    match path_children p !! i with
    | Some _ => Ok (from_path (mkPath (path_depth p - 1) (<[i := child_of_u32 0]> (path_children p))))
    | None => Panic
    end
  else Ok (from_path p).

(** [to_hex], [from_hex]: a string that is not hexadecimal panics *)
Definition identifier_to_hex (id : Identifier) : list Z := hex_string (identifier_bytes id).
Definition identifier_from_hex {E} (hex : list Z) : res E Identifier :=
  match from_hex hex with Ok b => Ok (identifier_from_bytes b) | _ => Panic end.

(** [format!("/{}", n)]: the decimal digits of a 32-bit number, at most ten *)
Fixpoint decimal (fuel : nat) (n : Z) : list Z :=
  match fuel with
  | O => []
  | S fuel => (if n <? 10 then [] else decimal fuel (n / 10)) ++ [48 + n mod 10]
  end.
Fixpoint bip_32_steps {E} (p : ExtKeychainPath) (i n : nat) : res E (list Z) :=
  match n with
  | O => Ok []
  | S n =>
    match path_children p !! i with
    | Some c => let? rest := bip_32_steps p (S i) n in Ok ([47] ++ decimal 10 (u32_of_child c) ++ rest)
    | None => Panic
    end
  end.
(** [to_bip_32_string] *)
Definition to_bip_32_string {E} (id : Identifier) : res E (list Z) :=
  let p := path_from_identifier id in
  let? steps := bip_32_steps p 0 (Z.to_nat (path_depth p)) in
  Ok (chars_of "m" ++ steps).

(** ** Blinding sums *)

Record BlindSum := mkBlindSum {
  positive_key_ids : list ValueExtKeychainPath;
  negative_key_ids : list ValueExtKeychainPath;
  positive_blinding_factors : list BlindingFactor;
  negative_blinding_factors : list BlindingFactor
}.
Definition blind_sum_new : BlindSum := mkBlindSum [] [] [] [].
Definition add_key_id (s : BlindSum) (path : ValueExtKeychainPath) : BlindSum :=
  mkBlindSum (positive_key_ids s ++ [path]) (negative_key_ids s) (positive_blinding_factors s) (negative_blinding_factors s).
Definition sub_key_id (s : BlindSum) (path : ValueExtKeychainPath) : BlindSum :=
  mkBlindSum (positive_key_ids s) (negative_key_ids s ++ [path]) (positive_blinding_factors s) (negative_blinding_factors s).
Definition add_blinding_factor (s : BlindSum) (blind : BlindingFactor) : BlindSum :=
  mkBlindSum (positive_key_ids s) (negative_key_ids s) (positive_blinding_factors s ++ [blind]) (negative_blinding_factors s).
Definition sub_blinding_factor (s : BlindSum) (blind : BlindingFactor) : BlindSum :=
  mkBlindSum (positive_key_ids s) (negative_key_ids s) (positive_blinding_factors s) (negative_blinding_factors s ++ [blind]).

(** ** The keychain *)

(** Operations of the curve library: the switch of a key, signing, products and sums of public keys, the second
    generator; and BLAKE2b with a given size of the digest. *)
Class SecpWallet `{SV : SecpVerify} := {
  blind_switch : Z -> SecretKey -> option SecretKey;
  secp_sign : Message -> SecretKey -> option Signature;
  public_mul : PublicKey -> SecretKey -> option PublicKey;
  public_combine : list PublicKey -> option PublicKey;
  GENERATOR_PUB_J : PublicKey;
  blake2b_sized : nat -> bytes -> bytes
}.

Section Keychain.
  Context {DG : Digest} {MC : Macs} {SS : SecpSizes} {SP : Secp} {SV : SecpVerify} {SK : SecpKeys} {SW : SecpWallet}.

(** [Identifier::from_pubkey], [from_secret_key] *)
Definition from_pubkey (p : PublicKey) : Identifier :=
  identifier_from_bytes (blake2b_sized IDENTIFIER_SIZE (public_serialize p)).
Definition identifier_from_secret_key (key : SecretKey) : res KeychainError Identifier :=
  let? key_id := ok_or (public_from_secret key) KSecp in Ok (from_pubkey key_id).

Record ExtKeychain := mkKeychain { master : ExtendedPrivKey; keychain_hasher : BIP32GrinHasher }.

(** [pub_root_key] *)
Definition pub_root_key (kc : ExtKeychain) : res BIP32Error ExtendedPubKey := from_private (keychain_hasher kc) (master kc).

(** [from_seed], [from_mnemonic] *)
Definition from_seed (seed : bytes) (floo : bool) : res KeychainError ExtKeychain :=
  let '(m, h) := new_master seed (hasher_new floo) in
  let? m := map_err KeyDerivation m in
  Ok (mkKeychain m h).
Definition from_mnemonic `{Pbkdf2} (word_list extension_word : list Z) (floo : bool) : res KeychainError ExtKeychain :=
  let? m := map_err KeyDerivation (priv_from_mnemonic word_list extension_word floo) in
  Ok (mkKeychain m (hasher_new floo)).

(** [mask_master_key] *)
Definition mask_key (key mask : SecretKey) : SecretKey := mkSecretKey (zip_with Z.lxor (secret_bytes key) (secret_bytes mask)).
Definition mask_master_key (kc : ExtKeychain) (mask : SecretKey) : ExtKeychain :=
  let m := master kc in
  mkKeychain (mkPriv (priv_network m) (priv_depth m) (priv_parent_fingerprint m) (priv_child_number m)
    (mask_key (priv_secret_key m) mask) (priv_chain_code m)) (keychain_hasher kc).

(** [root_key_id], [derive_key_id] *)
Definition root_key_id : Identifier := to_identifier (path_new 0 0 0 0 0).
Definition derive_key_id (depth d1 d2 d3 d4 : Z) : Identifier := to_identifier (path_new depth d1 d2 d3 d4).

(** [public_root_key] *)
Definition public_root_key (kc : ExtKeychain) : res BIP32Error PublicKey := let? p := pub_root_key kc in Ok (public_key p).

(** [for i in 0..p.depth] *)
Fixpoint derive_steps (p : ExtKeychainPath) (i n : nat) (ext_key : ExtendedPrivKey) : vm BIP32GrinHasher BIP32Error ExtendedPrivKey :=
  match n with
  | O => vret ext_key
  | S n =>
    match path_children p !! i with
    | Some c => let@ ext_key := ckd_priv ext_key c in derive_steps p (S i) n ext_key
    | None => vlift Panic
    end
  end.
Definition ext_key_of (kc : ExtKeychain) (p : ExtKeychainPath) : res BIP32Error ExtendedPrivKey :=
  (derive_steps p 0 (Z.to_nat (path_depth p)) (master kc) (keychain_hasher kc)).1.

(** [derive_key] *)
Definition derive_key (kc : ExtKeychain) (amount : Z) (id : Identifier) (s : SwitchCommitmentType) : res KeychainError SecretKey :=
  let? ext_key := map_err KeyDerivation (ext_key_of kc (to_path id)) in
  match s with
  | SwitchRegular => ok_or (blind_switch amount (priv_secret_key ext_key)) KSecp
  | SwitchNone => Ok (priv_secret_key ext_key)
  end.

(** [Keychain::commit] *)
Definition keychain_commit (kc : ExtKeychain) (amount : Z) (id : Identifier) (s : SwitchCommitmentType) : res KeychainError Commitment :=
  let? key := derive_key kc amount id s in
  ok_or (commit amount key) KSecp.

(** The keys of a list of paths: a path whose derivation fails is passed over *)
Fixpoint path_keys (kc : ExtKeychain) (ids : list ValueExtKeychainPath) : res KeychainError (list SecretKey) :=
  match ids with
  | [] => Ok []
  | k :: ids =>
    match derive_key kc (path_value k) (from_path (ext_keychain_path k)) (switch k) with
    | Ok s => let? l := path_keys kc ids in Ok (s :: l)
    | Err _ => path_keys kc ids
    | Panic => Panic
    end
  end.

(** [Keychain::blind_sum] *)
Definition keychain_blind_sum (kc : ExtKeychain) (s : BlindSum) : res KeychainError BlindingFactor :=
  let? pos_keys := path_keys kc (positive_key_ids s) in
  let? neg_keys := path_keys kc (negative_key_ids s) in
  let pos_keys := pos_keys ++ omap secret_key (positive_blinding_factors s) in
  let neg_keys := neg_keys ++ omap secret_key (negative_blinding_factors s) in
  if (length pos_keys =? 0)%nat && (length neg_keys =? 0)%nat then Ok blind_zero
  else
    let? sum := ok_or (blind_sum pos_keys neg_keys) KSecp in
    Ok (from_secret_key sum).

(** [sign], [sign_with_blinding] *)
Definition sign (kc : ExtKeychain) (msg : Message) (amount : Z) (id : Identifier) (s : SwitchCommitmentType)
    : res KeychainError Signature :=
  let? skey := derive_key kc amount id s in
  ok_or (secp_sign msg skey) KSecp.
Definition sign_with_blinding (msg : Message) (blinding : BlindingFactor) : res KeychainError Signature :=
  let? skey := ok_or (secret_key blinding) KSecp in
  ok_or (secp_sign msg skey) KSecp.

(** ** View keys *)

Record ViewKey := mkViewKey {
  view_is_floo : bool;
  view_depth : Z;
  view_parent_fingerprint : bytes;
  view_child_number : ChildNumber;
  view_public_key : PublicKey;
  switch_public_key : option PublicKey;
  view_chain_code : bytes;
  rewind_hash : bytes
}.

(** [ViewKey::rewind_hash] *)
Definition view_rewind_hash (public_root_key : PublicKey) : bytes := blake2b_sized 32 (public_serialize public_root_key).

(** [ViewKey::create] *)
Definition view_create (kc : ExtKeychain) (ext_key : ExtendedPrivKey) (h : BIP32GrinHasher) (floo : bool) : res KeychainError ViewKey :=
  let? p := map_err KeyDerivation (from_private h ext_key) in
  let? switch_key := ok_or (public_mul GENERATOR_PUB_J (priv_secret_key ext_key)) KSecp in
  let? root := map_err KeyDerivation (public_root_key kc) in
  Ok (mkViewKey floo (pub_depth p) (pub_parent_fingerprint p) (pub_child_number p) (public_key p) (Some switch_key)
        (pub_chain_code p) (view_rewind_hash root)).

(** [ViewKey::identifier], [fingerprint] *)
Definition view_identifier (h : BIP32GrinHasher) (v : ViewKey) : bytes := ripemd_160 h (sha_256 h (public_serialize (view_public_key v))).
Definition view_fingerprint (h : BIP32GrinHasher) (v : ViewKey) : bytes := take 4 (view_identifier h v).

(** [ViewKey::ckd_pub_tweak] *)
Definition view_ckd_pub_tweak (v : ViewKey) (i : ChildNumber) : vm BIP32GrinHasher KeychainError (SecretKey * bytes) :=
  match i with
  | Hardened _ => vlift (Err (KeyDerivation CannotDeriveFromHardenedKey))
  | Normal n => fun h =>
    let h := append_sha512 (be_bytes 4 n) (append_sha512 (public_serialize (view_public_key v)) (init_sha512 (view_chain_code v) h)) in
    let '(result, h) := result_sha512 h in
    (let? secret := ok_or (secret_key_from_slice (take 32 result)) KSecp in Ok (secret, drop 32 result), h)
  end.

(** [ViewKey::ckd_pub] *)
Definition view_ckd_pub (v : ViewKey) (i : ChildNumber) : vm BIP32GrinHasher KeychainError ViewKey :=
  let@ tweak := view_ckd_pub_tweak v i in
  fun h =>
    vlift
      (let? p := ok_or (public_add_exp (view_public_key v) tweak.1) KSecp in
       let? switch_key :=
         match switch_public_key v with
         | Some k =>
           let? j := ok_or (public_mul GENERATOR_PUB_J tweak.1) KSecp in
           let? sum := ok_or (public_combine [k; j]) KSecp in
           Ok (Some sum)
         | None => Ok None
         end in
       Ok (mkViewKey (view_is_floo v) ((view_depth v + 1) mod 2 ^ 8) (view_fingerprint h v) i p switch_key tweak.2 (rewind_hash v))) h.

(** [ViewKey::commit] *)
Definition view_commit (v : ViewKey) (amount : Z) (s : SwitchCommitmentType) : res KeychainError PublicKey :=
  let? value := ok_or (commit_value amount) KSecp in
  let? value_key := ok_or (to_pubkey value) KSecp in
  let? pub_key := ok_or (public_combine [view_public_key v; value_key]) KSecp in
  match s with
  | SwitchNone => Ok pub_key
  | SwitchRegular => Err SwitchCommitment
  end.
End Keychain.

(** ** Identifiers and paths *)

Definition path_wf (p : ExtKeychainPath) : Prop :=
  is_byte (path_depth p) /\ length (path_children p) = 4%nat /\ Forall child_wf (path_children p).
Definition identifier_wf (id : Identifier) : Prop := are_bytes (identifier_bytes id) /\ length (identifier_bytes id) = IDENTIFIER_SIZE.

Lemma be_val_u32 l : are_bytes l -> length l = 4%nat -> 0 <= be_val l < 2 ^ 32.
Proof. intros Hb Hl. pose proof (be_val_bounds l Hb) as H. rewrite Hl in H. exact H. Qed.
Lemma u32_bytes c : child_wf c -> child_of_u32 (be_val (be_bytes 4 (u32_of_child c))) = c.
Proof. intros Hc. destruct (child_of_u32_of c Hc) as [E Hr]. rewrite be_val_be_bytes by exact Hr. exact E. Qed.

Lemma child_of_u32_wf n : 0 <= n < 2 ^ 32 -> child_wf (child_of_u32 n).
Proof. intros Hn. rewrite child_of_u32_spec by exact Hn. destruct (Z.ltb_spec n (2 ^ 31)); cbn [child_wf]; lia. Qed.

Lemma to_path_from_path p : path_wf p -> to_path (from_path p) = p /\ identifier_wf (from_path p).
Proof.
  destruct p as [depth cs]. intros (Hd & Hl & Hc). cbn [path_depth path_children] in *.
  destruct cs as [|c0 [|c1 [|c2 [|c3 [|]]]]]; try discriminate. apply Forall_cons in Hc as [H0 Hc]. apply Forall_cons in Hc as [H1 Hc].
  apply Forall_cons in Hc as [H2 Hc]. apply Forall_cons in Hc as [H3 _].
  unfold to_path, from_path, path_from_identifier, to_identifier, identifier_wf. cbn [identifier_bytes path_depth path_children map concat].
  set (b0 := be_bytes 4 (u32_of_child c0)). set (b1 := be_bytes 4 (u32_of_child c1)). set (b2 := be_bytes 4 (u32_of_child c2)).
  set (b3 := be_bytes 4 (u32_of_child c3)).
  assert (L0 : length b0 = 4%nat) by apply length_be_bytes. assert (L1 : length b1 = 4%nat) by apply length_be_bytes.
  assert (L2 : length b2 = 4%nat) by apply length_be_bytes. assert (L3 : length b3 = 4%nat) by apply length_be_bytes. split.
  - unfold path_new.
    assert (E0 : slice (depth :: b0 ++ b1 ++ b2 ++ b3 ++ []) 1 5 = b0) by (apply (take_app_length' b0); done).
    assert (E1 : slice (depth :: b0 ++ b1 ++ b2 ++ b3 ++ []) 5 9 = b1).
    { change (take 4 (drop 4 (b0 ++ b1 ++ b2 ++ b3 ++ [])) = b1). rewrite drop_app_length' by done. apply take_app_length'. done. }
    assert (E2 : slice (depth :: b0 ++ b1 ++ b2 ++ b3 ++ []) 9 13 = b2).
    { change (take 4 (drop (4 + 4) (b0 ++ b1 ++ b2 ++ b3 ++ [])) = b2). rewrite <- drop_drop, !drop_app_length' by done.
      apply take_app_length'. done. }
    assert (E3 : slice (depth :: b0 ++ b1 ++ b2 ++ b3 ++ []) 13 17 = b3).
    { change (take 4 (drop (4 + (4 + 4)) (b0 ++ b1 ++ b2 ++ b3 ++ [])) = b3). rewrite <- drop_drop, <- (drop_drop _ 4 4), !drop_app_length' by done.
      apply take_app_length'. done. }
    rewrite E0, E1, E2, E3. unfold b0, b1, b2, b3. rewrite !u32_bytes by done. done.
  - split; [|cbn [length]; rewrite !length_app; cbn [length]; unfold IDENTIFIER_SIZE; lia].
    apply Forall_cons. split; [exact Hd|]. fold are_bytes. rewrite !are_bytes_app. repeat split; try apply be_bytes_are_bytes. constructor.
Qed.

Lemma from_path_to_path id : identifier_wf id -> from_path (to_path id) = id /\ path_wf (to_path id).
Proof.
  destruct id as [b]. intros [Hb Hl]. cbn [identifier_bytes] in *. unfold IDENTIFIER_SIZE in Hl. destruct b as [|depth b]; [discriminate|].
  apply Forall_cons in Hb as [Hd Hb]. fold (are_bytes b) in Hb. injection Hl as Hl.
  assert (Hs : forall i, (i < 4)%nat -> are_bytes (take 4 (drop (4 * i) b)) /\ length (take 4 (drop (4 * i) b)) = 4%nat).
  { intros i Hi. split; [apply Forall_take, Forall_drop, Hb|]. rewrite length_take, length_drop. lia. }
  pose proof (Hs 0%nat ltac:(lia)) as [B0 L0]. pose proof (Hs 1%nat ltac:(lia)) as [B1 L1].
  pose proof (Hs 2%nat ltac:(lia)) as [B2 L2]. pose proof (Hs 3%nat ltac:(lia)) as [B3 L3].
  set (b0 := take 4 (drop (4 * 0) b)) in *. set (b1 := take 4 (drop (4 * 1) b)) in *. set (b2 := take 4 (drop (4 * 2) b)) in *.
  set (b3 := take 4 (drop (4 * 3) b)) in *.
  assert (E : to_path (mkIdentifier (depth :: b)) = path_new depth (be_val b0) (be_val b1) (be_val b2) (be_val b3)) by done.
  rewrite E. split.
  - unfold from_path, to_identifier, path_new. cbn [path_depth path_children map concat].
    rewrite !u32_of_child_of by (apply be_val_u32; done).
    assert (Ev : forall l, are_bytes l -> length l = 4%nat -> be_bytes 4 (be_val l) = l) by (intros l Bl <-; apply be_bytes_be_val, Bl).
    rewrite !Ev by done. f_equal. f_equal. rewrite app_nil_r.
    rewrite <- (take_drop 4 b) at 1. change (take 4 b) with b0. f_equal. rewrite <- (take_drop 4 (drop 4 b)) at 1. change (take 4 (drop 4 b)) with b1.
    f_equal. rewrite drop_drop. rewrite <- (take_drop 4 (drop (4 + 4) b)) at 1. f_equal. rewrite drop_drop. apply take_ge.
    rewrite length_drop. lia.
  - unfold path_new, path_wf. cbn [path_depth path_children length]. split; [exact Hd|]. split; [done|].
    rewrite !Forall_cons. repeat split; try (apply child_of_u32_wf, be_val_u32; done). apply Forall_nil. done.
Qed.

(** The parent of a path of more than four children panics. *)
Lemma parent_path_spec p : path_wf p ->
  parent_path (E := KeychainError) (from_path p) =
  if path_depth p =? 0 then Ok (from_path p)
  else if path_depth p <=? 4 then Ok (from_path (mkPath (path_depth p - 1) (<[Z.to_nat (path_depth p - 1) := Normal 0]> (path_children p))))
  else Panic.
Proof.
  intros Hp. unfold parent_path. change (path_from_identifier (from_path p)) with (to_path (from_path p)).
  rewrite (proj1 (to_path_from_path p Hp)). destruct Hp as (Hd & Hl & _). unfold is_byte in Hd.
  destruct (Z.eqb_spec (path_depth p) 0) as [->|Hne]; [done|]. rewrite (proj2 (Z.ltb_lt _ _)) by lia.
  destruct (Z.leb_spec (path_depth p) 4) as [H4|H4].
  - destruct (lookup_lt_is_Some_2 (path_children p) (Z.to_nat (path_depth p - 1))) as [c ->]; [lia|done].
  - rewrite lookup_ge_None_2 by lia. done.
Qed.

(** A path and its identifier determine each other, and an identifier survives its hexadecimal form and its form in a
    proof message.  The parent of a path drops its last child; the parent of a path with a depth above four panics. *)
Theorem identifiers_roundtrip :
  (forall p, path_wf p -> to_path (from_path p) = p /\ identifier_wf (from_path p)) /\
  (forall id, identifier_wf id -> from_path (to_path id) = id /\ identifier_from_hex (E := KeychainError) (identifier_to_hex id) = Ok id /\
     from_serialized_path (E := KeychainError) (path_depth (to_path id)) (serialize_path id) = Ok id) /\
  (forall p, path_wf p -> parent_path (E := KeychainError) (from_path p) =
     if path_depth p =? 0 then Ok (from_path p)
     else if path_depth p <=? 4 then Ok (from_path (mkPath (path_depth p - 1) (<[Z.to_nat (path_depth p - 1) := Normal 0]> (path_children p))))
     else Panic).
Proof.
  split; [apply to_path_from_path|]. split; [|apply parent_path_spec]. intros id Hid. split; [apply from_path_to_path, Hid|].
  destruct id as [b]. destruct Hid as [Hb Hl]. cbn [identifier_bytes] in *. split.
  - unfold identifier_from_hex, identifier_to_hex. cbn [identifier_bytes]. rewrite hex_roundtrip by exact Hb.
    unfold identifier_from_bytes. rewrite Hl, Nat.min_id, Nat.sub_diag, app_nil_r. rewrite <- Hl, firstn_all. done.
  - destruct b as [|d b]; [discriminate|]. injection Hl as Hl. unfold from_serialized_path, serialize_path, slice. cbn [identifier_bytes].
    change (drop 1 (d :: b)) with b. change (IDENTIFIER_SIZE - 1)%nat with 16%nat. rewrite take_ge by lia. rewrite Hl. cbn [Nat.ltb Nat.leb].
    rewrite take_ge by lia. done.
Qed.

(** ** Masks *)

Lemma mask_key_twice key mask : length (secret_bytes key) = length (secret_bytes mask) ->
  mask_key (mask_key key mask) mask = key.
Proof.
  destruct key as [k], mask as [m]. unfold mask_key. cbn [secret_bytes]. intros Hl. f_equal. revert m Hl.
  induction k as [|x k IH]; intros [|y m] Hl; try discriminate; [done|]. injection Hl as Hl. cbn [zip_with].
  rewrite IH by done. rewrite Z.lxor_assoc, Z.lxor_nilpotent, Z.lxor_0_r. done.
Qed.

(** ** What a blinding sum adds up to *)

Section Sums.
  Context {DG : Digest} {MC : Macs} `{SL : SecpLaws} {SV : SecpVerify} {SK : SecpKeys} {SW : SecpWallet}.
  Implicit Types kc : ExtKeychain.

Definition key_total (l : list SecretKey) : Z := foldr Z.add 0 (map (fun k => be_val (secret_bytes k)) l).
Lemma key_total_app l l' : key_total (l ++ l') = key_total l + key_total l'.
Proof. unfold key_total. rewrite map_app, foldr_app. induction (map _ l) as [|x m IH]; cbn [foldr]; [lia|rewrite IH; lia]. Qed.

Lemma secret_key_val b k : secret_key b = Some k -> be_val (secret_bytes k) =g= blind_val b.
Proof.
  unfold secret_key. case_bool_decide as E.
  - intros [= <-]. subst b. rewrite blind_zero_val, zero_key_bytes. unfold eqg. f_equal. apply le_val_all_zero, Forall_rev, Forall_replicate. done.
  - intros H. apply secret_key_from_slice_bytes in H. unfold blind_val. rewrite H. reflexivity.
Qed.
Definition blind_total (l : list BlindingFactor) : Z := foldr Z.add 0 (map blind_val l).
Lemma omap_secret_total l : Forall (fun b => is_Some (secret_key b)) l -> key_total (omap secret_key l) =g= blind_total l.
Proof.
  induction 1 as [|b l [k Ek] _ IH]; [reflexivity|]. cbn [omap list_omap]. rewrite Ek. unfold key_total, blind_total in *. cbn [map foldr].
  rewrite IH, (secret_key_val b k Ek). reflexivity.
Qed.
Lemma from_secret_key_val k : length (secret_bytes k) = SECRET_KEY_SIZE -> blind_val (from_secret_key k) = be_val (secret_bytes k).
Proof.
  intros Hl. unfold from_secret_key, blind_from_slice, blind_val. rewrite Hl, Nat.min_id, Nat.sub_diag, app_nil_r. cbn [blind_bytes].
  rewrite <- Hl, firstn_all. done.
Qed.

(** The commitments of the paths of a sum *)
Definition path_commits kc : list ValueExtKeychainPath -> list Commitment -> Prop :=
  Forall2 (fun k c => keychain_commit kc (path_value k) (from_path (ext_keychain_path k)) (switch k) = Ok c).
Definition value_total (l : list ValueExtKeychainPath) : Z := foldr Z.add 0 (map path_value l).

Lemma path_keys_spec kc ids commits : path_commits kc ids commits ->
  exists keys, path_keys kc ids = Ok keys /\ sum_points commits =g= value_total ids * value_point + key_total keys.
Proof.
  induction 1 as [|k c ids commits Hc _ (keys & E & IH)]; [exists []; split; [done|reflexivity]|]. cbn [path_keys].
  unfold keychain_commit in Hc. destruct (derive_key kc _ _ _) as [s|e|]; cbn [res_bind] in Hc; [|discriminate..].
  unfold ok_or in Hc. destruct (commit (path_value k) s) as [c'|] eqn:Ec; [|discriminate]. injection Hc as ->.
  rewrite E. cbn [res_bind]. exists (s :: keys). split; [done|]. rewrite sum_points_cons, IH.
  assert (Ep : point c =g= path_value k * value_point + be_val (secret_bytes s)) by (apply commit_sound, Ec).
  rewrite Ep. unfold value_total, key_total. cbn [map foldr]. glia.
Qed.

Lemma keychain_blind_sum_spec kc s blind pos neg :
  keychain_blind_sum kc s = Ok blind -> path_commits kc (positive_key_ids s) pos -> path_commits kc (negative_key_ids s) neg ->
  Forall (fun b => is_Some (secret_key b)) (positive_blinding_factors s) -> Forall (fun b => is_Some (secret_key b)) (negative_blinding_factors s) ->
  sum_points pos + blind_total (positive_blinding_factors s) - sum_points neg - blind_total (negative_blinding_factors s)
  =g= (value_total (positive_key_ids s) - value_total (negative_key_ids s)) * value_point + blind_val blind.
Proof.
  intros H Hp Hn Bp Bn. destruct (path_keys_spec kc _ _ Hp) as (pk & Ep & Sp). destruct (path_keys_spec kc _ _ Hn) as (nk & En & Sn).
  unfold keychain_blind_sum in H. rewrite Ep, En in H. cbn [res_bind] in H.
  pose proof (omap_secret_total _ Bp) as Tp. pose proof (omap_secret_total _ Bn) as Tn.
  set (kp := pk ++ omap secret_key (positive_blinding_factors s)) in *. set (kn := nk ++ omap secret_key (negative_blinding_factors s)) in *.
  assert (Hb : blind_val blind =g= key_total kp - key_total kn).
  { destruct ((length kp =? 0)%nat && (length kn =? 0)%nat) eqn:Ez.
    - injection H as <-. apply andb_prop in Ez as [Zp Zn]. apply Nat.eqb_eq, nil_length_inv in Zp. apply Nat.eqb_eq, nil_length_inv in Zn.
      rewrite Zp, Zn, blind_zero_val. reflexivity.
    - unfold ok_or in H. destruct (blind_sum kp kn) as [k|] eqn:Ek; cbn [res_bind] in H; [|discriminate]. injection H as <-.
      rewrite from_secret_key_val by (apply (blind_sum_valid _ _ _ Ek)). apply blind_sum_sound, Ek. }
  rewrite Hb. unfold kp, kn. rewrite !key_total_app, Sp, Sn, Tp, Tn. glia.
Qed.
End Sums.

(** The blinding sum of the keychain is what is left of the commitments when the values are taken out: if the paths that
    are added and subtracted have the commitments [pos] and [neg], the sum of [pos] less [neg], with the extra blinding
    factors, commits to the difference of the values with the blinding sum as its key. *)
Theorem blind_sums_commit {DG : Digest} {MC : Macs} `{SL : SecpLaws} {SV : SecpVerify} {SK : SecpKeys} {SW : SecpWallet} kc s blind pos neg :
  keychain_blind_sum kc s = Ok blind -> path_commits kc (positive_key_ids s) pos -> path_commits kc (negative_key_ids s) neg ->
  Forall (fun b => is_Some (secret_key b)) (positive_blinding_factors s) -> Forall (fun b => is_Some (secret_key b)) (negative_blinding_factors s) ->
  sum_points pos + blind_total (positive_blinding_factors s) - sum_points neg - blind_total (negative_blinding_factors s)
  =g= (value_total (positive_key_ids s) - value_total (negative_key_ids s)) * value_point + blind_val blind.
Proof. apply keychain_blind_sum_spec. Qed.
