(* ===== verification/RangeProofs.v ===== *)
(** * Range proofs of a wallet

    Models [core/src/libtx/proof.rs] and the errors of [core/src/libtx/error.rs]: a range proof carries the path of its key
    in a message that its owner can read back.

    Making, checking and rewinding a bulletproof are operations of the curve library. *)

From Stdlib Require Import ZArith Lia List Bool.
From stdpp Require Import base numbers list option gmap.
From S2P Require Import Prelude Bytes Ser Transaction TxBody Committed Verifier Base58 Mnemonic Hex ExtKey Keychain.

(** Error kinds of [libtx] *)
Inductive LibTxError :=
| LSecp
| LKeychain (e : KeychainError)
| LTransaction (e : TxError)
| LSignature
| LRangeProof
| LOther.

(** Bulletproofs with a message: made from an amount, a key, two nonces, extra data and a message; rewound with a nonce to
    the amount and the message.  BLAKE2b with a key. *)
Class SecpProofs := {
  bullet_proof : Z -> SecretKey -> SecretKey -> SecretKey -> option bytes -> option bytes -> RangeProof;
  rewind_bullet_proof : Commitment -> SecretKey -> option bytes -> RangeProof -> option (Z * bytes);
  blake2b_keyed : nat -> bytes -> bytes -> bytes
}.

(** Rewinding a proof with the nonce it was made with gives its amount and its message. *)
Class SecpProofsLaws `{SP : Secp} `{SF : SecpProofs} : Prop :=
  rewind_bullet_proof_spec amount key nonce private_nonce extra message c :
    commit amount key = Some c ->
    rewind_bullet_proof c nonce extra (bullet_proof amount key nonce private_nonce extra (Some message)) = Some (amount, message).

(** The trait [ProofBuild] *)
Class ProofBuild (B : Type) := {
  rewind_nonce : B -> Commitment -> res LibTxError SecretKey;
  private_nonce : B -> Commitment -> res LibTxError SecretKey;
  proof_message : B -> Identifier -> SwitchCommitmentType -> res LibTxError bytes;
  check_output : B -> Commitment -> Z -> bytes -> res LibTxError (option (Identifier * SwitchCommitmentType))
}.

Section Proofs.
  Context {DG : Digest} {MC : Macs} {SS : SecpSizes} {SP : Secp} {SV : SecpVerify} {SK : SecpKeys} {SW : SecpWallet} {SF : SecpProofs}.

(** [proof::create] *)
Definition proof_create {B} `{!ProofBuild B} (k : ExtKeychain) (b : B) (amount : Z) (key_id : Identifier) (s : SwitchCommitmentType)
    (extra_data : option bytes) : res LibTxError RangeProof :=
  let? c := map_err LKeychain (keychain_commit k amount key_id s) in
  let? skey := map_err LKeychain (derive_key k amount key_id s) in
  let? nonce := rewind_nonce b c in
  let? private := private_nonce b c in
  let? message := proof_message b key_id s in
  Ok (bullet_proof amount skey nonce private extra_data (Some message)).

(** [proof::verify] *)
Definition proof_verify (c : Commitment) (proof : RangeProof) : bool := verify_bullet_proof c proof.

(** [proof::rewind] *)
Definition proof_rewind {B} `{!ProofBuild B} (b : B) (c : Commitment) (extra_data : option bytes) (proof : RangeProof)
    : res LibTxError (option (Z * Identifier * SwitchCommitmentType)) :=
  let? nonce := map_err (fun _ => LRangeProof) (rewind_nonce b c) in
  match rewind_bullet_proof c nonce extra_data proof with
  | None => Ok None
  | Some (amount, message) =>
    let? check := map_err (fun _ => LRangeProof) (check_output b c amount message) in
    Ok (match check with Some (id, s) => Some (amount, id, s) | None => None end)
  end.

(** A nonce from a commitment and a hash *)
Definition nonce_of (c : Commitment) (hash : bytes) : res LibTxError SecretKey :=
  ok_or (secret_key_from_slice (blake2b_keyed 32 (commit_bytes c) hash)) LRangeProof.

(** ** The builder of a keychain *)

Record ProofBuilder := mkProofBuilder { builder_keychain : ExtKeychain; builder_rewind_hash : bytes; private_hash : bytes }.

(** [ProofBuilder::new] *)
Definition proof_builder_new (kc : ExtKeychain) : res LibTxError ProofBuilder :=
  match derive_key kc 0 root_key_id SwitchNone, public_root_key kc with
  | Ok private_root_key, Ok public_root_key =>
    Ok (mkProofBuilder kc (blake2b_keyed 32 [] (public_serialize public_root_key)) (blake2b_keyed 32 [] (secret_bytes private_root_key)))
  | _, _ => Panic
  end.

(** The switch and the identifier in a message of twenty bytes *)
Definition message_of (id : Identifier) (s : SwitchCommitmentType) : bytes :=
  [0; 0; u8_of_switch s] ++ take 17 (identifier_bytes id).
Definition read_message (msg : bytes) : res LibTxError (option (Identifier * SwitchCommitmentType)) :=
  if negb (length msg =? 20)%nat then Ok None
  else if negb (bool_decide (take 2 msg = [0; 0])) then Ok None
  else
    match switch_of_u8 (default 0 (msg !! 2%nat)) with
    | None => Ok None
    | Some s =>
      let depth := Z.min (default 0 (msg !! 3%nat)) 4 in
      let? id := from_serialized_path depth (drop 4 msg) in
      Ok (Some (id, s))
    end.

(** [ProofBuild for ProofBuilder] *)
#[export] Instance keychain_proof_build : ProofBuild ProofBuilder := {
  rewind_nonce b c := nonce_of c (builder_rewind_hash b);
  private_nonce b c := nonce_of c (private_hash b);
  proof_message _ id s := Ok (message_of id s);
  check_output b c amount message :=
    let? r := read_message message in
    match r with
    | None => Ok None
    | Some (id, s) =>
      let? commit_exp := map_err LKeychain (keychain_commit (builder_keychain b) amount id s) in
      Ok (if bool_decide (c = commit_exp) then Some (id, s) else None)
    end
}.

(** ** The legacy builder *)

Record LegacyProofBuilder := mkLegacyProofBuilder { legacy_keychain : ExtKeychain; root_hash : bytes }.

(** [LegacyProofBuilder::new] *)
Definition legacy_proof_builder_new (kc : ExtKeychain) : res LibTxError LegacyProofBuilder :=
  match derive_key kc 0 root_key_id SwitchRegular with
  | Ok key => Ok (mkLegacyProofBuilder kc (secret_bytes key))
  | _ => Panic
  end.

(** [ProofBuild for LegacyProofBuilder]: paths of depth three only *)
#[export] Instance legacy_proof_build : ProofBuild LegacyProofBuilder := {
  rewind_nonce b c := nonce_of c (root_hash b);
  private_nonce b c := nonce_of c (root_hash b);
  proof_message _ id _ := Ok ([0; 0; 0; 0] ++ take 16 (serialize_path id));
  check_output b c amount message :=
    if negb (length message =? 20)%nat then Ok None
    else
      let? id := from_serialized_path 3 (drop 4 message) in
      if negb (bool_decide (take 4 message = [0; 0; 0; 0])) then Ok None
      else
        let? commit_exp := map_err LKeychain (keychain_commit (legacy_keychain b) amount id SwitchRegular) in
        Ok (if bool_decide (c = commit_exp) then Some (id, SwitchRegular) else None)
}.

(** ** View keys *)

(** [for i in self.depth..path.depth]: [Ok None] at a hardened child *)
Fixpoint view_derive (path : ExtKeychainPath) (i n : nat) (key : ViewKey) : vm BIP32GrinHasher KeychainError (option ViewKey) :=
  match n with
  | O => vret (Some key)
  | S n =>
    match path_children path !! i with
    | None => vlift Panic
    | Some child => if is_hardened child then vret None else let@ key := view_ckd_pub key child in view_derive path (S i) n key
    end
  end.

(** [check_output] of [ProofBuild for ViewKey]; two public keys are compared by their bytes *)
Definition view_check_output (v : ViewKey) (c : Commitment) (amount : Z) (message : bytes)
    : res LibTxError (option (Identifier * SwitchCommitmentType)) :=
  let? r := read_message message in
  match r with
  | None => Ok None
  | Some (id, s) =>
    let path := to_path id in
    if path_depth path <? view_depth v then Ok None
    else
      let? other :=
        if (0 <? view_depth v) && (0 <? path_depth path) then
          match path_children path !! Z.to_nat (view_depth v - 1) with
          | Some child => Ok (negb (bool_decide (view_child_number v = child)))
          | None => Panic
          end
        else Ok false in
      if other then Ok None
      else
        let? key :=
          map_err LKeychain (view_derive path (Z.to_nat (view_depth v)) (Z.to_nat (path_depth path - view_depth v)) v (hasher_new (view_is_floo v))).1 in
        match key with
        | None => Ok None
        | Some key =>
          let? pub_key := map_err LKeychain (view_commit key amount s) in
          let? commit_key := ok_or (to_pubkey c) LSecp in
          Ok (if bool_decide (public_serialize commit_key = public_serialize pub_key) then Some (id, s) else None)
        end
  end.

(** [ProofBuild for ViewKey]: it makes no proofs *)
#[export] Instance view_proof_build : ProofBuild ViewKey := {
  rewind_nonce v c := nonce_of c (rewind_hash v);
  private_nonce _ _ := Panic;
  proof_message _ _ _ := Panic;
  check_output := view_check_output
}.
End Proofs.

(** ** What the owner reads back *)

Section Recovery.
  Context {DG : Digest} {MC : Macs} {SS : SecpSizes} {SV : SecpVerify} `{SFL : SecpProofsLaws} {SK : SecpKeys} {SW : SecpWallet}.

Lemma switch_u8 s : switch_of_u8 (u8_of_switch s) = Some s.
Proof. destruct s; done. Qed.

(** The bytes after the depth of an identifier *)
Lemma identifier_parts id : identifier_wf id ->
  identifier_bytes id = path_depth (to_path id) :: serialize_path id /\ length (serialize_path id) = 16%nat.
Proof.
  destruct id as [b]. intros [_ Hl]. cbn [identifier_bytes] in *. destruct b as [|d b]; [discriminate|]. injection Hl as Hl.
  unfold serialize_path, slice. cbn [identifier_bytes]. change (drop 1 (d :: b)) with b. change (IDENTIFIER_SIZE - 1)%nat with 16%nat.
  rewrite take_ge by lia. done.
Qed.
Lemma from_parts {E} id : identifier_wf id -> from_serialized_path (E := E) (path_depth (to_path id)) (serialize_path id) = Ok id.
Proof.
  intros Hid. destruct (identifier_parts id Hid) as [E1 L]. unfold from_serialized_path. rewrite L. cbn [Nat.ltb Nat.leb IDENTIFIER_SIZE Nat.sub].
  rewrite take_ge by lia. rewrite <- E1. destruct id; done.
Qed.

Lemma read_message_of id s : identifier_wf id -> path_depth (to_path id) <= 4 -> read_message (message_of id s) = Ok (Some (id, s)).
Proof.
  intros Hid Hd. destruct (identifier_parts id Hid) as [E1 L]. unfold message_of. rewrite E1. rewrite take_ge by (cbn [length]; lia).
  unfold read_message. cbn [app length]. rewrite L. cbn [Nat.eqb negb].
  change (take 2 (0 :: 0 :: u8_of_switch s :: path_depth (to_path id) :: serialize_path id)) with [0; 0]. rewrite bool_decide_eq_true_2 by done. cbn [negb].
  change ((0 :: 0 :: u8_of_switch s :: path_depth (to_path id) :: serialize_path id) !! 2%nat) with (Some (u8_of_switch s)).
  change ((0 :: 0 :: u8_of_switch s :: path_depth (to_path id) :: serialize_path id) !! 3%nat) with (Some (path_depth (to_path id))).
  change (drop 4 (0 :: 0 :: u8_of_switch s :: path_depth (to_path id) :: serialize_path id)) with (serialize_path id).
  cbn [default from_option]. change (Datatypes.id (u8_of_switch s)) with (u8_of_switch s).
  change (Datatypes.id (path_depth (to_path id))) with (path_depth (to_path id)).
  rewrite switch_u8, Z.min_l, from_parts by done. done.
Qed.

(** What [create] made, with its commitment and its key *)
Lemma proof_create_ok {B} `{!ProofBuild B} kc (b : B) amount id s extra proof :
  proof_create kc b amount id s extra = Ok proof ->
  exists c key nonce private message, keychain_commit kc amount id s = Ok c /\ commit amount key = Some c /\
    rewind_nonce b c = Ok nonce /\ private_nonce b c = Ok private /\ proof_message b id s = Ok message /\
    proof = bullet_proof amount key nonce private extra (Some message).
Proof.
  unfold proof_create. intros H. destruct (keychain_commit kc amount id s) as [c|e|] eqn:Ec; cbn [map_err res_bind] in H; [|discriminate..].
  pose proof Ec as Ek. unfold keychain_commit in Ek. destruct (derive_key kc amount id s) as [key|e|] eqn:Ed; cbn [map_err res_bind] in H, Ek; [|discriminate..].
  unfold ok_or in Ek. destruct (commit amount key) as [c'|] eqn:Ecm; [|discriminate]. injection Ek as ->.
  destruct (rewind_nonce b c) as [nonce|e|] eqn:En; cbn [res_bind] in H; [|discriminate..].
  destruct (private_nonce b c) as [private|e|] eqn:Ep; cbn [res_bind] in H; [|discriminate..].
  destruct (proof_message b id s) as [message|e|] eqn:Em; cbn [res_bind] in H; [|discriminate..]. injection H as <-.
  exists c, key, nonce, private, message. done.
Qed.

Lemma keychain_recovers b amount id s extra proof : identifier_wf id -> path_depth (to_path id) <= 4 ->
  proof_create (builder_keychain b) b amount id s extra = Ok proof ->
  exists c, keychain_commit (builder_keychain b) amount id s = Ok c /\ proof_rewind b c extra proof = Ok (Some (amount, id, s)).
Proof.
  intros Hid Hd H. apply proof_create_ok in H as (c & key & nonce & private & message & Ec & Ek & En & _ & Em & ->).
  exists c. split; [exact Ec|]. unfold proof_rewind. rewrite En. cbn [map_err res_bind]. rewrite (rewind_bullet_proof_spec _ _ _ _ _ _ _ Ek).
  injection Em as <-. cbn [check_output keychain_proof_build]. rewrite read_message_of by done. cbn [res_bind]. rewrite Ec.
  cbn [map_err res_bind]. rewrite bool_decide_eq_true_2 by done. done.
Qed.
Lemma keychain_claims b c extra proof amount id s :
  proof_rewind b c extra proof = Ok (Some (amount, id, s)) -> keychain_commit (builder_keychain b) amount id s = Ok c.
Proof.
  unfold proof_rewind. intros H. destruct (rewind_nonce b c) as [nonce|e|]; cbn [map_err res_bind] in H; [|discriminate..].
  destruct (rewind_bullet_proof c nonce extra proof) as [[a message]|]; [|discriminate]. cbn [check_output keychain_proof_build] in H.
  destruct (read_message message) as [[[id' s']|]|e|]; cbn [map_err res_bind] in H; [|discriminate..].
  destruct (keychain_commit (builder_keychain b) a id' s') as [c'|e|] eqn:Ec; cbn [map_err res_bind] in H; [|discriminate..].
  case_bool_decide as E; [|discriminate]. injection H as -> -> ->. subst c'. exact Ec.
Qed.
Lemma legacy_recovers b amount id extra proof : identifier_wf id -> path_depth (to_path id) = 3 ->
  proof_create (legacy_keychain b) b amount id SwitchRegular extra = Ok proof ->
  exists c, keychain_commit (legacy_keychain b) amount id SwitchRegular = Ok c /\
    proof_rewind b c extra proof = Ok (Some (amount, id, SwitchRegular)).
Proof.
  intros Hid Hd H. apply proof_create_ok in H as (c & key & nonce & private & message & Ec & Ek & En & _ & Em & ->).
  exists c. split; [exact Ec|]. unfold proof_rewind. rewrite En. cbn [map_err res_bind]. rewrite (rewind_bullet_proof_spec _ _ _ _ _ _ _ Ek).
  destruct (identifier_parts id Hid) as [_ L]. cbn [proof_message legacy_proof_build] in Em. rewrite take_ge in Em by lia. injection Em as <-.
  cbn [check_output legacy_proof_build]. cbn [app length]. rewrite L. cbn [Nat.eqb negb].
  change (drop 4 (0 :: 0 :: 0 :: 0 :: serialize_path id)) with (serialize_path id). rewrite <- Hd, from_parts by done. cbn [res_bind].
  change (take 4 (0 :: 0 :: 0 :: 0 :: serialize_path id)) with [0; 0; 0; 0]. rewrite bool_decide_eq_true_2 by done. cbn [negb].
  rewrite Ec. cbn [map_err res_bind]. rewrite bool_decide_eq_true_2 by done. done.
Qed.
End Recovery.

(** C24: The owner of an output reads its amount, its path and its switch back from the range proof that [create] made, when
    the path has at most four children; with the legacy builder, when it has three and the switch is the regular one.  And a
    keychain claims an output only when it commits to the amount that it reads. *)
Theorem outputs_are_recovered {DG : Digest} {MC : Macs} {SS : SecpSizes} {SV : SecpVerify} `{SFL : SecpProofsLaws} {SK : SecpKeys} {SW : SecpWallet} :
  (forall b amount id s extra proof, identifier_wf id -> path_depth (to_path id) <= 4 ->
     proof_create (builder_keychain b) b amount id s extra = Ok proof ->
     exists c, keychain_commit (builder_keychain b) amount id s = Ok c /\ proof_rewind b c extra proof = Ok (Some (amount, id, s))) /\
  (forall b amount id extra proof, identifier_wf id -> path_depth (to_path id) = 3 ->
     proof_create (legacy_keychain b) b amount id SwitchRegular extra = Ok proof ->
     exists c, keychain_commit (legacy_keychain b) amount id SwitchRegular = Ok c /\ proof_rewind b c extra proof = Ok (Some (amount, id, SwitchRegular))) /\
  (forall b c extra proof amount id s, proof_rewind b c extra proof = Ok (Some (amount, id, s)) ->
     keychain_commit (builder_keychain b) amount id s = Ok c).
Proof. split; [apply keychain_recovers|]. split; [apply legacy_recovers|apply keychain_claims]. Qed.
