(* ===== verification/TxBuild.v ===== *)
(** * Building transactions

    Models [core/src/libtx/build.rs], [aggsig.rs], [reward.rs] and [mod.rs]: how a wallet puts a transaction together and
    signs it, and the output and kernel of a block reward.

    The combinators work on a transaction and two sums of keys, for coins and for tokens.  The random key of the split and
    the random nonces of signatures are arguments. *)

From Stdlib Require Import ZArith Lia List Bool.
From stdpp Require Import base numbers list option gmap.
From S2P Require Import Prelude Bytes Consensus Ser Transaction TxBody Committed Verifier Base58 Mnemonic Hex ExtKey Keychain RangeProofs.

(** ** Aggregated signatures *)

(** [aggsig::sign_single]: message, key, nonce, extra key, public nonce, public key in the challenge, sum of nonces;
    [aggsig::verify_single]: signature, message, public nonce, public key, sum of public keys, extra public key, partial;
    [aggsig::add_signatures_single]; [Signature::from_raw_data] *)
Class SecpAggsig `{SV : SecpVerify} := {
  aggsig_sign : Message -> SecretKey -> option SecretKey -> option SecretKey -> option PublicKey -> option PublicKey ->
    option PublicKey -> option Signature;
  aggsig_verify : Signature -> Message -> option PublicKey -> PublicKey -> option PublicKey -> option PublicKey -> bool -> bool;
  aggsig_add : list Signature -> PublicKey -> option Signature;
  signature_from_raw_data : bytes -> option Signature
}.

Section Aggsig.
  Context {DG : Digest} {MC : Macs} {SS : SecpSizes} {SP : Secp} {SV : SecpVerify} {SK : SecpKeys} {SW : SecpWallet} {SA : SecpAggsig}.

(** [calculate_partial_sig], [verify_partial_sig] *)
Definition calculate_partial_sig (sec_key sec_nonce : SecretKey) (nonce_sum : PublicKey) (pubkey_sum : option PublicKey) (msg : Message)
    : res LibTxError Signature :=
  ok_or (aggsig_sign msg sec_key (Some sec_nonce) None (Some nonce_sum) pubkey_sum (Some nonce_sum)) LSecp.
Definition verify_partial_sig (sig : Signature) (pub_nonce_sum pubkey : PublicKey) (pubkey_sum : option PublicKey) (msg : Message)
    : res LibTxError unit :=
  if aggsig_verify sig msg (Some pub_nonce_sum) pubkey pubkey_sum None true then Ok tt else Err LSignature.

(** [sign_from_key_id] *)
Definition sign_from_key_id (k : ExtKeychain) (msg : Message) (value : Z) (key_id : Identifier) (s_nonce : option SecretKey)
    (blind_sum : option PublicKey) : res LibTxError Signature :=
  let? skey := map_err LKeychain (derive_key k value key_id SwitchRegular) in
  ok_or (aggsig_sign msg skey s_nonce None None blind_sum None) LSecp.

(** [verify_single_from_commit], [verify_completed_sig] *)
Definition verify_single_from_commit (sig : Signature) (msg : Message) (c : Commitment) : res LibTxError unit :=
  let? pubkey := ok_or (to_pubkey c) LSecp in
  if aggsig_verify sig msg None pubkey (Some pubkey) None false then Ok tt else Err LSignature.
Definition verify_completed_sig (sig : Signature) (pubkey : PublicKey) (pubkey_sum : option PublicKey) (msg : Message)
    : res LibTxError unit :=
  if aggsig_verify sig msg None pubkey pubkey_sum None true then Ok tt else Err LSignature.

(** [add_signatures], [sign_single] *)
Definition add_signatures (part_sigs : list Signature) (nonce_sum : PublicKey) : res LibTxError Signature :=
  ok_or (aggsig_add part_sigs nonce_sum) LSecp.
Definition aggsig_sign_single (msg : Message) (skey : SecretKey) (snonce : option SecretKey) (pubkey_sum : option PublicKey)
    : res LibTxError Signature := ok_or (aggsig_sign msg skey snonce None None pubkey_sum None) LSecp.

(** [aggsig::sign_with_blinding] *)
Definition aggsig_sign_with_blinding (msg : Message) (blinding : BlindingFactor) (pubkey_sum : option PublicKey)
    : res LibTxError Signature :=
  let? skey := ok_or (secret_key blinding) (LKeychain KSecp) in
  ok_or (aggsig_sign msg skey None None None pubkey_sum None) LSecp.
End Aggsig.

(** ** Fees *)

Definition DEFAULT_BASE_FEE : Z := MILLI_GRIN.
(** [tx_fee] *)
Definition tx_fee (input_len output_len kernel_len token_input_len token_output_len token_kernel_len : Z) (base_fee : option Z) : Z :=
  (weight input_len output_len kernel_len token_input_len token_output_len token_kernel_len * default DEFAULT_BASE_FEE base_fee)%u64.

(** ** Transactions *)

Section Build.
  Context {DG : Digest} {MC : Macs} {SS : SecpSizes} {SP : Secp} {SV : SecpVerify} {SK : SecpKeys} {SW : SecpWallet} {SF : SecpProofs}
    {SA : SecpAggsig} {B : Type} `{!ProofBuild B} (keychain : ExtKeychain) (builder : B).

(** [Transaction::empty], [with_input] and its siblings, [replace_kernel], [replace_token_kernel] *)
Definition tx_empty : Transaction := mkTx blind_zero empty_body.
Definition tx_with_input (tx : Transaction) (input : Input) : Transaction := mkTx (offset tx) (with_input (body tx) input).
Definition tx_with_output (tx : Transaction) (output : Output) : Transaction := mkTx (offset tx) (with_output (body tx) output).
Definition tx_with_token_input (tx : Transaction) (input : TokenInput) : Transaction := mkTx (offset tx) (with_token_input (body tx) input).
Definition tx_with_token_output (tx : Transaction) (output : TokenOutput) : Transaction :=
  mkTx (offset tx) (with_token_output (body tx) output).
Definition tx_replace_kernel (tx : Transaction) (kernel : TxKernel) : Transaction := mkTx (offset tx) (replace_kernel (body tx) kernel).
Definition tx_replace_token_kernel (tx : Transaction) (kernel : TokenTxKernel) : Transaction :=
  mkTx (offset tx) (replace_token_kernel (body tx) kernel).

(** [TxKernel::with_features], [TokenTxKernel::with_features]: the excess and the signature are zeroes *)
Definition kernel_with_features (f : KernelFeatures) : res LibTxError TxKernel :=
  match signature_from_raw_data (replicate 64 0) with
  | Some sig => Ok (mkTxKernel f (commitment_from_vec (replicate 33 0)) sig)
  | None => Panic
  end.
Definition token_kernel_with_features (f : TokenKernelFeatures) : res LibTxError TokenTxKernel :=
  match signature_from_raw_data (replicate 64 0) with
  | Some sig => Ok (mkTokenTxKernel f new_zero_key (commitment_from_vec (replicate 33 0)) sig)
  | None => Panic
  end.

(** [Append]: what a combinator does to the transaction and the sums so far *)
#[local] Abbreviation Acc := (res LibTxError (Transaction * BlindSum * BlindSum)).
Definition Append : Type := Acc -> Acc.

(** [build_input]: an error so far is passed on *)
Definition build_input (value : Z) (features : OutputFeatures) (key_id : Identifier) : Append := fun acc =>
  let? '(tx, sum, token_sum) := acc in
  let? c := map_err LKeychain (keychain_commit keychain value key_id SwitchRegular) in
  Ok (tx_with_input tx (mkInput features c), sub_key_id sum (to_value_path key_id value), token_sum).

(** [build_token_input] *)
Definition build_token_input (value : Z) (token_type : TokenKey) (is_issue_token : bool) (key_id : Identifier) : Append := fun acc =>
  let? '(tx, sum, token_sum) := acc in
  let? c := map_err LKeychain (keychain_commit keychain value key_id SwitchRegular) in
  let features := if is_issue_token then OTokenIssue else OToken in
  Ok (tx_with_token_input tx (mkTokenInput features token_type c), sum, sub_key_id token_sum (to_value_path key_id value)).

(** [input], [token_input], [coinbase_input] *)
Definition build_plain_input (value : Z) (key_id : Identifier) : Append := build_input value OPlain key_id.
Definition token_input (value : Z) (token_type : TokenKey) (is_issue_token : bool) (key_id : Identifier) : Append :=
  build_token_input value token_type is_issue_token key_id.
Definition coinbase_input (value : Z) (key_id : Identifier) : Append := build_input value OCoinbase key_id.

(** [output], [token_output] *)
Definition build_output (value : Z) (key_id : Identifier) : Append := fun acc =>
  let? '(tx, sum, token_sum) := acc in
  let? c := map_err LKeychain (keychain_commit keychain value key_id SwitchRegular) in
  let? rproof := proof_create keychain builder value key_id SwitchRegular None in
  Ok (tx_with_output tx (mkOutput OPlain c rproof), add_key_id sum (to_value_path key_id value), token_sum).
Definition build_token_output (value : Z) (token_type : TokenKey) (is_token_issue : bool) (key_id : Identifier) : Append := fun acc =>
  let? '(tx, sum, token_sum) := acc in
  let? c := map_err LKeychain (keychain_commit keychain value key_id SwitchRegular) in
  let? rproof := proof_create keychain builder value key_id SwitchRegular None in
  Ok (tx_with_token_output tx (mkTokenOutput (if is_token_issue then OTokenIssue else OToken) token_type c rproof), sum,
      add_key_id token_sum (to_value_path key_id value)).

(** [with_excess], [initial_tx] *)
Definition with_excess (excess : BlindingFactor) : Append := fun acc =>
  let? '(tx, sum, token_sum) := acc in Ok (tx, add_blinding_factor sum excess, token_sum).
Definition initial_tx (tx : Transaction) : Append := fun acc =>
  let? '(_, sum, token_sum) := acc in Ok (tx, sum, token_sum).

(** [elems.iter().fold(Ok((tx, BlindSum::new(), BlindSum::new())), ..)] *)
Definition run_elems (tx : Transaction) (elems : list Append) : Acc :=
  foldl (fun acc elem => elem acc) (Ok (tx, blind_sum_new, blind_sum_new)) elems.

(** [partial_transaction] *)
Definition partial_transaction (tx : Transaction) (elems : list Append) : res LibTxError (Transaction * BlindingFactor * BlindingFactor) :=
  let? '(tx, sum, token_sum) := run_elems tx elems in
  let? blind := map_err LKeychain (keychain_blind_sum keychain sum) in
  let? token_blind := map_err LKeychain (keychain_blind_sum keychain token_sum) in
  Ok (tx, blind, token_blind).

(** The token kernel of [transaction] *)
Definition token_kernel_of (tx : Transaction) (f : TokenKernelFeatures) (token_sum : BlindSum) : res LibTxError TokenTxKernel :=
  let? kern := token_kernel_with_features f in
  match token_outputs (body tx) with
  | [] => Panic
  | o :: _ =>
    let kern := mkTokenTxKernel f (output_token_type o) (token_excess kern) (token_excess_sig kern) in
    let? token_blind := map_err LKeychain (keychain_blind_sum keychain token_sum) in
    let? msg := map_err LTransaction (token_msg_to_sign kern) in
    let? token_key := ok_or (secret_key token_blind) (LKeychain KSecp) in
    let? ex := ok_or (commit 0 token_key) LSecp in
    let? pubkey := ok_or (to_pubkey ex) LSecp in
    match aggsig_sign_with_blinding msg token_blind (Some pubkey) with
    | Ok sig => Ok (mkTokenTxKernel f (output_token_type o) ex sig)
    | _ => Panic
    end
  end.

(** [transaction]; [skey_1] is the random key of the split *)
Definition transaction (skey_1 : SecretKey) (f : KernelFeatures) (token_f : option TokenKernelFeatures) (elems : list Append)
    : res LibTxError Transaction :=
  let? '(tx, sum, token_sum) := run_elems tx_empty elems in
  let? blind := map_err LKeychain (keychain_blind_sum keychain sum) in
  let? '(k1, k2) := ok_or (blind_split skey_1 blind) (LKeychain KSecp) in
  let? kern := kernel_with_features f in
  let? msg := map_err LTransaction (msg_to_sign kern) in
  let? skey := ok_or (secret_key k1) (LKeychain KSecp) in
  let? ex := ok_or (commit 0 skey) LSecp in
  let? pubkey := ok_or (to_pubkey ex) LSecp in
  let? sig := aggsig_sign_with_blinding msg k1 (Some pubkey) in
  let kern := mkTxKernel f ex sig in
  let tx := tx_replace_kernel (mkTx k2 (body tx)) kern in
  match token_f with
  | None => Ok tx
  | Some token_f =>
    let? token_kern := token_kernel_of tx token_f token_sum in
    Ok (tx_replace_token_kernel tx token_kern)
  end.

(** ** The reward of a block *)

(** [reward::output]; in test mode the nonce of the signature is fixed *)
Definition reward_output (ct : ChainTypes) (key_id : Identifier) (height fees : Z) (test_mode : bool) : res LibTxError (Output * TxKernel) :=
  let value := reward ct height fees in
  let? c := map_err LKeychain (keychain_commit keychain value key_id SwitchRegular) in
  let? rproof := proof_create keychain builder value key_id SwitchRegular None in
  let output := mkOutput OCoinbase c rproof in
  let? over_commit := ok_or (commit_value value) LSecp in
  let? excess := ok_or (commit_sum [output_commit output] [over_commit]) LSecp in
  let? pubkey := ok_or (to_pubkey excess) LSecp in
  let? msg := map_err LTransaction (kernel_sig_msg KCoinbase) in
  let? nonce := if test_mode then let? n := ok_or (secret_key_from_slice (replicate 32 1)) LSecp in Ok (Some n) else Ok None in
  let? sig := sign_from_key_id keychain msg value key_id nonce (Some pubkey) in
  Ok (output, mkTxKernel KCoinbase excess sig).
End Build.
