(* ===== verification/BuildTheorems.v ===== *)
(** * What a built transaction is

    Theorems on [TxBuild]: the inputs and outputs that the combinators of [core/src/libtx/build.rs] put into a transaction,
    the keys that they sum up, and the kernels that [build::transaction] signs. *)

From Stdlib Require Import ZArith Lia List Bool Permutation.
From stdpp Require Import base numbers list option gmap.
From S2P Require Import Prelude Bytes Consensus Ser Transaction TxBody Committed Verifier Base58 Mnemonic Hex ExtKey Keychain RangeProofs TxBuild Block.

(** A signature verifies with the public key of a commitment to zero under the key that signs. *)
Class SecpAggsigLaws `{SL : SecpLaws} `{SA : SecpAggsig} : Prop :=
  aggsig_sign_verifies msg k nonce c p sig :
    point c =g= be_val (secret_bytes k) -> to_pubkey c = Some p -> aggsig_sign msg k nonce None None (Some p) None = Some sig ->
    verify_single sig msg p = true.

(** ** Elements of a transaction *)

Inductive Element :=
| PlainInput (value : Z) (key_id : Identifier)
| CoinbaseInput (value : Z) (key_id : Identifier)
| PlainOutput (value : Z) (key_id : Identifier)
| TokenInputOf (value : Z) (token_type : TokenKey) (is_issue : bool) (key_id : Identifier)
| TokenOutputOf (value : Z) (token_type : TokenKey) (is_issue : bool) (key_id : Identifier).

Definition element_id (e : Element) : Identifier :=
  match e with
  | PlainInput _ id | CoinbaseInput _ id | PlainOutput _ id | TokenInputOf _ _ _ id | TokenOutputOf _ _ _ id => id
  end.
(** The values of the coin inputs, coin outputs, token inputs and token outputs among them *)
Definition coin_in (l : list Element) : list Z :=
  omap (fun e => match e with PlainInput v _ | CoinbaseInput v _ => Some v | _ => None end) l.
Definition coin_out (l : list Element) : list Z := omap (fun e => match e with PlainOutput v _ => Some v | _ => None end) l.
Definition token_in (l : list Element) : list Z := omap (fun e => match e with TokenInputOf v _ _ _ => Some v | _ => None end) l.
Definition token_out (l : list Element) : list Z := omap (fun e => match e with TokenOutputOf v _ _ _ => Some v | _ => None end) l.
Definition total_of (l : list Z) : Z := foldr Z.add 0 l.

Lemma total_of_app l l' : total_of (l ++ l') = total_of l + total_of l'.
Proof. unfold total_of. rewrite foldr_app. induction l as [|x l IH]; cbn [foldr]; lia. Qed.

(** Inserting keeps an element out only when its hash is there. *)
Lemma insert_sorted_cases {DG : Digest} {A} `{!Writeable A} (x : A) l : insert_sorted x l = l \/ insert_sorted x l ≡ₚ x :: l.
Proof.
  unfold insert_sorted. destruct (binary_search_by _ l) as [i|i]; [left; done|right].
  rewrite <- Permutation_middle, take_drop. done.
Qed.

(** Some list against the list of all that was put into it: the same up to order, unless something was kept out *)
Definition collects {A} (l all : list A) : Prop := (length l <= length all)%nat /\ (length l = length all -> l ≡ₚ all).
Lemma collects_nil {A} : collects (A := A) [] [].
Proof. done. Qed.
Lemma collects_insert {DG : Digest} {A B} `{!Writeable A} (f : A -> B) (x : A) l all :
  collects (map f l) all -> collects (map f (insert_sorted x l)) (all ++ [f x]).
Proof.
  unfold collects. rewrite !length_app, !length_map. cbn [length]. intros [Hl Hp].
  destruct (insert_sorted_cases x l) as [->|HP]; [split; [lia|]; intros Hn; lia|].
  rewrite (Permutation_length HP). cbn [length]. split; [lia|]. intros Hn. rewrite HP. cbn [map]. rewrite Hp by lia.
  apply Permutation_cons_append.
Qed.

Section Built.
  Context {DG : Digest} {MC : Macs} `{SL : SecpLaws} {SV : SecpVerify} {SK : SecpKeys} {SW : SecpWallet} {SF : SecpProofs}
    {SA : SecpAggsig} {B : Type} `{!ProofBuild B} (kc : ExtKeychain) (builder : B).

Definition append_of (e : Element) : Append :=
  match e with
  | PlainInput v id => build_plain_input kc v id
  | CoinbaseInput v id => coinbase_input kc v id
  | PlainOutput v id => build_output kc builder v id
  | TokenInputOf v t i id => token_input kc v t i id
  | TokenOutputOf v t i id => build_token_output kc builder v t i id
  end.

(** A sum of keys has the paths of [outs] and [ins], for the values [vo] and [vi], and nothing else. *)
Record sums_up (s : BlindSum) (outs ins : list Commitment) (vo vi : list Z) : Prop := {
  sums_outs : path_commits kc (positive_key_ids s) outs;
  sums_ins : path_commits kc (negative_key_ids s) ins;
  sums_vo : map path_value (positive_key_ids s) = vo;
  sums_vi : map path_value (negative_key_ids s) = vi;
  sums_bare : positive_blinding_factors s = [] /\ negative_blinding_factors s = []
}.

Lemma sums_up_new : sums_up blind_sum_new [] [] [] [].
Proof. split; try done; constructor. Qed.

Lemma path_commit id value c : identifier_wf id -> keychain_commit kc value id SwitchRegular = Ok c ->
  let k := to_value_path id value in keychain_commit kc (path_value k) (from_path (ext_keychain_path k)) (switch k) = Ok c.
Proof. intros Hid Hc. cbn [to_value_path path_value ext_keychain_path switch]. rewrite (proj1 (from_path_to_path id Hid)). exact Hc. Qed.

Lemma sums_up_add s outs ins vo vi id value c : identifier_wf id -> keychain_commit kc value id SwitchRegular = Ok c ->
  sums_up s outs ins vo vi -> sums_up (add_key_id s (to_value_path id value)) (outs ++ [c]) ins (vo ++ [value]) vi.
Proof.
  intros Hid Hc [Ho Hi Vo Vi Hb]. split; cbn [positive_key_ids negative_key_ids add_key_id]; try done.
  - apply Forall2_app; [exact Ho|]. constructor; [apply path_commit; done|constructor].
  - rewrite map_app, Vo. done.
Qed.
Lemma sums_up_sub s outs ins vo vi id value c : identifier_wf id -> keychain_commit kc value id SwitchRegular = Ok c ->
  sums_up s outs ins vo vi -> sums_up (sub_key_id s (to_value_path id value)) outs (ins ++ [c]) vo (vi ++ [value]).
Proof.
  intros Hid Hc [Ho Hi Vo Vi Hb]. split; cbn [positive_key_ids negative_key_ids sub_key_id]; try done.
  - apply Forall2_app; [exact Hi|]. constructor; [apply path_commit; done|constructor].
  - rewrite map_app, Vi. done.
Qed.

(** What the combinators have collected after the elements [l] *)
Record collected (l : list Element) (tx : Transaction) (s ts : BlindSum) (outs ins touts tins : list Commitment) : Prop := {
  col_outs : collects (map output_commit (outputs (body tx))) outs;
  col_ins : collects (map input_commit (inputs (body tx))) ins;
  col_touts : collects (map token_output_commit (token_outputs (body tx))) touts;
  col_tins : collects (map token_input_commit (token_inputs (body tx))) tins;
  col_coin : sums_up s outs ins (coin_out l) (coin_in l);
  col_token : sums_up ts touts tins (token_out l) (token_in l);
  col_kernels : kernels (body tx) = [] /\ token_kernels (body tx) = []
}.

Lemma collected_empty : collected [] tx_empty blind_sum_new blind_sum_new [] [] [] [].
Proof. split; try apply collects_nil; try apply sums_up_new. done. Qed.

#[local] Ltac step_parts Hvals :=
  split; cbn [tx_with_input tx_with_output tx_with_token_input tx_with_token_output body with_input with_output with_token_input
    with_token_output outputs inputs token_outputs token_inputs kernels token_kernels]; try done;
  unfold coin_out, coin_in, token_out, token_in; rewrite ?Hvals; cbn [omap list_omap]; rewrite ?app_nil_r; try done.

Lemma collected_step l tx s ts outs ins touts tins e tx' s' ts' :
  identifier_wf (element_id e) -> collected l tx s ts outs ins touts tins -> append_of e (Ok (tx, s, ts)) = Ok (tx', s', ts') ->
  exists outs' ins' touts' tins', collected (l ++ [e]) tx' s' ts' outs' ins' touts' tins'.
Proof.
  intros Hid [Co Ci Cto Cti Sc St Hk] H.
  assert (Hvals : forall {A} (f : Element -> option A), omap f (l ++ [e]) = omap f l ++ omap f [e]) by (intros; apply omap_app).
  assert (Hc : exists v c, keychain_commit kc v (element_id e) SwitchRegular = Ok c /\
    match e with
    | PlainInput x _ | CoinbaseInput x _ => v = x /\ exists f, tx' = tx_with_input tx (mkInput f c) /\
        s' = sub_key_id s (to_value_path (element_id e) v) /\ ts' = ts
    | PlainOutput x _ => v = x /\ exists p, tx' = tx_with_output tx (mkOutput OPlain c p) /\
        s' = add_key_id s (to_value_path (element_id e) v) /\ ts' = ts
    | TokenInputOf x t _ _ => v = x /\ exists f, tx' = tx_with_token_input tx (mkTokenInput f t c) /\
        s' = s /\ ts' = sub_key_id ts (to_value_path (element_id e) v)
    | TokenOutputOf x t _ _ => v = x /\ exists f p, tx' = tx_with_token_output tx (mkTokenOutput f t c p) /\
        s' = s /\ ts' = add_key_id ts (to_value_path (element_id e) v)
    end).
  { destruct e as [v id|v id|v id|v t i id|v t i id]; cbn [append_of element_id] in *;
      unfold build_plain_input, coinbase_input, build_input, build_output, token_input, build_token_input, build_token_output in H;
      cbn [res_bind] in H; destruct (keychain_commit kc v id SwitchRegular) as [c|err|] eqn:Ec; cbn [map_err res_bind] in H; try discriminate;
      try (destruct (proof_create _ _ _ _ _ _) as [p|err|]; cbn [res_bind] in H; [|discriminate..]); injection H as <- <- <-; exists v, c; eauto 10. }
  destruct Hc as (v & c & Ec & He). unfold coin_out, coin_in, token_out, token_in in *.
  destruct e as [x id|x id|x id|x t i id|x t i id]; cbn [element_id] in *; destruct He as [-> He].
  - destruct He as (f & -> & -> & ->). exists outs, (ins ++ [c]), touts, tins. step_parts Hvals.
    + apply (collects_insert input_commit (mkInput f c)), Ci.
    + apply sums_up_sub; done.
  - destruct He as (f & -> & -> & ->). exists outs, (ins ++ [c]), touts, tins. step_parts Hvals.
    + apply (collects_insert input_commit (mkInput f c)), Ci.
    + apply sums_up_sub; done.
  - destruct He as (p & -> & -> & ->). exists (outs ++ [c]), ins, touts, tins. step_parts Hvals.
    + apply (collects_insert output_commit (mkOutput OPlain c p)), Co.
    + apply sums_up_add; done.
  - destruct He as (f & -> & -> & ->). exists outs, ins, touts, (tins ++ [c]). step_parts Hvals.
    + apply (collects_insert token_input_commit (mkTokenInput f t c)), Cti.
    + apply sums_up_sub; done.
  - destruct He as (f & p & -> & -> & ->). exists outs, ins, (touts ++ [c]), tins. step_parts Hvals.
    + apply (collects_insert token_output_commit (mkTokenOutput f t c p)), Cto.
    + apply sums_up_add; done.
Qed.

Lemma collected_all l : Forall (fun e => identifier_wf (element_id e)) l ->
  forall tx s ts, run_elems tx_empty (map append_of l) = Ok (tx, s, ts) ->
  exists outs ins touts tins, collected l tx s ts outs ins touts tins.
Proof.
  unfold run_elems. induction l as [|e l IH] using rev_ind; intros Hl tx s ts H.
  - injection H as <- <- <-. exists [], [], [], []. apply collected_empty.
  - apply Forall_app in Hl as [Hl He]. apply Forall_cons in He as [He _]. rewrite map_app, foldl_app in H. cbn [map foldl] in H.
    destruct (foldl _ _ (map append_of l)) as [[[tx0 s0] ts0]|err|] eqn:E.
    + destruct (IH Hl _ _ _ eq_refl) as (outs & ins & touts & tins & Hc). eapply collected_step; [exact He|exact Hc|exact H].
    + destruct e; discriminate.
    + destruct e; discriminate.
Qed.

(** ** Keys and kernels *)

Lemma sums_up_balance s outs ins vo vi blind : sums_up s outs ins vo vi -> keychain_blind_sum kc s = Ok blind ->
  sum_points outs - sum_points ins =g= (total_of vo - total_of vi) * value_point + blind_val blind.
Proof.
  intros [Ho Hi <- <- [Ep En]] H. pose proof (keychain_blind_sum_spec kc s blind outs ins H Ho Hi) as Hs. rewrite Ep, En in Hs.
  specialize (Hs ltac:(constructor) ltac:(constructor)). unfold value_total in Hs. fold (total_of (map path_value (positive_key_ids s))) in Hs.
  fold (total_of (map path_value (negative_key_ids s))) in Hs. rewrite <- Hs. unfold blind_total. cbn [map foldr]. glia.
Qed.

Lemma blind_split_sums skey_1 b k1 k2 skey : length (secret_bytes skey_1) = SECRET_KEY_SIZE ->
  blind_split skey_1 b = Some (k1, k2) -> secret_key k1 = Some skey -> be_val (secret_bytes skey) + blind_val k2 =g= blind_val b.
Proof.
  intros Hl H Hk. unfold blind_split in H. destruct (secret_key b) as [key|] eqn:Eb; [|discriminate]. cbn [mbind option_bind] in H.
  destruct (blind_sum [key] [skey_1]) as [skey_2|] eqn:Es; [|discriminate]. injection H as <- <-.
  rewrite (secret_key_val _ _ Hk), (from_secret_key_val _ Hl), (from_secret_key_val _ (proj1 (blind_sum_valid _ _ _ Es))).
  rewrite <- (secret_key_val _ _ Eb). assert (E : be_val (secret_bytes skey_2) =g= be_val (secret_bytes key) + 0 - (be_val (secret_bytes skey_1) + 0)).
  { apply (blind_sum_sound _ _ _ Es). }
  rewrite E. glia.
Qed.

Lemma zero_commit_key k c : commit 0 k = Some c -> point c =g= be_val (secret_bytes k).
Proof. intros H. assert (E : point c =g= 0 * value_point + be_val (secret_bytes k)) by apply commit_sound, H. rewrite E. glia. Qed.

Lemma signed_with_blinding `{SAL : !SecpAggsigLaws} msg k skey ex p sig : secret_key k = Some skey -> commit 0 skey = Some ex -> to_pubkey ex = Some p ->
  aggsig_sign_with_blinding msg k (Some p) = Ok sig -> verify_single sig msg p = true.
Proof.
  unfold aggsig_sign_with_blinding. intros -> Hc Hp. cbn [ok_or res_bind]. destruct (aggsig_sign _ _ _ _ _ _ _) as [sg|] eqn:E; [|discriminate].
  intros [= <-]. eapply aggsig_sign_verifies; [apply zero_commit_key, Hc|exact Hp|exact E].
Qed.

(** What [token_kernel_of] signs *)
Lemma token_kernel_of_ok `{SAL : !SecpAggsigLaws} tx tf ts tk : token_kernel_of kc tx tf ts = Ok tk ->
  token_features tk = tf /\ token_kernel_verify tk = Ok tt /\
  exists blind, keychain_blind_sum kc ts = Ok blind /\ point (token_excess tk) =g= blind_val blind.
Proof.
  unfold token_kernel_of. intros H. apply bind_ok in H as (kern & _ & H). destruct (token_outputs (body tx)) as [|o rest]; [discriminate|].
  apply bind_ok in H as (blind & Hb & H). apply map_err_ok_inv in Hb. apply bind_ok in H as (msg & Hm & H). apply map_err_ok_inv in Hm.
  apply bind_ok in H as (key & Hk & H). apply ok_or_ok in Hk. apply bind_ok in H as (ex & He & H). apply ok_or_ok in He.
  apply bind_ok in H as (p & Hp & H). apply ok_or_ok in Hp.
  destruct (aggsig_sign_with_blinding msg blind (Some p)) as [sig|e|] eqn:Es; [|discriminate..]. injection H as <-.
  split; [done|]. split.
  - unfold token_kernel_verify. cbn [token_excess token_excess_sig]. rewrite Hp. cbn [ok_or res_bind].
    replace (token_msg_to_sign _) with (Ok (E := TxError) msg) by done. cbn [res_bind].
    rewrite (signed_with_blinding msg blind key ex p sig) by done. done.
  - exists blind. split; [exact Hb|]. cbn [token_excess]. rewrite (zero_commit_key _ _ He). apply secret_key_val, Hk.
Qed.

(** What [transaction] makes of the sums and the transaction of its elements *)
Lemma transaction_ok `{SAL : !SecpAggsigLaws} skey_1 f tf elems tx : length (secret_bytes skey_1) = SECRET_KEY_SIZE ->
  transaction kc skey_1 f tf elems = Ok tx ->
  exists tx0 s ts blind k, run_elems tx_empty elems = Ok (tx0, s, ts) /\ keychain_blind_sum kc s = Ok blind /\
    features k = f /\ kernel_verify k = Ok tt /\ point (excess k) + blind_val (offset tx) =g= blind_val blind /\
    match tf with
    | None => body tx = replace_kernel (body tx0) k
    | Some tf => exists tk tb, body tx = replace_token_kernel (replace_kernel (body tx0) k) tk /\
        token_features tk = tf /\ token_kernel_verify tk = Ok tt /\
        keychain_blind_sum kc ts = Ok tb /\ point (token_excess tk) =g= blind_val tb
    end.
Proof.
  intros Hl H. unfold transaction in H. apply bind_ok in H as ([[tx0 s] ts] & Hr & H).
  apply bind_ok in H as (blind & Hb & H). apply map_err_ok_inv in Hb. apply bind_ok in H as ([k1 k2] & Hs & H). apply ok_or_ok in Hs.
  apply bind_ok in H as (kern & Hkern & H). apply bind_ok in H as (msg & Hm & H). apply map_err_ok_inv in Hm.
  apply bind_ok in H as (skey & Hk & H). apply ok_or_ok in Hk. apply bind_ok in H as (ex & He & H). apply ok_or_ok in He.
  apply bind_ok in H as (p & Hp & H). apply ok_or_ok in Hp. apply bind_ok in H as (sig & Hsig & H).
  assert (Hv : kernel_verify (mkTxKernel f ex sig) = Ok tt).
  { unfold kernel_verify. cbn [excess excess_sig]. rewrite Hp. cbn [ok_or res_bind].
    assert (Hf : features kern = f).
    { unfold kernel_with_features in Hkern. destruct (signature_from_raw_data _); [|discriminate]. injection Hkern as <-. done. }
    replace (msg_to_sign (mkTxKernel f ex sig)) with (msg_to_sign kern) by (unfold msg_to_sign; cbn [features]; rewrite Hf; done).
    rewrite Hm. cbn [res_bind]. rewrite (signed_with_blinding msg k1 skey ex p sig) by done. done. }
  assert (Hpt : point ex + blind_val k2 =g= blind_val blind).
  { rewrite (zero_commit_key _ _ He). eapply blind_split_sums; done. }
  exists tx0, s, ts, blind, (mkTxKernel f ex sig). destruct tf as [tf|].
  - apply bind_ok in H as (tk & Ht & H). injection H as <-. destruct (token_kernel_of_ok _ _ _ _ Ht) as (Hf & Htv & tb & Htb & Htp).
    cbn [tx_replace_token_kernel tx_replace_kernel offset body excess features]. split; [exact Hr|]. repeat split; try done. exists tk, tb. done.
  - injection H as <-. done.
Qed.

Lemma built_balance `{SAL : !SecpAggsigLaws} elems skey_1 f tf tx :
  Forall (fun e => identifier_wf (element_id e)) elems -> length (secret_bytes skey_1) = SECRET_KEY_SIZE ->
  transaction kc skey_1 f tf (map append_of elems) = Ok tx ->
  (length (inputs (body tx)) = length (coin_in elems) -> length (outputs (body tx)) = length (coin_out elems) ->
   balanced tx (total_of (coin_in elems) - total_of (coin_out elems)) (offset tx)) /\
  (exists k, kernels (body tx) = [k] /\ features k = f /\ kernel_verify k = Ok tt) /\
  match tf with
  | None => token_kernels (body tx) = []
  | Some tf => exists tk, token_kernels (body tx) = [tk] /\ token_features tk = tf /\ token_kernel_verify tk = Ok tt /\
      (length (token_inputs (body tx)) = length (token_in elems) -> length (token_outputs (body tx)) = length (token_out elems) ->
       sum_points (map token_output_commit (token_outputs (body tx)))
       =g= sum_points (map token_input_commit (token_inputs (body tx))) + point (token_excess tk)
           + (total_of (token_out elems) - total_of (token_in elems)) * value_point)
  end.
Proof.
  intros Hid Hl H. destruct (transaction_ok _ _ _ _ _ Hl H) as (tx0 & s & ts & blind & k & Hr & Hb & Hf & Hv & Hp & Htf).
  destruct (collected_all elems Hid _ _ _ Hr) as (outs & ins & touts & tins & [Co Ci Cto Cti Sc St [Ek Etk]]).
  assert (Hlen : forall s' outs ins vo vi, sums_up s' outs ins vo vi -> length outs = length vo /\ length ins = length vi).
  { intros s' o i vo vi [Ho Hi <- <- _]. rewrite !length_map. apply Forall2_length in Ho, Hi. done. }
  destruct (Hlen _ _ _ _ _ Sc) as [Lo Li]. destruct (Hlen _ _ _ _ _ St) as [Lto Lti].
  assert (Eb : inputs (body tx) = inputs (body tx0) /\ outputs (body tx) = outputs (body tx0) /\ kernels (body tx) = [k] /\
    token_inputs (body tx) = token_inputs (body tx0) /\ token_outputs (body tx) = token_outputs (body tx0)).
  { destruct tf; [destruct Htf as (tk & tb & -> & _)|rewrite Htf]; done. }
  destruct Eb as (Ei & Eo & Ekk & Eti & Eto). rewrite Ei, Eo, Eti, Eto. split; [|split].
  - intros Hi Ho. unfold balanced. cbn [outputs_committed inputs_committed kernels_committed tx_committed body_committed]. rewrite Ei, Eo, Ekk.
    cbn [map]. rewrite (proj2 Co), (proj2 Ci) by (rewrite length_map; lia). rewrite sum_points_cons. change (sum_points []) with 0.
    pose proof (sums_up_balance _ _ _ _ _ _ Sc Hb) as Hs. rewrite <- Hp in Hs.
    transitivity (sum_points outs - sum_points ins + sum_points ins + (total_of (coin_in elems) - total_of (coin_out elems)) * value_point); [glia|].
    rewrite Hs. glia.
  - exists k. done.
  - destruct tf as [tf|].
    + destruct Htf as (tk & tb & -> & Htf & Htv & Htb & Htp). exists tk. split; [done|]. split; [done|]. split; [done|]. intros Hi Ho.
      rewrite (proj2 Cto), (proj2 Cti) by (rewrite length_map; lia). pose proof (sums_up_balance _ _ _ _ _ _ St Htb) as Hs. rewrite <- Htp in Hs.
      transitivity (sum_points touts - sum_points tins + sum_points tins); [glia|]. rewrite Hs. glia.
    + rewrite Htf. exact Etk.
Qed.

(** ** The reward of a block *)

Lemma reward_output_ok `{SAL : !SecpAggsigLaws} ct id height fees test o k : reward_output kc builder ct id height fees test = Ok (o, k) ->
  output_features o = OCoinbase /\ features k = KCoinbase /\ kernel_verify k = Ok tt /\
  keychain_commit kc (reward ct height fees) id SwitchRegular = Ok (output_commit o) /\
  exists oc, commit_value (reward ct height fees) = Some oc /\ commit_sum [output_commit o] [oc] = Some (excess k).
Proof.
  unfold reward_output. intros H. apply bind_ok in H as (c & Hc & H). apply map_err_ok_inv in Hc. apply bind_ok in H as (proof & _ & H).
  apply bind_ok in H as (oc & Ho & H). apply ok_or_ok in Ho. apply bind_ok in H as (ex & He & H). apply ok_or_ok in He. cbn [output_commit] in He.
  apply bind_ok in H as (p & Hp & H). apply ok_or_ok in Hp. apply bind_ok in H as (msg & Hm & H). apply map_err_ok_inv in Hm.
  apply bind_ok in H as (nonce & _ & H). apply bind_ok in H as (sig & Hs & H). injection H as <- <-.
  cbn [output_features features output_commit excess]. split; [done|]. split; [done|]. split; [|eauto].
  unfold sign_from_key_id in Hs. apply bind_ok in Hs as (skey & Hk & Hs). apply map_err_ok_inv in Hk. apply ok_or_ok in Hs.
  unfold kernel_verify, msg_to_sign. cbn [excess excess_sig features]. rewrite Hp, Hm. cbn [ok_or res_bind].
  rewrite (aggsig_sign_verifies msg skey nonce ex p sig); [done| |exact Hp|exact Hs].
  unfold keychain_commit in Hc. rewrite Hk in Hc. apply ok_or_ok in Hc. rewrite (commit_sum_points _ _ _ He), !sum_points_cons. change (sum_points []) with 0.
  assert (E1 : point c =g= reward ct height fees * value_point + be_val (secret_bytes skey)) by apply commit_sound, Hc.
  assert (E2 : point oc =g= reward ct height fees * value_point) by apply commit_value_sound, Ho.
  rewrite E1, E2. glia.
Qed.
End Built.

(** C23: What [reward::output] makes for a block is what the block is checked for.  The output has the coinbase feature and
    commits to the reward of the height with the fees; the kernel has the coinbase feature and a signature that verifies;
    and a block of that height and those fees that has no other coinbase output and kernel passes [verify_coinbase],
    unless the curve library refuses a sum: it is never a mismatch. *)
Theorem built_rewards_are_accepted {DG : Digest} {MC : Macs} `{SL : SecpLaws} {SV : SecpVerify} {SK : SecpKeys} {SW : SecpWallet} {SF : SecpProofs}
    {SA : SecpAggsig} `{SAL : !SecpAggsigLaws} {B : Type} `{!ProofBuild B} kc (builder : B) ct id height fees test o k :
  reward_output kc builder ct id height fees test = Ok (o, k) ->
  output_features o = OCoinbase /\ features k = KCoinbase /\ kernel_verify k = Ok tt /\
  keychain_commit kc (reward ct height fees) id SwitchRegular = Ok (output_commit o) /\
  forall b, bh_height (header b) = height -> fee (block_body b) = fees -> coinbase_outputs b = [o] -> coinbase_kernels b = [k] ->
    verify_coinbase ct b = Ok tt \/ verify_coinbase ct b = Err BSecp.
Proof.
  intros H. destruct (reward_output_ok kc builder ct id height fees test o k H) as (Ho & Hk & Hv & Hc & oc & Hoc & Hex).
  do 4 (split; [done|]). intros b Hh Hf Eo Ek. unfold verify_coinbase. fold (coinbase_outputs b) (coinbase_kernels b).
  rewrite Hh, Hf, Eo, Ek, Hoc. cbn [ok_or res_bind map]. rewrite Hex. cbn [ok_or res_bind].
  destruct (commit_sum [excess k] []) as [ks|] eqn:Es; [|right; done]. left. cbn [ok_or res_bind].
  rewrite bool_decide_eq_true_2; [done|]. apply (commit_sum_canonical _ _ _ _ _ _ Es Hex).
  pose proof (commit_sum_points _ _ _ Es) as Hp. rewrite sum_points_cons in Hp. unfold eqg in Hp. rewrite Hp. f_equal. unfold sum_points. cbn. lia.
Qed.

(** C22: A transaction that [build::transaction] returns is the one its elements ask for.  If no input or output was kept out
    as a duplicate, it balances with the difference between the values put in and the values taken out, which is then the
    only fee it can pay: its kernel sums are never refused as a mismatch when the fee is that difference.  It has one
    kernel, with the features asked for and a signature that verifies; with token features, one token kernel, whose
    signature verifies and whose excess is what the token outputs have over the token inputs and the values. *)
Theorem built_transactions_balance {DG : Digest} {MC : Macs} `{SL : SecpLaws} {SV : SecpVerify} {SK : SecpKeys} {SW : SecpWallet} {SF : SecpProofs}
    {SA : SecpAggsig} `{SAL : !SecpAggsigLaws} {B : Type} `{!ProofBuild B} kc (builder : B) elems skey_1 f tf tx :
  Forall (fun e => identifier_wf (element_id e)) elems -> length (secret_bytes skey_1) = SECRET_KEY_SIZE ->
  transaction kc skey_1 f tf (map (append_of kc builder) elems) = Ok tx ->
  (length (inputs (body tx)) = length (coin_in elems) -> length (outputs (body tx)) = length (coin_out elems) ->
   balanced tx (total_of (coin_in elems) - total_of (coin_out elems)) (offset tx) /\
   (- 2 ^ 63 <= overage (body tx) < 2 ^ 63 -> total_of (coin_in elems) = total_of (coin_out elems) + overage (body tx) ->
    verify_kernel_sums tx (overage (body tx)) (offset tx) <> Err CKernelSumMismatch)) /\
  (exists k, kernels (body tx) = [k] /\ features k = f /\ kernel_verify k = Ok tt) /\
  match tf with
  | None => token_kernels (body tx) = []
  | Some tf => exists tk, token_kernels (body tx) = [tk] /\ token_features tk = tf /\ token_kernel_verify tk = Ok tt /\
      (length (token_inputs (body tx)) = length (token_in elems) -> length (token_outputs (body tx)) = length (token_out elems) ->
       sum_points (map token_output_commit (token_outputs (body tx)))
       =g= sum_points (map token_input_commit (token_inputs (body tx))) + point (token_excess tk)
           + (total_of (token_out elems) - total_of (token_in elems)) * value_point)
  end.
Proof.
  intros Hid Hl H. destruct (built_balance kc builder elems skey_1 f tf tx Hid Hl H) as (Hb & Hk & Ht). split; [|split; done].
  intros Hi Ho. specialize (Hb Hi Ho). split; [exact Hb|]. intros Hr Hv Hm.
  pose proof (verify_kernel_sums_spec tx (overage (body tx)) (offset tx)) as Hs. rewrite Hm in Hs. apply Hs.
  - exact Hr.
  - replace (overage (body tx)) with (total_of (coin_in elems) - total_of (coin_out elems)) by lia. exact Hb.
Qed.
