(* ===== verification/KeyExamples.v ===== *)
(** * A wallet over a small group

    A curve library whose group has 101 elements, and the theorems on keys, range proofs and built transactions at keys,
    paths and transactions of that library. *)

From Stdlib Require Import ZArith Lia List Bool.
From stdpp Require Import base numbers list option gmap.
From S2P Require Import Prelude Bytes Consensus Ser Transaction TxBody Committed Verifier Base58 Mnemonic Hex ExtKey Keychain RangeProofs TxBuild Block BuildTheorems.

(** ** The library *)

(** Public keys are the residues; a compressed one is a byte 2 and 32 bytes. *)
Definition in_group (z : Z) : bool := (0 <=? z) && (z <? demo_order).
Definition residue : Type := { z : Z | in_group z = true }.
Lemma mod_in_group z : in_group (z mod demo_order) = true.
Proof. unfold in_group. pose proof (Z.mod_pos_bound z demo_order ltac:(done)). apply andb_true_intro. rewrite Z.leb_le, Z.ltb_lt. done. Qed.
Definition residue_of (z : Z) : residue := exist _ (z mod demo_order) (mod_in_group z).
Lemma residue_eq (p q : residue) : `p = `q -> p = q.
Proof. destruct p as [x Hx], q as [y Hy]. cbn. intros ->. f_equal. apply Eqdep_dec.UIP_dec, bool_dec. Qed.
Lemma residue_of_val (p : residue) : residue_of (`p) = p.
Proof.
  apply residue_eq. destruct p as [z Hz]. cbn. unfold in_group in Hz. apply andb_prop in Hz as [H1 H2]. apply Z.leb_le in H1. apply Z.ltb_lt in H2.
  apply Z.mod_small. done.
Qed.

(** A hash of 32 bytes from the length and the sum of the input *)
Definition mix (b : bytes) : Z := (foldr Z.add 0 b + 7 * len b) mod 251.
Definition wallet_digest : Digest := {| blake2b b := b; sha256 b := replicate 31 (mix b) ++ [1 + mix b] |}.

Definition wallet_verify : SecpVerify := {|
  PublicKey := residue; Message := bytes;
  to_pubkey c := Some (residue_of (demo_point c)); message_from_slice b := Some b;
  verify_single s m p := bool_decide (sig_bytes s = `p :: m);
  verify_batch sigs msgs pubkeys :=
    forallb (fun x => bool_decide (sig_bytes x.1.1 = `x.2 :: x.1.2)) (zip (zip sigs msgs) pubkeys);
  verify_bullet_proof := demo_fits;
  verify_bullet_proof_multi cs ps := forallb (fun p => demo_fits p.1 p.2) (zip cs ps)
|}.

#[local] Existing Instance wallet_digest.
#[local] Existing Instance demo_sizes.
#[local] Existing Instance demo_secp.
#[local] Existing Instance demo_laws.
#[local] Existing Instance wallet_verify.

(** The sum of two keys that cancel out has no key, and the point at infinity is no public key. *)
#[local] Instance wallet_keys : SecpKeys := {
  public_from_secret k := Some (residue_of (key_val k));
  public_serialize p := 2 :: be_bytes 32 (`p);
  public_from_slice b := Some (residue_of (be_val (drop 1 b)));
  secret_add t k := if (key_val t + key_val k) mod demo_order =? 0 then None else Some (mkSecretKey (be_bytes 32 ((key_val t + key_val k) mod demo_order)));
  public_add_exp p t := if (`p + key_val t) mod demo_order =? 0 then None else Some (residue_of (`p + key_val t))
}.

Lemma demo_order_small z : 0 <= z < demo_order -> 0 <= z < 256 ^ Z.of_nat 32.
Proof. unfold demo_order. intros Hz. split; [lia|]. eapply Z.lt_trans; [apply Hz|reflexivity]. Qed.

#[local] Instance wallet_keys_laws : SecpKeysLaws.
Proof.
  constructor.
  - intros t k p [= <-]. cbn [secret_add public_add_exp public_from_secret wallet_keys proj1_sig residue_of].
    rewrite Zplus_mod_idemp_l, (Z.add_comm (key_val k)). destruct (Z.eqb_spec ((key_val t + key_val k) mod demo_order) 0) as [_|_]; [done|].
    eexists. split; [done|]. f_equal. apply residue_eq. cbn [residue_of proj1_sig]. unfold key_val at 1. cbn [secret_bytes].
    rewrite be_val_be_bytes by (apply demo_order_small, Z.mod_pos_bound; done). rewrite Z.mod_mod by done.
    rewrite (Z.add_comm (key_val k mod demo_order)), Zplus_mod_idemp_r. done.
  - intros p. split; [|split].
    + apply Forall_cons. split; [unfold is_byte; lia|]. apply be_bytes_are_bytes.
    + cbn [length public_serialize wallet_keys]. rewrite length_be_bytes. done.
    + cbn [public_serialize public_from_slice wallet_keys]. rewrite skipn_cons, drop_0.
      rewrite be_val_be_bytes; [rewrite residue_of_val; done|]. apply demo_order_small. destruct p as [z Hz]. cbn.
      unfold in_group in Hz. apply andb_prop in Hz as [H1 H2]. apply Z.leb_le in H1. apply Z.ltb_lt in H2. done.
Qed.

#[local] Instance wallet_macs : Macs := {
  hmac_sha512 k d := replicate 31 0 ++ [1 + mix (k ++ d) mod 100] ++ replicate 32 (mix (d ++ k));
  ripemd160 b := replicate 20 (mix b)
}.
#[local] Instance wallet_wallet : SecpWallet := {
  blind_switch v k := Some (mkSecretKey (be_bytes 32 ((v + 5 * key_val k) mod demo_order)));
  secp_sign m k := Some (mkSignature ((key_val k mod demo_order) :: m));
  public_mul p k := Some (residue_of (`p * key_val k));
  public_combine l := Some (residue_of (foldr Z.add 0 (map (fun p : residue => `p) l)));
  GENERATOR_PUB_J := residue_of 17;
  blake2b_sized n b := replicate n (mix b)
}.
(** A proof is the commitment's byte, the amount and the message. *)
#[local] Instance wallet_proofs : SecpProofs := {
  bullet_proof v k nonce private extra message :=
    mkRangeProof (((v * 3 + key_val k) mod demo_order) :: v :: default [] message) 0;
  rewind_bullet_proof c nonce extra p := match proof_bytes p with _ :: v :: message => Some (v, message) | _ => None end;
  blake2b_keyed n b k := replicate n (mix (b ++ k))
}.
#[local] Instance wallet_proofs_laws : SecpProofsLaws.
Proof. intros v k nonce private extra message c [= <-]. done. Qed.
#[local] Instance wallet_aggsig : SecpAggsig := {
  aggsig_sign m k nonce extra pn pk sum := Some (mkSignature ((key_val k mod demo_order) :: m));
  aggsig_verify s m pn p sum extra partial := bool_decide (sig_bytes s = `p :: m);
  aggsig_add sigs p := head sigs;
  signature_from_raw_data b := Some (mkSignature b)
}.
#[local] Instance wallet_aggsig_laws : SecpAggsigLaws.
Proof.
  intros m k nonce c p sig Hp [= <-] [= <-]. cbn [verify_single wallet_verify]. apply bool_decide_eq_true_2.
  cbn [sig_bytes residue_of proj1_sig]. f_equal. symmetry. exact Hp.
Qed.

Lemma wallet_sha256 : Sha256Laws.
Proof.
  intros b. unfold is_hash. cbn [sha256 wallet_digest]. pose proof (Z.mod_pos_bound (foldr Z.add 0 b + 7 * len b) 251 ltac:(done)) as Hm. fold (mix b) in Hm.
  split; [rewrite length_app, length_replicate; done|]. rewrite are_bytes_app. split.
  - apply Forall_replicate. unfold is_byte. lia.
  - apply Forall_singleton. unfold is_byte. lia.
Qed.
#[local] Existing Instance wallet_sha256.

(** ** Keys *)

Definition demo_master : ExtendedPrivKey :=
  mkPriv [3; 60; 4; 164] 0 [0; 0; 0; 0] (Normal 0) (mkSecretKey (be_bytes 32 42)) (replicate 32 9).
Definition demo_hasher : BIP32GrinHasher := hasher_new false.
Definition demo_keychain : ExtKeychain := mkKeychain demo_master demo_hasher.
Definition demo_public : ExtendedPubKey := mkPub [3; 60; 8; 223] 0 [0; 0; 0; 0] (Normal 0) (residue_of 42) (replicate 32 9).

Lemma public_derivation_follows_witness :
  from_private demo_hasher demo_master = Ok demo_public /\
  exists h2, derive_pub demo_public (map Normal [1; 5]) demo_hasher =
    (let '(r, h) := derive_priv demo_master (map Normal [1; 5]) demo_hasher in
     match r with Ok sk => from_private h sk | Err e => Err e | Panic => Panic end, h2).
Proof.
  assert (E : from_private demo_hasher demo_master = Ok demo_public).
  { unfold from_private, demo_public. cbn [public_from_secret wallet_keys]. do 2 f_equal. }
  split; [exact E|]. pose proof (public_derivation_follows demo_master demo_public [1; 5] demo_hasher E) as [H _].
  destruct (derive_priv demo_master (map Normal [1; 5]) demo_hasher) as [[sk|e|] h]; [exact H|exact H|destruct H].
Defined.

Lemma extended_keys_roundtrip_witness : priv_from_str (priv_to_string demo_master) = Ok demo_master.
Proof.
  apply extended_keys_roundtrip. constructor; cbn [priv_network priv_depth priv_parent_fingerprint priv_child_number priv_chain_code priv_secret_key demo_master].
  - split; [|done]. unfold are_bytes. rewrite !Forall_cons. unfold is_byte. repeat split; try lia; apply Forall_nil; exact I.
  - unfold is_byte. lia.
  - split; [|done]. apply (Forall_replicate _ 4 0). unfold is_byte. lia.
  - cbn. lia.
  - split; [|done]. apply Forall_replicate. unfold is_byte. lia.
  - split; [apply be_bytes_are_bytes|]. split; [apply length_be_bytes|reflexivity].
Defined.

(** ** Paths *)

Definition demo_id (n : Z) : Identifier := derive_key_id 3 1 0 n 0.
Lemma demo_id_wf n : 0 <= n < 2 ^ 31 -> identifier_wf (demo_id n).
Proof.
  intros Hn. apply to_path_from_path. split; [cbn; unfold is_byte; lia|]. split; [done|]. cbn [path_new path_children]. rewrite !Forall_cons.
  split_and!; try (apply child_of_u32_wf; lia); apply Forall_nil; exact I.
Qed.

Lemma identifiers_roundtrip_witness : from_path (to_path (demo_id 7)) = demo_id 7 /\ identifier_from_hex (E := KeychainError) (identifier_to_hex (demo_id 7)) = Ok (demo_id 7).
Proof.
  destruct identifiers_roundtrip as (_ & H & _). destruct (H (demo_id 7) (demo_id_wf 7 ltac:(lia))) as (H1 & H2 & _). split; assumption.
Defined.

(** ** Blinding sums *)

Definition demo_sums : BlindSum := sub_key_id (add_key_id blind_sum_new (to_value_path (demo_id 1) 30)) (to_value_path (demo_id 2) 40).
Definition commit_at (v n : Z) : Commitment :=
  match keychain_commit demo_keychain v (demo_id n) SwitchRegular with Ok c => c | _ => mkCommitment [] end.
Definition sum_of_demo : BlindingFactor := match keychain_blind_sum demo_keychain demo_sums with Ok b => b | _ => blind_zero end.

Lemma blind_sums_commit_witness :
  sum_points [commit_at 30 1] + blind_total (positive_blinding_factors demo_sums) - sum_points [commit_at 40 2]
    - blind_total (negative_blinding_factors demo_sums)
  =g= (value_total (positive_key_ids demo_sums) - value_total (negative_key_ids demo_sums)) * value_point + blind_val sum_of_demo.
Proof.
  apply (blind_sums_commit demo_keychain demo_sums sum_of_demo [commit_at 30 1] [commit_at 40 2]).
  - vm_compute. reflexivity.
  - constructor; [vm_compute; reflexivity|constructor].
  - constructor; [vm_compute; reflexivity|constructor].
  - constructor.
  - constructor.
Defined.

(** ** Range proofs *)

Definition demo_builder : ProofBuilder := mkProofBuilder demo_keychain [1] [2].
Definition proof_at (v n : Z) : RangeProof :=
  match proof_create demo_keychain demo_builder v (demo_id n) SwitchRegular None with Ok p => p | _ => mkRangeProof [] 0 end.

Lemma outputs_are_recovered_witness :
  exists c, keychain_commit demo_keychain 30 (demo_id 1) SwitchRegular = Ok c /\
    proof_rewind demo_builder c None (proof_at 30 1) = Ok (Some (30, demo_id 1, SwitchRegular)).
Proof.
  destruct outputs_are_recovered as [H _]. apply (H demo_builder 30 (demo_id 1) SwitchRegular None (proof_at 30 1)).
  - apply demo_id_wf. lia.
  - vm_compute. discriminate.
  - vm_compute. reflexivity.
Defined.

(** ** A transaction *)

(** Spends 40 and a coinbase of 25 for 30 and 33 and pays 2; moves 9 of a token. *)
Definition demo_elements : list Element :=
  [PlainInput 40 (demo_id 1); PlainOutput 30 (demo_id 2); CoinbaseInput 25 (demo_id 3); PlainOutput 33 (demo_id 4);
   TokenInputOf 9 gold false (demo_id 5); TokenOutputOf 9 gold false (demo_id 6)].
Definition demo_built : Transaction :=
  match transaction demo_keychain (mkSecretKey (be_bytes 32 11)) (KPlain 2) (Some PlainToken) (map (append_of demo_keychain demo_builder) demo_elements) with
  | Ok tx => tx
  | _ => tx_empty
  end.

Lemma built_transactions_balance_witness :
  transaction demo_keychain (mkSecretKey (be_bytes 32 11)) (KPlain 2) (Some PlainToken) (map (append_of demo_keychain demo_builder) demo_elements) = Ok demo_built /\
  balanced demo_built 2 (offset demo_built).
Proof.
  assert (E : transaction demo_keychain (mkSecretKey (be_bytes 32 11)) (KPlain 2) (Some PlainToken)
    (map (append_of demo_keychain demo_builder) demo_elements) = Ok demo_built) by (vm_compute; reflexivity).
  split; [exact E|].
  pose proof (built_transactions_balance demo_keychain demo_builder demo_elements (mkSecretKey (be_bytes 32 11)) _ _ _
    ltac:(unfold demo_elements; rewrite !Forall_cons; split_and!; try (apply demo_id_wf; lia); apply Forall_nil; exact I)
    (length_be_bytes 32 11) E) as [H _].
  apply H; vm_compute; reflexivity.
Defined.

(** ** A reward *)

Definition demo_reward : Output * TxKernel :=
  match reward_output demo_keychain demo_builder AutomatedTesting (demo_id 8) 5 2 true with
  | Ok r => r
  | _ => (mkOutput OPlain (mkCommitment []) (mkRangeProof [] 0), mkTxKernel KCoinbase (mkCommitment []) (mkSignature []))
  end.

Lemma built_rewards_are_accepted_witness :
  reward_output demo_keychain demo_builder AutomatedTesting (demo_id 8) 5 2 true = Ok demo_reward /\ kernel_verify demo_reward.2 = Ok tt.
Proof.
  assert (E : reward_output demo_keychain demo_builder AutomatedTesting (demo_id 8) 5 2 true = Ok (demo_reward.1, demo_reward.2)) by (vm_compute; reflexivity).
  split; [exact E|]. destruct (built_rewards_are_accepted demo_keychain demo_builder AutomatedTesting (demo_id 8) 5 2 true _ _ E) as (_ & _ & H & _).
  exact H.
Defined.
