(* ===== verification/PeerTypes.v ===== *)
(** * Types of the network

    Models [p2p/src/types.rs] and [util/src/rate_counter.rs]: addresses of peers, capabilities, reasons for a ban, what is
    known of a connected peer, the configuration, and the counter of the rate of messages.

    A time is a number of milliseconds and an argument.  A [HashMap] over addresses is a finite map over [addr_key], the part
    of an address that its [Eq] and [Hash] look at. *)

From Stdlib Require Import ZArith Lia List Bool Sorted.
From stdpp Require Import base numbers list option gmap countable.
From S2P Require Import Prelude Bytes Consensus Ser Transaction TxBody Committed PowTypes Block ChainTypes.

Definition MAX_BLOCK_HEADERS : Z := 512.
Definition MAX_PEER_ADDRS : Z := 256.
Definition MAX_LOCATORS : Z := 20.
Definition BAN_WINDOW : Z := 10800.
Definition PEER_MAX_INBOUND_COUNT : Z := 128.
Definition PEER_MAX_OUTBOUND_COUNT : Z := 8.
Definition PEER_MIN_PREFERRED_OUTBOUND_COUNT : Z := 8.
Definition PEER_LISTENER_BUFFER_COUNT : Z := 8.

Inductive P2pError :=
| PSerialization (e : Error)
| PConnection
| BadMessage
| MsgLen
| PBanned
| ConnectionClose
| PTimeout
| PStore (e : StoreError)
| PChain (e : ErrorKind)
| PeerWithSelf
| NoDandelionRelay
| GenesisMismatch (us peer : bytes)
| PSend
| PeerNotFound
| PeerNotBanned
| PeerException
| PInternal
| FraudNode
| LowProtocolVersion.

(** ** Addresses *)

(** [IpAddr]: four octets, or eight segments of 16 bits *)
Inductive IpAddr :=
| Ipv4 (octets : bytes)
| Ipv6 (segments : list Z).
#[export] Instance ip_addr_eq_dec : EqDecision IpAddr.
Proof. solve_decision. Defined.
#[export] Instance ip_addr_countable : Countable IpAddr.
Proof.
  refine (inj_countable' (fun ip => match ip with Ipv4 o => inl o | Ipv6 s => inr s end)
    (fun x => match x with inl o => Ipv4 o | inr s => Ipv6 s end) _). intros []; done.
Defined.

Definition is_loopback (ip : IpAddr) : bool :=
  match ip with
  | Ipv4 o => bool_decide (head o = Some 127)
  | Ipv6 s => bool_decide (s = [0; 0; 0; 0; 0; 0; 0; 1])
  end.

(** [SocketAddr]: the IPv6 form has a flow label and a scope *)
Record SocketAddr := mkSocketAddr { addr_ip : IpAddr; addr_port : Z; flowinfo : Z; scope_id : Z }.
#[export] Instance socket_addr_eq_dec : EqDecision SocketAddr.
Proof. solve_decision. Defined.
#[export] Instance socket_addr_countable : Countable SocketAddr.
Proof.
  refine (inj_countable' (fun a => (addr_ip a, addr_port a, flowinfo a, scope_id a))
    (fun x => mkSocketAddr x.1.1.1 x.1.1.2 x.1.2 x.2) _). intros []; done.
Defined.

(** [SocketAddr::new] *)
Definition socket_addr (ip : IpAddr) (port : Z) : SocketAddr := mkSocketAddr ip port 0 0.

(** [PeerAddr] wraps an address. *)
Record PeerAddr := mkPeerAddr { peer_socket : SocketAddr }.
Definition peer_ip (a : PeerAddr) : IpAddr := addr_ip (peer_socket a).
Definition peer_port (a : PeerAddr) : Z := addr_port (peer_socket a).

(** [PartialEq for PeerAddr] *)
Definition peer_addr_eq (a other : PeerAddr) : bool :=
  if is_loopback (peer_ip a) then bool_decide (peer_socket a = peer_socket other) else bool_decide (peer_ip a = peer_ip other).

(** What [Hash for PeerAddr] feeds to the hasher *)
Inductive AddrKey := WholeAddr (a : SocketAddr) | IpOnly (ip : IpAddr).
#[export] Instance addr_key_eq_dec : EqDecision AddrKey.
Proof. solve_decision. Defined.
#[export] Instance addr_key_countable : Countable AddrKey.
Proof.
  refine (inj_countable' (fun k => match k with WholeAddr a => inl a | IpOnly ip => inr ip end)
    (fun x => match x with inl a => WholeAddr a | inr ip => IpOnly ip end) _). intros []; done.
Defined.
Definition addr_key (a : PeerAddr) : AddrKey :=
  if is_loopback (peer_ip a) then WholeAddr (peer_socket a) else IpOnly (peer_ip a).

(** [PeerAddr::as_key]: the ip, and the port for a loopback address, instead of their text *)
Definition as_key (a : PeerAddr) : IpAddr * option Z :=
  if is_loopback (peer_ip a) then (peer_ip a, Some (peer_port a)) else (peer_ip a, None).

(** [PeerAddr::from_ip] *)
Definition from_ip (ct : ChainTypes) (ip : IpAddr) : PeerAddr :=
  mkPeerAddr (socket_addr ip (if bool_decide (ct = Floonet) then 13514 else 3514)).

(** [Ipv6Addr::to_ipv4]: of an IPv4-compatible or IPv4-mapped address *)
Definition to_ipv4 (segments : list Z) : option bytes :=
  match segments with
  | [0; 0; 0; 0; 0; f; g; h] => if (f =? 0) || (f =? 0xffff) then Some (be_bytes 2 g ++ be_bytes 2 h) else None
  | _ => None
  end.

(** [Writeable for PeerAddr], [Readable for PeerAddr] *)
#[export] Instance write_peer_addr : Writeable PeerAddr := fun _ a =>
  match peer_ip a with
  | Ipv4 octets => write_u8 0 ++ write_fixed_bytes octets ++ write_u16 (peer_port a)
  | Ipv6 segments => write_u8 1 ++ concat (map write_u16 segments) ++ write_u16 (peer_port a)
  end.
Fixpoint read_each {R A} `{!Reader R} (rd : R -> res Error (A * R)) (n : nat) : R -> res Error (list A * R) :=
  match n with
  | O => read_ret []
  | S n => let! x := rd in let! l := read_each rd n in read_ret (x :: l)
  end.
Definition peer_addr_read {R} `{!Reader R} : R -> res Error (PeerAddr * R) :=
  let! v4_or_v6 := read_u8 in
  if v4_or_v6 =? 0 then
    let! ip := read_fixed_bytes 4 in
    let! port := read_u16 in
    read_ret (mkPeerAddr (socket_addr (Ipv4 ip) port))
  else
    let! ip := read_each read_u16 8 in
    let! port := read_u16 in
    match to_ipv4 ip with
    | Some ipv4 => read_ret (mkPeerAddr (socket_addr (Ipv4 ipv4) port))
    | None => read_ret (mkPeerAddr (socket_addr (Ipv6 ip) port))
    end.

(** ** Capabilities, directions, reasons *)

(** A [bitflags] of 32 bits *)
Record Capabilities := mkCapabilities { bits : Z }.
#[export] Instance capabilities_eq_dec : EqDecision Capabilities.
Proof. solve_decision. Defined.
Definition UNKNOWN : Capabilities := mkCapabilities 0.
Definition HEADER_HIST : Capabilities := mkCapabilities 1.
Definition TXHASHSET_HIST : Capabilities := mkCapabilities 2.
Definition PEER_LIST : Capabilities := mkCapabilities 4.
Definition TX_KERNEL_HASH : Capabilities := mkCapabilities 8.
Definition FULL_NODE : Capabilities := mkCapabilities (Z.lor (Z.lor (Z.lor 1 2) 4) 8).
Definition from_bits_truncate (b : Z) : Capabilities := mkCapabilities (Z.land b (bits FULL_NODE)).
Definition contains (c other : Capabilities) : bool := Z.land (bits c) (bits other) =? bits other.

Inductive Direction := Inbound | Outbound.
#[export] Instance direction_eq_dec : EqDecision Direction.
Proof. solve_decision. Defined.

Inductive ReasonForBan :=
| NoReason | BadBlock | BadCompactBlock | BadBlockHeader | BadTxHashSet | ManualBan | FraudHeight | BadHandshake.
#[export] Instance reason_eq_dec : EqDecision ReasonForBan.
Proof. solve_decision. Defined.
Definition reason_as_i32 (r : ReasonForBan) : Z :=
  match r with
  | NoReason => 0 | BadBlock => 1 | BadCompactBlock => 2 | BadBlockHeader => 3 | BadTxHashSet => 4 | ManualBan => 5
  | FraudHeight => 6 | BadHandshake => 7
  end.
Definition reason_from_i32 (n : Z) : option ReasonForBan :=
  find (fun r => reason_as_i32 r =? n) [NoReason; BadBlock; BadCompactBlock; BadBlockHeader; BadTxHashSet; ManualBan; FraudHeight; BadHandshake].

(** ** Peers *)

Record PeerLiveInfo := mkLiveInfo {
  live_difficulty : Difficulty; live_height : Z; live_last_seen : Z; stuck_detector : Z; live_first_seen : Z }.
(** [PeerLiveInfo::new] *)
Definition live_info_new (now : Z) (difficulty : Difficulty) : PeerLiveInfo := mkLiveInfo difficulty 0 now now now.

Record PeerInfo := mkPeerInfo {
  peer_capabilities : Capabilities; user_agent : bytes; peer_version : Z; peer_addr : PeerAddr; direction : Direction;
  live_info : PeerLiveInfo }.

(** [PeerInfo::is_outbound], [is_inbound], [total_difficulty], [height], [last_seen], [first_seen] *)
Definition is_outbound (p : PeerInfo) : bool := bool_decide (direction p = Outbound).
Definition is_inbound (p : PeerInfo) : bool := bool_decide (direction p = Inbound).
Definition peer_total_difficulty (p : PeerInfo) : Difficulty := live_difficulty (live_info p).
Definition peer_height (p : PeerInfo) : Z := live_height (live_info p).
Definition last_seen (p : PeerInfo) : Z := live_last_seen (live_info p).
Definition first_seen (p : PeerInfo) : Z := live_first_seen (live_info p).

(** [PeerInfo::update] *)
Definition peer_update (now : Z) (p : PeerInfo) (height : Z) (total_difficulty : Difficulty) : PeerInfo :=
  let l := live_info p in
  let stuck := if bool_decide (total_difficulty <> live_difficulty l) then now else stuck_detector l in
  mkPeerInfo (peer_capabilities p) (user_agent p) (peer_version p) (peer_addr p) (direction p)
    (mkLiveInfo total_difficulty height now stuck (live_first_seen l)).

(** ** Configuration *)

Inductive Seeding := SeedNone | SeedList | DNSSeed | Programmatic.
Record P2PConfig := mkP2PConfig {
  host : IpAddr; config_port : Z; seeding_type : Seeding; seeds : option (list PeerAddr); capabilities : Capabilities;
  peers_allow : option (list PeerAddr); peers_deny : option (list PeerAddr); peers_preferred : option (list PeerAddr);
  config_ban_window : option Z; config_max_inbound : option Z; config_max_outbound : option Z;
  config_min_preferred_outbound : option Z; config_listener_buffer : option Z; dandelion_peer : option PeerAddr }.

(** [Default for P2PConfig]: the address 0.0.0.0 *)
Definition p2p_config_default : P2PConfig :=
  mkP2PConfig (Ipv4 [0; 0; 0; 0]) 3514 DNSSeed None FULL_NODE None None None None None None None None None.

(** [ban_window] and its siblings *)
Definition ban_window (c : P2PConfig) : Z := default BAN_WINDOW (config_ban_window c).
Definition peer_max_inbound_count (c : P2PConfig) : Z := default PEER_MAX_INBOUND_COUNT (config_max_inbound c).
Definition peer_max_outbound_count (c : P2PConfig) : Z := default PEER_MAX_OUTBOUND_COUNT (config_max_outbound c).
Definition peer_min_preferred_outbound_count (c : P2PConfig) : Z :=
  default PEER_MIN_PREFERRED_OUTBOUND_COUNT (config_min_preferred_outbound c).
Definition peer_listener_buffer_count (c : P2PConfig) : Z := default PEER_LISTENER_BUFFER_COUNT (config_listener_buffer c).

(** ** The counter of a rate *)

(** An [Entry]; the times are in milliseconds since the epoch *)
Record Entry := mkEntry { entry_bytes : Z; entry_time : Z }.
Definition entry_new (now b : Z) : Entry := mkEntry b now.
Definition new_quiet (b : Z) : Entry := mkEntry b 0.
Definition is_quiet (e : Entry) : bool := entry_time e =? 0.

Record RateCounter := mkRateCounter { last_min_entries : list Entry }.
Definition rate_new : RateCounter := mkRateCounter [].
(** The loop of [truncate] *)
Fixpoint truncate_entries (now : Z) (l : list Entry) : list Entry :=
  match l with
  | e :: l' => if (entry_time e + 60000)%u64 <? now then truncate_entries now l' else l
  | [] => []
  end.
Definition truncate (now : Z) (c : RateCounter) : RateCounter := mkRateCounter (truncate_entries now (last_min_entries c)).
(** [inc], [inc_quiet], [bytes_per_min], [count_per_min] *)
Definition rate_inc (now b : Z) (c : RateCounter) : RateCounter :=
  truncate now (mkRateCounter (last_min_entries c ++ [entry_new now b])).
Definition rate_inc_quiet (now b : Z) (c : RateCounter) : RateCounter :=
  truncate now (mkRateCounter (last_min_entries c ++ [new_quiet b])).
Definition bytes_per_min (c : RateCounter) : Z := foldl (fun s e => (s + entry_bytes e)%u64) 0 (last_min_entries c).
Definition count_per_min (c : RateCounter) : Z := Z.of_nat (length (List.filter (fun e => negb (is_quiet e)) (last_min_entries c))).

(** ** Equality of addresses *)

(** [Eq] and [Hash] agree: two addresses are equal exactly when their keys are. *)
Lemma peer_addr_eq_key a b : peer_addr_eq a b = true <-> addr_key a = addr_key b.
Proof.
  unfold peer_addr_eq, addr_key, peer_ip. destruct (is_loopback (addr_ip (peer_socket a))) eqn:Ea.
  - rewrite bool_decide_eq_true. split; [intros E; rewrite <- E, Ea; done|]. intros E; destruct (is_loopback (addr_ip (peer_socket b))); congruence.
  - rewrite bool_decide_eq_true. split; [intros E; rewrite <- E, Ea; congruence|].
    intros E; destruct (is_loopback (addr_ip (peer_socket b))); congruence.
Qed.

(** ** Reading an address back *)

Definition wf_ip (ip : IpAddr) : Prop :=
  match ip with
  | Ipv4 o => are_bytes o /\ length o = 4%nat
  | Ipv6 s => Forall (fun x => 0 <= x < 2 ^ 16) s /\ length s = 8%nat
  end.
Definition wf_peer_addr (a : PeerAddr) : Prop := wf_ip (peer_ip a) /\ 0 <= peer_port a < 2 ^ 16.

(** What a peer takes an address for: IPv6 forms of an IPv4 address become that address, labels and scopes are lost. *)
Definition received (a : PeerAddr) : PeerAddr :=
  mkPeerAddr (socket_addr
    (match peer_ip a with
     | Ipv6 s => match to_ipv4 s with Some o => Ipv4 o | None => Ipv6 s end
     | ip => ip
     end) (peer_port a)).

Section AddrReads.
  Context {R : Type} `{!Reader R} `{!ReaderLaws R}.

Lemma reads_each {A} v (rd : R -> res Error (A * R)) (enc : A -> bytes) l :
  Forall (fun a => reads v rd (enc a) a) l -> reads v (read_each rd (length l)) (concat (map enc l)) l.
Proof.
  induction 1 as [|a l Ha _ IH]; cbn [length read_each map concat]; [apply reads_ret|].
  eapply reads_bind; [exact Ha|]. eapply reads_bind_last; [exact IH|apply reads_ret].
Qed.

Lemma reads_peer_addr v w a : wf_peer_addr a -> reads (R := R) v peer_addr_read (write w a) (received a).
Proof.
  intros [Hip Hp]. unfold write, write_peer_addr, peer_addr_read, received. destruct (peer_ip a) as [o|s]; cbn [wf_ip] in Hip; destruct Hip as [Hb Hl].
  - eapply reads_bind; [apply reads_u8; lia|]. rewrite Z.eqb_refl. eapply reads_bind; [apply reads_fixed; [unfold write_fixed_bytes; rewrite Hl; done|lia]|].
    eapply reads_bind_last; [apply reads_u16, Hp|]. apply reads_ret.
  - eapply reads_bind; [apply reads_u8; lia|]. change (1 =? 0) with false. cbv iota. rewrite <- Hl.
    eapply reads_bind; [apply reads_each; eapply List.Forall_impl; [|exact Hb]; intros x Hx; apply reads_u16, Hx|].
    eapply reads_bind_last; [apply reads_u16, Hp|]. destruct (to_ipv4 s); apply reads_ret.
Qed.
End AddrReads.

(** The IPv6 loopback address is read as the address 0.0.0.1, which is not a loopback address. *)
Lemma ipv6_loopback_lost port : received (mkPeerAddr (socket_addr (Ipv6 [0; 0; 0; 0; 0; 0; 0; 1]) port)) =
  mkPeerAddr (socket_addr (Ipv4 [0; 0; 0; 1]) port).
Proof. reflexivity. Qed.

(** ** What a counter counts *)

(** A run of loud increments: the time and the bytes of each *)
Definition rate_run (trace : list (Z * Z)) : RateCounter := foldl (fun c x => rate_inc x.1 x.2 c) rate_new trace.
Definition young (now : Z) (e : Entry) : bool := now <=? entry_time e + 60000.
Definition entries_of (trace : list (Z * Z)) : list Entry := map (fun x => entry_new x.1 x.2) trace.
Definition clock_runs (trace : list (Z * Z)) : Prop :=
  StronglySorted Z.le (map fst trace) /\ Forall (fun x => 0 < x.1 < 2 ^ 63) trace.

Lemma truncate_young now l : StronglySorted Z.le (map entry_time l) -> Forall (fun e => 0 < entry_time e < 2 ^ 63) l ->
  truncate_entries now l = List.filter (young now) l.
Proof.
  intros Hs Hl. induction l as [|e l IH]; [done|]. cbn [map] in Hs. apply StronglySorted_inv in Hs as [Hs Hf].
  apply Forall_cons_1 in Hl as [He Hl]. cbn [truncate_entries List.filter]. rewrite add64_small by lia. unfold young at 1.
  destruct (Z.ltb_spec (entry_time e + 60000) now) as [Hlt|Hge].
  - rewrite (proj2 (Z.leb_gt _ _)) by lia. apply IH; done.
  - rewrite (proj2 (Z.leb_le _ _)) by lia. f_equal. symmetry. apply forallb_filter_id. apply forallb_forall. intros x Hx.
    apply Z.leb_le. apply (in_map entry_time) in Hx. rewrite List.Forall_forall in Hf. specialize (Hf _ Hx). lia.
Qed.
Lemma young_later now now' l : now <= now' -> List.filter (young now') (List.filter (young now) l) = List.filter (young now') l.
Proof.
  intros Hn. induction l as [|e l IH]; [done|]. cbn [List.filter]. unfold young at 2. destruct (Z.leb_spec now (entry_time e + 60000)).
  - cbn [List.filter]. rewrite IH. done.
  - rewrite IH. unfold young at 2. rewrite (proj2 (Z.leb_gt _ _)) by lia. done.
Qed.
Lemma entries_sorted_filter f l : StronglySorted Z.le (map entry_time l) -> StronglySorted Z.le (map entry_time (List.filter f l)).
Proof.
  induction l as [|e l IH]; [done|]. cbn [map List.filter]. intros Hs. apply StronglySorted_inv in Hs as [Hs Hf].
  destruct (f e); [|apply IH, Hs]. cbn [map]. constructor; [apply IH, Hs|]. rewrite List.Forall_forall in *. intros t Ht.
  apply Hf. apply in_map_iff in Ht as (x & <- & Hx). apply filter_In in Hx as [Hx _]. apply in_map, Hx.
Qed.
Lemma sorted_snoc (l : list Z) x : StronglySorted Z.le (l ++ [x]) -> StronglySorted Z.le l /\ Forall (fun y => y <= x) l.
Proof.
  induction l as [|y l IH]; intros Hs; [split; constructor|]. cbn [app] in Hs. apply StronglySorted_inv in Hs as [Hs Hf]. destruct (IH Hs) as [Hs' Hl].
  apply List.Forall_app in Hf as [Hf Hx]. split; [constructor; done|]. constructor; [inversion Hx; done|done].
Qed.
Lemma sorted_snoc_intro (l : list Z) x : StronglySorted Z.le l -> Forall (fun y => y <= x) l -> StronglySorted Z.le (l ++ [x]).
Proof.
  induction 1 as [|y l Hs IH Hf]; intros Hl; [repeat constructor|]. apply Forall_cons_1 in Hl as [Hy Hl]. cbn [app]. constructor; [apply IH, Hl|].
  apply List.Forall_app. split; [done|repeat constructor; done].
Qed.

(** The counter holds exactly the transfers of the minute before the last one. *)
Lemma rate_run_spec trace now b : clock_runs (trace ++ [(now, b)]) ->
  last_min_entries (rate_run (trace ++ [(now, b)])) = List.filter (young now) (entries_of (trace ++ [(now, b)])).
Proof.
  revert now b. induction trace as [|[t b0] trace IH] using rev_ind; intros now b [Hs Hf].
  - cbn [app] in *. apply Forall_cons_1 in Hf as [Hn _]. cbn [fst] in Hn. unfold rate_run. cbn [foldl]. unfold rate_inc, truncate.
    cbn [last_min_entries rate_new app fst snd]. apply truncate_young; [repeat constructor|]. constructor; [exact Hn|constructor].
  - unfold rate_run. rewrite foldl_app. cbn [foldl]. fold (rate_run (trace ++ [(t, b0)])). unfold rate_inc, truncate. cbn [last_min_entries fst snd].
    rewrite map_app in Hs. cbn [map fst] in Hs. apply sorted_snoc in Hs as [Hs Hle]. apply Forall_app in Hf as [Hf Hn]. apply Forall_cons_1 in Hn as [Hn _].
    cbn [fst] in Hn. assert (Ht : t <= now). { rewrite map_app in Hle. apply Forall_app in Hle as [_ Hle]. apply Forall_cons_1 in Hle as [Hle _]. exact Hle. }
    rewrite (IH t b0) by (split; done).
    assert (He : Forall (fun e => 0 < entry_time e < 2 ^ 63) (entries_of (trace ++ [(t, b0)]))).
    { apply List.Forall_map. exact Hf. }
    assert (Hes : StronglySorted Z.le (map entry_time (entries_of (trace ++ [(t, b0)])))).
    { unfold entries_of. rewrite map_map. exact Hs. }
    assert (Hall : Forall (fun e => entry_time e <= now) (entries_of (trace ++ [(t, b0)]))).
    { apply List.Forall_map. rewrite List.Forall_map in Hle. exact Hle. }
    rewrite truncate_young.
    + rewrite filter_app, young_later by exact Ht. unfold entries_of at 2. rewrite (map_app _ (trace ++ _)), filter_app. done.
    + rewrite map_app. apply sorted_snoc_intro; [apply entries_sorted_filter, Hes|]. apply List.Forall_map, List.Forall_forall. intros x Hx.
      apply filter_In in Hx as [Hx _]. rewrite List.Forall_forall in Hall. apply Hall, Hx.
    + apply List.Forall_app. split; [|repeat constructor; apply Hn]. apply List.Forall_forall. intros x Hx. apply filter_In in Hx as [Hx _].
      rewrite List.Forall_forall in He. apply He, Hx.
Qed.

(** A quiet entry at the front is dropped at once, whatever its bytes. *)
Lemma quiet_bytes_vanish now b l : 60000 < now < 2 ^ 63 -> truncate_entries now (new_quiet b :: l) = truncate_entries now l.
Proof. intros Hn. cbn [truncate_entries new_quiet entry_time]. rewrite (proj2 (Z.ltb_lt _ _)); [done|]. rewrite add64_small; lia. Qed.
