(* ===== verification/P2pMsg.v ===== *)
(** * Messages of the network

    Models [p2p/src/msg.rs]: the header of a message with its limits, the messages and their binary forms, and the reading and
    writing of a message on a stream.

    A stream is the bytes still to come; a stream that ends fails with a connection error.  A [String] is its bytes. *)

From Stdlib Require Import ZArith Lia List Bool String.
From stdpp Require Import base numbers list option gmap.
From S2P Require Import Prelude Bytes Consensus Ser Transaction TxBody Committed PowTypes Block ChainTypes Base58 PeerTypes.

(** The user agent; the version is the one of the package. *)
Definition USER_AGENT : bytes := ascii_bytes "MW/Vcash 4.0.0-alpha.1".

Definition OTHER_MAGIC : bytes := [74; 44].
Definition FLOONET_MAGIC : bytes := [84; 60].
Definition MAINNET_MAGIC : bytes := [98; 62].

(** ** Types of messages *)

Inductive MsgType :=
| TError | THand | TShake | TPing | TPong | TGetPeerAddrs | TPeerAddrs | TGetHeaders | THeader | THeaders | TGetBlock | TBlock
| TGetCompactBlock | TCompactBlock | TStemTransaction | TTransaction | TTxHashSetRequest | TTxHashSetArchive | TBanReason
| TGetTransaction | TTransactionKernel.
#[export] Instance msg_type_eq_dec : EqDecision MsgType.
Proof. solve_decision. Defined.

(** [Type as u8] and [Type::from_u8] *)
Definition all_types : list MsgType :=
  [TError; THand; TShake; TPing; TPong; TGetPeerAddrs; TPeerAddrs; TGetHeaders; THeader; THeaders; TGetBlock; TBlock;
   TGetCompactBlock; TCompactBlock; TStemTransaction; TTransaction; TTxHashSetRequest; TTxHashSetArchive; TBanReason;
   TGetTransaction; TTransactionKernel].
Definition type_as_u8 (t : MsgType) : Z :=
  match t with
  | TError => 0 | THand => 1 | TShake => 2 | TPing => 3 | TPong => 4 | TGetPeerAddrs => 5 | TPeerAddrs => 6 | TGetHeaders => 7
  | THeader => 8 | THeaders => 9 | TGetBlock => 10 | TBlock => 11 | TGetCompactBlock => 12 | TCompactBlock => 13
  | TStemTransaction => 14 | TTransaction => 15 | TTxHashSetRequest => 16 | TTxHashSetArchive => 17 | TBanReason => 18
  | TGetTransaction => 19 | TTransactionKernel => 20
  end.
Definition type_from_u8 (n : Z) : option MsgType := find (fun t => type_as_u8 t =? n) all_types.

(** [max_block_size], [default_max_msg_size], [max_msg_size] *)
Definition max_block_size (ct : ChainTypes) : Z := max_block_weight ct / BLOCK_OUTPUT_WEIGHT * 708.
Definition default_max_msg_size (ct : ChainTypes) : Z := max_block_size ct.
Definition max_msg_size (ct : ChainTypes) (t : MsgType) : Z :=
  match t with
  | TError => 0
  | THand => 128
  | TShake => 88
  | TPing | TPong => 16
  | TGetPeerAddrs => 4
  | TPeerAddrs => 4 + (1 + 16 + 2) * MAX_PEER_ADDRS
  | TGetHeaders => 1 + 32 * MAX_LOCATORS
  | THeader => 365 + 800
  | THeaders => 2 + (365 + 800) * MAX_BLOCK_HEADERS
  | TGetBlock => 32
  | TBlock => max_block_size ct
  | TGetCompactBlock => 32
  | TCompactBlock => max_block_size ct / 10
  | TStemTransaction | TTransaction => max_block_size ct
  | TTxHashSetRequest => 40
  | TTxHashSetArchive => 64
  | TBanReason => 64
  | TGetTransaction => 32
  | TTransactionKernel => 32
  end.

Definition magic (ct : ChainTypes) : bytes :=
  match ct with Floonet => FLOONET_MAGIC | Mainnet => MAINNET_MAGIC | _ => OTHER_MAGIC end.

(** ** Headers of messages *)

Record MsgHeader := mkMsgHeader { msg_magic : bytes; msg_type : MsgType; msg_len : Z }.
Inductive MsgHeaderWrapper :=
| Known (h : MsgHeader)
| Unknown (msg_len : Z) (type_byte : Z).

(** [MsgHeader::LEN], [MsgHeader::new] *)
Definition HEADER_LEN : nat := 2 + 1 + 8.
Definition msg_header_new (ct : ChainTypes) (t : MsgType) (len : Z) : MsgHeader := mkMsgHeader (magic ct) t len.

(** [Writeable for MsgHeader], [Readable for MsgHeaderWrapper] *)
#[export] Instance write_msg_header : Writeable MsgHeader := fun _ h =>
  write_u8 (default 0 (msg_magic h !! 0%nat)) ++ write_u8 (default 0 (msg_magic h !! 1%nat)) ++ write_u8 (type_as_u8 (msg_type h)) ++
  write_u64 (msg_len h).
Definition msg_header_read {R} `{!Reader R} (ct : ChainTypes) : R -> res Error (MsgHeaderWrapper * R) :=
  let m := magic ct in
  let! _ := expect_u8 (default 0 (m !! 0%nat)) in
  let! _ := expect_u8 (default 0 (m !! 1%nat)) in
  let! t := read_u8 in
  let! msg_len := read_u64 in
  match type_from_u8 t with
  | Some msg_type =>
    let max_len := (max_msg_size ct msg_type * 4)%u64 in
    if max_len <? msg_len then read_fail TooLargeReadErr else read_ret (Known (mkMsgHeader m msg_type msg_len))
  | None =>
    let max_len := (default_max_msg_size ct * 4)%u64 in
    if max_len <? msg_len then read_fail TooLargeReadErr else read_ret (Unknown msg_len t)
  end.

(** ** Reading from and writing to a stream *)

(** [Read::read_exact] of a connection *)
Definition stream_exact (n : Z) (stream : bytes) : res P2pError (bytes * bytes) :=
  map_err (fun _ => PConnection) (read_exact (Z.to_nat n) stream).

(** [read_header] *)
Definition read_msg_header (ct : ChainTypes) (version : Z) (stream : bytes) : res P2pError (MsgHeaderWrapper * bytes) :=
  let? '(head, stream) := stream_exact (Z.of_nat HEADER_LEN) stream in
  let? '(h, _) := map_err PSerialization (msg_header_read ct (mkBinReader head version)) in
  Ok (h, stream).

(** [read_item]: the item and the bytes it took *)
Definition read_item {A} (rd : StreamingReader -> res Error (A * StreamingReader)) (version : Z) (stream : bytes)
    : res P2pError (A * Z * bytes) :=
  let? '(a, r) := map_err PSerialization (rd (mkStreaming 0 version stream)) in
  Ok (a, total_bytes_read r, Ser.stream r).

(** [read_body], [read_discard] *)
Definition read_body {A} (rd : BinReader -> res Error (A * BinReader)) (h : MsgHeader) (version : Z) (stream : bytes)
    : res P2pError (A * bytes) :=
  let? '(body, stream) := stream_exact (msg_len h) stream in
  let? '(a, _) := map_err PSerialization (rd (mkBinReader body version)) in
  Ok (a, stream).
Definition read_discard (len : Z) (stream : bytes) : res P2pError bytes :=
  let? '(_, stream) := stream_exact len stream in Ok stream.

(** [read_message] *)
Definition read_message {A} (ct : ChainTypes) (rd : BinReader -> res Error (A * BinReader)) (version : Z) (t : MsgType) (stream : bytes)
    : res P2pError (A * bytes) :=
  let? '(h, stream) := read_msg_header ct version stream in
  match h with
  | Known header => if bool_decide (msg_type header = t) then read_body rd header version stream else Err BadMessage
  | Unknown len _ => let? _ := read_discard len stream in Err BadMessage
  end.

(** [Msg]; an attachment is the contents of its file *)
Record Msg := mkMsg { msg_header : MsgHeader; msg_body : bytes; attachment : option bytes; msg_version : Z }.
(** [Msg::new], [add_attachment] *)
Definition msg_new {A} `{!Writeable A} (ct : ChainTypes) (t : MsgType) (msg : A) (version : Z) : Msg :=
  let body := ser_vec msg version in mkMsg (msg_header_new ct t (Z.of_nat (length body))) body None version.
Definition add_attachment (m : Msg) (file : bytes) : Msg := mkMsg (msg_header m) (msg_body m) (Some file) (msg_version m).

(** The chunks of at most 8000 bytes of an attachment; the fuel is the length of the file *)
Fixpoint send_chunks (fuel : nat) (now : Z) (file : bytes) (sent : RateCounter) : RateCounter :=
  match fuel, file with
  | S fuel, _ :: _ => send_chunks fuel now (drop 8000 file) (rate_inc_quiet now (Z.of_nat (length (take 8000 file))) sent)
  | _, _ => sent
  end.
(** [write_message]: the bytes written, and the counter of the sent bytes *)
Definition write_message (now : Z) (m : Msg) (sent : RateCounter) : bytes * RateCounter :=
  let buf := ser_vec (msg_header m) (msg_version m) ++ msg_body m in
  let sent := rate_inc now (Z.of_nat (length buf)) sent in
  match attachment m with
  | Some file => (buf ++ file, send_chunks (length file) now file sent)
  | None => (buf, sent)
  end.

(** ** Strings *)

Definition tail_byte (b : Z) : bool := (0x80 <=? b) && (b <? 0xC0).
(** [String::from_utf8] *)
Fixpoint valid_utf8 (l : bytes) : bool :=
  match l with
  | [] => true
  | a :: l1 =>
    if a <? 0x80 then valid_utf8 l1
    else
      match l1 with
      | [] => false
      | b :: l2 =>
        if (0xC2 <=? a) && (a <? 0xE0) then tail_byte b && valid_utf8 l2
        else
          match l2 with
          | [] => false
          | c :: l3 =>
            if (0xE0 <=? a) && (a <? 0xF0) then
              tail_byte b && tail_byte c && negb ((a =? 0xE0) && (b <? 0xA0)) && negb ((a =? 0xED) && (0xA0 <=? b)) && valid_utf8 l3
            else
              match l3 with
              | [] => false
              | d :: l4 =>
                (0xF0 <=? a) && (a <? 0xF5) && tail_byte b && tail_byte c && tail_byte d &&
                negb ((a =? 0xF0) && (b <? 0x90)) && negb ((a =? 0xF4) && (0x90 <=? b)) && valid_utf8 l4
              end
          end
      end
  end.
Definition string_read {R} `{!Reader R} : R -> res Error (bytes * R) :=
  let! b := read_bytes_len_prefix in
  if valid_utf8 b then read_ret b else read_fail CorruptedData.

(** ** Handshake messages *)

Definition capabilities_read {R} `{!Reader R} : R -> res Error (Capabilities * R) :=
  let! capab := read_u32 in read_ret (from_bits_truncate capab).

Record Hand := mkHand {
  hand_version : Z; hand_capabilities : Capabilities; hand_nonce : Z; hand_genesis : bytes; hand_difficulty : Difficulty;
  sender_addr : PeerAddr; receiver_addr : PeerAddr; hand_user_agent : bytes }.
#[export] Instance write_hand : Writeable Hand := fun w h =>
  write_u32 (hand_version h) ++ write_u32 (bits (hand_capabilities h)) ++ write_u64 (hand_nonce h) ++ write w (hand_difficulty h) ++
  write w (sender_addr h) ++ write w (receiver_addr h) ++ write_bytes (hand_user_agent h) ++ write_fixed_bytes (hand_genesis h).
Record Shake := mkShake {
  shake_version : Z; shake_capabilities : Capabilities; shake_genesis : bytes; shake_difficulty : Difficulty; shake_user_agent : bytes }.
#[export] Instance write_shake : Writeable Shake := fun w s =>
  write_u32 (shake_version s) ++ write_u32 (bits (shake_capabilities s)) ++ write w (shake_difficulty s) ++
  write_bytes (shake_user_agent s) ++ write_fixed_bytes (shake_genesis s).

(** ** Other messages *)

Record GetPeerAddrs := mkGetPeerAddrs { get_capabilities : Capabilities }.
#[export] Instance write_get_peer_addrs : Writeable GetPeerAddrs := fun _ m => write_u32 (bits (get_capabilities m)).
Record PeerAddrs := mkPeerAddrs { addrs_peers : list PeerAddr }.
#[export] Instance write_peer_addrs : Writeable PeerAddrs := fun w m =>
  write_u32 (Z.of_nat (length (addrs_peers m))) ++ concat (map (write w) (addrs_peers m)).
Record PeerErrorMsg := mkPeerError { error_code : Z; error_message : bytes }.
#[export] Instance write_peer_error : Writeable PeerErrorMsg := fun _ m => write_u32 (error_code m) ++ write_bytes (error_message m).
Record Locator := mkLocator { locator_hashes : list bytes }.
#[export] Instance write_locator : Writeable Locator := fun _ m =>
  write_u8 (Z.of_nat (length (locator_hashes m))) ++ concat (map write_fixed_bytes (locator_hashes m)).
Record Headers := mkHeaders { headers_list : list BlockHeader }.
Definition write_headers (ct : ChainTypes) : Writeable Headers := fun w m =>
  write_u16 (Z.of_nat (length (headers_list m))) ++ concat (map (@write _ (write_header ct) w) (headers_list m)).
(** [Ping] and [Pong] have the same fields and forms. *)
Record Ping := mkPing { ping_difficulty : Difficulty; ping_height : Z }.
#[export] Instance write_ping : Writeable Ping := fun w m => write w (ping_difficulty m) ++ write_u64 (ping_height m).
Record Pong := mkPong { pong_difficulty : Difficulty; pong_height : Z }.
#[export] Instance write_pong : Writeable Pong := fun w m => write w (pong_difficulty m) ++ write_u64 (pong_height m).
Record BanReason := mkBanReason { ban_reason : ReasonForBan }.
#[export] Instance write_ban_reason : Writeable BanReason := fun _ m => write_i32 (reason_as_i32 (ban_reason m)).
Record TxHashSetRequest := mkTxHashSetRequest { request_hash : bytes; request_height : Z }.
#[export] Instance write_txhashset_request : Writeable TxHashSetRequest := fun _ m =>
  write_fixed_bytes (request_hash m) ++ write_u64 (request_height m).
Record TxHashSetArchive := mkTxHashSetArchive { archive_hash : bytes; archive_height : Z; archive_bytes : Z }.
#[export] Instance write_txhashset_archive : Writeable TxHashSetArchive := fun _ m =>
  write_fixed_bytes (archive_hash m) ++ write_u64 (archive_height m) ++ write_u64 (archive_bytes m).

Section Readers.
  Context {R : Type} `{!Reader R}.

Definition hand_read : R -> res Error (Hand * R) :=
  let! version := read_u32 in
  let! capab := read_u32 in
  let! nonce := read_u64 in
  let! total_difficulty := difficulty_read in
  let! sender_addr := peer_addr_read in
  let! receiver_addr := peer_addr_read in
  let! user_agent := string_read in
  let! genesis := hash_read in
  read_ret (mkHand version (from_bits_truncate capab) nonce genesis total_difficulty sender_addr receiver_addr user_agent).
Definition shake_read : R -> res Error (Shake * R) :=
  let! version := read_u32 in
  let! capabilities := capabilities_read in
  let! total_difficulty := difficulty_read in
  let! user_agent := string_read in
  let! genesis := hash_read in
  read_ret (mkShake version capabilities genesis total_difficulty user_agent).
Definition get_peer_addrs_read : R -> res Error (GetPeerAddrs * R) :=
  let! capabilities := capabilities_read in read_ret (mkGetPeerAddrs capabilities).
Definition peer_addrs_read : R -> res Error (PeerAddrs * R) :=
  let! peer_count := read_u32 in
  if MAX_PEER_ADDRS <? peer_count then read_fail TooLargeReadErr
  else if peer_count =? 0 then read_ret (mkPeerAddrs [])
  else let! peers := read_each peer_addr_read (Z.to_nat peer_count) in read_ret (mkPeerAddrs peers).
Definition peer_error_read : R -> res Error (PeerErrorMsg * R) :=
  let! code := read_u32 in
  let! message := string_read in
  read_ret (mkPeerError code message).
Definition locator_read : R -> res Error (Locator * R) :=
  let! len := read_u8 in
  if MAX_LOCATORS <? len then read_fail TooLargeReadErr
  else let! hashes := read_each hash_read (Z.to_nat len) in read_ret (mkLocator hashes).
Definition ping_read : R -> res Error (Ping * R) :=
  let! total_difficulty := difficulty_read in
  let! height := read_u64 in
  read_ret (mkPing total_difficulty height).
Definition pong_read : R -> res Error (Pong * R) :=
  let! total_difficulty := difficulty_read in
  let! height := read_u64 in
  read_ret (mkPong total_difficulty height).
(** A reason that cannot be read is none. *)
Definition ban_reason_read : R -> res Error (BanReason * R) := fun r =>
  let? '(n, r) := match read_i32 r with Ok (h, r) => Ok (h, r) | Err _ => Ok (0, r) | Panic => Panic end in
  match reason_from_i32 n with Some reason => Ok (mkBanReason reason, r) | None => Err CorruptedData end.
Definition txhashset_request_read : R -> res Error (TxHashSetRequest * R) :=
  let! hash := hash_read in
  let! height := read_u64 in
  read_ret (mkTxHashSetRequest hash height).
Definition txhashset_archive_read : R -> res Error (TxHashSetArchive * R) :=
  let! hash := hash_read in
  let! height := read_u64 in
  let! bytes := read_u64 in
  read_ret (mkTxHashSetArchive hash height bytes).
End Readers.

(** ** Reading back what was written *)

Definition wf_caps (c : Capabilities) : Prop := from_bits_truncate (bits c) = c /\ 0 <= bits c.
Definition wf_string (s : bytes) : Prop := valid_utf8 s = true /\ Z.of_nat (length s) <= 100000.
Definition wf_difficulty (d : Difficulty) : Prop := 0 <= num d < 2 ^ 64.

Lemma caps_bits c : wf_caps c -> 0 <= bits c < 2 ^ 32.
Proof.
  intros [E H0]. unfold from_bits_truncate in E. rewrite <- E. cbn [bits]. split; [apply Z.land_nonneg; left; exact H0|].
  change (bits FULL_NODE) with (Z.ones 4). rewrite Z.land_ones by lia. pose proof (Z.mod_pos_bound (bits c) (2 ^ 4) ltac:(lia)). lia.
Qed.

Lemma type_u8_roundtrip t : type_from_u8 (type_as_u8 t) = Some t /\ 0 <= type_as_u8 t < 2 ^ 8.
Proof. destruct t; split; try reflexivity; cbn; lia. Qed.
Lemma type_of_u8 n t : type_from_u8 n = Some t -> type_as_u8 t = n.
Proof. unfold type_from_u8. intros H. apply find_some in H as [_ H]. apply Z.eqb_eq, H. Qed.
Lemma magic_bytes ct : exists a b, magic ct = [a; b] /\ 0 <= a < 2 ^ 8 /\ 0 <= b < 2 ^ 8.
Proof. destruct ct; eexists _, _; (split; [reflexivity|lia]). Qed.

(** A limit, four times over, is no larger than 64 bits hold. *)
Lemma max_msg_size_small ct t : 0 <= max_msg_size ct t < 2 ^ 32 /\ 0 <= default_max_msg_size ct < 2 ^ 32.
Proof. destruct ct, t; vm_compute; repeat split; congruence. Qed.

Section RoundTrips.
  Context {R : Type} `{!Reader R} `{!ReaderLaws R}.

Lemma reads_prefixed v s : Z.of_nat (length s) <= 100000 -> reads (R := R) v read_bytes_len_prefix (write_bytes s) s.
Proof.
  intros Hs r rest Hv Hr. destruct (read_prefixed_ok s rest r Hr Hs) as (r' & E & H' & Hv'). exists r'. split; [exact E|]. split; [exact H'|congruence].
Qed.
Lemma reads_string v s : wf_string s -> reads (R := R) v string_read (write_bytes s) s.
Proof. intros [Hu Hl]. eapply reads_bind_last; [apply reads_prefixed, Hl|]. rewrite Hu. apply reads_ret. Qed.
Lemma reads_caps v c : wf_caps c -> reads (R := R) v capabilities_read (write_u32 (bits c)) c.
Proof. intros Hc. eapply reads_bind_last; [apply reads_u32, caps_bits, Hc|]. rewrite (proj1 Hc). apply reads_ret. Qed.
Lemma reads_difficulty v w d : wf_difficulty d -> reads (R := R) v difficulty_read (write w d) d.
Proof. intros Hd. eapply reads_bind_last; [apply reads_u64, Hd|]. destruct d. apply reads_ret. Qed.

Record wf_hand (h : Hand) : Prop := {
  wf_hand_version : is_u32 (hand_version h);
  wf_hand_caps : wf_caps (hand_capabilities h);
  wf_hand_nonce : is_u64 (hand_nonce h);
  wf_hand_genesis : wf_hash (hand_genesis h);
  wf_hand_difficulty : wf_difficulty (hand_difficulty h);
  wf_hand_addrs : wf_peer_addr (sender_addr h) /\ wf_peer_addr (receiver_addr h);
  wf_hand_agent : wf_string (hand_user_agent h)
}.
(** A handshake arrives with its addresses as [received] says. *)
Definition hand_received (h : Hand) : Hand :=
  mkHand (hand_version h) (hand_capabilities h) (hand_nonce h) (hand_genesis h) (hand_difficulty h)
    (received (sender_addr h)) (received (receiver_addr h)) (hand_user_agent h).

Lemma reads_hand v w h : wf_hand h -> reads (R := R) v hand_read (write w h) (hand_received h).
Proof.
  intros [H1 H2 H3 H4 H5 [H6 H7] H8]. unfold hand_read, write, write_hand.
  eapply reads_bind; [apply reads_u32, H1|]. eapply reads_bind; [apply reads_u32, caps_bits, H2|].
  eapply reads_bind; [apply reads_u64, H3|]. eapply reads_bind; [apply reads_difficulty, H5|].
  eapply reads_bind; [apply reads_peer_addr, H6|]. eapply reads_bind; [apply reads_peer_addr, H7|].
  eapply reads_bind; [apply reads_string, H8|]. eapply reads_bind_last; [apply reads_hash, H4|].
  rewrite (proj1 H2). apply reads_ret.
Qed.

Record wf_shake (s : Shake) : Prop := {
  wf_shake_version : is_u32 (shake_version s);
  wf_shake_caps : wf_caps (shake_capabilities s);
  wf_shake_genesis : wf_hash (shake_genesis s);
  wf_shake_difficulty : wf_difficulty (shake_difficulty s);
  wf_shake_agent : wf_string (shake_user_agent s)
}.
Lemma reads_shake v w s : wf_shake s -> reads (R := R) v shake_read (write w s) s.
Proof.
  intros [H1 H2 H3 H4 H5]. unfold shake_read, write, write_shake.
  eapply reads_bind; [apply reads_u32, H1|]. eapply reads_bind; [apply reads_caps, H2|].
  eapply reads_bind; [apply reads_difficulty, H4|]. eapply reads_bind; [apply reads_string, H5|].
  eapply reads_bind_last; [apply reads_hash, H3|]. destruct s. apply reads_ret.
Qed.

Lemma reads_get_peer_addrs v w m : wf_caps (get_capabilities m) -> reads (R := R) v get_peer_addrs_read (write w m) m.
Proof. intros H. eapply reads_bind_last; [apply reads_caps, H|]. destruct m. apply reads_ret. Qed.

Lemma reads_peer_addr_list v w l : Forall wf_peer_addr l ->
  reads (R := R) v (read_each peer_addr_read (length l)) (concat (map (write w) l)) (map received l).
Proof.
  induction 1 as [|a l Ha _ IH]; cbn [length read_each map concat]; [apply reads_ret|].
  eapply reads_bind; [apply reads_peer_addr, Ha|]. eapply reads_bind_last; [exact IH|apply reads_ret].
Qed.
Lemma reads_peer_addrs v w m : Forall wf_peer_addr (addrs_peers m) -> Z.of_nat (length (addrs_peers m)) <= MAX_PEER_ADDRS ->
  reads (R := R) v peer_addrs_read (write w m) (mkPeerAddrs (map received (addrs_peers m))).
Proof.
  intros Hl Hn. unfold MAX_PEER_ADDRS in Hn. eapply reads_bind; [apply reads_u32; lia|]. unfold MAX_PEER_ADDRS. rewrite (proj2 (Z.ltb_ge _ _)) by lia.
  destruct (Z.eqb_spec (Z.of_nat (length (addrs_peers m))) 0) as [E|E].
  - destruct (addrs_peers m); [|discriminate]. apply reads_ret.
  - rewrite Nat2Z.id. eapply reads_bind_last; [apply reads_peer_addr_list, Hl|apply reads_ret].
Qed.

Lemma reads_peer_error v w m : is_u32 (error_code m) -> wf_string (error_message m) -> reads (R := R) v peer_error_read (write w m) m.
Proof.
  intros H1 H2. eapply reads_bind; [apply reads_u32, H1|]. eapply reads_bind_last; [apply reads_string, H2|]. destruct m. apply reads_ret.
Qed.

Lemma reads_locator v w m : Forall wf_hash (locator_hashes m) -> Z.of_nat (length (locator_hashes m)) <= MAX_LOCATORS ->
  reads (R := R) v locator_read (write w m) m.
Proof.
  intros Hl Hn. unfold MAX_LOCATORS in Hn. eapply reads_bind; [apply reads_u8; lia|]. unfold MAX_LOCATORS. rewrite (proj2 (Z.ltb_ge _ _)) by lia.
  rewrite Nat2Z.id. eapply reads_bind_last; [apply reads_each; eapply List.Forall_impl; [|exact Hl]; intros h Hh; apply reads_hash, Hh|].
  destruct m. apply reads_ret.
Qed.

Lemma reads_ping v w m : wf_difficulty (ping_difficulty m) -> is_u64 (ping_height m) -> reads (R := R) v ping_read (write w m) m.
Proof. intros H1 H2. eapply reads_bind; [apply reads_difficulty, H1|]. eapply reads_bind_last; [apply reads_u64, H2|]. destruct m. apply reads_ret. Qed.
Lemma reads_pong v w m : wf_difficulty (pong_difficulty m) -> is_u64 (pong_height m) -> reads (R := R) v pong_read (write w m) m.
Proof. intros H1 H2. eapply reads_bind; [apply reads_difficulty, H1|]. eapply reads_bind_last; [apply reads_u64, H2|]. destruct m. apply reads_ret. Qed.

Lemma reads_i32 v n : 0 <= n < 2 ^ 31 -> reads (R := R) v read_i32 (write_i32 n) n.
Proof.
  intros H. unfold write_i32. rewrite Z.mod_small by lia. apply reads_decoded; [apply length_be_bytes|].
  rewrite be_val_be_bytes by (change (256 ^ Z.of_nat 4) with (2 * 2 ^ 31); lia). unfold to_signed. change (32 - 1) with 31. rewrite (proj2 (Z.ltb_lt _ _)) by lia. done.
Qed.
Lemma reads_ban_reason v w m : reads (R := R) v ban_reason_read (write w m) m.
Proof.
  destruct m as [reason]. intros r rest Hv Hr.
  assert (Hn : 0 <= reason_as_i32 reason < 2 ^ 31) by (destruct reason; cbn; lia).
  destruct (reads_i32 v _ Hn r rest Hv Hr) as (r' & E & Hr' & Hv'). exists r'. unfold ban_reason_read. rewrite E. cbn [res_bind].
  replace (reason_from_i32 (reason_as_i32 reason)) with (Some reason) by (destruct reason; done). done.
Qed.

Lemma reads_txhashset_request v w m : wf_hash (request_hash m) -> is_u64 (request_height m) ->
  reads (R := R) v txhashset_request_read (write w m) m.
Proof. intros H1 H2. eapply reads_bind; [apply reads_hash, H1|]. eapply reads_bind_last; [apply reads_u64, H2|]. destruct m. apply reads_ret. Qed.
Lemma reads_txhashset_archive v w m : wf_hash (archive_hash m) -> is_u64 (archive_height m) -> is_u64 (archive_bytes m) ->
  reads (R := R) v txhashset_archive_read (write w m) m.
Proof.
  intros H1 H2 H3. eapply reads_bind; [apply reads_hash, H1|]. eapply reads_bind; [apply reads_u64, H2|].
  eapply reads_bind_last; [apply reads_u64, H3|]. destruct m. apply reads_ret.
Qed.
End RoundTrips.

(** ** Framing *)

(** The header of a message of known type and permitted length *)
Definition fits (ct : ChainTypes) (t : MsgType) (len : Z) : Prop := 0 <= len <= max_msg_size ct t * 4.

Lemma limit_exact ct t : (max_msg_size ct t * 4)%u64 = max_msg_size ct t * 4 /\ (default_max_msg_size ct * 4)%u64 = default_max_msg_size ct * 4.
Proof. pose proof (max_msg_size_small ct t) as [H1 H2]. split; (apply mul64_small; lia). Qed.

Section Framing.
  Context {R : Type} `{!Reader R} `{!ReaderLaws R}.

Lemma reads_expect v n : 0 <= n < 2 ^ 8 -> reads (R := R) v (expect_u8 n) (write_u8 n) n.
Proof. intros H. eapply reads_bind_last; [apply reads_u8, H|]. rewrite Z.eqb_refl. apply reads_ret. Qed.

Lemma reads_msg_header v w ct t len : fits ct t len ->
  reads (R := R) v (msg_header_read ct) (write w (msg_header_new ct t len)) (Known (msg_header_new ct t len)).
Proof.
  intros [Hl0 Hl]. pose proof (max_msg_size_small ct t) as [Hm _]. destruct (magic_bytes ct) as (a & b & Em & Ha & Hb).
  destruct (type_u8_roundtrip t) as [Et Ht]. unfold msg_header_read, write, write_msg_header, msg_header_new. cbn [msg_magic msg_type msg_len]. rewrite Em.
  change (default 0 ([a; b] !! 0%nat)) with a. change (default 0 ([a; b] !! 1%nat)) with b.
  eapply reads_bind; [apply reads_expect, Ha|]. eapply reads_bind; [apply reads_expect, Hb|]. eapply reads_bind; [apply reads_u8, Ht|].
  eapply reads_bind_last; [apply reads_u64; lia|]. rewrite Et. destruct (limit_exact ct t) as [-> _].
  rewrite (proj2 (Z.ltb_ge _ _)) by lia. apply reads_ret.
Qed.

(** Whatever header is accepted announces no more than four times the limit of its type. *)
Lemma msg_header_bounded ct (r r' : R) h : msg_header_read ct r = Ok (h, r') ->
  match h with
  | Known h => msg_magic h = magic ct /\ msg_len h <= max_msg_size ct (msg_type h) * 4
  | Unknown len t => type_from_u8 t = None /\ len <= default_max_msg_size ct * 4
  end.
Proof.
  unfold msg_header_read. intros H. apply read_bind_inv in H as (x & r1 & _ & H). apply read_bind_inv in H as (y & r2 & _ & H).
  apply read_bind_inv in H as (t & r3 & _ & H). apply read_bind_inv in H as (len & r4 & _ & H).
  destruct (type_from_u8 t) as [ty|] eqn:Et.
  - destruct (limit_exact ct ty) as [E _]. rewrite E in H. destruct (Z.ltb_spec (max_msg_size ct ty * 4) len); [discriminate|]. injection H as <- <-. done.
  - destruct (limit_exact ct TError) as [_ E]. rewrite E in H. destruct (Z.ltb_spec (default_max_msg_size ct * 4) len); [discriminate|]. injection H as <- <-. done.
Qed.
End Framing.

Lemma stream_exact_ok pre rest : stream_exact (Z.of_nat (length pre)) (pre ++ rest) = Ok (pre, rest).
Proof. unfold stream_exact. rewrite Nat2Z.id, read_exact_ok. done. Qed.

Lemma length_msg_header w (h : MsgHeader) : length (write w h) = HEADER_LEN.
Proof. unfold write, write_msg_header. rewrite !length_app. unfold write_u8, write_u64. rewrite !length_be_bytes. done. Qed.

Lemma read_msg_header_ok ct v t len w rest : fits ct t len ->
  read_msg_header ct v (write w (msg_header_new ct t len) ++ rest) = Ok (Known (msg_header_new ct t len), rest).
Proof.
  intros Hl. unfold read_msg_header. rewrite <- (length_msg_header w (msg_header_new ct t len)). rewrite stream_exact_ok. cbn [res_bind].
  destruct (reads_msg_header (R := BinReader) v w ct t len Hl (mkBinReader (write w (msg_header_new ct t len)) v) []) as (r' & E & _); [done|cbn; rewrite app_nil_r; done|].
  rewrite E. done.
Qed.

(** A message that its reader can read back arrives, whatever version it was written for, followed by whatever comes after it. *)
Lemma message_arrives {A B} `{!Writeable A} ct v v' now t (m : A) (m' : B) rd sent rest :
  reads (R := BinReader) v' rd (write (bin_writer v) m) m' -> fits ct t (Z.of_nat (length (ser_vec m v))) ->
  read_message ct rd v' t ((write_message now (msg_new ct t m v) sent).1 ++ rest) = Ok (m', rest).
Proof.
  intros Hm Hf. unfold write_message, msg_new. cbn [msg_header msg_version msg_body attachment fst]. unfold ser_vec at 1. rewrite <- app_assoc.
  unfold read_message. rewrite read_msg_header_ok by exact Hf. cbn [res_bind msg_type msg_header_new]. rewrite bool_decide_eq_true_2 by done.
  unfold read_body. cbn [msg_len msg_header_new]. rewrite stream_exact_ok. cbn [res_bind].
  destruct (Hm (mkBinReader (ser_vec m v) v') []) as (r' & E & _); [done|cbn; rewrite app_nil_r; done|]. rewrite E. done.
Qed.

(** What a peer accepts from the wire is bounded before it is read *)
Lemma accepted_header_bounded ct v stream h rest : read_msg_header ct v stream = Ok (h, rest) ->
  length stream = (HEADER_LEN + length rest)%nat /\
  match h with
  | Known h => msg_magic h = magic ct /\ msg_len h <= max_msg_size ct (msg_type h) * 4
  | Unknown len t => type_from_u8 t = None /\ len <= default_max_msg_size ct * 4
  end.
Proof.
  unfold read_msg_header. intros H. apply bind_ok in H as ([head s] & Hs & H). apply map_err_ok_inv in Hs. apply read_exact_inv in Hs as [-> Hl].
  apply bind_ok in H as ([h' r] & Hh & H). injection H as <- <-. apply map_err_ok_inv in Hh. split; [rewrite length_app, Hl; done|].
  exact (msg_header_bounded (R := BinReader) ct _ _ _ Hh).
Qed.

(** Messages of bounded size are within their limits. *)
Lemma length_peer_addr w a : wf_peer_addr a -> (length (write w a) <= 19)%nat.
Proof.
  intros [Hip _]. unfold write, write_peer_addr, write_u8, write_u16, write_fixed_bytes. destruct (peer_ip a) as [o|s]; destruct Hip as [_ Hl].
  - rewrite !length_app, !length_be_bytes. lia.
  - destruct s as [|s0 [|s1 [|s2 [|s3 [|s4 [|s5 [|s6 [|s7 [|]]]]]]]]]; try discriminate. cbn [map concat]. rewrite !length_app, !length_be_bytes. cbn. lia.
Qed.
Lemma length_concat_le {A} (f : A -> bytes) n l : Forall (fun x => (length (f x) <= n)%nat) l -> (length (concat (map f l)) <= n * length l)%nat.
Proof. induction 1 as [|x l Hx _ IH]; cbn [map concat length]; [lia|]. rewrite length_app. lia. Qed.

Lemma peer_addrs_fit ct v m : Forall wf_peer_addr (addrs_peers m) -> Z.of_nat (length (addrs_peers m)) <= MAX_PEER_ADDRS ->
  fits ct TPeerAddrs (Z.of_nat (length (ser_vec m v))).
Proof.
  intros Hm Hn. split; [lia|]. unfold ser_vec, write, write_peer_addrs, write_u32. rewrite length_app, length_be_bytes.
  pose proof (length_concat_le (write (bin_writer v)) 19 (addrs_peers m)) as Hc. cbn [max_msg_size]. unfold MAX_PEER_ADDRS in *.
  assert (Hf : Forall (fun x => (length (write (bin_writer v) x) <= 19)%nat) (addrs_peers m)).
  { eapply List.Forall_impl; [|exact Hm]. intros a Ha. apply length_peer_addr, Ha. }
  specialize (Hc Hf). change (@write PeerAddr _) with (@write PeerAddr write_peer_addr). lia.
Qed.
Lemma locator_fits ct v m : Forall wf_hash (locator_hashes m) -> Z.of_nat (length (locator_hashes m)) <= MAX_LOCATORS ->
  fits ct TGetHeaders (Z.of_nat (length (ser_vec m v))).
Proof.
  intros Hm Hn. split; [lia|]. unfold ser_vec, write, write_locator, write_u8. rewrite length_app, length_be_bytes.
  pose proof (length_concat_le write_fixed_bytes 32 (locator_hashes m)) as Hc. cbn [max_msg_size]. unfold MAX_LOCATORS in *.
  assert (Hf : Forall (fun x => (length (write_fixed_bytes x) <= 32)%nat) (locator_hashes m)).
  { eapply List.Forall_impl; [|exact Hm]. intros h Hh. unfold write_fixed_bytes. rewrite Hh. done. }
  specialize (Hc Hf). lia.
Qed.
Lemma ping_fits ct v (m : Ping) : fits ct TPing (Z.of_nat (length (ser_vec m v))).
Proof. unfold ser_vec, write, write_ping, write, write_difficulty, write_u64. rewrite length_app, !length_be_bytes. split; [lia|]. cbn. lia. Qed.
Lemma ban_reason_fits ct v (m : BanReason) : fits ct TBanReason (Z.of_nat (length (ser_vec m v))).
Proof. unfold ser_vec, write, write_ban_reason, write_i32. rewrite length_be_bytes. split; [lia|]. cbn. lia. Qed.
Lemma request_fits ct v m : wf_hash (request_hash m) -> fits ct TTxHashSetRequest (Z.of_nat (length (ser_vec m v))).
Proof. intros H. unfold ser_vec, write, write_txhashset_request, write_fixed_bytes, write_u64. rewrite length_app, H, length_be_bytes. split; [lia|]. cbn. lia. Qed.
Lemma archive_fits ct v m : wf_hash (archive_hash m) -> fits ct TTxHashSetArchive (Z.of_nat (length (ser_vec m v))).
Proof. intros H. unfold ser_vec, write, write_txhashset_archive, write_fixed_bytes, write_u64. rewrite !length_app, H, !length_be_bytes. split; [lia|]. cbn. lia. Qed.
