(* ===== verification/Handshake.v ===== *)
(** * Handshakes

    Models [p2p/src/handshake.rs] and [Peer::is_denied] of [p2p/src/peer.rs]: how two peers greet each other, agree on a
    protocol version, and refuse strangers, denied addresses and themselves.

    A side of a handshake takes the bytes the other side sends and gives the bytes it sends.  The random nonce and the time
    are arguments; timeouts of the connection are not modelled. *)

From Stdlib Require Import ZArith Lia List Bool String.
From stdpp Require Import base numbers list option gmap.
From S2P Require Import Prelude Bytes Consensus Ser Transaction TxBody Committed PowTypes Block ChainTypes Base58 PeerTypes P2pMsg.

Definition NONCES_CAP : nat := 100.
Definition ADDRS_CAP : nat := 10.

(** [push_back], and [pop_front] once the capacity is reached *)
Definition push_ring {A} (cap : nat) (x : A) (l : list A) : list A :=
  let l := l ++ [x] in if (cap <=? length l)%nat then drop 1 l else l.

Record Handshake := mkHandshake {
  nonces : list Z; hs_addrs : list PeerAddr; hs_genesis : bytes; hs_config : P2PConfig; hs_version : Z; hs_sent : RateCounter }.

(** [Handshake::new] *)
Definition handshake_new (genesis : bytes) (config : P2PConfig) : Handshake :=
  mkHandshake [] [] genesis config local_version rate_new.

(** [next_nonce] *)
Definition next_nonce (nonce : Z) (hs : Handshake) : Handshake :=
  mkHandshake (push_ring NONCES_CAP nonce (nonces hs)) (hs_addrs hs) (hs_genesis hs) (hs_config hs) (hs_version hs) (hs_sent hs).
Definition save_addr (a : PeerAddr) (hs : Handshake) : Handshake :=
  mkHandshake (nonces hs) (push_ring ADDRS_CAP a (hs_addrs hs)) (hs_genesis hs) (hs_config hs) (hs_version hs) (hs_sent hs).
Definition with_sent (c : RateCounter) (hs : Handshake) : Handshake :=
  mkHandshake (nonces hs) (hs_addrs hs) (hs_genesis hs) (hs_config hs) (hs_version hs) c.

(** [resolve_peer_addr]: the address of the connection with the advertised port *)
Definition resolve_peer_addr (advertised : PeerAddr) (conn : option SocketAddr) : PeerAddr :=
  match conn with
  | Some addr => mkPeerAddr (socket_addr (addr_ip addr) (peer_port advertised))
  | None => advertised
  end.

(** [Peer::is_denied] *)
Definition is_denied (config : P2PConfig) (a : PeerAddr) : bool :=
  let listed l := existsb (fun e => peer_addr_eq e a) l in
  if match peers_deny config with Some denied => listed denied | None => false end then true
  else match peers_allow config with Some allowed => negb (listed allowed) | None => false end.

Section Handshakes.
  Context (ct : ChainTypes).

(** [negotiate_protocol_version] *)
Definition negotiate_protocol_version (hs : Handshake) (other : Z) (local_diff : Difficulty) : res P2pError Z :=
  let cur_height := (num local_diff - 1)%u64 in
  if (support_token_height ct <=? cur_height) && (other <? 2) then Err LowProtocolVersion
  else Ok (Z.min (hs_version hs) other).

(** The [Hand] of [initiate] and the [Shake] of [accept] *)
Definition hand_of (hs : Handshake) (nonce : Z) (caps : Capabilities) (total_difficulty : Difficulty) (self_addr : PeerAddr) (conn : SocketAddr) : Hand :=
  mkHand (hs_version hs) caps nonce (hs_genesis hs) total_difficulty self_addr (mkPeerAddr conn) USER_AGENT.
Definition shake_of (hs : Handshake) (caps : Capabilities) (total_difficulty : Difficulty) : Shake :=
  mkShake (hs_version hs) caps (hs_genesis hs) total_difficulty USER_AGENT.

(** [initiate], after the message was written: what is made of the answer *)
Definition read_answer (now : Z) (hs : Handshake) (total_difficulty : Difficulty) (conn : SocketAddr) (incoming : bytes)
    : res P2pError (PeerInfo * bytes) :=
  let? '(shake, incoming) := read_message ct shake_read (hs_version hs) TShake incoming in
  if negb (bool_decide (shake_genesis shake = hs_genesis hs)) then Err (GenesisMismatch (hs_genesis hs) (shake_genesis shake))
  else
    let? negotiated_version := negotiate_protocol_version hs (shake_version shake) total_difficulty in
    let peer_info :=
      mkPeerInfo (shake_capabilities shake) (shake_user_agent shake) negotiated_version (mkPeerAddr conn) Outbound
        (live_info_new now (shake_difficulty shake)) in
    if is_denied (hs_config hs) (peer_addr peer_info) then Err ConnectionClose else Ok (peer_info, incoming).

(** [initiate]: the state, the bytes sent, and the outcome with the bytes not read *)
Definition initiate (now : Z) (hs : Handshake) (nonce : Z) (caps : Capabilities) (total_difficulty : Difficulty) (self_addr : PeerAddr)
    (conn : option SocketAddr) (incoming : bytes) : Handshake * bytes * res P2pError (PeerInfo * bytes) :=
  let hs := next_nonce nonce hs in
  match conn with
  | None => (hs, [], Err PConnection)
  | Some conn =>
    let hand := hand_of hs nonce caps total_difficulty self_addr conn in
    let '(out, sent) := write_message now (msg_new ct THand hand (hs_version hs)) (hs_sent hs) in
    let hs := with_sent sent hs in
    (hs, out, read_answer now hs total_difficulty conn incoming)
  end.

(** [accept], once the hand is read and not our own *)
Definition answer (now : Z) (hs : Handshake) (capab : Capabilities) (total_difficulty : Difficulty) (conn : option SocketAddr) (hand : Hand)
    (incoming : bytes) : Handshake * bytes * res P2pError (PeerInfo * bytes) :=
  match negotiate_protocol_version hs (hand_version hand) total_difficulty with
  | Ok negotiated_version =>
    let peer_info :=
      mkPeerInfo (hand_capabilities hand) (hand_user_agent hand) negotiated_version (resolve_peer_addr (sender_addr hand) conn) Inbound
        (live_info_new now (hand_difficulty hand)) in
    if is_denied (hs_config hs) (peer_addr peer_info) then (hs, [], Err ConnectionClose)
    else
      let shake := shake_of hs capab total_difficulty in
      let '(out, sent) := write_message now (msg_new ct TShake shake negotiated_version) (hs_sent hs) in
      (with_sent sent hs, out, Ok (peer_info, incoming))
  | Err e => (hs, [], Err e)
  | Panic => (hs, [], Panic)
  end.

(** [accept] *)
Definition accept (now : Z) (hs : Handshake) (capab : Capabilities) (total_difficulty : Difficulty) (conn : option SocketAddr) (incoming : bytes)
    : Handshake * bytes * res P2pError (PeerInfo * bytes) :=
  match read_message ct hand_read (hs_version hs) THand incoming with
  | Ok (hand, incoming) =>
    if negb (bool_decide (hand_genesis hand = hs_genesis hs)) then (hs, [], Err (GenesisMismatch (hs_genesis hs) (hand_genesis hand)))
    else if bool_decide (hand_nonce hand ∈ nonces hs) then
      (save_addr (resolve_peer_addr (sender_addr hand) conn) hs, [], Err PeerWithSelf)
    else answer now hs capab total_difficulty conn hand incoming
  | Err e => (hs, [], Err e)
  | Panic => (hs, [], Panic)
  end.
End Handshakes.

(** ** The rings *)

(** A ring of a capacity above one holds the last [cap - 1] items. *)
Lemma ring_keeps_last {A} cap (l : list A) : (1 < cap)%nat ->
  foldl (fun r x => push_ring cap x r) [] l = drop (length l - (cap - 1)) l.
Proof.
  intros Hc. induction l as [|x l IH] using rev_ind; [done|]. rewrite foldl_app. cbn [foldl]. rewrite IH. unfold push_ring.
  rewrite !length_app, length_drop. cbn [length]. destruct (Nat.leb_spec cap (length l - (length l - (cap - 1)) + 1)) as [Hge|Hlt].
  - rewrite <- (drop_app_le l [x] (length l - (cap - 1))) by lia. rewrite drop_drop. f_equal. lia.
  - replace (length l - (cap - 1))%nat with 0%nat by lia. replace (length l + 1 - (cap - 1))%nat with 0%nat by lia. done.
Qed.
Definition nonces_run (hs : Handshake) (trace : list Z) : Handshake := foldl (fun hs n => next_nonce n hs) hs trace.
Lemma nonces_run_nonces hs trace : nonces (nonces_run hs trace) = foldl (fun r x => push_ring NONCES_CAP x r) (nonces hs) trace.
Proof. revert hs. induction trace as [|n trace IH]; intros hs; [done|]. cbn [nonces_run foldl]. apply IH. Qed.
Lemma recent_nonces genesis config trace :
  nonces (nonces_run (handshake_new genesis config) trace) = drop (length trace - 99) trace.
Proof. rewrite nonces_run_nonces. apply ring_keeps_last. unfold NONCES_CAP. lia. Qed.

(** ** Two peers that greet each other *)

Lemma length_difficulty w (d : Difficulty) : length (write w d) = 8%nat.
Proof. unfold write, write_difficulty, write_u64. apply length_be_bytes. Qed.

Lemma hand_fits ct v h : wf_hand h -> hand_user_agent h = USER_AGENT -> fits ct THand (Z.of_nat (length (ser_vec h v))).
Proof.
  intros [_ _ _ Hg _ [Hs Hr] _] Ha. split; [lia|]. unfold ser_vec, write. unfold write_hand. rewrite !length_app, !length_difficulty.
  pose proof (length_peer_addr (bin_writer v) _ Hs). pose proof (length_peer_addr (bin_writer v) _ Hr).
  unfold write_u32, write_u64, write_bytes, write_fixed_bytes, write_u64. rewrite length_app, !length_be_bytes, Hg, Ha.
  cbn [max_msg_size]. change (length USER_AGENT) with 22%nat. unfold HASH_LEN. lia.
Qed.
Lemma shake_fits ct v s : wf_shake s -> shake_user_agent s = USER_AGENT -> fits ct TShake (Z.of_nat (length (ser_vec s v))).
Proof.
  intros [_ _ Hg _ _] Ha. split; [lia|]. unfold ser_vec, write. unfold write_shake. rewrite !length_app, !length_difficulty.
  unfold write_u32, write_u64, write_bytes, write_fixed_bytes, write_u64. rewrite length_app, !length_be_bytes, Hg, Ha.
  cbn [max_msg_size]. change (length USER_AGENT) with 22%nat. unfold HASH_LEN. lia.
Qed.
Lemma user_agent_wf : wf_string USER_AGENT.
Proof. split; [reflexivity|]. change (length USER_AGENT) with 22%nat. lia. Qed.

(** Everything of a peer that goes into its messages *)
Record side_wf (hs : Handshake) (caps : Capabilities) (d : Difficulty) : Prop := {
  side_version : is_u32 (hs_version hs);
  side_caps : wf_caps caps;
  side_difficulty : wf_difficulty d;
  side_genesis : wf_hash (hs_genesis hs)
}.

Section Greeting.
  Context (ct : ChainTypes).

Lemma hand_of_wf hs nonce caps d self conn : side_wf hs caps d -> is_u64 nonce -> wf_peer_addr self -> wf_peer_addr (mkPeerAddr conn) ->
  wf_hand (hand_of hs nonce caps d self conn).
Proof. intros [H1 H2 H3 H4] Hn Hs Hc. split; first [done|apply user_agent_wf]. Qed.
Lemma shake_of_wf hs caps d : side_wf hs caps d -> wf_shake (shake_of hs caps d).
Proof. intros [H1 H2 H3 H4]. split; first [done|apply user_agent_wf]. Qed.

(** What [accept] does with a hand it can read *)
Lemma accept_reads now now' hs capab d conn h w_version sent rest : wf_hand h -> hand_user_agent h = USER_AGENT ->
  accept ct now hs capab d conn ((write_message now' (msg_new ct THand h w_version) sent).1 ++ rest) =
  if negb (bool_decide (hand_genesis h = hs_genesis hs)) then (hs, [], Err (GenesisMismatch (hs_genesis hs) (hand_genesis h)))
  else if bool_decide (hand_nonce h ∈ nonces hs) then (save_addr (resolve_peer_addr (received (sender_addr h)) conn) hs, [], Err PeerWithSelf)
  else answer ct now hs capab d conn (hand_received h) rest.
Proof.
  intros Hw Ha. unfold accept. rewrite (message_arrives ct w_version (hs_version hs) now' THand h (hand_received h) hand_read sent rest).
  - done.
  - apply reads_hand, Hw.
  - apply hand_fits; done.
Qed.
(** What [initiate] does with a shake it can read *)
Lemma answer_reads now now' hs d conn s w_version sent rest : wf_shake s -> shake_user_agent s = USER_AGENT ->
  read_answer ct now hs d conn ((write_message now' (msg_new ct TShake s w_version) sent).1 ++ rest) =
  if negb (bool_decide (shake_genesis s = hs_genesis hs)) then Err (GenesisMismatch (hs_genesis hs) (shake_genesis s))
  else
    let? negotiated_version := negotiate_protocol_version ct hs (shake_version s) d in
    let info := mkPeerInfo (shake_capabilities s) (shake_user_agent s) negotiated_version (mkPeerAddr conn) Outbound (live_info_new now (shake_difficulty s)) in
    if is_denied (hs_config hs) (peer_addr info) then Err ConnectionClose else Ok (info, rest).
Proof.
  intros Hw Ha. unfold read_answer. rewrite (message_arrives ct w_version (hs_version hs) now' TShake s s shake_read sent rest).
  - done.
  - apply reads_shake, Hw.
  - apply shake_fits; done.
Qed.

Lemma negotiate_min hs other d : 2 <= other -> negotiate_protocol_version ct hs other d = Ok (Z.min (hs_version hs) other).
Proof. intros H. unfold negotiate_protocol_version. rewrite (proj2 (Z.ltb_ge other 2)) by lia. rewrite andb_false_r. done. Qed.

Lemma greeting now now' a b nonce caps_a caps_b d_a d_b self conn_a conn_b rest rest' :
  side_wf a caps_a d_a -> side_wf b caps_b d_b -> is_u64 nonce -> wf_peer_addr self -> wf_peer_addr (mkPeerAddr conn_a) ->
  hs_genesis a = hs_genesis b -> nonce ∉ nonces b -> 2 <= hs_version a -> 2 <= hs_version b ->
  is_denied (hs_config a) (mkPeerAddr conn_a) = false -> is_denied (hs_config b) (resolve_peer_addr (received self) conn_b) = false ->
  let hand := (initiate ct now a nonce caps_a d_a self (Some conn_a) []).1.2 in
  let v := Z.min (hs_version a) (hs_version b) in
  exists b' shake,
    accept ct now' b caps_b d_b conn_b (hand ++ rest) =
      (b', shake, Ok (mkPeerInfo caps_a USER_AGENT v (resolve_peer_addr (received self) conn_b) Inbound (live_info_new now' d_a), rest)) /\
    (initiate ct now a nonce caps_a d_a self (Some conn_a) (shake ++ rest')).2 =
      Ok (mkPeerInfo caps_b USER_AGENT v (mkPeerAddr conn_a) Outbound (live_info_new now d_b), rest').
Proof.
  intros Wa Wb Hn Hs Hc Hg Hnn Va Vb Da Db hand v. unfold initiate in hand. cbn [fst snd] in hand.
  pose proof (hand_of_wf (next_nonce nonce a) nonce caps_a d_a self conn_a ltac:(destruct Wa; split; done) Hn Hs Hc) as Wh.
  set (h := hand_of (next_nonce nonce a) nonce caps_a d_a self conn_a) in *.
  assert (Eh : hand = (write_message now (msg_new ct THand h (hs_version (next_nonce nonce a))) (hs_sent (next_nonce nonce a))).1).
  { subst hand. destruct (write_message _ _ _). done. }
  rewrite Eh. rewrite accept_reads by (try done). change (hand_genesis h) with (hs_genesis a). change (hand_nonce h) with nonce.
  rewrite bool_decide_eq_true_2 by exact Hg. cbn [negb]. rewrite bool_decide_eq_false_2 by exact Hnn.
  unfold answer. change (hand_version (hand_received h)) with (hs_version a). rewrite negotiate_min by exact Va.
  cbn [peer_addr]. change (sender_addr (hand_received h)) with (received self). rewrite Db.
  destruct (write_message now' (msg_new ct TShake (shake_of b caps_b d_b) (Z.min (hs_version b) (hs_version a))) (hs_sent b)) as [out sent] eqn:Ew.
  exists (with_sent sent b), out. split; [rewrite Z.min_comm; done|]. unfold initiate. cbn [snd].
  destruct (write_message now (msg_new ct THand _ _) _) as [o2 s2]. cbn [snd].
  replace out with ((write_message now' (msg_new ct TShake (shake_of b caps_b d_b) (Z.min (hs_version b) (hs_version a))) (hs_sent b)).1) by (rewrite Ew; done).
  rewrite answer_reads by (try done; apply shake_of_wf, Wb). change (shake_genesis (shake_of b caps_b d_b)) with (hs_genesis b). change (hs_genesis (with_sent s2 (next_nonce nonce a))) with (hs_genesis a).
  rewrite bool_decide_eq_true_2 by done. cbn [negb]. change (shake_version (shake_of b caps_b d_b)) with (hs_version b). rewrite negotiate_min by exact Vb.
  cbn [res_bind peer_addr]. change (hs_config (with_sent s2 (next_nonce nonce a))) with (hs_config a). rewrite Da. done.
Qed.
End Greeting.

(** C28: Two peers with the same genesis block that do not refuse each other agree: reading the bytes that [initiate] sends,
    [accept] answers, and reading that answer [initiate] succeeds.  Both end with the lower of the two versions, with the
    capabilities, user agent and difficulty of the other, and no byte after the messages is taken.  A peer of another chain
    is refused, and so is a hand with one of the last 99 nonces of the peer itself. *)
Theorem handshakes_agree ct now now' a b nonce caps_a caps_b d_a d_b self conn_a conn_b rest rest' :
  side_wf a caps_a d_a -> side_wf b caps_b d_b -> is_u64 nonce -> wf_peer_addr self -> wf_peer_addr (mkPeerAddr conn_a) ->
  let hand := (initiate ct now a nonce caps_a d_a self (Some conn_a) []).1.2 in
  let v := Z.min (hs_version a) (hs_version b) in
  (hs_genesis a = hs_genesis b -> nonce ∉ nonces b -> 2 <= hs_version a -> 2 <= hs_version b ->
   is_denied (hs_config a) (mkPeerAddr conn_a) = false -> is_denied (hs_config b) (resolve_peer_addr (received self) conn_b) = false ->
   exists b' shake,
     accept ct now' b caps_b d_b conn_b (hand ++ rest) =
       (b', shake, Ok (mkPeerInfo caps_a USER_AGENT v (resolve_peer_addr (received self) conn_b) Inbound (live_info_new now' d_a), rest)) /\
     (initiate ct now a nonce caps_a d_a self (Some conn_a) (shake ++ rest')).2 =
       Ok (mkPeerInfo caps_b USER_AGENT v (mkPeerAddr conn_a) Outbound (live_info_new now d_b), rest')) /\
  (hs_genesis a <> hs_genesis b ->
   accept ct now' b caps_b d_b conn_b (hand ++ rest) = (b, [], Err (GenesisMismatch (hs_genesis b) (hs_genesis a)))) /\
  (hs_genesis a = hs_genesis b -> nonce ∈ nonces b -> (accept ct now' b caps_b d_b conn_b (hand ++ rest)).2 = Err PeerWithSelf) /\
  (forall genesis config trace, nonces (nonces_run (handshake_new genesis config) trace) = drop (length trace - 99) trace).
Proof.
  intros Wa Wb Hn Hs Hc hand v. split; [intros; apply greeting; done|].
  pose proof (hand_of_wf (next_nonce nonce a) nonce caps_a d_a self conn_a ltac:(destruct Wa; split; done) Hn Hs Hc) as Wh.
  set (h := hand_of (next_nonce nonce a) nonce caps_a d_a self conn_a) in *.
  assert (Eh : hand = (write_message now (msg_new ct THand h (hs_version (next_nonce nonce a))) (hs_sent (next_nonce nonce a))).1).
  { subst hand. unfold initiate. destruct (write_message _ _ _). done. }
  rewrite Eh. rewrite accept_reads by (try done). change (hand_genesis h) with (hs_genesis a). change (hand_nonce h) with nonce.
  split; [|split; [|apply recent_nonces]].
  - intros Hne. rewrite bool_decide_eq_false_2 by done. done.
  - intros Hg Hin. rewrite bool_decide_eq_true_2 by exact Hg. cbn [negb]. rewrite bool_decide_eq_true_2 by exact Hin. done.
Qed.
