(* ===== verification/PeerStore.v ===== *)
(** * The store of peers

    Models [p2p/src/store.rs]: what is kept of every peer that was heard of, its binary form, and the table of peers.

    The table maps the key of an address to the bytes of the peer, and every read goes through the binary form.  The order
    of the keys is that of [map_to_list]; the random order of [find_peers] is an argument. *)

From Stdlib Require Import ZArith Lia List Bool.
From stdpp Require Import base numbers list option gmap countable.
From S2P Require Import Prelude Bytes Consensus Ser Transaction TxBody Committed PowTypes Block ChainTypes PeerTypes P2pMsg.

Inductive PeerState := Healthy | Banned | Defunct.
#[export] Instance peer_state_eq_dec : EqDecision PeerState.
Proof. solve_decision. Defined.
Definition state_as_u8 (s : PeerState) : Z := match s with Healthy => 0 | Banned => 1 | Defunct => 2 end.
Definition state_from_u8 (n : Z) : option PeerState := find (fun s => state_as_u8 s =? n) [Healthy; Banned; Defunct].

Record PeerData := mkPeerData {
  pd_addr : PeerAddr; pd_capabilities : Capabilities; pd_user_agent : bytes; pd_flags : PeerState; last_banned : Z;
  pd_ban_reason : ReasonForBan; last_connected : Z }.

(** [Writeable for PeerData], [Readable for PeerData]; [now] is the time of the clock in seconds *)
#[export] Instance write_peer_data : Writeable PeerData := fun w p =>
  write w (pd_addr p) ++ write_u32 (bits (pd_capabilities p)) ++ write_bytes (pd_user_agent p) ++ write_u8 (state_as_u8 (pd_flags p)) ++
  write_i64 (last_banned p) ++ write_i32 (reason_as_i32 (pd_ban_reason p)) ++ write_i64 (last_connected p).

(** The last field, or the time when it is missing *)
Definition last_connected_read {R} `{!Reader R} (now : Z) : R -> res Error (Z * R) := fun r =>
  match read_i64 r with Ok (lc, r) => Ok (lc, r) | Err _ => Ok (now, r) | Panic => Panic end.
Definition peer_data_read {R} `{!Reader R} (now : Z) : R -> res Error (PeerData * R) :=
  let! addr := peer_addr_read in
  let! capab := read_u32 in
  let! ua := read_bytes_len_prefix in
  let! fl := read_u8 in
  let! lb := read_i64 in
  let! br := read_i32 in
  let! last_connected := last_connected_read now in
  if negb (valid_utf8 ua) then read_fail CorruptedData
  else
    match reason_from_i32 br with
    | None => read_fail CorruptedData
    | Some reason =>
      match state_from_u8 fl with
      | Some flags => read_ret (mkPeerData addr (from_bits_truncate capab) ua flags lb reason last_connected)
      | None => read_fail CorruptedData
      end
    end.

(** ** The table *)

Abbreviation PeerStore := (gmap (IpAddr * option Z) bytes).

Section Store.
  Context (now : Z).
  Implicit Types (db : PeerStore) (p : PeerData).

(** [Store::get_ser] of a peer *)
Definition peer_deserialize (b : bytes) : res StoreError PeerData :=
  match peer_data_read now (mkBinReader b local_db_version) with
  | Ok (p, _) => Ok p
  | Err _ => Err StoreSerErr
  | Panic => Panic
  end.
(** [save_peer], [get_peer], [exists_peer], [delete_peer] *)
Definition store_save_peer (p : PeerData) db : PeerStore := <[as_key (pd_addr p) := ser_vec p local_db_version]> db.
Definition store_get_peer (a : PeerAddr) db : res StoreError PeerData :=
  match db !! as_key a with Some b => peer_deserialize b | None => Err NotFoundErr end.
Definition store_exists_peer (a : PeerAddr) db : bool := bool_decide (is_Some (db !! as_key a)).
Definition store_delete_peer (a : PeerAddr) db : PeerStore := delete (as_key a) db.

(** [Store::iter]: up to the first value that cannot be read *)
Fixpoint readable_peers (l : list bytes) : res StoreError (list PeerData) :=
  match l with
  | [] => Ok []
  | b :: l =>
    match peer_deserialize b with
    | Ok p => let? rest := readable_peers l in Ok (p :: rest)
    | Err _ => Ok []
    | Panic => Panic
    end
  end.
(** [all_peers], [find_peers] *)
Definition store_all_peers db : res StoreError (list PeerData) := readable_peers (map_to_list db).*2.
Definition store_find_peers (shuffle : list PeerData -> list PeerData) (state : PeerState) (cap : Capabilities) (count : nat) db
    : res StoreError (list PeerData) :=
  let? peers := store_all_peers db in
  Ok (take count (shuffle (List.filter (fun p => bool_decide (pd_flags p = state) && contains (pd_capabilities p) cap) peers))).

(** [update_state] *)
Definition store_update_state (a : PeerAddr) (new_state : PeerState) db : res StoreError PeerStore :=
  let? p := store_get_peer a db in
  let banned := if bool_decide (new_state = Banned) then now else last_banned p in
  let p := mkPeerData (pd_addr p) (pd_capabilities p) (pd_user_agent p) new_state banned (pd_ban_reason p) (last_connected p) in
  Ok (<[as_key a := ser_vec p local_db_version]> db).

(** [delete_peers] *)
Definition store_delete_peers (predicate : PeerData -> bool) db : res StoreError PeerStore :=
  let? peers := store_all_peers db in
  Ok (foldl (fun db p => store_delete_peer (pd_addr p) db) db (List.filter predicate peers)).
End Store.

(** ** Reading back *)

Record wf_peer_data (p : PeerData) : Prop := {
  wf_pd_addr : wf_peer_addr (pd_addr p);
  wf_pd_caps : wf_caps (pd_capabilities p);
  wf_pd_agent : wf_string (pd_user_agent p);
  wf_pd_banned : - 2 ^ 63 <= last_banned p < 2 ^ 63;
  wf_pd_connected : - 2 ^ 63 <= last_connected p < 2 ^ 63
}.
(** A peer as it is read back *)
Definition stored (p : PeerData) : PeerData :=
  mkPeerData (received (pd_addr p)) (pd_capabilities p) (pd_user_agent p) (pd_flags p) (last_banned p) (pd_ban_reason p) (last_connected p).

Section Reads.
  Context {R : Type} `{!Reader R} `{!ReaderLaws R}.

Lemma reads_last_connected v now n : - 2 ^ 63 <= n < 2 ^ 63 -> reads (R := R) v (last_connected_read now) (write_i64 n) n.
Proof.
  intros Hn r rest Hv Hr. destruct (reads_i64 v n Hn r rest Hv Hr) as (r' & E & H). exists r'. unfold last_connected_read. rewrite E. done.
Qed.
Lemma reads_peer_data v w now p : wf_peer_data p -> reads (R := R) v (peer_data_read now) (write w p) (stored p).
Proof.
  intros [H1 H2 [H3 H3'] H4 H5]. unfold peer_data_read, write, write_peer_data.
  eapply reads_bind; [apply reads_peer_addr, H1|]. eapply reads_bind; [apply reads_u32, caps_bits, H2|].
  eapply reads_bind; [apply reads_prefixed, H3'|]. eapply reads_bind; [apply reads_u8; destruct (pd_flags p); cbn; lia|].
  eapply reads_bind; [apply reads_i64, H4|]. eapply reads_bind; [apply reads_i32; destruct (pd_ban_reason p); cbn; lia|].
  eapply reads_bind_last; [apply reads_last_connected, H5|]. rewrite H3. cbn [negb].
  replace (reason_from_i32 _) with (Some (pd_ban_reason p)) by (destruct (pd_ban_reason p); done).
  replace (state_from_u8 _) with (Some (pd_flags p)) by (destruct (pd_flags p); done).
  rewrite (proj1 H2). apply reads_ret.
Qed.
End Reads.

Lemma peer_deserialize_ser now p : wf_peer_data p -> peer_deserialize now (ser_vec p local_db_version) = Ok (stored p).
Proof.
  intros Hp. unfold peer_deserialize.
  destruct (reads_peer_data (R := BinReader) local_db_version (bin_writer local_db_version) now p Hp
    (mkBinReader (ser_vec p local_db_version) local_db_version) []) as (r' & E & _); [done|cbn; rewrite app_nil_r; done|].
  rewrite E. done.
Qed.

(** ** The table against a map of peers *)

(** The table of a map of well-formed peers, each under the key of its address *)
Definition table_of (m : gmap (IpAddr * option Z) PeerData) : PeerStore := (fun p => ser_vec p local_db_version) <$> m.
Definition peers_wf (m : gmap (IpAddr * option Z) PeerData) : Prop := map_Forall (fun k p => wf_peer_data p /\ as_key (pd_addr p) = k) m.

Lemma to_ipv4_bytes s o : Forall (fun x => 0 <= x < 2 ^ 16) s -> to_ipv4 s = Some o -> are_bytes o /\ length o = 4%nat.
Proof.
  intros _ H. destruct s as [|[] [|[] [|[] [|[] [|[] [|f [|g [|h [|]]]]]]]]]; try discriminate. cbn [to_ipv4] in H.
  destruct (_ || _); [|discriminate]. apply (inj Some) in H. subst o. split; [|rewrite length_app, !length_be_bytes; done].
  rewrite are_bytes_app. split; apply be_bytes_are_bytes.
Qed.
Lemma received_wf a : wf_peer_addr a -> wf_peer_addr (received a).
Proof.
  intros [Hip Hp]. split; [|exact Hp]. unfold peer_ip, received. cbn [peer_socket addr_ip socket_addr]. fold (peer_ip a).
  destruct (peer_ip a) as [o|s] eqn:E; [exact Hip|]. destruct (to_ipv4 s) as [o|] eqn:E4; [|exact Hip].
  apply (to_ipv4_bytes s o); [apply Hip|exact E4].
Qed.
Lemma stored_wf p : wf_peer_data p -> wf_peer_data (stored p).
Proof. intros [H1 H2 H3 H4 H5]. split; try done. apply received_wf, H1. Qed.

(** A well-formed address that is no IPv6 form of an IPv4 address keeps its key. *)
Definition plain_addr (a : PeerAddr) : Prop :=
  wf_peer_addr a /\ match peer_ip a with Ipv6 s => to_ipv4 s = None | Ipv4 _ => True end.
Lemma plain_key a : plain_addr a -> as_key (received a) = as_key a.
Proof.
  intros [_ Hp]. unfold as_key, received, peer_ip, peer_port in *. cbn [peer_socket addr_ip addr_port socket_addr].
  destruct (addr_ip (peer_socket a)) as [o|s]; [done|]. rewrite Hp. done.
Qed.

Section Table.
  Context (now : Z).

Lemma table_get m a : peers_wf m ->
  store_get_peer now a (table_of m) = match m !! as_key a with Some p => Ok (stored p) | None => Err NotFoundErr end.
Proof.
  intros H. unfold store_get_peer, table_of. rewrite lookup_fmap. destruct (m !! as_key a) as [p|] eqn:E; [|done]. apply peer_deserialize_ser.
  apply (H _ _ E).
Qed.
Lemma table_save m p : store_save_peer p (table_of m) = table_of (<[as_key (pd_addr p) := p]> m).
Proof. unfold store_save_peer, table_of. rewrite fmap_insert. done. Qed.
Lemma table_delete m a : store_delete_peer a (table_of m) = table_of (delete (as_key a) m).
Proof. unfold store_delete_peer, table_of. rewrite fmap_delete. done. Qed.
Lemma peers_wf_insert m p : peers_wf m -> wf_peer_data p -> peers_wf (<[as_key (pd_addr p) := p]> m).
Proof. intros H Hp. apply map_Forall_insert_2; [split; done|exact H]. Qed.

Lemma readable_all l : Forall wf_peer_data l -> readable_peers now ((fun p => ser_vec p local_db_version) <$> l) = Ok (stored <$> l).
Proof.
  induction 1 as [|p l Hp _ IH]; [done|]. rewrite fmap_cons. cbn [readable_peers]. rewrite peer_deserialize_ser by exact Hp. rewrite IH. done.
Qed.
Lemma table_peers_wf m : peers_wf m -> Forall wf_peer_data (map_to_list m).*2.
Proof.
  intros H. apply Forall_fmap, Forall_forall. intros [k p] Hin. apply list_elem_of_In, elem_of_map_to_list in Hin. apply (H _ _ Hin).
Qed.
Lemma table_all m : peers_wf m -> store_all_peers now (table_of m) = Ok (stored <$> (map_to_list m).*2).
Proof.
  intros H. unfold store_all_peers, table_of. rewrite map_to_list_fmap. rewrite <- readable_all by apply table_peers_wf, H.
  f_equal. rewrite <- !list_fmap_compose. done.
Qed.

(** Peers whose addresses come back as they were *)
Definition peers_plain (m : gmap (IpAddr * option Z) PeerData) : Prop := map_Forall (fun _ p => plain_addr (pd_addr p)) m.

Lemma stored_key p : plain_addr (pd_addr p) -> as_key (pd_addr (stored p)) = as_key (pd_addr p).
Proof. intros Hp. apply plain_key, Hp. Qed.

Lemma update_state_spec m a s : peers_wf m -> peers_plain m ->
  store_update_state now a s (table_of m) =
  match m !! as_key a with
  | None => Err NotFoundErr
  | Some p =>
    let p := stored p in
    Ok (table_of (<[as_key a := mkPeerData (pd_addr p) (pd_capabilities p) (pd_user_agent p) s
          (if bool_decide (s = Banned) then now else last_banned p) (pd_ban_reason p) (last_connected p)]> m))
  end.
Proof.
  intros Hw Hp. unfold store_update_state. rewrite table_get by exact Hw. destruct (m !! as_key a) as [p|] eqn:E; [|done].
  cbn [res_bind]. unfold table_of. rewrite fmap_insert. done.
Qed.

(** Deleting the peers that satisfy a condition *)
Lemma delete_all_lookup (l : list PeerData) (m : gmap (IpAddr * option Z) PeerData) k :
  (foldl (fun m p => delete (as_key (pd_addr p)) m) m l) !! k = if decide (k ∈ (fun p => as_key (pd_addr p)) <$> l) then None else m !! k.
Proof.
  revert m. induction l as [|p l IH]; intros m; cbn [foldl].
  - rewrite decide_False; [done|]. apply not_elem_of_nil.
  - rewrite IH. destruct (decide (k = as_key (pd_addr p))) as [->|Hne].
    + rewrite (decide_True (P := _ ∈ _ <$> p :: l)) by (rewrite fmap_cons; left). rewrite lookup_delete_eq. destruct (decide _); done.
    + rewrite lookup_delete_ne by done. destruct (decide (k ∈ _ <$> l)) as [Hin|Hn].
      * rewrite decide_True; [done|]. rewrite fmap_cons. right. exact Hin.
      * rewrite decide_False; [done|]. rewrite fmap_cons, not_elem_of_cons. done.
Qed.
Lemma table_delete_list l : forall m,
  foldl (fun db p => store_delete_peer (pd_addr p) db) (table_of m) l = table_of (foldl (fun m p => delete (as_key (pd_addr p)) m) m l).
Proof. induction l as [|p l IH]; intros m; [done|]. cbn [foldl]. rewrite table_delete. apply IH. Qed.

Lemma delete_peers_spec m predicate : peers_wf m -> peers_plain m ->
  store_delete_peers now predicate (table_of m) = Ok (table_of (filter (fun kp => predicate (stored kp.2) = false) m)).
Proof.
  intros Hw Hp. unfold store_delete_peers. rewrite table_all by exact Hw. cbn [res_bind]. rewrite table_delete_list. do 2 f_equal.
  apply map_eq. intros k. rewrite delete_all_lookup, map_lookup_filter.
  assert (Hin : k ∈ (fun p => as_key (pd_addr p)) <$> List.filter predicate (stored <$> (map_to_list m).*2) <->
    exists p, m !! k = Some p /\ predicate (stored p) = true).
  { rewrite list_elem_of_fmap. split.
    - intros (p' & -> & Hp'). apply list_elem_of_In, filter_In in Hp' as [Hp' Ht]. apply list_elem_of_In, list_elem_of_fmap in Hp' as (p & -> & Hin).
      apply list_elem_of_fmap in Hin as ([k' p0] & -> & Hin). apply elem_of_map_to_list in Hin. cbn [snd] in *. exists p0. split; [|exact Ht].
      rewrite stored_key by apply (Hp _ _ Hin). destruct (Hw _ _ Hin) as [_ <-] in Hin |- *. exact Hin.
    - intros (p & E & Ht). exists (stored p). split; [rewrite stored_key by apply (Hp _ _ E); destruct (Hw _ _ E); done|].
      apply list_elem_of_In, filter_In. split; [|exact Ht]. apply list_elem_of_In, list_elem_of_fmap. exists p. split; [done|].
      apply list_elem_of_fmap. exists (k, p). split; [done|]. apply elem_of_map_to_list, E. }
  destruct (m !! k) as [p|] eqn:E; cbn [mbind option_bind].
  - destruct (predicate (stored p)) eqn:Ep.
    + rewrite decide_True by (apply Hin; eauto). rewrite option_guard_False; [done|]. cbn. congruence.
    + rewrite decide_False; [rewrite option_guard_True by exact Ep; done|]. rewrite Hin. intros (p' & [= <-] & Ht). congruence.
  - destruct (decide _); done.
Qed.
End Table.

(** C29: The store of peers is a map of peers.  For peers with well-formed addresses that are no IPv6 forms of IPv4
    addresses, over the bytes in the table: a saved peer is read back under its address, without the labels of the address;
    all peers are those of the map; a change of state keeps everything else and records the time of a ban; and
    [delete_peers] removes exactly the peers that satisfy the condition. *)
Theorem peer_store_is_a_map now m : peers_wf m -> peers_plain m ->
  (forall a, store_get_peer now a (table_of m) = match m !! as_key a with Some p => Ok (stored p) | None => Err NotFoundErr end) /\
  (forall p, store_save_peer p (table_of m) = table_of (<[as_key (pd_addr p) := p]> m)) /\
  store_all_peers now (table_of m) = Ok (stored <$> (map_to_list m).*2) /\
  (forall a s, store_update_state now a s (table_of m) =
     match m !! as_key a with
     | None => Err NotFoundErr
     | Some p =>
       Ok (table_of (<[as_key a := mkPeerData (received (pd_addr p)) (pd_capabilities p) (pd_user_agent p) s
             (if bool_decide (s = Banned) then now else last_banned p) (pd_ban_reason p) (last_connected p)]> m))
     end) /\
  (forall predicate, store_delete_peers now predicate (table_of m) = Ok (table_of (filter (fun kp => predicate (stored kp.2) = false) m))).
Proof.
  intros Hw Hp. split; [intros a; apply table_get, Hw|]. split; [intros p; apply table_save|]. split; [apply table_all, Hw|].
  split; [intros a s; rewrite update_state_spec by done; destruct (m !! as_key a); done|]. intros predicate. apply delete_peers_spec; done.
Qed.
