(* ===== verification/P2pExamples.v ===== *)
(** * Peers on concrete inputs

    Messages on the wire, and witnesses of the theorems of [Handshake] and [PeerStore]: two peers of one chain, their messages and their
    entries in the table. *)

From Stdlib Require Import ZArith Lia List Bool.
From stdpp Require Import base numbers list option gmap.
From S2P Require Import Prelude Bytes Consensus Ser Transaction TxBody Committed PowTypes Block ChainTypes PeerTypes P2pMsg Handshake PeerStore.

Definition addr_at (last port : Z) : PeerAddr := mkPeerAddr (socket_addr (Ipv4 [10; 0; 0; last]) port).
Definition a_genesis : bytes := replicate 32 1.
Definition a_side : Handshake := handshake_new a_genesis p2p_config_default.
Definition a_ping : Ping := mkPing (mkDifficulty 1000) 7.
Definition a_peer : PeerData := mkPeerData (addr_at 2 3514) FULL_NODE USER_AGENT Healthy 0 NoReason 1600000000.
Definition a_table : gmap (IpAddr * option Z) PeerData := {[ as_key (pd_addr a_peer) := a_peer ]}.

Lemma addr_at_wf last port : 0 <= last < 256 -> 0 <= port < 2 ^ 16 -> wf_peer_addr (addr_at last port).
Proof. intros Hl Hp. split; [|exact Hp]. split; [|done]. repeat (apply Forall_cons_2; [unfold is_byte; lia|]). apply Forall_nil_2. Qed.
Lemma full_node_wf : wf_caps FULL_NODE.
Proof. split; [done|]. vm_compute. congruence. Qed.
Lemma a_side_wf : side_wf a_side FULL_NODE (mkDifficulty 1000).
Proof. split; [vm_compute; split; congruence|apply full_node_wf|vm_compute; split; congruence|done]. Qed.

(** What is on the wire for a ping: magic, type, length, difficulty and height *)
Example ping_bytes : (write_message 1 (msg_new Mainnet TPing a_ping 2) rate_new).1 =
  [98; 62; 3; 0; 0; 0; 0; 0; 0; 0; 16; 0; 0; 0; 0; 0; 0; 3; 232; 0; 0; 0; 0; 0; 0; 0; 7].
Proof. vm_compute. reflexivity. Qed.
(** A ping of another chain is refused, and so is one that is too long. *)
Example other_chain_refused :
  read_message Floonet ping_read 2 TPing (write_message 1 (msg_new Mainnet TPing a_ping 2) rate_new).1 =
  Err (PSerialization (UnexpectedData [84] [98])).
Proof. vm_compute. reflexivity. Qed.
Example long_ping_refused : read_msg_header Mainnet 2 [98; 62; 3; 0; 0; 0; 0; 0; 0; 0; 65] = Err (PSerialization TooLargeReadErr).
Proof. vm_compute. reflexivity. Qed.

Lemma handshakes_agree_witness : exists b' shake,
  accept Mainnet 20 a_side FULL_NODE (mkDifficulty 1000) None
    ((initiate Mainnet 10 a_side 77 FULL_NODE (mkDifficulty 1000) (addr_at 1 3514) (Some (peer_socket (addr_at 2 3514))) []).1.2 ++ [9]) =
  (b', shake, Ok (mkPeerInfo FULL_NODE USER_AGENT 2 (addr_at 1 3514) Inbound (live_info_new 20 (mkDifficulty 1000)), [9])).
Proof.
  destruct (handshakes_agree Mainnet 10 20 a_side a_side 77 FULL_NODE FULL_NODE (mkDifficulty 1000) (mkDifficulty 1000) (addr_at 1 3514)
    (peer_socket (addr_at 2 3514)) None [9] []) as [H _].
  - apply a_side_wf.
  - apply a_side_wf.
  - unfold is_u64. lia.
  - apply addr_at_wf; lia.
  - apply (addr_at_wf 2 3514); lia.
  - destruct H as (b' & shake & H & _); [reflexivity|apply not_elem_of_nil|vm_compute; congruence|vm_compute; congruence|reflexivity|reflexivity|].
    exists b', shake. exact H.
Defined.

Lemma a_peer_wf : wf_peer_data a_peer.
Proof. split; [apply addr_at_wf; lia|apply full_node_wf|apply user_agent_wf|cbn; lia|cbn; lia]. Qed.

Lemma peer_store_is_a_map_witness :
  store_update_state 1700000000 (addr_at 2 13514) Banned (table_of a_table) =
  Ok (table_of {[ as_key (pd_addr a_peer) := mkPeerData (addr_at 2 3514) FULL_NODE USER_AGENT Banned 1700000000 NoReason 1600000000 ]}).
Proof.
  assert (Hw : peers_wf a_table).
  { apply map_Forall_singleton. split; [apply a_peer_wf|done]. }
  assert (Hp : peers_plain a_table).
  { apply map_Forall_singleton. split; [apply addr_at_wf; lia|done]. }
  destruct (peer_store_is_a_map 1700000000 a_table Hw Hp) as (_ & _ & _ & H & _). rewrite H.
  change (as_key (addr_at 2 13514)) with (as_key (pd_addr a_peer)). unfold a_table. rewrite lookup_singleton_eq, insert_singleton_eq. done.
Defined.
