(* ===== verification/Adapter.v ===== *)
(** * What the network asks of the node

    Models the traits [ChainAdapter] and [NetAdapter] of [p2p/src/types.rs] as records of operations over a world.  An
    operation that can fail gives its error and leaves a world behind; the others give a value and a world.

    A file is its contents; the paths of temporary files are not modelled. *)

From Stdlib Require Import ZArith Lia List Bool.
From stdpp Require Import base numbers list option gmap.
From S2P Require Import Prelude Bytes Consensus Ser Transaction TxBody Committed PowTypes Block CompactBlock ChainTypes PeerTypes P2pMsg.

Record TxHashSetRead := mkTxHashSetRead {
  read_output_index : Z; read_kernel_index : Z; token_out_index : Z; token_issue_index : Z; reader : bytes }.

(** [ChainAdapter] *)
Record ChainAdapter (W : Type) := mkChainAdapter {
  total_difficulty : vm W ErrorKind Difficulty;
  total_height : vm W ErrorKind Z;
  transaction_received : Transaction -> bool -> vm W ErrorKind bool;
  get_transaction : bytes -> W -> option Transaction * W;
  tx_kernel_received : bytes -> PeerInfo -> vm W ErrorKind bool;
  block_received : Block -> PeerInfo -> Z -> vm W ErrorKind bool;
  compact_block_received : CompactBlock -> PeerInfo -> vm W ErrorKind bool;
  header_received : BlockHeader -> PeerInfo -> vm W ErrorKind bool;
  headers_received : list BlockHeader -> PeerInfo -> vm W ErrorKind bool;
  locate_headers : list bytes -> vm W ErrorKind (list BlockHeader);
  get_block : bytes -> W -> option Block * W;
  kernel_data_read : vm W ErrorKind bytes;
  kernel_data_write : bytes -> vm W ErrorKind bool;
  txhashset_read : bytes -> W -> option TxHashSetRead * W;
  txhashset_archive_header : vm W ErrorKind BlockHeader;
  txhashset_receive_ready : W -> bool * W;
  txhashset_download_update : Z -> Z -> Z -> W -> bool * W;
  txhashset_write : bytes -> bytes -> PeerInfo -> vm W ErrorKind bool
}.
Arguments mkChainAdapter {W}.
Arguments total_difficulty {W}.
Arguments total_height {W}.
Arguments transaction_received {W}.
Arguments get_transaction {W}.
Arguments tx_kernel_received {W}.
Arguments block_received {W}.
Arguments compact_block_received {W}.
Arguments header_received {W}.
Arguments headers_received {W}.
Arguments locate_headers {W}.
Arguments get_block {W}.
Arguments kernel_data_read {W}.
Arguments kernel_data_write {W}.
Arguments txhashset_read {W}.
Arguments txhashset_archive_header {W}.
Arguments txhashset_receive_ready {W}.
Arguments txhashset_download_update {W}.
Arguments txhashset_write {W}.

(** [NetAdapter] *)
Record NetAdapter (W : Type) := mkNetAdapter {
  chain_part :> ChainAdapter W;
  find_peer_addrs : Capabilities -> W -> list PeerAddr * W;
  peer_addrs_received : list PeerAddr -> W -> W;
  peer_difficulty : PeerAddr -> Difficulty -> Z -> W -> W;
  adapter_is_banned : PeerAddr -> W -> bool * W
}.
Arguments mkNetAdapter {W}.
Arguments chain_part {W}.
Arguments find_peer_addrs {W}.
Arguments peer_addrs_received {W}.
Arguments peer_difficulty {W}.
Arguments adapter_is_banned {W}.

(** An [LruCache] with values, of the [lru_cache] crate; a lookup makes the key the most recent *)
Class LruMap (L V : Type) := {
  lru_map_new : L;
  lru_get : bytes -> L -> option V * L;
  lru_map_insert : bytes -> V -> L -> L;
  lru_get_new k : (lru_get k lru_map_new).1 = None;
  lru_get_self k v l : (lru_get k (lru_map_insert k v l)).1 = Some v;
  lru_get_other k k' v l : k' <> k -> (lru_get k' (lru_map_insert k v l)).1 = None \/
    (lru_get k' (lru_map_insert k v l)).1 = (lru_get k' l).1;
  lru_get_again k k' l : (lru_get k' (lru_get k l).2).1 = (lru_get k' l).1
}.
