(* ===== verification/Peer.v ===== *)
(** * A connected peer

    Models [p2p/src/peer.rs] and the handles of [p2p/src/conn.rs]: the messages a peer is sent, the bounded queue they wait in,
    the counters of the connection, and the adapter that keeps track of what was received from a peer and asked of it.

    What the threads of a peer share, behind locks and atomic flags, is one record, the cell of the peer.  A world that has
    such a cell gives the handle of the peer; the lock of an operation is held while it runs. *)

From Stdlib Require Import ZArith Lia List Bool.
From stdpp Require Import base numbers list option gmap.
From S2P Require Import Prelude Bytes Consensus Ser Transaction TxBody Committed Verifier PowTypes Block CompactBlock ChainTypes PeerTypes P2pMsg Handshake Adapter.

Definition MAX_TRACK_SIZE : Z := 30.
Definition MAX_PEER_MSG_PER_MIN : Z := 500.
Definition SEND_CHANNEL_CAP : nat := 100.
Definition STUCK_PEER_KICK_TIME : Z := 2 * 3600 * 1000.

(** [State] *)
Inductive ConnState := StateConnected | StateBanned.
#[export] Instance conn_state_eq_dec : EqDecision ConnState.
Proof. solve_decision. Defined.

(** [Peer], with its [TrackingAdapter], [Tracker], [ConnHandle] and [StopHandle]; [writer_gone] when the receiving end of the
    queue is dropped *)
Record Peer (L LM : Type) := mkPeer {
  info : PeerInfo;
  state : ConnState;
  received_hashes : L;
  requested_hashes : LM;
  sent_bytes : RateCounter;
  received_bytes : RateCounter;
  send_channel : list Msg;
  writer_gone : bool;
  stopped : bool;
  state_sync_requested : bool
}.
Arguments mkPeer {L LM}.
Arguments info {L LM}.
Arguments state {L LM}.
Arguments received_hashes {L LM}.
Arguments requested_hashes {L LM}.
Arguments sent_bytes {L LM}.
Arguments received_bytes {L LM}.
Arguments send_channel {L LM}.
Arguments writer_gone {L LM}.
Arguments stopped {L LM}.
Arguments state_sync_requested {L LM}.

Section Peer.
  Context {DG : Digest} (ct : ChainTypes) {L : Type} `{!LruCache L} {LM : Type} `{!LruMap LM Z}.
  #[local] Abbreviation Peer := (Peer L LM).
  Implicit Types (p : Peer).

(** [Peer::new] *)
Definition peer_new (i : PeerInfo) : Peer :=
  mkPeer i StateConnected lru_new lru_map_new rate_new rate_new [] false false false.

Definition with_info (i : PeerInfo) p : Peer :=
  mkPeer i (state p) (received_hashes p) (requested_hashes p) (sent_bytes p) (received_bytes p) (send_channel p) (writer_gone p) (stopped p) (state_sync_requested p).
Definition with_received (l : L) p : Peer :=
  mkPeer (info p) (state p) l (requested_hashes p) (sent_bytes p) (received_bytes p) (send_channel p) (writer_gone p) (stopped p) (state_sync_requested p).
Definition with_requested (l : LM) p : Peer :=
  mkPeer (info p) (state p) (received_hashes p) l (sent_bytes p) (received_bytes p) (send_channel p) (writer_gone p) (stopped p) (state_sync_requested p).
Definition with_rates (sent received : RateCounter) p : Peer :=
  mkPeer (info p) (state p) (received_hashes p) (requested_hashes p) sent received (send_channel p) (writer_gone p) (stopped p) (state_sync_requested p).
Definition with_channel (q : list Msg) (gone : bool) p : Peer :=
  mkPeer (info p) (state p) (received_hashes p) (requested_hashes p) (sent_bytes p) (received_bytes p) q gone (stopped p) (state_sync_requested p).

(** [is_connected], [is_banned] *)
Definition is_connected p : bool := bool_decide (StateConnected = state p).
Definition is_banned p : bool := bool_decide (StateBanned = state p).
(** [is_stuck]; [now] is in milliseconds *)
Definition is_stuck (now : Z) p : bool * Difficulty :=
  let live := live_info (info p) in
  (stuck_detector live + STUCK_PEER_KICK_TIME <? now, live_difficulty live).
(** [is_abusive] *)
Definition is_abusive p : bool :=
  (MAX_PEER_MSG_PER_MIN <? count_per_min (received_bytes p)) || (MAX_PEER_MSG_PER_MIN <? count_per_min (sent_bytes p)).
(** [last_min_sent_bytes], [last_min_received_bytes], [last_min_message_counts] *)
Definition last_min_sent_bytes p : option Z := Some (bytes_per_min (sent_bytes p)).
Definition last_min_received_bytes p : option Z := Some (bytes_per_min (received_bytes p)).
Definition last_min_message_counts p : option (Z * Z) := Some (count_per_min (sent_bytes p), count_per_min (received_bytes p)).
(** [set_banned], [stop], and the store to [state_sync_requested] *)
Definition set_banned p : Peer :=
  mkPeer (info p) StateBanned (received_hashes p) (requested_hashes p) (sent_bytes p) (received_bytes p) (send_channel p) (writer_gone p) (stopped p) (state_sync_requested p).
Definition peer_stop p : Peer :=
  mkPeer (info p) (state p) (received_hashes p) (requested_hashes p) (sent_bytes p) (received_bytes p) (send_channel p) (writer_gone p) true (state_sync_requested p).
Definition set_sync_requested (b : bool) p : Peer :=
  mkPeer (info p) (state p) (received_hashes p) (requested_hashes p) (sent_bytes p) (received_bytes p) (send_channel p) (writer_gone p) (stopped p) b.

(** [Tracker::inc_received], [inc_sent], [inc_quiet_received], [inc_quiet_sent] *)
Definition inc_received (now size : Z) p : Peer := with_rates (sent_bytes p) (rate_inc now size (received_bytes p)) p.
Definition inc_sent (now size : Z) p : Peer := with_rates (rate_inc now size (sent_bytes p)) (received_bytes p) p.
Definition inc_quiet_received (now size : Z) p : Peer := with_rates (sent_bytes p) (rate_inc_quiet now size (received_bytes p)) p.
Definition inc_quiet_sent (now size : Z) p : Peer := with_rates (rate_inc_quiet now size (sent_bytes p)) (received_bytes p) p.

(** ** Sending *)

#[local] Abbreviation VM := (vm Peer P2pError).

(** [ConnHandle::send]: a message that finds the queue full is dropped *)
Definition conn_send (m : Msg) : VM unit := fun p =>
  if writer_gone p then (Err PSend, p)
  else if (length (send_channel p) <? SEND_CHANNEL_CAP)%nat then (Ok tt, with_channel (send_channel p ++ [m]) (writer_gone p) p)
  else (Ok tt, p).
(** [Peer::send] *)
Definition peer_send {A} `{!Writeable A} (msg : A) (t : MsgType) : VM unit := fun p =>
  conn_send (msg_new ct t msg (peer_version (info p))) p.

(** [TrackingAdapter::has_recv], [push_recv], [push_req], [req_opts] *)
Definition has_recv (h : bytes) p : bool := contains_key (received_hashes p) h.
Definition push_recv (h : bytes) p : Peer := with_received (lru_insert (received_hashes p) h) p.
Definition push_req (h : bytes) (opts : Z) p : Peer := with_requested (lru_map_insert h opts (requested_hashes p)) p.
Definition req_opts (h : bytes) p : option Z * Peer :=
  let '(o, l) := lru_get h (requested_hashes p) in (o, with_requested l p).

Definition header_hash (h : BlockHeader) : bytes := @hash DG _ (write_header ct) h.

(** [send_ping], [send_ban_reason] *)
Definition send_ping (d : Difficulty) (height : Z) : VM unit := peer_send (mkPing d height) TPing.
Definition send_ban_reason (r : ReasonForBan) : VM unit := peer_send (mkBanReason r) TBanReason.

(** What is sent unless the peer is known to have it *)
Definition send_unless_known {A} `{!Writeable A} (h : bytes) (msg : A) (t : MsgType) : VM bool := fun p =>
  if negb (has_recv h p) then (let@ _ := peer_send msg t in vret true) p else (Ok false, p).
(** [send_block], [send_compact_block], [send_header], [send_tx_kernel_hash] *)
Definition send_block (b : Block) : VM bool := @send_unless_known _ (write_block ct) (header_hash (header b)) b TBlock.
Definition send_compact_block (b : CompactBlock) : VM bool :=
  @send_unless_known _ (write_compact_block ct) (header_hash (cb_header b)) b TCompactBlock.
Definition send_header (bh : BlockHeader) : VM bool := @send_unless_known _ (write_header ct) (header_hash bh) bh THeader.
Definition send_tx_kernel_hash (h : bytes) : VM bool := send_unless_known h h TTransactionKernel.

(** [&tx.kernels()[0]] *)
Definition first_kernel (tx : Transaction) : VM TxKernel := vlift (match kernels (body tx) with k :: _ => Ok k | [] => Panic end).
(** [send_transaction]: the hash of the kernel only, to a peer that can ask for the rest *)
Definition send_transaction (tx : Transaction) : VM bool := fun p =>
  (let@ kernel := first_kernel tx in
   if contains (peer_capabilities (info p)) TX_KERNEL_HASH then send_tx_kernel_hash (hash kernel)
   else send_unless_known (hash kernel) tx TTransaction) p.
(** [send_stem_transaction], [send_header_request], [send_tx_request], [send_block_request], [send_compact_block_request],
    [send_peer_request], [send_txhashset_request] *)
Definition send_stem_transaction (tx : Transaction) : VM unit := peer_send tx TStemTransaction.
Definition send_header_request (locator : list bytes) : VM unit := peer_send (mkLocator locator) TGetHeaders.
Definition send_tx_request (h : bytes) : VM unit := peer_send h TGetTransaction.
Definition send_block_request (h : bytes) (opts : Z) : VM unit := fun p => peer_send h TGetBlock (push_req h opts p).
Definition send_compact_block_request (h : bytes) : VM unit := peer_send h TGetCompactBlock.
Definition send_peer_request (capab : Capabilities) : VM unit := peer_send (mkGetPeerAddrs capab) TGetPeerAddrs.
Definition send_txhashset_request (height : Z) (h : bytes) : VM unit := fun p =>
  peer_send (mkTxHashSetRequest h height) TTxHashSetRequest (set_sync_requested true p).
End Peer.

(** ** Worlds with the cell of a peer *)

Class PeerCell (L LM W : Type) := {
  cell : W -> Peer L LM;
  set_cell : Peer L LM -> W -> W;
  cell_set p w : cell (set_cell p w) = p
}.

Section Tracking.
  Context {DG : Digest} (ct : ChainTypes) {L : Type} `{!LruCache L} {LM : Type} `{!LruMap LM Z} {W : Type} `{!PeerCell L LM W}.

Definition on_cell (f : Peer L LM -> Peer L LM) (w : W) : W := set_cell (f (cell w)) w.

(** [TrackingAdapter]: it marks what arrives as known to the peer, and a block that was asked for keeps the options of the
    request; everything else is forwarded *)
Definition tracked_transaction (adapter : ChainAdapter W) (tx : Transaction) (stem : bool) : vm W ErrorKind bool :=
  if stem then transaction_received adapter tx stem
  else
    match kernels (body tx) with
    | kernel :: _ => fun w => transaction_received adapter tx stem (on_cell (push_recv (hash kernel)) w)
    | [] => vlift Panic
    end.
Definition tracked_block (adapter : ChainAdapter W) (b : Block) (i : PeerInfo) (opts : Z) : vm W ErrorKind bool := fun w =>
  let bh := header_hash ct (header b) in
  let w := on_cell (push_recv bh) w in
  let '(req, p) := req_opts bh (cell w) in
  block_received adapter b i (default opts req) (set_cell p w).
Definition tracking_adapter (adapter : NetAdapter W) : NetAdapter W :=
  mkNetAdapter
    (mkChainAdapter
      (total_difficulty adapter) (total_height adapter)
      (tracked_transaction adapter)
      (get_transaction adapter)
      (fun h i w => tx_kernel_received adapter h i (on_cell (push_recv h) w))
      (tracked_block adapter)
      (fun cb i w => compact_block_received adapter cb i (on_cell (push_recv (header_hash ct (cb_header cb))) w))
      (fun bh i w => header_received adapter bh i (on_cell (push_recv (header_hash ct bh)) w))
      (headers_received adapter) (locate_headers adapter) (get_block adapter)
      (kernel_data_read adapter) (kernel_data_write adapter)
      (txhashset_read adapter) (txhashset_archive_header adapter) (txhashset_receive_ready adapter)
      (txhashset_download_update adapter) (txhashset_write adapter))
    (find_peer_addrs adapter) (peer_addrs_received adapter) (peer_difficulty adapter) (adapter_is_banned adapter).
End Tracking.
