(* ===== verification/StreamCounts.v ===== *)
(** * Streaming readers count what they read

    A [StreamingReader] reports the bytes it took; [Protocol] compares their number with the length of a message.  The
    combinators here show that the count is exact for headers. *)

From Stdlib Require Import ZArith Lia List Bool.
From stdpp Require Import base numbers list option gmap.
From S2P Require Import Prelude Bytes Consensus Ser Transaction TxBody Committed Verifier PowTypes Block CompactBlock Pow ChainTypes PeerTypes P2pMsg.

(** A successful read takes bytes from the front of the stream and adds their number to the count. *)
Definition tallies {A} (rd : StreamingReader -> res Error (A * StreamingReader)) : Prop :=
  forall r a r', is_u64 (total_bytes_read r) -> rd r = Ok (a, r') ->
  exists pre, stream r = pre ++ stream r' /\ is_u64 (total_bytes_read r') /\
    total_bytes_read r' = (total_bytes_read r + Z.of_nat (length pre))%u64.

Lemma tallies_ret {A} (a : A) : tallies (read_ret a).
Proof.
  intros r x r' Hr [= <- <-]. exists []. split; [done|]. split; [done|]. cbn [length]. rewrite Z.add_0_r || idtac.
  unfold add64, wrap64. rewrite Z.add_0_r. rewrite Z.mod_small; [done|exact Hr].
Qed.
Lemma tallies_fail {A} (e : Error) : tallies (A := A) (read_fail e).
Proof. intros r x r' _ H. discriminate. Qed.
Lemma tallies_panic {A} : tallies (A := A) read_panic.
Proof. intros r x r' _ H. discriminate. Qed.

Lemma wrap_is_u64 x : is_u64 (wrap64 x).
Proof. apply Z.mod_pos_bound. lia. Qed.
Lemma add_counts x a b : ((x + Z.of_nat a)%u64 + Z.of_nat b)%u64 = (x + Z.of_nat (a + b))%u64.
Proof. unfold add64, wrap64. rewrite Zplus_mod_idemp_l. f_equal. lia. Qed.

Lemma tallies_bind {A B} (m : StreamingReader -> res Error (A * StreamingReader)) (k : A -> StreamingReader -> res Error (B * StreamingReader)) :
  tallies m -> (forall a, tallies (k a)) -> tallies (read_bind m k).
Proof.
  intros Hm Hk r b r' Hr H. apply read_bind_inv in H as (a & r1 & H1 & H2). destruct (Hm r a r1 Hr H1) as (p1 & E1 & Hr1 & T1).
  destruct (Hk a r1 b r' Hr1 H2) as (p2 & E2 & Hr2 & T2). exists (p1 ++ p2). split; [rewrite <- app_assoc, <- E2; exact E1|]. split; [exact Hr2|].
  rewrite T2, T1, length_app. apply add_counts.
Qed.
Lemma tallies_fixed n : 0 <= n -> tallies (read_fixed_bytes n).
Proof.
  intros Hn r b r' Hr H. cbn in H. unfold streaming_read_fixed_bytes in H. apply bind_ok in H as ([b1 s1] & H1 & H). injection H as <- <-.
  apply read_exact_inv in H1 as [-> Hl]. exists b1. cbn [stream total_bytes_read]. split; [done|]. split; [apply wrap_is_u64|].
  rewrite Hl, Z2Nat.id by exact Hn. done.
Qed.
Lemma tallies_int k : tallies (read_int k).
Proof. apply (tallies_fixed (Z.of_nat k)). lia. Qed.
Lemma tallies_u8 : tallies read_u8.
Proof. apply tallies_bind; [apply tallies_int|intros; apply tallies_ret]. Qed.
Lemma tallies_u16 : tallies read_u16.
Proof. apply tallies_bind; [apply tallies_int|intros; apply tallies_ret]. Qed.
Lemma tallies_u32 : tallies read_u32.
Proof. apply tallies_bind; [apply tallies_int|intros; apply tallies_ret]. Qed.
Lemma tallies_u32_le : tallies read_u32_le.
Proof. apply tallies_bind; [apply tallies_int|intros; apply tallies_ret]. Qed.
Lemma tallies_i32_le : tallies read_i32_le.
Proof. apply tallies_bind; [apply tallies_int|intros; apply tallies_ret]. Qed.
Lemma tallies_u64 : tallies read_u64.
Proof. apply tallies_bind; [apply tallies_int|intros; apply tallies_ret]. Qed.
Lemma tallies_i64 : tallies read_i64.
Proof. apply tallies_bind; [apply tallies_int|intros; apply tallies_ret]. Qed.
Lemma tallies_hash : tallies hash_read.
Proof. apply tallies_fixed. lia. Qed.
Lemma tallies_if {A} (b : bool) (m k : StreamingReader -> res Error (A * StreamingReader)) : tallies m -> tallies k -> tallies (if b then m else k).
Proof. destruct b; done. Qed.

(** An item that fails half way ends the list, so that only a full list tells how much was read. *)
Lemma tallies_collect {A} (rd : StreamingReader -> res Error (A * StreamingReader)) n : tallies rd ->
  forall r l r', is_u64 (total_bytes_read r) -> iterating_collect rd n r = Ok (l, r') ->
  exists pre, stream r = pre ++ stream r' /\ is_u64 (total_bytes_read r') /\
    total_bytes_read r' = (total_bytes_read r + Z.of_nat (length pre))%u64.
Proof.
  intros Hrd. induction n as [|n IH]; intros r l r' Hr H; cbn [iterating_collect] in H.
  - injection H as <- <-. exact (tallies_ret tt r tt r Hr eq_refl).
  - destruct (rd r) as [[a r1]|e|] eqn:E1; [|injection H as <- <-; exact (tallies_ret tt r tt r Hr eq_refl)|discriminate].
    apply bind_ok in H as ([l1 r2] & H2 & H). injection H as <- <-.
    destruct (Hrd r a r1 Hr E1) as (p1 & S1 & Hr1 & T1). destruct (IH r1 l1 r2 Hr1 H2) as (p2 & S2 & Hr2 & T2).
    exists (p1 ++ p2). split; [rewrite <- app_assoc, <- S2; exact S1|]. split; [exact Hr2|]. rewrite T2, T1, length_app. apply add_counts.
Qed.
Lemma tallies_multi {A} (rd : StreamingReader -> res Error (A * StreamingReader)) n : tallies rd -> tallies (read_multi rd n).
Proof.
  intros Hrd. unfold read_multi. apply tallies_if; [apply tallies_fail|]. apply tallies_bind; [|intros l; apply tallies_if; [apply tallies_fail|apply tallies_ret]].
  intros r l r'. apply tallies_collect, Hrd.
Qed.

Create HintDb counting.
#[export] Hint Resolve tallies_ret tallies_fail tallies_panic tallies_u8 tallies_u16 tallies_u32 tallies_u32_le tallies_i32_le tallies_u64 tallies_i64
  tallies_hash tallies_multi : counting.
(** Peels the fields and the tests off a reader. *)
Ltac counting := repeat first
  [ solve [auto 2 with counting]
  | apply tallies_bind; [|intros ?]
  | apply tallies_if
  | match goal with |- tallies (match ?x with _ => _ end) => destruct x end ].

Section Headers.
  Context {DG : Digest} (ct : ChainTypes) {SS : SecpSizes} {CH : Chrono}.

Lemma tallies_aux_data : tallies aux_data_read.
Proof. unfold aux_data_read, aux_header_read. counting. Qed.
Lemma tallies_proof : tallies proof_read.
Proof.
  unfold proof_read. apply tallies_bind; [apply tallies_u8|intros eb]. apply tallies_if; [apply tallies_fail|].
  cbv zeta. apply tallies_bind; [apply tallies_fixed; lia|intros bits]. counting.
Qed.
Lemma tallies_blinding : tallies blinding_read.
Proof. unfold blinding_read. apply tallies_bind; [apply tallies_fixed; lia|intros; apply tallies_ret]. Qed.
Lemma tallies_pow : tallies pow_read.
Proof. unfold pow_read, difficulty_read. pose proof tallies_proof. counting. Qed.
Lemma tallies_token_part height : tallies (token_part_read ct height).
Proof. unfold token_part_read. counting. Qed.
Lemma tallies_header : tallies (header_read ct).
Proof.
  pose proof tallies_aux_data. pose proof tallies_blinding. pose proof tallies_pow. pose proof tallies_token_part. unfold header_read. counting.
Qed.
(** The header of a block from a peer takes exactly the bytes it reports. *)
Lemma tallies_untrusted_header now : tallies (untrusted_header_read ct now).
Proof. unfold untrusted_header_read. apply tallies_bind; [apply tallies_header|intros h]. counting. Qed.
End Headers.
