(* ===== verification/Messages.v ===== *)
(** * Every message arrives

    Over [P2pMsg]: the messages of each type with their forms and readers, as [handshake.rs] and [protocol.rs] choose them, and
    the theorem that what a peer writes is what the other side reads. *)

From Stdlib Require Import ZArith Lia List Bool.
From stdpp Require Import base numbers list option gmap.
From S2P Require Import Prelude Bytes Consensus Ser Transaction TxBody Committed Verifier PowTypes Block CompactBlock Pow ChainTypes PeerTypes P2pMsg StreamCounts.

Section Messages.
  Context {DG : Digest} (ct : ChainTypes) {SS : SecpSizes} {CH : Chrono}.

(** ** What is read from a peer with care *)

(** What [UntrustedBlockHeader::read] wants of a header, beyond its form *)
Definition header_acceptable (clock : Z) (h : BlockHeader) : bool :=
  (Block.timestamp h <=? clock + 12 * BLOCK_TIME_SEC) &&
  (if bh_height h <? refactor_header_height ct then
     valid_header_version ct (bh_height h) (bh_version h) && (is_primary (pow h) || is_secondary (pow h)) &&
     match verify_size ct h with Ok _ => true | _ => false end
   else true).

(** In version 1 there are no token parts. *)
Definition form_of_version (v : Z) (b : TransactionBody) : Prop :=
  v <= 1 -> token_inputs b = [] /\ token_outputs b = [] /\ token_kernels b = [].

Section Untrusted.
  Context {R : Type} `{!Reader R} `{!ReaderLaws R}.

Lemma reads_untrusted_header v clock h : wf_header ct h -> header_acceptable clock h = true ->
  reads (R := R) v (untrusted_header_read ct clock) (@write _ (write_header ct) (bin_writer v) h) h.
Proof.
  intros Hw Ha. unfold untrusted_header_read. eapply reads_bind_last; [apply reads_header, Hw|].
  unfold header_acceptable in Ha. apply andb_true_iff in Ha as [Ht Ha]. apply Z.leb_le in Ht. rewrite (proj2 (Z.ltb_ge _ _)) by lia.
  destruct (bh_height h <? refactor_header_height ct); [|apply reads_ret]. apply andb_true_iff in Ha as [Ha Hp]. apply andb_true_iff in Ha as [Hv Hk].
  rewrite Hv. cbn [negb]. destruct (is_primary (pow h)), (is_secondary (pow h)); try discriminate; cbn [negb andb];
    destruct (verify_size ct h); try discriminate; apply reads_ret.
Qed.

Lemma reads_aux_part v height d :
  (if refactor_header_height ct <=? height then d = aux_data_default else wf_aux_data d) ->
  reads (R := R) v (if refactor_header_height ct <=? height then read_ret aux_data_default else aux_data_read)
    (if height <? refactor_header_height ct then write (bin_writer v) d else []) d.
Proof.
  destruct (Z.leb_spec (refactor_header_height ct) height).
  - intros ->. rewrite (proj2 (Z.ltb_ge _ _)) by done. apply reads_ret.
  - intros H1. rewrite (proj2 (Z.ltb_lt _ _)) by done. apply reads_aux_data, H1.
Qed.

Lemma reads_untrusted_block v clock b :
  wf_block ct b -> header_acceptable clock (header b) = true -> wf_body (block_body b) -> light ct (block_body b) ->
  validate_read ct (block_body b) AsBlock = Ok tt -> form_of_version v (block_body b) ->
  reads (R := R) v (untrusted_block_read ct clock) (@write _ (write_block ct) (bin_writer v) b) b.
Proof.
  intros [Hh Ha] Hc Hwf Hl Hval Htok. unfold untrusted_block_read.
  change (@write _ (write_block ct) (bin_writer v) b) with (@write _ (write_header ct) (bin_writer v) (header b)
    ++ (if bh_height (header b) <? refactor_header_height ct then write (bin_writer v) (aux_data b) else [])
    ++ write (bin_writer v) (block_body b)).
  assert (Hs : body_sorted (block_body b)).
  { unfold validate_read in Hval. apply bind_ok_tt in Hval as [_ Hv]. apply bind_ok_tt in Hv as [Hv _]. apply verify_sorted_iff, Hv. }
  eapply reads_bind; [apply reads_untrusted_header; done|]. eapply reads_bind; [apply reads_aux_part, Ha|].
  eapply reads_bind_last; [apply reads_body; done|]. rewrite Hval. destruct b. apply reads_ret.
Qed.

Lemma reads_untrusted_compact v clock cb :
  wf_compact_block ct cb -> header_acceptable clock (cb_header cb) = true ->
  reads (R := R) v (untrusted_compact_read ct clock) (@write _ (write_compact_block ct) (bin_writer v) cb) cb.
Proof.
  intros (Hh & Hn & Ha & Hb) Hc. unfold untrusted_compact_read.
  change (@write _ (write_compact_block ct) (bin_writer v) cb) with
    (@write _ (write_header ct) (bin_writer v) (cb_header cb) ++ write_u64 (cb_nonce cb)
     ++ (if bh_height (cb_header cb) <? refactor_header_height ct then write (bin_writer v) (cb_aux_data cb) else [])
     ++ write (bin_writer v) (cb_body cb)).
  eapply reads_bind; [apply reads_untrusted_header; done|]. eapply reads_bind; [by apply reads_u64|]. eapply reads_bind; [apply reads_aux_part, Ha|].
  eapply reads_bind_last; [apply reads_compact_body, Hb|]. cbv zeta. destruct Hb as (_ & _ & _ & _ & _ & _ & S1 & S2 & S3).
  pose proof (proj2 (compact_init_verified (out_full (cb_body cb)) (kern_full (cb_body cb)) (kern_ids (cb_body cb))) (conj S1 (conj S2 S3))) as Hi.
  unfold compact_validate_read, compact_body_validate_read. unfold compact_init in Hi. destruct cb as [h n a [outs kerns ids]].
  cbn -[compact_verify_sorted] in Hi |- *. destruct (compact_verify_sorted (mkCompactBody outs kerns ids)); [apply reads_ret|discriminate..].
Qed.
End Untrusted.

(** ** The messages that are read whole *)

(** A message of each type but two: the headers, which are read one by one, and the error, which is never read *)
Inductive MsgBody :=
| MHand (m : Hand) | MShake (m : Shake) | MPing (m : Ping) | MPong (m : Pong)
| MGetPeerAddrs (m : GetPeerAddrs) | MPeerAddrs (m : PeerAddrs)
| MGetHeaders (m : Locator) | MHeader (m : BlockHeader)
| MGetBlock (m : bytes) | MBlock (m : Block) | MGetCompactBlock (m : bytes) | MCompactBlock (m : CompactBlock)
| MStemTransaction (m : Transaction) | MTransaction (m : Transaction)
| MTxHashSetRequest (m : TxHashSetRequest) | MTxHashSetArchive (m : TxHashSetArchive)
| MBanReason (m : BanReason) | MGetTransaction (m : bytes) | MTransactionKernel (m : bytes).

Definition body_type (m : MsgBody) : MsgType :=
  match m with
  | MHand _ => THand | MShake _ => TShake | MPing _ => TPing | MPong _ => TPong
  | MGetPeerAddrs _ => TGetPeerAddrs | MPeerAddrs _ => TPeerAddrs
  | MGetHeaders _ => TGetHeaders | MHeader _ => THeader
  | MGetBlock _ => TGetBlock | MBlock _ => TBlock | MGetCompactBlock _ => TGetCompactBlock | MCompactBlock _ => TCompactBlock
  | MStemTransaction _ => TStemTransaction | MTransaction _ => TTransaction
  | MTxHashSetRequest _ => TTxHashSetRequest | MTxHashSetArchive _ => TTxHashSetArchive
  | MBanReason _ => TBanReason | MGetTransaction _ => TGetTransaction | MTransactionKernel _ => TTransactionKernel
  end.

#[export] Instance write_msg_body : Writeable MsgBody := fun w m =>
  match m with
  | MHand m => write w m | MShake m => write w m | MPing m => write w m | MPong m => write w m
  | MGetPeerAddrs m => write w m | MPeerAddrs m => write w m
  | MGetHeaders m => write w m | MHeader m => @write _ (write_header ct) w m
  | MGetBlock m => write w m | MBlock m => @write _ (write_block ct) w m
  | MGetCompactBlock m => write w m | MCompactBlock m => @write _ (write_compact_block ct) w m
  | MStemTransaction m => write w m | MTransaction m => write w m
  | MTxHashSetRequest m => write w m | MTxHashSetArchive m => write w m
  | MBanReason m => write w m | MGetTransaction m => write w m | MTransactionKernel m => write w m
  end.

(** The reader of a type: that of [accept] and [initiate] for the handshake, that of [Protocol::consume] for the others *)
Definition read_as {A R} `{!Reader R} (rd : R -> res Error (A * R)) (f : A -> MsgBody) : R -> res Error (MsgBody * R) :=
  let! m := rd in read_ret (f m).
Definition msg_body_read {R} `{!Reader R} (clock : Z) (t : MsgType) : R -> res Error (MsgBody * R) :=
  match t with
  | THand => read_as hand_read MHand | TShake => read_as shake_read MShake
  | TPing => read_as ping_read MPing | TPong => read_as pong_read MPong
  | TGetPeerAddrs => read_as get_peer_addrs_read MGetPeerAddrs | TPeerAddrs => read_as peer_addrs_read MPeerAddrs
  | TGetHeaders => read_as locator_read MGetHeaders | THeader => read_as (untrusted_header_read ct clock) MHeader
  | TGetBlock => read_as hash_read MGetBlock | TBlock => read_as (untrusted_block_read ct clock) MBlock
  | TGetCompactBlock => read_as hash_read MGetCompactBlock
  | TCompactBlock => read_as (untrusted_compact_read ct clock) MCompactBlock
  | TStemTransaction => read_as (tx_read ct) MStemTransaction | TTransaction => read_as (tx_read ct) MTransaction
  | TTxHashSetRequest => read_as txhashset_request_read MTxHashSetRequest
  | TTxHashSetArchive => read_as txhashset_archive_read MTxHashSetArchive
  | TBanReason => read_as ban_reason_read MBanReason
  | TGetTransaction => read_as hash_read MGetTransaction | TTransactionKernel => read_as hash_read MTransactionKernel
  | TError | THeaders => read_fail CorruptedData
  end.

Lemma types_covered t : t = TError \/ t = THeaders \/ exists m, body_type m = t.
Proof.
  pose (h := mkHeader 0 0 [] [] 0 [] [] [] (mkBlinding []) 0 0 0 [] [] [] [] 0 0 0 pow_default aux_data_default). pose (b := mkBody [] [] [] [] [] []).
  destruct t; [left; done|..]; right.
  9: left; done. all: right.
  - exists (MHand (mkHand 0 FULL_NODE 0 [] (mkDifficulty 0) (mkPeerAddr (socket_addr (Ipv4 []) 0)) (mkPeerAddr (socket_addr (Ipv4 []) 0)) [])). done.
  - exists (MShake (mkShake 0 FULL_NODE [] (mkDifficulty 0) [])). done.
  - exists (MPing (mkPing (mkDifficulty 0) 0)). done.
  - exists (MPong (mkPong (mkDifficulty 0) 0)). done.
  - exists (MGetPeerAddrs (mkGetPeerAddrs FULL_NODE)). done.
  - exists (MPeerAddrs (mkPeerAddrs [])). done.
  - exists (MGetHeaders (mkLocator [])). done.
  - exists (MHeader h). done.
  - exists (MGetBlock []). done.
  - exists (MBlock (mkBlock h aux_data_default b)). done.
  - exists (MGetCompactBlock []). done.
  - exists (MCompactBlock (mkCompact h 0 aux_data_default (mkCompactBody [] [] []))). done.
  - exists (MStemTransaction (mkTx (mkBlinding []) b)). done.
  - exists (MTransaction (mkTx (mkBlinding []) b)). done.
  - exists (MTxHashSetRequest (mkTxHashSetRequest [] 0)). done.
  - exists (MTxHashSetArchive (mkTxHashSetArchive [] 0 0)). done.
  - exists (MBanReason (mkBanReason NoReason)). done.
  - exists (MGetTransaction []). done.
  - exists (MTransactionKernel []). done.
Qed.

(** ** What can be sent *)

(** A transaction that the reader accepts *)
Definition wf_tx (v : Z) (tx : Transaction) : Prop :=
  wf_blinding (offset tx) /\ wf_body (body tx) /\ light ct (body tx) /\ tx_validate_read ct tx = Ok tt /\ form_of_version v (body tx).
(** A block that the reader accepts at the time [clock] *)
Definition wf_sent_block (v clock : Z) (b : Block) : Prop :=
  wf_block ct b /\ header_acceptable clock (header b) = true /\ wf_body (block_body b) /\ light ct (block_body b) /\
  validate_read ct (block_body b) AsBlock = Ok tt /\ form_of_version v (block_body b).

(** The messages in range, written for the version [v] and read at the version [v'] and the time [clock].  Headers, blocks and
    transactions are written and read at the version the peers agreed on. *)
Definition sendable (v v' clock : Z) (m : MsgBody) : Prop :=
  match m with
  | MHand m => wf_hand m
  | MShake m => wf_shake m
  | MPing m => wf_difficulty (ping_difficulty m) /\ is_u64 (ping_height m)
  | MPong m => wf_difficulty (pong_difficulty m) /\ is_u64 (pong_height m)
  | MGetPeerAddrs m => wf_caps (get_capabilities m)
  | MPeerAddrs m => Forall wf_peer_addr (addrs_peers m) /\ Z.of_nat (length (addrs_peers m)) <= MAX_PEER_ADDRS
  | MGetHeaders m => Forall wf_hash (locator_hashes m) /\ Z.of_nat (length (locator_hashes m)) <= MAX_LOCATORS
  | MHeader m => v' = v /\ wf_header ct m /\ header_acceptable clock m = true
  | MBlock m => v' = v /\ wf_sent_block v clock m
  | MCompactBlock m => v' = v /\ wf_compact_block ct m /\ header_acceptable clock (cb_header m) = true
  | MStemTransaction m | MTransaction m => v' = v /\ wf_tx v m
  | MGetBlock m | MGetCompactBlock m | MGetTransaction m | MTransactionKernel m => wf_hash m
  | MTxHashSetRequest m => wf_hash (request_hash m) /\ is_u64 (request_height m)
  | MTxHashSetArchive m => wf_hash (archive_hash m) /\ is_u64 (archive_height m) /\ is_u64 (archive_bytes m)
  | MBanReason _ => True
  end.
(** A message arrives as it was sent, but for its addresses: without flow label and scope, and an IPv6 form of an IPv4 address
    as that address. *)
Definition body_received (m : MsgBody) : MsgBody :=
  match m with
  | MHand m => MHand (hand_received m)
  | MPeerAddrs m => MPeerAddrs (mkPeerAddrs (map received (addrs_peers m)))
  | m => m
  end.

Lemma reads_as {A R} `{!Reader R} `{!ReaderLaws R} v (rd : R -> res Error (A * R)) (f : A -> MsgBody) bs a :
  reads v rd bs a -> reads v (read_as rd f) bs (f a).
Proof. intros H. eapply reads_bind_last; [exact H|apply reads_ret]. Qed.

Lemma reads_msg_body {R} `{!Reader R} `{!ReaderLaws R} v v' clock m : sendable v v' clock m ->
  reads (R := R) v' (msg_body_read clock (body_type m)) (write (bin_writer v) m) (body_received m).
Proof.
  destruct m as [m|m|m|m|m|m|m|m|m|m|m|m|m|m|m|m|m|m|m]; intros H; cbn [body_type msg_body_read body_received].
  - apply reads_as, reads_hand, H.
  - apply reads_as, reads_shake, H.
  - apply reads_as, reads_ping; apply H.
  - apply reads_as, reads_pong; apply H.
  - apply reads_as, reads_get_peer_addrs, H.
  - apply reads_as, reads_peer_addrs; apply H.
  - apply reads_as, reads_locator; apply H.
  - destruct H as (-> & Hw & Ha). apply reads_as, reads_untrusted_header; done.
  - apply reads_as, reads_hash, H.
  - destruct H as (-> & Hw & Ha & Hb & Hl & Hv & Hf). apply reads_as, reads_untrusted_block; done.
  - apply reads_as, reads_hash, H.
  - destruct H as (-> & Hw & Ha). apply reads_as, reads_untrusted_compact; done.
  - destruct H as (-> & Ho & Hb & Hl & Hv & Hf). apply reads_as, reads_tx; done.
  - destruct H as (-> & Ho & Hb & Hl & Hv & Hf). apply reads_as, reads_tx; done.
  - apply reads_as, reads_txhashset_request; apply H.
  - apply reads_as, reads_txhashset_archive; apply H.
  - apply reads_as, reads_ban_reason.
  - apply reads_as, reads_hash, H.
  - apply reads_as, reads_hash, H.
Qed.

(** ** Limits *)

(** The types whose messages are within their limits by their form *)
Definition bounded_type (t : MsgType) : bool :=
  match t with
  | TPing | TPong | TGetPeerAddrs | TPeerAddrs | TGetHeaders | TGetBlock | TGetCompactBlock | TTxHashSetRequest | TTxHashSetArchive
  | TBanReason | TGetTransaction | TTransactionKernel => true
  | _ => false
  end.
Definition within_limit (v : Z) (m : MsgBody) : Prop :=
  bounded_type (body_type m) = true \/ fits ct (body_type m) (Z.of_nat (length (ser_vec m v))).

Lemma hash_fits t v h : (t = TGetBlock \/ t = TGetCompactBlock \/ t = TGetTransaction \/ t = TTransactionKernel) -> wf_hash h ->
  fits ct t (Z.of_nat (length (ser_vec h v))).
Proof.
  intros Ht H. unfold ser_vec, write, write_hash, write_fixed_bytes. rewrite H. split; [lia|]. destruct Ht as [-> | [-> | [-> | ->]]]; unfold HASH_LEN; cbn; lia.
Qed.
Lemma pong_fits v (m : Pong) : fits ct TPong (Z.of_nat (length (ser_vec m v))).
Proof. unfold ser_vec, write, write_pong, write, write_difficulty, write_u64. rewrite length_app, !length_be_bytes. split; [lia|]. cbn. lia. Qed.
Lemma get_peer_addrs_fits v (m : GetPeerAddrs) : fits ct TGetPeerAddrs (Z.of_nat (length (ser_vec m v))).
Proof. unfold ser_vec, write, write_get_peer_addrs, write_u32. rewrite length_be_bytes. split; [lia|]. cbn. lia. Qed.
Lemma within_limit_fits v v' clock m : sendable v v' clock m -> within_limit v m -> fits ct (body_type m) (Z.of_nat (length (ser_vec m v))).
Proof.
  intros Hs [Hb|Hf]; [|exact Hf]. destruct m; try discriminate Hb; cbn [sendable body_type] in *.
  - apply (ping_fits ct v m).
  - apply (pong_fits v m).
  - apply (get_peer_addrs_fits v m).
  - apply (peer_addrs_fit ct v m); apply Hs.
  - apply (locator_fits ct v m); apply Hs.
  - apply (hash_fits TGetBlock v m); [tauto|exact Hs].
  - apply (hash_fits TGetCompactBlock v m); [tauto|exact Hs].
  - apply (request_fits ct v m); apply Hs.
  - apply (archive_fits ct v m); apply Hs.
  - apply (ban_reason_fits ct v m).
  - apply (hash_fits TGetTransaction v m); [tauto|exact Hs].
  - apply (hash_fits TTransactionKernel v m); [tauto|exact Hs].
Qed.

(** ** The headers, one by one *)

Lemma read_item_ok {A} (rd : StreamingReader -> res Error (A * StreamingReader)) v bs a rest :
  reads v rd bs a -> tallies rd -> Z.of_nat (length bs) < U64 -> read_item rd v (bs ++ rest) = Ok (a, Z.of_nat (length bs), rest).
Proof.
  intros Hr Hc Hl. unfold read_item.
  destruct (Hr (mkStreaming 0 v (bs ++ rest)) rest eq_refl eq_refl) as (r' & E & Hrest & _). rewrite E. cbn [map_err res_bind].
  assert (H0 : is_u64 (total_bytes_read (mkStreaming 0 v (bs ++ rest)))) by (split; cbn; lia).
  destruct (Hc _ _ _ H0 E) as (b & Eb & _ & T). cbn [stream total_bytes_read remaining streaming_reader_laws] in *.
  rewrite Hrest in Eb. apply app_inv_tail in Eb as <-. rewrite T, Hrest. unfold add64, wrap64. rewrite Z.mod_small by lia. done.
Qed.

(** So many items off the stream, and the bytes they took *)
Fixpoint read_items {A} (rd : StreamingReader -> res Error (A * StreamingReader)) (v : Z) (n : nat) (stream : bytes) : res P2pError (list A * Z * bytes) :=
  match n with
  | O => Ok ([], 0, stream)
  | S n =>
    let? '(a, len, stream) := read_item rd v stream in
    let? '(l, len', stream) := read_items rd v n stream in
    Ok (a :: l, len + len', stream)
  end.
Lemma read_items_ok {A} (rd : StreamingReader -> res Error (A * StreamingReader)) (wr : A -> bytes) v l rest :
  Forall (fun a => reads v rd (wr a) a) l -> tallies rd -> Z.of_nat (length (concat (map wr l))) < U64 ->
  read_items rd v (length l) (concat (map wr l) ++ rest) = Ok (l, Z.of_nat (length (concat (map wr l))), rest).
Proof.
  intros Hl Hc. induction Hl as [|a l Ha _ IH]; intros Hn; cbn [length read_items map concat] in *; [done|].
  rewrite length_app in *. rewrite <- app_assoc, (read_item_ok rd v (wr a) a) by (done || lia). cbn [res_bind].
  rewrite IH by lia. cbn [res_bind]. rewrite Nat2Z.inj_add. done.
Qed.
Definition wf_headers (clock : Z) (m : Headers) : Prop :=
  Forall (fun h => wf_header ct h /\ header_acceptable clock h = true) (headers_list m) /\ Z.of_nat (length (headers_list m)) < 2 ^ 16.

Lemma headers_arrive_one_by_one v now sent rest clock m :
  wf_headers clock m -> fits ct THeaders (Z.of_nat (length (@ser_vec _ (write_headers ct) m v))) ->
  exists h s1 s2 n, read_msg_header ct v ((write_message now (@msg_new _ (write_headers ct) ct THeaders m v) sent).1 ++ rest) = Ok (Known h, s1) /\
    msg_type h = THeaders /\ read_item read_u16 v s1 = Ok (Z.of_nat (length (headers_list m)), 2, s2) /\
    read_items (untrusted_header_read ct clock) v (length (headers_list m)) s2 = Ok (headers_list m, n, rest) /\ 2 + n = msg_len h.
Proof.
  intros [Hl Hn] Hf. unfold write_message, msg_new. cbn [msg_header msg_version P2pMsg.msg_body attachment fst]. unfold ser_vec at 1. rewrite <- app_assoc.
  rewrite read_msg_header_ok by exact Hf. pose proof (max_msg_size_small ct THeaders) as [Hm _]. destruct Hf as [_ Hf].
  set (w := @write _ (write_header ct) (bin_writer v)).
  assert (E : @ser_vec _ (write_headers ct) m v = write_u16 (Z.of_nat (length (headers_list m))) ++ concat (map w (headers_list m))) by done.
  rewrite E in Hf |- *. rewrite length_app in Hf |- *. assert (E2 : length (write_u16 (Z.of_nat (length (headers_list m)))) = 2%nat) by apply length_be_bytes.
  rewrite E2 in *. eexists _, _, _, _. split; [reflexivity|]. split; [done|]. split.
  - rewrite <- app_assoc. rewrite (read_item_ok read_u16 v _ (Z.of_nat (length (headers_list m)))); [rewrite E2; reflexivity|apply reads_u16; lia|apply tallies_u16|].
    rewrite E2. lia.
  - split; [apply (read_items_ok (untrusted_header_read ct clock) w)|].
    + eapply List.Forall_impl; [|exact Hl]. intros h [Hw Ha]. apply reads_untrusted_header; done.
    + apply tallies_untrusted_header.
    + change U64 with (2 ^ 64). lia.
    + cbn [msg_len msg_header_new]. lia.
Qed.

(** ** Errors *)

(** A read that starts with what was written goes on behind it. *)
Lemma reads_step {R A B} `{!Reader R} `{!ReaderLaws R} v (m : R -> res Error (A * R)) (k : A -> R -> res Error (B * R)) bs a r rest :
  reads v m bs a -> protocol_version r = v -> remaining r = bs ++ rest ->
  exists r', read_bind m k r = k a r' /\ protocol_version r' = v /\ remaining r' = rest.
Proof.
  intros Hm Hv Hr. destruct (Hm r rest Hv Hr) as (r' & E & Hr' & Hv'). exists r'. unfold read_bind. rewrite E. done.
Qed.

(** A header that announces more than four times the limit of its type is refused. *)
Lemma long_header_refused {R} `{!Reader R} `{!ReaderLaws R} v w t len (r : R) rest :
  max_msg_size ct t * 4 < len < 2 ^ 64 -> protocol_version r = v -> remaining r = write w (msg_header_new ct t len) ++ rest ->
  msg_header_read ct r = Err TooLargeReadErr.
Proof.
  intros Hl Hv Hr. pose proof (max_msg_size_small ct t) as [Hm _]. destruct (magic_bytes ct) as (a & b & Em & Ha & Hb).
  destruct (type_u8_roundtrip t) as [Et Ht]. revert Hr. unfold write, write_msg_header, msg_header_new, msg_header_read. cbn [msg_magic msg_type msg_len]. rewrite Em.
  change (default 0 ([a; b] !! 0%nat)) with a. change (default 0 ([a; b] !! 1%nat)) with b. rewrite <- !app_assoc. intros Hr.
  eapply reads_step in Hr as (r1 & -> & Hv1 & Hr1); [|apply reads_expect, Ha|exact Hv].
  eapply reads_step in Hr1 as (r2 & -> & Hv2 & Hr2); [|apply reads_expect, Hb|exact Hv1].
  eapply reads_step in Hr2 as (r3 & -> & Hv3 & Hr3); [|apply reads_u8, Ht|exact Hv2].
  eapply reads_step in Hr3 as (r4 & -> & Hv4 & Hr4); [|apply reads_u64; lia|exact Hv3].
  rewrite Et. destruct (limit_exact ct t) as [-> _]. rewrite (proj2 (Z.ltb_lt _ _)) by lia. done.
Qed.

(** No message of this type is ever accepted: its limit is zero. *)
Lemma error_refused v v' now sent rest (m : PeerErrorMsg) : Z.of_nat (length (error_message m)) < 2 ^ 32 ->
  read_msg_header ct v' ((write_message now (msg_new ct TError m v) sent).1 ++ rest) = Err (PSerialization TooLargeReadErr).
Proof.
  intros Hm. unfold write_message, msg_new. cbn [msg_header msg_version P2pMsg.msg_body attachment fst]. unfold ser_vec at 1. rewrite <- app_assoc.
  set (h := msg_header_new ct TError _). unfold read_msg_header. rewrite <- (length_msg_header (bin_writer v) h), stream_exact_ok. cbn [res_bind].
  assert (E : msg_header_read ct (mkBinReader (write (bin_writer v) h) v') = Err TooLargeReadErr).
  { apply (long_header_refused v' (bin_writer v) TError (Z.of_nat (length (ser_vec m v))) _ []); [|done|cbn; rewrite app_nil_r; done].
    unfold ser_vec, write, write_peer_error, write_u32, write_bytes, write_u64, write_fixed_bytes. rewrite !length_app, !length_be_bytes. cbn [max_msg_size].
    split; [lia|]. change (2 ^ 64) with 18446744073709551616. change (2 ^ 32) with 4294967296 in Hm. lia. }
  rewrite E. done.
Qed.

(** C27: What a peer sends, the other side receives, for each of the 21 types of messages.  A message of the nineteen types that
    are read whole, written with its header and followed by any bytes, is read back and those bytes are left, when it is in range
    and within four times the limit of its type, which twelve of the types always are; it arrives as it was sent, but for an
    address, which arrives without its flow label and scope, and the IPv6 form of an IPv4 address as that address.  The archive of
    the hash set leaves its attachment on the stream.  Headers arrive one by one, in order, and take as many bytes as announced.
    An error never arrives: its limit is zero.  And no header is accepted that announces more than four times the limit of its
    type. *)
Theorem messages_arrive v v' clock now sent rest :
  (forall m, sendable v v' clock m -> within_limit v m ->
     let stream := (write_message now (msg_new ct (body_type m) m v) sent).1 ++ rest in
     read_message ct (msg_body_read clock (body_type m)) v' (body_type m) stream = Ok (body_received m, rest) /\
     exists h stream', read_msg_header ct v' stream = Ok (Known h, stream') /\ msg_type h = body_type m /\
       read_body (msg_body_read clock (body_type m)) h v' stream' = Ok (body_received m, rest)) /\
  (forall m file, sendable v v' clock (MTxHashSetArchive m) ->
     read_message ct txhashset_archive_read v' TTxHashSetArchive
       ((write_message now (add_attachment (msg_new ct TTxHashSetArchive m v) file) sent).1 ++ rest) = Ok (m, file ++ rest)) /\
  (forall m, wf_headers clock m -> fits ct THeaders (Z.of_nat (length (@ser_vec _ (write_headers ct) m v))) ->
     exists h s1 s2 n, read_msg_header ct v ((write_message now (@msg_new _ (write_headers ct) ct THeaders m v) sent).1 ++ rest) = Ok (Known h, s1) /\
       msg_type h = THeaders /\ read_item read_u16 v s1 = Ok (Z.of_nat (length (headers_list m)), 2, s2) /\
       read_items (untrusted_header_read ct clock) v (length (headers_list m)) s2 = Ok (headers_list m, n, rest) /\ 2 + n = msg_len h) /\
  (forall m : PeerErrorMsg, Z.of_nat (length (error_message m)) < 2 ^ 32 ->
     read_msg_header ct v' ((write_message now (msg_new ct TError m v) sent).1 ++ rest) = Err (PSerialization TooLargeReadErr)) /\
  (forall stream h rest', read_msg_header ct v' stream = Ok (Known h, rest') ->
     msg_magic h = magic ct /\ msg_len h <= max_msg_size ct (msg_type h) * 4).
Proof.
  split; [|split; [|split; [|split]]].
  - intros m Hs Hl. pose proof (within_limit_fits v v' clock m Hs Hl) as Hf. pose proof (reads_msg_body (R := BinReader) v v' clock m Hs) as Hr. cbv zeta.
    split; [apply message_arrives; [exact Hr|exact Hf]|].
    unfold write_message, msg_new. cbn [msg_header msg_version P2pMsg.msg_body attachment fst]. unfold ser_vec at 1. rewrite <- app_assoc.
    rewrite read_msg_header_ok by exact Hf. eexists _, _. split; [reflexivity|]. split; [done|]. unfold read_body. cbn [msg_len msg_header_new].
    rewrite stream_exact_ok. cbn [res_bind]. destruct (Hr (mkBinReader (ser_vec m v) v') []) as (r' & E & _); [done|cbn; rewrite app_nil_r; done|]. rewrite E. done.
  - intros m file (H1 & H2 & H3). rewrite <- (message_arrives ct v v' now TTxHashSetArchive m m txhashset_archive_read sent (file ++ rest));
      [|apply reads_txhashset_archive; done|apply archive_fits, H1].
    f_equal. unfold write_message, add_attachment, msg_new. cbn [msg_header msg_version P2pMsg.msg_body attachment fst]. rewrite <- !app_assoc. done.
  - intros m. apply headers_arrive_one_by_one.
  - intros m. apply error_refused.
  - intros stream h rest' H. apply (accepted_header_bounded ct v' stream (Known h) rest' H).
Qed.
End Messages.
