(* ===== verification/Protocol.v ===== *)
(** * The handler of messages

    Models [p2p/src/protocol.rs] and [Message] of [p2p/src/conn.rs]: what a node does with each message of a connected peer,
    through its adapter, and what it answers.

    The handler works on the world and on the bytes still to come from the peer; a message that is cut short or cannot be
    read leaves them as they are, since the connection is closed then.  The time, the random nonce of a compact block and the
    moment another thread stops the connection are arguments; a file is its contents, and writing to it succeeds. *)

From Stdlib Require Import ZArith Lia List Bool.
From stdpp Require Import base numbers list option gmap.
From S2P Require Import Prelude Bytes Consensus Ser Transaction TxBody Committed Verifier PowTypes Block CompactBlock Pow ChainTypes PeerTypes P2pMsg Handshake Adapter Peer.

(** The world and the stream *)
Record Session (W : Type) := mkSession { world : W; incoming : bytes }.
Arguments mkSession {W}.
Arguments world {W}.
Arguments incoming {W}.

Section Protocol.
  Context {DG : Digest} (ct : ChainTypes) {SS : SecpSizes} {CH : Chrono} {SH : SipHasher}.
  Context {L LM W : Type} `{!LruCache L} `{!PeerCell L LM W} (adapter : NetAdapter W).
  (** The clone of [PeerInfo] of the handler, the clock in milliseconds, the nonce, and whether the connection is stopped once
      so much of an archive is there *)
  Variables (me : PeerInfo) (now : Z) (nonce : Z) (stop_at : Z -> bool).
  #[local] Abbreviation M := (vm (Session W) P2pError).

(** Calls of the adapter, with and without an error *)
Definition call {A} (f : vm W ErrorKind A) : M A := fun s =>
  let '(r, w) := f (world s) in (map_err PChain r, mkSession w (incoming s)).
Definition ask {A} (f : W -> A * W) : M A := fun s => let '(a, w) := f (world s) in (Ok a, mkSession w (incoming s)).
Definition tell (f : W -> W) : M unit := fun s => (Ok tt, mkSession (f (world s)) (incoming s)).
(** The clone shares the live part with the peer. *)
Definition peer_info : M PeerInfo := fun s =>
  (Ok (mkPeerInfo (peer_capabilities me) (user_agent me) (peer_version me) (peer_addr me) (direction me) (live_info (info (cell (world s))))), s).

(** [Message::body], [streaming_read] *)
Definition msg_body {A} (rd : BinReader -> res Error (A * BinReader)) (h : MsgHeader) : M A := fun s =>
  match read_body rd h (peer_version me) (incoming s) with
  | Ok (a, rest) => (Ok a, mkSession (world s) rest)
  | Err e => (Err e, s)
  | Panic => (Panic, s)
  end.
Definition streaming_read {A} (rd : StreamingReader -> res Error (A * StreamingReader)) : M (A * Z) := fun s =>
  match read_item rd (peer_version me) (incoming s) with
  | Ok (a, n, rest) => (Ok (a, n), mkSession (world s) rest)
  | Err e => (Err e, s)
  | Panic => (Panic, s)
  end.
(** One [read_exact] of the stream, the loop of [Message::copy_attachment] and the function itself; the fuel counts chunks *)
Definition read_chunk (n : Z) : M bytes := fun s =>
  match stream_exact n (incoming s) with
  | Ok (b, rest) => (Ok b, mkSession (world s) rest)
  | Err e => (Err e, s)
  | Panic => (Panic, s)
  end.
Fixpoint copy_loop (fuel : nat) (len written : Z) : M bytes :=
  if written <? len then
    match fuel with
    | O => vlift Panic
    | S fuel =>
      let read_len := Z.min 8000 (len - written) in
      let@ buf := read_chunk read_len in
      let@ more := copy_loop fuel len (written + read_len) in
      vret (buf ++ more)
    end
  else vret [].
Definition copy_attachment (len : Z) : M bytes := copy_loop (Z.to_nat (len / 8000 + 1)) len 0.

(** [check_protocol_version] *)
Definition check_protocol_version : M unit :=
  let@ height := call (total_height adapter) in
  if (support_token_height ct <=? height) && (peer_version me <? 2) then vlift (Err LowProtocolVersion) else vret tt.

(** The answer to a message, at the version of the peer *)
Definition reply {A} (wr : Writeable A) (t : MsgType) (m : A) : M (option Msg) := vret (Some (@msg_new _ wr ct t m (peer_version me))).

(** A chunk of headers, and the bytes it took *)
Fixpoint read_headers (n : nat) : M (list BlockHeader * Z) :=
  match n with
  | O => vret ([], 0)
  | S n =>
    let@ hb := streaming_read (untrusted_header_read ct (now / 1000)) in
    let@ rest := read_headers n in
    vret (hb.1 :: rest.1, (hb.2 + rest.2)%u64)
  end.
(** The chunks of at most 32 headers; the fuel is the number of headers *)
Fixpoint headers_loop (fuel count : nat) (total : Z) : M Z :=
  match count with
  | O => vret total
  | _ =>
    match fuel with
    | O => vlift Panic
    | S fuel =>
      let n := Nat.min 32 count in
      let@ hs := read_headers n in
      let@ i := peer_info in
      let@ _ := call (headers_received adapter hs.1 i) in
      headers_loop fuel (count - n) (total + hs.2)%u64
    end
  end.
Definition consume_headers (h : MsgHeader) : M (option Msg) :=
  let@ c := streaming_read read_u16 in
  let@ total_bytes_read := headers_loop (Z.to_nat c.1) (Z.to_nat c.1) c.2 in
  if negb (total_bytes_read =? msg_len h) then vlift (Err MsgLen) else vret None.

(** [save_txhashset_to_file]; the fuel counts the requests of at most 48000 bytes *)
Fixpoint download_loop (fuel : nat) (start total downloaded : Z) : M bytes :=
  let request_size := Z.min 48000 (total - downloaded) in
  if 0 <? request_size then
    match fuel with
    | O => vlift Panic
    | S fuel =>
      let@ part := copy_attachment request_size in
      let downloaded := downloaded + request_size in
      let@ _ := ask (txhashset_download_update adapter start downloaded total) in
      let@ _ := tell (on_cell (inc_quiet_received now request_size)) in
      if stop_at downloaded then vlift (Err ConnectionClose)
      else
        let@ more := download_loop fuel start total downloaded in
        vret (part ++ more)
    end
  else vret [].
Definition save_txhashset (total : Z) : M bytes := download_loop (Z.to_nat (total / 48000 + 1)) now total 0.

Definition consume_archive (h : MsgHeader) : M (option Msg) :=
  let@ sm_arch := msg_body txhashset_archive_read h in
  let@ ready := ask (txhashset_receive_ready adapter) in
  if negb ready then vlift (Err BadMessage)
  else
    let@ requested := (fun s => (Ok (state_sync_requested (cell (world s))), s)) in
    if negb requested then vlift (Err BadMessage)
    else
      let@ _ := tell (on_cell (set_sync_requested false)) in
      let@ _ := ask (txhashset_download_update adapter now 0 (archive_bytes sm_arch)) in
      let@ tmp_zip := save_txhashset (archive_bytes sm_arch) in
      let@ i := peer_info in
      let@ _ := call (txhashset_write adapter (archive_hash sm_arch) tmp_zip i) in
      vret None.

Definition consume_txhashset_request (h : MsgHeader) : M (option Msg) :=
  let@ _ := msg_body txhashset_request_read h in
  let@ txhashset_header := call (txhashset_archive_header adapter) in
  let txhashset_header_hash := header_hash ct txhashset_header in
  let@ txhashset := ask (txhashset_read adapter txhashset_header_hash) in
  match txhashset with
  | Some t =>
    let resp := msg_new ct TTxHashSetArchive
      (mkTxHashSetArchive txhashset_header_hash (bh_height txhashset_header) (Z.of_nat (length (reader t)))) (peer_version me) in
    vret (Some (add_attachment resp (reader t)))
  | None => vret None
  end.

(** The branches of [Protocol::consume] *)
Definition dispatch (h : MsgHeader) : M (option Msg) :=
  let@ i := peer_info in
  match msg_type h with
  | TPing =>
    let@ ping := msg_body ping_read h in
    let@ _ := tell (peer_difficulty adapter (peer_addr me) (ping_difficulty ping) (ping_height ping)) in
    let@ d := call (total_difficulty adapter) in
    let@ height := call (total_height adapter) in
    reply _ TPong (mkPong d height)
  | TPong =>
    let@ pong := msg_body pong_read h in
    let@ _ := tell (peer_difficulty adapter (peer_addr me) (pong_difficulty pong) (pong_height pong)) in
    vret None
  | TBanReason => let@ _ := msg_body ban_reason_read h in vret None
  | TTransactionKernel =>
    let@ kh := msg_body hash_read h in
    let@ _ := call (tx_kernel_received adapter kh i) in
    vret None
  | TGetTransaction =>
    let@ kh := msg_body hash_read h in
    let@ tx := ask (get_transaction adapter kh) in
    match tx with Some tx => reply _ TTransaction tx | None => vret None end
  | TTransaction =>
    let@ tx := msg_body (tx_read ct) h in
    let@ _ := call (transaction_received adapter tx false) in
    vret None
  | TStemTransaction =>
    let@ tx := msg_body (tx_read ct) h in
    let@ _ := call (transaction_received adapter tx true) in
    vret None
  | TGetBlock =>
    let@ bh := msg_body hash_read h in
    let@ bo := ask (get_block adapter bh) in
    match bo with Some b => reply (write_block ct) TBlock b | None => vret None end
  | TBlock =>
    let@ b := msg_body (untrusted_block_read ct (now / 1000)) h in
    let@ _ := call (block_received adapter b i OPT_NONE) in
    vret None
  | TGetCompactBlock =>
    let@ bh := msg_body hash_read h in
    let@ bo := ask (get_block adapter bh) in
    match bo with
    | Some b =>
      let@ cb := vlift (map_err (fun _ => PInternal) (compact_of_block ct nonce b)) in
      reply (write_compact_block ct) TCompactBlock cb
    | None => vret None
    end
  | TCompactBlock =>
    let@ b := msg_body (untrusted_compact_read ct (now / 1000)) h in
    let@ _ := call (compact_block_received adapter b i) in
    vret None
  | TGetHeaders =>
    let@ loc := msg_body locator_read h in
    let@ headers := call (locate_headers adapter (locator_hashes loc)) in
    reply (write_headers ct) THeaders (mkHeaders headers)
  | THeader =>
    let@ header := msg_body (untrusted_header_read ct (now / 1000)) h in
    let@ _ := call (header_received adapter header i) in
    vret None
  | THeaders => consume_headers h
  | TGetPeerAddrs =>
    let@ get_peers := msg_body get_peer_addrs_read h in
    let@ peers := ask (find_peer_addrs adapter (get_capabilities get_peers)) in
    reply _ TPeerAddrs (mkPeerAddrs peers)
  | TPeerAddrs =>
    let@ peer_addrs := msg_body peer_addrs_read h in
    let@ _ := tell (peer_addrs_received adapter (addrs_peers peer_addrs)) in
    vret None
  | TTxHashSetRequest => consume_txhashset_request h
  | TTxHashSetArchive => consume_archive h
  | TError | THand | TShake => vret None
  end.

(** [Protocol::consume] *)
Definition consume (h : MsgHeader) : M (option Msg) :=
  let@ banned := ask (adapter_is_banned adapter (peer_addr me)) in
  if banned then vret None
  else
    let@ _ := check_protocol_version in
    dispatch h.
End Protocol.
