(* ===== verification/ProtocolTheorems.v ===== *)
(** * What the handler of messages does

    Over [Protocol]: the handler takes exactly one message off the stream, headers reach the adapter in order and in chunks,
    and an archive of the hash set is stored only when it was asked for, and whole. *)

From Stdlib Require Import ZArith Lia List Bool.
From stdpp Require Import base numbers list option gmap.
From S2P Require Import Prelude Bytes Consensus Ser Transaction TxBody Committed Verifier PowTypes Block CompactBlock Pow ChainTypes PeerTypes P2pMsg Handshake Adapter Peer StreamCounts Messages Protocol.

(** ** Computations that read a stream *)

Section Streams.
  Context {W : Type}.
  #[local] Abbreviation M := (vm (Session W) P2pError).

(** A successful run leaves the stream alone, or takes bytes off its front. *)
Definition keeps {A} (c : M A) : Prop := forall s a s', c s = (Ok a, s') -> incoming s' = incoming s.
Definition takes {A} (c : M A) (P : A -> bytes -> Prop) : Prop := forall s a s', c s = (Ok a, s') ->
  exists b, incoming s = b ++ incoming s' /\ P a b.

Lemma keeps_vret {A} (a : A) : keeps (vret a).
Proof. intros s x s' [= _ <-]. done. Qed.
Lemma keeps_vlift {A} (c : res P2pError A) : keeps (vlift c).
Proof. intros s x s' [= _ <-]. done. Qed.
Lemma keeps_call {A} (f : vm W ErrorKind A) : keeps (call f).
Proof. intros s x s'. unfold call. destruct (f (world s)) as [r w]. intros [= _ <-]. done. Qed.
Lemma keeps_ask {A} (f : W -> A * W) : keeps (ask f).
Proof. intros s x s'. unfold ask. destruct (f (world s)) as [r w]. intros [= _ <-]. done. Qed.
Lemma keeps_tell (f : W -> W) : keeps (tell f).
Proof. intros s x s' [= _ <-]. done. Qed.
Lemma keeps_bind {A B} (c : M A) (k : A -> M B) : keeps c -> (forall a, keeps (k a)) -> keeps (vbind c k).
Proof. intros Hc Hk s b s' H. apply vbind_ok in H as (a & s1 & H1 & H2). rewrite (Hk a s1 b s' H2). apply (Hc s a s1 H1). Qed.

Lemma takes_keeps {A} (c : M A) : keeps c -> takes c (fun _ b => b = []).
Proof. intros H s a s' E. exists []. rewrite (H s a s' E). done. Qed.
Lemma takes_then {A B} (c : M A) (k : A -> M B) P : takes c P -> (forall a, keeps (k a)) -> takes (vbind c k) (fun _ b => exists a, P a b).
Proof.
  intros Hc Hk s b s' H. apply vbind_ok in H as (a & s1 & H1 & H2). destruct (Hc s a s1 H1) as (x & E & Hx).
  exists x. rewrite (Hk a s1 b s' H2). split; [exact E|]. exists a. exact Hx.
Qed.
Lemma keeps_then {A B} (c : M A) (k : A -> M B) P : keeps c -> (forall a, takes (k a) P) -> takes (vbind c k) P.
Proof.
  intros Hc Hk s b s' H. apply vbind_ok in H as (a & s1 & H1 & H2). rewrite <- (Hc s a s1 H1). apply (Hk a s1 b s' H2).
Qed.
Lemma takes_weaken {A} (c : M A) (P Q : A -> bytes -> Prop) : takes c P -> (forall a b, P a b -> Q a b) -> takes c Q.
Proof. intros H HPQ s a s' E. destruct (H s a s' E) as (b & Eb & Hb). exists b. split; [exact Eb|]. apply HPQ, Hb. Qed.
Lemma takes_bind {A B} (c : M A) (k : A -> M B) P (Q : A -> B -> bytes -> Prop) : takes c P -> (forall a, takes (k a) (Q a)) ->
  takes (vbind c k) (fun y b => exists a b1 b2, b = b1 ++ b2 /\ P a b1 /\ Q a y b2).
Proof.
  intros Hc Hk s y s' H. apply vbind_ok in H as (a & s1 & H1 & H2). destruct (Hc s a s1 H1) as (b1 & E1 & Hb1).
  destruct (Hk a s1 y s' H2) as (b2 & E2 & Hb2). exists (b1 ++ b2). split; [rewrite <- app_assoc, <- E2; exact E1|]. exists a, b1, b2. done.
Qed.
End Streams.

Create HintDb streams.
#[export] Hint Resolve keeps_vret keeps_vlift keeps_call keeps_ask keeps_tell : streams.
Ltac keeping := repeat first
  [ solve [auto 2 with streams]
  | apply keeps_bind; [|intros ?]
  | match goal with |- keeps (match ?x with _ => _ end) => destruct x end ].

Section Framing.
  Context {DG : Digest} (ct : ChainTypes) {SS : SecpSizes} {CH : Chrono} {SH : SipHasher}.
  Context {L LM W : Type} `{!LruCache L} `{!PeerCell L LM W} (adapter : NetAdapter W).
  Variables (me : PeerInfo) (now : Z) (nonce : Z) (stop_at : Z -> bool).
  #[local] Abbreviation M := (vm (Session W) P2pError).

Lemma keeps_peer_info : keeps (peer_info me (W := W)).
Proof. intros s x s' [= _ <-]. done. Qed.
Hint Resolve keeps_peer_info : streams.

(** The bytes of a body are those the header announced, and the reader accepts them. *)
Lemma takes_body {A} (rd : BinReader -> res Error (A * BinReader)) h : 0 <= msg_len h ->
  takes (msg_body (W := W) me rd h) (fun a b => Z.of_nat (length b) = msg_len h /\ exists r, rd (mkBinReader b (peer_version me)) = Ok (a, r)).
Proof.
  intros Hl s a s'. unfold msg_body, read_body. destruct (stream_exact (msg_len h) (incoming s)) as [[b rest]|e|] eqn:Eb; [|discriminate..]. cbn [res_bind].
  destruct (rd (mkBinReader b (peer_version me))) as [[x r]|e|] eqn:Er; [|discriminate..]. cbn [map_err res_bind]. intros [= <- <-].
  apply map_err_ok_inv, read_exact_inv in Eb as [-> Hb]. exists b. split; [done|]. split; [lia|]. exists r. done.
Qed.
Lemma takes_item {A} (rd : StreamingReader -> res Error (A * StreamingReader)) : tallies rd ->
  takes (streaming_read (W := W) me rd) (fun x b => x.2 = wrap64 (Z.of_nat (length b))).
Proof.
  intros Hc s x s'. unfold streaming_read, read_item. destruct (rd (mkStreaming 0 (peer_version me) (incoming s))) as [[a r]|e|] eqn:Er; [|discriminate..].
  cbn [map_err res_bind]. intros [= <- <-]. destruct (Hc (mkStreaming 0 (peer_version me) (incoming s)) a r ltac:(split; cbn; lia) Er) as (b & E & _ & T).
  cbn [stream total_bytes_read] in *. exists b. split; [exact E|]. exact T.
Qed.
Lemma takes_chunk n : 0 <= n -> takes (read_chunk (W := W) n) (fun a b => a = b /\ Z.of_nat (length b) = n).
Proof.
  intros Hn s a s'. unfold read_chunk. destruct (stream_exact n (incoming s)) as [[b rest]|e|] eqn:Eb; [|discriminate..]. intros [= <- <-].
  apply map_err_ok_inv, read_exact_inv in Eb as [-> Hb]. exists b. split; [done|]. split; [done|lia].
Qed.

(** The bytes that a list of headers took *)
Lemma read_headers_takes n : forall (s s' : Session W) (x : list BlockHeader * Z), read_headers ct me now n s = (Ok x, s') ->
  world s' = world s /\ length x.1 = n /\ exists b, incoming s = b ++ incoming s' /\ x.2 = wrap64 (Z.of_nat (length b)).
Proof.
  induction n as [|n IH]; cbn [read_headers]; intros s s' x H.
  - injection H as <- <-. split; [done|]. split; [done|]. exists []. done.
  - apply vbind_ok in H as (hb & s1 & H1 & H). apply vbind_ok in H as (rest & s2 & H2 & H). injection H as <- <-.
    destruct (takes_item _ (tallies_untrusted_header ct (now / 1000)) _ _ _ H1) as (b1 & E1 & T1).
    assert (Ew : world s1 = world s) by (unfold streaming_read in H1; destruct (read_item _ _ _) as [[[? ?] ?]|?|]; [injection H1 as _ <-; done|discriminate..]).
    destruct (IH s1 s2 rest H2) as (Ew2 & Hl & b2 & E2 & T2). split; [congruence|]. split; [cbn; lia|].
    exists (b1 ++ b2). split; [rewrite <- app_assoc, <- E2; exact E1|]. cbn [snd]. rewrite T1, T2, length_app, Nat2Z.inj_add. unfold add64, wrap64.
    rewrite <- Zplus_mod. done.
Qed.

Lemma headers_loop_takes fuel : forall count total (s s' : Session W) t, is_u64 total ->
  headers_loop ct adapter me now fuel count total s = (Ok t, s') ->
  exists b, incoming s = b ++ incoming s' /\ t = (total + Z.of_nat (length b))%u64.
Proof.
  induction fuel as [|fuel IH]; intros count total s s' t Ht H; destruct count as [|count]; cbn [headers_loop] in H.
  1, 3: injection H as <- <-; exists []; split; [done|]; unfold add64, wrap64; rewrite Z.add_0_r, Z.mod_small; done.
  - discriminate.
  - apply vbind_ok in H as (hs & s1 & H1 & H). apply vbind_ok in H as (i & s2 & H2 & H). apply vbind_ok in H as (ok & s3 & H3 & H).
    destruct (read_headers_takes _ _ _ _ H1) as (_ & _ & b1 & E1 & T1). apply keeps_peer_info in H2. apply keeps_call in H3.
    apply IH in H as (b2 & E2 & T2); [|apply wrap_is_u64]. exists (b1 ++ b2).
    split; [rewrite <- app_assoc, <- E2, H3, H2; exact E1|]. rewrite T2, T1, length_app. unfold add64 at 2. unfold add64, wrap64.
    rewrite Zplus_mod_idemp_r, Zplus_mod_idemp_l. f_equal. lia.
Qed.
Lemma consume_headers_takes h (s s' : Session W) r : 0 <= msg_len h < U64 -> Z.of_nat (length (incoming s)) < U64 ->
  consume_headers ct adapter me now h s = (Ok r, s') -> exists b, incoming s = b ++ incoming s' /\ Z.of_nat (length b) = msg_len h.
Proof.
  intros Hl Hs H. unfold consume_headers in H. apply vbind_ok in H as ([c n] & s1 & H1 & H). apply vbind_ok in H as (t & s2 & H2 & H).
  destruct (takes_item _ tallies_u16 _ _ _ H1) as (b1 & E1 & T1). cbn [snd] in T1. subst n. cbn [fst snd] in H2.
  apply headers_loop_takes in H2 as (b2 & E2 & T2); [|apply wrap_is_u64].
  destruct (Z.eqb_spec t (msg_len h)) as [E|E]; cbn [negb] in H; [|discriminate]. injection H as _ <-.
  exists (b1 ++ b2). split; [rewrite <- app_assoc, <- E2; exact E1|]. rewrite <- E, T2, length_app, Nat2Z.inj_add.
  unfold add64, wrap64. rewrite Zplus_mod_idemp_l, Z.mod_small; [done|]. rewrite E1, E2, !length_app in Hs. lia.
Qed.

(** ** Archives *)

Lemma copy_loop_takes fuel : forall len written (s s' : Session W) a, 0 <= written <= len -> copy_loop fuel len written s = (Ok a, s') ->
  incoming s = a ++ incoming s' /\ Z.of_nat (length a) = len - written /\ world s' = world s.
Proof.
  induction fuel as [|fuel IH]; intros len written s s' a Hw H; cbn [copy_loop] in H; destruct (Z.ltb_spec written len) as [Hlt|Hge]; try discriminate.
  1, 3: injection H as <- <-; split; [done|]; split; [cbn; lia|done].
  apply vbind_ok in H as (buf & s1 & H1 & H). apply vbind_ok in H as (more & s2 & H2 & H). injection H as <- <-.
  assert (Ew : world s1 = world s) by (unfold read_chunk in H1; destruct (stream_exact _ _) as [[? ?]|?|]; [injection H1 as _ <-; done|discriminate..]).
  apply takes_chunk in H1 as (b & E1 & -> & Hb); [|lia]. apply IH in H2 as (E2 & Hm & Ew2); [|lia].
  split; [rewrite <- app_assoc, <- E2; exact E1|]. split; [rewrite length_app; lia|congruence].
Qed.
Lemma copy_attachment_takes len (s s' : Session W) a : 0 <= len -> copy_attachment len s = (Ok a, s') ->
  incoming s = a ++ incoming s' /\ Z.of_nat (length a) = len /\ world s' = world s.
Proof. intros Hl H. apply copy_loop_takes in H; [|lia]. rewrite Z.sub_0_r in H. exact H. Qed.

Lemma download_loop_takes fuel : forall start total downloaded (s s' : Session W) a, 0 <= downloaded <= total ->
  download_loop adapter now stop_at fuel start total downloaded s = (Ok a, s') ->
  incoming s = a ++ incoming s' /\ Z.of_nat (length a) = total - downloaded.
Proof.
  induction fuel as [|fuel IH]; intros start total downloaded s s' a Hd H; cbn [download_loop] in H;
    destruct (Z.ltb_spec 0 (Z.min 48000 (total - downloaded))) as [Hlt|Hge]; try discriminate.
  1, 3: injection H as <- <-; split; [done|]; cbn; lia.
  apply vbind_ok in H as (part & s1 & H1 & H). apply vbind_ok in H as (u & s2 & H2 & H). apply vbind_ok in H as (v & s3 & H3 & H).
  destruct (stop_at _); [discriminate|]. apply vbind_ok in H as (more & s4 & H4 & H). injection H as <- <-.
  apply copy_attachment_takes in H1 as (E1 & Hp & _); [|lia]. apply keeps_ask in H2. apply keeps_tell in H3. apply IH in H4 as (E4 & Hm); [|lia].
  split; [rewrite <- app_assoc, <- E4, H3, H2; exact E1|]. rewrite length_app. lia.
Qed.

(** The chunks of a loop are as many as its fuel: a copy of [len] bytes ends with the bytes or with the end of the stream. *)
Lemma chunks_left len written size fuel : 0 < size -> written < len -> (len - written) / size < Z.of_nat (S fuel) ->
  written + Z.min size (len - written) < len -> (len - (written + Z.min size (len - written))) / size < Z.of_nat fuel.
Proof.
  intros Hs Hw Hf Hm. destruct (Z.min_spec size (len - written)) as [[_ E]|[_ E]]; rewrite E in *; [|lia].
  replace (len - (written + size)) with (len - written + (-1) * size) by lia. rewrite Z.div_add by lia. lia.
Qed.
Lemma copy_loop_total fuel : forall len written (s : Session W), (written < len -> (len - written) / 8000 < Z.of_nat fuel) ->
  (copy_loop fuel len written s).1 <> Panic.
Proof.
  induction fuel as [|fuel IH]; intros len written s Hf; cbn [copy_loop]; destruct (Z.ltb_spec written len) as [Hlt|Hge]; try done.
  - specialize (Hf Hlt). pose proof (Z.div_pos (len - written) 8000 ltac:(lia) ltac:(lia)). lia.
  - unfold vbind, read_chunk, stream_exact, read_exact. destruct (Nat.leb _ _); cbn [map_err]; [|done].
    match goal with |- context [copy_loop fuel len ?w ?s] => pose proof (IH len w s) as Hn; destruct (copy_loop fuel len w s) as [[]] eqn:E end; try done.
    exfalso. apply Hn; [|done]. intros Hm. apply chunks_left; [lia|exact Hlt|exact (Hf Hlt)|exact Hm].
Qed.
Lemma download_loop_total fuel : forall start total downloaded (s : Session W),
  (downloaded < total -> (total - downloaded) / 48000 < Z.of_nat fuel) ->
  (download_loop adapter now stop_at fuel start total downloaded s).1 <> Panic.
Proof.
  induction fuel as [|fuel IH]; intros start total downloaded s Hf; cbn [download_loop];
    destruct (Z.ltb_spec 0 (Z.min 48000 (total - downloaded))) as [Hlt|Hge]; try done.
  - specialize (Hf ltac:(lia)). pose proof (Z.div_pos (total - downloaded) 48000 ltac:(lia) ltac:(lia)). lia.
  - unfold vbind at 1. pose proof (copy_loop_total (Z.to_nat (Z.min 48000 (total - downloaded) / 8000 + 1)) (Z.min 48000 (total - downloaded)) 0 s) as Hc.
    unfold copy_attachment. destruct (copy_loop _ _ 0 s) as [[part|e|] s1]; [|done|exfalso; apply Hc; [|done]].
    2:{ intros _. rewrite Z.sub_0_r. rewrite Z2Nat.id; [lia|]. pose proof (Z.div_pos (Z.min 48000 (total - downloaded)) 8000 ltac:(lia) ltac:(lia)). lia. }
    unfold vbind at 1, ask. destruct (txhashset_download_update adapter _ _ _ (world s1)) as [u w2]. cbn [world incoming].
    unfold vbind at 1, tell. cbn [world incoming]. destruct (stop_at _); [done|]. unfold vbind.
    match goal with |- context [download_loop _ _ _ fuel start total ?w ?s] =>
      pose proof (IH start total w s) as Hn; destruct (download_loop adapter now stop_at fuel start total w s) as [[]] eqn:E end; try done.
    exfalso. apply Hn; [|done]. intros Hm. apply chunks_left; [lia|lia|apply Hf; lia|exact Hm].
Qed.

Lemma archive_bytes_pos b a rd : are_bytes b -> txhashset_archive_read (mkBinReader b (peer_version me)) = Ok (a, rd) -> 0 <= archive_bytes a.
Proof.
  intros Hb H. unfold txhashset_archive_read in H. apply read_bind_inv in H as (h & r1 & H1 & H). apply read_bind_inv in H as (n & r2 & H2 & H).
  apply read_bind_inv in H as (m & r3 & H3 & H). injection H as <- <-. cbn [archive_bytes].
  apply read_fixed_inv in H1 as (E1 & _ & _). apply read_bind_inv in H2 as (b2 & r4 & H2 & [= _ <-]). apply read_int_inv in H2 as (E2 & _ & _).
  apply read_bind_inv in H3 as (b3 & r5 & H3 & [= <- _]). apply read_int_inv in H3 as (E3 & _ & _). cbn [remaining bin_reader_laws source] in *.
  rewrite E1, E2, E3 in Hb. rewrite !are_bytes_app in Hb. destruct Hb as (_ & _ & Hb & _). apply be_val_bounds, Hb.
Qed.
(** An archive that is stored was asked for, and is the part of the stream that its message announced. *)
Lemma consume_archive_takes h (s s' : Session W) r : 0 <= msg_len h -> are_bytes (incoming s) ->
  consume_archive adapter me now stop_at h s = (Ok r, s') ->
  exists body arch file w1 w2, incoming s = body ++ file ++ incoming s' /\ Z.of_nat (length body) = msg_len h /\
    Z.of_nat (length file) = archive_bytes arch /\
    (exists rd, txhashset_archive_read (mkBinReader body (peer_version me)) = Ok (arch, rd)) /\
    txhashset_receive_ready adapter (world s) = (true, w1) /\ state_sync_requested (cell w1) = true /\
    (exists i ok, txhashset_write adapter (archive_hash arch) file i w2 = (Ok ok, world s')).
Proof.
  intros Hl Hpos H. unfold consume_archive in H. apply vbind_ok in H as (arch & s1 & H1 & H). apply vbind_ok in H as (ready & s2 & H2 & H).
  assert (Ew : world s1 = world s).
  { unfold msg_body in H1. destruct (read_body _ _ _ _) as [[? ?]|?|]; [injection H1 as _ <-; done|discriminate..]. }
  apply (takes_body _ _ Hl) in H1 as (body & E1 & Hb & rd & Hrd).
  destruct ready; cbn [negb] in H; [|discriminate]. apply vbind_ok in H as (req & s3 & H3 & H). injection H3 as <- <-.
  destruct (state_sync_requested (cell (world s2))) eqn:Er; cbn [negb] in H; [|discriminate].
  apply vbind_ok in H as (u & s4 & H4 & H). apply vbind_ok in H as (v & s5 & H5 & H). apply vbind_ok in H as (file & s6 & H6 & H).
  apply vbind_ok in H as (i & s7 & H7 & H). apply vbind_ok in H as (ok & s8 & H8 & H). injection H as <- <-.
  assert (E2 := keeps_ask _ _ _ _ H2). apply keeps_tell in H4. apply keeps_ask in H5. apply keeps_peer_info in H7. assert (E8 := keeps_call _ _ _ _ H8).
  rewrite E1 in Hpos. apply are_bytes_app in Hpos as [Hpos _]. assert (Hn := archive_bytes_pos _ _ _ Hpos Hrd). apply download_loop_takes in H6 as (E6 & Hf); [|lia]. rewrite Z.sub_0_r in Hf.
  unfold ask in H2. destruct (txhashset_receive_ready adapter (world s1)) as [b w1] eqn:Eready. injection H2 as -> <-. cbn [world incoming] in *.
  exists body, arch, file, w1, (world s7). split_and!; [rewrite E8, H7, <- E6, H5, H4; exact E1|done|done|exists rd; exact Hrd|congruence|exact Er|].
  unfold call in H8. destruct (txhashset_write adapter _ file i (world s7)) as [r8 w8] eqn:E9. exists i, ok.
  destruct r8; cbn in H8; [|discriminate..]. injection H8 as -> <-. done.
Qed.

(** ** Whole messages *)

(** Messages whose body the handler leaves on the stream *)
Definition unexpected (t : MsgType) : bool := match t with TError | THand | TShake => true | _ => false end.
(** What follows the body of a message: the file of an archive *)
Definition attached (h : MsgHeader) (body extra : bytes) : Prop :=
  match msg_type h with
  | TTxHashSetArchive => exists a rd, txhashset_archive_read (mkBinReader body (peer_version me)) = Ok (a, rd) /\ Z.of_nat (length extra) = archive_bytes a
  | _ => extra = []
  end.

Lemma keeps_check : keeps (check_protocol_version ct adapter me).
Proof. unfold check_protocol_version. keeping. Qed.
Lemma body_only {A} (rd : BinReader -> res Error (A * BinReader)) (k : A -> M (option Msg)) h s r s' : 0 <= msg_len h -> (forall a, keeps (k a)) ->
  vbind (msg_body me rd h) k s = (Ok r, s') ->
  exists body extra, incoming s = body ++ extra ++ incoming s' /\ Z.of_nat (length body) = msg_len h /\ extra = [].
Proof.
  intros Hl Hk H. apply (takes_then _ _ _ (takes_body rd h Hl) Hk) in H as (b & E & a & Hb & _). exists b, []. done.
Qed.

Lemma consume_framed h (s s' : Session W) r w : 0 <= msg_len h < U64 -> Z.of_nat (length (incoming s)) < U64 -> are_bytes (incoming s) ->
  adapter_is_banned adapter (peer_addr me) (world s) = (false, w) -> unexpected (msg_type h) = false ->
  consume ct adapter me now nonce stop_at h s = (Ok r, s') ->
  exists body extra, incoming s = body ++ extra ++ incoming s' /\ Z.of_nat (length body) = msg_len h /\ attached h body extra.
Proof.
  intros Hl Hs Hb Hban Hexp H. unfold consume in H. apply vbind_ok in H as (banned & s1 & H1 & H).
  unfold ask in H1. rewrite Hban in H1. injection H1 as <- <-. cbn [negb] in H. apply vbind_ok in H as (u & s2 & H2 & H).
  apply keeps_check in H2. cbn [incoming] in H2. unfold dispatch in H.
  apply vbind_ok in H as (i & s3 & H3 & H). apply keeps_peer_info in H3. assert (K3 : incoming s3 = incoming s) by congruence. rewrite <- K3. rewrite <- K3 in Hs, Hb.
  unfold attached. destruct (msg_type h); try discriminate;
    try (apply (body_only _ _ _ _ _ _ (proj1 Hl)) in H; [exact H|intros; unfold reply; keeping]).
  - apply consume_headers_takes in H as (b & E & Hn); [|done|done]. exists b, []. done.
  - apply consume_archive_takes in H as (body & arch & file & w1 & w2 & E & H5 & H6 & (rd & H7) & _); [|lia|done]. exists body, file.
    split; [exact E|]. split; [exact H5|]. exists arch, rd. done.
Qed.

(** A banned peer is not heard: nothing is read and nothing is called, and the body stays on the stream. *)
Lemma consume_banned h (s : Session W) w : adapter_is_banned adapter (peer_addr me) (world s) = (true, w) ->
  consume ct adapter me now nonce stop_at h s = (Ok None, mkSession w (incoming s)).
Proof. intros Hban. unfold consume, vbind, ask. rewrite Hban. done. Qed.

(** An archive that was not asked for is refused before it is read, and nothing but the state of the sync was asked for. *)
Lemma unasked_archive_refused h (s : Session W) body rest arch rd w1 ready :
  incoming s = body ++ rest -> Z.of_nat (length body) = msg_len h ->
  txhashset_archive_read (mkBinReader body (peer_version me)) = Ok (arch, rd) ->
  txhashset_receive_ready adapter (world s) = (ready, w1) -> (ready = false \/ state_sync_requested (cell w1) = false) ->
  consume_archive adapter me now stop_at h s = (Err BadMessage, mkSession w1 rest).
Proof.
  intros Es Hl Hrd Hready Hno. unfold consume_archive. unfold vbind at 1. unfold msg_body, read_body. rewrite Es, <- Hl, stream_exact_ok. cbn [res_bind].
  rewrite Hrd. cbn [map_err res_bind]. unfold vbind at 1, ask. cbn [world incoming]. rewrite Hready. destruct ready; cbn [negb]; [|done].
  unfold vbind at 1. cbn [world]. destruct Hno as [Hno|Hno]; [discriminate|]. rewrite Hno. done.
Qed.
End Framing.

(** ** Headers *)

Section HeadersArrive.
  Context {DG : Digest} (ct : ChainTypes) {SS : SecpSizes} {CH : Chrono} {SH : SipHasher}.
  Context {L LM W : Type} `{!LruCache L} `{!PeerCell L LM W} (adapter : NetAdapter W).
  Variables (me : PeerInfo) (now : Z).

Lemma item_arrives {A} (rd : StreamingReader -> res Error (A * StreamingReader)) bs a rest (w : W) :
  reads (peer_version me) rd bs a -> tallies rd -> Z.of_nat (length bs) < U64 ->
  streaming_read me rd (mkSession w (bs ++ rest)) = (Ok (a, Z.of_nat (length bs)), mkSession w rest).
Proof.
  intros Hr Hc Hl. unfold streaming_read. cbn [incoming world]. rewrite (read_item_ok rd _ bs a rest Hr Hc Hl). done.
Qed.

Definition header_bytes (h : BlockHeader) : bytes := @write _ (write_header ct) (bin_writer (peer_version me)) h.
Definition headers_bytes (l : list BlockHeader) : bytes := concat (map header_bytes l).
Definition good_headers (l : list BlockHeader) : Prop := Forall (fun h => wf_header ct h /\ header_acceptable ct (now / 1000) h = true) l.

Lemma read_headers_arrive l rest (w : W) : good_headers l -> Z.of_nat (length (headers_bytes l)) < U64 ->
  read_headers ct me now (length l) (mkSession w (headers_bytes l ++ rest)) =
  (Ok (l, Z.of_nat (length (headers_bytes l))), mkSession w rest).
Proof.
  induction 1 as [|h l [Hw Ha] _ IH]; intros Hl; [done|]. cbn [length read_headers]. unfold headers_bytes in *. cbn [map concat] in *.
  rewrite length_app, Nat2Z.inj_add in *. rewrite <- app_assoc. unfold vbind at 1.
  rewrite (item_arrives _ (header_bytes h) h) by (first [apply reads_untrusted_header; done|apply tallies_untrusted_header|lia]).
  unfold vbind. rewrite IH by lia. cbn [fst snd]. unfold vret. do 3 f_equal. rewrite add64_small; [done|lia].
Qed.

(** What the adapter is given: chunks of at most 32 headers until the list is over or one fails, and the headers not read then *)
Definition seen_info (w : W) : PeerInfo :=
  mkPeerInfo (peer_capabilities me) (user_agent me) (peer_version me) (peer_addr me) (direction me) (live_info (info (cell w))).
Fixpoint deliver (fuel : nat) (l : list BlockHeader) (w : W) : res ErrorKind unit * W * list BlockHeader :=
  match l, fuel with
  | [], _ | _, O => (Ok tt, w, [])
  | _, S fuel =>
    match headers_received adapter (take 32 l) (seen_info w) w with
    | (Ok _, w) => deliver fuel (drop 32 l) w
    | (Err e, w) => (Err e, w, drop 32 l)
    | (Panic, w) => (Panic, w, drop 32 l)
    end
  end.

Lemma headers_bytes_app l1 l2 : headers_bytes (l1 ++ l2) = headers_bytes l1 ++ headers_bytes l2.
Proof. unfold headers_bytes. rewrite map_app, concat_app. done. Qed.

Lemma headers_loop_delivers fuel : forall l total rest (w : W), good_headers l -> (length l <= fuel)%nat -> 0 <= total ->
  total + Z.of_nat (length (headers_bytes l)) < U64 ->
  headers_loop ct adapter me now fuel (length l) total (mkSession w (headers_bytes l ++ rest)) =
  let '(r, w', unread) := deliver fuel l w in
  (match r with Ok _ => Ok (total + Z.of_nat (length (headers_bytes l))) | Err e => Err (PChain e) | Panic => Panic end,
   mkSession w' (headers_bytes unread ++ rest)).
Proof.
  induction fuel as [|fuel IH]; intros l total rest w Hg Hf Ht Hl.
  - destruct l; [|cbn in Hf; lia]. cbn. rewrite Z.add_0_r. done.
  - destruct l as [|h l]; [cbn; rewrite Z.add_0_r; done|]. set (hs := h :: l) in *.
    assert (Hn : Nat.min 32 (length hs) = length (take 32 hs)) by (rewrite length_take; done).
    assert (Hd : (length hs - Nat.min 32 (length hs))%nat = length (drop 32 hs)) by (rewrite length_drop; lia).
    replace (headers_bytes hs) with (headers_bytes (take 32 hs) ++ headers_bytes (drop 32 hs)) in * by (rewrite <- headers_bytes_app, take_drop; done).
    rewrite length_app, Nat2Z.inj_add in *. rewrite <- app_assoc.
    assert (Hstep : headers_loop ct adapter me now (S fuel) (length hs) total (mkSession w (headers_bytes (take 32 hs) ++ headers_bytes (drop 32 hs) ++ rest)) =
      vbind (read_headers ct me now (length (take 32 hs))) (fun hb => vbind (peer_info me) (fun i => vbind (call (headers_received adapter hb.1 i))
        (fun _ => headers_loop ct adapter me now fuel (length (drop 32 hs)) (total + hb.2)%u64))) (mkSession w (headers_bytes (take 32 hs) ++ headers_bytes (drop 32 hs) ++ rest))).
    { rewrite <- Hd, <- Hn. done. }
    rewrite Hstep. unfold vbind at 1. rewrite read_headers_arrive by (first [apply Forall_take, Hg|lia]).
    unfold vbind at 1, peer_info. unfold vbind, call. cbn [world incoming fst snd].
    assert (Hdel : deliver (S fuel) hs w = match headers_received adapter (take 32 hs) (seen_info w) w with
      | (Ok _, w) => deliver fuel (drop 32 hs) w | (Err e, w) => (Err e, w, drop 32 hs) | (Panic, w) => (Panic, w, drop 32 hs) end) by done.
    rewrite Hdel. unfold seen_info. destruct (headers_received adapter (take 32 hs) _ w) as [[ok|e|] w1]; cbn [map_err]; [|done|done].
    rewrite add64_small by lia. rewrite IH; [|apply Forall_drop, Hg|rewrite length_drop; cbn [hs length] in *; lia|lia|lia].
    destruct (deliver fuel (drop 32 hs) w1) as [[[] ?] ?]; try done. rewrite Z.add_assoc. done.
Qed.

(** The body of a [Headers] message *)
Lemma headers_delivered l rest (w : W) h : good_headers l -> Z.of_nat (length l) < 2 ^ 16 ->
  msg_len h = Z.of_nat (length (@ser_vec _ (write_headers ct) (mkHeaders l) (peer_version me))) -> msg_len h < U64 ->
  consume_headers ct adapter me now h (mkSession w (@ser_vec _ (write_headers ct) (mkHeaders l) (peer_version me) ++ rest)) =
  let '(r, w', unread) := deliver (length l) l w in
  (match r with Ok _ => Ok None | Err e => Err (PChain e) | Panic => Panic end, mkSession w' (headers_bytes unread ++ rest)).
Proof.
  intros Hg Hn Hlen Hl. change (@ser_vec _ (write_headers ct) (mkHeaders l) (peer_version me)) with (write_u16 (Z.of_nat (length l)) ++ headers_bytes l) in *.
  rewrite length_app in Hlen. assert (H2 : length (write_u16 (Z.of_nat (length l))) = 2%nat) by apply length_be_bytes.
  unfold consume_headers, vbind at 1. rewrite <- app_assoc.
  rewrite (item_arrives _ (write_u16 (Z.of_nat (length l))) (Z.of_nat (length l))) by (first [apply reads_u16; lia|apply tallies_u16|lia]).
  cbn [fst snd]. rewrite Nat2Z.id. unfold vbind. rewrite headers_loop_delivers by (first [done|lia]).
  destruct (deliver (length l) l w) as [[[u|e|] w'] unread]; [|done|done]. rewrite Hlen, H2, Nat2Z.inj_add, Z.eqb_refl. done.
Qed.
End HeadersArrive.

(** C31: The handler takes one message off the stream.  When it succeeds for a peer that is not banned, on a message it
    expects, it has taken exactly the bytes that the header announced and, for an archive, the file that the body announces;
    for a banned peer it takes nothing.  An archive that was not asked for, or not now, is refused before its file is read. *)
Theorem messages_are_handled_whole {DG : Digest} (ct : ChainTypes) {SS : SecpSizes} {CH : Chrono} {SH : SipHasher} {L LM W : Type} `{!LruCache L} `{!PeerCell L LM W}
    (adapter : NetAdapter W) me now nonce stop_at h (s : Session W) :
  0 <= msg_len h < U64 -> Z.of_nat (length (incoming s)) < U64 -> are_bytes (incoming s) ->
  (forall w r s', adapter_is_banned adapter (peer_addr me) (world s) = (false, w) -> unexpected (msg_type h) = false ->
     consume ct adapter me now nonce stop_at h s = (Ok r, s') ->
     exists body extra, incoming s = body ++ extra ++ incoming s' /\ Z.of_nat (length body) = msg_len h /\ attached me h body extra) /\
  (forall w, adapter_is_banned adapter (peer_addr me) (world s) = (true, w) ->
     consume ct adapter me now nonce stop_at h s = (Ok None, mkSession w (incoming s))) /\
  (forall body rest arch rd w1 ready, incoming s = body ++ rest -> Z.of_nat (length body) = msg_len h ->
     txhashset_archive_read (mkBinReader body (peer_version me)) = Ok (arch, rd) ->
     txhashset_receive_ready adapter (world s) = (ready, w1) -> ready = false \/ state_sync_requested (cell w1) = false ->
     consume_archive adapter me now stop_at h s = (Err BadMessage, mkSession w1 rest)).
Proof.
  intros Hl Hs Hb. split; [intros; eapply consume_framed; done|]. split; [intros; apply consume_banned; done|].
  intros. eapply unasked_archive_refused; done.
Qed.
