(* ===== verification/Conn.v ===== *)
(** * Connections

    Models [p2p/src/conn.rs]: the loops of the two threads of a connection.  The reader takes a message off the stream, gives
    it to the handler and queues the answer; the writer takes messages off the queue and writes them.  Errors of the chain and
    of the store do not end the connection; everything else does.

    A turn is one round of a loop, and the threads interleave by turns.  The stream holds all bytes the other side will ever
    send; timeouts, and the sleep after a read that would block, are not modelled. *)

From Stdlib Require Import ZArith Lia List Bool.
From stdpp Require Import base numbers list option gmap.
From S2P Require Import Prelude Bytes Consensus Ser Transaction TxBody Committed Verifier PowTypes Block CompactBlock Pow ChainTypes PeerTypes P2pMsg Handshake Adapter Peer Protocol.

(** The errors that [try_break!] passes over *)
Definition tolerated (e : P2pError) : bool :=
  match e with PStore _ | PChain _ | PInternal | NoDandelionRelay => true | _ => false end.

(** The world with its cell, the stream, whether each thread still runs, whether the socket is open, and the bytes written *)
Record Conn (W : Type) := mkConn {
  conn_session : Session W; reader_runs : bool; writer_runs : bool; socket_open : bool; outgoing : bytes }.
Arguments mkConn {W}.
Arguments conn_session {W}.
Arguments reader_runs {W}.
Arguments writer_runs {W}.
Arguments socket_open {W}.
Arguments outgoing {W}.

(** What a turn of the reader meets: the clock, a nonce, and when the connection is stopped during a download *)
Record Moment := mkMoment { clock_ms : Z; random_nonce : Z; stops_at : Z -> bool }.

Section Conn.
  Context {DG : Digest} (ct : ChainTypes) {SS : SecpSizes} {CH : Chrono} {SH : SipHasher}.
  Context {L LM W : Type} `{!LruCache L} `{!PeerCell L LM W} (adapter : NetAdapter W) (me : PeerInfo).
  Implicit Types (c : Conn W) (s : Session W).

(** The end of the reader: the loop is left and the socket shut down, or the thread panics and the socket stays *)
Definition reader_ends c s : Conn W := mkConn (mkSession (world s) []) false (writer_runs c) false (outgoing c).
Definition reader_panics c s : Conn W := mkConn s false (writer_runs c) (socket_open c) (outgoing c).
(** The check of the close channel *)
Definition reader_goes_on c s : Conn W :=
  if stopped (cell (world s)) then reader_ends c s else mkConn s true (writer_runs c) (socket_open c) (outgoing c).
Definition reader_fails c (e : P2pError) s : Conn W := if tolerated e then reader_goes_on c s else reader_ends c s.

(** [conn_handle.send] on the cell of the world *)
Definition send_reply (m : Msg) s : res P2pError unit * Session W :=
  let '(r, p) := conn_send m (cell (world s)) in (r, mkSession (set_cell p (world s)) (incoming s)).
Definition count_received (now len : Z) s : Session W :=
  mkSession (on_cell (inc_received now (Z.of_nat HEADER_LEN + len)%u64) (world s)) (incoming s).

(** One round of the loop of the reader *)
Definition reader_turn (m : Moment) c : Conn W :=
  if negb (reader_runs c) then c
  else
    let s := conn_session c in
    match read_msg_header ct (peer_version me) (incoming s) with
    | Ok (Known h, rest) =>
      let s := count_received (clock_ms m) (msg_len h) (mkSession (world s) rest) in
      match consume ct adapter me (clock_ms m) (random_nonce m) (stops_at m) h s with
      | (Ok (Some resp), s) =>
        match send_reply resp s with
        | (Ok _, s) => reader_goes_on c s
        | (Err e, s) => reader_fails c e s
        | (Panic, s) => reader_panics c s
        end
      | (Ok None, s) => reader_goes_on c s
      | (Err e, s) => reader_fails c e s
      | (Panic, s) => reader_panics c s
      end
    | Ok (Unknown len _, rest) =>
      let s := count_received (clock_ms m) len (mkSession (world s) rest) in
      match read_discard len (incoming s) with
      | Ok rest => reader_goes_on c (mkSession (world s) rest)
      | Err e => reader_fails c e s
      | Panic => reader_panics c s
      end
    | Err e => reader_fails c e s
    | Panic => reader_panics c s
    end.

(** The end of the writer: the queue goes with it *)
Definition writer_ends c (p : Peer L LM) : Conn W :=
  mkConn (mkSession (set_cell (with_channel [] true p) (world (conn_session c))) []) (reader_runs c) false false (outgoing c).
(** One round of the loop of the writer *)
Definition writer_turn (now : Z) c : Conn W :=
  if negb (writer_runs c) then c
  else
    let s := conn_session c in
    let p := cell (world s) in
    match send_channel p with
    | m :: q =>
      let p := with_channel q (writer_gone p) p in
      if socket_open c then
        let '(out, sent) := write_message now m (sent_bytes p) in
        let p := with_rates sent (received_bytes p) p in
        if stopped p then mkConn (conn_session (writer_ends c p)) (reader_runs c) false false (outgoing c ++ out)
        else mkConn (mkSession (set_cell p (world s)) (incoming s)) (reader_runs c) true true (outgoing c ++ out)
      else writer_ends c p
    | [] => if stopped p then writer_ends c p else c
    end.

(** Other threads act on the cell through the handle of the peer. *)
Definition other_turn (f : Peer L LM -> Peer L LM) c : Conn W :=
  mkConn (mkSession (on_cell f (world (conn_session c))) (incoming (conn_session c))) (reader_runs c) (writer_runs c) (socket_open c) (outgoing c).

(** [listen] *)
Definition listen (w : W) (stream : bytes) : Conn W := mkConn (mkSession w stream) true true true [].
End Conn.
