(* ===== verification/ConnTheorems.v ===== *)
(** * What connections promise

    Over [Conn]: messages wait in a bounded queue and leave in order, and a request for headers that one node writes comes
    back to it as the headers the other node found. *)

From Stdlib Require Import ZArith Lia List Bool.
From stdpp Require Import base numbers list option gmap.
From S2P Require Import Prelude Bytes Consensus Ser Transaction TxBody Committed Verifier PowTypes Block CompactBlock Pow ChainTypes PeerTypes P2pMsg Handshake Adapter Peer StreamCounts Messages Protocol ProtocolTheorems Conn.

(** ** The queue *)

Section Queue.
  Context {DG : Digest} (ct : ChainTypes) {L LM W : Type} `{!LruCache L} `{!PeerCell L LM W}.
  Implicit Types (c : Conn W).

(** What threads do with a connection, apart from reading *)
Inductive QueueStep := Send (m : Msg) | WriterTurn (now : Z).
Definition queue_step (c : Conn W) (x : QueueStep) : Conn W :=
  match x with
  | Send m => other_turn (fun p => (conn_send m p).2) c
  | WriterTurn now => writer_turn now c
  end.
Definition messages_of (trace : list QueueStep) : list Msg := omap (fun x => match x with Send m => Some m | WriterTurn _ => None end) trace.
Definition conn_peer c : Peer L LM := cell (world (conn_session c)).
(** The bytes of a message *)
Definition wire (m : Msg) : bytes := ser_vec (msg_header m) (msg_version m) ++ P2pMsg.msg_body m ++ default [] (attachment m).

Lemma write_message_wire now m sent : (write_message now m sent).1 = wire m.
Proof. unfold write_message, wire. destruct (attachment m) as [file|]; cbn [fst default]; [rewrite app_assoc; done|rewrite app_nil_r; done]. Qed.

(** An open connection of which [taken] is written, [send_channel] waits, and both come in order out of [offered] *)
Definition queued (offered : list Msg) c : Prop := exists taken,
  writer_runs c = true /\ socket_open c = true /\ stopped (conn_peer c) = false /\ writer_gone (conn_peer c) = false /\
  outgoing c = concat (map wire taken) /\ sublist (taken ++ send_channel (conn_peer c)) offered /\
  (length (send_channel (conn_peer c)) <= SEND_CHANNEL_CAP)%nat.

Lemma queued_send offered c m : queued offered c -> queued (offered ++ [m]) (queue_step c (Send m)).
Proof.
  intros (taken & H1 & H2 & H3 & H4 & H5 & H6 & H7). exists taken. unfold queue_step, other_turn, conn_peer, on_cell in *. cbn [conn_session world writer_runs socket_open outgoing].
  rewrite !cell_set. unfold conn_send. rewrite H4.
  destruct (Nat.ltb_spec (length (send_channel (cell (world (conn_session c))))) SEND_CHANNEL_CAP) as [Hlt|Hge]; cbn [snd].
  - cbn [stopped writer_gone send_channel with_channel]. split_and!; [done|done|done|done|done| |rewrite length_app; cbn [length]; lia].
    rewrite app_assoc. apply sublist_app; [exact H6|done].
  - split_and!; try done. apply sublist_inserts_r. exact H6.
Qed.
Lemma queued_write offered c now : queued offered c -> queued offered (queue_step c (WriterTurn now)).
Proof.
  intros (taken & H1 & H2 & H3 & H4 & H5 & H6 & H7). unfold queue_step, writer_turn. fold (conn_peer c). rewrite H1, H2. cbn [negb].
  destruct (send_channel (conn_peer c)) as [|m q] eqn:Eq.
  - rewrite H3. exists taken. rewrite Eq. split_and!; done.
  - cbn [with_channel sent_bytes]. destruct (write_message now m _) as [out sent] eqn:Ew. cbn [stopped with_rates with_channel]. rewrite H3.
    exists (taken ++ [m]). unfold conn_peer. cbn [conn_session world writer_runs socket_open outgoing]. rewrite cell_set. cbn [stopped writer_gone send_channel with_rates with_channel].
    split_and!; [done|done|done|done| | |cbn [length] in H7; lia].
    + rewrite map_app, concat_app, H5. cbn [map concat]. rewrite app_nil_r. f_equal. rewrite <- (write_message_wire now m (sent_bytes (conn_peer c))).
      unfold conn_peer in *. rewrite Ew. done.
    + rewrite <- app_assoc. exact H6.
Qed.

Lemma queued_run trace : forall offered c, queued offered c -> queued (offered ++ messages_of trace) (foldl queue_step c trace).
Proof.
  induction trace as [|[m|now] trace IH]; intros offered c H; cbn [foldl].
  - unfold messages_of. cbn [omap list_omap]. rewrite app_nil_r. exact H.
  - change (messages_of (Send m :: trace)) with ([m] ++ messages_of trace). rewrite app_assoc. apply IH, queued_send, H.
  - change (messages_of (WriterTurn now :: trace)) with (messages_of trace). apply IH, queued_write, H.
Qed.

(** Nothing is dropped while fewer than a hundred messages wait. *)
Definition lossless (offered : list Msg) c : Prop := exists taken,
  writer_runs c = true /\ socket_open c = true /\ stopped (conn_peer c) = false /\ writer_gone (conn_peer c) = false /\
  outgoing c = concat (map wire taken) /\ taken ++ send_channel (conn_peer c) = offered.
Lemma lossless_run trace : forall offered c, lossless offered c ->
  (length (send_channel (conn_peer c)) + length (messages_of trace) <= SEND_CHANNEL_CAP)%nat ->
  lossless (offered ++ messages_of trace) (foldl queue_step c trace).
Proof.
  induction trace as [|x trace IH]; intros offered c H Hl; cbn [foldl].
  - unfold messages_of. cbn [omap list_omap]. rewrite app_nil_r. exact H.
  - destruct H as (taken & H1 & H2 & H3 & H4 & H5 & H6). destruct x as [m|now].
    + change (messages_of (Send m :: trace)) with ([m] ++ messages_of trace) in *. rewrite app_assoc. rewrite length_app in Hl. cbn [length] in Hl.
      assert (Hc : send_channel (conn_peer (queue_step c (Send m))) = send_channel (conn_peer c) ++ [m] /\ lossless (offered ++ [m]) (queue_step c (Send m))).
      { unfold lossless, queue_step, other_turn, conn_peer, on_cell in *. cbn [conn_session world writer_runs socket_open outgoing]. rewrite !cell_set.
        unfold conn_send. rewrite H4. rewrite (proj2 (Nat.ltb_lt _ _)) by lia. cbn [snd stopped writer_gone send_channel with_channel]. split; [done|].
        exists taken. split_and!; try done. rewrite app_assoc, H6. done. }
      destruct Hc as [Hq Hc]. apply IH; [exact Hc|]. rewrite Hq, length_app. cbn [length]. lia.
    + change (messages_of (WriterTurn now :: trace)) with (messages_of trace) in *.
      assert (Hc : (length (send_channel (conn_peer (queue_step c (WriterTurn now)))) <= length (send_channel (conn_peer c)))%nat /\ lossless offered (queue_step c (WriterTurn now))).
      { unfold queue_step, writer_turn. fold (conn_peer c). rewrite H1, H2. cbn [negb]. destruct (send_channel (conn_peer c)) as [|m q] eqn:Eq.
        - rewrite H3. split; [rewrite Eq; done|]. exists taken. rewrite Eq. split_and!; done.
        - cbn [with_channel sent_bytes]. destruct (write_message now m _) as [out sent] eqn:Ew. cbn [stopped with_rates with_channel]. rewrite H3.
          unfold lossless, conn_peer. cbn [conn_session world writer_runs socket_open outgoing]. rewrite cell_set. cbn [stopped writer_gone send_channel with_rates with_channel].
          split; [cbn [length]; lia|]. exists (taken ++ [m]). split_and!; try done.
          + rewrite map_app, concat_app, H5. cbn [map concat]. rewrite app_nil_r. f_equal. rewrite <- (write_message_wire now m (sent_bytes (conn_peer c))).
            unfold conn_peer in *. rewrite Ew. done.
          + rewrite <- app_assoc. exact H6. }
      destruct Hc as [Hq Hc]. apply IH; [exact Hc|]. lia.
Qed.
End Queue.

(** ** Turns of the reader *)

Section Turns.
  Context {DG : Digest} (ct : ChainTypes) {SS : SecpSizes} {CH : Chrono} {SH : SipHasher}.
  Context {L LM W : Type} `{!LruCache L} `{!PeerCell L LM W} (adapter : NetAdapter W) (me : PeerInfo).
  Implicit Types (c : Conn W) (w : W) (m : Moment).

(** The adapter lets the handler look at a message: the peer is not banned, and speaks a version the chain allows. *)
Definition admits w w' : Prop := exists w1 height,
  adapter_is_banned adapter (peer_addr me) w = (false, w1) /\ total_height adapter w1 = (Ok height, w') /\
  (support_token_height ct <=? height) && (peer_version me <? 2) = false.
Lemma consume_admitted w w' now nonce stop_at h stream : admits w w' ->
  consume ct adapter me now nonce stop_at h (mkSession w stream) = dispatch ct adapter me now nonce stop_at h (mkSession w' stream).
Proof.
  intros (w1 & height & H1 & H2 & H3). unfold consume, vbind at 1, ask. cbn [world incoming]. rewrite H1.
  unfold check_protocol_version, vbind at 1. unfold vbind at 1, call. cbn [world incoming]. rewrite H2. cbn [map_err]. rewrite H3. done.
Qed.

(** The message at the front of the stream of a connection *)
Definition at_front (t : MsgType) (m : Msg) (rest : bytes) c : Prop :=
  reader_runs c = true /\ incoming (conn_session c) = wire m ++ rest /\
  msg_header m = msg_header_new ct t (Z.of_nat (length (P2pMsg.msg_body m))) /\ attachment m = None /\
  fits ct t (Z.of_nat (length (P2pMsg.msg_body m))).
Definition counted (now : Z) (msg : Msg) w : W :=
  on_cell (inc_received now (Z.of_nat HEADER_LEN + Z.of_nat (length (P2pMsg.msg_body msg)))%u64) w.

(** A turn of the reader is the handler on the body of the first message, and what its outcome means. *)
Lemma reader_turn_front m c t msg rest w : at_front t msg rest c -> admits (counted (clock_ms m) msg (world (conn_session c))) w ->
  reader_turn ct adapter me m c =
  match dispatch ct adapter me (clock_ms m) (random_nonce m) (stops_at m) (msg_header msg) (mkSession w (P2pMsg.msg_body msg ++ rest)) with
  | (Ok (Some resp), s) =>
    match send_reply resp s with
    | (Ok _, s) => reader_goes_on c s
    | (Err e, s) => reader_fails c e s
    | (Panic, s) => reader_panics c s
    end
  | (Ok None, s) => reader_goes_on c s
  | (Err e, s) => reader_fails c e s
  | (Panic, s) => reader_panics c s
  end.
Proof.
  intros (H1 & H2 & H3 & H4 & H5) Hw. unfold reader_turn. rewrite H1. cbn [negb]. rewrite H2. unfold wire. rewrite H3, H4. cbn [default]. rewrite app_nil_r, <- app_assoc.
  unfold ser_vec at 1. rewrite read_msg_header_ok by exact H5. unfold count_received. cbn [world incoming msg_len msg_header_new].
  change (mkSession (on_cell (inc_received (clock_ms m) (Z.of_nat HEADER_LEN + Z.of_nat (length (P2pMsg.msg_body msg)))%u64) (world (conn_session c))) (P2pMsg.msg_body msg ++ rest))
    with (mkSession (counted (clock_ms m) msg (world (conn_session c))) (P2pMsg.msg_body msg ++ rest)).
  rewrite (consume_admitted _ _ _ _ _ _ _ Hw). done.
Qed.
Lemma body_arrives {A} (rd : BinReader -> res Error (A * BinReader)) a msg t rest w :
  msg_header msg = msg_header_new ct t (Z.of_nat (length (P2pMsg.msg_body msg))) -> reads (peer_version me) rd (P2pMsg.msg_body msg) a ->
  Protocol.msg_body me rd (msg_header msg) (mkSession w (P2pMsg.msg_body msg ++ rest)) = (Ok a, mkSession w rest).
Proof.
  intros Hh Hr. unfold Protocol.msg_body, read_body. rewrite Hh. cbn [msg_len msg_header_new incoming world]. rewrite stream_exact_ok. cbn [res_bind].
  destruct (Hr (mkBinReader (P2pMsg.msg_body msg) (peer_version me)) []) as (r' & E & _); [done|cbn; rewrite app_nil_r; done|]. rewrite E. done.
Qed.

(** A request for headers is answered with what the adapter finds. *)
Lemma headers_request_answered m c loc rest w l w' : let req := msg_new ct TGetHeaders loc (peer_version me) in
  at_front TGetHeaders req rest c -> Forall wf_hash (locator_hashes loc) -> Z.of_nat (length (locator_hashes loc)) <= MAX_LOCATORS ->
  admits (counted (clock_ms m) req (world (conn_session c))) w ->
  locate_headers adapter (locator_hashes loc) w = (Ok l, w') ->
  stopped (cell w') = false -> writer_gone (cell w') = false -> (length (send_channel (cell w')) < SEND_CHANNEL_CAP)%nat ->
  let resp := @msg_new _ (write_headers ct) ct THeaders (mkHeaders l) (peer_version me) in
  reader_turn ct adapter me m c =
  mkConn (mkSession (set_cell (with_channel (send_channel (cell w') ++ [resp]) false (cell w')) w') rest) true (writer_runs c) (socket_open c) (outgoing c).
Proof.
  intros req Hf Hwf Hmax Hw Hl Hst Hgone Hq resp. rewrite (reader_turn_front _ _ _ _ _ _ Hf Hw). unfold dispatch.
  change (msg_type (msg_header req)) with TGetHeaders. unfold vbind at 1, peer_info. unfold vbind at 1.
  rewrite (body_arrives locator_read loc req TGetHeaders) by (first [apply Hf|apply reads_locator; done]).
  unfold vbind at 1, call. cbn [world incoming]. rewrite Hl. cbn [map_err]. unfold reply, vret. cbn [fst snd].
  unfold send_reply. cbn [world incoming]. unfold conn_send. rewrite Hgone, (proj2 (Nat.ltb_lt _ _)) by exact Hq.
  unfold reader_goes_on. cbn [world incoming]. rewrite cell_set. cbn [with_channel stopped]. rewrite Hst. done.
Qed.

(** Headers that arrive reach the adapter, and the stream is left after them. *)
Lemma headers_arrive m c l rest w w' : let msg := @msg_new _ (write_headers ct) ct THeaders (mkHeaders l) (peer_version me) in
  at_front THeaders msg rest c -> good_headers ct (clock_ms m) l -> Z.of_nat (length l) < 2 ^ 16 ->
  admits (counted (clock_ms m) msg (world (conn_session c))) w ->
  deliver adapter me (length l) l w = (Ok tt, w', []) -> stopped (cell w') = false ->
  reader_turn ct adapter me m c = mkConn (mkSession w' rest) true (writer_runs c) (socket_open c) (outgoing c).
Proof.
  intros msg Hf Hg Hl Hw Hd Hst. rewrite (reader_turn_front _ _ _ _ _ _ Hf Hw). unfold dispatch. change (msg_type (msg_header msg)) with THeaders.
  unfold vbind at 1, peer_info. change (P2pMsg.msg_body msg) with (@ser_vec _ (write_headers ct) (mkHeaders l) (peer_version me)).
  rewrite headers_delivered; [|exact Hg|exact Hl|done|].
  - rewrite Hd. unfold reader_goes_on. cbn [world headers_bytes map concat app]. rewrite Hst. done.
  - destruct Hf as (_ & _ & _ & _ & _ & Hfit). pose proof (max_msg_size_small ct THeaders). change (msg_len (msg_header msg)) with (Z.of_nat (length (P2pMsg.msg_body msg))). lia.
Qed.
End Turns.

(** C32: Messages wait in a queue of at most a hundred and leave in the order in which they were sent.  Whatever the other
    threads send and however often the writer turns, the bytes written are those of messages that were sent, in order and
    each once, and the messages that wait follow them; a message is dropped only when a hundred wait. *)
Theorem messages_leave_in_order {L LM W : Type} `{!LruCache L} `{!PeerCell L LM W} (c : Conn W) (trace : list QueueStep) :
  writer_runs c = true -> socket_open c = true -> stopped (conn_peer c) = false -> writer_gone (conn_peer c) = false ->
  outgoing c = [] -> send_channel (conn_peer c) = [] ->
  (exists taken, outgoing (foldl queue_step c trace) = concat (map wire taken) /\
     sublist (taken ++ send_channel (conn_peer (foldl queue_step c trace))) (messages_of trace) /\
     (length (send_channel (conn_peer (foldl queue_step c trace))) <= 100)%nat) /\
  ((length (messages_of trace) <= 100)%nat ->
   exists taken, outgoing (foldl queue_step c trace) = concat (map wire taken) /\
     taken ++ send_channel (conn_peer (foldl queue_step c trace)) = messages_of trace).
Proof.
  intros H1 H2 H3 H4 H5 H6. split.
  - destruct (queued_run trace [] c) as (taken & _ & _ & _ & _ & Ho & Hs & Hl).
    + exists []. rewrite H6. split_and!; try done. cbn. lia.
    + exists taken. done.
  - intros Hn. destruct (lossless_run trace [] c) as (taken & _ & _ & _ & _ & Ho & Hs).
    + exists []. rewrite H6. split_and!; done.
    + rewrite H6. cbn [length]. unfold SEND_CHANNEL_CAP. lia.
    + exists taken. done.
Qed.

(** C30: A request for headers comes back as headers.  When one node has the bytes of the request of another at the front of
    its stream, finds headers for the locator and has room to answer, a turn of its reader and one of its writer put the bytes
    of the headers on the wire, after what it wrote before; and when these are at the front of the stream of the other node, a
    turn of its reader hands the same headers, in order and in chunks of at most 32, to its adapter.  Both leave on the stream
    what comes after the message. *)
Theorem headers_are_exchanged {DG : Digest} (ct : ChainTypes) {SS : SecpSizes} {CH : Chrono} {SH : SipHasher} {L LM Wa Wb : Type} `{!LruCache L}
    `{!PeerCell L LM Wa} `{!PeerCell L LM Wb} (adapter_a : NetAdapter Wa) (adapter_b : NetAdapter Wb) (me_a me_b : PeerInfo)
    (a : Conn Wa) (b : Conn Wb) (ma mb : Moment) (now : Z) loc l rest rest' wa wa' wb wb' :
  let v := peer_version me_b in
  let req := msg_new ct TGetHeaders loc v in
  let resp := @msg_new _ (write_headers ct) ct THeaders (mkHeaders l) v in
  peer_version me_a = v ->
  Forall wf_hash (locator_hashes loc) -> Z.of_nat (length (locator_hashes loc)) <= MAX_LOCATORS ->
  reader_runs b = true -> writer_runs b = true -> socket_open b = true -> incoming (conn_session b) = wire req ++ rest ->
  admits ct adapter_b me_b (counted (clock_ms mb) req (world (conn_session b))) wb -> locate_headers adapter_b (locator_hashes loc) wb = (Ok l, wb') ->
  stopped (cell wb') = false -> writer_gone (cell wb') = false -> send_channel (cell wb') = [] ->
  good_headers ct (clock_ms ma) l -> Z.of_nat (length l) < 2 ^ 16 -> fits ct THeaders (Z.of_nat (length (P2pMsg.msg_body resp))) ->
  reader_runs a = true -> incoming (conn_session a) = wire resp ++ rest' ->
  admits ct adapter_a me_a (counted (clock_ms ma) resp (world (conn_session a))) wa ->
  deliver adapter_a me_a (length l) l wa = (Ok tt, wa', []) -> stopped (cell wa') = false ->
  (let b' := writer_turn now (reader_turn ct adapter_b me_b mb b) in
   outgoing b' = outgoing b ++ wire resp /\ incoming (conn_session b') = rest /\ reader_runs b' = true /\ writer_runs b' = true) /\
  reader_turn ct adapter_a me_a ma a = mkConn (mkSession wa' rest') true (writer_runs a) (socket_open a) (outgoing a).
Proof.
  intros v req resp Hv Hwf Hmax Rb Rw Rs Eb Ab Lb Sb Gb Qb Hg Hl Hfit Ra Ea Aa Da Sa. split.
  - rewrite (headers_request_answered ct adapter_b me_b mb b loc rest wb l wb'); try done.
    2:{ split_and!; try done. apply locator_fits; done. }
    2:{ rewrite Qb. cbn. unfold SEND_CHANNEL_CAP. lia. }
    unfold writer_turn. rewrite Rw. cbn [writer_runs negb conn_session world]. rewrite cell_set, Qb. cbn [with_channel send_channel app].
    fold v resp. cbn [socket_open]. rewrite Rs. destruct (write_message now resp _) as [out sent] eqn:Ew. cbn [with_rates with_channel stopped]. rewrite Sb.
    cbn [outgoing conn_session incoming reader_runs writer_runs]. split; [|done]. f_equal. match type of Ew with write_message _ _ ?x = _ => rewrite <- (write_message_wire now resp x), Ew end. done.
  - apply (headers_arrive ct adapter_a me_a ma a l rest' wa); rewrite ?Hv; try done.
Qed.
