(* ===== verification/ConnExamples.v ===== *)
(** * Connections on concrete inputs

    Two nodes of a chain that ask each other for headers, and what a handler makes of messages it does not expect. *)

From Stdlib Require Import ZArith Lia List Bool.
From stdpp Require Import base numbers list option gmap.
From S2P Require Import Prelude Bytes Consensus Ser Transaction TxBody Committed Verifier PowTypes Block CompactBlock Pow ChainTypes PeerTypes P2pMsg Handshake P2pExamples Adapter Peer StreamCounts Messages Protocol ProtocolTheorems Conn ConnTheorems.

(** A map of the last 30 keys *)
#[export] Instance list_lru_map : LruMap (list (bytes * Z)) Z.
Proof.
  refine {| lru_map_new := [];
    lru_get k l := (snd <$> find (fun x => bool_decide (x.1 = k)) l, l);
    lru_map_insert k v l := (k, v) :: take 29 (List.filter (fun x => negb (bool_decide (x.1 = k))) l) |}.
  - done.
  - intros k v l. cbn [find fst]. rewrite bool_decide_true by done. done.
  - intros k k' v l Hne. cbn [find fst]. rewrite bool_decide_false by done.
    assert (Hf : forall n (l : list (bytes * Z)), find (fun x => bool_decide (x.1 = k')) (take n l) = None \/
      find (fun x => bool_decide (x.1 = k')) (take n l) = find (fun x => bool_decide (x.1 = k')) l).
    { intros n l'. revert n. induction l' as [|x l' IH]; intros [|n]; cbn [take find]; try (left; done).
      destruct (bool_decide (x.1 = k')); [right; done|]. apply IH. }
    assert (Hk : forall l : list (bytes * Z), find (fun x => bool_decide (x.1 = k')) (List.filter (fun x => negb (bool_decide (x.1 = k))) l) =
      find (fun x => bool_decide (x.1 = k')) l).
    { intros l'. induction l' as [|x l' IH]; [done|]. cbn [List.filter find]. destruct (bool_decide (x.1 = k)) eqn:E; cbn [negb].
      - apply bool_decide_eq_true in E. rewrite IH, bool_decide_false; [done|]. rewrite E. done.
      - cbn [find]. rewrite IH. done. }
    cbn [fst]. destruct (Hf 29%nat (List.filter (fun x => negb (bool_decide (x.1 = k))) l)) as [->| ->]; [left; done|]. rewrite Hk. right. done.
  - done.
Defined.

#[local] Instance demo_digest : Digest := {| blake2b b := take 32 (b ++ replicate 32 0); sha256 b := take 32 (b ++ replicate 32 0) |}.
#[local] Instance demo_sizes : SecpSizes.
Proof. refine {| PEDERSEN_COMMITMENT_SIZE := 33; AGG_SIGNATURE_SIZE := 64; SECRET_KEY_SIZE := 32; MAX_PROOF_SIZE := 675 |}. cbn. lia. Defined.
#[local] Instance demo_chrono : Chrono.
Proof. refine {| min_timestamp := - 2 ^ 40; max_timestamp := 2 ^ 40 |}. lia. Defined.
#[local] Instance demo_sip : SipHasher := fun k0 k1 b => (k0 + k1 + le_val b) mod 2 ^ 64.

(** A world with the cell of a peer and the heights of the headers that were received, chunk by chunk *)
Record DemoWorld := mkDemo { demo_cell : Peer (list bytes) (list (bytes * Z)); demo_log : list (list Z) }.
#[local] Instance demo_cells : PeerCell (list bytes) (list (bytes * Z)) DemoWorld :=
  {| cell := demo_cell; set_cell p w := mkDemo p (demo_log w); cell_set p w := eq_refl |}.

(** An adapter that knows some headers; [banned] when it knows the peer as banned *)
Definition demo_adapter (banned : bool) (known : list BlockHeader) : NetAdapter DemoWorld :=
  mkNetAdapter
    (mkChainAdapter (vret (mkDifficulty 10)) (vret 5) (fun _ _ => vret true) (fun _ w => (None, w)) (fun _ _ => vret true)
      (fun _ _ _ => vret true) (fun _ _ => vret true) (fun _ _ => vret true)
      (fun hs _ w => (Ok true, mkDemo (demo_cell w) (demo_log w ++ [map bh_height hs])))
      (fun _ => vret known) (fun _ w => (None, w)) (vret []) (fun _ => vret true) (fun _ w => (None, w)) (vlift (Err COther))
      (fun w => (true, w)) (fun _ _ _ w => (true, w)) (fun _ _ _ => vret false))
    (fun _ w => ([], w)) (fun _ w => w) (fun _ _ _ w => w) (fun _ w => (banned, w)).

Definition demo_header (height : Z) : BlockHeader :=
  mkHeader 1 height (replicate 32 2) (replicate 32 3) 1600000000 (replicate 32 4) (replicate 32 5) (replicate 32 6) (mkBlinding (replicate 32 7))
    3 4 545259519 (replicate 32 8) (replicate 32 9) (replicate 32 10) (replicate 32 11) 5 6 7 (implied_pow height) aux_data_default.
Lemma demo_header_good height : 0 <= height < 2 ^ 32 ->
  wf_header AutomatedTesting (demo_header height) /\ header_acceptable AutomatedTesting 1600000000 (demo_header height) = true.
Proof.
  intros Hh. split.
  - unfold wf_header. split_and!; try (cbn; lia); try done.
    + unfold is_u64. cbn. lia.
    + unfold wf_token_part. rewrite (proj2 (Z.leb_le _ _)) by (cbn; lia). split_and!; done.
    + unfold wf_pow_part. rewrite (proj2 (Z.leb_le _ _)) by (cbn; lia). split; [done|]. unfold wf_aux_data, wf_aux_header. split_and!; try done; try (vm_compute; split; congruence); try (vm_compute; congruence); constructor.
  - unfold header_acceptable. cbn [bh_height demo_header]. rewrite (proj2 (Z.ltb_ge height (refactor_header_height AutomatedTesting))) by (cbn; lia). done.
Qed.

Definition demo_me : PeerInfo := mkPeerInfo FULL_NODE USER_AGENT 2 (addr_at 1 3514) Outbound (live_info_new 1000 (mkDifficulty 10)).
Definition demo_world : DemoWorld := mkDemo (peer_new demo_me) [].
Definition demo_moment : Moment := mkMoment 1600000000000 7 (fun _ => false).
Definition demo_locator : Locator := mkLocator [replicate 32 1].
Definition demo_headers : list BlockHeader := [demo_header 1; demo_header 2].
Definition demo_request : Msg := msg_new AutomatedTesting TGetHeaders demo_locator 2.
Definition demo_response : Msg := @msg_new _ (write_headers AutomatedTesting) AutomatedTesting THeaders (mkHeaders demo_headers) 2.
Definition demo_counted (m : Msg) : DemoWorld := counted 1600000000000 m demo_world.
(** The asker after the headers arrived *)
Definition demo_synced : DemoWorld := mkDemo (demo_cell (demo_counted demo_response)) [[1; 2]].

Lemma headers_are_exchanged_witness :
  outgoing (writer_turn 5 (reader_turn AutomatedTesting (demo_adapter false demo_headers) demo_me demo_moment (listen demo_world (wire demo_request ++ [9])))) =
    wire demo_response /\
  reader_turn AutomatedTesting (demo_adapter false []) demo_me demo_moment (listen demo_world (wire demo_response ++ [8])) =
    mkConn (mkSession demo_synced [8]) true true true [].
Proof.
  destruct (headers_are_exchanged AutomatedTesting (demo_adapter false []) (demo_adapter false demo_headers) demo_me demo_me
    (listen demo_world (wire demo_response ++ [8])) (listen demo_world (wire demo_request ++ [9])) demo_moment demo_moment 5
    demo_locator demo_headers [9] [8] (demo_counted demo_response) demo_synced (demo_counted demo_request) (demo_counted demo_request)) as [(H1 & _) H2].
  all: try reflexivity.
  - repeat constructor.
  - vm_compute. congruence.
  - exists (demo_counted demo_request), 5. done.
  - repeat (apply Forall_cons_2; [apply demo_header_good; lia|]). apply Forall_nil_2.
  - vm_compute. split; congruence.
  - exists (demo_counted demo_response), 5. done.
  - split; [exact H1|exact H2].
Defined.

(** A header, a transaction and a ping that arrive, headers one by one, and an error that does not *)
Definition demo_tx : Transaction :=
  mkTx (mkBlinding (replicate 32 0))
    (mkBody [mkInput OPlain (mkCommitment (replicate 33 1))] [] [mkOutput OPlain (mkCommitment (replicate 33 2)) (mkRangeProof (replicate 675 9) 675)] []
       [mkTxKernel (KPlain 5) (mkCommitment (replicate 33 7)) (mkSignature (replicate 64 3))] []).
Lemma demo_tx_wf : wf_tx AutomatedTesting 2 demo_tx.
Proof.
  split; [reflexivity|]. split; [repeat split; repeat constructor; cbn; lia|]. split; [vm_compute; congruence|]. split; [vm_compute; reflexivity|].
  intros H. lia.
Qed.
#[local] Instance demo_write : Writeable MsgBody := write_msg_body AutomatedTesting.
Definition arrives (m : MsgBody) : Prop :=
  read_message AutomatedTesting (msg_body_read AutomatedTesting 1600000000 (body_type m)) 2 (body_type m)
    ((write_message 5 (msg_new AutomatedTesting (body_type m) m 2) rate_new).1 ++ [9]) = Ok (m, [9]).
Lemma messages_arrive_witness :
  arrives (MHeader (demo_header 1)) /\ arrives (MTransaction demo_tx) /\ arrives (MPing a_ping) /\
  exists h s1 s2 n, read_msg_header AutomatedTesting 2 ((write_message 5 demo_response rate_new).1 ++ [9]) = Ok (Known h, s1) /\
    read_item read_u16 2 s1 = Ok (2, 2, s2) /\
    read_items (untrusted_header_read AutomatedTesting 1600000000) 2 2 s2 = Ok (demo_headers, n, [9]) /\ 2 + n = msg_len h.
Proof.
  destruct (messages_arrive AutomatedTesting 2 2 1600000000 5 rate_new [9]) as (H & _ & Hh & _). split; [|split; [|split]].
  - apply (H (MHeader (demo_header 1))); [split; [reflexivity|apply demo_header_good; lia]|right; vm_compute; split; congruence].
  - apply (H (MTransaction demo_tx)); [split; [reflexivity|apply demo_tx_wf]|right; vm_compute; split; congruence].
  - apply (H (MPing a_ping)); [vm_compute; repeat split; congruence|left; reflexivity].
  - destruct (Hh (mkHeaders demo_headers)) as (h & s1 & s2 & n & E1 & _ & E2 & E3 & E4).
    + split; [|vm_compute; reflexivity]. repeat (apply Forall_cons_2; [apply demo_header_good; lia|]). apply Forall_nil_2.
    + vm_compute. split; congruence.
    + exists h, s1, s2, n. split; [exact E1|]. split; [exact E2|]. split; [exact E3|exact E4].
Defined.

Lemma messages_leave_in_order_witness : exists taken,
  outgoing (foldl queue_step (listen demo_world []) [Send demo_request; WriterTurn 3; Send demo_response]) = concat (map wire taken) /\
  taken ++ send_channel (conn_peer (foldl queue_step (listen demo_world []) [Send demo_request; WriterTurn 3; Send demo_response])) = [demo_request; demo_response].
Proof.
  destruct (messages_leave_in_order (listen demo_world []) [Send demo_request; WriterTurn 3; Send demo_response]) as [_ H]; try reflexivity.
  apply H. cbn. lia.
Defined.

(** A pong is taken whole, and of a pong from a banned peer nothing is taken. *)
Definition demo_pong : Msg := msg_new AutomatedTesting TPong (mkPong (mkDifficulty 3) 4) 2.
Lemma messages_are_handled_whole_witness :
  (exists body extra, P2pMsg.msg_body demo_pong ++ [9] = body ++ extra ++ [9] /\ Z.of_nat (length body) = 16 /\ attached demo_me (msg_header demo_pong) body extra) /\
  consume AutomatedTesting (demo_adapter true []) demo_me 5 7 (fun _ => false) (msg_header demo_pong) (mkSession demo_world (P2pMsg.msg_body demo_pong ++ [9])) =
    (Ok None, mkSession demo_world (P2pMsg.msg_body demo_pong ++ [9])).
Proof.
  split.
  - destruct (messages_are_handled_whole AutomatedTesting (demo_adapter false []) demo_me 5 7 (fun _ => false) (msg_header demo_pong)
      (mkSession demo_world (P2pMsg.msg_body demo_pong ++ [9]))) as (H & _).
    + vm_compute. split; congruence.
    + vm_compute. reflexivity.
    + apply (bool_decide_unpack (Forall (fun b => 0 <= b < 256) (P2pMsg.msg_body demo_pong ++ [9]))). vm_compute. exact I.
    + destruct (H demo_world None (mkSession demo_world [9])) as (body & extra & E & Hl & Ha); try reflexivity. exists body, extra. done.
  - destruct (messages_are_handled_whole AutomatedTesting (demo_adapter true []) demo_me 5 7 (fun _ => false) (msg_header demo_pong)
      (mkSession demo_world (P2pMsg.msg_body demo_pong ++ [9]))) as (_ & H & _).
    + vm_compute. split; congruence.
    + vm_compute. reflexivity.
    + apply (bool_decide_unpack (Forall (fun b => 0 <= b < 256) (P2pMsg.msg_body demo_pong ++ [9]))). vm_compute. exact I.
    + apply H. reflexivity.
Defined.

(** A transaction without kernels passes the checks of its form, and the adapter that tracks hashes panics on it. *)
Definition empty_tx : Transaction := mkTx (mkBlinding (replicate 32 0)) (mkBody [] [] [] [] [] []).
Definition empty_tx_msg : Msg := msg_new AutomatedTesting TTransaction empty_tx 2.
Lemma kernelless_transaction_panics :
  (consume AutomatedTesting (tracking_adapter AutomatedTesting (demo_adapter false [])) demo_me 5 7 (fun _ => false) (msg_header empty_tx_msg)
    (mkSession demo_world (P2pMsg.msg_body empty_tx_msg))).1 = Panic.
Proof. vm_compute. reflexivity. Qed.
(** The reader is gone then and the connection stays open: nothing more is read, and messages are still written. *)
Lemma panicked_reader_lingers :
  let c := reader_turn AutomatedTesting (tracking_adapter AutomatedTesting (demo_adapter false [])) demo_me demo_moment (listen demo_world (wire empty_tx_msg)) in
  reader_runs c = false /\ socket_open c = true /\ writer_runs c = true /\ is_connected (conn_peer c) = true.
Proof. vm_compute. done. Qed.
