(* ===== verification/Peers.v ===== *)
(** * The set of peers

    Models [p2p/src/peers.rs]: the peers a node is connected to and those it knows of, the bans, the broadcasts, and the
    adapter that bans a peer for what it sent.

    The connected peers are shared objects: the map holds references into a heap.  The locks are free whenever they are tried.
    The order of the values of the map is that of [map_to_list]; the random orders are an argument, and so is the clock. *)

From Stdlib Require Import ZArith Lia List Bool.
From stdpp Require Import base numbers list option gmap fin_maps functions.
From S2P Require Import Prelude Bytes Consensus Ser Transaction TxBody Committed Verifier PowTypes Block CompactBlock Pow ChainTypes PeerTypes P2pMsg Handshake PeerStore Adapter Peer.

Definition PEER_EXPIRATION_DAYS : Z := 7 * 2.
Definition PEER_EXPIRATION_REMOVE_TIME : Z := PEER_EXPIRATION_DAYS * 24 * 3600.

(** [Peers], with the heap of its peers and the world of the adapter behind it *)
Record Peers (L LM X : Type) := mkPeers {
  heap : nat -> Peer L LM;
  store : PeerStore;
  peers : gmap AddrKey nat;
  peers_config : P2PConfig;
  chain_world : X
}.
Arguments mkPeers {L LM X}.
Arguments heap {L LM X}.
Arguments store {L LM X}.
Arguments peers {L LM X}.
Arguments peers_config {L LM X}.
Arguments chain_world {L LM X}.

Section Peers.
  Context {DG : Digest} (ct : ChainTypes) {L : Type} `{!LruCache L} {LM : Type} `{!LruMap LM Z} {X : Type}.
  #[local] Abbreviation G := (Peers L LM X).
  Context (adapter : ChainAdapter G).
  (** The clock in milliseconds; the random orders of peers and of what is in the store *)
  Variables (now : Z) (shuffle : list nat -> list nat) (shuffle_data : list PeerData -> list PeerData).
  Implicit Types (g : G) (r : nat) (a : PeerAddr).
  #[local] Abbreviation M := (vm G P2pError).
  #[local] Abbreviation seconds := (now / 1000).

Definition set_heap (h : nat -> Peer L LM) g : G := mkPeers h (store g) (peers g) (peers_config g) (chain_world g).
Definition set_store (s : PeerStore) g : G := mkPeers (heap g) s (peers g) (peers_config g) (chain_world g).
Definition set_peers (m : gmap AddrKey nat) g : G := mkPeers (heap g) (store g) m (peers_config g) (chain_world g).
Definition put_peer r (p : Peer L LM) g : G := set_heap (<[r := p]> (heap g)) g.
(** A call of a peer *)
Definition on_peer {A} r (c : vm (Peer L LM) P2pError A) : M A := fun g =>
  let '(x, p) := c (heap g r) in (x, put_peer r p g).
Definition remove_peer a g : G := set_peers (delete (addr_key a) (peers g)) g.
Definition addr_of g r : PeerAddr := peer_addr (info (heap g r)).

(** ** The store *)

(** [all_peers], [find_peers], [get_peer], [exists_peer], [save_peer], [update_state] *)
Definition peers_all_peers g : list PeerData := match store_all_peers seconds (store g) with Ok l => l | _ => [] end.
Definition peers_find_peers (s : PeerState) (cap : Capabilities) (count : nat) g : list PeerData :=
  match store_find_peers seconds shuffle_data s cap count (store g) with Ok l => l | _ => [] end.
Definition peers_get_peer a g : res P2pError PeerData := map_err PStore (store_get_peer seconds a (store g)).
Definition peers_exists_peer a g : res P2pError bool := Ok (store_exists_peer a (store g)).
Definition peers_save_peer (p : PeerData) : M unit := fun g => (Ok tt, set_store (store_save_peer p (store g)) g).
Definition peers_update_state a (s : PeerState) : M unit := fun g =>
  match store_update_state seconds a s (store g) with
  | Ok db => (Ok tt, set_store db g)
  | Err e => (Err (PStore e), g)
  | Panic => (Panic, g)
  end.
(** [remove_expired] *)
Definition expired (p : PeerData) : bool :=
  bool_decide (pd_flags p = Defunct) && (PEER_EXPIRATION_REMOVE_TIME * 1000 <? now - last_connected p * 1000).
Definition remove_expired g : G :=
  match store_delete_peers seconds expired (store g) with Ok db => set_store db g | _ => g end.

(** ** Connected peers *)

(** [add_connected], [add_banned] *)
Definition add_connected r : M unit := fun g =>
  let i := info (heap g r) in
  let peer_data := mkPeerData (peer_addr i) (peer_capabilities i) (user_agent i) Healthy 0 NoReason seconds in
  (let@ _ := peers_save_peer peer_data in fun g => (Ok tt, set_peers (<[addr_key (pd_addr peer_data) := r]> (peers g)) g)) g.
Definition add_banned a (reason : ReasonForBan) : M unit :=
  peers_save_peer (mkPeerData a UNKNOWN [] Banned seconds reason seconds).

(** [is_known], [connected_peers], [outgoing_connected_peers], [incoming_connected_peers], [get_connected_peer] *)
Definition is_known a g : res P2pError bool := Ok (bool_decide (is_Some (peers g !! addr_key a))).
Definition peer_values g : list nat := (map_to_list (peers g)).*2.
Definition connected_peers g : list nat := shuffle (List.filter (fun r => is_connected (heap g r)) (peer_values g)).
Definition outgoing_connected_peers g : list nat := List.filter (fun r => is_outbound (info (heap g r))) (connected_peers g).
Definition incoming_connected_peers g : list nat := List.filter (fun r => is_inbound (info (heap g r))) (connected_peers g).
Definition get_connected_peer a g : option nat := peers g !! addr_key a.
(** [peer_count], [peer_outbound_count], [peer_inbound_count], [enough_outbound_peers] *)
Definition peer_count g : Z := wrap32 (Z.of_nat (length (connected_peers g))).
Definition peer_outbound_count g : Z := wrap32 (Z.of_nat (length (outgoing_connected_peers g))).
Definition peer_inbound_count g : Z := wrap32 (Z.of_nat (length (incoming_connected_peers g))).
Definition enough_outbound_peers g : bool := peer_min_preferred_outbound_count (peers_config g) <=? peer_outbound_count g.

(** ** Work *)

Definition work_of g r : Z := num (peer_total_difficulty (info (heap g r))).
(** [more_work_peers], [more_or_same_work_peers], [more_work_peer] *)
Definition more_work_peers : vm G ErrorKind (list nat) := fun g =>
  match connected_peers g with
  | [] => (Ok [], g)
  | l => (let@ d := total_difficulty adapter in
          fun g => (Ok (shuffle (List.filter (fun r => num d <? work_of g r) l)), g)) g
  end.
Definition more_or_same_work_peers : vm G ErrorKind nat := fun g =>
  match connected_peers g with
  | [] => (Ok 0%nat, g)
  | l => (let@ d := total_difficulty adapter in
          fun g => (Ok (length (List.filter (fun r => num d <=? work_of g r) l)), g)) g
  end.
(** [Vec::pop] *)
Definition pop {A} (l : list A) : option A := hd_error (rev l).
Definition more_work_peer : vm G ErrorKind (option nat) := fun g =>
  match more_work_peers g with
  | (Ok l, g) => (Ok (pop l), g)
  | (Err _, g) => (Ok None, g)
  | (Panic, g) => (Panic, g)
  end.
(** [most_work_peers], [most_work_peer] *)
Definition most_work_peers g : list nat :=
  let l := connected_peers g in
  match map (work_of g) l with
  | [] => []
  | d :: ds =>
    let most := foldl Z.max d ds in
    shuffle (List.filter (fun r => work_of g r =? most) l)
  end.
Definition most_work_peer g : option nat := pop (most_work_peers g).

(** ** Bans *)

(** [is_banned], of [Peers] and of its adapter *)
Definition peers_is_banned a g : bool :=
  match store_get_peer seconds a (store g) with Ok p => bool_decide (pd_flags p = Banned) | _ => false end.
(** [ban_peer] *)
Definition ban_peer a (reason : ReasonForBan) : M unit :=
  let@ _ := peers_update_state a Banned in
  fun g =>
  match get_connected_peer a g with
  | Some r =>
    (let@ _ := on_peer r (send_ban_reason ct reason) in
     fun g =>
     let g := put_peer r (peer_stop (set_banned (heap g r))) g in
     (Ok tt, remove_peer (addr_of g r) g)) g
  | None => (Err PeerNotFound, g)
  end.
(** [unban_peer] *)
Definition unban_peer a : M unit := fun g =>
  match peers_get_peer a g with
  | Ok _ => if peers_is_banned a g then peers_update_state a Healthy g else (Err PeerNotBanned, g)
  | Err e => (Err e, g)
  | Panic => (Panic, g)
  end.

(** ** Broadcasts *)

(** A peer that cannot be sent to is stopped and removed. *)
Definition drop_peer r g : G := remove_peer (addr_of g r) (put_peer r (peer_stop (heap g r)) g).
Fixpoint broadcast_loop (inner : vm (Peer L LM) P2pError bool) (l : list nat) (count : Z) : M Z := fun g =>
  match l with
  | [] => (Ok count, g)
  | r :: l =>
    match on_peer r inner g with
    | (Ok true, g) => broadcast_loop inner l (wrap32 (count + 1)) g
    | (Ok false, g) => broadcast_loop inner l count g
    | (Err _, g) => broadcast_loop inner l count (drop_peer r g)
    | (Panic, g) => (Panic, g)
    end
  end.
(** [broadcast], [broadcast_compact_block], [broadcast_header], [broadcast_transaction] *)
Definition broadcast (inner : vm (Peer L LM) P2pError bool) : M Z := fun g => broadcast_loop inner (connected_peers g) 0 g.
Definition broadcast_compact_block (b : CompactBlock) : M Z := broadcast (send_compact_block ct b).
Definition broadcast_header (bh : BlockHeader) : M Z := broadcast (send_header ct bh).
Definition broadcast_transaction (tx : Transaction) : M Z := broadcast (send_transaction ct tx).
(** [check_all] *)
Definition check_all (d : Difficulty) (height : Z) : M Z := broadcast (let@ _ := send_ping ct d height in vret false).

(** ** Cleaning up *)

(** The first loop of [clean_peers]: the addresses to be removed *)
Fixpoint clean_loop (l : list nat) (rm : list PeerAddr) : M (list PeerAddr) := fun g =>
  match l with
  | [] => (Ok rm, g)
  | r :: l =>
    let p := heap g r in
    let a := peer_addr (info p) in
    if is_banned p then clean_loop l (rm ++ [a]) g
    else if negb (is_connected p) then clean_loop l (rm ++ [a]) g
    else if is_abusive p then clean_loop l (rm ++ [a]) (peers_update_state a Banned g).2
    else
      let '(stuck, diff) := is_stuck now p in
      match total_difficulty adapter g with
      | (Ok total, g) =>
        if stuck && (num diff <? num total) then clean_loop l (rm ++ [a]) (peers_update_state a Defunct g).2 else clean_loop l rm g
      | (Err _, g) => clean_loop l rm g
      | (Panic, g) => (Panic, g)
      end
  end.
(** The addresses of the peers above a limit *)
Definition excess (l : list nat) (max : Z) g : list PeerAddr :=
  map (addr_of g) (take (Z.to_nat (saturating_sub (wrap32 (Z.of_nat (length l))) max)) l).
(** The last loop: the peers are stopped and removed *)
Fixpoint remove_addrs (rm : list PeerAddr) g : G :=
  match rm with
  | [] => g
  | a :: rm =>
    let g := match peers g !! addr_key a with Some r => put_peer r (peer_stop (heap g r)) g | None => g end in
    remove_addrs rm (remove_peer a g)
  end.
(** [clean_peers] *)
Definition clean_peers (max_inbound_count max_outbound_count : Z) : M unit :=
  let@ rm := fun g => clean_loop (peer_values g) [] g in
  fun g =>
  let rm := rm ++ excess (outgoing_connected_peers g) max_outbound_count g in
  let rm := rm ++ excess (incoming_connected_peers g) max_inbound_count g in
  (Ok tt, remove_addrs rm g).

(** [stop] *)
Definition peers_stop g : G :=
  set_peers ∅ (foldl (fun g r => put_peer r (peer_stop (heap g r)) g) g (peer_values g)).

(** ** The adapter *)

(** What a peer sent was bad: it is banned *)
Definition or_ban (i : PeerInfo) (reason : ReasonForBan) (c : vm G ErrorKind bool) : vm G ErrorKind bool :=
  let@ ok := c in
  if negb ok then
    fun g =>
    match ban_peer (peer_addr i) reason g with
    | (Ok _, g) => (Ok false, g)
    | (Err _, g) => (Err COther, g)
    | (Panic, g) => (Panic, g)
    end
  else vret true.
(** [txhashset_write] answers whether the data was bad. *)
Definition peers_txhashset_write (h data : bytes) (i : PeerInfo) : vm G ErrorKind bool :=
  let@ bad := txhashset_write adapter h data i in
  if bad then
    fun g =>
    match ban_peer (peer_addr i) BadTxHashSet g with
    | (Ok _, g) => (Ok true, g)
    | (Err _, g) => (Err COther, g)
    | (Panic, g) => (Panic, g)
    end
  else vret false.

(** [peer_addrs_received] *)
Fixpoint peers_addrs_received (l : list PeerAddr) g : G :=
  match l with
  | [] => g
  | pa :: l =>
    match peers_exists_peer pa g with
    | Ok true => peers_addrs_received l g
    | _ => peers_addrs_received l (peers_save_peer (mkPeerData pa UNKNOWN [] Healthy 0 NoReason seconds) g).2
    end
  end.
(** [peer_difficulty] *)
Definition peers_peer_difficulty a (d : Difficulty) (height : Z) g : G :=
  match get_connected_peer a g with
  | Some r => put_peer r (with_info (peer_update now (info (heap g r)) height d) (heap g r)) g
  | None => g
  end.
(** [ChainAdapter for Peers], [NetAdapter for Peers] *)
Definition peers_adapter : NetAdapter G :=
  mkNetAdapter
    (mkChainAdapter
      (total_difficulty adapter) (total_height adapter) (transaction_received adapter) (get_transaction adapter) (tx_kernel_received adapter)
      (fun b i opts => or_ban i BadBlock (block_received adapter b i opts))
      (fun cb i => or_ban i BadCompactBlock (compact_block_received adapter cb i))
      (fun bh i => or_ban i BadBlockHeader (header_received adapter bh i))
      (fun hs i => or_ban i BadBlockHeader (headers_received adapter hs i))
      (locate_headers adapter) (get_block adapter) (kernel_data_read adapter) (kernel_data_write adapter)
      (txhashset_read adapter) (txhashset_archive_header adapter) (txhashset_receive_ready adapter) (txhashset_download_update adapter)
      peers_txhashset_write)
    (fun cap g => (map pd_addr (peers_find_peers Healthy cap (Z.to_nat MAX_PEER_ADDRS) g), g))
    peers_addrs_received peers_peer_difficulty
    (fun a g => (match peers_get_peer a g with Ok p => bool_decide (pd_flags p = Banned) | _ => false end, g)).

(** The cell of a peer in the heap *)
#[export] Instance heap_cell r : PeerCell L LM G.
Proof. refine {| cell g := heap g r; set_cell p g := put_peer r p g |}. intros p g. apply fn_lookup_insert. Defined.
End Peers.
