(* ===== verification/PeersTheorems.v ===== *)
(** * What the set of peers promises

    Over [Peers]: a banned peer is cut off, cleaning up leaves well-behaved peers within the limits, and broadcasts reach the
    peers that can be reached. *)

From Stdlib Require Import ZArith Lia List Bool Permutation.
From stdpp Require Import base numbers list option gmap fin_maps functions.
From S2P Require Import Prelude Bytes Consensus Ser Transaction TxBody Committed Verifier PowTypes Block CompactBlock Pow ChainTypes PeerTypes P2pMsg Handshake PeerStore Adapter Peer Peers.

Section PeersTheorems.
  Context {DG : Digest} (ct : ChainTypes) {L : Type} `{!LruCache L} {LM : Type} `{!LruMap LM Z} {X : Type}.
  #[local] Abbreviation G := (Peers L LM X).
  Context (adapter : ChainAdapter G).
  Variables (now : Z) (shuffle : list nat -> list nat).
  Hypothesis shuffle_perm : forall l, shuffle l ≡ₚ l.
  Implicit Types (g : G) (r : nat) (a : PeerAddr).

(** Every peer is in the map under the key of its own address. *)
Definition consistent g : Prop := forall k r, peers g !! k = Some r -> addr_key (addr_of g r) = k.

Lemma put_peer_heap r p g r' : heap (put_peer r p g) r' = if decide (r' = r) then p else heap g r'.
Proof. unfold put_peer, set_heap. cbn [heap]. destruct (decide (r' = r)) as [->|Hne]; [apply fn_lookup_insert|apply fn_lookup_insert_ne; done]. Qed.

Lemma put_peer_eq r p g : heap (put_peer r p g) r = p.
Proof. apply fn_lookup_insert. Qed.
Lemma put_peer_ne r r' p g : r' <> r -> heap (put_peer r p g) r' = heap g r'.
Proof. intros Hne. unfold put_peer, set_heap. cbn [heap]. apply fn_lookup_insert_ne. done. Qed.
Lemma consistent_inj g k k' r : consistent g -> peers g !! k = Some r -> peers g !! k' = Some r -> k = k'.
Proof. intros H H1 H2. apply H in H1, H2. congruence. Qed.
Lemma values_spec g r : r ∈ peer_values g <-> exists k, peers g !! k = Some r.
Proof.
  unfold peer_values. rewrite list_elem_of_fmap. split.
  - intros ([k r'] & -> & Hin). exists k. apply elem_of_map_to_list, Hin.
  - intros (k & Hk). exists (k, r). split; [done|]. apply elem_of_map_to_list, Hk.
Qed.
Lemma values_nodup g : consistent g -> base.NoDup (peer_values g).
Proof.
  intros Hc. unfold peer_values. apply NoDup_fmap_2_strong; [|apply NoDup_map_to_list]. intros [k r] [k' r'] H1 H2. cbn [snd]. intros ->.
  apply elem_of_map_to_list in H1, H2. rewrite (consistent_inj g k k' r' Hc H1 H2). done.
Qed.
Lemma connected_spec g r : r ∈ connected_peers shuffle g <-> (exists k, peers g !! k = Some r) /\ is_connected (heap g r) = true.
Proof.
  unfold connected_peers. rewrite (shuffle_perm _). rewrite list_elem_of_In, filter_In, <- list_elem_of_In, values_spec. done.
Qed.
Lemma connected_nodup g : consistent g -> base.NoDup (connected_peers shuffle g).
Proof.
  intros Hc. unfold connected_peers. rewrite (shuffle_perm _). apply NoDup_ListNoDup, NoDup_filter, NoDup_ListNoDup, values_nodup, Hc.
Qed.
Lemma outgoing_spec g r : r ∈ outgoing_connected_peers shuffle g <-> r ∈ connected_peers shuffle g /\ is_outbound (info (heap g r)) = true.
Proof. unfold outgoing_connected_peers. rewrite list_elem_of_In, filter_In, <- list_elem_of_In. done. Qed.
Lemma incoming_spec g r : r ∈ incoming_connected_peers shuffle g <-> r ∈ connected_peers shuffle g /\ is_inbound (info (heap g r)) = true.
Proof. unfold incoming_connected_peers. rewrite list_elem_of_In, filter_In, <- list_elem_of_In. done. Qed.

(** ** Bans *)

Lemma is_banned_table m g s a : peers_wf m -> store g = table_of m ->
  m !! as_key a = Some s -> peers_is_banned now a g = bool_decide (pd_flags s = Banned).
Proof. intros Hw Hs Hm. unfold peers_is_banned. rewrite Hs, table_get by exact Hw. rewrite Hm. done. Qed.

(** The entry of a banned peer *)
Definition banned_entry (p : PeerData) : PeerData :=
  mkPeerData (received (pd_addr p)) (pd_capabilities p) (pd_user_agent p) Banned (now / 1000) (pd_ban_reason p) (last_connected p).
Lemma ban_updates m g a p : peers_wf m -> peers_plain m -> store g = table_of m -> m !! as_key a = Some p ->
  peers_update_state now a Banned g = (Ok tt, set_store (table_of (<[as_key a := banned_entry p]> m)) g).
Proof. intros Hw Hp Hs Hm. unfold peers_update_state. rewrite Hs, update_state_spec by done. rewrite Hm. done. Qed.
Lemma banned_entry_wf m a p : - 2 ^ 63 <= now / 1000 < 2 ^ 63 -> peers_wf m -> peers_plain m -> m !! as_key a = Some p ->
  peers_wf (<[as_key a := banned_entry p]> m).
Proof.
  intros Hn Hw Hp Hm. destruct (Hw _ _ Hm) as [Hwp Hk]. apply map_Forall_insert_2; [|exact Hw]. split.
  - destruct Hwp as [H1 H2 H3 H4 H5]. split; try done. apply received_wf, H1.
  - unfold banned_entry. cbn [pd_addr]. rewrite plain_key; [exact Hk|]. apply (Hp _ _ Hm).
Qed.
Lemma banned_in_store m a p g : - 2 ^ 63 <= now / 1000 < 2 ^ 63 -> peers_wf m -> peers_plain m -> m !! as_key a = Some p ->
  store g = table_of (<[as_key a := banned_entry p]> m) -> peers_is_banned now a g = true.
Proof.
  intros Hn Hw Hp Hm Hs. rewrite (is_banned_table (<[as_key a := banned_entry p]> m) g (banned_entry p)); [done| |exact Hs|apply lookup_insert_eq].
  eapply banned_entry_wf; done.
Qed.

(** What is left of a peer that is banned *)
Definition cut_off (reason : ReasonForBan) (p p' : Peer L LM) : Prop :=
  state p' = StateBanned /\ stopped p' = true /\ info p' = info p /\
  send_channel p' = send_channel p ++
    (if (length (send_channel p) <? SEND_CHANNEL_CAP)%nat then [msg_new ct TBanReason (mkBanReason reason) (peer_version (info p))] else []).

Lemma ban_connected m g a p r reason : consistent g -> peers_wf m -> peers_plain m -> store g = table_of m -> m !! as_key a = Some p ->
  peers g !! addr_key a = Some r -> writer_gone (heap g r) = false ->
  exists g', ban_peer ct now a reason g = (Ok tt, g') /\ cut_off reason (heap g r) (heap g' r) /\
    (forall r', r' <> r -> heap g' r' = heap g r') /\ store g' = table_of (<[as_key a := banned_entry p]> m) /\
    peers g' = delete (addr_key a) (peers g) /\ chain_world g' = chain_world g.
Proof.
  intros Hc Hw Hp Hs Hm Hr Hg. unfold consistent, addr_of in Hc. unfold ban_peer, vbind at 1. rewrite (ban_updates m g a p) by done. unfold get_connected_peer. cbn [peers set_store]. rewrite Hr.
  unfold vbind, on_peer, send_ban_reason, peer_send, conn_send. cbn [heap set_store]. rewrite Hg.
  destruct (length (send_channel (heap g r)) <? SEND_CHANNEL_CAP)%nat eqn:Eq; cbn [snd fst]; (eexists; split; [reflexivity|]).
  all: unfold addr_of; rewrite !put_peer_eq; cbn [info peer_stop set_banned with_channel set_store heap]; unfold remove_peer, set_peers; rewrite (Hc _ _ Hr).
  all: cbn [store peers chain_world heap]; rewrite ?put_peer_eq; (split_and!; [|intros r' Hne; rewrite !put_peer_ne by done; done|done|done|done]).
  all: unfold cut_off; cbn [state stopped info send_channel peer_stop set_banned with_channel]; rewrite Eq, ?app_nil_r; done.
Qed.
Lemma ban_unreachable m g a p r reason : peers_wf m -> peers_plain m -> store g = table_of m -> m !! as_key a = Some p ->
  peers g !! addr_key a = Some r -> writer_gone (heap g r) = true ->
  exists g', ban_peer ct now a reason g = (Err PSend, g') /\ peers g' = peers g /\ store g' = table_of (<[as_key a := banned_entry p]> m) /\
    heap g' r = heap g r.
Proof.
  intros Hw Hp Hs Hm Hr Hg. unfold ban_peer, vbind at 1. rewrite (ban_updates m g a p) by done. unfold get_connected_peer. cbn [peers set_store]. rewrite Hr.
  unfold vbind, on_peer, send_ban_reason, peer_send, conn_send. cbn [heap set_store]. rewrite Hg. eexists. split; [reflexivity|].
  cbn [peers store put_peer set_heap set_store]. split_and!; [done|done|]. cbn [heap]. apply fn_lookup_insert.
Qed.
Lemma ban_unknown m g a reason : peers_wf m -> peers_plain m -> store g = table_of m -> m !! as_key a = None ->
  ban_peer ct now a reason g = (Err (PStore NotFoundErr), g).
Proof.
  intros Hw Hp Hs Hm. unfold ban_peer, vbind, peers_update_state. rewrite Hs, update_state_spec by done. rewrite Hm. done.
Qed.
Lemma ban_not_connected m g a p reason : peers_wf m -> peers_plain m -> store g = table_of m -> m !! as_key a = Some p -> peers g !! addr_key a = None ->
  ban_peer ct now a reason g = (Err PeerNotFound, set_store (table_of (<[as_key a := banned_entry p]> m)) g).
Proof.
  intros Hw Hp Hs Hm Hr. unfold ban_peer, vbind at 1. rewrite (ban_updates m g a p) by done. unfold get_connected_peer. cbn [peers set_store]. rewrite Hr. done.
Qed.

(** ** Cleaning up *)

(** A peer that has to go when the chain has the total difficulty [d] *)
Definition unfit (d : Difficulty) (p : Peer L LM) : bool :=
  is_banned p || negb (is_connected p) || is_abusive p || ((is_stuck now p).1 && (num (is_stuck now p).2 <? num d)).
(** The adapter answers with [d], whatever the store of peers holds. *)
Definition work_known (d : Difficulty) g : Prop := forall s, total_difficulty adapter (set_store s g) = (Ok d, set_store s g).

Lemma update_state_store a s g : exists db, (peers_update_state now a s g).2 = set_store db g.
Proof.
  unfold peers_update_state. destruct (store_update_state _ a s (store g)) as [db|e|]; [exists db; done| |]; exists (store g); destruct g; done.
Qed.
Lemma clean_loop_spec d l : forall rm g, work_known d g ->
  exists db, clean_loop adapter now l rm g = (Ok (rm ++ map (addr_of g) (List.filter (fun r => unfit d (heap g r)) l)), set_store db g).
Proof.
  induction l as [|r l IH]; intros rm g Hd; cbn [clean_loop List.filter].
  - exists (store g). rewrite app_nil_r. destruct g. done.
  - unfold unfit at 1. fold (addr_of g r).
    assert (Hyes : forall g', (exists db, g' = set_store db g) -> exists db, clean_loop adapter now l (rm ++ [addr_of g r]) g' =
      (Ok (rm ++ map (addr_of g) (r :: List.filter (fun r => unfit d (heap g r)) l)), set_store db g)).
    { intros g' (db & ->). destruct (IH (rm ++ [addr_of g r]) (set_store db g)) as (db' & E); [intros s; apply Hd|]. exists db'.
      rewrite E. cbn [map]. rewrite <- app_assoc. done. }
    destruct (is_banned (heap g r)); cbn [orb]; [apply Hyes; exists (store g); destruct g; done|].
    destruct (is_connected (heap g r)); cbn [negb orb]; [|apply Hyes; exists (store g); destruct g; done].
    destruct (is_abusive (heap g r)); cbn [orb]; [apply Hyes, update_state_store|].
    unfold is_stuck. cbn [fst snd]. specialize (Hd (store g)) as Hd0. replace (set_store (store g) g) with g in Hd0 by (destruct g; done). rewrite Hd0.
    destruct (_ && _); [apply Hyes, update_state_store|]. apply IH, Hd.
Qed.

(** Removing a list of addresses *)
Lemma remove_addrs_peers rm : forall g k, peers (remove_addrs rm g) !! k = if decide (k ∈ map addr_key rm) then None else peers g !! k.
Proof.
  induction rm as [|a rm IH]; intros g k; cbn [remove_addrs map].
  - rewrite decide_False; [done|]. apply not_elem_of_nil.
  - rewrite IH. assert (Hp : peers (remove_peer a (match peers g !! addr_key a with Some r => put_peer r (peer_stop (heap g r)) g | None => g end)) = delete (addr_key a) (peers g)).
    { destruct (peers g !! addr_key a); done. }
    rewrite Hp. destruct (decide (k = addr_key a)) as [->|Hne].
    + rewrite (decide_True (P := _ ∈ _ :: _)) by left. rewrite lookup_delete_eq. destruct (decide _); done.
    + rewrite lookup_delete_ne by done. destruct (decide (k ∈ map addr_key rm)) as [Hin|Hn].
      * rewrite decide_True by (right; done). done.
      * rewrite decide_False by (rewrite not_elem_of_cons; done). done.
Qed.
Definition same_but_stopped (p p' : Peer L LM) : Prop := p' = p \/ p' = peer_stop p.
Lemma stop_twice (p p' : Peer L LM) : same_but_stopped p p' -> same_but_stopped p (peer_stop p').
Proof. intros [->| ->]; right; done. Qed.
Lemma remove_addrs_heap rm : forall g r, same_but_stopped (heap g r) (heap (remove_addrs rm g) r).
Proof.
  induction rm as [|a rm IH]; intros g r; cbn [remove_addrs]; [left; done|]. set (g1 := remove_peer a _).
  assert (H1 : same_but_stopped (heap g r) (heap g1 r)).
  { subst g1. destruct (peers g !! addr_key a) as [r'|]; [|left; done]. cbn [heap remove_peer set_peers]. rewrite put_peer_heap. destruct (decide (r = r')) as [->|]; [right; done|left; done]. }
  destruct (IH g1 r) as [->| ->]; [exact H1|]. apply stop_twice, H1.
Qed.
Lemma remove_addrs_stays rm : forall g r, (forall k, peers g !! k = Some r -> k ∉ map addr_key rm) -> heap (remove_addrs rm g) r = heap g r.
Proof.
  induction rm as [|a rm IH]; intros g r Hr; cbn [remove_addrs]; [done|]. set (g1 := remove_peer a _).
  assert (Hp : peers g1 = delete (addr_key a) (peers g)) by (subst g1; destruct (peers g !! addr_key a); done).
  rewrite IH.
  - subst g1. destruct (peers g !! addr_key a) as [r'|] eqn:E; [|done]. cbn [heap remove_peer set_peers]. apply put_peer_ne. intros ->. apply (Hr _ E). left.
  - intros k Hk. rewrite Hp in Hk. apply lookup_delete_Some in Hk as [_ Hk]. apply Hr in Hk. rewrite map_cons, not_elem_of_cons in Hk. apply Hk.
Qed.
Lemma remove_addrs_stops rm : forall g k r, consistent g -> peers g !! k = Some r -> k ∈ map addr_key rm -> heap (remove_addrs rm g) r = peer_stop (heap g r).
Proof.
  induction rm as [|a rm IH]; intros g k r Hc Hr Hin; cbn [remove_addrs]; [inversion Hin|]. set (g1 := remove_peer a _).
  assert (Hp : peers g1 = delete (addr_key a) (peers g)) by (subst g1; destruct (peers g !! addr_key a); done).
  rewrite map_cons, elem_of_cons in Hin. destruct (decide (k = addr_key a)) as [->|Hne].
  - rewrite remove_addrs_stays.
    + subst g1. rewrite Hr. cbn [heap remove_peer set_peers]. apply put_peer_eq.
    + intros k' Hk'. rewrite Hp in Hk'. apply lookup_delete_Some in Hk' as [Hne Hk']. exfalso. apply Hne. apply (consistent_inj g _ _ r Hc Hr Hk').
  - destruct Hin as [->|Hin]; [done|].
    assert (Hh : heap g1 r = heap g r).
    { subst g1. destruct (peers g !! addr_key a) as [r'|] eqn:E; [|done]. cbn [heap remove_peer set_peers]. apply put_peer_ne. intros ->.
      apply Hne. apply (consistent_inj g _ _ r' Hc Hr E). }
    rewrite <- Hh. apply (IH g1 k r); [|rewrite Hp, lookup_delete_ne by done; exact Hr|exact Hin].
    intros k' r' Hk'. rewrite Hp in Hk'. apply lookup_delete_Some in Hk' as [Hne' Hk']. unfold addr_of. subst g1.
    destruct (peers g !! addr_key a) as [r0|] eqn:E; cbn [heap remove_peer set_peers]; [|apply Hc, Hk'].
    rewrite put_peer_heap. destruct (decide (r' = r0)) as [->|]; cbn [info peer_stop]; apply Hc, Hk'.
Qed.

(** What is left of a list without its first [n] items *)
Lemma rest_bounded (l l' : list nat) n : base.NoDup l' -> (forall r, r ∈ l' -> r ∈ l /\ r ∉ take n l) -> (length l' <= length l - n)%nat.
Proof.
  intros Hn Hl. rewrite <- length_drop. apply submseteq_length, NoDup_submseteq; [exact Hn|]. intros r Hr. destruct (Hl r Hr) as [Hin Hout].
  rewrite <- (take_drop n l), elem_of_app in Hin. tauto.
Qed.
Lemma excess_left (l : list nat) max : 0 <= max -> Z.of_nat (length l) < U32 ->
  Z.of_nat (length l - Z.to_nat (saturating_sub (wrap32 (Z.of_nat (length l))) max)) <= max.
Proof. intros Hm Hl. unfold wrap32, saturating_sub. rewrite Z.mod_small by lia. lia. Qed.

Section Clean.
  Variables (d : Difficulty) (max_in max_out : Z) (g : G).
  Hypothesis Hc : consistent g.
  Hypothesis Hd : work_known d g.
  Hypothesis Hsmall : Z.of_nat (length (connected_peers shuffle g)) < U32.
  Hypothesis Hmax : 0 <= max_in /\ 0 <= max_out.

Definition removed : list PeerAddr :=
  (map (addr_of g) (List.filter (fun r => unfit d (heap g r)) (peer_values g)) ++ excess (outgoing_connected_peers shuffle g) max_out g) ++
  excess (incoming_connected_peers shuffle g) max_in g.
Lemma clean_runs : exists db, clean_peers adapter now shuffle max_in max_out g = (Ok tt, remove_addrs removed (set_store db g)).
Proof. unfold clean_peers, vbind. destruct (clean_loop_spec d (peer_values g) [] g Hd) as (db & E). rewrite E. exists db. done. Qed.

(** A peer of the map is removed exactly when it is listed. *)
Lemma listed_ref (l : list nat) k r : (forall r', r' ∈ l -> exists k', peers g !! k' = Some r') -> peers g !! k = Some r ->
  (k ∈ map addr_key (map (addr_of g) l) <-> r ∈ l).
Proof.
  intros Hl Hk. rewrite map_map. rewrite list_elem_of_In, in_map_iff. split.
  - intros (r' & E & Hin). apply list_elem_of_In in Hin. destruct (Hl r' Hin) as (k' & Hk'). assert (k' = k) by (rewrite <- (Hc _ _ Hk'); exact E). subst k'. congruence.
  - intros Hin. exists r. split; [apply Hc, Hk|apply list_elem_of_In, Hin].
Qed.
Lemma removed_iff k r : peers g !! k = Some r ->
  (k ∈ map addr_key removed <-> unfit d (heap g r) = true \/
    r ∈ take (Z.to_nat (saturating_sub (wrap32 (Z.of_nat (length (outgoing_connected_peers shuffle g)))) max_out)) (outgoing_connected_peers shuffle g) \/
    r ∈ take (Z.to_nat (saturating_sub (wrap32 (Z.of_nat (length (incoming_connected_peers shuffle g)))) max_in)) (incoming_connected_peers shuffle g)).
Proof.
  intros Hk. unfold removed, excess. rewrite !map_app, !elem_of_app. rewrite (listed_ref (List.filter _ _) k r), !(listed_ref (take _ _) k r); try exact Hk.
  - rewrite list_elem_of_In, filter_In, <- list_elem_of_In, values_spec. split; [intros [[[? ?]|?]|?]; auto|]. intros [?|[?|?]]; [left; left; split; [exists k; done|done]|auto|auto].
  - intros r' Hin. apply (subseteq_take _ (incoming_connected_peers shuffle g)), incoming_spec in Hin as [Hin _]. apply connected_spec in Hin as [Hin _]. exact Hin.
  - intros r' Hin. apply (subseteq_take _ (outgoing_connected_peers shuffle g)), outgoing_spec in Hin as [Hin _]. apply connected_spec in Hin as [Hin _]. exact Hin.
  - intros r' Hin. apply list_elem_of_In, filter_In in Hin as [Hin _]. apply list_elem_of_In, values_spec in Hin. exact Hin.
Qed.

Lemma clean_keeps db k r : let g' := remove_addrs removed (set_store db g) in
  peers g' !! k = Some r -> peers g !! k = Some r /\ heap g' r = heap g r /\ k ∉ map addr_key removed.
Proof.
  intros g' Hk. subst g'. rewrite remove_addrs_peers in Hk. destruct (decide (k ∈ map addr_key removed)) as [|Hn]; [discriminate|]. cbn [peers set_store] in Hk.
  split; [exact Hk|]. split; [|exact Hn]. rewrite remove_addrs_stays; [done|]. intros k' Hk'. cbn [peers set_store] in Hk'. rewrite (consistent_inj g k' k r Hc Hk' Hk). exact Hn.
Qed.
Lemma clean_stays_connected db r : let g' := remove_addrs removed (set_store db g) in
  r ∈ connected_peers shuffle g' -> r ∈ connected_peers shuffle g /\ heap g' r = heap g r /\ exists k, peers g !! k = Some r /\ k ∉ map addr_key removed.
Proof.
  intros g' Hr. apply connected_spec in Hr as [(k & Hk) Hcon]. destruct (clean_keeps db k r Hk) as (Hk' & Hh & Hn). split_and!; [|exact Hh|exists k; done].
  apply connected_spec. split; [exists k; exact Hk'|]. unfold g' in Hcon. rewrite Hh in Hcon. exact Hcon.
Qed.
Lemma clean_consistent db : consistent (remove_addrs removed (set_store db g)).
Proof.
  intros k r Hk. destruct (clean_keeps db k r Hk) as (Hk' & Hh & _). unfold addr_of. rewrite Hh. apply Hc, Hk'.
Qed.
Lemma outgoing_bounded db : Z.of_nat (length (outgoing_connected_peers shuffle (remove_addrs removed (set_store db g)))) <= max_out.
Proof.
  pose proof (filter_length_le (fun r => is_outbound (info (heap g r))) (connected_peers shuffle g)) as Hlen.
  eapply Z.le_trans; [|apply (excess_left (outgoing_connected_peers shuffle g) max_out); [apply Hmax|unfold outgoing_connected_peers; lia]].
  apply Nat2Z.inj_le, rest_bounded.
  - unfold outgoing_connected_peers at 1. apply NoDup_ListNoDup, NoDup_filter, NoDup_ListNoDup, connected_nodup, clean_consistent.
  - intros r Hr. apply outgoing_spec in Hr as [Hr Ho]. destruct (clean_stays_connected db r Hr) as (Hr' & Hh & k & Hk & Hn). rewrite Hh in Ho.
    split; [apply outgoing_spec; done|]. rewrite (removed_iff k r Hk) in Hn. tauto.
Qed.
Lemma incoming_bounded db : Z.of_nat (length (incoming_connected_peers shuffle (remove_addrs removed (set_store db g)))) <= max_in.
Proof.
  pose proof (filter_length_le (fun r => is_inbound (info (heap g r))) (connected_peers shuffle g)) as Hlen.
  eapply Z.le_trans; [|apply (excess_left (incoming_connected_peers shuffle g) max_in); [apply Hmax|unfold incoming_connected_peers; lia]].
  apply Nat2Z.inj_le, rest_bounded.
  - unfold incoming_connected_peers at 1. apply NoDup_ListNoDup, NoDup_filter, NoDup_ListNoDup, connected_nodup, clean_consistent.
  - intros r Hr. apply incoming_spec in Hr as [Hr Ho]. destruct (clean_stays_connected db r Hr) as (Hr' & Hh & k & Hk & Hn). rewrite Hh in Ho.
    split; [apply incoming_spec; done|]. rewrite (removed_iff k r Hk) in Hn. tauto.
Qed.
Lemma clean_removes db k r : let g' := remove_addrs removed (set_store db g) in
  peers g !! k = Some r -> peers g' !! k = None -> heap g' r = peer_stop (heap g r).
Proof.
  intros g' Hk Hg. unfold g' in *. rewrite remove_addrs_peers in Hg. destruct (decide (k ∈ map addr_key removed)) as [Hin|]; [|cbn [peers set_store] in Hg; congruence].
  rewrite (remove_addrs_stops removed (set_store db g) k r); [done|exact Hc|exact Hk|exact Hin].
Qed.
(** Below the limits only unfit peers go. *)
Lemma clean_spares db k r : let g' := remove_addrs removed (set_store db g) in
  Z.of_nat (length (outgoing_connected_peers shuffle g)) <= max_out -> Z.of_nat (length (incoming_connected_peers shuffle g)) <= max_in ->
  peers g !! k = Some r -> unfit d (heap g r) = false -> peers g' !! k = Some r.
Proof.
  intros g' Ho Hi Hk Hu. unfold g'. rewrite remove_addrs_peers. rewrite decide_False; [exact Hk|]. rewrite (removed_iff k r Hk), Hu.
  unfold wrap32, saturating_sub. pose proof (filter_length_le (fun r => is_outbound (info (heap g r))) (connected_peers shuffle g)) as H1.
  pose proof (filter_length_le (fun r => is_inbound (info (heap g r))) (connected_peers shuffle g)) as H2. unfold outgoing_connected_peers, incoming_connected_peers in *.
  rewrite !Z.mod_small, !Z.max_l by lia. cbn [Z.to_nat take]. rewrite !elem_of_nil. intros [?|[?|?]]; [discriminate|done|done].
Qed.
End Clean.
End PeersTheorems.

(** C33: A ban cuts a peer off.  When the peer is known and connected, it is told the reason if there is room in its queue, it
    is stopped and taken out of the map, no other peer is touched, and from then on the node takes its address for banned, so
    that its handler hears nothing more of it.  A peer that can no longer be written to is banned in the store but stays
    connected; one that is not connected is banned in the store, and one that is not known is not. *)
Theorem banned_peers_are_cut_off {DG : Digest} (ct : ChainTypes) {L LM X : Type} `{!LruCache L} `{!LruMap LM Z} (adapter : ChainAdapter (Peers L LM X))
    (now : Z) (shuffle : list nat -> list nat) (shuffle_data : list PeerData -> list PeerData) (m : gmap (IpAddr * option Z) PeerData) (g : Peers L LM X) (a : PeerAddr) (reason : ReasonForBan) :
  - 2 ^ 63 <= now / 1000 < 2 ^ 63 -> consistent g -> peers_wf m -> peers_plain m -> store g = table_of m ->
  (forall p r, m !! as_key a = Some p -> peers g !! addr_key a = Some r -> writer_gone (heap g r) = false ->
     exists g', ban_peer ct now a reason g = (Ok tt, g') /\ cut_off ct reason (heap g r) (heap g' r) /\
       (forall r', r' <> r -> heap g' r' = heap g r') /\ peers g' = delete (addr_key a) (peers g) /\
       peers_is_banned now a g' = true /\ (adapter_is_banned (peers_adapter ct adapter now shuffle_data) a g').1 = true /\
       ((forall l, shuffle l ≡ₚ l) -> r ∉ connected_peers shuffle g')) /\
  (forall p r, m !! as_key a = Some p -> peers g !! addr_key a = Some r -> writer_gone (heap g r) = true ->
     exists g', ban_peer ct now a reason g = (Err PSend, g') /\ peers g' = peers g /\ heap g' r = heap g r /\ peers_is_banned now a g' = true) /\
  (forall p, m !! as_key a = Some p -> peers g !! addr_key a = None ->
     (ban_peer ct now a reason g).1 = Err PeerNotFound /\ peers_is_banned now a (ban_peer ct now a reason g).2 = true) /\
  (m !! as_key a = None -> ban_peer ct now a reason g = (Err (PStore NotFoundErr), g)).
Proof.
  intros Hn Hc Hw Hp Hs. split_and!.
  - intros p r Hm Hr Hg. destruct (ban_connected ct now m g a p r reason) as (g' & E & Hcut & Hoth & Hst & Hpe & _); try done.
    assert (Hb : peers_is_banned now a g' = true) by (eapply banned_in_store; done). exists g'. split_and!; try done.
    + cbn [adapter_is_banned peers_adapter fst]. unfold peers_is_banned in Hb. unfold peers_get_peer. destruct (store_get_peer _ a _); done.
    + intros Hsh Hin. apply (connected_spec shuffle Hsh) in Hin as [_ Hcon]. destruct Hcut as (Hstate & _). unfold is_connected in Hcon. rewrite Hstate in Hcon. done.
  - intros p r Hm Hr Hg. destruct (ban_unreachable ct now m g a p r reason) as (g' & E & Hpe & Hst & Hh); try done. exists g'. split_and!; try done.
    eapply banned_in_store; done.
  - intros p Hm Hr. rewrite (ban_not_connected ct now m g a p) by done. split; [done|]. cbn [snd]. eapply banned_in_store; done.
  - intros Hm. eapply ban_unknown; done.
Qed.

(** C34: Cleaning up leaves well-behaved peers within the limits.  Of the connected peers those that are banned, send too much, or
    are stuck with less work than the node go, then as many of either direction as are above its limit; whoever goes is
    stopped, whoever stays is as before, and below the limits nobody goes without a reason. *)
Theorem cleaning_keeps_the_limits {L LM X : Type} `{!LruCache L} `{!LruMap LM Z} (adapter : ChainAdapter (Peers L LM X))
    (now : Z) (shuffle : list nat -> list nat) (d : Difficulty) (max_in max_out : Z) (g : Peers L LM X) :
  (forall l, shuffle l ≡ₚ l) -> consistent g -> work_known adapter d g -> Z.of_nat (length (connected_peers shuffle g)) < U32 -> 0 <= max_in -> 0 <= max_out ->
  exists g', clean_peers adapter now shuffle max_in max_out g = (Ok tt, g') /\
    Z.of_nat (length (outgoing_connected_peers shuffle g')) <= max_out /\ Z.of_nat (length (incoming_connected_peers shuffle g')) <= max_in /\
    (forall k r, peers g' !! k = Some r -> peers g !! k = Some r /\ heap g' r = heap g r /\ unfit now d (heap g r) = false) /\
    (forall k r, peers g !! k = Some r -> peers g' !! k = None -> heap g' r = peer_stop (heap g r)) /\
    (Z.of_nat (length (outgoing_connected_peers shuffle g)) <= max_out -> Z.of_nat (length (incoming_connected_peers shuffle g)) <= max_in ->
     forall k r, peers g !! k = Some r -> unfit now d (heap g r) = false -> peers g' !! k = Some r).
Proof.
  intros Hsh Hc Hd Hl Hi Ho. destruct (clean_runs adapter now shuffle d max_in max_out g Hd) as (db & E). eexists. split; [exact E|]. split_and!.
  - eapply outgoing_bounded; done.
  - eapply incoming_bounded; done.
  - intros k r Hk. edestruct (clean_keeps now shuffle d max_in max_out g) as (H1 & H2 & H3); [exact Hc|exact Hk|]. split_and!; [done|exact H2|].
    rewrite removed_iff in H3 by (first [exact Hsh|exact Hc|exact H1]). destruct (unfit now d (heap g r)); [|done]. exfalso. apply H3. left. done.
  - intros k r. eapply clean_removes; done.
  - intros H1 H2 k r. eapply clean_spares; done.
Qed.
