(* ===== verification/Serv.v ===== *)
(** * Connecting to peers and being connected to

    Models [p2p/src/serv.rs]: which connections a node makes and takes, what it makes of a failed handshake, and the check for
    peers that claim too much work.

    A connection that is opened or accepted comes with its address, if that is known, and with the bytes the other side will
    send; connecting itself is an argument, and so are the clock and the random nonce.  A new peer is a new reference. *)

From Stdlib Require Import ZArith Lia List Bool Permutation.
From stdpp Require Import base numbers list option gmap fin_maps functions.
From S2P Require Import Prelude Bytes Consensus Ser Transaction TxBody Committed Verifier PowTypes Block CompactBlock Pow ChainTypes PeerTypes P2pMsg Handshake PeerStore Adapter Peer Peers PeersTheorems.

(** [Server]; [next_ref] is the next free reference of the heap of peers *)
Record Server (L LM X : Type) := mkServer {
  srv_handshake : Handshake; srv_peers : Peers L LM X; srv_stopped : bool; next_ref : nat }.
Arguments mkServer {L LM X}.
Arguments srv_handshake {L LM X}.
Arguments srv_peers {L LM X}.
Arguments srv_stopped {L LM X}.
Arguments next_ref {L LM X}.

Section Serv.
  Context {DG : Digest} (ct : ChainTypes) {L : Type} `{!LruCache L} {LM : Type} `{!LruMap LM Z} {X : Type}.
  #[local] Abbreviation G := (Peers L LM X).
  #[local] Abbreviation Server := (Server L LM X).
  Context (adapter : ChainAdapter G) (head_header : vm G ErrorKind BlockHeader) (config : P2PConfig) (server_capabilities : Capabilities).
  Variables (now : Z) (shuffle : list nat -> list nat).
  Implicit Types (s : Server) (a : PeerAddr).
  #[local] Abbreviation M := (vm Server P2pError).

(** Calls of the set of peers and of the chain *)
Definition on_peers {A} (c : vm G P2pError A) : M A := fun s =>
  let '(r, g) := c (srv_peers s) in (r, mkServer (srv_handshake s) g (srv_stopped s) (next_ref s)).
Definition on_chain {A} (c : vm G ErrorKind A) : M A := fun s =>
  let '(r, g) := c (srv_peers s) in (map_err PChain r, mkServer (srv_handshake s) g (srv_stopped s) (next_ref s)).
(** [Peer::new]: its threads run from now on *)
Definition new_peer (i : PeerInfo) : M nat := fun s =>
  (Ok (next_ref s), mkServer (srv_handshake s) (put_peer (next_ref s) (peer_new i) (srv_peers s)) (srv_stopped s) (S (next_ref s))).
Definition with_handshake (hs : Handshake) s : Server := mkServer hs (srv_peers s) (srv_stopped s) (next_ref s).

(** [check_is_legal] *)
Definition check_is_legal (r : nat) : M unit :=
  let@ head := on_chain head_header in
  let@ self_diff := on_chain (total_difficulty adapter) in
  fun s =>
  if (cut_through_horizon ct <=? saturating_sub (work_of (srv_peers s) r) (num self_diff)) && (now / 1000 - Block.timestamp head <? 86400)
  then (Err FraudNode, s) else (Ok tt, s).

(** [check_undesirable] *)
Definition check_undesirable (conn : option SocketAddr) s : bool :=
  let g := srv_peers s in
  if wrap32 (peer_max_inbound_count config + peer_listener_buffer_count config) <=? peer_inbound_count shuffle g then true
  else
    match conn with
    | Some addr =>
      let a := mkPeerAddr addr in
      if peers_is_banned now a g then true
      else match is_known a g with Ok false => false | _ => true end
    | None => false
    end.

(** [Peer::accept] and [Peer::connect], with the bytes sent *)
Definition peer_accept (d : Difficulty) (conn : option SocketAddr) (incoming : bytes) (s : Server) : res P2pError nat * Server * bytes :=
  let '(hs, out, r) := accept ct now (srv_handshake s) server_capabilities d conn incoming in
  let s := with_handshake hs s in
  match r with
  | Ok (i, _) => let '(r, s) := new_peer i s in (r, s, out)
  | Err e => (Err e, s, out)
  | Panic => (Panic, s, out)
  end.
Definition peer_connect (nonce : Z) (d : Difficulty) (self : PeerAddr) (conn : option SocketAddr) (incoming : bytes) (s : Server)
    : res P2pError nat * Server * bytes :=
  let '(hs, out, r) := initiate ct now (srv_handshake s) nonce server_capabilities d self conn incoming in
  let s := with_handshake hs s in
  match r with
  | Ok (i, _) => let '(r, s) := new_peer i s in (r, s, out)
  | Err e => (Err e, s, out)
  | Panic => (Panic, s, out)
  end.
(** The peer without the bytes *)
Definition quietly {A} (c : Server -> res P2pError A * Server * bytes) : M A := fun s => (c s).1.

(** [handle_new_peer] *)
Definition handle_new_peer (conn : option SocketAddr) (incoming : bytes) : M unit := fun s =>
  if srv_stopped s then (Err ConnectionClose, s)
  else
    (let@ total_diff := on_chain (total_difficulty adapter) in
     let@ r := quietly (peer_accept total_diff conn incoming) in
     fun s =>
     if peers_is_banned now (addr_of (srv_peers s) r) (srv_peers s) then (Err PBanned, s)
     else
       (let@ _ := check_is_legal r in
        on_peers (add_connected now r)) s) s.

(** The address of a listener's connection, an IPv6 form of an IPv4 address as that *)
Definition listener_addr (addr : SocketAddr) : PeerAddr :=
  match addr_ip addr with
  | Ipv6 segments => match to_ipv4 segments with Some ip => mkPeerAddr (socket_addr (Ipv4 ip) (addr_port addr)) | None => mkPeerAddr addr end
  | Ipv4 _ => mkPeerAddr addr
  end.
(** One connection accepted by [listen]: [addr] is the address the listener gives, [conn] the one the stream gives.  A panic
    unwinds the thread of the listener. *)
Definition accept_one (addr : SocketAddr) (conn : option SocketAddr) (incoming : bytes) : M unit := fun s =>
  if check_undesirable conn s then (Ok tt, s)
  else
    match handle_new_peer conn incoming s with
    | (Err ConnectionClose, s) => (Ok tt, s)
    | (Err _, s) =>
      let '(r, s) := on_peers (add_banned now (listener_addr addr) BadHandshake) s in
      (match r with Panic => Panic | _ => Ok tt end, s)
    | (Ok _, s) => (Ok tt, s)
    | (Panic, s) => (Panic, s)
    end.

(** [connect]; [dial] opens a connection *)
Definition connect (dial : PeerAddr -> option (option SocketAddr * bytes)) (nonce : Z) a : M nat := fun s =>
  if srv_stopped s then (Err ConnectionClose, s)
  else if is_denied config a then (Err ConnectionClose, s)
  else if is_production_mode ct && existsb (fun e => peer_addr_eq e a) (hs_addrs (srv_handshake s)) then (Err PeerWithSelf, s)
  else
    match get_connected_peer a (srv_peers s) with
    | Some r => (Ok r, s)
    | None =>
      match dial a with
      | Some (conn, incoming) =>
        (let@ total_diff := on_chain (total_difficulty adapter) in
         let@ r := quietly (peer_connect nonce total_diff (mkPeerAddr (socket_addr (host config) (config_port config))) conn incoming) in
         let@ _ := check_is_legal r in
         let@ _ := on_peers (add_connected now r) in
         vret r) s
      | None => (Err PConnection, s)
      end
    end.

(** [stop], [pause] *)
Definition server_stop s : Server := mkServer (srv_handshake s) (peers_stop (srv_peers s)) true (next_ref s).
Definition server_pause s : Server := mkServer (srv_handshake s) (peers_stop (srv_peers s)) (srv_stopped s) (next_ref s).
End Serv.

(** ** The number of incoming peers *)

Section Limits.
  Context {DG : Digest} (ct : ChainTypes) {L : Type} `{!LruCache L} {LM : Type} `{!LruMap LM Z} {X : Type}.
  #[local] Abbreviation G := (Peers L LM X).
  #[local] Abbreviation Server := (Server L LM X).
  Context (adapter : ChainAdapter G) (head_header : vm G ErrorKind BlockHeader) (config : P2PConfig) (server_capabilities : Capabilities).
  Variables (now : Z) (shuffle : list nat -> list nat).
  Hypothesis shuffle_perm : forall l, shuffle l ≡ₚ l.
  (** Asking the chain leaves the peers alone. *)
Definition queries (c : G -> G) : Prop := forall g, heap (c g) = heap g /\ peers (c g) = peers g.
  Hypothesis difficulty_queries : queries (fun g => (total_difficulty adapter g).2).
  Hypothesis head_queries : queries (fun g => (head_header g).2).

Definition inbound_limit : Z := peer_max_inbound_count config + peer_listener_buffer_count config.
Hypothesis limit_small : 0 <= inbound_limit < U32 - 1.

Definition inbound (g : G) : Z := Z.of_nat (length (incoming_connected_peers shuffle g)).
(** Every reference in the map is an old one, and the incoming peers are no more than [n]. *)
Definition within (n : Z) (s : Server) : Prop :=
  consistent (srv_peers s) /\ (forall k r, peers (srv_peers s) !! k = Some r -> (r < next_ref s)%nat) /\ inbound (srv_peers s) <= n.

(** States that the map and the old peers cannot tell apart *)
Definition alike (s s' : Server) : Prop :=
  peers (srv_peers s') = peers (srv_peers s) /\ (forall r, (r < next_ref s)%nat -> heap (srv_peers s') r = heap (srv_peers s) r) /\
  (next_ref s <= next_ref s')%nat.
Lemma alike_refl s : alike s s.
Proof. done. Qed.
Lemma alike_trans s1 s2 s3 : alike s1 s2 -> alike s2 s3 -> alike s1 s3.
Proof. intros (A1 & B1 & C1) (A2 & B2 & C2). split; [congruence|]. split; [|lia]. intros r Hr. rewrite B2 by lia. apply B1, Hr. Qed.
Lemma alike_incoming (s s' : Server) : (forall k r, peers (srv_peers s) !! k = Some r -> (r < next_ref s)%nat) -> alike s s' ->
  incoming_connected_peers shuffle (srv_peers s') = incoming_connected_peers shuffle (srv_peers s).
Proof.
  intros Hf (A & B & C). unfold incoming_connected_peers, connected_peers, peer_values. rewrite A.
  assert (Hv : forall r, In r (map_to_list (peers (srv_peers s))).*2 -> heap (srv_peers s') r = heap (srv_peers s) r).
  { intros r Hr. apply B. apply list_elem_of_In, (values_spec (srv_peers s)) in Hr as (k & Hk). apply (Hf _ _ Hk). }
  rewrite (filter_ext_in (fun r => is_connected (heap (srv_peers s') r)) (fun r => is_connected (heap (srv_peers s) r))) by (intros r Hr; rewrite Hv by exact Hr; done).
  apply filter_ext_in. intros r Hr. rewrite Hv; [done|]. apply (Permutation_in r (shuffle_perm _)) in Hr. apply filter_In in Hr. apply Hr.
Qed.
Lemma alike_within n s s' : alike s s' -> within n s -> within n s'.
Proof.
  intros Ha (H1 & H2 & H3). pose proof Ha as (A & B & C). split_and!.
  - intros k r Hk. rewrite A in Hk. unfold addr_of. rewrite B by (apply (H2 _ _ Hk)). apply H1, Hk.
  - intros k r Hk. rewrite A in Hk. specialize (H2 _ _ Hk). lia.
  - unfold inbound. rewrite (alike_incoming s s' H2 Ha). exact H3.
Qed.

Lemma on_chain_alike {A} (c : vm G ErrorKind A) s : queries (fun g => (c g).2) -> alike s (on_chain c s).2.
Proof.
  intros Hc. unfold on_chain. specialize (Hc (srv_peers s)). cbv beta in Hc. destruct (c (srv_peers s)) as [r g]. cbn [snd] in *. destruct Hc as [E1 E2].
  split_and!; [exact E2|cbn [srv_peers]; rewrite E1; done|done].
Qed.
Lemma new_peer_alike i s : alike s (new_peer i s).2.
Proof. split_and!; [done| |cbn; lia]. intros r Hr. cbn [srv_peers new_peer snd]. apply put_peer_ne. lia. Qed.
Lemma check_is_legal_alike r s : alike s (check_is_legal ct adapter head_header now r s).2.
Proof.
  unfold check_is_legal, vbind. pose proof (on_chain_alike head_header s head_queries) as A1. destruct (on_chain head_header s) as [[h|e|] s1]; try exact A1.
  pose proof (on_chain_alike (total_difficulty adapter) s1 difficulty_queries) as A2.
  destruct (on_chain (total_difficulty adapter) s1) as [[d|e|] s2]; cbn [snd] in *; try (eapply alike_trans; done). destruct (_ && _); eapply alike_trans; done.
Qed.

(** A peer that is added counts once at most. *)
Lemma add_connected_within n r s : within n s -> (r < next_ref s)%nat -> within (n + 1) (on_peers (add_connected now r) s).2.
Proof.
  intros (H1 & H2 & H3) Hr. unfold on_peers, add_connected, vbind, peers_save_peer. cbn [snd]. set (g := srv_peers s) in *.
  set (g' := set_peers _ _). assert (Hp : peers g' = <[addr_key (addr_of g r) := r]> (peers g)) by done. assert (Hh : heap g' = heap g) by done.
  assert (Hc : consistent g').
  { intros k r' Hk. unfold addr_of. rewrite Hh. rewrite Hp in Hk. apply lookup_insert_Some in Hk as [[<- <-]|[_ Hk]]; [done|apply H1, Hk]. }
  split_and!; [exact Hc| |].
  - intros k r' Hk. cbn [srv_peers next_ref] in *. rewrite Hp in Hk. apply lookup_insert_Some in Hk as [[_ <-]|[_ Hk]]; [exact Hr|apply (H2 _ _ Hk)].
  - cbn [srv_peers]. assert (Hl : (length (incoming_connected_peers shuffle g') <= length (r :: incoming_connected_peers shuffle g))%nat).
    { apply submseteq_length, NoDup_submseteq.
      - unfold incoming_connected_peers. apply NoDup_ListNoDup, NoDup_filter, NoDup_ListNoDup, connected_nodup; done.
      - intros r' Hin. apply incoming_spec in Hin as [Hin Hi]. apply connected_spec in Hin as [(k & Hk) Hcon]; [|exact shuffle_perm].
        rewrite Hp in Hk. rewrite Hh in Hcon, Hi. apply lookup_insert_Some in Hk as [[_ <-]|[_ Hk]]; [left|right].
        apply incoming_spec. split; [|exact Hi]. apply connected_spec; [exact shuffle_perm|]. split; [exists k; exact Hk|exact Hcon]. }
    unfold inbound in *. cbn [length] in Hl. lia.
Qed.

(** Greeting a new peer, whatever comes of it *)
Lemma handle_new_peer_within n conn incoming s : within n s -> within (n + 1) (handle_new_peer ct adapter head_header server_capabilities now conn incoming s).2.
Proof.
  intros Hw. assert (Hup : forall s', alike s s' -> within (n + 1) s').
  { intros s' Ha. destruct (alike_within n s s' Ha Hw) as (A & B & C). split_and!; [exact A|exact B|lia]. }
  unfold handle_new_peer. destruct (srv_stopped s); [apply Hup, alike_refl|]. unfold vbind at 1.
  pose proof (on_chain_alike (total_difficulty adapter) s difficulty_queries) as A1. destruct (on_chain (total_difficulty adapter) s) as [[d|e|] s1]; cbn [snd] in A1; try (apply Hup; exact A1).
  unfold vbind at 1, quietly, peer_accept. destruct (accept ct now (srv_handshake s1) server_capabilities d conn incoming) as [[hs out] [[i unread]|e|]]; cbn [fst snd];
    try (apply Hup; exact A1).
  assert (A2 : alike s (new_peer i (with_handshake hs s1)).2) by (apply (alike_trans s (with_handshake hs s1)); [exact A1|apply new_peer_alike]).
  destruct (new_peer i (with_handshake hs s1)) as [[r|e|] s2] eqn:En; cbn [fst snd] in *; try (apply Hup; exact A2).
  injection En as <- <-. destruct (peers_is_banned _ _ _); [apply Hup; exact A2|]. unfold vbind.
  match goal with |- context [check_is_legal ct adapter head_header now ?r ?x] => pose proof (check_is_legal_alike r x) as A3; destruct (check_is_legal ct adapter head_header now r x) as [[u|e|] s3] end;
    cbn [snd] in A3; try (apply Hup; eapply alike_trans; done).
  apply add_connected_within; [apply (alike_within n s); [eapply alike_trans; done|exact Hw]|]. destruct A3 as (_ & _ & A3). cbn [next_ref] in *. lia.
Qed.

Lemma add_banned_alike a reason s : alike s (on_peers (add_banned now a reason) s).2.
Proof. split_and!; done. Qed.
Lemma accept_one_within addr conn incoming s : within inbound_limit s ->
  within inbound_limit (accept_one ct adapter head_header config server_capabilities now shuffle addr conn incoming s).2.
Proof.
  intros Hw. unfold accept_one. destruct (check_undesirable config now shuffle conn s) eqn:Ec; [exact Hw|].
  assert (Hn : inbound (srv_peers s) < inbound_limit).
  { unfold check_undesirable, peer_inbound_count in Ec. destruct (Z.leb_spec (wrap32 (peer_max_inbound_count config + peer_listener_buffer_count config))
      (wrap32 (Z.of_nat (length (incoming_connected_peers shuffle (srv_peers s)))))) as [|Hlt]; [discriminate|].
    fold inbound_limit in Hlt. destruct Hw as (_ & _ & H3). unfold inbound in *. unfold wrap32 in Hlt. rewrite !Z.mod_small in Hlt by lia. exact Hlt. }
  assert (Hs : within (inbound (srv_peers s)) s) by (destruct Hw as (A & B & _); split_and!; [exact A|exact B|lia]).
  pose proof (handle_new_peer_within _ conn incoming s Hs) as Hh.
  assert (Hup : forall s', within (inbound (srv_peers s) + 1) s' -> within inbound_limit s') by (intros s' (A & B & C); split_and!; [exact A|exact B|lia]).
  destruct (handle_new_peer ct adapter head_header server_capabilities now conn incoming s) as [[u|e|] s1]; cbn [snd] in Hh; try (apply Hup, Hh).
  assert (Hb : within inbound_limit (on_peers (add_banned now (listener_addr addr) BadHandshake) s1).2).
  { apply (alike_within _ s1); [apply add_banned_alike|apply Hup, Hh]. }
  destruct (on_peers (add_banned now (listener_addr addr) BadHandshake) s1) as [rb s2]. cbn [snd] in Hb.
  destruct e; first [exact Hb|apply Hup, Hh].
Qed.

(** A connection to the listener: its address for the listener and for the stream, and what the other side sends *)
Definition Arrival : Type := SocketAddr * option SocketAddr * bytes.
(** One after the other, until one ends the listener *)
Fixpoint accept_all (l : list Arrival) : vm Server P2pError unit :=
  match l with
  | [] => vret tt
  | x :: l =>
    let@ _ := accept_one ct adapter head_header config server_capabilities now shuffle x.1.1 x.1.2 x.2 in
    accept_all l
  end.
Lemma accept_all_within l : forall s, within inbound_limit s -> within inbound_limit (accept_all l s).2.
Proof.
  induction l as [|x l IH]; intros s Hw; cbn [accept_all]; [exact Hw|]. unfold vbind.
  pose proof (accept_one_within x.1.1 x.1.2 x.2 s Hw) as H. destruct (accept_one _ _ _ _ _ _ _ _ _ _ s) as [[u|e|] s1]; [apply IH|..]; exact H.
Qed.
End Limits.

(** C35: However many peers connect and whatever they send, the node has no more incoming peers than its limit and the
    buffer of the listener allow, and every peer stays in the map under its own address.  A connection that is undesirable is
    closed before a byte of it is read, and a handshake that fails, unless because the node stops, bans the address; the listener
    goes on after both, and ends with a handshake that panics. *)
Theorem accepting_respects_the_limit {DG : Digest} (ct : ChainTypes) {L LM X : Type} `{!LruCache L} `{!LruMap LM Z} (adapter : ChainAdapter (Peers L LM X))
    (head_header : vm (Peers L LM X) ErrorKind BlockHeader) (config : P2PConfig) (caps : Capabilities) (now : Z) (shuffle : list nat -> list nat)
    (l : list Arrival) (s : Server L LM X) addr conn incoming :
  (forall l, shuffle l ≡ₚ l) -> queries (fun g => (total_difficulty adapter g).2) -> queries (fun g => (head_header g).2) ->
  0 <= inbound_limit config < U32 - 1 -> within shuffle (inbound_limit config) s ->
  let s' := (accept_all ct adapter head_header config caps now shuffle l s).2 in
  inbound shuffle (srv_peers s') <= inbound_limit config /\ consistent (srv_peers s') /\
  (check_undesirable config now shuffle conn s' = true ->
   accept_one ct adapter head_header config caps now shuffle addr conn incoming s' = (Ok tt, s')) /\
  (check_undesirable config now shuffle conn s' = false ->
   forall e s1, handle_new_peer ct adapter head_header caps now conn incoming s' = (Err e, s1) -> e <> ConnectionClose ->
   (accept_one ct adapter head_header config caps now shuffle addr conn incoming s').1 = Ok tt /\
   store (srv_peers (accept_one ct adapter head_header config caps now shuffle addr conn incoming s').2) =
   store_save_peer (mkPeerData (listener_addr addr) UNKNOWN [] Banned (now / 1000) BadHandshake (now / 1000)) (store (srv_peers s1))) /\
  (check_undesirable config now shuffle conn s' = false ->
   forall s1, handle_new_peer ct adapter head_header caps now conn incoming s' = (Panic, s1) ->
   accept_one ct adapter head_header config caps now shuffle addr conn incoming s' = (Panic, s1)).
Proof.
  intros Hsh Hd Hh Hl Hw s'. assert (Hw' : within shuffle (inbound_limit config) s') by (apply accept_all_within; done).
  destruct Hw' as (Hc & _ & Hi). split_and!; [exact Hi|exact Hc| | |].
  - intros Hu. unfold accept_one. rewrite Hu. done.
  - intros Hu e s1 E Hne. unfold accept_one. rewrite Hu, E. destruct e; done.
  - intros Hu s1 E. unfold accept_one. rewrite Hu, E. done.
Qed.
