(* ===== verification/PeersExamples.v ===== *)
(** * The set of peers on concrete inputs

    Witnesses of the theorems of [PeersTheorems] and [Serv]: a node with two peers. *)

From Stdlib Require Import ZArith Lia List Bool Permutation.
From stdpp Require Import base numbers list option gmap fin_maps functions.
From S2P Require Import Prelude Bytes Consensus Ser Transaction TxBody Committed Verifier PowTypes Block CompactBlock Pow ChainTypes PeerTypes P2pMsg Handshake PeerStore P2pExamples Adapter Peer Protocol Conn ConnTheorems ConnExamples Peers PeersTheorems Serv.

#[local] Instance few_bytes : Digest := {| blake2b b := take 32 (b ++ replicate 32 0); sha256 b := take 32 (b ++ replicate 32 0) |}.
#[local] Abbreviation Node := (Peers (list bytes) (list (bytes * Z)) unit).

(** An adapter of a chain with total difficulty 100 *)
Definition still_adapter : ChainAdapter Node :=
  mkChainAdapter (vret (mkDifficulty 100)) (vret 5) (fun _ _ => vret true) (fun _ w => (None, w)) (fun _ _ => vret true)
    (fun _ _ _ => vret true) (fun _ _ => vret true) (fun _ _ => vret true) (fun _ _ => vret true)
    (fun _ => vret []) (fun _ w => (None, w)) (vret []) (fun _ => vret true) (fun _ w => (None, w)) (vlift (Err COther))
    (fun w => (true, w)) (fun _ _ _ w => (true, w)) (fun _ _ _ => vret false).

Definition info_at (last : Z) (d : Direction) : PeerInfo := mkPeerInfo FULL_NODE USER_AGENT 2 (addr_at last 3514) d (live_info_new 1000 (mkDifficulty 10)).
Definition node_heap (r : nat) : Peer (list bytes) (list (bytes * Z)) :=
  match r with O => peer_new (info_at 2 Inbound) | _ => peer_new (info_at 3 Outbound) end.
Definition data_at (last : Z) : PeerData := mkPeerData (addr_at last 3514) FULL_NODE USER_AGENT Healthy 0 NoReason 1600000000.
Definition node_table : gmap (IpAddr * option Z) PeerData := {[ as_key (addr_at 2 3514) := data_at 2 ]}.
Definition node : Node :=
  mkPeers node_heap (table_of node_table) (<[addr_key (addr_at 2 3514) := 0%nat]> {[ addr_key (addr_at 3 3514) := 1%nat ]}) p2p_config_default tt.

Lemma node_consistent : consistent node.
Proof.
  intros k r. cbn [peers node]. rewrite lookup_insert_Some, lookup_singleton_Some. intros [[<- <-]|(_ & <- & <-)]; reflexivity.
Qed.
Lemma node_store : peers_wf node_table /\ peers_plain node_table.
Proof.
  split; apply map_Forall_singleton.
  - split; [|done]. split; [apply addr_at_wf; lia|apply full_node_wf|apply user_agent_wf|cbn; lia|cbn; lia].
  - split; [apply addr_at_wf; lia|done].
Qed.

Lemma banned_peers_are_cut_off_witness : exists g',
  ban_peer AutomatedTesting 1700000000000 (addr_at 2 3514) BadBlock node = (Ok tt, g') /\ peers g' = {[ addr_key (addr_at 3 3514) := 1%nat ]} /\
  peers_is_banned 1700000000000 (addr_at 2 3514) g' = true.
Proof.
  destruct node_store as [Hw Hp].
  destruct (banned_peers_are_cut_off AutomatedTesting still_adapter 1700000000000 (fun l => l) (fun l => l) node_table node (addr_at 2 3514) BadBlock) as (H & _).
  - vm_compute. split; congruence.
  - apply node_consistent.
  - exact Hw.
  - exact Hp.
  - reflexivity.
  - destruct (H (data_at 2) 0%nat) as (g' & E & _ & _ & Hpe & Hb & _); [apply lookup_singleton_eq|apply lookup_insert_eq|reflexivity|].
    exists g'. split; [exact E|]. split; [rewrite Hpe; cbn [peers node]; apply delete_insert_id, lookup_singleton_ne; done|exact Hb].
Defined.

(** The outgoing peer goes when no outgoing peer is allowed. *)
Lemma cleaning_keeps_the_limits_witness : exists g', clean_peers still_adapter 2000 (fun l => l) 5 0 node = (Ok tt, g') /\
  Z.of_nat (length (outgoing_connected_peers (fun l => l) g')) <= 0 /\ Z.of_nat (length (incoming_connected_peers (fun l => l) g')) <= 5.
Proof.
  destruct (cleaning_keeps_the_limits still_adapter 2000 (fun l => l) (mkDifficulty 100) 5 0 node) as (g' & E & Ho & Hi & _).
  - done.
  - apply node_consistent.
  - intros s. reflexivity.
  - vm_compute. reflexivity.
  - lia.
  - lia.
  - exists g'. exact (conj E (conj Ho Hi)).
Defined.

(** A stranger that sends a hand is accepted; one that sends something else is banned. *)
Definition server : Server (list bytes) (list (bytes * Z)) unit := mkServer a_side node false 2.
Definition a_hand : bytes :=
  (initiate Mainnet 10 a_side 77 FULL_NODE (mkDifficulty 90) (addr_at 1 3514) (Some (peer_socket (addr_at 2 3514))) []).1.2.
Definition arrivals : list Arrival :=
  [(peer_socket (addr_at 4 9), Some (peer_socket (addr_at 4 9)), a_hand); (peer_socket (addr_at 5 9), Some (peer_socket (addr_at 5 9)), [1; 2])].
Definition after_arrivals : Server (list bytes) (list (bytes * Z)) unit :=
  (accept_all Mainnet still_adapter (vret (demo_header 1)) p2p_config_default FULL_NODE 2000 (fun l => l) arrivals server).2.
Example arrivals_handled :
  inbound (fun l => l) (srv_peers after_arrivals) = 2 /\ peers_is_banned 2000 (addr_at 5 9) (srv_peers after_arrivals) = true /\
  peers_is_banned 2000 (addr_at 4 9) (srv_peers after_arrivals) = false.
Proof. vm_compute. done. Qed.
Lemma accepting_respects_the_limit_witness : inbound (fun l => l) (srv_peers after_arrivals) <= 136 /\ consistent (srv_peers after_arrivals).
Proof.
  destruct (accepting_respects_the_limit Mainnet still_adapter (vret (demo_header 1)) p2p_config_default FULL_NODE 2000 (fun l => l) arrivals server
    (peer_socket (addr_at 4 9)) None []) as (H1 & H2 & _).
  - done.
  - done.
  - done.
  - vm_compute. split; congruence.
  - split; [apply node_consistent|]. split; [|vm_compute; congruence].
    intros k r. cbn [srv_peers server peers node next_ref]. rewrite lookup_insert_Some, lookup_singleton_Some. intros [[_ <-]|(_ & _ & <-)]; lia.
  - split; [exact H1|exact H2].
Defined.

(** A node that meets itself bans its own address. *)
Definition self_side : Handshake := next_nonce 77 a_side.
Example own_address_is_banned :
  peers_is_banned 2000 (addr_at 6 9)
    (srv_peers (accept_one Mainnet still_adapter (vret (demo_header 1)) p2p_config_default FULL_NODE 2000 (fun l => l)
       (peer_socket (addr_at 6 9)) (Some (peer_socket (addr_at 6 9))) a_hand (mkServer self_side node false 2)).2) = true.
Proof. vm_compute. reflexivity. Qed.

(** A peer that claims too much work is refused, and is left running outside the map. *)
Definition boasting : bytes :=
  (initiate Mainnet 10 a_side 78 FULL_NODE (mkDifficulty 100000) (addr_at 1 3514) (Some (peer_socket (addr_at 2 3514))) []).1.2.
Definition young_header : BlockHeader := demo_header 1.
Example refused_peer_keeps_running :
  let '(r, s) := handle_new_peer Mainnet still_adapter (vret young_header) FULL_NODE 1600000001000 (Some (peer_socket (addr_at 7 9))) boasting server in
  r = Err FraudNode /\ stopped (heap (srv_peers s) 2%nat) = false /\ is_connected (heap (srv_peers s) 2%nat) = true /\
  get_connected_peer (addr_at 7 9) (srv_peers s) = None.
Proof. vm_compute. done. Qed.
